(* ===== verification/_CoqProject ===== *)
-Q . S2P
Prelude.v
Path.v
Bytes.v
Vfs.v
Store.v
Superblock.v
Bitmap.v
Inode.v
Dir.v
EfsVfs.v
BlockMap.v
FileData.v
EfsFiles.v
DirSpec.v
CreateSpec.v
MakeSpec.v
EfsTheorems.v
Buddy.v
BuddySpec.v
PageCacheSpec.v
BuddyTheorems.v
Slab.v
SlabSpec.v
SlabTheorems.v
Shell.v
ShellGrammar.v
ShellTheorems.v
PageTable.v
PtTree.v
PtOps.v
PtRange.v
PtIter.v
PtUnmap.v
PtVmap.v
PtTheorems.v
Vm.v
VmCore.v
VmOps.v
VmSpace.v
VmAreas.v
VmFork.v
VmDrop.v
Exec.v
ExecFork.v
ExecStack.v
ExecImage.v
VmHistory.v
VmTheorems.v
Pipe.v
PipeSpec.v
PipeLive.v
PipeTheorems.v
InodeOps.v
HashMap.v
RamFs.v
RamFsInv.v
RamFsOps.v
RamFsMethods.v
RamFsClient.v
RamFsTheorems.v
InodeRefs.v
Pathname.v
Mount.v
MountSpec.v
MountTheorems.v
MountRefs.v
Fcntl.v
FcntlRefs.v
FcntlFiles.v
FcntlTheorems.v
Tty.v
TtyTheorems.v
Sched.v
SchedSpec.v
Task.v
TaskOps.v
TaskCalls.v
TaskExit.v
TaskTheorems.v
TaskHistory.v
