(* ===== verification/Prelude.v ===== *)
(** * Redwing OS: a verification development

    Redwing is a small operating system for RISC-V, written in Rust: a kernel
    with processes, signals, pipes, virtual memory and a terminal
    (src/kernel), file systems (src/fs), libraries shared by kernel and user
    programs (src/common, src/ulib), user programs with a shell (src/user) and
    a tool that makes volumes (src/mkfs).  This library is a shallow embedding
    of the parts of it that compute, with the theorems that say what they
    guarantee.  Definitions keep the names of the source.

    ** How the code is modelled

    Code that may fail or panic is a computation of type [M S E A] (this
    file): a function from a state [S] to an outcome ([Ok], [Err] or [Panic])
    and a new state, so what was assigned before an error stays assigned.
    [wp m Q R s] says that [m], run in [s], does not panic and ends in [Q] or,
    with an error, in [R]; the theorems about partial code are total
    statements of this form.  Integers are [Z] with their width written where
    it matters: file system code is checked as in the development profile,
    where an overflow panics; the scheduler wraps as in the release profile.
    Hash maps are finite maps, [Arc] and [Weak] are counts and addresses
    where dropping has effects.  A section of code under a lock is one step;
    code that gives up the processor or a lock is cut there, and the theorems
    speak of every interleaving of the steps.

    Parts meet at type classes: [Store.BlockStore] between file system and
    cache, [InodeOps.VfsINodeOps] between file systems, mount layer and
    system calls, [PageTable.PageAlloc] between page tables and allocator,
    [Slab.FrameAlloc] between slabs and page allocator,
    [Sched.Scheduler] between tasks and schedulers, [Tty.TextScreen] between
    terminal and UART.  The laws are classes as well ([TokenSource],
    [PageAllocLaws], [FrameLaws], [SchedulerLaws], [ScreenLaws], [TreeLaws], [RefLaws],
    [PipeLaws], [PlainFile]); clients are proved against the laws, and the
    implementations modelled here are proved to have them.  Third-party code
    is a class too: the hash map of hashbrown ([HashMap]) and the red-black
    tree of intrusive-collections ([Sched.RBTree]), each with laws and an
    instance that shows that they can be met, and the allocator of
    linked_list_allocator for large objects ([Slab.LargeHeap]), of which
    nothing is assumed.

    ** The files

    - [Prelude], [Bytes]: the monad and its rules, slices, little-endian
      integers in buffers.
    - [Path] (common/path): the double-ended iterator over the components of
      a path refines a queue of its components.
    - [Vfs] (fs/redwing_vfs error.rs and name.rs, common/syserr): error kinds
      and valid names.
    - [Store], [Superblock], [Bitmap], [Inode], [Dir], [EfsVfs]
      (fs/redwing_efs): the file system on disk.  [BlockMap], [FileData],
      [EfsFiles], [DirSpec], [CreateSpec], [MakeSpec], [EfsTheorems]: the
      cache is transparent and [sync_all] makes it durable; a new volume is
      well formed; reading and writing through an inode are those of a list
      of bytes and leave other files alone, on every error; lookup and
      creation are those of a map from names to inodes.
    - [Buddy] (mmu/buddy.rs, types.rs), [BuddySpec], [PageCacheSpec],
      [BuddyTheorems]: allocation and release as operations on a set of free
      blocks; and the functions of the kernel, with a list of pages for every
      CPU in front, as a machine of all CPUs ([Machine], [run_event]), which
      takes the lock anew for every page of a batch: in every interleaving
      nothing panics, blocks do not overlap and no memory is lost.
    - [Slab] (mmu/slab.rs, heap.rs), [SlabSpec], [SlabTheorems]: slabs with
      their lists of free objects threaded through memory, and the array
      caches, are a memory of separate objects whose statistics are exact and
      whose frames all come back, as long as other code does not write where
      the list of a former slab still leads.
    - [PageTable] (arch/riscv64/pgtable.rs, mmu/pgtable.rs), [PtTree],
      [PtOps], [PtRange], [PtIter], [PtUnmap], [PtVmap], [PtTheorems]: a page table refines a partial map from pages
      to physical pages with permissions; no page is lost.
    - [Vm] (mmu/vm.rs, vm_area.rs): address spaces that share one physical
      memory, the pages with their bytes.  [VmCore], [VmOps]: the
      invariant of page tables, pages and allocator, and what a change of one
      space leaves alone; [VmSpace], [VmAreas], [VmFork], [VmDrop]: each
      operation.
    - [Exec] (proc/exec.rs, elf.rs, arch/riscv64/ctx.rs and, for how a
      program reads its arguments, ulib/rw_ulib/src/env.rs), [ExecFork],
      [ExecStack], [ExecImage]: fork and execve.  [VmHistory],
      [VmTheorems]: in every sequence of calls by any tasks,
      with files that can be loaded and breaks off the ends of page tables,
      nothing panics and no task changes the memory of another; without errors every page has exactly one owner; fork copies, execve loads the
      segments, and the program reads back the strings it was given.
    - [Shell] (user/src/sh), [ShellGrammar], [ShellTheorems]: the parser
      accepts exactly the language of a grammar and builds its trees, and
      arguments that are quoted with escapes are read back.
    - [Pipe] (pipe.rs, sync/wait.rs), [PipeSpec], [PipeLive], [PipeTheorems]:
      pipes under every interleaving: order and loss of bytes, wake-ups,
      termination.
    - [InodeOps], [HashMap], [RamFs] (fs/redwing_ram, fs/vfs/dev.rs,
      devices/mod.rs), [RamFsInv], [RamFsOps], [RamFsMethods],
      [RamFsClient], [RamFsTheorems]: the file systems in memory with exact
      reference counts: no use after free, no garbage, well-typed trees.
    - [InodeRefs], [Pathname], [Mount] (fs/vfs/mount.rs),
      [MountSpec], [MountTheorems], [MountRefs]: the mount layer
      resolves names in the grafted tree.
    - [Fcntl] (fs/fcntl.rs, file.rs, pathname.rs, syscall/fs.rs and the
      descriptor table of proc/task.rs), [FcntlRefs],
      [FcntlFiles], [FcntlTheorems]: system calls of several tasks over
      memory file systems mounted on each other neither panic nor lose references; descriptors
      behave as files with a position.
    - [Tty] (devices/tty, devices/terminal.rs, drivers/uart.rs),
      [TtyTheorems]: line editing refines an editor with a cursor, the screen
      shows the line, readers get the lines.
    - [Sched] (proc/sched), [SchedSpec]; [Task] (proc/task.rs, group.rs,
      session.rs, signal.rs, id.rs, sync/wait.rs, timer_events.rs, the trap
      return path), [TaskOps], [TaskCalls], [TaskExit],
      [TaskTheorems], [TaskHistory]: tasks on several processors with timers,
      signals, wait queues, groups and sessions; a task is in the run queue
      exactly while it is runnable, nothing panics but the creation of a
      kernel task for which there is no memory or no room, and a status passed
      to exit is what wait returns.

    Theorems whose names tell of something going wrong ([tty_lost_wakeup],
    [orphan_wakeup_lost], [range_end_wraps], [fork_loses_pages],
    [interrupt_deadlock], [slab_stale_list], ...) are runs of the modelled
    code that its authors cannot have wanted.

    ** Bounds and fuel

    Recursion that is not structural takes fuel, and the theorems show that
    it is enough, because running out panics or would break the result: the
    length of a path for the iterator over components and for path
    resolution; the size of a directory in entries for the loops over it; the
    number of tokens for the shell parser; the number of objects on the heap
    plus one for the cascade of drops; the pages of a range and the entries
    of two tables for the iterator over page tables; the pages of a segment
    and two for loading it; the size limit of the environment for the length of
    a string on the stack; the bytes left for reads
    and writes by blocks; the number of orders for splitting and merging
    blocks; the objects of a block plus one for the loop that fills a slab,
    two turns for the loop that finds an empty slab or makes one, and the
    nodes in memory plus one for dropping a list of free objects; 20 digits for printing a 64-bit number; the length of the queue
    for [signal_all], during which the queue is locked; the bytes in the
    receive queue of the UART for one interrupt.

    ** What is not modelled

    Machine registers, assembly, interrupt control and atomic instructions:
    locks are taken to work, and sections under them are steps (a slab
    operation keeps the locks that it takes until it has taken the last one,
    and is one step).  The virtio
    driver, whose partner is a device; the block device is a class instead.
    The mapping of the kernel at start; names and kernel stacks of tasks; the
    list of registered slab allocators.  The
    dispatch of system calls, which is generated
    and checks raw user pointers.  The proc file system, text made from
    statistics: its files are those of the memory file system with a provider
    that is a parameter.  The shell interpreter, the user library apart
    from the reading of arguments, the other
    user programs and mkfs, which are sequences of system calls of their
    host.  Messages, logging and formatting. *)

From stdpp Require Export base list gmap numbers strings.
From Stdlib Require Export ZArith Lia.

(** [lia] also solves goals with divisions and remainders. *)
Ltac Zify.zify_post_hook ::= Z.to_euclidean_division_equations.

(** The lemmas that close the routine goals of the file system proofs. *)
Create HintDb efs discriminated.

(** ** Outcomes

    A fallible Rust function returns [Result<T, E>]; [assert!], [unwrap] on an
    empty option, slice indexing and overflow of the arithmetic operators can
    also stop the program.  [outcome] has a constructor for each. *)
Inductive outcome (E A : Type) : Type :=
| Ok (a : A)
| Err (e : E)
| Panic.
Arguments Ok {E A} a.
Arguments Err {E A} e.
Arguments Panic {E A}.

(** ** The state and error monad

    Rust does not undo the stores of a computation that returns an error, so
    the final state is kept on every outcome. *)
Definition M (S E A : Type) : Type := S -> outcome E A * S.

Definition ret {S E A} (a : A) : M S E A := fun s => (Ok a, s).
Definition fail {S E A} (e : E) : M S E A := fun s => (Err e, s).
Definition panic {S E A} : M S E A := fun s => (Panic, s).

Definition bind {S E A B} (m : M S E A) (k : A -> M S E B) : M S E B :=
  fun s => match m s with
           | (Ok a, s') => k a s'
           | (Err e, s') => (Err e, s')
           | (Panic, s') => (Panic, s')
           end.

Definition get {S E} : M S E S := fun s => (Ok s, s).
Definition put {S E} (s' : S) : M S E unit := fun _ => (Ok tt, s').
Definition modify {S E} (f : S -> S) : M S E unit := fun s => (Ok tt, f s).

(** [assert!(b)]: stops the program when [b] is false. *)
Definition assert_ {S E} (b : bool) : M S E unit :=
  if b then ret tt else panic.

(** [opt.ok_or(e)?] *)
Definition ok_or {S E A} (o : option A) (e : E) : M S E A :=
  match o with Some a => ret a | None => fail e end.

(** [opt.unwrap()] *)
Definition unwrap {S E A} (o : option A) : M S E A :=
  match o with Some a => ret a | None => panic end.

(** [match m { Err(e) => h(e), ok => ok }] *)
Definition catch {S E A} (m : M S E A) (h : E -> M S E A) : M S E A :=
  fun s => match m s with
           | (Err e, s') => h e s'
           | r => r
           end.

(** A computation on the second component of a pair, for code that works on a
    borrowed part of the state (the first component) and on the rest of it. *)
Definition lift {X S E A} (m : M S E A) : M (X * S) E A :=
  fun '(x, s) => let (r, s') := m s in (r, (x, s')).

Definition get_focus {X S E} : M (X * S) E X := fun '(x, s) => (Ok x, (x, s)).
Definition put_focus {X S E} (x' : X) : M (X * S) E unit := fun '(_, s) => (Ok tt, (x', s)).

(** [&mut l[i]]: a computation on one element; out of range indexing panics. *)
Definition focus_nth {X S E A} (i : Z) (m : M (X * S) E A) : M (list X * S) E A :=
  fun '(l, s) =>
    match l !! Z.to_nat i with
    | Some x => let '(r, (x', s')) := m (x, s) in (r, (<[Z.to_nat i := x']> l, s'))
    | None => (Panic, (l, s))
    end.

Declare Scope rw_scope.
Delimit Scope rw_scope with rw.
Notation "'do' x <- m ; k" := (bind m (fun x => k))
  (at level 10, x pattern, m at level 100, k at level 200) : rw_scope.
Notation "m ;; k" := (bind m (fun _ => k))
  (at level 100, k at level 200, right associativity) : rw_scope.

(** ** Weakest preconditions

    [wp m Q R s]: run from [s], the computation does not panic, its result
    satisfies [Q] when it is [Ok] and [R] when it is [Err]. *)
Definition wp {S E A} (m : M S E A) (Q : A -> S -> Prop) (R : E -> S -> Prop) (s : S) : Prop :=
  match m s with
  | (Ok a, s') => Q a s'
  | (Err e, s') => R e s'
  | (Panic, _) => False
  end.

Section wp_rules.
Context {S E : Type}.

Lemma wp_ret {A} (a : A) Q (R : E -> S -> Prop) s : Q a s -> wp (ret a) Q R s.
Proof. done. Qed.

Lemma wp_fail {A} e (Q : A -> S -> Prop) (R : E -> S -> Prop) s : R e s -> wp (fail e) Q R s.
Proof. done. Qed.

Lemma wp_bind {A B} (m : M S E A) (k : A -> M S E B) Q R s :
  wp m (fun a s' => wp (k a) Q R s') R s -> wp (bind m k) Q R s.
Proof. unfold wp, bind. destruct (m s) as [[] s']; auto. Qed.

Lemma wp_mono {A} (m : M S E A) (Q Q' : A -> S -> Prop) (R R' : E -> S -> Prop) s :
  wp m Q R s -> (forall a s', Q a s' -> Q' a s') -> (forall e s', R e s' -> R' e s') -> wp m Q' R' s.
Proof. unfold wp. destruct (m s) as [[] s']; auto. Qed.

Lemma wp_catch {A} (m : M S E A) (h : E -> M S E A) Q R s :
  wp m Q (fun e s' => wp (h e) Q R s') s -> wp (catch m h) Q R s.
Proof. unfold wp, catch. destruct (m s) as [[] s']; auto. Qed.

Lemma wp_assert b (Q : unit -> S -> Prop) (R : E -> S -> Prop) s :
  b = true -> Q tt s -> wp (assert_ b) Q R s.
Proof. by intros ->. Qed.

(** From a [wp] to what a run returns. *)
Lemma wp_run {A} (m : M S E A) Q R s a s' : wp m Q R s -> m s = (Ok a, s') -> Q a s'.
Proof. unfold wp. intros H Hm. by rewrite Hm in H. Qed.

Lemma wp_run_err {A} (m : M S E A) Q R s e s' : wp m Q R s -> m s = (Err e, s') -> R e s'.
Proof. unfold wp. intros H Hm. by rewrite Hm in H. Qed.
End wp_rules.

(** Computations on a part of the state. *)
Section wp_parts.
Context {X S E : Type}.

Lemma wp_lifted {B} (m : M S E B) (Q : B -> X * S -> Prop) (F : E -> X * S -> Prop) x s :
  wp m (fun b s' => Q b (x, s')) (fun e s' => F e (x, s')) s -> wp (lift m) Q F (x, s).
Proof. unfold wp, lift. by destruct (m s) as [[]]. Qed.

Lemma wp_lift_seq {B C} (m : M S E B) (n : M S E C) (Q : C -> X * S -> Prop) (F : E -> X * S -> Prop) x s :
  wp (bind m (fun _ => n)) (fun c s' => Q c (x, s')) (fun e s' => F e (x, s')) s -> wp (bind (lift m) (fun _ => lift n)) Q F (x, s).
Proof. unfold wp, bind, lift. destruct (m s) as [[b|e|] s1]; [|done|done]. by destruct (n s1) as [[]]. Qed.

Lemma wp_focus (Q : X -> X * S -> Prop) (F : E -> X * S -> Prop) x s : Q x (x, s) -> wp get_focus Q F (x, s).
Proof. done. Qed.

Lemma wp_refocus (Q : unit -> X * S -> Prop) (F : E -> X * S -> Prop) x x' s : Q tt (x', s) -> wp (put_focus x') Q F (x, s).
Proof. done. Qed.

Lemma wp_seq {B C D} (m : M S E B) (f : B -> M S E C) (g : C -> M S E D) (Q' : C -> S -> Prop) (Q : D -> S -> Prop) (F : E -> S -> Prop) s :
  wp (bind m f) Q' F s -> (forall c s', Q' c s' -> wp (g c) Q F s') -> wp (bind m (fun b => bind (f b) g)) Q F s.
Proof.
  unfold wp, bind. destruct (m s) as [[b|e|] s1]; [|done|done]. intros H1 H2. destruct (f b s1) as [[c|e|] s2]; [by apply H2|done|done].
Qed.

Lemma wp_unwrap {B} (o : option B) b (Q : B -> S -> Prop) (F : E -> S -> Prop) s : o = Some b -> Q b s -> wp (unwrap o) Q F s.
Proof. by intros ->. Qed.
End wp_parts.

(** ** Byte strings

    A byte is a [Z] between 0 and 255; literals are written as strings. *)
Fixpoint bytes_of (s : string) : list Z :=
  match s with
  | EmptyString => []
  | String c s' => Z.of_nat (Ascii.nat_of_ascii c) :: bytes_of s'
  end.

(** [&buf[i..j]] for [i <= j <= buf.len()]. *)
Definition slice {A} (i j : nat) (l : list A) : list A := take (j - i) (drop i l).

Section slices.
Context {A : Type}.
Implicit Types l : list A.

Lemma slice_nil_r i l : slice i i l = [].
Proof. unfold slice. by rewrite Nat.sub_diag. Qed.

Lemma slice_length i j l : i <= j <= length l -> length (slice i j l) = j - i.
Proof. intros. unfold slice. rewrite length_take, length_drop. lia. Qed.

Lemma slice_full l : slice 0 (length l) l = l.
Proof. unfold slice. rewrite drop_0. apply take_ge. lia. Qed.

Lemma slice_split i k j l : i <= k <= j -> slice i j l = slice i k l ++ slice k j l.
Proof.
  intros. unfold slice. replace (j - i) with ((k - i) + (j - k)) by lia.
  rewrite <- take_take_drop, drop_drop. by replace (i + (k - i)) with k by lia.
Qed.

Lemma slice_cons i j l x : i < j -> l !! i = Some x -> slice i j l = x :: slice (S i) j l.
Proof.
  intros Hij Hx. unfold slice. rewrite (drop_S _ _ _ Hx).
  replace (j - i) with (S (j - S i)) by lia. done.
Qed.

Lemma slice_snoc i j l x : i <= j -> l !! j = Some x -> slice i (S j) l = slice i j l ++ [x].
Proof.
  intros Hij Hx. rewrite (slice_split i j (S j)) by lia.
  rewrite (slice_cons j (S j) l x), slice_nil_r by (lia || done). done.
Qed.
End slices.
