(* ===== verification/Path.v ===== *)
(** * Paths (src/common/path/src/lib.rs)

    A path is a byte string; [Components] iterates over its components from
    both ends with two cursors into the buffer.  The file translates the
    iterator and the queries of [Path] built on it, gives a reference
    definition of the components of a path (split at the slashes, drop the
    empty and dot segments except a leading one), and shows that the iterator
    is a double-ended queue of exactly these components. *)

From S2P Require Import Prelude.

Module Path.

Inductive Component : Type :=
| RootDir
| CurDir
| ParentDir
| Normal (name : list Z).

#[export] Instance Component_eq_dec : EqDecision Component.
Proof. solve_decision. Defined.

Notation slash := 47%Z.
Notation dot := 46%Z.

Definition as_bytes (c : Component) : list Z :=
  match c with
  | RootDir => [slash]
  | CurDir => [dot]
  | ParentDir => [dot; dot]
  | Normal comp => comp
  end.

(** ** The iterator *)

Record Components : Type := mkComponents {
  buf : list Z;
  front : nat;
  back : nat
}.

Definition Components_new (path : list Z) : Components :=
  mkComponents path 0 (length path).

Definition is_slash (o : option Z) : bool := bool_decide (o = Some slash).

(** [while end < self.back && self.buf[end] != b'/' { end += 1 }], [k] being
    the number [self.back - end] of positions left. *)
Fixpoint scan_fwd (b : list Z) (k e : nat) : nat :=
  match k with
  | 0 => e
  | S k' => if is_slash (b !! e) then e else scan_fwd b k' (S e)
  end.

(** [while end > self.front && self.buf[end - 1] == b'/' { end -= 1 }]. *)
Fixpoint skip_slashes_back (b : list Z) (f e : nat) : nat :=
  match e with
  | 0 => 0
  | S e' => if (f <? S e') && is_slash (b !! e') then skip_slashes_back b f e' else S e'
  end.

(** [while start > self.front && self.buf[start - 1] != b'/' { start -= 1 }]. *)
Fixpoint scan_back (b : list Z) (f s : nat) : nat :=
  match s with
  | 0 => 0
  | S s' => if (f <? S s') && negb (is_slash (b !! s')) then scan_back b f s' else S s'
  end.

(** [Iterator::next]; the recursive call happens after an empty or a dot
    segment, which leaves fewer bytes in the window. *)
Fixpoint next_fuel (n : nat) (c : Components) : option Component * Components :=
  match n with
  | 0 => (None, c)
  | S n' =>
    if front c =? back c then (None, c) else
    let start := front c in
    let e := scan_fwd (buf c) (back c - start) start in
    let f' := if (e <? back c) && is_slash (buf c !! e) then S e else e in
    let c' := mkComponents (buf c) f' (back c) in
    let s := slice start e (buf c) in
    if decide (s = []) then
      if start =? 0 then (Some RootDir, c') else next_fuel n' c'
    else if decide (s = [dot]) then
      if start =? 0 then (Some CurDir, c') else next_fuel n' c'
    else if decide (s = [dot; dot]) then (Some ParentDir, c')
    else (Some (Normal s), c')
  end.

Definition next (c : Components) : option Component * Components :=
  next_fuel (S (back c - front c)) c.

(** [DoubleEndedIterator::next_back]. *)
Fixpoint next_back_fuel (n : nat) (c : Components) : option Component * Components :=
  match n with
  | 0 => (None, c)
  | S n' =>
    if front c =? back c then (None, c) else
    let e := skip_slashes_back (buf c) (front c) (back c) in
    let start := scan_back (buf c) (front c) e in
    let component := slice start e (buf c) in
    let c' := mkComponents (buf c) (front c) start in
    if decide (component = []) then
      if start =? 0 then (Some RootDir, c') else next_back_fuel n' c'
    else if decide (component = [dot]) then
      if start =? 0 then (Some CurDir, c') else next_back_fuel n' c'
    else if decide (component = [dot; dot]) then (Some ParentDir, c')
    else (Some (Normal component), c')
  end.

Definition next_back (c : Components) : option Component * Components :=
  next_back_fuel (S (back c - front c)) c.

(** [while e != 0 && self.buf[e] == b'/' { e -= 1 }]. *)
Fixpoint strip_trailing (b : list Z) (e : nat) : nat :=
  match e with
  | 0 => 0
  | S e' => if is_slash (b !! S e') then strip_trailing b e' else S e'
  end.

Definition as_path (c : Components) : list Z :=
  match back c with
  | 0 => []
  | S b' => slice (front c) (S (strip_trailing (buf c) b')) (buf c)
  end.

(** All items that [next] yields, as [collect] gives them. *)
Fixpoint collect_fuel (n : nat) (c : Components) : list Component :=
  match n with
  | 0 => []
  | S n' => match next c with
            | (Some x, c') => x :: collect_fuel n' c'
            | (None, _) => []
            end
  end.

Definition components (p : list Z) : list Component :=
  collect_fuel (S (length p)) (Components_new p).

(** ** Queries of [Path] *)

Definition parent (p : list Z) : option (list Z) :=
  match next_back (Components_new p) with
  | (Some (Normal _), c) | (Some ParentDir, c) => Some (as_path c)
  | _ => None
  end.

Definition name (p : list Z) : option (list Z) :=
  match next_back (Components_new p) with
  | (Some (Normal n), _) => Some n
  | _ => None
  end.

Definition iter (p : list Z) : list (list Z) := as_bytes <$> components p.

Definition is_absolute (p : list Z) : bool := is_slash (head p).
Definition is_relative (p : list Z) : bool := negb (is_absolute p).

Definition ends_with (p suf : list Z) : bool :=
  bool_decide (drop (length p - length suf) p = suf).

Definition is_dir (p : list Z) : bool :=
  ends_with p [slash]
  || ends_with p [slash; dot]
  || bool_decide (p = [dot])
  || ends_with p [slash; dot; dot]
  || bool_decide (p = [dot; dot]).

Definition is_file (p : list Z) : bool := negb (is_dir p).

Definition is_root (p : list Z) : bool :=
  match next_back (Components_new p) with
  | (Some RootDir, _) => true
  | _ => false
  end.

(** ** Reference definition of the components of a path *)

Fixpoint split_slash (p : list Z) : list (list Z) :=
  match p with
  | [] => [[]]
  | x :: p' =>
    if decide (x = slash) then [] :: split_slash p'
    else match split_slash p' with
         | s :: ss => (x :: s) :: ss
         | [] => [[x]]
         end
  end.

Definition tail_comp (s : list Z) : list Component :=
  if decide (s = []) then []
  else if decide (s = [dot]) then []
  else if decide (s = [dot; dot]) then [ParentDir]
  else [Normal s].

Definition head_comp (s : list Z) : list Component :=
  if decide (s = []) then [RootDir]
  else if decide (s = [dot]) then [CurDir]
  else tail_comp s.

Definition tail_components (w : list Z) : list Component :=
  flat_map tail_comp (split_slash w).

Definition head_components (w : list Z) : list Component :=
  match split_slash w with
  | s :: ss => head_comp s ++ flat_map tail_comp ss
  | [] => []
  end.

Definition components_spec (p : list Z) : list Component :=
  if decide (p = []) then [] else head_components p.

(** The components that an iterator state has still to yield. *)
Definition remaining (c : Components) : list Component :=
  let w := slice (front c) (back c) (buf c) in
  if front c =? 0 then components_spec w else tail_components w.

Definition wf (c : Components) : Prop := front c <= back c <= length (buf c).

(** ** Lemmas on the reference definition *)

Definition no_slash (s : list Z) : Prop := slash ∉ s.
Definition all_slash (s : list Z) : Prop := Forall (fun x => x = slash) s.

Lemma split_slash_ne p : split_slash p <> [].
Proof. destruct p; simpl; [done|]. case_decide; [done|]. by destruct (split_slash p). Qed.

Lemma split_slash_app a b : split_slash (a ++ slash :: b) = split_slash a ++ split_slash b.
Proof.
  induction a as [|x a IH]; simpl; [done|].
  case_decide; [by rewrite IH|]. rewrite IH.
  pose proof (split_slash_ne a). by destruct (split_slash a).
Qed.

Lemma split_no_slash s : no_slash s -> split_slash s = [s].
Proof.
  unfold no_slash. induction s as [|x s IH]; simpl; [done|]. intros Hn.
  rewrite decide_False by set_solver. rewrite IH by set_solver. done.
Qed.

Lemma tail_components_app a b :
  tail_components (a ++ slash :: b) = tail_components a ++ tail_components b.
Proof. unfold tail_components. by rewrite split_slash_app, flat_map_app. Qed.

Lemma head_components_app a b :
  head_components (a ++ slash :: b) = head_components a ++ tail_components b.
Proof.
  unfold head_components. rewrite split_slash_app. pose proof (split_slash_ne a).
  destruct (split_slash a) as [|s ss]; [done|]. simpl.
  by rewrite flat_map_app, app_assoc.
Qed.

Lemma components_spec_app a b :
  components_spec (a ++ slash :: b) = head_components a ++ tail_components b.
Proof.
  unfold components_spec. rewrite decide_False by (by destruct a).
  apply head_components_app.
Qed.

Lemma tail_components_no_slash s : no_slash s -> tail_components s = tail_comp s.
Proof. intros. unfold tail_components. rewrite split_no_slash by done. simpl. by rewrite app_nil_r. Qed.

Lemma head_components_no_slash s : no_slash s -> head_components s = head_comp s.
Proof. intros. unfold head_components. rewrite split_no_slash by done. simpl. by rewrite app_nil_r. Qed.

Lemma tail_components_slashes a z : all_slash z -> tail_components (a ++ z) = tail_components a.
Proof.
  intros Hz. revert a. induction Hz as [|x z -> _ IH]; intros a; [by rewrite app_nil_r|].
  rewrite tail_components_app. change z with ([] ++ z). rewrite IH. by rewrite app_nil_r.
Qed.

Lemma head_components_slashes a z : all_slash z -> head_components (a ++ z) = head_components a.
Proof.
  intros [|x z' -> Hz]; [by rewrite app_nil_r|].
  rewrite head_components_app. change z' with ([] ++ z').
  rewrite tail_components_slashes by done. by rewrite app_nil_r.
Qed.

(** ** The scanning loops *)

Lemma scan_fwd_spec b k s : s + k <= length b ->
  let e := scan_fwd b k s in
  s <= e <= s + k /\ no_slash (slice s e b) /\ (e < s + k -> b !! e = Some slash).
Proof.
  revert s. induction k as [|k IH]; intros s Hs; simpl.
  - rewrite slice_nil_r. repeat split; try lia. by apply not_elem_of_nil.
  - unfold is_slash. case_bool_decide as Hc.
    + rewrite slice_nil_r. repeat split; try lia; [by apply not_elem_of_nil|done].
    + destruct (lookup_lt_is_Some_2 b s) as [x Hx]; [lia|].
      destruct (IH (S s)) as (?&Hn&?); [lia|].
      repeat split; [lia|lia| |intros; apply H0; lia].
      rewrite (slice_cons s _ b x) by (lia || done). unfold no_slash in *.
      rewrite not_elem_of_cons. split; [congruence|done].
Qed.

Lemma skip_slashes_back_spec b f e0 : f <= e0 <= length b ->
  let e := skip_slashes_back b f e0 in
  f <= e <= e0 /\ all_slash (slice e e0 b) /\ (e = f \/ exists e', e = S e' /\ b !! e' <> Some slash).
Proof.
  induction e0 as [|e0 IH]; intros Hf; simpl.
  - rewrite slice_nil_r. repeat split; try lia. constructor.
  - unfold is_slash. case_bool_decide as Hc; rewrite ?andb_true_r, ?andb_false_r.
    + case_match eqn:Hlt.
      * apply Nat.ltb_lt in Hlt. destruct IH as (?&Hn&?); [lia|].
        repeat split; [lia|lia| |done].
        rewrite (slice_snoc _ _ b slash) by (lia || done). apply Forall_app; auto.
      * apply Nat.ltb_ge in Hlt. rewrite slice_nil_r. repeat split; try lia. constructor.
    + rewrite slice_nil_r. repeat split; try lia; [constructor|eauto].
Qed.

Lemma scan_back_spec b f e : f <= e <= length b ->
  let s := scan_back b f e in
  f <= s <= e /\ no_slash (slice s e b) /\ (s = f \/ exists s', s = S s' /\ b !! s' = Some slash).
Proof.
  induction e as [|e IH]; intros Hf; simpl.
  - rewrite slice_nil_r. repeat split; try lia. by apply not_elem_of_nil.
  - unfold is_slash. case_bool_decide as Hc; simpl; rewrite ?andb_true_r, ?andb_false_r.
    + rewrite slice_nil_r. repeat split; try lia; [by apply not_elem_of_nil|eauto].
    + case_match eqn:Hlt.
      * apply Nat.ltb_lt in Hlt. destruct IH as (?&Hn&?); [lia|].
        destruct (lookup_lt_is_Some_2 b e) as [x Hx]; [lia|].
        repeat split; [lia|lia| |done].
        rewrite (slice_snoc _ _ b x) by (lia || done). unfold no_slash in *.
        rewrite not_elem_of_app, list_elem_of_singleton. split; congruence.
      * apply Nat.ltb_ge in Hlt. rewrite slice_nil_r. repeat split; try lia. by apply not_elem_of_nil.
Qed.

(** ** The iterator is a double-ended queue of the components *)

(** What one call of [next] or [next_back] has to satisfy: [add] puts the
    item it yields back in front of, or behind, what remains. *)
Definition step_ok (add : Component -> list Component -> list Component)
    (c : Components) (r : option Component * Components) : Prop :=
  wf r.2 /\ buf r.2 = buf c /\
  match r.1 with
  | Some x => remaining c = add x (remaining r.2) /\ back r.2 - front r.2 < back c - front c
  | None => remaining c = [] /\ remaining r.2 = []
  end.

Lemma remaining_empty c : front c = back c -> remaining c = [].
Proof.
  intros H. unfold remaining. rewrite H, slice_nil_r. by destruct (_ =? 0).
Qed.

(** The window of [next] starts with a segment without a slash; what is left
    after it is the window of the advanced iterator. *)
Lemma next_window c : wf c -> front c <> back c ->
  let e := scan_fwd (buf c) (back c - front c) (front c) in
  let f' := if (e <? back c) && is_slash (buf c !! e) then S e else e in
  front c < f' <= back c /\ no_slash (slice (front c) e (buf c)) /\
  remaining c = (if front c =? 0 then head_comp else tail_comp) (slice (front c) e (buf c))
                ++ remaining (mkComponents (buf c) f' (back c)).
Proof.
  intros [Hw1 Hw2] Hne e f'.
  destruct (scan_fwd_spec (buf c) (back c - front c) (front c)) as (He&Hn&Hs); [lia|].
  fold e in He, Hn, Hs. replace (front c + (back c - front c)) with (back c) in * by lia.
  assert (Hrem : forall f, 0 < f -> remaining (mkComponents (buf c) f (back c))
    = tail_components (slice f (back c) (buf c))).
  { intros f Hf. unfold remaining. simpl. by destruct f; [lia|]. }
  assert (Hhd : slice (front c) (back c) (buf c) <> []).
  { intros Hx. apply (f_equal length) in Hx. rewrite slice_length in Hx by lia. simpl in Hx. lia. }
  subst f'. destruct (Nat.ltb_spec e (back c)) as [Hlt|Hge]; simpl.
  - unfold is_slash. rewrite bool_decide_true by (apply Hs; lia).
    split; [lia|split; [done|]]. rewrite Hrem by lia. unfold remaining.
    rewrite (slice_split (front c) e (back c)), (slice_cons e (back c) (buf c) slash) in * by (lia || auto).
    destruct (front c =? 0).
    + by rewrite components_spec_app, head_components_no_slash.
    + by rewrite tail_components_app, tail_components_no_slash.
  - assert (e = back c) as Heb by lia. split; [lia|split; [done|]].
    rewrite Hrem by lia. rewrite Heb in *. rewrite slice_nil_r, app_nil_r. unfold remaining.
    destruct (front c =? 0).
    + unfold components_spec. by rewrite decide_False, head_components_no_slash.
    + by rewrite tail_components_no_slash.
Qed.

Lemma next_fuel_ok n c : wf c -> back c - front c < n -> step_ok cons c (next_fuel n c).
Proof.
  revert c. induction n as [|n IH]; intros c Hwf Hn; [lia|]. cbn [next_fuel].
  destruct (Nat.eqb_spec (front c) (back c)) as [Heq|Hne].
  { split; [done|]. split; [done|]. split; by apply remaining_empty. }
  destruct (next_window c Hwf Hne) as (Hf&Hns&Hrem).
  set (e := scan_fwd _ _ _) in *. set (f' := if _ && _ then _ else _) in *.
  set (c' := mkComponents (buf c) f' (back c)) in *. set (s := slice _ _ _) in *.
  assert (wf c') as Hwf' by (destruct Hwf; split; simpl in *; lia).
  assert (Hrec : remaining c = remaining c' -> step_ok cons c (next_fuel n c')).
  { intros Hr. destruct (IH c' Hwf') as (?&?&Hm); [simpl; lia|]. unfold step_ok. rewrite Hr.
    split; [done|]. split; [done|]. case_match; simpl in *; [|done]. split; [tauto|lia]. }
  unfold step_ok, head_comp, tail_comp in *.
  destruct (front c =? 0); repeat case_decide; simpl in *; auto with lia.
Qed.

Lemma next_ok c : wf c -> step_ok cons c (next c).
Proof. intros. apply next_fuel_ok; [done|lia]. Qed.

(** The window of [next_back] ends with a segment and slashes. *)
Lemma next_back_window c : wf c -> front c <> back c ->
  let e := skip_slashes_back (buf c) (front c) (back c) in
  let s := scan_back (buf c) (front c) e in
  front c <= s < back c /\ (s <> front c -> slice s e (buf c) <> []) /\
  remaining c = remaining (mkComponents (buf c) (front c) s)
                ++ (if s =? 0 then head_comp else tail_comp) (slice s e (buf c)).
Proof.
  intros [Hw1 Hw2] Hne e s.
  destruct (skip_slashes_back_spec (buf c) (front c) (back c)) as (He&Ha&Hel); [lia|]. fold e in He, Ha, Hel.
  destruct (scan_back_spec (buf c) (front c) e) as (Hs&Hns&Hsl); [lia|]. fold s in Hs, Hns, Hsl.
  assert (Hse : s <> front c -> s < e).
  { intros ?. destruct Hsl as [?|(s'&Hs'&Hb)]; [lia|]. destruct Hel as [?|(e'&He'&Hb')]; [lia|].
    destruct (decide (s = e)); [|lia]. assert (s' = e') by lia. congruence. }
  split.
  { split; [lia|]. destruct (decide (s = front c)); lia. }
  split.
  { intros Hx%Hse Hnil. apply (f_equal length) in Hnil. rewrite slice_length in Hnil by lia. simpl in Hnil. lia. }
  unfold remaining; simpl.
  assert (Hwin : slice (front c) (back c) (buf c) <> []).
  { intros Hx. apply (f_equal length) in Hx. rewrite slice_length in Hx by lia. simpl in Hx. lia. }
  rewrite (slice_split (front c) s (back c)), (slice_split s e (back c)) in * by lia.
  destruct (decide (s = front c)) as [Hsf|Hsf].
  - rewrite Hsf, slice_nil_r in *. simpl in *. destruct (front c =? 0).
    + unfold components_spec at 1. rewrite decide_False by done.
      by rewrite head_components_slashes, head_components_no_slash.
    + by rewrite tail_components_slashes, tail_components_no_slash.
  - destruct Hsl as [?|(s'&Hs'&Hb)]; [lia|]. rewrite Hs' in *.
    rewrite (slice_snoc (front c) s' (buf c) slash) in * by (lia || done).
    rewrite <- (app_assoc _ [slash]). simpl. destruct (front c =? 0).
    + rewrite !components_spec_app, tail_components_slashes, (tail_components_no_slash (slice (S s') e _)) by done.
      by rewrite app_nil_r.
    + rewrite !tail_components_app, tail_components_slashes, (tail_components_no_slash (slice (S s') e _)) by done.
      by rewrite app_nil_r.
Qed.

Lemma next_back_fuel_ok n c : wf c -> back c - front c < n ->
  step_ok (fun x l => l ++ [x]) c (next_back_fuel n c).
Proof.
  revert c. induction n as [|n IH]; intros c Hwf Hn; [lia|]. cbn [next_back_fuel].
  destruct (Nat.eqb_spec (front c) (back c)) as [Heq|Hne].
  { split; [done|]. split; [done|]. split; by apply remaining_empty. }
  destruct (next_back_window c Hwf Hne) as (Hf&Hnil&Hrem).
  set (e := skip_slashes_back _ _ _) in *. set (st := scan_back _ _ _) in *.
  set (c' := mkComponents (buf c) (front c) st) in *. set (s := slice _ _ _) in *.
  assert (wf c') as Hwf' by (destruct Hwf; split; simpl in *; lia).
  assert (Hrec : remaining c = remaining c' -> step_ok (fun x l => l ++ [x]) c (next_back_fuel n c')).
  { intros Hr. destruct (IH c' Hwf') as (?&?&Hm); [simpl; lia|]. unfold step_ok. rewrite Hr.
    split; [done|]. split; [done|]. case_match; simpl in *; [|done]. split; [tauto|lia]. }
  unfold step_ok, head_comp, tail_comp in *.
  destruct (st =? 0); repeat case_decide; simpl in *; rewrite ?app_nil_r in Hrem; auto with lia.
Qed.

Lemma next_back_ok c : wf c -> step_ok (fun x l => l ++ [x]) c (next_back c).
Proof. intros. apply next_back_fuel_ok; [done|lia]. Qed.

Lemma wf_new p : wf (Components_new p).
Proof. split; simpl; lia. Qed.

Lemma remaining_new p : remaining (Components_new p) = components_spec p.
Proof. unfold remaining; simpl. by rewrite slice_full. Qed.

(** A client that pulls from either end in any order. *)
Inductive End_ : Type := Front | Back.

Definition pull (e : End_) (c : Components) : option Component * Components :=
  match e with Front => next c | Back => next_back c end.

Fixpoint run (ops : list End_) (c : Components) : list (option Component) :=
  match ops with
  | [] => []
  | o :: ops' => let (r, c') := pull o c in r :: run ops' c'
  end.

Definition deque_pull (e : End_) (l : list Component) : option Component * list Component :=
  match e with
  | Front => (head l, tail l)
  | Back => (last l, removelast l)
  end.

Fixpoint deque_run (ops : list End_) (l : list Component) : list (option Component) :=
  match ops with
  | [] => []
  | o :: ops' => let (r, l') := deque_pull o l in r :: deque_run ops' l'
  end.

Lemma pull_deque e c : wf c ->
  wf (pull e c).2 /\ deque_pull e (remaining c) = ((pull e c).1, remaining (pull e c).2).
Proof.
  intros Hwf. destruct e; simpl.
  - destruct (next_ok c Hwf) as (?&?&Hr). split; [done|].
    case_match; destruct Hr as [-> Hr]; simpl; [done|by rewrite Hr].
  - destruct (next_back_ok c Hwf) as (?&?&Hr). split; [done|].
    case_match; destruct Hr as [-> Hr]; simpl; [by rewrite last_snoc, removelast_last|by rewrite Hr].
Qed.

Lemma run_deque ops c : wf c -> run ops c = deque_run ops (remaining c).
Proof.
  revert c. induction ops as [|o ops IH]; intros c Hwf; simpl; [done|].
  destruct (pull_deque o c Hwf) as [Hwf' Hd]. rewrite Hd.
  destruct (pull o c) as [r c']; simpl in *. by rewrite IH.
Qed.

Lemma collect_remaining n c : wf c -> back c - front c < n -> collect_fuel n c = remaining c.
Proof.
  revert c. induction n as [|n IH]; intros c Hwf Hn; simpl; [lia|].
  destruct (next_ok c Hwf) as (Hwf'&?&Hr). destruct (next c) as [[x|] c']; simpl in *.
  - destruct Hr as [-> Hr]. rewrite IH by (done || lia). done.
  - by destruct Hr as [-> _].
Qed.

Lemma components_eq p : components p = components_spec p.
Proof.
  unfold components. rewrite collect_remaining by (apply wf_new || simpl; lia). apply remaining_new.
Qed.

(** ** The queries *)

Lemma next_back_front c : front (next_back c).2 = front c.
Proof.
  unfold next_back. generalize (S (back c - front c)). intros n. revert c.
  induction n as [|n IH]; intros c; cbn [next_back_fuel]; [done|].
  repeat case_match; simpl; try done; by rewrite IH.
Qed.

Lemma last_of_new p :
  let (r, c) := next_back (Components_new p) in
  r = last (components_spec p) /\ remaining c = removelast (components_spec p) /\ wf c
  /\ buf c = p /\ front c = 0.
Proof.
  pose proof (next_back_ok _ (wf_new p)) as (Hwf&Hb&Hr). rewrite remaining_new in Hr.
  pose proof (next_back_front (Components_new p)) as Hf.
  destruct (next_back (Components_new p)) as [[x|] c]; simpl in *; destruct Hr as [-> Hr].
  - by rewrite last_snoc, removelast_last.
  - done.
Qed.

Lemma as_path_remaining c : wf c -> front c = 0 -> components_spec (as_path c) = remaining c.
Proof.
  intros [_ Hw] Hf. unfold as_path, remaining. rewrite Hf. simpl.
  destruct (back c) as [|b]; [done|].
  assert (Hs : forall e, S e <= length (buf c) ->
    strip_trailing (buf c) e <= e /\ all_slash (slice (S (strip_trailing (buf c) e)) (S e) (buf c))).
  { induction e as [|e IH]; intros He; simpl; [rewrite slice_nil_r; split; [lia|constructor]|].
    unfold is_slash. case_bool_decide as Hc; [|rewrite slice_nil_r; split; [lia|constructor]].
    destruct IH as [? Ha]; [lia|]. split; [lia|].
    rewrite (slice_snoc _ _ _ slash) by (lia || done). apply Forall_app; auto. }
  destruct (Hs b) as [Hle Ha]; [lia|]. set (e := strip_trailing _ _) in *.
  assert (slice 0 (S e) (buf c) <> []) as Hne.
  { intros Hx. apply (f_equal length) in Hx. rewrite slice_length in Hx by lia. done. }
  rewrite (slice_split 0 (S e) (S b)) by lia. unfold components_spec.
  rewrite !decide_False by (done || (intros Hx; by apply app_eq_nil in Hx as [? _])).
  by rewrite head_components_slashes.
Qed.

Lemma tail_comp_not_root s : RootDir ∉ tail_comp s /\ CurDir ∉ tail_comp s.
Proof. unfold tail_comp. repeat case_decide; set_solver. Qed.

(** Only the first component can be the root or the current directory. *)
Lemma components_spec_cons p : p <> [] ->
  exists x l, components_spec p = x :: l /\ RootDir ∉ l /\ CurDir ∉ l.
Proof.
  intros Hp. unfold components_spec. rewrite decide_False by done. unfold head_components.
  pose proof (split_slash_ne p). destruct (split_slash p) as [|s ss]; [done|].
  assert (exists x, head_comp s = [x]) as [x ->].
  { unfold head_comp, tail_comp. repeat case_decide; eauto. }
  exists x, (flat_map tail_comp ss). split; [done|].
  induction ss as [|s' ss IH]; simpl; [split; apply not_elem_of_nil|].
  pose proof (tail_comp_not_root s'). set_solver.
Qed.

Lemma last_special p x : last (components_spec p) = Some x -> x = RootDir \/ x = CurDir ->
  components_spec p = [x].
Proof.
  intros Hl Hx. destruct (decide (p = [])) as [->|Hp]; [done|].
  destruct (components_spec_cons p Hp) as (y & l & Heq & Hr & Hc). rewrite Heq in *.
  destruct l as [|z l]; [simpl in Hl; congruence|].
  rewrite last_cons_cons in Hl. apply last_Some_elem_of in Hl. destruct Hx; subst; done.
Qed.

(** C9. The iterator over the components of a path is a double-ended queue:
    any interleaving of calls of [next] and [next_back] yields what popping
    the two ends of the list of components yields, where the components are
    the segments between slashes, without the empty and the dot segments
    except that a leading one stands for the root or the current directory. *)
Theorem components_deque (p : list Z) (ops : list End_) :
  run ops (Components_new p) = deque_run ops (components_spec p) /\
  components p = components_spec p.
Proof.
  split; [|apply components_eq].
  rewrite run_deque by apply wf_new. by rewrite remaining_new.
Qed.

(** [parent] removes exactly the last component: it is [None] when the
    path has no component or ends in the root or a leading dot, and otherwise
    a path whose components are those of the path without the last.  [name]
    is the last component when that is a normal one, and [is_root] holds when
    the root is the only component. *)
Theorem parent_name_spec (p : list Z) :
  match last (components p) with
  | Some (Normal n) => name p = Some n /\ is_root p = false /\
      exists q, parent p = Some q /\ components q = removelast (components p)
  | Some ParentDir => name p = None /\ is_root p = false /\
      exists q, parent p = Some q /\ components q = removelast (components p)
  | Some RootDir => name p = None /\ parent p = None /\ is_root p = true /\ components p = [RootDir]
  | Some CurDir => name p = None /\ parent p = None /\ is_root p = false /\ components p = [CurDir]
  | None => name p = None /\ parent p = None /\ is_root p = false /\ p = []
  end.
Proof.
  rewrite components_eq. unfold name, parent, is_root. pose proof (last_of_new p) as Hl.
  destruct (next_back (Components_new p)) as [r c]. destruct Hl as (-> & Hr & Hwf & Hb & Hf).
  assert (Hq : components (as_path c) = removelast (components_spec p)).
  { rewrite components_eq, as_path_remaining by done. done. }
  destruct (last (components_spec p)) as [x|] eqn:Hlast.
  - pose proof (last_special p x Hlast). destruct x; eauto 10.
  - destruct (decide (p = [])) as [->|Hp]; [done|].
    destruct (components_spec_cons p Hp) as (y & l & Heq & _). rewrite Heq in Hlast.
    by apply last_None in Hlast.
Qed.

End Path.
