(* ===== verification/Bytes.v ===== *)
(** * Byte buffers

    Lists indexed by [Z], the copy of a slice into a buffer at an offset, and
    the little-endian integers that the file system keeps in its blocks
    ([le32], [le64] and the casts of [SharedBlockBuffer::as_ref_at] in
    src/fs/redwing_efs/src/buffer.rs). *)

From S2P Require Import Prelude.

#[local] Open Scope Z_scope.

Notation zlen l := (Z.of_nat (length l)).

(** [&b[off..off + len]] *)
Definition sub {A} (off len : Z) (b : list A) : list A :=
  take (Z.to_nat len) (drop (Z.to_nat off) b).

(** [b[off..off + d.len()].copy_from_slice(d)] *)
Definition splice {A} (off : Z) (d b : list A) : list A :=
  take (Z.to_nat off) b ++ d ++ drop (Z.to_nat off + length d) b.

Section splices.
Context {A : Type}.
Implicit Types (b d : list A) (i off len : Z).

Lemma sub_length off len b : 0 <= off -> 0 <= len -> off + len <= zlen b -> zlen (sub off len b) = len.
Proof. intros. unfold sub. rewrite length_take, length_drop. lia. Qed.

Lemma splice_length off d b : 0 <= off -> off + zlen d <= zlen b -> length (splice off d b) = length b.
Proof. intros. unfold splice. rewrite !length_app, length_take, length_drop. lia. Qed.

(** A splice that starts in the list or at its end may extend it. *)
Lemma splice_zlen off d b : 0 <= off <= zlen b -> zlen (splice off d b) = Z.max (zlen b) (off + zlen d).
Proof. intros. unfold splice. rewrite !length_app, length_take, length_drop. lia. Qed.

Lemma lookup_splice off d b i : 0 <= off -> off <= zlen b -> 0 <= i ->
  splice off d b !! Z.to_nat i =
    if decide (off <= i < off + zlen d) then d !! Z.to_nat (i - off) else b !! Z.to_nat i.
Proof.
  intros. unfold splice. case_decide.
  - rewrite lookup_app_r; rewrite length_take; [|lia].
    rewrite lookup_app_l by lia. f_equal. lia.
  - destruct (decide (i < off)).
    + rewrite lookup_app_l by (rewrite length_take; lia). rewrite lookup_take_lt by lia. done.
    + rewrite lookup_app_r by (rewrite length_take; lia). rewrite length_take.
      rewrite lookup_app_r by lia. rewrite lookup_drop. f_equal. lia.
Qed.

Lemma lookup_sub off len b i : 0 <= off -> 0 <= i < len ->
  sub off len b !! Z.to_nat i = b !! Z.to_nat (off + i).
Proof.
  intros. unfold sub. rewrite lookup_take_lt by lia. rewrite lookup_drop. f_equal. lia.
Qed.

Lemma list_eq_Z b d : length b = length d -> (forall i, 0 <= i < zlen b -> b !! Z.to_nat i = d !! Z.to_nat i) -> b = d.
Proof.
  intros Hl H. apply list_eq_same_length with (length b); [done|done|].
  intros i x y Hi Hx Hy. specialize (H (Z.of_nat i)). rewrite Nat2Z.id in H.
  rewrite H in Hx by lia. congruence.
Qed.

Lemma sub_splice_eq off d b : 0 <= off -> off + zlen d <= zlen b -> sub off (zlen d) (splice off d b) = d.
Proof.
  intros. assert (Hl : zlen (sub off (zlen d) (splice off d b)) = zlen d).
  { apply sub_length; rewrite ?splice_length by lia; lia. }
  apply list_eq_Z; [lia|]. intros i Hi.
  rewrite lookup_sub by lia. rewrite lookup_splice by lia. rewrite decide_True by lia. f_equal. lia.
Qed.

Lemma sub_splice_ne off d b off' len : 0 <= off -> off + zlen d <= zlen b ->
  0 <= off' -> 0 <= len -> off' + len <= zlen b -> off' + len <= off \/ off + zlen d <= off' ->
  sub off' len (splice off d b) = sub off' len b.
Proof.
  intros. assert (Hl : zlen (sub off' len (splice off d b)) = len).
  { apply sub_length; rewrite ?splice_length by lia; lia. }
  assert (Hl' : zlen (sub off' len b) = len) by (apply sub_length; lia).
  apply list_eq_Z; [lia|]. intros i Hi.
  rewrite !lookup_sub by lia. rewrite lookup_splice by lia. by rewrite decide_False by lia.
Qed.

Lemma splice_splice off d1 d2 b : 0 <= off <= zlen b ->
  splice (off + zlen d1) d2 (splice off d1 b) = splice off (d1 ++ d2) b.
Proof.
  intros. apply list_eq_Z.
  - apply Nat2Z.inj. rewrite !splice_zlen, length_app by (rewrite ?splice_zlen; lia). lia.
  - intros i Hi. rewrite splice_zlen, splice_zlen in Hi by (rewrite ?splice_zlen; lia).
    rewrite !lookup_splice by (rewrite ?splice_zlen; lia). rewrite length_app.
    repeat case_decide; try lia; try done.
    + rewrite lookup_app_r by lia. f_equal. lia.
    + rewrite lookup_app_l by lia. done.
Qed.

Lemma splice_nil off b : 0 <= off <= zlen b -> splice off [] b = b.
Proof. intros. unfold splice. simpl. rewrite Nat.add_0_r. apply take_drop. Qed.

Lemma sub_full b : sub 0 (zlen b) b = b.
Proof. unfold sub. rewrite drop_0, Nat2Z.id. by apply take_ge. Qed.

Lemma sub_app off l1 l2 b : 0 <= off -> 0 <= l1 -> 0 <= l2 ->
  sub off (l1 + l2) b = sub off l1 b ++ sub (off + l1) l2 b.
Proof.
  intros. unfold sub. rewrite !Z2Nat.inj_add by lia. rewrite <- take_take_drop, drop_drop. done.
Qed.
End splices.

(** ** Little-endian integers *)

Fixpoint le_decode (l : list Z) : Z :=
  match l with
  | [] => 0
  | b :: t => b + 256 * le_decode t
  end.

Fixpoint le_encode (n : nat) (z : Z) : list Z :=
  match n with
  | O => []
  | S n' => z mod 256 :: le_encode n' (z / 256)
  end.

Definition is_byte (x : Z) : Prop := 0 <= x < 256.

Lemma le_encode_length n z : length (le_encode n z) = n.
Proof. revert z. induction n; intros; simpl; auto. Qed.

Lemma le_encode_bytes n z : Forall is_byte (le_encode n z).
Proof.
  revert z. induction n; intros; simpl; constructor; [|done].
  unfold is_byte. pose proof (Z.mod_pos_bound z 256). lia.
Qed.

Lemma le_decode_encode n z : 0 <= z < 256 ^ Z.of_nat n -> le_decode (le_encode n z) = z.
Proof.
  revert z. induction n as [|n IH]; intros z Hz; simpl; [simpl in Hz; lia|].
  rewrite Nat2Z.inj_succ, Z.pow_succ_r in Hz by lia.
  rewrite IH; [pose proof (Z.div_mod z 256); lia|].
  split; [apply Z.div_pos; lia|]. apply Z.div_lt_upper_bound; lia.
Qed.

Lemma le_decode_range l : Forall is_byte l -> 0 <= le_decode l < 256 ^ zlen l.
Proof.
  unfold is_byte. induction 1 as [|x l Hx Hl IH]; simpl length; simpl le_decode; [lia|].
  rewrite Nat2Z.inj_succ, Z.pow_succ_r by lia. lia.
Qed.

Lemma le_encode_decode l : Forall is_byte l -> le_encode (length l) (le_decode l) = l.
Proof.
  unfold is_byte. induction 1 as [|x l Hx Hl IH]; [done|]. cbn [length le_encode le_decode].
  rewrite (Z.mul_comm 256), Z.mod_add, Z.div_add by lia.
  rewrite Z.mod_small, Z.div_small by lia. by rewrite Z.add_0_l, IH.
Qed.

(** The [i]-th [u64] of a buffer seen as an array of them. *)
Definition u64_at (b : list Z) (i : Z) : Z := le_decode (sub (8 * i) 8 b).
Definition set_u64 (i v : Z) (b : list Z) : list Z := splice (8 * i) (le_encode 8 v) b.

Definition is_u64 (v : Z) : Prop := 0 <= v < 2 ^ 64.

Section words.
Implicit Types (b : list Z) (i j v : Z).

Lemma set_u64_length i v b : 0 <= i -> 8 * i + 8 <= zlen b -> length (set_u64 i v b) = length b.
Proof. intros. apply splice_length; rewrite ?le_encode_length; lia. Qed.

Lemma u64_at_set_eq i v b : 0 <= i -> 8 * i + 8 <= zlen b -> is_u64 v -> u64_at (set_u64 i v b) i = v.
Proof.
  intros ? ? Hv. unfold u64_at, set_u64.
  assert (H8 : zlen (le_encode 8 v) = 8) by (rewrite le_encode_length; lia).
  pose proof (sub_splice_eq (8 * i) (le_encode 8 v) b) as E. rewrite H8 in E.
  rewrite E by lia. by apply le_decode_encode.
Qed.

Lemma u64_at_set_ne i j v b : 0 <= i -> 8 * i + 8 <= zlen b -> 0 <= j -> 8 * j + 8 <= zlen b -> i <> j ->
  u64_at (set_u64 i v b) j = u64_at b j.
Proof.
  intros. unfold u64_at, set_u64. rewrite sub_splice_ne; rewrite ?le_encode_length; lia || done.
Qed.

Lemma sub_Forall (P : Z -> Prop) off len b : Forall P b -> Forall P (sub off len b).
Proof. intros. unfold sub. by apply Forall_take, Forall_drop. Qed.

Lemma splice_Forall (P : Z -> Prop) off d b : Forall P b -> Forall P d -> Forall P (splice off d b).
Proof. intros. unfold splice. rewrite !Forall_app. auto using Forall_take, Forall_drop. Qed.

Lemma u64_at_zeros n i : u64_at (replicate n 0) i = 0.
Proof.
  unfold u64_at. assert (Hz : Forall (fun x => x = 0) (sub (8 * i) 8 (replicate n 0))).
  { apply sub_Forall, Forall_replicate. done. }
  induction Hz as [|x l -> _ IH]; simpl; lia.
Qed.

Lemma set_u64_bytes i v b : Forall is_byte b -> Forall is_byte (set_u64 i v b).
Proof. intros. apply splice_Forall; [done|apply le_encode_bytes]. Qed.

Lemma u64_at_range i b : Forall is_byte b -> 0 <= i -> 8 * i + 8 <= zlen b -> is_u64 (u64_at b i).
Proof.
  intros Hb ? ?. unfold u64_at, is_u64. pose proof (le_decode_range _ (sub_Forall is_byte (8 * i) 8 b Hb)) as H'.
  rewrite sub_length in H' by lia. done.
Qed.
End words.

Lemma splice_sub {A} off len (b : list A) : 0 <= off -> 0 <= len -> off + len <= zlen b ->
  splice off (sub off len b) b = b.
Proof.
  intros. pose proof (sub_length off len b ltac:(lia) ltac:(lia) ltac:(lia)) as Hl.
  assert (length (splice off (sub off len b) b) = length b) by (apply splice_length; lia).
  apply list_eq_Z; [done|]. intros i Hi. rewrite lookup_splice by lia.
  case_decide; [|done]. rewrite lookup_sub by lia. f_equal. lia.
Qed.

Lemma encode_u64_at i b : Forall is_byte b -> 0 <= i -> 8 * i + 8 <= zlen b -> le_encode 8 (u64_at b i) = sub (8 * i) 8 b.
Proof.
  intros Hb ? ?. unfold u64_at. pose proof (sub_length (8 * i) 8 b ltac:(lia) ltac:(lia) ltac:(lia)) as Hl.
  replace 8%nat with (length (sub (8 * i) 8 b)) by lia. by apply le_encode_decode, sub_Forall.
Qed.

Lemma set_u64_id i b : Forall is_byte b -> 0 <= i -> 8 * i + 8 <= zlen b -> set_u64 i (u64_at b i) b = b.
Proof.
  intros Hb ? ?. unfold set_u64. rewrite encode_u64_at by done. apply splice_sub; lia.
Qed.

(** ** Bits of machine words *)

Lemma bits_lt_pow2 a n : 0 <= a -> 0 <= n -> (forall m, n <= m -> Z.testbit a m = false) -> a < 2 ^ n.
Proof.
  intros Ha Hn Hbits. destruct (decide (a = 0)) as [->|]; [lia|].
  apply Z.log2_lt_pow2; [lia|]. destruct (Z.lt_ge_cases (Z.log2 a) n) as [|Hge]; [done|].
  specialize (Hbits _ Hge). rewrite Z.bit_log2 in Hbits by lia. done.
Qed.

Lemma testbit_above a n m : 0 <= a < 2 ^ n -> n <= m -> Z.testbit a m = false.
Proof.
  intros Ha Hm. destruct (decide (a = 0)) as [->|]; [apply Z.bits_0|].
  apply Z.bits_above_log2; [lia|]. apply Z.lt_le_trans with n; [|done]. apply Z.log2_lt_pow2; lia.
Qed.

Lemma testbit_shiftl_1 t m : 0 <= t -> Z.testbit (Z.shiftl 1 t) m = bool_decide (m = t).
Proof.
  intros. rewrite Z.shiftl_1_l. case_bool_decide; [subst; by apply Z.pow2_bits_true|].
  by apply Z.pow2_bits_false; congruence.
Qed.

Lemma bit_test w t : 0 <= t -> (Z.land (Z.shiftr w t) 1 =? 1) = Z.testbit w t.
Proof.
  intros. change 1 with (Z.ones 1) at 1. rewrite Z.land_ones, Z.shiftr_div_pow2 by lia.
  rewrite Z.pow_1_r, <- Z.testbit_spec' by done. by destruct (Z.testbit w t).
Qed.

Lemma lor_bit_u64 w t : is_u64 w -> 0 <= t < 64 -> is_u64 (Z.lor w (Z.shiftl 1 t)).
Proof.
  unfold is_u64. intros Hw Ht. assert (0 <= Z.lor w (Z.shiftl 1 t)).
  { apply Z.lor_nonneg. split; [lia|]. apply Z.shiftl_nonneg. lia. }
  split; [done|]. apply bits_lt_pow2; [done|lia|]. intros m Hm.
  rewrite Z.lor_spec, (testbit_above w 64 m), testbit_shiftl_1 by lia.
  rewrite bool_decide_false by lia. done.
Qed.

Lemma ldiff_bit_u64 w t : is_u64 w -> is_u64 (Z.ldiff w (Z.shiftl 1 t)).
Proof.
  unfold is_u64. intros Hw. assert (0 <= Z.ldiff w (Z.shiftl 1 t)) by (apply Z.ldiff_nonneg; lia).
  split; [done|]. apply bits_lt_pow2; [done|lia|]. intros m Hm.
  by rewrite Z.ldiff_spec, (testbit_above w 64 m) by lia.
Qed.

#[global] Arguments sub : simpl never.
#[global] Arguments splice : simpl never.
#[global] Arguments u64_at : simpl never.
#[global] Arguments set_u64 : simpl never.
#[global] Opaque u64_at set_u64.
