(* ===== verification/Vfs.v ===== *)
(** * The VFS layer: errors and names (src/fs/redwing_vfs, src/common/syserr)

    The error kinds of the file systems and of the system calls with the
    conversion between them, and the validation of file names, with the part
    of UTF-8 decoding that it relies on. *)

From S2P Require Import Prelude Bytes Path.

#[local] Open Scope Z_scope.

Module Vfs.

Inductive FsErrorKind : Type :=
| OutOfMemory
| IOError
| AlreadyExists
| FileTooLarge
| FileNameTooLong
| NoSuchFileOrDirectory
| NoSuchDev
| IsADirectory
| NotADirectory
| NotEmpty
| PermissionDenied
| NoSpaceLeft
| ExDev
| FileSystemCorruption
| InvalidArgument
| Unsupported
| InvalidData
| InvalidUt8Str.

#[export] Instance FsErrorKind_eq_dec : EqDecision FsErrorKind.
Proof. solve_decision. Defined.

Module Sys.
Inductive SysErrorKind : Type :=
| NotPermitted
| OutOfMemory
| NoSys
| NoSuchProcess
| Interrupted
| IOError
| AlreadyExists
| BadFileDescriptor
| FileTooLarge
| FileNameTooLong
| NoSuchFileOrDirectory
| IsADirectory
| NotADirectory
| NotEmpty
| PermissionDenied
| TooManyOpenFiles
| NoSpaceLeft
| NoSuchDev
| NoExec
| Pipe
| ExDev
| BadFs
| NoTty
| InvalidArgument
| Unsupported
| InvalidData
| ExecFormat
| Fault
| InvalidUt8Str
| TooManyTasks.

#[export] Instance SysErrorKind_eq_dec : EqDecision SysErrorKind.
Proof. solve_decision. Defined.

(** [#[repr(u32)]] with [NotPermitted = 1]: the discriminants count up. *)
Definition errno (k : SysErrorKind) : Z :=
  match k with
  | NotPermitted => 1
  | OutOfMemory => 2
  | NoSys => 3
  | NoSuchProcess => 4
  | Interrupted => 5
  | IOError => 6
  | AlreadyExists => 7
  | BadFileDescriptor => 8
  | FileTooLarge => 9
  | FileNameTooLong => 10
  | NoSuchFileOrDirectory => 11
  | IsADirectory => 12
  | NotADirectory => 13
  | NotEmpty => 14
  | PermissionDenied => 15
  | TooManyOpenFiles => 16
  | NoSpaceLeft => 17
  | NoSuchDev => 18
  | NoExec => 19
  | Pipe => 20
  | ExDev => 21
  | BadFs => 22
  | NoTty => 23
  | InvalidArgument => 24
  | Unsupported => 25
  | InvalidData => 26
  | ExecFormat => 27
  | Fault => 28
  | InvalidUt8Str => 29
  | TooManyTasks => 30
  end.
End Sys.

(** [impl From<FsError> for SysError] *)
Definition to_sys_error (k : FsErrorKind) : Sys.SysErrorKind :=
  match k with
  | OutOfMemory => Sys.OutOfMemory
  | IOError => Sys.IOError
  | AlreadyExists => Sys.AlreadyExists
  | FileTooLarge => Sys.FileTooLarge
  | FileNameTooLong => Sys.FileNameTooLong
  | NoSuchFileOrDirectory => Sys.NoSuchFileOrDirectory
  | NoSuchDev => Sys.NoSuchDev
  | IsADirectory => Sys.IsADirectory
  | NotADirectory => Sys.NotADirectory
  | NotEmpty => Sys.NotEmpty
  | PermissionDenied => Sys.PermissionDenied
  | NoSpaceLeft => Sys.NoSpaceLeft
  | ExDev => Sys.ExDev
  | FileSystemCorruption => Sys.BadFs
  | InvalidArgument => Sys.InvalidArgument
  | Unsupported => Sys.Unsupported
  | InvalidData => Sys.InvalidData
  | InvalidUt8Str => Sys.InvalidUt8Str
  end.

(** ** UTF-8 strings

    A [&str] is kept as its bytes; [str::from_utf8] accepts the well-formed
    byte sequences, and [chars] gives their scalar values. *)

Definition cont (x : Z) : bool := (128 <=? x) && (x <=? 191).
Definition in_range (lo x hi : Z) : bool := (lo <=? x) && (x <=? hi).

Fixpoint chars (l : list Z) : option (list Z) :=
  match l with
  | [] => Some []
  | a :: l1 =>
    if in_range 0 a 127 then cons a <$> chars l1
    else match l1 with
    | [] => None
    | b :: l2 =>
      if in_range 194 a 223 && cont b
      then cons ((a - 192) * 64 + (b - 128)) <$> chars l2
      else match l2 with
      | [] => None
      | c :: l3 =>
        if cont c && ((Z.eqb a 224 && in_range 160 b 191)
           || (in_range 225 a 236 && cont b)
           || (Z.eqb a 237 && in_range 128 b 159)
           || (in_range 238 a 239 && cont b))
        then cons ((a - 224) * 4096 + (b - 128) * 64 + (c - 128)) <$> chars l3
        else match l3 with
        | [] => None
        | d :: l4 =>
          if cont c && cont d && ((Z.eqb a 240 && in_range 144 b 191)
             || (in_range 241 a 243 && cont b)
             || (Z.eqb a 244 && in_range 128 b 143))
          then cons ((a - 240) * 262144 + (b - 128) * 4096 + (c - 128) * 64 + (d - 128)) <$> chars l4
          else None
        end
      end
    end
  end.

Definition is_str (l : list Z) : bool := bool_decide (is_Some (chars l)).

(** ** File names *)

Definition FILE_NAME_LEN : Z := 256.

Definition is_ascii_control (ch : Z) : bool := in_range 0 ch 31 || Z.eqb ch 127.

Definition check_contains_invalid_char (name : list Z) : outcome FsErrorKind unit :=
  let invalid := existsb (fun ch => Z.eqb ch 47 || Z.eqb ch 0 || is_ascii_control ch)
                         (default [] (chars name)) in
  if invalid then Err InvalidArgument else Ok tt.

(** [TryFrom<&str> for ValidFileName] *)
Definition ValidFileName_try_from_str (name : list Z) : outcome FsErrorKind (list Z) :=
  if FILE_NAME_LEN <? zlen name then Err FileNameTooLong
  else if decide (name = [46] \/ name = [46; 46]) then Err InvalidArgument
  else match check_contains_invalid_char name with
       | Ok _ => Ok name
       | Err e => Err e
       | Panic => Panic
       end.

(** [TryFrom<&[u8]> for ValidFileName] *)
Definition ValidFileName_try_from (name : list Z) : outcome FsErrorKind (list Z) :=
  if is_str name then ValidFileName_try_from_str name else Err InvalidUt8Str.

(** [TryFrom<&str> for ValidLookupName] *)
Definition ValidLookupName_try_from_str (name : list Z) : outcome FsErrorKind (list Z) :=
  if FILE_NAME_LEN <? zlen name then Err FileNameTooLong
  else match check_contains_invalid_char name with
       | Ok _ => Ok name
       | Err e => Err e
       | Panic => Panic
       end.

Definition ValidLookupName_try_from (name : list Z) : outcome FsErrorKind (list Z) :=
  if is_str name then ValidLookupName_try_from_str name else Err InvalidUt8Str.

(** ** Properties *)

(** In a well-formed string a byte below 128 is the character itself, and it
    appears among the bytes exactly when it appears among the characters. *)
Lemma chars_ascii n l cs x : (length l <= n)%nat -> chars l = Some cs -> 0 <= x < 128 -> x ∈ l <-> x ∈ cs.
Proof.
  revert l cs. induction n as [|n IH]; intros l cs Hn Hc Hx.
  { destruct l; [|simpl in Hn; lia]. simpl in Hc. by simplify_eq. }
  destruct l as [|a l1]; [simpl in Hc; by simplify_eq|].
  assert (Hstep : forall pre ch l' cs', a :: l1 = pre ++ l' -> (length l' <= n)%nat ->
    chars l' = Some cs' -> (forall y, y ∈ pre -> x <> y) -> x <> ch -> x ∈ a :: l1 <-> x ∈ ch :: cs').
  { intros pre ch l' cs' -> Hl' Hcs Hpre Hch. rewrite elem_of_app, elem_of_cons, (IH l' cs') by done.
    naive_solver. }
  unfold cont, in_range in *. simpl in Hc, Hn. unfold cont, in_range in Hc.
  repeat (case_match; simplify_eq); apply fmap_Some in Hc as (cs' & Hcs & ->).
  - rewrite !elem_of_cons. rewrite (IH l1 cs') by (done || lia). done.
  - apply (Hstep [a; _] _ _ _ eq_refl); [simpl in *; lia|done| |lia].
    intros y. rewrite !elem_of_cons, elem_of_nil. lia.
  - apply (Hstep [a; _; _] _ _ _ eq_refl); [simpl in *; lia|done| |lia].
    intros y. rewrite !elem_of_cons, elem_of_nil. lia.
  - apply (Hstep [a; _; _; _] _ _ _ eq_refl); [simpl in *; lia|done| |lia].
    intros y. rewrite !elem_of_cons, elem_of_nil. lia.
Qed.

Definition allowed_byte (x : Z) : Prop := x <> 47 /\ ~ (0 <= x <= 31) /\ x <> 127.

Lemma check_chars_iff name : is_str name = true ->
  check_contains_invalid_char name = Ok tt <-> Forall allowed_byte name.
Proof.
  unfold is_str, check_contains_invalid_char. rewrite bool_decide_eq_true. intros [cs Hcs].
  rewrite Hcs. simpl. rewrite Forall_forall. unfold allowed_byte.
  assert (Hin : forall x, 0 <= x < 128 -> x ∈ name <-> x ∈ cs) by (intros; by eapply chars_ascii).
  destruct (existsb _ cs) eqn:He.
  - split; [done|]. intros Hall. apply existsb_exists in He as (x & Hx & Hb).
    unfold is_ascii_control, in_range in Hb. apply list_elem_of_In in Hx.
    apply Hin in Hx; [|lia]. specialize (Hall x Hx). lia.
  - split; [|done]. intros _ x Hx. destruct (decide (0 <= x < 128)) as [Hr|]; [|lia].
    apply Hin in Hx; [|done]. apply list_elem_of_In in Hx.
    assert (Hb := proj2 (not_true_iff_false _) He).
    destruct (decide (x = 47 \/ 0 <= x <= 31 \/ x = 127)) as [Hbad|]; [|lia].
    exfalso. apply Hb, existsb_exists. exists x. split; [done|]. unfold is_ascii_control, in_range. lia.
Qed.

(** The validation of a file name accepts exactly the UTF-8 strings of at
    most 256 bytes other than dot and dot-dot in which no byte is a slash or
    an ASCII control character; and an accepted name, unless it is empty, is
    a path of one normal component, so it cannot reach out of its directory. *)
Theorem valid_file_name_iff (name : list Z) :
  (ValidFileName_try_from name = Ok name <->
     is_str name = true /\ zlen name <= 256 /\ name <> [46] /\ name <> [46; 46] /\
     Forall allowed_byte name) /\
  (ValidFileName_try_from name = Ok name -> name <> [] ->
     Path.components name = [Path.Normal name]).
Proof.
  assert (Hiff : ValidFileName_try_from name = Ok name <->
     is_str name = true /\ zlen name <= 256 /\ name <> [46] /\ name <> [46; 46] /\
     Forall allowed_byte name).
  { unfold ValidFileName_try_from, ValidFileName_try_from_str, FILE_NAME_LEN.
    destruct (is_str name) eqn:Hs; [|naive_solver]. pose proof (check_chars_iff name Hs) as Hc.
    destruct (Z.ltb_spec 256 (zlen name)); [split; [done|lia]|].
    case_decide; [naive_solver|]. destruct (check_contains_invalid_char name) as [[]| |]; naive_solver lia. }
  split; [done|]. intros Hok Hne. apply Hiff in Hok as (_ & _ & Hd & Hdd & Hall).
  rewrite Path.components_eq. unfold Path.components_spec. rewrite decide_False by done.
  rewrite Path.head_components_no_slash.
  - unfold Path.head_comp, Path.tail_comp. by rewrite !decide_False by done.
  - intros Hin. rewrite Forall_forall in Hall. specialize (Hall _ Hin). unfold allowed_byte in Hall. lia.
Qed.

(** Every file system error reaches user space as its own error number:
    the conversion to system call errors followed by [errno] is injective, and
    no error is reported as 0. *)
Theorem fs_errno_injective (k1 k2 : FsErrorKind) :
  (Sys.errno (to_sys_error k1) = Sys.errno (to_sys_error k2) <-> k1 = k2) /\
  0 < Sys.errno (to_sys_error k1) <= 30.
Proof. split; [split; [|by intros ->]|]; destruct k1; try destruct k2; simpl; done || lia. Qed.

End Vfs.
