(* ===== verification/Store.v ===== *)
(** * Block devices and the block cache
      (src/fs/redwing_efs/src/dev.rs, buffer.rs, cache.rs)

    [BlockDevice] and [BlockBufferAllocator] are traits of the source; they
    are classes here.  The cache keeps, for every block that was ever asked
    for, a buffer with a dirty flag; [get_block] reads a block from the device
    the first time only.

    [BlockStore] is what the rest of the file system relies on: a store of
    blocks of 4096 bytes with a logical content, in which a load returns the
    content or an I/O error and an update changes one block.  The last section
    shows that the cache over a lawful device is such a store, that the
    logical content survives [sync_all] followed by reopening the device, and
    that the RAM device is lawful. *)

From S2P Require Import Prelude Bytes Vfs.
Import Vfs.

#[local] Open Scope Z_scope.
#[local] Open Scope rw_scope.

Notation BLOCK_SIZE := 4096.

Definition is_block (b : list Z) : Prop := zlen b = BLOCK_SIZE /\ Forall is_byte b.

Definition zero_block : list Z := replicate (Z.to_nat BLOCK_SIZE) 0.

Lemma zero_block_ok : is_block zero_block.
Proof.
  split; [unfold zero_block; rewrite length_replicate; lia|].
  apply Forall_replicate. unfold is_byte. lia.
Qed.

Lemma set_u64_block i v b : is_block b -> 0 <= i < 512 -> is_block (set_u64 i v b).
Proof.
  intros [Hl Hb] Hi. split; [rewrite set_u64_length; lia|].
  by apply set_u64_bytes.
Qed.

(** ** The interface of the file system to its blocks *)

Class BlockStore (S : Type) : Type := {
  (** [get_block(b)?.read()] *)
  load : Z -> M S FsErrorKind (list Z);
  (** an assignment to the buffer of a block whose write guard is held *)
  put_block : Z -> list Z -> S -> S;
  (** [sync] of the buffer of a block: write it back *)
  flush : Z -> M S FsErrorKind unit;
  (** the logical content *)
  view : S -> Z -> list Z;
  (** the representation invariant *)
  store_ok : S -> Prop;
  (** no device or allocation failure is possible from here on *)
  healthy : S -> Prop
}.

(** [get_block(b)?.write()], with what is then computed from the buffer and
    stored in it. *)
Definition with_block {S} `{BlockStore S} {A} (b : Z) (f : list Z -> A * list Z) : M S FsErrorKind A :=
  do x <- load b;
  let (a, x') := f x in
  modify (put_block b x');;
  ret a.

(** A plain assignment to (a part of) a block. *)
Definition update {S} `{BlockStore S} (b : Z) (f : list Z -> list Z) : M S FsErrorKind unit :=
  with_block b (fun x => (tt, f x)).

Definition io_error (e : FsErrorKind) : Prop := e = IOError \/ e = OutOfMemory.

(** Two states with the same content are the same to the file system. *)
Definition same_view {S} `{BlockStore S} (s s' : S) : Prop := forall b, view s b = view s' b.

#[export] Instance same_view_equivalence {S} `{BlockStore S} : Equivalence (same_view (S:=S)).
Proof.
  split; [by intros s b|by intros s s' Hs b|]. intros s1 s2 s3 H12 H23 b.
  by rewrite H12.
Qed.

(** The state after a run of operations: it is well formed, and no failure can
    have become possible. *)
Definition follows {S} `{BlockStore S} (s s' : S) : Prop := store_ok s' /\ (healthy s -> healthy s').

(** A device or allocation failure: only an unhealthy store has one, and it
    leaves the content alone. *)
Definition io_fail {S} `{BlockStore S} (s : S) (e : FsErrorKind) (s' : S) : Prop :=
  io_error e /\ follows s s' /\ same_view s s' /\ ~ healthy s.

Class BlockStoreLaws (S : Type) `{BlockStore S} : Prop := {
  view_ok s b : store_ok s -> is_block (view s b);
  load_spec s b : store_ok s ->
    wp (load b) (fun d s' => d = view s b /\ follows s s' /\ same_view s s') (io_fail s) s;
  put_block_spec s b x : store_ok s -> is_block x ->
    follows s (put_block b x s) /\
    forall b', view (put_block b x s) b' = if decide (b' = b) then x else view s b';
  flush_spec s b : store_ok s -> wp (flush b) (fun _ s' => follows s s' /\ same_view s s') (io_fail s) s
}.

Section derived.
Context {S : Type} `{BlockStoreLaws S}.

Lemma follows_refl s : store_ok s -> follows s s.
Proof. done. Qed.

Lemma follows_trans s1 s2 s3 : follows s1 s2 -> follows s2 s3 -> follows s1 s3.
Proof. intros [? ?] [? ?]. split; auto. Qed.

(** A failure seen from an earlier state with the same content. *)
Lemma io_fail_from s0 s e s' : follows s0 s -> same_view s0 s -> io_fail s e s' -> io_fail s0 e s'.
Proof.
  intros [Hok Hh] Hv (He & Hf & Hv' & Hnh). split; [done|].
  split; [by eapply follows_trans|]. split; [by rewrite Hv|tauto].
Qed.

(** On a healthy store an operation that can only fail on I/O succeeds. *)
Lemma wp_total {A} (m : M S FsErrorKind A) Q s :
  wp m Q (fun _ _ => ~ healthy s) s -> healthy s -> exists a s', m s = (Ok a, s') /\ Q a s'.
Proof. unfold wp. destruct (m s) as [[a|e|] s']; eauto; done. Qed.

Lemma io_fail_unhealthy s e s' : io_fail s e s' -> ~ healthy s.
Proof. by intros (_ & _ & _ & ?). Qed.

Lemma with_block_spec {A} s b (f : list Z -> A * list Z) : store_ok s -> is_block (snd (f (view s b))) ->
  wp (with_block b f)
     (fun a s' => a = fst (f (view s b)) /\ follows s s' /\
        forall b', view s' b' = if decide (b' = b) then snd (f (view s b)) else view s b')
     (io_fail s) s.
Proof.
  intros Hok Hf. unfold with_block. apply wp_bind. eapply wp_mono; [by apply load_spec| |done].
  intros x s' (-> & Hs' & Hv). destruct (f (view s b)) as [a x']; simpl in *. unfold wp, bind, modify, ret.
  destruct (put_block_spec s' b x' (proj1 Hs') Hf) as [Hs'' Hv'']. split; [done|].
  split; [by eapply follows_trans|]. intros b'. rewrite Hv''. case_decide; [done|by rewrite Hv].
Qed.

Lemma update_spec s b f : store_ok s -> is_block (f (view s b)) ->
  wp (update b f)
     (fun _ s' => follows s s' /\ forall b', view s' b' = if decide (b' = b) then f (view s b) else view s b')
     (io_fail s) s.
Proof.
  intros Hok Hf. eapply wp_mono; [by apply with_block_spec|by intros a s' (_ & ? & ?)|done].
Qed.
End derived.

(** Closes the error case of a step on a store known to be healthy. *)
Ltac not_healthy :=
  intros;
  match goal with Hf : io_fail _ _ _ |- _ => apply io_fail_unhealthy in Hf; tauto end.

#[export] Hint Resolve follows_refl follows_trans io_fail_unhealthy : efs.

(** ** Devices *)

Class BlockDevice (D : Type) : Type := {
  (** [None] is an error of the device *)
  read_block : Z -> D -> option (list Z) * D;
  write_block : Z -> list Z -> D -> bool * D
}.

(** What a device promises: it has a content, a read that succeeds returns
    it, a write that succeeds changes one block, and a failed operation
    leaves the content alone, except the block it was writing. *)
Class BlockDeviceLaws (D : Type) `{BlockDevice D} : Type := {
  content : D -> Z -> list Z;
  device_ok : D -> Prop;
  reliable : D -> Prop;
  content_ok d b : device_ok d -> is_block (content d b);
  read_spec d b r d' : device_ok d -> read_block b d = (r, d') ->
    device_ok d' /\ (forall b', content d' b' = content d b') /\ (reliable d -> reliable d' /\ is_Some r) /\
    (forall x, r = Some x -> x = content d b);
  write_spec d b x r d' : device_ok d -> is_block x -> write_block b x d = (r, d') ->
    device_ok d' /\ (forall b', b' <> b -> content d' b' = content d b') /\
    (reliable d -> reliable d' /\ r = true) /\ (r = true -> content d' b = x)
}.

(** [RamBlockDevice] *)
Record RamBlockDevice : Type := mkRam { blocks : gmap Z (list Z) }.

Definition ram_read_block (blk_no : Z) (d : RamBlockDevice) : option (list Z) * RamBlockDevice :=
  match blocks d !! blk_no with
  | Some block => (Some block, d)
  | None => (Some zero_block, mkRam (<[blk_no := zero_block]> (blocks d)))
  end.

Definition ram_write_block (blk_no : Z) (buf : list Z) (d : RamBlockDevice) : bool * RamBlockDevice :=
  (true, mkRam (<[blk_no := buf]> (blocks d))).

#[export] Instance RamBlockDevice_dev : BlockDevice RamBlockDevice := {
  read_block := ram_read_block;
  write_block := ram_write_block
}.

Definition ram_content (d : RamBlockDevice) (b : Z) : list Z := default zero_block (blocks d !! b).

#[export] Program Instance RamBlockDevice_laws : BlockDeviceLaws RamBlockDevice := {
  content := ram_content;
  device_ok d := map_Forall (fun _ => is_block) (blocks d);
  reliable _ := True
}.
Next Obligation.
  intros d b Hd. unfold ram_content. destruct (blocks d !! b) eqn:Hb; simpl; [by eapply Hd|].
  apply zero_block_ok.
Qed.
Next Obligation.
  intros d b r d' Hd. simpl. unfold ram_read_block, ram_content.
  destruct (blocks d !! b) eqn:Hb; intros [= <- <-]; simpl.
  - split; [done|]. split; [done|]. split; [by eauto|]. intros x [= <-]. by rewrite ?Hb.
  - split; [|split; [|split; [by eauto|intros x [= <-]; by rewrite ?Hb]]].
    + by apply map_Forall_insert_2; [apply zero_block_ok|].
    + intros b'. destruct (decide (b' = b)) as [->|]; [by rewrite lookup_insert_eq, Hb|].
      by rewrite lookup_insert_ne.
Qed.
Next Obligation.
  intros d b x r d' Hd Hx [= <- <-]. unfold ram_content; simpl.
  split; [by apply map_Forall_insert_2|]. split; [|by rewrite lookup_insert_eq].
  intros b' Hb'. by rewrite lookup_insert_ne.
Qed.

(** ** The buffer allocator *)

Class BlockBufferAllocator (A : Type) : Type := {
  allocate : A -> bool * A;
  deallocate : A -> A
}.

(** ** The cache *)

Record SharedBlockBuffer : Type := mkBuffer { data : list Z; is_dirty : bool }.

Record BlockCacheManager (D A : Type) : Type := mkCache {
  dev : D;
  cache : gmap Z SharedBlockBuffer;
  allocator : A
}.
Arguments mkCache {D A} _ _ _.
Arguments dev {D A} _.
Arguments cache {D A} _.
Arguments allocator {D A} _.

Section cache.
Context {D A : Type} `{BlockDevice D} `{BlockBufferAllocator A}.
#[local] Notation C := (BlockCacheManager D A).
#[local] Notation CM := (M C FsErrorKind).

Definition BlockCacheManager_new (d : D) (al : A) : C := mkCache d ∅ al.

(** [SharedBlockBuffer::new] *)
Definition SharedBlockBuffer_new (blk_no : Z) : CM SharedBlockBuffer := fun c =>
  let (ok, al') := allocate (allocator c) in
  let c1 := mkCache (dev c) (cache c) al' in
  if ok then
    match read_block blk_no (dev c1) with
    | (Some x, d') => (Ok (mkBuffer x false), mkCache d' (cache c1) al')
    | (None, d') => (Err IOError, mkCache d' (cache c1) al')
    end
  else (Err OutOfMemory, c1).

Definition get_block (blk_no : Z) : CM SharedBlockBuffer :=
  do c <- get;
  match cache c !! blk_no with
  | Some block => ret block
  | None =>
    do block <- SharedBlockBuffer_new blk_no;
    modify (fun c => mkCache (dev c) (<[blk_no := block]> (cache c)) (allocator c));;
    ret block
  end.

(** A store through the guard that [write] returned: [as_ref_mut_at] and
    [as_slice_mut_at] mark the buffer as dirty. *)
Definition write_through (blk_no : Z) (x : list Z) (c : C) : C :=
  mkCache (dev c) (<[blk_no := mkBuffer x true]> (cache c)) (allocator c).

(** [SharedBlockBuffer::sync] of the buffer of block [blk_no]. *)
Definition sync (blk_no : Z) : CM unit := fun c =>
  match cache c !! blk_no with
  | None => (Ok tt, c)
  | Some buf =>
    if is_dirty buf then
      match write_block blk_no (data buf) (dev c) with
      | (true, d') => (Ok tt, mkCache d' (<[blk_no := mkBuffer (data buf) false]> (cache c)) (allocator c))
      | (false, d') => (Err IOError, mkCache d' (cache c) (allocator c))
      end
    else (Ok tt, c)
  end.

Fixpoint sync_list (l : list Z) : CM unit :=
  match l with
  | [] => ret tt
  | b :: l' => sync b;; sync_list l'
  end.

(** [sync_all]: [order] is the order in which the cache is traversed. *)
Definition sync_all (order : gmap Z SharedBlockBuffer -> list Z) : CM unit :=
  do c <- get; sync_list (order (cache c)).

(** ** The cache is a block store *)

Context `{!BlockDeviceLaws D}.

Definition cache_view (c : C) (b : Z) : list Z :=
  match cache c !! b with
  | Some buf => data buf
  | None => content (dev c) b
  end.

(** Every buffer holds a block, and a clean one agrees with the device. *)
Definition cache_ok (c : C) : Prop :=
  device_ok (dev c) /\
  forall b buf, cache c !! b = Some buf ->
    is_block (data buf) /\ (is_dirty buf = false -> data buf = content (dev c) b).

Definition cache_healthy (c : C) : Prop :=
  reliable (dev c) /\ forall al : A, fst (allocate al) = true.

Lemma cache_view_ok c b : cache_ok c -> is_block (cache_view c b).
Proof.
  intros [Hd Hc]. unfold cache_view. destruct (cache c !! b) eqn:Hb; [by eapply Hc|by apply content_ok].
Qed.

(** [get_block] returns the logical content and leaves it alone; afterwards
    the block is cached. *)
Lemma get_block_spec c b : cache_ok c ->
  wp (get_block b)
     (fun buf c' => data buf = cache_view c b /\ cache_ok c' /\ cache c' !! b = Some buf /\
                    (forall b', cache_view c' b' = cache_view c b') /\ (cache_healthy c -> cache_healthy c'))
     (fun e c' => io_error e /\ cache_ok c' /\ (forall b', cache_view c' b' = cache_view c b') /\ ~ cache_healthy c) c.
Proof.
  intros Hok. pose proof Hok as [Hd Hc]. unfold get_block, wp, bind, get. unfold cache_view at 1.
  destruct (cache c !! b) as [buf|] eqn:Hb; simpl; [done|].
  unfold SharedBlockBuffer_new, cache_healthy.
  destruct (allocate (allocator c)) as [[] al'] eqn:Hal; simpl.
  2: { split; [by right|]. split; [done|]. split; [done|]. intros [_ Hh]. specialize (Hh (allocator c)).
       by rewrite Hal in Hh. }
  destruct (read_block b (dev c)) as [r d'] eqn:Hr.
  destruct (read_spec _ _ _ _ Hd Hr) as (Hd' & Hcont & Hrel & Hx).
  assert (Hcached : forall b' buf, cache c !! b' = Some buf ->
    is_block (data buf) /\ (is_dirty buf = false -> data buf = content d' b')).
  { intros b' buf Hb'. rewrite Hcont. by apply Hc. }
  destruct r as [x|]; simpl.
  - rewrite (Hx x eq_refl). split; [done|]. split; [split; [done|]|split; [|split]]; simpl.
    + intros b' buf [(<- & <-)|[? ?]]%lookup_insert_Some; [|by apply Hcached].
      simpl. rewrite Hcont. split; [by apply content_ok|done].
    + by rewrite lookup_insert_eq.
    + intros b'. unfold cache_view; simpl. rewrite lookup_insert. case_decide as Hbb; [subst; by rewrite Hb|].
      case_match; [done|apply Hcont].
    + intros [Hrd Hal']. split; [by apply Hrel|done].
  - split; [by left|]. split; [by split|]. split.
    + intros b'. unfold cache_view; simpl. case_match; [done|apply Hcont].
    + intros [Hrd _]. destruct (Hrel Hrd) as [_ [? ?]]. done.
Qed.

Lemma write_through_spec c b x : cache_ok c -> is_block x ->
  cache_ok (write_through b x c) /\ (cache_healthy c -> cache_healthy (write_through b x c)) /\
  forall b', cache_view (write_through b x c) b' = if decide (b' = b) then x else cache_view c b'.
Proof.
  intros [Hd Hc] Hx. split; [split; [done|]|split; [done|]]; simpl.
  - intros b' buf' [(<- & <-)|[? ?]]%lookup_insert_Some; [done|by apply Hc].
  - intros b'. unfold cache_view, write_through; simpl. rewrite lookup_insert.
    destruct (decide (b = b')) as [->|]; [by rewrite decide_True|].
    by rewrite decide_False by congruence.
Qed.

(** ** Writing back *)

(** A state [c'] reached from [c] by writing back buffers: the content is the
    same, and a buffer that is dirty now was dirty before. *)
Definition written_back (c c' : C) : Prop :=
  cache_ok c' /\ (forall b, cache_view c' b = cache_view c b) /\
  (forall b buf, cache c' !! b = Some buf -> is_dirty buf = true -> cache c !! b = Some buf) /\
  (forall b, is_Some (cache c' !! b) <-> is_Some (cache c !! b)) /\
  (cache_healthy c -> cache_healthy c').

Lemma written_back_refl c : cache_ok c -> written_back c c.
Proof. by intros. Qed.

Lemma written_back_trans c1 c2 c3 : written_back c1 c2 -> written_back c2 c3 -> written_back c1 c3.
Proof.
  intros (_ & Hv & Hd & Hs & Hh) (Hok & Hv' & Hd' & Hs' & Hh').
  split; [done|]. split; [intros; by rewrite Hv'|]. split; [auto|].
  split; [intros; by rewrite Hs'|auto].
Qed.

Lemma sync_spec c b : cache_ok c ->
  wp (sync b)
     (fun _ c' => written_back c c' /\ forall buf, cache c' !! b = Some buf -> is_dirty buf = false)
     (fun e c' => e = IOError /\ written_back c c' /\ ~ cache_healthy c) c.
Proof.
  intros Hok. pose proof Hok as [Hd Hc]. unfold wp, sync.
  destruct (cache c !! b) as [buf|] eqn:Hb; [|split; [by apply written_back_refl|by rewrite Hb]].
  destruct (is_dirty buf) eqn:Hdirty; [|split; [by apply written_back_refl|]; intros ?; rewrite Hb; by intros [= <-]].
  destruct (Hc _ _ Hb) as [Hblk _].
  destruct (write_block b (data buf) (dev c)) as [r d'] eqn:Hw.
  destruct (write_spec _ _ _ _ _ Hd Hblk Hw) as (Hd' & Hcont & Hrel & Hx).
  destruct r.
  - split; [|simpl; rewrite lookup_insert_eq; by intros ? [= <-]].
    split; [split; [done|]|split; [|split; [|split]]]; simpl.
    + intros b' buf' [(<- & <-)|[? Hb']]%lookup_insert_Some; [by rewrite Hx|].
      rewrite Hcont by done. by apply Hc.
    + intros b'. unfold cache_view; simpl. rewrite lookup_insert.
      case_decide; [subst; by rewrite Hb|]. case_match; [done|by apply Hcont].
    + by intros b' buf' [(<- & <-)|[? Hb']]%lookup_insert_Some.
    + intros b'. rewrite lookup_insert. case_decide; [subst; rewrite Hb; naive_solver|done].
    + intros [Hr Ha]. split; [by apply Hrel|done].
  - split; [done|]. split; [|intros [Hr _]; by destruct (Hrel Hr)].
    split; [split; [done|]|split; [|split; [done|split; [done|]]]]; simpl.
    + intros b' buf' Hb'. destruct (decide (b' = b)) as [->|Hne].
      * simplify_eq. split; [done|congruence].
      * rewrite Hcont by done. by apply Hc.
    + intros b'. unfold cache_view; simpl. case_match eqn:Hb'; [done|]. apply Hcont. congruence.
    + intros [Hr ?]. by destruct (Hrel Hr).
Qed.

(** ** The cache implements the interface *)

#[export] Instance cache_store : BlockStore C := {
  load b := do buf <- get_block b; ret (data buf);
  put_block := write_through;
  flush := sync;
  view := cache_view;
  store_ok := cache_ok;
  healthy := cache_healthy
}.

#[export] Instance cache_store_laws : BlockStoreLaws C.
Proof.
  assert (Hsv : forall c c' : C, (forall b', cache_view c' b' = cache_view c b') -> same_view c c').
  { intros c c' Hv b'. symmetry. apply Hv. }
  split.
  - apply cache_view_ok.
  - intros c b Hok. apply wp_bind. eapply wp_mono; [by apply get_block_spec| |].
    + intros buf c' (-> & ? & _ & Hv & Hh). apply wp_ret. split; [done|]. split; [done|auto].
    + intros e c' (? & ? & Hv & Hh). split; [done|]. split; [split; [done|tauto]|auto].
  - intros c b x Hok Hx. by destruct (write_through_spec c b x Hok Hx) as (? & ? & ?).
  - intros c b Hok. eapply wp_mono; [by apply sync_spec| |].
    + intros _ c' ((? & Hv & _ & _ & Hh) & _). split; [done|auto].
    + intros e c' (-> & (? & Hv & _) & Hh). split; [by left|]. split; [split; [done|tauto]|auto].
Qed.

Lemma sync_list_spec l c : cache_ok c ->
  wp (sync_list l)
     (fun _ c' => written_back c c' /\ forall b buf, b ∈ l -> cache c' !! b = Some buf -> is_dirty buf = false)
     (fun e c' => e = IOError /\ written_back c c' /\ ~ cache_healthy c) c.
Proof.
  revert c. induction l as [|b l IH]; intros c Hok.
  { apply wp_ret. split; [by apply written_back_refl|]. intros ? ? []%not_elem_of_nil. }
  cbn [sync_list]. apply wp_bind. eapply wp_mono; [by apply sync_spec| |done].
  intros _ c1 [Hwb Hclean]. eapply wp_mono; [apply IH, Hwb| |].
  - intros _ c2 [Hwb2 Hclean2]. split; [by eapply written_back_trans|].
    intros b' buf [->|Hin]%elem_of_cons Hbuf; [|by eapply Hclean2].
    destruct (is_dirty buf) eqn:Hdirty; [|done]. destruct Hwb2 as (_ & _ & Hd & _).
    specialize (Hd _ _ Hbuf Hdirty). specialize (Hclean _ Hd). congruence.
  - intros e c2 (-> & Hwb2 & Hh). split; [done|]. split; [by eapply written_back_trans|].
    destruct Hwb as (_ & _ & _ & _ & Hhc). tauto.
Qed.

Lemma sync_all_spec order c : cache_ok c ->
  (forall m b, is_Some (m !! b) -> b ∈ order m) ->
  wp (sync_all order)
     (fun _ c' => written_back c c' /\ forall b, content (dev c') b = cache_view c b)
     (fun e c' => e = IOError /\ written_back c c' /\ ~ cache_healthy c) c.
Proof.
  intros Hok Hord. unfold sync_all. apply wp_bind. unfold wp at 1, get.
  eapply wp_mono; [by apply sync_list_spec| |done]. intros _ c' [Hwb Hclean]. split; [done|].
  intros b. destruct Hwb as ([_ Hc'] & Hv & _ & Hs & _). rewrite <- Hv. unfold cache_view.
  destruct (cache c' !! b) as [buf|] eqn:Hb; [|done].
  symmetry. apply (Hc' _ _ Hb). eapply Hclean; [|done]. apply Hord, Hs. eauto.
Qed.

End cache.

(** ** Properties *)

(** C7. Durability: when [sync_all] succeeds every block of the device holds
    the logical content, dirty buffers included, so a file system that is
    reopened on the device with an empty cache sees exactly the same content.
    On a device without failures [sync_all] does succeed; when it fails, the
    logical content is still intact. *)
Theorem sync_all_durable {D A : Type} `{BlockDevice D} `{BlockBufferAllocator A} `{!BlockDeviceLaws D}
    (order : gmap Z SharedBlockBuffer -> list Z) (c : BlockCacheManager D A) (al : A)
    (Hok : cache_ok c) (Hord : forall m b, is_Some (m !! b) -> b ∈ order m) :
  match sync_all order c with
  | (Ok _, c') => forall b, cache_view (BlockCacheManager_new (dev c') al) b = cache_view c b
  | (Err e, c') => e = IOError /\ ~ cache_healthy c /\ forall b, cache_view c' b = cache_view c b
  | (Panic, _) => False
  end.
Proof.
  pose proof (sync_all_spec order c Hok Hord) as Hs. unfold wp in Hs.
  destruct (sync_all order c) as [[|e|] c']; [|destruct Hs as (? & (_ & ? & _) & ?); auto|done].
  intros b. unfold cache_view at 1; simpl. rewrite lookup_empty. apply Hs.
Qed.

(** C6. The cache over any lawful device is transparent: [get_block] returns
    the logical content of the block, a store through a write guard changes
    that block only, device and allocation errors leave the logical content
    alone, and no error occurs on a healthy device. *)
Theorem cache_transparent {D A : Type} `{BlockDevice D} `{BlockBufferAllocator A} `{!BlockDeviceLaws D}
    (c : BlockCacheManager D A) (b : Z) (x : list Z) (Hok : cache_ok c) (Hx : is_block x) :
  match get_block b c with
  | (Ok buf, c') =>
      data buf = cache_view c b /\ (forall b', cache_view c' b' = cache_view c b') /\
      forall b', cache_view (write_through b x c') b' = if decide (b' = b) then x else cache_view c b'
  | (Err e, c') => io_error e /\ ~ cache_healthy c /\ forall b', cache_view c' b' = cache_view c b'
  | (Panic, _) => False
  end.
Proof.
  pose proof (get_block_spec c b Hok) as Hg. unfold wp in Hg.
  destruct (get_block b c) as [[buf|e|] c']; [|tauto|done].
  destruct Hg as (Hbuf & Hok' & _ & Hv & _). split; [done|]. split; [done|].
  destruct (write_through_spec c' b x Hok' Hx) as (_ & _ & Hw). intros b'. rewrite Hw.
  case_decide; [done|apply Hv].
Qed.

(** A concrete store: the RAM device with an allocator that never fails. *)
#[export] Instance unit_allocator : BlockBufferAllocator unit := {
  allocate _ := (true, tt);
  deallocate _ := tt
}.

Notation RamStore := (BlockCacheManager RamBlockDevice unit).

Definition ram_store : RamStore := BlockCacheManager_new (mkRam ∅) tt.

Lemma ram_store_ok : store_ok ram_store /\ healthy ram_store.
Proof. split; [split; [apply map_Forall_empty|]|done]. intros b buf Hb. simpl in Hb. by rewrite lookup_empty in Hb. Qed.

(** The keys of the cache, as an order in which to write it back. *)
Definition any_order (m : gmap Z SharedBlockBuffer) : list Z := fst <$> map_to_list m.

Lemma any_order_complete m b : is_Some (m !! b) -> b ∈ any_order m.
Proof.
  intros [x Hx]. unfold any_order. apply list_elem_of_fmap. exists (b, x).
  split; [done|by apply elem_of_map_to_list].
Qed.

Definition ram_store_1 : RamStore := snd (update 7 (set_u64 0 5) ram_store).

Lemma ram_store_1_ok : cache_ok ram_store_1.
Proof.
  destruct ram_store_ok as [Hok Hh].
  assert (Hblk : is_block (set_u64 0 5 (view ram_store 7))).
  { apply set_u64_block; [by apply view_ok|lia]. }
  pose proof (update_spec ram_store 7 (set_u64 0 5) Hok Hblk) as Hw. unfold ram_store_1, wp in *.
  destruct (update 7 _ ram_store) as [[|e|] c']; [apply Hw|apply Hw|done].
Qed.

Lemma sync_all_durable_witness :
  match sync_all any_order ram_store_1 with
  | (Ok _, c') => forall b, cache_view (BlockCacheManager_new (dev c') tt) b = cache_view ram_store_1 b
  | (Err e, c') => e = IOError /\ ~ cache_healthy ram_store_1 /\ forall b, cache_view c' b = cache_view ram_store_1 b
  | (Panic, _) => False
  end.
Proof. exact (sync_all_durable any_order ram_store_1 tt ram_store_1_ok any_order_complete). Defined.

Lemma cache_transparent_witness :
  match get_block 7 ram_store_1 with
  | (Ok buf, c') =>
      data buf = cache_view ram_store_1 7 /\ (forall b', cache_view c' b' = cache_view ram_store_1 b') /\
      forall b', cache_view (write_through 7 zero_block c') b' =
        if decide (b' = 7) then zero_block else cache_view ram_store_1 b'
  | (Err e, c') => io_error e /\ ~ cache_healthy ram_store_1 /\ forall b', cache_view c' b' = cache_view ram_store_1 b'
  | (Panic, _) => False
  end.
Proof. exact (cache_transparent ram_store_1 7 zero_block ram_store_1_ok zero_block_ok). Defined.
