(* ===== verification/Superblock.v ===== *)
(** * The superblock (src/fs/redwing_efs/src/superblock.rs, consts.rs)

    The layout of an EFS volume: block 0 is unused, block 1 holds the
    superblock, then come the inode bitmap, the inodes, the data bitmap and
    the data blocks.  Arithmetic is the checked one of the development
    profile, in which mkfs builds volumes: an overflow panics. *)

From S2P Require Import Prelude Bytes Vfs Store.
Import Vfs.

#[local] Open Scope Z_scope.
#[local] Open Scope rw_scope.

Notation BLOCK_BITS := (BLOCK_SIZE * 8).

(** [size_of::<RawINode>()]: packed, four [le32]/[le64] fields, twelve direct
    pointers and two indirect ones. *)
Notation RAW_INODE_SIZE := 132.
Notation NINODES_PER_BLOCK := 31.

Lemma ninodes_per_block : NINODES_PER_BLOCK = BLOCK_SIZE / RAW_INODE_SIZE
  /\ RAW_INODE_SIZE = 4 + 8 + 4 + 4 + 12 * 8 + 8 + 8.
Proof. done. Qed.

Definition div_ceil (a b : Z) : Z := (a + b - 1) / b.

Lemma div_ceil_spec a b : 0 <= a -> 0 < b -> (div_ceil a b - 1) * b < a <= div_ceil a b * b \/ a = 0 /\ div_ceil a b = 0.
Proof.
  intros. unfold div_ceil. pose proof (Z.div_mod (a + b - 1) b). pose proof (Z.mod_pos_bound (a + b - 1) b).
  destruct (decide (a = 0)) as [->|]; [right; split; [done|]; apply Z.div_small; lia|]. left. nia.
Qed.

Definition EFS_SB_MAGIC : Z := 0xEFFF.
Definition SUPERBLOCK_BLOCK_NO : Z := 1.

Record RawSuperBlock : Type := mkSuperBlock {
  magic : Z;
  size : Z;
  inode_bitmap_blocks : Z;
  inode_blocks : Z;
  data_bitmap_blocks : Z;
  data_blocks : Z
}.

(** [a - b] and [a * b] on 64-bit unsigned integers, overflow checked. *)
Definition sub_u64 (a b : Z) : outcome FsErrorKind Z := if a <? b then Panic else Ok (a - b).
Definition mul_u64 (a b : Z) : outcome FsErrorKind Z := if 2 ^ 64 <=? a * b then Panic else Ok (a * b).

Definition RawSuperBlock_new (potential_size inode_size : Z) : outcome FsErrorKind RawSuperBlock :=
  if negb ((potential_size mod BLOCK_SIZE =? 0) && (BLOCK_SIZE * 128 <? potential_size)
           && (inode_size <? potential_size) && (1024 * 8 <? inode_size)) then Panic else
  let potential_block_cnt := potential_size / BLOCK_SIZE in
  let inode_blocks := div_ceil inode_size BLOCK_SIZE in
  let inode_bitmap_blocks := div_ceil inode_size (BLOCK_SIZE * 8) in
  match sub_u64 potential_block_cnt inode_blocks with
  | Ok r1 =>
    match sub_u64 r1 inode_bitmap_blocks with
    | Ok r2 =>
      match sub_u64 r2 2 with
      | Ok remainning_blocks =>
        let data_bitmap_blocks := div_ceil remainning_blocks (BLOCK_SIZE * 8) in
        match sub_u64 remainning_blocks data_bitmap_blocks with
        | Ok data_blocks =>
          Ok (mkSuperBlock EFS_SB_MAGIC (potential_block_cnt * BLOCK_SIZE)
                inode_bitmap_blocks inode_blocks data_bitmap_blocks data_blocks)
        | _ => Panic
        end
      | _ => Panic
      end
    | _ => Panic
    end
  | _ => Panic
  end.

Definition inode_bitmap_start_bno (sb : RawSuperBlock) : Z := 2.
Definition inode_start_bno (sb : RawSuperBlock) : Z := 2 + inode_bitmap_blocks sb.
Definition data_bitmap_start_bno (sb : RawSuperBlock) : Z := inode_start_bno sb + inode_blocks sb.
Definition data_start_bno (sb : RawSuperBlock) : Z := data_bitmap_start_bno sb + data_bitmap_blocks sb.
Definition inode_counts (sb : RawSuperBlock) : Z := inode_blocks sb * NINODES_PER_BLOCK.

Definition verify_bitmap (n_bitmap_blocks n_bits : Z) : outcome FsErrorKind bool :=
  match mul_u64 n_bitmap_blocks BLOCK_SIZE with
  | Ok m => match mul_u64 m 8 with
            | Ok bitmap_bits => Ok (n_bits <=? bitmap_bits)
            | _ => Panic
            end
  | _ => Panic
  end.

(** [self.inode_counts()] multiplies with overflow checks as well. *)
Definition verify (sb : RawSuperBlock) : outcome FsErrorKind unit :=
  if negb (magic sb =? EFS_SB_MAGIC) then Err FileSystemCorruption else
  match mul_u64 (inode_blocks sb) NINODES_PER_BLOCK with
  | Ok n_inodes =>
    match verify_bitmap (inode_bitmap_blocks sb) n_inodes with
    | Ok false => Err FileSystemCorruption
    | Ok true =>
      match verify_bitmap (data_bitmap_blocks sb) (data_blocks sb) with
      | Ok false => Err FileSystemCorruption
      | Ok true => Ok tt
      | _ => Panic
      end
    | _ => Panic
    end
  | _ => Panic
  end.

(** The packed on-disk form: one [le32] and five [le64]. *)
Definition encode_sb (sb : RawSuperBlock) : list Z :=
  le_encode 4 (magic sb) ++ le_encode 8 (size sb) ++ le_encode 8 (inode_bitmap_blocks sb)
  ++ le_encode 8 (inode_blocks sb) ++ le_encode 8 (data_bitmap_blocks sb) ++ le_encode 8 (data_blocks sb).

Definition decode_sb (b : list Z) : RawSuperBlock :=
  mkSuperBlock (le_decode (sub 0 4 b)) (le_decode (sub 4 8 b)) (le_decode (sub 12 8 b))
    (le_decode (sub 20 8 b)) (le_decode (sub 28 8 b)) (le_decode (sub 36 8 b)).

Section io.
Context {S : Type} `{BlockStore S}.

Definition RawSuperBlock_read : M S FsErrorKind RawSuperBlock :=
  do b <- load SUPERBLOCK_BLOCK_NO; ret (decode_sb b).

Definition RawSuperBlock_write (sb : RawSuperBlock) : M S FsErrorKind unit :=
  update SUPERBLOCK_BLOCK_NO (splice 0 (encode_sb sb));;
  flush SUPERBLOCK_BLOCK_NO.
End io.

(** ** Lemmas *)

Definition sb_fits (sb : RawSuperBlock) : Prop :=
  0 <= magic sb < 2 ^ 32 /\ is_u64 (size sb) /\ is_u64 (inode_bitmap_blocks sb) /\
  is_u64 (inode_blocks sb) /\ is_u64 (data_bitmap_blocks sb) /\ is_u64 (data_blocks sb).

Lemma encode_sb_length sb : zlen (encode_sb sb) = 44.
Proof. unfold encode_sb. rewrite !length_app, !le_encode_length. done. Qed.

Lemma encode_sb_bytes sb : Forall is_byte (encode_sb sb).
Proof. unfold encode_sb. rewrite !Forall_app. auto 10 using le_encode_bytes. Qed.

Lemma sub_splice_0 {A} (d b : list A) off len : 0 <= off -> 0 <= len -> off + len <= zlen d -> zlen d <= zlen b ->
  sub off len (splice 0 d b) = sub off len d.
Proof.
  intros. assert (zlen (sub off len (splice 0 d b)) = len).
  { apply sub_length; rewrite ?splice_length; lia. }
  assert (zlen (sub off len d) = len) by (apply sub_length; lia).
  apply list_eq_Z; [lia|]. intros i Hi. rewrite !lookup_sub by lia.
  rewrite lookup_splice by lia. rewrite decide_True by lia. f_equal. lia.
Qed.

Lemma decode_encode_sb sb b : sb_fits sb -> 44 <= zlen b -> decode_sb (splice 0 (encode_sb sb) b) = sb.
Proof.
  intros (Hm & ?&?&?&?&?) Hb. unfold decode_sb. rewrite !sub_splice_0; rewrite ?encode_sb_length; try lia.
  destruct sb; unfold encode_sb, is_u64 in *; simpl in *. unfold sub; simpl.
  f_equal; apply (le_decode_encode 4) || apply (le_decode_encode 8); done.
Qed.

Lemma verify_bitmap_sound n bits : verify_bitmap n bits = Ok true -> 0 <= bits ->
  div_ceil bits BLOCK_BITS <= n.
Proof.
  unfold verify_bitmap, mul_u64. repeat case_match; try done. intros [= Hb] Hbits.
  simplify_eq. apply Z.leb_le in Hb. unfold div_ceil.
  apply Z.lt_succ_r, Z.div_lt_upper_bound; lia.
Qed.

Lemma div_ceil_pos a b : 0 < a -> 0 < b -> 0 < div_ceil a b.
Proof. intros. pose proof (div_ceil_spec a b). nia. Qed.

(** What [new] computes, and when it panics. *)
Definition new_possible (potential_size inode_size : Z) : Prop :=
  potential_size mod BLOCK_SIZE = 0 /\ BLOCK_SIZE * 128 < potential_size /\
  1024 * 8 < inode_size < potential_size /\
  div_ceil inode_size BLOCK_SIZE + div_ceil inode_size BLOCK_BITS + 2 <= potential_size / BLOCK_SIZE.

(** [div_ceil] by a constant, for [lia]. *)
Ltac div_ceil_facts :=
  repeat match goal with
  | |- context [div_ceil ?a ?b] =>
    lazymatch goal with
    | _ : (div_ceil a b - 1) * b < a <= div_ceil a b * b \/ _ |- _ => fail
    | _ => pose proof (div_ceil_spec a b ltac:(lia) ltac:(lia))
    end
  end.

Lemma verify_bitmap_complete n bits : 0 <= n -> n * BLOCK_BITS < 2 ^ 64 -> bits <= n * BLOCK_BITS ->
  verify_bitmap n bits = Ok true.
Proof.
  intros. unfold verify_bitmap, mul_u64.
  destruct (Z.leb_spec (2 ^ 64) (n * BLOCK_SIZE)); [lia|].
  destruct (Z.leb_spec (2 ^ 64) (n * BLOCK_SIZE * 8)); [lia|].
  do 2 f_equal. apply Z.leb_le. lia.
Qed.

Lemma new_spec ps isz : 0 <= ps < 2 ^ 64 -> 0 <= isz ->
  match RawSuperBlock_new ps isz with
  | Ok sb =>
      new_possible ps isz /\ sb_fits sb /\ magic sb = EFS_SB_MAGIC /\ size sb = ps /\
      inode_blocks sb = div_ceil isz BLOCK_SIZE /\ inode_bitmap_blocks sb = div_ceil isz BLOCK_BITS /\
      data_start_bno sb + data_blocks sb = ps / BLOCK_SIZE /\
      data_bitmap_blocks sb = div_ceil (data_blocks sb + data_bitmap_blocks sb) BLOCK_BITS
  | Err _ => False
  | Panic => ~ new_possible ps isz
  end.
Proof.
  intros Hps Hisz. unfold RawSuperBlock_new, new_possible.
  destruct (negb _) eqn:Hc; [lia|].
  pose proof (div_ceil_spec isz BLOCK_SIZE ltac:(lia) ltac:(lia)) as Hq1.
  pose proof (div_ceil_spec isz BLOCK_BITS ltac:(lia) ltac:(lia)) as Hq2.
  pose proof (Z.div_mod ps BLOCK_SIZE ltac:(lia)) as Hq3.
  unfold sub_u64. set (q := ps / BLOCK_SIZE) in *. set (a := div_ceil isz BLOCK_SIZE) in *.
  set (b := div_ceil isz BLOCK_BITS) in *.
  destruct (Z.ltb_spec q a); [lia|]. destruct (Z.ltb_spec (q - a) b); [lia|].
  destruct (Z.ltb_spec (q - a - b) 2); [lia|].
  pose proof (div_ceil_spec (q - a - b - 2) BLOCK_BITS ltac:(lia) ltac:(lia)) as Hq4.
  set (d := div_ceil (q - a - b - 2) BLOCK_BITS) in *.
  destruct (Z.ltb_spec (q - a - b - 2) d); [lia|].
  unfold sb_fits, is_u64, data_start_bno, data_bitmap_start_bno, inode_start_bno, EFS_SB_MAGIC; simpl.
  replace (q - a - b - 2 - d + d) with (q - a - b - 2) by lia. fold d.
  repeat split; try lia; done.
Qed.

(** ** Properties *)

(** [RawSuperBlock::new] panics exactly when the sizes leave no room for
    the metadata blocks; otherwise the volume it lays out passes [verify], the
    regions tile the device exactly (the data region ends at the last block),
    both bitmaps fit in their regions, and the inode region holds the bytes
    asked for. *)
Theorem superblock_new_layout (ps isz : Z) (Hps : 0 <= ps < 2 ^ 64) (Hisz : 0 <= isz) :
  match RawSuperBlock_new ps isz with
  | Ok sb =>
      new_possible ps isz /\ verify sb = Ok tt /\ size sb = ps /\
      data_start_bno sb + data_blocks sb = ps / BLOCK_SIZE /\
      div_ceil (inode_counts sb) BLOCK_BITS <= inode_bitmap_blocks sb /\
      div_ceil (data_blocks sb) BLOCK_BITS <= data_bitmap_blocks sb /\
      isz <= inode_blocks sb * BLOCK_SIZE
  | Err _ => False
  | Panic => ~ new_possible ps isz
  end.
Proof.
  pose proof (new_spec ps isz Hps Hisz) as Hn.
  destruct (RawSuperBlock_new ps isz) as [sb| |]; [|done|done].
  destruct Hn as (Hp & Hfit & Hm & Hs & Hib & Hbb & Htile & Hdb).
  pose proof Hp as (Hmod & ? & ? & ?). unfold sb_fits, is_u64 in Hfit.
  unfold data_start_bno, data_bitmap_start_bno, inode_start_bno, inode_counts in *.
  pose proof (div_ceil_spec isz BLOCK_SIZE ltac:(lia) ltac:(lia)) as Hq1.
  pose proof (div_ceil_spec isz BLOCK_BITS ltac:(lia) ltac:(lia)) as Hq2.
  pose proof (div_ceil_spec (data_blocks sb + data_bitmap_blocks sb) BLOCK_BITS ltac:(lia) ltac:(lia)) as Hq3.
  rewrite <- Hib in *. rewrite <- Hbb in *. rewrite <- Hdb in *.
  pose proof (Z.div_mod ps BLOCK_SIZE ltac:(lia)) as Hdm.
  assert (Hv1 : verify_bitmap (inode_bitmap_blocks sb) (inode_blocks sb * NINODES_PER_BLOCK) = Ok true).
  { apply verify_bitmap_complete; lia. }
  assert (Hv2 : verify_bitmap (data_bitmap_blocks sb) (data_blocks sb) = Ok true).
  { apply verify_bitmap_complete; lia. }
  split; [done|]. split.
  { unfold verify. rewrite Hm, Z.eqb_refl; simpl. unfold mul_u64.
    destruct (Z.leb_spec (2 ^ 64) (inode_blocks sb * NINODES_PER_BLOCK)); [lia|]. by rewrite Hv1, Hv2. }
  split; [done|]. split; [lia|]. split; [apply verify_bitmap_sound; [done|lia]|].
  split; [apply verify_bitmap_sound; [done|lia]|]. lia.
Qed.

Lemma superblock_new_layout_witness :
  match RawSuperBlock_new (4096 * 4000) (1024 * 16) with
  | Ok sb => data_start_bno sb + data_blocks sb = 4000
  | _ => False
  end.
Proof.
  pose proof (superblock_new_layout (4096 * 4000) (1024 * 16) ltac:(lia) ltac:(lia)) as Hl.
  destruct (RawSuperBlock_new (4096 * 4000) (1024 * 16)) as [sb| |] eqn:Hn.
  - by destruct Hl as (_ & _ & _ & -> & _).
  - done.
  - discriminate Hn.
Defined.

(** On a healthy store, a superblock written to block 1 is read back
    unchanged, and the write leaves every other block alone. *)
Theorem superblock_roundtrip {S : Type} `{BlockStoreLaws S} (sb : RawSuperBlock) (s : S)
    (Hok : store_ok s) (Hh : healthy s) (Hfit : sb_fits sb) :
  exists s', (RawSuperBlock_write sb;; RawSuperBlock_read) s = (Ok sb, s')
    /\ (forall b, b <> SUPERBLOCK_BLOCK_NO -> view s' b = view s b).
Proof.
  destruct (view_ok s SUPERBLOCK_BLOCK_NO Hok) as [Hlen Hbytes].
  edestruct (wp_total (RawSuperBlock_write sb;; RawSuperBlock_read)
    (fun r s' => r = sb /\ forall b, b <> SUPERBLOCK_BLOCK_NO -> view s' b = view s b) s)
    as (r & s' & Hrun & -> & Hv); [|done|by eauto].
  unfold RawSuperBlock_write, RawSuperBlock_read. apply wp_bind, wp_bind.
  eapply wp_mono; [apply update_spec; [done|]| |by eauto with efs].
  { split; [rewrite splice_length; rewrite ?encode_sb_length; lia|].
    apply splice_Forall; [done|apply encode_sb_bytes]. }
  intros _ s1 ([Hok1 Hh1] & Hv1). eapply wp_mono; [by apply flush_spec| |not_healthy].
  intros _ s2 ([Hok2 Hh2] & Hv2). apply wp_bind.
  eapply wp_mono; [by apply load_spec| |not_healthy].
  intros d s3 (-> & _ & Hv3). apply wp_ret. split.
  - rewrite <- Hv2, Hv1, decide_True by done. apply decode_encode_sb; [done|lia].
  - intros b Hb. rewrite <- Hv3, <- Hv2, Hv1. by rewrite decide_False.
Qed.

Lemma superblock_roundtrip_witness :
  let sb := mkSuperBlock EFS_SB_MAGIC (4096 * 4000) 1 4 1 3992 in
  exists s', (RawSuperBlock_write sb;; RawSuperBlock_read) ram_store = (Ok sb, s')
    /\ (forall b, b <> SUPERBLOCK_BLOCK_NO -> view s' b = view ram_store b).
Proof.
  apply superblock_roundtrip; [apply ram_store_ok|apply ram_store_ok|].
  unfold sb_fits, is_u64, EFS_SB_MAGIC; simpl; lia.
Defined.
