(* ===== verification/Bitmap.v ===== *)
(** * Allocation bitmaps (src/fs/redwing_efs/src/bitmap.rs)

    A bitmap is a run of blocks seen as arrays of 512 [u64]; bit [i] of the
    bitmap is bit [i mod 64] of word [i / 64].  The loops over the words take
    the Rust closures as functions that pass their captured variables along. *)

From S2P Require Import Prelude Bytes Vfs Store Superblock.
Import Vfs.

#[local] Open Scope Z_scope.
#[local] Open Scope rw_scope.

Notation U64_BITS := 64.
Notation WORDS_PER_BLOCK := 512.

(** [u64::trailing_ones] *)
Fixpoint trailing_ones_from (n : nat) (i w : Z) : Z :=
  match n with
  | O => i
  | S n' => if Z.testbit w i then trailing_ones_from n' (i + 1) w else i
  end.
Definition trailing_ones (w : Z) : Z := trailing_ones_from 64 0 w.

(** [u64::count_ones] *)
Fixpoint count_ones_from (n : nat) (i w : Z) : Z :=
  match n with
  | O => 0
  | S n' => Z.b2z (Z.testbit w i) + count_ones_from n' (i + 1) w
  end.
Definition count_ones (w : Z) : Z := count_ones_from 64 0 w.

Record BitmapBlocks : Type := mkBitmap {
  start_blk_no : Z;
  end_blk_no : Z;
  bits_len : Z
}.

Definition BitmapBlocks_new (start len : Z) : BitmapBlocks :=
  mkBitmap start (start + div_ceil len BLOCK_BITS) len.

Section bitmap.
Context {St : Type} `{BlockStore St}.
#[local] Notation SM := (M St FsErrorKind).
Implicit Types bm : BitmapBlocks.

(** The inner loop of [foreach_64_bits_mut] over the words of one block: [k]
    words are left, the next one being word [j]; [c] are the variables that
    the closure [f] captures.  It yields the result of the closure, whether
    the loop returned, the counter, the captured variables and the block. *)
Fixpoint words_mut {T C} (len : Z) (f : Z -> Z -> C -> option T * Z * C)
    (k : nat) (j u64_idx : Z) (c : C) (blk : list Z) : (option T * bool * Z * C) * list Z :=
  match k with
  | O => ((None, false, u64_idx, c), blk)
  | S k' =>
    let '(r, w, c') := f u64_idx (u64_at blk j) c in
    let blk' := set_u64 j w blk in
    match r with
    | Some t => ((Some t, true, u64_idx, c'), blk')
    | None =>
      let u64_idx' := u64_idx + 1 in
      if len <=? u64_idx' * U64_BITS then ((None, true, u64_idx', c'), blk')
      else words_mut len f k' (j + 1) u64_idx' c' blk'
    end
  end.

Fixpoint blocks_mut {T C} (len : Z) (f : Z -> Z -> C -> option T * Z * C)
    (n : nat) (bid u64_idx : Z) (c : C) : SM (option T) :=
  match n with
  | O => ret None
  | S n' =>
    do (r, stop, u64_idx', c') <- with_block bid (words_mut len f (Z.to_nat WORDS_PER_BLOCK) 0 u64_idx c);
    if stop : bool then ret r else blocks_mut len f n' (bid + 1) u64_idx' c'
  end.

Definition foreach_64_bits_mut {T C} bm (f : Z -> Z -> C -> option T * Z * C) (c : C) : SM (option T) :=
  blocks_mut (bits_len bm) f (Z.to_nat (end_blk_no bm - start_blk_no bm)) (start_blk_no bm) 0 c.

(** The read-only loops of [foreach_64_bits]. *)
Fixpoint words_fold {C} (len : Z) (f : Z -> Z -> C -> C)
    (k : nat) (j u64_idx : Z) (c : C) (blk : list Z) : bool * Z * C :=
  match k with
  | O => (false, u64_idx, c)
  | S k' =>
    let c' := f u64_idx (u64_at blk j) c in
    let u64_idx' := u64_idx + 1 in
    if len <=? u64_idx' * U64_BITS then (true, u64_idx', c')
    else words_fold len f k' (j + 1) u64_idx' c' blk
  end.

Fixpoint blocks_fold {C} (len : Z) (f : Z -> Z -> C -> C) (n : nat) (bno u64_idx : Z) (c : C) : SM C :=
  match n with
  | O => ret c
  | S n' =>
    do blk <- load bno;
    let '(stop, u64_idx', c') := words_fold len f (Z.to_nat WORDS_PER_BLOCK) 0 u64_idx c blk in
    if stop : bool then ret c' else blocks_fold len f n' (bno + 1) u64_idx' c'
  end.

Definition foreach_64_bits {C} bm (f : Z -> Z -> C -> C) (c : C) : SM C :=
  blocks_fold (bits_len bm) f (Z.to_nat (end_blk_no bm - start_blk_no bm)) (start_blk_no bm) 0 c.

(** The closure of [alloc_bit], which captures [bit_idx]. *)
Definition alloc_closure (len idx bits bit_idx : Z) : option Z * Z * Z :=
  let idx_within_bits := trailing_ones bits in
  if idx_within_bits =? U64_BITS then (None, bits, bit_idx + U64_BITS)
  else
    let bit_idx := bit_idx + idx_within_bits in
    if len <=? bit_idx then (None, bits, bit_idx)
    else (Some (idx * U64_BITS + idx_within_bits), Z.lor bits (Z.shiftl 1 idx_within_bits), bit_idx).

Definition alloc_bit bm : SM (option Z) :=
  foreach_64_bits_mut bm (alloc_closure (bits_len bm)) 0.

Definition locate_bit_pos bm (index : Z) : Z * Z * Z :=
  let blk_no := index / BLOCK_BITS in
  let bytes_idx := (index - blk_no * BLOCK_BITS) / U64_BITS in
  let idx_in_bit := index mod U64_BITS in
  (start_blk_no bm + blk_no, bytes_idx, idx_in_bit).

Definition get_bit bm (index : Z) : SM bool :=
  if bits_len bm <=? index then fail InvalidArgument else
  let '(blk_no, u64_idx, idx_within_bits) := locate_bit_pos bm index in
  do blk <- load blk_no;
  ret (Z.land (Z.shiftr (u64_at blk u64_idx) idx_within_bits) 1 =? 1).

Definition clear_bit bm (index : Z) : SM unit :=
  if bits_len bm <=? index then fail InvalidArgument else
  let '(block_id, bytes_idx, idx_in_bit) := locate_bit_pos bm index in
  update block_id (fun blk => set_u64 bytes_idx (Z.ldiff (u64_at blk bytes_idx) (Z.shiftl 1 idx_in_bit)) blk).

Definition set_bit bm (index : Z) : SM unit :=
  if bits_len bm <=? index then fail InvalidArgument else
  let '(block_id, bytes_idx, idx_in_bit) := locate_bit_pos bm index in
  update block_id (fun blk => set_u64 bytes_idx (Z.lor (u64_at blk bytes_idx) (Z.shiftl 1 idx_in_bit)) blk).

Definition count_allocated_bits bm : SM Z :=
  foreach_64_bits bm (fun _ bits total => total + count_ones bits) 0.

(** ** The bits of a bitmap *)

Definition word_of bm (s : St) (k : Z) : Z :=
  u64_at (view s (start_blk_no bm + k / WORDS_PER_BLOCK)) (k mod WORDS_PER_BLOCK).

Definition bit bm (s : St) (i : Z) : bool := Z.testbit (word_of bm s (i / U64_BITS)) (i mod U64_BITS).

(** ** Lemmas *)

Lemma trailing_ones_from_spec n i w :
  let t := trailing_ones_from n i w in
  i <= t <= i + Z.of_nat n /\ (forall b, i <= b < t -> Z.testbit w b = true) /\
  (t < i + Z.of_nat n -> Z.testbit w t = false).
Proof.
  revert i. induction n as [|n IH]; intros i; cbn [trailing_ones_from]; [repeat split; lia|].
  destruct (Z.testbit w i) eqn:Hb; [|repeat split; auto; lia].
  destruct (IH (i + 1)) as (Ht & Hones & Hz). repeat split; [lia|lia| |intros; apply Hz; lia].
  intros b Hbr. destruct (decide (b = i)) as [->|]; [done|]. apply Hones. lia.
Qed.

Lemma trailing_ones_spec w :
  0 <= trailing_ones w <= 64 /\ (forall b, 0 <= b < trailing_ones w -> Z.testbit w b = true) /\
  (trailing_ones w < 64 -> Z.testbit w (trailing_ones w) = false).
Proof. apply (trailing_ones_from_spec 64 0 w). Qed.

(** Bit [i] of the bitmap in a block whose first word is word [base]. *)
Definition gbit (base : Z) (blk : list Z) (i : Z) : bool := Z.testbit (u64_at blk (i / 64 - base)) (i mod 64).

Definition set_gbit (base i : Z) (blk : list Z) : list Z :=
  set_u64 (i / 64 - base) (Z.lor (u64_at blk (i / 64 - base)) (Z.shiftl 1 (i mod 64))) blk.

Lemma set_gbit_block base i blk : is_block blk -> 0 <= i / 64 - base < 512 -> is_block (set_gbit base i blk).
Proof. intros. by apply set_u64_block. Qed.

Lemma word_in_block blk j : is_block blk -> 0 <= j < 512 -> is_u64 (u64_at blk j).
Proof. intros [? ?] ?. apply u64_at_range; [done|lia..]. Qed.

(** What the allocation loop finds in the words [j .. j + k) of a block. *)
Lemma alloc_words len base blk k j : is_block blk -> 0 <= j -> j + Z.of_nat k = 512 ->
  64 * (base + j) < len ->
  let lo := 64 * (base + j) in
  let '((r, stop, idx', c'), blk') :=
    words_mut len (alloc_closure len) k j (base + j) lo blk in
  match r with
  | Some i => stop = true /\ lo <= i < len /\ 0 <= i / 64 - base < 512 /\ blk' = set_gbit base i blk /\
      gbit base blk i = false /\ forall i', lo <= i' < i -> gbit base blk i' = true
  | None => blk' = blk /\
      if stop : bool then len <= 64 * (base + 512) /\ forall i', lo <= i' < len -> gbit base blk i' = true
      else idx' = base + 512 /\ c' = 64 * idx' /\ 64 * idx' < len /\
           forall i', lo <= i' < 64 * idx' -> gbit base blk i' = true
  end.
Proof.
  intros Hblk. revert j. induction k as [|k IH]; intros j Hj Hk Hlen; cbn [words_mut].
  { split; [done|]. split; [lia|]. split; [lia|]. split; [lia|]. intros; lia. }
  destruct (trailing_ones_spec (u64_at blk j)) as (Ht & Hones & Hz).
  assert (Hword : forall i', 64 * (base + j) <= i' < 64 * (base + j) + trailing_ones (u64_at blk j) ->
    gbit base blk i' = true).
  { intros i' Hi'. unfold gbit. replace (i' / 64 - base) with j by lia. apply Hones. lia. }
  unfold alloc_closure at 1.
  assert (Hid : set_u64 j (u64_at blk j) blk = blk).
  { destruct Hblk. apply set_u64_id; [done|lia|lia]. }
  destruct (Z.eqb_spec (trailing_ones (u64_at blk j)) 64) as [Hfull|Hnf].
  - rewrite Hid. destruct (Z.leb_spec len ((base + j + 1) * 64)).
    + split; [done|]. split; [lia|]. intros; apply Hword; lia.
    + replace (64 * (base + j) + 64) with (64 * (base + (j + 1))) by lia.
      replace (base + j + 1) with (base + (j + 1)) by lia.
      specialize (IH (j + 1) ltac:(lia) ltac:(lia) ltac:(lia)). cbv zeta in IH.
      destruct (words_mut _ _ _ _ _ _ _) as [[[[r stop] idx'] c'] blk'].
      assert (Hext : forall hi, (forall i', 64 * (base + (j + 1)) <= i' < hi -> gbit base blk i' = true) ->
        forall i', 64 * (base + j) <= i' < hi -> gbit base blk i' = true).
      { intros hi Hhi i' Hi'. destruct (decide (i' < 64 * (base + (j + 1)))); [apply Hword|apply Hhi]; lia. }
      destruct r as [i|]; [|destruct stop].
      * destruct IH as (? & ? & ? & ? & ? & Hall). repeat split; try done; try lia. by apply Hext.
      * destruct IH as (? & ? & Hall). split; [done|]. split; [done|]. by apply Hext.
      * destruct IH as (? & ? & ? & ? & Hall). repeat split; try done. by apply Hext.
  - destruct (Z.leb_spec len (64 * (base + j) + trailing_ones (u64_at blk j))).
    + rewrite Hid. destruct (Z.leb_spec len ((base + j + 1) * 64)); [|lia].
      split; [done|]. split; [lia|]. intros; apply Hword; lia.
    + set (t := trailing_ones (u64_at blk j)) in *.
      assert (Hq : ((base + j) * 64 + t) / 64 - base = j) by lia.
      assert (Hm : ((base + j) * 64 + t) mod 64 = t) by lia.
      unfold set_gbit, gbit. rewrite Hq, Hm.
      repeat split; try lia; [apply Hz; lia|]. intros; apply Hword; lia.
Qed.

(** ** Bits of the store *)

Context `{!BlockStoreLaws St}.

Lemma bit_gbit bm s i m : i / BLOCK_BITS = m -> bit bm s i = gbit (512 * m) (view s (start_blk_no bm + m)) i.
Proof.
  intros Hm. unfold bit, word_of, gbit. f_equal. f_equal; [|lia]. f_equal. f_equal. lia.
Qed.

Lemma gbit_set_gbit base i blk i' : is_block blk -> 0 <= i -> 0 <= i' ->
  0 <= i / 64 - base < 512 -> 0 <= i' / 64 - base < 512 ->
  gbit base (set_gbit base i blk) i' = bool_decide (i' = i) || gbit base blk i'.
Proof.
  intros Hblk Hi Hi' Hr Hr'. unfold gbit, set_gbit.
  pose proof (word_in_block blk (i / 64 - base) Hblk Hr) as Hw. destruct Hblk as [Hl Hb].
  destruct (decide (i' / 64 = i / 64)) as [Heq|Hne].
  - rewrite Heq, u64_at_set_eq; [|lia|lia|apply lor_bit_u64; [done|lia]].
    rewrite Z.lor_spec, testbit_shiftl_1 by lia. rewrite orb_comm. f_equal.
    apply bool_decide_ext. lia.
  - rewrite u64_at_set_ne by lia. rewrite bool_decide_false by congruence. done.
Qed.

(** The bitmap after bit [i] was set, and all blocks outside it unchanged. *)
Definition bit_set bm (s s' : St) (i : Z) : Prop :=
  (forall i', 0 <= i' -> bit bm s' i' = bool_decide (i' = i) || bit bm s i') /\
  (forall b, b <> start_blk_no bm + i / BLOCK_BITS -> view s' b = view s b).

Lemma bit_set_intro bm s s' i : store_ok s -> 0 <= i ->
  let b := start_blk_no bm + i / BLOCK_BITS in
  (forall b', view s' b' = if decide (b' = b) then set_gbit (512 * (i / BLOCK_BITS)) i (view s b) else view s b') ->
  bit_set bm s s' i.
Proof.
  intros Hok Hi b Hv. split.
  - intros i' Hi'. rewrite !(bit_gbit _ _ i' (i' / BLOCK_BITS)) by done. rewrite Hv.
    case_decide as Hc; subst b.
    + replace (i' / BLOCK_BITS) with (i / BLOCK_BITS) by lia.
      apply gbit_set_gbit; [by apply view_ok|lia..].
    + rewrite bool_decide_false by (intros ->; done). done.
  - intros b' Hb'. rewrite Hv. by rewrite decide_False.
Qed.

(** The post-condition of [alloc_bit]. *)
Definition alloc_post bm (s : St) (r : option Z) (s' : St) : Prop :=
  follows s s' /\
  match r with
  | Some i => 0 <= i < bits_len bm /\ bit bm s i = false /\
      (forall i', 0 <= i' < i -> bit bm s i' = true) /\ bit_set bm s s' i
  | None => (forall i', 0 <= i' < bits_len bm -> bit bm s i' = true) /\ same_view s s'
  end.

Definition bitmap_wf bm : Prop := end_blk_no bm = start_blk_no bm + div_ceil (bits_len bm) BLOCK_BITS /\ 0 <= bits_len bm.

Lemma alloc_blocks bm s0 n m s : bitmap_wf bm -> follows s0 s -> same_view s0 s -> 0 <= m ->
  m + Z.of_nat n = end_blk_no bm - start_blk_no bm -> (n <> O -> BLOCK_BITS * m < bits_len bm) ->
  (forall i', 0 <= i' < BLOCK_BITS * m -> bit bm s0 i' = true) ->
  wp (blocks_mut (bits_len bm) (alloc_closure (bits_len bm)) n (start_blk_no bm + m) (512 * m) (BLOCK_BITS * m))
     (alloc_post bm s0) (io_fail s0) s.
Proof.
  intros [Hend Hbits]. revert m s. induction n as [|n IH]; intros m s Hfol Hsame Hm Hn Hlt Hall; cbn [blocks_mut].
  { apply wp_ret. split; [done|]. split; [|done]. intros i' Hi'. apply Hall.
    pose proof (div_ceil_spec (bits_len bm) BLOCK_BITS). lia. }
  pose proof Hfol as [Hok _]. set (b := start_blk_no bm + m). set (base := 512 * m).
  pose proof (alloc_words (bits_len bm) base (view s b) (Z.to_nat WORDS_PER_BLOCK) 0
    (view_ok s b Hok) ltac:(lia) ltac:(lia) ltac:(subst base; lia)) as Hw. cbv zeta in Hw.
  replace (64 * (base + 0)) with (BLOCK_BITS * m) in Hw by lia. replace (base + 0) with base in Hw by lia.
  assert (Hbit : forall i', BLOCK_BITS * m <= i' < BLOCK_BITS * (m + 1) -> bit bm s0 i' = gbit base (view s b) i').
  { intros i' Hi'. rewrite (bit_gbit _ _ i' m) by lia. by rewrite Hsame. }
  apply wp_bind. eapply wp_mono; [apply with_block_spec; [done|]| |].
  - destruct (words_mut _ _ _ _ _ _ _) as [[[[r stop] idx'] c'] blk']; simpl.
    destruct r as [i|]; [|destruct Hw as [-> _]; by apply view_ok].
    destruct Hw as (_ & _ & Hr & -> & _). apply set_gbit_block; [by apply view_ok|done].
  - intros a s' (-> & Hfol' & Hv). assert (follows s0 s') as Hfs by eauto with efs. destruct (words_mut _ _ _ _ _ _ _) as [[[[r stop] idx'] c'] blk']; simpl in *.
    destruct r as [i|].
    + destruct Hw as (-> & Hi & Hr & -> & Hfree & Hones). apply wp_ret. split; [done|].
      assert (Hdiv : i / BLOCK_BITS = m) by (subst base; lia).
      split; [lia|]. split; [rewrite (bit_gbit _ _ i m), Hsame by done; done|]. split.
      * intros i' Hi'. destruct (decide (i' < BLOCK_BITS * m)); [apply Hall; lia|].
        rewrite Hbit by (subst base; lia). apply Hones. lia.
      * assert (Hset : bit_set bm s s' i).
        { apply bit_set_intro; [done|lia|]. rewrite Hdiv. done. }
        destruct Hset as [H1 H2]. split; [|intros; rewrite H2 by done; by rewrite <- Hsame].
        intros i' Hi'. rewrite H1 by done. f_equal. unfold bit, word_of. by rewrite Hsame.
    + destruct Hw as [-> Hw].
      assert (Hsame' : same_view s0 s').
      { intros b'. rewrite Hv, Hsame. by case_decide; subst. }
      destruct stop.
      * apply wp_ret. split; [done|]. split; [|done]. intros i' Hi'.
        destruct (decide (i' < BLOCK_BITS * m)); [apply Hall; lia|].
        rewrite Hbit by (subst base; lia). apply Hw. lia.
      * destruct Hw as (-> & -> & Hlt' & Hones). subst b base.
        replace (start_blk_no bm + m + 1) with (start_blk_no bm + (m + 1)) by lia.
        replace (512 * m + 512) with (512 * (m + 1)) by lia.
        replace (64 * (512 * (m + 1))) with (BLOCK_BITS * (m + 1)) by lia.
        apply IH; try done; try lia. intros i' Hi'.
        destruct (decide (i' < BLOCK_BITS * m)); [apply Hall; lia|].
        rewrite Hbit by lia. apply Hones. lia.
  - intros e s'. by apply io_fail_from.
Qed.

Lemma alloc_bit_spec bm s : bitmap_wf bm -> store_ok s ->
  wp (alloc_bit bm) (alloc_post bm s) (io_fail s) s.
Proof.
  intros Hwf Hok. pose proof Hwf as [Hend Hlen].
  pose proof (div_ceil_spec (bits_len bm) BLOCK_BITS ltac:(lia) ltac:(lia)).
  unfold alloc_bit, foreach_64_bits_mut.
  pose proof (alloc_blocks bm s (Z.to_nat (end_blk_no bm - start_blk_no bm)) 0 s) as Ha.
  rewrite Z.add_0_r in Ha. apply Ha; try done; try lia.
Qed.

(** ** Single bits *)

Lemma locate_bit_pos_eq bm i : 0 <= i ->
  locate_bit_pos bm i = (start_blk_no bm + i / BLOCK_BITS, i / 64 - 512 * (i / BLOCK_BITS), i mod 64) /\
  0 <= i / 64 - 512 * (i / BLOCK_BITS) < 512.
Proof. intros. unfold locate_bit_pos. split; [|lia]. f_equal. f_equal. lia. Qed.

Lemma bit_gbit' bm s i :
  bit bm s i = gbit (512 * (i / BLOCK_BITS)) (view s (start_blk_no bm + i / BLOCK_BITS)) i.
Proof. by apply bit_gbit. Qed.

(** [InvalidArgument] for an index out of range, without a change. *)
Definition out_of_range bm (i : Z) (s : St) (e : FsErrorKind) (s' : St) : Prop :=
  e = InvalidArgument /\ bits_len bm <= i /\ s' = s.

Lemma get_bit_spec bm s i : store_ok s -> 0 <= i ->
  wp (get_bit bm i)
     (fun r s' => i < bits_len bm /\ r = bit bm s i /\ follows s s' /\ same_view s s')
     (fun e s' => out_of_range bm i s e s' \/ io_fail s e s') s.
Proof.
  intros Hok Hi. unfold get_bit. destruct (Z.leb_spec (bits_len bm) i); [by left|].
  destruct (locate_bit_pos_eq bm i Hi) as [-> Hj]. apply wp_bind.
  eapply wp_mono; [by apply load_spec| |by right]. intros blk s' (-> & Hf & Hv).
  apply wp_ret. split; [done|]. split; [|done]. rewrite bit_gbit'. unfold gbit.
  apply bit_test. lia.
Qed.

Lemma set_bit_spec bm s i : store_ok s -> 0 <= i ->
  wp (set_bit bm i)
     (fun _ s' => i < bits_len bm /\ follows s s' /\ bit_set bm s s' i)
     (fun e s' => out_of_range bm i s e s' \/ io_fail s e s') s.
Proof.
  intros Hok Hi. unfold set_bit. destruct (Z.leb_spec (bits_len bm) i); [by left|].
  destruct (locate_bit_pos_eq bm i Hi) as [-> Hj].
  eapply wp_mono; [apply update_spec; [done|]| |by right].
  - by apply (set_gbit_block (512 * (i / BLOCK_BITS)) i), Hj; apply view_ok.
  - intros _ s' [Hf Hv]. split; [done|]. split; [done|]. by apply bit_set_intro.
Qed.

(** The bitmap after bit [i] was cleared. *)
Definition bit_cleared bm (s s' : St) (i : Z) : Prop :=
  (forall i', 0 <= i' -> bit bm s' i' = bool_decide (i' <> i) && bit bm s i') /\
  (forall b, b <> start_blk_no bm + i / BLOCK_BITS -> view s' b = view s b).

Lemma clear_bit_spec bm s i : store_ok s -> 0 <= i ->
  wp (clear_bit bm i)
     (fun _ s' => i < bits_len bm /\ follows s s' /\ bit_cleared bm s s' i)
     (fun e s' => out_of_range bm i s e s' \/ io_fail s e s') s.
Proof.
  intros Hok Hi. unfold clear_bit. destruct (Z.leb_spec (bits_len bm) i); [by left|].
  destruct (locate_bit_pos_eq bm i Hi) as [-> Hj].
  eapply wp_mono; [apply update_spec; [done|]| |by right].
  { apply set_u64_block; [by apply view_ok|done]. }
  intros _ s' [Hf Hv]. split; [done|]. split; [done|]. split; [|intros b Hb; by rewrite Hv, decide_False].
  intros i' Hi'. rewrite !bit_gbit', Hv. set (b := start_blk_no bm + i / BLOCK_BITS) in *.
  destruct (view_ok s b Hok) as [Hl Hb]. pose proof (word_in_block _ _ (view_ok s b Hok) Hj) as Hw.
  case_decide as Hc; subst b; [|rewrite bool_decide_true by (intros ->; done); done].
  unfold gbit. assert (Hq : i' / BLOCK_BITS = i / BLOCK_BITS) by lia. rewrite Hq.
  destruct (decide (i' / 64 = i / 64)) as [Heq|Hne].
  - rewrite Heq, u64_at_set_eq; [|lia|lia|by apply ldiff_bit_u64].
    rewrite Z.ldiff_spec, testbit_shiftl_1 by lia. rewrite andb_comm. f_equal.
    rewrite <- bool_decide_not. apply bool_decide_ext. lia.
  - rewrite u64_at_set_ne by lia. rewrite bool_decide_true by congruence. done.
Qed.

End bitmap.

(** ** Properties *)

Section properties.
Context {St : Type} `{BlockStoreLaws St}.
Implicit Types (bm : BitmapBlocks) (s : St).

(** C8. [alloc_bit] is a first-fit allocator: it returns the least index whose
    bit is clear and sets that bit and no other, leaving every block outside
    the bitmap alone; it returns [None] exactly when all bits are set, without
    a change; and the only errors are I/O errors, which change nothing. *)
Theorem alloc_bit_first_fit bm s (Hwf : bitmap_wf bm) (Hok : store_ok s) :
  match alloc_bit bm s with
  | (Ok (Some i), s') =>
      0 <= i < bits_len bm /\ bit bm s i = false /\ (forall j, 0 <= j < i -> bit bm s j = true) /\
      (forall j, 0 <= j -> bit bm s' j = bool_decide (j = i) || bit bm s j) /\
      (forall b, b < start_blk_no bm \/ end_blk_no bm <= b -> view s' b = view s b)
  | (Ok None, s') => (forall j, 0 <= j < bits_len bm -> bit bm s j = true) /\ same_view s s'
  | (Err e, s') => io_error e /\ ~ healthy s /\ same_view s s'
  | (Panic, _) => False
  end.
Proof.
  pose proof (alloc_bit_spec bm s Hwf Hok) as Ha. unfold wp, alloc_post, io_fail in Ha.
  destruct (alloc_bit bm s) as [[[i|]|e|] s']; [|tauto|tauto|done].
  destruct Ha as (_ & Hi & Hfree & Hall & Hset & Hout). split_and!; try done; try lia.
  intros b Hb. apply Hout. destruct Hwf as [Hend ?]. rewrite Hend in Hb.
  pose proof (div_ceil_spec (bits_len bm) BLOCK_BITS). lia.
Qed.

(** [set_bit], [clear_bit] and [get_bit] are the updates and the lookup of
    a bit vector: on a healthy store they succeed for every index in range,
    change one bit only and return the bit, and they refuse an index out of
    range with [InvalidArgument] and no change. *)
Theorem bit_vector_ops bm s (i : Z) (Hok : store_ok s) (Hh : healthy s) (Hi : 0 <= i) :
  if decide (i < bits_len bm) then
    (exists s', set_bit bm i s = (Ok tt, s') /\
       forall j, 0 <= j -> bit bm s' j = bool_decide (j = i) || bit bm s j) /\
    (exists s', clear_bit bm i s = (Ok tt, s') /\
       forall j, 0 <= j -> bit bm s' j = bool_decide (j <> i) && bit bm s j) /\
    (exists s', get_bit bm i s = (Ok (bit bm s i), s') /\ same_view s s')
  else
    set_bit bm i s = (Err InvalidArgument, s) /\ clear_bit bm i s = (Err InvalidArgument, s) /\
    get_bit bm i s = (Err InvalidArgument, s).
Proof.
  case_decide as Hr.
  - assert (Hne : forall e s', out_of_range bm i s e s' \/ io_fail s e s' -> False).
    { intros e s' [(_ & ? & _)|?%io_fail_unhealthy]; [lia|done]. }
    pose proof (set_bit_spec bm s i Hok Hi) as H1. pose proof (clear_bit_spec bm s i Hok Hi) as H2.
    pose proof (get_bit_spec bm s i Hok Hi) as H3. unfold wp in H1, H2, H3. split_and!.
    + destruct (set_bit bm i s) as [[[]|e|] s']; [|by apply Hne in H1|done]. exists s'. split; [done|]. apply H1.
    + destruct (clear_bit bm i s) as [[[]|e|] s']; [|by apply Hne in H2|done]. exists s'. split; [done|]. apply H2.
    + destruct (get_bit bm i s) as [[r|e|] s']; [|by apply Hne in H3|done].
      destruct H3 as (_ & -> & _ & ?). eauto.
  - unfold set_bit, clear_bit, get_bit. by destruct (Z.leb_spec (bits_len bm) i); [|lia].
Qed.
End properties.

Lemma alloc_bit_first_fit_witness :
  let bm := BitmapBlocks_new 15 4 in
  exists i s', alloc_bit bm ram_store = (Ok (Some i), s') /\ 0 <= i < 4 /\
    forall j, 0 <= j -> bit bm s' j = bool_decide (j = i) || bit bm ram_store j.
Proof.
  pose proof (alloc_bit_first_fit (BitmapBlocks_new 15 4) ram_store ltac:(split; [done|simpl; lia])
    (proj1 ram_store_ok)) as Hw. intros bm. fold bm in Hw.
  destruct (alloc_bit bm ram_store) as [[[i|]|e|] s'].
  - destruct Hw as (Hi & _ & _ & Hb & _). by exists i, s'.
  - destruct Hw as [Hall _]. by specialize (Hall 0 ltac:(simpl; lia)).
  - destruct Hw as (_ & Hh & _). by destruct (Hh (proj2 ram_store_ok)).
  - done.
Defined.

Lemma bit_vector_ops_witness :
  let bm := BitmapBlocks_new 15 4 in
  exists s', set_bit bm 3 ram_store = (Ok tt, s') /\
     forall j, 0 <= j -> bit bm s' j = bool_decide (j = 3) || bit bm ram_store j.
Proof.
  pose proof (bit_vector_ops (BitmapBlocks_new 15 4) ram_store 3 (proj1 ram_store_ok) (proj2 ram_store_ok)
    ltac:(lia)) as Hw.
  rewrite decide_True in Hw by (simpl; lia). exact (proj1 Hw).
Defined.
