(* ===== verification/Inode.v ===== *)
(** * Inodes of the extent file system
      (src/fs/redwing_efs/src/inode.rs, fs.rs, consts.rs)

    An inode has twelve direct block pointers, a pointer to a table of block
    pointers and a pointer to a table of tables.  The methods of [RawINode]
    work on an inode borrowed from the locked buffer of its block and on the
    rest of the store; they are computations over the pair of the two, so
    what they have assigned before an error stays assigned.  A [&mut le64] is
    a computation over that integer and the store in the same way. *)

From S2P Require Import Prelude Bytes Vfs Store Superblock Bitmap.
Import Vfs.

#[local] Open Scope Z_scope.
#[local] Open Scope rw_scope.

Notation INVALID_INODE_NO := 0.
Notation ROOT_INODE_NO := 1.
Notation INVALID_DATA_BLOCK_NO := 0.
Notation NUM_DIRECT_DATA_BLKS := 12.
Notation BLK_NUMS_PER_BLOCK := 512.

Definition MAX_FILE_SIZE : Z :=
  NUM_DIRECT_DATA_BLKS * BLOCK_SIZE + BLK_NUMS_PER_BLOCK * BLOCK_SIZE
  + BLK_NUMS_PER_BLOCK * BLK_NUMS_PER_BLOCK * BLOCK_SIZE.

Inductive FileType : Type := Unknown | Directory | File | Device | Symlink.

#[export] Instance FileType_eq_dec : EqDecision FileType.
Proof. solve_decision. Defined.

(** [IntoPrimitive] *)
Definition FileType_into (t : FileType) : Z :=
  match t with Unknown => 0 | Directory => 1 | File => 2 | Device => 3 | Symlink => 4 end.

(** [FileType::try_from_primitive(..).unwrap_or(FileType::Unknown)] *)
Definition FileType_from (z : Z) : FileType :=
  if z =? 1 then Directory else if z =? 2 then File else if z =? 3 then Device
  else if z =? 4 then Symlink else Unknown.

Record RawINode : Type := mkRawINode {
  typ : Z;
  isize : Z;
  inlink : Z;
  idev_no : Z;
  direct_blk_ptrs : list Z;
  indirect_blk_ptr : Z;
  double_indirect_blk_ptr : Z
}.

Definition RawINode_default : RawINode :=
  mkRawINode (FileType_into Unknown) 0 0 0 (replicate 12 INVALID_DATA_BLOCK_NO) INVALID_DATA_BLOCK_NO
    INVALID_DATA_BLOCK_NO.

Definition file_type (i : RawINode) : FileType := FileType_from (typ i).

Definition set_size (z : Z) (i : RawINode) : RawINode :=
  mkRawINode (typ i) z (inlink i) (idev_no i) (direct_blk_ptrs i) (indirect_blk_ptr i) (double_indirect_blk_ptr i).
Definition set_nlink (z : Z) (i : RawINode) : RawINode :=
  mkRawINode (typ i) (isize i) z (idev_no i) (direct_blk_ptrs i) (indirect_blk_ptr i) (double_indirect_blk_ptr i).
Definition set_direct (l : list Z) (i : RawINode) : RawINode :=
  mkRawINode (typ i) (isize i) (inlink i) (idev_no i) l (indirect_blk_ptr i) (double_indirect_blk_ptr i).
Definition set_indirect (z : Z) (i : RawINode) : RawINode :=
  mkRawINode (typ i) (isize i) (inlink i) (idev_no i) (direct_blk_ptrs i) z (double_indirect_blk_ptr i).
Definition set_double (z : Z) (i : RawINode) : RawINode :=
  mkRawINode (typ i) (isize i) (inlink i) (idev_no i) (direct_blk_ptrs i) (indirect_blk_ptr i) z.

(** [self.nlink.0 + 1] is checked; [saturating_sub] is not. *)
Definition increase_link (i : RawINode) : outcome FsErrorKind RawINode :=
  if 2 ^ 32 <=? inlink i + 1 then Panic else Ok (set_nlink (inlink i + 1) i).
Definition decrease_link (i : RawINode) : RawINode := set_nlink (Z.max 0 (inlink i - 1)) i.

(** The packed on-disk form. *)
Definition encode_inode (i : RawINode) : list Z :=
  le_encode 4 (typ i) ++ le_encode 8 (isize i) ++ le_encode 4 (inlink i) ++ le_encode 4 (idev_no i)
  ++ flat_map (le_encode 8) (direct_blk_ptrs i)
  ++ le_encode 8 (indirect_blk_ptr i) ++ le_encode 8 (double_indirect_blk_ptr i).

Definition decode_inode (b : list Z) : RawINode :=
  mkRawINode (le_decode (sub 0 4 b)) (le_decode (sub 4 8 b)) (le_decode (sub 12 4 b)) (le_decode (sub 16 4 b))
    ((fun k => le_decode (sub (20 + 8 * k) 8 b)) <$> seqZ 0 12)
    (le_decode (sub 116 8 b)) (le_decode (sub 124 8 b)).

(** A block seen as [[le64; BLK_NUMS_PER_BLOCK]]. *)
Definition table_of (b : list Z) : list Z := u64_at b <$> seqZ 0 BLK_NUMS_PER_BLOCK.
Definition block_of (t : list Z) : list Z := flat_map (le_encode 8) t.

(** ** The file system object (fs.rs); the cache is the state. *)

Record EfsFileSystem : Type := mkEfs {
  superblock : RawSuperBlock;
  inode_bitmap : BitmapBlocks;
  data_bitmap : BitmapBlocks
}.

Section efs.
Context {St : Type} `{BlockStore St}.
#[local] Notation SM := (M St FsErrorKind).
(** Computations on a borrowed value of type [X] and the store. *)
#[local] Notation FM X := (M (X * St) FsErrorKind).
Variable fs : EfsFileSystem.

(** Subtraction on [u64], overflow checked. *)
Definition sub_chk {S} (a b : Z) : M S FsErrorKind Z := if a <? b then panic else ret (a - b).

Definition alloc_data_block : SM Z :=
  do o <- alloc_bit (data_bitmap fs);
  match o with
  | None => fail NoSpaceLeft
  | Some v => ret (v + data_start_bno (superblock fs))
  end.

Definition dealloc_data_block (bno : Z) : SM unit :=
  do i <- sub_chk bno (data_start_bno (superblock fs));
  clear_bit (data_bitmap fs) i.

Definition is_data_block_used (bno : Z) : SM bool :=
  do i <- sub_chk bno (data_start_bno (superblock fs));
  get_bit (data_bitmap fs) i.

Definition alloc_inode : SM Z :=
  do o <- alloc_bit (inode_bitmap fs);
  match o with None => fail NoSpaceLeft | Some idx => ret idx end.

Definition set_inode_bit (inode_no : Z) : SM unit := set_bit (inode_bitmap fs) inode_no.
Definition dealloc_inode (inode_no : Z) : SM unit := clear_bit (inode_bitmap fs) inode_no.
Definition is_inode_used (inode_no : Z) : SM bool := get_bit (inode_bitmap fs) inode_no.

(** ** From file offsets to data blocks *)

(** [bmap0] on a table of block numbers, with what [bmap_from_blk] does
    between two levels inlined; the closure of [bmap] is the identity. *)
Fixpoint bmap0 (table : list Z) (level : nat) (idx : Z) : SM Z :=
  match level with
  | O =>
    if zlen table <=? idx then fail FileTooLarge else
    do data_no <- unwrap (table !! Z.to_nat idx);
    if data_no =? INVALID_DATA_BLOCK_NO then fail InvalidArgument else ret data_no
  | S level' =>
    let blk_nums_per_table := BLK_NUMS_PER_BLOCK ^ Z.of_nat level in
    let next_level_table_idx := idx / blk_nums_per_table in
    let idx := idx mod blk_nums_per_table in
    if zlen table <=? next_level_table_idx then fail FileTooLarge else
    do blk_no <- unwrap (table !! Z.to_nat next_level_table_idx);
    if blk_no =? INVALID_DATA_BLOCK_NO then fail InvalidArgument else
    do blk <- load blk_no; bmap0 (table_of blk) level' idx
  end.

Definition bmap_from_blk (blk_no : Z) (level : nat) (idx : Z) : SM Z :=
  do blk <- load blk_no; bmap0 (table_of blk) level idx.

Definition bmap (i : RawINode) (offset : Z) : SM Z :=
  let idx := offset / BLOCK_SIZE in
  if idx <? zlen (direct_blk_ptrs i) then bmap0 (direct_blk_ptrs i) 0 idx else
  let idx := idx - zlen (direct_blk_ptrs i) in
  if idx <? BLK_NUMS_PER_BLOCK then bmap_from_blk (indirect_blk_ptr i) 0 idx else
  let idx := idx - BLK_NUMS_PER_BLOCK in
  bmap_from_blk (double_indirect_blk_ptr i) 1 idx.

(** [&mut table_block.as_ref_mut_at::<[le64; _]>(0)] of block [b]: the table
    is in the buffer, so it is updated whatever the outcome. *)
Definition in_table {T} (b : Z) (m : FM (list Z) T) : SM T :=
  do blk <- load b;
  fun s => let '(r, (t, s')) := m (table_of blk, s) in (r, put_block b (block_of t) s').

(** [bmap_mut_from_blk]; [walk] is the walk through the table. *)
Definition bmap_mut_from_blk {T} (alloc : bool) (walk : FM (list Z) T) : FM Z T :=
  do table_blk_no <- get_focus;
  (if table_blk_no =? INVALID_DATA_BLOCK_NO then
     if negb alloc then fail InvalidArgument
     else do b <- lift alloc_data_block; put_focus b
   else ret tt);;
  do table_blk_no <- get_focus;
  lift (in_table table_blk_no walk).

Fixpoint bmap0_mut {T} (alloc : bool) (f : FM Z T) (level : nat) (idx : Z) : FM (list Z) T :=
  do table <- get_focus;
  match level with
  | O => if zlen table <=? idx then fail FileTooLarge else focus_nth idx f
  | S level' =>
    let blk_nums_per_table := BLK_NUMS_PER_BLOCK ^ Z.of_nat level in
    let next_level_table_idx := idx / blk_nums_per_table in
    let idx := idx mod blk_nums_per_table in
    if zlen table <=? next_level_table_idx then fail FileTooLarge else
    focus_nth next_level_table_idx (bmap_mut_from_blk alloc (bmap0_mut alloc f level' idx))
  end.

(** Borrowing the fields of the inode that hold pointers. *)
Definition on_direct {T} (m : FM (list Z) T) : FM RawINode T :=
  fun '(i, s) => let '(r, (l, s')) := m (direct_blk_ptrs i, s) in (r, (set_direct l i, s')).
Definition on_indirect {T} (m : FM Z T) : FM RawINode T :=
  fun '(i, s) => let '(r, (z, s')) := m (indirect_blk_ptr i, s) in (r, (set_indirect z i, s')).
Definition on_double {T} (m : FM Z T) : FM RawINode T :=
  fun '(i, s) => let '(r, (z, s')) := m (double_indirect_blk_ptr i, s) in (r, (set_double z i, s')).

Definition bmap_walk_mut {T} (offset : Z) (alloc : bool) (f : FM Z T) : FM RawINode T :=
  do i <- get_focus;
  let data_blk_idx := offset / BLOCK_SIZE in
  if data_blk_idx <? zlen (direct_blk_ptrs i) then on_direct (bmap0_mut alloc f 0 data_blk_idx) else
  let data_blk_idx := data_blk_idx - zlen (direct_blk_ptrs i) in
  if data_blk_idx <? BLK_NUMS_PER_BLOCK then
    on_indirect (bmap_mut_from_blk alloc (bmap0_mut alloc f 0 data_blk_idx)) else
  let data_blk_idx := data_blk_idx - BLK_NUMS_PER_BLOCK in
  on_double (bmap_mut_from_blk alloc (bmap0_mut alloc f 1 data_blk_idx)).

Definition alloc_if_need : FM Z Z :=
  do data_blk_no <- get_focus;
  if data_blk_no =? INVALID_DATA_BLOCK_NO then
    do b <- lift alloc_data_block; put_focus b;; ret b
  else ret data_blk_no.

Definition bmap_and_alloc_if_need (offset : Z) : FM RawINode Z :=
  bmap_walk_mut offset true alloc_if_need.

(** ** Reading, writing and truncating *)

(** The loop of [RawINode::write]; a turn consumes at least a byte of [src],
    so the length of [src] bounds the number of turns. *)
Fixpoint write_loop (n : nat) (offset : Z) (src : list Z) (write_len : Z) : FM RawINode Z :=
  match src with
  | [] => ret write_len
  | _ =>
    match n with
    | O => panic
    | S n' =>
      if MAX_FILE_SIZE <=? offset then ret write_len else
      do data_bno <- bmap_and_alloc_if_need offset;
      let b_offset := offset mod BLOCK_SIZE in
      let len := Z.min (BLOCK_SIZE - b_offset) (zlen src) in
      lift (update data_bno (splice b_offset (take (Z.to_nat len) src)));;
      let offset := offset + len in
      do i <- get_focus;
      put_focus (set_size (Z.max (isize i) offset) i);;
      write_loop n' offset (drop (Z.to_nat len) src) (write_len + len)
    end
  end.

Definition RawINode_write (offset : Z) (src : list Z) : FM RawINode Z :=
  do i <- get_focus;
  if isize i <? offset then fail InvalidArgument else
  match file_type i with
  | File | Symlink | Directory => write_loop (length src) offset src 0
  | Unknown | Device => fail InvalidData
  end.

(** The loop of [RawINode::read]: [dst] is the length of what is left of the
    destination, [acc] what was copied so far. *)
Fixpoint read_loop (n : nat) (i : RawINode) (offset dst remaining : Z) (acc : list Z) : SM (list Z) :=
  if (dst =? 0) || (remaining <=? zlen acc) then ret acc else
  match n with
  | O => panic
  | S n' =>
    if MAX_FILE_SIZE <=? offset then ret acc else
    do data_bno <- bmap i offset;
    let b_offset := offset mod BLOCK_SIZE in
    let len := Z.min (Z.min (BLOCK_SIZE - b_offset) dst) (remaining - zlen acc) in
    do block <- load data_bno;
    read_loop n' i (offset + len) (dst - len) remaining (acc ++ sub b_offset len block)
  end.

(** The bytes that [read] copies to a destination of [dst] bytes. *)
Definition RawINode_read (i : RawINode) (offset dst : Z) : SM (list Z) :=
  if isize i <? offset then fail InvalidArgument else
  match file_type i with
  | File | Symlink | Directory => read_loop (Z.to_nat dst) i offset dst (isize i - offset) []
  | Unknown | Device => fail InvalidData
  end.

Definition dealloc_closure : FM Z unit :=
  do data_blk_no <- get_focus;
  if data_blk_no =? INVALID_DATA_BLOCK_NO then fail InvalidArgument
  else lift (dealloc_data_block data_blk_no);; put_focus INVALID_DATA_BLOCK_NO.

(** [for blk_idx in (start..=last).rev()], [n] being the number of indices;
    the next one is [blk_idx]. *)
Fixpoint dealloc_loop (n : nat) (blk_idx : Z) : FM RawINode unit :=
  match n with
  | O => ret tt
  | S n' => fun st =>
    match bmap_walk_mut (blk_idx * BLOCK_SIZE) false dealloc_closure st with
    | (Ok _, st') =>
      (do i <- get_focus; put_focus (set_size (Z.max 0 (isize i - BLOCK_SIZE)) i);;
       dealloc_loop n' (blk_idx - 1)) st'
    | (Err InvalidArgument, st') => (Ok tt, st')
    | (Err e, st') => (Err e, st')
    | (Panic, st') => (Panic, st')
    end
  end.

Definition dealloc_data_blks_from (start_data_blk_idx : Z) : FM RawINode unit :=
  do i <- get_focus;
  if isize i =? 0 then ret tt else
  let last_data_blk_idx := Z.max 0 (isize i - 1) / BLOCK_SIZE in
  dealloc_loop (Z.to_nat (last_data_blk_idx - start_data_blk_idx + 1)) last_data_blk_idx;;
  if start_data_blk_idx <=? NUM_DIRECT_DATA_BLKS + BLK_NUMS_PER_BLOCK then
    do i <- get_focus;
    (if negb (double_indirect_blk_ptr i =? INVALID_DATA_BLOCK_NO)
     then lift (dealloc_data_block (double_indirect_blk_ptr i)) else ret tt);;
    if (start_data_blk_idx <=? NUM_DIRECT_DATA_BLKS) && negb (indirect_blk_ptr i =? INVALID_DATA_BLOCK_NO)
    then lift (dealloc_data_block (indirect_blk_ptr i)) else ret tt
  else ret tt.

Definition RawINode_truncate (new_size : Z) : FM RawINode unit :=
  do i <- get_focus;
  assert_ ((new_size <? isize i) && negb (isize i =? 0));;
  dealloc_data_blks_from (div_ceil new_size BLOCK_SIZE);;
  do i <- get_focus;
  put_focus (set_size new_size i).

(** ** The inode handle *)

Record INode : Type := mkINode { ino : Z; blk_no : Z; blk_offset : Z }.

Definition INode_new (n : Z) : INode :=
  mkINode n (inode_start_bno (superblock fs) + n / NINODES_PER_BLOCK)
    (RAW_INODE_SIZE * (n mod NINODES_PER_BLOCK)).

Definition read_raw_inode (h : INode) : SM RawINode :=
  do blk <- load (blk_no h);
  assert_ (blk_offset h + RAW_INODE_SIZE <=? BLOCK_SIZE);;
  ret (decode_inode (sub (blk_offset h) RAW_INODE_SIZE blk)).

(** [as_ref_mut_at::<RawINode>(self.blk_offset)]: the inode is in the buffer,
    so it is updated whatever the outcome. *)
Definition write_raw_inode_with {T} (h : INode) (m : FM RawINode T) : SM T :=
  do blk <- load (blk_no h);
  assert_ (blk_offset h + RAW_INODE_SIZE <=? BLOCK_SIZE);;
  fun s => let '(r, (i', s')) := m (decode_inode (sub (blk_offset h) RAW_INODE_SIZE blk), s) in
           (r, put_block (blk_no h) (splice (blk_offset h) (encode_inode i') blk) s').

Definition raw_write (h : INode) (offset : Z) (src : list Z) : SM Z :=
  write_raw_inode_with h (RawINode_write offset src).

Definition raw_read (h : INode) (offset dst : Z) : SM (list Z) :=
  do i <- read_raw_inode h; RawINode_read i offset dst.

Definition raw_truncate (h : INode) (new_size : Z) : SM unit :=
  do i <- read_raw_inode h;
  if isize i <? new_size then fail InvalidArgument
  else if new_size =? isize i then ret tt
  else write_raw_inode_with h (RawINode_truncate new_size).

Definition init_inode (h : INode) (t : FileType) (dev_no : Z) : SM unit :=
  assert_ (bool_decide (t <> Unknown));;
  write_raw_inode_with h (
    do i <- get_focus;
    if decide (file_type i <> Unknown) then fail FileSystemCorruption
    else put_focus (mkRawINode (FileType_into t) 0 0 dev_no (replicate 12 INVALID_DATA_BLOCK_NO)
                      INVALID_DATA_BLOCK_NO INVALID_DATA_BLOCK_NO)).

Definition INode_read (h : INode) (offset dst : Z) : SM (list Z) :=
  do i <- read_raw_inode h;
  match file_type i with
  | File => raw_read h offset dst
  | Unknown => fail InvalidData
  | Directory => fail IsADirectory
  | Symlink => fail Unsupported
  | Device => fail Unsupported
  end.

Definition INode_write (h : INode) (offset : Z) (src : list Z) : SM Z :=
  do i <- read_raw_inode h;
  match file_type i with
  | File => raw_write h offset src
  | Unknown => fail InvalidData
  | Directory => fail IsADirectory
  | Symlink => fail Unsupported
  | Device => fail Unsupported
  end.

Definition INode_truncate (h : INode) (new_size : Z) : SM Z :=
  do i <- read_raw_inode h;
  if inlink i =? 0 then fail NoSuchFileOrDirectory else
  match file_type i with
  | File => raw_truncate h new_size;; ret (isize i)
  | Symlink => fail Unsupported
  | Device => fail Unsupported
  | Directory => fail IsADirectory
  | Unknown => fail InvalidData
  end.

End efs.
