(* ===== verification/Dir.v ===== *)
(** * Directories of the extent file system
      (src/fs/redwing_efs/src/dirent.rs, inode.rs, fs.rs)

    A directory is a file of 80-byte entries; an entry whose inode number is 0
    is free.  The file names of this layer are the validated names of
    redwing_vfs, given by their bytes. *)

From S2P Require Import Prelude Bytes Vfs Store Superblock Bitmap Inode.
Import Vfs.

#[local] Open Scope Z_scope.
#[local] Open Scope rw_scope.

Notation EFS_NAME_LEN := 64.
Notation RAW_DIRENT_SIZE := 80.
Notation RESERVED_INODES := 20.

(** The type field is the bit pattern of a [FileType]. *)
Record RawDirent : Type := mkDirent {
  d_inode_no : Z;
  d_typ : Z;
  d_name_len : Z;
  d_name : list Z
}.

Definition encode_dirent (d : RawDirent) : list Z :=
  le_encode 8 (d_inode_no d) ++ le_encode 4 (d_typ d) ++ le_encode 4 (d_name_len d) ++ d_name d.

Definition decode_dirent (b : list Z) : RawDirent :=
  mkDirent (le_decode (sub 0 8 b)) (le_decode (sub 8 4 b)) (le_decode (sub 12 4 b)) (sub 16 EFS_NAME_LEN b).

(** Slicing the name array by the length of [name] panics for a longer name. *)
Definition RawDirent_new (inode_no : Z) (t : FileType) (name : list Z) : outcome FsErrorKind RawDirent :=
  if decide (t = Unknown) then Panic
  else if EFS_NAME_LEN <? zlen name then Panic
  else Ok (mkDirent inode_no (FileType_into t) (zlen name) (splice 0 name (replicate 64 0))).

Definition dirent_name (d : RawDirent) : list Z := take (Z.to_nat (d_name_len d)) (d_name d).
Definition is_unused (d : RawDirent) : bool := d_inode_no d =? INVALID_INODE_NO.

(** [rw_ulib_types::fcntl] *)
Inductive UFileType : Type := RegularFile | UDirectory | USymlink | UDevice.
Record Dirent : Type := mkUDirent { u_inode_no : Z; u_typ : UFileType; u_name : list Z; u_name_len : Z }.

#[export] Instance UFileType_eq_dec : EqDecision UFileType.
Proof. solve_decision. Defined.

Definition FileType_try_into (t : FileType) : option UFileType :=
  match t with
  | File => Some RegularFile
  | Directory => Some UDirectory
  | Device => Some UDevice
  | Symlink => Some USymlink
  | Unknown => None
  end.

Section dir.
Context {St : Type} `{BlockStore St}.
#[local] Notation SM := (M St FsErrorKind).
Variable fs : EfsFileSystem.

Definition of_outcome {A} (r : outcome FsErrorKind A) : SM A := fun s => (r, s).

Definition INode_file_type (h : INode) : SM FileType := do i <- read_raw_inode h; ret (file_type i).
Definition INode_size (h : INode) : SM Z := do i <- read_raw_inode h; ret (isize i).

Definition read_from (h : INode) (offset : Z) : SM (option RawDirent) :=
  do buf <- raw_read h offset RAW_DIRENT_SIZE;
  if zlen buf =? 0 then ret None
  else if negb (zlen buf =? RAW_DIRENT_SIZE) then fail InvalidData
  else let dirent := decode_dirent buf in
       if EFS_NAME_LEN <? d_name_len dirent then fail FileNameTooLong else ret (Some dirent).

Definition write_to (d : RawDirent) (h : INode) (offset : Z) : SM unit :=
  do size <- raw_write fs h offset (encode_dirent d);
  if negb (size =? RAW_DIRENT_SIZE) then
    do total <- INode_size h;
    do new_size <- sub_chk total size;
    raw_truncate fs h new_size;;
    fail InvalidData
  else ret tt.

Definition read_dirent_at (h : INode) (offset : Z) : SM (option RawDirent) := read_from h offset.
Definition write_dirent_at (h : INode) (offset : Z) (d : RawDirent) : SM unit := write_to d h offset.

(** The loops over the entries of a directory read one entry per turn until
    the read at the end of the file returns nothing; the size of the directory
    bounds the number of turns. *)
Definition dir_fuel (i : RawINode) : nat := Z.to_nat (isize i / RAW_DIRENT_SIZE + 2).

Fixpoint lookup_loop (n : nat) (h : INode) (name : list Z) (offset : Z) : SM (option RawDirent) :=
  match n with
  | O => panic
  | S n' =>
    do o <- read_dirent_at h offset;
    match o with
    | None => ret None
    | Some dirent =>
      if is_unused dirent || negb (bool_decide (name = dirent_name dirent))
      then lookup_loop n' h name (offset + RAW_DIRENT_SIZE)
      else ret (Some dirent)
    end
  end.

Definition INode_lookup (h : INode) (name : list Z) : SM (option RawDirent) :=
  do i <- read_raw_inode h;
  if decide (file_type i <> Directory) then fail NotADirectory
  else lookup_loop (dir_fuel i) h name 0.

(** [add_entry] compares the entries with the whole name array of the new
    entry, padding included. *)
Fixpoint add_entry_loop (n : nat) (h : INode) (new_dirent : RawDirent) (offset : Z) (empty : option Z) : SM unit :=
  match n with
  | O => panic
  | S n' =>
    do o <- read_dirent_at h offset;
    match o with
    | Some dirent =>
      if is_unused dirent then add_entry_loop n' h new_dirent (offset + RAW_DIRENT_SIZE) (Some offset)
      else if decide (d_name new_dirent = dirent_name dirent) then fail AlreadyExists
      else add_entry_loop n' h new_dirent (offset + RAW_DIRENT_SIZE) empty
    | None => write_dirent_at h (default offset empty) new_dirent
    end
  end.

Definition add_entry (h : INode) (new_dirent : RawDirent) : SM unit :=
  do i <- read_raw_inode h;
  if decide (file_type i <> Directory) then fail NotADirectory
  else add_entry_loop (dir_fuel i) h new_dirent 0 None.

Definition set_unused (d : RawDirent) : RawDirent := mkDirent INVALID_INODE_NO (d_typ d) (d_name_len d) (d_name d).

Fixpoint remove_entry_loop (n : nat) (h : INode) (name : list Z) (sz offset : Z) : SM (option Z) :=
  match n with
  | O => panic
  | S n' =>
    do o <- read_dirent_at h offset;
    match o with
    | None => ret None
    | Some dirent =>
      if negb (is_unused dirent) && bool_decide (name = dirent_name dirent) then
        let old_ino := d_inode_no dirent in
        write_dirent_at h offset (set_unused dirent);;
        do last <- sub_chk sz RAW_DIRENT_SIZE;
        (if offset =? last then raw_truncate fs h offset else ret tt);;
        ret (Some old_ino)
      else remove_entry_loop n' h name sz (offset + RAW_DIRENT_SIZE)
    end
  end.

Definition remove_entry (h : INode) (name : list Z) : SM (option Z) :=
  do i <- read_raw_inode h;
  if decide (file_type i <> Directory) then fail NotADirectory
  else remove_entry_loop (dir_fuel i) h name (isize i) 0.

Fixpoint is_empty_loop (n : nat) (h : INode) (offset : Z) : SM bool :=
  match n with
  | O => panic
  | S n' =>
    do o <- read_dirent_at h offset;
    match o with
    | Some dirent => if negb (is_unused dirent) then ret false else is_empty_loop n' h (offset + RAW_DIRENT_SIZE)
    | None => ret true
    end
  end.

Definition is_empty_dir (h : INode) : SM bool :=
  do i <- read_raw_inode h;
  if decide (file_type i <> Directory) then fail NotADirectory
  else is_empty_loop (dir_fuel i) h (RAW_DIRENT_SIZE * 2).

(** [get_dirents]: [room] is the number of entries the destination has left,
    [acc] what was stored.  An entry whose type is no [FileType] has no
    defined behaviour. *)
Fixpoint get_dirents_loop (n : nat) (h : INode) (offset cur_offset room : Z) (acc : list Dirent) : SM (Z * list Dirent) :=
  match n with
  | O => panic
  | S n' =>
    if room =? 0 then ret (cur_offset - offset, acc) else
    do o <- read_dirent_at h cur_offset;
    match o with
    | Some d =>
      let cur_offset := cur_offset + RAW_DIRENT_SIZE in
      if is_unused d then get_dirents_loop n' h offset cur_offset room acc
      else if 4 <? d_typ d then panic
      else match FileType_try_into (FileType_from (d_typ d)) with
           | None => fail InvalidData
           | Some t =>
             get_dirents_loop n' h offset cur_offset (room - 1)
               (acc ++ [mkUDirent (d_inode_no d) t (splice 0 (d_name d) (replicate 256 0)) (d_name_len d)])
           end
    | None => ret (cur_offset - offset, acc)
    end
  end.

Definition INode_get_dirents (h : INode) (offset room : Z) : SM (Z * list Dirent) :=
  do i <- read_raw_inode h;
  if decide (file_type i <> Directory) then fail NotADirectory
  else if inlink i =? 0 then fail NoSuchFileOrDirectory
  else get_dirents_loop (dir_fuel i) h offset offset room [].

(** ** Links *)

Definition link (parent child : INode) (name : list Z) : SM unit :=
  do t <- INode_file_type child;
  do dirent <- of_outcome (RawDirent_new (ino child) t name);
  add_entry parent dirent;;
  write_raw_inode_with child (
    do i <- get_focus;
    match increase_link i with Ok i' => put_focus i' | Err e => fail e | Panic => panic end).

Definition unlink (parent child : INode) (name : list Z) : SM unit :=
  do dirent <- remove_entry parent name;
  match dirent with
  | Some dirent_inode_no =>
    if negb (dirent_inode_no =? ino child) then fail FileSystemCorruption
    else write_raw_inode_with child (do i <- get_focus; put_focus (decrease_link i))
  | None => fail NoSuchFileOrDirectory
  end.

Definition dot : list Z := bytes_of ".".
Definition dotdot : list Z := bytes_of "..".

Definition init_root_dir (h : INode) : SM unit :=
  init_inode h Directory 0;;
  link h h dot.

Definition check_for_create (h : INode) (name : list Z) : SM unit :=
  do i <- read_raw_inode h;
  if decide (file_type i <> Directory) then fail NotADirectory
  else if inlink i =? 0 then fail NoSuchFileOrDirectory
  else do o <- INode_lookup h name;
       match o with Some _ => fail AlreadyExists | None => ret tt end.

Definition create_with (h : INode) (name : list Z) (init : INode -> SM unit) : SM Z :=
  check_for_create h name;;
  do new_ino <- alloc_inode fs;
  catch (init (INode_new fs new_ino)) (fun err => dealloc_inode fs new_ino;; fail err);;
  ret new_ino.

Definition symlink (h : INode) (name linkpath : list Z) : SM Z :=
  if EFS_NAME_LEN <=? zlen linkpath then fail InvalidArgument else
  create_with h name (fun new_inode =>
    init_inode new_inode File 0;;
    do len <- catch (INode_write fs new_inode 0 linkpath)
                (fun e => raw_truncate fs new_inode 0;; fail e);
    (if negb (len =? zlen linkpath) then raw_truncate fs new_inode 0;; fail IOError else ret tt);;
    link h new_inode name).

Definition mkdir (h : INode) (name : list Z) : SM Z :=
  create_with h name (fun new_inode =>
    init_inode new_inode Directory 0;;
    link new_inode new_inode dot;;
    catch (link new_inode h dotdot) (fun err => unlink new_inode new_inode dot;; fail err);;
    link h new_inode name).

Definition create_file (h : INode) (name : list Z) : SM Z :=
  create_with h name (fun new_inode =>
    init_inode new_inode File 0;;
    link h new_inode name).

Definition remove (parent child : INode) (name : list Z) : SM unit :=
  do parent_raw_inode <- read_raw_inode parent;
  if decide (file_type parent_raw_inode <> Directory) then fail NotADirectory else
  if inlink parent_raw_inode =? 0 then fail NoSuchFileOrDirectory else
  do child_raw_inode <- read_raw_inode child;
  if inlink child_raw_inode =? 0 then fail FileSystemCorruption else
  (match file_type child_raw_inode with
   | Unknown => fail FileSystemCorruption
   | File | Symlink | Device => ret tt
   | Directory =>
     do e <- is_empty_dir child;
     if negb e then fail NotEmpty
     else unlink child parent dotdot;; unlink child child dot
   end);;
  unlink parent child name.

(** ** Making and opening a volume (fs.rs) *)

Definition verify_fs : SM unit :=
  do u0 <- is_inode_used fs INVALID_INODE_NO;
  if negb u0 then fail FileSystemCorruption else
  do u1 <- is_inode_used fs ROOT_INODE_NO;
  if negb u1 then fail FileSystemCorruption else
  of_outcome (verify (superblock fs)).

Fixpoint reserve_inodes (n : nat) (no : Z) : SM unit :=
  match n with
  | O => ret tt
  | S n' => set_inode_bit fs no;; reserve_inodes n' (no + 1)
  end.

End dir.

Section make.
Context {St : Type} `{BlockStore St}.
#[local] Notation SM := (M St FsErrorKind).

(** [inode_counts] multiplies with an overflow check. *)
Definition new_self_ref_without_verify : SM EfsFileSystem :=
  do sb <- RawSuperBlock_read;
  do counts <- of_outcome (mul_u64 (inode_blocks sb) NINODES_PER_BLOCK);
  ret (mkEfs sb (BitmapBlocks_new (inode_bitmap_start_bno sb) counts)
         (BitmapBlocks_new (data_bitmap_start_bno sb) (data_blocks sb))).

Definition EfsFileSystem_open : SM EfsFileSystem :=
  do fs <- new_self_ref_without_verify;
  verify_fs fs;;
  ret fs.

(** The superblock is written through a cache of its own, which writes it back
    and is dropped; the second cache over the device has the same content. *)
Definition EfsFileSystem_make (sb : RawSuperBlock) : SM EfsFileSystem :=
  of_outcome (verify sb);;
  RawSuperBlock_write sb;;
  do fs <- new_self_ref_without_verify;
  reserve_inodes fs (Z.to_nat RESERVED_INODES) 0;;
  init_root_dir fs (INode_new fs ROOT_INODE_NO);;
  verify_fs fs;;
  ret fs.
End make.
