(* ===== verification/EfsVfs.v ===== *)
(** * The file system as seen by the kernel
      (src/fs/redwing_efs/src/vfs_impl.rs)

    [VfsImpl] keeps weak references to the inodes in use; an inode is in use
    while strong references to it exist, and dropping the last one deletes
    the file when no directory entry is left.  The state pairs the store with
    the number of strong references of each inode; an inode that is not in the
    table has a dead weak reference or none. *)

From S2P Require Import Prelude Bytes Vfs Store Superblock Bitmap Inode Dir.
Import Vfs.

#[local] Open Scope Z_scope.
#[local] Open Scope rw_scope.

Record Stat : Type := mkStat { st_ino : Z; st_dev_no : Z; st_typ : UFileType; st_size : Z; st_nlink : Z }.

Record VfsImpl (St : Type) : Type := mkVfs { inodes : gmap Z Z; inner : St }.
Arguments mkVfs {St} _ _.
Arguments inodes {St} _.
Arguments inner {St} _.

Section vfs.
Context {St : Type} `{BlockStore St}.
#[local] Notation VM := (M (VfsImpl St) FsErrorKind).
Variable fs : EfsFileSystem.

(** An operation of the file system below. *)
Definition on_inner {A} (m : M St FsErrorKind A) : VM A :=
  fun v => let (r, s') := m (inner v) in (r, mkVfs (inodes v) s').

Definition set_count (no c : Z) : VM unit := modify (fun v => mkVfs (<[no := c]> (inodes v)) (inner v)).
Definition forget (no : Z) : VM unit := modify (fun v => mkVfs (delete no (inodes v)) (inner v)).

(** [VfsInodeImpl::new_arc] *)
Definition new_arc (no : Z) : VM unit :=
  do used <- on_inner (is_inode_used fs no);
  if negb used then fail NoSuchFileOrDirectory else
  do i <- on_inner (read_raw_inode (INode_new fs no));
  if inlink i =? 0 then fail NoSuchFileOrDirectory else ret tt.

(** [VfsImpl::inode]: the reference it returns is counted. *)
Definition vfs_inode (no : Z) : VM Z :=
  do v <- get;
  match inodes v !! no with
  | Some c => set_count no (c + 1);; ret no
  | None => new_arc no;; set_count no 1;; ret no
  end.

Definition metadata (no : Z) : VM Stat :=
  do i <- on_inner (read_raw_inode (INode_new fs no));
  match FileType_try_into (file_type i) with
  | Some t => ret (mkStat no (idev_no i) t (isize i) (inlink i))
  | None => fail InvalidData
  end.

Definition delete_inode_from_disk (no : Z) : VM unit :=
  on_inner (raw_truncate fs (INode_new fs no) 0);;
  on_inner (dealloc_inode fs no);;
  forget no.

(** [Drop for VfsInodeImpl], run when the last reference goes: errors are
    ignored. *)
Definition drop_last (no : Z) : VM unit :=
  catch (do stat <- metadata no;
         if st_nlink stat =? 0 then catch (delete_inode_from_disk no) (fun _ => ret tt) else ret tt)
        (fun _ => ret tt).

(** Dropping a reference. *)
Definition drop_ref (no : Z) : VM unit :=
  do v <- get;
  match inodes v !! no with
  | Some c => if c =? 1 then forget no;; drop_last no else set_count no (c - 1)
  | None => ret tt
  end.

Definition real_try_lookup_inode (no : Z) (name : list Z) : VM (option Z) :=
  do o <- on_inner (INode_lookup (INode_new fs no) name);
  match o with
  | Some dirent => do c <- vfs_inode (d_inode_no dirent); ret (Some c)
  | None => ret None
  end.

Definition real_lookup_inode (no : Z) (name : list Z) : VM Z :=
  do o <- real_try_lookup_inode no name;
  ok_or o NoSuchFileOrDirectory.

(** ** [VfsINodeOps] *)

Definition vfs_root : VM Z := vfs_inode ROOT_INODE_NO.
Definition vfs_read (no offset len : Z) : VM (list Z) := on_inner (INode_read (INode_new fs no) offset len).
Definition vfs_write (no offset : Z) (buf : list Z) : VM Z := on_inner (INode_write fs (INode_new fs no) offset buf).

Definition vfs_create (no : Z) (name : list Z) (t : UFileType) : VM Z :=
  do ino <- match t with
            | UDevice | USymlink => fail Unsupported
            | UDirectory => on_inner (mkdir fs (INode_new fs no) name)
            | RegularFile => on_inner (create_file fs (INode_new fs no) name)
            end;
  vfs_inode ino.

(** The child is dropped at the end of the function on every path. *)
Definition vfs_unlink (no : Z) (name : list Z) : VM unit :=
  do child <- real_lookup_inode no name;
  catch (on_inner (remove fs (INode_new fs no) (INode_new fs child) name)) (fun e => drop_ref child;; fail e);;
  drop_ref child.

Definition vfs_rename (no : Z) (old_name : list Z) (target : Z) (new_name : list Z) : VM unit := fail Unsupported.
Definition vfs_get_dirents (no offset room : Z) : VM (Z * list Dirent) :=
  on_inner (INode_get_dirents (INode_new fs no) offset room).
Definition vfs_try_lookup (no : Z) (name : list Z) : VM (option Z) := real_try_lookup_inode no name.
Definition vfs_truncate (no new_size : Z) : VM Z := on_inner (INode_truncate fs (INode_new fs no) new_size).

End vfs.

(** [VfsImpl::make] and [VfsImpl::open] *)
Definition vfs_make {St} `{BlockStore St} (sb : RawSuperBlock) : M St FsErrorKind EfsFileSystem := EfsFileSystem_make sb.
Definition vfs_open {St} `{BlockStore St} : M St FsErrorKind EfsFileSystem := EfsFileSystem_open.
