(* ===== verification/BlockMap.v ===== *)
(** * Trees of block pointers

    A block pointer of an inode is the root of a tree: height 0 for a direct
    pointer (a data block), 1 for the indirect one (a table of 512 pointers to
    data blocks), 2 for the double indirect one.  This file states what it
    means for such a tree to be well formed, and shows what the walk of
    src/fs/redwing_efs/src/inode.rs ([bmap_mut_from_blk] and [bmap0_mut] with
    the closure of [bmap_and_alloc_if_need]) does to it. *)

From S2P Require Import Prelude Bytes Vfs Store Superblock Bitmap Inode.
Import Vfs.

#[local] Open Scope Z_scope.
#[local] Open Scope rw_scope.

(** ** Tables in blocks *)

Lemma block_of_words (n : nat) b : 8 * Z.of_nat n <= zlen b -> Forall is_byte b ->
  flat_map (le_encode 8) (u64_at b <$> seqZ 0 (Z.of_nat n)) = take (8 * n) b.
Proof.
  intros Hl Hb. induction n as [|n IH]; [done|].
  rewrite seqZ_S, fmap_app, flat_map_app, IH by lia.
  cbn [fmap list_fmap flat_map]. rewrite app_nil_r, encode_u64_at by (done || lia).
  unfold sub. replace (8 * S n)%nat with (8 * n + 8)%nat by lia. rewrite <- take_take_drop.
  do 2 f_equal; f_equal; lia.
Qed.

Lemma block_of_table b : is_block b -> block_of (table_of b) = b.
Proof.
  intros [Hl Hb]. unfold block_of, table_of. rewrite (block_of_words (Z.to_nat 512)) by (done || lia).
  apply take_ge. lia.
Qed.

Lemma table_length b : zlen (table_of b) = 512.
Proof. unfold table_of. rewrite length_fmap, length_seqZ. lia. Qed.

Lemma table_lookup b j : 0 <= j < 512 -> table_of b !! Z.to_nat j = Some (u64_at b j).
Proof.
  intros. unfold table_of. rewrite list_lookup_fmap, lookup_seqZ_lt by lia. simpl. do 2 f_equal. lia.
Qed.

Lemma table_insert b j x : is_block b -> 0 <= j < 512 -> is_u64 x ->
  block_of (<[Z.to_nat j := x]> (table_of b)) = set_u64 j x b.
Proof.
  intros Hb Hj Hx. rewrite <- (block_of_table (set_u64 j x b)) by (by apply set_u64_block). f_equal.
  destruct Hb as [Hl Hb]. apply list_eq_Z.
  { rewrite length_insert. pose proof (table_length b). pose proof (table_length (set_u64 j x b)). lia. }
  intros k. rewrite length_insert, table_length. intros Hk. rewrite table_lookup by done.
  destruct (decide (k = j)) as [->|Hne].
  - rewrite list_lookup_insert_eq by (pose proof (table_length b); lia).
    by rewrite u64_at_set_eq by (done || lia).
  - rewrite list_lookup_insert_ne by lia. rewrite table_lookup by done. by rewrite u64_at_set_ne by lia.
Qed.

Lemma zero_block_word j : u64_at zero_block j = 0.
Proof. apply u64_at_zeros. Qed.

(** ** Trees *)

(** [512 ^ d] *)
Definition fan (d : nat) : Z := 512 ^ Z.of_nat d.

Lemma fan_S d : fan (S d) = 512 * fan d.
Proof. unfold fan. rewrite Nat2Z.inj_succ, Z.pow_succ_r by lia. done. Qed.
Lemma fan_pos d : 0 < fan d.
Proof. unfold fan. apply Z.pow_pos_nonneg; lia. Qed.

(** The pointer at depth [d] and index [q] below the pointer [p]; 0 where a
    pointer above it is missing. *)
Fixpoint node (v : Z -> list Z) (p : Z) (d : nat) (q : Z) : Z :=
  match d with
  | O => p
  | S d' => if p =? 0 then 0 else node v (u64_at (v p) (q / fan d')) d' (q mod fan d')
  end.

(** A change of the content that leaves the tables of the tree alone leaves
    the tree alone. *)
Lemma node_frame v v' p d q :
  0 <= q < fan d ->
  (forall d' q', (d' < d)%nat -> 0 <= q' < fan d' -> node v p d' q' <> 0 -> v' (node v p d' q') = v (node v p d' q')) ->
  node v' p d q = node v p d q.
Proof.
  revert p q. induction d as [|d IH]; intros p q Hq Hv; [done|]. cbn [node].
  destruct (Z.eqb_spec p 0) as [|Hp]; [done|]. pose proof (fan_pos d). rewrite fan_S in Hq.
  pose proof (Hv O 0) as Hroot. cbn [node] in Hroot. rewrite Hroot by (unfold fan; lia).
  apply IH; [pose proof (Z.mod_pos_bound q (fan d)); lia|].
  intros d' q' Hd' Hq' Hne. pose proof (fan_pos d').
  specialize (Hv (S d') (q / fan d * fan d' + q')). cbn [node] in Hv.
  destruct (Z.eqb_spec p 0) as [|_]; [done|].
  assert (0 <= q / fan d < 512).
  { split; [apply Z.div_pos; lia|apply Z.div_lt_upper_bound; lia]. }
  rewrite Z.div_add_l, (Z.div_small q' (fan d')), Z.add_0_r in Hv by lia.
  rewrite (Z.add_comm (q / fan d * fan d')), Z.mod_add, (Z.mod_small q' (fan d')) in Hv by lia.
  apply Hv; [lia| |done]. rewrite fan_S. nia.
Qed.

Lemma node_zero v d q : node v 0 d q = 0.
Proof. by destruct d. Qed.

Lemma node_child v p d j q : p <> 0 -> 0 <= q < fan d ->
  node v p (S d) (j * fan d + q) = node v (u64_at (v p) j) d q.
Proof.
  intros Hp Hq. cbn [node]. destruct (Z.eqb_spec p 0); [done|].
  rewrite Z.div_add_l, (Z.div_small q), Z.add_0_r by lia.
  by rewrite (Z.add_comm (j * fan d)), Z.mod_add, (Z.mod_small q) by lia.
Qed.

(** Index [q] at depth [S d] is index [q mod fan d] below child [q / fan d]. *)
Lemma child_index d q : 0 <= q < fan (S d) ->
  0 <= q / fan d < 512 /\ 0 <= q mod fan d < fan d /\ q = q / fan d * fan d + q mod fan d.
Proof.
  intros Hq. pose proof (fan_pos d). rewrite fan_S in Hq.
  pose proof (Z.mod_pos_bound q (fan d)). pose proof (Z.div_mod q (fan d)).
  split; [|split; [lia|lia]]. split; [apply Z.div_pos; lia|apply Z.div_lt_upper_bound; lia].
Qed.

Lemma child_split d q : 0 <= q < fan (S d) ->
  exists k r, 0 <= k < 512 /\ 0 <= r < fan d /\ q = k * fan d + r.
Proof. intros (? & ? & ?)%child_index. eauto. Qed.

Lemma child_range d j q : 0 <= j < 512 -> 0 <= q < fan d -> 0 <= j * fan d + q < fan (S d).
Proof. intros. rewrite fan_S. nia. Qed.

(** The ancestor at depth [d] of leaf [idx] of a tree of height [h]. *)
Definition path (h : nat) (idx : Z) (d : nat) : Z := idx / fan (h - d).

Lemma path_child h idx d : (d <= h)%nat -> 0 <= idx < fan (S h) ->
  path (S h) idx (S d) / fan d = idx / fan h /\ path (S h) idx (S d) mod fan d = path h (idx mod fan h) d.
Proof.
  intros Hd Hidx. unfold path. replace (S h - S d)%nat with (h - d)%nat by lia.
  assert (Hf : fan h = fan (h - d) * fan d).
  { unfold fan. rewrite <- Z.pow_add_r by lia. f_equal. lia. }
  pose proof (fan_pos d). pose proof (fan_pos (h - d)). split.
  - rewrite Z.div_div by lia. by rewrite <- Hf.
  - rewrite Hf. rewrite Z.rem_mul_r by lia. rewrite (Z.mul_comm (fan (h - d))).
    rewrite Z.div_add, (Z.div_small (idx mod _)) by (pose proof (Z.mod_pos_bound idx (fan (h - d))); lia). lia.
Qed.

Lemma path_range h idx d : (d <= h)%nat -> 0 <= idx < fan h -> 0 <= path h idx d < fan d.
Proof.
  intros Hd Hidx. unfold path. pose proof (fan_pos (h - d)).
  assert (Hf : fan h = fan (h - d) * fan d) by (unfold fan; rewrite <- Z.pow_add_r by lia; f_equal; lia).
  split; [apply Z.div_pos; lia|]. apply Z.div_lt_upper_bound; [lia|]. rewrite <- Hf. lia.
Qed.

(** ** The data region *)

(** A file system object on a volume whose regions do not overlap. *)
Record efs_wf (fs : EfsFileSystem) : Prop := {
  wf_inode_bitmap : inode_bitmap fs =
    BitmapBlocks_new (inode_bitmap_start_bno (superblock fs)) (inode_counts (superblock fs));
  wf_data_bitmap : data_bitmap fs =
    BitmapBlocks_new (data_bitmap_start_bno (superblock fs)) (data_blocks (superblock fs));
  wf_counts : 0 <= inode_bitmap_blocks (superblock fs) /\ 0 <= inode_blocks (superblock fs) /\
    0 <= data_bitmap_blocks (superblock fs) /\ 0 <= data_blocks (superblock fs);
  wf_fit : div_ceil (inode_counts (superblock fs)) BLOCK_BITS <= inode_bitmap_blocks (superblock fs) /\
    div_ceil (data_blocks (superblock fs)) BLOCK_BITS <= data_bitmap_blocks (superblock fs);
  wf_u64 : data_start_bno (superblock fs) + data_blocks (superblock fs) < 2 ^ 64 /\ inode_counts (superblock fs) < 2 ^ 64
}.

Section trees.
Context {St : Type} `{BlockStoreLaws St}.
Variable fs : EfsFileSystem.
Hypothesis Hfs : efs_wf fs.
#[local] Notation SM := (M St FsErrorKind).
#[local] Notation FM X := (M (X * St) FsErrorKind).

Definition ds : Z := data_start_bno (superblock fs).
Definition region (b : Z) : Prop := ds <= b < ds + data_blocks (superblock fs).
Definition in_bitmap (b : Z) : Prop := data_bitmap_start_bno (superblock fs) <= b < ds.

Definition marked (s : St) (b : Z) : bool := bit (data_bitmap fs) s (b - ds).
Definition used (s : St) (b : Z) : Prop := region b /\ marked s b = true.
Definition free (s : St) (b : Z) : Prop := region b /\ marked s b = false.

Lemma ds_pos : 2 <= data_bitmap_start_bno (superblock fs) <= ds.
Proof.
  destruct Hfs as [_ _ ? _ _].
  unfold ds, data_start_bno, data_bitmap_start_bno, inode_start_bno. lia.
Qed.

Lemma region_pos b : region b -> 2 <= b.
Proof. pose proof ds_pos. unfold region. lia. Qed.

Lemma region_u64 b : region b -> is_u64 b.
Proof. intros Hb. pose proof (region_pos b Hb). destruct Hfs. unfold region, is_u64, ds in *. lia. Qed.

Lemma used_free s b : used s b -> free s b -> False.
Proof. intros [_ Hb] [_ Hb']. congruence. Qed.

(** The marks depend on the bitmap blocks only. *)
Lemma marked_frame s s' b : (forall b', in_bitmap b' -> view s' b' = view s b') -> region b ->
  marked s' b = marked s b.
Proof.
  intros Hv Hb. unfold marked, bit, word_of. do 2 f_equal. apply Hv.
  unfold region in Hb. destruct Hfs as [_ -> ? [_ Hfit] _]. unfold in_bitmap, ds in *.
  pose proof (div_ceil_spec (data_blocks (superblock fs)) BLOCK_BITS).
  unfold BitmapBlocks_new; simpl. unfold data_start_bno in *. lia.
Qed.

(** Block [b] was taken from the bitmap between [s] and [s']. *)
Definition grabbed (s : St) (b : Z) (s' : St) : Prop :=
  follows s s' /\ free s b /\
  (forall b', region b' -> marked s' b' = bool_decide (b' = b) || marked s b') /\
  (forall b', ~ in_bitmap b' -> view s' b' = view s b').

(** Every data block is taken. *)
Definition full (s : St) : Prop := forall b, region b -> marked s b = true.

(** Why a run from [s] to [s'] failed. *)
Definition alloc_err (s : St) (e : FsErrorKind) (s' : St) : Prop :=
  e = NoSpaceLeft /\ full s' \/ io_error e /\ ~ healthy s.

Lemma alloc_err_from s s' e s'' : follows s s' -> alloc_err s' e s'' -> alloc_err s e s''.
Proof. intros [_ Hh] [?|[? ?]]; [by left|right; tauto]. Qed.

Lemma alloc_err_to s e s' s'' : (forall b, region b -> marked s'' b = marked s' b) ->
  alloc_err s e s' -> alloc_err s e s''.
Proof. intros Hm [[? Hf]|?]; [left|by right]. split; [done|]. intros b Hb. rewrite Hm by done. by apply Hf. Qed.

Lemma alloc_data_block_spec s : store_ok s ->
  wp (alloc_data_block fs) (fun b s' => grabbed s b s')
     (fun e s' => alloc_err s e s' /\ follows s s' /\ same_view s s') s.
Proof.
  intros Hok. pose proof Hfs as [_ Hbm Hc [_ Hfit] _].
  pose proof (div_ceil_spec (data_blocks (superblock fs)) BLOCK_BITS ltac:(lia) ltac:(lia)).
  unfold alloc_data_block. apply wp_bind.
  eapply wp_mono; [apply alloc_bit_spec; [rewrite Hbm; by split; simpl; lia|done]| |].
  - intros [i|] s' (Hf & Hr).
    + destruct Hr as (Hi & Hfree & _ & Hset & Hout). rewrite Hbm in Hi; simpl in Hi. apply wp_ret.
      fold ds. unfold grabbed, free, region, marked. replace (i + ds - ds) with i by lia.
      split; [done|]. split; [split; [lia|done]|]. split.
      * intros b' Hb'. rewrite Hset by lia. f_equal. apply bool_decide_ext. lia.
      * intros b' Hb'. apply Hout. intros ->. apply Hb'. rewrite Hbm. unfold in_bitmap, ds, data_start_bno; simpl. lia.
    + apply wp_fail. destruct Hr as [Hall Hr]. split; [left; split; [done|]|done].
      intros b Hb. unfold marked, bit, word_of. rewrite <- Hr. apply Hall. rewrite Hbm. unfold region in Hb. simpl. lia.
  - intros e s' (? & ? & ? & ?). split; [by right|done].
Qed.

(** ** Well-formed trees *)

(** Every pointer is an allocated data block, and no block occurs twice. *)
Definition tree_ok (s : St) (h : nat) (p : Z) : Prop :=
  (forall d q, (d <= h)%nat -> 0 <= q < fan d -> node (view s) p d q <> 0 -> used s (node (view s) p d q)) /\
  (forall d q d' q', (d <= h)%nat -> (d' <= h)%nat -> 0 <= q < fan d -> 0 <= q' < fan d' ->
     node (view s) p d q = node (view s) p d' q' -> node (view s) p d q <> 0 -> d = d' /\ q = q').

(** The free blocks of the volume are filled with zeros. *)
Definition zeroed (s : St) : Prop := forall b, free s b -> view s b = zero_block.

(** What the walk to leaf [idx] may do: pointers on the path that were missing
    become blocks that were free, only these blocks are marked, and only the
    tables on the path change. *)
Record grow (h : nat) (idx p : Z) (s : St) (p' : Z) (s' : St) : Prop := {
  g_follows : follows s s';
  g_nodes d q : (d <= h)%nat -> 0 <= q < fan d ->
    node (view s') p' d q = node (view s) p d q \/
    node (view s) p d q = 0 /\ q = path h idx d /\ free s (node (view s') p' d q);
  g_tree : tree_ok s' h p';
  g_marked b : region b -> marked s' b = true -> marked s b = true \/
    exists d, (d <= h)%nat /\ node (view s) p d (path h idx d) = 0 /\ node (view s') p' d (path h idx d) = b;
  g_keep b : region b -> marked s b = true -> marked s' b = true;
  g_region b : region b -> (forall d, (d < h)%nat -> node (view s') p' d (path h idx d) <> b) -> view s' b = view s b;
  g_out b : ~ region b -> ~ in_bitmap b -> view s' b = view s b
}.

Lemma node_same s s' p d q : same_view s s' -> 0 <= q < fan d -> node (view s') p d q = node (view s) p d q.
Proof. intros Hv Hq. apply node_frame; [done|]. intros. symmetry. apply Hv. Qed.

Lemma marked_same s s' b : same_view s s' -> marked s' b = marked s b.
Proof. intros Hv. unfold marked, bit, word_of. by rewrite Hv. Qed.

Lemma tree_ok_same s s' h p : same_view s s' -> tree_ok s h p -> tree_ok s' h p.
Proof.
  intros Hv [Hu Hi]. split.
  - intros d q Hd Hq. rewrite (node_same s) by done. intros Hn. destruct (Hu d q Hd Hq Hn).
    split; [done|]. by rewrite (marked_same s).
  - intros d q d' q' Hd Hd' Hq Hq'. rewrite (node_same s s' p d q), (node_same s s' p d' q') by done. by apply Hi.
Qed.

Lemma grow_same h idx p s s' : follows s s' -> same_view s s' -> tree_ok s h p -> grow h idx p s p s'.
Proof.
  intros Hf Hv Ht. split; try done.
  - intros. left. by apply node_same.
  - by eapply tree_ok_same.
  - intros b Hb. rewrite (marked_same s) by done. by left.
  - intros b Hb. by rewrite (marked_same s s').
Qed.

Lemma free_pos s b : free s b -> b <> 0.
Proof. intros [Hb _]. pose proof (region_pos b Hb). lia. Qed.

Lemma grow_free h idx p s p' s' b : grow h idx p s p' s' -> free s' b -> free s b.
Proof.
  intros G [Hb Hm]. split; [done|]. destruct (marked s b) eqn:Hms; [|done].
  apply (g_keep _ _ _ _ _ _ G) in Hms; [congruence|done].
Qed.

Lemma grow_trans h idx p s p1 s1 p2 s2 : 0 <= idx < fan h ->
  grow h idx p s p1 s1 -> grow h idx p1 s1 p2 s2 -> grow h idx p s p2 s2.
Proof.
  intros Hidx G1 G2. split.
  - eapply follows_trans; [apply G1|apply G2].
  - intros d q Hd Hq. destruct (g_nodes _ _ _ _ _ _ G2 d q Hd Hq) as [->|(Hz & -> & Hfr)]; [by apply G1|].
    destruct (g_nodes _ _ _ _ _ _ G1 d _ Hd Hq) as [He|(Hz1 & _ & Hfr1)].
    + right. split; [congruence|]. split; [done|]. by eapply grow_free.
    + by apply free_pos in Hfr1.
  - apply G2.
  - intros b Hb Hm. destruct (g_marked _ _ _ _ _ _ G2 b Hb Hm) as [Hm1|(d & Hd & Hz & Hn)].
    + destruct (g_marked _ _ _ _ _ _ G1 b Hb Hm1) as [?|(d & Hd & Hz & Hn)]; [by left|].
      right. exists d. split; [done|]. split; [done|].
      destruct (g_nodes _ _ _ _ _ _ G2 d _ Hd (path_range h idx d Hd Hidx)) as [->|(Hz1 & _)]; [done|].
      rewrite Hz1 in Hn. subst b. by apply region_pos in Hb.
    + right. exists d. split; [done|]. split; [|done].
      destruct (g_nodes _ _ _ _ _ _ G1 d _ Hd (path_range h idx d Hd Hidx)) as [<-|(_ & _ & Hfr)]; [done|]. by apply free_pos in Hfr.
  - intros b Hb Hm. apply G2; [done|]. by apply G1.
  - intros b Hb Hp. rewrite (g_region _ _ _ _ _ _ G2) by done. apply (g_region _ _ _ _ _ _ G1); [done|].
    intros d Hd He. destruct (g_nodes _ _ _ _ _ _ G2 d _ ltac:(lia) (path_range h idx d ltac:(lia) Hidx)) as [Hn|(Hz & _)].
    + apply (Hp d Hd). congruence.
    + rewrite Hz in He. subst b. by apply region_pos in Hb.
  - intros b Hb Hi. rewrite (g_out _ _ _ _ _ _ G2) by done. by apply (g_out _ _ _ _ _ _ G1).
Qed.

Lemma zeroed_grow h idx p s p' s' : 0 <= idx < fan h -> grow h idx p s p' s' -> zeroed s -> zeroed s'.
Proof.
  intros Hidx G Hz b Hb. rewrite (g_region _ _ _ _ _ _ G); [|by destruct Hb|].
  - apply Hz. by eapply grow_free.
  - intros d Hd He. destruct (g_tree _ _ _ _ _ _ G) as [Hu _].
    apply (used_free s' b); [|done]. rewrite <- He. apply Hu; [lia|apply path_range; [lia|done]|].
    rewrite He. by eapply free_pos.
Qed.

(** Taking a block for a missing root. *)
Lemma grow_alloc h idx s b s' : 0 <= idx < fan h -> zeroed s -> grabbed s b s' -> grow h idx 0 s b s'.
Proof.
  intros Hidx Hz (Hf & Hfree & Hm & Hv). pose proof (free_pos _ _ Hfree) as Hb0.
  assert (Hnb : forall b', region b' -> ~ in_bitmap b') by (unfold region, in_bitmap; lia).
  assert (Hvb : view s' b = zero_block) by (rewrite Hv; [by apply Hz|apply Hnb, Hfree]).
  assert (Hn : forall d q, 0 <= q < fan d -> node (view s') b d q = if decide (d = O) then b else 0).
  { intros [|d] q Hq; [done|]. cbn [node]. destruct (Z.eqb_spec b 0); [done|].
    rewrite Hvb, zero_block_word. apply node_zero. }
  split; try done.
  - intros d q Hd Hq. rewrite Hn, node_zero by done. case_decide; [|by left]. subst d. right.
    split; [done|]. split; [|done]. unfold path. rewrite Nat.sub_0_r, Z.div_small by done.
    unfold fan in Hq. simpl in Hq. lia.
  - split.
    + intros d q Hd Hq. rewrite Hn by done. case_decide; [|done]. intros _.
      split; [apply Hfree|]. rewrite Hm by apply Hfree. by rewrite bool_decide_true.
    + intros d q d' q' Hd Hd' Hq Hq'. rewrite !Hn by done. repeat case_decide; try done.
      intros _ _. subst. split; [done|]. unfold fan in *. simpl in *. lia.
  - intros b' Hb' Hmb. rewrite Hm in Hmb by done. apply orb_true_iff in Hmb as [->%bool_decide_eq_true|?]; [|by left].
    right. exists O. split; [lia|]. split; [apply node_zero|]. rewrite Hn; [done|]. apply path_range; [lia|done].
  - intros b' Hb' Hmb. rewrite Hm by done. by rewrite Hmb, orb_true_r.
  - intros b' Hb' _. apply Hv. by apply Hnb.
  - intros b' Hb' Hb''. by apply Hv.
Qed.

Lemma child_tree s h p j : p <> 0 -> 0 <= j < 512 ->
  tree_ok s (S h) p -> tree_ok s h (u64_at (view s p) j).
Proof.
  intros Hp Hj [Hu Hi]. split.
  - intros d q Hd Hq. rewrite <- node_child by done. apply Hu; [lia|by apply child_range].
  - intros d q d' q' Hd Hd' Hq Hq'. rewrite <- !node_child by done. intros He Hne.
    pose proof (child_range d j q Hj Hq). pose proof (child_range d' j q' Hj Hq').
    destruct (Hi (S d) (j * fan d + q) (S d') (j * fan d' + q')) as [Hdd Hqq]; [lia|lia|done..|].
    assert (d = d') as -> by lia. split; [done|lia].
Qed.

(** Walking below child [idx / fan h] of [p] and storing the table of [p] back
    is a step of the walk below [p]. *)
Section child.
Variables (h : nat) (idx p : Z) (s : St) (c' : Z) (s1 s2 : St).
#[local] Notation j := (idx / fan h).
#[local] Notation i := (idx mod fan h).
#[local] Notation c := (u64_at (view s p) j).
Hypothesis Hidx : 0 <= idx < fan (S h).
Hypothesis Hp : p <> 0.
Hypothesis Ht : tree_ok s (S h) p.
Hypothesis G : grow h i c s c' s1.
Hypothesis Hs2 : follows s1 s2.
Hypothesis Hvp : forall k, 0 <= k < 512 -> u64_at (view s2 p) k = if decide (k = j) then c' else u64_at (view s p) k.
Hypothesis Hv : forall b, b <> p -> view s2 b = view s1 b.

Lemma child_idx : 0 <= j < 512 /\ 0 <= i < fan h.
Proof. destruct (child_index h idx Hidx) as (? & ? & _). done. Qed.

Lemma root_used : used s p.
Proof. destruct Ht as [Hu _]. apply (Hu O 0); [lia|unfold fan; lia|done]. Qed.

Lemma old_not_root d q : (d <= h)%nat -> 0 <= q < fan (S d) -> node (view s) p (S d) q <> p.
Proof.
  destruct Ht as [_ Hi]. intros Hd Hq He.
  destruct (Hi (S d) q O 0) as [? _]; [lia|lia|done|unfold fan; lia|done|congruence|done].
Qed.

Lemma old_used d q : (d <= h)%nat -> 0 <= q < fan (S d) -> node (view s) p (S d) q <> 0 ->
  used s (node (view s) p (S d) q).
Proof. destruct Ht as [Hu _]. intros. apply Hu; [lia|done..]. Qed.

(** The walk below the child does not meet the tables outside it. *)
Lemma walked_old d b : (d <= h)%nat -> used s b ->
  (forall q, 0 <= q < fan d -> node (view s) p (S d) (j * fan d + q) <> b) ->
  node (view s1) c' d (path h i d) <> b.
Proof.
  destruct child_idx. intros Hd Hb Hno He. pose proof (path_range h i d Hd ltac:(done)) as Hr.
  destruct (g_nodes _ _ _ _ _ _ G d (path h i d) Hd Hr) as [Hn|(_ & _ & Hf)].
  - apply (Hno _ Hr). rewrite node_child by done. congruence.
  - rewrite He in Hf. by apply (used_free s b).
Qed.

Lemma child_nodes_in d q : (d <= h)%nat -> 0 <= q < fan d ->
  node (view s2) p (S d) (j * fan d + q) = node (view s1) c' d q.
Proof.
  destruct child_idx. intros Hd Hq. rewrite node_child, Hvp, decide_True by done. apply node_frame; [done|].
  intros d' q' Hd' Hq' Hne. apply Hv. intros He.
  destruct (g_nodes _ _ _ _ _ _ G d' q' ltac:(lia) Hq') as [Hn|(_ & _ & Hf)].
  - apply (old_not_root d' (j * fan d' + q')); [lia|by apply child_range|]. rewrite node_child by done. congruence.
  - rewrite He in Hf. by apply (used_free s p root_used).
Qed.

Lemma child_nodes_out d k q : (d <= h)%nat -> 0 <= k < 512 -> k <> j -> 0 <= q < fan d ->
  node (view s2) p (S d) (k * fan d + q) = node (view s) p (S d) (k * fan d + q).
Proof.
  destruct child_idx. intros Hd Hk Hkj Hq. rewrite !node_child, Hvp, decide_False by done.
  apply node_frame; [done|]. intros d' q' Hd' Hq' Hne. rewrite <- (node_child _ _ _ k) in * by done.
  pose proof (child_range d' k q' Hk Hq') as Hr.
  rewrite Hv by (apply old_not_root; [lia|done]).
  pose proof (old_used d' _ ltac:(lia) Hr Hne) as Hb.
  apply (g_region _ _ _ _ _ _ G); [apply Hb|]. intros e He. apply walked_old; [lia|done|].
  intros r Hre Heq. destruct Ht as [_ Hi].
  destruct (Hi (S e) (j * fan e + r) (S d') (k * fan d' + q')) as [Hee Hqq];
    [lia|lia|by apply child_range|done|done|congruence|].
  assert (e = d') as -> by lia. assert (j = k) by nia. done.
Qed.

Lemma path_in d : (d <= h)%nat -> path (S h) idx (S d) = j * fan d + path h i d.
Proof.
  intros Hd. destruct (path_child h idx d Hd Hidx) as [<- <-]. pose proof (fan_pos d).
  rewrite Z.mul_comm. apply Z.div_mod. lia.
Qed.

Lemma child_g_nodes d q : (d <= S h)%nat -> 0 <= q < fan d ->
  node (view s2) p d q = node (view s) p d q \/
  node (view s) p d q = 0 /\ q = path (S h) idx d /\ free s (node (view s2) p d q).
Proof.
  destruct d as [|d]; [by left|]. intros Hd Hq. destruct (child_split d q Hq) as (k & r & Hk & Hr & ->).
  destruct (decide (k = j)) as [->|Hne]; [|left; apply child_nodes_out; [lia|done..]].
  rewrite child_nodes_in, node_child by (done || lia).
  destruct (g_nodes _ _ _ _ _ _ G d r ltac:(lia) Hr) as [?|(? & Hq' & ?)]; [by left|right].
  split; [done|]. split; [|done]. rewrite path_in by lia. congruence.
Qed.

Lemma child_marked b : region b -> marked s2 b = marked s1 b.
Proof.
  intros Hb. apply marked_frame; [|done]. intros b' Hb'. apply Hv. intros ->.
  destruct root_used as [Hr _]. unfold region, in_bitmap in *. lia.
Qed.

Lemma child_g_tree : tree_ok s2 (S h) p.
Proof.
  destruct Ht as [Hu Hi]. destruct child_idx. split.
  - intros d q Hd Hq Hne. destruct (decide (d = O)) as [->|Hd0].
    { cbn [node]. destruct root_used as [Hr Hm]. split; [done|]. rewrite child_marked by done. by apply G. }
    destruct d as [|d]; [done|]. destruct (child_split d q Hq) as (k & r & Hk & Hr & ->).
    destruct (decide (k = j)) as [->|Hkj].
    + rewrite child_nodes_in in * by (done || lia).
      destruct (g_tree _ _ _ _ _ _ G) as [Hu1 _]. destruct (Hu1 d r ltac:(lia) Hr Hne).
      split; [done|]. by rewrite child_marked.
    + rewrite child_nodes_out in * by (done || lia).
      destruct (old_used d _ ltac:(lia) (child_range d _ _ Hk Hr) Hne).
      split; [done|]. rewrite child_marked by done. by apply G.
  - intros d q d' q' Hd Hd' Hq Hq' He Hne.
    destruct (child_g_nodes d q Hd Hq) as [Hn|(Hz & Hqp & Hf)],
      (child_g_nodes d' q' Hd' Hq') as [Hn'|(Hz' & Hqp' & Hf')].
    + apply Hi; [done..| |]; congruence.
    + exfalso. rewrite <- He, Hn in Hf'. apply (used_free _ _ (Hu d q Hd Hq ltac:(congruence)) Hf').
    + exfalso. rewrite He, Hn' in Hf. apply (used_free _ _ (Hu d' q' Hd' Hq' ltac:(congruence)) Hf).
    + destruct d as [|d], d' as [|d']; [done..|]. subst q q'. rewrite !path_in in * by lia.
      rewrite !child_nodes_in in * by (lia || (apply path_range; [lia|done])).
      destruct (g_tree _ _ _ _ _ _ G) as [_ Hi1].
      destruct (Hi1 d (path h i d) d' (path h i d')) as [-> _];
        [lia|lia|apply path_range; [lia|done]|apply path_range; [lia|done]|done|done|done].
Qed.

Lemma grow_child : grow (S h) idx p s p s2.
Proof.
  destruct child_idx. split.
  - eapply follows_trans; [apply G|done].
  - apply child_g_nodes.
  - apply child_g_tree.
  - intros b Hb. rewrite child_marked by done. intros Hm.
    destruct (g_marked _ _ _ _ _ _ G b Hb Hm) as [?|(d & Hd & Hz & Hn)]; [by left|right].
    exists (S d). split; [lia|]. pose proof (path_range h i d Hd ltac:(done)).
    by rewrite path_in, child_nodes_in, node_child by done.
  - intros b Hb Hm. rewrite child_marked by done. by apply G.
  - intros b Hb Hno. rewrite Hv; [|by intros ->; apply (Hno O ltac:(lia))].
    apply (g_region _ _ _ _ _ _ G); [done|]. intros d Hd. pose proof (path_range h i d ltac:(lia) ltac:(done)).
    rewrite <- child_nodes_in, <- path_in by (done || lia). apply Hno. lia.
  - intros b Hb Hb'. rewrite Hv by (intros ->; destruct root_used; done). by apply (g_out _ _ _ _ _ _ G).
Qed.

End child.

(** ** The walk *)

(** The walk from the pointer of a tree of height [h] to its leaf [idx]. *)
Definition walk (h : nat) (idx : Z) : FM Z Z :=
  match h with
  | O => alloc_if_need fs
  | S h' => bmap_mut_from_blk fs true (bmap0_mut fs true (alloc_if_need fs) h' idx)
  end.

Lemma bmap0_mut_walk h idx l s : 0 <= idx < fan (S h) -> zlen l = 512 ->
  bmap0_mut fs true (alloc_if_need fs) h idx (l, s) = focus_nth (idx / fan h) (walk h (idx mod fan h)) (l, s).
Proof.
  intros Hidx Hl. destruct (child_index h idx Hidx) as (Hj & Hi & _). destruct h as [|h]; cbn [bmap0_mut].
  - unfold bind at 1, get_focus at 1. change (fan 0) with 1 in *. rewrite Z.div_1_r in *.
    by destruct (Z.leb_spec (zlen l) idx); [lia|].
  - unfold bind at 1, get_focus at 1. fold (fan (S h)).
    by destruct (Z.leb_spec (zlen l) (idx / fan (S h))); [lia|].
Qed.

(** What the walk to a leaf promises: it finds or makes the leaf. *)
Definition walk_post (h : nat) (idx p : Z) (s : St) (b : Z) (st : Z * St) : Prop :=
  grow h idx p s st.1 st.2 /\ b = node (view st.2) st.1 h idx /\ b <> 0.
Definition walk_err (h : nat) (idx p : Z) (s : St) (e : FsErrorKind) (st : Z * St) : Prop :=
  grow h idx p s st.1 st.2 /\ alloc_err s e st.2.

Lemma grow_root h idx p s p' s' : grow h idx p s p' s' -> p' = 0 \/ used s' p'.
Proof.
  intros G. destruct (decide (p' = 0)) as [|Hne]; [by left|right].
  destruct (g_tree _ _ _ _ _ _ G) as [Hu _]. apply (Hu O 0); [lia|unfold fan; lia|done].
Qed.

Lemma root_u64 s p : p = 0 \/ used s p -> is_u64 p.
Proof. intros [->|[Hr _]]; [unfold is_u64; lia|by apply region_u64]. Qed.

Lemma zeroed_same s s' : same_view s s' -> zeroed s -> zeroed s'.
Proof.
  intros Hv Hz b [Hb Hm]. rewrite <- Hv. apply Hz. split; [done|]. by rewrite <- (marked_same s s').
Qed.

(** Storing the child pointer in the table of [p]. *)
Lemma table_step h idx p s c' s1 :
  store_ok s -> tree_ok s (S h) p -> p <> 0 -> 0 <= idx < fan (S h) ->
  grow h (idx mod fan h) (u64_at (view s p) (idx / fan h)) s c' s1 ->
  let s2 := put_block p (block_of (<[Z.to_nat (idx / fan h) := c']> (table_of (view s p)))) s1 in
  grow (S h) idx p s p s2 /\ node (view s2) p (S h) idx = node (view s1) c' h (idx mod fan h) /\
  forall b, region b -> marked s2 b = marked s1 b.
Proof.
  intros Hok Ht Hp Hidx G. cbv zeta. destruct (child_index h idx Hidx) as (Hj & Hi & Heq).
  pose proof (view_ok s p Hok) as Hblk. pose proof (root_u64 _ _ (grow_root _ _ _ _ _ _ G)) as Hc'.
  rewrite table_insert by done.
  destruct (put_block_spec s1 p (set_u64 (idx / fan h) c' (view s p))) as [Hf2 Hv2];
    [apply G|by apply set_u64_block|].
  set (s3 := put_block p _ s1) in *.
  assert (Hvp : forall k, 0 <= k < 512 ->
    u64_at (view s3 p) k = if decide (k = idx / fan h) then c' else u64_at (view s p) k).
  { intros k Hk. rewrite Hv2, decide_True by done. destruct Hblk as [Hl _]. case_decide as Hkj.
    - subst k. by rewrite u64_at_set_eq by (done || lia).
    - apply u64_at_set_ne; lia. }
  assert (Hvb : forall b, b <> p -> view s3 b = view s1 b) by (intros b Hb; by rewrite Hv2, decide_False).
  split; [by eapply grow_child|]. split; [rewrite Heq at 1; by apply (child_nodes_in h idx p s)|].
  by eapply child_marked.
Qed.

(** One level of the walk, given the walk below it. *)
Lemma in_table_spec h idx p s :
  (forall idx p s, store_ok s -> zeroed s -> tree_ok s h p -> 0 <= idx < fan h ->
     wp (walk h idx) (walk_post h idx p s) (walk_err h idx p s) (p, s)) ->
  store_ok s -> zeroed s -> tree_ok s (S h) p -> p <> 0 -> 0 <= idx < fan (S h) ->
  wp (in_table p (bmap0_mut fs true (alloc_if_need fs) h idx))
     (fun b s' => walk_post (S h) idx p s b (p, s')) (fun e s' => walk_err (S h) idx p s e (p, s')) s.
Proof.
  intros IH Hok Hz Ht Hp Hidx. destruct (child_index h idx Hidx) as (Hj & Hi & Heq). unfold in_table.
  apply wp_bind. eapply wp_mono; [by apply load_spec| |].
  2:{ intros e s' (? & ? & ? & ?). split; [by apply grow_same|by right]. }
  intros d s0 (-> & Hf0 & Hv0). pose proof (tree_ok_same _ _ _ _ Hv0 Ht) as Ht0.
  specialize (IH _ _ s0 (proj1 Hf0) (zeroed_same _ _ Hv0 Hz) (child_tree _ _ _ _ Hp Hj Ht0) Hi).
  rewrite (Hv0 p). pose proof (grow_same (S h) idx p s s0 Hf0 Hv0 Ht) as G0.
  unfold wp. rewrite bmap0_mut_walk by (done || apply table_length). unfold focus_nth.
  rewrite table_lookup by done. unfold wp in IH. destruct (walk h _ _) as [r [c' s1]] eqn:Hw.
  destruct r as [b|e|]; [| |done]; destruct IH as (G & Hb);
    destruct (table_step h idx p s0 c' s1 (proj1 Hf0) Ht0 Hp Hidx G) as (G' & Hn & Hm);
    pose proof (grow_trans _ _ _ _ _ _ _ _ Hidx G0 G') as G''; (split; [done|]).
  - simpl in *. by rewrite Hn.
  - eapply alloc_err_to; [done|]. by eapply alloc_err_from.
Qed.

Lemma walk_spec h idx p s : store_ok s -> zeroed s -> tree_ok s h p -> 0 <= idx < fan h ->
  wp (walk h idx) (walk_post h idx p s) (walk_err h idx p s) (p, s).
Proof.
  revert idx p s. induction h as [|h IH]; intros idx p s Hok Hz Ht Hidx.
  - change (fan 0) with 1 in Hidx. cbn [walk]. unfold alloc_if_need, wp, bind at 1, get_focus.
    destruct (Z.eqb_spec p INVALID_DATA_BLOCK_NO) as [->|Hp]; [|split; [by apply grow_same|done]].
    unfold bind, lift. pose proof (alloc_data_block_spec s Hok) as Ha. unfold wp in Ha.
    destruct (alloc_data_block fs s) as [[b|e|] s']; [| |done]; cbn.
    + pose proof (grow_alloc O idx s b s' Hidx Hz Ha). split; [done|]. split; [done|].
      destruct Ha as (_ & Hf & _). by apply free_pos in Hf.
    + destruct Ha as (? & ? & ?). split; [by apply grow_same|done].
  - cbn [walk]. unfold bmap_mut_from_blk, wp, bind at 1, get_focus at 1.
    destruct (Z.eqb_spec p INVALID_DATA_BLOCK_NO) as [->|Hp].
    + cbn [negb]. unfold bind, lift at 1. pose proof (alloc_data_block_spec s Hok) as Ha. unfold wp in Ha.
      destruct (alloc_data_block fs s) as [[b|e|] s']; [| |done]; cbn.
      * pose proof (grow_alloc (S h) idx s b s' Hidx Hz Ha) as G1.
        pose proof (in_table_spec h idx b s' IH (proj1 (g_follows _ _ _ _ _ _ G1)) (zeroed_grow _ _ _ _ _ _ Hidx G1 Hz)
          (g_tree _ _ _ _ _ _ G1) (free_pos _ _ (proj1 (proj2 Ha))) Hidx) as Hw. unfold wp in Hw.
        destruct (in_table b _ s') as [[b'|e|] s'']; [| |done]; destruct Hw as (G & Hr);
          (split; [by eapply grow_trans|]); [done|]. eapply alloc_err_from; [apply G1|done].
      * destruct Ha as (? & ? & ?). split; [by apply grow_same|done].
    + unfold bind, ret, get_focus, lift. pose proof (in_table_spec h idx p s IH Hok Hz Ht Hp Hidx) as Hw.
      unfold wp in Hw. by destruct (in_table p _ s) as [[b'|e|] s''].
Qed.

End trees.
