(* ===== verification/FileData.v ===== *)
(** * The content of a file

    The abstract file is the list of its bytes ([content]).  This file states
    when an inode is well formed on a volume ([inode_ok]: its fourteen trees of
    pointers are allocated, disjoint, and map every block below the file size)
    and shows that the loops of [RawINode::read] and [RawINode::write]
    (src/fs/redwing_efs/src/inode.rs) read and write the abstract file, that
    a failed write has written a prefix, and that nothing else on the volume
    changes. *)

From S2P Require Import Prelude Bytes Vfs Store Superblock Bitmap Inode BlockMap.
Import Vfs.

#[local] Open Scope Z_scope.
#[local] Open Scope rw_scope.

(** ** The trees of an inode *)

(** The height and the pointer of tree [k] of 14. *)
Definition height (k : Z) : nat := if k <? 12 then 0 else if k =? 12 then 1 else 2.

Definition root (i : RawINode) (k : Z) : Z :=
  if k <? 12 then default 0 (direct_blk_ptrs i !! Z.to_nat k)
  else if k =? 12 then indirect_blk_ptr i else double_indirect_blk_ptr i.

Definition set_root (k p : Z) (i : RawINode) : RawINode :=
  if k <? 12 then set_direct (<[Z.to_nat k := p]> (direct_blk_ptrs i)) i
  else if k =? 12 then set_indirect p i else set_double p i.

Lemma root_set_root k p i k' : zlen (direct_blk_ptrs i) = 12 -> 0 <= k < 14 -> 0 <= k' < 14 ->
  root (set_root k p i) k' = if decide (k' = k) then p else root i k'.
Proof.
  intros Hl Hk Hk'. unfold root, set_root.
  destruct (Z.ltb_spec k 12), (Z.ltb_spec k' 12), (Z.eqb_spec k 12), (Z.eqb_spec k' 12); case_decide; simpl;
    try done; try lia.
  - subst. by rewrite list_lookup_insert_eq by lia.
  - by rewrite list_lookup_insert_ne by lia.
Qed.

Lemma set_root_direct k p i : zlen (direct_blk_ptrs (set_root k p i)) = zlen (direct_blk_ptrs i).
Proof. unfold set_root. repeat case_match; simpl; [by rewrite length_insert|done..]. Qed.

Lemma set_root_size k p i : isize (set_root k p i) = isize i.
Proof. unfold set_root. by repeat case_match. Qed.

Definition same_meta (i i' : RawINode) : Prop :=
  typ i' = typ i /\ inlink i' = inlink i /\ idev_no i' = idev_no i.

Definition meta_fits (i : RawINode) : Prop :=
  0 <= typ i < 2 ^ 32 /\ 0 <= inlink i < 2 ^ 32 /\ 0 <= idev_no i < 2 ^ 32.

Lemma same_meta_fits i i' : same_meta i i' -> meta_fits i -> meta_fits i'.
Proof. intros (Ht & Hl & Hd). unfold meta_fits. by rewrite Ht, Hl, Hd. Qed.

Lemma same_meta_trans i1 i2 i3 : same_meta i1 i2 -> same_meta i2 i3 -> same_meta i1 i3.
Proof. unfold same_meta. naive_solver congruence. Qed.

Lemma set_root_meta k p i : same_meta i (set_root k p i).
Proof. unfold set_root. by repeat case_match. Qed.

(** Block [blk] of a file is leaf [slot blk].2 of tree [slot blk].1. *)
Notation MAX_BLOCKS := (12 + 512 + 512 * 512).

Definition slot (blk : Z) : Z * Z :=
  if blk <? 12 then (blk, 0) else if blk <? 12 + 512 then (12, blk - 12) else (13, blk - 524).

Lemma slot_range blk : 0 <= blk < MAX_BLOCKS ->
  0 <= (slot blk).1 < 14 /\ 0 <= (slot blk).2 < fan (height (slot blk).1).
Proof.
  intros. unfold slot, height, fan.
  destruct (Z.ltb_spec blk 12); simpl; [destruct (Z.ltb_spec blk 12); simpl; lia|].
  destruct (Z.ltb_spec blk (12 + 512)); simpl; lia.
Qed.

Lemma slot_inj b b' : 0 <= b < MAX_BLOCKS -> 0 <= b' < MAX_BLOCKS -> slot b = slot b' -> b = b'.
Proof.
  intros Hb Hb'. unfold slot.
  destruct (Z.ltb_spec b 12), (Z.ltb_spec b' 12), (Z.ltb_spec b (12 + 512)), (Z.ltb_spec b' (12 + 512));
    intros [=]; lia.
Qed.

Definition blkptr (v : Z -> list Z) (i : RawINode) (blk : Z) : Z :=
  node v (root i (slot blk).1) (height (slot blk).1) (slot blk).2.

Section files.
Context {St : Type} `{BlockStoreLaws St}.
Variable fs : EfsFileSystem.
Hypothesis Hfs : efs_wf fs.
#[local] Notation SM := (M St FsErrorKind).
#[local] Notation FM X := (M (X * St) FsErrorKind).
#[local] Notation region := (region fs).
#[local] Notation in_bitmap := (in_bitmap fs).
#[local] Notation marked := (marked fs).
#[local] Notation used := (used fs).
#[local] Notation free := (free fs).
#[local] Notation zeroed := (zeroed fs).
#[local] Notation tree_ok := (tree_ok fs).
#[local] Notation grow := (grow fs).

(** A position of the pointer trees. *)
Definition valid (k : Z) (d : nat) (q : Z) : Prop := 0 <= k < 14 /\ (d <= height k)%nat /\ 0 <= q < fan d.

Notation inode_node s i k d q := (node (view s) (root i k) d q).

Record inode_ok (s : St) (i : RawINode) : Prop := {
  io_direct : zlen (direct_blk_ptrs i) = 12;
  io_size : 0 <= isize i <= MAX_FILE_SIZE;
  io_used k d q : valid k d q -> inode_node s i k d q <> 0 -> used s (inode_node s i k d q);
  io_inj k d q k' d' q' : valid k d q -> valid k' d' q' ->
    inode_node s i k d q = inode_node s i k' d' q' -> inode_node s i k d q <> 0 -> k = k' /\ d = d' /\ q = q';
  io_mapped blk : 0 <= blk -> blk * BLOCK_SIZE < isize i -> blkptr (view s) i blk <> 0
}.

(** The blocks of a file: its data blocks and its tables. *)
Definition owns (s : St) (i : RawINode) (b : Z) : Prop :=
  exists k d q, valid k d q /\ inode_node s i k d q = b /\ b <> 0.

Definition byte_at (s : St) (i : RawINode) (o : Z) : Z :=
  default 0 (view s (blkptr (view s) i (o / BLOCK_SIZE)) !! Z.to_nat (o mod BLOCK_SIZE)).

(** The bytes of the file. *)
Definition content (s : St) (i : RawINode) : list Z := byte_at s i <$> seqZ 0 (isize i).

Lemma content_length s i : 0 <= isize i -> zlen (content s i) = isize i.
Proof. intros. unfold content. rewrite length_fmap, length_seqZ. lia. Qed.

Lemma content_lookup s i o : 0 <= o < isize i -> content s i !! Z.to_nat o = Some (byte_at s i o).
Proof. intros. unfold content. rewrite list_lookup_fmap, lookup_seqZ_lt by lia. simpl. do 2 f_equal. lia. Qed.

Lemma inode_tree s i k : inode_ok s i -> 0 <= k < 14 -> tree_ok s (height k) (root i k).
Proof.
  intros Hi Hk. split.
  - intros d q Hd Hq. by apply (io_used _ _ Hi).
  - intros d q d' q' Hd Hd' Hq Hq' He Hne. by destruct (io_inj _ _ Hi k d q k d' q').
Qed.

(** What operations on a file preserve and may change. *)
Record istep (s : St) (i : RawINode) (s' : St) (i' : RawINode) : Prop := {
  is_follows : follows s s';
  is_ok : inode_ok s' i';
  is_zeroed : zeroed s';
  is_meta : meta_fits i -> meta_fits i';
  is_keep b : region b -> marked s b = true -> marked s' b = true;
  is_marked b : region b -> marked s' b = true -> marked s b = true \/ owns s' i' b;
  is_owns b : owns s' i' b -> owns s i b \/ free s b;
  is_own_keep b : owns s i b -> owns s' i' b;
  is_frame b : ~ in_bitmap b -> ~ owns s' i' b -> view s' b = view s b
}.

Lemma istep_trans s1 i1 s2 i2 s3 i3 : istep s1 i1 s2 i2 -> istep s2 i2 s3 i3 -> istep s1 i1 s3 i3.
Proof.
  intros Ha Hb. split.
  - eapply follows_trans; [apply Ha|apply Hb].
  - apply Hb.
  - apply Hb.
  - intros Hm. apply Hb. by apply Ha.
  - intros b Hr Hm. apply Hb; [done|]. by apply Ha.
  - intros b Hr Hm. destruct (is_marked _ _ _ _ Hb b Hr Hm) as [Hm2|?]; [|by right].
    destruct (is_marked _ _ _ _ Ha b Hr Hm2) as [?|?]; [by left|right]. by apply Hb.
  - intros b Ho. destruct (is_owns _ _ _ _ Hb b Ho) as [Ho2|[Hr Hm]]; [by apply Ha|].
    right. split; [done|]. destruct (marked s1 b) eqn:Hm1; [|done].
    apply (is_keep _ _ _ _ Ha) in Hm1; [congruence|done].
  - intros b Ho. apply Hb. by apply Ha.
  - intros b Hr Ho. rewrite (is_frame _ _ _ _ Hb) by done. apply (is_frame _ _ _ _ Ha); [done|].
    intros Ho2. apply Ho. by apply Hb.
Qed.

(** ** The walk of one tree, seen from the inode *)

Section growth.
Variables (s : St) (i : RawINode) (k idx p' : Z) (s' : St).
#[local] Notation h := (height k).
#[local] Notation i' := (set_root k p' i).
Hypothesis Hok : inode_ok s i.
Hypothesis Hz : zeroed s.
Hypothesis Hk : 0 <= k < 14.
Hypothesis Hidx : 0 <= idx < fan h.
Hypothesis G : grow h idx (root i k) s p' s'.

Lemma growth_root k' : 0 <= k' < 14 -> root i' k' = if decide (k' = k) then p' else root i k'.
Proof. intros. apply root_set_root; [apply Hok|done..]. Qed.

(** Blocks of the volume that are not in the tree are not touched. *)
Lemma growth_other b : used s b -> (forall d q, valid k d q -> inode_node s i k d q <> b) -> view s' b = view s b.
Proof.
  intros Hb Hno. apply (g_region _ _ _ _ _ _ _ G); [apply Hb|]. intros d Hd He.
  pose proof (path_range h idx d ltac:(lia) Hidx) as Hr.
  destruct (g_nodes _ _ _ _ _ _ _ G d _ ltac:(lia) Hr) as [Hn|(_ & _ & Hf)].
  - apply (Hno d (path h idx d)); [split; [done|split; [lia|done]]|congruence].
  - rewrite He in Hf. by apply (used_free fs s b).
Qed.

Lemma growth_nodes k' d q : valid k' d q ->
  inode_node s' i' k' d q = inode_node s i k' d q \/
  inode_node s i k' d q = 0 /\ k' = k /\ free s (inode_node s' i' k' d q).
Proof.
  intros (Hk' & Hd & Hq). rewrite growth_root by done. destruct (decide (k' = k)) as [->|Hne].
  { destruct (g_nodes _ _ _ _ _ _ _ G d q Hd Hq) as [?|(? & _ & ?)]; [by left|by right]. }
  left. apply node_frame; [done|]. intros d' q' Hd' Hq' Hn.
  assert (Hv : valid k' d' q') by (split; [done|split; [lia|done]]).
  apply growth_other; [by apply (io_used _ _ Hok)|]. intros d1 q1 Hv1 He.
  destruct (io_inj _ _ Hok k d1 q1 k' d' q') as (-> & _); [done..|congruence|done].
Qed.

Lemma growth_used b : used s b -> used s' b.
Proof. intros [Hr Hm]. split; [done|]. by apply (g_keep _ _ _ _ _ _ _ G). Qed.

Lemma growth_inode_ok : inode_ok s' i'.
Proof.
  pose proof (g_tree _ _ _ _ _ _ _ G) as [Hu Hi]. split.
  - rewrite set_root_direct. apply Hok.
  - rewrite set_root_size. apply Hok.
  - intros k' d q Hv Hn. destruct (growth_nodes k' d q Hv) as [He|(_ & -> & _)].
    + rewrite He in *. apply growth_used. by apply (io_used _ _ Hok).
    + rewrite growth_root, decide_True in * by done. destruct Hv as (_ & ? & ?). by apply Hu.
  - intros k1 d1 q1 k2 d2 q2 Hv1 Hv2 He Hn.
    destruct (growth_nodes _ _ _ Hv1) as [He1|(Hz1 & -> & Hf1)], (growth_nodes _ _ _ Hv2) as [He2|(Hz2 & -> & Hf2)].
    + rewrite He1, He2 in *. by apply (io_inj _ _ Hok).
    + rewrite <- He, He1 in Hf2. exfalso. eapply used_free; [|apply Hf2]. apply (io_used _ _ Hok); [done|congruence].
    + rewrite He, He2 in Hf1. exfalso. eapply used_free; [|apply Hf1]. apply (io_used _ _ Hok); [done|congruence].
    + rewrite growth_root, decide_True in * by done. destruct Hv1 as (_ & ? & ?), Hv2 as (_ & ? & ?).
      split; [done|]. by apply Hi.
  - intros blk Hb. rewrite set_root_size. intros Hs. pose proof (io_mapped _ _ Hok blk Hb Hs) as Hm.
    unfold blkptr in *. destruct (slot_range blk) as [Hs1 Hs2]; [pose proof (io_size _ _ Hok); unfold MAX_FILE_SIZE in *; lia|].
    destruct (growth_nodes (slot blk).1 (height (slot blk).1) (slot blk).2) as [->|(? & _)]; [by split|done|done].
Qed.

Lemma growth_istep : istep s i s' i'.
Proof.
  assert (Hvalid : forall d, (d <= h)%nat -> valid k d (path h idx d)).
  { intros d Hd. split; [done|]. split; [done|]. by apply path_range. }
  split.
  - apply G.
  - apply growth_inode_ok.
  - by eapply zeroed_grow.
  - apply same_meta_fits, set_root_meta.
  - apply G.
  - intros b Hb Hm. destruct (g_marked _ _ _ _ _ _ _ G b Hb Hm) as [?|(d & Hd & _ & Hn)]; [by left|right].
    exists k, d, (path h idx d). split; [by apply Hvalid|]. rewrite growth_root, decide_True by done.
    split; [done|]. apply (region_pos fs Hfs) in Hb. lia.
  - intros b (k' & d & q & Hv & Hn & Hb). destruct (growth_nodes _ _ _ Hv) as [He|(_ & _ & Hf)].
    + left. exists k', d, q. split; [done|]. split; [congruence|done].
    + right. by rewrite Hn in Hf.
  - intros b (k' & d & q & Hv & Hn & Hb). exists k', d, q. split; [done|]. split; [|done].
    destruct (growth_nodes _ _ _ Hv) as [He|(? & _)]; congruence.
  - intros b Hb Ho. assert (region b \/ ~ region b) as [Hr|Hr] by (unfold BlockMap.region; lia).
    + apply (g_region _ _ _ _ _ _ _ G); [done|]. intros d Hd He. apply Ho.
      exists k, d, (path h idx d). split; [apply Hvalid; lia|]. rewrite growth_root, decide_True by done.
      split; [done|]. apply (region_pos fs Hfs) in Hr. lia.
    + by apply (g_out _ _ _ _ _ _ _ G).
Qed.

(** The data blocks stay where they are, with what they hold. *)
Lemma growth_data blk : 0 <= blk < MAX_BLOCKS -> blkptr (view s) i blk <> 0 ->
  blkptr (view s') i' blk = blkptr (view s) i blk /\
  view s' (blkptr (view s) i blk) = view s (blkptr (view s) i blk).
Proof.
  intros Hb Hn. destruct (slot_range blk Hb) as [Hs1 Hs2]. unfold blkptr in *.
  assert (Hv : valid (slot blk).1 (height (slot blk).1) (slot blk).2) by (by split).
  destruct (growth_nodes _ _ _ Hv) as [He|(? & _)]; [|done]. split; [done|].
  destruct (decide ((slot blk).1 = k)) as [Hsk|Hsk].
  - rewrite growth_root, decide_True in He by done. rewrite Hsk in *.
    apply (g_region _ _ _ _ _ _ _ G); [by apply (io_used _ _ Hok)|]. intros d Hd Heq.
    pose proof (g_tree _ _ _ _ _ _ _ G) as [_ Hi]. rewrite <- He in Heq.
    destruct (Hi d (path h idx d) h (slot blk).2) as [? _];
      [lia|lia|apply path_range; [lia|done]|done|done|congruence|lia].
  - apply growth_other; [by apply (io_used _ _ Hok)|]. intros d q Hv1 Heq.
    destruct (io_inj _ _ Hok _ _ _ _ _ _ Hv1 Hv Heq) as [? _]; congruence.
Qed.

End growth.

(** The walk of [bmap_and_alloc_if_need] is the walk of one of the trees. *)
Lemma bmap_and_alloc_walk offset i s : zlen (direct_blk_ptrs i) = 12 -> 0 <= offset < MAX_FILE_SIZE ->
  let '(k, idx) := slot (offset / BLOCK_SIZE) in
  bmap_and_alloc_if_need fs offset (i, s) =
  let '(r, (p', s')) := walk fs (height k) idx (root i k, s) in (r, (set_root k p' i, s')).
Proof.
  intros Hl Ho. unfold MAX_FILE_SIZE in Ho. unfold bmap_and_alloc_if_need, bmap_walk_mut, bind at 1, get_focus at 1, slot.
  rewrite Hl. set (blk := offset / BLOCK_SIZE). assert (0 <= blk) by (unfold blk; lia).
  destruct (Z.ltb_spec blk 12) as [Hd|Hd].
  - unfold height, root, set_root, on_direct. destruct (Z.ltb_spec blk 12); [|lia].
    cbn [bmap0_mut walk]. unfold bind at 1, get_focus at 1. destruct (Z.leb_spec (zlen (direct_blk_ptrs i)) blk); [lia|].
    unfold focus_nth. destruct (lookup_lt_is_Some_2 (direct_blk_ptrs i) (Z.to_nat blk)) as [x Hx]; [lia|].
    rewrite Hx. simpl. by destruct (alloc_if_need fs (x, s)) as [r [p' s']].
  - destruct (Z.ltb_spec (blk - 12) 512), (Z.ltb_spec blk (12 + 512)); try lia; [done|].
    by replace (blk - 12 - 512) with (blk - 524) by lia.
Qed.

Lemma bmap_and_alloc_spec offset i s :
  store_ok s -> inode_ok s i -> zeroed s -> 0 <= offset < MAX_FILE_SIZE ->
  wp (bmap_and_alloc_if_need fs offset)
     (fun b '(i', s') => istep s i s' i' /\ same_meta i i' /\ isize i' = isize i /\ content s' i' = content s i /\
        b = blkptr (view s') i' (offset / BLOCK_SIZE) /\ b <> 0)
     (fun e '(i', s') => istep s i s' i' /\ same_meta i i' /\ isize i' = isize i /\ content s' i' = content s i /\ alloc_err fs s e s') (i, s).
Proof.
  intros Hs Hi Hz Ho. set (blk := offset / BLOCK_SIZE).
  destruct (slot_range blk) as [Hk Hidx]; [unfold blk, MAX_FILE_SIZE in *; lia|].
  pose proof (bmap_and_alloc_walk offset i s (io_direct _ _ Hi) Ho) as Hw. fold blk in Hw.
  assert (Hgrow : forall p' s', grow (height (slot blk).1) (slot blk).2 (root i (slot blk).1) s p' s' ->
    istep s i s' (set_root (slot blk).1 p' i) /\ same_meta i (set_root (slot blk).1 p' i) /\ isize (set_root (slot blk).1 p' i) = isize i /\
    content s' (set_root (slot blk).1 p' i) = content s i).
  { intros p' s' G. split; [by eapply growth_istep|]. split; [apply set_root_meta|]. split; [apply set_root_size|].
    unfold content. rewrite set_root_size. apply list_fmap_ext. intros j o Hj. apply lookup_seqZ in Hj.
    unfold byte_at. pose proof (io_size _ _ Hi).
    destruct (growth_data s i _ _ _ _ Hi Hk Hidx G (o / BLOCK_SIZE)) as [-> ->];
      [unfold MAX_FILE_SIZE in *; lia|apply Hi; lia|done]. }
  destruct (slot blk) as [k idx] eqn:Hslot. simpl in *. unfold wp. rewrite Hw.
  pose proof (walk_spec fs Hfs (height k) idx (root i k) s Hs Hz (inode_tree _ _ _ Hi Hk) Hidx) as Hsp.
  unfold wp in Hsp. destruct (walk fs (height k) idx (root i k, s)) as [[b|e|] [p' s']]; [| |done].
  - destruct Hsp as (G & Hb & Hb0). simpl in *. destruct (Hgrow p' s' G) as (? & ? & ? & ?). split_and!; try done.
    unfold blkptr. rewrite Hslot. simpl. rewrite root_set_root, decide_True by (done || apply Hi). done.
  - destruct Hsp as (G & He). simpl in *. destruct (Hgrow p' s' G) as (? & ? & ? & ?). done.
Qed.

(** ** Storing in a data block *)

Section storing.
Variables (s : St) (i : RawINode) (blk : Z) (x : list Z) (s' : St).
#[local] Notation b := (blkptr (view s) i blk).
Hypothesis Hok : inode_ok s i.
Hypothesis Hz : zeroed s.
Hypothesis Hblk : 0 <= blk < MAX_BLOCKS.
Hypothesis Hb : b <> 0.
Hypothesis Hf : follows s s'.
Hypothesis Hv : forall b', view s' b' = if decide (b' = b) then x else view s b'.

Lemma leaf_valid blk' : 0 <= blk' < MAX_BLOCKS -> valid (slot blk').1 (height (slot blk').1) (slot blk').2.
Proof. intros Hb'. destruct (slot_range blk' Hb'). by split. Qed.

Lemma storing_node k d q : valid k d q -> inode_node s' i k d q = inode_node s i k d q.
Proof.
  intros (Hk & Hd & Hq). apply node_frame; [done|]. intros d' q' Hd' Hq' Hn. rewrite Hv, decide_False; [done|].
  intros He. assert (Hvd : valid k d' q') by (split; [done|split; [lia|done]]).
  destruct (io_inj _ _ Hok _ _ _ _ _ _ Hvd (leaf_valid blk Hblk) He Hn) as (-> & ? & _). lia.
Qed.

Lemma storing_ptr blk' : 0 <= blk' < MAX_BLOCKS -> blkptr (view s') i blk' = blkptr (view s) i blk'.
Proof. intros. by apply storing_node, leaf_valid. Qed.

Lemma storing_used : used s b.
Proof. apply (io_used _ _ Hok); [by apply leaf_valid|done]. Qed.

Lemma storing_marked b' : region b' -> marked s' b' = marked s b'.
Proof.
  intros Hr. apply (marked_frame fs Hfs); [|done]. intros b1 Hb1. rewrite Hv, decide_False; [done|].
  intros ->. destruct storing_used as [Hr1 _]. unfold BlockMap.region, BlockMap.in_bitmap in *. lia.
Qed.

Lemma storing_owns b' : owns s' i b' <-> owns s i b'.
Proof.
  split; intros (k & d & q & Hvd & Hn & Hb'); exists k, d, q.
  - by rewrite <- storing_node.
  - by rewrite storing_node.
Qed.

(** The new size may reach into the block, no further. *)
Lemma storing_istep z : isize i <= z <= (blk + 1) * BLOCK_SIZE \/ z = isize i ->
  blk * BLOCK_SIZE <= isize i -> istep s i s' (set_size z i).
Proof.
  intros Hsz Hlo. pose proof (io_size _ _ Hok). split.
  - done.
  - split; simpl.
    + apply Hok.
    + unfold MAX_FILE_SIZE in *. lia.
    + intros k d q Hvd. change (root (set_size z i) k) with (root i k). rewrite storing_node by done. intros Hn.
      destruct (io_used _ _ Hok k d q Hvd Hn). split; [done|]. by rewrite storing_marked.
    + intros k d q k' d' q' Hvd Hvd'. change (root (set_size z i)) with (root i).
      rewrite (storing_node k d q), (storing_node k' d' q') by done. by apply (io_inj _ _ Hok).
    + intros blk' Hblk' Hlt. change (blkptr (view s') (set_size z i)) with (blkptr (view s') i).
      rewrite storing_ptr by (unfold MAX_FILE_SIZE in *; lia).
      destruct (decide (blk' = blk)) as [->|Hne]; [done|]. apply (io_mapped _ _ Hok); lia.
  - intros b' [Hr Hm]. rewrite storing_marked in Hm by done. rewrite Hv, decide_False; [by apply Hz|].
    intros ->. by apply (used_free fs s b storing_used).
  - done.
  - intros b' Hr. by rewrite storing_marked.
  - intros b' Hr. rewrite storing_marked by done. by left.
  - intros b' Ho. left. by apply storing_owns.
  - intros b' Ho. by apply storing_owns.
  - intros b' _ Ho. rewrite Hv, decide_False; [done|]. intros ->. apply Ho, storing_owns.
    eexists _, _, _. split; [by apply leaf_valid|done].
Qed.

Lemma storing_byte o z : 0 <= o < MAX_FILE_SIZE -> (o < isize i \/ o / BLOCK_SIZE = blk) ->
  byte_at s' (set_size z i) o =
  if decide (o / BLOCK_SIZE = blk) then default 0 (x !! Z.to_nat (o mod BLOCK_SIZE)) else byte_at s i o.
Proof.
  intros Ho Hm. unfold byte_at, MAX_FILE_SIZE in *. change (blkptr (view s') (set_size z i)) with (blkptr (view s') i).
  rewrite storing_ptr, Hv by lia. case_decide as He; case_decide as Hq.
  - done.
  - exfalso. destruct (io_inj _ _ Hok _ _ _ _ _ _ (leaf_valid (o / BLOCK_SIZE) ltac:(lia)) (leaf_valid blk Hblk))
      as (H1 & _ & H3); [done|intros E0; apply Hb; by rewrite <- He|]. apply Hq, slot_inj; [lia|done|].
    rewrite (surjective_pairing (slot (o / 4096))), (surjective_pairing (slot blk)). congruence.
  - by rewrite Hq in He.
  - done.
Qed.

End storing.

(** Storing a chunk of a block is a splice of the file. *)
Lemma write_chunk s i s' offset d :
  inode_ok s i -> zeroed s -> store_ok s -> 0 <= offset <= isize i -> offset < MAX_FILE_SIZE ->
  blkptr (view s) i (offset / BLOCK_SIZE) <> 0 -> zlen d <= BLOCK_SIZE - offset mod BLOCK_SIZE -> follows s s' ->
  (forall b', view s' b' = if decide (b' = blkptr (view s) i (offset / BLOCK_SIZE))
                           then splice (offset mod BLOCK_SIZE) d (view s (blkptr (view s) i (offset / BLOCK_SIZE)))
                           else view s b') ->
  let i' := set_size (Z.max (isize i) (offset + zlen d)) i in
  istep s i s' i' /\ content s' i' = splice offset d (content s i).
Proof.
  intros Hi Hz Hs Ho Hmax Hb Hd Hf Hv i'. pose proof (io_size _ _ Hi) as Hsz.
  assert (Hblk : 0 <= offset / BLOCK_SIZE < MAX_BLOCKS) by (unfold MAX_FILE_SIZE in *; lia).
  assert (Hst : istep s i s' i') by (eapply storing_istep; try done; unfold MAX_FILE_SIZE in *; lia).
  split; [done|]. pose proof (io_size _ _ (is_ok _ _ _ _ Hst)) as Hsz'.
  assert (Hl : isize i' = Z.max (isize i) (offset + zlen d)) by done. rewrite Hl in Hsz'.
  apply list_eq_Z.
  { apply Nat2Z.inj. rewrite content_length, Hl, splice_zlen, content_length by (rewrite ?content_length; lia). done. }
  intros o. rewrite content_length, Hl by lia. intros Hr. rewrite content_lookup by lia.
  destruct (view_ok s (blkptr (view s) i (offset / BLOCK_SIZE)) Hs) as [Hbl _].
  unfold i'. erewrite storing_byte by (try done; lia).
  case_decide as Hob; rewrite !lookup_splice by (rewrite ?content_length; lia).
  - case_decide as H1; case_decide as H2; try lia.
    + replace (o mod 4096 - offset mod 4096) with (o - offset) by lia.
      by destruct (lookup_lt_is_Some_2 d (Z.to_nat (o - offset))) as [y ->]; [lia|].
    + rewrite content_lookup by lia. unfold byte_at. by rewrite Hob.
  - rewrite decide_False by lia. by rewrite content_lookup by lia.
Qed.

(** ** The loops *)

Lemma same_node s s' i k d q : same_view s s' -> valid k d q -> inode_node s' i k d q = inode_node s i k d q.
Proof. intros Hv (_ & _ & Hq). by apply node_same. Qed.

Lemma same_ptr s s' i blk : same_view s s' -> 0 <= blk < MAX_BLOCKS -> blkptr (view s') i blk = blkptr (view s) i blk.
Proof. intros Hv Hb. apply same_node; [done|by apply leaf_valid]. Qed.

Lemma inode_ok_same s s' i : same_view s s' -> inode_ok s i -> inode_ok s' i.
Proof.
  intros Hv Hi. pose proof (io_size _ _ Hi). split; try apply Hi.
  - intros k d q Hvd. rewrite (same_node s) by done. intros Hn. destruct (io_used _ _ Hi k d q Hvd Hn).
    split; [done|]. by rewrite (marked_same fs s s').
  - intros k d q k' d' q' Hvd Hvd'. rewrite (same_node s s' i k d q), (same_node s s' i k' d' q') by done.
    by apply (io_inj _ _ Hi).
  - intros blk Hb Hlt. rewrite (same_ptr s) by (done || (unfold MAX_FILE_SIZE in *; lia)). by apply (io_mapped _ _ Hi).
Qed.

Lemma content_same s s' i : same_view s s' -> inode_ok s i -> content s' i = content s i.
Proof.
  intros Hv Hi. apply list_fmap_ext. intros j o Hj%lookup_seqZ. pose proof (io_size _ _ Hi). unfold byte_at.
  rewrite (same_ptr s) by (done || (unfold MAX_FILE_SIZE in *; lia)). by rewrite Hv.
Qed.

Lemma istep_same s s' i : follows s s' -> same_view s s' -> inode_ok s i -> zeroed s -> istep s i s' i.
Proof.
  intros Hf Hv Hi Hz. assert (Ho : forall b, owns s i b <-> owns s' i b).
  { intros b. split; intros (k & d & q & Hvd & Hn & Hb); exists k, d, q.
    - by rewrite (same_node s s').
    - by rewrite <- (same_node s s'). }
  split; try done.
  - by eapply inode_ok_same.
  - by eapply zeroed_same.
  - intros b _. by rewrite (marked_same fs s s').
  - intros b _. rewrite (marked_same fs s s') by done. by left.
  - intros b ?%Ho. by left.
  - intros b. by rewrite Ho.
Qed.

Lemma chunk_block s b off d : store_ok s -> Forall is_byte d -> 0 <= off -> off + zlen d <= BLOCK_SIZE ->
  is_block (splice off d (view s b)).
Proof.
  intros Hs Hd Ho Hl. destruct (view_ok s b Hs) as [Hbl Hby]. split; [|by apply splice_Forall].
  rewrite splice_length by lia. done.
Qed.

(** [n] bytes of [src] have been written at [offset]. *)
Definition wrote (s : St) (i : RawINode) (offset : Z) (src : list Z) (n : Z) (st : RawINode * St) : Prop :=
  0 <= n <= zlen src /\ istep s i st.2 st.1 /\ same_meta i st.1 /\
  content st.2 st.1 = splice offset (take (Z.to_nat n) src) (content s i).

Lemma wrote_nil s i offset src i1 s1 : 0 <= offset <= isize i ->
  istep s i s1 i1 -> same_meta i i1 -> content s1 i1 = content s i -> wrote s i offset src 0 (i1, s1).
Proof.
  intros Ho Hst Hm Hc. split; [lia|]. split; [done|]. split; [done|]. cbn [fst snd]. change (take (Z.to_nat 0) src) with (@nil Z).
  rewrite splice_nil by (rewrite content_length; lia). done.
Qed.

Lemma wrote_more s i offset src n i1 s1 m st :
  inode_ok s i -> 0 <= offset <= isize i ->
  wrote s i offset src n (i1, s1) -> wrote s1 i1 (offset + n) (drop (Z.to_nat n) src) m st ->
  wrote s i offset src (n + m) st.
Proof.
  intros Hi Ho (Hn & Hst & Hsm & Hc) (Hm & Hst' & Hsm' & Hc'). simpl in *. rewrite length_drop in Hm.
  split; [lia|]. split; [by eapply istep_trans|]. split; [by eapply same_meta_trans|]. rewrite Hc', Hc.
  assert (Hl : zlen (take (Z.to_nat n) src) = n) by (rewrite length_take; lia).
  pose proof (splice_splice offset (take (Z.to_nat n) src) (take (Z.to_nat m) (drop (Z.to_nat n) src)) (content s i)) as Hsp.
  rewrite Hl in Hsp. rewrite Hsp by (rewrite content_length; lia).
  f_equal. rewrite Z2Nat.inj_add by lia. by rewrite take_take_drop.
Qed.

(** One turn of the loop, after the block was found. *)
Lemma write_turn s i offset src n :
  store_ok s -> inode_ok s i -> zeroed s -> Forall is_byte src -> 0 <= offset <= isize i -> offset < MAX_FILE_SIZE ->
  n = Z.min (BLOCK_SIZE - offset mod BLOCK_SIZE) (zlen src) -> blkptr (view s) i (offset / BLOCK_SIZE) <> 0 ->
  wp (update (blkptr (view s) i (offset / BLOCK_SIZE)) (splice (offset mod BLOCK_SIZE) (take (Z.to_nat n) src)))
     (fun _ s' => wrote s i offset src n (set_size (Z.max (isize i) (offset + n)) i, s'))
     (io_fail s) s.
Proof.
  intros Hs Hi Hz Hsrc Ho Hmax Hn Hb.
  assert (Hl : zlen (take (Z.to_nat n) src) = n) by (rewrite length_take; lia).
  eapply wp_mono; [apply update_spec; [done|apply chunk_block; [done|by apply Forall_take|lia|lia]]| |done].
  intros _ s' [Hf Hv]. destruct (write_chunk s i s' offset (take (Z.to_nat n) src)) as [Hst Hc]; try done; [lia|].
  rewrite Hl in *. split; [lia|done].
Qed.

Lemma write_loop_spec n offset src wl s i :
  (length src <= n)%nat -> store_ok s -> inode_ok s i -> zeroed s -> Forall is_byte src -> 0 <= offset <= isize i ->
  wp (write_loop fs n offset src wl)
     (fun r st => r = wl + Z.min (zlen src) (MAX_FILE_SIZE - offset) /\ wrote s i offset src (r - wl) st)
     (fun e st => alloc_err fs s e st.2 /\ exists m, wrote s i offset src m st) (i, s).
Proof.
  revert offset src wl s i. induction n as [|n IH]; intros offset src wl s i Hn Hs Hi Hz Hsrc Ho;
    pose proof (io_size _ _ Hi) as Hsz;
    assert (Hnil : wrote s i offset src 0 (i, s)) by
      (apply wrote_nil; [done|by apply istep_same|done|done]).
  { destruct src; [|simpl in Hn; lia]. apply wp_ret. simpl. split; [lia|]. by rewrite Z.sub_diag. }
  destruct src as [|a src'] eqn:Hsrc'; rewrite <- Hsrc' in *; cbn [write_loop].
  { subst. apply wp_ret. simpl. split; [lia|]. by rewrite Z.sub_diag. }
  destruct (Z.leb_spec MAX_FILE_SIZE offset) as [Hmax|Hmax].
  { rewrite Hsrc' at 1. apply wp_ret. rewrite Z.sub_diag. split; [lia|done]. }
  rewrite Hsrc' at 1. apply wp_bind. eapply wp_mono; [apply bmap_and_alloc_spec; [done..|lia]| |].
  2:{ intros e [i' s'] (Hst & Hsm & Hsz' & Hc & He). split; [done|]. exists 0. by apply wrote_nil. }
  intros b [i1 s1] (Hst & Hsm & Hsz1 & Hc & -> & Hb). set (len := Z.min _ (zlen src)).
  assert (Hlen : 0 < len <= zlen src) by (unfold len; rewrite Hsrc'; simpl length; lia).
  assert (Hw0 : wrote s i offset src 0 (i1, s1)) by (by apply wrote_nil).
  pose proof (write_turn s1 i1 offset src len (proj1 (is_follows _ _ _ _ Hst)) (is_ok _ _ _ _ Hst)
    (is_zeroed _ _ _ _ Hst) Hsrc ltac:(lia) Hmax eq_refl Hb) as Hturn.
  apply wp_bind. unfold lift at 1, wp at 1. unfold wp in Hturn.
  destruct (update _ _ s1) as [[u|e|] s2]; [| |done].
  - assert (Hmore : wrote s i offset src (0 + len) (set_size (Z.max (isize i1) (offset + len)) i1, s2)).
    { eapply wrote_more; [done|done|apply Hw0|]. by rewrite Z.add_0_r. }
    rewrite Z.add_0_l in Hmore.
    pose proof Hturn as (_ & Hst2 & _ & Hc2). simpl in Hst2, Hc2.
    unfold bind, get_focus, put_focus. fold len.
    set (i2 := set_size _ i1) in *.
    assert (Hsz2 : isize i2 = Z.max (isize i1) (offset + len)) by done.
    eapply wp_mono; [apply IH; [rewrite length_drop; lia|apply Hst2|apply Hst2|apply Hst2|by apply Forall_drop|simpl; lia]| |].
    + intros r st [-> Hwr]. rewrite length_drop. split; [lia|].
      replace (_ - wl) with (len + (wl + len + Z.min (zlen (drop (Z.to_nat len) src)) (MAX_FILE_SIZE - (offset + len)) - (wl + len)))
        by (rewrite length_drop; lia).
      by eapply wrote_more.
    + intros e st [He [m Hwr]]. split.
      * eapply alloc_err_from; [|done]. eapply follows_trans; [apply Hst|apply Hst2].
      * exists (len + m). by eapply wrote_more.
  - destruct Hturn as (He & Hf & Hv & Hh). split.
    + right. split; [done|]. intros Hh'. apply Hh. by apply (is_follows _ _ _ _ Hst).
    + exists 0. replace 0 with (0 + 0) by lia. eapply wrote_more; [done|done|apply Hw0|].
      pose proof (is_ok _ _ _ _ Hst) as Hi1.
      apply wrote_nil; [lia|apply istep_same; [done|done|done|apply Hst]|done|by apply content_same].
Qed.

(** ** Reading *)

Lemma bmap0_spec level table idx p s :
  store_ok s -> 0 <= idx < zlen table * fan level -> table !! Z.to_nat (idx / fan level) = Some p ->
  node (view s) p level (idx mod fan level) <> 0 ->
  wp (bmap0 table level idx)
     (fun b s' => b = node (view s) p level (idx mod fan level) /\ follows s s' /\ same_view s s') (io_fail s) s.
Proof.
  revert table idx p s. induction level as [|level IH]; intros table idx p s Hs Hidx Hp Hn; cbn [bmap0].
  - change (fan 0) with 1 in *. rewrite Z.div_1_r, Z.mul_1_r in *.
    destruct (Z.leb_spec (zlen table) idx); [lia|]. rewrite Hp. cbn [unwrap].
    apply wp_bind, wp_ret. cbn [node] in *. by destruct (Z.eqb_spec p INVALID_DATA_BLOCK_NO).
  - fold (fan (S level)). pose proof (fan_pos level). pose proof (fan_pos (S level)).
    pose proof (Z.mod_pos_bound idx (fan (S level))) as Hr.
    destruct (Z.leb_spec (zlen table) (idx / fan (S level))) as [Hle|Hgt].
    { apply lookup_lt_Some in Hp. lia. }
    rewrite Hp. cbn [unwrap]. apply wp_bind, wp_ret. cbn [node] in *.
    destruct (Z.eqb_spec p INVALID_DATA_BLOCK_NO) as [|Hp0]; [done|].
    apply wp_bind. eapply wp_mono; [by apply load_spec| |done]. intros blk s1 (-> & Hf & Hv).
    destruct (child_index level (idx mod fan (S level))) as (Hj & Hi & _); [lia|].
    assert (Hsame : forall j q, 0 <= q < fan level -> node (view s1) j level q = node (view s) j level q)
      by (intros; by apply node_same).
    eapply wp_mono; [apply (IH _ _ (u64_at (view s p) (idx mod fan (S level) / fan level)))| |].
    + apply Hf.
    + rewrite table_length, <- fan_S. lia.
    + by apply table_lookup.
    + by rewrite Hsame.
    + intros b s' (-> & Hf' & Hv'). rewrite Hsame by done. split; [done|].
      split; [by eapply follows_trans|]. by rewrite Hv.
    + intros e s'. by apply io_fail_from.
Qed.

Lemma bmap_from_blk_spec level p idx s :
  store_ok s -> 0 <= idx < fan (S level) -> node (view s) p (S level) idx <> 0 ->
  wp (bmap_from_blk p level idx)
     (fun b s' => b = node (view s) p (S level) idx /\ follows s s' /\ same_view s s') (io_fail s) s.
Proof.
  intros Hs Hidx Hn. unfold bmap_from_blk. destruct (child_index level idx Hidx) as (Hj & Hi & _).
  cbn [node] in *. destruct (Z.eqb_spec p 0) as [|Hp]; [done|].
  apply wp_bind. eapply wp_mono; [by apply load_spec| |done]. intros blk s1 (-> & Hf & Hv).
  assert (Hsame : forall j q, 0 <= q < fan level -> node (view s1) j level q = node (view s) j level q)
    by (intros; by apply node_same).
  eapply wp_mono; [apply (bmap0_spec _ _ _ (u64_at (view s p) (idx / fan level)))| |].
  - apply Hf.
  - rewrite table_length, <- fan_S. lia.
  - by apply table_lookup.
  - by rewrite Hsame.
  - intros b s' (-> & Hf' & Hv'). rewrite Hsame by done. split; [done|].
    split; [by eapply follows_trans|]. by rewrite Hv.
  - intros e s'. by apply io_fail_from.
Qed.

Lemma bmap_spec i offset s : store_ok s -> inode_ok s i -> 0 <= offset < isize i ->
  wp (bmap i offset)
     (fun b s' => b = blkptr (view s) i (offset / BLOCK_SIZE) /\ follows s s' /\ same_view s s') (io_fail s) s.
Proof.
  intros Hs Hi Ho. pose proof (io_size _ _ Hi) as Hsz. pose proof (io_direct _ _ Hi) as Hd.
  pose proof (io_mapped _ _ Hi (offset / BLOCK_SIZE) ltac:(lia) ltac:(lia)) as Hm.
  assert (Hb : 0 <= offset / BLOCK_SIZE < MAX_BLOCKS) by (unfold MAX_FILE_SIZE in *; lia).
  unfold bmap. rewrite Hd. set (blk := offset / BLOCK_SIZE) in *.
  destruct (slot_range blk Hb) as [_ Hr]. unfold blkptr, slot in *.
  destruct (Z.ltb_spec blk 12) as [H1|H1]; cbn [fst snd] in *.
  - unfold height, root in *. destruct (Z.ltb_spec blk 12) as [_|]; [|lia].
    destruct (lookup_lt_is_Some_2 (direct_blk_ptrs i) (Z.to_nat blk)) as [p Hp]; [lia|]. rewrite Hp in Hm |- *.
    pose proof (bmap0_spec 0 (direct_blk_ptrs i) blk p s Hs) as Hsp. change (fan 0) with 1 in Hsp.
    rewrite Z.div_1_r in Hsp. apply Hsp; [lia|done|done].
  - destruct (Z.ltb_spec (blk - 12) 512), (Z.ltb_spec blk (12 + 512)); try lia; cbn [fst snd] in *.
    + by apply (bmap_from_blk_spec 0).
    + replace (blk - 12 - 512) with (blk - 524) by lia. by apply (bmap_from_blk_spec 1).
Qed.

(** The bytes of a block that lies below the size are bytes of the file. *)
Lemma read_chunk s i offset len : store_ok s -> inode_ok s i -> 0 <= offset -> 0 <= len ->
  len <= BLOCK_SIZE - offset mod BLOCK_SIZE -> offset + len <= isize i ->
  sub (offset mod BLOCK_SIZE) len (view s (blkptr (view s) i (offset / BLOCK_SIZE))) = sub offset len (content s i).
Proof.
  intros Hs Hi Ho Hlen Hl Hsz. pose proof (view_ok s (blkptr (view s) i (offset / BLOCK_SIZE)) Hs) as [Hbl _].
  apply list_eq_Z.
  { apply Nat2Z.inj. rewrite !sub_length by (rewrite ?content_length; lia). done. }
  intros o. rewrite sub_length by lia. intros Hr. rewrite !lookup_sub by lia.
  rewrite content_lookup by lia. unfold byte_at.
  replace ((offset + o) / 4096) with (offset / 4096) by lia.
  replace ((offset + o) mod 4096) with (offset mod 4096 + o) by lia.
  by destruct (lookup_lt_is_Some_2 (view s (blkptr (view s) i (offset / 4096))) (Z.to_nat (offset mod 4096 + o)))
    as [y ->]; [lia|].
Qed.

Lemma read_loop_spec n i offset dst remaining acc s :
  (Z.to_nat dst <= n)%nat -> 0 <= dst -> store_ok s -> inode_ok s i -> 0 <= offset ->
  offset + (remaining - zlen acc) = isize i -> zlen acc <= remaining ->
  wp (read_loop n i offset dst remaining acc)
     (fun r s' => r = acc ++ sub offset (Z.min dst (remaining - zlen acc)) (content s i) /\ follows s s' /\ same_view s s')
     (io_fail s) s.
Proof.
  revert offset dst acc s. induction n as [|n IH]; intros offset dst acc s Hn Hd Hs Hi Ho Hsz Hacc; cbn [read_loop];
    (destruct (Z.eqb_spec dst 0) as [->|Hd0];
      [apply wp_ret; rewrite Z.min_l by lia; unfold sub; by rewrite take_0, app_nil_r|]).
  { lia. }
  cbn [orb]. destruct (Z.leb_spec remaining (zlen acc)) as [Hrem|Hrem].
  { apply wp_ret. rewrite Z.min_r by lia. replace (remaining - zlen acc) with 0 by lia.
    unfold sub. by rewrite take_0, app_nil_r. }
  pose proof (io_size _ _ Hi). destruct (Z.leb_spec MAX_FILE_SIZE offset) as [Hmax|Hmax]; [lia|].
  apply wp_bind. eapply wp_mono; [apply bmap_spec; [done|done|lia]| |done].
  intros b s1 (-> & Hf1 & Hv1). apply wp_bind. eapply wp_mono; [apply load_spec, Hf1| |by intros ? ?; apply io_fail_from].
  intros blk s2 (-> & Hf2 & Hv2). set (len := Z.min (Z.min _ dst) _).
  rewrite <- Hv1, read_chunk by (done || lia).
  assert (Hl : zlen (sub offset len (content s i)) = len) by (apply sub_length; rewrite ?content_length; lia).
  assert (Hf : follows s s2) by (by eapply follows_trans). assert (Hv : same_view s s2) by (by rewrite Hv1).
  eapply wp_mono; [apply IH|..].
  - lia.
  - lia.
  - apply Hf.
  - by apply (inode_ok_same s).
  - lia.
  - rewrite length_app, Nat2Z.inj_add, Hl. lia.
  - rewrite length_app, Nat2Z.inj_add, Hl. lia.
  - intros r s' (-> & Hf' & Hv'). rewrite (content_same s s2) by done.
    split; [|split; [by eapply follows_trans|by rewrite Hv]].
    rewrite <- app_assoc. f_equal. rewrite length_app, Nat2Z.inj_add, Hl.
    rewrite <- sub_app by lia. f_equal. lia.
  - intros e s'. by apply io_fail_from.
Qed.

End files.
