(* ===== verification/EfsFiles.v ===== *)
(** * Files of a volume

    The inodes of a volume are records in the blocks of its inode region.
    This file shows that reading and writing through an inode handle
    ([INode::raw_read] and [INode::raw_write] of
    src/fs/redwing_efs/src/inode.rs) implement reading and writing of the
    abstract files of the volume, and that the other files and the disjointness
    of the files are left alone. *)

From S2P Require Import Prelude Bytes Vfs Store Superblock Bitmap Inode BlockMap FileData.
Import Vfs.

#[local] Open Scope Z_scope.
#[local] Open Scope rw_scope.

(** ** The on-disk form of an inode *)

Record inode_fits (i : RawINode) : Prop := {
  fit_typ : 0 <= typ i < 2 ^ 32;
  fit_size : is_u64 (isize i);
  fit_nlink : 0 <= inlink i < 2 ^ 32;
  fit_dev : 0 <= idev_no i < 2 ^ 32;
  fit_direct : length (direct_blk_ptrs i) = 12%nat /\ Forall is_u64 (direct_blk_ptrs i);
  fit_indirect : is_u64 (indirect_blk_ptr i);
  fit_double : is_u64 (double_indirect_blk_ptr i)
}.

Lemma encode_inode_length i : length (direct_blk_ptrs i) = 12%nat -> zlen (encode_inode i) = RAW_INODE_SIZE.
Proof.
  destruct i as [a b c d l e f]. cbn [direct_blk_ptrs]. intros Hl. do 12 (destruct l as [|? l]; [done|]). destruct l; [|done].
  unfold encode_inode. cbn [typ isize inlink idev_no direct_blk_ptrs indirect_blk_ptr double_indirect_blk_ptr flat_map].
  repeat rewrite length_app. rewrite !le_encode_length. done.
Qed.

Lemma encode_inode_bytes i : Forall is_byte (encode_inode i).
Proof.
  unfold encode_inode. rewrite !Forall_app. split_and!; try apply le_encode_bytes.
  induction (direct_blk_ptrs i); cbn [flat_map]; [constructor|]. apply Forall_app. split; [apply le_encode_bytes|done].
Qed.

Lemma decode_encode_inode i : inode_fits i -> decode_inode (encode_inode i) = i.
Proof.
  intros [? ? ? ? [Hl Hp] ? ?]. destruct i as [a b c d l e f]. unfold is_u64 in *. simpl in *.
  do 12 (destruct l as [|? l]; [done|]). destruct l; [|done]. rewrite !Forall_cons in Hp.
  unfold decode_inode, encode_inode, sub; simpl.
  f_equal; try (apply (le_decode_encode 4); lia); try (apply (le_decode_encode 8); lia).
  unfold seqZ; simpl. repeat f_equal; apply (le_decode_encode 8); lia.
Qed.

Lemma le_decode_width (n : nat) b off : Forall is_byte b -> 0 <= off -> off + Z.of_nat n <= zlen b ->
  0 <= le_decode (sub off (Z.of_nat n) b) < 256 ^ Z.of_nat n.
Proof.
  intros Hb Ho Hl. pose proof (le_decode_range _ (sub_Forall is_byte off (Z.of_nat n) b Hb)) as Hr.
  by rewrite sub_length in Hr by lia.
Qed.

Lemma decode_inode_fits b : Forall is_byte b -> zlen b = RAW_INODE_SIZE -> inode_fits (decode_inode b).
Proof.
  intros Hb Hl. unfold decode_inode. split; cbn [typ isize inlink idev_no direct_blk_ptrs indirect_blk_ptr double_indirect_blk_ptr];
    try (apply (le_decode_width 4); done || lia); try (apply (le_decode_width 8); done || lia).
  split; [by rewrite length_fmap, length_seqZ|]. apply Forall_fmap, Forall_forall. intros k Hk%elem_of_seqZ.
  apply (le_decode_width 8); [done|simpl; lia..].
Qed.

Section volume.
Context {St : Type} `{BlockStoreLaws St}.
Variable fs : EfsFileSystem.
Hypothesis Hfs : efs_wf fs.
#[local] Notation SM := (M St FsErrorKind).
#[local] Notation FM X := (M (X * St) FsErrorKind).
#[local] Notation region := (region fs).
#[local] Notation in_bitmap := (in_bitmap fs).
#[local] Notation marked := (marked fs).
#[local] Notation zeroed := (zeroed fs).
#[local] Notation inode_ok := (inode_ok fs).
#[local] Notation istep := (istep fs).

(** ** What a file depends on *)

Lemma owns_region s i b : inode_ok s i -> owns s i b -> region b /\ marked s b = true.
Proof. intros Hi (k & d & q & Hv & <- & Hb). by apply (io_used _ _ _ Hi). Qed.

Lemma file_frame s s' i : inode_ok s i ->
  (forall b, owns s i b -> view s' b = view s b /\ marked s' b = true) ->
  inode_ok s' i /\ content s' i = content s i /\ forall b, owns s' i b <-> owns s i b.
Proof.
  intros Hi Hfr. pose proof (io_size _ _ _ Hi) as Hsz. unfold MAX_FILE_SIZE in Hsz.
  assert (Hn : forall k d q, valid k d q -> node (view s') (root i k) d q = node (view s) (root i k) d q).
  { intros k d q (Hk & Hd & Hq). apply node_frame; [done|]. intros d' q' Hd' Hq' Hne. apply Hfr.
    exists k, d', q'. split; [split; [done|split; [lia|done]]|done]. }
  assert (Hp : forall blk, 0 <= blk < MAX_BLOCKS -> blkptr (view s') i blk = blkptr (view s) i blk)
    by (intros; by apply Hn, leaf_valid).
  split; [split|split].
  - apply Hi.
  - apply Hi.
  - intros k d q Hv. rewrite Hn by done. intros Hne. split; [by apply (io_used _ _ _ Hi)|].
    apply Hfr. by exists k, d, q.
  - intros k d q k' d' q' Hv Hv'. rewrite (Hn k d q), (Hn k' d' q') by done. by apply (io_inj _ _ _ Hi).
  - intros blk Hb Hlt. rewrite Hp by lia. by apply (io_mapped _ _ _ Hi).
  - apply list_fmap_ext. intros j o Hj%lookup_seqZ. unfold byte_at. rewrite Hp by lia.
    destruct (Hfr (blkptr (view s) i (o / BLOCK_SIZE))) as [-> _]; [|done].
    eexists _, _, _. split; [apply (leaf_valid (o / BLOCK_SIZE)); lia|]. split; [done|].
    apply (io_mapped _ _ _ Hi); lia.
  - intros b. split; intros (k & d & q & Hv & He & Hb); exists k, d, q; (split; [done|]).
    + by rewrite <- Hn.
    + by rewrite Hn.
Qed.

(** ** The inode region *)

Definition inode_at (s : St) (n : Z) : RawINode :=
  decode_inode (sub (blk_offset (INode_new fs n)) RAW_INODE_SIZE (view s (blk_no (INode_new fs n)))).

(** The abstract file of inode [n]. *)
Definition file (s : St) (n : Z) : list Z := content s (inode_at s n).

Definition in_table_range (n : Z) : Prop := 0 <= n < inode_counts (superblock fs).

Lemma inode_block n : in_table_range n ->
  ~ region (blk_no (INode_new fs n)) /\ ~ in_bitmap (blk_no (INode_new fs n)) /\
  0 <= blk_offset (INode_new fs n) /\ blk_offset (INode_new fs n) + RAW_INODE_SIZE <= BLOCK_SIZE.
Proof.
  unfold in_table_range, inode_counts, INode_new; simpl. intros Hn. destruct Hfs as [_ _ ? _ _].
  unfold BlockMap.region, BlockMap.in_bitmap, ds, data_start_bno, data_bitmap_start_bno. lia.
Qed.

Lemma inode_at_fits s n : store_ok s -> in_table_range n -> inode_fits (inode_at s n).
Proof.
  intros Hs Hn. destruct (inode_block n Hn) as (_ & _ & ? & ?). destruct (view_ok s (blk_no (INode_new fs n)) Hs) as [Hl Hb].
  apply decode_inode_fits; [by apply sub_Forall|]. apply sub_length; lia.
Qed.

Lemma istep_fits s i s' i' : inode_fits i -> istep s i s' i' -> inode_fits i'.
Proof.
  intros Hi Hst. pose proof (is_ok _ _ _ _ _ Hst) as Hok.
  destruct (is_meta _ _ _ _ _ Hst) as (Ht & Hl & Hd); [by split; [|split]; apply Hi|].
  assert (Hr : forall k, 0 <= k < 14 -> is_u64 (root i' k)).
  { intros k Hk. apply (root_u64 fs Hfs s'). destruct (decide (root i' k = 0)) as [|Hne]; [by left|right].
    apply (io_used _ _ _ Hok k O 0); [|done]. split; [done|]. split; [lia|unfold fan; lia]. }
  pose proof (io_direct _ _ _ Hok). pose proof (io_size _ _ _ Hok). split.
  - done.
  - unfold is_u64, MAX_FILE_SIZE in *. lia.
  - done.
  - done.
  - split; [lia|]. apply Forall_lookup. intros j x Hx. pose proof (lookup_lt_Some _ _ _ Hx).
    specialize (Hr (Z.of_nat j) ltac:(lia)). unfold root in Hr. destruct (Z.ltb_spec (Z.of_nat j) 12); [|lia].
    rewrite Nat2Z.id, Hx in Hr. done.
  - apply (Hr 12); lia.
  - apply (Hr 13); lia.
Qed.

(** ** The invariant of a volume with the files [D] *)
Record fs_ok (s : St) (D : gset Z) : Prop := {
  fo_zeroed : zeroed s;
  fo_inode n : n ∈ D -> in_table_range n /\ inode_ok s (inode_at s n);
  fo_disjoint n n' b : n ∈ D -> n' ∈ D -> owns s (inode_at s n) b -> owns s (inode_at s n') b -> n = n'
}.

(** Only file [n] has changed. *)
Record only_file (D : gset Z) (n : Z) (s s' : St) : Prop := {
  of_follows : follows s s';
  of_ok : fs_ok s' D;
  of_inode n' : in_table_range n' -> n' <> n -> inode_at s' n' = inode_at s n';
  of_file n' : n' ∈ D -> n' <> n -> file s' n' = file s n';
  of_low b : b < inode_start_bno (superblock fs) -> view s' b = view s b
}.

Section step.
Variables (D : gset Z) (n : Z) (s s2 : St) (i' : RawINode).
#[local] Notation h := (INode_new fs n).
#[local] Notation i := (inode_at s n).
#[local] Notation s3 := (put_block (blk_no h) (splice (blk_offset h) (encode_inode i') (view s (blk_no h))) s2).
Hypothesis Hs : store_ok s.
Hypothesis Hok : fs_ok s D.
Hypothesis Hn : n ∈ D.
Hypothesis Hst : istep s i s2 i'.

Lemma step_range : in_table_range n.
Proof. by apply (fo_inode _ _ Hok). Qed.

Lemma step_encoded : zlen (encode_inode i') = RAW_INODE_SIZE.
Proof. apply encode_inode_length. eapply istep_fits; [|done]. apply inode_at_fits; [done|apply step_range]. Qed.

Lemma step_block : is_block (splice (blk_offset h) (encode_inode i') (view s (blk_no h))).
Proof.
  destruct (inode_block n step_range) as (_ & _ & ? & ?). destruct (view_ok s (blk_no h) Hs) as [Hl Hb].
  pose proof step_encoded. split; [rewrite splice_length; lia|]. apply splice_Forall; [done|apply encode_inode_bytes].
Qed.

Lemma step_view b : view s3 b =
  if decide (b = blk_no h) then splice (blk_offset h) (encode_inode i') (view s (blk_no h)) else view s2 b.
Proof. apply put_block_spec; [apply Hst|apply step_block]. Qed.

Lemma step_follows : follows s s3.
Proof.
  eapply follows_trans; [apply (is_follows _ _ _ _ _ Hst)|].
  apply put_block_spec; [apply Hst|apply step_block].
Qed.

Lemma step_out b : region b \/ in_bitmap b -> view s3 b = view s2 b.
Proof. intros Hb. rewrite step_view, decide_False; [done|]. destruct (inode_block n step_range) as (? & ? & _). naive_solver. Qed.

Lemma step_marked b : region b -> marked s3 b = marked s2 b.
Proof. intros. apply (marked_frame fs Hfs); [|done]. intros. apply step_out. by right. Qed.

(** The file itself. *)
Lemma step_inode : inode_at s3 n = i'.
Proof.
  unfold inode_at at 1. rewrite step_view, decide_True by done.
  destruct (inode_block n step_range) as (_ & _ & ? & ?). destruct (view_ok s (blk_no h) Hs) as [Hl Hb].
  pose proof step_encoded as He. rewrite <- He at 1. rewrite sub_splice_eq by lia.
  apply decode_encode_inode. eapply istep_fits; [|done]. apply inode_at_fits; [done|apply step_range].
Qed.

Lemma step_file : inode_ok s3 i' /\ content s3 i' = content s2 i' /\ forall b, owns s3 i' b <-> owns s2 i' b.
Proof.
  pose proof (is_ok _ _ _ _ _ Hst) as Hi'. apply file_frame; [done|]. intros b Hb.
  destruct (owns_region _ _ _ Hi' Hb) as [Hr Hm]. rewrite step_out, step_marked by (done || by left). done.
Qed.

(** The other files. *)
Lemma step_other_inode n' : in_table_range n' -> n' <> n -> inode_at s3 n' = inode_at s n'.
Proof.
  intros Hr Hne. unfold inode_at at 1 2. f_equal.
  destruct (inode_block n step_range) as (_ & _ & ? & ?).
  destruct (inode_block n' Hr) as (Hq1 & Hq2 & ? & ?).
  destruct (view_ok s (blk_no h) Hs) as [Hl _]. pose proof step_encoded. pose proof step_range.
  rewrite step_view. case_decide as He.
  - rewrite He. apply sub_splice_ne; [lia|lia|lia|lia|lia|]. unfold INode_new in *; simpl in *. lia.
  - f_equal. apply (is_frame _ _ _ _ _ Hst); [done|]. intros Ho.
    by destruct (owns_region _ _ _ (is_ok _ _ _ _ _ Hst) Ho).
Qed.

Lemma step_other_file n' : n' ∈ D -> n' <> n ->
  inode_ok s3 (inode_at s n') /\ content s3 (inode_at s n') = file s n' /\
  forall b, owns s3 (inode_at s n') b <-> owns s (inode_at s n') b.
Proof.
  intros Hn' Hne. destruct (fo_inode _ _ Hok n' Hn') as [_ Hi]. apply file_frame; [done|]. intros b Hb.
  destruct (owns_region _ _ _ Hi Hb) as [Hr Hm].
  rewrite step_out, step_marked by (done || by left). split; [|by apply (is_keep _ _ _ _ _ Hst)].
  apply (is_frame _ _ _ _ _ Hst); [unfold BlockMap.region, BlockMap.in_bitmap in *; lia|].
  intros Ho. destruct (is_owns _ _ _ _ _ Hst b Ho) as [Ho'|[_ Hfree]]; [|congruence].
  by apply Hne, (fo_disjoint _ _ Hok n' n b).
Qed.

Lemma step_disjoint n' b : n' ∈ D -> n' <> n -> owns s3 i' b -> owns s (inode_at s n') b -> False.
Proof.
  intros Hn' Hne Ho Ho'. apply step_file in Ho. destruct (is_owns _ _ _ _ _ Hst b Ho) as [Hi|[_ Hfree]].
  - by apply Hne, (fo_disjoint _ _ Hok n' n b).
  - destruct (owns_region s (inode_at s n') b) as [_ ?]; [by apply (fo_inode _ _ Hok)|done|congruence].
Qed.

Lemma step_zeroed : zeroed s3.
Proof.
  intros b [Hr Hm]. rewrite step_marked in Hm by done. rewrite step_out by (by left).
  by apply (is_zeroed _ _ _ _ _ Hst).
Qed.

Lemma step_only_file : only_file D n s s3 /\ inode_at s3 n = i' /\ file s3 n = content s2 i'.
Proof.
  split; [|split; [apply step_inode|unfold file; rewrite step_inode; apply step_file]].
  assert (Hin : forall n', n' ∈ D -> in_table_range n') by (intros; by apply (fo_inode _ _ Hok)).
  split; [apply step_follows|split| | |].
  - apply step_zeroed.
  - intros n' Hn'. split; [by apply Hin|]. destruct (decide (n' = n)) as [->|Hne].
    + rewrite step_inode. apply step_file.
    + rewrite step_other_inode by auto. by apply step_other_file.
  - intros n1 n2 b Hn1 Hn2. destruct (decide (n1 = n)) as [->|H1], (decide (n2 = n)) as [->|H2].
    + done.
    + rewrite step_inode, step_other_inode by auto. intros Ho1 Ho2. apply step_other_file in Ho2; [|done..].
      exfalso. by eapply (step_disjoint n2 b).
    + rewrite step_inode, step_other_inode by auto. intros Ho1 Ho2. apply step_other_file in Ho1; [|done..].
      exfalso. by eapply (step_disjoint n1 b).
    + rewrite !step_other_inode by auto. intros Ho1 Ho2. apply step_other_file in Ho1, Ho2; [|done..].
      by eapply (fo_disjoint _ _ Hok).
  - apply step_other_inode.
  - intros n' Hn' Hne. unfold file at 1. rewrite step_other_inode by auto. by apply step_other_file.
  - intros b Hb. pose proof step_range as Hr. destruct Hfs as [_ _ ? _ _].
    rewrite step_view, decide_False by (unfold INode_new, in_table_range in *; simpl; lia).
    apply (is_frame _ _ _ _ _ Hst).
    + unfold BlockMap.in_bitmap, data_bitmap_start_bno. lia.
    + intros Ho. destruct (owns_region _ _ _ (is_ok _ _ _ _ _ Hst) Ho) as [Hreg _].
      unfold BlockMap.region, ds, data_start_bno, data_bitmap_start_bno in Hreg. lia.
Qed.

End step.

(** ** Operations through a handle *)

Lemma same_inode_at s s' n : same_view s s' -> inode_at s' n = inode_at s n.
Proof. intros Hv. unfold inode_at. by rewrite Hv. Qed.

(** The volume from the inode table on is unchanged. *)
Definition outer (s s' : St) : Prop := forall b, inode_start_bno (superblock fs) <= b -> view s' b = view s b.

Lemma outer_inode_at s s' n : outer s s' -> 0 <= n -> inode_at s' n = inode_at s n.
Proof. intros Ho Hn. unfold inode_at. rewrite Ho; [done|]. simpl. lia. Qed.

Lemma outer_region s s' b : outer s s' -> region b \/ in_bitmap b -> view s' b = view s b.
Proof.
  intros Ho Hb. apply Ho. destruct Hfs as [_ _ ? _ _].
  unfold BlockMap.region, BlockMap.in_bitmap, ds, data_start_bno, data_bitmap_start_bno in Hb. lia.
Qed.

Lemma outer_marked s s' b : outer s s' -> region b -> marked s' b = marked s b.
Proof. intros Ho Hb. apply (marked_frame fs Hfs); [|done]. intros b' Hb'. apply outer_region; [done|by right]. Qed.

Lemma fs_ok_outer D s s' : fs_ok s D -> outer s s' ->
  fs_ok s' D /\ forall n', n' ∈ D -> inode_at s' n' = inode_at s n' /\ file s' n' = file s n'.
Proof.
  intros Hok Hv.
  assert (Hat : forall n', n' ∈ D -> inode_at s' n' = inode_at s n').
  { intros n' Hn'. apply outer_inode_at; [done|]. by destruct (fo_inode _ _ Hok n' Hn') as [[? _] _]. }
  assert (Hfr : forall n', n' ∈ D -> inode_ok s' (inode_at s n') /\ content s' (inode_at s n') = file s n' /\
    forall b, owns s' (inode_at s n') b <-> owns s (inode_at s n') b).
  { intros n' Hn'. destruct (fo_inode _ _ Hok n' Hn') as [_ Hi]. apply file_frame; [done|].
    intros b Hb. destruct (owns_region _ _ _ Hi Hb) as [Hr Hm].
    rewrite (outer_marked s s') by done. split; [|done]. apply outer_region; [done|by left]. }
  assert (Hfile : forall n', n' ∈ D -> file s' n' = file s n').
  { intros n' Hn'. unfold file at 1. rewrite Hat by done. by apply Hfr. }
  split; [split|].
  - intros b [Hr Hm]. rewrite (outer_marked s s') in Hm by done.
    rewrite (outer_region s s') by (done || by left). by apply (fo_zeroed _ _ Hok).
  - intros n' Hn'. rewrite Hat by done. split; [by apply (fo_inode _ _ Hok)|by apply Hfr].
  - intros n1 n2 b Hn1 Hn2. rewrite !Hat by done. intros Ho1 Ho2.
    apply Hfr in Ho1, Ho2; [|done..]. by eapply (fo_disjoint _ _ Hok).
  - intros n' Hn'. split; [by apply Hat|by apply Hfile].
Qed.

Lemma same_outer s s' : same_view s s' -> outer s s'.
Proof. intros Hv b _. symmetry. apply Hv. Qed.

Lemma only_file_same D n s s' : fs_ok s D -> follows s s' -> same_view s s' ->
  only_file D n s s' /\ forall n', n' ∈ D -> file s' n' = file s n'.
Proof.
  intros Hok Hf Hv. destruct (fs_ok_outer D s s' Hok (same_outer _ _ Hv)) as [Hok' Hfile].
  split; [split; try done|by apply Hfile].
  - intros n' _ _. by apply same_inode_at.
  - intros n' Hn' _. by apply Hfile.
Qed.

(** A step after one that left the content alone, or after another step. *)
Lemma only_file_trans D n s1 s2 s3 : only_file D n s1 s2 -> only_file D n s2 s3 -> only_file D n s1 s3.
Proof.
  intros [F1 K1 I1 C1 L1] [F2 K2 I2 C2 L2]. split; [by eapply follows_trans|done|..].
  - intros n' Hr Hne. by rewrite I2, I1.
  - intros n' Hn' Hne. by rewrite C2, C1.
  - intros b Hb. by rewrite L2, L1.
Qed.

Lemma read_raw_inode_spec n s : store_ok s -> in_table_range n ->
  wp (read_raw_inode (INode_new fs n)) (fun i s' => i = inode_at s n /\ follows s s' /\ same_view s s') (io_fail s) s.
Proof.
  intros Hs Hn. destruct (inode_block n Hn) as (_ & _ & ? & ?). unfold read_raw_inode. apply wp_bind.
  eapply wp_mono; [by apply load_spec| |done]. intros blk s' (-> & Hf & Hv).
  apply wp_bind, wp_assert; [by apply Z.leb_le|]. by apply wp_ret.
Qed.

(** Running [m] on inode [n]: [m] is given the inode, and what it leaves is
    stored; a failure of the device before that leaves everything alone. *)
Lemma write_raw_inode_spec {T} (m : FM RawINode T) D n s 
    (Q : T -> RawINode -> list Z -> Prop) (R : FsErrorKind -> St -> RawINode -> list Z -> Prop) :
  store_ok s -> fs_ok s D -> n ∈ D ->
  (forall e s1 s2 i c, (forall b, region b -> marked s2 b = marked s1 b) -> R e s1 i c -> R e s2 i c) ->
  (forall s1, follows s s1 -> same_view s s1 ->
     wp m (fun a st => istep s (inode_at s n) st.2 st.1 /\ Q a st.1 (content st.2 st.1))
          (fun e st => istep s (inode_at s n) st.2 st.1 /\ R e st.2 st.1 (content st.2 st.1)) (inode_at s n, s1)) ->
  wp (write_raw_inode_with (INode_new fs n) m)
     (fun a s' => only_file D n s s' /\ Q a (inode_at s' n) (file s' n))
     (fun e s' => only_file D n s s' /\ (R e s' (inode_at s' n) (file s' n) \/
        io_error e /\ ~ healthy s /\ inode_at s' n = inode_at s n /\ file s' n = file s n)) s.
Proof.
  intros Hs Hok Hn Hmono Hm. destruct (fo_inode _ _ Hok n Hn) as [Hr _].
  destruct (inode_block n Hr) as (_ & _ & ? & ?). unfold write_raw_inode_with. apply wp_bind.
  eapply wp_mono; [by apply load_spec| |].
  2:{ intros e s' (He & Hf & Hv & Hh). destruct (only_file_same D n s s' Hok Hf Hv) as [Ho Hfile].
      split; [done|]. right. rewrite Hfile, (same_inode_at s) by done. done. }
  intros blk s1 (-> & Hf & Hv). apply wp_bind, wp_assert; [by apply Z.leb_le|].
  specialize (Hm s1 Hf Hv). unfold wp in *. fold (inode_at s n).
  destruct (m (inode_at s n, s1)) as [[a|e|] [i' s2]]; [| |done]; destruct Hm as [Hst HQ];
    destruct (step_only_file D n s s2 i' Hs Hok Hn Hst) as (Ho & Hino & Hfile); (split; [done|]); rewrite Hfile, Hino.
  - done.
  - left. eapply Hmono; [|done]. intros b Hb. by eapply step_marked.
Qed.

Definition has_data (i : RawINode) : bool :=
  match file_type i with File | Symlink | Directory => true | Unknown | Device => false end.

Lemma raw_write_spec D n s offset src :
  store_ok s -> fs_ok s D -> n ∈ D -> has_data (inode_at s n) = true -> Forall is_byte src ->
  0 <= offset <= zlen (file s n) ->
  wp (raw_write fs (INode_new fs n) offset src)
     (fun r s' => only_file D n s s' /\ same_meta (inode_at s n) (inode_at s' n) /\
        r = Z.min (zlen src) (MAX_FILE_SIZE - offset) /\ file s' n = splice offset (take (Z.to_nat r) src) (file s n))
     (fun e s' => only_file D n s s' /\ same_meta (inode_at s n) (inode_at s' n) /\ alloc_err fs s e s' /\
        exists m, 0 <= m <= zlen src /\ file s' n = splice offset (take (Z.to_nat m) src) (file s n)) s.
Proof.
  intros Hs Hok Hn Hd Hsrc Ho. destruct (fo_inode _ _ Hok n Hn) as [Hr Hi]. pose proof (io_size _ _ _ Hi) as Hsz.
  unfold file in Ho. rewrite content_length in Ho by lia.
  eapply wp_mono; [apply (write_raw_inode_spec (RawINode_write fs offset src) D n s
    (fun r i c => same_meta (inode_at s n) i /\
       r = Z.min (zlen src) (MAX_FILE_SIZE - offset) /\ c = splice offset (take (Z.to_nat r) src) (file s n))
    (fun e s' i c => same_meta (inode_at s n) i /\ alloc_err fs s e s' /\
       exists m, 0 <= m <= zlen src /\ c = splice offset (take (Z.to_nat m) src) (file s n)));
    [done|done|done|..]| |].
  - intros e s1 s2 i c Hm (? & He & Hex). split; [done|]. split; [|done]. by eapply alloc_err_to.
  - intros s1 Hf Hv. unfold RawINode_write. apply wp_bind. unfold wp at 1, get_focus.
    destruct (Z.ltb_spec (isize (inode_at s n)) offset); [lia|].
    assert (Hst : istep s (inode_at s n) s1 (inode_at s n)) by (apply istep_same; [done..|apply Hok]).
    assert (Hc : content s1 (inode_at s n) = file s n) by (by apply (content_same fs s s1)).
    unfold has_data in Hd. destruct (file_type (inode_at s n)); try done;
      (eapply wp_mono;
        [apply (write_loop_spec fs Hfs (length src) offset src 0 s1); [done|apply Hf|apply Hst|apply Hst|done|done]
        |intros r st [-> (? & ? & ? & ->)]; rewrite Z.add_0_l, Z.sub_0_r, Hc; split; [by eapply istep_trans|done]
        |intros e st [He (m & ? & ? & ? & ->)]; rewrite Hc; split; [by eapply istep_trans|];
         split; [done|]; split; [by eapply alloc_err_from|eauto]]).
  - done.
  - intros e s' [Hof [Hx|(Hio & Hh & Hino & Hfile)]]; [done|]. split; [done|]. rewrite Hino. split; [done|].
    split; [by right|]. exists 0. split; [lia|].
    change (take (Z.to_nat 0) src) with (@nil Z). rewrite splice_nil; [done|]. unfold file. rewrite content_length; lia.
Qed.

Lemma raw_read_spec D n s offset dst :
  store_ok s -> fs_ok s D -> n ∈ D -> has_data (inode_at s n) = true -> 0 <= offset <= zlen (file s n) -> 0 <= dst ->
  wp (raw_read (INode_new fs n) offset dst)
     (fun r s' => r = sub offset (Z.min dst (zlen (file s n) - offset)) (file s n) /\ follows s s' /\ same_view s s')
     (io_fail s) s.
Proof.
  intros Hs Hok Hn Hd Ho Hdst. destruct (fo_inode _ _ Hok n Hn) as [Hr Hi]. pose proof (io_size _ _ _ Hi) as Hsz.
  unfold file in *. rewrite content_length in * by lia. unfold raw_read. apply wp_bind.
  eapply wp_mono; [by apply read_raw_inode_spec| |done]. intros i s1 (-> & Hf & Hv).
  unfold RawINode_read. destruct (Z.ltb_spec (isize (inode_at s n)) offset); [lia|].
  unfold has_data in Hd. destruct (file_type (inode_at s n)); try done;
    (eapply wp_mono;
      [apply (read_loop_spec fs); [done|done|apply Hf|by apply (inode_ok_same fs s)|lia|cbn [length]; lia|cbn [length]; lia]
      |intros r s' (-> & Hf' & Hv'); rewrite (content_same fs s s1) by done; simpl; rewrite Z.sub_0_r;
       split; [done|split; [by eapply follows_trans|by rewrite Hv]]
      |intros e s'; by apply io_fail_from]).
Qed.

(** A volume whose files are empty. *)
Lemma fs_ok_empty s D : zeroed s ->
  (forall n, n ∈ D -> in_table_range n /\ isize (inode_at s n) = 0 /\ forall k, 0 <= k < 14 -> root (inode_at s n) k = 0) ->
  fs_ok s D.
Proof.
  intros Hz HD.
  assert (Hno : forall n k d q, n ∈ D -> valid k d q -> node (view s) (root (inode_at s n) k) d q = 0).
  { intros n k d q Hn (Hk & _ & _). destruct (HD n Hn) as (_ & _ & Hz0). rewrite Hz0 by done. apply node_zero. }
  split; [done| |].
  - intros n Hn. destruct (HD n Hn) as (Hr & Hs0 & _). split; [done|]. split.
    + done.
    + unfold MAX_FILE_SIZE. lia.
    + intros k d q Hv. by rewrite Hno.
    + intros k d q k' d' q' Hv Hv'. by rewrite (Hno n k d q).
    + lia.
  - intros n n' b Hn Hn' (k & d & q & Hv & He & Hb). rewrite Hno in He by done. congruence.
Qed.

End volume.

(** ** The properties *)

(** C2. Reading a file through its inode handle returns the bytes of the
    abstract file from [offset] on, as many as the destination and the file
    have; it changes nothing, and fails only when the device or the allocator
    of buffers does. *)
Theorem raw_read_refines {St : Type} `{BlockStoreLaws St} (fs : EfsFileSystem) (D : gset Z) (n : Z) (s : St) (offset dst : Z) :
  efs_wf fs -> store_ok s -> fs_ok fs s D -> n ∈ D -> has_data (inode_at fs s n) = true ->
  0 <= offset <= zlen (file fs s n) -> 0 <= dst ->
  wp (raw_read (INode_new fs n) offset dst)
     (fun r s' => r = sub offset (Z.min dst (zlen (file fs s n) - offset)) (file fs s n) /\ follows s s' /\ same_view s s')
     (io_fail s) s.
Proof. intros Hfs. by apply raw_read_spec. Qed.

(** C1. Writing to a file through its inode handle replaces the bytes of the
    abstract file from [offset] on, extending it where needed, up to the
    maximal file size.  When it fails a prefix has been written, and the reason
    is that no data block is left or that the device or the allocator of
    buffers failed.  In both cases the other files keep their inodes and their
    bytes, and the files of the volume stay well formed and disjoint. *)
Theorem raw_write_refines {St : Type} `{BlockStoreLaws St} (fs : EfsFileSystem) (D : gset Z) (n : Z) (s : St)
    (offset : Z) (src : list Z) :
  efs_wf fs -> store_ok s -> fs_ok fs s D -> n ∈ D -> has_data (inode_at fs s n) = true -> Forall is_byte src ->
  0 <= offset <= zlen (file fs s n) ->
  wp (raw_write fs (INode_new fs n) offset src)
     (fun r s' => only_file fs D n s s' /\ same_meta (inode_at fs s n) (inode_at fs s' n) /\
        r = Z.min (zlen src) (MAX_FILE_SIZE - offset) /\
        file fs s' n = splice offset (take (Z.to_nat r) src) (file fs s n))
     (fun e s' => only_file fs D n s s' /\ same_meta (inode_at fs s n) (inode_at fs s' n) /\ alloc_err fs s e s' /\
        exists m, 0 <= m <= zlen src /\ file fs s' n = splice offset (take (Z.to_nat m) src) (file fs s n)) s.
Proof. intros Hfs. by apply raw_write_spec. Qed.

(** ** A volume *)

Definition demo_sb : RawSuperBlock := mkSuperBlock EFS_SB_MAGIC (4096 * 105) 1 1 1 100.
Definition demo_fs : EfsFileSystem :=
  mkEfs demo_sb (BitmapBlocks_new (inode_bitmap_start_bno demo_sb) (inode_counts demo_sb))
    (BitmapBlocks_new (data_bitmap_start_bno demo_sb) (data_blocks demo_sb)).

(** Two files, inodes 1 and 2, both empty. *)
Definition demo_inode : RawINode := mkRawINode (FileType_into File) 0 1 0 (replicate 12 0) 0 0.
Definition demo_block : list Z :=
  splice (2 * RAW_INODE_SIZE) (encode_inode demo_inode) (splice RAW_INODE_SIZE (encode_inode demo_inode) zero_block).
Definition demo_store : RamStore := put_block 3 demo_block ram_store.
Definition demo_files : gset Z := {[1; 2]}.

Lemma demo_fs_wf : efs_wf demo_fs.
Proof. split; vm_compute; intuition congruence. Qed.

Lemma demo_block_ok : is_block demo_block.
Proof.
  split; [by vm_compute|]. repeat apply splice_Forall; try apply encode_inode_bytes. apply zero_block_ok.
Qed.

Lemma demo_view b : view demo_store b = if decide (b = 3) then demo_block else zero_block.
Proof.
  unfold demo_store. destruct (put_block_spec ram_store 3 demo_block) as [_ ->]; [apply ram_store_ok|apply demo_block_ok|].
  by case_decide.
Qed.

Lemma demo_store_ok : store_ok demo_store /\ healthy demo_store.
Proof.
  destruct (put_block_spec ram_store 3 demo_block) as [[? Hh] _]; [apply ram_store_ok|apply demo_block_ok|].
  split; [done|]. apply Hh, ram_store_ok.
Qed.

Lemma demo_inode_at n : n ∈ demo_files -> inode_at demo_fs demo_store n = demo_inode.
Proof.
  unfold demo_files. intros [->%elem_of_singleton| ->%elem_of_singleton]%elem_of_union;
    unfold inode_at; rewrite demo_view; by vm_compute.
Qed.

Lemma demo_fs_ok : fs_ok demo_fs demo_store demo_files.
Proof.
  apply fs_ok_empty.
  - intros b [Hb _]. rewrite demo_view, decide_False; [done|]. intros ->. vm_compute in Hb. intuition congruence.
  - intros n Hn. rewrite demo_inode_at by done. split; [|split; [done|]].
    + unfold in_table_range, demo_files in *. change (inode_counts (superblock demo_fs)) with 31.
      apply elem_of_union in Hn as [->%elem_of_singleton| ->%elem_of_singleton]; lia.
    + intros k Hk. unfold root. case_match; [|by case_match]. cbn [demo_inode direct_blk_ptrs].
      apply Z.ltb_lt in H. by rewrite (lookup_replicate_2 12) by lia.
Qed.

Lemma raw_read_refines_witness :
  wp (raw_read (INode_new demo_fs 1) 0 10)
     (fun r s' => r = [] /\ follows demo_store s' /\ same_view demo_store s') (io_fail demo_store) demo_store.
Proof.
  assert (Hf : file demo_fs demo_store 1 = []) by (unfold file; by rewrite demo_inode_at by (unfold demo_files; set_solver)).
  assert (Hn : 1 ∈ demo_files) by (unfold demo_files; set_solver).
  pose proof (raw_read_refines demo_fs demo_files 1 demo_store 0 10 demo_fs_wf (proj1 demo_store_ok) demo_fs_ok
    Hn) as Hr. rewrite Hf, demo_inode_at in Hr by done. apply Hr; [done|simpl; lia|lia].
Defined.

Lemma raw_write_refines_witness :
  wp (raw_write demo_fs (INode_new demo_fs 2) 0 (bytes_of "hello"))
     (fun r s' => only_file demo_fs demo_files 2 demo_store s' /\
        same_meta demo_inode (inode_at demo_fs s' 2) /\ r = 5 /\ file demo_fs s' 2 = bytes_of "hello")
     (fun e s' => only_file demo_fs demo_files 2 demo_store s' /\
        same_meta demo_inode (inode_at demo_fs s' 2) /\ alloc_err demo_fs demo_store e s' /\
        exists m, 0 <= m <= 5 /\ file demo_fs s' 2 = splice 0 (take (Z.to_nat m) (bytes_of "hello")) []) demo_store.
Proof.
  assert (Hf : file demo_fs demo_store 2 = []) by (unfold file; by rewrite demo_inode_at by (unfold demo_files; set_solver)).
  assert (Hn : 2 ∈ demo_files) by (unfold demo_files; set_solver).
  pose proof (raw_write_refines demo_fs demo_files 2 demo_store 0 (bytes_of "hello") demo_fs_wf (proj1 demo_store_ok)
    demo_fs_ok Hn) as Hw. rewrite Hf, demo_inode_at in Hw by done. apply Hw.
  - done.
  - simpl. repeat constructor; lia.
  - simpl. lia.
Defined.
