(* ===== verification/DirSpec.v ===== *)
(** * Directories as maps from names to inodes

    The abstract directory is the list of its entries, read off the bytes of
    its file; looking a name up finds the first used entry of that name.  This
    file shows that the loops of src/fs/redwing_efs/src/inode.rs over the
    entries of a directory compute on the abstract directory, and that adding
    an entry is an insertion into the map from names to inodes. *)

From S2P Require Import Prelude Bytes Vfs Store Superblock Bitmap Inode Dir BlockMap FileData EfsFiles.
Import Vfs.

#[local] Open Scope Z_scope.
#[local] Open Scope rw_scope.

(** ** The entries of a directory *)

Definition entry (c : list Z) (k : Z) : RawDirent := decode_dirent (sub (RAW_DIRENT_SIZE * k) RAW_DIRENT_SIZE c).
Definition nents (c : list Z) : Z := zlen c / RAW_DIRENT_SIZE.
Definition entries_from (c : list Z) (k : Z) : list RawDirent := entry c <$> seqZ k (nents c - k).
Notation entries c := (entries_from c 0).

Record dir_ok (c : list Z) : Prop := {
  do_len : zlen c mod RAW_DIRENT_SIZE = 0;
  do_entry k : 0 <= k < nents c -> d_name_len (entry c k) <= EFS_NAME_LEN
}.

Lemma entries_end c k : nents c <= k -> entries_from c k = [].
Proof. intros. unfold entries_from, seqZ. by replace (Z.to_nat (nents c - k)) with O by lia. Qed.

Lemma entries_step c k : k < nents c -> entries_from c k = entry c k :: entries_from c (k + 1).
Proof.
  intros. unfold entries_from. rewrite seqZ_cons by lia. cbn. unfold Z.succ, Z.pred.
  by replace (nents c - k + -1) with (nents c - (k + 1)) by lia.
Qed.

(** A used entry with the name [name]. *)
Definition matches (name : list Z) (d : RawDirent) : bool := negb (is_unused d) && bool_decide (name = dirent_name d).

Fixpoint find_entry (name : list Z) (l : list RawDirent) : option RawDirent :=
  match l with
  | [] => None
  | d :: l' => if matches name d then Some d else find_entry name l'
  end.

(** The directory as a map. *)
Definition dir_map (c : list Z) (name : list Z) : option Z := d_inode_no <$> find_entry name (entries c).

(** The slot [add_entry] takes: the last free one, or the end. *)
Fixpoint last_free (l : list RawDirent) (k : Z) (empty : option Z) : option Z :=
  match l with
  | [] => empty
  | d :: l' => last_free l' (k + 1) (if is_unused d then Some k else empty)
  end.
Definition free_slot (c : list Z) : Z := default (nents c) (last_free (entries c) 0 None).

(** [add_entry] refuses when a used entry has the whole name array as its name. *)
Definition refuses (d : RawDirent) (l : list RawDirent) : bool :=
  existsb (fun e => negb (is_unused e) && bool_decide (d_name d = dirent_name e)) l.

Definition dirent_fits (d : RawDirent) : Prop :=
  is_u64 (d_inode_no d) /\ 0 <= d_typ d < 2 ^ 32 /\ 0 <= d_name_len d < 2 ^ 32 /\ zlen (d_name d) = EFS_NAME_LEN /\
  Forall is_byte (d_name d).

Lemma encode_dirent_length d : zlen (d_name d) = EFS_NAME_LEN -> zlen (encode_dirent d) = RAW_DIRENT_SIZE.
Proof. intros Hl. unfold encode_dirent. rewrite !length_app, !le_encode_length. lia. Qed.

Lemma encode_dirent_bytes d : Forall is_byte (d_name d) -> Forall is_byte (encode_dirent d).
Proof. intros. unfold encode_dirent. rewrite !Forall_app. auto using le_encode_bytes. Qed.

Lemma sub_app_skip (a b : list Z) off len : zlen a <= off -> sub off len (a ++ b) = sub (off - zlen a) len b.
Proof. intros. unfold sub. rewrite drop_app_ge by lia. do 2 f_equal. lia. Qed.

Lemma sub_app_first (a b : list Z) len : len = zlen a -> sub 0 len (a ++ b) = a.
Proof. intros ->. unfold sub. rewrite drop_0, Nat2Z.id. apply take_app_length. Qed.

Lemma decode_encode_dirent d : dirent_fits d -> decode_dirent (encode_dirent d) = d.
Proof.
  intros (Hi & Ht & Hn & Hl & _). unfold is_u64 in Hi. destruct d as [i t n name]. simpl in *.
  unfold decode_dirent, encode_dirent. cbn [d_inode_no d_typ d_name_len d_name]. f_equal.
  - rewrite sub_app_first by (by rewrite le_encode_length). by apply (le_decode_encode 8).
  - rewrite sub_app_skip by (rewrite le_encode_length; lia). rewrite le_encode_length.
    rewrite sub_app_first by (by rewrite le_encode_length). by apply (le_decode_encode 4).
  - do 2 (rewrite sub_app_skip by (rewrite !le_encode_length; lia)). rewrite !le_encode_length.
    rewrite sub_app_first by (by rewrite le_encode_length). by apply (le_decode_encode 4).
  - do 3 (rewrite sub_app_skip by (rewrite !le_encode_length; lia)). rewrite !le_encode_length.
    unfold sub. cbn. apply take_ge. lia.
Qed.

(** ** Storing an entry *)

Section store_entry.
Variables (c : list Z) (p : Z) (d : RawDirent).
Hypothesis Hc : dir_ok c.
Hypothesis Hp : 0 <= p <= nents c.
Hypothesis Hd : dirent_fits d.
#[local] Notation c' := (splice (RAW_DIRENT_SIZE * p) (encode_dirent d) c).

Lemma store_len : zlen c = RAW_DIRENT_SIZE * nents c /\ zlen (encode_dirent d) = RAW_DIRENT_SIZE.
Proof. destruct Hc as [Hl _]. destruct Hd as (_ & _ & _ & ? & _). rewrite encode_dirent_length by done. unfold nents. lia. Qed.

Lemma store_nents : nents c' = Z.max (nents c) (p + 1).
Proof. destruct store_len as [Hl He]. unfold nents at 1. rewrite splice_zlen, He by lia. unfold nents in *. lia. Qed.

Lemma store_entry_at k : 0 <= k < nents c' -> entry c' k = if decide (k = p) then d else entry c k.
Proof.
  destruct store_len as [Hl He]. rewrite store_nents. intros Hk. unfold entry. case_decide as Hkp.
  - subst k. assert (Hs : sub (80 * p) 80 c' = encode_dirent d); [|rewrite Hs; by apply decode_encode_dirent].
    apply list_eq_Z.
    { apply Nat2Z.inj. rewrite sub_length; [lia|lia|lia|]. rewrite splice_zlen by lia. lia. }
    intros i. rewrite sub_length by (rewrite ?splice_zlen; lia). intros Hi. rewrite lookup_sub by lia.
    rewrite lookup_splice, decide_True by lia. f_equal. lia.
  - f_equal. assert (k < nents c) by lia. apply list_eq_Z.
    { apply Nat2Z.inj. rewrite !sub_length; rewrite ?splice_zlen; lia. }
    intros i. rewrite sub_length by (rewrite ?splice_zlen; lia). intros Hi. rewrite !lookup_sub by lia.
    by rewrite lookup_splice, decide_False by lia.
Qed.

Lemma store_dir_ok : d_name_len d <= EFS_NAME_LEN -> dir_ok c'.
Proof.
  intros Hn. destruct store_len as [Hl He]. split.
  - rewrite splice_zlen by lia. lia.
  - intros k Hk. rewrite store_entry_at by done. case_decide; [done|]. apply Hc. rewrite store_nents in Hk. lia.
Qed.

End store_entry.

Lemma find_entry_some name l d : find_entry name l = Some d -> matches name d = true.
Proof. induction l as [|e l IH]; [done|]. cbn [find_entry]. destruct (matches name e) eqn:Hm; [by intros [= <-]|done]. Qed.

Lemma find_entry_none name c k : 0 <= k ->
  find_entry name (entries_from c k) = None <-> (forall j, k <= j < nents c -> matches name (entry c j) = false).
Proof.
  intros Hk. remember (Z.to_nat (nents c - k)) as n eqn:Hn. revert k Hk Hn.
  induction n as [|n IH]; intros k Hk Hn.
  - rewrite entries_end by lia. split; [intros _ j ?; lia|done].
  - rewrite entries_step by lia. cbn [find_entry]. destruct (matches name (entry c k)) eqn:Hm.
    + split; [done|]. intros Hall. rewrite Hall in Hm by lia. done.
    + rewrite (IH (k + 1)) by lia. split.
      * intros Hall j Hj. destruct (decide (j = k)) as [->|]; [done|]. apply Hall. lia.
      * intros Hall j Hj. apply Hall. lia.
Qed.

Lemma last_free_range c k e : 0 <= k -> (forall j, e = Some j -> 0 <= j < nents c) ->
  forall j, last_free (entries_from c k) k e = Some j -> 0 <= j < nents c.
Proof.
  intros Hk He. remember (Z.to_nat (nents c - k)) as n eqn:Hn. revert k e Hk He Hn.
  induction n as [|n IH]; intros k e Hk He Hn j.
  - rewrite entries_end by lia. apply He.
  - rewrite entries_step by lia. cbn [last_free]. apply IH; [lia| |lia].
    intros j'. destruct (is_unused (entry c k)); [|apply He]. intros [= <-]. lia.
Qed.

Lemma last_free_spec c k e : 0 <= k -> (forall j, e = Some j -> 0 <= j < nents c /\ is_unused (entry c j) = true) ->
  forall j, last_free (entries_from c k) k e = Some j -> 0 <= j < nents c /\ is_unused (entry c j) = true.
Proof.
  intros Hk He. remember (Z.to_nat (nents c - k)) as n eqn:Hn. revert k e Hk He Hn.
  induction n as [|n IH]; intros k e Hk He Hn j.
  - rewrite entries_end by lia. apply He.
  - rewrite entries_step by lia. cbn [last_free]. apply IH; [lia| |lia].
    intros j'. destruct (is_unused (entry c k)) eqn:Hu; [|apply He]. intros [= <-]. split; [lia|done].
Qed.

Lemma free_slot_spec c : 0 <= free_slot c <= nents c /\
  (free_slot c < nents c -> is_unused (entry c (free_slot c)) = true).
Proof.
  unfold free_slot. destruct (last_free (entries c) 0 None) as [j|] eqn:Hl; simpl.
  - destruct (last_free_spec c 0 None ltac:(lia) ltac:(done) j Hl). split; [lia|done].
  - unfold nents. lia.
Qed.

(** Storing a used entry in a free slot inserts it into the map. *)
Lemma store_map c p d name : dir_ok c -> 0 <= p <= nents c -> dirent_fits d ->
  (p < nents c -> is_unused (entry c p) = true) -> is_unused d = false -> dir_map c (dirent_name d) = None ->
  dir_map (splice (RAW_DIRENT_SIZE * p) (encode_dirent d) c) name =
  if decide (name = dirent_name d) then Some (d_inode_no d) else dir_map c name.
Proof.
  intros Hc Hp Hd Hfree Hu Hno. unfold dir_map in *. apply fmap_None in Hno.
  rewrite find_entry_none in Hno by lia. set (c' := splice _ _ c).
  assert (Hgen : forall m k, 0 <= k -> m = Z.to_nat (nents c' - k) ->
    find_entry name (entries_from c' k) =
    if decide (name = dirent_name d /\ k <= p) then Some d else find_entry name (entries_from c k)).
  { pose proof (store_nents c p d Hc Hp Hd) as Hn. fold c' in Hn.
    induction m as [|m IH]; intros k Hk Hm.
    { rewrite !entries_end by lia. by rewrite decide_False by lia. }
    rewrite entries_step by lia. cbn [find_entry].
    rewrite (store_entry_at c p d Hc Hp Hd) by (fold c'; lia). rewrite (IH (k + 1)) by lia.
    destruct (decide (k = p)) as [->|Hkp].
    - unfold matches. rewrite Hu. cbn [negb andb]. case_bool_decide as Hname.
      + by rewrite (decide_True (P:=name = dirent_name d /\ p <= p)) by (split; [done|lia]).
      + rewrite !decide_False by tauto. destruct (decide (p < nents c)) as [Hlt|Hge].
        * rewrite (entries_step c p) by done. cbn [find_entry]. unfold matches. by rewrite Hfree.
        * by rewrite !entries_end by lia.
    - assert (Hk' : k < nents c) by lia. rewrite (entries_step c k) by done. cbn [find_entry].
      destruct (matches name (entry c k)) eqn:Hma.
      + rewrite decide_False; [done|]. intros [-> _]. rewrite Hno in Hma by lia. done.
      + repeat case_decide; try done; exfalso; intuition lia. }
  rewrite (Hgen (Z.to_nat (nents c' - 0)) 0) by lia. repeat case_decide; try done; exfalso; intuition lia.
Qed.

Section directory.
Context {St : Type} `{BlockStoreLaws St}.
Variable fs : EfsFileSystem.
Hypothesis Hfs : efs_wf fs.
#[local] Notation SM := (M St FsErrorKind).

(** Inode [n] is a directory with the bytes [c]. *)
Record dir_at (s : St) (D : gset Z) (n : Z) (c : list Z) : Prop := {
  da_store : store_ok s;
  da_fs : fs_ok fs s D;
  da_in : n ∈ D;
  da_type : file_type (inode_at fs s n) = Directory;
  da_file : file fs s n = c;
  da_ok : dir_ok c
}.

Lemma dir_at_same s s' D n c : follows s s' -> same_view s s' -> dir_at s D n c -> dir_at s' D n c.
Proof.
  intros Hf Hv [Hs Hok Hn Ht Hc Hd]. destruct (only_file_same fs Hfs D n s s' Hok Hf Hv) as [[_ Hok' _ _ _] Hfile].
  split; try done; [apply Hf| |].
  - by rewrite (same_inode_at fs s).
  - by rewrite Hfile.
Qed.

Lemma dir_at_size s D n c : dir_at s D n c -> isize (inode_at fs s n) = zlen c /\ in_table_range fs n.
Proof.
  intros Hd. destruct (fo_inode _ _ _ (da_fs _ _ _ _ Hd) n (da_in _ _ _ _ Hd)) as [Hr Hi]. split; [|done].
  rewrite <- (da_file _ _ _ _ Hd). unfold file. rewrite content_length; [done|apply Hi].
Qed.

Lemma dir_at_len s D n c : dir_at s D n c -> zlen c = RAW_DIRENT_SIZE * nents c.
Proof. intros Hd. destruct (da_ok _ _ _ _ Hd) as [Hl _]. unfold nents. lia. Qed.

Lemma read_from_spec s D n c k : dir_at s D n c -> 0 <= k <= nents c ->
  wp (read_from (INode_new fs n) (RAW_DIRENT_SIZE * k))
     (fun r s' => r = (if decide (k < nents c) then Some (entry c k) else None) /\ follows s s' /\ same_view s s')
     (io_fail s) s.
Proof.
  intros Hd Hk. pose proof (dir_at_len _ _ _ _ Hd) as Hl. pose proof Hd as [Hs Hok Hn Ht Hc Hdok].
  unfold read_from. apply wp_bind. eapply wp_mono.
  { apply (raw_read_spec fs Hfs D n s); [done|done|done|unfold has_data; by rewrite Ht|rewrite Hc; lia|lia]. }
  2:{ done. }
  rewrite Hc. intros r s' (-> & Hf & Hv). case_decide as Hlt.
  - rewrite Z.min_l by lia. rewrite sub_length by lia. cbn -[sub decode_dirent]. fold (entry c k).
    pose proof (do_entry _ Hdok k ltac:(lia)). destruct (Z.ltb_spec 64 (d_name_len (entry c k))); [lia|]. by apply wp_ret.
  - replace (Z.min 80 (zlen c - 80 * k)) with 0 by lia. by apply wp_ret.
Qed.

Lemma lookup_loop_spec m s D n c name k : dir_at s D n c -> 0 <= k <= nents c -> (Z.to_nat (nents c - k) < m)%nat ->
  wp (lookup_loop m (INode_new fs n) name (RAW_DIRENT_SIZE * k))
     (fun r s' => r = find_entry name (entries_from c k) /\ follows s s' /\ same_view s s') (io_fail s) s.
Proof.
  revert s k. induction m as [|m IH]; intros s k Hd Hk Hm; [lia|]. cbn [lookup_loop]. apply wp_bind.
  eapply wp_mono; [by eapply read_from_spec| |done]. intros r s1 (-> & Hf & Hv). case_decide as Hlt.
  - rewrite entries_step by done. cbn [find_entry]. unfold matches.
    destruct (is_unused (entry c k)); cbn [orb negb andb].
    + replace (80 * k + 80) with (80 * (k + 1)) by lia.
      eapply wp_mono; [eapply IH; [by eapply dir_at_same|lia|lia]| |by intros ? ?; apply io_fail_from].
      intros r s2 (-> & Hf2 & Hv2). split; [done|]. split; [by eapply follows_trans|by rewrite Hv].
    + case_bool_decide; cbn [negb]; [by apply wp_ret|].
      replace (80 * k + 80) with (80 * (k + 1)) by lia.
      eapply wp_mono; [eapply IH; [by eapply dir_at_same|lia|lia]| |by intros ? ?; apply io_fail_from].
      intros r s2 (-> & Hf2 & Hv2). split; [done|]. split; [by eapply follows_trans|by rewrite Hv].
  - apply wp_ret. by rewrite entries_end by lia.
Qed.

Lemma INode_lookup_spec s D n c name : dir_at s D n c ->
  wp (INode_lookup (INode_new fs n) name)
     (fun r s' => r = find_entry name (entries c) /\ follows s s' /\ same_view s s') (io_fail s) s.
Proof.
  intros Hd. destruct (dir_at_size _ _ _ _ Hd) as [Hsz Hr]. pose proof (dir_at_len _ _ _ _ Hd) as Hl.
  unfold INode_lookup. apply wp_bind. eapply wp_mono; [apply (read_raw_inode_spec fs Hfs); [apply Hd|done]| |done].
  intros i s1 (-> & Hf & Hv). rewrite decide_False by (rewrite (da_type _ _ _ _ Hd); tauto).
  change 0 with (80 * 0) at 1. eapply wp_mono;
    [eapply lookup_loop_spec; [by eapply dir_at_same|unfold nents; lia|unfold dir_fuel; rewrite Hsz; unfold nents in *; lia]
    | |by intros ? ?; apply io_fail_from].
  intros r s2 (-> & Hf2 & Hv2). split; [done|]. split; [by eapply follows_trans|by rewrite Hv].
Qed.

(** ** Adding an entry *)

(** The directory after an entry was stored at slot [p]. *)
Definition with_entry (c : list Z) (p : Z) (d : RawDirent) : list Z := splice (RAW_DIRENT_SIZE * p) (encode_dirent d) c.

Lemma only_file_from s s1 D n s' : follows s s1 -> same_view s s1 -> fs_ok fs s D ->
  only_file fs D n s1 s' -> only_file fs D n s s'.
Proof.
  intros Hf Hv Hok Hof. eapply only_file_trans; [|done]. by apply (only_file_same fs Hfs).
Qed.

(** A failed write of an entry leaves a part of it. *)
Definition torn (s : St) (D : gset Z) (n : Z) (c : list Z) (p : Z) (d : RawDirent) (e : FsErrorKind) (s' : St) : Prop :=
  only_file fs D n s s' /\ same_meta (inode_at fs s n) (inode_at fs s' n) /\ alloc_err fs s e s' /\
  exists m, 0 <= m <= RAW_DIRENT_SIZE /\
    file fs s' n = splice (RAW_DIRENT_SIZE * p) (take (Z.to_nat m) (encode_dirent d)) c.

Lemma torn_from s s1 D n c p d e s' : follows s s1 -> same_view s s1 -> fs_ok fs s D -> torn s1 D n c p d e s' -> torn s D n c p d e s'.
Proof.
  intros Hf Hv Hok (Hof & Hm & He & Hex). rewrite (same_inode_at fs s s1) in Hm by done.
  split; [by eapply only_file_from|]. split; [done|]. split; [by eapply alloc_err_from|done].
Qed.

Lemma write_to_spec s D n c p d : dir_at s D n c -> 0 <= p <= nents c -> dirent_fits d -> d_name_len d <= EFS_NAME_LEN ->
  RAW_DIRENT_SIZE * (p + 1) <= MAX_FILE_SIZE ->
  wp (write_to fs d (INode_new fs n) (RAW_DIRENT_SIZE * p))
     (fun _ s' => only_file fs D n s s' /\ same_meta (inode_at fs s n) (inode_at fs s' n) /\ dir_at s' D n (with_entry c p d))
     (torn s D n c p d) s.
Proof.
  intros Hd Hp Hfit Hnl Hmax. pose proof (dir_at_len _ _ _ _ Hd) as Hl. pose proof Hd as [Hs Hok Hn Ht Hc Hdok].
  pose proof Hfit as (_ & _ & _ & Hdl & Hdb). pose proof (encode_dirent_length d Hdl) as Hel.
  unfold write_to. apply wp_bind. eapply wp_mono.
  { apply (raw_write_spec fs Hfs D n s);
      [done|done|done|unfold has_data; by rewrite Ht|by apply encode_dirent_bytes|rewrite Hc; lia]. }
  - intros r s' (Hof & Hm & -> & Hfile). rewrite Hel, Z.min_l in * by lia. change (negb (80 =? 80)) with false. apply wp_ret.
    split; [done|]. split; [done|]. rewrite Hc, take_ge in Hfile by lia. pose proof Hof as [Hf Hok' _ _ _].
    split; [apply Hf|done|done| |done|by apply store_dir_ok]. unfold file_type. destruct Hm as (-> & _). done.
  - intros e s' (Hof & Hm & He & m & Hmr & Hfile). rewrite Hel, Hc in *. split; [done|]. split; [done|]. split; [done|].
    by exists m.
Qed.

Lemma add_entry_loop_spec m s D n c d k e : dir_at s D n c -> dirent_fits d -> d_name_len d <= EFS_NAME_LEN ->
  zlen c + RAW_DIRENT_SIZE <= MAX_FILE_SIZE -> 0 <= k <= nents c -> (Z.to_nat (nents c - k) < m)%nat ->
  (forall j, e = Some j -> 0 <= j < nents c) ->
  let p := default (nents c) (last_free (entries_from c k) k e) in
  wp (add_entry_loop fs m (INode_new fs n) d (RAW_DIRENT_SIZE * k) (Z.mul RAW_DIRENT_SIZE <$> e))
     (fun _ s' => refuses d (entries_from c k) = false /\ only_file fs D n s s' /\
        same_meta (inode_at fs s n) (inode_at fs s' n) /\ dir_at s' D n (with_entry c p d))
     (fun err s' => refuses d (entries_from c k) = true /\ err = AlreadyExists /\ follows s s' /\ same_view s s' \/
        torn s D n c p d err s') s.
Proof.
  intros Hd Hfit Hnl Hmax. pose proof (dir_at_len _ _ _ _ Hd) as Hl. revert s k e Hd.
  induction m as [|m IH]; intros s k e Hd Hk Hm He p; [lia|]. cbn [add_entry_loop]. apply wp_bind.
  eapply wp_mono; [by eapply read_from_spec| |].
  2:{ intros err s' (Hio & Hf & Hv & Hh). right. unfold torn.
      destruct (only_file_same fs Hfs D n s s' (da_fs _ _ _ _ Hd) Hf Hv) as [Hof Hfile].
      split; [done|]. rewrite (same_inode_at fs s s') by done. split; [done|]. split; [by right|]. exists 0.
      split; [lia|]. rewrite Hfile by apply Hd. rewrite (da_file _ _ _ _ Hd).
      change (take (Z.to_nat 0) (encode_dirent d)) with (@nil Z). rewrite splice_nil; [done|].
      subst p. destruct (last_free _ k e) as [j|] eqn:Hj; simpl; [|lia].
      destruct (last_free_range c k e ltac:(lia) He j Hj). lia. }
  intros r s1 (-> & Hf & Hv). pose proof (dir_at_same _ _ _ _ _ Hf Hv Hd) as Hd1. case_decide as Hlt.
  - assert (Hstep : forall e', (forall j, e' = Some j -> 0 <= j < nents c) ->
      last_free (entries_from c k) k e = last_free (entries_from c (k + 1)) (k + 1) e' ->
      refuses d (entries_from c k) = refuses d (entries_from c (k + 1)) ->
      wp (add_entry_loop fs m (INode_new fs n) d (80 * k + 80) (Z.mul 80 <$> e'))
        (fun _ s' => refuses d (entries_from c k) = false /\ only_file fs D n s s' /\
           same_meta (inode_at fs s n) (inode_at fs s' n) /\ dir_at s' D n (with_entry c p d))
        (fun err s' => refuses d (entries_from c k) = true /\ err = AlreadyExists /\ follows s s' /\ same_view s s' \/
           torn s D n c p d err s') s1).
    { intros e' He' Hlf Href. replace (80 * k + 80) with (80 * (k + 1)) by lia. unfold p. rewrite Hlf, Href.
      eapply wp_mono; [apply IH; [done|lia|lia|done]| |].
      - intros _ s' (? & Hof & Hsm & ?). rewrite (same_inode_at fs s s1) in Hsm by done.
        split; [done|]. split; [|done]. eapply only_file_from; [done|done|apply Hd|done].
      - intros err s' [(? & ? & ? & ?)|Ht]; [left|right].
        + split; [done|]. split; [done|]. split; [by eapply follows_trans|by rewrite Hv].
        + eapply torn_from; [done|done|apply Hd|done]. }
    rewrite entries_step in Hstep |- * by done. cbn [last_free refuses existsb] in *.
    destruct (is_unused (entry c k)) eqn:Hu; cbn [negb andb orb] in *.
    + apply (Hstep (Some k)); [intros j [= <-]; lia|done|done].
    + destruct (decide (d_name d = dirent_name (entry c k))) as [Hname|Hname].
      * apply wp_fail. left. by rewrite bool_decide_true.
      * rewrite bool_decide_false in * by done. by apply (Hstep e).
  - unfold p in *. rewrite entries_end in * by lia. cbn [last_free refuses existsb].
    replace (default (80 * k) (Z.mul 80 <$> e)) with (80 * default (nents c) e) by (destruct e; simpl; lia).
    assert (0 <= default (nents c) e <= nents c) by (destruct e as [j|]; simpl; [specialize (He j eq_refl)|]; lia).
    eapply wp_mono; [apply (write_to_spec s1 D n c); [done|done|done|done|lia]| |].
    + intros _ s' (Hof & Hsm & ?). rewrite (same_inode_at fs s s1) in Hsm by done. split; [done|].
      split; [|done]. eapply only_file_from; [done|done|apply Hd|done].
    + intros err s' Ht. right. eapply torn_from; [done|done|apply Hd|done].
Qed.

Lemma add_entry_spec s D n c d : dir_at s D n c -> dirent_fits d -> d_name_len d <= EFS_NAME_LEN ->
  zlen c + RAW_DIRENT_SIZE <= MAX_FILE_SIZE ->
  wp (add_entry fs (INode_new fs n) d)
     (fun _ s' => refuses d (entries c) = false /\ only_file fs D n s s' /\
        same_meta (inode_at fs s n) (inode_at fs s' n) /\ dir_at s' D n (with_entry c (free_slot c) d))
     (fun err s' => refuses d (entries c) = true /\ err = AlreadyExists /\ follows s s' /\ same_view s s' \/
        torn s D n c (free_slot c) d err s') s.
Proof.
  intros Hd Hfit Hnl Hmax. destruct (dir_at_size _ _ _ _ Hd) as [Hsz Hr]. pose proof (dir_at_len _ _ _ _ Hd) as Hl.
  destruct (free_slot_spec c) as [Hfs0 _].
  unfold add_entry. apply wp_bind. eapply wp_mono; [apply (read_raw_inode_spec fs Hfs); [apply Hd|done]| |].
  - intros i s1 (-> & Hf & Hv). rewrite decide_False by (rewrite (da_type _ _ _ _ Hd); tauto).
    pose proof (add_entry_loop_spec (dir_fuel (inode_at fs s n)) s1 D n c d 0 None (dir_at_same _ _ _ _ _ Hf Hv Hd)
      Hfit Hnl Hmax ltac:(unfold nents; lia) ltac:(unfold dir_fuel; rewrite Hsz; unfold nents in *; lia) ltac:(done)) as Hw.
    cbv zeta in Hw. fold (free_slot c) in Hw. eapply wp_mono; [apply Hw| |].
    + intros _ s' (? & Hof & Hsm & ?). rewrite (same_inode_at fs s s1) in Hsm by done. split; [done|].
      split; [|done]. eapply only_file_from; [done|done|apply Hd|done].
    + intros err s' [(? & ? & ? & ?)|Ht]; [left|right].
      * split; [done|]. split; [done|]. split; [by eapply follows_trans|by rewrite Hv].
      * eapply torn_from; [done|done|apply Hd|done].
  - intros e s' (Hio & Hf & Hv & Hh). right.
    destruct (only_file_same fs Hfs D n s s' (da_fs _ _ _ _ Hd) Hf Hv) as [Hof Hfile].
    split; [done|]. rewrite (same_inode_at fs s s') by done. split; [done|]. split; [by right|]. exists 0.
    split; [lia|]. rewrite Hfile by apply Hd. rewrite (da_file _ _ _ _ Hd).
    change (take (Z.to_nat 0) (encode_dirent d)) with (@nil Z). rewrite splice_nil; [done|lia].
Qed.

(** ** Link counts *)

Lemma istep_nlink s s1 i z : follows s s1 -> same_view s s1 -> inode_ok fs s i -> zeroed fs s -> 0 <= z < 2 ^ 32 ->
  istep fs s i s1 (set_nlink z i) /\ content s1 (set_nlink z i) = content s i.
Proof.
  intros Hf Hv Hi Hz Hr. pose proof (istep_same fs s s1 i Hf Hv Hi Hz) as [F1 F2 F3 F4 F5 F6 F7 F8 F9]. split.
  - split; try done.
    + destruct F2. by split.
    + intros (? & ? & ?). unfold meta_fits. simpl. done.
  - by apply (content_same fs s s1 i).
Qed.

Lemma link_count_spec s D n (f : RawINode -> outcome FsErrorKind RawINode) z : store_ok s -> fs_ok fs s D -> n ∈ D ->
  f (inode_at fs s n) = Ok (set_nlink z (inode_at fs s n)) -> 0 <= z < 2 ^ 32 ->
  wp (write_raw_inode_with (INode_new fs n)
        (do i <- get_focus; match f i with Ok i' => put_focus i' | Err e => fail e | Panic => panic end))
     (fun _ s' => only_file fs D n s s' /\ inode_at fs s' n = set_nlink z (inode_at fs s n) /\ file fs s' n = file fs s n)
     (fun e s' => only_file fs D n s s' /\ io_error e /\ ~ healthy s /\ inode_at fs s' n = inode_at fs s n /\
        file fs s' n = file fs s n) s.
Proof.
  intros Hs Hok Hn Hfi Hz. destruct (fo_inode _ _ _ Hok n Hn) as [_ Hi].
  eapply wp_mono; [apply (write_raw_inode_spec fs Hfs _ D n s
    (fun _ i c => i = set_nlink z (inode_at fs s n) /\ c = file fs s n) (fun _ _ _ _ => False)); try done| |].
  - intros s1 Hf Hv. unfold wp, bind, get_focus. rewrite Hfi. cbn [fst snd put_focus].
    destruct (istep_nlink s s1 (inode_at fs s n) z Hf Hv Hi (fo_zeroed _ _ _ Hok) Hz) as [Hst Hc].
    by split.
  - done.
  - intros e s' [Hof [[]|(? & ? & ? & ?)]]. done.
Qed.

End directory.

(** ** New entries *)

Lemma RawDirent_new_spec ino t name : t <> Unknown -> zlen name <= EFS_NAME_LEN -> Forall is_byte name -> is_u64 ino ->
  exists d, RawDirent_new ino t name = Ok d /\ dirent_fits d /\ d_name_len d <= EFS_NAME_LEN /\
    dirent_name d = name /\ d_inode_no d = ino.
Proof.
  intros Ht Hl Hb Hi. unfold RawDirent_new. rewrite decide_False by done.
  destruct (Z.ltb_spec 64 (zlen name)); [lia|]. eexists. split; [done|].
  assert (Hs : zlen (splice 0 name (replicate 64 0)) = 64)
    by (rewrite splice_zlen; rewrite ?length_replicate; lia).
  split; [|split; [done|split; [|done]]].
  - split; [done|]. cbn [d_typ d_name_len d_name]. split; [destruct t; simpl; lia|]. split; [lia|]. split; [done|].
    apply splice_Forall; [|done]. apply Forall_replicate. unfold is_byte. lia.
  - unfold dirent_name, splice. cbn [d_name_len d_name]. rewrite Nat2Z.id, take_0. simpl. apply take_app_length.
Qed.
