(* ===== verification/CreateSpec.v ===== *)
(** * Creating files

    The whole of [INode::create_file] of src/fs/redwing_efs/src/inode.rs:
    looking the name up, taking an inode from the inode bitmap, initialising
    it and linking it into the directory. *)

From S2P Require Import Prelude Bytes Vfs Store Superblock Bitmap Inode Dir BlockMap FileData EfsFiles DirSpec.
Import Vfs.

#[local] Open Scope Z_scope.
#[local] Open Scope rw_scope.

Section create.
Context {St : Type} `{BlockStoreLaws St}.
Variable fs : EfsFileSystem.
Hypothesis Hfs : efs_wf fs.
#[local] Notation SM := (M St FsErrorKind).
#[local] Notation inode_at := (inode_at fs).
#[local] Notation file := (file fs).
#[local] Notation fs_ok := (fs_ok fs).
#[local] Notation dir_at := (dir_at fs).

(** ** The inode bitmap *)

Definition ibit (s : St) (n : Z) : bool := bit (inode_bitmap fs) s n.

(** The invariant of a volume: the inodes of [D] hold well-formed disjoint
    files, and the inodes that are not allocated are of type [Unknown]. *)
Record vol_ok (s : St) (D : gset Z) : Prop := {
  vo_fs : fs_ok s D;
  vo_free n : in_table_range fs n -> ibit s n = false -> n ∉ D /\ file_type (inode_at s n) = Unknown
}.

Lemma inode_bitmap_wf : bitmap_wf (inode_bitmap fs) /\ bits_len (inode_bitmap fs) = inode_counts (superblock fs).
Proof.
  destruct Hfs as [-> _ ? _ _]. split; [split; [done|]|done]. simpl. unfold inode_counts. lia.
Qed.

(** The bits are in blocks before the inode table. *)
Lemma inode_bit_block n : in_table_range fs n ->
  start_blk_no (inode_bitmap fs) + n / BLOCK_BITS < inode_start_bno (superblock fs).
Proof.
  intros Hn. destruct Hfs as [-> _ ? [Hfit _] _]. unfold in_table_range in Hn. simpl. unfold inode_start_bno, inode_bitmap_start_bno.
  pose proof (div_ceil_spec (inode_counts (superblock fs)) BLOCK_BITS ltac:(lia) ltac:(lia)). lia.
Qed.

Lemma ibit_frame s s' n : in_table_range fs n ->
  (forall b, b < inode_start_bno (superblock fs) -> view s' b = view s b) -> ibit s' n = ibit s n.
Proof.
  intros Hn Hv. pose proof (inode_bit_block n Hn) as Hb. unfold ibit, bit, word_of. do 2 f_equal. apply Hv.
  unfold in_table_range in Hn. lia.
Qed.

Lemma alloc_inode_spec s D : store_ok s -> vol_ok s D ->
  wp (alloc_inode fs)
     (fun n s' => in_table_range fs n /\ ibit s n = false /\ n ∉ D /\ file_type (inode_at s n) = Unknown /\ follows s s' /\ outer fs s s' /\
        forall n', in_table_range fs n' -> ibit s' n' = bool_decide (n' = n) || ibit s n')
     (fun e s' => (e = NoSpaceLeft \/ io_error e /\ ~ healthy s) /\ follows s s' /\ same_view s s') s.
Proof.
  intros Hs [Hok Hfree]. destruct inode_bitmap_wf as [Hwf Hlen]. unfold alloc_inode. apply wp_bind.
  eapply wp_mono; [by apply alloc_bit_spec| |].
  2:{ intros e s' (? & ? & ? & ?). split; [by right|done]. }
  intros [n|] s' [Hf Hr].
  - apply wp_ret. destruct Hr as (Hn & Hbit & _ & Hset & Hout). rewrite Hlen in Hn.
    destruct (Hfree n Hn Hbit) as [HnD Ht]. split_and!; try done; try lia.
    + intros b Hb. apply Hout. pose proof (inode_bit_block n Hn). lia.
    + intros n' [Hn' _]. by apply Hset.
  - apply wp_fail. split; [by left|]. split; [done|apply Hr].
Qed.

(** ** Initialising an inode *)

Definition fresh_inode (t : FileType) (dev : Z) : RawINode :=
  mkRawINode (FileType_into t) 0 0 dev (replicate 12 INVALID_DATA_BLOCK_NO) INVALID_DATA_BLOCK_NO INVALID_DATA_BLOCK_NO.

Lemma fresh_fits t dev : 0 <= dev < 2 ^ 32 -> inode_fits (fresh_inode t dev).
Proof.
  intros. split; simpl; unfold is_u64; try lia; [destruct t; simpl; lia|]. split; [done|]. repeat constructor; lia.
Qed.

Lemma fresh_root t dev k : root (fresh_inode t dev) k = 0.
Proof.
  unfold root. repeat case_match; try done. cbn [fresh_inode direct_blk_ptrs].
  destruct (replicate 12 0 !! Z.to_nat k) as [x|] eqn:Hx; [|done]. by apply lookup_replicate in Hx as [-> _].
Qed.

Lemma fresh_inode_ok s t dev : inode_ok fs s (fresh_inode t dev) /\ content s (fresh_inode t dev) = [] /\
  forall b, ~ owns s (fresh_inode t dev) b.
Proof.
  split; [split|split].
  - done.
  - simpl. unfold MAX_FILE_SIZE. lia.
  - intros k d q Hv. by rewrite fresh_root, node_zero.
  - intros k d q k' d' q' Hv Hv'. by rewrite fresh_root, node_zero.
  - simpl. lia.
  - done.
  - intros b (k & d & q & _ & Hn & Hb). rewrite fresh_root, node_zero in Hn. congruence.
Qed.

Section init.
Variables (D : gset Z) (n : Z) (s s1 : St) (t : FileType) (dev : Z).
#[local] Notation h := (INode_new fs n).
#[local] Notation i' := (fresh_inode t dev).
#[local] Notation s3 := (put_block (blk_no h) (splice (blk_offset h) (encode_inode i') (view s (blk_no h))) s1).
Hypothesis Hs : store_ok s.
Hypothesis Hf : follows s s1.
Hypothesis Hv : same_view s s1.
Hypothesis Hn : in_table_range fs n.
Hypothesis Hdev : 0 <= dev < 2 ^ 32.

Lemma init_block : is_block (splice (blk_offset h) (encode_inode i') (view s (blk_no h))).
Proof.
  destruct (inode_block fs Hfs n Hn) as (_ & _ & ? & ?). destruct (view_ok s (blk_no h) Hs) as [Hl Hb].
  pose proof (encode_inode_length i' eq_refl). split; [rewrite splice_length; lia|].
  apply splice_Forall; [done|apply encode_inode_bytes].
Qed.

Lemma init_view b : view s3 b =
  if decide (b = blk_no h) then splice (blk_offset h) (encode_inode i') (view s (blk_no h)) else view s b.
Proof.
  destruct (put_block_spec s1 (blk_no h) _ (proj1 Hf) init_block) as [_ ->]. case_decide; [done|]. symmetry. apply Hv.
Qed.

Lemma init_follows : follows s s3.
Proof.
  eapply follows_trans; [apply Hf|].
  by destruct (put_block_spec s1 (blk_no h) _ (proj1 Hf) init_block) as [? _].
Qed.

Lemma init_at : inode_at s3 n = i'.
Proof.
  unfold EfsFiles.inode_at. rewrite init_view, decide_True by done.
  destruct (inode_block fs Hfs n Hn) as (_ & _ & ? & ?). destruct (view_ok s (blk_no h) Hs) as [Hl Hb].
  pose proof (encode_inode_length i' eq_refl) as He. rewrite <- He at 1. rewrite sub_splice_eq by lia.
  by apply decode_encode_inode, fresh_fits.
Qed.

Lemma init_other n' : in_table_range fs n' -> n' <> n -> inode_at s3 n' = inode_at s n'.
Proof.
  intros Hn' Hne. unfold EfsFiles.inode_at. f_equal. rewrite init_view. case_decide as He; [|done].
  destruct (inode_block fs Hfs n Hn) as (_ & _ & ? & ?). destruct (inode_block fs Hfs n' Hn') as (_ & _ & ? & ?).
  destruct (view_ok s (blk_no h) Hs) as [Hl _]. pose proof (encode_inode_length i' eq_refl) as Hel.
  rewrite He. apply sub_splice_ne; [lia|lia|lia|lia|lia|]. unfold INode_new, in_table_range in *; simpl in *. lia.
Qed.

Lemma init_region b : region fs b \/ in_bitmap fs b -> view s3 b = view s b.
Proof.
  intros Hb. rewrite init_view, decide_False; [done|]. destruct (inode_block fs Hfs n Hn) as (? & ? & _). naive_solver.
Qed.

Lemma init_marked b : region fs b -> marked fs s3 b = marked fs s b.
Proof. intros. apply (marked_frame fs Hfs); [|done]. intros. apply init_region. by right. Qed.

Lemma init_files : fs_ok s D -> n ∉ D ->
  fs_ok s3 ({[n]} ∪ D) /\ file s3 n = [] /\
  forall n', n' ∈ D -> inode_at s3 n' = inode_at s n' /\ file s3 n' = file s n'.
Proof.
  intros Hok HnD.
  assert (Hat : forall n', n' ∈ D -> inode_at s3 n' = inode_at s n').
  { intros n' Hn'. apply init_other; [by apply (fo_inode _ _ _ Hok)|]. intros ->. done. }
  assert (Hfr : forall n', n' ∈ D -> inode_ok fs s3 (inode_at s n') /\ content s3 (inode_at s n') = file s n' /\
    forall b, owns s3 (inode_at s n') b <-> owns s (inode_at s n') b).
  { intros n' Hn'. destruct (fo_inode _ _ _ Hok n' Hn') as [_ Hi]. apply file_frame; [done|].
    intros b Hb. destruct (owns_region _ _ _ _ Hi Hb) as [Hr Hm].
    rewrite init_marked by done. split; [|done]. apply init_region. by left. }
  destruct (fresh_inode_ok s3 t dev) as (Hfi & Hfc & Hfo).
  split; [split|split].
  - intros b [Hr Hm]. rewrite init_marked in Hm by done. rewrite init_region by (by left). by apply (fo_zeroed _ _ _ Hok).
  - intros n' [->%elem_of_singleton|Hn']%elem_of_union; [by rewrite init_at|].
    rewrite Hat by done. split; [by apply (fo_inode _ _ _ Hok)|by apply Hfr].
  - intros n1 n2 b [->%elem_of_singleton|H1]%elem_of_union [->%elem_of_singleton|H2]%elem_of_union.
    + done.
    + rewrite init_at. intros Ho. by apply Hfo in Ho.
    + rewrite init_at. intros _ Ho. by apply Hfo in Ho.
    + rewrite !Hat by done. intros Ho1 Ho2. apply Hfr in Ho1, Ho2; [|done..]. by eapply (fo_disjoint _ _ _ Hok).
  - unfold EfsFiles.file. rewrite init_at. done.
  - intros n' Hn'. split; [by apply Hat|]. unfold EfsFiles.file at 1. rewrite Hat by done. by apply Hfr.
Qed.

End init.

Lemma init_inode_spec s D n t dev : store_ok s -> fs_ok s D -> in_table_range fs n -> n ∉ D ->
  file_type (inode_at s n) = Unknown -> t <> Unknown -> 0 <= dev < 2 ^ 32 ->
  wp (init_inode (INode_new fs n) t dev)
     (fun _ s' => follows s s' /\ fs_ok s' ({[n]} ∪ D) /\ file s' n = [] /\ inode_at s' n = fresh_inode t dev /\
        (forall n', n' ∈ D -> inode_at s' n' = inode_at s n' /\ file s' n' = file s n') /\
        (forall n', in_table_range fs n' -> n' <> n -> inode_at s' n' = inode_at s n') /\
        forall n', in_table_range fs n' -> ibit s' n' = ibit s n')
     (io_fail s) s.
Proof.
  intros Hs Hok Hn HnD Hty Ht Hdev. destruct (inode_block fs Hfs n Hn) as (_ & _ & ? & ?). unfold init_inode.
  apply wp_bind, wp_assert; [by apply bool_decide_eq_true|]. unfold write_raw_inode_with. apply wp_bind.
  eapply wp_mono; [by apply load_spec| |done]. intros blk s1 (-> & Hf & Hv).
  apply wp_bind, wp_assert; [by apply Z.leb_le|]. unfold wp. fold (inode_at s n).
  unfold bind, get_focus. rewrite decide_False by tauto. cbn [put_focus]. fold (fresh_inode t dev).
  destruct (init_files D n s s1 t dev Hs Hf Hv Hn Hdev Hok HnD) as (Hok3 & Hfile & Hoth).
  split_and!; try done.
  - by apply init_follows.
  - by apply init_at.
  - intros n' Hn' Hne. by apply init_other.
  - intros n' Hn'. apply ibit_frame; [done|]. intros b Hb. rewrite init_view by done. rewrite decide_False; [done|].
    unfold INode_new, in_table_range in *; simpl. lia.
Qed.

(** ** Linking *)

(** Directory [n] has a new entry for inode [n'], whose link count went up. *)
Record linked (D : gset Z) (n n' : Z) (c name : list Z) (s s' : St) : Prop := {
  lk_follows : follows s s';
  lk_dir : exists c', dir_at s' D n c' /\
    forall nm, dir_map c' nm = if decide (nm = name) then Some n' else dir_map c nm;
  lk_file m : m ∈ D -> m <> n -> file s' m = file s m;
  lk_inode m : in_table_range fs m -> m <> n -> m <> n' -> inode_at s' m = inode_at s m;
  lk_count : inlink (inode_at s' n') = inlink (inode_at s n') + 1;
  lk_type : file_type (inode_at s' n') = file_type (inode_at s n');
  lk_low b : b < inode_start_bno (superblock fs) -> view s' b = view s b
}.

Lemma range_u64 n : in_table_range fs n -> is_u64 n.
Proof. destruct Hfs as [_ _ _ _ [_ ?]]. unfold in_table_range, is_u64. lia. Qed.

(** The second half of [link]: counting. *)
Lemma link_finish s D n n' c name s1 c1 : dir_at s D n c -> n' ∈ D -> in_table_range fs n' ->
  0 <= inlink (inode_at s n') + 1 < 2 ^ 32 ->
  only_file fs D n s s1 -> same_meta (inode_at s n) (inode_at s1 n) -> dir_at s1 D n c1 ->
  (forall nm, dir_map c1 nm = if decide (nm = name) then Some n' else dir_map c nm) ->
  wp (write_raw_inode_with (INode_new fs n')
        (do i <- get_focus; match increase_link i with Ok i' => put_focus i' | Err e => fail e | Panic => panic end))
     (fun _ s' => linked D n n' c name s s')
     (fun e s' => only_file fs D n s s' /\ io_error e /\ ~ healthy s) s1.
Proof.
  intros Hd Hn' Hr' Hnl Hof Hsm Hd1 Hmap.
  assert (Hmeta : same_meta (inode_at s n') (inode_at s1 n')).
  { destruct (decide (n' = n)) as [->|Hne]; [done|]. by rewrite (of_inode _ _ _ _ _ Hof). }
  assert (Hl : inlink (inode_at s1 n') = inlink (inode_at s n')) by apply Hmeta.
  eapply wp_mono; [apply (link_count_spec fs Hfs s1 D n' increase_link (inlink (inode_at s1 n') + 1));
    [apply Hd1|apply Hd1|done| |lia]| |].
  - unfold increase_link. destruct (Z.leb_spec (2 ^ 32) (inlink (inode_at s1 n') + 1)); [lia|done].
  - intros _ s2 (Hof2 & Hino & Hfile). destruct Hof as [F1 K1 I1 C1 L1], Hof2 as [F2 K2 I2 C2 L2].
    assert (Hcf : forall m, m ∈ D -> file s2 m = file s1 m).
    { intros m Hm. destruct (decide (m = n')) as [->|]; [done|by apply C2]. }
    split.
    + by eapply follows_trans.
    + exists c1. split; [|done]. destruct Hd1 as [Hs1 Hok1 Hn1 Ht1 Hc1 Hdok1]. split; try done; [apply F2| |].
      * destruct (decide (n = n')) as [->|Hne]; [by rewrite Hino|]. rewrite I2; [done| |done].
        by apply (fo_inode _ _ _ K1).
      * by rewrite Hcf.
    + intros m Hm Hne. by rewrite Hcf, C1.
    + intros m Hr Hne Hne'. by rewrite I2, I1.
    + rewrite Hino. cbn [set_nlink inlink]. lia.
    + rewrite Hino. unfold file_type. cbn [set_nlink typ]. f_equal. apply Hmeta.
    + intros b Hb. by rewrite L2, L1.
  - intros e s2 (Hof2 & Hio & Hh & Hino & Hfile). destruct Hof as [F1 K1 I1 C1 L1], Hof2 as [F2 K2 I2 C2 L2].
    split; [|split; [done|intros Hh0; by apply Hh, F1]]. split; [by eapply follows_trans|done|..].
    + intros m Hr Hne. destruct (decide (m = n')) as [->|]; [by rewrite Hino, I1|by rewrite I2, I1].
    + intros m Hm Hne. destruct (decide (m = n')) as [->|]; [by rewrite Hfile, C1|by rewrite C2, C1].
    + intros b Hb. by rewrite L2, L1.
Qed.

Lemma link_spec s D n n' c name : dir_at s D n c -> n' ∈ D -> in_table_range fs n' -> n' <> 0 ->
  file_type (inode_at s n') <> Unknown -> 0 <= inlink (inode_at s n') + 1 < 2 ^ 32 ->
  zlen name <= EFS_NAME_LEN -> Forall is_byte name -> zlen c + RAW_DIRENT_SIZE <= MAX_FILE_SIZE -> dir_map c name = None ->
  wp (link fs (INode_new fs n) (INode_new fs n') name)
     (fun _ s' => linked D n n' c name s s')
     (fun e s' => only_file fs D n s s' /\ (e = AlreadyExists \/ alloc_err fs s e s')) s.
Proof.
  intros Hd Hn' Hr' Hn0 Ht Hnl Hlen Hb Hmax Hno. pose proof (da_fs _ _ _ _ _ Hd) as Hok.
  unfold link. apply wp_bind. unfold INode_file_type. apply wp_bind.
  eapply wp_mono; [apply (read_raw_inode_spec fs Hfs); [apply Hd|done]| |].
  2:{ intros e s' (? & Hf & Hv & ?). split; [by apply (only_file_same fs Hfs)|]. by right; right. }
  intros i s1 (-> & Hf & Hv). apply wp_ret, wp_bind.
  destruct (RawDirent_new_spec n' (file_type (inode_at s n')) name Ht Hlen Hb (range_u64 n' Hr'))
    as (d & Hnew & Hfit & Hdl & Hdn & Hdi).
  unfold of_outcome, wp at 1. cbn [ino INode_new]. rewrite Hnew. cbv beta iota. apply wp_bind.
  pose proof (dir_at_same fs Hfs _ _ _ _ _ Hf Hv Hd) as Hd1. destruct (only_file_same fs Hfs D n s s1 Hok Hf Hv) as [Hof01 _].
  eapply wp_mono; [by apply (add_entry_spec fs Hfs)| |].
  - intros _ s2 (_ & Hof & Hsm & Hd2). rewrite (same_inode_at fs s s1) in Hsm by done.
    eapply wp_mono; [apply (link_finish s D n n' c name s2 (with_entry c (free_slot c) d)); try done|done|].
    + by eapply only_file_trans.
    + intros nm. destruct (free_slot_spec c) as [? ?]. unfold with_entry.
      rewrite store_map; [|apply Hd|done|done|done| |by rewrite Hdn].
      * by rewrite Hdn, Hdi.
      * unfold is_unused. rewrite Hdi. by apply Z.eqb_neq.
    + intros e s' (? & ? & ?). split; [done|]. by right; right.
  - intros e s' [(_ & -> & Hf' & Hv')|(Hof & _ & He & _)].
    + split; [|by left]. apply (only_file_same fs Hfs); [done|by eapply follows_trans|by rewrite Hv].
    + split; [by eapply only_file_trans|]. right. by eapply alloc_err_from.
Qed.

Lemma fs_ok_subset s D D' : D' ⊆ D -> fs_ok s D -> fs_ok s D'.
Proof.
  intros Hsub [Hz Hi Hd]. split; [done| |].
  - intros n Hn. by apply Hi, Hsub.
  - intros n n' b Hn Hn'. by apply Hd; apply Hsub.
Qed.

Lemma dir_at_subset s D D' n c : D' ⊆ D -> n ∈ D' -> dir_at s D n c -> dir_at s D' n c.
Proof. intros Hsub Hn [? ? ? ? ? ?]. split; try done. by eapply fs_ok_subset. Qed.

Lemma dealloc_inode_spec s n : store_ok s -> in_table_range fs n ->
  wp (dealloc_inode fs n) (fun _ s' => follows s s' /\ outer fs s s') (fun e s' => io_error e /\ ~ healthy s /\ follows s s' /\ outer fs s s') s.
Proof.
  intros Hs Hn. destruct inode_bitmap_wf as [_ Hlen]. unfold dealloc_inode.
  eapply wp_mono; [apply clear_bit_spec; [done|apply Hn]| |].
  - intros _ s' (_ & Hf & _ & Hout). split; [done|]. intros b Hb. apply Hout. pose proof (inode_bit_block n Hn). lia.
  - intros e s' [(_ & Hr & _)|(? & ? & Hv & ?)].
    + rewrite Hlen in Hr. unfold in_table_range in Hn. lia.
    + split; [done|]. split; [done|]. split; [done|by apply same_outer].
Qed.

(** ** Creating a file *)

Lemma check_for_create_spec s D p c name : dir_at s D p c -> inlink (inode_at s p) <> 0 ->
  wp (check_for_create (INode_new fs p) name)
     (fun _ s' => dir_map c name = None /\ follows s s' /\ same_view s s')
     (fun e s' => (is_Some (dir_map c name) /\ e = AlreadyExists \/ io_error e /\ ~ healthy s) /\ follows s s' /\ same_view s s') s.
Proof.
  intros Hd Hl. destruct (dir_at_size fs _ _ _ _ Hd) as [_ Hr]. unfold check_for_create. apply wp_bind.
  eapply wp_mono; [apply (read_raw_inode_spec fs Hfs); [apply Hd|done]| |].
  2:{ intros e s' (? & ? & ? & ?). split; [by right|done]. }
  intros i s1 (-> & Hf & Hv). rewrite decide_False by (rewrite (da_type _ _ _ _ _ Hd); tauto).
  destruct (Z.eqb_spec (inlink (inode_at s p)) 0); [done|]. apply wp_bind.
  eapply wp_mono; [apply (INode_lookup_spec fs Hfs s1 D p c); by eapply dir_at_same| |].
  - intros o s2 (-> & Hf2 & Hv2). assert (follows s s2) by (by eapply follows_trans).
    assert (same_view s s2) by (by rewrite Hv). unfold dir_map.
    destruct (find_entry name (entries c)); [apply wp_fail|by apply wp_ret]. split; [left|done]. by split.
  - intros e s2 Hio. pose proof (io_fail_from _ _ _ _ Hf Hv Hio) as (? & ? & ? & ?). split; [by right|done].
Qed.

(** The state in which a failed creation leaves the volume. *)
Definition create_failed (D : gset Z) (p : Z) (s : St) (e : FsErrorKind) (s' : St) : Prop :=
  (e = NoSpaceLeft \/ e = AlreadyExists \/ io_error e /\ ~ healthy s) /\ follows s s' /\ fs_ok s' D /\
  forall m, m ∈ D -> m <> p -> inode_at s' m = inode_at s m /\ file s' m = file s m.

Record created (D : gset Z) (p : Z) (c name : list Z) (s : St) (n : Z) (s' : St) : Prop := {
  cr_follows : follows s s';
  cr_new : n ∉ D;
  cr_vol : vol_ok s' ({[n]} ∪ D);
  cr_empty : file s' n = [];
  cr_type : file_type (inode_at s' n) = File;
  cr_nlink : inlink (inode_at s' n) = 1;
  cr_dir : exists c', dir_at s' ({[n]} ∪ D) p c' /\
    forall nm, dir_map c' nm = if decide (nm = name) then Some n else dir_map c nm;
  cr_other m : m ∈ D -> m <> p -> inode_at s' m = inode_at s m /\ file s' m = file s m
}.

Lemma create_failed_dealloc D p s n s1 e : fs_ok s D -> in_table_range fs n -> create_failed D p s e s1 ->
  wp (dealloc_inode fs n;; fail (A:=unit) e) (fun _ _ => False) (create_failed D p s) s1.
Proof.
  intros Hok Hn (He & Hf & Hok1 & Hoth). apply wp_bind. eapply wp_mono; [apply dealloc_inode_spec; [apply Hf|done]| |].
  - intros _ s2 (Hf2 & Ho2). apply wp_fail. destruct (fs_ok_outer fs Hfs D s1 s2 Hok1 Ho2) as [Hok2 Hs2].
    split; [done|]. split; [by eapply follows_trans|]. split; [done|]. intros m Hm Hne.
    destruct (Hs2 m Hm) as [-> ->]. by apply Hoth.
  - intros e' s2 (Hio & Hh & Hf2 & Ho2). destruct (fs_ok_outer fs Hfs D s1 s2 Hok1 Ho2) as [Hok2 Hs2].
    split; [right; right; split; [done|intros Hh0; by apply Hh, Hf]|]. split; [by eapply follows_trans|].
    split; [done|]. intros m Hm Hne. destruct (Hs2 m Hm) as [-> ->]. by apply Hoth.
Qed.

(** The closure of [create_file], on the inode that was taken. *)
Lemma create_init_spec s s1 D p c name n : vol_ok s D -> dir_at s D p c -> dir_map c name = None ->
  zlen name <= EFS_NAME_LEN -> Forall is_byte name -> zlen c + RAW_DIRENT_SIZE <= MAX_FILE_SIZE ->
  in_table_range fs n -> n <> 0 -> n ∉ D -> file_type (inode_at s n) = Unknown -> follows s s1 -> outer fs s s1 ->
  (forall n', in_table_range fs n' -> ibit s1 n' = bool_decide (n' = n) || ibit s n') ->
  wp (init_inode (INode_new fs n) File 0;; link fs (INode_new fs p) (INode_new fs n) name)
     (fun _ s' => created D p c name s n s') (create_failed D p s) s1.
Proof.
  intros [Hok Hfree] Hd Hno Hlen Hb Hmax Hn Hn0 HnD Hty Hf Ho Hbits.
  destruct (fs_ok_outer fs Hfs D s s1 Hok Ho) as [Hok1 Hs1]. pose proof (da_in _ _ _ _ _ Hd) as HpD.
  assert (Hat1 : forall m, in_table_range fs m -> inode_at s1 m = inode_at s m).
  { intros m [Hm _]. by apply (outer_inode_at fs). }
  apply wp_bind. eapply wp_mono; [apply (init_inode_spec s1 D n File 0); try done; [apply Hf|by rewrite Hat1]| |].
  2:{ intros e s' (Hio & Hf' & Hv' & Hh). destruct (only_file_same fs Hfs D p s1 s' Hok1 Hf' Hv') as [[F K I _ _] C].
      split; [right; right; split; [done|intros Hh0; by apply Hh, Hf]|]. split; [by eapply follows_trans|]. split; [done|].
      intros m Hm Hne. destruct (Hs1 m Hm) as [<- <-]. split; [apply I; [by apply (fo_inode _ _ _ Hok)|done]|by apply C]. }
  intros _ s2 (Hf2 & Hok2 & Hempty & Hino & Hold & Hat2 & Hbits2).
  assert (Hrange : forall m, m ∈ D -> in_table_range fs m) by (intros; by apply (fo_inode _ _ _ Hok)).
  assert (HinD : forall m, m ∈ D -> m ∈ ({[n]} ∪ D : gset Z)) by set_solver.
  pose proof (Hrange p HpD) as Hpr.
  assert (Hpn : p <> n) by (by intros ->).
  assert (Hd2 : dir_at s2 ({[n]} ∪ D) p c).
  { destruct Hd as [_ _ _ Ht Hc Hdok]. destruct (Hold p HpD) as [E1 E2], (Hs1 p HpD) as [E3 E4].
    split; [apply Hf2|done|by apply HinD|by rewrite E1, E3|by rewrite E2, E4|done]. }
  assert (Hnlink : inlink (inode_at s2 n) = 0) by (by rewrite Hino).
  eapply wp_mono; [apply (link_spec s2 ({[n]} ∪ D) p n c name); try done; [set_solver|by rewrite Hino|lia]| |].
  - intros _ s3 [Lf Ldir Lfile Linode Lcount Ltype Llow]. split.
    + eapply follows_trans; [|apply Lf]. by eapply follows_trans.
    + done.
    + split; [by destruct Ldir as (c' & [_ Hok3 _ _ _ _] & _)|]. intros m Hm Hbit.
      rewrite (ibit_frame s2 s3), Hbits2, Hbits in Hbit by done. apply orb_false_iff in Hbit as [Hne%bool_decide_eq_false Hbit].
      destruct (Hfree m Hm Hbit) as [HmD Hmt]. assert (m <> p) by (by intros ->).
      rewrite Linode, Hat2, Hat1 by done. split; [set_solver|done].
    + rewrite Lfile; [done|set_solver|done].
    + by rewrite Ltype, Hino.
    + rewrite Lcount. lia.
    + done.
    + intros m Hm Hne. assert (m <> n) by (by intros ->). destruct (Hold m Hm) as [E1 E2], (Hs1 m Hm) as [E3 E4].
      rewrite Linode, Lfile, E1, E2, E3, E4 by (done || by apply HinD || by apply Hrange). done.
  - intros e s3 ([F K I C _] & He). split; [|split; [|split]].
    + destruct He as [->|[[-> _]|[? Hh]]]; [by right; left|by left|right; right]. split; [done|].
      intros Hh0. apply Hh, Hf2. by apply Hf.
    + eapply follows_trans; [|apply F]. by eapply follows_trans.
    + eapply fs_ok_subset; [|done]. set_solver.
    + intros m Hm Hne. assert (m <> n) by (by intros ->). destruct (Hold m Hm) as [E1 E2], (Hs1 m Hm) as [E3 E4].
      rewrite I, C, E1, E2, E3, E4 by (done || by apply HinD || by apply Hrange). done.
Qed.

Lemma create_file_spec s D p c name : vol_ok s D -> dir_at s D p c -> inlink (inode_at s p) <> 0 -> ibit s 0 = true ->
  zlen name <= EFS_NAME_LEN -> Forall is_byte name -> zlen c + RAW_DIRENT_SIZE <= MAX_FILE_SIZE ->
  wp (create_file fs (INode_new fs p) name)
     (fun n s' => dir_map c name = None /\ created D p c name s n s') (create_failed D p s) s.
Proof.
  intros Hvol Hd Hl H0bit Hlen Hb Hmax. pose proof (vo_fs _ _ Hvol) as Hok. unfold create_file, create_with. apply wp_bind.
  assert (Hsame : forall s' e, (e = NoSpaceLeft \/ e = AlreadyExists \/ io_error e /\ ~ healthy s) ->
    follows s s' -> same_view s s' -> create_failed D p s e s').
  { intros s' e He Hf Hv. destruct (only_file_same fs Hfs D p s s' Hok Hf Hv) as [[F K I _ _] C].
    split; [done|]. split; [done|]. split; [done|]. intros m Hm Hne. split; [|by apply C].
    apply I; [by apply (fo_inode _ _ _ Hok)|done]. }
  eapply wp_mono; [by apply (check_for_create_spec s D p c name)| |].
  2:{ intros e s' (He & Hf & Hv). apply Hsame; [|done|done]. naive_solver. }
  intros _ s1 (Hno & Hf & Hv). apply wp_bind.
  assert (Hbit : forall n, ibit s1 n = ibit s n) by (intros n; unfold ibit, bit, word_of; by rewrite Hv).
  assert (Hvol1 : vol_ok s1 D).
  { destruct (only_file_same fs Hfs D p s s1 Hok Hf Hv) as [[F K I _ _] C]. split; [done|]. intros n Hn.
    rewrite Hbit, (same_inode_at fs s s1) by done. by apply (vo_free _ _ Hvol). }
  eapply wp_mono; [apply (alloc_inode_spec s1 D); [apply Hf|done]| |].
  2:{ intros e s' (He & Hf' & Hv'). apply Hsame; [|by eapply follows_trans|by rewrite Hv].
      destruct He as [?|[? Hh]]; [by left|right; right]. split; [done|]. intros Hh0. apply Hh. by apply Hf. }
  intros n s2 (Hn & Hfree & HnD & Hty & Hf2 & Ho2 & Hbits). rewrite (same_inode_at fs s s1) in Hty by done.
  rewrite Hbit in Hfree. assert (Hn0 : n <> 0) by (intros ->; congruence).
  apply wp_bind, wp_catch. eapply wp_mono; [apply (create_init_spec s s2 D p c name n); try done| |].
  - by eapply follows_trans.
  - intros b Hb'. rewrite Ho2 by done. symmetry. apply Hv.
  - intros n' Hn'. by rewrite Hbits, Hbit.
  - intros u s3 Hcr. by apply wp_ret.
  - intros e s3 Hfail. eapply wp_mono; [by apply create_failed_dealloc| |done]. by intros _ ? [].
Qed.

End create.
