(* ===== verification/MakeSpec.v ===== *)
(** * Making a volume

    [EfsFileSystem::make] (src/fs/redwing_efs/src/fs.rs) turns a device filled
    with zeros into a volume that satisfies the invariant of the other files,
    with the root directory as its only file. *)

From S2P Require Import Prelude Bytes Vfs Store Superblock Bitmap Inode Dir BlockMap FileData EfsFiles DirSpec CreateSpec.
Import Vfs.

#[local] Open Scope Z_scope.
#[local] Open Scope rw_scope.

(** A superblock that [verify] accepts. *)
Record sb_ok (sb : RawSuperBlock) : Prop := {
  sk_fits : sb_fits sb;
  sk_verify : verify sb = Ok tt;
  sk_end : data_start_bno sb + data_blocks sb < 2 ^ 64;
  sk_inodes : 1 <= inode_blocks sb
}.

Definition fs_of (sb : RawSuperBlock) : EfsFileSystem :=
  mkEfs sb (BitmapBlocks_new (inode_bitmap_start_bno sb) (inode_counts sb))
    (BitmapBlocks_new (data_bitmap_start_bno sb) (data_blocks sb)).

Lemma verify_sound sb : sb_fits sb -> verify sb = Ok tt ->
  mul_u64 (inode_blocks sb) NINODES_PER_BLOCK = Ok (inode_counts sb) /\ inode_counts sb < 2 ^ 64 /\
  div_ceil (inode_counts sb) BLOCK_BITS <= inode_bitmap_blocks sb /\
  div_ceil (data_blocks sb) BLOCK_BITS <= data_bitmap_blocks sb.
Proof.
  intros (_ & _ & _ & [? _] & _ & [? _]) Hv. unfold verify in Hv. destruct (negb _); [done|].
  destruct (mul_u64 (inode_blocks sb) NINODES_PER_BLOCK) as [n| |] eqn:Hm; [|done|done].
  destruct (verify_bitmap (inode_bitmap_blocks sb) n) as [[]| |] eqn:H1; [|done..].
  destruct (verify_bitmap (data_bitmap_blocks sb) (data_blocks sb)) as [[]| |] eqn:H2; [|done..].
  assert (n = inode_counts sb /\ n < 2 ^ 64) as [-> ?].
  { unfold mul_u64 in Hm. destruct (Z.leb_spec (2 ^ 64) (inode_blocks sb * 31)); [done|]. simplify_eq.
    unfold inode_counts. lia. }
  split; [done|]. split; [done|]. split; apply verify_bitmap_sound; try done. unfold inode_counts. lia.
Qed.

Lemma fs_of_wf sb : sb_ok sb -> efs_wf (fs_of sb).
Proof.
  intros [Hfit Hv Hend _]. destruct (verify_sound sb Hfit Hv) as (_ & ? & ? & ?).
  pose proof Hfit as (_ & _ & [? _] & [? _] & [? _] & [? _]). by split.
Qed.

Section make.
Context {St : Type} `{BlockStoreLaws St}.
Variable sb : RawSuperBlock.
Hypothesis Hsb : sb_ok sb.
#[local] Notation fs := (fs_of sb).
#[local] Notation SM := (M St FsErrorKind).

Definition blank (s : St) : Prop := forall b, view s b = zero_block.

(** Everything but the superblock and the inode bitmap is still zero. *)
Definition blank_from (s : St) : Prop := forall b, inode_start_bno sb <= b -> view s b = zero_block.

Lemma sb_counts : 1 < inode_start_bno sb /\ 31 <= inode_counts sb < 2 ^ 64.
Proof.
  destruct Hsb as [Hfit Hv _ ?]. destruct (verify_sound sb Hfit Hv) as (_ & ? & _).
  pose proof Hfit as (_ & _ & [? _] & _). unfold inode_counts, inode_start_bno in *. lia.
Qed.

Lemma open_spec s : store_ok s -> blank s ->
  wp (RawSuperBlock_write sb;; new_self_ref_without_verify)
     (fun f s' => f = fs /\ follows s s' /\ (forall b, b <> 1 -> view s' b = zero_block))
     (fun e s' => io_error e /\ ~ healthy s) s.
Proof.
  intros Hs Hz. destruct Hsb as [Hfit Hv _ _]. destruct (verify_sound sb Hfit Hv) as (Hmul & _ & _).
  destruct (view_ok s SUPERBLOCK_BLOCK_NO Hs) as [Hl Hb]. unfold RawSuperBlock_write. apply wp_bind, wp_bind.
  eapply wp_mono; [apply update_spec; [done|]| |].
  { split; [rewrite splice_length; rewrite ?encode_sb_length; lia|].
    apply splice_Forall; [done|apply encode_sb_bytes]. }
  2:{ by intros e s' (? & _ & _ & ?). }
  intros _ s1 (Hf1 & Hv1). eapply wp_mono; [apply flush_spec, Hf1| |].
  2:{ intros e s' (? & _ & _ & Hh). split; [done|]. intros Hh0. by apply Hh, Hf1. }
  intros _ s2 (Hf2 & Hv2). unfold new_self_ref_without_verify, RawSuperBlock_read. apply wp_bind, wp_bind.
  eapply wp_mono; [apply load_spec, Hf2| |].
  2:{ intros e s' (? & _ & _ & Hh). split; [done|]. intros Hh0. by apply Hh, Hf2, Hf1. }
  intros d s3 (-> & Hf3 & Hv3). apply wp_ret, wp_bind.
  rewrite <- Hv2, Hv1, decide_True by done. rewrite decode_encode_sb by (done || lia).
  unfold of_outcome, wp at 1. rewrite Hmul. cbv beta iota. apply wp_ret. split; [done|].
  split; [eapply follows_trans; [|apply Hf3]; by eapply follows_trans|].
  intros b Hb1. rewrite <- Hv3, <- Hv2, Hv1, decide_False by done. apply Hz.
Qed.

Lemma reserve_spec m s no : store_ok s -> 0 <= no -> no + Z.of_nat m <= inode_counts sb ->
  wp (reserve_inodes fs m no)
     (fun _ s' => follows s s' /\ outer fs s s' /\
        forall n, 0 <= n -> ibit fs s' n = (no <=? n) && (n <? no + Z.of_nat m) || ibit fs s n)
     (fun e s' => io_error e /\ ~ healthy s) s.
Proof.
  revert s no. induction m as [|m IH]; intros s no Hs Hno Hle; cbn [reserve_inodes].
  - apply wp_ret. split; [done|]. split; [done|]. intros n Hn.
    destruct (Z.leb_spec no n), (Z.ltb_spec n (no + Z.of_nat 0)); [lia|done..].
  - apply wp_bind. unfold set_inode_bit. eapply wp_mono; [by apply set_bit_spec| |].
    2:{ intros e s' [(_ & Hr & _)|(? & _ & _ & ?)]; [simpl in Hr; lia|done]. }
    intros _ s1 (_ & Hf1 & Hb1 & Ho1). eapply wp_mono; [apply IH; [apply Hf1|lia|lia]| |].
    + intros _ s2 (Hf2 & Ho2 & Hb2). split; [by eapply follows_trans|]. split.
      * intros b Hb. rewrite Ho2 by done. apply Ho1.
        pose proof (inode_bit_block fs (fs_of_wf sb Hsb) no) as Hblk. simpl in *. unfold in_table_range in Hblk. simpl in Hblk.
        lia.
      * intros n Hn. rewrite Hb2 by done. unfold ibit. rewrite Hb1 by done. rewrite orb_assoc. f_equal.
        destruct (Z.leb_spec (no + 1) n), (Z.leb_spec no n), (Z.ltb_spec n (no + 1 + Z.of_nat m)),
          (Z.ltb_spec n (no + Z.of_nat (S m))); case_bool_decide; simpl; try done; lia.
    + intros e s' (? & Hh). split; [done|]. intros Hh0. by apply Hh, Hf1.
Qed.

(** The state of a volume with reserved inodes and nothing else. *)
Lemma blank_fs_ok s : blank_from s -> fs_ok fs s ∅.
Proof.
  intros Hz. split; [|set_solver|set_solver]. intros b [Hb _]. apply Hz.
  pose proof Hsb as [(_ & _ & _ & [? _] & [? _] & [? _]) _ _ _].
  unfold region, ds, data_start_bno, data_bitmap_start_bno in Hb. simpl in Hb. lia.
Qed.

Lemma blank_inode s n : blank_from s -> in_table_range fs n -> file_type (inode_at fs s n) = Unknown.
Proof.
  intros Hz [Hn _]. unfold inode_at. rewrite Hz by (simpl; lia).
  unfold file_type, decode_inode. cbn [typ]. assert (Hd : le_decode (sub 0 4 (sub (blk_offset (INode_new fs n)) 132 zero_block)) = 0).
  { assert (Hall : Forall (fun x => x = 0) (sub 0 4 (sub (blk_offset (INode_new fs n)) 132 zero_block))).
    { apply sub_Forall, sub_Forall. by apply Forall_replicate. }
    induction Hall as [|x l -> Hl IH]; [done|]. cbn [le_decode]. lia. }
  by rewrite Hd.
Qed.

Definition made (s' : St) : Prop :=
  vol_ok fs s' {[ROOT_INODE_NO]} /\ (forall n, 0 <= n < RESERVED_INODES -> ibit fs s' n = true) /\
  inlink (inode_at fs s' ROOT_INODE_NO) = 1 /\
  exists c, dir_at fs s' {[ROOT_INODE_NO]} ROOT_INODE_NO c /\
    forall nm, dir_map c nm = if decide (nm = dot) then Some ROOT_INODE_NO else None.

Lemma root_range : in_table_range fs ROOT_INODE_NO.
Proof. unfold in_table_range. simpl. pose proof sb_counts. lia. Qed.

Lemma empty_dir_ok : dir_ok [].
Proof. split; [done|]. intros k Hk. unfold nents in Hk. simpl in Hk. lia. Qed.

(** Why making a volume fails. *)
Definition make_err (s : St) (e : FsErrorKind) : Prop := e = NoSpaceLeft \/ e = AlreadyExists \/ io_error e /\ ~ healthy s.

Lemma init_root_spec s : store_ok s -> blank_from s ->
  (forall n, 0 <= n < RESERVED_INODES -> ibit fs s n = true) ->
  wp (init_root_dir fs (INode_new fs ROOT_INODE_NO)) (fun _ s' => follows s s' /\ made s') (fun e _ => make_err s e) s.
Proof.
  intros Hs Hz Hbits. pose proof (fs_of_wf sb Hsb) as Hfs. pose proof root_range as Hr. unfold init_root_dir. apply wp_bind.
  eapply wp_mono; [apply (init_inode_spec fs Hfs s ∅ ROOT_INODE_NO Directory 0);
    [done|by apply blank_fs_ok|done|set_solver|by apply blank_inode|done|lia]| |].
  2:{ intros e s' (? & _ & _ & ?). by right; right. }
  intros _ s1 (Hf1 & Hok1 & Hempty & Hino & _ & Hat1 & Hbit1). rewrite union_empty_r_L in Hok1.
  assert (Hd1 : dir_at fs s1 {[ROOT_INODE_NO]} ROOT_INODE_NO []).
  { split; [apply Hf1|done|set_solver|by rewrite Hino|done|apply empty_dir_ok]. }
  eapply wp_mono; [apply (link_spec fs Hfs s1 {[ROOT_INODE_NO]} ROOT_INODE_NO ROOT_INODE_NO [] dot);
    [done|by apply elem_of_singleton|done|done|by rewrite Hino|rewrite Hino; simpl; lia|done
    |repeat constructor; done|unfold MAX_FILE_SIZE; simpl; lia|done]| |].
  - intros _ s2 [Lf Ldir Lfile Linode Lcount Ltype Llow].
    assert (Hb2 : forall n, in_table_range fs n -> ibit fs s2 n = ibit fs s n).
    { intros n Hn. by rewrite (ibit_frame fs Hfs s1 s2), Hbit1. }
    split; [by eapply follows_trans|]. split; [split|split; [|split]].
    + by destruct Ldir as (c & [_ Hok2 _ _ _ _] & _).
    + intros n Hn Hbit. rewrite Hb2 in Hbit by done.
      assert (Hge : RESERVED_INODES <= n).
      { destruct (Z.lt_ge_cases n RESERVED_INODES); [|done]. rewrite Hbits in Hbit; [done|]. unfold in_table_range in Hn. lia. }
      rewrite Linode, Hat1 by (done || lia). split; [|by apply blank_inode]. intros ->%elem_of_singleton. lia.
    + intros n Hn. rewrite Hb2; [by apply Hbits|]. unfold in_table_range. simpl. pose proof sb_counts. lia.
    + rewrite Lcount, Hino. done.
    + destruct Ldir as (c & Hd & Hmap). exists c. split; [done|]. intros nm. rewrite Hmap. done.
  - intros e s2 (_ & [->|[[-> _]|[? Hh]]]); [by right; left|by left|right; right]. split; [done|].
    intros Hh0. by apply Hh, Hf1.
Qed.

Lemma verify_fs_spec s : store_ok s -> made s ->
  wp (verify_fs fs) (fun _ s' => follows s s' /\ same_view s s') (fun e _ => io_error e /\ ~ healthy s) s.
Proof.
  intros Hs (_ & Hbits & _). pose proof sb_counts as [_ Hc]. unfold verify_fs, is_inode_used. apply wp_bind.
  eapply wp_mono; [by apply get_bit_spec| |].
  2:{ intros e s' [(_ & Hr & _)|(? & _ & _ & ?)]; [simpl in Hr; lia|done]. }
  intros r s1 (_ & -> & Hf1 & Hv1). fold (ibit fs s 0). rewrite Hbits by lia. cbn [negb]. apply wp_bind.
  eapply wp_mono; [apply get_bit_spec; [apply Hf1|done]| |].
  2:{ intros e s' [(_ & Hr & _)|(? & _ & _ & Hh)]; [simpl in Hr; lia|]. split; [done|]. intros Hh0. by apply Hh, Hf1. }
  intros r s2 (_ & -> & Hf2 & Hv2).
  assert (Hb1 : bit (inode_bitmap fs) s1 1 = true).
  { unfold bit, word_of. rewrite <- Hv1. apply (Hbits 1). lia. }
  rewrite Hb1. cbn [negb]. unfold of_outcome, wp. simpl. rewrite (sk_verify _ Hsb).
  split; [by eapply follows_trans|by rewrite Hv1].
Qed.

Lemma made_same s s' : follows s s' -> same_view s s' -> made s -> made s'.
Proof.
  intros Hf Hv (Hvol & Hbits & Hl & c & Hd & Hmap). pose proof (fs_of_wf sb Hsb) as Hfs.
  assert (Hb : forall n, ibit fs s' n = ibit fs s n) by (intros; unfold ibit, bit, word_of; by rewrite Hv).
  split; [split|split; [|split]].
  - apply (only_file_same fs Hfs _ 1 s s' (vo_fs _ _ _ Hvol) Hf Hv).
  - intros n Hn. rewrite Hb, (same_inode_at fs s s') by done. by apply (vo_free _ _ _ Hvol).
  - intros n Hn. rewrite Hb. by apply Hbits.
  - by rewrite (same_inode_at fs s s').
  - exists c. split; [|done]. by eapply (dir_at_same fs Hfs).
Qed.

Lemma make_spec s : store_ok s -> blank s ->
  wp (EfsFileSystem_make sb) (fun f s' => f = fs /\ follows s s' /\ made s') (fun e _ => make_err s e) s.
Proof.
  intros Hs Hz. pose proof sb_counts as [Hlow Hc]. unfold EfsFileSystem_make. apply wp_bind.
  unfold of_outcome at 1, wp at 1. rewrite (sk_verify _ Hsb). cbv beta iota.
  pose proof (open_spec s Hs Hz) as Ho. unfold wp, bind in Ho |- *.
  destruct (RawSuperBlock_write sb s) as [[u|e|] s0]; [|right; right; apply Ho|done].
  destruct (new_self_ref_without_verify s0) as [[f|e|] s1]; [|right; right; apply Ho|done].
  destruct Ho as (-> & Hf1 & Hv1).
  assert (Hgoal : wp (reserve_inodes fs (Z.to_nat RESERVED_INODES) 0;; init_root_dir fs (INode_new fs ROOT_INODE_NO);;
    verify_fs fs;; ret fs) (fun f s' => f = fs /\ follows s s' /\ made s') (fun e _ => make_err s e) s1).
  2:{ unfold wp, bind in Hgoal. exact Hgoal. }
  apply wp_bind. eapply wp_mono; [apply reserve_spec; [apply Hf1|lia|lia]| |].
  2:{ intros e _ [? Hh]. right; right. split; [done|]. intros Hh0. by apply Hh, Hf1. }
  intros _ s2 (Hf2 & Ho2 & Hb2). apply wp_bind. eapply wp_mono; [apply init_root_spec| |].
  - apply Hf2.
  - intros b Hb. rewrite Ho2 by done. apply Hv1. lia.
  - intros n Hn. rewrite Hb2 by lia. destruct (Z.leb_spec 0 n), (Z.ltb_spec n (0 + Z.of_nat (Z.to_nat 20))); [done|lia..].
  - intros _ s3 (Hf3 & Hmade). apply wp_bind. eapply wp_mono; [apply verify_fs_spec; [apply Hf3|done]| |].
    + intros _ s4 (Hf4 & Hv4). apply wp_ret. split; [done|]. split; [|by eapply made_same].
      eapply follows_trans; [apply Hf1|]. eapply follows_trans; [apply Hf2|]. by eapply follows_trans.
    + intros e _ [? Hh]. right; right. split; [done|]. intros Hh0. by apply Hh, Hf3, Hf2, Hf1.
  - intros e _ [?|[?|[? Hh]]]; [by left|by right; left|right; right]. split; [done|]. intros Hh0. by apply Hh, Hf2, Hf1.
Qed.

End make.
