(* ===== verification/EfsTheorems.v ===== *)
(** * Properties of the extent file system

    What src/fs/redwing_efs promises about volumes and directories, and the
    runs that break it. *)

From S2P Require Import Prelude Bytes Vfs Store Superblock Bitmap Inode Dir EfsVfs BlockMap FileData EfsFiles DirSpec CreateSpec MakeSpec.
Import Vfs.

#[local] Open Scope Z_scope.
#[local] Open Scope rw_scope.

(** C4. Making a volume on a device filled with zeros gives a volume that
    satisfies the invariant: the root directory is its only file and has the
    entry for itself, the reserved inodes are taken and every other inode is
    free and uninitialised.  It fails only for lack of data blocks or when the
    device or the allocator of buffers fails. *)
Theorem make_volume {St : Type} `{BlockStoreLaws St} (sb : RawSuperBlock) (s : St) :
  sb_ok sb -> store_ok s -> blank s ->
  wp (EfsFileSystem_make sb)
     (fun fs s' => fs = fs_of sb /\ follows s s' /\ efs_wf fs /\ vol_ok fs s' {[ROOT_INODE_NO]} /\
        (forall n, 0 <= n < RESERVED_INODES -> ibit fs s' n = true) /\
        inlink (inode_at fs s' ROOT_INODE_NO) = 1 /\
        exists c, dir_at fs s' {[ROOT_INODE_NO]} ROOT_INODE_NO c /\
          forall nm, dir_map c nm = if decide (nm = dot) then Some ROOT_INODE_NO else None)
     (fun e _ => e = NoSpaceLeft \/ e = AlreadyExists \/ io_error e /\ ~ healthy s) s.
Proof.
  intros Hsb Hs Hz. eapply wp_mono; [by apply make_spec| |done].
  intros fs s' (-> & Hf & Hvol & Hbits & Hl & Hd). split_and!; try done. by apply fs_of_wf.
Qed.

(** C5. Looking a name up in a directory returns the first used entry of that
    name, [None] when there is none; it changes nothing and fails only when
    the device or the allocator of buffers does. *)
Theorem lookup_refines {St : Type} `{BlockStoreLaws St} (fs : EfsFileSystem) (s : St) (D : gset Z) (n : Z) (c name : list Z) :
  efs_wf fs -> dir_at fs s D n c ->
  wp (INode_lookup (INode_new fs n) name)
     (fun r s' => r = find_entry name (entries c) /\ follows s s' /\ same_view s s') (io_fail s) s.
Proof. intros Hfs. apply (INode_lookup_spec fs Hfs). Qed.

(** C3. Creating a file in a directory takes a free inode, makes it an empty
    file with one link and inserts the name into the directory; the names
    that were there and all other files stay as they are, and the invariant
    of the volume is kept.  A name that exists is refused.  A failure leaves
    the other files alone and the files of the volume well formed. *)
Theorem create_file_refines {St : Type} `{BlockStoreLaws St} (fs : EfsFileSystem) (s : St) (D : gset Z) (p : Z) (c name : list Z) :
  efs_wf fs -> vol_ok fs s D -> dir_at fs s D p c -> inlink (inode_at fs s p) <> 0 -> ibit fs s INVALID_INODE_NO = true ->
  zlen name <= EFS_NAME_LEN -> Forall is_byte name -> zlen c + RAW_DIRENT_SIZE <= MAX_FILE_SIZE ->
  wp (create_file fs (INode_new fs p) name)
     (fun n s' => dir_map c name = None /\ n ∉ D /\ vol_ok fs s' ({[n]} ∪ D) /\ file fs s' n = [] /\
        file_type (inode_at fs s' n) = File /\ inlink (inode_at fs s' n) = 1 /\
        (exists c', dir_at fs s' ({[n]} ∪ D) p c' /\
           forall nm, dir_map c' nm = if decide (nm = name) then Some n else dir_map c nm) /\
        forall m, m ∈ D -> m <> p -> inode_at fs s' m = inode_at fs s m /\ file fs s' m = file fs s m)
     (fun e s' => (e = NoSpaceLeft \/ e = AlreadyExists \/ io_error e /\ ~ healthy s) /\ fs_ok fs s' D /\
        forall m, m ∈ D -> m <> p -> inode_at fs s' m = inode_at fs s m /\ file fs s' m = file fs s m) s.
Proof.
  intros Hfs Hvol Hd Hl H0b Hlen Hb Hmax. eapply wp_mono; [by apply (create_file_spec fs Hfs s D p c name)| |].
  - intros n s' (Hno & [? ? ? ? ? ? ? ?]). done.
  - intros e s' (? & ? & ? & ?). done.
Qed.

(** ** A volume *)

Lemma demo_sb_ok : sb_ok demo_sb.
Proof.
  split; [|by vm_compute|by vm_compute|by vm_compute].
  unfold sb_fits, is_u64; simpl. unfold EFS_SB_MAGIC. lia.
Qed.

Lemma ram_store_blank : blank ram_store.
Proof. done. Qed.

Definition made_store : RamStore := snd (EfsFileSystem_make demo_sb ram_store).

Lemma made_store_run : EfsFileSystem_make demo_sb ram_store = (Ok (fs_of demo_sb), made_store).
Proof.
  unfold made_store. assert (Hr : fst (EfsFileSystem_make demo_sb ram_store) = Ok (fs_of demo_sb)) by (by vm_compute).
  rewrite <- Hr. by destruct (EfsFileSystem_make demo_sb ram_store).
Qed.

Lemma made_store_ok : store_ok made_store /\ healthy made_store /\ made demo_sb made_store.
Proof.
  pose proof (make_spec demo_sb demo_sb_ok ram_store (proj1 ram_store_ok) ram_store_blank) as Hm.
  unfold wp in Hm. rewrite made_store_run in Hm. destruct Hm as (_ & [? Hh] & ?).
  split; [done|]. split; [|done]. apply Hh, ram_store_ok.
Qed.

Lemma make_volume_witness :
  exists s', EfsFileSystem_make demo_sb ram_store = (Ok (fs_of demo_sb), s') /\ vol_ok (fs_of demo_sb) s' {[ROOT_INODE_NO]}.
Proof.
  exists made_store. split; [apply made_store_run|].
  pose proof (make_volume demo_sb ram_store demo_sb_ok (proj1 ram_store_ok) ram_store_blank) as Hm.
  unfold wp in Hm. rewrite made_store_run in Hm. apply Hm.
Defined.

Lemma lookup_refines_witness :
  exists c s', dir_map c dot = Some 1 /\
    INode_lookup (INode_new (fs_of demo_sb) 1) dot made_store = (Ok (find_entry dot (entries c)), s').
Proof.
  destruct made_store_ok as (Hs & Hh & _ & _ & _ & c & Hd & Hmap).
  pose proof (lookup_refines (fs_of demo_sb) made_store {[ROOT_INODE_NO]} 1 c dot (fs_of_wf _ demo_sb_ok) Hd) as Hl.
  unfold wp in Hl. destruct (INode_lookup (INode_new (fs_of demo_sb) 1) dot made_store) as [[r|e|] s'].
  - destruct Hl as (-> & _). exists c, s'. split; [by rewrite Hmap|done].
  - by apply io_fail_unhealthy in Hl.
  - done.
Defined.

Lemma create_file_refines_witness :
  exists n s', create_file (fs_of demo_sb) (INode_new (fs_of demo_sb) 1) (bytes_of "init") made_store = (Ok n, s') /\
    file (fs_of demo_sb) s' n = [] /\ vol_ok (fs_of demo_sb) s' ({[n]} ∪ {[ROOT_INODE_NO]}).
Proof.
  destruct made_store_ok as (Hs & Hh & Hvol & Hbits & Hl & c & Hd & Hmap).
  assert (Hr : fst (create_file (fs_of demo_sb) (INode_new (fs_of demo_sb) 1) (bytes_of "init") made_store) = Ok 20)
    by (by vm_compute).
  assert (Hc : zlen c = 80).
  { rewrite <- (da_file _ _ _ _ _ Hd). by vm_compute. }
  assert (Hnl : inlink (inode_at (fs_of demo_sb) made_store 1) <> 0) by (rewrite Hl; lia).
  assert (H0b : ibit (fs_of demo_sb) made_store INVALID_INODE_NO = true) by (apply Hbits; lia).
  assert (Hb : Forall is_byte (bytes_of "init")) by (repeat constructor; done).
  assert (Hm : zlen c + RAW_DIRENT_SIZE <= MAX_FILE_SIZE) by (rewrite Hc; unfold MAX_FILE_SIZE; lia).
  assert (Hn : zlen (bytes_of "init") <= EFS_NAME_LEN) by (simpl; lia).
  pose proof (create_file_refines (fs_of demo_sb) made_store {[ROOT_INODE_NO]} 1 c (bytes_of "init") (fs_of_wf _ demo_sb_ok)
    Hvol Hd Hnl H0b Hn Hb Hm) as Hcr.
  unfold wp in Hcr. destruct (create_file _ _ _ made_store) as [o s']. cbn [fst] in Hr. rewrite Hr in *.
  destruct Hcr as (_ & _ & Hv & Hf & _). exists 20, s'. split; [reflexivity|]. split; [exact Hf|exact Hv].
Defined.

(** ** Runs that break the promises *)

Notation demo := (fs_of demo_sb).

(** The volume with no inode in use. *)
Definition made_vfs : VfsImpl RamStore := mkVfs ∅ made_store.

(** A file name that the virtual file system accepts makes the creation of
    a file panic: names of up to 256 bytes are valid there, and the name array
    of a directory entry has 64. *)
Theorem long_name_panics :
  ValidFileName_try_from (replicate 65 97) = Ok (replicate 65 97) /\
  fst (create_file demo (INode_new demo 1) (replicate 65 97) made_store) = Panic.
Proof. split; by vm_compute. Qed.

(** After a file was deleted its inode is free but still has its type, so
    the next creation takes it and fails with [FileSystemCorruption], and so
    does every later one. *)
Theorem create_after_delete_fails :
  fst ((do a <- vfs_create demo 1 (bytes_of "a") RegularFile;
        drop_ref demo a;;
        vfs_unlink demo 1 (bytes_of "a");;
        catch (vfs_create demo 1 (bytes_of "b") RegularFile) (fun _ => ret 0);;
        vfs_create demo 1 (bytes_of "c") RegularFile) made_vfs) = Err FileSystemCorruption.
Proof. by vm_compute. Qed.

(** A name can be linked twice into a directory: the check for duplicates
    compares the padded name array with the name of the entries. *)
Theorem duplicate_link_accepted :
  fst ((do a <- create_file demo (INode_new demo 1) (bytes_of "a");
        link demo (INode_new demo 1) (INode_new demo a) (bytes_of "a");;
        do l <- INode_get_dirents (INode_new demo 1) 0 10;
        ret ((fun d => (u_inode_no d, take (Z.to_nat (u_name_len d)) (u_name d))) <$> snd l)) made_store)
  = Ok [(1, dot); (20, bytes_of "a"); (20, bytes_of "a")].
Proof. by vm_compute. Qed.

(** A block that a file gives back is not cleared, and the next tree that
    takes it as a table reads block pointers from the bytes of the file: a
    write to file [b] then goes to the block that the bytes of file [a] name,
    here the superblock. *)
Theorem freed_block_becomes_table :
  fst ((do a <- create_file demo (INode_new demo 1) (bytes_of "a");
        do b <- create_file demo (INode_new demo 1) (bytes_of "b");
        raw_write demo (INode_new demo b) 0 (replicate (Z.to_nat (12 * BLOCK_SIZE)) 0);;
        raw_write demo (INode_new demo a) 0 (le_encode 8 SUPERBLOCK_BLOCK_NO);;
        raw_truncate demo (INode_new demo a) 0;;
        raw_write demo (INode_new demo b) (12 * BLOCK_SIZE) (replicate (Z.to_nat BLOCK_SIZE) 7);;
        load SUPERBLOCK_BLOCK_NO) made_store)
  = Ok (replicate (Z.to_nat BLOCK_SIZE) 7).
Proof. by vm_compute. Qed.

(** Truncating a file frees its indirect block and keeps the pointer: the
    file and the next one that allocates share the block. *)
Theorem truncate_keeps_indirect_pointer :
  fst ((do a <- create_file demo (INode_new demo 1) (bytes_of "a");
        do b <- create_file demo (INode_new demo 1) (bytes_of "b");
        raw_write demo (INode_new demo a) 0 (replicate (Z.to_nat (12 * BLOCK_SIZE + 1)) 0);;
        do i <- read_raw_inode (INode_new demo a);
        raw_truncate demo (INode_new demo a) 0;;
        do i' <- read_raw_inode (INode_new demo a);
        do u <- is_data_block_used demo (indirect_blk_ptr i');
        ret (isize i', bool_decide (indirect_blk_ptr i' = indirect_blk_ptr i /\ indirect_blk_ptr i <> 0), u)) made_store)
  = Ok (0, true, false).
Proof. by vm_compute. Qed.

(** A volume with one data block. *)
Definition tiny_sb : RawSuperBlock := mkSuperBlock EFS_SB_MAGIC (4096 * 8) 1 3 1 1.
Notation tiny := (fs_of tiny_sb).

(** [n] files with one-byte names. *)
Fixpoint create_many (n : nat) (c : Z) : M RamStore FsErrorKind unit :=
  match n with
  | O => ret tt
  | S n' => create_file tiny (INode_new tiny 1) [c];; create_many n' (c + 1)
  end.

(** When no data block is left, an entry that crosses the end of a block is
    written in part and the part stays: the directory is left with 16 bytes
    too many, and looking up a name that is not in it fails from then on. *)
Theorem torn_entry_breaks_directory :
  let h := INode_new tiny 1 in
  fst ((EfsFileSystem_make tiny_sb;;
        create_many 50 128;;
        do r <- (fun s => (Ok (fst (create_file tiny h (bytes_of "x") s)), snd (create_file tiny h (bytes_of "x") s)));
        do i <- read_raw_inode h;
        do l <- (fun s => (Ok (fst (INode_lookup h (bytes_of "y") s)), s));
        ret (r, isize i, l)) ram_store)
  = Ok (Err NoSpaceLeft, 51 * RAW_DIRENT_SIZE + 16, Err InvalidData).
Proof. by vm_compute. Qed.
