(* ===== verification/Buddy.v ===== *)
(** * The buddy allocator (src/kernel/src/mmu/buddy.rs, types.rs, mod.rs)

    The page frames are entries of the table [PAGES]; a free block is named by
    its first page, which is in the intrusive list of its order and carries
    the flag [is_free] and the order in [buddy_flags].  Addresses are those of
    the direct mapping.  The methods of [BuddyAllocatorImpl] run under the lock
    of the allocator, so a call of one of them is a computation over the whole
    state; [debug_assert!] and overflow checks panic as in a build with them.
    The functions of the kernel in front of it have a list of pages for every
    CPU and take the lock anew for every page that they move: the last section
    is a machine of all CPUs, whose steps are what a CPU does between two
    acquisitions of the lock. *)

From S2P Require Import Prelude Superblock.

#[local] Open Scope Z_scope.
#[local] Open Scope rw_scope.

Notation PGSIZE := 4096.
Definition MAX_ORDER : nat := 9.
Definition DIRECT_MAPPING_BASE_VADDR : Z := 0xD0000000.
Definition DIRECT_MAPPING_SIZE : Z := 128 * 1024 * 1024.
Definition DIRECT_MAPPING_END_VADDR : Z := DIRECT_MAPPING_BASE_VADDR + DIRECT_MAPPING_SIZE.

Notation BASE := DIRECT_MAPPING_BASE_VADDR.
Notation END := DIRECT_MAPPING_END_VADDR.

(** ** Page frames (types.rs) *)

(** [link.is_linked()] and [buddy_flags]. *)
Record Page : Type := mkPage { buddy_flags : Z; linked : bool }.

Definition Page_new : Page := mkPage 0 false.

Definition is_free (p : Page) : bool := negb (Z.land (buddy_flags p) 128 =? 0).
Definition set_free (p : Page) : Page := mkPage (Z.lor (buddy_flags p) 128) (linked p).
Definition clear_free (p : Page) : Page := mkPage (Z.land (buddy_flags p) 127) (linked p).
Definition pgf_order (p : Page) : Z := Z.land (buddy_flags p) 127.
Definition set_pgf_order (order : Z) (p : Page) : Page :=
  mkPage (Z.lor (Z.land (buddy_flags p) 128) order) (linked p).
Definition set_linked (b : bool) (p : Page) : Page := mkPage (buddy_flags p) b.

(** ** The allocator *)

Record FreeArea : Type := mkArea { flist : list Z; nr_free : Z }.

Record BuddyAllocatorImpl : Type := mkBuddy {
  (** [PAGES], by address; a page without an entry is as [Page::new] made it. *)
  pages : gmap Z Page;
  free_area : list FreeArea;
  free_size : Z;
  start_address : Z
}.

Definition BuddyAllocatorImpl_default : BuddyAllocatorImpl :=
  mkBuddy ∅ (replicate MAX_ORDER (mkArea [] 0)) 0 0.

#[local] Notation BM := (M BuddyAllocatorImpl Empty_set).

Definition page_at (st : BuddyAllocatorImpl) (paddr : Z) : Page := default Page_new (pages st !! paddr).

(** [paddr_to_page] indexes the table: an address outside of the mapping
    panics. *)
Definition valid_page (paddr : Z) : bool := (paddr mod PGSIZE =? 0) && (BASE <=? paddr) && (paddr <? END).

Definition get_page (paddr : Z) : BM Page :=
  assert_ (valid_page paddr);; do st <- get; ret (page_at st paddr).

Definition update_page (paddr : Z) (f : Page -> Page) : BM unit :=
  assert_ (valid_page paddr);;
  modify (fun st => mkBuddy (<[paddr := f (page_at st paddr)]> (pages st)) (free_area st) (free_size st) (start_address st)).

Definition area (st : BuddyAllocatorImpl) (order : nat) : FreeArea := default (mkArea [] 0) (free_area st !! order).

(** [self.free_area[order]]; an index out of range panics. *)
Definition get_area (order : nat) : BM FreeArea := do st <- get; unwrap (free_area st !! order).

Definition set_area (order : nat) (a : FreeArea) : BM unit :=
  modify (fun st => mkBuddy (pages st) (<[order := a]> (free_area st)) (free_size st) (start_address st)).

Definition set_free_size (z : Z) : BM unit :=
  modify (fun st => mkBuddy (pages st) (free_area st) z (start_address st)).

Definition block_size (order : nat) : Z := PGSIZE * 2 ^ Z.of_nat order.

(** ** [FreeArea] *)

(** The list links the page; linking a linked page panics. *)
Definition FreeArea_push_front (order : nat) (pgf : Z) : BM unit :=
  do p <- get_page pgf;
  assert_ (negb (is_free p));;
  assert_ (negb (linked p));;
  update_page pgf (fun p => set_linked true (set_free p));;
  do a <- get_area order;
  set_area order (mkArea (pgf :: flist a) (nr_free a + 1)).

Definition FreeArea_pop_front (order : nat) : BM (option Z) :=
  do a <- get_area order;
  match flist a with
  | [] => ret None
  | pgf :: l =>
    do p <- get_page pgf;
    assert_ (is_free p);;
    update_page pgf (fun p => clear_free (set_linked false p));;
    assert_ (1 <=? nr_free a);;
    set_area order (mkArea l (nr_free a - 1));;
    ret (Some pgf)
  end.

Definition FreeArea_expand (order : nat) : BM (option (Z * Z)) :=
  assert_ (negb (order =? 0)%nat);;
  let bsize := 2 ^ (Z.of_nat order + 12) in
  do o <- FreeArea_pop_front order;
  match o with
  | None => ret None
  | Some pgf =>
    let pgf2 := pgf + bsize / 2 in
    get_page pgf2;;
    update_page pgf clear_free;;
    update_page pgf2 clear_free;;
    ret (Some (pgf, pgf2))
  end.

Definition get_buddy_addr (start addr : Z) (order : nat) : BM Z :=
  assert_ (start <=? addr);;
  ret (Z.lxor (addr - start) (Z.shiftl 1 (Z.of_nat order + 12)) + start).

(** Removing a page from a list that does not have it is undefined. *)
Definition list_remove (order : nat) (pgf : Z) : BM unit :=
  do a <- get_area order;
  assert_ (bool_decide (pgf ∈ flist a));;
  update_page pgf (set_linked false);;
  set_area order (mkArea (filter (fun x => x <> pgf) (flist a)) (nr_free a)).

Definition FreeArea_merge (start : Z) (order : nat) : BM (option Z) :=
  do a <- get_area order;
  match flist a with
  | [] => ret None
  | head_addr :: _ =>
    do buddy_addr <- get_buddy_addr start head_addr order;
    do buddy_pgf <- get_page buddy_addr;
    if negb (pgf_order buddy_pgf =? Z.of_nat order) || negb (is_free buddy_pgf) then ret None else
    list_remove order head_addr;;
    list_remove order buddy_addr;;
    do a <- get_area order;
    assert_ (2 <=? nr_free a);;
    set_area order (mkArea (flist a) (nr_free a - 2));;
    update_page head_addr clear_free;;
    update_page buddy_addr clear_free;;
    ret (Some (if head_addr <? buddy_addr then head_addr else buddy_addr))
  end.

Definition is_empty (a : FreeArea) : bool := match flist a with [] => true | _ => false end.

(** ** [BuddyAllocatorImpl] *)

(** The [while] loop of [init] for one order; it makes [n] turns at most. *)
Fixpoint init_area (n : nat) (order : nat) (addr end_addr : Z) : BM Z :=
  match n with
  | O => panic
  | S n' =>
    if addr + block_size order <=? end_addr then
      update_page addr (set_pgf_order (Z.of_nat order));;
      FreeArea_push_front order addr;;
      init_area n' order (addr + block_size order) end_addr
    else ret addr
  end.

(** [for order in (0..MAX_ORDER).rev()], [n] being the number of orders left. *)
Fixpoint init_orders (n : nat) (addr end_addr : Z) : BM unit :=
  match n with
  | O => ret tt
  | S order =>
    do addr' <- init_area (S (Z.to_nat ((end_addr - addr) / block_size order))) order addr end_addr;
    do st <- get;
    set_free_size (free_size st + (addr' - addr));;
    init_orders order addr' end_addr
  end.

Definition BuddyAllocatorImpl_init (base_addr end_addr : Z) : BM unit :=
  modify (fun st => mkBuddy (pages st) (free_area st) (free_size st) base_addr);;
  init_orders MAX_ORDER base_addr end_addr.

(** [expand]: the recursion goes up the orders, and the loop tries its order
    again after the order above was split; [n] bounds the turns. *)
Fixpoint expand (n : nat) (order : nat) : BM bool :=
  match n with
  | O => panic
  | S n' =>
    assert_ (negb (order =? 0)%nat);;
    do st <- get;
    if (length (free_area st) <=? order)%nat then ret false else
    do o <- FreeArea_expand order;
    match o with
    | Some (block1, block2) =>
      update_page block1 (set_pgf_order (Z.of_nat order - 1));;
      update_page block2 (set_pgf_order (Z.of_nat order - 1));;
      FreeArea_push_front (order - 1) block2;;
      FreeArea_push_front (order - 1) block1;;
      ret true
    | None =>
      do b <- expand n' (order + 1);
      if b then expand n' order else ret false
    end
  end.

Definition expand_fuel (order : nat) : nat := 11 - order.

Definition alloc_by_order (order : nat) : BM (option Z) :=
  do st <- get;
  if (length (free_area st) <=? order)%nat then ret None else
  do a <- get_area order;
  do ok <- (if is_empty a then expand (expand_fuel (order + 1)) (order + 1) else ret true);
  if negb ok then ret None else
  do o <- FreeArea_pop_front order;
  do pgf <- unwrap o;
  do st <- get;
  assert_ (block_size order <=? free_size st);;
  set_free_size (free_size st - block_size order);;
  do p <- get_page pgf;
  assert_ (negb (is_free p));;
  assert_ (negb (linked p));;
  ret (Some pgf).

(** [for order in order..(self.free_area.len() - 1)]; [n] turns are left. *)
Fixpoint merge_loop (n : nat) (order : nat) : BM unit :=
  match n with
  | O => ret tt
  | S n' =>
    do st <- get;
    do o <- FreeArea_merge (start_address st) order;
    match o with
    | Some pgf =>
      update_page pgf (set_pgf_order (Z.of_nat order + 1));;
      FreeArea_push_front (order + 1) pgf;;
      merge_loop n' (order + 1)
    | None => ret tt
    end
  end.

Definition merge (order : nat) : BM unit :=
  do st <- get; merge_loop (length (free_area st) - 1 - order) order.

Definition free_by_order (ptr : Z) (order : nat) : BM unit :=
  do st <- get;
  if (length (free_area st) <=? order)%nat then panic else
  do p <- get_page ptr;
  assert_ (negb (is_free p));;
  assert_ (negb (linked p));;
  update_page ptr (set_pgf_order (Z.of_nat order));;
  FreeArea_push_front order ptr;;
  do st <- get;
  set_free_size (free_size st + block_size order);;
  merge order.

(** ** Per-CPU lists of single pages *)

Notation PAGE_CACHE_LIST_LIMIT := 64.
Notation PAGE_CACHE_LIST_BATCHCOUNT := 16%nat.

Record PageCacheList : Type := mkPageCache { cache_list : list Z; cache_list_len : Z }.
Definition PageCacheList_new : PageCacheList := mkPageCache [] 0.

#[local] Notation CM := (M (PageCacheList * BuddyAllocatorImpl) Empty_set).

(** Pushing links the page, popping unlinks it. *)
Definition cache_push_front (pg : Z) : CM unit :=
  do p <- lift (get_page pg);
  lift (assert_ (negb (linked p)));;
  lift (update_page pg (set_linked true));;
  do c <- get_focus;
  put_focus (mkPageCache (pg :: cache_list c) (cache_list_len c + 1)).

(** [cache_list.pop_front()], and one less in the list. *)
Definition cache_pop_front : CM (option Z) :=
  do c <- get_focus;
  match cache_list c with
  | page :: l =>
    lift (update_page page (set_linked false));;
    lift (assert_ (1 <=? cache_list_len c));;
    put_focus (mkPageCache l (cache_list_len c - 1));;
    ret (Some page)
  | [] => ret None
  end.

(** A turn of the loop of [alloc_page], and whether the loop goes on.  The
    lock of the allocator is held until the page is in the list. *)
Definition refill_turn : CM bool :=
  do o <- lift (alloc_by_order 0);
  match o with
  | Some pg => cache_push_front pg;; ret true
  | None => ret false
  end.

(** [for _ in 0..PAGE_CACHE_LIST_BATCHCOUNT], when no other CPU is between
    its turns. *)
Fixpoint refill (n : nat) : CM unit :=
  match n with
  | O => ret tt
  | S n' => do go <- refill_turn; if (go : bool) then refill n' else ret tt
  end.

(** [alloc_page] calls itself once, when the list has been refilled; [n] is
    the number of calls. *)
Fixpoint cache_alloc_page (n : nat) : CM (option Z) :=
  match n with
  | O => panic
  | S n' =>
    do o <- cache_pop_front;
    match o with
    | Some page => ret (Some page)
    | None =>
      do c <- get_focus;
      let old_len := cache_list_len c in
      refill PAGE_CACHE_LIST_BATCHCOUNT;;
      do c <- get_focus;
      if negb (old_len =? cache_list_len c) then cache_alloc_page n' else ret None
    end
  end.

(** [pop_back().unwrap_unchecked()]: popping from an empty list is undefined. *)
Definition drain_pop : CM Z :=
  do c <- get_focus;
  match last (cache_list c) with
  | None => panic
  | Some pg =>
    lift (update_page pg (set_linked false));;
    lift (assert_ (1 <=? cache_list_len c));;
    put_focus (mkPageCache (removelast (cache_list c)) (cache_list_len c - 1));;
    ret pg
  end.

(** The loop of [dealloc_page], when no other CPU is between its turns. *)
Fixpoint drain (n : nat) : CM unit :=
  match n with
  | O => ret tt
  | S n' => do pg <- drain_pop; lift (free_by_order pg 0);; drain n'
  end.

Definition cache_dealloc_page (ptr : Z) : CM unit :=
  cache_push_front ptr;;
  do c <- get_focus;
  if cache_list_len c <? PAGE_CACHE_LIST_LIMIT then ret tt
  else drain PAGE_CACHE_LIST_BATCHCOUNT.

(** ** The global functions *)

Definition global_alloc_by_order (order : nat) : CM (option Z) :=
  lift (assert_ (order <? MAX_ORDER)%nat);;
  if (order =? 0)%nat then cache_alloc_page 2 else lift (alloc_by_order order).

Definition global_free_by_order (ptr : Z) (order : nat) : CM unit :=
  lift (assert_ (order <? MAX_ORDER)%nat);;
  if (order =? 0)%nat then cache_dealloc_page ptr else lift (free_by_order ptr order).

(** [find_order]: [div_ceil], [next_power_of_two], [trailing_zeros]. *)
Definition next_power_of_two (n : Z) : Z := if n <=? 1 then 1 else 2 ^ Z.log2_up n.
Definition find_order (size : Z) : nat := Z.to_nat (Z.log2 (next_power_of_two (div_ceil size PGSIZE))).

(** ** All the CPUs

    The lists of the CPUs and the one allocator.  A CPU disables interrupts
    while it uses its list, so it is in one call at a time; the lock of the
    allocator is taken and released in every turn of a loop, and other CPUs
    may use the allocator in between. *)

Definition MAX_NCPU : nat := 8.

(** Where a CPU is: outside of the allocator; in the loop of [alloc_page] with
    [n] turns left; in the loop of [dealloc_page], before a turn, or with the
    page that it has taken out of its list and not freed yet. *)
Inductive cpu_pc : Type :=
| Outside
| Refilling (n : nat) (old_len : Z)
| Draining (n : nat)
| Freeing (n : nat) (pg : Z).

#[export] Instance cpu_pc_eq_dec : EqDecision cpu_pc.
Proof. solve_decision. Defined.

Record Machine : Type := mkMachine {
  PAGE_CACHE_LIST : list PageCacheList;
  BUDDY_ALLOCATOR : BuddyAllocatorImpl;
  pcs : list cpu_pc
}.

#[local] Notation MM := (M Machine Empty_set).

(** CPU [i] works on its list and the allocator. *)
Definition on_cpu {A} (i : nat) (m : CM A) : MM A :=
  fun s =>
    match PAGE_CACHE_LIST s !! i with
    | None => (Panic, s)
    | Some c => let '(r, (c', st')) := m (c, BUDDY_ALLOCATOR s) in (r, mkMachine (<[i := c']> (PAGE_CACHE_LIST s)) st' (pcs s))
    end.

Definition goto (i : nat) (pc : cpu_pc) : MM unit :=
  modify (fun s => mkMachine (PAGE_CACHE_LIST s) (BUDDY_ALLOCATOR s) (<[i := pc]> (pcs s))).

(** A call is still running, has freed, or has allocated a block or failed. *)
Inductive answer : Type := Running | Freed | Allocated (o : option Z).

(** [alloc_page], up to its loop. *)
Definition enter_alloc_page (i : nat) : MM answer :=
  do o <- on_cpu i cache_pop_front;
  match o with
  | Some page => goto i Outside;; ret (Allocated (Some page))
  | None =>
    do c <- on_cpu i get_focus;
    goto i (Refilling PAGE_CACHE_LIST_BATCHCOUNT (cache_list_len c));; ret Running
  end.

Definition cpu_alloc_by_order (i order : nat) : MM answer :=
  assert_ (order <? MAX_ORDER)%nat;;
  if (order =? 0)%nat then enter_alloc_page i
  else do o <- on_cpu i (lift (alloc_by_order order)); ret (Allocated o).

(** [dealloc_page], up to its loop. *)
Definition enter_dealloc_page (i : nat) (ptr : Z) : MM answer :=
  on_cpu i (cache_push_front ptr);;
  do c <- on_cpu i get_focus;
  if cache_list_len c <? PAGE_CACHE_LIST_LIMIT then ret Freed
  else goto i (Draining PAGE_CACHE_LIST_BATCHCOUNT);; ret Running.

Definition cpu_free_by_order (i : nat) (ptr : Z) (order : nat) : MM answer :=
  assert_ (order <? MAX_ORDER)%nat;;
  if (order =? 0)%nat then enter_dealloc_page i ptr
  else on_cpu i (lift (free_by_order ptr order));; ret Freed.

(** The next turn of the loop that CPU [i] is in; after [alloc_page] has filled
    the list it calls itself. *)
Definition cpu_go_on (i : nat) (pc : cpu_pc) : MM answer :=
  match pc with
  | Outside => ret Running
  | Refilling (S n) old_len =>
    do go <- on_cpu i refill_turn;
    goto i (Refilling (if (go : bool) then n else O) old_len);; ret Running
  | Refilling O old_len =>
    do c <- on_cpu i get_focus;
    if negb (old_len =? cache_list_len c) then enter_alloc_page i
    else goto i Outside;; ret (Allocated None)
  | Draining (S n) => do pg <- on_cpu i drain_pop; goto i (Freeing n pg);; ret Running
  | Draining O => goto i Outside;; ret Freed
  | Freeing n pg => on_cpu i (lift (free_by_order pg 0));; goto i (Draining n);; ret Running
  end.

(** [BuddyAllocatorState::current]: the lengths of the lists are read without
    stopping the other CPUs. *)
Record BuddyAllocatorState : Type := mkBState { s_free_size : Z; free_blocks : list Z; cached_pages : Z }.
Definition current (s : Machine) : BuddyAllocatorState :=
  let cached := foldr (fun c n => cache_list_len c + n) 0 (PAGE_CACHE_LIST s) in
  mkBState (free_size (BUDDY_ALLOCATOR s) + cached * PGSIZE) (nr_free <$> free_area (BUDDY_ALLOCATOR s)) cached.
Definition is_memory_leaky (a b : BuddyAllocatorState) : bool := negb (s_free_size a =? s_free_size b).

(** *** Histories

    What the CPUs do, one step at a time, and the blocks [held] that the
    kernel has been given and has not returned.  A CPU that is in a call does
    not begin another one, and only blocks that are held are freed. *)
Inductive event : Type :=
| Alloc (i order : nat)
| Free (i : nat) (ptr : Z) (order : nat)
| GoOn (i : nat).

Definition record_answer (order : nat) (a : answer) (held : gmap Z nat) : gmap Z nat :=
  match a with Allocated (Some ptr) => <[ptr := order]> held | _ => held end.

(** One event: the answer and the state after it; none when it panics. *)
Definition run_event (e : event) (s : Machine) (held : gmap Z nat) : option (answer * Machine * gmap Z nat) :=
  match e with
  | Alloc i order =>
    if bool_decide (pcs s !! i = Some Outside) then
      match cpu_alloc_by_order i order s with (Ok a, s') => Some (a, s', record_answer order a held) | _ => None end
    else Some (Running, s, held)
  | Free i ptr order =>
    if bool_decide (pcs s !! i = Some Outside) && bool_decide (held !! ptr = Some order) then
      match cpu_free_by_order i ptr order s with (Ok a, s') => Some (a, s', delete ptr held) | _ => None end
    else Some (Running, s, held)
  | GoOn i =>
    match pcs s !! i with
    | Some pc => match cpu_go_on i pc s with (Ok a, s') => Some (a, s', record_answer 0 a held) | _ => None end
    | None => Some (Running, s, held)
    end
  end.

Fixpoint run_events (l : list event) (s : Machine) (held : gmap Z nat) : option (Machine * gmap Z nat) :=
  match l with
  | [] => Some (s, held)
  | e :: l' => match run_event e s held with Some (_, s', held') => run_events l' s' held' | None => None end
  end.

(** Every CPU outside, with an empty list. *)
Definition Machine_new (st : BuddyAllocatorImpl) : Machine :=
  mkMachine (replicate MAX_NCPU PageCacheList_new) st (replicate MAX_NCPU Outside).
