(* ===== verification/BuddySpec.v ===== *)
(** * Correctness of the buddy allocator

    The abstract state is the map [F] from the first address of each free
    block to its order, and the set [L] of the pages that are linked into
    other lists (the per-CPU lists of single pages).  [rep] relates it to the
    page table and the lists; [blocks_ok] says that the blocks of [F] are
    aligned, inside of the direct mapping and disjoint. *)

From S2P Require Import Prelude Superblock Buddy.

#[local] Open Scope Z_scope.
#[local] Open Scope rw_scope.
#[local] Notation BM := (M BuddyAllocatorImpl Empty_set).

(** ** The flags of a page *)

Lemma flags_table : forallb (fun k =>
  (Z.land k 128 =? 0) && (Z.land (128 + k) 128 =? 128) && (Z.lor k 128 =? 128 + k) &&
  (Z.land (128 + k) 127 =? k) && (Z.land k 127 =? k) && (Z.lor 0 k =? k)) (seqZ 0 128) = true.
Proof. by vm_compute. Qed.

Lemma flags_facts k : 0 <= k < 128 ->
  Z.land k 128 = 0 /\ Z.land (128 + k) 128 = 128 /\ Z.lor k 128 = 128 + k /\
  Z.land (128 + k) 127 = k /\ Z.land k 127 = k /\ Z.lor 0 k = k.
Proof.
  intros Hk. pose proof flags_table as Ht. rewrite forallb_forall in Ht.
  specialize (Ht k). rewrite <- list_elem_of_In in Ht. rewrite elem_of_seqZ in Ht.
  specialize (Ht ltac:(lia)). rewrite !andb_true_iff, !Z.eqb_eq in Ht. tauto.
Qed.

Lemma is_free_false p : 0 <= buddy_flags p < 128 -> is_free p = false.
Proof. intros Hp. unfold is_free. destruct (flags_facts _ Hp) as (-> & _). done. Qed.

Lemma is_free_true p k : 0 <= k < 128 -> buddy_flags p = 128 + k -> is_free p = true /\ pgf_order p = k.
Proof.
  intros Hk Hp. unfold is_free, pgf_order. rewrite Hp. destruct (flags_facts _ Hk) as (_ & -> & _ & -> & _). done.
Qed.

(** ** States up to the representation of the page table *)

Definition upd_page (st : BuddyAllocatorImpl) (a : Z) (p : Page) : BuddyAllocatorImpl :=
  mkBuddy (<[a := p]> (pages st)) (free_area st) (free_size st) (start_address st).
Definition upd_area (st : BuddyAllocatorImpl) (k : nat) (ar : FreeArea) : BuddyAllocatorImpl :=
  mkBuddy (pages st) (<[k := ar]> (free_area st)) (free_size st) (start_address st).

Lemma page_upd_page st a p b : page_at (upd_page st a p) b = if decide (b = a) then p else page_at st b.
Proof.
  unfold page_at, upd_page; simpl. case_decide as Hd; [subst; by rewrite lookup_insert_eq|by rewrite lookup_insert_ne].
Qed.

Lemma page_upd_area st k ar b : page_at (upd_area st k ar) b = page_at st b.
Proof. done. Qed.

(** ** Stepping through the code *)

#[local] Notation bwp m Q st := (wp m Q (fun (_ : Empty_set) _ => False) st).

Lemma wp_get_page a (Q : Page -> _ -> Prop) st : valid_page a = true -> Q (page_at st a) st -> bwp (get_page a) Q st.
Proof. intros Hv HQ. unfold get_page, wp, bind, assert_. by rewrite Hv. Qed.

Lemma wp_update_page a f (Q : unit -> _ -> Prop) st :
  valid_page a = true -> Q tt (upd_page st a (f (page_at st a))) -> bwp (update_page a f) Q st.
Proof. intros Hv HQ. unfold update_page, wp, bind, assert_. by rewrite Hv. Qed.

Lemma wp_get_area k ar (Q : FreeArea -> _ -> Prop) st : free_area st !! k = Some ar -> Q ar st -> bwp (get_area k) Q st.
Proof. intros Ha HQ. unfold get_area, wp, bind, get. by rewrite Ha. Qed.

Lemma wp_set_area k ar (Q : unit -> _ -> Prop) st : Q tt (upd_area st k ar) -> bwp (set_area k ar) Q st.
Proof. done. Qed.

Lemma wp_get (Q : BuddyAllocatorImpl -> _ -> Prop) st : Q st st -> bwp get Q st.
Proof. done. Qed.

(** ** The representation *)

Record rep (st : BuddyAllocatorImpl) (F : gmap Z nat) (L : gset Z) : Prop := {
  r_len : length (free_area st) = MAX_ORDER;
  r_start : start_address st = BASE;
  r_list k ar : free_area st !! k = Some ar ->
    NoDup (flist ar) /\ nr_free ar = Z.of_nat (length (flist ar)) /\ forall a, a ∈ flist ar <-> F !! a = Some k;
  r_dom a k : F !! a = Some k -> (k < MAX_ORDER)%nat /\ valid_page a = true;
  r_page a k : F !! a = Some k -> buddy_flags (page_at st a) = 128 + Z.of_nat k /\ linked (page_at st a) = true;
  r_unfree a : F !! a = None -> 0 <= buddy_flags (page_at st a) < 128 /\ linked (page_at st a) = bool_decide (a ∈ L);
  r_other a : a ∈ L -> F !! a = None
}.

Lemma rep_area st F L k : rep st F L -> (k < MAX_ORDER)%nat -> exists ar, free_area st !! k = Some ar.
Proof. intros Hr Hk. apply lookup_lt_is_Some_2. by rewrite (r_len _ _ _ Hr). Qed.

(** Changing a page outside of the free blocks. *)
Lemma rep_upd_page st F L a p : rep st F L -> F !! a = None -> 0 <= buddy_flags p < 128 ->
  linked p = bool_decide (a ∈ L) -> rep (upd_page st a p) F L.
Proof.
  intros [Hl Hs Hli Hd Hp Hu Ho] Ha Hf Hlk. split; try done.
  - intros b k Hb. rewrite page_upd_page, decide_False by (intros ->; congruence). by apply Hp.
  - intros b Hb. rewrite page_upd_page. destruct (decide (b = a)) as [->|]; [by split|by apply Hu].
Qed.

(** A block joins the free blocks. *)
Lemma rep_insert st F L a k p ar : rep st F L -> F !! a = None -> a ∉ L -> (k < MAX_ORDER)%nat -> valid_page a = true ->
  buddy_flags p = 128 + Z.of_nat k -> linked p = true -> free_area st !! k = Some ar ->
  rep (upd_area (upd_page st a p) k (mkArea (a :: flist ar) (nr_free ar + 1))) (<[a := k]> F) L.
Proof.
  intros Hr Ha HaL Hk Hv Hf Hlk Har. pose proof Hr as [Hl Hs Hli Hd Hp Hu Ho]. split; try done.
  - simpl. by rewrite length_insert.
  - intros k' ar'. simpl. destruct (decide (k' = k)) as [->|Hne].
    + rewrite list_lookup_insert_eq by (by eapply lookup_lt_Some). intros [= <-]. simpl.
      destruct (Hli k ar Har) as (Hnd & Hnr & Hin). split; [|split; [lia|]].
      * constructor; [|done]. rewrite Hin. congruence.
      * intros b. rewrite elem_of_cons, Hin. destruct (decide (b = a)) as [->|Hba].
        -- rewrite lookup_insert_eq. split; [done|by left].
        -- rewrite lookup_insert_ne by done. naive_solver.
    + rewrite list_lookup_insert_ne by done. intros Har'. destruct (Hli k' ar' Har') as (Hnd & Hnr & Hin).
      split; [done|]. split; [done|]. intros b. rewrite Hin. destruct (decide (b = a)) as [->|Hba].
      * rewrite lookup_insert_eq. naive_solver congruence.
      * by rewrite lookup_insert_ne.
  - intros b k'. destruct (decide (b = a)) as [->|Hba].
    + rewrite lookup_insert_eq. by intros [= <-].
    + rewrite lookup_insert_ne by done. apply Hd.
  - intros b k'. rewrite page_upd_area, page_upd_page. destruct (decide (b = a)) as [->|Hba].
    + rewrite lookup_insert_eq. by intros [= <-].
    + rewrite lookup_insert_ne by done. apply Hp.
  - intros b. rewrite page_upd_area, page_upd_page. destruct (decide (b = a)) as [->|Hba].
    + by rewrite lookup_insert_eq.
    + rewrite lookup_insert_ne by done. apply Hu.
  - intros b Hb. rewrite lookup_insert_ne; [by apply Ho|]. by intros ->.
Qed.

(** A block leaves the free blocks. *)
Lemma rep_delete st F L a k p ar l : rep st F L -> F !! a = Some k -> free_area st !! k = Some ar ->
  0 <= buddy_flags p < 128 -> linked p = false ->
  NoDup l -> (length l + 1 = length (flist ar))%nat -> (forall b, b ∈ l <-> b ∈ flist ar /\ b <> a) ->
  rep (upd_area (upd_page st a p) k (mkArea l (nr_free ar - 1))) (delete a F) L.
Proof.
  intros Hr Ha Har Hf Hlk Hnd Hlen Hin. pose proof Hr as [Hl Hs Hli Hd Hp Hu Ho]. split; try done.
  - simpl. by rewrite length_insert.
  - intros k' ar'. simpl. destruct (decide (k' = k)) as [->|Hne].
    + rewrite list_lookup_insert_eq by (by eapply lookup_lt_Some). intros [= <-]. simpl.
      destruct (Hli k ar Har) as (_ & Hnr & Hin0). split; [done|]. split; [lia|].
      intros b. rewrite Hin, Hin0. destruct (decide (b = a)) as [->|Hba].
      * rewrite lookup_delete_eq. naive_solver.
      * rewrite lookup_delete_ne by done. naive_solver.
    + rewrite list_lookup_insert_ne by done. intros Har'. destruct (Hli k' ar' Har') as (Hnd' & Hnr & Hin0).
      split; [done|]. split; [done|]. intros b. rewrite Hin0. destruct (decide (b = a)) as [->|Hba].
      * rewrite lookup_delete_eq. naive_solver congruence.
      * by rewrite lookup_delete_ne.
  - intros b k'. destruct (decide (b = a)) as [->|Hba]; [by rewrite lookup_delete_eq|].
    rewrite lookup_delete_ne by done. apply Hd.
  - intros b k'. rewrite page_upd_area, page_upd_page. destruct (decide (b = a)) as [->|Hba].
    + by rewrite lookup_delete_eq.
    + rewrite lookup_delete_ne by done. apply Hp.
  - intros b. rewrite page_upd_area, page_upd_page. destruct (decide (b = a)) as [->|Hba].
    + intros _. split; [done|]. rewrite Hlk. symmetry. apply bool_decide_eq_false. intros HL.
      apply Ho in HL. congruence.
    + rewrite lookup_delete_ne by done. apply Hu.
  - intros b Hb. destruct (decide (b = a)) as [->|]; [apply lookup_delete_eq|]. rewrite lookup_delete_ne by done. by apply Ho.
Qed.

(** States that differ only in how the page table is built. *)
Record st_eq (st st' : BuddyAllocatorImpl) : Prop := {
  se_page a : page_at st a = page_at st' a;
  se_area : free_area st = free_area st';
  se_size : free_size st = free_size st';
  se_start : start_address st = start_address st'
}.

#[export] Instance st_eq_equivalence : Equivalence st_eq.
Proof.
  split.
  - by intros st.
  - intros st st' [? ? ? ?]. by split.
  - intros s1 s2 s3 [P1 ? ? ?] [P2 ? ? ?]. split; [intros a; by rewrite P1|congruence..].
Qed.

#[export] Instance rep_proper : Proper (st_eq ==> eq ==> eq ==> iff) rep.
Proof.
  assert (Himp : forall st st' F L, st_eq st st' -> rep st F L -> rep st' F L).
  { intros st st' F L [Hp Ha _ Hs] [Hl Hst Hli Hd Hpg Hu Ho]. split; try done.
    - by rewrite <- Ha.
    - by rewrite <- Hs.
    - intros k ar. rewrite <- Ha. apply Hli.
    - intros a k. rewrite <- Hp. apply Hpg.
    - intros a. rewrite <- Hp. apply Hu. }
  intros st st' He F F' <- L L' <-. split; apply Himp; [done|by symmetry].
Qed.

(** ** The lists *)

(** The head of the list of order [k]. *)
Definition hd_of (st : BuddyAllocatorImpl) (k : nat) : option Z := free_area st !! k ≫= fun ar => head (flist ar).

Lemma push_front_spec st F L a k : rep st F L -> F !! a = None -> a ∉ L -> (k < MAX_ORDER)%nat -> valid_page a = true ->
  buddy_flags (page_at st a) = Z.of_nat k ->
  bwp (FreeArea_push_front k a) (fun _ st' => rep st' (<[a := k]> F) L /\ free_size st' = free_size st /\
    (forall b, b <> a -> page_at st' b = page_at st b) /\ hd_of st' k = Some a) st.
Proof.
  intros Hr Ha HaL Hk Hv Hf. destruct (rep_area st F L k Hr Hk) as [ar Har]. unfold MAX_ORDER in Hk.
  destruct (r_unfree _ _ _ Hr a Ha) as [Hfr Hlk]. rewrite bool_decide_false in Hlk by done.
  unfold FreeArea_push_front. apply wp_bind, wp_get_page; [done|].
  apply wp_bind, wp_assert; [by rewrite is_free_false|]. apply wp_bind, wp_assert; [by rewrite Hlk|].
  apply wp_bind, wp_update_page; [done|]. apply wp_bind, (wp_get_area k ar); [done|]. apply wp_set_area.
  split; [|split; [done|]].
  - apply rep_insert; try done. simpl. rewrite Hf. by destruct (flags_facts (Z.of_nat k) ltac:(lia)) as (_ & _ & -> & _).
  - split; [intros b Hb; by rewrite page_upd_area, page_upd_page, decide_False|].
    unfold hd_of; simpl. by rewrite list_lookup_insert_eq by (by eapply lookup_lt_Some).
Qed.

Lemma clear_flags p k : 0 <= k < 128 -> buddy_flags p = 128 + k -> buddy_flags (clear_free p) = k.
Proof. intros Hk Hp. simpl. rewrite Hp. by destruct (flags_facts k Hk) as (_ & _ & _ & -> & _). Qed.

(** Pages outside of the free memory are left alone. *)
Definition same_but (P : Z -> Prop) (st st' : BuddyAllocatorImpl) : Prop := forall b, ~ P b -> page_at st' b = page_at st b.

Lemma same_but_trans P st st1 st2 : same_but P st st1 -> same_but P st1 st2 -> same_but P st st2.
Proof. intros H1 H2 b Hb. by rewrite H2, H1. Qed.

Lemma pop_front_spec st F L k : rep st F L -> (k < MAX_ORDER)%nat ->
  bwp (FreeArea_pop_front k) (fun o st' =>
    match o with
    | None => st' = st /\ forall a, F !! a <> Some k
    | Some a => F !! a = Some k /\ rep st' (delete a F) L /\ buddy_flags (page_at st' a) = Z.of_nat k /\
        free_size st' = free_size st /\ hd_of st k = Some a /\ same_but (eq a) st st'
    end) st.
Proof.
  intros Hr Hk. destruct (rep_area st F L k Hr Hk) as [ar Har]. unfold MAX_ORDER in Hk.
  destruct (r_list _ _ _ Hr k ar Har) as (Hnd & Hnr & Hin).
  unfold FreeArea_pop_front. apply wp_bind, (wp_get_area k ar); [done|].
  destruct (flist ar) as [|a l] eqn:Hl.
  { apply wp_ret. split; [done|]. intros a Ha. apply Hin in Ha. by apply not_elem_of_nil in Ha. }
  assert (Ha : F !! a = Some k) by (apply Hin; left). destruct (r_dom _ _ _ Hr a k Ha) as [_ Hv].
  destruct (r_page _ _ _ Hr a k Ha) as [Hf Hlk]. destruct (is_free_true _ (Z.of_nat k) ltac:(lia) Hf) as [Hfr _].
  apply wp_bind, wp_get_page; [done|]. apply wp_bind, wp_assert; [done|].
  apply wp_bind, wp_update_page; [done|].
  apply wp_bind, wp_assert; [apply Z.leb_le; rewrite Hnr; simpl; lia|]. apply wp_bind, wp_set_area, wp_ret.
  assert (Hc : buddy_flags (clear_free (set_linked false (page_at st a))) = Z.of_nat k) by (apply clear_flags; [lia|done]).
  assert (Hhd : hd_of st k = Some a) by (unfold hd_of; rewrite Har; simpl; by rewrite Hl).
  split; [done|]. split; [|split; [|split; [done|split; [done|]]]].
  - inversion_clear Hnd. eapply rep_delete; try done.
    + rewrite Hc. lia.
    + rewrite Hl. simpl. lia.
    + rewrite Hl. intros b. rewrite elem_of_cons. split; [|naive_solver]. intros Hb. split; [by right|]. by intros ->.
  - rewrite page_upd_area, page_upd_page, decide_True by done. done.
  - intros b Hb. by rewrite page_upd_area, page_upd_page, decide_False by congruence.
Qed.

(** Rewriting the flags of a page that is not free. *)
Lemma set_order_spec st F L a o : rep st F L -> F !! a = None -> valid_page a = true -> 0 <= o < 128 ->
  bwp (update_page a (set_pgf_order o)) (fun _ st' => rep st' F L /\ free_size st' = free_size st /\
    buddy_flags (page_at st' a) = o /\ forall b, b <> a -> page_at st' b = page_at st b) st.
Proof.
  intros Hr Ha Hv Ho. destruct (r_unfree _ _ _ Hr a Ha) as [Hfr Hlk]. apply wp_update_page; [done|].
  assert (He : buddy_flags (set_pgf_order o (page_at st a)) = o).
  { simpl. destruct (flags_facts _ Hfr) as (-> & _). by destruct (flags_facts o Ho) as (_ & _ & _ & _ & _ & ->). }
  split; [apply rep_upd_page; [done|done|by rewrite He|done]|]. split; [done|]. split.
  - by rewrite page_upd_page, decide_True.
  - intros b Hb. by rewrite page_upd_page, decide_False.
Qed.

Lemma clear_free_spec st F L a : rep st F L -> F !! a = None -> valid_page a = true ->
  bwp (update_page a clear_free) (fun _ st' => rep st' F L /\ free_size st' = free_size st /\
    forall b, page_at st' b = page_at st b) st.
Proof.
  intros Hr Ha Hv. destruct (r_unfree _ _ _ Hr a Ha) as [Hfr Hlk]. apply wp_update_page; [done|].
  assert (He : clear_free (page_at st a) = page_at st a).
  { unfold clear_free. destruct (flags_facts _ Hfr) as (_ & _ & _ & _ & -> & _). by destruct (page_at st a). }
  rewrite He. split; [by apply rep_upd_page|]. split; [done|]. intros b. rewrite page_upd_page. by destruct (decide (b = a)) as [->|].
Qed.

(** ** Blocks *)

Definition aligned (k : nat) (a : Z) : Prop := (a - BASE) mod block_size k = 0.
Definition in_block (k : nat) (a p : Z) : Prop := a <= p < a + block_size k.

Record blocks_ok (F : gmap Z nat) : Prop := {
  bo_range a k : F !! a = Some k -> (k < MAX_ORDER)%nat /\ BASE <= a /\ a + block_size k <= END /\ aligned k a;
  bo_disj a k a' k' p : F !! a = Some k -> F !! a' = Some k' -> in_block k a p -> in_block k' a' p -> a = a'
}.

(** The addresses of free memory. *)
Definition covers (F : gmap Z nat) (p : Z) : Prop := exists a k, F !! a = Some k /\ in_block k a p.

(** The free memory in bytes. *)
Definition total (F : gmap Z nat) : Z := map_fold (fun _ k acc => block_size k + acc) 0 F.

Lemma total_insert F a k : F !! a = None -> total (<[a := k]> F) = block_size k + total F.
Proof. intros Ha. unfold total. rewrite map_fold_insert_L; [done| |done]. intros. lia. Qed.

Lemma total_delete F a k : F !! a = Some k -> total F = block_size k + total (delete a F).
Proof. intros Ha. rewrite <- (total_insert (delete a F) a k) by apply lookup_delete_eq. by rewrite insert_delete_id. Qed.

Lemma total_nonneg F : 0 <= total F.
Proof.
  induction F as [|a k F Ha IH] using map_ind; [done|]. rewrite total_insert by done. unfold block_size.
  pose proof (Z.pow_pos_nonneg 2 (Z.of_nat k)). lia.
Qed.

Lemma block_size_S k : block_size (S k) = 2 * block_size k.
Proof. unfold block_size. rewrite Nat2Z.inj_succ, Z.pow_succ_r by lia. lia. Qed.

Lemma block_size_pos k : PGSIZE <= block_size k.
Proof. unfold block_size. pose proof (Z.pow_pos_nonneg 2 (Z.of_nat k)). lia. Qed.

(** Blocks of larger orders are multiples of those of smaller ones. *)
Lemma block_size_divide k k' : (k <= k')%nat -> (block_size k | block_size k').
Proof.
  intros Hk. induction Hk as [|m Hk IH]; [done|]. rewrite block_size_S. by apply Z.divide_mul_r.
Qed.

Lemma aligned_divide k a : aligned k a <-> (block_size k | a - BASE).
Proof. unfold aligned. pose proof (block_size_pos k). rewrite Z.mod_divide by lia. done. Qed.

Lemma aligned_down k k' a : (k <= k')%nat -> aligned k' a -> aligned k a.
Proof. rewrite !aligned_divide. intros Hk Ha. etrans; [by apply block_size_divide|done]. Qed.

Lemma aligned_valid k a : aligned k a -> BASE <= a -> a + block_size k <= END -> valid_page a = true.
Proof.
  intros Ha Hlo Hhi. pose proof (block_size_pos k). apply (aligned_down 0 k) in Ha; [|lia].
  unfold aligned in Ha. change (block_size 0) with 4096 in Ha. unfold valid_page.
  assert (Hm : a mod 4096 = 0) by (unfold DIRECT_MAPPING_BASE_VADDR in *; lia).
  rewrite Hm. simpl. apply andb_true_iff. split; [by apply Z.leb_le|apply Z.ltb_lt; lia].
Qed.

Lemma covers_none F a k : ~ covers F a -> F !! a <> Some k.
Proof. intros Hn Ha. apply Hn. exists a, k. split; [done|]. pose proof (block_size_pos k). unfold in_block. lia. Qed.

Lemma covers_none_lookup F a : ~ covers F a -> F !! a = None.
Proof. intros Hn. destruct (F !! a) as [k|] eqn:Ha; [|done]. by apply (covers_none F a k) in Ha. Qed.

Lemma blocks_ok_insert F a k : blocks_ok F -> (k < MAX_ORDER)%nat -> BASE <= a -> a + block_size k <= END -> aligned k a ->
  (forall p, in_block k a p -> ~ covers F p) ->
  F !! a = None /\ blocks_ok (<[a := k]> F) /\ forall p, covers (<[a := k]> F) p <-> covers F p \/ in_block k a p.
Proof.
  intros [Hr Hd] Hk Hlo Hhi Hal Hno. pose proof (block_size_pos k).
  assert (Ha : F !! a = None) by (apply covers_none_lookup, Hno; unfold in_block; lia).
  split; [done|]. split; [split|].
  - intros b k'. destruct (decide (b = a)) as [->|Hne]; [rewrite lookup_insert_eq; by intros [= <-]|].
    rewrite lookup_insert_ne by done. apply Hr.
  - intros b1 k1 b2 k2 p. destruct (decide (b1 = a)) as [->|H1], (decide (b2 = a)) as [->|H2]; [done|..].
    + rewrite lookup_insert_eq, lookup_insert_ne by done. intros [= <-] Hb2 Hp1 Hp2. exfalso. apply (Hno p Hp1).
      by exists b2, k2.
    + rewrite lookup_insert_eq, lookup_insert_ne by done. intros Hb1 [= <-] Hp1 Hp2. exfalso. apply (Hno p Hp2).
      by exists b1, k1.
    + rewrite !lookup_insert_ne by done. apply Hd.
  - intros p. split.
    + intros (b & k' & Hb & Hp). destruct (decide (b = a)) as [->|Hne].
      * rewrite lookup_insert_eq in Hb. injection Hb as <-. by right.
      * rewrite lookup_insert_ne in Hb by done. left. by exists b, k'.
    + intros [(b & k' & Hb & Hp)|Hp].
      * exists b, k'. split; [|done]. rewrite lookup_insert_ne; [done|]. intros ->. congruence.
      * exists a, k. by rewrite lookup_insert_eq.
Qed.

Lemma blocks_ok_delete F a k : blocks_ok F -> F !! a = Some k ->
  blocks_ok (delete a F) /\ forall p, covers (delete a F) p <-> covers F p /\ ~ in_block k a p.
Proof.
  intros [Hr Hd] Ha. split; [split|].
  - intros b k' Hb. apply lookup_delete_Some in Hb as [_ Hb]. by apply Hr.
  - intros b1 k1 b2 k2 p Hb1 Hb2. apply lookup_delete_Some in Hb1 as [_ Hb1], Hb2 as [_ Hb2]. by eapply Hd.
  - intros p. split.
    + intros (b & k' & Hb & Hp). apply lookup_delete_Some in Hb as [Hne Hb]. split; [by exists b, k'|].
      intros Hp'. by apply Hne, (Hd a k b k' p).
    + intros [(b & k' & Hb & Hp) Hn]. exists b, k'. split; [|done]. apply lookup_delete_Some. split; [|done].
      intros <-. congruence.
Qed.

(** A block falls into two halves. *)
Lemma in_block_split k a p : in_block (S k) a p <-> in_block k a p \/ in_block k (a + block_size k) p.
Proof. unfold in_block. rewrite block_size_S. lia. Qed.

Lemma aligned_half k a : aligned (S k) a -> aligned k a /\ aligned k (a + block_size k).
Proof.
  intros Ha. apply (aligned_down k) in Ha; [|lia]. split; [done|]. rewrite aligned_divide in *.
  replace (a + block_size k - BASE) with (a - BASE + block_size k) by lia.
  by apply Z.divide_add_r; [|reflexivity].
Qed.

Definition split_block (F : gmap Z nat) (a : Z) (k : nat) : gmap Z nat :=
  <[a := k]> (<[a + block_size k := k]> (delete a F)).

Lemma split_ok F a k : blocks_ok F -> F !! a = Some (S k) ->
  delete a F !! (a + block_size k) = None /\ <[a + block_size k := k]> (delete a F) !! a = None /\
  blocks_ok (split_block F a k) /\ (forall p, covers (split_block F a k) p <-> covers F p) /\
  total (split_block F a k) = total F.
Proof.
  intros Hok Ha. pose proof (block_size_pos k) as Hpos. pose proof (bo_range _ Hok a (S k) Ha) as (Hk & Hlo & Hhi & Hal).
  destruct (aligned_half k a Hal) as [Hal1 Hal2]. rewrite block_size_S in Hhi.
  destruct (blocks_ok_delete F a (S k) Hok Ha) as [Hok1 Hc1].
  destruct (blocks_ok_insert (delete a F) (a + block_size k) k Hok1) as (Hn2 & Hok2 & Hc2); [lia|lia|lia|done| |].
  { intros p Hp. rewrite Hc1, in_block_split. tauto. }
  destruct (blocks_ok_insert (<[a + block_size k := k]> (delete a F)) a k Hok2) as (Hn3 & Hok3 & Hc3); [lia|lia|lia|done| |].
  { intros p Hp. rewrite Hc2, Hc1, in_block_split. unfold in_block in *. intuition lia. }
  split; [done|]. split; [done|]. split; [done|]. split.
  - intros p. unfold split_block. rewrite Hc3, Hc2, Hc1. split.
    + intros [[[? _]|Hp]|Hp]; [done|..]; exists a, (S k); rewrite in_block_split; tauto.
    + intros Hp. destruct (decide (a <= p < a + block_size (S k))) as [Hin|Hout].
      * apply in_block_split in Hin. tauto.
      * left. left. split; [done|]. unfold in_block. tauto.
  - unfold split_block. rewrite !total_insert by done. rewrite (total_delete F a (S k)), block_size_S by done. lia.
Qed.

(** ** Buddies *)

(** The other half of the block of order [k + 1] that contains a block. *)
Definition buddy (k : nat) (a : Z) : Z :=
  if Z.even ((a - BASE) / block_size k) then a + block_size k else a - block_size k.

Lemma aligned_mult k a : aligned k a -> exists q, a - BASE = q * block_size k /\ (a - BASE) / block_size k = q.
Proof.
  rewrite aligned_divide. intros [q Hq]. exists q. split; [done|]. pose proof (block_size_pos k). rewrite Hq, Z.div_mul; lia.
Qed.

Lemma lxor_1 q : Z.lxor q 1 = if Z.even q then q + 1 else q - 1.
Proof.
  assert (Heven : forall r, Z.lxor (2 * r) 1 = 2 * r + 1).
  { intros r. symmetry. apply Z.add_nocarry_lxor. apply Z.bits_inj'. intros n Hn. rewrite Z.land_spec, Z.bits_0.
    destruct (decide (n = 0)) as [->|]; [by rewrite Z.testbit_even_0|]. by rewrite (Z.bits_above_log2 1 n), andb_false_r by (simpl; lia). }
  destruct (Z.even q) eqn:He.
  - apply Z.even_spec in He as [r ->]. apply Heven.
  - rewrite <- Z.negb_odd, negb_false_iff in He. apply Z.odd_spec in He as [r ->].
    rewrite <- Heven, Z.lxor_assoc, Z.lxor_nilpotent, Z.lxor_0_r, Heven. lia.
Qed.

Lemma shiftl_block (k : nat) (q : Z) : Z.shiftl q (Z.of_nat k + 12) = q * block_size k.
Proof. rewrite Z.shiftl_mul_pow2 by lia. unfold block_size. rewrite Z.pow_add_r by lia. lia. Qed.

(** The code computes the buddy with an exclusive or. *)
Lemma get_buddy_addr_spec st k a : aligned k a -> BASE <= a -> get_buddy_addr BASE a k st = (Ok (buddy k a), st).
Proof.
  intros Ha Hlo. unfold get_buddy_addr, bind, assert_. replace (BASE <=? a) with true by (symmetry; by apply Z.leb_le).
  unfold ret. f_equal. f_equal. destruct (aligned_mult k a Ha) as (q & Hq & Hd). unfold buddy. rewrite Hd, Hq.
  rewrite <- (shiftl_block k q), <- Z.shiftl_lxor, lxor_1, shiftl_block.
  destruct (Z.even q); lia.
Qed.

Lemma buddy_cases k a : aligned k a ->
  aligned (S k) a /\ buddy k a = a + block_size k \/ aligned (S k) (buddy k a) /\ a = buddy k a + block_size k.
Proof.
  intros Ha. destruct (aligned_mult k a Ha) as (q & Hq & Hd). unfold buddy. rewrite Hd.
  destruct (Z.even q) eqn:He; [left|right]; (split; [|lia]); apply aligned_divide; rewrite block_size_S.
  - apply Z.even_spec in He as [r ->]. exists r. lia.
  - rewrite <- Z.negb_odd, negb_false_iff in He. apply Z.odd_spec in He as [r ->]. exists r. lia.
Qed.

Lemma buddy_left k a : aligned (S k) a -> buddy k a = a + block_size k.
Proof.
  intros Ha. destruct (buddy_cases k a) as [[_ ?]|[Hb He]]; [by apply aligned_half|done|]. exfalso.
  pose proof (block_size_pos k). apply aligned_divide in Ha as [q Hq], Hb as [r Hr]. rewrite block_size_S in *.
  assert (Hbs : (2 * (q - r) - 1) * block_size k = 0) by lia. apply Z.mul_eq_0 in Hbs. lia.
Qed.

Lemma buddy_right k a : aligned (S k) a -> buddy k (a + block_size k) = a.
Proof.
  intros Ha. destruct (aligned_half k a Ha) as [_ Hal]. destruct (buddy_cases k _ Hal) as [[Hb _]|[_ ?]]; [|lia]. exfalso.
  pose proof (block_size_pos k). apply aligned_divide in Ha as [q Hq], Hb as [r Hr]. rewrite block_size_S in *.
  assert (Hbs : (2 * (r - q) - 1) * block_size k = 0) by lia. apply Z.mul_eq_0 in Hbs. lia.
Qed.

Lemma buddy_buddy k a : aligned k a -> buddy k (buddy k a) = a.
Proof.
  intros Ha. destruct (buddy_cases k a Ha) as [[Hal ->]|[Hal He]]; [by apply buddy_right|].
  rewrite He at 2. by apply buddy_left.
Qed.

(** No block is free together with its buddy; the blocks of the top order
    are never joined. *)
Definition coalesced (F : gmap Z nat) : Prop :=
  forall a k, (S k < MAX_ORDER)%nat -> F !! a = Some k -> F !! buddy k a <> Some k.

(** The pair of [b] is the only exception. *)
Definition coalesced_but (F : gmap Z nat) (k : nat) (b : Z) : Prop :=
  forall a j, (S j < MAX_ORDER)%nat -> F !! a = Some j -> F !! buddy j a = Some j -> j = k /\ (a = b \/ a = buddy k b).

(** The exception is at the head of its list. *)
Definition coalesced_at (st : BuddyAllocatorImpl) (F : gmap Z nat) (k : nat) : Prop :=
  coalesced F \/ exists b, hd_of st k = Some b /\ coalesced_but F k b.

Lemma coalesced_delete F a : coalesced F -> coalesced (delete a F).
Proof. intros Hc b k Hk Hb Hb'. apply lookup_delete_Some in Hb as [_ Hb], Hb' as [_ Hb']. by apply (Hc b k). Qed.

Lemma coalesced_but_delete F k b : aligned k b -> coalesced_but F k b -> coalesced (delete b F).
Proof.
  intros Hal Hc a j Hj Ha Ha'. apply lookup_delete_Some in Ha as [Hne Ha], Ha' as [Hne' Ha'].
  destruct (Hc a j Hj Ha Ha') as [-> [->| ->]]; [done|]. by rewrite buddy_buddy in Hne'.
Qed.

Lemma coalesced_but_insert F k a : blocks_ok F -> aligned k a -> coalesced_but F k (buddy k a) -> coalesced_but (<[a := k]> F) k a.
Proof.
  intros Hok Hal Hc x j Hj Hx Hb. destruct (decide (x = a)) as [->|Hne].
  { rewrite lookup_insert_eq in Hx. injection Hx as <-. by split; [|left]. }
  rewrite lookup_insert_ne in Hx by done. pose proof (bo_range _ Hok x j Hx) as (_ & _ & _ & Halx).
  destruct (decide (buddy j x = a)) as [<-|Hne'].
  - rewrite lookup_insert_eq in Hb. injection Hb as ->. split; [done|]. right. by rewrite buddy_buddy.
  - rewrite lookup_insert_ne in Hb by done. destruct (Hc x j Hj Hx Hb) as [-> [->| ->]]; [by split; [|right]|].
    by rewrite buddy_buddy in Hne.
Qed.

Lemma coalesced_weaken F k b : coalesced F -> coalesced_but F k b.
Proof. intros Hc a j Hj Ha Hb. by apply (Hc a j) in Hb. Qed.

(** Taking the head of the list removes the exception. *)
Lemma coalesced_pop st F k a : blocks_ok F -> hd_of st k = Some a -> F !! a = Some k ->
  coalesced_at st F k -> coalesced (delete a F).
Proof.
  intros Hok Hhd Ha [Hc|(b & Hb & Hc)]; [by apply coalesced_delete|]. assert (b = a) as -> by congruence.
  eapply coalesced_but_delete; [|done]. by apply (bo_range _ Hok a k).
Qed.

(** ** Splitting *)

(** The invariant: memory in other lists is not free memory. *)
Record binv (st : BuddyAllocatorImpl) (F : gmap Z nat) (L : gset Z) : Prop := {
  bi_rep : rep st F L;
  bi_blocks : blocks_ok F;
  bi_out a : a ∈ L -> ~ covers F a
}.

Lemma bsize_half (k : nat) : 2 ^ (Z.of_nat (S k) + 12) / 2 = block_size k.
Proof.
  unfold block_size. replace (Z.of_nat (S k) + 12) with (Z.succ (Z.of_nat k + 12)) by lia.
  rewrite Z.pow_succ_r, (Z.mul_comm 2), Z.div_mul, Z.pow_add_r by lia. lia.
Qed.

Lemma FreeArea_expand_spec st F L k : binv st F L -> (S k < MAX_ORDER)%nat ->
  bwp (FreeArea_expand (S k)) (fun o st' =>
    match o with
    | None => st' = st /\ forall a, F !! a <> Some (S k)
    | Some (a, b) => F !! a = Some (S k) /\ b = a + block_size k /\ rep st' (delete a F) L /\
        free_size st' = free_size st /\ hd_of st (S k) = Some a /\ same_but (eq a) st st'
    end) st.
Proof.
  intros [Hr Hok _] Hk. unfold FreeArea_expand. apply wp_bind, wp_assert; [done|]. apply wp_bind.
  eapply wp_mono; [by apply pop_front_spec| |done]. intros [a|] st1; [|intros H1; by apply wp_ret].
  intros (Ha & Hr1 & _ & Hfs & Hhd & Hsm). rewrite bsize_half.
  pose proof (bo_range _ Hok a (S k) Ha) as (_ & Hlo & Hhi & Hal). destruct (aligned_half k a Hal) as [Hal1 Hal2].
  pose proof (block_size_pos k). rewrite block_size_S in Hhi. destruct (split_ok F a k Hok Ha) as (Hn & _).
  assert (Hv1 : valid_page a = true) by (eapply aligned_valid; [exact Hal1|lia|lia]).
  assert (Hv2 : valid_page (a + block_size k) = true) by (eapply aligned_valid; [exact Hal2|lia|lia]).
  apply wp_bind, wp_get_page; [done|]. apply wp_bind.
  eapply wp_mono; [apply (clear_free_spec st1 (delete a F) L a); [done|apply lookup_delete_eq|done]| |done].
  intros _ st2 (Hr2 & Hfs2 & Hsm2). apply wp_bind.
  eapply wp_mono; [by apply (clear_free_spec st2 (delete a F) L (a + block_size k))| |done].
  intros _ st3 (Hr3 & Hfs3 & Hsm3). apply wp_ret. split; [done|]. split; [done|]. split; [done|]. split; [lia|]. split; [done|].
  intros b Hb. rewrite Hsm3, Hsm2. by apply Hsm.
Qed.

(** The same free memory, in other blocks. *)
Record resplit (st : BuddyAllocatorImpl) (F : gmap Z nat) (L : gset Z) (st' : BuddyAllocatorImpl) (F' : gmap Z nat) : Prop := {
  rs_inv : binv st' F' L;
  rs_covers p : covers F' p <-> covers F p;
  rs_total : total F' = total F;
  rs_size : free_size st' = free_size st;
  rs_same : same_but (covers F) st st'
}.

Lemma resplit_trans st F L st1 F1 st2 F2 :
  resplit st F L st1 F1 -> resplit st1 F1 L st2 F2 -> resplit st F L st2 F2.
Proof.
  intros [_ C1 T1 S1 M1] [I2 C2 T2 S2 M2]. split; [done| |lia|lia|]; [intros p; by rewrite C2, C1|].
  intros b Hb. rewrite M2 by (by rewrite C1). by apply M1.
Qed.

Lemma covers_self F a k : F !! a = Some k -> covers F a.
Proof. intros Ha. exists a, k. split; [done|]. pose proof (block_size_pos k). unfold in_block. lia. Qed.

(** Pushing the halves of a block that was taken from the list. *)
Lemma push_halves st F L st1 a k : binv st F L -> F !! a = Some (S k) -> rep st1 (delete a F) L -> free_size st1 = free_size st -> same_but (eq a) st st1 ->
  coalesced (delete a F) ->
  bwp (update_page a (set_pgf_order (Z.of_nat (S k) - 1));;
       update_page (a + block_size k) (set_pgf_order (Z.of_nat (S k) - 1));;
       FreeArea_push_front (S k - 1) (a + block_size k);;
       FreeArea_push_front (S k - 1) a;;
       ret true)
      (fun r st' => r = true /\ exists F', resplit st F L st' F' /\ (exists b, F' !! b = Some k) /\ coalesced_at st' F' k) st1.
Proof.
  intros [Hr Hok Hout] Ha Hr1 Hfs Hsm1 Hco. pose proof (bo_range _ Hok a (S k) Ha) as (Hk & Hlo & Hhi & Hal).
  destruct (aligned_half k a Hal) as [Hal1 Hal2]. pose proof (block_size_pos k). rewrite block_size_S in Hhi.
  destruct (split_ok F a k Hok Ha) as (Hn2 & Hn3 & Hok' & Hc' & Ht'). unfold MAX_ORDER in Hk.
  assert (Hv1 : valid_page a = true) by (eapply aligned_valid; [exact Hal1|lia|lia]).
  assert (Hv2 : valid_page (a + block_size k) = true) by (eapply aligned_valid; [exact Hal2|lia|lia]).
  assert (HL : forall p, in_block (S k) a p -> p ∉ L) by (intros p Hp HpL; apply (Hout p HpL); by exists a, (S k)).
  assert (HL1 : a ∉ L) by (apply HL; unfold in_block; rewrite block_size_S; lia).
  assert (HL2 : a + block_size k ∉ L) by (apply HL; unfold in_block; rewrite block_size_S; lia).
  replace (Z.of_nat (S k) - 1) with (Z.of_nat k) by lia. replace (S k - 1)%nat with k by lia.
  apply wp_bind. eapply wp_mono; [apply (set_order_spec st1 (delete a F) L a); [done|apply lookup_delete_eq|done|lia]| |done].
  intros _ st2 (Hr2 & Hs2 & Hf2 & Hsame2). apply wp_bind.
  eapply wp_mono; [apply (set_order_spec st2 (delete a F) L (a + block_size k)); [done|done|done|lia]| |done].
  intros _ st3 (Hr3 & Hs3 & Hf3 & Hsame3). apply wp_bind.
  eapply wp_mono; [apply (push_front_spec st3 (delete a F) L (a + block_size k) k); try done; unfold MAX_ORDER; lia| |done].
  intros _ st4 (Hr4 & Hs4 & Hsame4 & _). apply wp_bind.
  assert (Hf4 : buddy_flags (page_at st4 a) = Z.of_nat k) by (rewrite Hsame4, Hsame3 by lia; done).
  eapply wp_mono; [apply (push_front_spec st4 _ L a k Hr4); try done; unfold MAX_ORDER; lia| |done].
  intros _ st5 (Hr5 & Hs5 & Hsame5 & Hhd). apply wp_ret. split; [done|]. exists (split_block F a k). split.
  - split; [split; [done|done|]|done|done|lia|]; [intros p Hp; rewrite Hc'; by apply Hout|]. intros b Hb.
    assert (Hin : forall x, in_block (S k) a x -> b <> x) by (intros x Hx ->; apply Hb; by exists a, (S k)).
    assert (b <> a) by (apply Hin; unfold in_block; rewrite block_size_S; lia).
    assert (b <> a + block_size k) by (apply Hin; unfold in_block; rewrite block_size_S; lia).
    rewrite Hsame5, Hsame4, Hsame3, Hsame2 by done. apply Hsm1. congruence.
  - split; [exists a; apply lookup_insert_eq|]. right. exists a. split; [done|].
    destruct (blocks_ok_delete F a (S k) Hok Ha) as [Hok1 Hc1].
    destruct (blocks_ok_insert (delete a F) (a + block_size k) k Hok1) as (_ & Hok2 & _); [unfold MAX_ORDER; lia|lia|lia|done| |].
    { intros p Hp. rewrite Hc1, in_block_split. tauto. }
    apply coalesced_but_insert; [done|done|]. rewrite buddy_left by done.
    apply coalesced_but_insert; [done|done|]. by apply coalesced_weaken.
Qed.

Lemma expand_spec n st F L k : binv st F L -> (1 <= k <= MAX_ORDER)%nat -> coalesced_at st F k ->
  ((1 <= n)%nat /\ (exists a, F !! a = Some k) \/ (11 - k <= n)%nat) ->
  bwp (expand n k) (fun r st' =>
    if r then exists F', resplit st F L st' F' /\ (exists b, F' !! b = Some (k - 1)%nat) /\ coalesced_at st' F' (k - 1)
    else st' = st /\ forall a k', F !! a = Some k' -> (k' < k)%nat) st.
Proof.
  revert st F k. induction n as [|n IH]; intros st F k Hinv Hk Hco Hn; [unfold MAX_ORDER in *; lia|].
  pose proof (bi_rep _ _ _ Hinv) as Hr. cbn [expand].
  apply wp_bind, wp_assert; [by destruct k; [lia|]|]. apply wp_bind, wp_get. rewrite (r_len _ _ _ Hr).
  destruct (Nat.leb_spec MAX_ORDER k) as [Hmax|Hlt].
  { apply wp_ret. split; [done|]. intros a k' Ha. apply (r_dom _ _ _ Hr) in Ha. lia. }
  destruct k as [|k]; [lia|]. apply wp_bind. eapply wp_mono; [by apply (FreeArea_expand_spec st F L k)| |done].
  intros [[a b]|] st1.
  - intros (Ha & -> & Hr1 & Hs1 & Hhd & Hsm).
    assert (Hco1 : coalesced (delete a F)) by (eapply coalesced_pop; [apply Hinv|done..]).
    eapply wp_mono; [by apply (push_halves st F L st1 a k)| |done].
    intros r st' (-> & F' & Hrs). exists F'. replace (S k - 1)%nat with k by lia. done.
  - intros [-> Hno]. unfold MAX_ORDER in *.
    assert (Hfuel : (11 - S k <= S n)%nat) by (destruct Hn as [(_ & a & Ha)|?]; [by apply Hno in Ha|done]).
    assert (Hco0 : coalesced F).
    { destruct Hco as [?|(b & Hb & _)]; [done|]. unfold hd_of in Hb. apply bind_Some in Hb as (ar & Har & Hhd).
      destruct (flist ar) as [|b' l] eqn:Hl; [done|]. destruct (r_list _ _ _ Hr (S k) ar Har) as (_ & _ & Hin).
      exfalso. apply (Hno b'), Hin. rewrite Hl. left. }
    apply wp_bind. eapply wp_mono; [apply (IH st F (S k + 1)%nat Hinv); [lia|by left|right; lia]| |done].
    replace (S k + 1 - 1)%nat with (S k) by lia. intros [|] st1.
    + intros (F1 & Hrs1 & Hb & Hco1).
      eapply wp_mono; [apply (IH st1 F1 (S k)); [apply Hrs1|lia|done|left; split; [lia|done]]| |done].
      intros [|] st2.
      * intros (F2 & Hrs2 & Hb2). exists F2. split; [by eapply resplit_trans|done].
      * intros [_ Hlow]. destruct Hb as [b Hb]. apply Hlow in Hb. lia.
    + intros [-> Hlow]. apply wp_ret. split; [done|]. intros a k' Ha. pose proof (Hlow a k' Ha).
      destruct (decide (k' = S k)) as [->|]; [by apply Hno in Ha|lia].
Qed.

(** ** Allocation *)

(** The allocator between two calls. *)
Record buddy_inv (st : BuddyAllocatorImpl) (F : gmap Z nat) (L : gset Z) : Prop := {
  b_inv : binv st F L;
  b_coalesced : coalesced F;
  b_size : free_size st = total F
}.

(** What an allocation of order [k] does to the free memory. *)
Definition allocated (F : gmap Z nat) (L : gset Z) (k : nat) (a : Z) (st' : BuddyAllocatorImpl) : Prop :=
  (k < MAX_ORDER)%nat /\ BASE <= a /\ a + block_size k <= END /\ aligned k a /\
  (forall p, in_block k a p -> covers F p) /\ linked (page_at st' a) = false /\
  exists F', buddy_inv st' F' L /\ total F' = total F - block_size k /\
    (forall p, covers F' p <-> covers F p /\ ~ in_block k a p).

(** Taking the head of the list of the order. *)
Lemma take_front_spec st F L k st1 F1 : resplit st F L st1 F1 -> free_size st = total F ->
  (k < MAX_ORDER)%nat -> (exists b, F1 !! b = Some k) -> coalesced_at st1 F1 k ->
  bwp (do o <- FreeArea_pop_front k; do pgf <- unwrap o; do st <- get;
       assert_ (block_size k <=? free_size st);; set_free_size (free_size st - block_size k);;
       do p <- get_page pgf; assert_ (negb (is_free p));; assert_ (negb (linked p));; ret (Some pgf))
    (fun o st' => exists a, o = Some a /\ allocated F L k a st' /\ buddy_flags (page_at st' a) = Z.of_nat k /\ same_but (covers F) st st') st1.
Proof.
  intros [[Hr1 Hok1 Hout1] Hc1 Ht1 Hs1 Hsm1] Hsz Hk [b Hb] Hco. apply wp_bind.
  eapply wp_mono; [by apply (pop_front_spec st1 F1 L k)| |done]. intros [a|] st2; [|intros [_ Hno]; by apply Hno in Hb].
  intros (Ha & Hr2 & Hf2 & Hs2 & Hhd & Hsm2). apply wp_bind, wp_ret, wp_bind, wp_get.
  destruct (blocks_ok_delete F1 a k Hok1 Ha) as [Hok2 Hc2]. pose proof (total_delete F1 a k Ha) as Ht2.
  pose proof (total_nonneg (delete a F1)). pose proof (bo_range _ Hok1 a k Ha) as (_ & Hlo & Hhi & Hal).
  apply wp_bind, wp_assert; [apply Z.leb_le; lia|]. apply wp_bind. unfold set_free_size, wp at 1, modify.
  set (st3 := mkBuddy _ _ _ _).
  assert (Hr3 : rep st3 (delete a F1) L) by (destruct Hr2; by split).
  destruct (r_unfree _ _ _ Hr3 a (lookup_delete_eq _ _)) as [Hfl Hlk].
  assert (HaL : a ∉ L).
  { intros HL. apply (Hout1 a HL). exists a, k. split; [done|]. pose proof (block_size_pos k). unfold in_block. lia. }
  rewrite bool_decide_false in Hlk by done.
  apply wp_bind, wp_get_page; [by eapply aligned_valid|]. apply wp_bind, wp_assert; [by rewrite is_free_false|].
  apply wp_bind, wp_assert; [by rewrite Hlk|]. apply wp_ret. exists a. split; [done|]. split; [|split; [done|]].
  2:{ intros x Hx. change (page_at st3 x) with (page_at st2 x). rewrite Hsm2; [by apply Hsm1|]. intros <-. apply Hx, Hc1. by eapply covers_self. }
  split; [done|]. split; [done|]. split; [done|]. split; [done|]. split; [intros p Hp; apply Hc1; by exists a, k|].
  split; [done|]. exists (delete a F1). split; [split|split; [lia|]].
  - split; [done|done|]. intros c Hc. rewrite Hc2. intros [Hcov _]. by apply (Hout1 c Hc).
  - by eapply coalesced_pop.
  - simpl. lia.
  - intros p. by rewrite Hc2, Hc1.
Qed.

Lemma alloc_by_order_frame st F L k : buddy_inv st F L ->
  bwp (alloc_by_order k) (fun o st' =>
    match o with
    | Some a => allocated F L k a st' /\ buddy_flags (page_at st' a) = Z.of_nat k /\ same_but (covers F) st st'
    | None => st' = st /\ forall a k', F !! a = Some k' -> (k' < k)%nat
    end) st.
Proof.
  intros [Hinv Hco Hsz]. pose proof (bi_rep _ _ _ Hinv) as Hr. unfold alloc_by_order. apply wp_bind, wp_get. rewrite (r_len _ _ _ Hr).
  destruct (Nat.leb_spec MAX_ORDER k) as [Hmax|Hlt].
  { apply wp_ret. split; [done|]. intros a k' Ha. apply (r_dom _ _ _ Hr) in Ha. lia. }
  destruct (rep_area st F L k Hr Hlt) as [ar Har]. apply wp_bind, (wp_get_area k ar); [done|].
  destruct (r_list _ _ _ Hr k ar Har) as (_ & _ & Hin). apply wp_bind.
  assert (Hself : resplit st F L st F) by (by split).
  unfold is_empty. destruct (flist ar) as [|a l] eqn:Hfl.
  - eapply wp_mono; [apply (expand_spec _ st F L (k + 1)%nat Hinv);
      [lia|by left|right; unfold expand_fuel; lia]| |done].
    replace (k + 1 - 1)%nat with k by lia. intros [|] st1; cbn [negb].
    + intros (F1 & Hrs & Hb & Hc1). eapply wp_mono; [by apply (take_front_spec st F L k st1 F1)| |done].
      by intros o st' (a & -> & Ha).
    + intros [-> Hlow]. apply wp_ret. split; [done|]. intros a k' Ha. pose proof (Hlow a k' Ha).
      destruct (decide (k' = k)) as [->|]; [|lia]. apply Hin in Ha. by apply not_elem_of_nil in Ha.
  - apply wp_ret. cbn [negb].
    eapply wp_mono; [apply (take_front_spec st F L k st F); [done..| |by left]; exists a; apply Hin; left| |done].
    by intros o st' (b & -> & Hb).
Qed.

Lemma alloc_by_order_spec st F L k : buddy_inv st F L ->
  bwp (alloc_by_order k) (fun o st' =>
    match o with
    | Some a => allocated F L k a st'
    | None => st' = st /\ forall a k', F !! a = Some k' -> (k' < k)%nat
    end) st.
Proof. intros Hb. eapply wp_mono; [by apply (alloc_by_order_frame st F L k)| |done]. intros [a|] st'; [|done]. by intros [Ha _]. Qed.

(** ** Merging *)

Lemma filter_ne_id (a : Z) (l : list Z) : a ∉ l -> filter (fun x => x <> a) l = l.
Proof.
  induction l as [|x l IH]; [done|]. rewrite not_elem_of_cons. intros [Hne Hl]. by rewrite filter_cons, decide_True, IH by done.
Qed.

Lemma length_filter_ne (a : Z) (l : list Z) : NoDup l -> a ∈ l -> (length (filter (fun x => x <> a) l) + 1 = length l)%nat.
Proof.
  intros Hnd Ha. induction Hnd as [|x l Hx Hnd IH]; [by apply not_elem_of_nil in Ha|].
  rewrite filter_cons. destruct (decide (x = a)) as [->|Hne].
  - rewrite decide_False, filter_ne_id by tauto. simpl. lia.
  - rewrite decide_True by done. simpl. rewrite <- IH; [lia|]. apply elem_of_cons in Ha as [->|]; done.
Qed.

Lemma elem_of_filter_ne (a b : Z) (l : list Z) : b ∈ filter (fun x => x <> a) l <-> b ∈ l /\ b <> a.
Proof. rewrite list_elem_of_filter. tauto. Qed.

(** Both halves of a block leave the list. *)
Lemma remove_pair_spec st F L k ar a b (r : option Z) : rep st F L -> (k < MAX_ORDER)%nat -> free_area st !! k = Some ar ->
  F !! a = Some k -> F !! b = Some k -> a <> b ->
  bwp (list_remove k a;; list_remove k b;;
       do ar <- get_area k; assert_ (2 <=? nr_free ar);; set_area k (mkArea (flist ar) (nr_free ar - 2));;
       update_page a clear_free;; update_page b clear_free;; ret r)
    (fun r' st' => r' = r /\ rep st' (delete b (delete a F)) L /\ free_size st' = free_size st /\ same_but (fun x => x = a \/ x = b) st st') st.
Proof.
  intros Hr Hk Har Ha Hb Hne. pose proof (lookup_lt_Some _ _ _ Har) as Hlt. unfold MAX_ORDER in Hk.
  destruct (r_dom _ _ _ Hr a k Ha) as [_ Hva]. destruct (r_dom _ _ _ Hr b k Hb) as [_ Hvb].
  destruct (r_page _ _ _ Hr a k Ha) as [Hfa _]. destruct (r_page _ _ _ Hr b k Hb) as [Hfb _].
  destruct (r_list _ _ _ Hr k ar Har) as (Hnd & Hnr & Hin).
  assert (Hia : a ∈ flist ar) by (by apply Hin). assert (Hib : b ∈ flist ar) by (by apply Hin).
  assert (Hib' : b ∈ filter (fun x => x <> a) (flist ar)) by (by apply elem_of_filter_ne).
  pose proof (length_filter_ne a _ Hnd Hia) as Hl1.
  pose proof (length_filter_ne b _ (NoDup_filter _ _ Hnd) Hib') as Hl2.
  unfold list_remove. apply wp_bind, wp_bind, (wp_get_area k ar); [done|].
  apply wp_bind, wp_assert; [by apply bool_decide_eq_true|]. apply wp_bind, wp_update_page; [done|]. apply wp_set_area.
  apply wp_bind, wp_bind, (wp_get_area k (mkArea (filter (fun x => x <> a) (flist ar)) (nr_free ar))); [by apply list_lookup_insert_eq|].
  cbn [flist nr_free]. apply wp_bind, wp_assert; [by apply bool_decide_eq_true|]. apply wp_bind, wp_update_page; [done|]. apply wp_set_area.
  apply wp_bind. eapply wp_get_area; [apply list_lookup_insert_eq; simpl; by rewrite length_insert|].
  cbn [flist nr_free]. apply wp_bind, wp_assert; [apply Z.leb_le; lia|]. apply wp_bind, wp_set_area.
  apply wp_bind, wp_update_page; [done|]. apply wp_bind, wp_update_page; [done|]. apply wp_ret. split; [done|]. split; [|split; [done|]].
  2:{ intros x Hx. repeat (rewrite page_upd_area || rewrite page_upd_page). rewrite !decide_False by tauto. done. }
  set (pa := clear_free (set_linked false (page_at st a))). set (pb := clear_free (set_linked false (page_at st b))).
  set (st1 := upd_area (upd_page st a pa) k (mkArea (filter (fun x => x <> a) (flist ar)) (nr_free ar - 1))).
  set (ar2 := mkArea (filter (fun x => x <> b) (filter (fun x => x <> a) (flist ar))) (nr_free ar - 1 - 1)).
  assert (Hfa' : buddy_flags pa = Z.of_nat k) by (apply clear_flags; [lia|done]).
  assert (Hfb' : buddy_flags pb = Z.of_nat k) by (apply clear_flags; [lia|done]).
  assert (Hr1 : rep st1 (delete a F) L).
  { apply rep_delete with (ar := ar); try done; [lia|by apply NoDup_filter|]. intros x. apply elem_of_filter_ne. }
  assert (Hr2 : rep (upd_area (upd_page st1 b pb) k ar2) (delete b (delete a F)) L).
  { eapply rep_delete with (ar := mkArea _ (nr_free ar - 1)); try done; [by rewrite lookup_delete_ne|by apply list_lookup_insert_eq|lia|
      by do 2 apply NoDup_filter|]. intros x. apply elem_of_filter_ne. }
  eapply rep_proper; [|done|done|exact Hr2]. split; simpl; [| |done|done].
  - intros x. unfold st1. repeat (rewrite page_upd_area || rewrite page_upd_page).
    destruct (decide (a = b)), (decide (b = a)), (decide (b = b)), (decide (a = a)); try congruence.
    destruct (decide (x = b)), (decide (x = a)); subst; done || congruence.
  - rewrite !list_insert_insert_eq. unfold ar2. by replace (nr_free ar - 1 - 1) with (nr_free ar - 2) by lia.
Qed.

Lemma buddy_in_range k a : (S k < MAX_ORDER)%nat -> aligned k a -> BASE <= a -> a + block_size k <= END ->
  BASE <= buddy k a /\ buddy k a + block_size k <= END /\ aligned k (buddy k a).
Proof.
  intros Hk Hal Hlo Hhi. pose proof (block_size_pos k) as Hpos.
  destruct (buddy_cases k a Hal) as [[Hal' Hb]|[Hal' Ha]].
  - rewrite Hb. split; [lia|]. split; [|by apply aligned_half].
    assert (Hd : (block_size (S k) | END - a)).
    { apply aligned_divide in Hal'. replace (END - a) with (DIRECT_MAPPING_SIZE - (a - BASE)) by (unfold END; lia).
      apply Z.divide_sub_r; [|done]. etrans; [apply (block_size_divide (S k) 8); unfold MAX_ORDER in Hk; lia|]. by exists 128. }
    destruct Hd as [q Hq]. rewrite block_size_S in Hq. assert (1 <= q) by nia. nia.
  - destruct (aligned_half k _ Hal') as [Hb _]. split; [|split; [lia|done]].
    apply aligned_divide in Hal' as [q Hq]. rewrite block_size_S in Hq. assert (0 <= q) by nia. nia.
Qed.

Lemma FreeArea_merge_spec st F L k : binv st F L -> (S k < MAX_ORDER)%nat ->
  bwp (FreeArea_merge BASE k) (fun o st' =>
    match o with
    | None => st' = st /\ forall a, hd_of st k = Some a -> F !! buddy k a <> Some k
    | Some c => aligned (S k) c /\ F !! c = Some k /\ F !! (c + block_size k) = Some k /\
        (hd_of st k = Some c \/ hd_of st k = Some (c + block_size k)) /\
        rep st' (delete (c + block_size k) (delete c F)) L /\ free_size st' = free_size st /\
        same_but (fun x => x = c \/ x = c + block_size k) st st'
    end) st.
Proof.
  intros [Hr Hok Hout] Hk. destruct (rep_area st F L k Hr ltac:(lia)) as [ar Har]. unfold FreeArea_merge.
  apply wp_bind, (wp_get_area k ar); [done|]. destruct (r_list _ _ _ Hr k ar Har) as (_ & _ & Hin).
  assert (Hhd : hd_of st k = head (flist ar)) by (unfold hd_of; by rewrite Har).
  destruct (flist ar) as [|a l] eqn:Hl; [apply wp_ret; split; [done|]; by rewrite Hhd|]. simpl in Hhd.
  assert (Ha : F !! a = Some k) by (apply Hin; left).
  pose proof (bo_range _ Hok a k Ha) as (_ & Hlo & Hhi & Hal). pose proof (block_size_pos k).
  destruct (buddy_in_range k a Hk Hal Hlo Hhi) as (Hblo & Hbhi & Hbal).
  apply wp_bind. unfold wp at 1. rewrite get_buddy_addr_spec by done.
  apply wp_bind, wp_get_page; [by eapply aligned_valid|].
  destruct (F !! buddy k a) as [j|] eqn:Hb.
  2:{ destruct (r_unfree _ _ _ Hr _ Hb) as [Hfl _]. rewrite (is_free_false _ Hfl), orb_true_r. apply wp_ret.
      split; [done|]. intros x. rewrite Hhd. intros [= <-]. congruence. }
  destruct (r_page _ _ _ Hr _ _ Hb) as [Hfl _]. destruct (r_dom _ _ _ Hr _ _ Hb) as [Hj _]. unfold MAX_ORDER in Hj.
  destruct (is_free_true _ (Z.of_nat j) ltac:(lia) Hfl) as [-> ->]. cbn [negb]. rewrite orb_false_r.
  destruct (Z.eqb_spec (Z.of_nat j) (Z.of_nat k)) as [->%Nat2Z.inj|Hne]; cbn [negb].
  2:{ apply wp_ret. split; [done|]. intros x. rewrite Hhd. intros [= <-]. rewrite Hb. intros [= ->]. done. }
  assert (Hab : a <> buddy k a) by (destruct (buddy_cases k a Hal) as [[_ ?]|[_ ?]]; lia).
  eapply wp_mono; [apply (remove_pair_spec st F L k ar); try done; lia| |done]. intros r st' (-> & Hr' & Hs' & Hsm).
  destruct (buddy_cases k a Hal) as [[Hal' He]|[Hal' He]].
  - replace (a <? buddy k a) with true by (symmetry; apply Z.ltb_lt; lia). rewrite <- He. split_and!; try done; tauto.
  - replace (a <? buddy k a) with false by (symmetry; apply Z.ltb_ge; lia). rewrite <- He, delete_delete. split_and!; try done; [tauto|]. intros x Hx. apply Hsm. tauto.
Qed.

(** Two halves make the block again. *)
Lemma join_ok F c k : blocks_ok F -> (S k < MAX_ORDER)%nat -> aligned (S k) c -> F !! c = Some k -> F !! (c + block_size k) = Some k ->
  let F0 := delete (c + block_size k) (delete c F) in
  blocks_ok F0 /\ F0 !! c = None /\ blocks_ok (<[c := S k]> F0) /\
  (forall p, covers (<[c := S k]> F0) p <-> covers F p) /\ total (<[c := S k]> F0) = total F.
Proof.
  intros Hok Hk Hal Hc Hb F0. pose proof (block_size_pos k) as Hpos.
  pose proof (bo_range _ Hok _ _ Hc) as (_ & Hlo & _). pose proof (bo_range _ Hok _ _ Hb) as (_ & _ & Hhi & _).
  destruct (blocks_ok_delete F c k Hok Hc) as [Hok1 Hc1].
  assert (Hb1 : delete c F !! (c + block_size k) = Some k) by (rewrite lookup_delete_ne by lia; done).
  destruct (blocks_ok_delete _ _ k Hok1 Hb1) as [Hok2 Hc2]. fold F0 in Hok2, Hc2.
  destruct (blocks_ok_insert F0 c (S k) Hok2) as (Hn & Hok3 & Hc3); [lia|lia|rewrite block_size_S; lia|done| |].
  { intros p Hp. rewrite Hc2, Hc1. rewrite in_block_split in Hp. tauto. }
  split; [done|]. split; [done|]. split; [done|]. split.
  - intros p. rewrite Hc3, Hc2, Hc1, in_block_split. split; [intros [?|[?|?]]; [tauto|by exists c, k|by exists (c + block_size k), k]|].
    intros Hp. destruct (decide (c <= p < c + block_size k)); [right; by left|].
    destruct (decide (c + block_size k <= p < c + block_size k + block_size k)); [right; by right|].
    left. unfold in_block. tauto.
  - rewrite total_insert by done. rewrite (total_delete F c k), (total_delete (delete c F) _ k), block_size_S by done. unfold F0. lia.
Qed.

Lemma coalesced_at_top st F k : (MAX_ORDER <= S k)%nat -> coalesced_at st F k -> coalesced F.
Proof. intros Hk [Hc|(b & _ & Hc)] a j Hj Ha Hb; [by apply (Hc a j)|]. destruct (Hc a j Hj Ha Hb) as [-> _]. lia. Qed.

Lemma coalesced_at_alone st F k : coalesced_at st F k -> (forall a, hd_of st k = Some a -> F !! buddy k a <> Some k) -> coalesced F.
Proof.
  intros [Hc|(b & Hb & Hc)] Hno; [done|]. intros a j Hj Ha Ha'. destruct (Hc a j Hj Ha Ha') as [-> [->| ->]]; by apply (Hno b Hb).
Qed.

Lemma coalesced_join st F c k : blocks_ok F -> coalesced_at st F k -> F !! c = Some k -> F !! (c + block_size k) = Some k ->
  hd_of st k = Some c \/ hd_of st k = Some (c + block_size k) -> coalesced (delete (c + block_size k) (delete c F)).
Proof.
  intros Hok Hco Hc Hb [Hhd|Hhd]; [|rewrite delete_delete]; by apply coalesced_delete; eapply coalesced_pop.
Qed.

Lemma merge_loop_spec n st F L k : binv st F L -> (n + k = MAX_ORDER - 1)%nat -> coalesced_at st F k ->
  bwp (merge_loop n k) (fun _ st' => exists F', resplit st F L st' F' /\ coalesced F') st.
Proof.
  revert st F k. induction n as [|n IH]; intros st F k Hinv Hn Hco.
  { apply wp_ret. exists F. split; [by split|]. eapply coalesced_at_top; [|done]. unfold MAX_ORDER in *. lia. }
  cbn [merge_loop]. apply wp_bind, wp_get. rewrite (r_start _ _ _ (bi_rep _ _ _ Hinv)).
  assert (Hk : (S k < MAX_ORDER)%nat) by (unfold MAX_ORDER in *; lia).
  apply wp_bind. eapply wp_mono; [by apply FreeArea_merge_spec| |done]. intros [c|] st1.
  2:{ intros [-> Hno]. apply wp_ret. exists F. split; [by split|]. by eapply coalesced_at_alone. }
  intros (Hal & Hc & Hb & Hhd & Hr1 & Hs1 & Hsm1). destruct Hinv as [Hr Hok Hout].
  destruct (join_ok F c k Hok Hk Hal Hc Hb) as (Hok0 & Hn0 & Hok' & Hc' & Ht').
  pose proof (coalesced_join st F c k Hok Hco Hc Hb Hhd) as Hco0.
  set (F0 := delete _ (delete c F)) in *. destruct (r_dom _ _ _ Hr c k Hc) as [_ Hv].
  replace (Z.of_nat k + 1) with (Z.of_nat (S k)) by lia. replace (k + 1)%nat with (S k) by lia.
  assert (HcL : c ∉ L).
  { intros HL. apply (Hout c HL). exists c, k. split; [done|]. pose proof (block_size_pos k). unfold in_block. lia. }
  apply wp_bind. eapply wp_mono; [apply (set_order_spec st1 F0 L c (Z.of_nat (S k))); try done; unfold MAX_ORDER in Hk; lia| |done].
  intros _ st2 (Hr2 & Hs2 & Hf2 & Hsm2).
  apply wp_bind. eapply wp_mono; [by apply (push_front_spec st2 F0 L c (S k))| |done].
  intros _ st3 (Hr3 & Hs3 & Hsm3 & Hhd3).
  assert (Hrs : resplit st F L st3 (<[c := S k]> F0)).
  { split; [split; [done|done|]|done|done|lia|]; [intros p Hp; rewrite Hc'; by apply Hout|]. intros x Hx.
    assert (x <> c) by (intros ->; apply Hx; by eapply covers_self). assert (x <> c + block_size k) by (intros ->; apply Hx; by eapply covers_self).
    rewrite Hsm3, Hsm2 by done. apply Hsm1. tauto. }
  eapply wp_mono; [apply (IH st3 (<[c := S k]> F0)); [apply Hrs|lia|]| |done].
  - right. exists c. split; [done|]. apply coalesced_but_insert; [done|done|]. by apply coalesced_weaken.
  - intros _ st' (F' & Hrs' & Hco'). exists F'. split; [by eapply resplit_trans|done].
Qed.

(** ** Freeing *)

(** The block is memory that is neither free nor in another list. *)
Definition owned (F : gmap Z nat) (L : gset Z) (k : nat) (a : Z) : Prop :=
  (k < MAX_ORDER)%nat /\ BASE <= a /\ a + block_size k <= END /\ aligned k a /\
  forall p, in_block k a p -> ~ covers F p /\ p ∉ L.

Lemma free_by_order_frame st F L k a : buddy_inv st F L -> owned F L k a ->
  bwp (free_by_order a k) (fun _ st' => exists F', buddy_inv st' F' L /\ total F' = total F + block_size k /\
    (forall p, covers F' p <-> covers F p \/ in_block k a p) /\ same_but (fun x => covers F x \/ in_block k a x) st st') st.
Proof.
  intros [[Hr Hok Hout] Hco Hsz] (Hk & Hlo & Hhi & Hal & Hno). pose proof (block_size_pos k) as Hpos.
  destruct (blocks_ok_insert F a k Hok Hk Hlo Hhi Hal) as (Hn & Hok1 & Hc1); [intros p Hp; by apply Hno|].
  assert (HaL : a ∉ L) by (apply Hno; unfold in_block; lia). pose proof (aligned_valid k a Hal Hlo Hhi) as Hv.
  destruct (r_unfree _ _ _ Hr a Hn) as [Hfl Hlk]. rewrite bool_decide_false in Hlk by done.
  unfold free_by_order. apply wp_bind, wp_get. rewrite (r_len _ _ _ Hr).
  replace (MAX_ORDER <=? k)%nat with false by (symmetry; by apply Nat.leb_gt).
  apply wp_bind, wp_get_page; [done|]. apply wp_bind, wp_assert; [by rewrite is_free_false|].
  apply wp_bind, wp_assert; [by rewrite Hlk|].
  apply wp_bind. eapply wp_mono; [apply (set_order_spec st F L a (Z.of_nat k)); try done; unfold MAX_ORDER in Hk; lia| |done].
  intros _ st2 (Hr2 & Hs2 & Hf2 & Hsm2).
  apply wp_bind. eapply wp_mono; [by apply (push_front_spec st2 F L a k)| |done].
  intros _ st3 (Hr3 & Hs3 & Hsm3 & Hhd3). apply wp_bind, wp_get, wp_bind. unfold set_free_size, wp at 1, modify.
  set (st4 := mkBuddy _ _ _ _). assert (Hr4 : rep st4 (<[a := k]> F) L) by (destruct Hr3; by split).
  unfold merge. apply wp_bind, wp_get. rewrite (r_len _ _ _ Hr4).
  eapply wp_mono; [apply (merge_loop_spec _ st4 (<[a := k]> F) L k); [split; [done|done|]|unfold MAX_ORDER in *; lia|]| |done].
  - intros p Hp. rewrite Hc1. intros [Hcov|Hin]; [by apply (Hout p)|by apply (Hno p)].
  - right. exists a. split; [done|]. apply coalesced_but_insert; [done|done|]. by apply coalesced_weaken.
  - intros _ st' (F' & [Hinv' Hc' Ht' Hs' Hsm'] & Hco'). rewrite total_insert in Ht' by done. exists F'. split; [split; [done|done|]|split; [lia|]].
    + rewrite Hs'. unfold st4. simpl. lia.
    + split; [intros p; by rewrite Hc', Hc1|]. intros x Hx. rewrite Hsm' by (by rewrite Hc1). change (page_at st4 x) with (page_at st3 x).
      assert (x <> a) by (intros ->; apply Hx; right; unfold in_block; lia). by rewrite Hsm3, Hsm2.
Qed.

Lemma free_by_order_spec st F L k a : buddy_inv st F L -> owned F L k a ->
  bwp (free_by_order a k) (fun _ st' => exists F', buddy_inv st' F' L /\ total F' = total F + block_size k /\
    forall p, covers F' p <-> covers F p \/ in_block k a p) st.
Proof.
  intros Hb Ho. eapply wp_mono; [by apply (free_by_order_frame st F L k a)| |done]. intros _ st' (F' & H1 & H2 & H3 & _). by exists F'.
Qed.

(** ** The blocks are determined by the free memory *)

Lemma aligned_nested k a j b p : (k <= j)%nat -> aligned k a -> aligned j b -> in_block k a p -> in_block j b p ->
  b <= a /\ a + block_size k <= b + block_size j.
Proof.
  intros Hkj Ha Hb Hp Hq. pose proof (block_size_pos k). pose proof (block_size_divide k j Hkj) as [m Hm].
  apply aligned_divide in Ha as [q Hq1], Hb as [r Hr]. unfold in_block in *. rewrite Hm in *.
  assert (r * m <= q) by nia. assert (q + 1 <= r * m + m) by nia. nia.
Qed.

(** Memory that is free lies in one block when it is aligned as one. *)
Lemma one_block F m c : blocks_ok F -> coalesced F -> (m < MAX_ORDER)%nat -> aligned m c ->
  (forall p, in_block m c p -> covers F p) ->
  exists a j, F !! a = Some j /\ (m <= j)%nat /\ a <= c /\ c + block_size m <= a + block_size j.
Proof.
  intros Hok Hco. revert c. induction m as [|m IH]; intros c Hm Hal Hcov.
  { destruct (Hcov c) as (a & j & Ha & Hin); [unfold in_block; pose proof (block_size_pos 0); lia|].
    exists a, j. split; [done|]. split; [lia|]. pose proof (bo_range _ Hok a j Ha) as (_ & _ & _ & Hala).
    eapply (aligned_nested 0 c j a c); [lia|done|done|unfold in_block; pose proof (block_size_pos 0); lia|done]. }
  pose proof (block_size_pos m) as Hpos. destruct (aligned_half m c Hal) as [Hl Hr].
  destruct (IH c) as (a & j & Ha & Hj & H1 & H2); [lia|done|intros p Hp; apply Hcov, in_block_split; tauto|].
  destruct (IH (c + block_size m)) as (b & i & Hb & Hi & H3 & H4); [lia|done|intros p Hp; apply Hcov, in_block_split; tauto|].
  pose proof (bo_range _ Hok a j Ha) as (_ & _ & _ & Hala). pose proof (bo_range _ Hok b i Hb) as (_ & _ & _ & Halb).
  destruct (decide (m = j)) as [<-|].
  - destruct (decide (m = i)) as [<-|].
    + exfalso. assert (a = c) as -> by lia. assert (b = c + block_size m) as -> by lia.
      apply (Hco c m Hm Ha). by rewrite buddy_left.
    + exists b, i. split; [done|]. split; [lia|]. apply (aligned_nested (S m) c i b (c + block_size m)); [lia|done|done|..];
        unfold in_block; rewrite ?block_size_S; lia.
  - exists a, j. split; [done|]. split; [lia|]. apply (aligned_nested (S m) c j a c); [lia|done|done|..];
      unfold in_block; rewrite ?block_size_S; lia.
Qed.

Lemma coalesced_incl F F' : blocks_ok F -> coalesced F -> blocks_ok F' -> coalesced F' ->
  (forall p, covers F p <-> covers F' p) -> forall a k, F !! a = Some k -> F' !! a = Some k.
Proof.
  intros Hok Hco Hok' Hco' Hcov a k Ha. pose proof (bo_range _ Hok a k Ha) as (Hk & _ & _ & Hal). pose proof (block_size_pos k).
  destruct (one_block F' k a Hok' Hco' Hk Hal) as (a' & k' & Ha' & Hk' & H1 & H2); [intros p Hp; apply Hcov; by exists a, k|].
  pose proof (bo_range _ Hok' a' k' Ha') as (Hk1 & _ & _ & Hal').
  destruct (one_block F k' a' Hok Hco Hk1 Hal') as (b & j & Hb & Hj & H3 & H4); [intros p Hp; apply Hcov; by exists a', k'|].
  assert (a = b) as <- by (apply (bo_disj _ Hok a k b j a); [done|done|unfold in_block; lia..]).
  assert (j = k) as -> by congruence. assert (k' = k) as -> by lia. by assert (a' = a) as <- by lia.
Qed.

Lemma coalesced_unique F F' : blocks_ok F -> coalesced F -> blocks_ok F' -> coalesced F' ->
  (forall p, covers F p <-> covers F' p) -> F = F'.
Proof.
  intros Hok Hco Hok' Hco' Hcov. apply map_eq. intros a.
  destruct (F !! a) as [k|] eqn:Ha; [by rewrite (coalesced_incl F F' Hok Hco Hok' Hco' Hcov a k Ha)|].
  destruct (F' !! a) as [k|] eqn:Ha'; [|done].
  rewrite (coalesced_incl F' F Hok' Hco' Hok Hco (fun p => iff_sym (Hcov p)) a k Ha') in Ha. done.
Qed.

(** ** Initialisation *)

(** All blocks that have been made are of the top order. *)
Definition top_only (F : gmap Z nat) : Prop := forall a k, F !! a = Some k -> k = 8%nat.

Lemma init_area_spec r n st F addr : binv st F ∅ -> top_only F -> (r < n)%nat -> aligned 8 addr -> BASE <= addr ->
  addr + Z.of_nat r * block_size 8 = END -> (forall p, covers F p <-> BASE <= p < addr) ->
  bwp (init_area n 8 addr END) (fun addr' st' => addr' = END /\ exists F', binv st' F' ∅ /\ top_only F' /\
    total F' = total F + (END - addr) /\ free_size st' = free_size st /\ forall p, covers F' p <-> BASE <= p < END) st.
Proof.
  revert n st F addr. induction r as [|r IH]; intros [|n] st F addr [Hr Hok Hout] Htop Hn Hal Hlo Hend Hcov; try lia;
    cbn [init_area]; pose proof (block_size_pos 8) as Hpos.
  { replace (addr + block_size 8 <=? END) with false by (symmetry; apply Z.leb_gt; lia). apply wp_ret.
    assert (addr = END) as -> by lia. split; [done|]. exists F. split; [done|]. split; [done|]. split; [lia|]. done. }
  replace (addr + block_size 8 <=? END) with true by (symmetry; apply Z.leb_le; lia).
  destruct (blocks_ok_insert F addr 8 Hok) as (Hnone & Hok1 & Hc1); [unfold MAX_ORDER; lia|lia|lia|done| |].
  { intros p Hp. rewrite Hcov. unfold in_block in Hp. lia. }
  assert (Hv : valid_page addr = true) by (eapply aligned_valid; [done|done|lia]).
  apply wp_bind. eapply wp_mono; [by apply (set_order_spec st F ∅ addr (Z.of_nat 8))| |done].
  intros _ st2 (Hr2 & Hs2 & Hf2 & _). apply wp_bind.
  eapply wp_mono; [apply (push_front_spec st2 F ∅ addr 8); try done; unfold MAX_ORDER; lia| |done]. intros _ st3 (Hr3 & Hs3 & _).
  eapply wp_mono; [apply (IH n st3 (<[addr := 8%nat]> F) (addr + block_size 8)); try lia| |done].
  - split; [done|done|]. intros a Ha. by apply not_elem_of_empty in Ha.
  - intros a k. rewrite lookup_insert_Some. intros [[_ <-]|[_ Ha]]; [done|by apply (Htop a)].
  - apply aligned_divide in Hal as [q Hq]. apply aligned_divide. exists (q + 1). lia.
  - intros p. rewrite Hc1, Hcov. unfold in_block. lia.
  - intros addr' st' (-> & F' & Hinv & Htop' & Ht & Hs & Hc). split; [done|]. exists F'. rewrite total_insert in Ht by done.
    split; [done|]. split; [done|]. split; [lia|]. split; [lia|done].
Qed.

(** The orders below find no room. *)
Lemma init_rest_spec n st : (n < 9)%nat -> exists st',
  init_orders n END END st = (Ok tt, st') /\ st_eq st st'.
Proof.
  revert st. induction n as [|n IH]; intros st Hn; [by exists st|]. cbn [init_orders]. unfold bind at 1. rewrite Z.sub_diag.
  pose proof (block_size_pos n). change (S (Z.to_nat (0 / block_size n))) with 1%nat. cbn [init_area].
  replace (END + block_size n <=? END) with false by (symmetry; apply Z.leb_gt; lia). unfold ret at 1.
  unfold bind at 1, get. unfold bind at 1, set_free_size, modify. destruct (IH (mkBuddy (pages st) (free_area st) (free_size st + (END - END)) (start_address st))) as (st' & -> & He); [lia|].
  exists st'. split; [done|]. etrans; [|exact He]. split; simpl; try done. lia.
Qed.

Lemma init_orders_S order addr end_addr : init_orders (S order) addr end_addr =
  (do addr' <- init_area (S (Z.to_nat ((end_addr - addr) / block_size order))) order addr end_addr;
   do st <- get; set_free_size (free_size st + (addr' - addr));; init_orders order addr' end_addr).
Proof. done. Qed.

Lemma rep_default : rep (mkBuddy ∅ (replicate MAX_ORDER (mkArea [] 0)) 0 BASE) ∅ ∅.
Proof.
  split; try done.
  intros k ar Hk. apply lookup_replicate in Hk as [-> _]. split; [constructor|]. split; [done|]. intros a. simpl. by rewrite lookup_empty, elem_of_nil.
Qed.

Lemma init_spec : bwp (BuddyAllocatorImpl_init BASE END) (fun _ st => exists F, buddy_inv st F ∅ /\ total F = END - BASE /\
  top_only F /\ forall p, covers F p <-> BASE <= p < END) BuddyAllocatorImpl_default.
Proof.
  unfold BuddyAllocatorImpl_init. apply wp_bind. unfold wp at 1, modify, BuddyAllocatorImpl_default. cbn [pages free_area free_size].
  change (init_orders MAX_ORDER) with (init_orders (S 8)). rewrite init_orders_S. apply wp_bind.
  eapply wp_mono; [apply (init_area_spec 128 _ _ ∅ BASE); [split; [apply rep_default| |]|..]| |done].
  - split; intros; by rewrite lookup_empty in *.
  - intros a Ha. by apply not_elem_of_empty in Ha.
  - intros a k. by rewrite lookup_empty.
  - by vm_compute; lia.
  - done.
  - done.
  - done.
  - intros p. split; [intros (a & k & Ha & _); by rewrite lookup_empty in Ha|lia].
  - intros addr' st (-> & F & [Hr Hok Hout] & Htop & Ht & Hs & Hc). rewrite (map_fold_empty _ _ : total ∅ = 0), Z.add_0_l in Ht. apply wp_bind, wp_get, wp_bind.
    unfold set_free_size, wp at 1, modify. set (st1 := mkBuddy _ _ _ _).
    destruct (init_rest_spec 8 st1) as (st' & Hrun & He); [lia|]. unfold wp. rewrite Hrun. exists F. split; [split; [split; [|done|done]| |]|done].
    + rewrite <- He. destruct Hr; by split.
    + intros a k Hk Ha. apply Htop in Ha as ->. unfold MAX_ORDER in Hk. lia.
    + rewrite <- (se_size _ _ He), Ht. unfold st1. simpl. rewrite Hs. simpl. lia.
Qed.
