(* ===== verification/PageCacheSpec.v ===== *)
(** * Correctness of the per-CPU page lists

    A list of single pages sits in front of the buddy allocator.  Its pages
    are not free memory of the allocator, but they are available: the
    specifications speak of the memory that is free or in the list. *)

From S2P Require Import Prelude Superblock Buddy BuddySpec.

#[local] Open Scope Z_scope.
#[local] Open Scope rw_scope.

#[local] Notation never := (fun (_ : Empty_set) _ => False).

(** ** Linking and unlinking pages that are not free *)

Lemma rep_link st F L a : rep st F L -> F !! a = None -> rep (upd_page st a (set_linked true (page_at st a))) F ({[a]} ∪ L).
Proof.
  intros [Hl Hs Hli Hd Hp Hu Ho] Ha. split; try done.
  - intros b k Hb. rewrite page_upd_page, decide_False by (intros ->; congruence). by apply Hp.
  - intros b Hb. rewrite page_upd_page. destruct (decide (b = a)) as [->|Hne].
    + destruct (Hu a Ha) as [Hf _]. split; [done|]. rewrite bool_decide_true by set_solver. done.
    + destruct (Hu b Hb) as [Hf ->]. split; [done|]. apply bool_decide_ext. set_solver.
  - intros b. rewrite elem_of_union, elem_of_singleton. intros [->|Hb]; [done|by apply Ho].
Qed.

Lemma rep_unlink st F L a : rep st F L -> F !! a = None -> rep (upd_page st a (set_linked false (page_at st a))) F (L ∖ {[a]}).
Proof.
  intros [Hl Hs Hli Hd Hp Hu Ho] Ha. split; try done.
  - intros b k Hb. rewrite page_upd_page, decide_False by (intros ->; congruence). by apply Hp.
  - intros b Hb. rewrite page_upd_page. destruct (decide (b = a)) as [->|Hne].
    + destruct (Hu a Ha) as [Hf _]. split; [done|]. rewrite bool_decide_false by set_solver. done.
    + destruct (Hu b Hb) as [Hf ->]. split; [done|]. apply bool_decide_ext. set_solver.
  - intros b Hb. apply elem_of_difference in Hb as [Hb _]. by apply Ho.
Qed.

Lemma buddy_inv_link st F L a : buddy_inv st F L -> ~ covers F a ->
  buddy_inv (upd_page st a (set_linked true (page_at st a))) F ({[a]} ∪ L).
Proof.
  intros [[Hr Hok Hout] Hco Hsz] Ha. split; [split|done|done]; [apply rep_link; [done|by apply covers_none_lookup]|done|].
  intros b. rewrite elem_of_union, elem_of_singleton. intros [->|Hb]; [done|by apply Hout].
Qed.

Lemma buddy_inv_unlink st F L a : buddy_inv st F L -> ~ covers F a ->
  buddy_inv (upd_page st a (set_linked false (page_at st a))) F (L ∖ {[a]}).
Proof.
  intros [[Hr Hok Hout] Hco Hsz] Ha. split; [split|done|done]; [apply rep_unlink; [done|by apply covers_none_lookup]|done|].
  intros b Hb. apply elem_of_difference in Hb as [Hb _]. by apply Hout.
Qed.

(** ** The invariant *)

Definition page_ok (a : Z) : Prop := aligned 0 a /\ BASE <= a /\ a + block_size 0 <= END.

(** The pages of a CPU's list, beside the pages [L] of the lists of others. *)
Record cache_inv (c : PageCacheList) (st : BuddyAllocatorImpl) (F : gmap Z nat) (L : gset Z) : Prop := {
  ci_inv : buddy_inv st F (list_to_set (cache_list c) ∪ L);
  ci_nodup : NoDup (cache_list c);
  ci_len : cache_list_len c = Z.of_nat (length (cache_list c));
  ci_page a : a ∈ cache_list c \/ a ∈ L -> page_ok a;
  ci_disj a : a ∈ cache_list c -> a ∉ L
}.

(** Memory that is free or in the list. *)
Definition available (c : PageCacheList) (F : gmap Z nat) (p : Z) : Prop :=
  covers F p \/ exists a, a ∈ cache_list c /\ in_block 0 a p.

Definition available_size (c : PageCacheList) (F : gmap Z nat) : Z := total F + PGSIZE * Z.of_nat (length (cache_list c)).

Lemma page_ok_valid a : page_ok a -> valid_page a = true.
Proof. intros (? & ? & ?). by eapply aligned_valid. Qed.

Lemma in_block_0_eq a b p : aligned 0 a -> aligned 0 b -> in_block 0 a p -> in_block 0 b p -> a = b.
Proof. intros Ha Hb Hp Hq. destruct (aligned_nested 0 a 0 b p) as [? ?]; [done..|]. lia. Qed.

Lemma in_block_0_self a : in_block 0 a a.
Proof. unfold in_block. pose proof (block_size_pos 0). lia. Qed.

(** Free memory consists of whole pages. *)
Lemma covers_page F a p : blocks_ok F -> aligned 0 a -> in_block 0 a p -> covers F p -> covers F a.
Proof.
  intros Hok Ha Hp (b & k & Hb & Hin). exists b, k. split; [done|]. pose proof (bo_range _ Hok b k Hb) as (_ & _ & _ & Hal).
  destruct (aligned_nested 0 a k b p) as [? ?]; [lia|done..|]. pose proof (block_size_pos 0). unfold in_block. lia.
Qed.

Lemma cache_not_covered c st F L a : cache_inv c st F L -> a ∈ cache_list c -> ~ covers F a.
Proof. intros Hi Ha. apply (bi_out _ _ _ (b_inv _ _ _ (ci_inv _ _ _ _ Hi))). set_solver. Qed.

(** A page leaves the list. *)
Lemma cache_remove c st F L a l : cache_inv c st F L -> a ∈ cache_list c -> NoDup l ->
  (forall b, b ∈ l <-> b ∈ cache_list c /\ b <> a) -> (length l + 1 = length (cache_list c))%nat ->
  cache_inv (mkPageCache l (cache_list_len c - 1)) (upd_page st a (set_linked false (page_at st a))) F L.
Proof.
  intros Hi Ha Hnd Hin Hlen. pose proof (cache_not_covered _ _ _ _ _ Hi Ha) as Hn. destruct Hi as [Hb Hnd0 Hl Hpg Hdj].
  split; simpl.
  - pose proof (buddy_inv_unlink st F _ a Hb Hn) as H1.
    assert (list_to_set l ∪ L = (list_to_set (cache_list c) ∪ L) ∖ {[a]} :> gset Z) as ->; [|done].
    apply set_eq. intros x. pose proof (Hdj a Ha).
    rewrite elem_of_union, elem_of_difference, elem_of_union, !elem_of_list_to_set, elem_of_singleton, Hin. naive_solver.
  - done.
  - rewrite Hl. lia.
  - intros b. rewrite Hin. intros Hb'. apply Hpg. tauto.
  - intros b. rewrite Hin. intros [Hb' _]. by apply Hdj.
Qed.

Lemma available_remove c st F L a l n : cache_inv c st F L -> a ∈ cache_list c -> (forall b, b ∈ l <-> b ∈ cache_list c /\ b <> a) ->
  forall p, available (mkPageCache l n) F p <-> available c F p /\ ~ in_block 0 a p.
Proof.
  intros Hi Ha Hin p. pose proof (ci_page _ _ _ _ Hi a (or_introl Ha)) as Hpg. unfold available; simpl. split.
  - intros [Hp|(b & Hb & Hp)].
    + split; [by left|]. intros Hq. apply (cache_not_covered _ _ _ _ _ Hi Ha). eapply covers_page; [apply Hi|apply Hpg|done|done].
    + apply Hin in Hb as [Hb Hne]. split; [right; by exists b|]. intros Hq. apply Hne. symmetry.
      eapply in_block_0_eq; [apply Hpg|apply (ci_page _ _ _ _ Hi); by left|done|done].
  - intros [[Hp|(b & Hb & Hp)] Hq]; [by left|]. right. exists b. split; [|done]. apply Hin. split; [done|]. by intros ->.
Qed.

(** A page joins the list. *)
Lemma cache_push_spec c st F L a : cache_inv c st F L -> page_ok a -> ~ covers F a -> a ∉ cache_list c -> a ∉ L ->
  wp (cache_push_front a) (fun _ '(c', st') => cache_inv c' st' F L /\ cache_list c' = a :: cache_list c /\
    same_but (eq a) st st' /\ buddy_flags (page_at st' a) = buddy_flags (page_at st a)) never (c, st).
Proof.
  intros [Hb Hnd Hl Hpg Hdj] Hok Hn Hac HaL. unfold cache_push_front. pose proof (page_ok_valid a Hok) as Hv.
  apply wp_bind, wp_lifted, wp_get_page; [done|].
  destruct (r_unfree _ _ _ (bi_rep _ _ _ (b_inv _ _ _ Hb)) a (covers_none_lookup F a Hn)) as [_ Hlk].
  rewrite bool_decide_false in Hlk by set_solver.
  apply wp_bind, wp_lifted, wp_assert; [by rewrite Hlk|]. apply wp_bind, wp_lifted, wp_update_page; [done|].
  apply wp_bind, wp_focus, wp_refocus. split; [|split; [done|split]].
  2:{ intros b Hb'. by rewrite page_upd_page, decide_False by congruence. }
  2:{ by rewrite page_upd_page, decide_True. }
  split; cbn [cache_list cache_list_len].
  - pose proof (buddy_inv_link st F _ a Hb Hn) as H1. rewrite list_to_set_cons, <- union_assoc_L. done.
  - by constructor.
  - rewrite Hl. simpl. lia.
  - intros b. rewrite elem_of_cons. intros [[->|?]|?]; [done|apply Hpg; tauto..].
  - intros b. rewrite elem_of_cons. intros [->|Hb']; [done|by apply Hdj].
Qed.

(** ** Allocating a page *)

(** The pages of the list have order 0. *)
Definition cached_flags (c : PageCacheList) (st : BuddyAllocatorImpl) : Prop := forall a, a ∈ cache_list c -> buddy_flags (page_at st a) = 0.

Record rebalanced (c : PageCacheList) (st : BuddyAllocatorImpl) (F : gmap Z nat) (L : gset Z) (s' : PageCacheList * BuddyAllocatorImpl) (F' : gmap Z nat) : Prop := {
  rb_inv : cache_inv s'.1 s'.2 F' L;
  rb_available p : available s'.1 F' p <-> available c F p;
  rb_size : available_size s'.1 F' = available_size c F;
  rb_same : same_but (available c F) st s'.2;
  rb_flags : cached_flags c st -> cached_flags s'.1 s'.2
}.

Lemma rebalanced_trans c st F L s1 F1 s2 F2 : rebalanced c st F L s1 F1 -> rebalanced s1.1 s1.2 F1 L s2 F2 -> rebalanced c st F L s2 F2.
Proof.
  intros [I1 A1 S1 M1 G1] [I2 A2 S2 M2 G2]. split; [done|intros p; by rewrite A2, A1|congruence| |auto].
  intros b Hb. rewrite M2 by (by rewrite A1). by apply M1.
Qed.

(** A page moves from the allocator to the list. *)
Lemma refill_one c st F L a st1 : cache_inv c st F L -> allocated F (list_to_set (cache_list c) ∪ L) 0 a st1 ->
  buddy_flags (page_at st1 a) = Z.of_nat 0 -> same_but (covers F) st st1 ->
  wp (cache_push_front a) (fun _ s' => exists F', rebalanced c st F L s' F' /\ cache_list s'.1 = a :: cache_list c) never (c, st1).
Proof.
  intros Hi (_ & Hlo & Hhi & Hal & Hfree & _ & F1 & Hb1 & Ht1 & Hc1) Hfl Hsm.
  pose proof (Hfree a (in_block_0_self a)) as Hca.
  assert (Hout : a ∉ cache_list c /\ a ∉ L).
  { pose proof (bi_out _ _ _ (b_inv _ _ _ (ci_inv _ _ _ _ Hi))) as Ho. split; intros Ha; (apply (Ho a); [set_solver|done]). }
  destruct Hi as [Hb Hnd Hl Hpg Hdj]. assert (Hi1 : cache_inv c st1 F1 L) by (by split).
  eapply wp_mono; [apply (cache_push_spec c st1 F1 L a Hi1); [by split|rewrite Hc1; intros [_ Hn]; apply Hn, in_block_0_self|apply Hout..]| |done].
  intros _ [c' st'] (Hi' & Hl' & Hsm' & Hfl'). exists F1. split; [|done]. split; [done| | | |].
  - intros p. unfold available. simpl. rewrite Hl', Hc1. setoid_rewrite elem_of_cons. split.
    + intros [[? _]|(b & [->|Hb'] & Hp)]; [by left|left; by apply Hfree|right; by exists b].
    + intros [Hp|(b & Hb' & Hp)]; [|right; exists b; tauto].
      destruct (decide (a <= p < a + block_size 0)); [right; exists a; split; [by left|done]|left; by split].
  - unfold available_size. simpl. rewrite Hl', Ht1. change (block_size 0) with PGSIZE. simpl. lia.
  - intros b Hb'. cbn [snd]. rewrite Hsm'; [apply Hsm; intros Hc; apply Hb'; by left|]. intros <-. apply Hb'. by left.
  - intros Hg b. cbn [fst snd]. rewrite Hl', elem_of_cons. intros [->|Hb']; [by rewrite Hfl'|]. rewrite Hsm' by (intros <-; by apply Hout in Hb').
    rewrite Hsm; [by apply Hg|]. apply (bi_out _ _ _ (b_inv _ _ _ Hb)). set_solver.
Qed.

Lemma refill_turn_spec c st F L : cache_inv c st F L ->
  wp refill_turn (fun go s' => exists F', rebalanced c st F L s' F' /\
    if (go : bool) then exists a, cache_list s'.1 = a :: cache_list c else s' = (c, st) /\ forall p, ~ covers F p) never (c, st).
Proof.
  intros Hi. unfold refill_turn. apply wp_bind, wp_lifted.
  eapply wp_mono; [apply (alloc_by_order_frame st F (list_to_set (cache_list c) ∪ L) 0), Hi| |done]. intros [a|] st1.
  - intros (Ha & Hfl & Hsm). apply wp_bind. eapply wp_mono; [by apply (refill_one c st F L a st1)| |done].
    intros _ s' (F1 & Hrb & Hl1). apply wp_ret. exists F1. split; [done|]. by exists a.
  - intros [-> Hno]. apply wp_ret. exists F. split; [by split|]. split; [done|]. intros p (a & k & Ha & _). apply Hno in Ha. lia.
Qed.

Lemma refill_spec n c st F L : cache_inv c st F L ->
  wp (refill n) (fun _ s' => exists F', rebalanced c st F L s' F' /\ (length (cache_list c) <= length (cache_list s'.1))%nat /\
    (length (cache_list s'.1) = length (cache_list c) -> n = 0%nat \/ forall p, ~ covers F p)) never (c, st).
Proof.
  revert c st F. induction n as [|n IH]; intros c st F Hi; cbn [refill].
  { apply wp_ret. exists F. split; [by split|]. split; [done|by left]. }
  apply wp_bind. eapply wp_mono; [by apply (refill_turn_spec c st F L)| |done]. intros [] [c1 st1] (F1 & Hrb & Hgo); cbn [fst] in Hgo.
  - destruct Hgo as [a Hl1]. eapply wp_mono; [apply (IH c1 st1 F1), Hrb| |done].
    intros _ s' (F' & Hrb' & Hlen & _). rewrite Hl1 in Hlen. simpl in Hlen.
    exists F'. split; [by eapply (rebalanced_trans _ _ _ _ (c1, st1))|]. split; lia.
  - destruct Hgo as [[= -> ->] Hno]. apply wp_ret. exists F. split; [by split|]. split; [done|]. by right.
Qed.

(** What an allocation or a release of a page does to the available memory. *)
Definition page_taken (c : PageCacheList) (st : BuddyAllocatorImpl) (F : gmap Z nat) (L : gset Z) (a : Z) (s' : PageCacheList * BuddyAllocatorImpl) : Prop :=
  page_ok a /\ (forall p, in_block 0 a p -> available c F p) /\ exists F', cache_inv s'.1 s'.2 F' L /\
    (forall p, available s'.1 F' p <-> available c F p /\ ~ in_block 0 a p) /\
    available_size s'.1 F' = available_size c F - PGSIZE /\
    same_but (available c F) st s'.2 /\ (cached_flags c st -> cached_flags s'.1 s'.2 /\ buddy_flags (page_at s'.2 a) = 0).

Lemma cache_take_spec c st F L a l : cache_inv c st F L -> cache_list c = a :: l ->
  wp cache_pop_front (fun r s' => r = Some a /\ page_taken c st F L a s' /\ cache_list s'.1 = l) never (c, st).
Proof.
  intros Hi Hl. assert (Ha : a ∈ cache_list c) by (rewrite Hl; left). pose proof (ci_page _ _ _ _ Hi a (or_introl Ha)) as Hpg.
  pose proof (ci_nodup _ _ _ _ Hi) as Hnd. rewrite Hl in Hnd. apply NoDup_cons in Hnd as [Hal Hnd].
  assert (Hin : forall b, b ∈ l <-> b ∈ cache_list c /\ b <> a).
  { intros b. rewrite Hl, elem_of_cons. split; [|naive_solver]. intros Hb. split; [by right|]. by intros ->. }
  unfold cache_pop_front. apply wp_bind, wp_focus. rewrite Hl. apply wp_bind, wp_lifted, wp_update_page; [by apply page_ok_valid|].
  apply wp_bind, wp_lifted, wp_assert; [apply Z.leb_le; rewrite (ci_len _ _ _ _ Hi), Hl; simpl; lia|].
  apply wp_bind, wp_refocus, wp_ret. split; [done|]. split; [|done]. split; [done|].
  split; [intros p Hp; right; by exists a|]. exists F. simpl. split; [|split; [|split; [|split]]].
  - apply cache_remove; try done. rewrite Hl; simpl; lia.
  - by apply (available_remove c st F L).
  - unfold available_size; simpl. rewrite Hl. simpl. lia.
  - intros b Hb. rewrite page_upd_page, decide_False; [done|]. intros ->. apply Hb. right. exists a. split; [done|apply in_block_0_self].
  - intros Hg. split; [|rewrite page_upd_page, decide_True by done; by apply Hg]. intros b Hb. cbn in Hb. rewrite page_upd_page, decide_False by (by intros ->).
    apply Hg. rewrite Hl. by right.
Qed.

Lemma cache_alloc_spec c st F L : cache_inv c st F L ->
  wp (cache_alloc_page 2) (fun o s' =>
    match o with
    | Some a => page_taken c st F L a s'
    | None => (forall p, ~ available c F p) /\ exists F', rebalanced c st F L s' F'
    end) never (c, st).
Proof.
  intros Hi. cbn [cache_alloc_page]. destruct (cache_list c) as [|a l] eqn:Hl.
  2:{ apply wp_bind. eapply wp_mono; [by apply (cache_take_spec c st F L a l)| |done]. by intros o s' (-> & Ha & _). }
  apply wp_bind. unfold cache_pop_front at 1. apply wp_bind, wp_focus. rewrite Hl. apply wp_ret, wp_bind, wp_focus, wp_bind.
  eapply wp_mono; [by apply (refill_spec 16 c st F L)| |done].
  intros _ [c1 st1] (F1 & Hrb & Hlen & Hsame). simpl in *. apply wp_bind, wp_focus.
  pose proof (ci_len _ _ _ _ (rb_inv _ _ _ _ _ _ Hrb)) as Hlen1. cbn [fst] in Hlen1. rewrite (ci_len _ _ _ _ Hi), Hlen1.
  destruct (Z.eqb_spec (Z.of_nat (length (cache_list c))) (Z.of_nat (length (cache_list c1)))) as [He|Hne]; cbn [negb].
  - apply wp_ret. split; [|by exists F1]. rewrite Hl in He, Hsame. destruct (Hsame ltac:(simpl in *; lia)) as [?|Hno]; [done|].
    intros p [Hp|(a & Ha & _)]; [by apply (Hno p)|]. rewrite Hl in Ha. by apply not_elem_of_nil in Ha.
  - destruct (cache_list c1) as [|a l] eqn:Hl1; [by rewrite Hl in Hne|]. apply wp_bind.
    eapply wp_mono; [apply (cache_take_spec c1 st1 F1 L a l); [apply Hrb|done]| |done].
    intros o s' (-> & (Hpg & Hin & F2 & Hi2 & Hav & Hsz & Hsm & Hfl) & _).
    destruct Hrb as [_ Hav1 Hsz1 Hsm1 Hfl1]. simpl in *. split; [done|]. split; [intros p Hp; by apply Hav1, Hin|].
    exists F2. split; [done|]. split; [intros p; by rewrite Hav, Hav1|]. split; [lia|]. split; [|auto].
    intros b Hb. rewrite Hsm by (by rewrite Hav1). by apply Hsm1.
Qed.

(** ** Releasing a page *)

(** The page at the end of the list goes back to the allocator. *)
Lemma drain_one c st F L a l : cache_inv c st F L -> cache_list c = l ++ [a] ->
  wp (free_by_order a 0) (fun _ st' => exists F', rebalanced c st F L (mkPageCache l (cache_list_len c - 1), st') F') never
    (upd_page st a (set_linked false (page_at st a))).
Proof.
  intros Hi Hl. assert (Ha : a ∈ cache_list c) by (rewrite Hl; set_solver). destruct (ci_page _ _ _ _ Hi a (or_introl Ha)) as (Hal & Hlo & Hhi).
  pose proof (ci_nodup _ _ _ _ Hi) as Hnd. rewrite Hl in Hnd. apply NoDup_app in Hnd as (Hnd & Hdis & _).
  pose proof (cache_not_covered _ _ _ _ _ Hi Ha) as Hn. pose proof (ci_disj _ _ _ _ Hi a Ha) as HaL.
  assert (Hi1 : cache_inv (mkPageCache l (cache_list_len c - 1)) (upd_page st a (set_linked false (page_at st a))) F L).
  { apply cache_remove; try done; [|rewrite Hl, length_app; simpl; lia]. intros b. rewrite Hl, elem_of_app, list_elem_of_singleton.
    split; [|naive_solver]. intros Hb. split; [by left|]. intros ->. apply (Hdis a Hb). left. }
  eapply wp_mono; [apply (free_by_order_frame _ F (list_to_set l ∪ L) 0 a); [apply Hi1|]| |done].
  - split; [unfold MAX_ORDER; lia|]. split; [done|]. split; [done|]. split; [done|]. intros p Hp. split.
    + intros Hcov. apply Hn. eapply covers_page; [apply Hi|done..].
    + rewrite elem_of_union, elem_of_list_to_set. intros Hpl.
      assert (Hal' : aligned 0 p) by (apply (ci_page _ _ _ _ Hi1); exact Hpl).
      assert (a = p) as <- by (eapply in_block_0_eq; [done|done|done|apply in_block_0_self]).
      destruct Hpl as [Hpl|?]; [|done]. apply (Hdis a Hpl). left.
  - intros _ st' (F' & Hb' & Ht' & Hc' & Hsm'). exists F'. destruct Hi1 as [Hb1 Hnd1 Hl1 Hpg1 Hdj1]. split; [by split| | | |].
    + intros p. unfold available; simpl. rewrite Hc', Hl. setoid_rewrite elem_of_app. setoid_rewrite list_elem_of_singleton. split.
      * intros [[?|?]|(b & Hb & ?)]; [by left|right; exists a; tauto|right; exists b; tauto].
      * intros [?|(b & [Hb| ->] & ?)]; [by left; left|right; by exists b|left; by right].
    + unfold available_size; simpl. rewrite Hl, length_app, Ht'. change (block_size 0) with PGSIZE. simpl. lia.
    + intros b Hb. cbn [snd]. assert (Hba : b <> a) by (intros ->; apply Hb; right; exists a; split; [done|apply in_block_0_self]).
      rewrite Hsm', page_upd_page, decide_False; [done|done|]. intros [Hc|Hc]; apply Hb; [by left|right; by exists a].
    + intros Hg b Hbl. cbn [fst snd cache_list] in *. assert (Hba : b <> a) by (intros ->; apply (Hdis a Hbl); left).
      rewrite Hsm', page_upd_page, decide_False; [apply Hg; rewrite Hl; set_solver|done|]. intros [Hc|Hc].
      * apply (bi_out _ _ _ (b_inv _ _ _ Hb1) b); [set_solver|done].
      * apply Hba. eapply in_block_0_eq; [|exact Hal|apply in_block_0_self|exact Hc]. apply (Hpg1 b). by left.
Qed.

Lemma drain_pop_spec c st F L : cache_inv c st F L -> cache_list c <> [] ->
  wp drain_pop (fun pg s' => exists l, cache_list c = l ++ [pg] /\
    s' = (mkPageCache l (cache_list_len c - 1), upd_page st pg (set_linked false (page_at st pg)))) never (c, st).
Proof.
  intros Hi Hne. destruct (exists_last Hne) as (l & x & Hl). unfold drain_pop. apply wp_bind, wp_focus. rewrite Hl, last_snoc, removelast_last.
  apply wp_bind, wp_lifted, wp_update_page; [apply page_ok_valid, (ci_page _ _ _ _ Hi); left; rewrite Hl; set_solver|].
  apply wp_bind, wp_lifted, wp_assert; [apply Z.leb_le; rewrite (ci_len _ _ _ _ Hi), Hl, length_app; simpl; lia|].
  apply wp_bind, wp_refocus, wp_ret. by exists l.
Qed.

Lemma drain_spec n c st F L : cache_inv c st F L -> (n <= length (cache_list c))%nat ->
  wp (drain n) (fun _ s' => exists F', rebalanced c st F L s' F') never (c, st).
Proof.
  revert c st F. induction n as [|n IH]; intros c st F Hi Hn; cbn [drain].
  { apply wp_ret. exists F. by split. }
  apply wp_bind. eapply wp_mono; [apply (drain_pop_spec c st F L Hi); intros E; rewrite E in Hn; simpl in Hn; lia| |done].
  intros x _ (l0 & Hl0 & ->). rewrite Hl0, length_app in Hn. simpl in Hn.
  apply wp_bind, wp_lifted. eapply wp_mono; [by apply (drain_one c st F L x l0)| |done].
  intros _ st' (F1 & Hrb). eapply wp_mono; [apply (IH _ st' F1); [apply Hrb|simpl; lia]| |done].
  intros _ s' (F' & Hrb'). exists F'. by eapply (rebalanced_trans _ _ _ _ (_, st')).
Qed.

Lemma cache_dealloc_spec c st F L a : cache_inv c st F L -> page_ok a -> (forall p, in_block 0 a p -> ~ available c F p) -> a ∉ L ->
  wp (cache_dealloc_page a) (fun _ s' => exists F', cache_inv s'.1 s'.2 F' L /\
    (forall p, available s'.1 F' p <-> available c F p \/ in_block 0 a p) /\
    available_size s'.1 F' = available_size c F + PGSIZE /\ same_but (fun x => available c F x \/ in_block 0 a x) st s'.2 /\
    (cached_flags c st -> buddy_flags (page_at st a) = 0 -> cached_flags s'.1 s'.2)) never (c, st).
Proof.
  intros Hi Hpg Hno HaL. pose proof (Hno a (in_block_0_self a)) as Hna. unfold cache_dealloc_page. apply wp_bind.
  assert (Hac : a ∉ cache_list c) by (intros Ha; apply Hna; right; exists a; split; [done|apply in_block_0_self]).
  eapply wp_mono; [apply (cache_push_spec c st F L a); try done; intros Hc; apply Hna; by left| |done].
  intros _ [c1 st1] (Hi1 & Hl1 & Hsm1 & Hfl1).
  assert (Hav : forall p, available c1 F p <-> available c F p \/ in_block 0 a p).
  { intros p. unfold available. rewrite Hl1. setoid_rewrite elem_of_cons. split.
    - intros [?|(b & [->|?] & ?)]; [by left; left|by right|left; right; by exists b].
    - intros [[?|(b & ? & ?)]|?]; [by left|right; exists b; tauto|right; exists a; tauto]. }
  assert (Hsame : same_but (fun x => available c F x \/ in_block 0 a x) st st1).
  { intros b Hb. apply Hsm1. intros <-. apply Hb. right. apply in_block_0_self. }
  assert (Hflags : cached_flags c st -> buddy_flags (page_at st a) = 0 -> cached_flags c1 st1).
  { intros Hg Ha0 b. rewrite Hl1, elem_of_cons. intros [->|Hb]; [by rewrite Hfl1|]. rewrite Hsm1 by (by intros <-). by apply Hg. }
  assert (Hsz : available_size c1 F = available_size c F + PGSIZE) by (unfold available_size; rewrite Hl1; simpl; lia).
  apply wp_bind, wp_focus. destruct (Z.ltb_spec (cache_list_len c1) 64) as [Hlt|Hge]; [apply wp_ret; exists F; split; [done|]; split; [done|]; split; [done|]; by split|].
  rewrite (ci_len _ _ _ _ Hi1) in Hge. eapply wp_mono; [apply (drain_spec 16 c1 st1 F L Hi1); lia| |done].
  intros _ s' (F' & [Hi' Hav' Hsz' Hsm' Hfl']). exists F'. split; [done|]. split; [intros p; by rewrite Hav', Hav|]. split; [lia|]. split; [|auto].
  intros b Hb. rewrite Hsm' by (by rewrite Hav). by apply Hsame.
Qed.
