(* ===== verification/BuddyTheorems.v ===== *)
(** * Properties of the physical memory allocator

    The buddy allocator as a set of free blocks, and the allocation functions
    that the kernel calls, with the lists of the CPUs in front of it, over
    every interleaving of the CPUs. *)

From S2P Require Import Prelude Superblock Buddy BuddySpec PageCacheSpec.

#[local] Open Scope Z_scope.
#[local] Open Scope rw_scope.

#[local] Notation never := (fun (_ : Empty_set) _ => False).

(** The allocator as [init] leaves it. *)
Definition booted : BuddyAllocatorImpl := snd (BuddyAllocatorImpl_init BASE END BuddyAllocatorImpl_default).

Lemma booted_ok : exists F, buddy_inv booted F ∅ /\ total F = DIRECT_MAPPING_SIZE.
Proof.
  pose proof init_spec as Hi. unfold wp, booted in *. destruct (BuddyAllocatorImpl_init _ _ _) as [[u|e|] st]; try done.
  destruct Hi as (F & Hb & Ht & _). exists F. split; [done|]. by rewrite Ht.
Qed.

(** ** The buddy allocator *)

(** [init] does not panic: it turns the whole direct mapping into free
    blocks of the top order, and counts its size as free. *)
Theorem buddy_init : wp (BuddyAllocatorImpl_init BASE END)
  (fun _ st => exists F, buddy_inv st F ∅ /\ free_size st = DIRECT_MAPPING_SIZE /\
    (forall a k, F !! a = Some k -> k = 8%nat) /\ forall p, covers F p <-> BASE <= p < END) never BuddyAllocatorImpl_default.
Proof.
  eapply wp_mono; [apply init_spec| |done]. intros _ st (F & Hb & Ht & Htop & Hc). exists F. split; [done|]. split; [|done].
  by rewrite (b_size _ _ _ Hb), Ht.
Qed.

(** [alloc_by_order] does not panic.  It returns an aligned block that was
    free and takes exactly its memory from the free memory, keeping the
    blocks disjoint, aligned and joined; it returns nothing, and changes
    nothing, only when every free block is smaller than the request. *)
Theorem buddy_alloc st F L k (Hinv : buddy_inv st F L) :
  wp (alloc_by_order k) (fun o st' =>
    match o with
    | Some a => aligned k a /\ (forall p, in_block k a p -> covers F p) /\
        exists F', buddy_inv st' F' L /\ free_size st' = free_size st - block_size k /\
          forall p, covers F' p <-> covers F p /\ ~ in_block k a p
    | None => st' = st /\ forall a k', F !! a = Some k' -> (k' < k)%nat
    end) never st.
Proof.
  eapply wp_mono; [by apply (alloc_by_order_spec st F L k)| |done]. intros [a|] st'; [|done].
  intros (_ & _ & _ & Hal & Hfree & _ & F' & Hb & Ht & Hc). split; [done|]. split; [done|]. exists F'. split; [done|]. split; [|done].
  rewrite (b_size _ _ _ Hb), (b_size _ _ _ Hinv). lia.
Qed.

Lemma buddy_alloc_witness : exists F, wp (alloc_by_order 3) (fun o st' =>
    match o with
    | Some a => aligned 3 a /\ (forall p, in_block 3 a p -> covers F p) /\
        exists F', buddy_inv st' F' ∅ /\ free_size st' = free_size booted - block_size 3 /\
          forall p, covers F' p <-> covers F p /\ ~ in_block 3 a p
    | None => st' = booted /\ forall a k', F !! a = Some k' -> (k' < 3)%nat
    end) never booted.
Proof. destruct booted_ok as (F & HF & _). exists F. exact (buddy_alloc booted F ∅ 3 HF). Defined.

(** C11. Freeing a block of allocated memory does not panic and adds exactly
    its memory to the free memory; a block whose buddy is free is joined with
    it, at every order, so that no two free buddies remain apart. *)
Theorem buddy_free st F L k a (Hinv : buddy_inv st F L) (Hown : owned F L k a) :
  wp (free_by_order a k) (fun _ st' => exists F', buddy_inv st' F' L /\ free_size st' = free_size st + block_size k /\
    forall p, covers F' p <-> covers F p \/ in_block k a p) never st.
Proof.
  eapply wp_mono; [by apply (free_by_order_spec st F L k a)| |done]. intros _ st' (F' & Hb & Ht & Hc). exists F'.
  split; [done|]. split; [|done]. rewrite (b_size _ _ _ Hb), (b_size _ _ _ Hinv). lia.
Qed.

Lemma allocated_owned F L k a st st1 : buddy_inv st F L -> allocated F L k a st1 -> exists F1, buddy_inv st1 F1 L /\ owned F1 L k a /\
  forall p, covers F p <-> covers F1 p \/ in_block k a p.
Proof.
  intros Hb (Hk & Hlo & Hhi & Hal & Hfree & _ & F1 & Hb1 & _ & Hc1). exists F1. split; [done|]. split.
  - split; [done|]. split; [done|]. split; [done|]. split; [done|]. intros p Hp. rewrite Hc1. split; [tauto|].
    intros HL. by apply (bi_out _ _ _ (b_inv _ _ _ Hb) p HL), Hfree.
  - intros p. rewrite Hc1. split; [|intros [[? _]|?]; [done|by apply Hfree]].
    intros Hp. destruct (decide (a <= p < a + block_size k)); [by right|left; by split].
Qed.

(** C10. A block that is allocated and freed again leaves exactly the free
    blocks that were there before: the halves that the allocation split off
    are joined again. *)
Theorem buddy_alloc_free st F L k (Hinv : buddy_inv st F L) :
  wp (do o <- alloc_by_order k; match o with Some a => free_by_order a k | None => ret tt end)
    (fun _ st' => buddy_inv st' F L) never st.
Proof.
  apply wp_bind. eapply wp_mono; [by apply (alloc_by_order_spec st F L k)| |done].
  intros [a|] st1 Ha; [|destruct Ha as [-> _]; by apply wp_ret].
  destruct (allocated_owned F L k a st st1 Hinv Ha) as (F1 & Hb1 & Hown & Hc1).
  eapply wp_mono; [by apply (free_by_order_spec st1 F1 L k a)| |done]. intros _ st2 (F2 & Hb2 & _ & Hc2).
  assert (F2 = F) as ->; [|done]. apply coalesced_unique; [apply Hb2|apply Hb2|apply Hinv|apply Hinv|].
  intros p. by rewrite Hc2, Hc1.
Qed.

Lemma buddy_alloc_free_witness : exists F,
  wp (do o <- alloc_by_order 3; match o with Some a => free_by_order a 3 | None => ret tt end)
    (fun _ st' => buddy_inv st' F ∅) never booted.
Proof. destruct booted_ok as (F & HF & _). exists F. exact (buddy_alloc_free booted F ∅ 3 HF). Defined.

Lemma booted_split : exists a F st, buddy_inv st F ∅ /\ owned F ∅ 3 a /\ alloc_by_order 3 booted = (Ok (Some a), st).
Proof.
  destruct booted_ok as (F & HF & _). pose proof (alloc_by_order_spec booted F ∅ 3 HF) as Ha. unfold wp in Ha.
  assert (Hs : match fst (alloc_by_order 3 booted) with Ok (Some _) => true | _ => false end = true) by (vm_compute; reflexivity).
  destruct (alloc_by_order 3 booted) as [[[a|]|e|] st]; try done.
  destruct (allocated_owned F ∅ 3 a booted st HF Ha) as (F1 & Hb1 & Hown & _). by exists a, F1, st.
Qed.

Lemma buddy_free_witness : exists a F st, alloc_by_order 3 booted = (Ok (Some a), st) /\
  wp (free_by_order a 3) (fun _ st' => exists F', buddy_inv st' F' ∅ /\ free_size st' = free_size st + block_size 3 /\
    forall p, covers F' p <-> covers F p \/ in_block 3 a p) never st.
Proof.
  destruct booted_split as (a & F & st & Hb & Hown & Hrun). exists a, F, st. split; [exact Hrun|].
  exact (buddy_free st F ∅ 3 a Hb Hown).
Defined.

(** ** The allocation functions of the kernel *)

Lemma cached_outside c st F L k a b p : cache_inv c st F L -> (forall q, in_block k a q -> covers F q) -> b ∈ cache_list c ->
  in_block 0 b p -> ~ in_block k a p.
Proof.
  intros Hi Hfree Hb Hp Hq. apply (cache_not_covered _ _ _ _ _ Hi Hb). eapply covers_page; [apply Hi| |exact Hp|by apply Hfree].
  apply (ci_page _ _ _ _ Hi). by left.
Qed.

Lemma global_alloc_large c st F L k : cache_inv c st F L ->
  wp (lift (alloc_by_order k)) (fun o s' =>
    match o with
    | Some a => (aligned k a /\ BASE <= a /\ a + block_size k <= END) /\ (forall p, in_block k a p -> available c F p) /\
        exists F', cache_inv s'.1 s'.2 F' L /\ (forall p, available s'.1 F' p <-> available c F p /\ ~ in_block k a p) /\
          available_size s'.1 F' = available_size c F - block_size k
    | None => (forall a k', F !! a = Some k' -> (k' < k)%nat) /\ s' = (c, st)
    end) never (c, st).
Proof.
  intros Hi. apply wp_lifted. eapply wp_mono; [apply (alloc_by_order_spec st F (list_to_set (cache_list c) ∪ L) k), Hi| |done].
  intros [a|] st'; [|by intros [-> Hno]].
  intros (_ & Hlo & Hhi & Hal & Hfree & _ & F' & Hb & Ht & Hc). split; [done|]. split; [intros p Hp; left; by apply Hfree|].
  exists F'. split; [destruct Hi; by split|]. split; [|unfold available_size; simpl; lia].
  intros p. unfold available; simpl. rewrite Hc. split.
  - intros [[? ?]|(b & Hb' & Hp)]; [tauto|]. split; [right; by exists b|]. by eapply cached_outside.
  - intros [[?|?] ?]; tauto.
Qed.

Lemma empty_cache st F : buddy_inv st F ∅ -> cache_inv PageCacheList_new st F ∅.
Proof.
  intros Hb. split; cbn [cache_list cache_list_len PageCacheList_new]; [|constructor|done| |].
  - rewrite list_to_set_nil, union_empty_l_L. done.
  - intros a [Ha|Ha]; [by apply not_elem_of_nil in Ha|by apply not_elem_of_empty in Ha].
  - intros a Ha. by apply not_elem_of_nil in Ha.
Qed.

(** *** The lists of all the CPUs *)

Definition cached (s : Machine) : list Z := PAGE_CACHE_LIST s ≫= cache_list.

(** The pages in the lists of the CPUs other than [i]. *)
Definition others (i : nat) (s : Machine) : list Z :=
  (take i (PAGE_CACHE_LIST s) ≫= cache_list) ++ (drop (S i) (PAGE_CACHE_LIST s) ≫= cache_list).

Definition put_cpu (i : nat) (c : PageCacheList) (st : BuddyAllocatorImpl) (s : Machine) : Machine :=
  mkMachine (<[i := c]> (PAGE_CACHE_LIST s)) st (pcs s).

Lemma cached_split i c s : PAGE_CACHE_LIST s !! i = Some c -> cached s ≡ₚ cache_list c ++ others i s.
Proof.
  intros Hc. unfold cached, others. rewrite <- (take_drop_middle _ _ _ Hc) at 1. rewrite bind_app, bind_cons. solve_Permutation.
Qed.

Lemma others_put i c st s : others i (put_cpu i c st s) = others i s.
Proof. unfold others. cbn [PAGE_CACHE_LIST put_cpu]. by rewrite take_insert_ge, drop_insert_lt by lia. Qed.

Lemma cached_put i c0 c st s : PAGE_CACHE_LIST s !! i = Some c0 -> cached (put_cpu i c st s) ≡ₚ cache_list c ++ others i s.
Proof.
  intros Hc. rewrite <- (others_put i c st s). apply cached_split. cbn. apply list_lookup_insert_eq. by eapply lookup_lt_Some.
Qed.

Lemma put_cpu_same i c s : PAGE_CACHE_LIST s !! i = Some c -> put_cpu i c (BUDDY_ALLOCATOR s) s = s.
Proof. intros Hc. unfold put_cpu. rewrite list_insert_id by done. by destruct s. Qed.

Record lists_inv (s : Machine) (F : gmap Z nat) : Prop := {
  li_buddy : buddy_inv (BUDDY_ALLOCATOR s) F (list_to_set (cached s));
  li_nodup : NoDup (cached s);
  li_len : Forall (fun c => cache_list_len c = Z.of_nat (length (cache_list c))) (PAGE_CACHE_LIST s);
  li_page a : a ∈ cached s -> page_ok a
}.

(** What CPU [i] sees, and what becomes of the lists after it has worked. *)
Lemma lists_inv_at i c s F : lists_inv s F -> PAGE_CACHE_LIST s !! i = Some c ->
  cache_inv c (BUDDY_ALLOCATOR s) F (list_to_set (others i s)).
Proof.
  intros [Hb Hnd Hl Hp] Hc. pose proof (cached_split i c s Hc) as Hsp. rewrite Hsp in Hnd. apply NoDup_app in Hnd as (Hnd & Hdj & _). split.
  - rewrite <- list_to_set_app_L. by rewrite (list_to_set_perm_L _ _ Hsp) in Hb.
  - done.
  - by apply (proj1 (Forall_lookup _ _) Hl i c Hc).
  - intros a. rewrite elem_of_list_to_set. intros Ha. apply Hp. rewrite Hsp. by apply elem_of_app.
  - intros a Ha. rewrite elem_of_list_to_set. by apply Hdj.
Qed.

Lemma lists_inv_put i c c' st' s F F' : lists_inv s F -> PAGE_CACHE_LIST s !! i = Some c ->
  cache_inv c' st' F' (list_to_set (others i s)) -> lists_inv (put_cpu i c' st' s) F'.
Proof.
  intros [_ Hnd Hl Hp] Hc [Hb' Hnd' Hl' Hp' Hdj']. rewrite (cached_split i c s Hc) in Hnd. apply NoDup_app in Hnd as (_ & _ & Hnd).
  pose proof (cached_put i c c' st' s Hc) as Hsp. split.
  - rewrite (list_to_set_perm_L _ _ Hsp), list_to_set_app_L. done.
  - rewrite Hsp. apply NoDup_app. split_and!; [done| |done]. intros a Ha Ho. apply (Hdj' a Ha). by apply elem_of_list_to_set.
  - cbn. by apply Forall_insert.
  - intros a. rewrite Hsp, elem_of_app. intros Ha. apply Hp'. by rewrite elem_of_list_to_set.
Qed.

(** Memory that is free or in some list, and its size. *)
Definition in_reserve (s : Machine) (F : gmap Z nat) (p : Z) : Prop := covers F p \/ exists a, a ∈ cached s /\ in_block 0 a p.
Definition reserve_size (s : Machine) (F : gmap Z nat) : Z := total F + PGSIZE * Z.of_nat (length (cached s)).

Lemma reserve_split i c s F p : PAGE_CACHE_LIST s !! i = Some c ->
  in_reserve s F p <-> available c F p \/ exists a, a ∈ others i s /\ in_block 0 a p.
Proof.
  intros Hc. unfold in_reserve, available.
  assert (Hin : forall a, a ∈ cached s <-> a ∈ cache_list c \/ a ∈ others i s) by (intros a; by rewrite (cached_split i c s Hc), elem_of_app).
  setoid_rewrite Hin. split.
  - intros [?|(a & [?|?] & ?)]; [by left; left|left; right; by exists a|right; by exists a].
  - intros [[?|(a & ? & ?)]|(a & ? & ?)]; [by left|right; exists a; tauto..].
Qed.

Lemma reserve_put i c c' st' s F' p : PAGE_CACHE_LIST s !! i = Some c ->
  in_reserve (put_cpu i c' st' s) F' p <-> available c' F' p \/ exists a, a ∈ others i s /\ in_block 0 a p.
Proof.
  intros Hc. rewrite (reserve_split i c'), others_put; [done|]. cbn. apply list_lookup_insert_eq. by eapply lookup_lt_Some.
Qed.

Lemma size_split i c s F : PAGE_CACHE_LIST s !! i = Some c -> reserve_size s F = available_size c F + PGSIZE * Z.of_nat (length (others i s)).
Proof. intros Hc. unfold reserve_size, available_size. rewrite (Permutation_length (cached_split i c s Hc)), length_app. lia. Qed.

Lemma size_put i c c' st' s F' : PAGE_CACHE_LIST s !! i = Some c ->
  reserve_size (put_cpu i c' st' s) F' = available_size c' F' + PGSIZE * Z.of_nat (length (others i s)).
Proof. intros Hc. unfold reserve_size, available_size. rewrite (Permutation_length (cached_put i c c' st' s Hc)), length_app. lia. Qed.

(** The pages of the other lists are not available to CPU [i]. *)
Lemma others_apart i c s F a p : lists_inv s F -> PAGE_CACHE_LIST s !! i = Some c -> a ∈ others i s -> in_block 0 a p -> ~ available c F p.
Proof.
  intros Hli Hc Ha Hp. pose proof (lists_inv_at i c s F Hli Hc) as Hi.
  assert (HaL : a ∈ list_to_set (C := gset Z) (others i s)) by (by apply elem_of_list_to_set).
  pose proof (ci_page _ _ _ _ Hi a (or_intror HaL)) as Hpg. intros [Hcov|(b & Hb & Hq)].
  - apply (bi_out _ _ _ (b_inv _ _ _ (ci_inv _ _ _ _ Hi)) a); [set_solver|]. eapply covers_page; [apply Hi|apply Hpg|done|done].
  - pose proof (ci_page _ _ _ _ Hi b (or_introl Hb)) as Hpb. assert (a = b) as -> by (eapply in_block_0_eq; [apply Hpg|apply Hpb|done|done]).
    by apply (ci_disj _ _ _ _ Hi b).
Qed.

(** *** The state between two steps

    [O] are the blocks outside of the allocator: the ones the kernel holds and
    the pages that a CPU has taken out of its list and not freed yet. *)

Definition flying (pc : cpu_pc) : Z := match pc with Freeing _ _ => 1 | _ => 0 end.
Definition freeing (l : list cpu_pc) : Z := foldr (fun pc n => flying pc + n) 0 l.

Record tracked (held O : gmap Z nat) (l : list cpu_pc) : Prop := {
  tr_held a k : held !! a = Some k -> O !! a = Some k;
  tr_fly i n pg : l !! i = Some (Freeing n pg) -> O !! pg = Some 0%nat /\ held !! pg = None;
  tr_inj i j n m pg : l !! i = Some (Freeing n pg) -> l !! j = Some (Freeing m pg) -> i = j
}.

Definition pc_ok (pc : cpu_pc) (c : PageCacheList) : Prop :=
  match pc with
  | Outside => True
  | Refilling _ old_len => old_len = 0
  | Draining n | Freeing n _ => (n <= length (cache_list c))%nat
  end.

Definition apart (O : gmap Z nat) (s : Machine) (F : gmap Z nat) : Prop := forall p, covers O p -> ~ in_reserve s F p.

Record machine_inv (s : Machine) (held F O : gmap Z nat) : Prop := {
  ma_cpus : length (PAGE_CACHE_LIST s) = length (pcs s);
  ma_lists : lists_inv s F;
  ma_blocks : blocks_ok O;
  ma_apart : apart O s F;
  ma_tracked : tracked held O (pcs s);
  ma_pc i pc c : pcs s !! i = Some pc -> PAGE_CACHE_LIST s !! i = Some c -> pc_ok pc c;
  ma_sum : reserve_size s F + PGSIZE * freeing (pcs s) + total held = DIRECT_MAPPING_SIZE
}.

Lemma freeing_insert i pc pc' l : l !! i = Some pc -> freeing (<[i := pc']> l) = freeing l - flying pc + flying pc'.
Proof.
  unfold freeing. revert i. induction l as [|x l IH]; intros [|i]; simpl; [done|done|intros [= ->]; lia|]. intros Hi. specialize (IH i Hi). lia.
Qed.

(** The machine after CPU [i] has moved. *)
Definition moved (i : nat) (c : PageCacheList) (st : BuddyAllocatorImpl) (pc : cpu_pc) (s : Machine) : Machine :=
  mkMachine (<[i := c]> (PAGE_CACHE_LIST s)) st (<[i := pc]> (pcs s)).

Lemma machine_moved i c c' st' pc pc' s held held' F F' O O' : machine_inv s held F O ->
  PAGE_CACHE_LIST s !! i = Some c -> pcs s !! i = Some pc ->
  cache_inv c' st' F' (list_to_set (others i s)) -> pc_ok pc' c' ->
  blocks_ok O' /\ apart O' (put_cpu i c' st' s) F' -> tracked held' O' (<[i := pc']> (pcs s)) ->
  available_size c' F' + PGSIZE * flying pc' + total held' = available_size c F + PGSIZE * flying pc + total held ->
  machine_inv (moved i c' st' pc' s) held' F' O'.
Proof.
  intros [Hn Hl Hb Ha Ht Hpc Hs] Hc Hp Hi' Hpc' [Hb' Ha'] Ht' Hs'. split.
  - cbn. by rewrite !length_insert.
  - destruct (lists_inv_put i c c' st' s F F' Hl Hc Hi'). by split.
  - done.
  - exact Ha'.
  - exact Ht'.
  - intros j pc1 c1. cbn. destruct (decide (j = i)) as [->|Hne].
    + rewrite !list_lookup_insert_eq by (by eapply lookup_lt_Some). by intros [= <-] [= <-].
    + rewrite !list_lookup_insert_ne by done. apply Hpc.
  - change (reserve_size (moved i c' st' pc' s) F') with (reserve_size (put_cpu i c' st' s) F'). cbn [pcs moved].
    rewrite (size_put i c), (freeing_insert i pc) by done. rewrite (size_split i c s F Hc) in Hs. lia.
Qed.

(** *** What happens to the blocks outside *)

Lemma apart_keep i c c' st' s F F' O : PAGE_CACHE_LIST s !! i = Some c -> apart O s F ->
  (forall p, available c' F' p <-> available c F p) -> apart O (put_cpu i c' st' s) F'.
Proof. intros Hc Ha Hav p Hp. rewrite (reserve_put i c) by done. rewrite Hav, <- (reserve_split i c) by done. by apply Ha. Qed.

Lemma apart_give i c c' st' s held F F' O k a : machine_inv s held F O -> PAGE_CACHE_LIST s !! i = Some c ->
  (k < MAX_ORDER)%nat -> BASE <= a /\ a + block_size k <= END /\ aligned k a -> (forall p, in_block k a p -> available c F p) ->
  (forall p, available c' F' p <-> available c F p /\ ~ in_block k a p) ->
  O !! a = None /\ blocks_ok (<[a := k]> O) /\ apart (<[a := k]> O) (put_cpu i c' st' s) F'.
Proof.
  intros Hm Hc Hk (Hlo & Hhi & Hal) Hin Hav. assert (Hres : forall p, in_block k a p -> in_reserve s F p).
  { intros p Hp. apply (reserve_split i c); [done|]. left. by apply Hin. }
  destruct (blocks_ok_insert O a k) as (Hn & Hb & Hcov); try done; [apply Hm|intros p Hp Hcv; by apply (ma_apart _ _ _ _ Hm p), Hres|].
  split; [done|]. split; [done|]. intros p. rewrite Hcov, (reserve_put i c), Hav by done. intros [Hp|Hp].
  - pose proof (ma_apart _ _ _ _ Hm p Hp) as Hno. rewrite (reserve_split i c) in Hno by done. tauto.
  - intros [[_ ?]|(b & Hb' & Hq)]; [done|]. eapply others_apart; [apply Hm|done..|]. by apply Hin.
Qed.

Lemma apart_take i c c' st' s held F F' O k a : machine_inv s held F O -> PAGE_CACHE_LIST s !! i = Some c -> O !! a = Some k ->
  (forall p, available c' F' p <-> available c F p \/ in_block k a p) ->
  blocks_ok (delete a O) /\ apart (delete a O) (put_cpu i c' st' s) F'.
Proof.
  intros Hm Hc Ha Hav. destruct (blocks_ok_delete O a k (ma_blocks _ _ _ _ Hm) Ha) as [Hb Hcov]. split; [done|].
  intros p. rewrite Hcov, (reserve_put i c), Hav by done. intros [Hp Hq]. pose proof (ma_apart _ _ _ _ Hm p Hp) as Hno.
  rewrite (reserve_split i c) in Hno by done. tauto.
Qed.

(** *** Which blocks are held and which are on their way *)

Lemma tracked_pc held O l i pc pc' : tracked held O l -> l !! i = Some pc -> flying pc' = 0 -> tracked held O (<[i := pc']> l).
Proof.
  intros [Hh Hf Hj] Hi Hpc'. pose proof (lookup_lt_Some _ _ _ Hi) as Hlt.
  assert (Hold : forall j n pg, <[i := pc']> l !! j = Some (Freeing n pg) -> l !! j = Some (Freeing n pg)).
  { intros j n pg. destruct (decide (j = i)) as [->|]; [|by rewrite list_lookup_insert_ne].
    rewrite list_lookup_insert_eq by done. intros [= ->]. done. }
  split; [done|eauto|eauto].
Qed.

Lemma tracked_give held O l k a : tracked held O l -> O !! a = None -> tracked (<[a := k]> held) (<[a := k]> O) l.
Proof.
  intros [Hh Hf Hj] Ha. split; [|intros i n pg Hi|done].
  - intros b j. rewrite !lookup_insert. destruct (decide (a = b)); [done|]. apply Hh.
  - destruct (Hf i n pg Hi) as [HO HH]. by rewrite !lookup_insert_ne by congruence.
Qed.

Lemma tracked_take held O l k a : tracked held O l -> held !! a = Some k -> tracked (delete a held) (delete a O) l.
Proof.
  intros [Hh Hf Hj] Ha. split; [|intros i n pg Hi|done].
  - intros b j. rewrite !lookup_delete_Some. intros [? ?]. split; [done|]. by apply Hh.
  - destruct (Hf i n pg Hi) as [HO HH]. rewrite lookup_delete_ne by congruence. split; [done|]. rewrite lookup_delete_None. by right.
Qed.

Lemma tracked_pop held O l i n a pc : tracked held O l -> O !! a = None -> l !! i = Some pc -> flying pc = 0 ->
  tracked held (<[a := 0%nat]> O) (<[i := Freeing n a]> l).
Proof.
  intros [Hh Hf Hj] Ha Hi Hpc. pose proof (lookup_lt_Some _ _ _ Hi) as Hlt.
  assert (Hna : held !! a = None) by (destruct (held !! a) eqn:E; [apply Hh in E; congruence|done]).
  assert (Hold : forall j m pg, <[i := Freeing n a]> l !! j = Some (Freeing m pg) -> (j = i /\ pg = a) \/ (pg <> a /\ l !! j = Some (Freeing m pg))).
  { intros j m pg. destruct (decide (j = i)) as [->|]; [rewrite list_lookup_insert_eq by done; intros [= -> ->]; by left|].
    rewrite list_lookup_insert_ne by done. intros Hl. right. split; [|done]. intros ->. apply Hf in Hl. naive_solver. }
  split.
  - intros b j Hb. rewrite lookup_insert_ne by congruence. by apply Hh.
  - intros j m pg [[-> ->]|[Hne Hl]]%Hold; [by rewrite lookup_insert_eq|]. rewrite lookup_insert_ne by done. by apply (Hf j m).
  - intros j1 j2 m1 m2 pg [[-> ->]|[Hne Hl]]%Hold [[-> ?]|[? Hl2]]%Hold; try done. by eapply Hj.
Qed.

Lemma tracked_freed held O l i n a pc' : tracked held O l -> l !! i = Some (Freeing n a) -> flying pc' = 0 ->
  tracked held (delete a O) (<[i := pc']> l).
Proof.
  intros [Hh Hf Hj] Hi Hpc'. pose proof (lookup_lt_Some _ _ _ Hi) as Hlt. destruct (Hf i n a Hi) as [HO HH].
  assert (Hold : forall j m pg, <[i := pc']> l !! j = Some (Freeing m pg) -> pg <> a /\ l !! j = Some (Freeing m pg)).
  { intros j m pg. destruct (decide (j = i)) as [->|Hne]; [rewrite list_lookup_insert_eq by done; by intros [= ->]|].
    rewrite list_lookup_insert_ne by done. intros Hl. split; [|done]. intros ->. apply Hne. by eapply Hj. }
  split.
  - intros b k Hb. rewrite lookup_delete_ne by congruence. by apply Hh.
  - intros j m pg [Hne Hl]%Hold. rewrite lookup_delete_ne by done. by eapply Hf.
  - intros j1 j2 m1 m2 pg [_ H1]%Hold [_ H2]%Hold. by eapply Hj.
Qed.

(** *** The steps *)

(** The steps that are left of a call. *)
Definition pc_left (pc : cpu_pc) : nat :=
  match pc with Outside => 0 | Refilling n _ => S n | Draining n => S (2 * n) | Freeing n _ => S (S (2 * n)) end.

(** CPU [i], with the list [c], moves on from [pc] and answers [a]. *)
Definition stepped (i : nat) (c : PageCacheList) (pc : cpu_pc) (s : Machine) (held' : gmap Z nat) (a : answer) (s' : Machine) : Prop :=
  exists c' st' pc' F' O', s' = moved i c' st' pc' s /\ machine_inv s' held' F' O' /\
    (pc <> Outside -> (pc_left pc' < pc_left pc)%nat) /\
    (forall n old, pc' = Refilling n old -> cache_list c' = [] ->
      n = PAGE_CACHE_LIST_BATCHCOUNT \/ n = 0%nat /\ (exists m o, pc = Refilling m o) /\ free_size (BUDDY_ALLOCATOR s) = 0) /\
    (a = Allocated None -> pc = Outside \/ (exists old, pc = Refilling 0 old) /\ cache_list c = []).

Section steps.
Context (s : Machine) (held F O : gmap Z nat) (i : nat) (c : PageCacheList) (pc : cpu_pc).
Hypothesis Hm : machine_inv s held F O.
Hypothesis Hc : PAGE_CACHE_LIST s !! i = Some c.
Hypothesis Hpc : pcs s !! i = Some pc.

Let Hi : cache_inv c (BUDDY_ALLOCATOR s) F (list_to_set (others i s)) := lists_inv_at i c s F (ma_lists _ _ _ _ Hm) Hc.

Lemma wp_on_cpu {A} (m : M (PageCacheList * BuddyAllocatorImpl) Empty_set A) (Q : A -> Machine -> Prop) :
  wp m (fun a s' => Q a (put_cpu i s'.1 s'.2 s)) never (c, BUDDY_ALLOCATOR s) -> wp (on_cpu i m) Q never s.
Proof. unfold wp, on_cpu. rewrite Hc. destruct (m (c, BUDDY_ALLOCATOR s)) as [[a|e|] [c' st']]; done. Qed.

Lemma machine_same : put_cpu i c (BUDDY_ALLOCATOR s) s = s.
Proof. by apply put_cpu_same. Qed.

Lemma wp_read_list (Q : PageCacheList -> Machine -> Prop) : Q c s -> wp (on_cpu i get_focus) Q never s.
Proof. intros HQ. apply wp_on_cpu, wp_focus. cbn [fst snd]. by rewrite machine_same. Qed.

Lemma wp_goto pc' (Q : unit -> Machine -> Prop) c' st' : Q tt (moved i c' st' pc' s) -> wp (goto i pc') Q never (put_cpu i c' st' s).
Proof. done. Qed.

Lemma moved_same pc' : mkMachine (PAGE_CACHE_LIST s) (BUDDY_ALLOCATOR s) (<[i := pc']> (pcs s)) = moved i c (BUDDY_ALLOCATOR s) pc' s.
Proof. unfold moved. by rewrite (list_insert_id (PAGE_CACHE_LIST s)) by done. Qed.

Lemma put_moved c' st' : put_cpu i c' st' s = moved i c' st' pc s.
Proof. unfold put_cpu, moved. by rewrite (list_insert_id (pcs s)) by done. Qed.

(** The CPU changes nothing but where it is. *)
Lemma only_pc pc' : flying pc = 0 -> flying pc' = 0 -> pc_ok pc' c -> machine_inv (moved i c (BUDDY_ALLOCATOR s) pc' s) held F O.
Proof.
  intros H1 H2 Hok. eapply machine_moved; try done; [|by eapply tracked_pc; [apply Hm|exact Hpc|]|lia].
  split; [apply Hm|]. by eapply apart_keep; [|apply Hm|].
Qed.

(** A block of order [k] leaves the lists and the allocator for the kernel. *)
Lemma block_given k a c' st' F' : flying pc = 0 -> cache_inv c' st' F' (list_to_set (others i s)) -> (k < MAX_ORDER)%nat ->
  BASE <= a /\ a + block_size k <= END /\ aligned k a -> (forall p, in_block k a p -> available c F p) ->
  (forall p, available c' F' p <-> available c F p /\ ~ in_block k a p) -> available_size c' F' = available_size c F - block_size k ->
  machine_inv (moved i c' st' Outside s) (<[a := k]> held) F' (<[a := k]> O).
Proof.
  intros Hfl Hi' Hk Hr Hin Hav Hsz. destruct (apart_give i c c' st' s held F F' O k a Hm Hc Hk Hr Hin Hav) as (Hn & Hb & Hap).
  eapply machine_moved; try done.
  - apply tracked_give; [|done]. by eapply tracked_pc; [apply Hm|done|].
  - rewrite total_insert; [cbn [flying]; lia|]. destruct (held !! a) eqn:E; [|done]. apply (tr_held _ _ _ (ma_tracked _ _ _ _ Hm)) in E. congruence.
Qed.

(** A block that the kernel held comes back. *)
Lemma block_taken k a c' st' F' pc' : flying pc = 0 -> flying pc' = 0 -> held !! a = Some k -> cache_inv c' st' F' (list_to_set (others i s)) ->
  (forall p, available c' F' p <-> available c F p \/ in_block k a p) -> available_size c' F' = available_size c F + block_size k -> pc_ok pc' c' ->
  machine_inv (moved i c' st' pc' s) (delete a held) F' (delete a O).
Proof.
  intros Hfl Hfl' Ha Hi' Hav Hsz Hok. pose proof (tr_held _ _ _ (ma_tracked _ _ _ _ Hm) a k Ha) as HO.
  eapply machine_moved; try done; [by eapply apart_take|eapply tracked_pc; [eapply tracked_take; [apply Hm|done]|done|done]|].
  rewrite (total_delete held a k Ha). lia.
Qed.

(** A block outside is one that can be freed. *)
Lemma outside_owned k a : O !! a = Some k -> owned F (list_to_set (cache_list c) ∪ list_to_set (others i s)) k a.
Proof.
  intros Ha. pose proof (bo_range _ (ma_blocks _ _ _ _ Hm) a k Ha) as (Hk & Hlo & Hhi & Hal). repeat (split; [done|]).
  intros p Hp. assert (Hno : ~ in_reserve s F p) by (apply (ma_apart _ _ _ _ Hm); exists a, k; done).
  split; [intros Hcv; apply Hno; by left|]. rewrite elem_of_union, !elem_of_list_to_set. intros Hin. apply Hno. right. exists p.
  split; [|apply in_block_0_self]. by rewrite (cached_split i c s Hc), elem_of_app.
Qed.

Lemma free_large k a : O !! a = Some k ->
  wp (lift (free_by_order a k)) (fun _ s' => exists F', s'.1 = c /\ cache_inv c s'.2 F' (list_to_set (others i s)) /\
    (forall p, available c F' p <-> available c F p \/ in_block k a p) /\ available_size c F' = available_size c F + block_size k) never (c, BUDDY_ALLOCATOR s).
Proof.
  intros Ha. apply wp_lifted. eapply wp_mono; [apply (free_by_order_spec _ F (list_to_set (cache_list c) ∪ list_to_set (others i s)) k a); [apply Hi|by apply outside_owned]| |done].
  intros _ st' (F' & Hb & Ht & Hcov). exists F'. split; [done|]. cbn [fst snd]. split; [destruct Hi; by split|].
  split; [intros p; unfold available; rewrite Hcov; tauto|unfold available_size; lia].
Qed.

(** *** Allocating *)

Lemma enter_alloc_step : pc = Outside \/ (exists old, pc = Refilling 0 old) /\ cache_list c <> [] ->
  wp (enter_alloc_page i) (fun a s' => stepped i c pc s (record_answer 0 a held) a s' /\ a <> Allocated None) never s.
Proof.
  intros Hp. assert (Hfl : flying pc = 0) by (destruct Hp as [Ho|[[old Ho] _]]; by rewrite Ho). unfold enter_alloc_page.
  destruct (cache_list c) as [|pg l] eqn:Hl.
  - destruct Hp as [Ho|[_ ?]]; [|done]. apply wp_bind, wp_on_cpu. unfold cache_pop_front. apply wp_bind, wp_focus. rewrite Hl.
    apply wp_ret. cbn [fst snd]. rewrite machine_same. apply wp_bind, wp_read_list, wp_bind. unfold wp at 1, goto, modify. apply wp_ret.
    rewrite moved_same. split; [|done]. exists c, (BUDDY_ALLOCATOR s), (Refilling 16 (cache_list_len c)), F, O. split; [done|].
    split; [apply only_pc; [done|done|]; cbn; rewrite (ci_len _ _ _ _ Hi), Hl; done|]. split; [done|]. split; [|done].
    intros n old [= <- <-] _. by left.
  - apply wp_bind, wp_on_cpu. eapply wp_mono; [by apply (cache_take_spec c _ F _ pg l Hi)| |done].
    intros o [c' st'] (-> & ((Hal & Hlo & Hhi) & Hin & F' & Hi' & Hav & Hsz & _) & _). cbn [fst snd] in *.
    apply wp_bind, wp_goto, wp_ret. split; [|done]. exists c', st', Outside, F', (<[pg := 0%nat]> O). split; [done|].
    split; [apply block_given; try done; unfold MAX_ORDER; lia|]. split; [|done]. destruct Hp as [Ho|[[old Ho] _]]; rewrite Ho; [done|]. cbn. lia.
Qed.

Lemma alloc_step k : (k < MAX_ORDER)%nat -> pc = Outside ->
  wp (cpu_alloc_by_order i k) (fun a s' => stepped i c pc s (record_answer k a held) a s' /\
    (a = Allocated None -> forall b j, F !! b = Some j -> (j < k)%nat)) never s.
Proof.
  intros Hk Hout. unfold cpu_alloc_by_order. apply wp_bind, wp_assert; [by apply Nat.ltb_lt|]. destruct (Nat.eqb_spec k 0) as [->|Hne].
  { eapply wp_mono; [apply enter_alloc_step; by left| |done]. intros a s' [Hs Hn]. by split. }
  apply wp_bind, wp_on_cpu. eapply wp_mono; [by apply (global_alloc_large c _ F _ k Hi)| |done]. intros [a|] [c' st'].
  - intros (Hr & Hin & F' & Hi' & Hav & Hsz). cbn [fst snd] in *. apply wp_ret. rewrite put_moved, Hout. split; [|done].
    exists c', st', Outside, F', (<[a := k]> O). split; [done|]. split; [|done]. apply block_given; try done; [by rewrite Hout|].
    destruct Hr as [Hal Hr]. split; [|split]; tauto.
  - intros (Hno & Hsame). cbn [fst snd]. injection Hsame as -> ->. apply wp_ret. rewrite put_moved, Hout. split; [|done]. exists c, (BUDDY_ALLOCATOR s), Outside, F, O.
    split; [done|]. split; [apply only_pc; try done; by rewrite Hout|]. split; [done|]. split; [done|]. by left.
Qed.

(** *** Freeing *)

Lemma wp_read_put c' st' (Q : PageCacheList -> Machine -> Prop) : Q c' (put_cpu i c' st' s) -> wp (on_cpu i get_focus) Q never (put_cpu i c' st' s).
Proof.
  intros HQ. unfold wp, on_cpu. cbn [PAGE_CACHE_LIST put_cpu]. rewrite list_lookup_insert_eq by (by eapply lookup_lt_Some).
  unfold get_focus. cbn [BUDDY_ALLOCATOR put_cpu pcs]. by rewrite list_insert_insert_eq.
Qed.

Lemma dealloc_step a : pc = Outside -> held !! a = Some 0%nat ->
  wp (enter_dealloc_page i a) (fun r s' => stepped i c pc s (delete a held) r s' /\ r <> Allocated None) never s.
Proof.
  intros Hout Ha. pose proof (tr_held _ _ _ (ma_tracked _ _ _ _ Hm) a _ Ha) as HO.
  destruct (outside_owned 0 a HO) as (_ & Hlo & Hhi & Hal & Hno). destruct (Hno a (in_block_0_self a)) as [Hncov HnL]. rewrite not_elem_of_union in HnL.
  unfold enter_dealloc_page. apply wp_bind, wp_on_cpu.
  eapply wp_mono; [apply (cache_push_spec c _ F _ a Hi); [done|done|intros Hin; apply (proj1 HnL); by apply elem_of_list_to_set|apply HnL]| |done].
  intros _ [c' st'] (Hi' & Hl' & _). cbn [fst snd]. apply wp_bind, wp_read_put.
  assert (Hav : forall p, available c' F p <-> available c F p \/ in_block 0 a p).
  { intros p. unfold available. rewrite Hl'. setoid_rewrite elem_of_cons. split.
    - intros [?|(b & [->|?] & ?)]; [by left; left|by right|left; right; by exists b].
    - intros [[?|(b & ? & ?)]|?]; [by left|right; exists b; tauto|right; exists a; tauto]. }
  assert (Hsz : available_size c' F = available_size c F + block_size 0).
  { unfold available_size. rewrite Hl'. change (block_size 0) with PGSIZE. simpl. lia. }
  destruct (Z.ltb_spec (cache_list_len c') 64) as [Hlt|Hge].
  - apply wp_ret. rewrite put_moved, Hout. split; [|done]. exists c', st', Outside, F, (delete a O). split; [done|].
    split; [by apply (block_taken 0); rewrite ?Hout|]. by split.
  - apply wp_bind, wp_goto, wp_ret. split; [|done]. exists c', st', (Draining 16), F, (delete a O). split; [done|].
    split; [|split; [done|split; done]]. apply (block_taken 0); try done; [by rewrite Hout|]. cbn. rewrite (ci_len _ _ _ _ Hi') in Hge. lia.
Qed.

Lemma free_step k a : (k < MAX_ORDER)%nat -> pc = Outside -> held !! a = Some k ->
  wp (cpu_free_by_order i a k) (fun r s' => stepped i c pc s (delete a held) r s' /\ r <> Allocated None) never s.
Proof.
  intros Hk Hout Ha. unfold cpu_free_by_order. apply wp_bind, wp_assert; [by apply Nat.ltb_lt|]. destruct (Nat.eqb_spec k 0) as [->|Hne].
  { by apply dealloc_step. }
  apply wp_bind, wp_on_cpu. eapply wp_mono; [apply (free_large k a), (tr_held _ _ _ (ma_tracked _ _ _ _ Hm)), Ha| |done].
  intros _ [c' st'] (F' & Hc' & Hi' & Hav & Hsz). cbn [fst snd] in *. subst c'. apply wp_ret. rewrite put_moved, Hout. split; [|done].
  exists c, st', Outside, F', (delete a O). split; [done|]. split; [by apply (block_taken k); rewrite ?Hout|]. by split.
Qed.

(** *** Going on *)

Lemma no_free_memory : (forall p, ~ covers F p) -> free_size (BUDDY_ALLOCATOR s) = 0.
Proof.
  intros Hno. rewrite (b_size _ _ _ (ci_inv _ _ _ _ Hi)). assert (F = ∅) as ->; [|done]. apply map_empty. intros a.
  destruct (F !! a) as [k|] eqn:E; [|done]. exfalso. apply (Hno a). exists a, k. split; [done|]. pose proof (block_size_pos k). unfold in_block. lia.
Qed.

Lemma refill_step n old : pc = Refilling (S n) old ->
  wp (cpu_go_on i pc) (fun r s' => stepped i c pc s held r s' /\ r = Running) never s.
Proof.
  intros Hp. assert (Hok : pc_ok (Refilling (S n) old) c) by (rewrite <- Hp; by apply (ma_pc _ _ _ _ Hm i)). cbn in Hok. rewrite Hp. cbn [cpu_go_on].
  apply wp_bind, wp_on_cpu. eapply wp_mono; [apply (refill_turn_spec c _ F _ Hi)| |done]. intros go [c' st'] (F' & [Hi' Hav Hsz _ _] & Hgo).
  cbn [fst snd] in *. apply wp_bind, wp_goto, wp_ret. split; [|done]. exists c', st', (Refilling (if go then n else 0) old), F', O. split; [done|].
  split; [|split; [intros _; cbn; destruct go; lia|split; [|done]]].
  - eapply machine_moved; try done; [split; [apply Hm|by eapply apart_keep; [|apply Hm|]]|by eapply tracked_pc; [apply Hm|exact Hpc|]|].
    rewrite Hp. cbn [flying]. lia.
  - intros m o [= <- <-] Hnil. destruct go; [destruct Hgo as [a Ha]; by rewrite Ha in Hnil|]. right. split; [done|]. split; [by eexists _, _|].
    destruct Hgo as [_ Hno]. by apply no_free_memory.
Qed.

Lemma refilled_step old : pc = Refilling 0 old ->
  wp (cpu_go_on i pc) (fun r s' => stepped i c pc s (record_answer 0 r held) r s') never s.
Proof.
  intros Hp. assert (Hok : pc_ok (Refilling 0 old) c) by (rewrite <- Hp; by apply (ma_pc _ _ _ _ Hm i)). cbn in Hok. rewrite Hp at 1. cbn [cpu_go_on].
  apply wp_bind, wp_read_list. subst old. destruct (Z.eqb_spec 0 (cache_list_len c)) as [He|Hne]; cbn [negb].
  - apply wp_bind. unfold wp at 1, goto, modify. apply wp_ret. rewrite moved_same. exists c, (BUDDY_ALLOCATOR s), Outside, F, O.
    split; [done|]. split; [apply only_pc; rewrite ?Hp; done|]. split; [rewrite Hp; cbn; lia|]. split; [done|]. intros _. right. split; [by eexists|].
    rewrite (ci_len _ _ _ _ Hi) in He. destruct (cache_list c); [done|]. simpl in He. lia.
  - eapply wp_mono; [apply enter_alloc_step| |done]; [|by intros a s' [Hs _]]. right. split; [by eexists|]. intros Hnil.
    apply Hne. by rewrite (ci_len _ _ _ _ Hi), Hnil.
Qed.

Lemma pop_step n : pc = Draining (S n) ->
  wp (cpu_go_on i pc) (fun r s' => stepped i c pc s held r s' /\ r = Running) never s.
Proof.
  intros Hp. assert (Hok : pc_ok (Draining (S n)) c) by (rewrite <- Hp; by apply (ma_pc _ _ _ _ Hm i)). cbn in Hok. rewrite Hp at 1. cbn [cpu_go_on].
  apply wp_bind, wp_on_cpu. eapply wp_mono; [apply (drain_pop_spec c _ F _ Hi); intros E; rewrite E in Hok; simpl in Hok; lia| |done].
  intros pg _ (l & Hl & ->). cbn [fst snd]. apply wp_bind, wp_goto, wp_ret. split; [|done].
  assert (Hpg : pg ∈ cache_list c) by (rewrite Hl; set_solver). destruct (ci_page _ _ _ _ Hi pg (or_introl Hpg)) as (Hal & Hlo & Hhi).
  pose proof (ci_nodup _ _ _ _ Hi) as Hnd. rewrite Hl in Hnd. apply NoDup_app in Hnd as (Hnd & Hdj & _).
  assert (Hin : forall b, b ∈ l <-> b ∈ cache_list c /\ b <> pg).
  { intros b. rewrite Hl, elem_of_app, list_elem_of_singleton. split; [|naive_solver]. intros Hb. split; [by left|]. intros ->. apply (Hdj pg Hb). left. }
  set (c' := mkPageCache l (cache_list_len c - 1)).
  assert (Hi' : cache_inv c' (upd_page (BUDDY_ALLOCATOR s) pg (set_linked false (page_at (BUDDY_ALLOCATOR s) pg))) F (list_to_set (others i s))).
  { apply cache_remove; try done. rewrite Hl, length_app. simpl. lia. }
  destruct (apart_give i c c' (upd_page (BUDDY_ALLOCATOR s) pg (set_linked false (page_at (BUDDY_ALLOCATOR s) pg))) s held F F O 0 pg Hm Hc) as (Hn & Hb & Hap);
    [unfold MAX_ORDER; lia|done|intros p Hq; right; by exists pg|intros p; by apply (available_remove c (BUDDY_ALLOCATOR s) F (list_to_set (others i s)))|].
  exists c', (upd_page (BUDDY_ALLOCATOR s) pg (set_linked false (page_at (BUDDY_ALLOCATOR s) pg))), (Freeing n pg), F, (<[pg := 0%nat]> O). split; [done|].
  split; [|split; [rewrite Hp; cbn; lia|split; done]]. eapply machine_moved; try done.
  - cbn. rewrite Hl, length_app in Hok. simpl in Hok. lia.
  - eapply tracked_pop; [apply Hm|done|exact Hpc|by rewrite Hp].
  - rewrite Hp. unfold available_size, c'. cbn [flying cache_list]. rewrite Hl, length_app. simpl. lia.
Qed.

Lemma freed_step n pg : pc = Freeing n pg ->
  wp (cpu_go_on i pc) (fun r s' => stepped i c pc s held r s' /\ r = Running) never s.
Proof.
  intros Hp. assert (Hok : pc_ok (Freeing n pg) c) by (rewrite <- Hp; by apply (ma_pc _ _ _ _ Hm i)). cbn in Hok.
  assert (Hfly : pcs s !! i = Some (Freeing n pg)) by (by rewrite Hpc, Hp). destruct (tr_fly _ _ _ (ma_tracked _ _ _ _ Hm) i n pg Hfly) as [HO _].
  rewrite Hp at 1. cbn [cpu_go_on]. apply wp_bind, wp_on_cpu. eapply wp_mono; [by apply (free_large 0 pg)| |done].
  intros _ [c' st'] (F' & Hc' & Hi' & Hav & Hsz). cbn [fst snd] in *. subst c'. apply wp_bind, wp_goto, wp_ret. split; [|done].
  exists c, st', (Draining n), F', (delete pg O). split; [done|]. split; [|split; [rewrite Hp; cbn; lia|split; done]].
  eapply machine_moved; try done; [by eapply apart_take|by eapply tracked_freed; [apply Hm| |]|]. cbn [flying]. change (block_size 0) with PGSIZE in Hsz. lia.
Qed.

Lemma go_on_step : wp (cpu_go_on i pc) (fun r s' => stepped i c pc s (record_answer 0 r held) r s') never s.
Proof.
  assert (Hrun : forall m : M Machine Empty_set answer, wp m (fun r s' => stepped i c pc s held r s' /\ r = Running) never s ->
    wp m (fun r s' => stepped i c pc s (record_answer 0 r held) r s') never s).
  { intros m Hw. eapply wp_mono; [exact Hw| |done]. by intros r s' [Hs ->]. }
  assert (exists q, pc = q) as [q Hp] by eauto. destruct q as [|[|n] old|[|n]|n pg].
  - apply Hrun. rewrite Hp at 1. apply wp_ret. split; [|done]. exists c, (BUDDY_ALLOCATOR s), Outside, F, O.
    split; [by rewrite <- Hp, <- put_moved, machine_same|]. split; [|split; [done|by split]].
    assert (Hsame : moved i c (BUDDY_ALLOCATOR s) pc s = s) by (by rewrite <- put_moved, machine_same). rewrite <- Hsame at 1. apply only_pc; by rewrite ?Hp.
  - by eapply refilled_step.
  - apply Hrun. by eapply refill_step.
  - rewrite Hp at 1. cbn [cpu_go_on]. apply wp_bind. unfold wp at 1, goto, modify. apply wp_ret. rewrite moved_same.
    exists c, (BUDDY_ALLOCATOR s), Outside, F, O. split; [done|]. split; [apply only_pc; by rewrite ?Hp|]. split; [rewrite Hp; cbn; lia|]. by split.
  - apply Hrun. by eapply pop_step.
  - apply Hrun. by eapply freed_step.
Qed.
End steps.

(** Every CPU outside with an empty list. *)
Lemma machine_new_inv st F : buddy_inv st F ∅ -> total F = DIRECT_MAPPING_SIZE -> machine_inv (Machine_new st) ∅ F ∅.
Proof.
  intros Hb Ht. assert (Hc : cached (Machine_new st) = []) by done. split.
  - done.
  - split; [by rewrite Hc|rewrite Hc; constructor|by apply Forall_replicate|]. intros a. rewrite Hc. by intros ?%not_elem_of_nil.
  - split; intros; by rewrite lookup_empty in *.
  - intros p (a & k & Ha & _). by rewrite lookup_empty in Ha.
  - split; [done|intros i n pg Hi|intros i j n m pg Hi _]; cbn [pcs Machine_new] in Hi; apply lookup_replicate in Hi as [? _]; done.
  - intros i pc c Hi _. cbn [pcs Machine_new] in Hi. apply lookup_replicate in Hi as [-> _]. done.
  - unfold reserve_size. rewrite Hc, Ht. done.
Qed.

(** *** Histories *)

Definition event_ok (e : event) : Prop := match e with Alloc _ k => (k < MAX_ORDER)%nat | _ => True end.
Definition event_cpu (e : event) : nat := match e with Alloc i _ | Free i _ _ | GoOn i => i end.

(** An event that cannot happen is skipped; any other is a step of its CPU. *)
Lemma event_step e s held F O : machine_inv s held F O -> event_ok e ->
  exists a s' held', run_event e s held = Some (a, s', held') /\
    ((s' = s /\ held' = held /\ a = Running /\ forall i pc, e = GoOn i -> pcs s !! i <> Some pc) \/
     exists c pc, PAGE_CACHE_LIST s !! event_cpu e = Some c /\ pcs s !! event_cpu e = Some pc /\ stepped (event_cpu e) c pc s held' a s' /\
       ((forall i, e <> GoOn i) -> pc = Outside)) /\
    (a = Allocated None -> match e with Alloc _ k => forall b j, F !! b = Some j -> (j < k)%nat | Free _ _ _ => False | GoOn _ => True end).
Proof.
  intros Hm Hok. assert (Hlist : forall i pc, pcs s !! i = Some pc -> exists c, PAGE_CACHE_LIST s !! i = Some c).
  { intros i pc Hi. apply lookup_lt_is_Some_2. rewrite (ma_cpus _ _ _ _ Hm). by eapply lookup_lt_Some. }
  destruct e as [i k|i a k|i]; cbn [run_event event_cpu event_ok] in *.
  - case_bool_decide as Hout; [|eexists _, _, _; split; [done|]; split; [by left|done]]. destruct (Hlist i _ Hout) as [c Hc].
    pose proof (alloc_step s held F O i c Outside Hm Hc Hout k Hok eq_refl) as Hw. unfold wp in Hw.
    destruct (cpu_alloc_by_order i k s) as [[a|[]|] s']; [|done]. destruct Hw as [Hs Hf]. eexists _, _, _. split; [done|]. split; [|done].
    right. by exists c, Outside.
  - destruct (bool_decide _ && bool_decide _) eqn:Hb; [|eexists _, _, _; split; [done|]; split; [by left|done]].
    apply andb_prop in Hb as [Hout%bool_decide_eq_true Ha%bool_decide_eq_true]. destruct (Hlist i _ Hout) as [c Hc].
    assert (Hk : (k < MAX_ORDER)%nat) by (eapply (bo_range _ (ma_blocks _ _ _ _ Hm)), (tr_held _ _ _ (ma_tracked _ _ _ _ Hm)), Ha).
    pose proof (free_step s held F O i c Outside Hm Hc Hout k a Hk eq_refl Ha) as Hw. unfold wp in Hw.
    destruct (cpu_free_by_order i a k s) as [[r|[]|] s']; [|done]. destruct Hw as [Hs Hf]. eexists _, _, _. split; [done|]. split; [|done].
    right. by exists c, Outside.
  - destruct (pcs s !! i) as [pc|] eqn:Hi; [|eexists _, _, _; split; [done|]; split; [left; naive_solver|done]].
    destruct (Hlist i _ Hi) as [c Hc]. pose proof (go_on_step s held F O i c pc Hm Hc Hi) as Hw. unfold wp in Hw.
    destruct (cpu_go_on i pc s) as [[r|[]|] s']; [|done]. eexists _, _, _. split; [done|]. split; [|done]. right. exists c, pc.
    split; [done|]. split; [done|]. split; [done|]. intros Hne. by destruct (Hne i).
Qed.

Definition reach (l : list event) (s : Machine) (held : gmap Z nat) : Prop := run_events l (Machine_new booted) ∅ = Some (s, held).

Lemma reach_snoc l e s held a s' held' : reach l s held -> run_event e s held = Some (a, s', held') -> reach (l ++ [e]) s' held'.
Proof.
  unfold reach. generalize (Machine_new booted) (∅ : gmap Z nat). induction l as [|e0 l IH]; intros s0 h0; cbn.
  - intros [= -> ->] He. by rewrite He.
  - destruct (run_event e0 s0 h0) as [[[a0 s1] h1]|]; [|done]. apply IH.
Qed.

(** The last step of CPU [i] was a turn of [alloc_page] that found no free
    memory in the allocator. *)
Definition found_none (l : list event) (i : nat) : Prop :=
  exists l1 l2 s1 held1 n old, l = l1 ++ GoOn i :: l2 /\ GoOn i ∉ l2 /\ reach l1 s1 held1 /\
    pcs s1 !! i = Some (Refilling n old) /\ free_size (BUDDY_ALLOCATOR s1) = 0.

Definition refill_seen (l : list event) (s : Machine) : Prop :=
  forall i n old c, pcs s !! i = Some (Refilling n old) -> PAGE_CACHE_LIST s !! i = Some c -> cache_list c = [] ->
    n = PAGE_CACHE_LIST_BATCHCOUNT \/ n = 0%nat /\ found_none l i.

Lemma found_none_snoc l i e : found_none l i -> e <> GoOn i -> found_none (l ++ [e]) i.
Proof.
  intros (l1 & l2 & s1 & h1 & n & old & -> & Hni & Hr) Hne. exists l1, (l2 ++ [e]), s1, h1, n, old. split; [by rewrite <- app_assoc|]. split; [|done].
  rewrite elem_of_app, list_elem_of_singleton. naive_solver.
Qed.

Lemma history l : Forall event_ok l -> exists s held F O, reach l s held /\ machine_inv s held F O /\ refill_seen l s.
Proof.
  induction l as [|e l IH] using rev_ind; intros Hok.
  { destruct booted_ok as (F & HF & Ht). exists (Machine_new booted), ∅, F, ∅. split; [done|].
    split; [by apply machine_new_inv|]. intros i n old c Hi. cbn [pcs Machine_new] in Hi. apply lookup_replicate in Hi as [? _]. done. }
  apply Forall_app in Hok as [Hl He]. rewrite Forall_singleton in He. destruct (IH Hl) as (s & held & F & O & Hr & Hm & Hseen).
  destruct (event_step e s held F O Hm He) as (a & s' & held' & Hrun & Hcase & _). pose proof (reach_snoc l e s held a s' held' Hr Hrun) as Hr'.
  destruct Hcase as [(-> & -> & _ & Hskip)|(c & pc & Hc & Hpc & (c' & st' & pc' & F' & O' & -> & Hm' & _ & Hs & _) & Hout)].
  - exists s, held, F, O. split; [done|]. split; [done|]. intros i n old c Hi Hc Hnil. destruct (Hseen i n old c Hi Hc Hnil) as [?|[? Hf]]; [by left|right].
    split; [done|]. apply found_none_snoc; [done|]. intros ->. by eapply Hskip.
  - eexists _, held', F', O'. split; [done|]. split; [done|]. set (j := event_cpu e) in *. intros i n old ci. cbn. destruct (decide (i = j)) as [->|Hne].
    + rewrite !list_lookup_insert_eq by (by eapply lookup_lt_Some). intros [= ->] [= <-] Hnil.
      destruct (Hs n old eq_refl Hnil) as [?|(-> & (m & o & ->) & Hfree)]; [by left|right]. split; [done|].
      exists l, [], s, held, m, o. split_and!; try done; [|apply not_elem_of_nil]. destruct e as [i' k|i' x k|i']; [..|done]; by discriminate Hout.
    + rewrite !list_lookup_insert_ne by done. intros Hi Hci Hnil. destruct (Hseen i n old ci Hi Hci Hnil) as [?|[? Hf]]; [by left|right].
      split; [done|]. apply found_none_snoc; [done|]. intros ->. by apply Hne.
Qed.

Lemma cached_counted s F : lists_inv s F -> s_free_size (current s) = reserve_size s F.
Proof.
  intros [Hb _ Hl _]. unfold current, reserve_size, cached. cbn [s_free_size]. rewrite (b_size _ _ _ Hb).
  assert (E : foldr (fun c n => cache_list_len c + n) 0 (PAGE_CACHE_LIST s) = Z.of_nat (length (PAGE_CACHE_LIST s ≫= cache_list))); [|lia].
  induction Hl as [|c l Hc Hl IH]; [done|]. cbn [foldr]. rewrite bind_cons, length_app, IH, Hc. lia.
Qed.

Lemma no_blocks st F L k j : buddy_inv st F L -> (forall b i, F !! b = Some i -> (i < k)%nat) -> (k <= j < MAX_ORDER)%nat ->
  (nr_free <$> free_area st) !! j = Some 0.
Proof.
  intros Hb Hno Hj. pose proof (bi_rep _ _ _ (b_inv _ _ _ Hb)) as Hr. destruct (rep_area st F L j Hr ltac:(lia)) as [ar Har].
  destruct (r_list _ _ _ Hr j ar Har) as (_ & Hn & Hin). rewrite list_lookup_fmap, Har. cbn. f_equal. rewrite Hn.
  destruct (flist ar) as [|b l]; [done|]. assert (F !! b = Some j) as Hbj by (apply Hin; left). apply Hno in Hbj. lia.
Qed.

(** C12. The allocation functions of the kernel, over every interleaving of
    what the CPUs do, a page at a time where the lock of the allocator is
    released between two pages: nothing panics.  The blocks that the kernel
    holds are aligned, lie in the direct mapping and do not overlap.  No
    memory is lost: what [BuddyAllocatorState::current] counts as free, the
    lists of all CPUs included, the pages that are on their way back and the
    blocks that are held add up to all the memory.  Every step of a CPU brings
    its call closer to its end.  A block is refused only when the allocator
    has no free block of its order or a larger one; a page, only when a turn
    of the loop found no free memory in the allocator (pages in the lists of
    other CPUs are not taken back). *)
Theorem kernel_alloc l : Forall event_ok l ->
  exists s held, reach l s held /\
    (forall a k, held !! a = Some k -> aligned k a /\ BASE <= a /\ a + block_size k <= END) /\
    (forall a k b j p, held !! a = Some k -> held !! b = Some j -> in_block k a p -> in_block j b p -> a = b) /\
    s_free_size (current s) + PGSIZE * freeing (pcs s) + total held = DIRECT_MAPPING_SIZE /\
    (forall i pc, pcs s !! i = Some pc -> pc <> Outside -> exists a s' held' pc',
      run_event (GoOn i) s held = Some (a, s', held') /\ pcs s' !! i = Some pc' /\ (pc_left pc' < pc_left pc)%nat) /\
    (forall e s' held', event_ok e -> run_event e s held = Some (Allocated None, s', held') ->
      match e with
      | Alloc _ k => forall j, (k <= j < MAX_ORDER)%nat -> free_blocks (current s) !! j = Some 0
      | Free _ _ _ => False
      | GoOn i => found_none l i
      end).
Proof.
  intros Hl. destruct (history l Hl) as (s & held & F & O & Hr & Hm & Hseen). exists s, held. split; [done|].
  pose proof (tr_held _ _ _ (ma_tracked _ _ _ _ Hm)) as Hh. split_and!.
  - intros a k Ha. pose proof (bo_range _ (ma_blocks _ _ _ _ Hm) a k (Hh a k Ha)). tauto.
  - intros a k b j p Ha Hb. apply (bo_disj _ (ma_blocks _ _ _ _ Hm)); by apply Hh.
  - rewrite (cached_counted s F) by apply Hm. apply Hm.
  - intros i pc Hi Hne. destruct (event_step (GoOn i) s held F O Hm I) as (a & s' & held' & Hrun & Hcase & _).
    destruct Hcase as [(_ & _ & _ & Hskip)|(c & pc0 & Hc & Hpc & (c' & st' & pc' & F' & O' & -> & _ & Hlt & _) & _)]; [by destruct (Hskip i pc eq_refl)|].
    cbn in Hpc. assert (pc0 = pc) as -> by congruence. exists a, (moved i c' st' pc' s), held', pc'. split; [done|].
    split; [cbn; apply list_lookup_insert_eq; by eapply lookup_lt_Some|by apply Hlt].
  - intros e s' held' He Hrun. destruct (event_step e s held F O Hm He) as (a & s2 & h2 & Hrun2 & Hcase & Hfail). rewrite Hrun in Hrun2.
    injection Hrun2 as <- <- <-. specialize (Hfail eq_refl). destruct e as [i k|i x k|i]; [|done|].
    + intros j Hj. eapply no_blocks; [apply Hm|exact Hfail|done].
    + destruct Hcase as [(_ & _ & ? & _)|(c & pc & Hc & Hpc & (c' & st' & pc' & F' & O' & _ & _ & _ & _ & Hnone) & _)]; [done|]. cbn in Hc, Hpc.
      destruct (Hnone eq_refl) as [->|[[old ->] Hnil]]; [cbn [run_event] in Hrun; by rewrite Hpc in Hrun|].
      by destruct (Hseen i 0%nat old c Hpc Hc Hnil) as [?|[_ ?]].
Qed.

(** CPU 0 asks for a page and refills its list while CPU 1 takes a larger
    block and then a page; both give their pages back. *)
Definition two_cpus : list event :=
  [Alloc 0 0; GoOn 0; Alloc 1 3; GoOn 0; Alloc 1 0; GoOn 1; GoOn 0] ++ replicate 14 (GoOn 0) ++ replicate 16 (GoOn 1) ++ [Free 1 3622928384 0; Free 0 3622989824 0].

Lemma kernel_alloc_witness : exists s held, reach two_cpus s held /\
  s_free_size (current s) + PGSIZE * freeing (pcs s) + total held = DIRECT_MAPPING_SIZE.
Proof.
  destruct (kernel_alloc two_cpus) as (s & held & Hr & _ & _ & Hs & _).
  - repeat constructor; unfold event_ok, MAX_ORDER; lia.
  - exists s, held. exact (conj Hr Hs).
Defined.

(** *** A CPU that is not interrupted

    When no other CPU moves in between, the steps of a call compute what
    [global_alloc_by_order] and [global_free_by_order] compute at once. *)

Section alone.
Context (i : nat) (s0 : Machine).

Definition goes (s : Machine) (held : gmap Z nat) (s' : Machine) (held' : gmap Z nat) : Prop :=
  exists n, run_events (replicate n (GoOn i)) s held = Some (s', held').

Lemma goes_done s held : goes s held s held.
Proof. by exists 0%nat. Qed.

Lemma goes_step s held a s1 held1 s' held' : run_event (GoOn i) s held = Some (a, s1, held1) -> goes s1 held1 s' held' -> goes s held s' held'.
Proof. intros He [n Hn]. exists (S n). cbn [replicate run_events]. by rewrite He. Qed.

Hypothesis Hin : (i < length (PAGE_CACHE_LIST s0))%nat.
Hypothesis Hpc : pcs s0 !! i = Some Outside.

Lemma moved_list c st pc : PAGE_CACHE_LIST (moved i c st pc s0) !! i = Some c.
Proof. cbn. by apply list_lookup_insert_eq. Qed.

Lemma moved_pc c st pc : pcs (moved i c st pc s0) !! i = Some pc.
Proof. cbn. apply list_lookup_insert_eq. by eapply lookup_lt_Some. Qed.

Lemma on_cpu_moved {A} (m : M (PageCacheList * BuddyAllocatorImpl) Empty_set A) c st pc r c' st' : m (c, st) = (r, (c', st')) ->
  on_cpu i m (moved i c st pc s0) = (r, moved i c' st' pc s0).
Proof. intros Em. unfold on_cpu. rewrite moved_list. cbn [BUDDY_ALLOCATOR moved]. rewrite Em. unfold moved. cbn. by rewrite list_insert_insert_eq. Qed.

Lemma goto_moved c st pc pc' : goto i pc' (moved i c st pc s0) = (Ok tt, moved i c st pc' s0).
Proof. unfold goto, modify, moved. cbn. by rewrite list_insert_insert_eq. Qed.

Lemma moved_outside c st : moved i c st Outside s0 = put_cpu i c st s0.
Proof. unfold moved, put_cpu. by rewrite (list_insert_id (pcs s0)). Qed.

(** One turn. *)
Lemma run_go_on c st pc r c' st' pc' held : cpu_go_on i pc (moved i c st pc s0) = (Ok r, moved i c' st' pc' s0) ->
  run_event (GoOn i) (moved i c st pc s0) held = Some (r, moved i c' st' pc' s0, record_answer 0 r held).
Proof. intros E. cbn [run_event]. by rewrite moved_pc, E. Qed.

Lemma refill_alone n c st c1 st1 old held s' held' : refill n (c, st) = (Ok tt, (c1, st1)) ->
  goes (moved i c1 st1 (Refilling 0 old) s0) held s' held' -> goes (moved i c st (Refilling n old) s0) held s' held'.
Proof.
  revert c st. induction n as [|n IH]; intros c st; cbn [refill].
  { intros [= -> ->]. done. }
  unfold bind at 1. destruct (refill_turn (c, st)) as [[go|[]|] [c2 st2]] eqn:Et; [|done]. intros Er Hg.
  eapply goes_step.
  { apply (run_go_on _ _ _ Running c2 st2 (Refilling (if go then n else 0) old)). cbn [cpu_go_on]. unfold bind at 1.
    rewrite (on_cpu_moved _ _ _ _ _ _ _ Et). unfold bind at 1. rewrite goto_moved. done. }
  destruct go; [by eapply IH|]. by injection Er as -> ->.
Qed.

Lemma drain_alone n c st c1 st1 held : drain n (c, st) = (Ok tt, (c1, st1)) ->
  goes (moved i c st (Draining n) s0) held (put_cpu i c1 st1 s0) held.
Proof.
  revert c st. induction n as [|n IH]; intros c st; cbn [drain].
  { intros [= -> ->]. eapply goes_step; [apply (run_go_on _ _ _ Freed c1 st1 Outside); cbn [cpu_go_on]; unfold bind; by rewrite goto_moved|].
    rewrite moved_outside. apply goes_done. }
  unfold bind at 1. destruct (drain_pop (c, st)) as [[pg|[]|] [c2 st2]] eqn:Ep; [|done]. unfold bind at 1.
  destruct (lift (free_by_order pg 0) (c2, st2)) as [[[]|[]|] [c3 st3]] eqn:Ef; [|done]. intros Hd.
  eapply goes_step.
  { apply (run_go_on _ _ _ Running c2 st2 (Freeing n pg)). cbn [cpu_go_on]. unfold bind at 1. rewrite (on_cpu_moved _ _ _ _ _ _ _ Ep).
    unfold bind at 1. by rewrite goto_moved. }
  eapply goes_step; [|by apply IH].
  apply (run_go_on _ _ _ Running c3 st3 (Draining n)). cbn [cpu_go_on]. unfold bind at 1. rewrite (on_cpu_moved _ _ _ _ _ _ _ Ef).
  unfold bind at 1. by rewrite goto_moved.
Qed.

(** [alloc_page], from where the list is looked at. *)
Lemma enter_alone n c st pc o c' st' : cache_alloc_page n (c, st) = (Ok o, (c', st')) ->
  exists r s1, enter_alloc_page i (moved i c st pc s0) = (Ok r, s1) /\ forall held,
    goes s1 (record_answer 0 r held) (put_cpu i c' st' s0) (match o with Some a => <[a := 0%nat]> held | None => held end).
Proof.
  revert c st pc. induction n as [|n IH]; intros c st pc; cbn [cache_alloc_page]; [done|].
  unfold bind at 1. destruct (cache_pop_front (c, st)) as [[[page|]|[]|] [c1 st1]] eqn:Ep; [| |done].
  - intros [= <- -> ->]. exists (Allocated (Some page)), (moved i c' st' Outside s0). split.
    + unfold enter_alloc_page, bind at 1. rewrite (on_cpu_moved _ _ _ _ _ _ _ Ep). unfold bind at 1. by rewrite goto_moved.
    + intros held. rewrite moved_outside. apply goes_done.
  - unfold bind at 1, get_focus at 1. unfold bind at 1. destruct (refill 16 (c1, st1)) as [[[]|[]|] [c2 st2]] eqn:Er; [|done].
    unfold bind at 1, get_focus at 1. intros Hrest. exists Running, (moved i c1 st1 (Refilling 16 (cache_list_len c1)) s0). split.
    + unfold enter_alloc_page, bind at 1. rewrite (on_cpu_moved _ _ _ _ _ _ _ Ep). unfold bind at 1.
      rewrite (on_cpu_moved get_focus c1 st1 pc (Ok c1) c1 st1 eq_refl). unfold bind at 1. by rewrite goto_moved.
    + intros held. eapply refill_alone; [exact Er|]. destruct (negb (cache_list_len c1 =? cache_list_len c2)) eqn:Hlen.
      * destruct (IH c2 st2 (Refilling 0 (cache_list_len c1)) Hrest) as (r & s1 & He & Hg). eapply goes_step; [|apply (Hg held)].
        cbn [run_event]. rewrite moved_pc. cbn [cpu_go_on]. unfold bind at 1. rewrite (on_cpu_moved get_focus c2 st2 _ (Ok c2) c2 st2 eq_refl), Hlen. by rewrite He.
      * injection Hrest as <- -> ->. eapply goes_step; [|rewrite <- moved_outside; apply goes_done].
        apply (run_go_on _ _ _ (Allocated None)). cbn [cpu_go_on]. unfold bind at 1. rewrite (on_cpu_moved get_focus c' st' _ (Ok c') c' st' eq_refl), Hlen.
        unfold bind. by rewrite goto_moved.
Qed.

Lemma alloc_uninterrupted c k o c' st' held : PAGE_CACHE_LIST s0 !! i = Some c ->
  global_alloc_by_order k (c, BUDDY_ALLOCATOR s0) = (Ok o, (c', st')) ->
  exists n, run_events (Alloc i k :: replicate n (GoOn i)) s0 held =
    Some (put_cpu i c' st' s0, match o with Some a => <[a := k]> held | None => held end).
Proof.
  intros Hc. assert (Hs0 : moved i c (BUDDY_ALLOCATOR s0) Outside s0 = s0) by (rewrite moved_outside; by apply put_cpu_same).
  cbn [run_events run_event]. rewrite bool_decide_true by done. unfold global_alloc_by_order, cpu_alloc_by_order, bind at 1, bind at 2.
  unfold lift at 1, assert_. destruct (k <? MAX_ORDER)%nat; [|done]. unfold ret. destruct (Nat.eqb_spec k 0) as [->|Hk].
  - intros Ha. destruct (enter_alone 2 c (BUDDY_ALLOCATOR s0) Outside o c' st' Ha) as (r & s1 & He & Hg). rewrite Hs0 in He. unfold bind. rewrite He. apply Hg.
  - intros Ha. exists 0%nat. unfold bind. rewrite <- Hs0 at 1. rewrite (on_cpu_moved _ _ _ _ _ _ _ Ha). unfold ret. rewrite moved_outside. by destruct o.
Qed.

Lemma free_uninterrupted c k a c' st' held : PAGE_CACHE_LIST s0 !! i = Some c -> held !! a = Some k ->
  global_free_by_order a k (c, BUDDY_ALLOCATOR s0) = (Ok tt, (c', st')) ->
  exists n, run_events (Free i a k :: replicate n (GoOn i)) s0 held = Some (put_cpu i c' st' s0, delete a held).
Proof.
  intros Hc Ha Hf. assert (Hs0 : moved i c (BUDDY_ALLOCATOR s0) Outside s0 = s0) by (rewrite moved_outside; by apply put_cpu_same).
  cbn [run_events run_event]. rewrite !bool_decide_true by done. cbn [andb]. unfold cpu_free_by_order, bind at 1, assert_ at 1.
  unfold global_free_by_order, bind at 1, lift at 1, assert_ at 1 in Hf. destruct (k <? MAX_ORDER)%nat; [|done]. unfold ret at 1.
  unfold ret at 1 in Hf. destruct (Nat.eqb_spec k 0) as [->|Hk].
  - unfold cache_dealloc_page, bind at 1 in Hf. destruct (cache_push_front a (c, BUDDY_ALLOCATOR s0)) as [[[]|[]|] [c1 st1]] eqn:Ep; [|done].
    unfold bind at 1, get_focus at 1 in Hf. pose proof (on_cpu_moved _ _ _ Outside _ _ _ Ep) as E1. rewrite Hs0 in E1.
    unfold enter_dealloc_page, bind at 1. rewrite E1.
    unfold bind at 1. rewrite (on_cpu_moved get_focus c1 st1 Outside (Ok c1) c1 st1 eq_refl). destruct (cache_list_len c1 <? 64).
    + injection Hf as -> ->. exists 0%nat. unfold ret. by rewrite moved_outside.
    + unfold bind. rewrite goto_moved. unfold ret. by apply drain_alone.
  - exists 0%nat. unfold bind. rewrite <- Hs0 at 1. rewrite (on_cpu_moved _ _ _ _ _ _ _ Hf). unfold ret. by rewrite moved_outside.
Qed.
End alone.

(** [find_order] is the smallest order whose blocks hold the size. *)
Theorem find_order_least size (Hs : 0 <= size) :
  size <= block_size (find_order size) /\ forall k, size <= block_size k -> (find_order size <= k)%nat.
Proof.
  unfold find_order, next_power_of_two, block_size. pose proof (div_ceil_spec size 4096 Hs ltac:(lia)) as Hd.
  set (n := div_ceil size 4096) in *. destruct (Z.leb_spec n 1) as [Hle|Hgt].
  { change (Z.to_nat (Z.log2 1)) with 0%nat. simpl. split; [lia|intros; lia]. }
  rewrite Z.log2_pow2 by apply Z.log2_up_nonneg. pose proof (Z.log2_up_spec n Hgt) as [Hlo Hhi].
  rewrite Z2Nat.id by apply Z.log2_up_nonneg. split; [lia|]. intros k Hk.
  assert (Hn : n <= 2 ^ Z.of_nat k) by nia. apply Z.log2_up_le_pow2 in Hn; lia.
Qed.

Lemma find_order_least_witness : (find_order 4095, find_order 5126, find_order 9900) = (0%nat, 1%nat, 2%nat) /\
  9900 <= block_size (find_order 9900) /\ forall k, 9900 <= block_size k -> (find_order 9900 <= k)%nat.
Proof. split; [vm_compute; reflexivity|apply (find_order_least 9900); lia]. Defined.
