(* ===== verification/Slab.v ===== *)
(** * The slab allocator and the kernel heap (mmu/slab.rs, mmu/heap.rs)

    A slab is a block of pages that is cut into objects of one size.  Objects
    that are not in use are on singly linked lists whose links are stored in
    the objects themselves: the list of a slab, whose head is in the
    descriptor of the first page, and the lists of the array caches in front.
    The model keeps the lists as the machine has them, a head and links in
    memory, so that a list that is followed through memory that no longer
    holds its links goes wrong here as it does there: [WildPointer] is the
    outcome of following a word that is not a link.

    The code runs under the locks of the caches or with interrupts off on the
    data of its CPU, and an operation takes all the locks that it needs before
    it ends, so an operation is a computation over the whole state.  The page
    allocator is a class. *)

From S2P Require Import Prelude Superblock Buddy.

#[local] Open Scope Z_scope.
#[local] Open Scope rw_scope.

Inductive Fault : Type := WildPointer.

(** ** Page frames

    What the slab allocator uses of the buddy allocator and of the
    descriptors of pages: [alloc_by_order], [free_by_order], [pgf_order] and
    the link of the page. *)
Class FrameAlloc (A : Type) : Type := {
  alloc_frame : nat -> M A Empty_set (option Z);
  free_frame : Z -> nat -> M A Empty_set unit;
  frame_order : A -> Z -> nat;
  frame_linked : A -> Z -> bool;
  set_frame_linked : Z -> bool -> A -> A
}.

(** The fields of [Page] for the slab allocator. *)
Record SlabPage : Type := mkSlab { slab_obj_sz : Z; slab_free_list : option Z; slab_nr_free : Z; slab_num_objs : Z }.
Definition SlabPage_new : SlabPage := mkSlab 0 None 0 0.

(** What an object holds: a link, which is not in a list or leads to the next
    node, or bytes of its owner. *)
Inductive Cell : Type :=
| Unlinked
| Linked (next : option Z)
| Data (bytes : list Z).

Record Frames (A : Type) : Type := mkFrames { slabs : gmap Z SlabPage; cells : gmap Z Cell; frames : A }.
Arguments mkFrames {A} _ _ _.
Arguments slabs {A} _.
Arguments cells {A} _.
Arguments frames {A} _.

Section lists.
Context {A : Type}.
#[local] Notation SM := (M (Frames A) Fault).

Definition set_cell (x : Z) (c : Cell) : SM unit := modify (fun s => mkFrames (slabs s) (<[x := c]> (cells s)) (frames s)).

Definition slab_at (s : Frames A) (p : Z) : SlabPage := default SlabPage_new (slabs s !! p).
Definition set_slab (p : Z) (sp : SlabPage) : SM unit := modify (fun s => mkFrames (<[p := sp]> (slabs s)) (cells s) (frames s)).

(** ** Singly linked lists

    A node that looks linked cannot be pushed. *)
Definition push_front (head : option Z) (x : Z) : SM (option Z) :=
  do s <- get;
  match cells s !! x with
  | Some Unlinked => set_cell x (Linked head);; ret (Some x)
  | _ => panic
  end.

Definition pop_front (head : option Z) : SM (option Z * option Z) :=
  match head with
  | None => ret (None, None)
  | Some x =>
    do s <- get;
    match cells s !! x with
    | Some (Linked next) => set_cell x Unlinked;; ret (Some x, next)
    | _ => fail WildPointer
    end
  end.

(** Dropping a list takes its nodes off one by one; every turn turns a linked
    node into one that is not. *)
Fixpoint clear_list (n : nat) (head : option Z) : SM unit :=
  match head with
  | None => ret tt
  | Some x =>
    match n with
    | O => fail WildPointer
    | S n' =>
      do s <- get;
      match cells s !! x with
      | Some (Linked next) => set_cell x Unlinked;; clear_list n' next
      | _ => fail WildPointer
      end
    end
  end.

Definition drop_list (head : option Z) : SM unit := do s <- get; clear_list (S (base.size (cells s))) head.
End lists.

(** ** Slabs *)

Definition pgforder_for_slab (object_size min_obj_cnt : Z) : nat :=
  Nat.min (Z.to_nat (Z.log2 (next_power_of_two (div_ceil (object_size * min_obj_cnt) PGSIZE)))) 5.

Section slab.
Context {A : Type} `{FrameAlloc A}.
#[local] Notation SM := (M (Frames A) Fault).

(** A call of the page allocator, which has no errors of its own. *)
Definition on_frames {B} (m : M A Empty_set B) : SM B := fun s =>
  match m (frames s) with
  | (Ok b, a) => (Ok b, mkFrames (slabs s) (cells s) a)
  | (Err e, a) => match e with end
  | (Panic, a) => (Panic, mkFrames (slabs s) (cells s) a)
  end.

(** Linking and unlinking a page in a list of pages. *)
Definition link_page (p : Z) : SM unit :=
  do s <- get;
  assert_ (negb (frame_linked (frames s) p));;
  modify (fun s => mkFrames (slabs s) (cells s) (set_frame_linked p true (frames s))).

Definition unlink_page (p : Z) : SM unit :=
  modify (fun s => mkFrames (slabs s) (cells s) (set_frame_linked p false (frames s))).

(** The loop of [slab_new]; it makes [n] turns at most. *)
Fixpoint init_objects (n : nat) (object object_sz end_ : Z) (list : option Z) (free_nr : Z) : SM (option Z * Z) :=
  match n with
  | O => panic
  | S n' =>
    if object + object_sz <=? end_ then
      set_cell object Unlinked;;
      do list <- push_front list object;
      init_objects n' (object + object_sz) object_sz end_ list (free_nr + 1)
    else ret (list, free_nr)
  end.

(** The assignment of a new list drops the one that the descriptor had. *)
Definition slab_new (pgforder : nat) (object_sz : Z) : SM (option Z) :=
  do o <- on_frames (alloc_frame pgforder);
  match o with
  | None => ret None
  | Some pgf =>
    do s <- get;
    drop_list (slab_free_list (slab_at s pgf));;
    let pgframe_sz := PGSIZE * Z.shiftl 1 (Z.of_nat pgforder) in
    do (list, free_nr) <- init_objects (S (Z.to_nat (pgframe_sz / object_sz))) pgf object_sz (pgf + pgframe_sz) None 0;
    set_slab pgf (mkSlab object_sz list free_nr free_nr);;
    ret (Some pgf)
  end.

Definition slab_drop (slab : Z) : SM unit :=
  do s <- get; on_frames (free_frame slab (frame_order (frames s) slab)).

Definition slab_allocate (slab : Z) : SM (option Z) :=
  do s <- get;
  let sp := slab_at s slab in
  do (node, list) <- pop_front (slab_free_list sp);
  match node with
  | Some obj =>
    assert_ (1 <=? slab_nr_free sp);;
    set_slab slab (mkSlab (slab_obj_sz sp) list (slab_nr_free sp - 1) (slab_num_objs sp));;
    ret (Some obj)
  | None => ret None
  end.

Definition slab_deallocate (slab obj : Z) : SM unit :=
  do s <- get;
  let sp := slab_at s slab in
  do list <- push_front (slab_free_list sp) obj;
  set_slab slab (mkSlab (slab_obj_sz sp) list (slab_nr_free sp + 1) (slab_num_objs sp)).

Definition slab_is_full (s : Frames A) (slab : Z) : bool := match slab_free_list (slab_at s slab) with None => true | Some _ => false end.
Definition slab_is_empty (s : Frames A) (slab : Z) : bool := slab_num_objs (slab_at s slab) =? slab_nr_free (slab_at s slab).

Definition slab_contains (s : Frames A) (slab obj : Z) : bool :=
  let pgf_sz := PGSIZE * Z.shiftl 1 (Z.of_nat (frame_order (frames s) slab)) in
  (slab <=? obj) && (obj + slab_obj_sz (slab_at s slab) <=? slab + pgf_sz).
End slab.

(** ** The slabs of one size *)

Notation MAX_EMPTY_SLABS := 8.
Notation EMPTY_SLABS_BATCH_COUNT := 4%nat.

Record SlabMemCache : Type := mkMemCache {
  pgforder : nat; object_sz : Z; num_objs : Z; active_objs : Z;
  slabs_empty : list Z; slabs_full : list Z; slabs_partial : list Z;
  slabs_empty_len : Z; total_slabs : Z
}.

Definition SlabMemCache_new (object_sz : Z) : SlabMemCache :=
  mkMemCache (pgforder_for_slab object_sz 8) object_sz 0 0 [] [] [] 0 0.

Definition set_empty (l : list Z) (n : Z) (c : SlabMemCache) : SlabMemCache :=
  mkMemCache (pgforder c) (object_sz c) (num_objs c) (active_objs c) l (slabs_full c) (slabs_partial c) n (total_slabs c).
Definition set_full (l : list Z) (c : SlabMemCache) : SlabMemCache :=
  mkMemCache (pgforder c) (object_sz c) (num_objs c) (active_objs c) (slabs_empty c) l (slabs_partial c) (slabs_empty_len c) (total_slabs c).
Definition set_partial (l : list Z) (c : SlabMemCache) : SlabMemCache :=
  mkMemCache (pgforder c) (object_sz c) (num_objs c) (active_objs c) (slabs_empty c) (slabs_full c) l (slabs_empty_len c) (total_slabs c).
Definition set_active (n : Z) (c : SlabMemCache) : SlabMemCache :=
  mkMemCache (pgforder c) (object_sz c) (num_objs c) n (slabs_empty c) (slabs_full c) (slabs_partial c) (slabs_empty_len c) (total_slabs c).
Definition set_totals (objs slabs : Z) (c : SlabMemCache) : SlabMemCache :=
  mkMemCache (pgforder c) (object_sz c) objs (active_objs c) (slabs_empty c) (slabs_full c) (slabs_partial c) (slabs_empty_len c) slabs.

Section mem_cache.
Context {A : Type} `{FrameAlloc A}.
#[local] Notation SM := (M (Frames A) Fault).
#[local] Notation CM := (M (SlabMemCache * Frames A) Fault).

Definition modify_cache (f : SlabMemCache -> SlabMemCache) : CM unit := do c <- get_focus; put_focus (f c).

Definition push_empty (slab : Z) : CM unit :=
  lift (link_page slab);; modify_cache (fun c => set_empty (slab :: slabs_empty c) (slabs_empty_len c + 1) c).
Definition push_full (slab : Z) : CM unit := lift (link_page slab);; modify_cache (fun c => set_full (slab :: slabs_full c) c).
Definition push_partial (slab : Z) : CM unit := lift (link_page slab);; modify_cache (fun c => set_partial (slab :: slabs_partial c) c).

(** The [loop] of [allocate]; [n] is the number of turns. *)
Fixpoint allocate_loop (n : nat) : CM (option Z) :=
  match n with
  | O => panic
  | S n' =>
    do c <- get_focus;
    match slabs_empty c with
    | slab :: l =>
      lift (unlink_page slab);;
      lift (assert_ (1 <=? slabs_empty_len c));;
      put_focus (set_empty l (slabs_empty_len c - 1) c);;
      do o <- lift (slab_allocate slab);
      do obj <- unwrap o;
      do s <- lift get;
      (if slab_is_full s slab then push_full slab else push_partial slab);;
      modify_cache (fun c => set_active (active_objs c + 1) c);;
      ret (Some obj)
    | [] =>
      do o <- lift (slab_new (pgforder c) (object_sz c));
      match o with
      | None => ret None
      | Some new_slab =>
        push_empty new_slab;;
        do s <- lift get;
        modify_cache (fun c => set_totals (num_objs c + slab_num_objs (slab_at s new_slab)) (total_slabs c + 1) c);;
        allocate_loop n'
      end
    end
  end.

Definition allocate : CM (option Z) :=
  do c <- get_focus;
  match slabs_partial c with
  | slab :: l =>
    do o <- lift (slab_allocate slab);
    do obj <- unwrap o;
    do s <- lift get;
    (if slab_is_full s slab then
       lift (unlink_page slab);; modify_cache (set_partial l);; push_full slab
     else ret tt);;
    modify_cache (fun c => set_active (active_objs c + 1) c);;
    ret (Some obj)
  | [] => allocate_loop 2
  end.

(** [for _ in 0..EMPTY_SLABS_BATCH_COUNT] *)
Fixpoint shrink_loop (n : nat) : CM unit :=
  match n with
  | O => ret tt
  | S n' =>
    do c <- get_focus;
    match slabs_empty c with
    | [] => panic
    | slab :: l =>
      lift (unlink_page slab);;
      do s <- lift get;
      let nr := slab_num_objs (slab_at s slab) in
      lift (assert_ ((nr <=? num_objs c) && (1 <=? slabs_empty_len c) && (1 <=? total_slabs c)));;
      put_focus (set_totals (num_objs c - nr) (total_slabs c - 1) (set_empty l (slabs_empty_len c - 1) c));;
      lift (slab_drop slab);;
      shrink_loop n'
    end
  end.

Definition maybe_shrink_empty_slabs : CM unit :=
  do c <- get_focus;
  if MAX_EMPTY_SLABS <? slabs_empty_len c then shrink_loop EMPTY_SLABS_BATCH_COUNT else ret tt.

(** The cursor stops at the first slab of the list that contains the object. *)
Fixpoint find_slab (s : Frames A) (obj : Z) (l : list Z) : option Z :=
  match l with
  | [] => None
  | slab :: l' => if slab_contains s slab obj then Some slab else find_slab s obj l'
  end.

Definition remove_slab (slab : Z) (l : list Z) : list Z := filter (fun x => x <> slab) l.

Definition dec_active : CM unit :=
  do c <- get_focus;
  lift (assert_ (1 <=? active_objs c));;
  put_focus (set_active (active_objs c - 1) c).

Definition deallocate (obj : Z) : CM unit :=
  do c <- get_focus;
  do s <- lift get;
  match find_slab s obj (slabs_partial c) with
  | Some slab =>
    dec_active;;
    lift (slab_deallocate slab obj);;
    do s <- lift get;
    if slab_is_empty s slab then
      lift (unlink_page slab);;
      modify_cache (set_partial (remove_slab slab (slabs_partial c)));;
      push_empty slab;;
      maybe_shrink_empty_slabs
    else ret tt
  | None =>
    match find_slab s obj (slabs_full c) with
    | Some slab =>
      dec_active;;
      lift (unlink_page slab);;
      modify_cache (set_full (remove_slab slab (slabs_full c)));;
      lift (slab_deallocate slab obj);;
      do s <- lift get;
      if slab_is_empty s slab then push_empty slab;; maybe_shrink_empty_slabs
      else push_partial slab
    | None => ret tt
    end
  end.

(** One of the loops of [drop]. *)
Fixpoint drop_slabs (l : list Z) : SM unit :=
  match l with
  | [] => ret tt
  | slab :: l' => unlink_page slab;; slab_drop slab;; drop_slabs l'
  end.

Definition drop_mem_cache (c : SlabMemCache) : SM unit :=
  drop_slabs (slabs_full c);; drop_slabs (slabs_empty c);; drop_slabs (slabs_partial c).
End mem_cache.

(** ** Array caches *)

Record ArrayCache : Type := mkArray { limit : Z; batchcount : nat; ac_list : option Z; len : Z }.
Definition ArrayCache_new (limit : Z) (batchcount : nat) : ArrayCache := mkArray limit batchcount None 0.
Definition set_list (l : option Z) (n : Z) (ac : ArrayCache) : ArrayCache := mkArray (limit ac) (batchcount ac) l n.

Section array_cache.
Context {A : Type} `{FrameAlloc A}.
#[local] Notation SM := (M (Frames A) Fault).
#[local] Notation CM := (M (SlabMemCache * Frames A) Fault).

(** [fetch_obj], which is also the [pop_front] and [len -= 1] of the loops. *)
Definition fetch_obj (ac : ArrayCache) : SM (option Z * ArrayCache) :=
  do (ptr, list) <- pop_front (ac_list ac);
  match ptr with
  | Some obj => assert_ (1 <=? len ac);; ret (Some obj, set_list list (len ac - 1) ac)
  | None => ret (None, ac)
  end.

(** [push_front] and [len += 1]. *)
Definition push_obj (ac : ArrayCache) (obj : Z) : SM ArrayCache :=
  do list <- push_front (ac_list ac) obj;
  ret (set_list list (len ac + 1) ac).

Definition place_obj (ac : ArrayCache) (obj : Z) : SM ArrayCache := set_cell obj Unlinked;; push_obj ac obj.

Fixpoint grow_loop (n : nat) (ac : ArrayCache) : CM ArrayCache :=
  match n with
  | O => ret ac
  | S n' =>
    do o <- allocate;
    match o with
    | Some obj => do ac <- lift (push_obj ac obj); grow_loop n' ac
    | None => ret ac
    end
  end.

Definition grow_from_cache (ac : ArrayCache) : CM (bool * ArrayCache) :=
  do ac' <- grow_loop (batchcount ac) ac;
  ret (negb (len ac =? len ac'), ac').

Fixpoint shrink_to_loop (n : nat) (ac : ArrayCache) : CM ArrayCache :=
  match n with
  | O => ret ac
  | S n' =>
    do (o, ac) <- lift (fetch_obj ac);
    match o with
    | Some obj => deallocate obj;; shrink_to_loop n' ac
    | None => ret ac
    end
  end.

Definition shrink_to_cache (ac : ArrayCache) : CM ArrayCache := shrink_to_loop (batchcount ac) ac.

Fixpoint transfer_objects (n : nat) (dst src : ArrayCache) : SM (ArrayCache * ArrayCache) :=
  match n with
  | O => ret (dst, src)
  | S n' =>
    do (o, src) <- fetch_obj src;
    match o with
    | Some obj => do dst <- push_obj dst obj; transfer_objects n' dst src
    | None => ret (dst, src)
    end
  end.
End array_cache.

(** ** The allocator of objects of one size *)

Record SlabAllocator : Type := mkAllocator {
  object_size : Z; mem_cache : SlabMemCache; per_cpu_array_cache : list ArrayCache; shared_array_cache : ArrayCache
}.

Definition clamp (lo hi n : Z) : Z := Z.max lo (Z.min n hi).
Definition align_to (val align : Z) : Z := Z.land (val + (align - 1)) (Z.lnot (align - 1)).
Definition compute_batchcount_alt (obj_size : Z) : Z := clamp 2 32 (1 + PGSIZE / obj_size / 8).

(** [None] when the size panics; a link has 8 bytes. *)
Definition SlabAllocator_new (size align : Z) : option SlabAllocator :=
  let object_size := align_to size align in
  if (PGSIZE * 2 <? object_size) || (object_size <? 8) then None
  else
    let percpu_batchcount := compute_batchcount_alt object_size in
    let percpu_limit := percpu_batchcount * 4 in
    let shared_limit := clamp 16 256 (percpu_limit * Z.of_nat MAX_NCPU) in
    let shared_batchcount := clamp 4 64 (percpu_batchcount * Z.of_nat MAX_NCPU) in
    Some (mkAllocator object_size (SlabMemCache_new object_size)
            (replicate MAX_NCPU (ArrayCache_new percpu_limit (Z.to_nat percpu_batchcount)))
            (ArrayCache_new shared_limit (Z.to_nat shared_batchcount))).

Section allocator.
Context {A : Type} `{FrameAlloc A}.
#[local] Notation SM := (M (Frames A) Fault).
#[local] Notation AM := (M (SlabAllocator * Frames A) Fault).

Definition set_local (cpu : nat) (ac : ArrayCache) : AM unit :=
  do a <- get_focus;
  put_focus (mkAllocator (object_size a) (mem_cache a) (<[cpu := ac]> (per_cpu_array_cache a)) (shared_array_cache a)).
Definition set_shared (ac : ArrayCache) : AM unit :=
  do a <- get_focus; put_focus (mkAllocator (object_size a) (mem_cache a) (per_cpu_array_cache a) ac).

(** Code that has locked the [mem_cache]. *)
Definition on_mem_cache {B} (m : M (SlabMemCache * Frames A) Fault B) : AM B := fun '(a, s) =>
  let '(r, (c, s')) := m (mem_cache a, s) in
  (r, (mkAllocator (object_size a) c (per_cpu_array_cache a) (shared_array_cache a), s')).

Definition allocate_obj (cpu : nat) : AM (option Z) :=
  do a <- get_focus;
  do local_ac <- unwrap (per_cpu_array_cache a !! cpu);
  do (o, local_ac) <- lift (fetch_obj local_ac);
  set_local cpu local_ac;;
  match o with
  | Some obj => ret (Some obj)
  | None =>
    do a <- get_focus;
    let shared_ac := shared_array_cache a in
    do (grown, shared_ac) <- match ac_list shared_ac with
                             | None => on_mem_cache (grow_from_cache shared_ac)
                             | Some _ => ret (true, shared_ac)
                             end;
    set_shared shared_ac;;
    if negb grown then ret None
    else
      do (local_ac, shared_ac) <- lift (transfer_objects (batchcount local_ac) local_ac shared_ac);
      set_shared shared_ac;;
      do (o, local_ac) <- lift (fetch_obj local_ac);
      set_local cpu local_ac;;
      ret o
  end.

Definition deallocate_obj (cpu : nat) (obj : Z) : AM unit :=
  do a <- get_focus;
  do local_ac <- unwrap (per_cpu_array_cache a !! cpu);
  do local_ac <- lift (place_obj local_ac obj);
  set_local cpu local_ac;;
  if len local_ac <? limit local_ac then ret tt
  else
    do a <- get_focus;
    do (shared_ac, local_ac) <- lift (transfer_objects (batchcount local_ac) (shared_array_cache a) local_ac);
    set_local cpu local_ac;;
    set_shared shared_ac;;
    if len shared_ac <? limit shared_ac then ret tt
    else
      do shared_ac <- on_mem_cache (shrink_to_cache shared_ac);
      set_shared shared_ac.

(** The fields are dropped in their order: the slabs go back to the page
    allocator before the lists of the array caches are taken apart. *)
Fixpoint drop_arrays (l : list ArrayCache) : SM unit :=
  match l with
  | [] => ret tt
  | ac :: l' => drop_list (ac_list ac);; drop_arrays l'
  end.

Definition drop_allocator (a : SlabAllocator) : SM unit :=
  drop_mem_cache (mem_cache a);;
  drop_arrays (per_cpu_array_cache a);;
  drop_list (ac_list (shared_array_cache a)).

(** ** Statistics *)

Record SlabInfo : Type := mkInfo { i_num_objs : Z; i_active_objs : Z; i_objs_per_slab : Z; i_num_slabs : Z }.

(** The differences of [usize] stop the kernel when they are negative. *)
Fixpoint sub_lens (n : Z) (l : list ArrayCache) : option Z :=
  match l with
  | [] => Some n
  | ac :: l' => if n <? len ac then None else sub_lens (n - len ac) l'
  end.

Definition info (a : SlabAllocator) : option SlabInfo :=
  let c := mem_cache a in
  active ← sub_lens (active_objs c) (shared_array_cache a :: per_cpu_array_cache a);
  Some (mkInfo (num_objs c) active (Z.shiftl 1 (Z.of_nat (pgforder c)) * PGSIZE / object_sz c) (total_slabs c)).

(** [Allocator for SlabAllocator] *)
Definition Allocator_allocate (cpu : nat) (layout_size : Z) : AM (option Z) :=
  do a <- get_focus;
  assert_ (layout_size <=? object_size a);;
  allocate_obj cpu.

Definition Allocator_deallocate (cpu : nat) (ptr layout_size : Z) : AM unit :=
  do a <- get_focus;
  assert_ (layout_size <=? object_size a);;
  deallocate_obj cpu ptr.
End allocator.

(** ** The kernel heap (heap.rs) *)

(** [SLAB_ALLOCATORS], every allocator being named by the size of its objects. *)
Definition SLAB_ALLOCATORS : list Z :=
  [8; 16; 32; 32; 64; 64; 64; 64; 96; 96; 96; 96; 128; 128; 128; 128; 192; 192; 192; 192; 192; 192; 192; 192;
   256; 512; 1024; 2048; 4096; 8192].

(** The index; [None] when it is out of range or [sz - 1] overflows. *)
Definition slab_allocator_for_sz (sz : Z) : option Z :=
  if sz <=? 192 then (if sz <? 1 then None else SLAB_ALLOCATORS !! Z.to_nat ((sz - 1) / 8))
  else SLAB_ALLOCATORS !! Z.to_nat (24 + Z.log2 (Z.shiftr (next_power_of_two sz) 8)).

(** The allocator for objects of more than 8192 bytes is that of the crate
    linked_list_allocator. *)
Class LargeHeap (G : Type) : Type := {
  large_alloc : Z -> Z -> G -> Z * G;
  large_dealloc : Z -> Z -> G -> G;
  large_realloc : Z -> Z -> Z -> G -> Z * G
}.

Record Heap (G : Type) : Type := mkHeap { kmalloc : gmap Z SlabAllocator; large : G }.
Arguments mkHeap {G} _ _.
Arguments kmalloc {G} _.
Arguments large {G} _.

Section heap.
Context {A : Type} `{FrameAlloc A} {G : Type} `{LargeHeap G} (cpu : nat).
#[local] Notation HM := (M (Heap G * Frames A) Fault).

Definition on_large {B} (f : G -> B * G) : HM B :=
  do h <- get_focus; let (b, l) := f (large h) in put_focus (mkHeap (kmalloc h) l);; ret b.

(** A computation of the allocator with the size [sz]. *)
Definition on_allocator {B} (sz : Z) (m : M (SlabAllocator * Frames A) Fault B) : HM B := fun '(h, s) =>
  match kmalloc h !! sz with
  | Some a => let '(r, (a', s')) := m (a, s) in (r, (mkHeap (<[sz := a']> (kmalloc h)) (large h), s'))
  | None => (Panic, (h, s))
  end.

(** 0 is the null pointer. *)
Definition alloc (size align : Z) : HM Z :=
  if 8192 <? size then on_large (large_alloc size align)
  else
    do sz <- unwrap (slab_allocator_for_sz size);
    do o <- on_allocator sz (Allocator_allocate cpu size);
    ret (default 0 o).

Definition dealloc (ptr size : Z) : HM unit :=
  if 8192 <? size then on_large (fun h => (tt, large_dealloc ptr size h))
  else
    do sz <- unwrap (slab_allocator_for_sz size);
    on_allocator sz (Allocator_deallocate cpu ptr size).

(** [copy_nonoverlapping]: the first [n] bytes of the one are those of the
    other. *)
Definition copy_bytes (src dst n : Z) : HM unit :=
  do s <- lift get;
  let bytes := match cells s !! src with Some (Data l) => l | _ => [] end in
  lift (set_cell dst (Data (take (Z.to_nat n) bytes))).

Definition realloc (ptr size align new_size : Z) : HM Z :=
  if 8192 <? size then
    if 8192 <? new_size then on_large (large_realloc ptr size new_size)
    else
      do new_ptr <- alloc new_size align;
      (if new_ptr =? 0 then ret tt
       else copy_bytes ptr new_ptr (Z.min size new_size);; on_large (fun h => (tt, large_dealloc ptr size h)));;
      ret new_ptr
  else
    do slab0 <- unwrap (slab_allocator_for_sz size);
    if 8192 <? new_size then
      do new_ptr <- alloc new_size align;
      (if new_ptr =? 0 then ret tt
       else copy_bytes ptr new_ptr (Z.min size new_size);; on_allocator slab0 (Allocator_deallocate cpu ptr size));;
      ret new_ptr
    else
      do slab1 <- unwrap (slab_allocator_for_sz new_size);
      if slab0 =? slab1 then ret ptr
      else
        do o <- on_allocator slab1 (Allocator_allocate cpu new_size);
        match o with
        | Some new_ptr =>
          copy_bytes ptr new_ptr (Z.min size new_size);;
          on_allocator slab0 (Allocator_deallocate cpu ptr size);;
          ret new_ptr
        | None => ret 0
        end.
End heap.
