(* ===== verification/SlabSpec.v ===== *)
(** * Correctness of the slab allocator

    From the bottom up: lists that are threaded through memory, the slabs of
    one size ([slabs_inv]), the lists of slabs ([mem_inv]), and the allocator
    with its array caches ([alloc_inv]). *)

From S2P Require Import Prelude Superblock Buddy BuddySpec Slab.

#[local] Open Scope Z_scope.
#[local] Open Scope rw_scope.

#[local] Notation never := (fun _ _ => False).

(** ** What the page allocator promises

    [B] are the blocks that are in use, with their orders, and [L] those
    whose descriptor is in a list. *)
Class FrameLaws (A : Type) `{FrameAlloc A} : Type := {
  fa_ok : A -> gmap Z nat -> gset Z -> Prop;
  fa_block a B L p k : fa_ok a B L -> B !! p = Some k -> aligned k p /\ frame_order a p = k /\ frame_linked a p = bool_decide (p ∈ L);
  fa_disj a B L p k q j x : fa_ok a B L -> B !! p = Some k -> B !! q = Some j -> in_block k p x -> in_block j q x -> p = q;
  fa_alloc a B L k : fa_ok a B L -> (k < MAX_ORDER)%nat ->
    wp (alloc_frame k) (fun o a' => match o with
      | Some p => B !! p = None /\ p ∉ L /\ fa_ok a' (<[p := k]> B) L
      | None => fa_ok a' B L
      end) never a;
  fa_free a B L p k : fa_ok a B L -> B !! p = Some k -> p ∉ L -> wp (free_frame p k) (fun _ a' => fa_ok a' (delete p B) L) never a;
  fa_link a B L p k : fa_ok a B L -> B !! p = Some k -> fa_ok (set_frame_linked p true a) B ({[p]} ∪ L);
  fa_unlink a B L p k : fa_ok a B L -> B !! p = Some k -> fa_ok (set_frame_linked p false a) B (L ∖ {[p]})
}.

(** ** Lists in memory *)

Fixpoint chain (m : gmap Z Cell) (h : option Z) (l : list Z) : Prop :=
  match l with
  | [] => h = None
  | x :: l' => h = Some x /\ exists nx, m !! x = Some (Linked nx) /\ chain m nx l'
  end.

Lemma chain_frame m m' h l : chain m h l -> (forall x, x ∈ l -> m' !! x = m !! x) -> chain m' h l.
Proof.
  revert h. induction l as [|x l IH]; intros h; [done|]. intros [-> (nx & Hx & Hl)] Hs. split; [done|]. exists nx.
  rewrite Hs by (by left). split; [done|]. apply IH; [done|]. intros y Hy. apply Hs. by right.
Qed.

Lemma chain_linked m h l x : chain m h l -> x ∈ l -> exists nx, m !! x = Some (Linked nx).
Proof.
  revert h. induction l as [|y l IH]; intros h; [by intros _ ?%elem_of_nil|]. intros [_ (nx & Hy & Hl)] [->|Hx]%elem_of_cons; [by exists nx|by eapply IH].
Qed.

Lemma chain_det m h l l' : chain m h l -> chain m h l' -> l = l'.
Proof.
  revert h l'. induction l as [|x l IH]; intros h [|y l']; cbn [chain]; [done|intros -> [? _]; done|intros [-> _] ?; done|].
  intros [-> (nx & Hx & Hl)] [[= <-] (ny & Hy & Hl')]. rewrite Hx in Hy. injection Hy as <-. f_equal. by eapply IH.
Qed.

Lemma chain_suffix m h l x : chain m h l -> x ∈ l -> exists l', chain m (Some x) (x :: l') /\ (length l' < length l)%nat.
Proof.
  revert h. induction l as [|y l IH]; intros h; [by intros _ ?%elem_of_nil|]. intros [-> (nx & Hy & Hl)] [->|Hx]%elem_of_cons.
  - exists l. cbn [length]. split; [|lia]. split; [done|by exists nx].
  - destruct (IH nx Hl Hx) as (l' & Hl' & Hlt). exists l'. cbn [length]. split; [done|lia].
Qed.

Lemma chain_NoDup m h l : chain m h l -> NoDup l.
Proof.
  revert h. induction l as [|x l IH]; intros h; [constructor|]. intros [-> (nx & Hx & Hl)]. constructor; [|by eapply IH]. intros Hin.
  destruct (chain_suffix m nx l x Hl Hin) as (l' & Hl' & Hlt). assert (x :: l = x :: l') as [= <-]; [|lia].
  eapply chain_det; [|done]. split; [done|by exists nx].
Qed.

Lemma chain_not_in m h l x : chain m h l -> (forall nx, m !! x <> Some (Linked nx)) -> x ∉ l.
Proof. intros Hc Hx Hin. destruct (chain_linked m h l x Hc Hin) as [nx Hn]. by apply (Hx nx). Qed.

Lemma chain_nil m h : chain m h [] <-> h = None.
Proof. done. Qed.

Lemma chain_None m h l : chain m h l -> (h = None <-> l = []).
Proof. destruct l as [|x l]; [done|]. by intros [-> _]. Qed.

Section lists.
Context {A : Type}.
Implicit Types s : Frames A.

Definition upd_cell s (x : Z) (c : Cell) : Frames A := mkFrames (slabs s) (<[x := c]> (cells s)) (frames s).
Definition upd_slab s (p : Z) (sp : SlabPage) : Frames A := mkFrames (<[p := sp]> (slabs s)) (cells s) (frames s).

Lemma wp_set_cell x c (Q : unit -> Frames A -> Prop) R s : Q tt (upd_cell s x c) -> wp (set_cell x c) Q R s.
Proof. done. Qed.

Lemma push_wp h l x s : chain (cells s) h l -> cells s !! x = Some Unlinked ->
  wp (push_front h x) (fun h' s' => s' = upd_cell s x (Linked h) /\ chain (cells s') h' (x :: l)) never s.
Proof.
  intros Hc Hx. unfold push_front, wp, bind, get. rewrite Hx. cbn. split; [done|]. split; [done|]. exists h. rewrite lookup_insert_eq.
  split; [done|]. apply (chain_frame (cells s)); [done|]. intros y Hy. apply lookup_insert_ne. intros <-.
  destruct (chain_linked _ _ _ _ Hc Hy) as [nx Hn]. congruence.
Qed.

Lemma pop_wp h l s : chain (cells s) h l ->
  wp (pop_front h) (fun r s' =>
    match l with
    | [] => r = (None, None) /\ s' = s
    | x :: l' => r.1 = Some x /\ s' = upd_cell s x Unlinked /\ chain (cells s') r.2 l'
    end) never s.
Proof.
  intros Hc. destruct l as [|x l]; [by rewrite Hc|]. pose proof (chain_NoDup _ _ _ Hc) as Hnd. apply NoDup_cons in Hnd as [Hn _].
  destruct Hc as [-> (nx & Hx & Hl)]. unfold pop_front, wp, bind, get. rewrite Hx. cbn. split; [done|]. split; [done|].
  apply (chain_frame (cells s)); [done|]. intros y Hy. apply lookup_insert_ne. congruence.
Qed.

Lemma clear_list_wp n h l s : chain (cells s) h l -> (length l <= n)%nat ->
  wp (clear_list n h) (fun _ s' => slabs s' = slabs s /\ frames s' = frames s /\ (forall x, x ∉ l -> cells s' !! x = cells s !! x)) never s.
Proof.
  revert h l s. induction n as [|n IH]; intros h [|x l] s Hc Hl; cbn [length] in Hl; [by rewrite Hc|lia|by rewrite Hc|].
  pose proof (chain_NoDup _ _ _ Hc) as Hnd. apply NoDup_cons in Hnd as [Hn _]. destruct Hc as [-> (nx & Hx & Hl')]. cbn [clear_list].
  unfold wp, bind, get. rewrite Hx. change (wp (set_cell x Unlinked;; clear_list n nx) (fun _ s' => slabs s' = slabs s /\ frames s' = frames s /\
    (forall y, y ∉ x :: l -> cells s' !! y = cells s !! y)) never s). apply wp_bind, wp_set_cell.
  assert (Hne : forall y, y <> x -> cells (upd_cell s x Unlinked) !! y = cells s !! y) by (intros y Hy; apply lookup_insert_ne; congruence).
  eapply wp_mono; [apply (IH nx l (upd_cell s x Unlinked)); [|lia]| |done].
  - apply (chain_frame (cells s)); [done|]. intros y Hy. apply Hne. congruence.
  - intros _ s' (H1 & H2 & H3). split; [done|]. split; [done|]. intros y [Hyx Hy]%not_elem_of_cons. rewrite H3 by done. by apply Hne.
Qed.

Lemma drop_wp h l s : chain (cells s) h l ->
  wp (drop_list h) (fun _ s' => slabs s' = slabs s /\ frames s' = frames s /\ (forall x, x ∉ l -> cells s' !! x = cells s !! x)) never s.
Proof.
  intros Hc. unfold drop_list. apply wp_bind. unfold wp at 1, get. apply clear_list_wp; [done|].
  assert (Hd : (length l <= base.size (dom (cells s)))%nat); [|rewrite size_dom in Hd; lia].
  rewrite <- (size_list_to_set (C := gset Z) l) by (by eapply chain_NoDup). apply subseteq_size. intros x Hx. apply elem_of_list_to_set in Hx.
  apply elem_of_dom. destruct (chain_linked _ _ _ _ Hc Hx) as [nx ->]. by eexists.
Qed.
End lists.

Lemma elem_of_rev {B} (x : B) l : x ∈ rev l <-> x ∈ l.
Proof. by rewrite !list_elem_of_In, <- in_rev. Qed.

(** ** The objects of a slab *)

Definition objects (p sz : Z) (n : nat) : list Z := (fun i => p + sz * Z.of_nat i) <$> seq 0 n.

Lemma elem_of_objects p sz n x : x ∈ objects p sz n <-> exists i, (i < n)%nat /\ x = p + sz * Z.of_nat i.
Proof.
  unfold objects. rewrite list_elem_of_fmap. split.
  - intros (i & -> & Hi). apply elem_of_seq in Hi. exists i. split; [lia|done].
  - intros (i & Hi & ->). exists i. split; [done|]. apply elem_of_seq. lia.
Qed.

Lemma objects_S p sz n : objects p sz (S n) = objects p sz n ++ [p + sz * Z.of_nat n].
Proof. unfold objects. by rewrite seq_S, fmap_app. Qed.

Lemma objects_length p sz n : length (objects p sz n) = n.
Proof. unfold objects. by rewrite length_fmap, length_seq. Qed.

Lemma objects_NoDup p sz n : 0 < sz -> NoDup (objects p sz n).
Proof. intros Hs. unfold objects. apply NoDup_fmap_2_strong; [|apply NoDup_seq]. intros i j _ _ Heq. nia. Qed.

(** Two objects of one size do not overlap. *)
Lemma objects_apart p sz n x y b : x ∈ objects p sz n -> y ∈ objects p sz n -> x <= b < x + sz -> y <= b < y + sz -> x = y.
Proof.
  intros (i & _ & ->)%elem_of_objects (j & _ & ->)%elem_of_objects Hx Hy. assert (Z.of_nat i = Z.of_nat j) by nia. congruence.
Qed.

Lemma block_size_shift k : PGSIZE * Z.shiftl 1 (Z.of_nat k) = block_size k.
Proof. unfold block_size. by rewrite Z.shiftl_1_l. Qed.

Section slabs.
Context {A : Type} `{FrameLaws A} (ord : nat) (sz : Z) (OB : gmap Z nat) (OL : gset Z).
Implicit Types (s : Frames A) (S : list Z) (K : gset Z) (Fl : Z -> list Z).

(** The number of objects of a slab. *)
Definition per_slab : nat := Z.to_nat (block_size ord / sz).
Definition objs (p : Z) : list Z := objects p sz per_slab.

Definition sizes_ok : Prop := 0 < sz /\ sz <= block_size ord /\ (ord < MAX_ORDER)%nat.
Context (Hsz : sizes_ok).

Lemma per_slab_pos : (0 < per_slab)%nat.
Proof. destruct Hsz as (? & ? & _). unfold per_slab. pose proof (Z.div_str_pos (block_size ord) sz ltac:(lia)). lia. Qed.

Lemma per_slab_fits : sz * Z.of_nat per_slab <= block_size ord.
Proof. destruct Hsz as (? & ? & _). unfold per_slab. rewrite Z2Nat.id by (apply Z.div_pos; lia). apply Z.mul_div_le. lia. Qed.

Lemma per_slab_next i : sz * (Z.of_nat i + 1) <= block_size ord <-> (i < per_slab)%nat.
Proof.
  destruct Hsz as (Hp & _). unfold per_slab. pose proof (Z.mul_div_le (block_size ord) sz Hp). pose proof (Z.mul_succ_div_gt (block_size ord) sz Hp).
  set (q := block_size ord / sz) in *. split; intros Hi.
  - assert (Z.of_nat i + 1 < Z.succ q) by nia. lia.
  - assert (Z.of_nat i + 1 <= q) by lia. nia.
Qed.

Lemma objs_in_block p x : x ∈ objs p -> p <= x /\ x + sz <= p + block_size ord.
Proof. intros (i & Hi & ->)%elem_of_objects. destruct Hsz as (? & _). apply per_slab_next in Hi. nia. Qed.

Lemma objs_block p x : x ∈ objs p -> in_block ord p x.
Proof. intros Hx. apply objs_in_block in Hx. destruct Hsz as (? & _). unfold in_block. lia. Qed.

Lemma aligned_same p q x : aligned ord p -> aligned ord q -> in_block ord p x -> in_block ord q x -> p = q.
Proof.
  intros Hp Hq Hx Hy. destruct (aligned_nested ord p ord q x) as [? _]; [done..|]. destruct (aligned_nested ord q ord p x) as [? _]; [done..|]. lia.
Qed.

Lemma objs_disj p q x : aligned ord p -> aligned ord q -> x ∈ objs p -> x ∈ objs q -> p = q.
Proof. intros Hp Hq Hx Hy. by eapply aligned_same; [| |apply objs_block|apply objs_block]. Qed.

(** ** The blocks in use *)

Definition own S : gmap Z nat := gset_to_gmap ord (list_to_set S).

Lemma own_lookup S p k : own S !! p = Some k <-> p ∈ S /\ k = ord.
Proof. unfold own. rewrite lookup_gset_to_gmap_Some, elem_of_list_to_set. naive_solver. Qed.

Lemma own_cons S p : own (p :: S) = <[p := ord]> (own S).
Proof. unfold own. by rewrite list_to_set_cons, gset_to_gmap_union_singleton. Qed.

Lemma own_delete S S' p : (forall q, q ∈ S' <-> q ∈ S /\ q <> p) -> own S' = delete p (own S).
Proof.
  intros Hq. apply map_eq. intros q. apply option_eq. intros k. rewrite lookup_delete_Some, !own_lookup, Hq. naive_solver.
Qed.

Lemma own_perm S S' : S ≡ₚ S' -> own S = own S'.
Proof. intros Hp. unfold own. f_equal. apply set_eq. intros x. by rewrite !elem_of_list_to_set, Hp. Qed.

Record slabs_inv S K Fl s : Prop := {
  si_frames : fa_ok (frames s) (OB ∪ own S) (OL ∪ K);
  si_nodup : NoDup S;
  si_apart p : p ∈ S -> OB !! p = None;
  si_linked p : p ∈ K -> p ∈ S;
  si_others p : p ∈ OL -> is_Some (OB !! p);
  si_chain p : chain (cells s) (slab_free_list (slab_at s p)) (Fl p);
  si_free p x : x ∈ Fl p -> aligned ord p /\ x ∈ objs p;
  si_slab p : p ∈ S -> slab_obj_sz (slab_at s p) = sz /\ slab_nr_free (slab_at s p) = Z.of_nat (length (Fl p)) /\ slab_num_objs (slab_at s p) = Z.of_nat per_slab
}.

Lemma slab_block S K Fl s p : slabs_inv S K Fl s -> p ∈ S -> (OB ∪ own S) !! p = Some ord.
Proof. intros Hi Hp. apply lookup_union_Some_raw. right. split; [by eapply si_apart|]. by apply own_lookup. Qed.

Lemma slab_facts S K Fl s p : slabs_inv S K Fl s -> p ∈ S ->
  aligned ord p /\ frame_order (frames s) p = ord /\ frame_linked (frames s) p = bool_decide (p ∈ K).
Proof.
  intros Hi Hp. pose proof (slab_block _ _ _ _ _ Hi Hp) as Hb. destruct (fa_block _ _ _ _ _ (si_frames _ _ _ _ Hi) Hb) as (Ha & Ho & ->).
  split; [done|]. split; [done|]. apply bool_decide_ext. rewrite elem_of_union. split; [|by right]. intros [HL|?]; [|done].
  destruct (si_others _ _ _ _ Hi p HL) as [k Hk]. by rewrite (si_apart _ _ _ _ Hi p Hp) in Hk.
Qed.

(** Memory of others is not in a slab. *)
Lemma slab_not_others S K Fl s p x : slabs_inv S K Fl s -> p ∈ S -> x ∈ objs p -> ~ covers OB x.
Proof.
  intros Hi Hp Hx (q & k & Hq & Hin). assert (p = q) as <-.
  { eapply (fa_disj _ _ _ p ord q k x (si_frames _ _ _ _ Hi)); [by eapply slab_block|by apply lookup_union_Some_l|by apply objs_block|done]. }
  by rewrite (si_apart _ _ _ _ Hi p Hp) in Hq.
Qed.

Lemma free_unique S K Fl s p q x : slabs_inv S K Fl s -> x ∈ Fl p -> x ∈ Fl q -> p = q.
Proof.
  intros Hi Hp Hq. destruct (si_free _ _ _ _ Hi p x Hp) as [Ha Hx]. destruct (si_free _ _ _ _ Hi q x Hq) as [Hb Hy]. by eapply objs_disj.
Qed.

Definition upd (Fl : Z -> list Z) (p : Z) (l : list Z) : Z -> list Z := fun q => if decide (q = p) then l else Fl q.

Lemma upd_eq Fl p l : upd Fl p l p = l.
Proof. unfold upd. by rewrite decide_True. Qed.

Lemma upd_ne Fl p l q : q <> p -> upd Fl p l q = Fl q.
Proof. intros Hq. unfold upd. by rewrite decide_False. Qed.

Lemma slab_at_upd s p sp q : slab_at (upd_slab s p sp) q = if decide (q = p) then sp else slab_at s q.
Proof. unfold slab_at, upd_slab. cbn. destruct (decide (q = p)) as [->|Hq]; [by rewrite lookup_insert_eq|by rewrite lookup_insert_ne]. Qed.

(** The descriptor, the objects and the free list of one slab change. *)
Lemma slabs_change S S' K Fl s s' p l sp : slabs_inv S K Fl s -> aligned ord p -> fa_ok (frames s') (OB ∪ own S') (OL ∪ K) ->
  (S' = S \/ S' = p :: S /\ p ∉ S /\ OB !! p = None) -> slabs s' = <[p := sp]> (slabs s) -> (forall x, x ∉ objs p -> cells s' !! x = cells s !! x) ->
  chain (cells s') (slab_free_list sp) l -> (forall x, x ∈ l -> x ∈ objs p) ->
  slab_obj_sz sp = sz /\ slab_nr_free sp = Z.of_nat (length l) /\ slab_num_objs sp = Z.of_nat per_slab ->
  slabs_inv S' K (upd Fl p l) s'.
Proof.
  intros [Hf Hn Ha Hk Ho Hc Hfr Hs] Hal Hf' HS Hsl Hce Hch Hin Hsp.
  assert (Hat : forall q, slab_at s' q = if decide (q = p) then sp else slab_at s q).
  { intros q. unfold slab_at. rewrite Hsl. destruct (decide (q = p)) as [->|Hq]; [by rewrite lookup_insert_eq|by rewrite lookup_insert_ne]. }
  assert (Hold : forall q, q <> p -> q ∈ S' -> q ∈ S) by (intros q Hq; destruct HS as [->|(-> & _)]; [done|rewrite elem_of_cons; naive_solver]).
  split; [done| | | |done| | |].
  - destruct HS as [->|(-> & ? & _)]; [done|by constructor].
  - destruct HS as [->|(-> & _ & Hp)]; [done|]. intros q. rewrite elem_of_cons. intros [->|?]; [done|by apply Ha].
  - intros q Hq. destruct HS as [->|(-> & _)]; [by apply Hk|]. right. by apply Hk.
  - intros q. rewrite Hat. unfold upd. destruct (decide (q = p)) as [->|Hq]; [done|]. apply (chain_frame (cells s)); [done|]. intros x Hx. apply Hce.
    intros Hx'. destruct (Hfr q x Hx) as [Hq' Hxq]. apply Hq. by eapply objs_disj.
  - intros q x. unfold upd. destruct (decide (q = p)) as [->|Hq]; [|by apply Hfr]. intros Hx. split; [done|by apply Hin].
  - intros q Hq. rewrite Hat. unfold upd. destruct (decide (q = p)) as [->|Hne]; [done|]. by apply Hs, Hold.
Qed.

(** ** The operations of a slab *)

Lemma slab_allocate_wp S K Fl s p : slabs_inv S K Fl s -> p ∈ S ->
  wp (slab_allocate p) (fun o s' =>
    match Fl p with
    | [] => o = None /\ s' = s
    | x :: l => o = Some x /\ slabs_inv S K (upd Fl p l) s' /\ cells s' = <[x := Unlinked]> (cells s) /\ frames s' = frames s
    end) never s.
Proof.
  intros Hi Hp. unfold slab_allocate. apply wp_bind. unfold wp at 1, get. apply wp_bind.
  pose proof (si_chain _ _ _ _ Hi p) as Hc. pose proof (si_slab _ _ _ _ Hi p Hp) as (Hs1 & Hs2 & Hs3).
  destruct (slab_facts _ _ _ _ _ Hi Hp) as (Hal & _). eapply wp_mono; [by apply pop_wp| |done]. intros [r nx] s1. cbn [fst snd].
  destruct (Fl p) as [|x l] eqn:Hl; [intros [[= -> ->] ->]; by apply wp_ret|]. intros (-> & -> & Hch).
  cbn [length] in Hs2. apply wp_bind, wp_assert; [apply Z.leb_le; lia|]. apply wp_bind. unfold wp, set_slab, modify, ret. cbn [cells frames upd_cell].
  split; [done|]. split; [|done]. assert (Hx : x ∈ objs p) by (apply (si_free _ _ _ _ Hi p x); rewrite Hl; by left).
  eapply (slabs_change S S K Fl s _ p l (mkSlab _ nx _ _) Hi Hal); [apply Hi|by left|done| |exact Hch| |].
  - intros y Hy. cbn. rewrite lookup_insert_ne; [done|]. by intros ->.
  - intros y Hy. apply (si_free _ _ _ _ Hi p y). rewrite Hl. by right.
  - cbn. split; [done|]. split; [lia|done].
Qed.

Lemma slab_deallocate_wp S K Fl s p x : slabs_inv S K Fl s -> p ∈ S -> x ∈ objs p -> cells s !! x = Some Unlinked ->
  wp (slab_deallocate p x) (fun _ s' => slabs_inv S K (upd Fl p (x :: Fl p)) s' /\ frames s' = frames s /\
    (forall y, y <> x -> cells s' !! y = cells s !! y)) never s.
Proof.
  intros Hi Hp Hx Hu. unfold slab_deallocate. apply wp_bind. unfold wp at 1, get. apply wp_bind.
  pose proof (si_chain _ _ _ _ Hi p) as Hc. pose proof (si_slab _ _ _ _ Hi p Hp) as (Hs1 & Hs2 & Hs3).
  destruct (slab_facts _ _ _ _ _ Hi Hp) as (Hal & _). eapply wp_mono; [by apply push_wp| |done]. intros h s1 [-> Hch].
  unfold wp, set_slab, modify. assert (Hne : forall y, y <> x -> cells (upd_cell s x (Linked (slab_free_list (slab_at s p)))) !! y = cells s !! y).
  { intros y Hy. cbn. by apply lookup_insert_ne. }
  split; [|split; [done|exact Hne]].
  eapply (slabs_change S S K Fl s _ p (x :: Fl p) (mkSlab _ h _ _) Hi Hal); [apply Hi|by left|done| |exact Hch| |].
  - intros y Hy. apply Hne. by intros ->.
  - intros y. rewrite elem_of_cons. intros [->|Hy]; [done|]. by apply (si_free _ _ _ _ Hi p y).
  - cbn [slab_obj_sz slab_nr_free slab_num_objs length]. split; [done|]. split; [lia|done].
Qed.

Lemma on_frames_wp {B} (m : M A Empty_set B) (Q : B -> Frames A -> Prop) (R : Fault -> Frames A -> Prop) s :
  wp m (fun b a => Q b (mkFrames (slabs s) (cells s) a)) never (frames s) -> wp (on_frames m) Q R s.
Proof. unfold wp, on_frames. destruct (m (frames s)) as [[b|[]|] a]; auto. Qed.

Lemma slab_drop_wp S S' K Fl s p : slabs_inv S K Fl s -> p ∈ S -> p ∉ K -> NoDup S' -> (forall q, q ∈ S' <-> q ∈ S /\ q <> p) ->
  wp (slab_drop p) (fun _ s' => slabs_inv S' K Fl s' /\ cells s' = cells s /\ slabs s' = slabs s) never s.
Proof.
  intros Hi Hp HpK Hnd HS. unfold slab_drop. apply wp_bind. unfold wp at 1, get. apply on_frames_wp. destruct (slab_facts _ _ _ _ _ Hi Hp) as (_ & -> & _).
  eapply wp_mono; [eapply fa_free; [apply Hi|by eapply slab_block|]| |done].
  { rewrite elem_of_union. intros [HL|?]; [|done]. destruct (si_others _ _ _ _ Hi p HL) as [k Hk]. by rewrite (si_apart _ _ _ _ Hi p Hp) in Hk. }
  intros u fr Ha. cbn beta in Ha. clear u. split; [|done]. destruct Hi as [Hf Hn Hap Hk Ho Hc Hfr Hs]. split; try done.
  - cbn [frames]. rewrite (own_delete S S' p HS). rewrite delete_union in Ha. by rewrite (delete_id OB) in Ha by (by apply Hap).
  - intros q Hq. by apply Hap, HS.
  - intros q Hq. apply HS. split; [by apply Hk|]. by intros ->.
  - intros q Hq. by apply Hs, HS.
Qed.

(** Only the page allocator changes. *)
Lemma slabs_frames S K K' Fl s fr : slabs_inv S K Fl s -> fa_ok fr (OB ∪ own S) (OL ∪ K') -> (forall p, p ∈ K' -> p ∈ S) ->
  slabs_inv S K' Fl (mkFrames (slabs s) (cells s) fr).
Proof. intros [Hf Hn Ha Hk Ho Hc Hfr Hs] Hf' Hk'. by split. Qed.

Lemma link_wp S K Fl s p : slabs_inv S K Fl s -> p ∈ S -> p ∉ K ->
  wp (link_page p) (fun _ s' => slabs_inv S ({[p]} ∪ K) Fl s' /\ cells s' = cells s /\ slabs s' = slabs s) never s.
Proof.
  intros Hi Hp HpK. unfold link_page. apply wp_bind. unfold wp at 1, get. destruct (slab_facts _ _ _ _ _ Hi Hp) as (_ & _ & Hl).
  apply wp_bind, wp_assert; [by rewrite Hl, bool_decide_false|]. unfold wp, modify. split; [|done]. apply (slabs_frames S K); [done| |].
  - replace (OL ∪ ({[p]} ∪ K)) with ({[p]} ∪ (OL ∪ K)) by set_solver. eapply fa_link; [apply Hi|by eapply slab_block].
  - intros q. rewrite elem_of_union, elem_of_singleton. intros [->|Hq]; [done|by apply (si_linked _ _ _ _ Hi)].
Qed.

Lemma unlink_wp S K Fl s p : slabs_inv S K Fl s -> p ∈ S ->
  wp (unlink_page p) (fun _ s' => slabs_inv S (K ∖ {[p]}) Fl s' /\ cells s' = cells s /\ slabs s' = slabs s) never s.
Proof.
  intros Hi Hp. unfold unlink_page, wp, modify. split; [|done]. apply (slabs_frames S K); [done| |].
  - replace (OL ∪ K ∖ {[p]}) with ((OL ∪ K) ∖ {[p]}); [eapply fa_unlink; [apply Hi|by eapply slab_block]|].
    assert (p ∉ OL); [|set_solver]. intros HL. destruct (si_others _ _ _ _ Hi p HL) as [k Hk]. by rewrite (si_apart _ _ _ _ Hi p Hp) in Hk.
  - intros q Hq. apply (si_linked _ _ _ _ Hi). set_solver.
Qed.

Lemma init_objects_wp p r i h s : (i + r = per_slab)%nat -> chain (cells s) h (rev (objects p sz i)) ->
  wp (init_objects (S r) (p + sz * Z.of_nat i) sz (p + block_size ord) h (Z.of_nat i)) (fun res s' =>
    chain (cells s') res.1 (rev (objs p)) /\ res.2 = Z.of_nat per_slab /\ slabs s' = slabs s /\ frames s' = frames s /\
    (forall x, x ∉ objs p -> cells s' !! x = cells s !! x)) never s.
Proof.
  revert i h s. induction r as [|r IH]; intros i h s Hi Hc; cbn [init_objects].
  - pose proof (per_slab_next i). replace (p + sz * Z.of_nat i + sz <=? p + block_size ord) with false by (symmetry; apply Z.leb_gt; lia).
    apply wp_ret. cbn [fst snd]. assert (i = per_slab) as -> by lia. done.
  - pose proof (proj2 (per_slab_next i) ltac:(lia)). replace (p + sz * Z.of_nat i + sz <=? p + block_size ord) with true by (symmetry; apply Z.leb_le; lia).
    set (x := p + sz * Z.of_nat i). assert (Hx : x ∈ objs p) by (apply elem_of_objects; exists i; split; [lia|done]).
    assert (Hnew : x ∉ objects p sz i).
    { intros (j & Hj & He)%elem_of_objects. unfold x in He. destruct Hsz as (? & _). nia. }
    apply wp_bind, wp_set_cell, wp_bind. eapply wp_mono; [apply push_wp; [|apply lookup_insert_eq]| |done].
    { apply (chain_frame (cells s)); [exact Hc|]. intros y Hy. cbn. rewrite lookup_insert_ne; [done|]. intros <-. apply Hnew. by apply elem_of_rev. }
    intros h' s1 [-> Hc1]. replace (x + sz) with (p + sz * Z.of_nat (Datatypes.S i)) by (unfold x; lia). replace (Z.of_nat i + 1) with (Z.of_nat (Datatypes.S i)) by lia.
    eapply wp_mono; [apply (IH (Datatypes.S i) h'); [lia|]| |done].
    + rewrite objects_S, rev_app_distr. exact Hc1.
    + intros [h2 nr] s2 (E1 & E2 & E3 & E4 & E5). split; [done|]. split; [done|]. split; [done|]. split; [done|]. intros y Hy. rewrite E5 by done. cbn.
      rewrite !lookup_insert_ne; [done|by intros ->..].
Qed.

Lemma slab_new_wp S K Fl s : slabs_inv S K Fl s ->
  wp (slab_new ord sz) (fun o s' =>
    match o with
    | None => slabs_inv S K Fl s' /\ cells s' = cells s
    | Some p => p ∉ S /\ OB !! p = None /\ slabs_inv (p :: S) K (upd Fl p (rev (objs p))) s' /\
        slab_num_objs (slab_at s' p) = Z.of_nat per_slab /\ (forall x, x ∉ objs p -> cells s' !! x = cells s !! x)
    end) never s.
Proof.
  intros Hi. unfold slab_new. apply wp_bind, on_frames_wp. eapply wp_mono; [eapply fa_alloc; [apply Hi|apply Hsz]| |done].
  intros [p|] fr; [|intros Hf; apply wp_ret; split; [|done]; by apply (slabs_frames S K), (si_linked _ _ _ _ Hi)].
  intros (HB & HL & Hf). apply lookup_union_None in HB as [HpO HpS].
  assert (Hps : p ∉ S) by (intros Hp; assert (Hx : own S !! p = Some ord) by (by apply own_lookup); congruence).
  rewrite insert_union_r, <- own_cons in Hf by done.
  assert (Hal : aligned ord p). { eapply fa_block; [exact Hf|]. apply lookup_union_Some_raw. right. split; [done|]. apply own_lookup. split; [by left|done]. }
  apply wp_bind. unfold wp at 1, get. change (slab_at _ p) with (slab_at s p). apply wp_bind.
  eapply wp_mono; [apply (drop_wp _ (Fl p)), Hi| |done]. intros _ s1 (Hs1 & Hf1 & Hc1). cbn [slabs frames cells] in *. rewrite block_size_shift.
  apply wp_bind. pose proof (init_objects_wp p per_slab 0 None s1 eq_refl eq_refl) as Hin. change (p + sz * Z.of_nat 0) with (p + sz * 0) in Hin.
  rewrite Z.mul_0_r, Z.add_0_r in Hin. change (Z.of_nat 0) with 0 in Hin. eapply wp_mono; [exact Hin| |done]. clear Hin.
  intros [h nr] s2 (E1 & E2 & E3 & E4 & E5). cbn [fst snd] in *. subst nr. apply wp_bind. unfold wp, set_slab, modify, ret. split; [done|]. split; [done|].
  assert (Hcell : forall x, x ∉ objs p -> cells s2 !! x = cells s !! x).
  { intros x Hx. rewrite E5 by done. apply Hc1. intros Hx'. apply Hx. by apply (si_free _ _ _ _ Hi p x). }
  split; [|split; [unfold slab_at; cbn; by rewrite lookup_insert_eq|exact Hcell]].
  eapply (slabs_change S (p :: S) K Fl s _ p _ (mkSlab sz h _ _) Hi Hal); [cbn; by rewrite E4, Hf1|by right|cbn; by rewrite E3, Hs1|exact Hcell|exact E1| |].
  - intros x. apply elem_of_rev.
  - cbn [slab_obj_sz slab_nr_free slab_num_objs]. rewrite length_rev. unfold objs. by rewrite objects_length.
Qed.

Lemma slabs_perm S S' K Fl s : S ≡ₚ S' -> slabs_inv S K Fl s -> slabs_inv S' K Fl s.
Proof.
  intros Hp [Hf Hn Ha Hk Ho Hc Hfr Hs]. split; try done; [by rewrite <- (own_perm S S')|by rewrite <- Hp|..].
  - intros p. rewrite <- Hp. apply Ha.
  - intros p. rewrite <- Hp. apply Hk.
  - intros p. rewrite <- Hp. apply Hs.
Qed.

(** ** The objects that are in use *)

Definition active S Fl (As : gset Z) : Prop := forall x, x ∈ As <-> exists p, p ∈ S /\ x ∈ objs p /\ x ∉ Fl p.

Lemma slab_of S K Fl s p q x : slabs_inv S K Fl s -> p ∈ S -> q ∈ S -> x ∈ objs p -> x ∈ objs q -> p = q.
Proof. intros Hi Hp Hq. eapply objs_disj; by eapply slab_facts. Qed.

Lemma active_take S K Fl s As p x l : slabs_inv S K Fl s -> active S Fl As -> p ∈ S -> Fl p = x :: l ->
  x ∉ As /\ active S (upd Fl p l) ({[x]} ∪ As).
Proof.
  intros Hi Ha Hp Hl. pose proof (chain_NoDup _ _ _ (si_chain _ _ _ _ Hi p)) as Hnd. rewrite Hl in Hnd. apply NoDup_cons in Hnd as [Hn _].
  assert (Hx : x ∈ objs p) by (apply (si_free _ _ _ _ Hi p x); rewrite Hl; by left). split.
  - intros (q & Hq & Hxq & Hnq)%Ha. assert (q = p) as -> by (by eapply slab_of). apply Hnq. rewrite Hl. by left.
  - intros y. rewrite elem_of_union, elem_of_singleton, (Ha y). split.
    + intros [->|(q & Hq & Hy & Hnq)]; [exists p; by rewrite upd_eq|]. exists q. split; [done|]. split; [done|]. destruct (decide (q = p)) as [->|]; [|by rewrite upd_ne].
      rewrite upd_eq. rewrite Hl in Hnq. set_solver.
    + intros (q & Hq & Hy & Hnq). destruct (decide (y = x)) as [->|Hne]; [by left|right]. exists q. split; [done|]. split; [done|].
      destruct (decide (q = p)) as [->|]; [|by rewrite upd_ne in Hnq]. rewrite upd_eq in Hnq. rewrite Hl. set_solver.
Qed.

Lemma active_give S K Fl s As p x : slabs_inv S K Fl s -> active S Fl As -> p ∈ S -> x ∈ objs p -> active S (upd Fl p (x :: Fl p)) (As ∖ {[x]}).
Proof.
  intros Hi Ha Hp Hx y. rewrite elem_of_difference, elem_of_singleton, (Ha y). split.
  - intros [(q & Hq & Hy & Hnq) Hne]. exists q. split; [done|]. split; [done|]. destruct (decide (q = p)) as [->|]; [rewrite upd_eq; set_solver|by rewrite upd_ne].
  - intros (q & Hq & Hy & Hnq). destruct (decide (q = p)) as [->|Hqp].
    + rewrite upd_eq in Hnq. split; [exists p; set_solver|set_solver].
    + rewrite upd_ne in Hnq by done. split; [by exists q|]. intros ->. apply Hqp. by eapply slab_of.
Qed.

Lemma all_free S K Fl s p x : slabs_inv S K Fl s -> length (Fl p) = per_slab -> x ∈ objs p -> x ∈ Fl p.
Proof.
  intros Hi Hl Hx. assert (Hp : Fl p ≡ₚ objs p); [|by rewrite Hp]. apply submseteq_length_Permutation; [|unfold objs; rewrite objects_length; lia].
  apply NoDup_submseteq; [by eapply chain_NoDup, Hi|]. intros y Hy. by apply (si_free _ _ _ _ Hi p y).
Qed.

Lemma active_new S K Fl s As p : slabs_inv (p :: S) K (upd Fl p (rev (objs p))) s -> active S Fl As -> active (p :: S) (upd Fl p (rev (objs p))) As.
Proof.
  intros Hi Ha x. rewrite (Ha x). pose proof (si_nodup _ _ _ _ Hi) as Hnd. apply NoDup_cons in Hnd as [Hp _]. split.
  - intros (q & Hq & Hx & Hn). exists q. split; [by right|]. split; [done|]. rewrite upd_ne; [done|]. by intros ->.
  - intros (q & [->|Hq]%elem_of_cons & Hx & Hn); [rewrite upd_eq, elem_of_rev in Hn; done|]. exists q. split; [done|]. split; [done|].
    rewrite upd_ne in Hn; [done|]. by intros ->.
Qed.

Lemma active_drop S S' K Fl s As p : slabs_inv S K Fl s -> active S Fl As -> length (Fl p) = per_slab -> (forall q, q ∈ S' <-> q ∈ S /\ q <> p) -> active S' Fl As.
Proof.
  intros Hi Ha Hl HS x. rewrite (Ha x). split; intros (q & Hq & Hx & Hn); (exists q; split; [|done]).
  - apply HS. split; [done|]. intros ->. apply Hn. by eapply all_free.
  - by apply HS.
Qed.
End slabs.

(** ** The lists of slabs *)

Definition current (c : SlabMemCache) : list Z := slabs_full c ++ slabs_empty c ++ slabs_partial c.

Section mem.
Context {A : Type} `{FrameLaws A} (ord : nat) (sz : Z) (OB : gmap Z nat) (OL : gset Z).
Context (Hsz : sizes_ok ord sz).
Implicit Types (s : Frames A) (c : SlabMemCache) (Fl : Z -> list Z) (As : gset Z).
#[local] Notation n := (per_slab ord sz).
#[local] Notation sinv := (slabs_inv ord sz OB OL).

(** [As] are the objects that are in use. *)
Record mem_inv c Fl As s : Prop := {
  mi_ord : pgforder c = ord;
  mi_sz : object_sz c = sz;
  mi_slabs : sinv (current c) (list_to_set (current c)) Fl s;
  mi_full p : p ∈ slabs_full c -> Fl p = [];
  mi_empty p : p ∈ slabs_empty c -> length (Fl p) = n;
  mi_partial p : p ∈ slabs_partial c -> (0 < length (Fl p) < n)%nat;
  mi_active : active ord sz (current c) Fl As;
  mi_count : active_objs c = Z.of_nat (base.size As);
  mi_objs : num_objs c = Z.of_nat n * Z.of_nat (length (current c));
  mi_total : total_slabs c = Z.of_nat (length (current c));
  mi_len : slabs_empty_len c = Z.of_nat (length (slabs_empty c))
}.

(** Memory that a step leaves alone: that of users and of others. *)
Definition kept As s s' : Prop := forall x, x ∈ As \/ covers OB x -> cells s' !! x = cells s !! x.

Lemma kept_seq As s s1 s2 : kept As s s1 -> kept As s1 s2 -> kept As s s2.
Proof. intros H1 H2 x Hx. by rewrite H2, H1. Qed.

(** A slab that moves from one list to another. *)
Definition moved c p c' : Prop :=
  (forall q, q ∈ slabs_full c' -> q = p \/ q ∈ slabs_full c) /\ (forall q, q ∈ slabs_empty c' -> q = p \/ q ∈ slabs_empty c) /\
  (forall q, q ∈ slabs_partial c' -> q = p \/ q ∈ slabs_partial c).

(** The class of a slab with free list [l]. *)
Definition in_class c p (l : list Z) : Prop :=
  (p ∈ slabs_full c -> l = []) /\ (p ∈ slabs_empty c -> length l = n) /\ (p ∈ slabs_partial c -> (0 < length l < n)%nat).

Lemma mem_build c c' Fl As As' l p s s' : mem_inv c Fl As s -> sinv (current c') (list_to_set (current c')) (upd Fl p l) s' ->
  moved c p c' -> in_class c' p l -> active ord sz (current c') (upd Fl p l) As' ->
  (pgforder c' = pgforder c /\ object_sz c' = object_sz c /\ active_objs c' = Z.of_nat (base.size As') /\
   num_objs c' = Z.of_nat n * Z.of_nat (length (current c')) /\ total_slabs c' = Z.of_nat (length (current c')) /\ slabs_empty_len c' = Z.of_nat (length (slabs_empty c'))) ->
  mem_inv c' (upd Fl p l) As' s'.
Proof.
  intros [Ho Hs _ Hf He Hp _ _ _ _ _] Hi (Mf & Me & Mp) (Cf & Ce & Cp) Ha (E1 & E2 & E3 & E4 & E5 & E6). split; try done; try congruence.
  - intros q Hq. unfold upd. destruct (decide (q = p)) as [->|Hne]; [by apply Cf|]. apply Hf. by destruct (Mf q Hq).
  - intros q Hq. unfold upd. destruct (decide (q = p)) as [->|Hne]; [by apply Ce|]. apply He. by destruct (Me q Hq).
  - intros q Hq. unfold upd. destruct (decide (q = p)) as [->|Hne]; [by apply Cp|]. apply Hp. by destruct (Mp q Hq).
Qed.

(** The lists have different slabs. *)
Lemma lists_apart c Fl As s p : mem_inv c Fl As s ->
  ((p ∈ slabs_full c -> p ∉ slabs_empty c /\ p ∉ slabs_partial c) /\ (p ∈ slabs_empty c -> p ∉ slabs_partial c)) /\
  NoDup (slabs_full c) /\ NoDup (slabs_empty c) /\ NoDup (slabs_partial c).
Proof.
  intros Hm. pose proof (si_nodup _ _ _ _ _ _ _ _ (mi_slabs _ _ _ _ Hm)) as Hnd. unfold current in Hnd.
  apply NoDup_app in Hnd as (N1 & D1 & (N2 & D2 & N3)%NoDup_app). split; [|done]. split.
  - intros Hp. specialize (D1 p Hp). set_solver.
  - intros Hp. by apply D2.
Qed.

Lemma full_test S K Fl s p : sinv S K Fl s -> slab_is_full s p = match Fl p with [] => true | _ => false end.
Proof.
  intros Hi. unfold slab_is_full. pose proof (si_chain _ _ _ _ _ _ _ _ Hi p) as Hc. destruct (Fl p) as [|x l]; [by rewrite Hc|]. by destruct Hc as [-> _].
Qed.

Lemma empty_test S K Fl s p : sinv S K Fl s -> p ∈ S -> slab_is_empty s p = bool_decide (length (Fl p) = n).
Proof.
  intros Hi Hp. unfold slab_is_empty. destruct (si_slab _ _ _ _ _ _ _ _ Hi p Hp) as (_ & -> & ->). destruct (Z.eqb_spec (Z.of_nat n) (Z.of_nat (length (Fl p)))); symmetry; [apply bool_decide_true|apply bool_decide_false]; lia.
Qed.

(** ** Allocation from the slabs *)

(** What an allocation has done. *)
Definition got As s (o : option Z) (cs : SlabMemCache * Frames A) : Prop :=
  kept As s cs.2 /\
  match o with
  | Some x => x ∉ As /\ cells cs.2 !! x = Some Unlinked /\ exists Fl', mem_inv cs.1 Fl' ({[x]} ∪ As) cs.2
  | None => exists Fl', mem_inv cs.1 Fl' As cs.2
  end.

Lemma take_kept c Fl As s s' p x l : mem_inv c Fl As s -> p ∈ current c -> Fl p = x :: l -> cells s' = <[x := Unlinked]> (cells s) -> kept As s s'.
Proof.
  intros Hm Hp Hl Hc y Hy. rewrite Hc. apply lookup_insert_ne. intros <-. pose proof (mi_slabs _ _ _ _ Hm) as Hi.
  destruct (active_take ord sz OB OL Hsz _ _ _ _ _ p x l Hi (mi_active _ _ _ _ Hm) Hp Hl) as [Hn _]. destruct Hy as [Hy|Hy]; [done|].
  eapply (slab_not_others ord sz OB OL Hsz); [exact Hi|exact Hp| |exact Hy]. apply (si_free _ _ _ _ _ _ _ _ Hi p x). rewrite Hl. by left.
Qed.

Lemma relink K (p : Z) : p ∈ K -> {[p]} ∪ K ∖ {[p]} = K :> gset Z.
Proof. intros Hp. apply set_eq. intros x. rewrite elem_of_union, elem_of_difference, elem_of_singleton. destruct (decide (x = p)) as [->|]; naive_solver. Qed.

Lemma in_current c p : p ∈ current c <-> p ∈ slabs_full c \/ p ∈ slabs_empty c \/ p ∈ slabs_partial c.
Proof. unfold current. by rewrite !elem_of_app. Qed.

Lemma sinv_set S K K' Fl s : K = K' -> sinv S K Fl s -> sinv S K' Fl s.
Proof. by intros ->. Qed.

Lemma linked_perm S S' : S ≡ₚ S' -> list_to_set S = list_to_set S' :> gset Z.
Proof. intros Hp. apply set_eq. intros x. by rewrite !elem_of_list_to_set, Hp. Qed.

Lemma allocate_partial_wp c Fl As s p lp : mem_inv c Fl As s -> slabs_partial c = p :: lp -> wp allocate (got As s) never (c, s).
Proof.
  intros Hm Hlp. unfold allocate. apply wp_bind, wp_focus. rewrite Hlp. pose proof (mi_slabs _ _ _ _ Hm) as Hi.
  assert (Hpp : p ∈ slabs_partial c) by (rewrite Hlp; by left). assert (Hp : p ∈ current c) by (apply in_current; tauto).
  destruct (mi_partial _ _ _ _ Hm p Hpp) as [Hpos Hlt]. destruct (Fl p) as [|x l] eqn:Hl; [cbn in Hpos; lia|]. cbn [length] in Hlt.
  apply wp_bind, wp_lifted. eapply wp_mono; [by apply (slab_allocate_wp ord sz OB OL Hsz _ _ _ _ p Hi)| |done]. rewrite Hl.
  intros o s1 (-> & Hi1 & Hc1 & _). apply wp_bind, wp_ret, wp_bind, wp_lifted. unfold wp at 1, get. rewrite (full_test _ _ _ _ p Hi1), upd_eq.
  destruct (active_take ord sz OB OL Hsz _ _ _ _ _ p x l Hi (mi_active _ _ _ _ Hm) Hp Hl) as [Hn Ha].
  assert (Hsize : Z.of_nat (base.size ({[x]} ∪ As)) = active_objs c + 1) by (rewrite size_union, size_singleton, (mi_count _ _ _ _ Hm) by set_solver; lia).
  pose proof (take_kept c Fl As s s1 p x l Hm Hp Hl Hc1) as Hk. destruct (lists_apart c Fl As s p Hm) as [[Hx1 Hx2] _]. apply wp_bind. destruct l as [|y l].
  - apply wp_bind, wp_lifted. eapply wp_mono; [by apply (unlink_wp ord sz OB OL Hsz _ _ _ _ p Hi1)| |done]. intros _ s2 (Hi2 & Hc2 & _).
    apply wp_bind. unfold wp at 1, modify_cache, bind, get_focus, put_focus. unfold push_full. apply wp_bind, wp_lifted.
    eapply wp_mono; [apply (link_wp ord sz OB OL Hsz _ _ _ _ p Hi2); [done|set_solver]| |done]. intros _ s3 (Hi3 & Hc3 & _).
    rewrite relink in Hi3 by (by apply elem_of_list_to_set). unfold wp at 1, modify_cache, bind, get_focus, put_focus.
    split; cbn [fst snd]; [intros z Hz; rewrite Hc3, Hc2; by apply Hk|]. split; [done|]. split; [rewrite Hc3, Hc2, Hc1; apply lookup_insert_eq|].
    exists (upd Fl p []). set (c' := set_active _ _). assert (Hperm : current c ≡ₚ current c').
    { unfold current, c'. cbn. rewrite Hlp. solve_Permutation. }
    apply (mem_build c c' Fl As _ [] p s s3 Hm).
    + rewrite <- (linked_perm _ _ Hperm). by apply (slabs_perm ord sz OB OL (current c)).
    + unfold moved, c'. cbn. rewrite Hlp. set_solver.
    + unfold in_class, c'. cbn. split; [done|]. split; [intros He; by apply Hx2 in He|]. intros Hq.
      pose proof (lists_apart c Fl As s p Hm) as (_ & _ & _ & Hnd). rewrite Hlp in Hnd. by apply NoDup_cons in Hnd as [? _].
    + intros z. rewrite (Ha z). by setoid_rewrite Hperm.
    + rewrite <- Hperm. unfold c'. cbn. rewrite (mi_objs _ _ _ _ Hm), (mi_total _ _ _ _ Hm), (mi_len _ _ _ _ Hm). done.
  - unfold wp at 1, ret. unfold wp, modify_cache, bind, get_focus, put_focus, ret.
    split; cbn [fst snd]; [done|]. split; [done|]. split; [rewrite Hc1; apply lookup_insert_eq|].
    exists (upd Fl p (y :: l)). apply (mem_build c _ Fl As _ (y :: l) p s s1 Hm); [done| | |done|].
    + unfold moved. cbn. tauto.
    + unfold in_class. cbn. split; [intros Hq; by destruct (Hx1 Hq)|]. split; [intros Hq; by apply Hx2 in Hq|]. cbn in Hlt. lia.
    + cbn. rewrite (mi_objs _ _ _ _ Hm), (mi_total _ _ _ _ Hm), (mi_len _ _ _ _ Hm). done.
Qed.

Lemma take_empty_wp m c Fl As s p le : mem_inv c Fl As s -> slabs_empty c = p :: le -> wp (allocate_loop (S m)) (got As s) never (c, s).
Proof.
  intros Hm Hle. cbn [allocate_loop]. apply wp_bind, wp_focus. rewrite Hle. pose proof (mi_slabs _ _ _ _ Hm) as Hi.
  assert (Hpe : p ∈ slabs_empty c) by (rewrite Hle; by left). assert (Hp : p ∈ current c) by (apply in_current; tauto).
  pose proof (mi_empty _ _ _ _ Hm p Hpe) as Hlen. pose proof (per_slab_pos ord sz Hsz) as Hpos. destruct (Fl p) as [|x l] eqn:Hl; [cbn in Hlen; lia|]. cbn [length] in Hlen.
  apply wp_bind, wp_lifted. eapply wp_mono; [by apply (unlink_wp ord sz OB OL Hsz _ _ _ _ p Hi)| |done]. intros _ s1 (Hi1 & Hc1 & _).
  apply wp_bind, wp_lifted, wp_assert; [apply Z.leb_le; rewrite (mi_len _ _ _ _ Hm), Hle; cbn [length]; lia|]. apply wp_bind, wp_refocus, wp_bind, wp_lifted.
  eapply wp_mono; [by apply (slab_allocate_wp ord sz OB OL Hsz _ _ _ _ p Hi1)| |done]. rewrite Hl.
  intros o s2 (-> & Hi2 & Hc2 & _). apply wp_bind, wp_ret, wp_bind, wp_lifted. unfold wp at 1, get. rewrite (full_test _ _ _ _ p Hi2), upd_eq.
  destruct (active_take ord sz OB OL Hsz _ _ _ _ _ p x l Hi (mi_active _ _ _ _ Hm) Hp Hl) as [Hn Ha].
  assert (Hsize : Z.of_nat (base.size ({[x]} ∪ As)) = active_objs c + 1) by (rewrite size_union, size_singleton, (mi_count _ _ _ _ Hm) by set_solver; lia).
  rewrite Hc1 in Hc2. pose proof (take_kept c Fl As s s2 p x l Hm Hp Hl Hc2) as Hk. destruct (lists_apart c Fl As s p Hm) as [[Hx1 Hx2] (_ & Hnd & _)].
  rewrite Hle in Hnd. apply NoDup_cons in Hnd as [Hpn _].
  assert (Hlink : wp (link_page p) (fun _ s' => sinv (current c) (list_to_set (current c)) (upd Fl p l) s' /\ cells s' = cells s2) never s2).
  { eapply wp_mono; [apply (link_wp ord sz OB OL Hsz _ _ _ _ p Hi2); [done|set_solver]| |done]. intros _ s3 (Hi3 & Hc3 & _).
    by rewrite relink in Hi3 by (by apply elem_of_list_to_set). }
  assert (Hdone : forall c' s3, sinv (current c) (list_to_set (current c)) (upd Fl p l) s3 -> cells s3 = cells s2 -> current c ≡ₚ current c' -> moved c p c' -> in_class c' p l ->
    (pgforder c' = pgforder c /\ object_sz c' = object_sz c /\ active_objs c' = active_objs c + 1 /\ num_objs c' = num_objs c /\ total_slabs c' = total_slabs c /\
     slabs_empty_len c' = slabs_empty_len c - 1 /\ slabs_empty c' = le) -> got As s (Some x) (c', s3)).
  { intros c' s3 Hi3 Hc3 Hperm Hmv Hcl (E1 & E2 & E3 & E4 & E5 & E6 & E7). split; cbn [fst snd]; [intros z Hz; rewrite Hc3; by apply Hk|]. split; [done|].
    split; [rewrite Hc3, Hc2; apply lookup_insert_eq|]. exists (upd Fl p l). apply (mem_build c c' Fl As _ l p s s3 Hm); [|done|done| |].
    - rewrite <- (linked_perm _ _ Hperm). by apply (slabs_perm ord sz OB OL (current c)).
    - intros z. rewrite (Ha z). by setoid_rewrite Hperm.
    - rewrite <- Hperm, E1, E2, E3, E4, E5, E6, E7, Hsize, (mi_objs _ _ _ _ Hm), (mi_total _ _ _ _ Hm), (mi_len _ _ _ _ Hm), Hle. cbn [length]. split_and!; lia. }
  destruct l as [|y l].
  - apply wp_bind. unfold push_full. apply wp_bind, wp_lifted. eapply wp_mono; [exact Hlink| |done]. intros _ s3 [Hi3 Hc3].
    unfold wp, modify_cache, bind, get_focus, put_focus, ret. apply Hdone; [done|done| | | |done].
    + unfold current. cbn. rewrite Hle. solve_Permutation.
    + unfold moved. cbn. rewrite Hle. set_solver.
    + unfold in_class. cbn. split; [done|]. split; [done|]. intros Hq. by apply Hx2 in Hpe.
  - apply wp_bind. unfold push_partial. apply wp_bind, wp_lifted. eapply wp_mono; [exact Hlink| |done]. intros _ s3 [Hi3 Hc3].
    unfold wp, modify_cache, bind, get_focus, put_focus, ret. apply Hdone; [done|done| | | |done].
    + unfold current. cbn. rewrite Hle. solve_Permutation.
    + unfold moved. cbn. rewrite Hle. set_solver.
    + unfold in_class. cbn. split; [intros Hq; by destruct (Hx1 Hq)|]. split; [done|]. cbn in Hlen. lia.
Qed.

Lemma mem_same c Fl As s s' : mem_inv c Fl As s -> sinv (current c) (list_to_set (current c)) Fl s' -> mem_inv c Fl As s'.
Proof. intros [] ?. by split. Qed.

Lemma new_slab_wp m c Fl As s : mem_inv c Fl As s -> slabs_empty c = [] -> wp (allocate_loop (S (S m))) (got As s) never (c, s).
Proof.
  intros Hm He. cbn [allocate_loop]. apply wp_bind, wp_focus. rewrite He, (mi_ord _ _ _ _ Hm), (mi_sz _ _ _ _ Hm). pose proof (mi_slabs _ _ _ _ Hm) as Hi.
  apply wp_bind, wp_lifted. eapply wp_mono; [by apply (slab_new_wp ord sz OB OL Hsz _ _ _ s Hi)| |done]. intros [p|] s1.
  2:{ intros [Hi1 Hc1]. apply wp_ret. split; cbn [fst snd]; [intros x _; by rewrite Hc1|]. exists Fl. by eapply mem_same. }
  intros (Hp & HpO & Hi1 & Hnr & Hc1). apply wp_bind. unfold push_empty. apply wp_bind, wp_lifted.
  assert (HpK : p ∉ list_to_set (C := gset Z) (current c)) by (by rewrite elem_of_list_to_set).
  eapply wp_mono; [apply (link_wp ord sz OB OL Hsz _ _ _ _ p Hi1); [by left|done]| |done]. intros _ s2 (Hi2 & Hc2 & Hs2).
  unfold wp at 1, modify_cache, bind, get_focus, put_focus. apply wp_bind, wp_lifted. unfold wp at 1, get.
  replace (slab_num_objs (slab_at s2 p)) with (Z.of_nat n) by (unfold slab_at in *; rewrite Hs2; done).
  apply wp_bind. unfold wp at 1, modify_cache, bind, get_focus, put_focus. match goal with |- wp _ _ _ (?x, _) => set (c' := x) end.
  assert (Hperm : p :: current c ≡ₚ current c') by (unfold current, c'; cbn; rewrite He; solve_Permutation).
  pose proof (per_slab_pos ord sz Hsz). assert (Hlen : length (rev (objs ord sz p)) = n) by (rewrite length_rev; apply objects_length).
  assert (Hm' : mem_inv c' (upd Fl p (rev (objs ord sz p))) As s2).
  { apply (mem_build c c' Fl As As _ p s s2 Hm).
    - rewrite <- (linked_perm _ _ Hperm), list_to_set_cons. by apply (slabs_perm ord sz OB OL (p :: current c)).
    - unfold moved, c'. cbn. rewrite He. set_solver.
    - rewrite in_current in Hp. unfold in_class, c'. cbn. rewrite He. split; [tauto|]. split; [done|tauto].
    - intros x. pose proof (active_new ord sz OB OL _ _ _ _ As p Hi1 (mi_active _ _ _ _ Hm) x) as Hx. rewrite Hx. by setoid_rewrite Hperm.
    - rewrite <- Hperm. unfold c'. cbn. rewrite He, (mi_count _ _ _ _ Hm), (mi_objs _ _ _ _ Hm), (mi_total _ _ _ _ Hm), (mi_len _ _ _ _ Hm), He. cbn [length]. split_and!; lia. }
  assert (Hk : kept As s s2).
  { intros x Hx. rewrite Hc2. apply Hc1. intros Hxp. destruct Hx as [Hx|Hx]; [|by eapply (slab_not_others ord sz OB OL Hsz); [exact Hi1|left|..]].
    apply (mi_active _ _ _ _ Hm) in Hx as (q & Hq & Hxq & _). apply Hp. assert (p = q) as ->; [|done]. eapply (slab_of ord sz OB OL Hsz); [exact Hi1|by left|by right|done|done]. }
  eapply wp_mono; [eapply (take_empty_wp m c'); [exact Hm'|unfold c'; cbn; by rewrite He]| |done]. intros o cs [Hk' Ho]. split; [by eapply kept_seq|done].
Qed.

Lemma allocate_wp c Fl As s : mem_inv c Fl As s -> wp allocate (got As s) never (c, s).
Proof.
  intros Hm. destruct (slabs_partial c) as [|p lp] eqn:Hlp; [|by eapply allocate_partial_wp]. unfold allocate. apply wp_bind, wp_focus. rewrite Hlp.
  destruct (slabs_empty c) as [|p le] eqn:Hle; [by eapply new_slab_wp|by eapply take_empty_wp].
Qed.

(** ** Returning objects to the slabs *)

Lemma remove_perm p l : NoDup l -> p ∈ l -> l ≡ₚ p :: remove_slab p l.
Proof.
  intros Hnd Hp. unfold remove_slab. apply NoDup_Permutation; [done| |].
  - constructor; [rewrite list_elem_of_filter; tauto|by apply NoDup_filter].
  - intros q. rewrite elem_of_cons, list_elem_of_filter. destruct (decide (q = p)) as [->|]; tauto.
Qed.

Lemma elem_of_remove p q l : q ∈ remove_slab p l <-> q ∈ l /\ q <> p.
Proof. unfold remove_slab. rewrite list_elem_of_filter. tauto. Qed.

Lemma shrink_loop_wp k c Fl As s : mem_inv c Fl As s -> (k <= length (slabs_empty c))%nat ->
  wp (shrink_loop k) (fun _ cs => cells cs.2 = cells s /\ mem_inv cs.1 Fl As cs.2) never (c, s).
Proof.
  revert c s. induction k as [|k IH]; intros c s Hm Hk; cbn [shrink_loop]; [by apply wp_ret|]. apply wp_bind, wp_focus.
  destruct (slabs_empty c) as [|p l] eqn:Hle; [cbn in Hk; lia|]. pose proof (mi_slabs _ _ _ _ Hm) as Hi.
  assert (Hpe : p ∈ slabs_empty c) by (rewrite Hle; by left). assert (Hp : p ∈ current c) by (apply in_current; tauto).
  apply wp_bind, wp_lifted. eapply wp_mono; [by apply (unlink_wp ord sz OB OL Hsz _ _ _ _ p Hi)| |done]. intros _ s1 (Hi1 & Hc1 & Hs1).
  apply wp_bind, wp_lifted. unfold wp at 1, get. destruct (si_slab _ _ _ _ _ _ _ _ Hi1 p Hp) as (_ & _ & ->).
  set (S' := slabs_full c ++ l ++ slabs_partial c). assert (Hperm : current c ≡ₚ p :: S') by (unfold current, S'; rewrite Hle; solve_Permutation).
  pose proof (mi_objs _ _ _ _ Hm) as Eo. pose proof (mi_total _ _ _ _ Hm) as Et. pose proof (mi_len _ _ _ _ Hm) as El. rewrite Hperm in Eo, Et. rewrite Hle in El. cbn [length] in *.
  apply wp_bind, wp_lifted, wp_assert; [rewrite !andb_true_iff, !Z.leb_le; nia|]. apply wp_bind, wp_refocus, wp_bind, wp_lifted.
  pose proof (si_nodup _ _ _ _ _ _ _ _ Hi) as Hnd. rewrite Hperm in Hnd. apply NoDup_cons in Hnd as [HpS HndS].
  assert (HS : forall q, q ∈ S' <-> q ∈ current c /\ q <> p).
  { intros q. rewrite Hperm, elem_of_cons. split; [|naive_solver]. intros Hq. split; [by right|]. by intros ->. }
  eapply wp_mono; [apply (slab_drop_wp ord sz OB OL _ S' _ _ _ p Hi1); [done|set_solver|done|done]| |done]. intros _ s2 (Hi2 & Hc2 & Hs2).
  match goal with |- wp _ _ _ (?y, _) => set (c' := y) end. assert (Hcur : current c' = S') by done.
  assert (Hm' : mem_inv c' Fl As s2).
  { destruct Hm as [Ho Hz _ Hf Hem Hpa Ha Hcn _ _ _]. split; try done.
    - rewrite Hcur. replace (list_to_set (current c) ∖ {[p]}) with (list_to_set (C := gset Z) S') in Hi2; [done|].
      apply set_eq. intros q. rewrite elem_of_difference, !elem_of_list_to_set, elem_of_singleton. apply HS.
    - intros q Hq. apply Hem. rewrite Hle. by right.
    - rewrite Hcur. eapply active_drop; [exact Hi|exact Ha|by apply Hem|done].
    - rewrite Hcur. change (num_objs c') with (num_objs c - Z.of_nat n). rewrite Eo. lia.
    - rewrite Hcur. change (total_slabs c') with (total_slabs c - 1). lia.
    - change (slabs_empty_len c') with (slabs_empty_len c - 1). change (slabs_empty c') with l. lia. }
  eapply wp_mono; [apply (IH c' s2 Hm'); unfold c'; cbn; cbn in Hk; lia| |done]. intros _ cs [E1 E2]. split; [by rewrite E1, Hc2, Hc1|done].
Qed.

Lemma maybe_shrink_wp c Fl As s : mem_inv c Fl As s -> wp maybe_shrink_empty_slabs (fun _ cs => cells cs.2 = cells s /\ mem_inv cs.1 Fl As cs.2) never (c, s).
Proof.
  intros Hm. unfold maybe_shrink_empty_slabs. apply wp_bind, wp_focus. destruct (Z.ltb_spec 8 (slabs_empty_len c)) as [Hl|Hl]; [|by apply wp_ret].
  apply shrink_loop_wp; [done|]. rewrite (mi_len _ _ _ _ Hm) in Hl. lia.
Qed.

Lemma contains_iff S K Fl s p x : sinv S K Fl s -> p ∈ S -> slab_contains s p x = true <-> p <= x /\ x + sz <= p + block_size ord.
Proof.
  intros Hi Hp. unfold slab_contains. destruct (slab_facts ord sz OB OL _ _ _ _ _ Hi Hp) as (_ & -> & _). destruct (si_slab _ _ _ _ _ _ _ _ Hi p Hp) as (-> & _).
  rewrite block_size_shift, andb_true_iff, !Z.leb_le. done.
Qed.

Lemma find_slab_spec S K Fl s p x l : sinv S K Fl s -> p ∈ S -> x ∈ objs ord sz p -> (forall q, q ∈ l -> q ∈ S) ->
  find_slab s x l = if decide (p ∈ l) then Some p else None.
Proof.
  intros Hi Hp Hx Hl. pose proof (objs_in_block ord sz Hsz p x Hx) as Hin. assert (Hc : slab_contains s p x = true) by (by eapply contains_iff).
  induction l as [|q l IH]; [rewrite decide_False by apply not_elem_of_nil; done|]. cbn [find_slab]. assert (Hq : q ∈ S) by (apply Hl; by left).
  destruct (decide (q = p)) as [->|Hne]; [rewrite Hc, decide_True by (by left); done|]. destruct (slab_contains s q x) eqn:Hcq.
  - exfalso. apply Hne. apply (contains_iff S K Fl s q x Hi Hq) in Hcq. destruct Hsz as (? & _).
    apply (aligned_same ord q p x); [by eapply slab_facts..|unfold in_block; lia|unfold in_block; lia].
  - rewrite IH by (intros r Hr; apply Hl; by right). apply decide_ext. rewrite elem_of_cons. naive_solver.
Qed.

(** What returning the object [x] has done. *)
Definition gave As (x : Z) s (cs : SlabMemCache * Frames A) : Prop :=
  kept (As ∖ {[x]}) s cs.2 /\ exists Fl', mem_inv cs.1 Fl' (As ∖ {[x]}) cs.2.

(** The slab [p] of [x] has taken it back and is in one of the lists. *)
Lemma give_build c c' Fl As s s' p x : mem_inv c Fl As s -> p ∈ current c -> x ∈ objs ord sz p -> x ∈ As ->
  sinv (current c) (list_to_set (current c)) (upd Fl p (x :: Fl p)) s' -> (forall y, y <> x -> cells s' !! y = cells s !! y) ->
  current c ≡ₚ current c' -> moved c p c' -> in_class c' p (x :: Fl p) ->
  (pgforder c' = pgforder c /\ object_sz c' = object_sz c /\ active_objs c' = active_objs c - 1 /\ num_objs c' = num_objs c /\ total_slabs c' = total_slabs c /\
   slabs_empty_len c' = Z.of_nat (length (slabs_empty c'))) ->
  kept (As ∖ {[x]}) s s' /\ mem_inv c' (upd Fl p (x :: Fl p)) (As ∖ {[x]}) s'.
Proof.
  intros Hm Hp Hx HxA Hi' Hc Hperm Hmv Hcl (E1 & E2 & E3 & E4 & E5 & E6). pose proof (mi_slabs _ _ _ _ Hm) as Hi. split.
  - intros y Hy. apply Hc. intros ->. destruct Hy as [Hy|Hy]; [set_solver|]. by eapply (slab_not_others ord sz OB OL Hsz).
  - apply (mem_build c c' Fl As _ _ p s s' Hm); [|done|done| |].
    + rewrite <- (linked_perm _ _ Hperm). by apply (slabs_perm ord sz OB OL (current c)).
    + intros y. rewrite (active_give ord sz OB OL Hsz _ _ _ _ As p x Hi (mi_active _ _ _ _ Hm) Hp Hx y). by setoid_rewrite Hperm.
    + rewrite <- Hperm, E3, E4, E5, (mi_count _ _ _ _ Hm), (mi_objs _ _ _ _ Hm), (mi_total _ _ _ _ Hm).
      assert (base.size As = (1 + base.size (As ∖ {[x]}))%nat); [|split_and!; try done; lia].
      rewrite <- (size_singleton (C := gset Z) x), <- size_union by set_solver. f_equal. rewrite <- union_difference_singleton_L; done.
Qed.

Lemma dec_active_wp c Fl As s x (Q : unit -> SlabMemCache * Frames A -> Prop) : mem_inv c Fl As s -> x ∈ As ->
  Q tt (set_active (active_objs c - 1) c, s) -> wp dec_active Q never (c, s).
Proof.
  intros Hm Hx HQ. unfold dec_active. apply wp_bind, wp_focus, wp_bind, wp_lifted, wp_assert; [|by apply wp_refocus]. apply Z.leb_le. rewrite (mi_count _ _ _ _ Hm).
  assert (base.size As <> 0%nat); [|lia]. intros He%size_empty_inv. set_solver.
Qed.

Lemma give_partial_wp c Fl As s p x : mem_inv c Fl As s -> p ∈ slabs_partial c -> x ∈ objs ord sz p -> x ∈ As -> cells s !! x = Some Unlinked ->
  wp (dec_active;; lift (slab_deallocate p x);; do s <- lift get;
      if slab_is_empty s p then
        lift (unlink_page p);; modify_cache (set_partial (remove_slab p (slabs_partial c)));; push_empty p;; maybe_shrink_empty_slabs
      else ret tt) (fun _ => gave As x s) never (c, s).
Proof.
  intros Hm Hpp Hx HxA Hu. pose proof (mi_slabs _ _ _ _ Hm) as Hi. assert (Hp : p ∈ current c) by (apply in_current; tauto).
  destruct (lists_apart c Fl As s p Hm) as [[Hx1 Hx2] (_ & _ & Hnd)]. pose proof (mi_partial _ _ _ _ Hm p Hpp) as Hlen.
  apply wp_bind. eapply dec_active_wp; [done|done|]. apply wp_bind, wp_lifted.
  eapply wp_mono; [by apply (slab_deallocate_wp ord sz OB OL Hsz _ _ _ _ p x Hi)| |done]. intros _ s1 (Hi1 & _ & Hc1).
  apply wp_bind, wp_lifted. unfold wp at 1, get. rewrite (empty_test _ _ _ _ p Hi1 Hp), upd_eq. cbn [length]. pose proof (remove_perm p _ Hnd Hpp) as Hrm.
  case_bool_decide as He.
  - apply wp_bind, wp_lifted. eapply wp_mono; [by apply (unlink_wp ord sz OB OL Hsz _ _ _ _ p Hi1)| |done]. intros _ s2 (Hi2 & Hc2 & _).
    apply wp_bind. unfold wp at 1, modify_cache, bind, get_focus, put_focus. apply wp_bind. unfold push_empty. apply wp_bind, wp_lifted.
    eapply wp_mono; [apply (link_wp ord sz OB OL Hsz _ _ _ _ p Hi2); [done|set_solver]| |done]. intros _ s3 (Hi3 & Hc3 & _).
    rewrite relink in Hi3 by (by apply elem_of_list_to_set). unfold wp at 1, modify_cache, bind, get_focus, put_focus.
    match goal with |- wp _ _ _ (?y, _) => set (c' := y) end.
    destruct (give_build c c' Fl As s s3 p x Hm Hp Hx HxA Hi3) as [Hk Hm'].
    + intros y Hy. rewrite Hc3, Hc2. by apply Hc1.
    + unfold current, c'. cbn. rewrite Hrm at 1. solve_Permutation.
    + unfold moved, c'. cbn [slabs_full slabs_empty slabs_partial set_full set_empty set_partial set_active].
      setoid_rewrite elem_of_remove. setoid_rewrite elem_of_cons. tauto.
    + unfold in_class, c'. cbn [slabs_full slabs_empty slabs_partial set_full set_empty set_partial set_active]. rewrite elem_of_remove.
      split; [intros Hq; by destruct (Hx1 Hq)|]. split; [done|tauto].
    + unfold c'. cbn. rewrite (mi_len _ _ _ _ Hm). split_and!; try done; lia.
    + eapply wp_mono; [by apply (maybe_shrink_wp c')| |done]. intros _ cs [E1 E2]. split; [intros y Hy; rewrite E1; by apply Hk|by eexists].
  - apply wp_ret. destruct (give_build c (set_active (active_objs c - 1) c) Fl As s s1 p x Hm Hp Hx HxA Hi1 Hc1) as [Hk Hm']; [done| | |cbn; by rewrite (mi_len _ _ _ _ Hm)|by split; [|eexists]].
    + unfold moved. cbn. tauto.
    + unfold in_class. cbn. split; [intros Hq; by destruct (Hx1 Hq)|]. split; [intros Hq; by apply Hx2 in Hq|]. lia.
Qed.

Lemma give_full_wp c Fl As s p x : mem_inv c Fl As s -> p ∈ slabs_full c -> x ∈ objs ord sz p -> x ∈ As -> cells s !! x = Some Unlinked ->
  wp (dec_active;; lift (unlink_page p);; modify_cache (set_full (remove_slab p (slabs_full c)));; lift (slab_deallocate p x);; do s <- lift get;
      if slab_is_empty s p then push_empty p;; maybe_shrink_empty_slabs else push_partial p) (fun _ => gave As x s) never (c, s).
Proof.
  intros Hm Hpf Hx HxA Hu. pose proof (mi_slabs _ _ _ _ Hm) as Hi. assert (Hp : p ∈ current c) by (apply in_current; tauto).
  destruct (lists_apart c Fl As s p Hm) as [[Hx1 Hx2] (Hnd & _)]. pose proof (mi_full _ _ _ _ Hm p Hpf) as Hl. destruct (Hx1 Hpf) as [Hx3 Hx4].
  apply wp_bind. eapply dec_active_wp; [done|done|]. apply wp_bind, wp_lifted.
  eapply wp_mono; [by apply (unlink_wp ord sz OB OL Hsz _ _ _ _ p Hi)| |done]. intros _ s1 (Hi1 & Hc1 & _).
  apply wp_bind. unfold wp at 1, modify_cache, bind, get_focus, put_focus. apply wp_bind, wp_lifted.
  eapply wp_mono; [apply (slab_deallocate_wp ord sz OB OL Hsz _ _ _ _ p x Hi1); [done|done|by rewrite Hc1]| |done]. intros _ s2 (Hi2 & _ & Hc2).
  apply wp_bind, wp_lifted. unfold wp at 1, get. rewrite (empty_test _ _ _ _ p Hi2 Hp), upd_eq. pose proof (remove_perm p _ Hnd Hpf) as Hrm.
  assert (Hlink : wp (link_page p) (fun _ s' => sinv (current c) (list_to_set (current c)) (upd Fl p (x :: Fl p)) s' /\ forall y, y <> x -> cells s' !! y = cells s !! y) never s2).
  { eapply wp_mono; [apply (link_wp ord sz OB OL Hsz _ _ _ _ p Hi2); [done|set_solver]| |done]. intros _ s3 (Hi3 & Hc3 & _).
    rewrite relink in Hi3 by (by apply elem_of_list_to_set). split; [done|]. intros y Hy. rewrite Hc3, Hc2, Hc1 by done. done. }
  rewrite Hl in *. cbn [length]. pose proof (per_slab_pos ord sz Hsz). case_bool_decide as He.
  - apply wp_bind. unfold push_empty. apply wp_bind, wp_lifted. eapply wp_mono; [exact Hlink| |done]. intros _ s3 [Hi3 Hc3].
    unfold wp at 1, modify_cache, bind, get_focus, put_focus. match goal with |- wp _ _ _ (?y, _) => set (c' := y) end.
    rewrite <- Hl in Hi3. destruct (give_build c c' Fl As s s3 p x Hm Hp Hx HxA Hi3 Hc3) as [Hk Hm'].
    + unfold current, c'. cbn. rewrite Hrm at 1. solve_Permutation.
    + unfold moved, c'. cbn [slabs_full slabs_empty slabs_partial set_full set_empty set_partial set_active].
      setoid_rewrite elem_of_remove. setoid_rewrite elem_of_cons. tauto.
    + rewrite Hl. unfold in_class, c'. cbn [slabs_full slabs_empty slabs_partial set_full set_empty set_partial set_active]. rewrite elem_of_remove.
      split; [tauto|]. by split.
    + unfold c'. cbn. rewrite (mi_len _ _ _ _ Hm). split_and!; try done; lia.
    + eapply wp_mono; [by apply (maybe_shrink_wp c')| |done]. intros _ cs [E1 E2]. split; [intros y Hy; rewrite E1; by apply Hk|by eexists].
  - unfold push_partial. apply wp_bind, wp_lifted. eapply wp_mono; [exact Hlink| |done]. intros _ s3 [Hi3 Hc3].
    unfold wp, modify_cache, bind, get_focus, put_focus. match goal with |- gave _ _ _ (?y, _) => set (c' := y) end.
    rewrite <- Hl in Hi3. destruct (give_build c c' Fl As s s3 p x Hm Hp Hx HxA Hi3 Hc3) as [Hk Hm']; [| | |unfold c'; cbn; by rewrite (mi_len _ _ _ _ Hm)|by split; [|eexists]].
    + unfold current, c'. cbn. rewrite Hrm at 1. solve_Permutation.
    + unfold moved, c'. cbn [slabs_full slabs_empty slabs_partial set_full set_empty set_partial set_active].
      setoid_rewrite elem_of_remove. setoid_rewrite elem_of_cons. tauto.
    + rewrite Hl. unfold in_class, c'. cbn [slabs_full slabs_empty slabs_partial set_full set_empty set_partial set_active]. rewrite elem_of_remove.
      split; [tauto|]. split; [done|]. cbn [length]. lia.
Qed.

Lemma deallocate_wp c Fl As s x : mem_inv c Fl As s -> x ∈ As -> cells s !! x = Some Unlinked -> wp (deallocate x) (fun _ => gave As x s) never (c, s).
Proof.
  intros Hm Hx Hu. pose proof (mi_slabs _ _ _ _ Hm) as Hi. apply (mi_active _ _ _ _ Hm) in Hx as Hx'. destruct Hx' as (p & Hp & Hxp & Hn).
  unfold deallocate. apply wp_bind, wp_focus, wp_bind, wp_lifted. unfold wp at 1, get.
  assert (Hcur : forall q, q ∈ slabs_partial c \/ q ∈ slabs_full c -> q ∈ current c) by (intros q; rewrite in_current; tauto).
  rewrite (find_slab_spec _ _ _ _ p x (slabs_partial c) Hi Hp Hxp) by auto. case_decide as Hpp; [by eapply give_partial_wp|].
  rewrite (find_slab_spec _ _ _ _ p x (slabs_full c) Hi Hp Hxp) by auto. case_decide as Hpf; [by eapply give_full_wp|].
  exfalso. apply Hn. eapply (all_free ord sz OB OL); [exact Hi| |done]. apply (mi_empty _ _ _ _ Hm). apply in_current in Hp. tauto.
Qed.

(** ** Dropping the slabs *)

Lemma drop_slabs_wp l S Fl s : sinv (l ++ S) (list_to_set (l ++ S)) Fl s ->
  wp (drop_slabs l) (fun _ s' => sinv S (list_to_set S) Fl s' /\ cells s' = cells s) never s.
Proof.
  revert s. induction l as [|p l IH]; intros s Hi; cbn [drop_slabs]; [by apply wp_ret|]. cbn [app] in Hi.
  apply wp_bind. eapply wp_mono; [apply (unlink_wp ord sz OB OL Hsz _ _ _ _ p Hi); by left| |done]. intros _ s1 (Hi1 & Hc1 & _).
  pose proof (si_nodup _ _ _ _ _ _ _ _ Hi) as Hnd. apply NoDup_cons in Hnd as [Hp Hnd].
  apply wp_bind. eapply wp_mono; [apply (slab_drop_wp ord sz OB OL _ (l ++ S) _ _ _ p Hi1); [by left|set_solver|done|]| |done].
  { intros q. rewrite elem_of_cons. split; [|naive_solver]. intros Hq. split; [by right|]. by intros ->. }
  intros _ s2 (Hi2 & Hc2 & _). eapply wp_mono; [apply (IH s2)| |done].
  - replace (list_to_set (p :: l ++ S) ∖ {[p]}) with (list_to_set (C := gset Z) (l ++ S)) in Hi2; [done|]. rewrite list_to_set_cons.
    apply set_eq. intros q. rewrite elem_of_difference, elem_of_union, elem_of_singleton, elem_of_list_to_set. naive_solver.
  - intros _ s3 [Hi3 Hc3]. split; [done|]. by rewrite Hc3, Hc2, Hc1.
Qed.

Lemma drop_mem_wp c Fl As s : mem_inv c Fl As s -> wp (drop_mem_cache c) (fun _ s' => sinv [] ∅ Fl s' /\ cells s' = cells s) never s.
Proof.
  intros Hm. unfold drop_mem_cache. apply wp_bind. eapply wp_mono; [apply drop_slabs_wp, (mi_slabs _ _ _ _ Hm)| |done]. intros _ s1 [Hi1 Hc1].
  apply wp_bind. eapply wp_mono; [by apply drop_slabs_wp| |done]. intros _ s2 [Hi2 Hc2]. rewrite <- (app_nil_r (slabs_partial c)) in Hi2.
  eapply wp_mono; [by apply drop_slabs_wp| |done]. intros _ s3 [Hi3 Hc3]. split; [done|]. by rewrite Hc3, Hc2, Hc1.
Qed.

(** ** Array caches *)

Definition ac_ok s (ac : ArrayCache) (l : list Z) : Prop := chain (cells s) (ac_list ac) l /\ len ac = Z.of_nat (length l).

Lemma ac_frame s s' ac l : ac_ok s ac l -> (forall x, x ∈ l -> cells s' !! x = cells s !! x) -> ac_ok s' ac l.
Proof. intros [Hc Hl] Hs. split; [by eapply chain_frame|done]. Qed.

Definition like (ac ac' : ArrayCache) : Prop := limit ac' = limit ac /\ batchcount ac' = batchcount ac.

Lemma fetch_wp ac l s : ac_ok s ac l ->
  wp (fetch_obj ac) (fun r s' =>
    match l with
    | [] => r = (None, ac) /\ s' = s
    | x :: l' => r.1 = Some x /\ s' = upd_cell s x Unlinked /\ ac_ok s' r.2 l' /\ like ac r.2
    end) never s.
Proof.
  intros [Hc Hl]. unfold fetch_obj. apply wp_bind. eapply wp_mono; [by apply (pop_wp _ l)| |done]. destruct l as [|x l]; cbn [length] in Hl.
  - intros r s' [-> ->]. by apply wp_ret.
  - intros [o h] s' (Ho & Hs & Hc'). cbn [fst snd] in *. subst o. apply wp_bind, wp_assert; [apply Z.leb_le; lia|]. apply wp_ret. cbn [fst snd].
    split; [done|]. split; [done|]. split; [|done]. split; [done|]. cbn. lia.
Qed.

Lemma push_obj_wp ac l x s : ac_ok s ac l -> cells s !! x = Some Unlinked ->
  wp (push_obj ac x) (fun ac' s' => s' = upd_cell s x (Linked (ac_list ac)) /\ ac_ok s' ac' (x :: l) /\ like ac ac') never s.
Proof.
  intros [Hc Hl] Hx. unfold push_obj. apply wp_bind. eapply wp_mono; [by apply (push_wp _ l)| |done]. intros h s' [Hs Hc']. apply wp_ret.
  split; [done|]. split; [|done]. split; [done|]. cbn. lia.
Qed.

(** The slabs with the array caches in front: an object in use is with its
    user, one of [Os], or in one of the caches. *)
Record pool_inv c (acs : list ArrayCache) (ls : list (list Z)) Fl As (Os : gset Z) s : Prop := {
  po_mem : mem_inv c Fl As s;
  po_len : length acs = length ls;
  po_ac i ac l : acs !! i = Some ac -> ls !! i = Some l -> ac_ok s ac l;
  po_nodup : NoDup (concat ls);
  po_active x : x ∈ As <-> x ∈ Os \/ x ∈ concat ls;
  po_apart x : x ∈ Os -> x ∉ concat ls
}.

Definition pool c acs Os s : Prop := exists ls Fl As, pool_inv c acs ls Fl As Os s.

Lemma concat_insert (ls : list (list Z)) i l l' : ls !! i = Some l -> concat ls ≡ₚ l ++ concat (delete i ls) /\ concat (<[i := l']> ls) ≡ₚ l' ++ concat (delete i ls).
Proof.
  intros Hi. rewrite <- (take_drop_middle ls i l Hi) at 1. rewrite (insert_take_drop ls i l') by (by eapply lookup_lt_Some). rewrite delete_take_drop, !concat_app. cbn [concat].
  split; solve_Permutation.
Qed.

Lemma in_concat ls i l (x : Z) : ls !! i = Some l -> x ∈ l -> x ∈ concat ls.
Proof. intros Hi Hx. rewrite (proj1 (concat_insert ls i l l Hi)). apply elem_of_app. by left. Qed.

(** Objects of different lists are different. *)
Lemma lists_disj ls i j l l' (x : Z) : NoDup (concat ls) -> ls !! i = Some l -> ls !! j = Some l' -> x ∈ l -> x ∈ l' -> i = j.
Proof.
  intros Hnd Hi Hj Hx Hx'. destruct (decide (i = j)) as [|Hne]; [done|exfalso]. rewrite (proj1 (concat_insert ls i l l Hi)) in Hnd. apply NoDup_app in Hnd as (_ & Hd & _).
  apply (Hd x Hx). destruct (decide (j < i)%nat).
  - eapply (in_concat _ j); [|exact Hx']. by rewrite list_lookup_delete_lt.
  - eapply (in_concat _ (j - 1)); [|exact Hx']. rewrite list_lookup_delete_ge by lia. by replace (Datatypes.S (j - 1)) with j by lia.
Qed.

Lemma mem_write c Fl As s x cell : mem_inv c Fl As s -> (forall p, x ∉ Fl p) -> mem_inv c Fl As (upd_cell s x cell).
Proof.
  intros Hm Hx. apply (mem_same c Fl As s); [done|]. destruct (mi_slabs _ _ _ _ Hm) as [Hf Hn Ha Hk Ho Hc Hfr Hs]. split; try done.
  intros p. apply (chain_frame (cells s)); [apply Hc|]. intros y Hy. cbn. apply lookup_insert_ne. intros ->. by apply (Hx p).
Qed.

Lemma active_not_free c Fl As s x : mem_inv c Fl As s -> x ∈ As -> forall p, x ∉ Fl p.
Proof.
  intros Hm Hx p Hp. pose proof (mi_slabs _ _ _ _ Hm) as Hi. apply (mi_active _ _ _ _ Hm) in Hx as (q & Hq & Hxq & Hn).
  destruct (si_free _ _ _ _ _ _ _ _ Hi p x Hp) as [Hal Hxp]. assert (q = p) as ->; [|done].
  eapply (objs_disj ord sz Hsz); [|exact Hal|exact Hxq|exact Hxp]. by eapply slab_facts.
Qed.

(** One cache changes. *)
Lemma pool_update c acs ls Fl As Os Os' s s' i ac ac' l l' : pool_inv c acs ls Fl As Os s -> acs !! i = Some ac -> ls !! i = Some l -> ac_ok s' ac' l' ->
  mem_inv c Fl As s' -> (forall j lj y, j <> i -> ls !! j = Some lj -> y ∈ lj -> cells s' !! y = cells s !! y) ->
  NoDup l' -> (forall x, x ∈ l' -> x ∈ l \/ x ∈ Os) -> (forall x, x ∈ Os' \/ x ∈ l' <-> x ∈ Os \/ x ∈ l) -> (forall x, x ∈ Os' -> x ∉ l') ->
  pool_inv c (<[i := ac']> acs) (<[i := l']> ls) Fl As Os' s'.
Proof.
  intros [Hm Hlen Hac Hnd Ha Hap] Hi Hl Hok Hm' Hs Hnd' Hin Heq Hdis. destruct (concat_insert ls i l l' Hl) as [P1 P2].
  rewrite P1 in Hnd. apply NoDup_app in Hnd as (_ & Hd & Hnr). setoid_rewrite P1 in Ha. setoid_rewrite P1 in Hap.
  setoid_rewrite elem_of_app in Ha. setoid_rewrite elem_of_app in Hap.
  assert (Hrest : forall x, x ∈ l' -> x ∉ concat (delete i ls)).
  { intros x Hx. destruct (Hin x Hx) as [Hx'|Hx']; [by apply Hd|]. intros Hc. apply (Hap x Hx'). by right. }
  split; [done|by rewrite !length_insert| | | |].
  - intros j acj lj Hj Hlj. destruct (decide (j = i)) as [->|Hne].
    + rewrite list_lookup_insert_eq in Hj by (by eapply lookup_lt_Some). rewrite list_lookup_insert_eq in Hlj by (by eapply lookup_lt_Some). congruence.
    + rewrite list_lookup_insert_ne in Hj by done. rewrite list_lookup_insert_ne in Hlj by done. eapply ac_frame; [by eapply Hac|]. intros y Hy. by eapply Hs.
  - rewrite P2. apply NoDup_app. done.
  - intros x. rewrite P2, elem_of_app, (Ha x). specialize (Heq x). tauto.
  - intros x Hx. rewrite P2, elem_of_app. intros [Hc|Hc]; [by apply (Hdis x)|].
    destruct (proj1 (Heq x) (or_introl Hx)) as [Hx'|Hx']; [apply (Hap x Hx'); by right|by apply (Hd x)].
Qed.

Lemma pool_ac c acs ls Fl As Os s i ac : pool_inv c acs ls Fl As Os s -> acs !! i = Some ac -> exists l, ls !! i = Some l /\ ac_ok s ac l.
Proof.
  intros Hp Hi. destruct (lookup_lt_is_Some_2 ls i) as [l Hl]; [rewrite <- (po_len _ _ _ _ _ _ _ Hp); by eapply lookup_lt_Some|]. exists l. split; [done|by eapply Hp].
Qed.

Lemma cached_outside_others c acs ls Fl As Os s x : pool_inv c acs ls Fl As Os s -> x ∈ As -> ~ covers OB x.
Proof.
  intros [Hm _ _ _ _ _] Hx. apply (mi_active _ _ _ _ Hm) in Hx as (p & Hp & Hxp & _). by eapply (slab_not_others ord sz OB OL Hsz); [apply (mi_slabs _ _ _ _ Hm)|..].
Qed.

Lemma fetch_pool c acs Os s i ac : pool c acs Os s -> acs !! i = Some ac ->
  wp (fetch_obj ac) (fun r s' => kept Os s s' /\ like ac r.2 /\
    match r.1 with
    | None => r.2 = ac /\ s' = s
    | Some x => x ∉ Os /\ cells s' !! x = Some Unlinked /\ pool c (<[i := r.2]> acs) ({[x]} ∪ Os) s'
    end) never s.
Proof.
  intros (ls & Fl & As & Hp) Hi. destruct (pool_ac _ _ _ _ _ _ _ _ _ Hp Hi) as (l & Hl & Hok). eapply wp_mono; [by apply (fetch_wp ac l)| |done].
  intros [o ac'] s'. cbn [fst snd]. destruct l as [|x l]; [intros [[= -> ->] ->]; by split|]. intros (-> & -> & Hok' & Hlike).
  assert (Hxc : x ∈ concat ls) by (eapply in_concat; [exact Hl|by left]). assert (HxA : x ∈ As) by (apply (po_active _ _ _ _ _ _ _ Hp); by right).
  assert (HxO : x ∉ Os) by (intros HxO; by apply (po_apart _ _ _ _ _ _ _ Hp x)).
  assert (Hkept : kept Os s (upd_cell s x Unlinked)).
  { intros y Hy. cbn. apply lookup_insert_ne. intros <-. destruct Hy as [Hy|Hy]; [done|]. by eapply cached_outside_others. }
  split; [done|]. split; [done|]. split; [done|]. split; [apply lookup_insert_eq|].
  pose proof (chain_NoDup _ _ _ (proj1 Hok)) as Hnd. apply NoDup_cons in Hnd as [Hxl Hnd].
  exists (<[i := l]> ls), Fl, As. apply (pool_update c acs ls Fl As Os _ s _ i ac ac' (x :: l) l Hp Hi Hl Hok').
  - apply mem_write; [apply Hp|]. eapply active_not_free; [apply Hp|done].
  - intros j lj y Hj Hlj Hy. cbn. apply lookup_insert_ne. intros <-. apply Hj. eapply lists_disj; [apply Hp|exact Hlj|exact Hl|exact Hy|by left].
  - done.
  - intros y Hy. left. by right.
  - intros y. rewrite elem_of_union, elem_of_singleton, elem_of_cons. tauto.
  - intros y. rewrite elem_of_union, elem_of_singleton. intros [->|Hy]; [done|]. intros Hyl. apply (po_apart _ _ _ _ _ _ _ Hp y Hy). eapply in_concat; [exact Hl|by right].
Qed.

Lemma push_pool c acs Os s i ac x : pool c acs Os s -> acs !! i = Some ac -> x ∈ Os -> cells s !! x = Some Unlinked ->
  wp (push_obj ac x) (fun ac' s' => kept (Os ∖ {[x]}) s s' /\ like ac ac' /\ pool c (<[i := ac']> acs) (Os ∖ {[x]}) s') never s.
Proof.
  intros (ls & Fl & As & Hp) Hi Hx Hu. destruct (pool_ac _ _ _ _ _ _ _ _ _ Hp Hi) as (l & Hl & Hok). eapply wp_mono; [by apply (push_obj_wp ac l)| |done].
  intros ac' s' (-> & Hok' & Hlike). assert (HxA : x ∈ As) by (apply (po_active _ _ _ _ _ _ _ Hp); by left).
  split; [|split; [done|]].
  - intros y Hy. cbn. apply lookup_insert_ne. intros <-. destruct Hy as [Hy|Hy]; [set_solver|]. by eapply cached_outside_others.
  - pose proof (chain_NoDup _ _ _ (proj1 Hok)) as Hnd. pose proof (po_apart _ _ _ _ _ _ _ Hp x Hx) as Hxc.
    assert (Hxl : x ∉ l) by (intros Hxl; apply Hxc; by eapply in_concat).
    exists (<[i := x :: l]> ls), Fl, As. apply (pool_update c acs ls Fl As Os _ s _ i ac ac' l (x :: l) Hp Hi Hl Hok').
    + apply mem_write; [apply Hp|]. eapply active_not_free; [apply Hp|done].
    + intros j lj y Hj Hlj Hy. cbn. apply lookup_insert_ne. intros <-. apply Hxc. by eapply in_concat.
    + by constructor.
    + intros y. rewrite elem_of_cons. intros [->|Hy]; [by right|by left].
    + intros y. rewrite elem_of_difference, elem_of_singleton, elem_of_cons. destruct (decide (y = x)) as [->|]; tauto.
    + intros y. rewrite elem_of_difference, elem_of_singleton, elem_of_cons. intros [Hy Hne] [?|Hyl]; [done|]. apply (po_apart _ _ _ _ _ _ _ Hp y Hy). by eapply in_concat.
Qed.

Lemma pool_mem c c' acs ls Fl Fl' As As' Os Os' s s' : pool_inv c acs ls Fl As Os s -> mem_inv c' Fl' As' s' ->
  (forall y, y ∈ concat ls -> cells s' !! y = cells s !! y) -> (forall x, x ∈ As' <-> x ∈ Os' \/ x ∈ concat ls) -> (forall x, x ∈ Os' -> x ∉ concat ls) ->
  pool_inv c' acs ls Fl' As' Os' s'.
Proof.
  intros [_ Hlen Hac Hnd _ _] Hm Hs Ha Hap. split; try done. intros i ac l Hi Hl. eapply ac_frame; [by eapply Hac|]. intros y Hy. apply Hs. by eapply in_concat.
Qed.

Lemma allocate_pool c acs Os s : pool c acs Os s ->
  wp allocate (fun o cs => kept Os s cs.2 /\
    match o with
    | Some x => x ∉ Os /\ cells cs.2 !! x = Some Unlinked /\ pool cs.1 acs ({[x]} ∪ Os) cs.2
    | None => pool cs.1 acs Os cs.2
    end) never (c, s).
Proof.
  intros (ls & Fl & As & Hp). pose proof (po_active _ _ _ _ _ _ _ Hp) as Ha. eapply wp_mono; [apply (allocate_wp c Fl As s), Hp| |done]. intros o [c' s'] [Hk Ho]. cbn [fst snd] in *.
  assert (Hk' : kept Os s s') by (intros y [Hy|Hy]; apply Hk; [left; apply Ha; by left|by right]). split; [done|].
  assert (Hcs : forall y, y ∈ concat ls -> cells s' !! y = cells s !! y) by (intros y Hy; apply Hk; left; apply Ha; by right).
  destruct o as [x|].
  - destruct Ho as (Hx & Hu & Fl' & Hm'). split; [intros HxO; apply Hx, Ha; by left|]. split; [done|]. exists ls, Fl', ({[x]} ∪ As).
    apply (pool_mem c c' acs ls Fl Fl' As _ Os _ s s' Hp Hm' Hcs).
    + intros y. rewrite !elem_of_union, (Ha y). tauto.
    + intros y. rewrite elem_of_union, elem_of_singleton. intros [->|Hy]; [intros Hc; apply Hx, Ha; by right|]. by apply (po_apart _ _ _ _ _ _ _ Hp).
  - destruct Ho as (Fl' & Hm'). exists ls, Fl', As. apply (pool_mem c c' acs ls Fl Fl' As As Os Os s s' Hp Hm' Hcs); [done|]. apply (po_apart _ _ _ _ _ _ _ Hp).
Qed.

Lemma deallocate_pool c acs Os s x : pool c acs Os s -> x ∈ Os -> cells s !! x = Some Unlinked ->
  wp (deallocate x) (fun _ cs => kept (Os ∖ {[x]}) s cs.2 /\ pool cs.1 acs (Os ∖ {[x]}) cs.2) never (c, s).
Proof.
  intros (ls & Fl & As & Hp) Hx Hu. pose proof (po_active _ _ _ _ _ _ _ Hp) as Ha. pose proof (po_apart _ _ _ _ _ _ _ Hp) as Hap.
  eapply wp_mono; [apply (deallocate_wp c Fl As s x); [apply Hp|apply Ha; by left|done]| |done]. intros _ [c' s'] [Hk (Fl' & Hm')]. cbn [fst snd] in *.
  assert (Hcs : forall y, y ∈ concat ls -> cells s' !! y = cells s !! y).
  { intros y Hy. apply Hk. left. apply elem_of_difference. split; [apply Ha; by right|]. rewrite elem_of_singleton. intros ->. by apply (Hap x). }
  split; [|exists ls, Fl', (As ∖ {[x]}); apply (pool_mem c c' acs ls Fl Fl' As _ Os _ s s' Hp Hm' Hcs)].
  - intros y [Hy|Hy]; apply Hk; [left|by right]. apply elem_of_difference in Hy as [Hy Hne]. apply elem_of_difference. split; [|done]. apply Ha. by left.
  - intros y. rewrite !elem_of_difference, elem_of_singleton, (Ha y). split; [tauto|]. intros [?|Hy]; [tauto|]. split; [by right|]. intros ->. by apply (Hap x).
  - intros y. rewrite elem_of_difference. intros [Hy _]. by apply Hap.
Qed.

(** ** The loops of the array caches *)

Lemma kept_mono (Os Os' : gset Z) s s' : Os' ⊆ Os -> kept Os s s' -> kept Os' s s'.
Proof. intros Hs Hk x [Hx|Hx]; apply Hk; [left; by apply Hs|by right]. Qed.

Lemma put_back Os (x : Z) : x ∉ Os -> ({[x]} ∪ Os) ∖ {[x]} = Os :> gset Z.
Proof. intros Hx. apply set_eq. intros y. rewrite elem_of_difference, elem_of_union, elem_of_singleton. naive_solver. Qed.

Lemma like_trans ac ac1 ac2 : like ac ac1 -> like ac1 ac2 -> like ac ac2.
Proof. intros [? ?] [? ?]. split; congruence. Qed.

Lemma transfer_pool m c acs Os s i j dst src : pool c acs Os s -> i <> j -> acs !! i = Some dst -> acs !! j = Some src ->
  wp (transfer_objects m dst src) (fun r s' => kept Os s s' /\ like dst r.1 /\ like src r.2 /\ pool c (<[i := r.1]> (<[j := r.2]> acs)) Os s') never s.
Proof.
  revert acs s dst src. induction m as [|m IH]; intros acs s dst src Hp Hij Hi Hj; cbn [transfer_objects].
  { apply wp_ret. cbn [fst snd]. rewrite (list_insert_id acs j src Hj), (list_insert_id acs i dst Hi). done. }
  apply wp_bind. eapply wp_mono; [by apply (fetch_pool c acs Os s j src)| |done]. intros [[x|] src1] s1 (Hk1 & Hl1 & H1); cbn [fst snd] in *.
  2:{ destruct H1 as [-> ->]. apply wp_ret. cbn [fst snd]. rewrite (list_insert_id acs j src Hj), (list_insert_id acs i dst Hi). done. }
  destruct H1 as (Hx & Hu & Hp1). apply wp_bind. assert (Hi1 : <[j := src1]> acs !! i = Some dst) by (by rewrite list_lookup_insert_ne).
  eapply wp_mono; [apply (push_pool c _ _ s1 i dst x Hp1 Hi1); [set_solver|done]| |done]. intros dst1 s2 (Hk2 & Hl2 & Hp2). rewrite put_back in Hk2, Hp2 by done.
  eapply wp_mono; [apply (IH _ s2 dst1 src1 Hp2 Hij)| |done].
  - apply list_lookup_insert_eq. rewrite length_insert. by eapply lookup_lt_Some.
  - rewrite list_lookup_insert_ne by done. apply list_lookup_insert_eq. by eapply lookup_lt_Some.
  - intros [dst2 src2] s3 (Hk3 & Hl3 & Hl4 & Hp3). cbn [fst snd] in *. split; [by eapply kept_seq; [|eapply kept_seq]|]. split; [by eapply like_trans|]. split; [by eapply like_trans|].
    rewrite (list_insert_insert_ne _ j i), !list_insert_insert_eq in Hp3 by done. done.
Qed.

Lemma grow_pool m c acs Os s i ac : pool c acs Os s -> acs !! i = Some ac ->
  wp (grow_loop m ac) (fun ac' cs => kept Os s cs.2 /\ like ac ac' /\ pool cs.1 (<[i := ac']> acs) Os cs.2) never (c, s).
Proof.
  revert c acs s ac. induction m as [|m IH]; intros c acs s ac Hp Hi; cbn [grow_loop].
  { apply wp_ret. cbn [fst snd]. by rewrite list_insert_id. }
  apply wp_bind. eapply wp_mono; [by apply (allocate_pool c acs Os s)| |done]. intros [x|] [c1 s1] [Hk1 H1]; cbn [fst snd] in *.
  2:{ apply wp_ret. cbn [fst snd]. by rewrite list_insert_id. }
  destruct H1 as (Hx & Hu & Hp1). apply wp_bind, wp_lifted. eapply wp_mono; [apply (push_pool c1 acs _ s1 i ac x Hp1 Hi); [set_solver|done]| |done].
  intros ac1 s2 (Hk2 & Hl2 & Hp2). rewrite put_back in Hk2, Hp2 by done.
  eapply wp_mono; [apply (IH c1 _ s2 ac1 Hp2)| |done]; [apply list_lookup_insert_eq; by eapply lookup_lt_Some|].
  intros ac2 [c3 s3] (Hk3 & Hl3 & Hp3). cbn [fst snd] in *. rewrite list_insert_insert_eq in Hp3. split; [by eapply kept_seq; [|eapply kept_seq]|]. split; [by eapply like_trans|done].
Qed.

Lemma shrink_pool m c acs Os s i ac : pool c acs Os s -> acs !! i = Some ac ->
  wp (shrink_to_loop m ac) (fun ac' cs => kept Os s cs.2 /\ like ac ac' /\ pool cs.1 (<[i := ac']> acs) Os cs.2) never (c, s).
Proof.
  revert c acs s ac. induction m as [|m IH]; intros c acs s ac Hp Hi; cbn [shrink_to_loop].
  { apply wp_ret. cbn [fst snd]. by rewrite list_insert_id. }
  apply wp_bind, wp_lifted. eapply wp_mono; [by apply (fetch_pool c acs Os s i ac)| |done]. intros [[x|] ac1] s1 (Hk1 & Hl1 & H1); cbn [fst snd] in *.
  2:{ destruct H1 as [-> ->]. apply wp_ret. cbn [fst snd]. by rewrite list_insert_id. }
  destruct H1 as (Hx & Hu & Hp1). apply wp_bind. eapply wp_mono; [apply (deallocate_pool c _ _ s1 x Hp1); [set_solver|done]| |done].
  intros _ [c2 s2] (Hk2 & Hp2). cbn [fst snd] in *. rewrite put_back in Hk2, Hp2 by done.
  eapply wp_mono; [apply (IH c2 _ s2 ac1 Hp2)| |done]; [apply list_lookup_insert_eq; by eapply lookup_lt_Some|].
  intros ac2 [c3 s3] (Hk3 & Hl3 & Hp3). cbn [fst snd] in *. rewrite list_insert_insert_eq in Hp3. split; [by eapply kept_seq; [|eapply kept_seq]|]. split; [by eapply like_trans|done].
Qed.
End mem.

(** ** The allocator *)

Section allocator.
Context {A : Type} `{FrameLaws A} (ord : nat) (sz : Z) (OB : gmap Z nat) (OL : gset Z).
Context (Hsz : sizes_ok ord sz).
Implicit Types (s : Frames A) (a : SlabAllocator) (Os : gset Z).
#[local] Notation kept := (kept OB).
#[local] Notation pool := (pool ord sz OB OL).

(** [Os] are the objects of the users. *)
Record alloc_inv a Os s : Prop := {
  al_size : object_size a = sz;
  al_cpus : length (per_cpu_array_cache a) = MAX_NCPU;
  al_pool : pool (mem_cache a) (shared_array_cache a :: per_cpu_array_cache a) Os s
}.

Lemma on_mem_wp {B} (m : M (SlabMemCache * Frames A) Fault B) (Q : B -> SlabAllocator * Frames A -> Prop) R a s :
  wp m (fun b cs => Q b (mkAllocator (object_size a) cs.1 (per_cpu_array_cache a) (shared_array_cache a), cs.2)) never (mem_cache a, s) -> wp (on_mem_cache m) Q R (a, s).
Proof. unfold wp, on_mem_cache. destruct (m (mem_cache a, s)) as [[b|e|] [c s']]; done. Qed.

Lemma set_local_wp cpu ac (Q : unit -> SlabAllocator * Frames A -> Prop) R a s :
  Q tt (mkAllocator (object_size a) (mem_cache a) (<[cpu := ac]> (per_cpu_array_cache a)) (shared_array_cache a), s) -> wp (set_local cpu ac) Q R (a, s).
Proof. done. Qed.

Lemma set_shared_wp ac (Q : unit -> SlabAllocator * Frames A -> Prop) R a s :
  Q tt (mkAllocator (object_size a) (mem_cache a) (per_cpu_array_cache a) ac, s) -> wp (set_shared ac) Q R (a, s).
Proof. done. Qed.

Lemma pool_write c acs Os s x cell : pool c acs Os s -> x ∈ Os -> pool c acs Os (upd_cell s x cell).
Proof.
  intros (ls & Fl & As & Hp) Hx. exists ls, Fl, As. pose proof (po_active _ _ _ _ _ _ _ _ _ _ _ Hp) as Ha. pose proof (po_apart _ _ _ _ _ _ _ _ _ _ _ Hp) as Hap.
  apply (pool_mem ord sz OB OL c c acs ls Fl Fl As As Os Os s); [done| | |done|done].
  - apply mem_write; [apply Hp|]. eapply active_not_free; [done|apply Hp|]. apply Ha. by left.
  - intros y Hy. cbn. apply lookup_insert_ne. intros <-. by apply (Hap x).
Qed.

Definition allocated_obj Os s (o : option Z) (as_ : SlabAllocator * Frames A) : Prop :=
  kept Os s as_.2 /\
  match o with
  | Some x => x ∉ Os /\ alloc_inv as_.1 ({[x]} ∪ Os) as_.2
  | None => alloc_inv as_.1 Os as_.2
  end.

(** The second part of [allocate_obj]: the shared cache has objects. *)
Lemma refill_local_wp a Os s cpu local_ac : alloc_inv a Os s -> per_cpu_array_cache a !! cpu = Some local_ac ->
  wp (do (local_ac, shared_ac) <- lift (transfer_objects (batchcount local_ac) local_ac (shared_array_cache a));
      set_shared shared_ac;;
      do (o, local_ac) <- lift (fetch_obj local_ac);
      set_local cpu local_ac;;
      ret o) (allocated_obj Os s) never (a, s).
Proof.
  intros [Hs Hc Hp] Hl. apply wp_bind, wp_lifted. eapply wp_mono; [by apply (transfer_pool ord sz OB OL Hsz _ _ _ Os s (S cpu) 0 local_ac (shared_array_cache a) Hp)| |done].
  intros [l1 sh1] s1 (Hk1 & _ & _ & Hp1). cbn [fst snd] in *. apply wp_bind, set_shared_wp, wp_bind, wp_lifted.
  eapply wp_mono; [eapply (fetch_pool ord sz OB OL Hsz _ _ Os s1 (S cpu) l1 Hp1), list_lookup_insert_eq| |done].
  { pose proof (lookup_lt_Some _ _ _ Hl). rewrite length_insert. cbn [length]. lia. }
  intros [o l2] s2 (Hk2 & _ & H2). cbn [fst snd] in *. apply wp_bind, set_local_wp, wp_ret. cbn [object_size mem_cache per_cpu_array_cache shared_array_cache].
  split; cbn [fst snd]; [by eapply kept_seq|]. assert (Hlen : length (<[cpu := l2]> (per_cpu_array_cache a)) = MAX_NCPU) by (by rewrite length_insert).
  destruct o as [x|].
  - destruct H2 as (Hx & _ & Hp2). split; [done|]. rewrite list_insert_insert_eq in Hp2. by split.
  - destruct H2 as [-> ->]. by split.
Qed.

Lemma allocate_obj_wp a Os s cpu : alloc_inv a Os s -> (cpu < MAX_NCPU)%nat -> wp (allocate_obj cpu) (allocated_obj Os s) never (a, s).
Proof.
  intros [Hs Hc Hp] Hcpu. unfold allocate_obj. apply wp_bind, wp_focus. destruct (lookup_lt_is_Some_2 (per_cpu_array_cache a) cpu) as [local_ac Hl]; [by rewrite Hc|].
  apply wp_bind. eapply wp_unwrap; [exact Hl|]. apply wp_bind, wp_lifted. eapply wp_mono; [by apply (fetch_pool ord sz OB OL Hsz _ _ Os s (S cpu) local_ac Hp)| |done].
  intros [o l1] s1 (Hk1 & _ & H1). cbn [fst snd] in *. apply wp_bind, set_local_wp. destruct o as [x|].
  { destruct H1 as (Hx & _ & Hp1). apply wp_ret. split; cbn [fst snd]; [done|]. split; [done|]. split; [done|cbn; by rewrite length_insert|done]. }
  destruct H1 as [-> ->]. rewrite (list_insert_id (per_cpu_array_cache a) cpu local_ac Hl). apply wp_bind, wp_focus. cbn [shared_array_cache].
  apply wp_bind. destruct (ac_list (shared_array_cache a)) as [h|] eqn:Hh.
  { apply wp_ret, wp_bind, set_shared_wp. cbn [negb]. destruct a as [osz mc pc sh]. apply (refill_local_wp (mkAllocator osz mc pc sh)); [by split|done]. }
  apply on_mem_wp. cbn [mem_cache object_size per_cpu_array_cache shared_array_cache]. unfold grow_from_cache. apply wp_bind.
  eapply wp_mono; [by apply (grow_pool ord sz OB OL Hsz _ _ _ Os s 0 (shared_array_cache a) Hp)| |done]. intros sh [c1 s1] (Hk2 & _ & Hp2). cbn [fst snd list_insert] in *. apply wp_ret.
  cbn [fst snd]. apply wp_bind, set_shared_wp. cbn [mem_cache object_size per_cpu_array_cache shared_array_cache].
  set (a1 := mkAllocator _ _ _ _). assert (Ha1 : alloc_inv a1 Os s1) by (by split).
  destruct (negb (len (shared_array_cache a) =? len sh)); cbn [negb]; [|apply wp_ret; by split].
  eapply wp_mono; [by apply (refill_local_wp a1 Os s1 cpu local_ac Ha1)| |done]. intros o as_ [Hk3 H3]. split; [by eapply kept_seq|done].
Qed.

Lemma place_pool c acs Os s i ac x : pool c acs Os s -> acs !! i = Some ac -> x ∈ Os ->
  wp (place_obj ac x) (fun ac' s' => kept (Os ∖ {[x]}) s s' /\ like ac ac' /\ pool c (<[i := ac']> acs) (Os ∖ {[x]}) s') never s.
Proof.
  intros Hp Hi Hx. unfold place_obj. apply wp_bind, wp_set_cell. pose proof (pool_write c acs Os s x Unlinked Hp Hx) as Hp1.
  eapply wp_mono; [apply (push_pool ord sz OB OL Hsz c acs Os _ i ac x Hp1 Hi Hx), lookup_insert_eq| |done]. intros ac' s' (Hk & Hl & Hp'). split; [|done].
  eapply kept_seq; [|exact Hk]. intros y Hy. cbn. apply lookup_insert_ne. intros <-. destruct Hy as [Hy|Hy]; [set_solver|].
  destruct Hp as (ls & Fl & As & Hp). eapply (cached_outside_others ord sz OB OL Hsz); [exact Hp| |exact Hy]. apply (po_active _ _ _ _ _ _ _ _ _ _ _ Hp). by left.
Qed.

Lemma deallocate_obj_wp a Os s cpu x : alloc_inv a Os s -> (cpu < MAX_NCPU)%nat -> x ∈ Os ->
  wp (deallocate_obj cpu x) (fun _ as_ => kept (Os ∖ {[x]}) s as_.2 /\ alloc_inv as_.1 (Os ∖ {[x]}) as_.2) never (a, s).
Proof.
  intros [Hs Hc Hp] Hcpu Hx. unfold deallocate_obj. apply wp_bind, wp_focus. destruct (lookup_lt_is_Some_2 (per_cpu_array_cache a) cpu) as [local_ac Hl]; [by rewrite Hc|].
  apply wp_bind. eapply wp_unwrap; [exact Hl|]. apply wp_bind, wp_lifted. eapply wp_mono; [by apply (place_pool _ _ Os s (S cpu) local_ac x Hp)| |done].
  intros l1 s1 (Hk1 & _ & Hp1). apply wp_bind, set_local_wp. cbn [list_insert] in Hp1. change (<[S cpu:=l1]> (?h :: ?t)) with (h :: <[cpu:=l1]> t) in Hp1.
  assert (Hlen : length (<[cpu := l1]> (per_cpu_array_cache a)) = MAX_NCPU) by (by rewrite length_insert).
  destruct (len l1 <? limit l1); [apply wp_ret; cbn [fst snd]; split; [done|by split]|]. apply wp_bind, wp_focus. cbn [shared_array_cache]. apply wp_bind, wp_lifted.
  assert (Hlt : (cpu < length (per_cpu_array_cache a))%nat) by (by eapply lookup_lt_Some).
  eapply wp_mono; [apply (transfer_pool ord sz OB OL Hsz _ _ _ _ s1 0 (S cpu) (shared_array_cache a) l1 Hp1); [done|done|by apply list_lookup_insert_eq]| |done].
  intros [sh2 l2] s2 (Hk2 & _ & _ & Hp2). cbn [fst snd] in *. apply wp_bind, set_local_wp, wp_bind, set_shared_wp. cbn [mem_cache object_size per_cpu_array_cache shared_array_cache].
  rewrite list_insert_insert_eq. change (<[0%nat:=sh2]> (<[S cpu:=l2]> (?h :: <[cpu:=l1]> ?t))) with (sh2 :: <[cpu:=l2]> (<[cpu:=l1]> t)) in Hp2. rewrite list_insert_insert_eq in Hp2.
  assert (Hlen2 : length (<[cpu := l2]> (per_cpu_array_cache a)) = MAX_NCPU) by (by rewrite length_insert).
  destruct (len sh2 <? limit sh2); [apply wp_ret; cbn [fst snd]; split; [by eapply kept_seq|by split]|].
  apply wp_bind, on_mem_wp. cbn [mem_cache object_size per_cpu_array_cache shared_array_cache]. unfold shrink_to_cache.
  eapply wp_mono; [by apply (shrink_pool ord sz OB OL Hsz _ _ _ _ s2 0 sh2 Hp2)| |done]. intros sh3 [c3 s3] (Hk3 & _ & Hp3). cbn [fst snd] in *.
  apply set_shared_wp. cbn [fst snd mem_cache object_size per_cpu_array_cache shared_array_cache]. split; [by eapply kept_seq; [|eapply kept_seq]|by split].
Qed.

(** Users may write their objects. *)
Lemma alloc_write a Os s x cell : alloc_inv a Os s -> x ∈ Os -> alloc_inv a Os (upd_cell s x cell).
Proof. intros [Hs Hc Hp] Hx. split; [done|done|by apply pool_write]. Qed.

(** ** Dropping the allocator *)

Lemma arrays_frame acs ls s s' : Forall2 (ac_ok s) acs ls -> (forall x, x ∈ concat ls -> cells s' !! x = cells s !! x) -> Forall2 (ac_ok s') acs ls.
Proof.
  intros Hok. induction Hok as [|ac l acs ls Ho Hok IH]; intros Hs; constructor; cbn [concat] in Hs.
  - eapply ac_frame; [exact Ho|]. intros x Hx. apply Hs, elem_of_app. by left.
  - apply IH. intros x Hx. apply Hs, elem_of_app. by right.
Qed.

Lemma drop_lists_wp acs ls s : Forall2 (ac_ok s) acs ls -> NoDup (concat ls) ->
  wp (drop_arrays acs) (fun _ s' => frames s' = frames s /\ forall x, x ∉ concat ls -> cells s' !! x = cells s !! x) never s.
Proof.
  revert ls s. induction acs as [|ac acs IH]; intros ls s Hok Hnd; cbn [drop_arrays]; [by apply wp_ret|].
  apply Forall2_cons_inv_l in Hok as (l & ls' & Ho & Hok & ->). cbn [concat] in *. apply NoDup_app in Hnd as (_ & Hd & Hnd).
  apply wp_bind. eapply wp_mono; [apply (drop_wp _ l), Ho| |done]. intros _ s1 (_ & E2 & E3). eapply wp_mono; [apply (IH ls' s1); [|done]| |done].
  - eapply arrays_frame; [exact Hok|]. intros x Hx. apply E3. intros Hl. by apply (Hd x).
  - intros _ s2 [E4 E5]. split; [congruence|]. intros x Hx. rewrite elem_of_app in Hx. rewrite E5, E3 by tauto. done.
Qed.

(** The page allocator has all the slabs back, and others lose nothing. *)
Lemma drop_allocator_wp a Os s : alloc_inv a Os s -> wp (drop_allocator a) (fun _ s' => fa_ok (frames s') OB OL /\ kept Os s s') never s.
Proof.
  intros [_ _ (ls & Fl & As & [Hm Hlen Hac Hnd Ha Hap])]. unfold drop_allocator. apply wp_bind.
  eapply wp_mono; [by apply (drop_mem_wp ord sz OB OL Hsz _ Fl As)| |done]. intros _ s1 [Hi1 Hc1].
  assert (Hfa : fa_ok (frames s1) OB OL).
  { pose proof (si_frames _ _ _ _ _ _ _ _ Hi1) as Hf. unfold own in Hf. rewrite list_to_set_nil, gset_to_gmap_empty, map_union_empty, union_empty_r_L in Hf. done. }
  destruct ls as [|lsh ls]; [done|]. cbn [concat] in *. pose proof Hnd as (_ & Hd & Hnd')%NoDup_app.
  assert (Hsh : ac_ok s1 (shared_array_cache a) lsh) by (eapply ac_frame; [by apply (Hac 0%nat)|]; intros x _; by rewrite Hc1).
  assert (Hls : Forall2 (ac_ok s1) (per_cpu_array_cache a) ls).
  { apply Forall2_same_length_lookup. split; [by injection Hlen|]. intros i ac l Hi Hl. eapply ac_frame; [by apply (Hac (S i))|]. intros x _. by rewrite Hc1. }
  apply wp_bind. eapply wp_mono; [by apply (drop_lists_wp _ ls)| |done]. intros _ s2 [E1 E2]. eapply wp_mono; [apply (drop_wp _ lsh)| |done].
  - eapply chain_frame; [apply Hsh|]. intros x Hx. apply E2. by apply Hd.
  - intros _ s3 (_ & E3 & E4). split; [by rewrite E3, E1|]. intros x Hx. assert (Hx' : x ∉ lsh /\ x ∉ concat ls).
    { assert (Hn : x ∉ lsh ++ concat ls); [|by rewrite elem_of_app in Hn; tauto]. destruct Hx as [Hx|Hx]; [by apply Hap|]. intros Hin.
      assert (HxA : x ∈ As) by (apply Ha; by right). apply (mi_active _ _ _ _ _ _ _ _ Hm) in HxA as (p & Hp & Hxp & _).
      by eapply (slab_not_others ord sz OB OL Hsz); [apply (mi_slabs _ _ _ _ _ _ _ _ Hm)|..]. }
    rewrite E4, E2 by apply Hx'. by rewrite Hc1.
Qed.

(** ** What users rely on *)

Lemma user_objects a Os s x : alloc_inv a Os s -> x ∈ Os -> exists p, p ∈ current (mem_cache a) /\ aligned ord p /\ x ∈ objs ord sz p.
Proof.
  intros [_ _ (ls & Fl & As & Hp)] Hx. assert (HxA : x ∈ As) by (apply (po_active _ _ _ _ _ _ _ _ _ _ _ Hp); by left). pose proof (po_mem _ _ _ _ _ _ _ _ _ _ _ Hp) as Hm.
  apply (mi_active _ _ _ _ _ _ _ _ Hm) in HxA as (p & Hpc & Hxp & _). exists p. split; [done|]. split; [|done]. eapply slab_facts; [apply (mi_slabs _ _ _ _ _ _ _ _ Hm)|done].
Qed.

(** Objects of users do not overlap. *)
Lemma user_disjoint a Os s x y b : alloc_inv a Os s -> x ∈ Os -> y ∈ Os -> x <= b < x + sz -> y <= b < y + sz -> x = y.
Proof.
  intros Hi Hx Hy Hbx Hby. destruct (user_objects a Os s x Hi Hx) as (p & Hp & Hap & Hxp). destruct (user_objects a Os s y Hi Hy) as (q & Hq & Haq & Hyq).
  pose proof (objs_in_block ord sz Hsz p x Hxp). pose proof (objs_in_block ord sz Hsz q y Hyq).
  assert (p = q) as -> by (apply (aligned_same ord p q b Hap Haq); unfold in_block; lia). by eapply objects_apart.
Qed.

(** Nor do they overlap the memory of others. *)
Lemma user_private a Os s x b : alloc_inv a Os s -> x ∈ Os -> x <= b < x + sz -> ~ covers OB b.
Proof.
  intros Hi Hx Hb (q & k & Hq & Hin). destruct (user_objects a Os s x Hi Hx) as (p & Hp & Hap & Hxp). pose proof (objs_in_block ord sz Hsz p x Hxp).
  destruct Hi as [_ _ (ls & Fl & As & Hpl)]. pose proof (mi_slabs _ _ _ _ _ _ _ _ (po_mem _ _ _ _ _ _ _ _ _ _ _ Hpl)) as Hi.
  assert (p = q) as <-.
  { eapply (fa_disj _ _ _ p ord q k b (si_frames _ _ _ _ _ _ _ _ Hi)); [by eapply slab_block|by apply lookup_union_Some_l|unfold in_block; lia|done]. }
  by rewrite (si_apart _ _ _ _ _ _ _ _ Hi p Hp) in Hq.
Qed.

Lemma sub_lens_spec acs ls s m : Forall2 (ac_ok s) acs ls -> Z.of_nat (length (concat ls)) <= m -> sub_lens m acs = Some (m - Z.of_nat (length (concat ls))).
Proof.
  revert ls m. induction acs as [|ac acs IH]; intros ls m Hok Hm; [apply Forall2_nil_inv_l in Hok as ->; cbn; f_equal; lia|].
  apply Forall2_cons_inv_l in Hok as (l & ls' & [_ Ho] & Hok & ->). cbn [concat sub_lens] in *. rewrite length_app in *. rewrite Ho.
  destruct (Z.ltb_spec m (Z.of_nat (length l))); [lia|]. rewrite (IH ls') by (done || lia). f_equal. lia.
Qed.

(** The statistics count the objects of users. *)
Lemma info_spec a Os s : alloc_inv a Os s -> exists i, info a = Some i /\ i_active_objs i = Z.of_nat (base.size Os) /\
  i_num_objs i = i_num_slabs i * i_objs_per_slab i /\ i_objs_per_slab i = Z.of_nat (per_slab ord sz) /\ i_num_slabs i = Z.of_nat (length (current (mem_cache a))).
Proof.
  intros [_ _ (ls & Fl & As & [Hm Hlen Hac Hnd Ha Hap])]. unfold info.
  assert (Hok : Forall2 (ac_ok s) (shared_array_cache a :: per_cpu_array_cache a) ls) by (apply Forall2_same_length_lookup; split; [done|]; intros i ac l; apply Hac).
  assert (HAs : As = Os ∪ list_to_set (concat ls)) by (apply set_eq; intros x; rewrite elem_of_union, elem_of_list_to_set; apply Ha).
  assert (Hsize : base.size As = (base.size Os + length (concat ls))%nat).
  { rewrite HAs, size_union, size_list_to_set by (done || set_solver). done. }
  rewrite (sub_lens_spec _ ls s) by (done || (rewrite (mi_count _ _ _ _ _ _ _ _ Hm); lia)). eexists. split; [done|]. cbn [i_active_objs i_num_objs i_num_slabs i_objs_per_slab].
  rewrite (mi_count _ _ _ _ _ _ _ _ Hm), (mi_objs _ _ _ _ _ _ _ _ Hm), (mi_total _ _ _ _ _ _ _ _ Hm), (mi_ord _ _ _ _ _ _ _ _ Hm), (mi_sz _ _ _ _ _ _ _ _ Hm).
  rewrite (Z.mul_comm _ PGSIZE), block_size_shift. unfold per_slab. destruct Hsz as (? & ? & _). rewrite Z2Nat.id by (apply Z.div_pos; lia). split; [lia|]. split; [lia|done].
Qed.

(** ** A new allocator *)

Lemma no_slabs s : fa_ok (frames s) OB OL -> (forall p, p ∈ OL -> is_Some (OB !! p)) -> (forall p, slab_free_list (slab_at s p) = None) ->
  slabs_inv ord sz OB OL [] ∅ (fun _ => []) s.
Proof.
  intros Hfa HL Hclean. split; try done.
  - unfold own. by rewrite list_to_set_nil, gset_to_gmap_empty, map_union_empty, union_empty_r_L.
  - constructor.
  - intros p Hp. by apply elem_of_nil in Hp.
  - intros p x Hx. by apply elem_of_nil in Hx.
  - intros p Hp. by apply elem_of_nil in Hp.
Qed.

Lemma new_alloc_inv a align s : SlabAllocator_new sz align = Some a -> align_to sz align = sz -> ord = pgforder_for_slab sz 8 -> fa_ok (frames s) OB OL ->
  (forall p, p ∈ OL -> is_Some (OB !! p)) -> (forall p, slab_free_list (slab_at s p) = None) -> alloc_inv a ∅ s.
Proof.
  intros Hnew Hal Hord Hfa HL Hclean. unfold SlabAllocator_new in Hnew. rewrite Hal in Hnew. destruct ((PGSIZE * 2 <? sz) || (sz <? 8)); [done|]. injection Hnew as <-. split; [done|done|].
  cbn [mem_cache shared_array_cache per_cpu_array_cache]. exists (replicate 9 []), (fun _ => []), ∅. split; cbn [concat app replicate]; try done.
  - assert (Hnil : forall p : Z, p ∉ (@nil Z)) by (intros p; apply not_elem_of_nil). split; try done; try (intros p Hp; by apply Hnil in Hp); [by apply no_slabs| |].
    + intros x. split; [set_solver|]. intros (p & Hp & _). by apply Hnil in Hp.
    + cbn. lia.
  - intros i ac l Hi Hl. assert (l = []) as -> by (do 9 (destruct i as [|i]; [by injection Hl|]); done).
    assert (ac_list ac = None /\ len ac = 0) as [E1 E2]; [|by split]. destruct i as [|i]; [by injection Hi as <-|]. apply (lookup_replicate MAX_NCPU) in Hi as [-> _]. done.
  - constructor.
  - intros x. set_solver.
Qed.
End allocator.
