(* ===== verification/SlabTheorems.v ===== *)
(** * Properties of the slab allocator

    The page allocator of the kernel keeps the promises that the slab
    allocator needs; histories of allocations by any CPUs, with other code
    that uses page frames, refine a memory of separate objects. *)

From S2P Require Import Prelude Superblock Buddy BuddySpec PageCacheSpec BuddyTheorems Slab SlabSpec.

#[local] Open Scope Z_scope.
#[local] Open Scope rw_scope.

#[local] Notation never := (fun _ _ => False).

(** ** The page allocator of the kernel

    The functions of the kernel as one CPU sees them when no other CPU
    interrupts them; BuddyTheorems relates them to the steps of the machine of
    all CPUs. *)

#[export] Instance kernel_frames : FrameAlloc (PageCacheList * BuddyAllocatorImpl) := {
  alloc_frame := global_alloc_by_order;
  free_frame := global_free_by_order;
  frame_order '(_, st) p := Z.to_nat (pgf_order (page_at st p));
  frame_linked '(_, st) p := linked (page_at st p);
  set_frame_linked p b '(c, st) := (c, mkBuddy (<[p := set_linked b (page_at st p)]> (pages st)) (free_area st) (free_size st) (start_address st))
}.

Lemma global_alloc_frame c st F L k : cache_inv c st F L -> (k < MAX_ORDER)%nat -> cached_flags c st ->
  wp (global_alloc_by_order k) (fun o s' => exists F', cache_inv s'.1 s'.2 F' L /\ cached_flags s'.1 s'.2 /\ same_but (available c F) st s'.2 /\
    match o with
    | Some a => aligned k a /\ BASE <= a /\ a + block_size k <= END /\ (forall p, in_block k a p -> available c F p) /\
        buddy_flags (page_at s'.2 a) = Z.of_nat k /\ forall p, available s'.1 F' p <-> available c F p /\ ~ in_block k a p
    | None => forall p, available s'.1 F' p <-> available c F p
    end) never (c, st).
Proof.
  intros Hi Hk Hg. unfold global_alloc_by_order. apply wp_bind, wp_lifted, wp_assert; [by apply Nat.ltb_lt|]. destruct (Nat.eqb_spec k 0) as [->|Hne].
  - eapply wp_mono; [by apply (cache_alloc_spec c st F L)| |done]. intros [a|] [c' st']; cbn [fst snd].
    + intros ((Hal & Hlo & Hhi) & Hin & F' & Hi' & Hav & _ & Hsm & Hfl). destruct (Hfl Hg) as [Hg' Ha]. exists F'. done.
    + intros [_ (F' & [Hi' Hav _ Hsm Hfl])]. exists F'. split; [done|]. split; [by apply Hfl|]. done.
  - apply wp_lifted. eapply wp_mono; [apply (alloc_by_order_frame st F (list_to_set (cache_list c) ∪ L) k), Hi| |done]. intros [a|] st'; cbn [fst snd].
    + intros ((_ & Hlo & Hhi & Hal & Hfree & _ & F' & Hb & _ & Hc) & Hfl & Hsm). assert (Hi' : cache_inv c st' F' L) by (destruct Hi; by split).
      assert (Hout : forall b, b ∈ cache_list c -> ~ covers F b) by (intros b Hb'; exact (cache_not_covered c st F L b Hi Hb')).
      exists F'. split; [done|]. split; [intros b Hb'; rewrite Hsm by (by apply Hout); by apply Hg|]. split; [intros b Hb'; apply Hsm; intros Hc'; apply Hb'; by left|].
      split; [done|]. split; [done|]. split; [done|]. split; [intros p Hp; left; by apply Hfree|]. split; [done|]. intros p. unfold available. rewrite Hc. split.
      * intros [[? ?]|(b & Hb' & Hp)]; [tauto|]. split; [right; by exists b|]. exact (cached_outside c st F L k a b p Hi Hfree Hb' Hp).
      * intros [[?|?] ?]; tauto.
    + intros [-> _]. by exists F.
Qed.

Lemma global_free_frame c st F L k a : cache_inv c st F L -> (k < MAX_ORDER)%nat -> cached_flags c st -> aligned k a /\ BASE <= a /\ a + block_size k <= END ->
  (forall p, in_block k a p -> ~ available c F p /\ p ∉ L) -> buddy_flags (page_at st a) = Z.of_nat k ->
  wp (global_free_by_order a k) (fun _ s' => exists F', cache_inv s'.1 s'.2 F' L /\ cached_flags s'.1 s'.2 /\
    same_but (fun x => available c F x \/ in_block k a x) st s'.2 /\ forall p, available s'.1 F' p <-> available c F p \/ in_block k a p) never (c, st).
Proof.
  intros Hi Hk Hg Ha Hown Hfl. unfold global_free_by_order. apply wp_bind, wp_lifted, wp_assert; [by apply Nat.ltb_lt|]. destruct (Nat.eqb_spec k 0) as [->|Hne].
  - eapply wp_mono; [apply (cache_dealloc_spec c st F L a Hi Ha); [intros p Hp; by apply Hown|apply Hown, in_block_0_self]| |done].
    intros _ [c' st'] (F' & Hi' & Hav & _ & Hsm & Hfl'). exists F'. split; [done|]. split; [by apply Hfl'|]. done.
  - destruct Ha as (Hal & Hlo & Hhi). apply wp_lifted. eapply wp_mono; [apply (free_by_order_frame st F (list_to_set (cache_list c) ∪ L) k a); [apply Hi|]| |done].
    + repeat (split; [done|]). intros p Hp. destruct (Hown p Hp) as [Hn HL]. split; [intros Hc; apply Hn; by left|].
      rewrite elem_of_union, elem_of_list_to_set. intros [Hc|?]; [|done]. apply Hn. right. exists p. split; [done|apply in_block_0_self].
    + intros _ st' (F' & Hb & _ & Hc & Hsm). exists F'. split; [destruct Hi; by split|]. cbn [fst snd]. split; [|split].
      * intros b Hb'. rewrite Hsm; [by apply Hg|]. intros [Hcov|Hin]; [by apply (cache_not_covered c st F L b Hi)|]. apply (proj1 (Hown b Hin)). right. exists b. split; [done|apply in_block_0_self].
      * intros b Hb'. apply Hsm. intros [?|?]; apply Hb'; [left; by left|by right].
      * intros p. unfold available. rewrite Hc. tauto.
Qed.

(** [B] are the blocks in use, [L] those whose page is in a list, and the
    rest of the memory is available. *)
Record kernel_frames_ok (a : PageCacheList * BuddyAllocatorImpl) (B : gmap Z nat) (L : gset Z) (F : gmap Z nat) : Prop := {
  kf_inv : cache_inv a.1 a.2 F L;
  kf_flags : cached_flags a.1 a.2;
  kf_block p k : B !! p = Some k -> (k < MAX_ORDER)%nat /\ (aligned k p /\ BASE <= p /\ p + block_size k <= END) /\ buddy_flags (page_at a.2 p) = Z.of_nat k;
  kf_used p k x : B !! p = Some k -> in_block k p x -> ~ available a.1 F x;
  kf_disj p k q j x : B !! p = Some k -> B !! q = Some j -> in_block k p x -> in_block j q x -> p = q;
  kf_linked p : p ∈ L -> is_Some (B !! p);
  kf_all x : BASE <= x < END -> available a.1 F x \/ covers B x
}.

Lemma flags_order p k : (k < MAX_ORDER)%nat -> buddy_flags p = Z.of_nat k -> Z.to_nat (pgf_order p) = k.
Proof.
  intros Hk Hp. unfold pgf_order, MAX_ORDER in *. rewrite Hp. destruct (flags_facts (Z.of_nat k) ltac:(lia)) as (_ & _ & _ & _ & -> & _). lia.
Qed.

(** Pages in use have a link that is set exactly when they are in [L]. *)
Lemma frames_linked a B L F p k : kernel_frames_ok a B L F -> B !! p = Some k -> ~ available a.1 F p /\ linked (page_at a.2 p) = bool_decide (p ∈ L).
Proof.
  intros [Hi _ Hb Hu _ _ _] Hp. assert (Hin : in_block k p p) by (pose proof (block_size_pos k); unfold in_block; lia). pose proof (Hu p k p Hp Hin) as Hn. split; [done|].
  assert (Hc : ~ covers F p) by (intros Hc; apply Hn; by left). pose proof (ci_inv _ _ _ _ Hi) as Hbi.
  destruct (r_unfree _ _ _ (bi_rep _ _ _ (b_inv _ _ _ Hbi)) p (covers_none_lookup F p Hc)) as [_ ->]. apply bool_decide_ext.
  rewrite elem_of_union, elem_of_list_to_set. split; [|by right]. intros [Hl|?]; [|done]. exfalso. apply Hn. right. exists p. split; [done|apply in_block_0_self].
Qed.

Lemma frames_link a B L F p k (b : bool) : kernel_frames_ok a B L F -> B !! p = Some k ->
  kernel_frames_ok (set_frame_linked p b a) B (if b then {[p]} ∪ L else L ∖ {[p]}) F.
Proof.
  intros Ho Hp. destruct (frames_linked a B L F p k Ho Hp) as [Hn _]. destruct a as [c st]. cbn [fst snd] in *. destruct Ho as [Hi Hg Hb Hu Hd Hl Ha]. cbn [fst snd] in *.
  assert (Hc : ~ covers F p) by (intros Hc; apply Hn; by left).
  assert (Hpc : p ∉ cache_list c) by (intros Hpc; apply Hn; right; exists p; split; [done|apply in_block_0_self]). destruct Hi as [Hbi Hnd Hlen Hpg Hdj].
  destruct (Hb p k Hp) as (Hk & (Hal & Hlo & Hhi) & Hfl). pose proof (block_size_pos k). assert (Hpok : page_ok p).
  { split; [by apply (aligned_down 0 k); [lia|]|]. split; [done|]. change (block_size 0) with 4096. lia. }
  set (L' := if b then {[p]} ∪ L else L ∖ {[p]}).
  assert (HL' : forall q, q ∈ L' -> q = p \/ q ∈ L) by (intros q; unfold L'; destruct b; set_solver).
  split; cbn [fst snd set_frame_linked kernel_frames]; [| | |done|done| |done].
  - change (mkBuddy _ _ _ _) with (upd_page st p (set_linked b (page_at st p))). split; [|done|done| |].
    + replace (list_to_set (cache_list c) ∪ L') with (if b then {[p]} ∪ (list_to_set (cache_list c) ∪ L) else (list_to_set (cache_list c) ∪ L) ∖ {[p]}) by (unfold L'; destruct b; set_solver).
      destruct b; [by apply buddy_inv_link|by apply buddy_inv_unlink].
    + intros q [Hq|Hq]; [apply Hpg; by left|]. destruct (HL' q Hq) as [->|?]; [done|apply Hpg; by right].
    + intros q Hq HqL. destruct (HL' q HqL) as [->|?]; [done|by apply (Hdj q)].
  - intros q Hq. change (mkBuddy _ _ _ _) with (upd_page st p (set_linked b (page_at st p))). rewrite page_upd_page, decide_False by (by intros ->). by apply Hg.
  - intros q j Hq. change (mkBuddy _ _ _ _) with (upd_page st p (set_linked b (page_at st p))). rewrite page_upd_page. destruct (decide (q = p)) as [->|]; [|by apply Hb].
    cbn. assert (j = k) as -> by congruence. by apply Hb.
  - intros q Hq. destruct (HL' q Hq) as [->|?]; [by eexists|by apply Hl].
Qed.

#[export, program] Instance kernel_frames_laws : FrameLaws (PageCacheList * BuddyAllocatorImpl) := {
  fa_ok a B L := exists F, kernel_frames_ok a B L F
}.
Next Obligation.
  intros [c st] B L p k (F & Ho) Hp. destruct (frames_linked _ _ _ _ _ _ Ho Hp) as [_ Hl]. destruct (kf_block _ _ _ _ Ho p k Hp) as (Hk & (Hal & _) & Hfl).
  split; [done|]. split; [by apply flags_order|done].
Qed.
Next Obligation. intros a B L p k q j x (F & Ho). apply Ho. Qed.
Next Obligation.
  intros [c st] B L k (F & Ho) Hk. destruct (Ho) as [Hi Hg Hb Hu Hd Hl Ha]. cbn [fst snd] in *.
  eapply wp_mono; [by apply (global_alloc_frame c st F L k)| |done]. intros [a|] [c' st'] (F' & Hi' & Hg' & Hsm & H1); cbn [fst snd] in *.
  - destruct H1 as (Hal & Hlo & Hhi & Hin & Hfl & Hav). assert (Hself : in_block k a a) by (pose proof (block_size_pos k); unfold in_block; lia).
    assert (HaB : B !! a = None).
    { destruct (B !! a) as [j|] eqn:Haj; [|done]. exfalso. apply (Hu a j a Haj); [pose proof (block_size_pos j); unfold in_block; lia|by apply Hin]. }
    split; [done|]. split; [intros HL; destruct (Hl a HL) as [j Hj]; congruence|]. exists F'. split; cbn [fst snd]; [done|done| | | | |].
    + intros p j. rewrite lookup_insert_Some. intros [[<- <-]|[Hne Hp]]; [done|]. destruct (frames_linked _ _ _ _ _ _ Ho Hp) as [Hn _]. cbn [fst] in Hn.
      rewrite Hsm by done. by apply Hb.
    + intros p j x. rewrite lookup_insert_Some, Hav. intros [[<- <-]|[Hne Hp]] Hx; [tauto|]. intros [Hx' _]. by apply (Hu p j x).
    + intros p j q i x. rewrite !lookup_insert_Some. intros [[<- <-]|[Hne Hp]] [[<- <-]|[Hne' Hq]] Hx Hy; [done| | |by eapply Hd].
      * exfalso. apply (Hu q i x Hq Hy). by apply Hin.
      * exfalso. apply (Hu p j x Hp Hx). by apply Hin.
    + intros p Hp. destruct (Hl p Hp) as [j Hj]. exists j. rewrite lookup_insert_ne; [done|]. intros <-. congruence.
    + intros x Hx. rewrite Hav. destruct (decide (a <= x < a + block_size k)) as [Hin'|Hout]; [right; exists a, k; split; [apply lookup_insert_eq|done]|].
      destruct (Ha x Hx) as [?|(p & j & Hp & Hxp)]; [by left|]. right. exists p, j. split; [|done]. rewrite lookup_insert_ne; [done|]. intros <-. congruence.
  - exists F'. split; cbn [fst snd]; [done|done| | |done|done|].
    + intros p j Hp. destruct (frames_linked _ _ _ _ _ _ Ho Hp) as [Hn _]. rewrite Hsm by done. by apply Hb.
    + intros p j x Hp Hx. rewrite H1. by apply (Hu p j).
    + intros x Hx. rewrite H1. by apply Ha.
Qed.
Next Obligation.
  intros [c st] B L p k (F & Ho) Hp HpL. destruct (Ho) as [Hi Hg Hb Hu Hd Hl Ha]. cbn [fst snd] in *. destruct (Hb p k Hp) as (Hk & Hpos & Hfl).
  assert (Hown : forall x, in_block k p x -> ~ available c F x /\ x ∉ L).
  { intros x Hx. split; [by apply (Hu p k)|]. intros HxL. destruct (Hl x HxL) as [j Hj]. assert (p = x) as <-; [|done].
    apply (Hd p k x j x Hp Hj Hx). pose proof (block_size_pos j). unfold in_block. lia. }
  eapply wp_mono; [by apply (global_free_frame c st F L k p)| |done]. intros _ [c' st'] (F' & Hi' & Hg' & Hsm & Hav). cbn [fst snd] in *.
  exists F'. split; cbn [fst snd]; [done|done| | | | |].
  - intros q j. rewrite lookup_delete_Some. intros [Hne Hq]. destruct (frames_linked _ _ _ _ _ _ Ho Hq) as [Hn _]. cbn [fst] in Hn. rewrite Hsm; [by apply Hb|].
    intros [?|Hin]; [done|]. apply Hne. apply (Hd p k q j q Hp Hq Hin). pose proof (block_size_pos j). unfold in_block. lia.
  - intros q j x. rewrite lookup_delete_Some, Hav. intros [Hne Hq] Hx [Hx'|Hx']; [by apply (Hu q j x)|]. apply Hne. by apply (Hd p k q j x).
  - intros q j r i x. rewrite !lookup_delete_Some. intros [_ Hq] [_ Hr]. by apply Hd.
  - intros q Hq. destruct (Hl q Hq) as [j Hj]. exists j. rewrite lookup_delete_ne; [done|]. by intros ->.
  - intros x Hx. rewrite Hav. destruct (Ha x Hx) as [?|(q & j & Hq & Hxq)]; [left; by left|]. destruct (decide (q = p)) as [->|Hne].
    + assert (j = k) as -> by congruence. left. by right.
    + right. exists q, j. split; [|done]. by rewrite lookup_delete_ne.
Qed.
Next Obligation. intros a B L p k (F & Ho) Hp. exists F. by apply (frames_link a B L F p k true). Qed.
Next Obligation. intros a B L p k (F & Ho) Hp. exists F. by apply (frames_link a B L F p k false). Qed.

(** The kernel has just started. *)
Lemma boot_frames : fa_ok (PageCacheList_new, booted) ∅ ∅.
Proof.
  pose proof init_spec as Hi. unfold wp, booted in *. destruct (BuddyAllocatorImpl_init _ _ _) as [[u|e|] st]; try done. destruct Hi as (F & Hb & _ & _ & Hc).
  exists F. split; cbn [fst snd].
  - by apply empty_cache.
  - intros a Ha. by apply not_elem_of_nil in Ha.
  - intros p k Hp. by rewrite lookup_empty in Hp.
  - intros p k x Hp. by rewrite lookup_empty in Hp.
  - intros p k q j x Hp. by rewrite lookup_empty in Hp.
  - intros p Hp. by apply not_elem_of_empty in Hp.
  - intros x Hx. left. left. by apply Hc.
Qed.

Lemma slab_sizes sz : 8 <= sz <= 8192 -> sizes_ok (pgforder_for_slab sz 8) sz.
Proof.
  intros Hs. destruct (find_order_least (sz * 8) ltac:(lia)) as [Hle _]. change (pgforder_for_slab sz 8) with (Nat.min (find_order (sz * 8)) 5).
  split; [lia|]. split; [|unfold MAX_ORDER; lia]. destruct (Nat.min_spec (find_order (sz * 8)) 5) as [[_ ->]|[_ ->]]; [lia|]. change (block_size 5) with 131072. lia.
Qed.

(** ** Other users of page frames *)

Section others.
Context {A : Type} `{FrameLaws A} (ord : nat) (sz : Z) (Hsz : sizes_ok ord sz).
Implicit Types (s : Frames A) (a : SlabAllocator) (Os : gset Z) (OB : gmap Z nat).
#[local] Notation inv OB := (alloc_inv ord sz OB ∅).

(** The frames of others change. *)
Lemma others_change a Os s OB OB' fr : inv OB a Os s -> fa_ok fr (OB' ∪ own ord (current (mem_cache a))) (∅ ∪ list_to_set (current (mem_cache a))) ->
  (forall p, p ∈ current (mem_cache a) -> OB' !! p = None) -> inv OB' a Os (mkFrames (slabs s) (cells s) fr).
Proof.
  intros [Hs Hc (ls & Fl & As & [Hm Hlen Hac Hnd Ha Hap])] Hf Hn. split; [done|done|]. exists ls, Fl, As. split; try done.
  destruct Hm as [Ho Hz Hi Hfu Hem Hpa Hact Hcn Hob Ht Hl]. split; try done. destruct Hi as [_ Hn1 _ Hk _ Hch Hfr Hsl]. split; try done.
Qed.

Lemma alloc_slabs a Os s OB : inv OB a Os s -> exists Fl, slabs_inv ord sz OB ∅ (current (mem_cache a)) (list_to_set (current (mem_cache a))) Fl s.
Proof. intros [_ _ (ls & Fl & As & Hp)]. exists Fl. apply (mi_slabs _ _ _ _ _ _ _ _ (po_mem _ _ _ _ _ _ _ _ _ _ _ Hp)). Qed.

Lemma take_frame_wp a Os s OB k : inv OB a Os s -> (k < MAX_ORDER)%nat ->
  wp (on_frames (alloc_frame k)) (fun o s' => slabs s' = slabs s /\ cells s' = cells s /\
    match o with Some p => OB !! p = None /\ inv (<[p := k]> OB) a Os s' | None => inv OB a Os s' end) never s.
Proof.
  intros Hi Hk. destruct (alloc_slabs a Os s OB Hi) as (Fl & Hs). apply on_frames_wp. eapply wp_mono; [eapply fa_alloc; [apply (si_frames _ _ _ _ _ _ _ _ Hs)|done]| |done].
  intros [p|] fr; cbn [slabs cells].
  - intros (HB & _ & Hf). apply lookup_union_None in HB as [HpO HpS]. split; [done|]. split; [done|]. split; [done|]. apply (others_change a Os s OB); [done| |].
    + by rewrite <- insert_union_l.
    + intros q Hq. rewrite lookup_insert_ne; [by eapply si_apart|]. intros <-. assert (own ord (current (mem_cache a)) !! p = Some ord) by (by apply own_lookup). congruence.
  - intros Hf. split; [done|]. split; [done|]. apply (others_change a Os s OB); [done|done|]. by apply (si_apart _ _ _ _ _ _ _ _ Hs).
Qed.

Lemma release_frame_wp a Os s OB p k : inv OB a Os s -> OB !! p = Some k ->
  wp (on_frames (free_frame p k)) (fun _ s' => slabs s' = slabs s /\ cells s' = cells s /\ inv (delete p OB) a Os s') never s.
Proof.
  intros Hi Hp. destruct (alloc_slabs a Os s OB Hi) as (Fl & Hs). assert (HpS : p ∉ current (mem_cache a)).
  { intros HpS. by rewrite (si_apart _ _ _ _ _ _ _ _ Hs p HpS) in Hp. }
  apply on_frames_wp. eapply wp_mono; [eapply fa_free; [apply (si_frames _ _ _ _ _ _ _ _ Hs)|by apply lookup_union_Some_l|]| |done].
  { rewrite union_empty_l_L. by rewrite elem_of_list_to_set. }
  intros u fr Hf. cbn beta in Hf. cbn [slabs cells]. split; [done|]. split; [done|]. apply (others_change a Os s OB); [done| |].
  - rewrite delete_union, (delete_id (own _ _)) in Hf; [done|]. destruct (own ord _ !! p) as [j|] eqn:Hj; [|done]. by apply own_lookup in Hj as [? _].
  - intros q Hq. apply lookup_delete_None. right. by apply (si_apart _ _ _ _ _ _ _ _ Hs).
Qed.

(** [x] is in no list that a descriptor of a page still has. *)
Definition no_stale_list s x : Prop := forall p l, chain (cells s) (slab_free_list (slab_at s p)) l -> x ∉ l.

Lemma store_frame a Os s OB x cell : inv OB a Os s -> covers OB x -> no_stale_list s x -> inv OB a Os (upd_cell s x cell).
Proof.
  intros [Hs Hc (ls & Fl & As & Hp)] Hx Hstale. split; [done|done|]. exists ls, Fl, As. pose proof (po_mem _ _ _ _ _ _ _ _ _ _ _ Hp) as Hm.
  eapply pool_mem; [exact Hp| | |apply Hp|apply Hp].
  - apply mem_write; [done|]. intros p. apply (Hstale p). apply (mi_slabs _ _ _ _ _ _ _ _ Hm).
  - intros y Hy. cbn. apply lookup_insert_ne. intros <-. eapply (cached_outside_others ord sz OB ∅ Hsz); [exact Hp| |exact Hx].
    apply (po_active _ _ _ _ _ _ _ _ _ _ _ Hp). by right.
Qed.
End others.

(** ** Histories

    CPUs allocate and free objects, their owners write them, and other code
    takes, writes and releases page frames. *)

Inductive Call : Type :=
| CAlloc (cpu : nat)
| CFree (cpu : nat) (x : Z)
| CWrite (x : Z) (bytes : list Z)
| CTake (order : nat)
| CStore (x : Z) (bytes : list Z)
| CRelease (p : Z).

Record System (A : Type) : Type := mkSys { allocator : SlabAllocator; memory : Frames A; theirs : gmap Z nat }.
Arguments mkSys {A} _ _ _.
Arguments allocator {A} _.
Arguments memory {A} _.
Arguments theirs {A} _.

Section history.
Context {A : Type} `{FrameLaws A}.
Implicit Types (sys : System A).

Definition run_call (c : Call) sys : outcome Fault (option Z * System A) :=
  match c with
  | CAlloc cpu =>
    match allocate_obj cpu (allocator sys, memory sys) with
    | (Ok o, (a, s)) => Ok (o, mkSys a s (theirs sys))
    | (Err e, _) => Err e
    | (Panic, _) => Panic
    end
  | CFree cpu x =>
    match deallocate_obj cpu x (allocator sys, memory sys) with
    | (Ok _, (a, s)) => Ok (None, mkSys a s (theirs sys))
    | (Err e, _) => Err e
    | (Panic, _) => Panic
    end
  | CWrite x bytes | CStore x bytes => Ok (None, mkSys (allocator sys) (upd_cell (memory sys) x (Data bytes)) (theirs sys))
  | CTake order =>
    match on_frames (alloc_frame order) (memory sys) with
    | (Ok (Some p), s) => Ok (Some p, mkSys (allocator sys) s (<[p := order]> (theirs sys)))
    | (Ok None, s) => Ok (None, mkSys (allocator sys) s (theirs sys))
    | (Err e, _) => Err e
    | (Panic, _) => Panic
    end
  | CRelease p =>
    match theirs sys !! p with
    | None => Ok (None, sys)
    | Some k =>
      match on_frames (free_frame p k) (memory sys) with
      | (Ok _, s) => Ok (None, mkSys (allocator sys) s (delete p (theirs sys)))
      | (Err e, _) => Err e
      | (Panic, _) => Panic
      end
    end
  end.

Fixpoint run_calls (cs : list Call) sys : outcome Fault (list (option Z) * System A) :=
  match cs with
  | [] => Ok ([], sys)
  | c :: cs' =>
    match run_call c sys with
    | Ok (o, sys1) =>
      match run_calls cs' sys1 with
      | Ok (os, sys2) => Ok (o :: os, sys2)
      | Err e => Err e
      | Panic => Panic
      end
    | Err e => Err e
    | Panic => Panic
    end
  end.

(** ** What the allocator promises

    A memory of objects of [sz] bytes that do not overlap; an object has no
    contents until its owner writes it. *)
#[local] Notation Objects := (gmap Z (option (list Z))).

Inductive spec (sz : Z) : Objects -> Call -> option Z -> Objects -> Prop :=
| spec_alloc O cpu x : O !! x = None -> (forall y b, is_Some (O !! y) -> x <= b < x + sz -> ~ y <= b < y + sz) -> spec sz O (CAlloc cpu) (Some x) (<[x := None]> O)
| spec_no_memory O cpu : spec sz O (CAlloc cpu) None O
| spec_free O cpu x : spec sz O (CFree cpu x) None (delete x O)
| spec_write O x bytes : spec sz O (CWrite x bytes) None (<[x := Some bytes]> O)
| spec_take O order o : spec sz O (CTake order) o O
| spec_store O x bytes : spec sz O (CStore x bytes) None O
| spec_release O p : spec sz O (CRelease p) None O.

Inductive specs (sz : Z) : Objects -> list Call -> list (option Z) -> Objects -> Prop :=
| specs_nil O : specs sz O [] [] O
| specs_cons O c o O1 cs os O2 : spec sz O c o O1 -> specs sz O1 cs os O2 -> specs sz O (c :: cs) (o :: os) O2.

(** What callers promise: objects are freed and written by their owners only,
    and other code does not write memory that a list of an old slab still
    goes through. *)
Definition call_ok sys (O : Objects) (c : Call) : Prop :=
  match c with
  | CAlloc cpu => (cpu < MAX_NCPU)%nat
  | CFree cpu x => (cpu < MAX_NCPU)%nat /\ is_Some (O !! x)
  | CWrite x _ => is_Some (O !! x)
  | CTake order => (order < MAX_ORDER)%nat
  | CStore x _ => covers (theirs sys) x /\ no_stale_list (memory sys) x
  | CRelease p => True
  end.

Fixpoint calls_ok (sz : Z) (cs : list Call) sys (O : Objects) : Prop :=
  match cs with
  | [] => True
  | c :: cs' => call_ok sys O c /\ forall o sys' O', run_call c sys = Ok (o, sys') -> spec sz O c o O' -> calls_ok sz cs' sys' O'
  end.

(** The allocator has the objects, and they hold what was written. *)
Definition contents (s : Frames A) (O : Objects) : Prop := forall x bytes, O !! x = Some (Some bytes) -> cells s !! x = Some (Data bytes).

Record system_ok (ord : nat) (sz : Z) sys (O : Objects) : Prop := {
  sy_alloc : alloc_inv ord sz (theirs sys) ∅ (allocator sys) (dom O) (memory sys);
  sy_contents : contents (memory sys) O
}.

Lemma contents_kept OB s s' (O : Objects) Os : contents s O -> kept OB Os s s' -> (forall x, is_Some (O !! x) -> x ∈ Os) -> contents s' O.
Proof. intros Hc Hk Hd x bytes Hx. rewrite Hk; [by apply Hc|]. left. apply Hd. by eexists. Qed.

Lemma slab_call ord sz sys O c : sizes_ok ord sz -> system_ok ord sz sys O -> call_ok sys O c ->
  exists o sys' O', run_call c sys = Ok (o, sys') /\ spec sz O c o O' /\ system_ok ord sz sys' O'.
Proof.
  intros Hsz [Hi Hct] Hc. destruct sys as [a s th]. cbn [allocator memory theirs] in *. destruct c as [cpu|cpu x|x bytes|k|x bytes|p]; cbn [call_ok run_call allocator memory theirs] in *.
  - pose proof (allocate_obj_wp ord sz th ∅ Hsz a (dom O) s cpu Hi Hc) as Hw. unfold wp in Hw. destruct (allocate_obj cpu (a, s)) as [[o|e|] [a' s']]; [|done|done].
    destruct Hw as [Hk Ho]. cbn [fst snd] in *. exists o, (mkSys a' s' th). assert (Hct' : contents s' O) by (eapply contents_kept; [done|exact Hk|]; intros x Hx; by apply elem_of_dom).
    destruct o as [x|]; [|exists O; split; [done|]; split; [constructor|by split]]. destruct Ho as [Hx Hi']. exists (<[x := None]> O). split; [done|]. apply not_elem_of_dom in Hx as Hx'. split.
    + constructor; [done|]. intros y b Hy Hb Hb'. apply Hx. assert (x = y) as ->; [|by apply elem_of_dom].
      eapply (user_disjoint ord sz th ∅ Hsz); [exact Hi'|set_solver| |exact Hb|exact Hb']. apply elem_of_union. right. by apply elem_of_dom.
    + split; cbn [allocator memory theirs]; [by rewrite dom_insert_L|]. intros y bytes. rewrite lookup_insert_Some. intros [[_ ?]|[_ Hy]]; [done|by apply Hct'].
  - destruct Hc as [Hcpu Hx]. apply elem_of_dom in Hx as Hx'. pose proof (deallocate_obj_wp ord sz th ∅ Hsz a (dom O) s cpu x Hi Hcpu Hx') as Hw. unfold wp in Hw.
    destruct (deallocate_obj cpu x (a, s)) as [[[]|e|] [a' s']]; [|done|done]. destruct Hw as [Hk Hi']. cbn [fst snd] in *. exists None, (mkSys a' s' th), (delete x O).
    split; [done|]. split; [constructor|]. split; cbn [allocator memory theirs]; [by rewrite dom_delete_L|]. intros y bytes. rewrite lookup_delete_Some. intros [Hne Hy].
    rewrite Hk; [by apply Hct|]. left. apply elem_of_difference. split; [apply elem_of_dom; by eexists|set_solver].
  - eexists None, _, (<[x := Some bytes]> O). split; [done|]. split; [constructor|]. apply elem_of_dom in Hc as Hx. split; cbn [allocator memory theirs].
    + rewrite dom_insert_lookup_L by done. by apply alloc_write.
    + intros y b. cbn. rewrite !lookup_insert_Some. intros [[<- [= <-]]|[Hne Hy]]; [by left|]. right. split; [done|by apply Hct].
  - pose proof (take_frame_wp ord sz a (dom O) s th k Hi Hc) as Hw. unfold wp in Hw. destruct (on_frames (alloc_frame k) s) as [[[p|]|e|] s']; [| |done|done].
    + destruct Hw as (_ & Hce & _ & Hi'). eexists _, _, O. split; [done|]. split; [constructor|]. split; [done|]. intros x bytes Hx. cbn. rewrite Hce. by apply Hct.
    + destruct Hw as (_ & Hce & Hi'). eexists _, _, O. split; [done|]. split; [constructor|]. split; [done|]. intros x bytes Hx. cbn. rewrite Hce. by apply Hct.
  - destruct Hc as [Hcov Hst]. eexists None, _, O. split; [done|]. split; [constructor|]. split; cbn [allocator memory theirs]; [by apply store_frame|].
    intros y b Hy. cbn. rewrite lookup_insert_ne; [by apply Hct|]. intros <-. assert (Hxd : x ∈ dom O) by (apply elem_of_dom; by eexists).
    pose proof (proj1 Hsz) as Hpos. eapply (user_private ord sz th ∅ Hsz); [exact Hi|exact Hxd| |exact Hcov]. lia.
  - destruct (th !! p) as [k|] eqn:Hp; [|eexists None, _, O; split; [done|]; split; [constructor|by split]].
    pose proof (release_frame_wp ord sz a (dom O) s th p k Hi Hp) as Hw. unfold wp in Hw. destruct (on_frames (free_frame p k) s) as [[u|e|] s']; [|done|done].
    destruct Hw as (_ & Hce & Hi'). eexists _, _, O. split; [done|]. split; [constructor|]. split; [done|]. intros x bytes Hx. cbn. rewrite Hce. by apply Hct.
Qed.

Lemma slab_calls_done ord sz cs : forall sys O, sizes_ok ord sz -> system_ok ord sz sys O -> calls_ok sz cs sys O ->
  exists os sys' O', run_calls cs sys = Ok (os, sys') /\ specs sz O cs os O' /\ system_ok ord sz sys' O'.
Proof.
  induction cs as [|c cs IH]; intros sys O Hsz Hs Hc; cbn [run_calls].
  { exists [], sys, O. split; [done|]. split; [constructor|done]. }
  destruct Hc as [Hc Hcs]. destruct (slab_call ord sz sys O c Hsz Hs Hc) as (o & sys1 & O1 & Hr & Hsp & Hs1). rewrite Hr.
  destruct (IH sys1 O1 Hsz Hs1 (Hcs o sys1 O1 Hr Hsp)) as (os & sys2 & O2 & -> & Hsp2 & Hs2). exists (o :: os), sys2, O2. split; [done|]. split; [by econstructor|done].
Qed.

(** C13. The slab allocator, with its slabs, its array caches and the page allocator below, is a memory of
    separate objects: in every history of allocations, releases and writes by any CPUs, and of page frames
    that other code takes, writes and gives back, no operation stops the kernel or follows a wild pointer; a
    new object overlaps no other object; and every object holds what its owner wrote last.  Other code must
    not write memory that the list of a former slab still goes through. *)
Theorem slab_refines ord sz cs sys O : sizes_ok ord sz -> system_ok ord sz sys O -> calls_ok sz cs sys O ->
  exists os sys' O', run_calls cs sys = Ok (os, sys') /\ specs sz O cs os O' /\ system_ok ord sz sys' O'.
Proof. intros Hsz Hs Hc. by apply slab_calls_done. Qed.

(** C14. No memory gets lost in the caches: after every history the statistics count exactly the objects
    that users have, and when the allocator is dropped the page allocator has every frame back except those
    of other code, although lists of free objects still lead through the frames. *)
Theorem slab_no_leak ord sz cs sys O : sizes_ok ord sz -> system_ok ord sz sys O -> calls_ok sz cs sys O ->
  exists os sys' O' i s', run_calls cs sys = Ok (os, sys') /\ specs sz O cs os O' /\
    info (allocator sys') = Some i /\ i_active_objs i = Z.of_nat (base.size O') /\ i_num_objs i = i_num_slabs i * i_objs_per_slab i /\
    drop_allocator (allocator sys') (memory sys') = (Ok tt, s') /\ fa_ok (frames s') (theirs sys') ∅.
Proof.
  intros Hsz Hs Hc. destruct (slab_calls_done ord sz cs sys O Hsz Hs Hc) as (os & sys' & O' & Hr & Hsp & [Hi' _]).
  destruct (info_spec ord sz (theirs sys') ∅ Hsz _ _ _ Hi') as (i & Hinfo & Ha & Hn & _). rewrite size_dom in Ha.
  pose proof (drop_allocator_wp ord sz (theirs sys') ∅ Hsz _ _ _ Hi') as Hd. unfold wp in Hd. destruct (drop_allocator (allocator sys') (memory sys')) as [[[]|e|] s'] eqn:Hdrop; [|done|done].
  exists os, sys', O', i, s'. destruct Hd as [Hf _]. done.
Qed.
End history.

(** ** A kernel with one allocator *)

Definition demo_allocator : SlabAllocator := default (mkAllocator 0 (SlabMemCache_new 0) [] (ArrayCache_new 0 0)) (SlabAllocator_new 4096 8).
Definition demo : System (PageCacheList * BuddyAllocatorImpl) := mkSys demo_allocator (mkFrames ∅ ∅ (PageCacheList_new, booted)) ∅.

Lemma demo_sizes : sizes_ok 3 4096.
Proof. split; [done|]. split; [done|]. unfold MAX_ORDER. lia. Qed.

Lemma one_allocator_ok : system_ok 3 4096 demo ∅.
Proof.
  split; [|intros x bytes Hx; by rewrite lookup_empty in Hx]. rewrite dom_empty_L.
  apply (new_alloc_inv 3 4096 ∅ ∅ demo_sizes demo_allocator 8); [done|done|done|apply boot_frames|intros p Hp; by apply not_elem_of_empty in Hp|done].
Qed.

(** The object that the first allocation gives. *)
Definition demo_object : Z := match run_call (CAlloc 0) demo with Ok (Some x, _) => x | _ => 0 end.

Definition demo_calls : list Call := [CAlloc 0; CWrite demo_object [1; 2]; CTake 3; CAlloc 1; CFree 1 demo_object].

Lemma demo_first o sys : run_call (CAlloc 0) demo = Ok (o, sys) -> o = Some demo_object.
Proof.
  intros Hr. assert (Hs : match run_call (CAlloc 0) demo with Ok (Some x, _) => true | _ => false end = true) by (vm_compute; reflexivity).
  unfold demo_object. rewrite Hr in *. by destruct o.
Qed.

Lemma spec_inv sz O c o O' : spec sz O c o O' ->
  match c with
  | CAlloc _ => match o with Some x => O' = <[x := None]> O | None => O' = O end
  | CFree _ x => O' = delete x O
  | CWrite x bytes => O' = <[x := Some bytes]> O
  | CTake _ | CStore _ _ | CRelease _ => O' = O
  end.
Proof. by destruct 1. Qed.

Lemma one_allocator_calls : calls_ok 4096 demo_calls demo ∅.
Proof.
  split; [unfold call_ok, MAX_NCPU; lia|]. intros o1 s1 O1 Hr1 Hs1. apply demo_first in Hr1. subst o1. apply spec_inv in Hs1. cbn in Hs1. subst O1.
  split; [cbn; rewrite lookup_insert_eq; by eexists|]. intros o2 s2 O2 _ Hs2. apply spec_inv in Hs2. cbn in Hs2. subst O2.
  split; [unfold call_ok, MAX_ORDER; lia|]. intros o3 s3 O3 _ Hs3. apply spec_inv in Hs3. cbn in Hs3. subst O3.
  split; [unfold call_ok, MAX_NCPU; lia|]. intros o4 s4 O4 _ Hs4. apply spec_inv in Hs4. cbn in Hs4.
  split; [|done]. split; [unfold MAX_NCPU; lia|]. apply elem_of_dom. destruct o4 as [y|]; subst O4; rewrite ?dom_insert_L; set_solver.
Qed.

Lemma slab_refines_witness : exists os sys' O', run_calls demo_calls demo = Ok (os, sys') /\ specs 4096 ∅ demo_calls os O' /\ system_ok 3 4096 sys' O'.
Proof. exact (slab_refines 3 4096 demo_calls demo ∅ demo_sizes one_allocator_ok one_allocator_calls). Defined.

Lemma slab_no_leak_witness : exists os sys' O' i s', run_calls demo_calls demo = Ok (os, sys') /\ specs 4096 ∅ demo_calls os O' /\
  info (allocator sys') = Some i /\ i_active_objs i = Z.of_nat (base.size O') /\ i_num_objs i = i_num_slabs i * i_objs_per_slab i /\
  drop_allocator (allocator sys') (memory sys') = (Ok tt, s') /\ fa_ok (frames s') (theirs sys') ∅.
Proof. exact (slab_no_leak 3 4096 demo_calls demo ∅ demo_sizes one_allocator_ok one_allocator_calls). Defined.

(** ** Lists of former slabs *)

(** 200 objects are allocated and freed again, so that slabs are dropped;
    other code takes the frame of one of them, and gives it back, with or
    without having written it; and objects are allocated again. *)
Definition allocs : list Call := replicate 200 (CAlloc 0).
Definition frees : list Call :=
  match run_calls allocs demo with Ok (os, _) => CFree 0 <$> omap id os | _ => [] end.
Definition reused : Z :=
  match run_calls (allocs ++ frees ++ [CTake 3]) demo with Ok (os, _) => default 0 (mjoin (last os)) | _ => 0 end.
Definition reuse (write : bool) : list Call :=
  allocs ++ frees ++ [CTake 3] ++ (if write then (fun i => CStore (reused + 4096 * i) [1]) <$> seqZ 0 8 else []) ++ [CRelease reused] ++ allocs.

(** A slab that is dropped leaves its list of free objects in the descriptor of its page.  When the
    frame becomes a slab again that list is dropped, which follows links through memory that other code has
    used in between: the kernel follows a wild pointer.  The same history without the write is harmless. *)
Theorem slab_stale_list : run_calls (reuse true) demo = Err WildPointer /\ exists os sys, run_calls (reuse false) demo = Ok (os, sys).
Proof.
  split; [vm_compute; reflexivity|]. assert (Hr : match run_calls (reuse false) demo with Ok _ => true | _ => false end = true) by (vm_compute; reflexivity).
  destruct (run_calls (reuse false) demo) as [[os sys]|e|]; [by exists os, sys|done|done].
Qed.

(** ** Sizes of the heap *)

Definition class_ok (size : Z) : bool :=
  match slab_allocator_for_sz size with
  | Some c =>
    (size <=? c) && (8 <=? c) && (c <=? 8192) && forallb (fun c' => (c' <? size) || (c <=? c')) SLAB_ALLOCATORS &&
    forallb (fun j => negb (size mod 2 ^ j =? 0) || (c mod 2 ^ j =? 0) && (block_size (pgforder_for_slab c 8) mod 2 ^ j =? 0)) (seqZ 0 14)
  | None => false
  end.

Lemma classes_ok : forallb class_ok (seqZ 1 8192) = true.
Proof. by vm_compute. Qed.

(** Every request of 1 to 8192 bytes is served by the smallest allocator whose objects hold it, and the
    objects of that allocator are aligned as the request needs, when its size is a multiple of its
    alignment, as the sizes of types are. *)
Theorem heap_layout size j (Hs : 1 <= size <= 8192) (Hj : 0 <= j) (Hdiv : size mod 2 ^ j = 0) :
  exists c, slab_allocator_for_sz size = Some c /\ size <= c /\ (forall c', c' ∈ SLAB_ALLOCATORS -> size <= c' -> c <= c') /\
    forall p x, aligned (pgforder_for_slab c 8) p -> x ∈ objs (pgforder_for_slab c 8) c p -> x mod 2 ^ j = 0.
Proof.
  pose proof (proj1 (forallb_forall _ _) classes_ok size) as Hc. unfold class_ok in Hc.
  destruct (slab_allocator_for_sz size) as [c|]; [|assert (false = true) by (apply Hc, list_elem_of_In, elem_of_seqZ; lia); done].
  specialize (Hc ltac:(apply list_elem_of_In, elem_of_seqZ; lia)). rewrite !andb_true_iff, !Z.leb_le in Hc. destruct Hc as ((((H1 & _) & _) & H2) & H3).
  exists c. split; [done|]. split; [done|]. split.
  - intros c' Hc' Hle. apply list_elem_of_In in Hc'. pose proof (proj1 (forallb_forall _ _) H2 c' Hc') as H4. rewrite orb_true_iff, Z.ltb_lt, Z.leb_le in H4. lia.
  - intros p x Hp (i & _ & ->)%elem_of_objects. assert (Hj14 : j < 14).
    { destruct (Z_lt_le_dec j 14) as [|Hge]; [done|]. assert (2 ^ 14 <= 2 ^ j) by (apply Z.pow_le_mono_r; lia). rewrite Z.mod_small in Hdiv by lia. lia. }
    pose proof (proj1 (forallb_forall _ _) H3 j ltac:(apply list_elem_of_In, elem_of_seqZ; lia)) as H4. cbn beta in H4. rewrite Hdiv in H4. cbn [negb orb Z.eqb] in H4.
    rewrite andb_true_iff, !Z.eqb_eq in H4. destruct H4 as [H4 H5]. assert (0 < 2 ^ j) by (apply Z.pow_pos_nonneg; lia).
    apply Z.mod_divide in H4, H5; [|lia..]. apply Z.mod_divide; [lia|]. apply Z.divide_add_r; [|by apply Z.divide_mul_l].
    apply aligned_divide in Hp. replace p with (p - BASE + BASE) by lia. apply Z.divide_add_r; [by etrans|].
    assert (Hbase : (2 ^ 16 | BASE)) by (exists 53248; reflexivity). etrans; [|exact Hbase]. exists (2 ^ (16 - j)). rewrite <- Z.pow_add_r by lia. f_equal. lia.
Qed.

Lemma heap_layout_witness : exists c, slab_allocator_for_sz 96 = Some c /\ 96 <= c /\ (forall c', c' ∈ SLAB_ALLOCATORS -> 96 <= c' -> c <= c') /\
  forall p x, aligned (pgforder_for_slab c 8) p -> x ∈ objs (pgforder_for_slab c 8) c p -> x mod 2 ^ 5 = 0.
Proof. apply (heap_layout 96 5); [lia|lia|reflexivity]. Defined.
