(* ===== verification/Shell.v ===== *)
(** * The command line parser of the shell (src/user/src/sh)

    [parser.rs] has a tokenizer over characters and a recursive descent parser
    over a peekable stream of tokens; [ast.rs] the syntax trees and [utils.rs]
    the strings with escapes.  A [str] is its list of characters, a character
    its code point.  Slices of a [str] are taken by byte offsets, so the bytes
    that a character takes in UTF-8 matter. *)

From S2P Require Import Prelude.

#[local] Open Scope Z_scope.
#[local] Open Scope rw_scope.

(** ** [str] *)

Notation chr_backslash := 92.
Notation chr_dquote := 34.
Notation chr_squote := 39.
Notation chr_dollar := 36.

(** [char::len_utf8] *)
Definition len_utf8 (c : Z) : nat :=
  if c <? 0x80 then 1%nat else if c <? 0x800 then 2%nat else if c <? 0x10000 then 3%nat else 4%nat.

Fixpoint skip_bytes (l : list Z) (n : nat) : option (list Z) :=
  match n, l with
  | O, _ => Some l
  | _, [] => None
  | _, c :: l' => if (len_utf8 c <=? n)%nat then skip_bytes l' (n - len_utf8 c) else None
  end.

Fixpoint take_bytes (l : list Z) (n : nat) : option (list Z) :=
  match n, l with
  | O, _ => Some []
  | _, [] => None
  | _, c :: l' => if (len_utf8 c <=? n)%nat then cons c <$> take_bytes l' (n - len_utf8 c) else None
  end.

(** [&str[a..b]]: [None] when an end is out of range or inside of a character. *)
Definition slice_str (l : list Z) (a b : nat) : option (list Z) :=
  if (b <? a)%nat then None else skip_bytes l a ≫= fun l' => take_bytes l' (b - a).

(** [char::is_whitespace], the Unicode property [White_Space]. *)
Definition is_whitespace (c : Z) : bool :=
  (0x9 <=? c) && (c <=? 0xD) || (c =? 0x20) || (c =? 0x85) || (c =? 0xA0) || (c =? 0x1680) ||
  (0x2000 <=? c) && (c <=? 0x200A) || (c =? 0x2028) || (c =? 0x2029) || (c =? 0x202F) || (c =? 0x205F) || (c =? 0x3000).

(** ** Strings with escapes (utils.rs) *)

Record EscapeStr : Type := mkEscapeStr { str : list Z; needs_escape : bool }.

#[export] Instance EscapeStr_eq_dec : EqDecision EscapeStr.
Proof. solve_decision. Defined.

Definition escape_char (ch : Z) : bool := (ch =? chr_squote) || (ch =? chr_dquote) || (ch =? chr_backslash).

(** The loop of [fmt]: a backslash before a quote or a backslash is dropped;
    a backslash at the end is dropped as well. *)
Fixpoint unescape (l : list Z) : list Z :=
  match l with
  | [] => []
  | ch :: l' =>
    if ch =? chr_backslash then
      match l' with
      | [] => []
      | c :: l'' => if escape_char c then c :: unescape l'' else chr_backslash :: unescape l'
      end
    else ch :: unescape l'
  end.

Definition EscapeStr_fmt (s : EscapeStr) : list Z := if needs_escape s then unescape (str s) else str s.

(** ** Syntax trees (ast.rs) *)

Record VarString : Type := mkVarString { is_var : bool; vstr : EscapeStr }.

Inductive ShellAst : Type :=
| Empty
| List (l : list ShellAst)
| Exec (args : list VarString)
| Background (e : ShellAst)
| Redirect (is_output : bool) (cmd : ShellAst) (file_name : VarString) (append : bool)
| Pipe (left right : ShellAst).

(** ** Tokens *)

Inductive Token : Type :=
| TString (s : EscapeStr)
| TVariable (s : EscapeStr)
| BitOr | BitAnd | GtGt | Gt | Lt_ | LeftParen | RightParen | Semi | Eof.

#[export] Instance Token_eq_dec : EqDecision Token.
Proof. solve_decision. Defined.

Definition Token_fmt (t : Token) : list Z :=
  match t with
  | TString s => EscapeStr_fmt s
  | TVariable s => bytes_of "var(" ++ EscapeStr_fmt s ++ bytes_of ")"
  | BitOr => bytes_of "|"
  | BitAnd => bytes_of "&"
  | GtGt => bytes_of ">>"
  | Gt => bytes_of ">"
  | Lt_ => bytes_of "<"
  | LeftParen => bytes_of "("
  | RightParen => bytes_of ")"
  | Semi => bytes_of ";"
  | Eof => bytes_of "<EOF>"
  end.

(** [SyntaxError]: its message. *)
Record SyntaxError : Type := mkSyntaxError { msg : list Z }.

(** ** The tokenizer *)

Notation EOF := 0.
Definition SPECIAL_CHARS : list Z := 0 :: bytes_of "|&'" ++ chr_dquote :: bytes_of "<>;()".

(** [chars] is what the iterator has left. *)
Record Tokenizer : Type := mkTokenizer { buf : list Z; chars : list Z; pos : nat }.

Definition Tokenizer_new (s : list Z) : Tokenizer := mkTokenizer s s 0.

#[local] Notation TM := (M Tokenizer SyntaxError).

Definition t_consume : TM unit :=
  modify (fun t => match chars t with [] => t | _ :: r => mkTokenizer (buf t) r (pos t + 1) end).

Definition peek_of (l : list Z) : Z := default EOF (head l).

Definition t_peek : TM Z := do t <- get; ret (peek_of (chars t)).

Definition t_got (expected : Z) : TM bool :=
  do c <- t_peek; if c =? expected then t_consume;; ret true else ret false.

Definition match_char (expected : Z) : TM unit :=
  do c <- t_peek;
  if negb (c =? expected) then fail (mkSyntaxError (bytes_of "unexpected char '" ++ c :: bytes_of "'"))
  else t_consume.

(** [while f(self.peek()) { self.consume() }], for an [f] that is false on
    the end of the input. *)
Fixpoint consume_while (f : Z -> bool) (l : list Z) (p : nat) : list Z * nat :=
  match l with
  | c :: r => if f c then consume_while f r (p + 1) else (l, p)
  | [] => ([], p)
  end.

Definition run_scan (scan : list Z -> nat -> list Z * nat) : TM unit :=
  modify (fun t => let (r, p) := scan (chars t) (pos t) in mkTokenizer (buf t) r p).

Definition skip_whitespace : TM unit := run_scan (consume_while is_whitespace).

(** The loop of [consume_until]; [terminal] is not [EOF]. *)
Fixpoint until (terminal : Z) (escaped : bool) (l : list Z) (p : nat) : list Z * nat :=
  match l with
  | [] => ([], p)
  | ch :: r =>
    if (ch =? terminal) || (ch =? EOF) then (l, p)
    else if escaped && (ch =? chr_backslash) then
      match r with
      | c :: r' => if c =? terminal then until terminal escaped r' (p + 2) else until terminal escaped r (p + 1)
      | [] => ([], (p + 1)%nat)
      end
    else until terminal escaped r (p + 1)
  end.

Definition consume_until (terminal : Z) (escaped : bool) : TM unit := run_scan (until terminal escaped).

Definition is_valid_char (ch : Z) : bool := negb (is_whitespace ch) && negb (bool_decide (ch ∈ SPECIAL_CHARS)).

Definition consume_until_nonstr : TM unit := run_scan (consume_while is_valid_char).

Definition parse_string (terminal_ch : option Z) (escaped : bool) : TM EscapeStr :=
  do t <- get;
  let start_pos := match terminal_ch with None => (pos t - 1)%nat | Some _ => pos t end in
  do end_pos <-
    match terminal_ch with
    | Some terminal_ch =>
      consume_until terminal_ch escaped;;
      do t <- get;
      match_char terminal_ch;;
      ret (pos t)
    | None =>
      consume_until_nonstr;;
      do t <- get;
      ret (pos t)
    end;
  do t <- get;
  do s <- unwrap (slice_str (buf t) start_pos end_pos);
  ret (mkEscapeStr s escaped).

Definition chr (c : string) : Z := peek_of (bytes_of c).

Definition parse_token : TM Token :=
  skip_whitespace;;
  do ch <- t_peek;
  t_consume;;
  if ch =? EOF then ret Eof
  else if ch =? chr "|" then ret BitOr
  else if ch =? chr "&" then ret BitAnd
  else if ch =? chr ";" then ret Semi
  else if ch =? chr "(" then ret LeftParen
  else if ch =? chr ")" then ret RightParen
  else if ch =? chr ">" then do b <- t_got (chr ">"); ret (if b then GtGt else Gt)
  else if ch =? chr "<" then ret Lt_
  else if ch =? chr_squote then do s <- parse_string (Some chr_squote) false; ret (TString s)
  else if ch =? chr_dquote then do s <- parse_string (Some chr_dquote) true; ret (TString s)
  else
    do s <- parse_string None false;
    match str s with
    | c :: var_name => if c =? chr_dollar then ret (TVariable (mkEscapeStr var_name false)) else ret (TString s)
    | [] => ret (TString s)
    end.

(** ** The parser *)

Definition item : Type := SyntaxError + Token.

(** [Peekable<Tokenizer>]: [peeked] holds an item that was looked at. *)
Record ShellParser : Type := mkParser { tokenizer : Tokenizer; peeked : option (option item) }.

Definition ShellParser_new (s : list Z) : ShellParser := mkParser (Tokenizer_new s) None.

#[local] Notation PM := (M ShellParser SyntaxError).

(** [Tokenizer::next], the [Iterator] *)
Definition tokenizer_next : PM (option item) :=
  fun p => match parse_token (tokenizer p) with
           | (Ok t, tk) => (Ok (if decide (t = Eof) then None else Some (inr t)), mkParser tk (peeked p))
           | (Err e, tk) => (Ok (Some (inl e)), mkParser tk (peeked p))
           | (Panic, tk) => (Panic, mkParser tk (peeked p))
           end.

Definition set_peeked (o : option (option item)) : PM unit := modify (fun p => mkParser (tokenizer p) o).

(** [Peekable::peek] and [Peekable::next] *)
Definition peekable_peek : PM (option item) :=
  do p <- get;
  match peeked p with
  | Some i => ret i
  | None => do i <- tokenizer_next; set_peeked (Some i);; ret i
  end.

Definition peekable_next : PM (option item) :=
  do p <- get;
  match peeked p with
  | Some i => set_peeked None;; ret i
  | None => tokenizer_next
  end.

Definition ShellParser_peek : PM Token :=
  do i <- peekable_peek;
  match i with
  | None => ret Eof
  | Some (inr t) => ret t
  | Some (inl e) => fail e
  end.

Definition ShellParser_consume : PM unit := peekable_next;; ShellParser_peek;; ret tt.

(** All other functions of the parser reach the tokens only through [peek]
    and [consume]. *)
Class TokenSource (St : Type) : Type := {
  peek : M St SyntaxError Token;
  consume : M St SyntaxError unit
}.

#[export] Instance ShellParser_source : TokenSource ShellParser :=
  { peek := ShellParser_peek; consume := ShellParser_consume }.

Section parser.
Context {St : Type} `{TokenSource St}.

#[local] Notation PM := (M St SyntaxError).

Definition got (expected : Token) : PM bool :=
  do token <- peek;
  if decide (token = expected) then consume;; ret true else ret false.

Definition expected_token (expected : Token) : PM unit :=
  do token <- peek;
  if decide (token = expected) then consume
  else fail (mkSyntaxError (bytes_of "expected " ++ Token_fmt expected ++ bytes_of ", but " ++ Token_fmt token)).

Definition expected_var_or_string : PM VarString :=
  do token <- peek;
  match token with
  | TString s => consume;; ret (mkVarString false s)
  | TVariable s => consume;; ret (mkVarString true s)
  | _ => fail (mkSyntaxError (bytes_of "expected a string/variable, but " ++ Token_fmt token))
  end.

Definition try_match_var_or_string : PM (option VarString) :=
  do token <- peek;
  match token with
  | TString s => consume;; ret (Some (mkVarString false s))
  | TVariable s => consume;; ret (Some (mkVarString true s))
  | _ => ret None
  end.

Definition parse_suffix (expr : ShellAst) : PM ShellAst :=
  do token <- peek;
  match token with
  | BitAnd => consume;; ret (Background expr)
  | _ => ret expr
  end.

(** The loops and the recursion take the number [n] of turns that are left;
    every turn takes a token. *)
Fixpoint parse_args (n : nat) (args : list VarString) : PM ShellAst :=
  match n with
  | O => panic
  | S n' =>
    do o <- try_match_var_or_string;
    match o with
    | Some arg => parse_args n' (args ++ [arg])
    | None => ret (Exec args)
    end
  end.

Definition parse_exec (n : nat) (name : EscapeStr) (is_var : bool) : PM ShellAst :=
  consume;; parse_args n [mkVarString is_var name].

Definition parse_term (n : nat) (parse_expr : PM ShellAst) : PM ShellAst :=
  do token <- peek;
  do command <-
    match token with
    | TString name => parse_exec n name false
    | TVariable name => parse_exec n name true
    | LeftParen => consume;; do expr <- parse_expr; expected_token RightParen;; ret expr
    | Eof => ret Empty
    | _ => fail (mkSyntaxError (bytes_of "unexpected token " ++ Token_fmt token))
    end;
  parse_suffix command.

Definition parse_redirect (n : nat) (parse_expr : PM ShellAst) : PM ShellAst :=
  do cmd <- parse_term n parse_expr;
  do token <- peek;
  match match token with
        | Gt => Some (true, false)
        | GtGt => Some (true, true)
        | Lt_ => Some (false, false)
        | _ => None
        end with
  | None => ret cmd
  | Some (is_output, append) =>
    consume;;
    do file_name <- expected_var_or_string;
    parse_suffix (Redirect is_output cmd file_name append)
  end.

Definition parse_pipe (n : nat) (parse_expr : PM ShellAst) : PM ShellAst :=
  do lhs <- parse_redirect n parse_expr;
  do token <- peek;
  match token with
  | BitOr => consume;; do rhs <- parse_redirect n parse_expr; ret (Pipe lhs rhs)
  | _ => ret lhs
  end.

Fixpoint parse_list (n : nat) (acc : list ShellAst) : PM ShellAst :=
  match n with
  | O => panic
  | S n' =>
    do token <- peek;
    match token with
    | Eof | RightParen => ret (List acc)
    | _ =>
      do expr <- parse_pipe n' (parse_list n' []);
      do more <- got Semi;
      if more then parse_list n' (acc ++ [expr]) else ret (List (acc ++ [expr]))
    end
  end.

Definition parse_with (n : nat) : PM ShellAst :=
  do expr <- parse_list n [];
  expected_token Eof;;
  ret expr.
End parser.

(** [parse]: a token takes a character at least, and a level of nesting a
    token. *)
Definition parse (line : list Z) : outcome SyntaxError ShellAst :=
  fst (parse_with (length line + 2) (ShellParser_new line)).
