(* ===== verification/ShellGrammar.v ===== *)
(** * The grammar of the shell

    A context-free grammar of command lines over tokens, and the proof that
    the parser, run on a list of tokens, accepts exactly its sentences and
    builds their trees.  The parser's look-ahead is justified by the tokens
    that can follow each nonterminal. *)

From S2P Require Import Prelude Shell.

#[local] Open Scope rw_scope.

(** ** Token lists as a source

    The tokens that are left, and the error that the tokenizer meets behind
    them. *)
Definition toks : Type := list Token * option SyntaxError.

#[local] Notation LM := (M toks SyntaxError).

Definition toks_peek : LM Token :=
  fun s => match s with
           | (t :: _, _) => (Ok t, s)
           | ([], None) => (Ok Eof, s)
           | ([], Some e) => (Err e, s)
           end.

(** A token is consumed only after it has been seen. *)
Definition toks_consume : LM unit :=
  fun s => match s with
           | (_ :: ts, fin) => (toks_peek;; ret tt) (ts, fin)
           | ([], None) => (Ok tt, s)
           | ([], Some _) => (Panic, s)
           end.

#[export] Instance toks_source : TokenSource toks := { peek := toks_peek; consume := toks_consume }.

(** ** The grammar *)

Definition hd_tok (ts : list Token) : Token := default Eof (head ts).

Definition word (t : Token) : option VarString :=
  match t with
  | TString s => Some (mkVarString false s)
  | TVariable s => Some (mkVarString true s)
  | _ => None
  end.

Definition redirection (t : Token) : option (bool * bool) :=
  match t with
  | Gt => Some (true, false)
  | GtGt => Some (true, true)
  | Lt_ => Some (false, false)
  | _ => None
  end.

(** [g_x inp rest e]: the tokens of [inp] up to [rest] are an [x] with the
    tree [e]. *)
Inductive g_args : list Token -> list Token -> list VarString -> Prop :=
| ga_nil rest : g_args rest rest []
| ga_cons t inp rest v vs : word t = Some v -> g_args inp rest vs -> g_args (t :: inp) rest (v :: vs).

Inductive g_amp (e : ShellAst) : list Token -> list Token -> ShellAst -> Prop :=
| gm_none rest : g_amp e rest rest e
| gm_amp rest : g_amp e (BitAnd :: rest) rest (Background e).

Inductive g_term : list Token -> list Token -> ShellAst -> Prop :=
| gt_exec t inp m rest v vs e : word t = Some v -> g_args inp m vs -> g_amp (Exec (v :: vs)) m rest e ->
    g_term (t :: inp) rest e
| gt_paren inp m rest es e : g_list inp (RightParen :: m) es -> g_amp (List es) m rest e ->
    g_term (LeftParen :: inp) rest e
with g_redirect : list Token -> list Token -> ShellAst -> Prop :=
| gr_term inp rest e : g_term inp rest e -> g_redirect inp rest e
| gr_redirect inp r t m rest c o a v e : g_term inp (r :: t :: m) c -> redirection r = Some (o, a) ->
    word t = Some v -> g_amp (Redirect o c v a) m rest e -> g_redirect inp rest e
with g_pipe : list Token -> list Token -> ShellAst -> Prop :=
| gp_redirect inp rest e : g_redirect inp rest e -> g_pipe inp rest e
| gp_pipe inp m rest l r : g_redirect inp (BitOr :: m) l -> g_redirect m rest r -> g_pipe inp rest (Pipe l r)
| gp_open inp rest l : g_redirect inp (BitOr :: rest) l -> hd_tok rest = Eof -> g_pipe inp rest (Pipe l Empty)
with g_list : list Token -> list Token -> list ShellAst -> Prop :=
| gl_nil rest : g_list rest rest []
| gl_one inp rest e : g_pipe inp rest e -> g_list inp rest [e]
| gl_cons inp m rest e es : g_pipe inp (Semi :: m) e -> g_list m rest es -> g_list inp rest (e :: es).

Scheme g_term_mut := Induction for g_term Sort Prop
with g_redirect_mut := Induction for g_redirect Sort Prop
with g_pipe_mut := Induction for g_pipe Sort Prop
with g_list_mut := Induction for g_list Sort Prop.
Combined Scheme g_mutind from g_term_mut, g_redirect_mut, g_pipe_mut, g_list_mut.

(** ** Lengths and first tokens *)

Definition starts (inp : list Token) : Prop := exists t ts, inp = t :: ts /\ (t = LeftParen \/ is_Some (word t)).

Lemma g_args_length inp rest vs : g_args inp rest vs -> length rest <= length inp.
Proof. induction 1; simpl; lia. Qed.

Lemma g_amp_length e inp rest e' : g_amp e inp rest e' -> length rest <= length inp.
Proof. destruct 1; simpl; lia. Qed.

Lemma g_first :
  (forall inp rest e, g_term inp rest e -> starts inp /\ length rest < length inp) /\
  (forall inp rest e, g_redirect inp rest e -> starts inp /\ length rest < length inp) /\
  (forall inp rest e, g_pipe inp rest e -> starts inp /\ length rest < length inp) /\
  (forall inp rest es, g_list inp rest es -> length rest <= length inp).
Proof.
  apply g_mutind; simpl; intros;
    repeat match goal with
    | H : g_args _ _ _ |- _ => apply g_args_length in H
    | H : g_amp _ _ _ _ |- _ => apply g_amp_length in H
    | H : _ /\ _ |- _ => destruct H
    end; try (split; [first [done | eexists _, _; split; [done|eauto]]|]); lia.
Qed.

(** ** What follows each nonterminal *)

Definition follow_list (t : Token) : Prop := t = Eof \/ t = RightParen.
Definition follow_pipe (t : Token) : Prop := t = Semi \/ follow_list t.
Definition follow_redirect (t : Token) : Prop := t = BitOr \/ follow_pipe t.
Definition follow_term (t : Token) : Prop := is_Some (redirection t) \/ follow_redirect t.
Definition follow_args (t : Token) : Prop := t = BitAnd \/ follow_term t.

Lemma follow_args_word t : follow_args t -> word t = None.
Proof. unfold follow_args, follow_term, follow_redirect, follow_pipe, follow_list. destruct t; naive_solver. Qed.

(** ** Completeness: sentences are parsed *)

Lemma bind_ok {S E A B} (m : M S E A) (k : A -> M S E B) s a s' : m s = (Ok a, s') -> bind m k s = k a s'.
Proof. intros Hm. unfold bind. by rewrite Hm. Qed.

Lemma peek_run ts : peek (ts, None) = (Ok (hd_tok ts), (ts, None)).
Proof. by destruct ts. Qed.

Lemma consume_run t ts : consume (t :: ts, None) = (Ok tt, (ts, None)).
Proof. by destruct ts. Qed.

(** One step of the parser. *)
Ltac pstep := erewrite bind_ok by (first [apply peek_run | apply consume_run | eassumption]); cbn [hd_tok default from_option id head].

Lemma parse_suffix_complete e inp rest e' : g_amp e inp rest e' -> hd_tok rest <> BitAnd ->
  parse_suffix e (inp, None) = (Ok e', (rest, None)).
Proof.
  intros Hg Hne. unfold parse_suffix. destruct Hg as [rest|rest]; pstep.
  - by destruct (hd_tok rest).
  - by pstep.
Qed.

Lemma try_match_run ts : try_match_var_or_string (ts, None) =
  (Ok (word (hd_tok ts)), (if word (hd_tok ts) then tail ts else ts, None)).
Proof. unfold try_match_var_or_string. pstep. destruct ts as [|[] ts]; try done; cbn; by pstep. Qed.

Lemma parse_args_complete n inp rest vs acc : g_args inp rest vs -> word (hd_tok rest) = None -> length inp < n ->
  parse_args n acc (inp, None) = (Ok (Exec (acc ++ vs)), (rest, None)).
Proof.
  intros Hg. revert n acc. induction Hg as [rest|t inp rest v vs Ht Hg IH]; intros [|n] acc Hw Hn; simpl in Hn; try lia;
    cbn [parse_args]; erewrite bind_ok by apply try_match_run.
  - rewrite Hw, app_nil_r. done.
  - cbn [hd_tok default from_option id head tail]. rewrite Ht. rewrite IH by (done || lia). by rewrite <- app_assoc.
Qed.

Lemma expected_word_run t ts v : word t = Some v -> expected_var_or_string (t :: ts, None) = (Ok v, (ts, None)).
Proof. intros Hw. unfold expected_var_or_string. pstep. destruct t; try done; injection Hw as <-; by pstep. Qed.

Lemma expected_token_run t ts : expected_token t (t :: ts, None) = (Ok tt, (ts, None)).
Proof. unfold expected_token. pstep. rewrite decide_True by done. apply consume_run. Qed.

Lemma follow_not_amp t : follow_term t -> t <> BitAnd.
Proof. intros Ht ->. unfold follow_term, follow_redirect, follow_pipe, follow_list in Ht. destruct Ht; naive_solver. Qed.

Lemma follow_not_redirection t : follow_redirect t -> redirection t = None.
Proof. unfold follow_redirect, follow_pipe, follow_list. destruct t; naive_solver. Qed.

Lemma follow_not_bar t : follow_pipe t -> t <> BitOr.
Proof. unfold follow_pipe, follow_list. naive_solver. Qed.

Lemma amp_follow e inp rest e' : g_amp e inp rest e' -> follow_term (hd_tok rest) -> follow_args (hd_tok inp).
Proof. destruct 1; intros Hf; [by right|by left]. Qed.

(** The branch of [parse_redirect] by the token that is seen. *)
Lemma parse_redirect_unfold {St} `{TokenSource St} n pe :
  parse_redirect n pe =
    (do cmd <- parse_term n pe; do token <- peek;
     match redirection token with
     | None => ret cmd
     | Some (o, a) => consume;; do f <- expected_var_or_string; parse_suffix (Redirect o cmd f a)
     end).
Proof. reflexivity. Qed.

Lemma parse_term_exec n pe t ts : is_Some (word t) ->
  parse_term n pe (t :: ts, None) = (do c <- parse_args n (option_list (word t)); parse_suffix c) (ts, None).
Proof.
  intros [v Hv]. unfold parse_term. pstep. unfold parse_exec.
  destruct t; try done; injection Hv as <-; cbn; unfold bind; rewrite consume_run; done.
Qed.

Lemma parse_redirect_end n pe rest : hd_tok rest = Eof -> parse_redirect n pe (rest, None) = (Ok Empty, (rest, None)).
Proof.
  intros Hr. rewrite parse_redirect_unfold. unfold parse_term, parse_suffix.
  unfold bind, ret. rewrite peek_run, Hr, peek_run, Hr, peek_run, Hr. done.
Qed.

Lemma parse_list_pipe n acc inp e m : starts inp -> parse_pipe n (parse_list n []) (inp, None) = (Ok e, (m, None)) ->
  parse_list (S n) acc (inp, None) =
    if decide (hd_tok m = Semi) then parse_list n (acc ++ [e]) (tail m, None) else (Ok (List (acc ++ [e])), (m, None)).
Proof.
  intros (t & ts & -> & Ht) Hp. cbn [parse_list]. pstep.
  assert (Hgo : (do expr <- parse_pipe n (parse_list n []); do more <- got Semi;
                 if more then parse_list n (acc ++ [expr]) else ret (List (acc ++ [expr]))) (t :: ts, None) =
    if decide (hd_tok m = Semi) then parse_list n (acc ++ [e]) (tail m, None) else (Ok (List (acc ++ [e])), (m, None))).
  { erewrite bind_ok by exact Hp. unfold got. unfold bind at 1 2. rewrite peek_run. destruct (decide (hd_tok m = Semi)) as [Hs|]; [|done].
    destruct m as [|t' m]; [done|]. unfold bind at 1. rewrite consume_run. done. }
  destruct t; try exact Hgo; destruct Ht as [?|[? ?]]; done.
Qed.

Lemma g_complete :
  (forall inp rest e, g_term inp rest e -> follow_term (hd_tok rest) -> forall n, length inp <= n ->
     parse_term n (parse_list n []) (inp, None) = (Ok e, (rest, None))) /\
  (forall inp rest e, g_redirect inp rest e -> follow_redirect (hd_tok rest) -> forall n, length inp <= n ->
     parse_redirect n (parse_list n []) (inp, None) = (Ok e, (rest, None))) /\
  (forall inp rest e, g_pipe inp rest e -> follow_pipe (hd_tok rest) -> forall n, length inp <= n ->
     parse_pipe n (parse_list n []) (inp, None) = (Ok e, (rest, None))) /\
  (forall inp rest es, g_list inp rest es -> follow_list (hd_tok rest) -> forall n acc, length inp < n ->
     parse_list n acc (inp, None) = (Ok (List (acc ++ es)), (rest, None))).
Proof.
  apply g_mutind.
  - intros t inp m rest v vs e Ht Ha Hamp Hf n Hn. simpl in Hn. rewrite parse_term_exec by done. rewrite Ht. cbn [option_list].
    erewrite bind_ok.
    2:{ apply (parse_args_complete n inp m vs); [done|by eapply follow_args_word, amp_follow|lia]. }
    eapply parse_suffix_complete; [done|by apply follow_not_amp].
  - intros inp m rest es e Hl IH Hamp Hf n Hn. simpl in Hn. unfold parse_term. pstep. unfold bind at 1 2. rewrite consume_run.
    rewrite (bind_ok _ _ _ _ _ (IH (or_intror eq_refl) n [] ltac:(lia))).
    rewrite (bind_ok _ _ _ _ _ (expected_token_run RightParen m)). unfold ret at 1.
    eapply parse_suffix_complete; [done|by apply follow_not_amp].
  - intros inp rest e Ht IH Hf n Hn. rewrite parse_redirect_unfold. rewrite (bind_ok _ _ _ _ _ (IH (or_intror Hf) n Hn)). pstep.
    by rewrite follow_not_redirection.
  - intros inp r t m rest c o a v e Ht IH Hr Hw Hamp Hf n Hn. rewrite parse_redirect_unfold.
    rewrite (bind_ok _ _ _ _ _ (IH (or_introl (ex_intro _ (o, a) Hr)) n Hn)). pstep. rewrite Hr. pstep.
    rewrite (bind_ok _ _ _ _ _ (expected_word_run t m v Hw)).
    eapply parse_suffix_complete; [done|]. apply follow_not_amp. by right.
  - intros inp rest e Hr IH Hf n Hn. unfold parse_pipe. rewrite (bind_ok _ _ _ _ _ (IH (or_intror Hf) n Hn)). pstep.
    apply follow_not_bar in Hf. by destruct (hd_tok rest).
  - intros inp m rest l r Hl IHl Hr IHr Hf n Hn. unfold parse_pipe.
    rewrite (bind_ok _ _ _ _ _ (IHl (or_introl eq_refl) n Hn)). pstep. pstep.
    apply g_first in Hl as [_ Hlen]. simpl in Hlen.
    rewrite (bind_ok _ _ _ _ _ (IHr (or_intror Hf) n ltac:(lia))). done.
  - intros inp rest l Hl IHl Hr Hf n Hn. unfold parse_pipe. rewrite (bind_ok _ _ _ _ _ (IHl (or_introl eq_refl) n Hn)). pstep. pstep.
    by rewrite (bind_ok _ _ _ _ _ (parse_redirect_end n _ rest Hr)).
  - intros rest Hf [|n] acc Hn; [lia|]. cbn [parse_list]. pstep. rewrite app_nil_r. by destruct Hf as [-> | ->].
  - intros inp rest e Hp IH Hf [|n] acc Hn; [lia|].
    destruct (proj1 (proj2 (proj2 g_first)) _ _ _ Hp) as [Hs _].
    rewrite (parse_list_pipe n acc inp e rest); [|done|apply IH; [by right|lia]].
    rewrite decide_False; [done|]. destruct Hf; congruence.
  - intros inp m rest e es Hp IHp Hl IHl Hf [|n] acc Hn; [lia|].
    destruct (proj1 (proj2 (proj2 g_first)) _ _ _ Hp) as [Hs Hlen]. simpl in Hlen.
    rewrite (parse_list_pipe n acc inp e (Semi :: m)); [|done|apply IHp; [by left|lia]].
    rewrite decide_True by done. cbn [tail]. rewrite IHl by (done || lia). by rewrite <- app_assoc.
Qed.

(** ** Soundness: what is parsed is a sentence

    On any token list the parser neither panics nor runs out of turns. *)

#[local] Notation lwp m Q s := (wp m Q (fun (_ : SyntaxError) _ => True) s).

(** The stream can be looked at. *)
Definition seen (s : toks) : Prop := s.1 <> [] \/ s.2 = None.

Lemma wp_peek (Q : Token -> toks -> Prop) ts fin : (seen (ts, fin) -> Q (hd_tok ts) (ts, fin)) -> lwp peek Q (ts, fin).
Proof. intros HQ. destruct ts as [|t ts], fin as [e|]; cbn; try done; apply HQ; [by right|by left|by left]. Qed.

Lemma wp_consume (Q : unit -> toks -> Prop) t ts fin : (seen (ts, fin) -> Q tt (ts, fin)) -> lwp consume Q (t :: ts, fin).
Proof. intros HQ. destruct ts as [|t' ts], fin as [e|]; cbn; try done; apply HQ; [by right|by left|by left]. Qed.

Lemma hd_tok_cons t ts : hd_tok ts = t -> t <> Eof -> exists ts', ts = t :: ts'.
Proof. intros Hh Ht. destruct ts as [|t' ts]; [by rewrite <- Hh in Ht|]. exists ts. by rewrite <- Hh. Qed.

(** What a level of the parser returns: a tree of the grammar, and a stream
    that has been looked at. *)
Definition parsed {A} (g : list Token -> list Token -> A -> Prop) (inp : list Token) (fin : option SyntaxError) (a : A) (s : toks) : Prop :=
  s.2 = fin /\ seen s /\ g inp s.1 a.

Lemma parse_suffix_sound e inp fin : lwp (parse_suffix e) (parsed (g_amp e) inp fin) (inp, fin).
Proof.
  unfold parse_suffix. apply wp_bind, wp_peek. intros Hs. destruct (hd_tok inp) eqn:Hh;
    try (apply wp_ret; split; [done|]; split; [done|]; constructor).
  apply hd_tok_cons in Hh as [ts ->]; [|done]. apply wp_bind, wp_consume. intros Hs'. apply wp_ret.
  split; [done|]. split; [done|]. constructor.
Qed.

Lemma try_match_sound inp fin : lwp try_match_var_or_string (fun o s => s.2 = fin /\ seen s /\
  match o with Some v => exists t, inp = t :: s.1 /\ word t = Some v | None => s.1 = inp end) (inp, fin).
Proof.
  unfold try_match_var_or_string. apply wp_bind, wp_peek. intros Hs. destruct (hd_tok inp) eqn:Hh; try (by apply wp_ret);
    apply hd_tok_cons in Hh as [ts ->]; try done; apply wp_bind, wp_consume; intros Hs'; apply wp_ret;
    (split; [done|]; split; [done|]; eexists; by split).
Qed.

Lemma parse_args_sound n inp fin acc : length inp < n ->
  lwp (parse_args n acc) (fun e s => exists vs, e = Exec (acc ++ vs) /\ parsed g_args inp fin vs s) (inp, fin).
Proof.
  revert inp acc. induction n as [|n IH]; intros inp acc Hn; [lia|]. cbn [parse_args]. apply wp_bind.
  eapply wp_mono; [apply try_match_sound| |done]. intros [v|] [ts fin'] (Hfin & Hs & Ht); simpl in Hfin; subst fin'.
  - destruct Ht as (t & -> & Hw). eapply wp_mono; [apply IH; simpl in Hn; lia| |done].
    intros e s (vs & -> & Hf & Hs' & Hg). exists (v :: vs). rewrite <- app_assoc. split; [done|]. split; [done|]. split; [done|].
    by econstructor.
  - simpl in Ht. subst ts. apply wp_ret. exists []. rewrite app_nil_r. split; [done|]. split; [done|]. split; [done|]. constructor.
Qed.

(** At the end of the input there is the empty command. *)
Definition or_end (g : list Token -> list Token -> ShellAst -> Prop) (inp rest : list Token) (e : ShellAst) : Prop :=
  g inp rest e \/ hd_tok inp = Eof /\ rest = inp /\ e = Empty.

Section sound.
Context (n : nat).
Hypothesis IH : forall inp fin acc, length inp < n ->
  lwp (parse_list n acc) (fun e s => exists es, e = List (acc ++ es) /\ parsed g_list inp fin es s) (inp, fin).

Lemma parse_exec_sound t inp fin v : word t = Some v -> length inp < n ->
  lwp (do c <- (consume;; parse_args n [v]); parse_suffix c) (parsed g_term (t :: inp) fin) (t :: inp, fin).
Proof.
  intros Hw Hn. apply wp_bind, wp_bind, wp_consume. intros Hs. eapply wp_mono; [by apply parse_args_sound| |done].
  intros e [m fin'] (vs & -> & Hf & Hs' & Hg). simpl in *. subst fin'. eapply wp_mono; [apply parse_suffix_sound| |done].
  intros e' s' (Hf & Hs'' & Ha). split; [done|]. split; [done|]. by econstructor.
Qed.

Lemma parse_term_sound inp fin : length inp <= n ->
  lwp (parse_term n (parse_list n [])) (parsed (or_end g_term) inp fin) (inp, fin).
Proof.
  intros Hn. unfold parse_term. apply wp_bind, wp_peek. intros Hs.
  destruct (hd_tok inp) eqn:Hh; try (by apply wp_bind, wp_fail).
  1,2: apply hd_tok_cons in Hh as [ts ->]; [|done]; simpl in Hn;
    (eapply wp_mono; [eapply (parse_exec_sound _ ts fin); [reflexivity|lia]| |done]); intros e s' (Hf & Hs' & Hg);
    (split; [done|]; split; [done|]; by left).
  - apply hd_tok_cons in Hh as [ts ->]; [|done]. simpl in Hn. apply wp_bind, wp_bind, wp_consume. intros Hs1.
    apply wp_bind. eapply wp_mono; [apply IH; lia| |done]. intros e [m fin'] (es & -> & Hf & Hs2 & Hg). simpl in *. subst fin'.
    unfold expected_token. apply wp_bind, wp_bind, wp_peek. intros _. case_decide as Hd; [|done].
    apply hd_tok_cons in Hd as [m' ->]; [|done]. apply wp_consume. intros Hs3. apply wp_ret.
    eapply wp_mono; [apply parse_suffix_sound| |done]. intros e' s' (Hf & Hs4 & Ha). split; [done|]. split; [done|]. left. by econstructor.
  - apply wp_bind, wp_ret. unfold parse_suffix. apply wp_bind, wp_peek. intros _. rewrite Hh. apply wp_ret.
    split; [done|]. split; [done|]. by right.
Qed.

Lemma parse_redirect_sound inp fin : length inp <= n ->
  lwp (parse_redirect n (parse_list n [])) (parsed (or_end g_redirect) inp fin) (inp, fin).
Proof.
  intros Hn. rewrite parse_redirect_unfold. apply wp_bind. eapply wp_mono; [by apply parse_term_sound| |done].
  intros e [m fin'] (Hf & Hs & Hg). simpl in *. subst fin'. apply wp_bind, wp_peek. intros _.
  destruct Hg as [Hg|(Hh & -> & ->)].
  2:{ rewrite Hh. apply wp_ret. split; [done|]. split; [done|]. by right. }
  destruct (redirection (hd_tok m)) as [[o a]|] eqn:Hr; [|apply wp_ret; split; [done|]; split; [done|]; left; by constructor].
  destruct (hd_tok_cons (hd_tok m) m eq_refl) as [m' Hm']; [by intros He; rewrite He in Hr|].
  rewrite Hm' in Hg |- *. apply wp_bind, wp_consume. intros Hs1. unfold expected_var_or_string. apply wp_bind, wp_bind, wp_peek. intros _.
  destruct (hd_tok m') eqn:Hh'; try (by apply wp_fail); apply hd_tok_cons in Hh' as [m2 ->]; try done;
    apply wp_bind, wp_consume; intros Hs2; apply wp_ret;
    (eapply wp_mono; [apply parse_suffix_sound| |done]); intros e' s' (Hf & Hs3 & Ha);
    (split; [done|]; split; [done|]; left; by econstructor).
Qed.

Lemma parse_pipe_sound inp fin : length inp <= n -> hd_tok inp <> Eof ->
  lwp (parse_pipe n (parse_list n [])) (parsed g_pipe inp fin) (inp, fin).
Proof.
  intros Hn Hne. unfold parse_pipe. apply wp_bind. eapply wp_mono; [by apply parse_redirect_sound| |done].
  intros e [m fin'] (Hf & Hs & Hg). simpl in *. subst fin'. destruct Hg as [Hg|(? & _)]; [|done].
  apply wp_bind, wp_peek. intros _.
  destruct (hd_tok m) eqn:Hh; try (apply wp_ret; split; [done|]; split; [done|]; by constructor).
  apply hd_tok_cons in Hh as [m' ->]; [|done]. apply wp_bind, wp_consume. intros Hs1.
  pose proof (proj2 (proj1 (proj2 g_first) _ _ _ Hg)) as Hlen. simpl in Hlen.
  apply wp_bind. eapply wp_mono; [apply parse_redirect_sound; lia| |done]. intros e' [m2 fin'] (Hf & Hs2 & Hg2). simpl in *. subst fin'.
  apply wp_ret. split; [done|]. split; [done|]. destruct Hg2 as [Hg2|(Hh & -> & ->)]; by econstructor.
Qed.
End sound.

Lemma parse_list_sound n inp fin acc : length inp < n ->
  lwp (parse_list n acc) (fun e s => exists es, e = List (acc ++ es) /\ parsed g_list inp fin es s) (inp, fin).
Proof.
  revert inp fin acc. induction n as [|n IH]; intros inp fin acc Hn; [lia|]. cbn [parse_list]. apply wp_bind, wp_peek. intros Hs.
  assert (Hgo : hd_tok inp <> Eof -> lwp (do expr <- parse_pipe n (parse_list n []); do more <- got Semi;
      if more then parse_list n (acc ++ [expr]) else ret (List (acc ++ [expr])))
    (fun e s => exists es, e = List (acc ++ es) /\ parsed g_list inp fin es s) (inp, fin)).
  { intros Hne. apply wp_bind. eapply wp_mono; [apply parse_pipe_sound; [done|lia|done]| |done].
    intros e [m fin'] (Hf & Hs1 & Hg). simpl in *. subst fin'. unfold got. apply wp_bind, wp_bind, wp_peek. intros _.
    case_decide as Hd.
    - apply hd_tok_cons in Hd as [m' ->]; [|done]. apply wp_bind, wp_consume. intros Hs2. apply wp_ret.
      pose proof (proj2 (proj1 (proj2 (proj2 g_first)) _ _ _ Hg)) as Hlen. simpl in Hlen.
      eapply wp_mono; [apply IH; lia| |done]. intros e' s' (es & -> & Hf & Hs3 & Hg'). exists (e :: es). rewrite <- app_assoc.
      split; [done|]. split; [done|]. split; [done|]. by econstructor.
    - apply wp_ret, wp_ret. exists [e]. split; [done|]. split; [done|]. split; [done|]. by constructor. }
  destruct (hd_tok inp) eqn:Hh; try (by apply Hgo); apply wp_ret; exists []; rewrite app_nil_r;
    (split; [done|]; split; [done|]; split; [done|]; constructor).
Qed.

(** ** Whole lines *)

Lemma g_args_suffix inp rest vs : g_args inp rest vs -> rest `suffix_of` inp.
Proof. induction 1; [done|by apply suffix_cons_r]. Qed.

Lemma g_amp_suffix e inp rest e' : g_amp e inp rest e' -> rest `suffix_of` inp.
Proof. destruct 1; [done|by apply suffix_cons_r]. Qed.

Lemma suffix_uncons {A} (x : A) l l' : x :: l `suffix_of` l' -> l `suffix_of` l'.
Proof. intros Hs. etrans; [|exact Hs]. by apply suffix_cons_r. Qed.

Lemma g_suffix :
  (forall inp rest e, g_term inp rest e -> rest `suffix_of` inp) /\
  (forall inp rest e, g_redirect inp rest e -> rest `suffix_of` inp) /\
  (forall inp rest e, g_pipe inp rest e -> rest `suffix_of` inp) /\
  (forall inp rest es, g_list inp rest es -> rest `suffix_of` inp).
Proof.
  apply g_mutind; intros;
    repeat match goal with
    | H : g_args _ _ _ |- _ => apply g_args_suffix in H
    | H : g_amp _ _ _ _ |- _ => apply g_amp_suffix in H
    | H : _ :: _ `suffix_of` _ |- _ => apply suffix_uncons in H
    end; try apply suffix_cons_r; try done; by do 2 (etrans; [eassumption|]).
Qed.

Lemma parse_toks_sound n ts fin : Eof ∉ ts -> length ts < n ->
  lwp (parse_with (St := toks) n) (fun e _ => fin = None /\ exists es, e = List es /\ g_list ts [] es) (ts, fin).
Proof.
  intros Heof Hn. unfold parse_with. apply wp_bind. eapply wp_mono; [by apply parse_list_sound| |done].
  intros e [m fin'] (es & -> & Hf & Hs & Hg). simpl in *. subst fin'. unfold expected_token. apply wp_bind, wp_bind, wp_peek. intros _.
  assert (Hm : hd_tok m = Eof -> m = []).
  { destruct m as [|t m]; [done|]. intros Ht. cbn in Ht. subst t. destruct Heof. apply (proj2 (proj2 (proj2 g_suffix))) in Hg as [l ->].
    apply elem_of_app. right. left. }
  case_decide as Hd; [|done]. apply Hm in Hd as ->. destruct Hs as [?|Hs]; [done|]. simpl in Hs. subst fin.
  cbn. split; [done|]. by exists es.
Qed.

Lemma parse_toks_complete n ts es : g_list ts [] es -> length ts < n ->
  parse_with (St := toks) n (ts, None) = (Ok (List es), ([], None)).
Proof.
  intros Hg Hn. unfold parse_with.
  rewrite (bind_ok _ _ _ _ _ (proj2 (proj2 (proj2 g_complete)) _ _ _ Hg (or_introl eq_refl) n [] Hn)). done.
Qed.
