(* ===== verification/ShellTheorems.v ===== *)
(** * Properties of the shell parser

    The tokenizer on lines of ASCII characters is related to a function on
    the characters that are left ([lex]); the parser over it then behaves as
    the parser on a list of tokens, and accepts the language of the grammar. *)

From S2P Require Import Prelude Shell ShellGrammar.

#[local] Open Scope Z_scope.
#[local] Open Scope rw_scope.

(** ** Slices *)

(** A line of ASCII characters without the character that stands for the end
    of the input. *)
Definition plain (l : list Z) : Prop := Forall (fun c => 0 < c < 128) l.

#[export] Instance plain_dec l : Decision (plain l).
Proof. unfold plain. apply _. Defined.

Lemma len_utf8_ascii c : 0 < c < 128 -> len_utf8 c = 1%nat.
Proof. intros Hc. unfold len_utf8. by replace (c <? 0x80) with true by (symmetry; apply Z.ltb_lt; lia). Qed.

Lemma skip_bytes_plain l n : plain l -> (n <= length l)%nat -> skip_bytes l n = Some (drop n l).
Proof.
  intros Hl. revert n. induction Hl as [|c l Hc Hl IH]; intros [|n] Hn; simpl in *; try done; try lia.
  rewrite len_utf8_ascii by done. simpl. rewrite Nat.sub_0_r. apply IH. lia.
Qed.

Lemma take_bytes_plain l n : plain l -> (n <= length l)%nat -> take_bytes l n = Some (take n l).
Proof.
  intros Hl. revert n. induction Hl as [|c l Hc Hl IH]; intros [|n] Hn; simpl in *; try done; try lia.
  rewrite len_utf8_ascii by done. simpl. rewrite Nat.sub_0_r, IH by lia. done.
Qed.

Lemma slice_str_plain l a b : plain l -> (a <= b <= length l)%nat -> slice_str l a b = Some (take (b - a) (drop a l)).
Proof.
  intros Hl Hab. unfold slice_str. replace (b <? a)%nat with false by (symmetry; apply Nat.ltb_ge; lia).
  rewrite skip_bytes_plain by (done || lia). simpl. apply take_bytes_plain; [by apply Forall_drop|]. rewrite length_drop. lia.
Qed.

(** ** Scans *)

(** A scan stops after a number of characters that does not depend on the
    position. *)
Definition scan_ok (scan : list Z -> nat -> list Z * nat) : Prop :=
  forall l p, scan l p = (drop (scan l O).2 l, (p + (scan l O).2)%nat) /\ ((scan l O).2 <= length l)%nat.

Lemma consume_while_ok f : scan_ok (consume_while f).
Proof.
  intros l. induction l as [|c l IH]; intros p; simpl; [split; [f_equal; lia|done]|].
  destruct (f c); [|simpl; split; [f_equal; lia|lia]].
  destruct (IH (p + 1)%nat) as [-> Hle], (IH 1%nat) as [-> _]. simpl. split; [|lia].
  f_equal. lia.
Qed.

Lemma until_ok terminal escaped : scan_ok (until terminal escaped).
Proof.
  assert (Hn : forall n l, (length l <= n)%nat -> forall p,
    until terminal escaped l p = (drop (until terminal escaped l 0).2 l, (p + (until terminal escaped l 0).2)%nat) /\
    ((until terminal escaped l 0).2 <= length l)%nat); [|intros l p; by apply (Hn (length l))].
  induction n as [|n IH]; intros [|c l] Hl p; simpl in *; try lia; try (split; [f_equal; lia|lia]).
  destruct ((c =? terminal) || (c =? 0)); [simpl; split; [f_equal; lia|lia]|].
  assert (Hone : until terminal escaped l (p + 1) = (drop (until terminal escaped l 1).2 (c :: l), (p + (until terminal escaped l 1).2)%nat) /\
    ((until terminal escaped l 1).2 <= S (length l))%nat).
  { destruct (IH l ltac:(lia) (p + 1)%nat) as [-> Hle], (IH l ltac:(lia) 1%nat) as [-> _]. simpl. split; [f_equal; lia|lia]. }
  destruct (escaped && (c =? chr_backslash)); [|exact Hone].
  destruct l as [|c' l]; [simpl; split; [f_equal; lia|lia]|]. simpl in Hl.
  destruct (c' =? terminal); [|exact Hone].
  destruct (IH l ltac:(lia) (p + 2)%nat) as [-> Hle], (IH l ltac:(lia) 2%nat) as [-> _]. simpl. split; [f_equal; lia|lia].
Qed.

(** ** Tokens of the characters that are left *)

Definition scan_len (scan : list Z -> nat -> list Z * nat) (l : list Z) : nat := (scan l 0%nat).2.

(** A quoted string behind its opening quote. *)
Definition lex_quoted (q : Z) (escaped : bool) (l : list Z) : item * list Z :=
  let k := scan_len (until q escaped) l in
  match drop k l with
  | c :: r => if c =? q then (inr (TString (mkEscapeStr (take k l) escaped)), r)
              else (inl (mkSyntaxError (bytes_of "unexpected char '" ++ c :: bytes_of "'")), c :: r)
  | [] => (inl (mkSyntaxError (bytes_of "unexpected char '" ++ EOF :: bytes_of "'")), [])
  end.

Definition lex_word (c : Z) (l : list Z) : item * list Z :=
  let k := scan_len (consume_while is_valid_char) l in
  (inr (if c =? chr_dollar then TVariable (mkEscapeStr (take k l) false) else TString (mkEscapeStr (c :: take k l) false)), drop k l).

(** The first token, and the characters behind it. *)
Definition lex1 (l : list Z) : item * list Z :=
  match drop (scan_len (consume_while is_whitespace) l) l with
  | [] => (inr Eof, [])
  | c :: r =>
    if c =? chr "|" then (inr BitOr, r)
    else if c =? chr "&" then (inr BitAnd, r)
    else if c =? chr ";" then (inr Semi, r)
    else if c =? chr "(" then (inr LeftParen, r)
    else if c =? chr ")" then (inr RightParen, r)
    else if c =? chr ">" then if peek_of r =? chr ">" then (inr GtGt, tail r) else (inr Gt, r)
    else if c =? chr "<" then (inr Lt_, r)
    else if c =? chr_squote then lex_quoted chr_squote false r
    else if c =? chr_dquote then lex_quoted chr_dquote true r
    else lex_word c r
  end.

(** The tokenizer has read [pos] characters of a plain line. *)
Definition tok_ok (t : Tokenizer) : Prop :=
  plain (buf t) /\ (pos t <= length (buf t))%nat /\ chars t = drop (pos t) (buf t).

Lemma run_scan_run scan t : scan_ok scan -> tok_ok t -> exists t', run_scan scan t = (Ok tt, t') /\ tok_ok t' /\ buf t' = buf t /\
  chars t' = drop (scan_len scan (chars t)) (chars t) /\ pos t' = (pos t + scan_len scan (chars t))%nat.
Proof.
  intros Hs (Hp & Hle & Hc). unfold run_scan, modify. destruct (Hs (chars t) (pos t)) as [He Hk]. rewrite He.
  eexists. split; [done|]. simpl. split; [|done]. split; [done|]. simpl. rewrite Hc, length_drop in Hk. rewrite Hc in *.
  split; [lia|]. by rewrite drop_drop.
Qed.

Lemma t_consume_run t c r : tok_ok t -> chars t = c :: r -> exists t', t_consume t = (Ok tt, t') /\ tok_ok t' /\ buf t' = buf t /\
  chars t' = r /\ pos t' = (pos t + 1)%nat /\ 0 < c < 128.
Proof.
  intros (Hp & Hle & Hc) He. unfold t_consume, modify. rewrite He. eexists. split; [done|]. simpl.
  assert (Hlt : (pos t < length (buf t))%nat).
  { assert (Hlen : length (chars t) = (length (buf t) - pos t)%nat) by (by rewrite Hc, length_drop). rewrite He in Hlen. simpl in Hlen. lia. }
  rewrite He in Hc. split; [split; [done|]|]; simpl.
  - split; [lia|]. rewrite <- drop_drop, <- Hc. done.
  - split; [done|]. split; [done|]. split; [done|]. assert (Hd : plain (drop (pos t) (buf t))) by (by apply Forall_drop).
    rewrite <- Hc in Hd. by apply Forall_cons in Hd as [? _].
Qed.

(** The result of a step of the tokenizer. *)
Definition lexed {A} (r : outcome SyntaxError A * Tokenizer) (i : SyntaxError + A) (rest : list Z) : Prop :=
  exists t', tok_ok t' /\ match i with inr a => r = (Ok a, t') /\ chars t' = rest | inl e => r = (Err e, t') end.

Lemma t_peek_run t : t_peek t = (Ok (peek_of (chars t)), t).
Proof. done. Qed.

Lemma parse_quoted_run q escaped t : tok_ok t -> q <> EOF ->
  lexed ((do s <- parse_string (Some q) escaped; ret (TString s)) t) (lex_quoted q escaped (chars t)).1 (lex_quoted q escaped (chars t)).2.
Proof.
  intros Ht Hq. unfold parse_string, lex_quoted.
  destruct (run_scan_run (until q escaped) t (until_ok q escaped) Ht) as (t1 & Hrun & Ht1 & Hb & Hc & Hp).
  assert (Hk : (scan_len (until q escaped) (chars t) <= length (chars t))%nat) by apply (until_ok q escaped (chars t) O).
  set (k := scan_len _ _) in *. rewrite <- Hc.
  unfold bind at 1 2, get. unfold bind at 1 2 3, consume_until. rewrite Hrun. unfold bind at 1 2, get. unfold bind at 1, match_char.
  rewrite (bind_ok _ _ _ _ _ (t_peek_run t1)). destruct (chars t1) as [|c r] eqn:Hc1.
  { cbn [peek_of head from_option id]. replace (0 =? q) with false by (symmetry; apply Z.eqb_neq; done). cbn. by exists t1. }
  cbn [peek_of head from_option id]. destruct (Z.eqb_spec c q) as [->|Hne]; [|cbn; by exists t1]. cbn [negb].
  destruct (t_consume_run t1 q r Ht1 Hc1) as (t2 & -> & Ht2 & Hb2 & Hc2 & _). unfold ret at 1 2, bind, unwrap.
  rewrite Hb2, Hb, Hp. destruct Ht as (Hpl & Hle & Hch). rewrite slice_str_plain; [|done|rewrite Hch, length_drop in Hk; lia].
  cbn. exists t2. split; [done|]. split; [|done]. replace (pos t + k - pos t)%nat with k by lia. by rewrite <- Hch.
Qed.

Lemma parse_word_run t0 t c r : tok_ok t0 -> chars t0 = c :: r -> tok_ok t -> chars t = r -> buf t = buf t0 -> pos t = (pos t0 + 1)%nat ->
  lexed ((do s <- parse_string None false;
          match str s with
          | c :: var_name => if c =? chr_dollar then ret (TVariable (mkEscapeStr var_name false)) else ret (TString s)
          | [] => ret (TString s)
          end) t) (lex_word c r).1 (lex_word c r).2.
Proof.
  intros Ht0 Hc0 Ht Hct Hb0 Hp0. unfold parse_string, lex_word.
  destruct (run_scan_run (consume_while is_valid_char) t (consume_while_ok _) Ht) as (t1 & Hrun & Ht1 & Hb & Hc & Hp).
  assert (Hk : (scan_len (consume_while is_valid_char) (chars t) <= length (chars t))%nat) by apply (consume_while_ok is_valid_char (chars t) O).
  rewrite Hct in *. set (k := scan_len _ _) in *.
  unfold bind at 1 2, get. unfold bind at 1 2, consume_until_nonstr. rewrite Hrun. unfold bind, get, ret, unwrap.
  rewrite Hb, Hb0, Hp, Hp0. destruct Ht0 as (Hpl & Hle & Hch). rewrite Hc0 in Hch.
  assert (Hlen : length (c :: r) = (length (buf t0) - pos t0)%nat) by (by rewrite Hch, length_drop). simpl in Hlen.
  rewrite slice_str_plain; [|done|lia]. replace (pos t0 + 1 + k - (pos t0 + 1 - 1))%nat with (S k) by lia.
  replace (pos t0 + 1 - 1)%nat with (pos t0) by lia. rewrite <- Hch. cbn [take str].
  exists t1. split; [done|]. cbn. destruct (c =? chr_dollar); done.
Qed.

(** [parse_token] computes [lex1]. *)
Lemma parse_token_run t : tok_ok t -> lexed (parse_token t) (lex1 (chars t)).1 (lex1 (chars t)).2.
Proof.
  intros Ht. unfold parse_token, lex1.
  destruct (run_scan_run (consume_while is_whitespace) t (consume_while_ok _) Ht) as (t1 & Hrun & Ht1 & Hb & Hc & Hp).
  unfold skip_whitespace. rewrite (bind_ok _ _ _ _ _ Hrun), (bind_ok _ _ _ _ _ (t_peek_run t1)), <- Hc.
  destruct (chars t1) as [|c r] eqn:Hc1.
  { unfold t_consume, bind, modify. rewrite Hc1. cbn. by exists t1. }
  destruct (t_consume_run t1 c r Ht1 Hc1) as (t2 & Hcons & Ht2 & Hb2 & Hc2 & Hp2 & Hpl). rewrite (bind_ok _ _ _ _ _ Hcons).
  cbn [peek_of head from_option id]. replace (c =? 0) with false by (symmetry; apply Z.eqb_neq; lia).
  assert (Hret : forall tok : Token, lexed (ret tok t2) (inr tok) r) by (intros tok; by exists t2).
  destruct (c =? chr "|"); [apply Hret|]. destruct (c =? chr "&"); [apply Hret|]. destruct (c =? chr ";"); [apply Hret|].
  destruct (c =? chr "("); [apply Hret|]. destruct (c =? chr ")"); [apply Hret|].
  destruct (c =? chr ">").
  { cbv [t_got t_peek bind get ret]. rewrite <- Hc2. destruct (chars t2) as [|c' r'] eqn:Hr; [cbn; by exists t2|].
    destruct (t_consume_run t2 c' r' Ht2 Hr) as (t3 & Hcons3 & Ht3 & _ & Hc3 & _).
    cbn [peek_of head from_option id]. destruct (c' =? chr ">"); [rewrite Hcons3; by exists t3|by exists t2]. }
  destruct (c =? chr "<"); [apply Hret|].
  destruct (c =? chr_squote); [rewrite <- Hc2; by apply parse_quoted_run|].
  destruct (c =? chr_dquote); [rewrite <- Hc2; by apply parse_quoted_run|].
  by apply (parse_word_run t1).
Qed.

(** ** All tokens of a line *)

Fixpoint lex_fuel (n : nat) (l : list Z) : list Token * option SyntaxError :=
  match n with
  | O => ([], None)
  | S n' =>
    match lex1 l with
    | (inl e, _) => ([], Some e)
    | (inr t, r) => if decide (t = Eof) then ([], None) else let (ts, fin) := lex_fuel n' r in (t :: ts, fin)
    end
  end.

(** The tokens before the end or the first error, and the error. *)
Definition lex (l : list Z) : list Token * option SyntaxError := lex_fuel (S (length l)) l.

Lemma lex_quoted_shorter q escaped l t r : lex_quoted q escaped l = (inr t, r) -> (length r < length l)%nat.
Proof.
  unfold lex_quoted. set (k := scan_len _ _). intros He. assert (Hlen : length (drop k l) = (length l - k)%nat) by apply length_drop.
  destruct (drop k l) as [|c l'] eqn:Hd; [done|]. destruct (c =? q); [|done]. injection He as _ <-. simpl in Hlen. lia.
Qed.

Lemma lex1_shorter l t r : lex1 l = (inr t, r) -> t <> Eof -> (length r < length l)%nat.
Proof.
  unfold lex1. intros He Hne. set (k := scan_len _ _) in He. assert (Hlen : length (drop k l) = (length l - k)%nat) by apply length_drop.
  destruct (drop k l) as [|c l'] eqn:Hd; [by simplify_eq|]. simpl in Hlen.
  assert (Htl : (length (tail l') <= length l')%nat) by (destruct l'; simpl; lia).
  repeat match type of He with (if ?b then _ else _) = _ => destruct b end;
    first [ apply lex_quoted_shorter in He; lia
          | unfold lex_word in He; simplify_eq; rewrite length_drop; lia
          | simplify_eq; lia ].
Qed.

Lemma lex_fuel_enough n m l : (length l < n)%nat -> (length l < m)%nat -> lex_fuel n l = lex_fuel m l.
Proof.
  revert m l. induction n as [|n IH]; intros [|m] l Hn Hm; try lia. cbn [lex_fuel].
  destruct (lex1 l) as [[e|t] r] eqn:Hl; [done|]. case_decide; [done|]. apply lex1_shorter in Hl; [|done].
  by rewrite (IH m r) by lia.
Qed.

Lemma lex_unfold l : lex l = match lex1 l with
  | (inl e, _) => ([], Some e)
  | (inr t, r) => if decide (t = Eof) then ([], None) else let (ts, fin) := lex r in (t :: ts, fin)
  end.
Proof.
  unfold lex at 1. cbn [lex_fuel]. destruct (lex1 l) as [[e|t] r] eqn:Hl; [done|]. case_decide; [done|].
  apply lex1_shorter in Hl; [|done]. unfold lex. by rewrite (lex_fuel_enough (length l) (S (length r))) by lia.
Qed.

Lemma lex_length l : (length (lex l).1 <= length l)%nat /\ Eof ∉ (lex l).1.
Proof.
  unfold lex. generalize (S (length l)) as n. intros n. revert l. induction n as [|n IH]; intros l; cbn [lex_fuel]; [split; [simpl; lia|apply not_elem_of_nil]|].
  destruct (lex1 l) as [[e|t] r] eqn:Hl; [split; [simpl; lia|apply not_elem_of_nil]|].
  case_decide as Hd; [split; [simpl; lia|apply not_elem_of_nil]|]. apply lex1_shorter in Hl; [|done].
  destruct (IH r) as [Hlen Hin]. destruct (lex_fuel n r) as [ts fin]. simpl in *. split; [lia|]. apply not_elem_of_cons. by split.
Qed.

(** ** The parser over characters simulates the parser over tokens *)

(** The tokens that the parser will see. *)
Definition feeds (p : ShellParser) (s : toks) : Prop :=
  tok_ok (tokenizer p) /\
  match peeked p with
  | None => lex (chars (tokenizer p)) = s
  | Some None => s = ([], None) /\ lex (chars (tokenizer p)) = ([], None)
  | Some (Some (inl e)) => s = ([], Some e)
  | Some (Some (inr t)) => exists ts, s.1 = t :: ts /\ lex (chars (tokenizer p)) = (ts, s.2)
  end.

Definition sim {A} (m : M ShellParser SyntaxError A) (m' : M toks SyntaxError A) : Prop :=
  forall p s, feeds p s ->
    match m' s with
    | (Ok a, s') => exists p', m p = (Ok a, p') /\ feeds p' s'
    | (Err e, _) => exists p', m p = (Err e, p')
    | (Panic, _) => True
    end.

Lemma sim_ret {A} (a : A) : sim (ret a) (ret a).
Proof. intros p s Hf. by exists p. Qed.

Lemma sim_fail {A} e : sim (A := A) (fail e) (fail e).
Proof. intros p s Hf. by exists p. Qed.

Lemma sim_panic {A} (m : M ShellParser SyntaxError A) : sim m panic.
Proof. by intros p s Hf. Qed.

Lemma sim_bind {A B} (m : M ShellParser SyntaxError A) m' (k : A -> M ShellParser SyntaxError B) k' :
  sim m m' -> (forall a, sim (k a) (k' a)) -> sim (bind m k) (bind m' k').
Proof.
  intros Hm Hk p s Hf. specialize (Hm p s Hf). unfold bind. destruct (m' s) as [[a|e|] s'].
  - destruct Hm as (p' & -> & Hf'). apply (Hk a p' s' Hf').
  - destruct Hm as (p' & ->). by exists p'.
  - done.
Qed.

(** The next item of the tokenizer. *)
Lemma tokenizer_next_run p : tok_ok (tokenizer p) -> exists tk, tok_ok tk /\
  match lex (chars (tokenizer p)) with
  | (t :: ts, fin) => tokenizer_next p = (Ok (Some (inr t)), mkParser tk (peeked p)) /\ lex (chars tk) = (ts, fin)
  | ([], Some e) => tokenizer_next p = (Ok (Some (inl e)), mkParser tk (peeked p))
  | ([], None) => tokenizer_next p = (Ok None, mkParser tk (peeked p)) /\ lex (chars tk) = ([], None)
  end.
Proof.
  intros Ht. unfold tokenizer_next. rewrite lex_unfold. destruct (parse_token_run _ Ht) as (tk & Htk & Hrun). exists tk. split; [done|].
  destruct (lex1 (chars (tokenizer p))) as [[e|t] r] eqn:Hl; simpl in Hrun; [by rewrite Hrun|].
  destruct Hrun as [-> Hr]. case_decide as Hd.
  - split; [done|]. rewrite Hr. subst t. assert (r = []) as ->; [|done]. clear -Hl. unfold lex1 in Hl.
    destruct (drop _ _) as [|c l]; [by simplify_eq|]. unfold lex_quoted, lex_word in Hl.
    repeat (case_match; simplify_eq; try done).
  - rewrite Hr. destruct (lex r) as [ts fin]. done.
Qed.

Lemma peekable_peek_run p s : feeds p s -> exists p', feeds p' s /\ is_Some (peeked p') /\
  peekable_peek p = (Ok (match s with (t :: _, _) => Some (inr t) | ([], None) => None | ([], Some e) => Some (inl e) end), p').
Proof.
  intros [Ht Hp]. unfold peekable_peek, bind, get. destruct (peeked p) as [[[e|t]|]|] eqn:Hpk.
  - subst s. exists p. split; [split; [done|by rewrite Hpk]|]. split; [by eexists|done].
  - destruct Hp as (ts & Hs & Hl). exists p. split; [split; [done|rewrite Hpk; by exists ts]|]. split; [by eexists|].
    destruct s as [ts' fin]. simpl in Hs. by rewrite Hs.
  - destruct Hp as [-> Hl]. exists p. split; [split; [done|by rewrite Hpk]|]. split; [by eexists|done].
  - destruct (tokenizer_next_run p Ht) as (tk & Htk & Hrun). rewrite Hp in Hrun. unfold set_peeked, modify, ret.
    destruct s as [[|t ts] fin].
    + destruct fin as [e|].
      * rewrite Hrun. by exists (mkParser tk (Some (Some (inl e)))).
      * destruct Hrun as [-> Hl]. by exists (mkParser tk (Some None)).
    + destruct Hrun as [-> Hl]. exists (mkParser tk (Some (Some (inr t)))). split; [|done]. split; [done|]. by exists ts.
Qed.

Lemma sim_peek : sim peek peek.
Proof.
  intros p s Hf. destruct (peekable_peek_run p s Hf) as (p' & Hf' & _ & Hrun).
  cbn [peek ShellParser_source toks_source]. unfold ShellParser_peek. rewrite (bind_ok _ _ _ _ _ Hrun).
  destruct s as [[|t ts] [e|]]; cbn; by exists p'.
Qed.

Lemma peekable_next_run p ts fin : feeds p (ts, fin) -> seen (ts, fin) ->
  exists i p1, peekable_next p = (Ok i, p1) /\ feeds p1 (tail ts, fin).
Proof.
  intros [Ht Hp] Hs. unfold peekable_next, bind, get. destruct (peeked p) as [[[e|t]|]|] eqn:Hpk.
  - injection Hp as -> ->. by destruct Hs.
  - destruct Hp as (ts' & Hs' & Hl). simpl in *. subst ts. eexists _, _. split; [done|]. by split.
  - destruct Hp as [[= -> ->] Hl]. eexists _, _. split; [done|]. by split.
  - destruct (tokenizer_next_run p Ht) as (tk & Htk & Hrun). rewrite Hp in Hrun.
    destruct ts as [|t ts]; [destruct fin as [e|]; [by destruct Hs|]|]; destruct Hrun as [-> Hl]; eexists _, _;
      (split; [done|]; split; [done|]); simpl; by rewrite Hpk.
Qed.

Lemma sim_consume : sim consume consume.
Proof.
  assert (Hgo : forall p ts fin, feeds p (ts, fin) -> seen (ts, fin) ->
    match toks_peek (tail ts, fin) with
    | (Ok _, s') => exists p', ShellParser_consume p = (Ok tt, p') /\ feeds p' s'
    | (Err e, _) => exists p', ShellParser_consume p = (Err e, p')
    | (Panic, _) => True
    end).
  { intros p ts fin Hf Hs. destruct (peekable_next_run p ts fin Hf Hs) as (i & p1 & Hn & Hf1). pose proof (sim_peek p1 _ Hf1) as Hp.
    cbn [peek ShellParser_source toks_source] in Hp. unfold ShellParser_consume. rewrite (bind_ok _ _ _ _ _ Hn).
    destruct (toks_peek (tail ts, fin)) as [[t|e|] s']; [|destruct Hp as (p' & Hp); unfold bind; rewrite Hp; by exists p'|done].
    destruct Hp as (p' & Hp & Hf'). rewrite (bind_ok _ _ _ _ _ Hp). by exists p'. }
  intros p [ts fin] Hf. cbn [consume ShellParser_source toks_source].
  destruct ts as [|t ts].
  - destruct fin as [e|]; [done|]. apply (Hgo p [] None Hf). by right.
  - assert (Hs : seen (t :: ts, fin)) by (by left). specialize (Hgo p (t :: ts) fin Hf Hs). unfold toks_consume, bind. simpl tail in Hgo.
    by destruct (toks_peek (ts, fin)) as [[t'|e|] s'].
Qed.

(** The functions of the parser use the source alike. *)
Ltac sim_step :=
  match goal with
  | |- sim (bind _ _) (bind _ _) => apply sim_bind; [|intros ?]
  | |- sim (ret _) _ => apply sim_ret
  | |- sim (fail _) _ => apply sim_fail
  | |- sim peek peek => apply sim_peek
  | |- sim consume consume => apply sim_consume
  | |- sim (if decide ?P then _ else _) _ => destruct (decide P)
  | |- sim (if ?b then _ else _) _ => destruct b
  | |- sim (match ?x with _ => _ end) _ => destruct x
  | |- _ => eassumption
  end.
Ltac sim_auto := repeat sim_step.

Lemma sim_parse_args n : forall args, sim (parse_args n args) (parse_args n args).
Proof. induction n as [|n IH]; intros args; [apply sim_panic|]. cbn [parse_args]. unfold try_match_var_or_string. sim_auto; apply IH. Qed.

Lemma sim_parse_pipe n m m' : sim m m' -> sim (parse_pipe n m) (parse_pipe n m').
Proof.
  intros Hm. unfold parse_pipe, parse_redirect, parse_term, parse_exec, parse_suffix, expected_token, expected_var_or_string.
  pose proof (sim_parse_args n). sim_auto; done.
Qed.

Lemma sim_parse_with n : sim (parse_with n) (parse_with n).
Proof.
  assert (Hl : forall acc, sim (parse_list n acc) (parse_list n acc)).
  { induction n as [|n IH]; intros acc; [apply sim_panic|]. cbn [parse_list]. unfold got.
    pose proof (sim_parse_pipe n _ _ (IH [])). sim_auto; apply IH. }
  unfold parse_with, expected_token. sim_auto. apply Hl.
Qed.

(** ** The properties *)

Lemma parse_run line : plain line ->
  match fst (parse_with (St := toks) (length line + 2) (lex line)) with Panic => False | o => parse line = o end.
Proof.
  intros Hl. unfold parse. destruct (lex_length line) as [Hlen Heof].
  assert (Hf : feeds (ShellParser_new line) (lex line)) by (split; [split; [done|]; split; [simpl; lia|done]|done]).
  pose proof (sim_parse_with (length line + 2) _ _ Hf) as Hsim. clear Hf. revert Hlen Heof Hsim.
  destruct (lex line) as [ts fin]. cbn [fst]. intros Hlen Heof Hsim.
  pose proof (parse_toks_sound (length line + 2) ts fin Heof ltac:(lia)) as Hw. unfold wp in Hw. revert Hsim Hw.
  destruct (parse_with (St := toks) (length line + 2) (ts, fin)) as [[a|e|] s']; intros Hsim Hw; [| |done].
  - destruct Hsim as (p' & -> & _). done.
  - destruct Hsim as (p' & ->). done.
Qed.

(** C15. On a line of ASCII characters the parser accepts exactly the
    sentences of the grammar, and builds their tree: it returns [Ok] of a
    list of commands if and only if the tokenizer meets no error and the
    tokens derive that list. *)
Theorem parse_iff_grammar line ast (Hl : plain line) :
  parse line = Ok ast <-> exists ts es, lex line = (ts, None) /\ g_list ts [] es /\ ast = List es.
Proof.
  pose proof (parse_run line Hl) as Hrun. destruct (lex_length line) as [Hlen Heof]. revert Hlen Heof Hrun.
  destruct (lex line) as [ts fin]. cbn [fst]. intros Hlen Heof Hrun. split.
  - intros Hp. pose proof (parse_toks_sound (length line + 2) ts fin Heof ltac:(lia)) as Hw. unfold wp in Hw. revert Hrun Hw.
    destruct (parse_with (St := toks) (length line + 2) (ts, fin)) as [[a|e|] s']; cbn [fst]; intros Hrun Hw; [|congruence|done].
    assert (a = ast) as -> by congruence. destruct Hw as (-> & es & -> & Hg). by exists ts, es.
  - intros (ts' & es & [= -> ->] & Hg & ->). rewrite (parse_toks_complete _ ts' es Hg) in Hrun by lia. done.
Qed.

Definition demo_line : list Z := bytes_of "ls -l $dir | (cat; wc) >> 'a b' &; echo done &".

Lemma parse_iff_grammar_witness : exists ast, parse demo_line = Ok ast /\
  exists ts es, lex demo_line = (ts, None) /\ g_list ts [] es /\ ast = List es.
Proof.
  assert (Hl : plain demo_line) by (apply (bool_decide_unpack _); vm_compute; exact I).
  destruct (parse demo_line) as [ast|e|] eqn:Hp; [|vm_compute in Hp; discriminate Hp..].
  exists ast. split; [reflexivity|]. apply (parse_iff_grammar demo_line ast Hl). exact Hp.
Defined.

(** The parser returns on every line of ASCII characters: neither a
    slice nor the recursion stops it, so it accepts the line or reports a
    syntax error. *)
Theorem parse_total line (Hl : plain line) : parse line <> Panic.
Proof. intros Hp. pose proof (parse_run line Hl) as Hrun. rewrite Hp in Hrun. by destruct (fst (parse_with _ _)). Qed.

Lemma parse_total_witness : parse (bytes_of "(((a|b);c|") <> Panic.
Proof. apply (parse_total (bytes_of "(((a|b);c|")). apply (bool_decide_unpack _). vm_compute. exact I. Defined.

(** Positions count characters, but slices are taken by byte offsets:
    a word with a character beyond ASCII makes the parser panic, and a quoted
    string with two of them silently loses one. *)
Theorem multibyte_lines : parse [233] = Panic /\
  parse (bytes_of "echo '" ++ [233; 233] ++ bytes_of "'") =
    Ok (List [Exec [mkVarString false (mkEscapeStr (bytes_of "echo") false); mkVarString false (mkEscapeStr [233] false)]]).
Proof. by vm_compute. Qed.

(** A quoted string that ends in an escaped backslash is not recognised:
    [consume_until] takes the second backslash together with the closing
    quote, although printing turns the pair of backslashes into one. *)
Theorem escaped_backslash_not_closed :
  EscapeStr_fmt (mkEscapeStr [97; chr_backslash; chr_backslash] true) = [97; chr_backslash] /\
  parse [chr_dquote; 97; chr_backslash; chr_backslash; chr_dquote] =
    Err (mkSyntaxError (bytes_of "unexpected char '" ++ EOF :: bytes_of "'")).
Proof. by vm_compute. Qed.

(** ** Quoting *)

(** A string between double quotes, with backslashes before the quotes in it. *)
Definition escape (s : list Z) : list Z := s ≫= fun c => if escape_char c then [chr_backslash; c] else [c].
Definition quote (s : list Z) : list Z := chr_dquote :: escape s ++ [chr_dquote].

Lemma unescape_escape s : unescape (escape s) = s.
Proof.
  induction s as [|c s IH]; [done|]. change (escape (c :: s)) with ((if escape_char c then [chr_backslash; c] else [c]) ++ escape s).
  destruct (escape_char c) eqn:Hc; simpl.
  - rewrite Hc, IH. done.
  - replace (c =? chr_backslash) with false; [by rewrite IH|]. unfold escape_char in Hc. by destruct (c =? chr_backslash), (c =? chr_squote), (c =? chr_dquote).
Qed.

(** A line of quoted arguments. *)
Definition command_line (args : list (list Z)) : list Z := args ≫= fun s => quote s ++ [32].

(** What can be quoted: ASCII characters that do not end in a backslash. *)
Definition quotable (s : list Z) : Prop := plain s /\ last s <> Some chr_backslash.

#[export] Instance quotable_dec s : Decision (quotable s).
Proof. unfold quotable. apply _. Defined.

Lemma quotable_tail c s : quotable (c :: s) -> quotable s /\ 0 < c < 128 /\ (c = chr_backslash -> s <> []).
Proof.
  intros [Hp Hl]. apply Forall_cons in Hp as [Hc Hp]. split; [|split; [done|]].
  - split; [done|]. destruct s as [|c' s]; [done|]. by rewrite last_cons_cons in Hl.
  - intros -> ->. done.
Qed.

(** What follows an escaped backslash is not the closing quote. *)
Lemma escape_head s r : s <> [] -> exists c l, escape s ++ r = c :: l /\ c <> chr_dquote.
Proof.
  destruct s as [|c s]; [done|]. intros _. change (escape (c :: s)) with ((if escape_char c then [chr_backslash; c] else [c]) ++ escape s).
  destruct (escape_char c) eqn:Hc; [by eexists _, _|]. eexists _, _. split; [done|]. intros ->. done.
Qed.

Lemma until_escape s r p : quotable s ->
  until chr_dquote true (escape s ++ chr_dquote :: r) p = (chr_dquote :: r, (p + length (escape s))%nat).
Proof.
  revert p. induction s as [|c s IH]; intros p Hs; [cbn; f_equal; lia|].
  apply quotable_tail in Hs as (Hs & Hc & Hb). assert (Hz : (c =? 0) = false) by (apply Z.eqb_neq; lia).
  change (escape (c :: s)) with ((if escape_char c then [chr_backslash; c] else [c]) ++ escape s). unfold escape_char.
  destruct (Z.eqb_spec c chr_squote) as [->|Hs']; [cbn; rewrite IH by done; f_equal; lia|].
  destruct (Z.eqb_spec c chr_dquote) as [->|Hd]; [cbn; rewrite IH by done; f_equal; lia|].
  destruct (Z.eqb_spec c chr_backslash) as [->|Hn].
  - destruct (escape_head s (chr_dquote :: r) (Hb eq_refl)) as (c' & l & He & Hne). specialize (IH (p + 1 + 1)%nat Hs).
    cbn [app orb]. cbn. rewrite He in IH |- *. replace (c' =? 34) with false by (symmetry; by apply Z.eqb_neq). rewrite IH. f_equal. lia.
  - cbn. rewrite Hz. replace (c =? 34) with false by (symmetry; by apply Z.eqb_neq). replace (c =? 92) with false by (symmetry; by apply Z.eqb_neq).
    cbn. rewrite IH by done. f_equal. lia.
Qed.

Lemma lex1_quote s r : quotable s -> lex1 (quote s ++ r) = (inr (TString (mkEscapeStr (escape s) true)), r).
Proof.
  intros Hs. unfold lex1, quote. rewrite <- app_comm_cons, <- app_assoc. change (scan_len (consume_while is_whitespace) _) with 0%nat. cbn [drop app].
  change (lex_quoted chr_dquote true (escape s ++ chr_dquote :: r) = (inr (TString (mkEscapeStr (escape s) true)), r)).
  unfold lex_quoted, scan_len. rewrite until_escape by done. cbn [snd Nat.add]. by rewrite drop_app_length, take_app_length.
Qed.

Lemma lex1_space l : lex1 (32 :: l) = lex1 l.
Proof.
  unfold lex1, scan_len. destruct (consume_while_ok is_whitespace l 1%nat) as [Hw _]. change (consume_while is_whitespace (32 :: l) 0%nat) with (consume_while is_whitespace l 1%nat).
  by rewrite Hw.
Qed.

Lemma lex_command_line args : Forall quotable args ->
  lex (command_line args) = ((fun s => TString (mkEscapeStr (escape s) true)) <$> args, None).
Proof.
  induction 1 as [|s args Hs Ha IH]; [done|]. unfold command_line in *. rewrite bind_cons, <- app_assoc. cbn [app].
  rewrite lex_unfold, lex1_quote by done. rewrite decide_False by done. rewrite lex_unfold, lex1_space, <- lex_unfold, IH. done.
Qed.

Lemma plain_command_line args : Forall quotable args -> plain (command_line args).
Proof.
  induction 1 as [|s args [Hs _] Ha IH]; [by apply Forall_nil|]. unfold command_line. rewrite bind_cons. apply Forall_app. split; [|exact IH].
  apply Forall_app. split; [|by repeat constructor]. constructor; [lia|]. apply Forall_app. split; [|by repeat constructor].
  induction Hs as [|c s Hc Hs IHs]; [by apply Forall_nil|]. change (escape (c :: s)) with ((if escape_char c then [chr_backslash; c] else [c]) ++ escape s).
  apply Forall_app. split; [|done]. destruct (escape_char c); repeat constructor; lia.
Qed.

(** C16. A line of arguments, each written between double quotes with
    backslashes before the quotes and backslashes in it, is parsed as one
    command with these arguments, and each prints as it was, for arguments of
    ASCII characters of which none ends in a backslash. *)
Theorem quote_roundtrip arg args (Hs : Forall quotable (arg :: args)) : exists vs,
  parse (command_line (arg :: args)) = Ok (List [Exec vs]) /\
  Forall (fun v => is_var v = false) vs /\ (fun v => EscapeStr_fmt (vstr v)) <$> vs = arg :: args.
Proof.
  set (var := fun s => mkVarString false (mkEscapeStr (escape s) true)). exists (var <$> arg :: args). split_and!.
  - pose proof (parse_run _ (plain_command_line _ Hs)) as Hrun. pose proof (lex_command_line _ Hs) as Hlex.
    destruct (lex_length (command_line (arg :: args))) as [Hlen _]. rewrite Hlex in Hrun, Hlen.
    rewrite (parse_toks_complete _ _ [Exec (var <$> arg :: args)]) in Hrun; [done| |cbn [fst] in Hlen; lia].
    apply gl_one, gp_redirect, gr_term. apply (gt_exec _ _ [] [] (var arg) (var <$> args)); [done| |constructor].
    clear. induction args as [|s args IH]; [constructor|]. by econstructor.
  - apply Forall_fmap. by apply Forall_true.
  - rewrite <- list_fmap_compose. rewrite <- (list_fmap_id (arg :: args)) at 2. apply list_fmap_ext. intros _ s _. apply unescape_escape.
Qed.

Lemma quote_roundtrip_witness : exists vs,
  parse (command_line [bytes_of "it's; a|b"; chr_backslash :: bytes_of "n $HOME"]) = Ok (List [Exec vs]) /\
  Forall (fun v => is_var v = false) vs /\ (fun v => EscapeStr_fmt (vstr v)) <$> vs = [bytes_of "it's; a|b"; chr_backslash :: bytes_of "n $HOME"].
Proof.
  apply (quote_roundtrip (bytes_of "it's; a|b") [chr_backslash :: bytes_of "n $HOME"]). apply (bool_decide_unpack _). vm_compute. exact I.
Defined.
