(* ===== verification/PageTable.v ===== *)
(** * Page tables (src/kernel/src/arch/riscv64/pgtable.rs, src/kernel/src/mmu/pgtable.rs)

    Three levels of tables of 512 entries (Sv39).  The physical memory that
    holds tables is a map from the address of a table to its entries; a
    reference to an entry is the address of its table and its index.  Pages
    come from an allocator that is an interface here ([PageAlloc]); the
    contents of data pages are not part of the state. *)

From S2P Require Import Prelude Vfs Buddy.

#[local] Open Scope Z_scope.
#[local] Open Scope rw_scope.

(** ** Permissions (mmu/pgtable.rs) *)

(** [EntryPerm], a [bitflags] type. *)
Definition EntryPerm : Type := Z.
Definition PERM_VALID : EntryPerm := 1.
Definition PERM_WRITABLE : EntryPerm := 2.
Definition PERM_READABLE : EntryPerm := 4.
Definition PERM_USER : EntryPerm := 8.
Definition PERM_EXECUTABLE : EntryPerm := 16.

Definition contains (p bit : EntryPerm) : bool := Z.land p bit =? bit.
Definition with_rw : EntryPerm := Z.lor PERM_READABLE PERM_WRITABLE.
Definition with_text : EntryPerm := Z.lor PERM_READABLE PERM_EXECUTABLE.

(** ** Entries *)

Definition PTE_VALID : Z := 1.
Definition PTE_READ : Z := 2.
Definition PTE_WRITE : Z := 4.
Definition PTE_EXEC : Z := 8.
Definition PTE_USER : Z := 16.
Definition FLAGS_MASK : Z := 1023.

(** [ArchEntryPerm::from] *)
Definition arch_perm (perm : EntryPerm) : Z :=
  let flags := if contains perm PERM_USER then PTE_USER else 0 in
  let flags := if contains perm PERM_VALID then Z.lor flags PTE_VALID else flags in
  let flags := if contains perm PERM_WRITABLE then Z.lor flags PTE_WRITE else flags in
  let flags := if contains perm PERM_READABLE then Z.lor flags PTE_READ else flags in
  if contains perm PERM_EXECUTABLE then Z.lor flags PTE_EXEC else flags.

Definition has (bit e : Z) : bool := negb (Z.land e bit =? 0).
Definition set_bit (bit : Z) (b : bool) (e : Z) : Z := if b then Z.lor e bit else Z.land e (Z.lnot bit).

Definition is_valid (e : Z) : bool := has PTE_VALID e.
Definition set_valid (b : bool) (e : Z) : Z := set_bit PTE_VALID b e.
Definition is_writable (e : Z) : bool := has PTE_WRITE e.
Definition set_writable (b : bool) (e : Z) : Z := set_bit PTE_WRITE b e.
Definition is_readable (e : Z) : bool := has PTE_READ e.
Definition set_readable (b : bool) (e : Z) : Z := set_bit PTE_READ b e.
Definition is_user (e : Z) : bool := has PTE_USER e.
Definition set_user (b : bool) (e : Z) : Z := set_bit PTE_USER b e.
Definition is_executable (e : Z) : bool := has PTE_EXEC e.
Definition set_executable (b : bool) (e : Z) : Z := set_bit PTE_EXEC b e.

Definition physical_page_num (e : Z) : Z := Z.shiftr e 10.
Definition physical_addr (e : Z) : Z := physical_page_num e * PGSIZE.

(** [u64 << 10] *)
Definition ppn_bits (addr : Z) : Z := Z.shiftl (addr / PGSIZE) 10 mod 2 ^ 64.

(** [set_physical_addr] behind its assertion. *)
Definition with_physical_addr (addr e : Z) : Z := Z.lor (Z.land e FLAGS_MASK) (ppn_bits addr).
Definition addr_ok (addr : Z) : bool := (addr mod PGSIZE =? 0) && negb (addr =? 0).

Definition is_page_table (e : Z) : bool :=
  Z.land e (Z.lor (Z.lor (Z.lor PTE_READ PTE_WRITE) PTE_EXEC) PTE_VALID) =? PTE_VALID.

Definition make_pde (table_addr : Z) : Z := Z.lor (ppn_bits table_addr) PTE_VALID.

Definition set_perm (flags e : Z) : Z := Z.lor (Z.land e (Z.lnot FLAGS_MASK)) flags.

Definition apply_perm (perm : EntryPerm) (e : Z) : Z :=
  let e := set_valid (contains perm PERM_VALID) e in
  let e := set_writable (contains perm PERM_WRITABLE) e in
  let e := set_readable (contains perm PERM_READABLE) e in
  let e := set_user (contains perm PERM_USER) e in
  set_executable (contains perm PERM_EXECUTABLE) e.

(** [PageTableEntry::perm] *)
Definition perm_of (e : Z) : EntryPerm :=
  let p := if is_valid e then PERM_VALID else 0 in
  let p := if is_writable e then Z.lor p PERM_WRITABLE else p in
  let p := if is_readable e then Z.lor p PERM_READABLE else p in
  let p := if is_user e then Z.lor p PERM_USER else p in
  if is_executable e then Z.lor p PERM_EXECUTABLE else p.

(** ** Indices *)

Definition RISCV_VA_MASK : Z := Z.shiftl 1 (12 + 9 + 9 + 9) - 1.
Definition PX_MASK : Z := 511.
Notation ENTRIES := 512%nat.

Definition level_shift (level : nat) : Z := Z.of_nat level * 9 + 12.

Definition index_for_va (level : nat) (va : Z) : nat := Z.to_nat (Z.land (Z.shiftr va (level_shift level)) PX_MASK).

Definition upper_bound_index_for_va (level : nat) (va : Z) : nat :=
  let index := index_for_va level va in
  let mask := Z.shiftl 1 (level_shift level) - 1 in
  if negb (Z.land va mask =? 0) then (index + 1)%nat else index.

Definition va_for_index (level : nat) (idx : nat) : Z := Z.shiftl (Z.of_nat idx) (level_shift level).

(** [KERNEL_VM_V2_INDEX_RANGE] *)
Definition KERNEL_START_VADDR : Z := 0.
Definition KERNEL_END_VADDR : Z := 0x140000000.
Definition KERNEL_V2_START : nat := index_for_va 2 KERNEL_START_VADDR.
Definition KERNEL_V2_END : nat := index_for_va 2 KERNEL_END_VADDR.

(** ** The state *)

(** The page allocator, as the page tables use it. *)
Class PageAlloc (A : Type) : Type := {
  pa_alloc : M A Empty_set (option Z);
  pa_free : Z -> M A Empty_set unit
}.

Record PtState (A : Type) : Type := mkPt { tables : gmap Z (list Z); pool : A }.
Arguments mkPt {A} tables pool.
Arguments tables {A} p.
Arguments pool {A} p.

(** A reference to an entry. *)
Definition loc : Type := Z * nat.

Section pgtable.
Context {A : Type} `{PageAlloc A}.

#[local] Notation PM E := (M (PtState A) E).
#[local] Notation KM := (M (PtState A) Vfs.Sys.SysErrorKind).

Definition on_pool {E B} (m : M A Empty_set B) : PM E B :=
  fun s => let (r, a) := m (pool s) in
           (match r with Ok b => Ok b | Err e => match e : Empty_set with end | Panic => Panic end, mkPt (tables s) a).

(** Reading through a pointer that is no table, or out of range, panics. *)
Definition read_entry {E} (l : loc) : PM E Z :=
  do s <- get; unwrap (tables s !! l.1 ≫= fun t => t !! l.2).

Definition write_entry {E} (l : loc) (e : Z) : PM E unit :=
  modify (fun s => mkPt (alter (fun t => <[l.2 := e]> t) l.1 (tables s)) (pool s)).

Definition alloc_zeroed_page {E} : PM E (option Z) := on_pool pa_alloc.
Definition free_page {E} (p : Z) : PM E unit := on_pool (pa_free p).

(** [PageTableImpl::try_alloc]: a zeroed page becomes a table. *)
Definition try_alloc {E} : PM E (option Z) :=
  do o <- alloc_zeroed_page;
  match o with
  | Some p => modify (fun s => mkPt (<[p := replicate ENTRIES 0]> (tables s)) (pool s));; ret (Some p)
  | None => ret None
  end.

(** Dropping the box of a table. *)
Definition drop_table {E} (t : Z) : PM E unit :=
  modify (fun s => mkPt (delete t (tables s)) (pool s));; free_page t.

Definition as_table {E} (e : Z) : PM E Z := assert_ (is_page_table e);; ret (physical_addr e).

(** ** Walking *)

(** The loop of [walk] over the levels that are left. *)
Fixpoint walk_levels (levels : list nat) (table va : Z) : KM (option Z) :=
  match levels with
  | [] => ret (Some table)
  | level :: levels' =>
    let l := (table, index_for_va level va) in
    do pde <- read_entry l;
    if is_valid pde then
      do t <- as_table pde; walk_levels levels' t va
    else
      do o <- try_alloc;
      match o with
      | Some raw => write_entry l (make_pde raw);; walk_levels levels' raw va
      | None => ret None
      end
  end.

Definition walk (root va : Z) : KM (option loc) :=
  do o <- walk_levels [2%nat; 1%nat] root va;
  ret ((fun t => (t, index_for_va 0 va)) <$> o).

Definition canonical (va : Z) : bool := Z.land va (Z.lnot RISCV_VA_MASK) =? 0.

Definition set_physical_addr {E} (l : loc) (addr : Z) : PM E unit :=
  assert_ (addr_ok addr);; do e <- read_entry l; write_entry l (with_physical_addr addr e).

Definition update_entry {E} (l : loc) (f : Z -> Z) : PM E unit := do e <- read_entry l; write_entry l (f e).

Definition map (root va pa : Z) (perm : EntryPerm) : KM loc :=
  assert_ (canonical va);;
  do pte <- walk root va;
  match pte with
  | Some pte => set_physical_addr pte pa;; update_entry pte (apply_perm (Z.lor perm PERM_VALID));; ret pte
  | None => fail Vfs.Sys.OutOfMemory
  end.

Definition try_map (root va pa : Z) (perm : EntryPerm) : KM (option loc) :=
  assert_ (canonical va);;
  do pte <- walk root va;
  match pte with
  | Some pte =>
    do e <- read_entry pte;
    if is_valid e then ret None
    else set_physical_addr pte pa;; update_entry pte (apply_perm (Z.lor perm PERM_VALID));; ret (Some pte)
  | None => fail Vfs.Sys.OutOfMemory
  end.

(** The loop of [get_entry] and [get_entry_mut]; [as_table] asserts that the
    entry is a table in both. *)
Fixpoint get_entry_levels {E} (levels : list nat) (pte : loc) (va : Z) : PM E (option loc) :=
  do e <- read_entry pte;
  match levels with
  | [] => ret (if is_valid e then Some pte else None)
  | level :: levels' =>
    if negb (is_valid e) then ret None
    else do t <- as_table e; get_entry_levels levels' (t, index_for_va level va) va
  end.

Definition get_entry {E} (root va : Z) : PM E (option loc) :=
  assert_ (canonical va);; get_entry_levels [1%nat; 0%nat] (root, index_for_va 2 va) va.

Definition unmap {E} (root va : Z) : PM E (option Z) :=
  assert_ (canonical va);;
  do entry <- get_entry root va;
  match entry with
  | Some l => do e <- read_entry l; write_entry l 0;; ret (Some (physical_addr e))
  | None => ret None
  end.

(** ** Ranges: the recursive walk *)

Definition range_error : Type := Z * Vfs.Sys.SysErrorKind.
#[local] Notation RM := (M (PtState A) range_error).

Definition start_index (level : nat) (is_first : bool) (start_va : Z) : nat :=
  if is_first then index_for_va level start_va else 0%nat.
Definition end_index (level : nat) (is_last : bool) (end_va : Z) : nat :=
  if is_last then upper_bound_index_for_va level end_va else ENTRIES.

(** [for idx in s..s + n] *)
Fixpoint for_idx {E} (n s : nat) (body : nat -> PM E unit) : PM E unit :=
  match n with
  | O => ret tt
  | S n' => body s;; for_idx n' (S s) body
  end.

(** [self.0[start_idx..end_idx]] panics unless it is a range of the table. *)
Fixpoint walk_range_mut_recursive (level : nat) (table base_va start_va end_va : Z) (is_first is_last : bool)
    (f : Z -> loc -> RM unit) : RM unit :=
  let start_idx := start_index level is_first start_va in
  let end_idx := end_index level is_last end_va in
  assert_ ((start_idx <=? end_idx)%nat && (end_idx <=? ENTRIES)%nat);;
  for_idx (end_idx - start_idx) start_idx (fun idx =>
    let cur_va := Z.lor base_va (va_for_index level idx) in
    match level with
    | O => f cur_va (table, idx)
    | S level' =>
      do pde <- read_entry (table, idx);
      do t <-
        if is_valid pde then as_table pde
        else
          do o <- try_alloc;
          match o with
          | Some raw => write_entry (table, idx) (make_pde raw);; do pde <- read_entry (table, idx); as_table pde
          | None => fail (if is_first then start_va else cur_va, Vfs.Sys.OutOfMemory)
          end;
      walk_range_mut_recursive level' t cur_va start_va end_va
        (is_first && (idx =? start_idx)%nat) (is_last && (idx =? end_idx - 1)%nat) f
    end).

(** ** Ranges: the iterator over valid entries *)

Record TableRangeIter : Type := mkIter {
  it_table : Z; it_level : nat; it_base_va : Z; cur_idx : nat; start_idx : nat; end_idx : nat; it_first : bool; it_last : bool
}.

Definition TableRangeIter_new (table : Z) (level : nat) (base_va start_va end_va : Z) (is_first is_last : bool) : TableRangeIter :=
  let s := start_index level is_first start_va in
  mkIter table level base_va s s (end_index level is_last end_va) is_first is_last.

Definition set_cur (i : TableRangeIter) (c : nat) : TableRangeIter :=
  mkIter (it_table i) (it_level i) (it_base_va i) c (start_idx i) (end_idx i) (it_first i) (it_last i).

(** The [while] loop of [next], [n] turns at most. *)
Fixpoint table_next {E} (n : nat) (i : TableRangeIter) : PM E (option (nat * Z * loc) * TableRangeIter) :=
  match n with
  | O => ret (None, i)
  | S n' =>
    if (cur_idx i <? end_idx i)%nat then
      do e <- read_entry (it_table i, cur_idx i);
      if is_valid e then
        ret (Some (cur_idx i, Z.lor (it_base_va i) (va_for_index (it_level i) (cur_idx i)), (it_table i, cur_idx i)),
             set_cur i (cur_idx i + 1))
      else table_next n' (set_cur i (cur_idx i + 1))
    else ret (None, i)
  end.

Definition TableRangeIter_next {E} (i : TableRangeIter) : PM E (option (nat * Z * loc) * TableRangeIter) :=
  table_next (end_idx i - cur_idx i) i.

Record InternalRangeIter : Type := mkRange { table_iters : list TableRangeIter; r_start_va : Z; r_end_va : Z }.

Definition InternalRangeIter_new (root start_va end_va : Z) : InternalRangeIter :=
  mkRange
    ((fun level => if (level =? 2)%nat then TableRangeIter_new root 2 0 start_va end_va true true
                   else TableRangeIter_new root 2 0 0 0 true true) <$> [0%nat; 1%nat; 2%nat])
    start_va end_va.

Definition set_iter (r : InternalRangeIter) (level : nat) (i : TableRangeIter) : InternalRangeIter :=
  mkRange (<[level := i]> (table_iters r)) (r_start_va r) (r_end_va r).

(** The recursion goes up a level, or starts the next table of its level;
    [n] bounds its depth. *)
Fixpoint next_recursive {E} (n : nat) (level : nat) (r : InternalRangeIter) : PM E (option (nat * Z * loc) * InternalRangeIter) :=
  match n with
  | O => panic
  | S n' =>
    do i <- unwrap (table_iters r !! level);
    do (o, i') <- TableRangeIter_next i;
    let r := set_iter r level i' in
    match o with
    | Some entry => ret (Some entry, r)
    | None =>
      if (level =? 2)%nat then ret (None, r)
      else
        do (o, r) <- next_recursive n' (level + 1) r;
        match o with
        | Some (idx, base_va, pde) =>
          do up_iter <- unwrap (table_iters r !! (level + 1)%nat);
          let is_first := it_first up_iter && (start_idx up_iter =? idx)%nat in
          let is_last := it_last up_iter && (end_idx up_iter - 1 =? idx)%nat in
          do e <- read_entry pde;
          do pgtable <- as_table e;
          next_recursive n' level
            (set_iter r level (TableRangeIter_new pgtable level base_va (r_start_va r) (r_end_va r) is_first is_last))
        | None => ret (None, r)
        end
    end
  end.

(** Every turn of the recursion takes another table: the pages of the range
    and the entries of two tables bound their number. *)
Definition range_next {E} (r : InternalRangeIter) : PM E (option (Z * loc) * InternalRangeIter) :=
  do (o, r) <- next_recursive (Z.to_nat ((r_end_va r - r_start_va r) / PGSIZE) + 2 * ENTRIES) 0 r;
  ret ((fun '(_, va, l) => (va, l)) <$> o, r).

(** [for (va, pte) in iter { body }]; [n] bounds the number of entries. *)
Fixpoint for_entries {E} (n : nat) (r : InternalRangeIter) (body : Z -> loc -> PM E unit) : PM E unit :=
  match n with
  | O => panic
  | S n' =>
    do (o, r) <- range_next r;
    match o with
    | Some (va, l) => body va l;; for_entries n' r body
    | None => ret tt
    end
  end.

Definition range_of_entries_mut {E} (root start_va end_va : Z) (body : Z -> loc -> PM E unit) : PM E unit :=
  assert_ (start_va <=? end_va);;
  for_entries (Z.to_nat ((end_va - start_va) / PGSIZE) + 1) (InternalRangeIter_new root start_va end_va) body.

(** ** Operations on ranges *)

Definition unmap_range {E} (root va size : Z) : PM E unit :=
  range_of_entries_mut root va (va + size) (fun _ pte => write_entry pte 0).

Definition vunmap {E} (root va size : Z) : PM E unit :=
  range_of_entries_mut root va (va + size) (fun _ pte =>
    do e <- read_entry pte; write_entry pte 0;; free_page (physical_addr e)).

Fixpoint map_pages (n : nat) (root start_va va pa i : Z) (perm : EntryPerm) : KM unit :=
  match n with
  | O => ret tt
  | S n' =>
    catch (map root va pa perm;; ret tt) (fun e => unmap_range root start_va (PGSIZE * i);; fail e);;
    map_pages n' root start_va (va + PGSIZE) (pa + PGSIZE) (i + 1) perm
  end.

Definition map_range (root va pa size : Z) (perm : EntryPerm) : KM unit :=
  map_pages (Z.to_nat (size / PGSIZE)) root va va pa 0 perm.

Definition is_vmap_area (vaddr : Z) : bool := 0x200000000 <=? vaddr.

Definition vmap_page (root va : Z) (perm : EntryPerm) : KM Z :=
  assert_ (is_vmap_area va);;
  do o <- alloc_zeroed_page;
  match o with
  | Some pa =>
    do pte <- catch (try_map root va pa perm) (fun err => free_page pa;; fail err);
    match pte with
    | Some _ => ret pa
    | None => free_page pa;; fail Vfs.Sys.InvalidArgument
    end
  | None => fail Vfs.Sys.OutOfMemory
  end.

Definition vmap_entry (flags : Z) (cur_va : Z) (entry : loc) : RM unit :=
  do e <- read_entry entry;
  if is_valid e then fail (cur_va, Vfs.Sys.InvalidArgument)
  else
    do o <- alloc_zeroed_page;
    match o with
    | Some pa => set_physical_addr entry pa;; update_entry entry (set_perm flags)
    | None => fail (cur_va, Vfs.Sys.OutOfMemory)
    end.

Definition vmap (root start_va size : Z) (perm : EntryPerm) : KM unit :=
  fun s =>
    match walk_range_mut_recursive 2 root 0 start_va (start_va + size) true true
            (vmap_entry (arch_perm (Z.lor perm PERM_VALID))) s with
    | (Ok tt, s') => (Ok tt, s')
    | (Err (brk_addr, err), s') =>
      (assert_ (brk_addr mod PGSIZE =? 0);; assert_ (start_va <=? brk_addr);;
       vunmap root start_va (brk_addr - start_va);; fail err) s'
    | (Panic, s') => (Panic, s')
    end.

(** ** Clearing *)

(** [clear_table] on the entries [s..s + n]: a level above 0 frees the table
    of each valid entry after the tables below it. *)
Fixpoint clear_recursive {E} (level : nat) (table : Z) : PM E unit :=
  match level with
  | O => ret tt
  | S level' =>
    let clear_entry (idx : nat) : PM E unit :=
      do pte <- read_entry (table, idx);
      if negb (is_valid pte) then ret tt
      else
        clear_recursive level' (physical_addr pte);;
        write_entry (table, idx) 0;;
        drop_table (physical_addr pte) in
    if (level =? 2)%nat then
      for_idx KERNEL_V2_START 0 clear_entry;;
      for_idx (ENTRIES - (KERNEL_V2_END + 1)) (KERNEL_V2_END + 1) clear_entry
    else for_idx ENTRIES 0 clear_entry
  end.

Definition clear {E} (root : Z) : PM E unit := clear_recursive 2 root.

Definition copy_from_kernel {E} (root kernel : Z) : PM E unit :=
  for_idx (KERNEL_V2_END + 1 - KERNEL_V2_START) KERNEL_V2_START (fun idx =>
    do e <- read_entry (kernel, idx); write_entry (root, idx) e).
End pgtable.
