(* ===== verification/PtTree.v ===== *)
(** * Page table entries and indices

    An entry is a page number above ten bits of flags; the operations on the
    flags leave the number alone and the other way round.  The indices of an
    address are the digits of its page number to the base 512. *)

From S2P Require Import Prelude Buddy PageTable.

#[local] Open Scope Z_scope.
#[local] Open Scope rw_scope.

(** ** Numbers in two parts *)

Lemma join_bits k q f n : 0 <= k -> 0 <= f < 2 ^ k -> 0 <= n ->
  Z.testbit (q * 2 ^ k + f) n = if n <? k then Z.testbit f n else Z.testbit q (n - k).
Proof.
  intros Hk Hf Hn. destruct (Z.ltb_spec n k).
  - rewrite <- (Z.mod_pow2_bits_low (q * 2 ^ k + f) k n) by lia. f_equal.
    rewrite Z.add_comm, Z.mod_add by lia. apply Z.mod_small. lia.
  - replace n with (n - k + k) at 1 by lia. rewrite <- Z.div_pow2_bits by lia. f_equal.
    rewrite Z.div_add_l, (Z.div_small f) by lia. lia.
Qed.

Lemma bits_small k b n : 0 <= b < 2 ^ k -> 0 <= k <= n -> Z.testbit b n = false.
Proof. intros Hb Hk. rewrite <- (Z.mod_small b (2 ^ k)) by lia. apply Z.mod_pow2_bits_high. lia. Qed.

Lemma lor_low k q f b : 0 <= k -> 0 <= f < 2 ^ k -> 0 <= b < 2 ^ k -> 0 <= Z.lor f b < 2 ^ k ->
  Z.lor (q * 2 ^ k + f) b = q * 2 ^ k + Z.lor f b.
Proof.
  intros Hk Hf Hb Hl. apply Z.bits_inj'. intros n Hn. rewrite Z.lor_spec, !join_bits by lia.
  destruct (Z.ltb_spec n k); [by rewrite Z.lor_spec|].
  by rewrite (bits_small k b n), orb_false_r by lia.
Qed.

Lemma land_low k q f b : 0 <= k -> 0 <= f < 2 ^ k -> 0 <= b < 2 ^ k -> Z.land (q * 2 ^ k + f) b = Z.land f b.
Proof.
  intros Hk Hf Hb. apply Z.bits_inj'. intros n Hn. rewrite !Z.land_spec, join_bits by lia.
  destruct (Z.ltb_spec n k); [done|].
  by rewrite (bits_small k b n), !andb_false_r by lia.
Qed.

Lemma land_lnot_low k q f b : 0 <= k -> 0 <= f < 2 ^ k -> 0 <= b < 2 ^ k -> 0 <= Z.land f (Z.lnot b) < 2 ^ k ->
  Z.land (q * 2 ^ k + f) (Z.lnot b) = q * 2 ^ k + Z.land f (Z.lnot b).
Proof.
  intros Hk Hf Hb Hl. apply Z.bits_inj'. intros n Hn. rewrite Z.land_spec, !join_bits by lia.
  destruct (Z.ltb_spec n k); [by rewrite Z.land_spec|].
  by rewrite Z.lnot_spec, (bits_small k b n), andb_true_r by lia.
Qed.

(** ** Entries *)

(** The entry with page number [q] and flags [f]. *)
Definition entry (q f : Z) : Z := q * 2 ^ 10 + f.

Lemma entry_eta e : e = entry (e / 2 ^ 10) (e mod 2 ^ 10).
Proof. unfold entry. rewrite Z.mul_comm. apply Z.div_mod. lia. Qed.

Lemma entry_addr q f : 0 <= f < 1024 -> physical_addr (entry q f) = q * PGSIZE.
Proof.
  intros Hf. unfold physical_addr, physical_page_num, entry. rewrite Z.shiftr_div_pow2 by lia.
  rewrite Z.div_add_l, Z.div_small by lia. lia.
Qed.

Lemma entry_has q f bit : 0 <= f < 1024 -> 0 <= bit < 1024 -> has bit (entry q f) = has bit f.
Proof. intros Hf Hb. unfold has, entry. by rewrite (land_low 10) by (simpl; lia). Qed.

Lemma ppn_bits_addr addr : 0 <= addr < 2 ^ 64 -> ppn_bits addr = entry (addr / PGSIZE) 0.
Proof.
  intros Ha. unfold ppn_bits, entry. rewrite Z.shiftl_mul_pow2 by lia. rewrite Z.mod_small; [lia|].
  change (2 ^ 64) with (2 ^ 54 * 2 ^ 10). lia.
Qed.

Lemma with_physical_addr_entry addr e : 0 <= addr < 2 ^ 64 -> with_physical_addr addr e = entry (addr / PGSIZE) (e mod 2 ^ 10).
Proof.
  intros Ha. unfold with_physical_addr. rewrite ppn_bits_addr by done. unfold entry, FLAGS_MASK.
  change 1023 with (Z.ones 10). rewrite Z.land_ones, Z.add_0_r by lia. rewrite Z.lor_comm.
  pose proof (Z.mod_pos_bound e (2 ^ 10) ltac:(lia)) as Hm. rewrite <- (Z.add_0_r (addr / PGSIZE * 2 ^ 10)).
  rewrite (lor_low 10) by (rewrite ?Z.lor_0_l; lia). rewrite Z.lor_0_l. lia.
Qed.

(** The flags of the small tables below. *)
Definition flag_bits : list Z := [PTE_VALID; PTE_READ; PTE_WRITE; PTE_EXEC; PTE_USER].

Lemma set_bit_table : forallb (fun bit => forallb (fun f =>
  (0 <=? Z.lor f bit) && (Z.lor f bit <? 1024) && (0 <=? Z.land f (Z.lnot bit)) && (Z.land f (Z.lnot bit) <? 1024)) (seqZ 0 1024)) flag_bits = true.
Proof. by vm_compute. Qed.

Lemma set_bit_range bit b f : bit ∈ flag_bits -> 0 <= f < 1024 -> 0 <= set_bit bit b f < 1024.
Proof.
  intros Hb Hf. pose proof set_bit_table as Ht. rewrite forallb_forall in Ht. apply list_elem_of_In in Hb. specialize (Ht bit Hb).
  rewrite forallb_forall in Ht. specialize (Ht f). rewrite <- list_elem_of_In, elem_of_seqZ in Ht. specialize (Ht ltac:(lia)).
  rewrite !andb_true_iff, !Z.leb_le, !Z.ltb_lt in Ht. unfold set_bit. destruct b; lia.
Qed.

Lemma flag_bits_range bit : bit ∈ flag_bits -> 0 <= bit < 1024.
Proof.
  unfold flag_bits, PTE_VALID, PTE_READ, PTE_WRITE, PTE_EXEC, PTE_USER. rewrite !elem_of_cons, elem_of_nil. lia.
Qed.

Lemma set_bit_entry bit b q f : bit ∈ flag_bits -> 0 <= f < 1024 -> set_bit bit b (entry q f) = entry q (set_bit bit b f).
Proof.
  intros Hb Hf. pose proof (set_bit_range bit b f Hb Hf) as Hr. apply flag_bits_range in Hb. unfold set_bit, entry in *. destruct b.
  - apply lor_low; simpl; lia.
  - apply land_lnot_low; simpl; lia.
Qed.

Lemma apply_perm_entry perm q f : 0 <= f < 1024 -> apply_perm perm (entry q f) = entry q (apply_perm perm f) /\ 0 <= apply_perm perm f < 1024.
Proof.
  intros Hf. unfold apply_perm, set_valid, set_writable, set_readable, set_user, set_executable.
  assert (Hin : forall bit, bit ∈ [PTE_VALID; PTE_READ; PTE_WRITE; PTE_EXEC; PTE_USER] -> bit ∈ flag_bits) by done.
  rewrite !set_bit_entry by (repeat first [assumption | apply set_bit_range | apply Hin; set_solver]).
  split; [done|]. repeat first [assumption | apply set_bit_range | apply Hin; set_solver].
Qed.

Lemma apply_perm_table : forallb (fun perm => forallb (fun f =>
  let f' := apply_perm (Z.lor perm PERM_VALID) f in
  is_valid f' && (perm_of f' =? Z.lor perm PERM_VALID)) (seqZ 0 1024)) (seqZ 0 32) = true.
Proof. by vm_compute. Qed.

Lemma arch_perm_table : forallb (fun perm =>
  let f := arch_perm (Z.lor perm PERM_VALID) in
  (0 <=? f) && (f <? 1024) && is_valid f && (perm_of f =? Z.lor perm PERM_VALID)) (seqZ 0 32) = true.
Proof. by vm_compute. Qed.

Lemma perm_of_entry q f : 0 <= f < 1024 -> perm_of (entry q f) = perm_of f.
Proof.
  intros Hf. unfold perm_of, is_valid, is_writable, is_readable, is_user, is_executable. rewrite !entry_has; try done; unfold PTE_VALID, PTE_READ, PTE_WRITE, PTE_EXEC, PTE_USER; lia.
Qed.

Lemma is_valid_entry q f : 0 <= f < 1024 -> is_valid (entry q f) = is_valid f.
Proof. intros Hf. unfold is_valid. rewrite entry_has; [done|done|]. unfold PTE_VALID. lia. Qed.

(** An entry that maps a page with a permission. *)
Definition maps (e pa : Z) (perm : EntryPerm) : Prop := is_valid e = true /\ physical_addr e = pa /\ perm_of e = Z.lor perm PERM_VALID.

Lemma addr_ok_spec addr : addr_ok addr = true -> addr / PGSIZE * PGSIZE = addr.
Proof. unfold addr_ok. rewrite andb_true_iff, Z.eqb_eq. intros [Ha _]. lia. Qed.

(** What [map] and [try_map] write. *)
Lemma map_entry_maps addr e perm : addr_ok addr = true -> 0 <= addr < 2 ^ 64 -> 0 <= perm < 32 ->
  maps (apply_perm (Z.lor perm PERM_VALID) (with_physical_addr addr e)) addr perm.
Proof.
  intros Hok Ha Hp. rewrite with_physical_addr_entry by done. pose proof (Z.mod_pos_bound e (2 ^ 10) ltac:(lia)) as Hm.
  set (f := e mod 2 ^ 10) in *. change (2 ^ 10) with 1024 in Hm. destruct (apply_perm_entry (Z.lor perm PERM_VALID) (addr / PGSIZE) f Hm) as [-> Hf'].
  pose proof apply_perm_table as Ht. rewrite forallb_forall in Ht. specialize (Ht perm). rewrite <- list_elem_of_In, elem_of_seqZ in Ht.
  specialize (Ht ltac:(lia)). rewrite forallb_forall in Ht. specialize (Ht f). rewrite <- list_elem_of_In, elem_of_seqZ in Ht.
  specialize (Ht ltac:(lia)). rewrite andb_true_iff, Z.eqb_eq in Ht. destruct Ht as [Hv Hpm].
  split; [by rewrite is_valid_entry|]. split; [rewrite entry_addr by done; by apply addr_ok_spec|by rewrite perm_of_entry].
Qed.

(** What [vmap] writes. *)
Lemma vmap_entry_maps addr e perm : addr_ok addr = true -> 0 <= addr < 2 ^ 64 -> 0 <= perm < 32 ->
  maps (set_perm (arch_perm (Z.lor perm PERM_VALID)) (with_physical_addr addr e)) addr perm.
Proof.
  intros Hok Ha Hp. rewrite with_physical_addr_entry by done. pose proof (Z.mod_pos_bound e (2 ^ 10) ltac:(lia)) as Hm.
  pose proof arch_perm_table as Ht. rewrite forallb_forall in Ht. specialize (Ht perm). rewrite <- list_elem_of_In, elem_of_seqZ in Ht.
  specialize (Ht ltac:(lia)). rewrite !andb_true_iff, Z.leb_le, Z.ltb_lt, Z.eqb_eq in Ht. destruct Ht as [[[Hlo Hhi] Hv] Hpm].
  set (f := arch_perm _) in *.
  assert (He : set_perm f (entry (addr / PGSIZE) (e mod 2 ^ 10)) = entry (addr / PGSIZE) f).
  { unfold set_perm, entry. change FLAGS_MASK with (Z.ones 10).
    assert (Hz : Z.land (e mod 2 ^ 10) (Z.lnot (Z.ones 10)) = 0).
    { rewrite <- Z.ldiff_land. apply Z.ldiff_ones_r_low; [lia|]. destruct (decide (e mod 2 ^ 10 = 0)) as [->|]; [simpl; lia|]. apply Z.log2_lt_pow2; lia. }
    rewrite (land_lnot_low 10); [|lia|lia|by vm_compute|rewrite Hz; lia]. rewrite Hz. rewrite (lor_low 10) by (rewrite ?Z.lor_0_l; lia).
    by rewrite Z.lor_0_l. }
  rewrite He. split; [by rewrite is_valid_entry|]. split; [rewrite entry_addr by lia; by apply addr_ok_spec|by rewrite perm_of_entry].
Qed.

(** A pointer to a table. *)
Lemma make_pde_spec t : addr_ok t = true -> 0 <= t < 2 ^ 64 ->
  is_valid (make_pde t) = true /\ is_page_table (make_pde t) = true /\ physical_addr (make_pde t) = t.
Proof.
  intros Hok Ht. assert (He : make_pde t = entry (t / PGSIZE) PTE_VALID).
  { unfold make_pde. rewrite ppn_bits_addr by done. unfold entry, PTE_VALID. rewrite (lor_low 10 _ 0 1); [done|lia|lia|lia|by vm_compute]. }
  rewrite He. unfold PTE_VALID. split; [by rewrite is_valid_entry|]. split; [|rewrite entry_addr by lia; by apply addr_ok_spec].
  unfold is_page_table, entry. rewrite (land_low 10); [done|lia|lia|]. by vm_compute.
Qed.

(** ** Indices *)

(** The digit of a page number at a level. *)
Definition pidx (level : nat) (n : Z) : nat := Z.to_nat (n / 512 ^ Z.of_nat level mod 512).

Lemma pow_level (level : nat) : 2 ^ level_shift level = 4096 * 512 ^ Z.of_nat level.
Proof.
  unfold level_shift. rewrite Z.pow_add_r, Z.mul_comm by lia. f_equal.
  change 512 with (2 ^ 9). rewrite <- Z.pow_mul_r by lia. f_equal. lia.
Qed.

Lemma index_page level va : index_for_va level va = pidx level (va / 4096).
Proof.
  unfold index_for_va, pidx, PX_MASK. f_equal. change 511 with (Z.ones 9). rewrite Z.land_ones, Z.shiftr_div_pow2 by (unfold level_shift; lia).
  rewrite pow_level. pose proof (Z.pow_pos_nonneg 512 (Z.of_nat level)). by rewrite Z.div_div by lia.
Qed.

Lemma pidx_lt level n : (pidx level n < 512)%nat.
Proof. unfold pidx. pose proof (Z.mod_pos_bound (n / 512 ^ Z.of_nat level) 512). lia. Qed.

(** The first index behind the range of pages that ends at page [n], unless
    the range ends with a table of the lowest level. *)
Lemma upper_bound_page level n : (level <= 2)%nat -> 0 < n -> n mod 512 <> 0 ->
  upper_bound_index_for_va level (n * 4096) = S (pidx level (n - 1)).
Proof.
  intros Hl Hn Hm. unfold upper_bound_index_for_va. rewrite index_page, Z.div_mul by lia.
  assert (Hmask : Z.land (n * 4096) (Z.shiftl 1 (level_shift level) - 1) = (n * 4096) mod 2 ^ level_shift level).
  { rewrite <- Z.land_ones by (unfold level_shift; lia). done. }
  rewrite Hmask, pow_level. destruct level as [|[|[|level]]]; [| | |lia]; unfold pidx.
  - change (Z.of_nat 0) with 0. rewrite Z.pow_0_r, !Z.div_1_r. replace (n * 4096 mod (4096 * 1) =? 0) with true by (symmetry; apply Z.eqb_eq; lia).
    simpl. lia.
  - change (512 ^ Z.of_nat 1) with 512. replace (n * 4096 mod (4096 * 512) =? 0) with false by (symmetry; apply Z.eqb_neq; lia). simpl. lia.
  - change (512 ^ Z.of_nat 2) with 262144. replace (n * 4096 mod (4096 * 262144) =? 0) with false by (symmetry; apply Z.eqb_neq; lia). simpl. lia.
Qed.

Lemma pidx_digits n : 0 <= n < 2 ^ 27 -> n = Z.of_nat (pidx 2 n) * 262144 + Z.of_nat (pidx 1 n) * 512 + Z.of_nat (pidx 0 n).
Proof. intros Hn. unfold pidx. change (512 ^ Z.of_nat 0) with 1. change (512 ^ Z.of_nat 1) with 512. change (512 ^ Z.of_nat 2) with 262144. lia. Qed.

Lemma pidx_inj n m : 0 <= n < 2 ^ 27 -> 0 <= m < 2 ^ 27 -> pidx 2 n = pidx 2 m -> pidx 1 n = pidx 1 m -> pidx 0 n = pidx 0 m -> n = m.
Proof. intros Hn Hm H2 H1 H0. rewrite (pidx_digits n), (pidx_digits m) by done. by rewrite H2, H1, H0. Qed.

(** The address that the ranges compute for an index. *)
Lemma cur_va_add level x (i : nat) : (i < 512)%nat -> x mod 2 ^ (level_shift (S level)) = 0 ->
  Z.lor x (va_for_index level i) = x + Z.of_nat i * 2 ^ level_shift level.
Proof.
  intros Hi Hx. unfold va_for_index. rewrite Z.shiftl_mul_pow2 by (unfold level_shift; lia).
  assert (Hp : 2 ^ level_shift (S level) = 2 ^ level_shift level * 512).
  { change 512 with (2 ^ 9). rewrite <- Z.pow_add_r by (unfold level_shift; lia). f_equal. unfold level_shift. lia. }
  pose proof (Z.pow_pos_nonneg 2 (level_shift level) ltac:(lia) ltac:(unfold level_shift; lia)) as Hpos.
  assert (Hdiv : x = x / 2 ^ level_shift (S level) * 2 ^ level_shift (S level) + 0).
  { rewrite Z.add_0_r. apply Z.mod_divide in Hx as [q ->]; [|lia]. by rewrite Z.div_mul by lia. }
  rewrite Hdiv at 1. rewrite lor_low; [| |lia| |]; [|unfold level_shift; lia|rewrite Hp; nia|rewrite Z.lor_0_l, Hp; nia].
  rewrite Z.lor_0_l. lia.
Qed.

Lemma canonical_range va : 0 <= va < 2 ^ 39 -> canonical va = true.
Proof.
  intros Hva. unfold canonical, RISCV_VA_MASK. apply Z.eqb_eq. change (Z.shiftl 1 (12 + 9 + 9 + 9) - 1) with (Z.ones 39).
  rewrite <- Z.ldiff_land. apply Z.ldiff_ones_r_low; [lia|]. destruct (decide (va = 0)) as [->|]; [simpl; lia|]. apply Z.log2_lt_pow2; lia.
Qed.

(** * The tree of page tables

    [node] follows the valid entries along a path of indices; [leaf] is the
    entry of a page.  [tree_ok] says that the tables are a tree: every node is
    a table of its own.  Writing a leaf and hanging a new table into the tree
    are the two changes that the walks make. *)

(** ** Paths *)

Definition ent (T : gmap Z (list Z)) (t : Z) (i : nat) : option Z := T !! t ≫= fun l => l !! i.

Definition sub (T : gmap Z (list Z)) (t : Z) (i : nat) : option Z :=
  ent T t i ≫= fun e => if is_valid e then Some (physical_addr e) else None.

Definition node (T : gmap Z (list Z)) (root : Z) (p : list nat) : option Z :=
  foldl (fun o i => o ≫= fun t => sub T t i) (Some root) p.

(** The valid entry of the page with number [n]. *)
Definition leaf (T : gmap Z (list Z)) (root : Z) (n : Z) : option Z :=
  node T root [pidx 2 n; pidx 1 n] ≫= fun t => ent T t (pidx 0 n) ≫= fun e => if is_valid e then Some e else None.

Record tree_ok (T : gmap Z (list Z)) (root : Z) : Prop := {
  to_len t l : T !! t = Some l -> length l = 512%nat;
  to_node p t : (length p <= 2)%nat -> node T root p = Some t -> is_Some (T !! t);
  to_inj p q t : (length p <= 2)%nat -> (length q <= 2)%nat -> node T root p = Some t -> node T root q = Some t -> p = q;
  to_pde p t i e : (length p <= 1)%nat -> node T root p = Some t -> ent T t i = Some e -> is_valid e = true -> is_page_table e = true
}.

Lemma node_snoc T root p i : node T root (p ++ [i]) = node T root p ≫= fun t => sub T t i.
Proof. unfold node. by rewrite foldl_app. Qed.

Lemma tree_ent T root p t i : tree_ok T root -> (length p <= 2)%nat -> node T root p = Some t -> (i < 512)%nat -> exists e, ent T t i = Some e.
Proof.
  intros Hok Hp Hn Hi. destruct (to_node _ _ Hok p t Hp Hn) as [l Hl]. pose proof (to_len _ _ Hok t l Hl) as Hlen.
  unfold ent. rewrite Hl. simpl. apply lookup_lt_is_Some. lia.
Qed.

(** Paths of at most two indices, by cases. *)
Lemma path_cases (P : list nat -> Prop) : P [] -> (forall a, P [a]) -> (forall a b, P [a; b]) -> forall p, (length p <= 2)%nat -> P p.
Proof. intros H0 H1 H2 [|a [|b [|c p]]] Hp; auto. simpl in Hp. lia. Qed.

(** ** Tables apart

    Paths through the entries of the root from [low] on, and the tables that
    they do not reach: the tables of other roots, and of the entries before
    [low], which all roots share. *)

Definition above (low : nat) (p : list nat) : Prop := match p with [] => True | a :: _ => (low <= a)%nat end.

Definition apart (low : nat) (T : gmap Z (list Z)) (root t : Z) : Prop :=
  forall p, (length p <= 2)%nat -> above low p -> node T root p <> Some t.

Definition framed (low : nat) (root : Z) (T T' : gmap Z (list Z)) : Prop :=
  forall t l, T !! t = Some l -> apart low T root t -> T' !! t = Some l /\ apart low T' root t.

Lemma framed_refl low root T : framed low root T T.
Proof. by intros t l. Qed.

Lemma framed_trans low root T T1 T2 : framed low root T T1 -> framed low root T1 T2 -> framed low root T T2.
Proof. intros H1 H2 t l Hl Ha. destruct (H1 t l Hl Ha) as [Hl1 Ha1]. by apply H2. Qed.

Lemma above_prefix low p i : above low (p ++ [i]) -> above low p.
Proof. by destruct p. Qed.

(** ** Writing an entry *)

Definition set_ent (T : gmap Z (list Z)) (t : Z) (i : nat) (e : Z) : gmap Z (list Z) := alter (fun l => <[i := e]> l) t T.

Lemma ent_set T t i e l u j : T !! t = Some l -> (i < length l)%nat ->
  ent (set_ent T t i e) u j = if decide (u = t /\ j = i) then Some e else ent T u j.
Proof.
  intros Hl Hi. unfold ent, set_ent. destruct (decide (u = t)) as [->|Hne].
  - rewrite lookup_alter_eq, Hl. simpl. destruct (decide (j = i)) as [->|Hij].
    + rewrite decide_True by done. by apply list_lookup_insert_eq.
    + rewrite decide_False by tauto. by rewrite list_lookup_insert_ne.
  - rewrite lookup_alter_ne by done. by rewrite decide_False by tauto.
Qed.

Lemma set_ent_dom T t i e u : is_Some (set_ent T t i e !! u) <-> is_Some (T !! u).
Proof. unfold set_ent. rewrite lookup_alter_is_Some. done. Qed.

Lemma set_ent_len T t i e : (forall u l, T !! u = Some l -> length l = 512%nat) ->
  forall u l, set_ent T t i e !! u = Some l -> length l = 512%nat.
Proof.
  intros Hlen u l. unfold set_ent. rewrite lookup_alter_Some. intros [(<- & l' & Hl' & ->)|[_ Hl]]; [rewrite length_insert|]; by eapply Hlen.
Qed.

Section leaf.
Context (T : gmap Z (list Z)) (root : Z) (Hok : tree_ok T root) (a b i : nat) (t e : Z).
Hypothesis Ht : node T root [a; b] = Some t.
Hypothesis Hi : (i < 512)%nat.

Lemma leaf_ent u j : ent (set_ent T t i e) u j = if decide (u = t /\ j = i) then Some e else ent T u j.
Proof.
  destruct (to_node _ _ Hok [a; b] t ltac:(simpl; lia) Ht) as [l Hl]. eapply ent_set; [done|].
  by rewrite (to_len _ _ Hok t l Hl).
Qed.

Lemma leaf_sub p u j : (length p <= 1)%nat -> node T root p = Some u -> sub (set_ent T t i e) u j = sub T u j.
Proof.
  intros Hp Hu. unfold sub. rewrite leaf_ent. rewrite decide_False; [done|]. intros [-> _].
  pose proof (to_inj _ _ Hok p [a; b] t ltac:(lia) ltac:(simpl; lia) Hu Ht) as ->. simpl in Hp. lia.
Qed.

Lemma leaf_node p : (length p <= 2)%nat -> node (set_ent T t i e) root p = node T root p.
Proof.
  revert p. apply path_cases; [done| |].
  - intros x. unfold node. simpl. by apply (leaf_sub []); [simpl; lia|].
  - intros x y. change [x; y] with ([x] ++ [y]). rewrite !node_snoc.
    assert (H1 : node (set_ent T t i e) root [x] = node T root [x]) by (unfold node; simpl; apply (leaf_sub []); [simpl; lia|done]).
    rewrite H1. destruct (node T root [x]) as [u|] eqn:Hu; [|done]. simpl. by apply (leaf_sub [x]).
Qed.

Lemma leaf_tree : tree_ok (set_ent T t i e) root.
Proof.
  split.
  - apply set_ent_len, Hok.
  - intros p u Hp. rewrite leaf_node by done. intros Hu. apply set_ent_dom. by apply (to_node _ _ Hok p).
  - intros p q u Hp Hq. rewrite !leaf_node by done. by apply Hok.
  - intros p u j x Hp. rewrite leaf_node by lia. intros Hu. rewrite leaf_ent. rewrite decide_False; [by apply (to_pde _ _ Hok p)|].
    intros [-> _]. pose proof (to_inj _ _ Hok p [a; b] t ltac:(lia) ltac:(simpl; lia) Hu Ht) as ->. simpl in Hp. lia.
Qed.

Lemma leaf_framed low : (low <= a)%nat -> framed low root T (set_ent T t i e).
Proof.
  intros Hlow u l Hl Ha. assert (Hu : u <> t) by (intros ->; by apply (Ha [a; b]); [simpl; lia| |]). split.
  - unfold set_ent. by rewrite lookup_alter_ne.
  - intros p Hp Hab. rewrite leaf_node by done. by apply Ha.
Qed.

Lemma leaf_leaf n : leaf (set_ent T t i e) root n =
  if decide (pidx 2 n = a /\ pidx 1 n = b /\ pidx 0 n = i) then (if is_valid e then Some e else None) else leaf T root n.
Proof.
  unfold leaf. rewrite leaf_node by (simpl; lia). destruct (decide (pidx 2 n = a /\ pidx 1 n = b /\ pidx 0 n = i)) as [(H2 & H1 & H0)|Hne].
  - rewrite H2, H1, H0, Ht. simpl. rewrite leaf_ent, decide_True by done. done.
  - destruct (node T root [pidx 2 n; pidx 1 n]) as [u|] eqn:Hu; [|done]. simpl. rewrite leaf_ent.
    rewrite decide_False; [done|]. intros [-> H0]. apply Hne.
    pose proof (to_inj _ _ Hok [pidx 2 n; pidx 1 n] [a; b] t ltac:(simpl; lia) ltac:(simpl; lia) Hu Ht) as [= H2 H1]. done.
Qed.
End leaf.

(** ** A new table *)

Lemma zero_table_invalid j (g : Z -> Z) : (replicate 512%nat 0 !! j ≫= fun e => if is_valid e then Some (g e) else None) = None.
Proof. apply bind_None. destruct (replicate _ _ !! j) as [x|] eqn:Hx; [|by left]. apply lookup_replicate in Hx as [-> _]. right. by exists 0. Qed.

Section grow.
Context (T : gmap Z (list Z)) (root : Z) (Hok : tree_ok T root) (p : list nat) (i : nat) (t t' : Z).
Hypothesis Hp : (length p <= 1)%nat.
Hypothesis Ht : node T root p = Some t.
Hypothesis Hi : (i < 512)%nat.
Hypothesis Hinv : sub T t i = None.
Hypothesis Hnew : T !! t' = None.
Hypothesis Haddr : addr_ok t' = true /\ 0 <= t' < 2 ^ 64.

Definition grown : gmap Z (list Z) := set_ent (<[t' := replicate 512%nat 0]> T) t i (make_pde t').

Lemma grow_ent u j : ent grown u j =
  if decide (u = t /\ j = i) then Some (make_pde t') else if decide (u = t') then replicate 512%nat 0 !! j else ent T u j.
Proof.
  destruct (to_node _ _ Hok p t ltac:(lia) Ht) as [l Hl]. assert (Hne : t' <> t) by congruence.
  unfold grown. erewrite ent_set; [|by rewrite lookup_insert_ne|by rewrite (to_len _ _ Hok t l Hl)].
  destruct (decide (u = t /\ j = i)); [done|]. unfold ent. destruct (decide (u = t')) as [->|]; [by rewrite lookup_insert_eq|by rewrite lookup_insert_ne].
Qed.

Lemma grow_sub u j : sub grown u j = if decide (u = t /\ j = i) then Some t' else if decide (u = t') then None else sub T u j.
Proof.
  destruct Haddr as [Ha Hr]. destruct (make_pde_spec t' Ha Hr) as (Hv & _ & Hpa). unfold sub. rewrite grow_ent.
  destruct (decide (u = t /\ j = i)); [simpl; by rewrite Hv, Hpa|]. destruct (decide (u = t')); [|done].
  apply zero_table_invalid.
Qed.

Lemma node_old q u : (length q <= 2)%nat -> node T root q = Some u -> u <> t'.
Proof. intros Hq Hu ->. destruct (to_node _ _ Hok q t' Hq Hu) as [l Hl]. congruence. Qed.

Lemma grow_step q j : (length q <= 1)%nat -> q <> p ++ [i] ->
  (node T root q ≫= fun u => sub grown u j) = if decide (q ++ [j] = p ++ [i]) then Some t' else node T root (q ++ [j]).
Proof.
  intros Hq Hqp. rewrite node_snoc. destruct (node T root q) as [u|] eqn:Hu; simpl.
  - rewrite grow_sub, (decide_False (P := u = t')) by (by apply (node_old q); [lia|]).
    destruct (decide (q ++ [j] = p ++ [i])) as [He|Hne].
    + apply app_inj_tail in He as [-> ->]. rewrite decide_True; [done|]. split; [congruence|done].
    + rewrite decide_False; [done|]. intros [-> ->]. apply Hne.
      by rewrite (to_inj _ _ Hok q p t ltac:(lia) ltac:(lia) Hu Ht).
  - rewrite decide_False; [done|]. intros He. apply app_inj_tail in He as [-> _]. congruence.
Qed.

Lemma grow_node q : (length q <= 2)%nat -> node grown root q = if decide (q = p ++ [i]) then Some t' else node T root q.
Proof.
  assert (Hnil : [] <> p ++ [i]) by (by destruct p).
  assert (H1 : forall x, node grown root [x] = if decide ([x] = p ++ [i]) then Some t' else node T root [x]).
  { intros x. change [x] with ([] ++ [x]) at 1. rewrite node_snoc. apply (grow_step [] x); [simpl; lia|done]. }
  revert q. apply path_cases; [by rewrite decide_False|done|].
  intros x y. change [x; y] with ([x] ++ [y]). rewrite node_snoc, H1. destruct (decide ([x] = p ++ [i])) as [He|Hne].
  - simpl. rewrite grow_sub. destruct (to_node _ _ Hok p t ltac:(lia) Ht) as [l Hl].
    rewrite (decide_False (P := t' = t /\ y = i)) by (intros [? _]; congruence). rewrite (decide_True (P := t' = t')) by done.
    rewrite decide_False.
    + change [x; y] with ([x] ++ [y]). rewrite node_snoc, He, node_snoc, Ht. simpl. by rewrite Hinv.
    + destruct p as [|z [|w p']]; simpl in *; [done|discriminate He|lia].
  - by apply grow_step.
Qed.

Lemma grow_inj q r u : (length q <= 2)%nat -> (length r <= 2)%nat -> node grown root q = Some u -> node grown root r = Some u -> q = r.
Proof.
  intros Hq Hr. rewrite !grow_node by done. destruct (decide (q = p ++ [i])) as [->|], (decide (r = p ++ [i])) as [->|]; try done.
  - intros [= <-] Hu. by apply node_old in Hu.
  - intros Hu [= <-]. by apply node_old in Hu.
  - by apply Hok.
Qed.

Lemma grow_tree : tree_ok grown root.
Proof.
  split.
  - apply set_ent_len. intros u l. rewrite lookup_insert_Some. intros [[_ <-]|[_ Hl]]; [by rewrite length_replicate|by eapply Hok].
  - intros q u Hq. rewrite grow_node by done. unfold grown. rewrite set_ent_dom, lookup_insert_is_Some.
    destruct (decide (q = p ++ [i])); [intros [= <-]; by left|]. intros Hu. destruct (decide (t' = u)); [by left|right; split; [done|]].
    by apply (to_node _ _ Hok q).
  - intros q r u. apply grow_inj.
  - intros q u j x Hq. rewrite grow_node, grow_ent by lia. destruct (decide (u = t /\ j = i)).
    { intros _ [= <-] _. by apply make_pde_spec; apply Haddr. }
    destruct (decide (u = t')); [intros _ Hx; apply lookup_replicate in Hx as [-> _]; done|].
    destruct (decide (q = p ++ [i])); [intros [= <-]; done|]. by apply Hok.
Qed.

Lemma grow_framed low : above low (p ++ [i]) -> framed low root T grown.
Proof.
  intros Hlow u l Hl Ha. assert (Hu : u <> t) by (intros ->; apply (Ha p); [lia|by eapply above_prefix|done]).
  assert (Hu' : u <> t') by congruence. split.
  - unfold grown, set_ent. by rewrite lookup_alter_ne, lookup_insert_ne.
  - intros q Hq Hab. rewrite grow_node by done. destruct (decide (q = p ++ [i])); [congruence|]. by apply Ha.
Qed.

Lemma grow_leaf n : leaf grown root n = leaf T root n.
Proof.
  unfold leaf. rewrite grow_node by (simpl; lia). destruct (decide ([pidx 2 n; pidx 1 n] = p ++ [i])) as [He|Hne].
  - cbn [mbind option_bind]. rewrite grow_ent. destruct (to_node _ _ Hok p t ltac:(lia) Ht) as [l Hl].
    rewrite decide_False by (intros [? _]; congruence). rewrite decide_True by done.
    rewrite He, node_snoc, Ht. cbn [mbind option_bind]. rewrite Hinv. apply (zero_table_invalid _ (fun e => e)).
  - destruct (node T root [pidx 2 n; pidx 1 n]) as [u|] eqn:Hu; [|done]. simpl. rewrite grow_ent.
    rewrite (decide_False (P := u = t')) by (by apply (node_old [pidx 2 n; pidx 1 n]); [simpl; lia|]).
    rewrite decide_False; [done|]. intros [-> _].
    pose proof (to_inj _ _ Hok p [pidx 2 n; pidx 1 n] t ltac:(lia) ltac:(simpl; lia) Ht Hu) as ->. simpl in Hp. lia.
Qed.

Lemma grow_dom u : is_Some (grown !! u) <-> u = t' \/ is_Some (T !! u).
Proof using Type.
  unfold grown. rewrite set_ent_dom, lookup_insert_is_Some. split; [intros [<-|[_ Hu]]; [by left|by right]|].
  intros [->|Hu]; [by left|]. destruct (decide (t' = u)); [by left|by right].
Qed.
End grow.
