(* ===== verification/PtOps.v ===== *)
(** * Operations on single pages

    [PageAllocLaws] is what the page tables rely on from the allocator; the
    operations are specified against it.  [leaf] is the abstraction: a page
    table is a partial map from page numbers to entries. *)

From S2P Require Import Prelude Vfs Buddy PageTable PtTree.

#[local] Open Scope Z_scope.
#[local] Open Scope rw_scope.

(** ** The allocator *)

(** [pa_ok a V]: the allocator can hand out the pages of [V].  An allocation
    takes one of them and fails only when there is none; a page that was
    handed out can be given back. *)
Class PageAllocLaws (A : Type) `{PageAlloc A} : Type := {
  pa_page : Z -> Prop;
  pa_ok : A -> (Z -> Prop) -> Prop;
  pa_page_addr p : pa_page p -> addr_ok p = true /\ 0 <= p < 2 ^ 64;
  pa_ok_iff a V V' : pa_ok a V -> (forall p, V p <-> V' p) -> pa_ok a V';
  pa_alloc_spec a V : pa_ok a V ->
    wp pa_alloc (fun o a' =>
      match o with
      | Some p => V p /\ pa_page p /\ pa_ok a' (fun q => V q /\ q <> p)
      | None => (forall p, ~ V p) /\ pa_ok a' V
      end) (fun (_ : Empty_set) _ => False) a;
  pa_free_spec a V p : pa_ok a V -> pa_page p -> ~ V p ->
    wp (pa_free p) (fun _ a' => pa_ok a' (fun q => V q \/ q = p)) (fun (_ : Empty_set) _ => False) a
}.

(** The first entry of a root that an operation may follow. *)
Class Low : Type := low : nat.

Section ops.
Context {A : Type} `{PageAllocLaws A} {lowest : Low}.

(** ** Stepping through the code *)

Section steps.
Context {E : Type}.
Implicit Types (R : E -> PtState A -> Prop) (s : PtState A).

Lemma wp_on_pool {B} (m : M A Empty_set B) (Q : B -> PtState A -> Prop) R s :
  wp m (fun b a => Q b (mkPt (tables s) a)) (fun (_ : Empty_set) _ => False) (pool s) -> wp (on_pool m) Q R s.
Proof. unfold wp, on_pool. destruct (m (pool s)) as [[b|e|] a]; try done. Qed.

Lemma wp_read_entry l e (Q : Z -> PtState A -> Prop) R s : ent (tables s) l.1 l.2 = Some e -> Q e s -> wp (read_entry l) Q R s.
Proof. intros He HQ. unfold read_entry, bind, get, wp, unwrap. unfold ent in He. by rewrite He. Qed.

Lemma wp_write_entry l e (Q : unit -> PtState A -> Prop) R s : Q tt (mkPt (set_ent (tables s) l.1 l.2 e) (pool s)) -> wp (write_entry l e) Q R s.
Proof. done. Qed.

Lemma wp_as_table e (Q : Z -> PtState A -> Prop) R s : is_page_table e = true -> Q (physical_addr e) s -> wp (as_table e) Q R s.
Proof. intros He HQ. unfold as_table. apply wp_bind, wp_assert; [done|]. by apply wp_ret. Qed.
End steps.

(** ** The invariant *)

Record pt_ok (s : PtState A) (root : Z) (V : Z -> Prop) : Prop := {
  po_tree : tree_ok (tables s) root;
  po_pool : pa_ok (pool s) V;
  po_own t : is_Some (tables s !! t) -> pa_page t /\ ~ V t
}.

Definition same_leaves (root : Z) (s s' : PtState A) : Prop := forall n, leaf (tables s') root n = leaf (tables s) root n.

(** No page is lost: what is not available any more is a table. *)
Definition same_pages (s : PtState A) (V : Z -> Prop) (s' : PtState A) (V' : Z -> Prop) : Prop :=
  forall q, V' q \/ is_Some (tables s' !! q) <-> V q \/ is_Some (tables s !! q).

(** The tables of the tree stay where they are, the tables apart from it are
    not touched, and new tables are in the tree. *)
Record kept (root : Z) (s s' : PtState A) : Prop := {
  kp_node p t : (length p <= 2)%nat -> node (tables s) root p = Some t -> node (tables s') root p = Some t;
  kp_framed : framed low root (tables s) (tables s');
  kp_new t : is_Some (tables s' !! t) -> is_Some (tables s !! t) \/ exists p, (length p <= 2)%nat /\ above low p /\ node (tables s') root p = Some t;
  kp_low p : (length p <= 2)%nat -> ~ above low p -> node (tables s') root p = node (tables s) root p
}.

Lemma kept_refl root s : kept root s s.
Proof. split; [done|apply framed_refl|by left|done]. Qed.

Lemma kept_same root s s' : tables s' = tables s -> kept root s s'.
Proof. intros Ht. split; rewrite Ht; [done|apply framed_refl|by left|done]. Qed.

Lemma kept_trans root s s1 s2 : kept root s s1 -> kept root s1 s2 -> kept root s s2.
Proof.
  intros [N1 F1 E1 L1] [N2 F2 E2 L2]. split; [auto|by eapply framed_trans| |intros p Hp Ha; by rewrite L2, L1]. intros t Ht. destruct (E2 t Ht) as [Ht1|?]; [|by right].
  destruct (E1 t Ht1) as [?|(p & Hp & Ha & Hn)]; [by left|right]. exists p. auto.
Qed.

(** The tables grew, and nothing else changed. *)
Record grew (root : Z) (s : PtState A) (V : Z -> Prop) (s' : PtState A) (V' : Z -> Prop) : Prop := {
  gw_ok : pt_ok s' root V';
  gw_leaves : same_leaves root s s';
  gw_pages : same_pages s V s' V';
  gw_less q : V' q -> V q;
  gw_kept : kept root s s'
}.

Lemma grew_refl root s V : pt_ok s root V -> grew root s V s V.
Proof. intros Hok. split; [done|done|done|done|apply kept_refl]. Qed.

Lemma grew_trans root s V s1 V1 s2 V2 : grew root s V s1 V1 -> grew root s1 V1 s2 V2 -> grew root s V s2 V2.
Proof.
  intros [_ L1 P1 S1 N1] [O2 L2 P2 S2 N2]. split; [done| | |auto|by eapply kept_trans].
  - intros n. by rewrite L2.
  - intros q. by rewrite (P2 q).
Qed.

Lemma try_alloc_spec {E} (R : E -> PtState A -> Prop) s root V : pt_ok s root V ->
  wp try_alloc (fun o s1 =>
    match o with
    | Some raw => V raw /\ pa_page raw /\ tables s !! raw = None /\ tables s1 = <[raw := replicate 512%nat 0]> (tables s) /\
        pa_ok (pool s1) (fun q => V q /\ q <> raw)
    | None => (forall p, ~ V p) /\ tables s1 = tables s /\ pa_ok (pool s1) V
    end) R s.
Proof.
  intros [Ht Hp Ho]. unfold try_alloc, alloc_zeroed_page. apply wp_bind, wp_on_pool. eapply wp_mono; [by apply pa_alloc_spec| |done].
  intros [p|] a.
  - intros (HV & Hpg & Hp'). apply wp_bind. unfold wp at 1, modify. apply wp_ret. simpl. repeat (split; [done|]). split; [|done].
    destruct (tables s !! p) as [l|] eqn:Hl; [|done]. destruct (Ho p) as [_ Hn]; [by eexists|]. done.
  - intros [Hn Hp']. apply wp_ret. done.
Qed.

Lemma grew_table root s V p i t raw a : pt_ok s root V -> (length p <= 1)%nat -> node (tables s) root p = Some t -> (i < 512)%nat ->
  above low (p ++ [i]) -> sub (tables s) t i = None -> V raw -> pa_page raw -> tables s !! raw = None -> pa_ok a (fun q => V q /\ q <> raw) ->
  let s' := mkPt (grown (tables s) i t raw) a in
  grew root s V s' (fun q => V q /\ q <> raw) /\ node (tables s') root (p ++ [i]) = Some raw.
Proof.
  intros [Ht Hp Ho] Hlen Hn Hi Hab Hsub HV Hpg Hnone Ha s'. pose proof (pa_page_addr raw Hpg) as Haddr.
  pose proof (grow_node _ _ Ht p i t raw Hlen Hn Hi Hsub Hnone Haddr) as Hnode.
  split; [split|].
  - split; [by eapply grow_tree|done|]. intros u Hu. apply grow_dom in Hu as [->|Hu]; [split; [done|tauto]|].
    destruct (Ho u Hu) as [? ?]. split; [done|tauto].
  - intros n. by eapply grow_leaf.
  - intros q. simpl. rewrite grow_dom. destruct (decide (q = raw)) as [->|]; [tauto|]. tauto.
  - tauto.
  - split; [|by eapply grow_framed| |].
    + intros q u Hq Hu. simpl. rewrite Hnode by done. rewrite decide_False; [done|]. intros ->. rewrite node_snoc, Hn in Hu. simpl in Hu. congruence.
    + intros u Hu. apply grow_dom in Hu as [->|Hu]; [right|by left]. assert (Hl2 : (length (p ++ [i]) <= 2)%nat) by (rewrite length_app; simpl; lia).
      exists (p ++ [i]). split; [done|]. split; [done|]. simpl. rewrite Hnode by done. by rewrite decide_True.
    + intros q Hq Hna. simpl. rewrite Hnode by done. rewrite decide_False; [done|]. by intros ->.
  - simpl. rewrite Hnode by (rewrite length_app; simpl; lia). by rewrite decide_True.
Qed.

(** The entry that a walk meets: it points to the next table, or is empty. *)
Lemma pde_cases T root p i t : tree_ok T root -> (length p <= 1)%nat -> node T root p = Some t -> (i < 512)%nat ->
  exists pde, ent T t i = Some pde /\
    if is_valid pde then is_page_table pde = true /\ node T root (p ++ [i]) = Some (physical_addr pde) else sub T t i = None.
Proof.
  intros Hok Hlen Hn Hi. destruct (tree_ent _ _ p t i Hok ltac:(lia) Hn Hi) as [pde Hpde]. exists pde. split; [done|].
  destruct (is_valid pde) eqn:Hv; [|unfold sub; rewrite Hpde; simpl; by rewrite Hv].
  split; [by apply (to_pde _ _ Hok p t i)|]. rewrite node_snoc, Hn. simpl. unfold sub. rewrite Hpde. simpl. by rewrite Hv.
Qed.

(** A table is allocated for an empty entry. *)
Lemma link_table_spec {E} (R : E -> PtState A -> Prop) s root V p i t : pt_ok s root V -> (length p <= 1)%nat -> node (tables s) root p = Some t ->
  (i < 512)%nat -> above low (p ++ [i]) -> sub (tables s) t i = None ->
  wp try_alloc (fun o s1 =>
    match o with
    | Some raw => let s2 := mkPt (set_ent (tables s1) t i (make_pde raw)) (pool s1) in
        exists V', grew root s V s2 V' /\ node (tables s2) root (p ++ [i]) = Some raw /\ ent (tables s2) t i = Some (make_pde raw) /\
          is_page_table (make_pde raw) = true /\ physical_addr (make_pde raw) = raw
    | None => grew root s V s1 V /\ forall q, ~ V q
    end) R s.
Proof.
  intros Hok Hlen Hn Hi Hab Hsub. eapply wp_mono; [by apply (try_alloc_spec (fun _ _ => False) s root V)| |done]. intros [raw|] s1.
  - intros (HV & Hpg & Hnone & Htab & Ha) s2. exists (fun q => V q /\ q <> raw).
    destruct (grew_table root s V p i t raw (pool s1) Hok Hlen Hn Hi Hab Hsub HV Hpg Hnone Ha) as [Hg Hnode].
    destruct (pa_page_addr raw Hpg) as [Hao Hr]. destruct (make_pde_spec raw Hao Hr) as (_ & Hpt & Hpa).
    unfold s2. rewrite Htab. split; [exact Hg|]. split; [exact Hnode|]. split; [|done]. simpl.
    rewrite (grow_ent _ _ (po_tree _ _ _ Hok) p i t raw) by done. by rewrite decide_True.
  - intros (Hnone & Htab & Ha). split; [|done]. destruct Hok as [Ht Hp Ho].
    split; [by split; rewrite ?Htab| | |done|by apply kept_same]; [intros n|intros q]; by rewrite Htab.
Qed.

(** ** Walking to a page *)

Lemma walk_levels_spec levels s root V p t va : pt_ok s root V -> node (tables s) root p = Some t -> (length p + length levels <= 2)%nat ->
  above low (p ++ ((fun level => pidx level (va / 4096)) <$> levels)) ->
  wp (walk_levels levels t va) (fun o s' => exists V', grew root s V s' V' /\
    match o with
    | Some t' => node (tables s') root (p ++ ((fun level => pidx level (va / 4096)) <$> levels)) = Some t'
    | None => forall q, ~ V' q
    end) (fun _ _ => False) s.
Proof.
  revert s V p t. induction levels as [|level levels IH]; intros s V p t Hok Hn Hlen Hab; cbn [walk_levels].
  { apply wp_ret. exists V. split; [by apply grew_refl|]. by rewrite app_nil_r. }
  simpl in Hlen. rewrite fmap_cons in Hab. rewrite index_page. set (i := pidx level (va / 4096)). assert (Hi : (i < 512)%nat) by apply pidx_lt.
  assert (Hgo : forall s1 V1 t1, grew root s V s1 V1 -> node (tables s1) root (p ++ [i]) = Some t1 ->
    wp (walk_levels levels t1 va) (fun o s' => exists V', grew root s V s' V' /\
      match o with Some t' => node (tables s') root (p ++ ((fun level => pidx level (va / 4096)) <$> level :: levels)) = Some t' | None => forall q, ~ V' q end)
      (fun _ _ => False) s1).
  { intros s1 V1 t1 Hg Hn1. eapply wp_mono; [apply (IH s1 V1 (p ++ [i]) t1 (gw_ok _ _ _ _ _ Hg) Hn1); [rewrite length_app; simpl; lia|by rewrite <- app_assoc]| |done].
    intros o s' (V' & Hg' & Ho). exists V'. split; [by eapply grew_trans|]. destruct o; [|done]. by rewrite <- app_assoc in Ho. }
  destruct (pde_cases _ _ p i t (po_tree _ _ _ Hok) ltac:(lia) Hn Hi) as (pde & Hpde & Hcase).
  apply wp_bind. eapply wp_read_entry; [exact Hpde|]. destruct (is_valid pde).
  - destruct Hcase as [Hpt Hn1]. apply wp_bind, wp_as_table; [done|]. apply (Hgo s V); [by apply grew_refl|done].
  - apply wp_bind. eapply wp_mono; [apply (link_table_spec (fun _ _ => False) s root V p i t); [done|lia|done|done|by destruct p|done]| |done]. intros [raw|] s1.
    + intros (V' & Hg & Hn1 & _). apply wp_bind, wp_write_entry. by apply (Hgo _ V').
    + intros [Hg Hno]. apply wp_ret. by exists V.
Qed.

Lemma table_walk_spec s root V va : pt_ok s root V -> (low <= pidx 2 (va / 4096))%nat ->
  wp (walk root va) (fun o s' => exists V', grew root s V s' V' /\
    match o with
    | Some l => l.2 = pidx 0 (va / 4096) /\ node (tables s') root [pidx 2 (va / 4096); pidx 1 (va / 4096)] = Some l.1
    | None => forall q, ~ V' q
    end) (fun _ _ => False) s.
Proof.
  intros Hok Hlow. unfold walk. apply wp_bind. eapply wp_mono; [by apply (walk_levels_spec [2%nat; 1%nat] s root V [] root va)| |done].
  intros o s' (V' & Hg & Ho). apply wp_ret. exists V'. split; [done|]. destruct o; [|done]. simpl. by rewrite index_page.
Qed.

(** ** Reading *)

Lemma get_entry_spec {E} (R : E -> PtState A -> Prop) s root va : tree_ok (tables s) root -> 0 <= va < 2 ^ 39 ->
  wp (get_entry root va) (fun o s' => s' = s /\
    match leaf (tables s) root (va / 4096) with
    | Some e => exists t, o = Some (t, pidx 0 (va / 4096)) /\ node (tables s) root [pidx 2 (va / 4096); pidx 1 (va / 4096)] = Some t /\
        ent (tables s) t (pidx 0 (va / 4096)) = Some e
    | None => o = None
    end) R s.
Proof.
  intros Hok Hva. unfold get_entry. apply wp_bind, wp_assert; [by apply canonical_range|]. unfold leaf. cbn [get_entry_levels].
  rewrite !index_page. set (n := va / 4096).
  destruct (pde_cases _ _ [] (pidx 2 n) root Hok ltac:(simpl; lia) eq_refl (pidx_lt _ _)) as (e2 & He2 & H2).
  apply wp_bind. eapply wp_read_entry; [exact He2|]. change [pidx 2 n; pidx 1 n] with (([] ++ [pidx 2 n]) ++ [pidx 1 n]). rewrite (node_snoc _ _ ([] ++ _)).
  destruct (is_valid e2); cbn [negb]; [|apply wp_ret; split; [done|]; rewrite node_snoc; simpl; by rewrite H2].
  destruct H2 as [Hpt2 Hn2]. rewrite Hn2. apply wp_bind, wp_as_table; [done|].
  destruct (pde_cases _ _ ([] ++ [pidx 2 n]) (pidx 1 n) _ Hok ltac:(simpl; lia) Hn2 (pidx_lt _ _)) as (e1 & He1 & H1).
  apply wp_bind. eapply wp_read_entry; [exact He1|]. cbn [mbind option_bind].
  destruct (is_valid e1) eqn:Hv1; cbn [negb]; [|apply wp_ret; split; [done|]; by rewrite H1].
  destruct H1 as [Hpt1 Hn1]. apply wp_bind, wp_as_table; [done|].
  assert (Hs1 : sub (tables s) (physical_addr e2) (pidx 1 n) = Some (physical_addr e1)) by (unfold sub; rewrite He1; simpl; by rewrite Hv1).
  rewrite Hs1. cbn [mbind option_bind].
  destruct (tree_ent _ _ (([] ++ [pidx 2 n]) ++ [pidx 1 n]) _ (pidx 0 n) Hok ltac:(simpl; lia) Hn1 (pidx_lt _ _)) as [e0 He0].
  apply wp_bind. eapply wp_read_entry; [exact He0|]. apply wp_ret. split; [done|]. rewrite He0. cbn [mbind option_bind].
  destruct (is_valid e0); [|done]. by exists (physical_addr e1).
Qed.

(** ** Writing *)

(** The entry of page [n] became [o], and nothing else changed. *)
Record updated (root : Z) (s : PtState A) (V : Z -> Prop) (s' : PtState A) (V' : Z -> Prop) (n : Z) (o : option Z) : Prop := {
  ud_ok : pt_ok s' root V';
  ud_leaf : leaf (tables s') root n = o;
  ud_other m : 0 <= m < 2 ^ 27 -> m <> n -> leaf (tables s') root m = leaf (tables s) root m;
  ud_pages : same_pages s V s' V';
  ud_less q : V' q -> V q;
  ud_kept : kept root s s'
}.

Lemma write_leaf root s V s1 V1 n t e : grew root s V s1 V1 -> 0 <= n < 2 ^ 27 -> (low <= pidx 2 n)%nat ->
  node (tables s1) root [pidx 2 n; pidx 1 n] = Some t ->
  updated root s V (mkPt (set_ent (tables s1) t (pidx 0 n) e) (pool s1)) V1 n (if is_valid e then Some e else None).
Proof.
  intros [[Ht Hp Ho] Hl Hpg Hless Hk] Hn Hlow Hnode.
  pose proof (leaf_leaf _ _ Ht (pidx 2 n) (pidx 1 n) (pidx 0 n) t e Hnode (pidx_lt _ _)) as Hleaf. split.
  - split; [by eapply leaf_tree, pidx_lt|done|]. intros u. cbn [tables]. rewrite set_ent_dom. apply Ho.
  - cbn [tables]. by rewrite Hleaf, decide_True.
  - intros m Hm Hne. cbn [tables]. rewrite Hleaf, decide_False; [apply Hl|]. intros (? & ? & ?). by apply Hne, pidx_inj.
  - intros q. cbn [tables]. rewrite set_ent_dom. apply Hpg.
  - done.
  - eapply kept_trans; [exact Hk|]. split; cbn [tables].
    + intros p u Hlen Hu. rewrite (leaf_node _ _ Ht _ _ (pidx 0 n) t e Hnode); [done|apply pidx_lt|done].
    + eapply leaf_framed; [done|exact Hnode|apply pidx_lt|done].
    + intros u Hu. left. by eapply set_ent_dom.
    + intros p Hlen _. by rewrite (leaf_node _ _ Ht _ _ (pidx 0 n) t e Hnode); [|apply pidx_lt|].
Qed.

Lemma grew_ent root s V s1 V1 n t : grew root s V s1 V1 -> node (tables s1) root [pidx 2 n; pidx 1 n] = Some t ->
  exists e, ent (tables s1) t (pidx 0 n) = Some e.
Proof.
  intros Hg Hn. apply (tree_ent _ root [pidx 2 n; pidx 1 n] t); [apply Hg|simpl; lia|done|apply pidx_lt].
Qed.

Lemma ent_set_self T t i e e0 : ent T t i = Some e0 -> ent (set_ent T t i e) t i = Some e.
Proof.
  unfold ent, set_ent. rewrite lookup_alter_eq. destruct (T !! t) as [l|]; [|done]. simpl. intros Hl.
  apply list_lookup_insert_eq. by eapply lookup_lt_Some.
Qed.

Lemma set_ent_twice T t i e e' : set_ent (set_ent T t i e) t i e' = set_ent T t i e'.
Proof.
  unfold set_ent. apply map_eq. intros u. destruct (decide (u = t)) as [->|]; [|by rewrite !lookup_alter_ne].
  rewrite !lookup_alter_eq. destruct (T !! t) as [l|]; [|done]. simpl. by rewrite list_insert_insert_eq.
Qed.

(** The two writes that map a page. *)
Lemma set_mapping_spec {E B} (r : B) (R : E -> PtState A -> Prop) root s V s1 V1 n t pa f e0 : grew root s V s1 V1 -> 0 <= n < 2 ^ 27 -> (low <= pidx 2 n)%nat ->
  node (tables s1) root [pidx 2 n; pidx 1 n] = Some t -> ent (tables s1) t (pidx 0 n) = Some e0 ->
  addr_ok pa = true -> is_valid (f (with_physical_addr pa e0)) = true ->
  wp (set_physical_addr (t, pidx 0 n) pa;; update_entry (t, pidx 0 n) f;; ret r)
    (fun r' s' => r' = r /\ updated root s V s' V1 n (Some (f (with_physical_addr pa e0)))) R s1.
Proof.
  intros Hg Hn Hlow Hnode He0 Hpa Hv. unfold set_physical_addr, update_entry. apply wp_bind, wp_bind, wp_assert; [done|].
  apply wp_bind. eapply wp_read_entry; [exact He0|]. apply wp_write_entry. apply wp_bind, wp_bind.
  eapply wp_read_entry; [cbn [tables fst snd]; by eapply ent_set_self|]. apply wp_write_entry, wp_ret. split; [done|].
  cbn [tables pool fst snd]. rewrite set_ent_twice.
  pose proof (write_leaf root s V s1 V1 n t (f (with_physical_addr pa e0)) Hg Hn Hlow Hnode) as Hu. by rewrite Hv in Hu.
Qed.

Lemma map_spec s root V va pa perm : pt_ok s root V -> 0 <= va < 2 ^ 39 -> (low <= pidx 2 (va / 4096))%nat -> addr_ok pa = true -> 0 <= pa < 2 ^ 64 -> 0 <= perm < 32 ->
  wp (map root va pa perm) (fun _ s' => exists V' e, updated root s V s' V' (va / 4096) (Some e) /\ maps e pa perm)
    (fun err s' => err = Vfs.Sys.OutOfMemory /\ exists V', grew root s V s' V' /\ forall q, ~ V' q) s.
Proof.
  intros Hok Hva Hlow Hpa Hpr Hperm. unfold map. apply wp_bind, wp_assert; [by apply canonical_range|].
  apply wp_bind. eapply wp_mono; [by apply table_walk_spec| |done]. intros [[t i]|] s1 (V1 & Hg & Ho); simpl in Ho.
  2:{ apply wp_fail. split; [done|]. by exists V1. }
  destruct Ho as [-> Hn]. assert (Hr : 0 <= va / 4096 < 2 ^ 27) by lia. destruct (grew_ent _ _ _ _ _ _ _ Hg Hn) as [e0 He0].
  pose proof (map_entry_maps pa e0 perm Hpa Hpr Hperm) as Hm.
  eapply wp_mono; [apply (set_mapping_spec (t, pidx 0 (va / 4096)) (fun _ _ => False) root s V s1 V1 (va / 4096) t pa _ e0 Hg Hr Hlow Hn He0 Hpa), Hm| |done].
  intros r s' [-> Hu]. exists V1. by eexists.
Qed.

Lemma try_map_spec s root V va pa perm : pt_ok s root V -> 0 <= va < 2 ^ 39 -> (low <= pidx 2 (va / 4096))%nat -> addr_ok pa = true -> 0 <= pa < 2 ^ 64 -> 0 <= perm < 32 ->
  wp (try_map root va pa perm) (fun o s' => exists V',
      match o with
      | Some _ => leaf (tables s) root (va / 4096) = None /\ exists e, updated root s V s' V' (va / 4096) (Some e) /\ maps e pa perm
      | None => is_Some (leaf (tables s) root (va / 4096)) /\ grew root s V s' V'
      end)
    (fun err s' => err = Vfs.Sys.OutOfMemory /\ exists V', grew root s V s' V' /\ forall q, ~ V' q) s.
Proof.
  intros Hok Hva Hlow Hpa Hpr Hperm. unfold try_map. apply wp_bind, wp_assert; [by apply canonical_range|].
  apply wp_bind. eapply wp_mono; [by apply table_walk_spec| |done]. intros [[t i]|] s1 (V1 & Hg & Ho); simpl in Ho.
  2:{ apply wp_fail. split; [done|]. by exists V1. }
  destruct Ho as [-> Hn]. assert (Hr : 0 <= va / 4096 < 2 ^ 27) by lia. destruct (grew_ent _ _ _ _ _ _ _ Hg Hn) as [e0 He0].
  assert (Hleaf : leaf (tables s) root (va / 4096) = if is_valid e0 then Some e0 else None).
  { rewrite <- (gw_leaves _ _ _ _ _ Hg). unfold leaf. rewrite Hn. cbn [mbind option_bind]. by rewrite He0. }
  apply wp_bind. eapply wp_read_entry; [exact He0|]. destruct (is_valid e0).
  { apply wp_ret. exists V1. split; [by rewrite Hleaf|done]. }
  pose proof (map_entry_maps pa e0 perm Hpa Hpr Hperm) as Hm.
  eapply wp_mono; [apply (set_mapping_spec (Some (t, pidx 0 (va / 4096))) (fun _ _ => False) root s V s1 V1 (va / 4096) t pa _ e0 Hg Hr Hlow Hn He0 Hpa), Hm| |done].
  intros r s' [-> Hu]. exists V1. split; [done|]. by eexists.
Qed.

Lemma unmap_spec {E} (R : E -> PtState A -> Prop) s root V va : pt_ok s root V -> 0 <= va < 2 ^ 39 -> (low <= pidx 2 (va / 4096))%nat ->
  wp (unmap root va) (fun o s' => o = physical_addr <$> leaf (tables s) root (va / 4096) /\
    match leaf (tables s) root (va / 4096) with
    | Some _ => updated root s V s' V (va / 4096) None
    | None => s' = s
    end) R s.
Proof.
  intros Hok Hva Hlow. unfold unmap. apply wp_bind, wp_assert; [by apply canonical_range|]. apply wp_bind.
  eapply wp_mono; [apply (get_entry_spec (fun _ _ => False)); [apply Hok|done]| |done]. intros o s' [-> Ho].
  destruct (leaf (tables s) root (va / 4096)) as [e|]; [|subst o; by apply wp_ret].
  destruct Ho as (t & -> & Hn & He). apply wp_bind. eapply wp_read_entry; [exact He|]. apply wp_bind, wp_write_entry, wp_ret.
  split; [done|]. apply (write_leaf root s V s V (va / 4096) t 0); [by apply grew_refl|lia|done|done].
Qed.
End ops.
