(* ===== verification/PtRange.v ===== *)
(** * Operations on ranges of pages

    The recursive walk visits the pages of a range in order, creating the
    tables on the way; the iterator visits its valid entries.  Both compute
    the end of a range from its last address rounded up, which is right
    unless the range ends together with a table of the lowest level. *)

From S2P Require Import Prelude Vfs Buddy PageTable PtTree PtOps.

#[local] Open Scope Z_scope.
#[local] Open Scope rw_scope.

(** ** Subtrees *)

(** A table of a level spans [span level] entries of 4096 bytes each. *)
Definition span (level : nat) : Z := 512 ^ Z.of_nat (S level).

Lemma span_S level : span (S level) = 512 * span level.
Proof. unfold span. rewrite (Nat2Z.inj_succ (S level)), Z.pow_succ_r by lia. lia. Qed.

Lemma span_pos level : 0 < span level.
Proof. unfold span. apply Z.pow_pos_nonneg; lia. Qed.

Lemma span_0 : span 0 = 512.
Proof. done. Qed.

(** The tables below a table. *)
Lemma table_below level lo (j : nat) : (j < 512)%nat -> 0 <= lo -> lo + span (S level) <= 2 ^ 27 -> lo mod span (S level) = 0 ->
  let lo' := lo + Z.of_nat j * span level in
  0 <= lo' /\ lo' + span level <= 2 ^ 27 /\ lo' mod span level = 0 /\ lo < 2 ^ 27.
Proof.
  intros Hj Hlo Hhi Hm lo'. unfold lo'. clear lo'. rewrite span_S in *. pose proof (span_pos level) as Hp.
  apply Z.mod_divide in Hm as [q Hq]; [|lia]. generalize dependent (span level). intros K Hhi Hp Hq.
  assert (0 <= Z.of_nat j * K) by (apply Z.mul_nonneg_nonneg; lia).
  assert (Z.of_nat j * K <= 511 * K) by (apply Z.mul_le_mono_nonneg_r; lia).
  split; [lia|]. split; [lia|]. split; [|lia]. apply Z.mod_divide; [lia|]. exists (q * 512 + Z.of_nat j). subst lo. ring.
Qed.

(** The path to the table of a level that spans the pages from [lo] on. *)
Definition ppath (level : nat) (lo : Z) : list nat :=
  match level with
  | 0%nat => [pidx 2 lo; pidx 1 lo]
  | 1%nat => [pidx 2 lo]
  | _ => []
  end.

Lemma ppath_step level lo (i : nat) : (level <= 1)%nat -> 0 <= lo -> lo mod span (S level) = 0 -> lo < 2 ^ 27 -> (i < 512)%nat ->
  ppath level (lo + Z.of_nat i * span level) = ppath (S level) lo ++ [i].
Proof.
  intros Hl Hlo Hm Hlt Hi. unfold ppath, pidx. destruct level as [|[|level]]; [| |lia].
  - change (span 1) with 262144 in Hm. change (span 0) with 512. change (512 ^ Z.of_nat 2) with 262144. change (512 ^ Z.of_nat 1) with 512.
    simpl. f_equal; [f_equal; lia|]. f_equal. lia.
  - change (span 2) with 134217728 in Hm. change (span 1) with 262144. change (512 ^ Z.of_nat 2) with 262144. simpl. f_equal. lia.
Qed.

(** The tables of a range that starts at page [sN] are not before it. *)
Lemma pidx_mono n m : 0 <= n <= m -> m < 2 ^ 27 -> (pidx 2 n <= pidx 2 m)%nat.
Proof. intros Hn Hm. unfold pidx. change (512 ^ Z.of_nat 2) with 262144. lia. Qed.

Lemma ppath_above low level sN lo : (level <= 1)%nat -> 0 <= sN < lo + span level -> 0 <= lo -> lo + span level <= 2 ^ 27 -> lo mod span level = 0 ->
  (low <= pidx 2 sN)%nat -> above low (ppath level lo).
Proof.
  intros Hl Hs Hlo Hhi Hm Hlow. assert ((pidx 2 sN <= pidx 2 lo)%nat); [|by destruct level as [|[|level]]; simpl; lia].
  unfold pidx. change (512 ^ Z.of_nat 2) with 262144. destruct level as [|[|level]]; [change (span 0) with 512 in *|change (span 1) with 262144 in *|]; lia.
Qed.

Lemma ppath_page lo (i : nat) : 0 <= lo -> lo mod 512 = 0 -> (i < 512)%nat ->
  ppath 0 lo = [pidx 2 (lo + Z.of_nat i); pidx 1 (lo + Z.of_nat i)] /\ pidx 0 (lo + Z.of_nat i) = i.
Proof.
  intros Hlo Hm Hi. unfold ppath, pidx. change (512 ^ Z.of_nat 2) with 262144. change (512 ^ Z.of_nat 1) with 512. change (512 ^ Z.of_nat 0) with 1.
  split; [|lia]. f_equal; [f_equal; lia|]. f_equal. f_equal. lia.
Qed.

(** The digit of a page of a subtree. *)
Lemma pidx_in level lo n : (level <= 2)%nat -> lo mod span level = 0 -> lo <= n < lo + span level ->
  lo + Z.of_nat (pidx level n) * 512 ^ Z.of_nat level <= n < lo + (Z.of_nat (pidx level n) + 1) * 512 ^ Z.of_nat level.
Proof.
  intros Hl Hm Hn. unfold pidx, span in *. destruct level as [|[|[|level]]]; [| | |lia].
  - change (512 ^ Z.of_nat 1) with 512 in *. change (512 ^ Z.of_nat 0) with 1. lia.
  - change (512 ^ Z.of_nat 2) with 262144 in *. change (512 ^ Z.of_nat 1) with 512. lia.
  - change (512 ^ Z.of_nat 3) with 134217728 in *. change (512 ^ Z.of_nat 2) with 262144. lia.
Qed.

(** The address of an entry. *)
Lemma cur_va_page level lo (i : nat) : (i < 512)%nat -> lo mod span level = 0 ->
  Z.lor (lo * 4096) (va_for_index level i) = (lo + Z.of_nat i * 512 ^ Z.of_nat level) * 4096.
Proof.
  intros Hi Hm. pose proof (span_pos level). rewrite cur_va_add; [rewrite pow_level; lia|done|]. rewrite pow_level. fold (span level).
  apply Z.mod_divide in Hm as [q ->]; [|lia]. apply Z.mod_divide; [lia|]. exists q. lia.
Qed.

(** ** Bounds of a range *)

Section bounds.
Context (sN eN : Z).
Hypothesis Hrange : 0 <= sN < eN /\ eN <= 2 ^ 27.
Hypothesis Hend : eN mod 512 <> 0.

Definition is_first_of (lo : Z) : bool := lo <=? sN.
Definition is_last_of (level : nat) (lo : Z) : bool := eN <=? lo + span level.

(** The indices of the table from [lo] on that the range covers. *)
Lemma range_indices level lo : (level <= 2)%nat -> lo mod span level = 0 -> lo < eN -> sN < lo + span level ->
  let K := 512 ^ Z.of_nat level in
  let s := start_index level (is_first_of lo) (sN * 4096) in
  let e := end_index level (is_last_of level lo) (eN * 4096) in
  (s < e <= 512)%nat /\
  Z.max sN (Z.min (lo + Z.of_nat s * K) eN) = Z.max sN (Z.min lo eN) /\
  Z.max sN (Z.min (lo + Z.of_nat e * K) eN) = Z.max sN (Z.min (lo + span level) eN) /\
  forall i, (s <= i < e)%nat ->
    lo + Z.of_nat i * K < eN /\ sN < lo + Z.of_nat i * K + K /\
    is_first_of (lo + Z.of_nat i * K) = is_first_of lo && (i =? s)%nat /\
    (eN <=? lo + Z.of_nat i * K + K) = is_last_of level lo && (i =? e - 1)%nat.
Proof.
  intros Hl Hm Hlo Hhi K s e.
  assert (HK : 0 < K) by (apply Z.pow_pos_nonneg; lia). assert (Hspan : span level = 512 * K) by (unfold span, K; rewrite Nat2Z.inj_succ, Z.pow_succ_r; lia).
  assert (Hs : (s < 512)%nat /\ (if is_first_of lo then lo + Z.of_nat s * K <= sN < lo + (Z.of_nat s + 1) * K else s = 0%nat /\ sN < lo)).
  { unfold s, start_index, is_first_of in *. destruct (Z.leb_spec lo sN); [|split; [lia|done]]. rewrite index_page, Z.div_mul by lia.
    split; [apply pidx_lt|]. apply pidx_in; [done|done|lia]. }
  assert (He : (e <= 512)%nat /\ (1 <= e)%nat /\
    (if is_last_of level lo then lo + (Z.of_nat e - 1) * K <= eN - 1 < lo + Z.of_nat e * K else e = 512%nat /\ lo + span level < eN)).
  { unfold e, end_index, is_last_of in *. destruct (Z.leb_spec eN (lo + span level)); [|split; [lia|split; [lia|done]]].
    rewrite upper_bound_page by (done || lia). pose proof (pidx_lt level (eN - 1)). pose proof (pidx_in level lo (eN - 1) Hl Hm ltac:(lia)) as Hp. fold K in Hp.
    split; [lia|]. split; [lia|]. replace (Z.of_nat (S (pidx level (eN - 1)))) with (Z.of_nat (pidx level (eN - 1)) + 1) by lia.
    replace (Z.of_nat (pidx level (eN - 1)) + 1 - 1) with (Z.of_nat (pidx level (eN - 1))) by lia. exact Hp. }
  destruct Hs as [Hs5 Hs], He as (He5 & He1 & He).
  assert (Hse : (s < e)%nat).
  { destruct (is_first_of lo) eqn:Hf, (is_last_of level lo) eqn:Hla; try (destruct Hs; lia); try (destruct He; lia). nia. }
  split; [lia|]. split; [|split].
  - destruct (is_first_of lo) eqn:Hf; [unfold is_first_of in Hf; apply Z.leb_le in Hf; lia|]. destruct Hs as [-> _]. lia.
  - destruct (is_last_of level lo) eqn:Hla; [unfold is_last_of in Hla; apply Z.leb_le in Hla; lia|]. destruct He as [-> _]. lia.
  - intros i Hi.
    assert (Hup : lo + Z.of_nat i * K < eN).
    { destruct (is_last_of level lo); [assert (Z.of_nat i <= Z.of_nat e - 1) by lia; nia|]. destruct He as [-> ?]. nia. }
    assert (Hdown : sN < lo + Z.of_nat i * K + K).
    { destruct (is_first_of lo); [assert (Z.of_nat s <= Z.of_nat i) by lia; nia|]. destruct Hs. nia. }
    split; [done|]. split; [done|]. split.
    + unfold is_first_of at 1. destruct (is_first_of lo) eqn:Hf; cbn [andb].
      * destruct (Nat.eqb_spec i s) as [->|]; [apply Z.leb_le; lia|]. apply Z.leb_gt. assert (Z.of_nat s + 1 <= Z.of_nat i) by lia. nia.
      * apply Z.leb_gt. destruct Hs. nia.
    + destruct (is_last_of level lo) eqn:Hla; cbn [andb].
      * destruct (Nat.eqb_spec i (e - 1)) as [->|]; [apply Z.leb_le; nia|]. apply Z.leb_gt. assert (Z.of_nat i + 1 <= Z.of_nat e - 1) by lia. nia.
      * apply Z.leb_gt. destruct He as [-> ?]. nia.
Qed.
End bounds.

(** ** The recursive walk *)

Section walk.
Context {A : Type} `{PageAllocLaws A} {lowest : Low}.

Lemma for_idx_spec {E} (J : nat -> PtState A -> Prop) (R : E -> PtState A -> Prop) body n : forall i s, J i s ->
  (forall j s, (i <= j < i + n)%nat -> J j s -> wp (body j) (fun _ s' => J (S j) s') R s) ->
  wp (for_idx n i body) (fun _ s' => J (i + n)%nat s') R s.
Proof.
  induction n as [|n IH]; intros i s HJ Hb; simpl.
  - apply wp_ret. by rewrite Nat.add_0_r.
  - apply wp_bind. eapply wp_mono; [apply Hb; [lia|done]| |done]. intros [] s1 HJ1. rewrite Nat.add_succ_r. apply (IH (S i)); [done|].
    intros j s2 Hj. apply Hb. lia.
Qed.

(** The visit of one page brings the invariant to the next page, and a new
    table keeps it. *)
Context (root sN eN : Z) (I : Z -> PtState A -> (Z -> Prop) -> Prop) (R : Z * Vfs.Sys.SysErrorKind -> PtState A -> Prop) (f : Z -> loc -> M (PtState A) (Z * Vfs.Sys.SysErrorKind) unit).
Hypothesis Hrange : 0 <= sN < eN /\ eN <= 2 ^ 27.
Hypothesis Hend : eN mod 512 <> 0.
Hypothesis Hlow : (low <= pidx 2 sN)%nat.
Hypothesis HI_ok : forall k s V, I k s V -> pt_ok s root V.
Hypothesis HI_grew : forall k s V s' V', I k s V -> grew root s V s' V' -> I k s' V'.
Hypothesis HI_full : forall k s V va, I k s V -> (forall q, ~ V q) -> sN * 4096 <= va <= k * 4096 -> va mod 4096 = 0 ->
  R (va, Vfs.Sys.OutOfMemory) s.
Hypothesis Hf : forall k s V t, sN <= k < eN -> I k s V -> node (tables s) root [pidx 2 k; pidx 1 k] = Some t ->
  wp (f (k * 4096) (t, pidx 0 k)) (fun _ s' => (exists V', I (k + 1) s' V') /\ kept root s s') R s.

Definition clamp (k : Z) : Z := Z.max sN (Z.min k eN).

(** What a walk from page [lo] to page [hi] does. *)
Definition walked (hi : Z) (s s' : PtState A) : Prop := (exists V', I (clamp hi) s' V') /\ kept root s s'.

(** The table below an entry, allocated if need be. *)
Lemma next_table_spec (K : Z -> M (PtState A) (Z * Vfs.Sys.SysErrorKind) unit) Q (va : Z) level lo (i : nat) s V t : (level <= 1)%nat -> 0 <= lo < 2 ^ 27 -> lo mod span (S level) = 0 -> (i < 512)%nat -> above low (ppath level (lo + Z.of_nat i * span level)) ->
  forall k, sN * 4096 <= va <= k * 4096 -> va mod 4096 = 0 -> I k s V -> node (tables s) root (ppath (S level) lo) = Some t ->
  (forall u s' V', I k s' V' -> kept root s s' -> node (tables s') root (ppath level (lo + Z.of_nat i * span level)) = Some u -> wp (K u) Q R s') ->
  wp (do pde <- read_entry (t, i);
      do u <-
        if is_valid pde then as_table pde
        else
          do o <- try_alloc;
          match o with
          | Some raw => write_entry (t, i) (make_pde raw);; do pde <- read_entry (t, i); as_table pde
          | None => fail (va, Vfs.Sys.OutOfMemory)
          end;
      K u) Q R s.
Proof.
  intros Hl Hlo Hm Hi Hab k Hva Hvm HI Hn HK. rewrite ppath_step in HK by (done || lia). rewrite ppath_step in Hab by (done || lia). pose proof (HI_ok _ _ _ HI) as Hok.
  assert (Hlen : (length (ppath (S level) lo) <= 1)%nat) by (destruct level as [|[|]]; simpl; lia).
  destruct (pde_cases _ _ _ i t (po_tree _ _ _ Hok) Hlen Hn Hi) as (pde & He & Hc).
  apply wp_bind. eapply wp_read_entry; [exact He|]. apply wp_bind. destruct (is_valid pde).
  - destruct Hc as [Hpt Hn']. apply wp_as_table; [done|]. apply (HK _ _ V); [done|apply kept_refl|done].
  - apply wp_bind. eapply wp_mono; [apply (link_table_spec (fun _ _ => False) s root V _ i t Hok Hlen Hn Hi Hab Hc)| |done].
    intros [raw|] s1; cbn beta iota.
    + intros (V' & Hg & Hn' & He' & Hpt & Hpa). apply wp_bind, wp_write_entry, wp_bind. eapply wp_read_entry; [exact He'|]. apply wp_as_table; [done|].
      rewrite Hpa. apply (HK _ _ V'); [by eapply HI_grew|exact (gw_kept _ _ _ _ _ Hg)|done].
    + intros [Hg HV]. apply wp_fail. eapply HI_full; [by eapply HI_grew|done|done|done].
Qed.

Lemma walk_range_spec level : (level <= 2)%nat -> forall lo s V t, 0 <= lo -> lo + span level <= 2 ^ 27 -> lo mod span level = 0 ->
  lo < eN -> sN < lo + span level -> I (clamp lo) s V -> node (tables s) root (ppath level lo) = Some t ->
  wp (walk_range_mut_recursive level t (lo * 4096) (sN * 4096) (eN * 4096) (is_first_of sN lo) (is_last_of eN level lo) f)
    (fun _ s' => walked (lo + span level) s s') R s.
Proof.
  induction level as [|level IH]; intros Hl lo s V t Hlo Hhi Hm Hlt Hgt HI Hn;
    destruct (range_indices sN eN Hrange Hend _ lo Hl Hm Hlt Hgt) as (Hse & Hs & He & Hi);
    cbn [walk_range_mut_recursive]; set (si := start_index _ _ _) in *; set (ei := end_index _ _ _) in *;
    (apply wp_bind, wp_assert; [apply andb_true_intro; split; apply Nat.leb_le; lia|]).
  - change (512 ^ Z.of_nat 0) with 1 in *. rewrite span_0 in *.
    eapply wp_mono; [apply (for_idx_spec (fun j s' => walked (lo + Z.of_nat j) s s') R)| |done].
    + split; [exists V|apply kept_refl]. unfold clamp. rewrite Z.mul_1_r in Hs. rewrite Hs. exact HI.
    + intros j s1 Hj [[V1 HI1] Hk1]. assert (Hj' : (si <= j < ei)%nat) by (clear -Hj Hse; lia). destruct (Hi j Hj') as (Hj1 & Hj2 & _).
      rewrite cur_va_page by (done || lia). change (512 ^ Z.of_nat 0) with 1. rewrite Z.mul_1_r in *.
      destruct (ppath_page lo j Hlo Hm ltac:(lia)) as [Hpp Hp0]. rewrite <- Hp0 at 2.
      assert (Hcl : clamp (lo + Z.of_nat j) = lo + Z.of_nat j) by (unfold clamp; lia).
      eapply wp_mono; [apply (Hf _ s1 V1); [lia|rewrite <- Hcl; exact HI1|apply (kp_node _ _ _ Hk1); [simpl; lia|rewrite <- Hpp; exact Hn]]| |done].
      intros [] s2 [[V2 HI2] Hk2]. split; [exists V2|by eapply kept_trans].
      replace (clamp (lo + Z.of_nat (S j))) with (lo + Z.of_nat j + 1) by (unfold clamp; lia). exact HI2.
    + intros [] s1 [[V1 HI1] Hk1]. split; [exists V1|done]. rewrite Z.mul_1_r in He. unfold clamp in *. rewrite <- He.
      replace (si + (ei - si))%nat with ei in HI1 by (clear -Hse; lia). exact HI1.
  - rewrite span_S in *. fold (span level) in *.
    eapply wp_mono; [apply (for_idx_spec (fun j s' => walked (lo + Z.of_nat j * span level) s s') R)| |done].
    + split; [exists V|apply kept_refl]. unfold clamp. rewrite Hs. exact HI.
    + intros j s1 Hj [[V1 HI1] Hk1]. assert (Hj' : (si <= j < ei)%nat) by (clear -Hj Hse; lia). destruct (Hi j Hj') as (Hj1 & Hj2 & Hfi & Hla).
      assert (Hj5 : (j < 512)%nat) by (clear -Hj' Hse; lia).
      destruct (table_below level lo j Hj5 Hlo ltac:(rewrite span_S; exact Hhi) ltac:(rewrite span_S; exact Hm)) as (Hc1 & Hc2 & Hc3 & Hc4).
      assert (Hl1 : (level <= 1)%nat) by (clear -Hl; lia). assert (Hl2 : (level <= 2)%nat) by (clear -Hl; lia).
      set (va := if is_first_of sN lo then sN * 4096 else Z.lor (lo * 4096) (va_for_index (S level) j)).
      assert (Hva : sN * 4096 <= va <= clamp (lo + Z.of_nat j * span level) * 4096 /\ va mod 4096 = 0).
      { unfold va. rewrite cur_va_page by (done || by rewrite span_S). fold (span level). unfold clamp, is_first_of.
        pose proof (span_pos level) as Hpos. destruct (Z.leb_spec lo sN); rewrite Z.mod_mul by lia; (split; [|done]); clear -Hj1 Hpos Hrange H1; nia. }
      destruct Hva as [Hva Hvm].
      eapply (next_table_spec _ _ _ level lo j s1 V1 t); [done|done|by rewrite span_S|done|by apply (ppath_above _ level sN); [done|split; [apply Hrange|done]|..]|exact Hva|exact Hvm|exact HI1| |].
      { apply (kp_node _ _ _ Hk1); [|done]. clear. destruct level as [|[|]]; simpl; lia. }
      intros u s2 V2 HI2 Hk2 Hn2. rewrite cur_va_page by (done || by rewrite span_S). fold (span level).
      rewrite <- Hfi. rewrite <- Hla. fold (is_last_of eN level (lo + Z.of_nat j * span level)).
      eapply wp_mono; [apply (IH Hl2 (lo + Z.of_nat j * span level) s2 V2 u); [done|done|done|done|done|exact HI2|exact Hn2]| |done].
      intros [] s3 [[V3 HI3] Hk3]. split; [exists V3|by eapply kept_trans, kept_trans].
      replace (lo + Z.of_nat (S j) * span level) with (lo + Z.of_nat j * span level + span level) by (clear; lia). exact HI3.
    + intros [] s1 [[V1 HI1] Hk1]. split; [exists V1|done]. unfold clamp in *. rewrite <- He.
      replace (si + (ei - si))%nat with ei in HI1 by (clear -Hse; lia). exact HI1.
Qed.
End walk.

(** * The entries that the iterator admits

    The iterator computes first and last indices for the tables of each
    level.  [vis] is the set of entries these bounds admit: entries of the
    range only, and all of them unless the range ends together with a table
    of the lowest level. *)

(** ** The entries within the bounds *)

Section bounds.
Context (sN eN : Z).

(** [is_first] and [is_last] of the table of a level that spans page [m]. *)
Definition down (level : nat) (fl : bool * bool) (m : Z) : bool * bool :=
  (fl.1 && (start_index level fl.1 (sN * 4096) =? pidx level m)%nat,
   fl.2 && (end_index level fl.2 (eN * 4096) - 1 =? pidx level m)%nat).

Definition flags (level : nat) (m : Z) : bool * bool :=
  match level with
  | 0%nat => down 1 (down 2 (true, true) m) m
  | 1%nat => down 2 (true, true) m
  | _ => (true, true)
  end.

Definition within (level : nat) (m : Z) : Prop :=
  (start_index level (flags level m).1 (sN * 4096) <= pidx level m < end_index level (flags level m).2 (eN * 4096))%nat.

Definition vis (level : nat) (m : Z) : Prop :=
  match level with
  | 0%nat => within 2 m /\ within 1 m /\ within 0 m
  | 1%nat => within 2 m /\ within 1 m
  | _ => within 2 m
  end.

Lemma flags_same level lo m : (level <= 2)%nat -> 0 <= lo < 2 ^ 27 -> lo mod span level = 0 -> lo <= m < lo + span level -> flags level m = flags level lo.
Proof.
  intros Hl Hlo Hm Hin. unfold flags, down, pidx, span in *. destruct level as [|[|level]]; [| |done].
  - change (512 ^ Z.of_nat 2) with 262144. change (512 ^ Z.of_nat 1) with 512 in *.
    replace (m / 262144) with (lo / 262144) by lia. by replace (m / 512) with (lo / 512) by lia.
  - change (512 ^ Z.of_nat 2) with 262144 in *. by replace (m / 262144) with (lo / 262144) by lia.
Qed.

(** The index that the code takes for the end of a range. *)
Lemma upper_bound_cases level n : (level <= 2)%nat -> 0 <= n ->
  upper_bound_index_for_va level (n * 4096) =
    Z.to_nat (n / 512 ^ Z.of_nat level mod 512 + (if n mod 512 ^ Z.of_nat level =? 0 then 0 else 1)).
Proof.
  intros Hl Hn. unfold upper_bound_index_for_va. rewrite index_page, Z.div_mul by lia. unfold pidx.
  rewrite Z.shiftl_1_l. replace (2 ^ level_shift level - 1) with (Z.ones (level_shift level)) by (rewrite Z.ones_equiv; lia).
  rewrite Z.land_ones by (unfold level_shift; lia). rewrite pow_level.
  assert (HK : 0 < 512 ^ Z.of_nat level) by (apply Z.pow_pos_nonneg; lia).
  rewrite (Z.mul_comm 4096), Z.mul_mod_distr_r by lia.
  destruct (Z.eqb_spec (n mod 512 ^ Z.of_nat level) 0) as [->|Hne]; simpl.
  - lia.
  - destruct (Z.eqb_spec (n mod 512 ^ Z.of_nat level * 4096) 0); [lia|]. simpl. pose proof (Z.mod_pos_bound (n / 512 ^ Z.of_nat level) 512). lia.
Qed.

Hypothesis Hrange : 0 <= sN <= eN /\ eN <= 2 ^ 27 /\ sN < 2 ^ 27.

(** The digits of a page number. *)
Lemma pidx_Z level m : Z.of_nat (pidx level m) = m / 512 ^ Z.of_nat level mod 512.
Proof. unfold pidx. pose proof (Z.mod_pos_bound (m / 512 ^ Z.of_nat level) 512). lia. Qed.

Lemma start_Z level b : Z.of_nat (start_index level b (sN * 4096)) = if b then sN / 512 ^ Z.of_nat level mod 512 else 0.
Proof. unfold start_index. destruct b; [|done]. by rewrite index_page, Z.div_mul, pidx_Z. Qed.

Lemma end_Z level b : (level <= 2)%nat -> Z.of_nat (end_index level b (eN * 4096)) =
  if b then eN / 512 ^ Z.of_nat level mod 512 + (if eN mod 512 ^ Z.of_nat level =? 0 then 0 else 1) else 512.
Proof.
  intros Hl. unfold end_index. destruct b; [|done]. rewrite upper_bound_cases by (done || lia).
  pose proof (Z.mod_pos_bound (eN / 512 ^ Z.of_nat level) 512). destruct (_ =? 0); lia.
Qed.

Lemma within_Z level m : (level <= 2)%nat ->
  within level m <->
    (if (flags level m).1 then sN / 512 ^ Z.of_nat level mod 512 else 0) <= m / 512 ^ Z.of_nat level mod 512 <
    (if (flags level m).2 then eN / 512 ^ Z.of_nat level mod 512 + (if eN mod 512 ^ Z.of_nat level =? 0 then 0 else 1) else 512).
Proof. intros Hl. unfold within. rewrite <- start_Z, <- end_Z, <- pidx_Z by done. lia. Qed.

Lemma down_Z level fl m : (level <= 2)%nat ->
  down level fl m =
    (fl.1 && (sN / 512 ^ Z.of_nat level mod 512 =? m / 512 ^ Z.of_nat level mod 512),
     fl.2 && (Z.max 0 (eN / 512 ^ Z.of_nat level mod 512 + (if eN mod 512 ^ Z.of_nat level =? 0 then 0 else 1) - 1)
                =? m / 512 ^ Z.of_nat level mod 512)).
Proof.
  intros Hl. pose proof (start_Z level fl.1) as Hs. pose proof (end_Z level fl.2 Hl) as He. pose proof (pidx_Z level m) as Hp.
  destruct fl as [[] []]; cbn [fst snd] in *; unfold down; cbn [fst snd andb]; f_equal;
    match goal with |- (?x =? ?y)%nat = _ => destruct (Nat.eqb_spec x y) end; symmetry; rewrite ?Z.eqb_eq, ?Z.eqb_neq; lia.
Qed.

Lemma vis2_lt m : 0 <= m < 2 ^ 27 -> m mod 262144 = 0 -> vis 2 m -> m < eN.
Proof.
  intros Hm Hal Hv. unfold vis in Hv. rewrite within_Z in Hv by lia. cbn [flags fst snd] in Hv. change (512 ^ Z.of_nat 2) with 262144 in *.
  destruct (Z.eqb_spec (eN mod 262144) 0); lia.
Qed.

Lemma vis1_lt m : 0 <= m < 2 ^ 27 -> m mod 512 = 0 -> vis 1 m -> m < eN.
Proof.
  intros Hm Hal [H2 H1]. rewrite within_Z in H1, H2 by lia. cbn [flags fst snd] in *. rewrite down_Z in H1 by lia. cbn [fst snd andb] in *.
  change (512 ^ Z.of_nat 2) with 262144 in *. change (512 ^ Z.of_nat 1) with 512 in *.
  destruct (Z.eqb_spec (eN mod 262144) 0), (Z.eqb_spec (eN mod 512) 0);
    match type of H1 with context [if ?a =? ?b then _ + _ else _] => destruct (Z.eqb_spec a b) end; lia.
Qed.

Lemma vis0_in m : 0 <= m < 2 ^ 27 -> vis 0 m -> sN <= m < eN.
Proof.
  intros Hm (H2 & H1 & H0). rewrite within_Z in H0, H1, H2 by lia. cbn [flags fst snd] in *. rewrite !down_Z in * by lia. cbn [fst snd andb] in *.
  change (512 ^ Z.of_nat 2) with 262144 in *. change (512 ^ Z.of_nat 1) with 512 in *. change (512 ^ Z.of_nat 0) with 1 in *.
  rewrite !Z.div_1_r, !Z.mod_1_r, !Z.eqb_refl in H0. revert H0 H1 H2.
  destruct (Z.eqb_spec (eN mod 262144) 0), (Z.eqb_spec (eN mod 512) 0);
    (destruct (Z.eqb_spec (sN / 262144 mod 512) (m / 262144 mod 512)), (Z.eqb_spec (sN / 512 mod 512) (m / 512 mod 512)); cbn [andb]);
    repeat match goal with |- context [?a =? ?b] => destruct (Z.eqb_spec a b); cbn [andb] end; intros H0 H1 H2; lia.
Qed.

(** A range that does not end together with a table is visited whole. *)
Lemma vis0_all m : eN mod 512 <> 0 -> sN <= m < eN -> vis 0 m.
Proof.
  intros Hend Hm. unfold vis. rewrite !within_Z by lia. cbn [flags fst snd]. rewrite !down_Z by lia. cbn [fst snd andb].
  change (512 ^ Z.of_nat 2) with 262144. change (512 ^ Z.of_nat 1) with 512. change (512 ^ Z.of_nat 0) with 1.
  rewrite !Z.div_1_r, !Z.mod_1_r, !Z.eqb_refl.
  destruct (Z.eqb_spec (eN mod 262144) 0) as [He|_]; [lia|]. destruct (Z.eqb_spec (eN mod 512) 0) as [He|_]; [lia|].
  destruct (Z.eqb_spec (sN / 262144 mod 512) (m / 262144 mod 512)), (Z.eqb_spec (sN / 512 mod 512) (m / 512 mod 512)); cbn [andb];
    repeat match goal with |- context [?a =? ?b] => destruct (Z.eqb_spec a b); cbn [andb] end; lia.
Qed.
End bounds.
