(* ===== verification/PtIter.v ===== *)
(** * The iterator over the valid entries of a range

    [stk] relates the cursors of the iterator, one per level, to a position in
    the order of the pages, and counts the turns that are left.  [next_spec]
    says that a step yields the first valid entry from the position on. *)

From S2P Require Import Prelude Vfs Buddy PageTable PtTree PtOps PtRange.

#[local] Open Scope Z_scope.
#[local] Open Scope rw_scope.

(** The valid entry of a level on the way to page [m]. *)
Definition lent (T : gmap Z (list Z)) (root : Z) (level : nat) (m : Z) : option Z :=
  node T root (ppath level m) ≫= fun t => ent T t (pidx level m) ≫= fun e => if is_valid e then Some e else None.

Lemma ppath_up level m : (level <= 1)%nat -> ppath level m = ppath (S level) m ++ [pidx (S level) m].
Proof. intros Hl. by destruct level as [|[|]]; [| |lia]. Qed.

Lemma ppath_same level lo m : (level <= 2)%nat -> 0 <= lo < 2 ^ 27 -> lo mod span level = 0 -> lo <= m < lo + span level -> ppath level m = ppath level lo.
Proof.
  intros Hl Hlo Hm Hin. unfold ppath, pidx, span in *. destruct level as [|[|level]]; [| |done].
  - change (512 ^ Z.of_nat 2) with 262144. change (512 ^ Z.of_nat 1) with 512 in *.
    replace (m / 262144) with (lo / 262144) by lia. by replace (m / 512) with (lo / 512) by lia.
  - change (512 ^ Z.of_nat 2) with 262144 in *. by replace (m / 262144) with (lo / 262144) by lia.
Qed.

(** Nothing is below an entry that is not valid. *)
Lemma lent_below T root level m : (level <= 1)%nat -> lent T root (S level) m = None -> lent T root level m = None.
Proof.
  intros Hl Hn. unfold lent in *. rewrite ppath_up, node_snoc by done. destruct (node T root (ppath (S level) m)) as [t|]; [|done].
  cbn [mbind option_bind] in *. unfold sub. destruct (ent T t (pidx (S level) m)) as [e|]; [|done]. cbn [mbind option_bind] in *. by destruct (is_valid e).
Qed.

(** The entries of the table that spans the pages from [lo] on. *)
Lemma slot level lo (j : nat) : (level <= 2)%nat -> lo mod span level = 0 -> (j < 512)%nat ->
  let m := lo + Z.of_nat j * 512 ^ Z.of_nat level in
  pidx level m = j /\ lo <= m < lo + span level /\ m mod 512 ^ Z.of_nat level = 0.
Proof.
  intros Hl Hm Hj m. unfold m, pidx, span in *. destruct level as [|[|[|level]]]; [| | |lia].
  - change (512 ^ Z.of_nat 1) with 512 in *. change (512 ^ Z.of_nat 0) with 1 in *. lia.
  - change (512 ^ Z.of_nat 2) with 262144 in *. change (512 ^ Z.of_nat 1) with 512 in *. lia.
  - change (512 ^ Z.of_nat 3) with 134217728 in *. change (512 ^ Z.of_nat 2) with 262144 in *. lia.
Qed.

Lemma slot_inv level lo m : (level <= 2)%nat -> lo mod span level = 0 -> lo <= m < lo + span level -> m mod 512 ^ Z.of_nat level = 0 ->
  m = lo + Z.of_nat (pidx level m) * 512 ^ Z.of_nat level.
Proof.
  intros Hl Hlo Hin Hm. unfold pidx, span in *. destruct level as [|[|[|level]]]; [| | |lia].
  - change (512 ^ Z.of_nat 1) with 512 in *. change (512 ^ Z.of_nat 0) with 1 in *. lia.
  - change (512 ^ Z.of_nat 2) with 262144 in *. change (512 ^ Z.of_nat 1) with 512 in *. lia.
  - change (512 ^ Z.of_nat 3) with 134217728 in *. change (512 ^ Z.of_nat 2) with 262144 in *. lia.
Qed.

(** The table of a page. *)
Lemma table_of level m : (level <= 2)%nat -> 0 <= m < 2 ^ 27 ->
  exists lo, lo mod span level = 0 /\ 0 <= lo <= m /\ m < lo + span level /\ lo + span level <= 2 ^ 27.
Proof.
  intros Hl Hm. exists (m / span level * span level). unfold span. destruct level as [|[|[|level]]]; [| | |lia].
  - change (512 ^ Z.of_nat 1) with 512. lia.
  - change (512 ^ Z.of_nat 2) with 262144. lia.
  - change (512 ^ Z.of_nat 3) with 134217728. lia.
Qed.

Section iter.
Context {A : Type} `{PageAllocLaws A} {lowest : Low} {E : Type}.
Context (root sN eN : Z).
Hypothesis Hrange : 0 <= sN <= eN /\ eN <= 2 ^ 27 /\ sN < 2 ^ 27.

(** ** One table *)

(** The loop of [next] finds the first valid entry. *)
Lemma table_next_spec (R : E -> PtState A -> Prop) n : forall i s, n = (end_idx i - cur_idx i)%nat ->
  (forall j, (cur_idx i <= j < end_idx i)%nat -> is_Some (ent (tables s) (it_table i) j)) ->
  wp (table_next n i) (fun '(o, i') s' => s' = s /\
    match o with
    | Some (idx, va, l) => (cur_idx i <= idx < end_idx i)%nat /\ va = Z.lor (it_base_va i) (va_for_index (it_level i) idx) /\
        l = (it_table i, idx) /\ i' = set_cur i (idx + 1) /\ (exists e, ent (tables s) (it_table i) idx = Some e /\ is_valid e = true) /\
        forall j e, (cur_idx i <= j < idx)%nat -> ent (tables s) (it_table i) j = Some e -> is_valid e = false
    | None => i' = set_cur i (Nat.max (cur_idx i) (end_idx i)) /\
        forall j e, (cur_idx i <= j < end_idx i)%nat -> ent (tables s) (it_table i) j = Some e -> is_valid e = false
    end) R s.
Proof.
  induction n as [|n IH]; intros i s Hn Hent; cbn [table_next].
  - apply wp_ret. split; [done|]. split; [|intros j e Hj; lia]. rewrite Nat.max_l by lia. by destruct i.
  - replace (cur_idx i <? end_idx i)%nat with true by (symmetry; apply Nat.ltb_lt; lia).
    destruct (Hent (cur_idx i)) as [e He]; [lia|]. apply wp_bind. eapply wp_read_entry; [exact He|].
    destruct (is_valid e) eqn:Hv.
    + apply wp_ret. split; [done|]. split; [lia|]. repeat (split; [done|]). split; [by exists e|]. intros j e' Hj. lia.
    + eapply wp_mono; [apply IH; [destruct i; cbn in *; lia|intros j Hj; apply (Hent j); destruct i; cbn in *; lia]| |done].
      intros [o i'] s' [-> Ho]. split; [done|].
      assert (Hcur : forall j e', (j = cur_idx i)%nat -> ent (tables s) (it_table i) j = Some e' -> is_valid e' = false) by (intros j e' -> ?; congruence).
      destruct i as [tb lv bv cu st en fi la]; cbn [set_cur it_table it_level it_base_va cur_idx start_idx end_idx] in *.
      destruct o as [[[idx va] l]|].
      * destruct Ho as (Hi1 & Hva & Hl & Hi' & Hval & Hfree). split; [lia|]. repeat (split; [done|]).
        intros j e' Hj. destruct (decide (j = cu)) as [->|]; [by apply Hcur|apply Hfree; lia].
      * destruct Ho as [-> Hfree]. split; [unfold set_cur; cbn; f_equal; lia|].
        intros j e' Hj. destruct (decide (j = cu)) as [->|]; [by apply Hcur|apply Hfree; lia].
Qed.

(** ** The cursors *)

Definition cursor (level : nat) (lo t : Z) (c : nat) : TableRangeIter :=
  set_cur (TableRangeIter_new t level (lo * 4096) (sN * 4096) (eN * 4096) (flags sN eN level lo).1 (flags sN eN level lo).2) c.

(** The entries of a level that remain from page [k] on. *)
Definition turns (level : nat) (k : Z) : nat := Z.to_nat ((eN - k + span level - 1) / span level).

Definition vis_up (level : nat) (lo : Z) : Prop := (level < 2)%nat -> vis sN eN (S level) lo.

(** No entry is admitted from [k] to [p]. *)
Definition gap (level : nat) (k p : Z) : Prop :=
  k <= p /\ forall m, k <= m < p -> m mod 512 ^ Z.of_nat level = 0 -> ~ vis sN eN level m.

(** The cursor of a level is at page [k], and [k'] is the page after its
    table. *)
Definition at_cursor (level : nat) (s : PtState A) (r : InternalRangeIter) (k k' : Z) : Prop :=
  exists i, table_iters r !! level = Some i /\
    ((end_idx i <= cur_idx i)%nat /\ gap level k k' \/
     exists lo t c, i = cursor level lo t c /\ 0 <= lo /\ lo mod span level = 0 /\ k' = lo + span level /\ k' <= 2 ^ 27 /\
       vis_up level lo /\ node (tables s) root (ppath level lo) = Some t /\
       (start_idx i <= c < end_idx i)%nat /\ gap level k (lo + Z.of_nat c * 512 ^ Z.of_nat level)).

Definition stk_top (s : PtState A) (r : InternalRangeIter) (k : Z) (w : nat) : Prop :=
  r_start_va r = sN * 4096 /\ r_end_va r = eN * 4096 /\ length (table_iters r) = 3%nat /\ w = 1%nat /\ at_cursor 2 s r k (2 ^ 27).

Definition stk_below (level : nat) (up : InternalRangeIter -> Z -> nat -> Prop) (s : PtState A) (r : InternalRangeIter) (k : Z) (w : nat) : Prop :=
  exists k' w', up r k' w' /\ at_cursor level s r k k' /\ 0 <= k' /\ k' mod span level = 0 /\ w = (w' + 1 + turns level k')%nat.

Definition stk (level : nat) (s : PtState A) : InternalRangeIter -> Z -> nat -> Prop :=
  match level with
  | 0%nat => stk_below 0 (stk_below 1 (stk_top s) s) s
  | 1%nat => stk_below 1 (stk_top s) s
  | _ => stk_top s
  end.

Lemma end_index_le level b : (level <= 2)%nat -> (end_index level b (eN * 4096) <= 512)%nat.
Proof.
  intros Hl. pose proof (end_Z sN eN Hrange level b Hl) as He. pose proof (Z.mod_pos_bound (eN / 512 ^ Z.of_nat level) 512).
  destruct b; [|lia]. destruct (_ =? 0); lia.
Qed.

(** The admitted entries of a table. *)
Lemma vis_slot level lo m : (level <= 2)%nat -> 0 <= lo -> lo + span level <= 2 ^ 27 -> lo mod span level = 0 -> lo <= m < lo + span level ->
  vis sN eN level m <-> vis_up level lo /\
    (start_index level (flags sN eN level lo).1 (sN * 4096) <= pidx level m < end_index level (flags sN eN level lo).2 (eN * 4096))%nat.
Proof.
  intros Hl Hlo Hhi Hm Hin. pose proof (span_pos level) as Hpos. unfold vis_up.
  assert (Hw : within sN eN level m <-> (start_index level (flags sN eN level lo).1 (sN * 4096) <= pidx level m < end_index level (flags sN eN level lo).2 (eN * 4096))%nat).
  { unfold within. by rewrite (flags_same sN eN level lo m) by (done || lia). }
  rewrite <- Hw. destruct level as [|[|[|level]]]; [| | |lia].
  - assert (H2 : within sN eN 2 m <-> within sN eN 2 lo) by (unfold within, pidx; cbn [flags]; change (512 ^ Z.of_nat 2) with 262144;
      change (span 0) with 512 in *; by replace (m / 262144) with (lo / 262144) by lia).
    assert (H1 : within sN eN 1 m <-> within sN eN 1 lo).
    { unfold within. assert (Hf : flags sN eN 1 m = flags sN eN 1 lo) by (unfold flags, down, pidx; change (512 ^ Z.of_nat 2) with 262144;
        change (span 0) with 512 in *; by replace (m / 262144) with (lo / 262144) by lia).
      rewrite Hf. unfold pidx. change (512 ^ Z.of_nat 1) with 512. change (span 0) with 512 in *. by replace (m / 512) with (lo / 512) by lia. }
    unfold vis. rewrite H1, H2. split; [tauto|]. intros [Hu ?]. split; [apply Hu; lia|]. split; [apply Hu; lia|done].
  - assert (H2 : within sN eN 2 m <-> within sN eN 2 lo) by (unfold within, pidx; cbn [flags]; change (512 ^ Z.of_nat 2) with 262144;
      change (span 1) with 262144 in *; by replace (m / 262144) with (lo / 262144) by lia).
    unfold vis. rewrite H2. split; [tauto|]. intros [Hu ?]. split; [apply Hu; lia|done].
  - unfold vis. split; [|tauto]. intros ?. split; [lia|done].
Qed.

(** No valid entry is admitted from [k] to [p]. *)
Definition clear_to (level : nat) (s : PtState A) (k p : Z) : Prop :=
  forall m, k <= m < p -> m mod 512 ^ Z.of_nat level = 0 -> vis sN eN level m -> lent (tables s) root level m = None.

(** The entry of page [m] is the first valid one from [k] on. *)
Record found (level : nat) (s : PtState A) (k m : Z) (idx : nat) (va : Z) (l : loc) : Prop := {
  fd_from : k <= m < 2 ^ 27;
  fd_nonneg : 0 <= m;
  fd_al : m mod 512 ^ Z.of_nat level = 0;
  fd_vis : vis sN eN level m;
  fd_idx : idx = pidx level m;
  fd_va : va = m * 4096;
  fd_loc : node (tables s) root (ppath level m) = Some l.1 /\ l.2 = idx;
  fd_some : is_Some (lent (tables s) root level m);
  fd_first : clear_to level s k m
}.

(** The cursor of the table of page [m]. *)
Definition cursor_of (level : nat) (m : Z) (i : TableRangeIter) : Prop :=
  it_first i = (flags sN eN level m).1 /\ it_last i = (flags sN eN level m).2 /\
  start_idx i = start_index level (flags sN eN level m).1 (sN * 4096) /\ end_idx i = end_index level (flags sN eN level m).2 (eN * 4096).

Lemma scan_spec (R : E -> PtState A -> Prop) level s r i k k' : (level <= 2)%nat -> tree_ok (tables s) root -> length (table_iters r) = 3%nat ->
  table_iters r !! level = Some i -> at_cursor level s r k k' ->
  wp (TableRangeIter_next i) (fun '(o, i') s' => s' = s /\
    match o with
    | Some (idx, va, l) => exists m, found level s k m idx va l /\ cursor_of level m i' /\ at_cursor level s (set_iter r level i') (m + 512 ^ Z.of_nat level) k'
    | None => clear_to level s k k'
    end) R s.
Proof.
  intros Hl Hok Hlen Hi (i0 & Hi0 & Hc). rewrite Hi in Hi0. injection Hi0 as <-. destruct Hc as [[Hex [Hk Hgap]]|(lo & t & c & Heq & Hlo & Hal & -> & Hhi & Hup & Hn & Hc & [Hk Hgap])].
  { unfold TableRangeIter_next. replace (end_idx i - cur_idx i)%nat with 0%nat by lia. cbn [table_next]. apply wp_ret. split; [done|].
    intros m Hm Hma Hv. by destruct (Hgap m Hm Hma). }
  pose proof (end_index_le level (flags sN eN level lo).2 Hl) as He5.
  assert (Hfields : it_table i = t /\ it_level i = level /\ it_base_va i = lo * 4096 /\ cur_idx i = c) by (by subst i). destruct Hfields as (Ht & Hlv & Hb & Hcur).
  assert (Hse : start_idx i = start_index level (flags sN eN level lo).1 (sN * 4096) /\ end_idx i = end_index level (flags sN eN level lo).2 (eN * 4096)) by (by subst i).
  destruct Hse as [Hst Hen].
  assert (Hpn : (length (ppath level lo) <= 2)%nat) by (destruct level as [|[|]]; simpl; lia).
  assert (Hempty : forall j, (c <= j < end_idx i)%nat -> (forall e, ent (tables s) t j = Some e -> is_valid e = false) ->
    lent (tables s) root level (lo + Z.of_nat j * 512 ^ Z.of_nat level) = None).
  { intros j Hj Hinv. destruct (slot level lo j Hl Hal ltac:(lia)) as (Hp & Hin & _). unfold lent.
    rewrite (ppath_same level lo) by (done || lia). rewrite Hn, Hp. cbn [mbind option_bind].
    destruct (ent (tables s) t j) as [e|] eqn:He; [|done]. cbn [mbind option_bind]. by rewrite (Hinv e). }
  eapply wp_mono; [apply (table_next_spec (fun _ _ => False)); [done|]| |done].
  { intros j Hj. rewrite Ht. destruct (tree_ent _ root _ t j Hok Hpn Hn) as [e ?]; [lia|by exists e]. }
  rewrite Ht, Hcur. intros [o i'] s' [-> Ho]. split; [done|]. destruct o as [[[idx va] l]|].
  - destruct Ho as (Hix & -> & -> & -> & (e & He & Hv) & Hfree). exists (lo + Z.of_nat idx * 512 ^ Z.of_nat level).
    destruct (slot level lo idx Hl Hal ltac:(lia)) as (Hp & Hin & Hma).
    assert (Hmono : forall a b : nat, (a <= b)%nat -> lo + Z.of_nat a * 512 ^ Z.of_nat level <= lo + Z.of_nat b * 512 ^ Z.of_nat level).
    { intros a b Hab. apply Z.add_le_mono_l, Z.mul_le_mono_nonneg_r; [apply Z.pow_nonneg; lia|lia]. }
    split; [split|split].
    + pose proof (Hmono c idx). lia.
    + lia.
    + done.
    + apply (vis_slot level lo); [done|done|lia|done|lia|]. split; [done|]. rewrite Hp. lia.
    + by rewrite Hp.
    + rewrite Hlv, Hb. apply cur_va_page; [lia|done].
    + by rewrite (ppath_same level lo) by (done || lia).
    + unfold lent. rewrite (ppath_same level lo) by (done || lia). rewrite Hn, Hp. cbn [mbind option_bind]. rewrite He. cbn [mbind option_bind]. by rewrite Hv.
    + intros m Hm Hmal Hvis. destruct (decide (m < lo + Z.of_nat c * 512 ^ Z.of_nat level)) as [Hlt|Hge]; [by destruct (Hgap m ltac:(lia) Hmal)|].
      assert (Hinm : lo <= m < lo + span level) by (pose proof (Hmono 0%nat c); lia).
      pose proof (slot_inv level lo m Hl Hal Hinm Hmal) as Hmeq. rewrite Hmeq.
      assert (HK : 0 < 512 ^ Z.of_nat level) by (apply Z.pow_pos_nonneg; lia).
      assert (Hcm : (c <= pidx level m < idx)%nat) by (clear -HK Hmeq Hge Hm; nia).
      apply Hempty; [lia|]. intros e' He'. by apply (Hfree _ _ Hcm).
    + unfold cursor_of. rewrite (flags_same sN eN level lo) by (done || lia). by subst i.
    + exists (set_cur i (idx + 1)). split; [cbn; apply list_lookup_insert_eq; lia|].
      destruct (decide (idx + 1 < end_idx i)%nat) as [Hmore|Hlast].
      * right. exists lo, t, (idx + 1)%nat. split; [by subst i|]. repeat (split; [done|]). split; [by subst i; cbn in *; lia|].
        split; [lia|]. intros m Hm. lia.
      * left. split; [subst i; cbn in *; lia|]. assert (HK : 0 < 512 ^ Z.of_nat level) by (apply Z.pow_pos_nonneg; lia).
        assert (Hsp : span level = 512 * 512 ^ Z.of_nat level) by (unfold span; rewrite Nat2Z.inj_succ, Z.pow_succ_r; lia).
        split; [clear -HK Hsp Hix He5 Hen; nia|]. intros m Hm Hmal Hvis. assert (Hinm : lo <= m < lo + span level) by (clear -HK Hm; nia).
        apply (vis_slot level lo m) in Hvis as [_ Hvis]; [|done|done|lia|done|done].
        pose proof (slot_inv level lo m Hl Hal Hinm Hmal) as Hmeq. rewrite <- Hen in Hvis. clear -HK Hmeq Hm Hvis Hlast. nia.
  - destruct Ho as [-> Hfree]. intros m Hm Hmal Hvis.
    destruct (decide (m < lo + Z.of_nat c * 512 ^ Z.of_nat level)) as [Hlt|Hge]; [by destruct (Hgap m ltac:(lia) Hmal)|].
    assert (HK : 0 < 512 ^ Z.of_nat level) by (apply Z.pow_pos_nonneg; lia).
    assert (Hinm : lo <= m < lo + span level) by (clear -HK Hm Hge; nia).
    pose proof (slot_inv level lo m Hl Hal Hinm Hmal) as Hmeq.
    apply (vis_slot level lo m) in Hvis as [_ Hvis]; [|done|done|lia|done|done]. rewrite <- Hen in Hvis.
    rewrite Hmeq. apply Hempty; [clear -HK Hmeq Hge Hvis; nia|]. intros e' He'. apply (Hfree (pidx level m) e'); [clear -HK Hmeq Hge Hvis; nia|done].
Qed.

(** ** A step of the iterator *)

Lemma stk_S level s : (level <= 1)%nat -> stk level s = stk_below level (stk (S level) s) s.
Proof. intros Hl. by destruct level as [|[|]]; [| |lia]. Qed.

Lemma at_cursor_ne level level' s r i k k' : level <> level' -> at_cursor level s r k k' -> at_cursor level s (set_iter r level' i) k k'.
Proof. intros Hne (i0 & Hi0 & Hc). exists i0. split; [|done]. cbn. by rewrite list_lookup_insert_ne. Qed.

Lemma stk_top_ne level s r i k w : (level < 2)%nat -> stk_top s r k w -> stk_top s (set_iter r level i) k w.
Proof.
  intros Hl (Hs & He & Hlen & Hw & Hc). repeat (split; [done|]). split; [cbn; by rewrite length_insert|]. split; [done|].
  apply at_cursor_ne; [lia|done].
Qed.

Lemma stk_ne level s r i k w : (level <= 1)%nat -> stk (S level) s r k w -> stk (S level) s (set_iter r level i) k w.
Proof.
  intros Hl Hs. destruct level as [|[|]]; [| |lia].
  - destruct Hs as (k' & w' & Ht & Hc & Hk & Hw). exists k', w'. split; [apply stk_top_ne; [lia|done]|]. split; [apply at_cursor_ne; [lia|done]|done].
  - apply stk_top_ne; [lia|done].
Qed.

Lemma stk_len level s r k w : (level <= 2)%nat -> stk level s r k w ->
  length (table_iters r) = 3%nat /\ r_start_va r = sN * 4096 /\ r_end_va r = eN * 4096 /\ (1 <= w)%nat.
Proof.
  intros Hl Hs. destruct level as [|[|[|]]]; [| | |lia].
  - destruct Hs as (k1 & w1 & (k2 & w2 & (Hs & He & Hlen & Hw & _) & _ & _ & _ & Hw2) & _ & _ & _ & Hw1). repeat (split; [done|]). lia.
  - destruct Hs as (k2 & w2 & (Hs & He & Hlen & Hw & _) & _ & _ & _ & Hw2). repeat (split; [done|]). lia.
  - destruct Hs as (Hs & He & Hlen & Hw & _). repeat (split; [done|]). lia.
Qed.

(** The next admitted valid entry, and the position after it. *)
Definition yields (level : nat) (s : PtState A) (k : Z) (w : nat) (o : option (nat * Z * loc)) (r' : InternalRangeIter) : Prop :=
  match o with
  | Some (idx, va, l) => exists m w' i, found level s k m idx va l /\ stk level s r' (m + 512 ^ Z.of_nat level) w' /\ (w' <= w)%nat /\
      table_iters r' !! level = Some i /\ cursor_of level m i
  | None => clear_to level s k (2 ^ 27)
  end.

Lemma yields_from level s k k1 w w1 o r' : clear_to level s k k1 -> k <= k1 -> (w1 <= w)%nat -> yields level s k1 w1 o r' -> yields level s k w o r'.
Proof.
  intros Hc Hk Hw Hy.
  assert (Hjoin : forall p, clear_to level s k1 p -> clear_to level s k p).
  { intros p Hp m Hm. destruct (decide (m < k1)); [apply Hc; lia|apply Hp; lia]. }
  destruct o as [[[idx va] l]|]; [|by apply Hjoin]. destruct Hy as (m & w' & i & Hf & Hs & Hw' & Hi & Hcu). exists m, w', i.
  split; [|split; [done|]; split; [lia|done]]. destruct Hf. split; try done; [lia|by apply Hjoin].
Qed.

Lemma lent_same T level lo m : (level <= 1)%nat -> 0 <= lo -> lo + span level <= 2 ^ 27 -> lo mod span level = 0 -> lo <= m < lo + span level ->
  lent T root (S level) m = lent T root (S level) lo.
Proof.
  intros Hl Hlo Hhi Hm Hin. pose proof (ppath_same level lo m ltac:(lia) ltac:(lia) Hm Hin) as Hp. rewrite (ppath_up level m), (ppath_up level lo) in Hp by done.
  apply app_inj_tail in Hp as [Hp Hi]. unfold lent. by rewrite Hp, Hi.
Qed.

(** Tables without valid entries above are skipped. *)
Lemma clear_below level s k k' p : (level <= 1)%nat -> 0 <= k' -> k' mod span level = 0 -> p <= 2 ^ 27 ->
  clear_to level s k k' -> clear_to (S level) s k' p -> clear_to level s k p.
Proof.
  intros Hl Hk0 Hkm Hp Hc Hup m Hm Hmal Hv. destruct (decide (m < k')); [apply Hc; [lia|done|done]|].
  destruct (table_of level m ltac:(lia) ltac:(lia)) as (lo & Hlm & Hlo & Hin & Hhi). pose proof (span_pos level) as Hpos.
  apply lent_below; [done|]. rewrite (lent_same _ level lo) by (done || lia). apply Hup; [|done|].
  - split; [|lia]. apply Z.mod_divide in Hkm as [a ->]; [|lia]. apply Z.mod_divide in Hlm as [b ->]; [|lia].
    apply Z.mul_le_mono_nonneg_r; [lia|]. clear -Hpos Hin n. nia.
  - apply (vis_slot level lo m) in Hv as [Hv _]; [|lia|lia|done|done|lia]. apply Hv. lia.
Qed.

Lemma turns_next level k m : 0 <= k <= m -> m < eN -> (turns level (m + span level) + 1 <= turns level k)%nat.
Proof.
  intros Hk Hm. unfold turns. pose proof (span_pos level) as Hpos.
  replace (eN - (m + span level) + span level - 1) with ((eN - m + span level - 1) + (-1) * span level) by lia. rewrite Z.div_add by lia.
  assert (1 <= (eN - m + span level - 1) / span level) by (apply Z.div_le_lower_bound; lia).
  assert ((eN - m + span level - 1) / span level <= (eN - k + span level - 1) / span level) by (apply Z.div_le_mono; lia). lia.
Qed.

Lemma vis_lt level m : (level <= 1)%nat -> 0 <= m < 2 ^ 27 -> m mod span level = 0 -> vis sN eN (S level) m -> m < eN.
Proof.
  intros Hl Hm Hal Hv. destruct level as [|[|]]; [| |lia].
  - by apply (vis1_lt sN eN Hrange).
  - by apply (vis2_lt sN eN Hrange).
Qed.

(** The cursor of a table that is entered. *)
Lemma enter_table level s r m t : (level <= 2)%nat -> length (table_iters r) = 3%nat -> 0 <= m -> m + span level <= 2 ^ 27 -> m mod span level = 0 ->
  vis_up level m -> node (tables s) root (ppath level m) = Some t ->
  at_cursor level s (set_iter r level (TableRangeIter_new t level (m * 4096) (sN * 4096) (eN * 4096) (flags sN eN level m).1 (flags sN eN level m).2))
    m (m + span level).
Proof.
  intros Hl Hlen Hm Hhi Hal Hv Hn. set (i := TableRangeIter_new _ _ _ _ _ _ _). exists i. split; [cbn; apply list_lookup_insert_eq; lia|].
  assert (Hst : start_idx i = start_index level (flags sN eN level m).1 (sN * 4096)) by done.
  assert (Hen : end_idx i = end_index level (flags sN eN level m).2 (eN * 4096)) by done.
  pose proof (end_index_le level (flags sN eN level m).2 ltac:(lia)) as He5. rewrite <- Hen in He5.
  assert (HK : 0 < 512 ^ Z.of_nat level) by (apply Z.pow_pos_nonneg; lia).
  assert (Hsp : span level = 512 * 512 ^ Z.of_nat level) by (unfold span; rewrite Nat2Z.inj_succ, Z.pow_succ_r; lia).
  assert (Hno : forall x, m <= x < m + span level -> x mod 512 ^ Z.of_nat level = 0 -> vis sN eN level x -> (start_idx i <= pidx level x < end_idx i)%nat).
  { intros x Hx Hxa Hvx. apply (vis_slot level m x) in Hvx as [_ Hvx]; [|lia|done|done|done|done]. by rewrite Hst, Hen. }
  destruct (decide (start_idx i < end_idx i)%nat) as [Hlt|Hge].
  - right. exists m, t, (start_idx i). split; [done|]. do 6 (split; [done|]). split; [lia|].
    split; [clear -HK; nia|]. intros x Hx Hxa Hvx. assert (Hin : m <= x < m + span level) by (clear -HK Hsp Hlt He5 Hx; nia).
    pose proof (slot_inv level m x ltac:(lia) Hal Hin Hxa) as Hxe. apply Hno in Hvx; [|done|done]. clear -HK Hxe Hvx Hx. nia.
  - left. split; [cbn; cbn in Hge; lia|]. split; [lia|]. intros x Hx Hxa Hvx. apply Hno in Hvx; [lia|done|done].
Qed.

Lemma at_cursor_le level s r k k' : (level <= 2)%nat -> at_cursor level s r k k' -> k <= k'.
Proof.
  intros Hl (i & _ & [[_ [Hkk _]]|(lo & t & c & -> & _ & _ & -> & _ & _ & _ & Hc & [Hkk _])]); [lia|].
  pose proof (end_index_le level (flags sN eN level lo).2 Hl) as He5. cbn in Hc. assert (Hc5 : (c < 512)%nat) by lia.
  assert (HK : 0 < 512 ^ Z.of_nat level) by (apply Z.pow_pos_nonneg; lia).
  assert (Hsp : span level = 512 * 512 ^ Z.of_nat level) by (unfold span; rewrite Nat2Z.inj_succ, Z.pow_succ_r; lia). clear -HK Hsp Hc5 Hkk. nia.
Qed.

(** What a step at a level does. *)
Definition next_ok (R : E -> PtState A -> Prop) (level : nat) (s : PtState A) : Prop :=
  forall n r k w, stk level s r k w -> (w <= n)%nat ->
  wp (next_recursive n level r) (fun '(o, r') s' => s' = s /\ yields level s k w o r') R s.

Lemma next_top (R : E -> PtState A -> Prop) s : tree_ok (tables s) root -> next_ok R 2 s.
Proof.
  intros Hok n r k w Hs Hw. pose proof Hs as (Hst & Hen & Hlen & -> & Hc). destruct n as [|n]; [lia|].
  destruct Hc as (i & Hi & Hc'). assert (Hc : at_cursor 2 s r k (2 ^ 27)) by (by exists i). clear Hc'.
  cbn [next_recursive]. apply wp_bind. rewrite Hi. apply wp_ret. apply wp_bind.
  eapply wp_mono; [apply (scan_spec (fun _ _ => False) 2 s r i k); [lia|done|done|done|exact Hc]| |done].
  intros [o i'] s' [-> Ho]. destruct o as [[[idx va] l]|]; apply wp_ret; (split; [done|]); [|done].
  destruct Ho as (m & Hf & Hcu & Hat). exists m, 1%nat, i'. split; [done|]. split; [|split; [lia|]; split; [cbn; apply list_lookup_insert_eq; lia|done]].
  repeat (split; [done|]). split; [cbn; by rewrite length_insert|]. done.
Qed.

Lemma next_step (R : E -> PtState A -> Prop) level s : (level <= 1)%nat -> tree_ok (tables s) root -> next_ok R (S level) s -> next_ok R level s.
Proof.
  intros Hl Hok Hup n. induction n as [|n IH]; intros r k w Hs Hw; [pose proof (stk_len level s r k w ltac:(lia) Hs); lia|].
  pose proof (stk_len level s r k w ltac:(lia) Hs) as (Hlen & _ & _ & _). rewrite stk_S in Hs by done.
  destruct Hs as (k' & w' & Hst & Hc & Hk0 & Hkm & ->). pose proof Hc as (i & Hi & _).
  cbn [next_recursive]. apply wp_bind. rewrite Hi. apply wp_ret. apply wp_bind.
  eapply wp_mono; [apply (scan_spec (fun _ _ => False) level s r i k); [lia|done|done|done|exact Hc]| |done].
  intros [o i'] s' [-> Ho]. destruct o as [[[idx va] l]|].
  { apply wp_ret. split; [done|]. destruct Ho as (m & Hf & Hcu & Hat). exists m. eexists _, i'. split; [done|]. rewrite stk_S by done.
    split; [|split; [done|]; split; [cbn; apply list_lookup_insert_eq; lia|done]].
    exists k', w'. split; [by apply stk_ne|]. done. }
  replace (level =? 2)%nat with false by (symmetry; apply Nat.eqb_neq; lia). rewrite Nat.add_1_r. apply wp_bind.
  eapply wp_mono; [apply (Hup n _ k' w'); [by apply stk_ne|lia]| |done]. intros [o r1] s1 [-> Hy]. destruct o as [[[idx va] l]|].
  2:{ apply wp_ret. split; [done|]. by apply (clear_below level s k k'). }
  destruct Hy as (m & w1 & ui & Hf & Hst1 & Hw1 & Hui & (Huf & Hul & Hus & Hue)). destruct Hf as [Hfrom H0m Hmal Hvis -> -> [Hn Hl2] Hsome Hfirst].
  fold (span level) in Hmal. pose proof (stk_len (S level) s r1 _ _ ltac:(lia) Hst1) as (Hlen1 & Hsv & Hev & _).
  apply wp_bind. rewrite Hui. apply wp_ret.
  assert (Hlp : (length (ppath (S level) m) <= 1)%nat) by (destruct level as [|[|]]; simpl; lia).
  destruct (pde_cases _ _ _ (pidx (S level) m) l.1 Hok Hlp Hn (pidx_lt _ _)) as (e & He & Hcase).
  assert (Hv : is_valid e = true).
  { unfold lent in Hsome. rewrite Hn in Hsome. cbn [mbind option_bind] in Hsome. rewrite He in Hsome. cbn [mbind option_bind] in Hsome.
    destruct (is_valid e); [done|]. by destruct Hsome. }
  rewrite Hv in Hcase. destruct Hcase as [Hpt Hn']. rewrite <- ppath_up in Hn' by done.
  assert (He' : ent (tables s) l.1 l.2 = Some e) by (by rewrite Hl2).
  apply wp_bind. apply (wp_read_entry l e); [exact He'|]. apply wp_bind. apply wp_as_table; [done|].
  rewrite Hsv, Hev, Huf, Hul, Hus, Hue.
  assert (Hflags : flags sN eN level m = down sN eN (S level) (flags sN eN (S level) m) m) by (destruct level as [|[|]]; [done|done|lia]).
  change ((flags sN eN (S level) m).1 && (start_index (S level) (flags sN eN (S level) m).1 (sN * 4096) =? pidx (S level) m)%nat)
    with (down sN eN (S level) (flags sN eN (S level) m) m).1.
  change ((flags sN eN (S level) m).2 && (end_index (S level) (flags sN eN (S level) m).2 (eN * 4096) - 1 =? pidx (S level) m)%nat)
    with (down sN eN (S level) (flags sN eN (S level) m) m).2.
  rewrite <- Hflags.
  assert (Hhi : m + span level <= 2 ^ 27).
  { destruct (table_of level m ltac:(lia) ltac:(lia)) as (lo & Hlm & Hlo & Hin & Hhi). pose proof (span_pos level) as Hpos.
    replace m with lo; [done|]. apply Z.mod_divide in Hmal as [a ->]; [|lia]. apply Z.mod_divide in Hlm as [b ->]; [|lia]. f_equal. clear -Hpos Hlo Hin. assert (b <= a) by nia. assert (a < b + 1) by nia. lia. }
  pose proof (enter_table level s r1 m (physical_addr e) ltac:(lia) Hlen1 H0m Hhi Hmal (fun _ => Hvis) Hn') as Hat.
  pose proof (turns_next level k' m ltac:(lia) (vis_lt level m Hl ltac:(lia) Hmal Hvis)) as Hturn.
  assert (Hcl : clear_to level s k m) by (apply (clear_below level s k k'); [done|done|done|lia|done|done]).
  eapply wp_mono; [apply (IH _ m (w1 + 1 + turns level (m + span level))%nat); [|lia]| |done].
  - rewrite stk_S by done. eexists _, w1. split; [apply stk_ne; [done|exact Hst1]|]. split; [exact Hat|]. fold (span level). pose proof (span_pos level). split; [lia|].
    split; [|done]. rewrite <- (Z.mul_1_l (span level)) at 1. by rewrite Z.mod_add by lia.
  - intros [o r2] s2 [-> Hy]. split; [done|]. eapply yields_from; [exact Hcl| |  |exact Hy]; [|lia].
    pose proof (at_cursor_le level s r k k' ltac:(lia) Hc). lia.
Qed.

Lemma next_spec (R : E -> PtState A -> Prop) s : tree_ok (tables s) root -> next_ok R 0 s.
Proof. intros Hok. apply next_step; [lia|done|]. apply next_step; [lia|done|]. by apply next_top. Qed.

(** ** The loop *)

(** The tables on the way to a page stay where they are. *)
Definition stays (s s' : PtState A) : Prop := forall p t, (length p <= 2)%nat -> node (tables s) root p = Some t -> node (tables s') root p = Some t.

Lemma at_cursor_kept level s s' r k k' : (level <= 2)%nat -> stays s s' -> at_cursor level s r k k' -> at_cursor level s' r k k'.
Proof.
  intros Hl Hk (i & Hi & [Hc|(lo & t & c & Heq & Hlo & Hm & Hk' & Hhi & Hup & Hn & Hc)]); exists i; (split; [done|]); [by left|right].
  exists lo, t, c. do 6 (split; [done|]). split; [|done]. apply Hk; [|done]. destruct level as [|[|]]; simpl; lia.
Qed.

Lemma stk_kept s s' r k w : stays s s' -> stk 0 s r k w -> stk 0 s' r k w.
Proof.
  intros Hk (k1 & w1 & (k2 & w2 & (Hs & He & Hlen & Hw & Hc2) & Hc1 & H1) & Hc0 & H0').
  exists k1, w1. split; [|split; [eapply at_cursor_kept; [lia|done|done]|done]].
  exists k2, w2. split; [|split; [eapply at_cursor_kept; [lia|done|done]|done]].
  do 4 (split; [done|]). by eapply at_cursor_kept.
Qed.

Definition fuel : nat := Z.to_nat (eN - sN) + 1024.

Lemma stk_init s : exists k w, k <= sN /\ stk 0 s (InternalRangeIter_new root (sN * 4096) (eN * 4096)) k w /\ (w <= fuel)%nat.
Proof.
  set (r := InternalRangeIter_new _ _ _). set (k := sN / 262144 * 262144).
  assert (Hidle : forall l, (l <= 1)%nat -> at_cursor l s r k k).
  { intros l Hl. exists (TableRangeIter_new root 2 0 0 0 true true). split; [by destruct l as [|[|]]; [| |lia]|]. left. split; [by vm_compute|]. split; [lia|].
    intros m Hm. lia. }
  assert (Htop : stk_top s r k 1).
  { do 3 (split; [done|]). split; [done|].
    destruct (enter_table 2 s (set_iter r 2 (TableRangeIter_new root 2 0 0 0 true true)) 0 root) as (i & Hi & Hc); [lia|done|lia|done|done|unfold vis_up; lia|done|].
    exists i. split; [done|]. cbn in Hi. injection Hi as <-. set (i := TableRangeIter_new _ _ _ _ _ _ _) in *.
    assert (Hst : Z.of_nat (start_idx i) * 262144 = k).
    { pose proof (start_Z sN 2 true) as Hz. cbn [flags fst snd] in *. change (512 ^ Z.of_nat 2) with 262144 in Hz. unfold k. cbn [start_idx i TableRangeIter_new]. lia. }
    destruct Hc as [[Hex [_ Hgap]]|(lo & t & c & Heq & Hlo & Hm & Hk' & Hhi & Hup & Hn & Hc & Hgap)].
    - left. split; [done|]. split; [unfold k; lia|]. intros m Hmm. apply Hgap. split; [unfold k in Hmm; lia|]. change (span 2) with (2 ^ 27). lia.
    - right. exists lo, t, c. do 7 (split; [done|]). split; [done|]. assert (lo = 0) as -> by (change (span 2) with (2 ^ 27) in *; lia).
      assert (c = start_idx i) as -> by (symmetry; exact (f_equal cur_idx Heq)).
      change (512 ^ Z.of_nat 2) with 262144. split; [lia|]. intros m Hmm. lia. }
  exists k. eexists. split; [unfold k; lia|]. split.
  - exists k. eexists. split; [exists k; eexists; split; [exact Htop|]; split; [apply Hidle; lia|]|split; [apply Hidle; lia|]].
    + split; [unfold k; lia|]. split; [change (span 1) with 262144; unfold k; lia|done].
    + split; [unfold k; lia|]. split; [change (span 0) with 512; unfold k; lia|done].
  - unfold fuel, turns. change (span 1) with 262144. change (span 0) with 512. unfold k. lia.
Qed.

Lemma lent_leaf T n : lent T root 0 n = leaf T root n.
Proof. done. Qed.

Lemma range_next_spec (R : E -> PtState A -> Prop) s r k w : tree_ok (tables s) root -> stk 0 s r k w -> (w <= fuel)%nat ->
  wp (range_next r) (fun '(o, r') s' => s' = s /\
    match o with
    | Some (va, l) => exists m w', k <= m < 2 ^ 27 /\ 0 <= m /\ vis sN eN 0 m /\ va = m * 4096 /\ l = (l.1, pidx 0 m) /\
        node (tables s) root [pidx 2 m; pidx 1 m] = Some l.1 /\ is_Some (leaf (tables s) root m) /\
        (forall n, k <= n < m -> vis sN eN 0 n -> leaf (tables s) root n = None) /\
        stk 0 s r' (m + 1) w' /\ (w' <= w)%nat
    | None => forall n, k <= n < 2 ^ 27 -> vis sN eN 0 n -> leaf (tables s) root n = None
    end) R s.
Proof.
  intros Hok Hs Hw. unfold range_next. pose proof (stk_len 0 s r k w ltac:(lia) Hs) as (_ & Hsv & Hev & _). apply wp_bind.
  eapply wp_mono; [apply (next_spec (fun _ _ => False) s Hok _ r k w Hs)| |done].
  { rewrite Hsv, Hev. unfold fuel in *. replace ((eN * 4096 - sN * 4096) / 4096) with (eN - sN) by lia. lia. }
  intros [o r'] s' [-> Hy]. apply wp_ret. split; [done|]. destruct o as [[[idx va] l]|]; cbn [fmap option_fmap option_map].
  - destruct Hy as (m & w' & i & Hf & Hst & Hw' & _). destruct Hf as [Hfrom H0m Hmal Hvis -> -> [Hn Hl2] Hsome Hfirst]. exists m, w'.
    split; [done|]. split; [done|]. split; [done|]. split; [done|]. split; [by destruct l; simpl in *; subst|]. split; [done|]. split; [done|].
    split; [|done]. intros n Hn' Hv. apply Hfirst; [done|by rewrite Z.mod_1_r|done].
  - intros n Hn Hv. apply Hy; [done|by rewrite Z.mod_1_r|done].
Qed.

(** The loop visits the admitted valid entries in order; the body may change
    entries of pages and the allocator. *)
Lemma for_entries_spec (J : Z -> PtState A -> Prop) (R : E -> PtState A -> Prop) body :
  (forall k s, J k s -> tree_ok (tables s) root) ->
  (forall k m s t e, k <= m -> 0 <= m < 2 ^ 27 -> sN <= m < eN -> J k s -> vis sN eN 0 m -> node (tables s) root [pidx 2 m; pidx 1 m] = Some t ->
     leaf (tables s) root m = Some e -> (forall n, k <= n < m -> vis sN eN 0 n -> leaf (tables s) root n = None) ->
     wp (body (m * 4096) (t, pidx 0 m)) (fun _ s' => J (m + 1) s' /\ stays s s') R s) ->
  forall n s r k w, J k s -> stk 0 s r k w -> (w <= fuel)%nat -> (Z.to_nat (eN - Z.max k sN) < n)%nat ->
  wp (for_entries n r body) (fun _ s' => exists k', J k' s' /\ forall n, k' <= n < 2 ^ 27 -> vis sN eN 0 n -> leaf (tables s') root n = None) R s.
Proof.
  intros HJok Hbody n. induction n as [|n IH]; intros s r k w HJ Hs Hw Hn; [lia|]. cbn [for_entries]. apply wp_bind.
  eapply wp_mono; [apply (range_next_spec (fun _ _ => False) s r k w (HJok _ _ HJ) Hs Hw)| |done]. intros [o r'] s' [-> Ho].
  destruct o as [[va l]|]; [|apply wp_ret; by exists k].
  destruct Ho as (m & w' & Hkm & H0m & Hv & -> & -> & Hnode & [e He] & Hfirst & Hst & Hw'). cbn [fst] in Hnode.
  pose proof (vis0_in sN eN Hrange m ltac:(lia) Hv) as Hin. apply wp_bind.
  eapply wp_mono; [apply (Hbody k m s _ e); [lia|lia|done|done|done|exact Hnode|done|done]| |done].
  intros [] s1 [HJ1 Hk1]. apply (IH s1 r' (m + 1) w'); [done|by eapply stk_kept|lia|lia].
Qed.

Lemma range_of_entries_spec (J : Z -> PtState A -> Prop) (R : E -> PtState A -> Prop) body s :
  (forall k s, J k s -> tree_ok (tables s) root) ->
  (forall k m s t e, k <= m -> 0 <= m < 2 ^ 27 -> sN <= m < eN -> J k s -> vis sN eN 0 m -> node (tables s) root [pidx 2 m; pidx 1 m] = Some t ->
     leaf (tables s) root m = Some e -> (forall n, k <= n < m -> vis sN eN 0 n -> leaf (tables s) root n = None) ->
     wp (body (m * 4096) (t, pidx 0 m)) (fun _ s' => J (m + 1) s' /\ stays s s') R s) ->
  (forall k, k <= sN -> J k s) ->
  wp (range_of_entries_mut root (sN * 4096) (eN * 4096) body)
    (fun _ s' => exists k', J k' s' /\ forall n, k' <= n < 2 ^ 27 -> vis sN eN 0 n -> leaf (tables s') root n = None) R s.
Proof.
  intros HJok Hbody HJ. unfold range_of_entries_mut. apply wp_bind, wp_assert; [apply Z.leb_le; lia|].
  destruct (stk_init s) as (k & w & Hk & Hs & Hw). apply (for_entries_spec J R body HJok Hbody _ s _ k w); [by apply HJ|done|done|].
  replace ((eN * 4096 - sN * 4096) / 4096) with (eN - sN) by lia. lia.
Qed.
End iter.
