(* ===== verification/PtUnmap.v ===== *)
(** * Unmapping a range

    [unmap_range] erases the entries that the iterator visits; [vunmap] gives
    their pages back to the allocator as well. *)

From S2P Require Import Prelude Vfs Buddy PageTable PtTree PtOps PtRange PtIter.

#[local] Open Scope Z_scope.
#[local] Open Scope rw_scope.

Section unmap.
Context {A : Type} `{PageAllocLaws A} {lowest : Low}.
Implicit Types s : PtState A.

(** The pages that back the entries of [D] were allocated, each for one
    entry. *)
Record backed (root : Z) (s : PtState A) (V : Z -> Prop) (D : Z -> Prop) : Prop := {
  bk_page n e : D n -> leaf (tables s) root n = Some e -> pa_page (physical_addr e) /\ ~ V (physical_addr e) /\ tables s !! physical_addr e = None;
  bk_inj n m e e' : D n -> D m -> leaf (tables s) root n = Some e -> leaf (tables s) root m = Some e' -> physical_addr e = physical_addr e' -> n = m
}.

(** The admitted entries before page [k] are erased; [fr] tells whether their
    pages are free. *)
Record erased (root sN eN : Z) (fr : bool) (s : PtState A) (V : Z -> Prop) (s' : PtState A) (V' : Z -> Prop) (k : Z) : Prop := {
  er_ok : pt_ok s' root V';
  er_in n : 0 <= n < 2 ^ 27 -> n < k -> vis sN eN 0 n -> leaf (tables s') root n = None;
  er_out n : 0 <= n < 2 ^ 27 -> ~ (n < k /\ vis sN eN 0 n) -> leaf (tables s') root n = leaf (tables s) root n;
  er_dom t : is_Some (tables s' !! t) <-> is_Some (tables s !! t);
  er_pool q : V' q <-> V q \/ fr = true /\ exists n e, 0 <= n < 2 ^ 27 /\ n < k /\ vis sN eN 0 n /\ leaf (tables s) root n = Some e /\ physical_addr e = q;
  er_kept : kept root s s'
}.

Section range.
Context {E : Type} (root sN eN : Z).
Hypothesis Hrange : 0 <= sN <= eN /\ eN <= 2 ^ 27 /\ sN < 2 ^ 27.
Hypothesis Hlow : (low <= pidx 2 sN)%nat.

Lemma low_in m : sN <= m < 2 ^ 27 -> (low <= pidx 2 m)%nat.
Proof. intros Hm. etransitivity; [exact Hlow|]. apply pidx_mono; lia. Qed.

Lemma erased_refl fr s V k : pt_ok s root V -> k <= sN -> erased root sN eN fr s V s V k.
Proof.
  intros Hok Hk. split; [done| |done|done| |apply kept_refl].
  - intros n Hn Hnk Hv. pose proof (vis0_in sN eN Hrange n Hn Hv). lia.
  - intros q. split; [by left|]. intros [?|(_ & n & e & Hn & Hnk & Hv & _)]; [done|]. pose proof (vis0_in sN eN Hrange n Hn Hv). lia.
Qed.

(** One more entry is erased, and its page is free if [fr]. *)
Lemma erased_step fr s V s1 V1 k m e s2 V2 : erased root sN eN fr s V s1 V1 k -> k <= m -> 0 <= m < 2 ^ 27 -> vis sN eN 0 m ->
  leaf (tables s1) root m = Some e -> (forall n, k <= n < m -> vis sN eN 0 n -> leaf (tables s1) root n = None) ->
  pt_ok s2 root V2 -> leaf (tables s2) root m = None ->
  (forall n, 0 <= n < 2 ^ 27 -> n <> m -> leaf (tables s2) root n = leaf (tables s1) root n) ->
  (forall t, is_Some (tables s2 !! t) <-> is_Some (tables s1 !! t)) ->
  (forall q, V2 q <-> V1 q \/ fr = true /\ q = physical_addr e) -> kept root s1 s2 -> erased root sN eN fr s V s2 V2 (m + 1).
Proof.
  intros [_ Hin Hout Hdom Hpool Hkp] Hkm Hm Hv He Hclear Hok2 Hm2 Hne2 Hdom2 Hpool2 Hkp2.
  assert (Hes : leaf (tables s) root m = Some e) by (rewrite <- Hout; [done|done|lia]). split; [done| | | | |by eapply kept_trans].
  - intros n Hn Hnm Hvn. destruct (decide (n = m)) as [->|]; [done|]. rewrite Hne2 by done.
    destruct (decide (n < k)); [by apply Hin|]. apply Hclear; [lia|done].
  - intros n Hn Hnv. destruct (decide (n = m)) as [->|]; [destruct Hnv; split; [lia|done]|]. rewrite Hne2 by done. apply Hout; [done|].
    intros [? ?]. apply Hnv. split; [lia|done].
  - intros t. by rewrite Hdom2.
  - intros q. rewrite Hpool2, Hpool. split.
    + intros [[?|(Hf & n & e' & Hn & Hnk & Hx)]|[Hf ->]]; [by left|right; split; [done|]; exists n, e'; split; [done|]; split; [lia|done]|].
      right. split; [done|]. exists m, e. split; [done|]. split; [lia|done].
    + intros [?|(Hf & n & e' & Hn & Hnk & Hvn & He' & Hq)]; [by do 2 left|].
      destruct (decide (n = m)) as [->|]; [right; split; [done|]; congruence|].
      destruct (decide (n < k)) as [|Hge]; [left; right; split; [done|]; exists n, e'; done|].
      rewrite <- Hout in He' by (done || lia). rewrite Hclear in He' by (done || lia). done.
Qed.

Lemma erase_leaf s V m t : pt_ok s root V -> sN <= m < 2 ^ 27 -> node (tables s) root [pidx 2 m; pidx 1 m] = Some t ->
  let s' := mkPt (set_ent (tables s) t (pidx 0 m) 0) (pool s) in
  updated root s V s' V m None /\ kept root s s' /\ (forall u, is_Some (tables s' !! u) <-> is_Some (tables s !! u)).
Proof.
  intros Hok Hm Hn s'. split; [|split].
  - apply (write_leaf root s V s V m t 0); [by apply grew_refl|lia|by apply low_in|done].
  - apply (ud_kept _ _ _ _ _ _ _ (write_leaf root s V s V m t 0 (grew_refl _ _ _ Hok) ltac:(lia) (low_in m Hm) Hn)).
  - intros u. apply set_ent_dom.
Qed.

Lemma erased_kept s V s1 V1 k m e : erased root sN eN true s V s1 V1 k -> backed root s V (fun n => 0 <= n < 2 ^ 27 /\ vis sN eN 0 n) -> k <= m -> 0 <= m < 2 ^ 27 ->
  vis sN eN 0 m -> leaf (tables s1) root m = Some e -> pa_page (physical_addr e) /\ ~ V1 (physical_addr e) /\ tables s1 !! physical_addr e = None.
Proof.
  intros [_ Hin Hout Hdom Hpool _] [Hpg Hinj] Hkm Hm Hv He. assert (Hes : leaf (tables s) root m = Some e) by (rewrite <- Hout; [done|done|lia]).
  destruct (Hpg m e ltac:(done) Hes) as (Hp & HnV & Hnt). split; [done|]. split.
  - rewrite Hpool. intros [?|(_ & n & e' & Hn & Hnk & Hvn & He' & Hq)]; [done|].
    assert (n = m) by (eapply (Hinj n m); [split; [exact Hn|exact Hvn]|split; [exact Hm|exact Hv]|exact He'|exact Hes|exact Hq]). lia.
  - apply eq_None_not_Some. rewrite Hdom. by apply eq_None_not_Some.
Qed.

Lemma erased_all fr s V s' V' k : erased root sN eN fr s V s' V' k ->
  (forall n, k <= n < 2 ^ 27 -> vis sN eN 0 n -> leaf (tables s') root n = None) -> erased root sN eN fr s V s' V' (2 ^ 27).
Proof.
  intros [Hok Hin Hout Hdom Hpool Hkp] Hrest.
  assert (Hnone : forall n, 0 <= n < 2 ^ 27 -> k <= n -> vis sN eN 0 n -> leaf (tables s) root n = None).
  { intros n Hn Hk Hv. rewrite <- Hout by (done || lia). apply Hrest; [lia|done]. }
  split; [done| | |done| |done].
  - intros n Hn _ Hv. destruct (decide (n < k)); [by apply Hin|apply Hrest; [lia|done]].
  - intros n Hn Hnv. apply Hout; [done|]. intros [? ?]. apply Hnv. split; [lia|done].
  - intros q. rewrite Hpool. split; (intros [?|(Hf & n & e & Hn & Hnk & Hv & He & Hq)]; [by left|right; split; [done|]; exists n, e; split; [done|]; split; [|done]]); [lia|].
    destruct (decide (n < k)); [done|]. rewrite Hnone in He by (done || lia). done.
Qed.

Lemma unmap_range_spec (R : E -> PtState A -> Prop) s V : pt_ok s root V ->
  wp (unmap_range root (sN * 4096) ((eN - sN) * 4096)) (fun _ s' => erased root sN eN false s V s' V (2 ^ 27)) R s.
Proof.
  intros Hok. unfold unmap_range. replace (sN * 4096 + (eN - sN) * 4096) with (eN * 4096) by lia.
  eapply wp_mono; [apply (range_of_entries_spec root sN eN Hrange (fun k s' => erased root sN eN false s V s' V k) (fun _ _ => False))| |done].
  - intros k s1 Her. apply (er_ok _ _ _ _ _ _ _ _ _ Her).
  - intros k m s1 t e Hkm Hm Hin Her Hv Hn He Hclear. apply wp_write_entry. cbn [fst snd].
    destruct (erase_leaf s1 V m t (er_ok _ _ _ _ _ _ _ _ _ Her) ltac:(lia) Hn) as ([Hok2 Hl2 Hne2 _ _ _] & Hk2 & Hd2). split; [|exact (kp_node _ _ _ Hk2)].
    eapply erased_step; try done. intros q. split; [by left|]. by intros [?|[? _]].
  - intros k Hk. by apply erased_refl.
  - intros [] s' (k & Her & Hrest). by apply (erased_all _ _ _ _ _ k).
Qed.

Lemma vunmap_spec (R : E -> PtState A -> Prop) s V : pt_ok s root V -> backed root s V (fun n => 0 <= n < 2 ^ 27 /\ vis sN eN 0 n) ->
  wp (vunmap root (sN * 4096) ((eN - sN) * 4096)) (fun _ s' => exists V', erased root sN eN true s V s' V' (2 ^ 27)) R s.
Proof.
  intros Hok Hbk. unfold vunmap. replace (sN * 4096 + (eN - sN) * 4096) with (eN * 4096) by lia.
  eapply wp_mono; [apply (range_of_entries_spec root sN eN Hrange (fun k s' => exists V', erased root sN eN true s V s' V' k) (fun _ _ => False))| |done].
  - intros k s1 [V1 Her]. apply (er_ok _ _ _ _ _ _ _ _ _ Her).
  - intros k m s1 t e Hkm Hm Hin [V1 Her] Hv Hn He Hclear.
    destruct (erased_kept _ _ _ _ _ _ _ Her Hbk Hkm Hm Hv He) as (Hpg & HnV & Hnt).
    assert (Hent : ent (tables s1) t (pidx 0 m) = Some e).
    { unfold leaf in He. rewrite Hn in He. cbn [mbind option_bind] in He. destruct (ent (tables s1) t (pidx 0 m)) as [e'|]; [|done].
      cbn [mbind option_bind] in He. destruct (is_valid e'); [done|done]. }
    destruct (erase_leaf s1 V1 m t (er_ok _ _ _ _ _ _ _ _ _ Her) ltac:(lia) Hn) as ([[Ht2 Hp2 Ho2] Hl2 Hne2 _ _ _] & Hk2 & Hd2).
    apply wp_bind. eapply wp_read_entry; [exact Hent|]. apply wp_bind, wp_write_entry. cbn [fst snd]. unfold free_page. apply wp_on_pool.
    eapply wp_mono; [apply pa_free_spec; [exact Hp2|exact Hpg|exact HnV]| |done]. intros [] a Ha.
    assert (Hk3 : kept root s1 (mkPt (set_ent (tables s1) t (pidx 0 m) 0) a)) by (eapply kept_trans; [exact Hk2|by apply kept_same]). split; [|exact (kp_node _ _ _ Hk3)].
    exists (fun q => V1 q \/ q = physical_addr e). eapply erased_step; try done; [|intros q; tauto].
    split; [exact Ht2|exact Ha|]. intros u Hu. destruct (Ho2 u Hu) as [? ?]. split; [done|]. intros [?| ->]; [done|].
    apply Hd2 in Hu. rewrite Hnt in Hu. by destruct Hu.
  - intros k Hk. exists V. by apply erased_refl.
  - intros [] s' (k & [V' Her] & Hrest). exists V'. by apply (erased_all _ _ _ _ _ k).
Qed.
End range.
End unmap.
