(* ===== verification/PtVmap.v ===== *)
(** * Mapping a range to fresh pages

    [vmap] walks the range and maps each page to a page of the allocator.
    [vmapped] describes the outcome for the set of pages that are mapped: the
    whole range on success, and on failure what the rollback leaves. *)

From S2P Require Import Prelude Vfs Superblock Buddy BuddySpec PageCacheSpec PageTable PtTree PtOps PtRange PtIter PtUnmap.

#[local] Open Scope Z_scope.
#[local] Open Scope rw_scope.

Lemma vis_dec sN eN n : vis sN eN 0 n \/ ~ vis sN eN 0 n.
Proof. unfold vis, within. lia. Qed.

Section vmap.
Context {A : Type} `{PageAllocLaws A} {lowest : Low}.
Implicit Types s : PtState A.

(** The pages of [D] are mapped to pages that were available, and the rest is
    as before. *)
Record vmapped (root : Z) (perm : EntryPerm) (s0 : PtState A) (V0 : Z -> Prop) (s : PtState A) (V : Z -> Prop) (D : Z -> Prop) : Prop := {
  vm_ok : pt_ok s root V;
  vm_in n : D n -> leaf (tables s0) root n = None /\ exists e, leaf (tables s) root n = Some e /\ maps e (physical_addr e) perm /\
    V0 (physical_addr e) /\ ~ V (physical_addr e) /\ pa_page (physical_addr e) /\ tables s !! physical_addr e = None;
  vm_out n : 0 <= n < 2 ^ 27 -> ~ D n -> leaf (tables s) root n = leaf (tables s0) root n;
  vm_inj n m e e' : D n -> D m -> leaf (tables s) root n = Some e -> leaf (tables s) root m = Some e' -> physical_addr e = physical_addr e' -> n = m;
  vm_pages q : V0 q \/ is_Some (tables s0 !! q) <->
    V q \/ is_Some (tables s !! q) \/ exists n e, D n /\ leaf (tables s) root n = Some e /\ physical_addr e = q;
  vm_less q : V q -> V0 q;
  vm_kept : kept root s0 s
}.

Section range.
Context (root sN eN : Z) (perm : EntryPerm) (s0 : PtState A) (V0 : Z -> Prop).
Hypothesis Hrange : 0 <= sN < eN /\ eN <= 2 ^ 27.
Hypothesis Hend : eN mod 512 <> 0.
Hypothesis Hlow : (low <= pidx 2 sN)%nat.
Hypothesis Hperm : 0 <= perm < 32.

Definition upto (k n : Z) : Prop := sN <= n < k.
Definition Inv (k : Z) (s : PtState A) (V : Z -> Prop) : Prop := sN <= k <= eN /\ vmapped root perm s0 V0 s V (upto k).

(** A walk that stopped at page [k]. *)
Definition Stop (x : Z * Vfs.Sys.SysErrorKind) (s : PtState A) : Prop :=
  exists k V, Inv k s V /\ sN * 4096 <= x.1 <= k * 4096 /\ x.1 mod 4096 = 0 /\
    (x.2 = Vfs.Sys.OutOfMemory /\ (forall q, ~ V q) \/ x.2 = Vfs.Sys.InvalidArgument /\ k < eN /\ is_Some (leaf (tables s0) root k)).

Lemma Inv_start s V : pt_ok s root V -> s = s0 -> V = V0 -> Inv sN s V.
Proof.
  intros Hok -> ->. split; [lia|]. split; [done| |done| | |done|apply kept_refl].
  - intros n Hn. unfold upto in Hn. lia.
  - intros n m e e' Hn. unfold upto in Hn. lia.
  - intros q. split; [tauto|]. intros [?|[?|(n & e & Hn & _)]]; [tauto|tauto|]. unfold upto in Hn. lia.
Qed.

Lemma Inv_grew k s V s' V' : Inv k s V -> grew root s V s' V' -> Inv k s' V'.
Proof.
  intros [Hk [Hok Hin Hout Hinj Hpg Hless Hkp]] [Hok' Hl Hp Hle Hkp']. split; [done|].
  split; [done| | | | |auto|by eapply kept_trans].
  - intros n Hn. destruct (Hin n Hn) as [Hnone (e & He & Hm & HV & HnV & Hpp & Ht)]. split; [done|]. exists e. rewrite Hl. split; [done|]. split; [done|].
    split; [done|]. split; [auto|]. split; [done|]. destruct (tables s' !! physical_addr e) as [l|] eqn:Hs'; [|done].
    destruct (Hp (physical_addr e)) as [Hp1 _]. destruct Hp1 as [?|[? ?]]; [right; by eexists|done|congruence].
  - intros n Hn Hnd. rewrite Hl. by apply Hout.
  - intros n m e e'. rewrite !Hl. apply Hinj.
  - intros q. rewrite (Hpg q). specialize (Hp q).
    assert (Hex : (exists n e, upto k n /\ leaf (tables s') root n = Some e /\ physical_addr e = q) <->
      (exists n e, upto k n /\ leaf (tables s) root n = Some e /\ physical_addr e = q)).
    { split; intros (n & e & Hn & He & Hq); exists n, e; [rewrite Hl in He|rewrite Hl]; done. }
    tauto.
Qed.

Lemma wp_set_mapping {E} (R : E -> PtState A -> Prop) Q s t i pa f e0 : addr_ok pa = true -> ent (tables s) t i = Some e0 ->
  Q tt (mkPt (set_ent (tables s) t i (f (with_physical_addr pa e0))) (pool s)) ->
  wp (set_physical_addr (t, i) pa;; update_entry (t, i) f) Q R s.
Proof.
  intros Hpa He HQ. unfold set_physical_addr, update_entry. apply wp_bind, wp_bind, wp_assert; [done|]. apply wp_bind.
  eapply wp_read_entry; [exact He|]. apply wp_write_entry. apply wp_bind. eapply wp_read_entry; [cbn [tables fst snd]; by eapply ent_set_self|].
  apply wp_write_entry. cbn [tables pool fst snd]. by rewrite set_ent_twice.
Qed.

(** A page of the allocator backs page [k]. *)
Lemma Inv_step k s V pa e s1 s2 : Inv k s V -> k < eN -> V pa -> pa_page pa -> maps e pa perm -> leaf (tables s) root k = None ->
  tables s1 = tables s -> pt_ok s1 root (fun q => V q /\ q <> pa) -> updated root s1 (fun q => V q /\ q <> pa) s2 (fun q => V q /\ q <> pa) k (Some e) ->
  (forall u, is_Some (tables s2 !! u) <-> is_Some (tables s1 !! u)) -> Inv (k + 1) s2 (fun q => V q /\ q <> pa).
Proof.
  intros [Hk [Hok Hin Hout Hinj Hpg Hless Hkp]] Hke HV Hpp Hm Hnone Ht Hok1 [Hok2 Hl2 Hne2 _ _ Hkp2] Hd.
  assert (Hpae : physical_addr e = pa) by apply Hm.
  assert (Hold : forall n, upto (k + 1) n -> n <> k -> upto k n /\ leaf (tables s2) root n = leaf (tables s) root n).
  { intros n Hn Hne. unfold upto in *. split; [lia|]. rewrite Hne2, Ht; [done|lia|done]. }
  assert (Hfree : tables s !! pa = None).
  { apply eq_None_not_Some. intros Hs. by destruct (po_own _ _ _ Hok pa Hs). }
  assert (Hother : forall n e', upto k n -> leaf (tables s) root n = Some e' -> physical_addr e' <> pa).
  { intros n e' Hn He' Heq. destruct (Hin n Hn) as [_ (e1 & He1 & _ & _ & HnV & _)]. rewrite He1 in He'. injection He' as ->. congruence. }
  split; [lia|]. split; [done| | | | | |].
  - intros n Hn. destruct (decide (n = k)) as [->|Hne].
    + split; [rewrite <- Hout; [done|lia|unfold upto; lia]|]. exists e. rewrite Hpae. split; [done|]. split; [done|]. split; [auto|]. split; [tauto|]. split; [done|].
      apply eq_None_not_Some. rewrite Hd, Ht. by apply eq_None_not_Some.
    + destruct (Hold n Hn Hne) as [Hn' Hleq]. destruct (Hin n Hn') as [? (e1 & He1 & Hm1 & HV1 & HnV1 & Hp1 & Ht1)]. split; [done|]. exists e1.
      rewrite Hleq. do 3 (split; [done|]). split; [tauto|]. split; [done|]. apply eq_None_not_Some. rewrite Hd, Ht. by apply eq_None_not_Some.
  - intros n Hn Hnd. rewrite Hne2, Ht; [|done|intros ->; apply Hnd; unfold upto; lia]. apply Hout; [done|]. unfold upto in *. lia.
  - intros n m e1 e2 Hn Hm' He1 He2 Heq. destruct (decide (n = k)) as [->|Hne], (decide (m = k)) as [->|Hne']; [done| | |].
    + destruct (Hold m Hm' Hne') as [Hm2 Hleq]. rewrite Hleq in He2. destruct (Hother m e2 Hm2 He2). congruence.
    + destruct (Hold n Hn Hne) as [Hn2 Hleq]. rewrite Hleq in He1. destruct (Hother n e1 Hn2 He1). congruence.
    + destruct (Hold n Hn Hne) as [Hn2 Hl1]. destruct (Hold m Hm' Hne') as [Hm2 Hl2']. rewrite Hl1 in He1. rewrite Hl2' in He2. eauto.
  - intros q. rewrite (Hpg q), Hd, Ht. split.
    + intros [HVq|[Hq|(n & e1 & Hn & He1 & Hq)]]; [|tauto|].
      * destruct (decide (q = pa)) as [->|]; [|tauto]. do 2 right. exists k, e. split; [unfold upto; lia|done].
      * do 2 right. exists n, e1. split; [unfold upto in *; lia|]. split; [|done]. rewrite Hne2, Ht; [done|unfold upto in Hn; lia|unfold upto in Hn; lia].
    + intros [[? ?]|[?|(n & e1 & Hn & He1 & Hq)]]; [tauto|tauto|]. destruct (decide (n = k)) as [->|Hne].
      * left. congruence.
      * destruct (Hold n Hn Hne) as [Hn' Hleq]. do 2 right. exists n, e1. rewrite Hleq in He1. done.
  - intros q [? ?]. auto.
  - eapply kept_trans; [exact Hkp|]. eapply kept_trans; [by apply kept_same|exact Hkp2].
Qed.

Lemma vmap_entry_spec k s V t : sN <= k < eN -> Inv k s V -> node (tables s) root [pidx 2 k; pidx 1 k] = Some t ->
  wp (vmap_entry (arch_perm (Z.lor perm PERM_VALID)) (k * 4096) (t, pidx 0 k))
    (fun _ s' => (exists V', Inv (k + 1) s' V') /\ kept root s s') Stop s.
Proof.
  intros Hk HI Hn. pose proof HI as [_ [Hok _ Hout _ _ _ _]]. assert (Hlk : (low <= pidx 2 k)%nat) by (etransitivity; [exact Hlow|apply pidx_mono; lia]).
  destruct (tree_ent _ root [pidx 2 k; pidx 1 k] t (pidx 0 k) (po_tree _ _ _ Hok)) as [e He]; [simpl; lia|done|apply pidx_lt|].
  assert (Hleaf : leaf (tables s) root k = if is_valid e then Some e else None) by (unfold leaf; rewrite Hn; cbn [mbind option_bind]; by rewrite He).
  unfold vmap_entry. apply wp_bind. eapply wp_read_entry; [exact He|]. destruct (is_valid e).
  { apply wp_fail. exists k, V. split; [done|]. cbn [fst snd]. split; [lia|]. split; [by rewrite Z.mod_mul|]. right. split; [done|]. split; [lia|].
    rewrite <- Hout; [by rewrite Hleaf|lia|unfold upto; lia]. }
  apply wp_bind. unfold alloc_zeroed_page. apply wp_on_pool. eapply wp_mono; [apply pa_alloc_spec, (po_pool _ _ _ Hok)| |done]. intros [pa|] a.
  - intros (HV & Hpp & Ha). destruct (pa_page_addr pa Hpp) as [Hao Hpr]. pose proof (vmap_entry_maps pa e perm Hao Hpr Hperm) as Hm.
    eapply wp_set_mapping; [done|exact He|]. cbn [tables pool].
    assert (Hok1 : pt_ok (mkPt (tables s) a) root (fun q => V q /\ q <> pa)).
    { split; [apply (po_tree _ _ _ Hok)|done|]. intros u Hu. destruct (po_own _ _ _ Hok u Hu). split; [done|tauto]. }
    pose proof (write_leaf root _ _ _ _ k t (set_perm (arch_perm (Z.lor perm PERM_VALID)) (with_physical_addr pa e)) (grew_refl _ _ _ Hok1) ltac:(lia) Hlk Hn) as Hu.
    replace (is_valid (set_perm (arch_perm (Z.lor perm PERM_VALID)) (with_physical_addr pa e))) with true in Hu by (symmetry; apply Hm).
    split; [eexists; eapply (Inv_step k s V pa _ (mkPt (tables s) a)); [done|lia|done|done|exact Hm|done|done|exact Hok1|exact Hu|]|].
    + intros u. apply set_ent_dom.
    + apply (kept_trans _ _ (mkPt (tables s) a)); [by apply kept_same|exact (ud_kept _ _ _ _ _ _ _ Hu)].
  - intros [HnV Ha]. apply wp_fail. exists k, V. split.
    + eapply Inv_grew; [exact HI|]. destruct Hok as [Ht Hp Ho]. by split; [|..|apply kept_same].
    + cbn [fst snd]. split; [lia|]. split; [by rewrite Z.mod_mul|]. by left.
Qed.

Lemma walk_vmap_spec : pt_ok s0 root V0 ->
  wp (walk_range_mut_recursive 2 root 0 (sN * 4096) (eN * 4096) true true (vmap_entry (arch_perm (Z.lor perm PERM_VALID))))
    (fun _ s' => exists V', Inv eN s' V') Stop s0.
Proof.
  intros Hok. assert (Hfirst : is_first_of sN 0 = true) by (apply Z.leb_le; lia).
  assert (Hlast : is_last_of eN 2 0 = true) by (apply Z.leb_le; change (span 2) with (2 ^ 27); lia).
  assert (Hstart : clamp sN eN 0 = sN) by (unfold clamp; lia).
  assert (Hstop : clamp sN eN (0 + span 2) = eN) by (unfold clamp; change (span 2) with (2 ^ 27); lia).
  pose proof (walk_range_spec root sN eN Inv Stop (vmap_entry (arch_perm (Z.lor perm PERM_VALID))) Hrange Hend Hlow) as Hw.
  specialize (Hw ltac:(intros k s V [_ Hv]; apply (vm_ok _ _ _ _ _ _ _ Hv)) Inv_grew).
  specialize (Hw ltac:(intros k s V va HI HV Hva Hm; exists k, V; split; [done|]; split; [done|]; split; [done|]; by left) vmap_entry_spec).
  specialize (Hw 2%nat ltac:(lia) 0 s0 V0 root ltac:(lia) ltac:(done) ltac:(done) ltac:(lia)).
  rewrite Hfirst, Hlast, Hstart in Hw.
  eapply wp_mono; [apply Hw; [change (span 2) with (2 ^ 27); lia|by apply Inv_start|done]| |done].
  intros [] s' [[V' HI] _]. exists V'. by rewrite Hstop in HI.
Qed.

(** What the rollback leaves. *)
Lemma rollback_spec k s V bN s' V' : Inv k s V -> sN <= bN <= k -> sN < 2 ^ 27 -> erased root sN bN true s V s' V' (2 ^ 27) ->
  vmapped root perm s0 V0 s' V' (fun n => upto k n /\ ~ vis sN bN 0 n).
Proof.
  intros [Hk [Hok Hin Hout Hinj Hpg Hless Hkp]] Hb Hs [Hok' Ein Eout Edom Epool Hkp'].
  assert (Hvis : forall n, 0 <= n < 2 ^ 27 -> vis sN bN 0 n -> upto k n).
  { intros n Hn Hv. pose proof (vis0_in sN bN ltac:(lia) n Hn Hv). unfold upto. lia. }
  assert (Hsame : forall n, upto k n -> ~ vis sN bN 0 n -> leaf (tables s') root n = leaf (tables s) root n).
  { intros n Hn Hv. apply Eout; [unfold upto in Hn; lia|tauto]. }
  assert (Hdom : forall t, tables s !! t = None -> tables s' !! t = None) by (intros t; rewrite !eq_None_not_Some, Edom; done).
  split; [done| | | | | |by eapply kept_trans].
  - intros n [Hn Hv]. destruct (Hin n Hn) as [Hnone (e & He & Hm & HV & HnV & Hpp & Ht)]. split; [done|]. exists e. rewrite Hsame by done.
    do 3 (split; [done|]). split; [|split; [done|by apply Hdom]]. rewrite Epool. intros [?|(_ & m & e' & Hm' & _ & Hvm & He' & Heq)]; [done|].
    assert (m = n) as -> by (eapply (Hinj m n); [by apply Hvis|done|exact He'|exact He|done]). done.
  - intros n Hn Hnd. destruct (vis_dec sN bN n) as [Hv|Hv].
    + rewrite Ein by (done || lia). by destruct (Hin n (Hvis n Hn Hv)) as [-> _].
    + rewrite Eout by (done || tauto). apply Hout; tauto.
  - intros n m e e' [Hn Hvn] [Hm Hvm]. rewrite !Hsame by done. by apply Hinj.
  - intros q. rewrite (Hpg q), Epool, Edom. split.
    + intros [?|[?|(n & e & Hn & He & Hq)]]; [tauto|tauto|]. destruct (vis_dec sN bN n) as [Hv|Hv].
      * left. right. split; [done|]. exists n, e. split; [unfold upto in Hn; lia|]. split; [unfold upto in Hn; lia|done].
      * do 2 right. exists n, e. rewrite Hsame by done. done.
    + intros [[?|(_ & n & e & Hn & _ & Hv & He & Hq)]|[?|(n & e & [Hn Hv] & He & Hq)]]; [tauto| |tauto|].
      * do 2 right. exists n, e. split; [by apply Hvis|done].
      * do 2 right. exists n, e. rewrite Hsame in He by done. done.
  - intros q. rewrite Epool. intros [?|(_ & n & e & Hn & _ & Hv & He & Hq)]; [auto|].
    destruct (Hin n (Hvis n Hn Hv)) as [_ (e' & He' & _ & HV & _)]. congruence.
Qed.

(** A failure leaves some pages [D] of the range mapped. *)
Definition vmap_failed (err : Vfs.Sys.SysErrorKind) (s : PtState A) : Prop :=
  exists V D, (forall n, D n -> sN <= n < eN) /\ (forall n, D n \/ ~ D n) /\ vmapped root perm s0 V0 s V D /\
    (err = Vfs.Sys.OutOfMemory \/ err = Vfs.Sys.InvalidArgument /\ exists n, sN <= n < eN /\ is_Some (leaf (tables s0) root n)).

Lemma vmap_spec : pt_ok s0 root V0 ->
  wp (vmap root (sN * 4096) ((eN - sN) * 4096) perm)
    (fun _ s' => exists V', vmapped root perm s0 V0 s' V' (fun n => sN <= n < eN)) vmap_failed s0.
Proof.
  intros Hok. pose proof (walk_vmap_spec Hok) as Hw. unfold vmap. replace (sN * 4096 + (eN - sN) * 4096) with (eN * 4096) by lia.
  unfold wp in *. destruct (walk_range_mut_recursive 2 root 0 (sN * 4096) (eN * 4096) true true _ s0) as [[[]|[brk err]|] s']; [|destruct Hw as (k & V & HI & Hb & Hbm & He)|done].
  { destruct Hw as [V' [_ Hv]]. by exists V'. }
  cbn [fst snd] in *. pose proof HI as [Hk Hvm].
  pose proof (vunmap_spec (E := Vfs.Sys.SysErrorKind) root sN (brk / 4096) ltac:(lia) Hlow (fun _ _ => False) s' V (vm_ok _ _ _ _ _ _ _ Hvm)) as Hun.
  assert (Hcase : wp (assert_ (brk mod 4096 =? 0);; assert_ (sN * 4096 <=? brk);; vunmap root (sN * 4096) (brk - sN * 4096);; fail err)
    (fun (_ : unit) _ => False) vmap_failed s').
  { apply wp_bind, wp_assert; [by apply Z.eqb_eq|]. apply wp_bind, wp_assert; [apply Z.leb_le; lia|]. apply wp_bind.
    replace (brk - sN * 4096) with ((brk / 4096 - sN) * 4096) by lia. eapply wp_mono; [apply Hun| |done].
    - split.
      + intros n e [Hn Hv] He'. pose proof (vis0_in sN (brk / 4096) ltac:(lia) n Hn Hv).
        destruct (vm_in _ _ _ _ _ _ _ Hvm n ltac:(unfold upto; lia)) as [_ (e1 & He1 & Hm1 & _ & HnV & Hpp & Ht)]. rewrite He1 in He'. by injection He' as ->.
      + intros n m e e' [Hn Hv] [Hm Hv']. pose proof (vis0_in sN (brk / 4096) ltac:(lia) n Hn Hv). pose proof (vis0_in sN (brk / 4096) ltac:(lia) m Hm Hv').
        apply (vm_inj _ _ _ _ _ _ _ Hvm); unfold upto; lia.
    - intros [] s2 [V2 Her]. apply wp_fail. exists V2. eexists. split; [|split; [|split; [by eapply (rollback_spec k s' V (brk / 4096)); [done|lia|lia|]|]]].
      + intros n [Hn _]. unfold upto in Hn. lia.
      + intros n. cbn beta. unfold upto. destruct (vis_dec sN (brk / 4096) n); destruct (decide (sN <= n < k)); tauto.
      + destruct He as [[-> _]|(-> & Hlt & Hs)]; [by left|right]. split; [done|]. exists k. split; [lia|done]. }
  unfold wp in Hcase. destruct ((assert_ _;; _) s') as [[u|e'|] s2]; [|exact Hcase|done]. by destruct Hcase.
Qed.
End range.

(** ** Mapping one page *)

Lemma vmapped_none root perm s V s' V' : grew root s V s' V' -> vmapped root perm s V s' V' (fun _ => False).
Proof.
  intros [Hok Hl Hp Hle Hk]. split; [done|done| |done| |done|done].
  - intros n _ _. apply Hl.
  - intros q. rewrite <- (Hp q). split; [tauto|]. intros [?|[?|(? & ? & [] & _)]]; tauto.
Qed.

(** A page that was taken and is given back. *)
Lemma give_back {E} root perm s V pa a0 s1 V1 (Q : unit -> PtState A -> Prop) (R : E -> PtState A -> Prop) : pt_ok s root V -> V pa -> pa_page pa ->
  grew root (mkPt (tables s) a0) (fun q => V q /\ q <> pa) s1 V1 ->
  (forall s2 V2, vmapped root perm s V s2 V2 (fun _ => False) -> Q tt s2) -> wp (free_page pa) Q R s1.
Proof.
  intros Hok HV Hpp [Hok1 Hl Hp Hle Hk] HQ. unfold free_page. apply wp_on_pool.
  assert (HnV : ~ V1 pa) by (intros Hx; by destruct (Hle _ Hx)).
  eapply wp_mono; [apply pa_free_spec; [apply (po_pool _ _ _ Hok1)|done|done]| |done]. intros [] a Ha.
  apply (HQ _ (fun q => V1 q \/ q = pa)), vmapped_none. split.
  - split; [apply (po_tree _ _ _ Hok1)|done|]. intros u Hu. destruct (po_own _ _ _ Hok1 u Hu) as [? ?]. split; [done|].
    intros [?| ->]; [done|]. destruct (proj1 (Hp pa) (or_intror Hu)) as [[_ ?]|[l Hx]]; [done|].
    destruct (po_own _ _ _ Hok pa) as [_ ?]; [by exists l|done].
  - exact Hl.
  - intros q. cbn [tables]. specialize (Hp q). cbn [tables] in Hp. destruct (decide (q = pa)) as [->|]; [tauto|]. tauto.
  - intros q [Hq| ->]; [by destruct (Hle _ Hq)|done].
  - split; apply Hk.
Qed.

Lemma vmapped_one root n perm s V pa e a s1 V1 : pt_ok s root V -> V pa -> pa_page pa -> leaf (tables s) root n = None ->
  updated root (mkPt (tables s) a) (fun q => V q /\ q <> pa) s1 V1 n (Some e) -> maps e pa perm -> vmapped root perm s V s1 V1 (fun m => m = n).
Proof.
  intros Hok HV Hpp Hnone [Hok1 Hl Hne Hp Hle Hk] Hm. cbn [tables] in *.
  assert (Hpa : physical_addr e = pa) by apply Hm.
  assert (Hnt : tables s1 !! pa = None).
  { apply eq_None_not_Some. intros Hx. destruct (proj1 (Hp pa) (or_intror Hx)) as [[_ ?]|Hs]; [done|]. by destruct (po_own _ _ _ Hok pa Hs). }
  split; [done| |auto| | | |].
  - intros m ->. split; [done|]. exists e. rewrite Hpa. split; [done|]. split; [done|]. split; [done|]. split; [|done]. intros Hx. by destruct (Hle _ Hx) as [_ []].
  - by intros m m' e1 e2 -> ->.
  - intros q. specialize (Hp q). cbn [tables] in Hp. split.
    + intros [HVq|Hq]; [|tauto]. destruct (decide (q = pa)) as [->|]; [do 2 right; by exists n, e|]. tauto.
    + intros [?|[?|(m & e1 & -> & He1 & <-)]]; [tauto|tauto|]. left. congruence.
  - intros q Hq. by destruct (Hle _ Hq).
  - split; apply Hk.
Qed.

Lemma vmap_page_spec root n perm s V : pt_ok s root V -> 0 <= n < 2 ^ 27 -> (low <= pidx 2 n)%nat -> is_vmap_area (n * 4096) = true -> 0 <= perm < 32 ->
  wp (vmap_page root (n * 4096) perm)
    (fun pa s' => exists V' e, vmapped root perm s V s' V' (fun m => m = n) /\ leaf (tables s') root n = Some e /\ physical_addr e = pa)
    (fun err s' => exists V', vmapped root perm s V s' V' (fun _ => False) /\
       (err = Vfs.Sys.OutOfMemory \/ err = Vfs.Sys.InvalidArgument /\ is_Some (leaf (tables s) root n))) s.
Proof.
  intros Hok Hn Hlow Hva Hperm. unfold vmap_page. apply wp_bind, wp_assert; [done|]. apply wp_bind. unfold alloc_zeroed_page.
  apply wp_on_pool. eapply wp_mono; [apply pa_alloc_spec, (po_pool _ _ _ Hok)| |done]. intros [pa|] a.
  2:{ intros [_ Ha]. apply wp_fail. exists V. split; [apply vmapped_none|by left]. destruct Hok as [Ht Hp Ho]. by split; [|..|apply kept_same]. }
  intros (HV & Hpp & Ha). destruct (pa_page_addr pa Hpp) as [Hao Hpr].
  assert (Hok1 : pt_ok (mkPt (tables s) a) root (fun q => V q /\ q <> pa)).
  { split; [apply (po_tree _ _ _ Hok)|done|]. intros u Hu. destruct (po_own _ _ _ Hok u Hu). split; [done|tauto]. }
  apply wp_bind, wp_catch. eapply wp_mono; [apply (try_map_spec _ root _ (n * 4096) pa perm Hok1); [lia|by rewrite Z.div_mul|done|done|done]| |].
  - rewrite Z.div_mul by lia. cbn [tables]. intros [l|] s1 (V1 & Ho); cbn beta iota in *.
    + destruct Ho as [Hnone (e & Hu & Hm)]. apply wp_ret. exists V1, e. split; [|split; [apply Hu|apply Hm]]. by eapply (vmapped_one root n perm s V pa e a s1 V1).
    + destruct Ho as [Hsome Hg]. apply wp_bind. apply (give_back root perm s V pa a s1 V1); [done|done|done|exact Hg|]. intros s2 V2 Hv. apply wp_fail. exists V2. split; [done|by right].
  - intros err s1 (-> & V1 & Hg & _). apply wp_bind. apply (give_back root perm s V pa a s1 V1); [done|done|done|exact Hg|]. intros s2 V2 Hv. apply wp_fail. exists V2. split; [done|by left].
Qed.

(** ** Mapping a range to a range *)

(** The pages [sN .. k] are mapped to the pages from [pa] on. *)
Record range_mapped (root sN : Z) (perm : EntryPerm) (pa : Z) (s0 : PtState A) (V0 : Z -> Prop) (s : PtState A) (V : Z -> Prop) (k : Z) : Prop := {
  rm_ok : pt_ok s root V;
  rm_in n : sN <= n < k -> exists e, leaf (tables s) root n = Some e /\ maps e (pa + (n - sN) * 4096) perm;
  rm_out n : 0 <= n < 2 ^ 27 -> ~ (sN <= n < k) -> leaf (tables s) root n = leaf (tables s0) root n;
  rm_pages : same_pages s0 V0 s V
}.

Lemma range_mapped_step root sN perm pa s0 V0 s V k s' V' e : range_mapped root sN perm pa s0 V0 s V k -> sN <= k -> 0 <= sN -> k < 2 ^ 27 ->
  updated root s V s' V' k (Some e) -> maps e (pa + (k - sN) * 4096) perm -> range_mapped root sN perm pa s0 V0 s' V' (k + 1).
Proof.
  intros [_ Hin Hout Hpg] Hk Hs Hk2 [Hok' Hl Hne Hpg' _ _] Hm. split; [done| | |].
  - intros n Hn. destruct (decide (n = k)) as [->|]; [by exists e|]. rewrite Hne by lia. apply Hin. lia.
  - intros n Hn Hnk. rewrite Hne by lia. apply Hout; lia.
  - intros q. rewrite (Hpg' q). apply Hpg.
Qed.

(** After a failure the pages of the range that were mapped are erased, and a
    page outside the range is as before. *)
Definition map_range_failed (root sN eN : Z) (s0 : PtState A) (V0 : Z -> Prop) (err : Vfs.Sys.SysErrorKind) (s : PtState A) : Prop :=
  err = Vfs.Sys.OutOfMemory /\ exists V, pt_ok s root V /\ same_pages s0 V0 s V /\
    forall n, 0 <= n < 2 ^ 27 -> ~ (sN <= n < eN) -> leaf (tables s) root n = leaf (tables s0) root n.

Lemma map_pages_spec root sN eN perm pa s0 V0 : 0 <= sN < eN -> eN <= 2 ^ 27 -> (low <= pidx 2 sN)%nat -> 0 <= perm < 32 ->
  (forall k, sN <= k < eN -> addr_ok (pa + (k - sN) * 4096) = true /\ 0 <= pa + (k - sN) * 4096 < 2 ^ 64) ->
  forall n k s V, range_mapped root sN perm pa s0 V0 s V k -> sN <= k -> k + Z.of_nat n = eN ->
  wp (map_pages n root (sN * 4096) (k * 4096) (pa + (k - sN) * 4096) (k - sN) perm)
    (fun _ s' => exists V', range_mapped root sN perm pa s0 V0 s' V' eN) (map_range_failed root sN eN s0 V0) s.
Proof.
  intros Hs He Hlow Hperm Haddr n. induction n as [|n IH]; intros k s V HI Hk Hn; cbn [map_pages].
  { apply wp_ret. exists V. by replace eN with k by lia. }
  apply wp_bind. destruct (Haddr k ltac:(lia)) as [Ha1 Ha2].
  apply wp_catch, wp_bind. eapply wp_mono; [apply (map_spec s root V (k * 4096) _ perm (rm_ok _ _ _ _ _ _ _ _ _ HI)); [lia|rewrite Z.div_mul by lia; etransitivity; [exact Hlow|apply pidx_mono; lia]|done|done|done]| |].
  - intros l s' (V' & e & Hu & Hm). apply wp_ret. rewrite Z.div_mul in Hu by lia.
    pose proof (range_mapped_step root sN perm pa s0 V0 s V k s' V' e HI Hk ltac:(lia) ltac:(lia) Hu Hm) as HI'.
    replace (k * 4096 + 4096) with ((k + 1) * 4096) by lia. replace (pa + (k - sN) * 4096 + 4096) with (pa + (k + 1 - sN) * 4096) by lia.
    replace (k - sN + 1) with (k + 1 - sN) by lia. apply (IH (k + 1) s' V' HI'); lia.
  - intros err s' (-> & V' & Hg & _). apply wp_bind. destruct HI as [Hok Hin Hout Hpg].
    replace (4096 * (k - sN)) with ((k - sN) * 4096) by lia.
    eapply wp_mono; [apply (unmap_range_spec root sN k ltac:(lia) Hlow (fun _ _ => False) s' V' (gw_ok _ _ _ _ _ Hg))| |done].
    intros [] s2 [Hok2 Ein Eout Edom _ _]. apply wp_fail. split; [done|]. exists V'. split; [done|]. split.
    + intros q. rewrite Edom. rewrite (gw_pages _ _ _ _ _ Hg q). apply Hpg.
    + intros m Hm Hmk. rewrite Eout; [|done|intros [_ Hv]; pose proof (vis0_in sN k ltac:(lia) m Hm Hv); lia].
      rewrite (gw_leaves _ _ _ _ _ Hg). apply Hout; [done|lia].
Qed.

Lemma map_range_spec root sN eN perm pa s V : pt_ok s root V -> 0 <= sN < eN -> eN <= 2 ^ 27 -> (low <= pidx 2 sN)%nat -> 0 <= perm < 32 ->
  (forall k, sN <= k < eN -> addr_ok (pa + (k - sN) * 4096) = true /\ 0 <= pa + (k - sN) * 4096 < 2 ^ 64) ->
  wp (map_range root (sN * 4096) pa ((eN - sN) * 4096) perm)
    (fun _ s' => exists V', range_mapped root sN perm pa s V s' V' eN) (map_range_failed root sN eN s V) s.
Proof.
  intros Hok Hs He Hlow Hperm Haddr. unfold map_range. rewrite Z.div_mul by lia.
  pose proof (map_pages_spec root sN eN perm pa s V Hs He Hlow Hperm Haddr (Z.to_nat (eN - sN)) sN s V) as Hw.
  replace (pa + (sN - sN) * 4096) with pa in Hw by lia. replace (sN - sN) with 0 in Hw by lia. apply Hw; [|lia|lia].
  split; [done|lia|done|done].
Qed.
End vmap.

(** * Page tables over the buddy allocator

    The kernel's page lists and buddy allocator keep the promises of
    [PageAllocLaws], so the specifications of the page tables hold over them.
    A second instance, a plain list of pages, runs small examples. *)

(** ** The kernel's allocator *)

(** [BuddyAllocator::alloc_zeroed_page] and [dealloc_page] of one CPU. *)
#[global] Instance kernel_pages : PageAlloc (PageCacheList * BuddyAllocatorImpl) := {
  pa_alloc := global_alloc_by_order 0;
  pa_free p := global_free_by_order p 0
}.

Definition kernel_pages_ok (a : PageCacheList * BuddyAllocatorImpl) (V : Z -> Prop) : Prop :=
  exists F, cache_inv a.1 a.2 F ∅ /\ forall p, V p <-> page_ok p /\ available a.1 F p.

Lemma page_ok_addr p : page_ok p -> addr_ok p = true /\ 0 <= p < 2 ^ 64.
Proof.
  intros (Ha & Hlo & Hhi). unfold aligned in Ha. change (block_size 0) with 4096 in *. unfold addr_ok, DIRECT_MAPPING_END_VADDR, DIRECT_MAPPING_SIZE, DIRECT_MAPPING_BASE_VADDR in *.
  rewrite andb_true_iff, Z.eqb_eq, negb_true_iff, Z.eqb_neq. lia.
Qed.

Lemma page_ok_inj a p : page_ok a -> page_ok p -> in_block 0 a p -> p = a.
Proof.
  intros (Ha & _) (Hp & _) Hin. symmetry. by apply (in_block_0_eq a p p); [| | |apply in_block_0_self].
Qed.

#[global, program] Instance kernel_pages_laws : PageAllocLaws (PageCacheList * BuddyAllocatorImpl) := {
  pa_page := page_ok;
  pa_ok := kernel_pages_ok
}.
Next Obligation. intros p Hp. by apply page_ok_addr. Qed.
Next Obligation.
  intros a V V' (F & Hi & HV) Heq. exists F. split; [done|]. intros p. by rewrite <- Heq.
Qed.
Next Obligation.
  intros [c st] V (F & Hi & HV). cbn [fst snd] in *. unfold pa_alloc, kernel_pages, global_alloc_by_order. apply wp_bind, wp_lifted, wp_assert; [done|].
  cbn [Nat.eqb]. eapply wp_mono; [by apply (cache_alloc_spec c st F ∅)| |done]. intros [a|] [c' st'].
  - intros (Hpg & Hav & F' & Hi' & Hav' & _). split; [rewrite HV; split; [done|apply Hav, in_block_0_self]|]. split; [done|]. exists F'. split; [done|].
    intros p. cbn [fst snd] in *. rewrite HV, Hav'. split.
    + intros [[? ?] Hne]. split; [done|]. split; [done|]. intros Hin. by apply Hne, page_ok_inj.
    + intros (Hp & ? & Hn). split; [done|]. intros ->. apply Hn, in_block_0_self.
  - intros [Hno (F' & [Hi' Hav' _ _ _])]. split; [intros p; rewrite HV; intros [_ Hp]; by apply (Hno p)|]. exists F'. split; [done|]. intros p. by rewrite HV, Hav'.
Qed.
Next Obligation.
  intros [c st] V p (F & Hi & HV) Hp Hn. cbn [fst snd] in *. unfold pa_free, kernel_pages, global_free_by_order. apply wp_bind, wp_lifted, wp_assert; [done|].
  cbn [Nat.eqb]. rewrite HV in Hn.
  assert (Hav : ~ available c F p) by tauto.
  eapply wp_mono; [apply (cache_dealloc_spec c st F ∅ p Hi Hp)| |done].
  - intros q Hq Haq. apply Hav. destruct Hp as (Hal & _). destruct Haq as [Hc|(b & Hb & Hin)].
    + left. eapply covers_page; [apply (b_inv _ _ _ (ci_inv _ _ _ _ Hi))|exact Hal|exact Hq|exact Hc].
    + right. exists b. split; [done|]. destruct (ci_page _ _ _ _ Hi b (or_introl Hb)) as (Hbal & _).
      rewrite (in_block_0_eq p b q); [apply in_block_0_self|done..].
  - apply not_elem_of_empty.
  - intros _ [c' st'] (F' & Hi' & Hav' & _). cbn [fst snd] in *. exists F'. split; [done|]. intros q. cbn [fst snd]. rewrite HV, Hav'. split.
    + intros [[? ?]| ->]; [tauto|]. split; [done|]. right. apply in_block_0_self.
    + intros [Hq [?|Hin]]; [tauto|]. right. by apply page_ok_inj.
Qed.

(** ** A list of pages *)

#[global] Instance list_pages : PageAlloc (list Z) := {
  pa_alloc l := match l with [] => (Ok None, []) | p :: l => (Ok (Some p), l) end;
  pa_free p l := (Ok tt, p :: l)
}.

(** ** An empty table *)

Lemma zero_sub root i : sub {[root := replicate 512%nat 0]} root i = None.
Proof. unfold sub, ent. rewrite lookup_singleton_eq. cbn [mbind option_bind]. apply (zero_table_invalid i physical_addr). Qed.

Lemma zero_node root p : p <> [] -> node {[root := replicate 512%nat 0]} root p = None.
Proof.
  induction p as [|i p IH] using rev_ind; [done|]. intros _. rewrite node_snoc. destruct (decide (p = [])) as [->|Hne]; [simpl; apply zero_sub|]. by rewrite IH.
Qed.

Lemma zero_tree root : tree_ok {[root := replicate 512%nat 0]} root.
Proof.
  split.
  - intros t l. rewrite lookup_singleton_Some. intros [_ <-]. apply length_replicate.
  - intros p t _ Hn. destruct (decide (p = [])) as [->|Hne]; [|by rewrite zero_node in Hn]. injection Hn as <-. by rewrite lookup_singleton_eq.
  - intros p q t _ _ Hp Hq. destruct (decide (p = [])) as [->|Hne]; [|by rewrite zero_node in Hp].
    destruct (decide (q = [])) as [->|Hne]; [done|by rewrite zero_node in Hq].
  - intros p t i e _ Hp He Hv. destruct (decide (p = [])) as [->|Hne]; [|by rewrite zero_node in Hp]. injection Hp as <-.
    pose proof (zero_sub root i) as Hz. unfold sub in Hz. rewrite He in Hz. cbn [mbind option_bind] in Hz. by rewrite Hv in Hz.
Qed.

Section new.
Context {A : Type} `{PageAllocLaws A}.

(** [PageTable::try_new] over an allocator and no other table. *)
Lemma new_table_spec {E} (R : E -> PtState A -> Prop) (a : A) V : pa_ok a V ->
  wp try_alloc (fun o s =>
    match o with
    | Some root => V root /\ pt_ok s root (fun q => V q /\ q <> root) /\ forall n, leaf (tables s) root n = None
    | None => forall p, ~ V p
    end) R (mkPt ∅ a).
Proof.
  intros Ha. unfold try_alloc, alloc_zeroed_page. apply wp_bind, wp_on_pool. eapply wp_mono; [by apply pa_alloc_spec| |done]. intros [p|] a'.
  - intros (HV & Hpg & Hp'). apply wp_bind. unfold wp at 1, modify. apply wp_ret. cbn [tables pool]. split; [done|].
    change (<[p := replicate 512%nat 0]> ∅) with ({[p := replicate 512%nat 0]} : gmap Z (list Z)). split.
    + split; [apply zero_tree|done|]. intros t [l Hl]. cbn [tables] in Hl. apply lookup_singleton_Some in Hl as [<- _]. split; [done|tauto].
    + intros n. unfold leaf. by rewrite zero_node.
  - intros [Hn _]. by apply wp_ret.
Qed.
End new.
