(* ===== verification/PtTheorems.v ===== *)
(** * What the page tables guarantee

    A page table refines a partial map from page numbers to physical pages
    with permissions.  The operations on one page and on ranges update it as
    they should, failures leave it as it was, and no page is lost, for ranges
    that do not end together with a table.  The last theorems are about the
    ranges that do. *)

From S2P Require Import Prelude Vfs Superblock Buddy BuddySpec PageCacheSpec BuddyTheorems PageTable PtTree PtOps PtRange PtIter PtUnmap PtVmap.

#[local] Open Scope Z_scope.
#[local] Open Scope rw_scope.

(** ** The abstraction *)

(** What a table says about page [n]. *)
Definition translate {A} (s : PtState A) (root n : Z) : option (Z * EntryPerm) := (fun e => (physical_addr e, perm_of e)) <$> leaf (tables s) root n.

(** The pages of the address space. *)
Definition page_num (n : Z) : Prop := 0 <= n < 2 ^ 27.

Section laws.
Context {A : Type} `{PageAllocLaws A}.

(** The whole address space. *)
#[local] Instance all_entries : Low := 0%nat.
Implicit Types s : PtState A.

(** In [s'] the table [root] translates as [f] does, and every page that [s]
    could use for its tables is still available or used for one. *)
Definition refines (root : Z) (s : PtState A) (V : Z -> Prop) (s' : PtState A) (f : Z -> option (Z * EntryPerm)) : Prop :=
  exists V', pt_ok s' root V' /\ same_pages s V s' V' /\ forall n, page_num n -> translate s' root n = f n.

Lemma translate_eq s s' root n m : leaf (tables s') root n = leaf (tables s) root m -> translate s' root n = translate s root m.
Proof. intros Hl. unfold translate. by rewrite Hl. Qed.

Lemma translate_maps s root n e pa perm : leaf (tables s) root n = Some e -> maps e pa perm -> translate s root n = Some (pa, Z.lor perm PERM_VALID).
Proof. intros Hl (_ & Ha & Hp). unfold translate. rewrite Hl. cbn. by rewrite Ha, Hp. Qed.

Lemma grew_refines root s V s' V' : grew root s V s' V' -> refines root s V s' (translate s root).
Proof. intros [Hok Hl Hp _ _]. exists V'. split; [done|]. split; [done|]. intros n _. apply translate_eq, Hl. Qed.

(** C17. [map]: on success exactly the page of [va] is mapped, to [pa] with the
    permissions that were asked for; the only failure is that no page is left
    for a table, and then every translation is as before.  No page is lost. *)
Theorem map_refines s root V va pa perm (Hok : pt_ok s root V) (Hva : 0 <= va < 2 ^ 39)
  (Hpa : addr_ok pa = true) (Hpr : 0 <= pa < 2 ^ 64) (Hperm : 0 <= perm < 32) :
  wp (map root va pa perm)
    (fun _ s' => refines root s V s' (fun n => if n =? va / PGSIZE then Some (pa, Z.lor perm PERM_VALID) else translate s root n))
    (fun err s' => err = Vfs.Sys.OutOfMemory /\ refines root s V s' (translate s root)) s.
Proof.
  eapply wp_mono; [by apply (map_spec s root V va pa perm Hok Hva (Nat.le_0_l _))| |].
  - intros l s' (V' & e & [Hok' Hl Hne Hp _ _] & Hm). exists V'. split; [done|]. split; [done|]. intros n Hn.
    destruct (Z.eqb_spec n (va / 4096)) as [->|]; [by eapply translate_maps|]. by apply translate_eq, Hne.
  - intros err s' [-> (V' & Hg & _)]. split; [done|]. by eapply grew_refines.
Qed.

(** [map] and then [unmap] of the same page: [unmap] returns the physical
    address, and a page that was not mapped before is not mapped after. *)
Theorem map_unmap_roundtrip s root V va pa perm (Hok : pt_ok s root V) (Hva : 0 <= va < 2 ^ 39)
  (Hpa : addr_ok pa = true) (Hpr : 0 <= pa < 2 ^ 64) (Hperm : 0 <= perm < 32) (Hfree : translate s root (va / PGSIZE) = None) :
  wp (map root va pa perm;; unmap root va)
    (fun o s' => o = Some pa /\ refines root s V s' (translate s root))
    (fun err s' => err = Vfs.Sys.OutOfMemory /\ refines root s V s' (translate s root)) s.
Proof.
  apply wp_bind. eapply wp_mono; [by apply (map_spec s root V va pa perm Hok Hva (Nat.le_0_l _))| |].
  - intros l s1 (V1 & e & [Hok1 Hl Hne Hp _ _] & Hm). eapply wp_mono; [by apply (unmap_spec (fun _ _ => False) s1 root V1 va Hok1 Hva (Nat.le_0_l _))| |done].
    rewrite Hl. intros o s2 [-> [Hok2 Hl2 Hne2 Hp2 _ _]]. split; [cbn; f_equal; apply Hm|]. exists V1. split; [done|].
    split; [intros q; by rewrite (Hp2 q)|]. intros n Hn. destruct (decide (n = va / 4096)) as [->|Hnv].
    + rewrite Hfree. unfold translate. by rewrite Hl2.
    + apply translate_eq. by rewrite Hne2, Hne.
  - intros err s' [-> (V' & Hg & _)]. split; [done|]. by eapply grew_refines.
Qed.

(** [map_range] maps a range of pages to a range of physical pages; when
    no page is left for a table it fails, and pages outside the range are as
    before. *)
Theorem map_range_refines s root V sN eN pa perm (Hok : pt_ok s root V) (Hr : 0 <= sN < eN /\ eN <= 2 ^ 27) (Hperm : 0 <= perm < 32)
  (Hpa : 0 < pa /\ pa mod PGSIZE = 0 /\ pa + (eN - sN) * PGSIZE <= 2 ^ 64) :
  wp (map_range root (sN * PGSIZE) pa ((eN - sN) * PGSIZE) perm)
    (fun _ s' => refines root s V s' (fun n => if (sN <=? n) && (n <? eN) then Some (pa + (n - sN) * PGSIZE, Z.lor perm PERM_VALID) else translate s root n))
    (fun err s' => err = Vfs.Sys.OutOfMemory /\ exists f, refines root s V s' f /\ forall n, n < sN \/ eN <= n -> f n = translate s root n) s.
Proof.
  eapply wp_mono; [apply (map_range_spec root sN eN perm pa s V Hok); [lia|lia|apply Nat.le_0_l|done|]| |].
  - intros k Hk. split; [|lia]. unfold addr_ok. rewrite andb_true_iff, Z.eqb_eq, negb_true_iff, Z.eqb_neq. lia.
  - intros [] s' (V' & [Hok' Hin Hout Hp]). exists V'. split; [done|]. split; [done|]. intros n Hn.
    destruct (Z.leb_spec sN n), (Z.ltb_spec n eN); cbn [andb]; try (apply translate_eq, Hout; [done|lia]).
    destruct (Hin n ltac:(lia)) as (e & He & Hm). by eapply translate_maps.
  - intros err s' (-> & V' & Hok' & Hp & Hout). split; [done|].
    exists (fun n => if (sN <=? n) && (n <? eN) then translate s' root n else translate s root n). split.
    + exists V'. split; [done|]. split; [done|]. intros n Hn. destruct (Z.leb_spec sN n), (Z.ltb_spec n eN); cbn [andb]; [done|apply translate_eq, Hout; [done|lia]..].
    + intros n Hn. destruct (Z.leb_spec sN n), (Z.ltb_spec n eN); cbn [andb]; [lia|done..].
Qed.

(** The pages of [D] are mapped to distinct pages [f] that were available, the
    others as before, and every page is available, a table or in use by [D]. *)
Definition mapped_fresh (root : Z) (perm : EntryPerm) (s : PtState A) (V : Z -> Prop) (s' : PtState A) (D : Z -> Prop) : Prop :=
  exists V' f, pt_ok s' root V' /\
    (forall n, D n -> translate s root n = None /\ translate s' root n = Some (f n, Z.lor perm PERM_VALID) /\ V (f n) /\ ~ V' (f n)) /\
    (forall n m, D n -> D m -> f n = f m -> n = m) /\
    (forall n, page_num n -> ~ D n -> translate s' root n = translate s root n) /\
    (forall q, V q \/ is_Some (tables s !! q) <-> V' q \/ is_Some (tables s' !! q) \/ exists n, D n /\ f n = q).

Lemma vmapped_fresh root perm s V s' V' D : vmapped root perm s V s' V' D -> mapped_fresh root perm s V s' D.
Proof.
  intros [Hok Hin Hout Hinj Hpg _ _]. exists V', (fun n => default 0 (physical_addr <$> leaf (tables s') root n)).
  split; [done|]. split; [|split; [|split]].
  - intros n Hn. destruct (Hin n Hn) as [Hnone (e & He & Hm & HV & HnV & _)]. split; [unfold translate; by rewrite Hnone|].
    split; [|by rewrite He]. rewrite He. cbn. by eapply translate_maps.
  - intros n m Hn Hm. destruct (Hin n Hn) as [_ (e & He & _)], (Hin m Hm) as [_ (e' & He' & _)]. rewrite He, He'. cbn. eauto.
  - intros n Hn Hd. by apply translate_eq, Hout.
  - intros q. rewrite (Hpg q). assert (Hex : (exists n e, D n /\ leaf (tables s') root n = Some e /\ physical_addr e = q) <->
      (exists n, D n /\ default 0 (physical_addr <$> leaf (tables s') root n) = q)); [|tauto].
    split; [intros (n & e & Hn & He & Hq); exists n; by rewrite He|].
    intros (n & Hn & Hq). destruct (Hin n Hn) as [_ (e & He & _)]. exists n, e. by rewrite He in Hq.
Qed.

(** C18. [vmap] of a range that does not end together with a table: on success
    every page of the range is mapped to a page of its own; it fails when no
    page is left or a page of the range is mapped already, and then the pages
    that stay mapped are in the range.  No page is lost in either case. *)
Theorem vmap_refines s root V sN eN perm (Hok : pt_ok s root V) (Hr : 0 <= sN < eN /\ eN <= 2 ^ 27) (Hend : eN mod 512 <> 0) (Hperm : 0 <= perm < 32) :
  wp (vmap root (sN * PGSIZE) ((eN - sN) * PGSIZE) perm)
    (fun _ s' => mapped_fresh root perm s V s' (fun n => sN <= n < eN))
    (fun err s' => (err = Vfs.Sys.OutOfMemory \/ err = Vfs.Sys.InvalidArgument /\ exists n, sN <= n < eN /\ is_Some (translate s root n)) /\
       exists D, (forall n, D n -> sN <= n < eN) /\ mapped_fresh root perm s V s' D) s.
Proof.
  eapply wp_mono; [by apply (vmap_spec root sN eN perm s V Hr Hend (Nat.le_0_l _))| |].
  - intros [] s' [V' Hv]. by eapply vmapped_fresh.
  - intros err s' (V' & D & HD & _ & Hv & He). split; [|exists D; split; [done|by eapply vmapped_fresh]].
    destruct He as [?|(? & n & Hn & e & Hl)]; [by left|right]. split; [done|]. exists n. split; [done|]. unfold translate. by rewrite Hl.
Qed.

Lemma vmapped_backed root perm s V s' V' sN eN : 0 <= sN < eN /\ eN <= 2 ^ 27 -> vmapped root perm s V s' V' (fun n => sN <= n < eN) ->
  backed root s' V' (fun n => 0 <= n < 2 ^ 27 /\ vis sN eN 0 n).
Proof.
  intros Hr [Hok Hin Hout Hinj Hpg _ _]. split.
  - intros n e [Hn Hv] He. pose proof (vis0_in sN eN ltac:(lia) n Hn Hv) as Hb. destruct (Hin n Hb) as [_ (e' & He' & _ & _ & HnV & Hp & Ht)].
    rewrite He' in He. by injection He as ->.
  - intros n m e e' [Hn Hv] [Hm Hv']. pose proof (vis0_in sN eN ltac:(lia) n Hn Hv). pose proof (vis0_in sN eN ltac:(lia) m Hm Hv'). by apply Hinj.
Qed.

(** [vmap] and then [vunmap] of the same range: every translation is as
    before, and every page of the range is given back. *)
Theorem vmap_vunmap_roundtrip s root V sN eN perm (Hok : pt_ok s root V) (Hr : 0 <= sN < eN /\ eN <= 2 ^ 27) (Hend : eN mod 512 <> 0) (Hperm : 0 <= perm < 32) :
  wp (vmap root (sN * PGSIZE) ((eN - sN) * PGSIZE) perm;; vunmap root (sN * PGSIZE) ((eN - sN) * PGSIZE))
    (fun _ s' => refines root s V s' (translate s root))
    (fun err s' => err = Vfs.Sys.OutOfMemory \/ err = Vfs.Sys.InvalidArgument) s.
Proof.
  apply wp_bind. eapply wp_mono; [by apply (vmap_spec root sN eN perm s V Hr Hend (Nat.le_0_l _))| |].
  - intros [] s1 [V1 Hv]. pose proof (vmapped_backed root perm s V s1 V1 sN eN Hr Hv) as Hbk. destruct Hv as [Hok1 Hin Hout Hinj Hpg _ _].
    eapply wp_mono; [apply (vunmap_spec root sN eN ltac:(lia) (Nat.le_0_l _) (fun _ _ => False) s1 V1 Hok1 Hbk)| |done].
    intros [] s2 [V2 [Hok2 Ein Eout Edom Epool _]]. exists V2. split; [done|]. split.
    + intros q. rewrite Epool, Edom, (Hpg q). split.
      * intros [[?|(_ & n & e & Hn & _ & Hv & He & Hq)]|?]; [tauto| |tauto]. pose proof (vis0_in sN eN ltac:(lia) n Hn Hv). do 2 right. by exists n, e.
      * intros [?|[?|(n & e & Hn & He & Hq)]]; [tauto|tauto|]. left. right. split; [done|]. exists n, e.
        pose proof (vis0_all sN eN ltac:(lia) n Hend Hn). split; [lia|]. split; [lia|done].
    + intros n Hn. destruct (decide (sN <= n < eN)) as [Hi|Ho].
      * pose proof (vis0_all sN eN ltac:(lia) n Hend Hi). destruct (Hin n Hi) as [Hnone _]. unfold translate. rewrite Hnone, Ein; [done|done|unfold page_num in Hn; lia|done].
      * apply translate_eq. rewrite Eout; [by apply Hout|done|]. intros [_ Hv]. pose proof (vis0_in sN eN ltac:(lia) n Hn Hv). done.
  - intros err s' (V' & D & _ & _ & _ & [?|[? _]]); tauto.
Qed.
End laws.

(** ** The kernel's first table *)

Definition kernel_boot : PtState (PageCacheList * BuddyAllocatorImpl) := mkPt ∅ (PageCacheList_new, booted).
Definition first_table : outcome Vfs.Sys.SysErrorKind (option Z) * PtState (PageCacheList * BuddyAllocatorImpl) := try_alloc kernel_boot.

Lemma first_table_ok : exists root s V, first_table = (Ok (Some root), s) /\ pt_ok s root V /\ forall n, translate s root n = None.
Proof.
  destruct booted_ok as (F & HF & _).
  pose proof (new_table_spec (E := Vfs.Sys.SysErrorKind) (fun _ _ => False) (PageCacheList_new, booted)
    (fun p => page_ok p /\ available PageCacheList_new F p)) as Hn.
  assert (Hok : pa_ok (PageCacheList_new, booted) (fun p => page_ok p /\ available PageCacheList_new F p)) by (exists F; split; [exact (empty_cache booted F HF)|done]).
  specialize (Hn Hok). unfold wp in Hn.
  assert (Hs : match fst first_table with Ok (Some _) => true | _ => false end = true) by (vm_compute; reflexivity).
  unfold first_table, kernel_boot in *. destruct (try_alloc _) as [[[root|]|e|] s]; [|done..].
  destruct Hn as (HV & Hpt & Hl). eexists root, s, _. split; [reflexivity|]. split; [exact Hpt|]. intros n. unfold translate. by rewrite Hl.
Qed.

Lemma map_refines_witness : exists root s V, first_table = (Ok (Some root), s) /\
  wp (map root 0x10000000 0x10000000 PERM_WRITABLE)
    (fun _ s' => refines root s V s' (fun n => if n =? 0x10000000 / PGSIZE then Some (0x10000000, Z.lor PERM_WRITABLE PERM_VALID) else translate s root n))
    (fun err s' => err = Vfs.Sys.OutOfMemory /\ refines root s V s' (translate s root)) s.
Proof.
  destruct first_table_ok as (root & s & V & Hf & Hok & _). exists root, s, V. split; [exact Hf|].
  apply (map_refines s root V 0x10000000 0x10000000 PERM_WRITABLE Hok); [lia|reflexivity|lia|unfold PERM_WRITABLE; lia].
Defined.

Lemma map_unmap_roundtrip_witness : exists root s V, first_table = (Ok (Some root), s) /\
  wp (map root 0x10000000 0x10000000 PERM_WRITABLE;; unmap root 0x10000000)
    (fun o s' => o = Some 0x10000000 /\ refines root s V s' (translate s root))
    (fun err s' => err = Vfs.Sys.OutOfMemory /\ refines root s V s' (translate s root)) s.
Proof.
  destruct first_table_ok as (root & s & V & Hf & Hok & Hn). exists root, s, V. split; [exact Hf|].
  apply (map_unmap_roundtrip s root V 0x10000000 0x10000000 PERM_WRITABLE Hok); [lia|reflexivity|lia|unfold PERM_WRITABLE; lia|apply Hn].
Defined.

Lemma map_range_refines_witness : exists root s V, first_table = (Ok (Some root), s) /\
  wp (map_range root (0xD0000 * PGSIZE) 0xD0000000 ((0xD8000 - 0xD0000) * PGSIZE) with_rw)
    (fun _ s' => refines root s V s' (fun n => if (0xD0000 <=? n) && (n <? 0xD8000) then Some (0xD0000000 + (n - 0xD0000) * PGSIZE, Z.lor with_rw PERM_VALID) else translate s root n))
    (fun err s' => err = Vfs.Sys.OutOfMemory /\ exists f, refines root s V s' f /\ forall n, n < 0xD0000 \/ 0xD8000 <= n -> f n = translate s root n) s.
Proof.
  destruct first_table_ok as (root & s & V & Hf & Hok & _). exists root, s, V. split; [exact Hf|].
  apply (map_range_refines s root V 0xD0000 0xD8000 0xD0000000 with_rw Hok); [lia|vm_compute; split; [discriminate|reflexivity]|split; [lia|split; [reflexivity|lia]]].
Defined.

Lemma vmap_refines_witness : exists root s V, first_table = (Ok (Some root), s) /\
  wp (vmap root (0x200009 * PGSIZE) ((0x20000a - 0x200009) * PGSIZE) with_rw)
    (fun _ s' => mapped_fresh root with_rw s V s' (fun n => 0x200009 <= n < 0x20000a))
    (fun err s' => (err = Vfs.Sys.OutOfMemory \/ err = Vfs.Sys.InvalidArgument /\ exists n, 0x200009 <= n < 0x20000a /\ is_Some (translate s root n)) /\
       exists D, (forall n, D n -> 0x200009 <= n < 0x20000a) /\ mapped_fresh root with_rw s V s' D) s.
Proof.
  destruct first_table_ok as (root & s & V & Hf & Hok & _). exists root, s, V. split; [exact Hf|].
  apply (vmap_refines s root V 0x200009 0x20000a with_rw Hok); [lia|discriminate|vm_compute; split; [discriminate|reflexivity]].
Defined.

Lemma vmap_vunmap_roundtrip_witness : exists root s V, first_table = (Ok (Some root), s) /\
  wp (vmap root (0x200009 * PGSIZE) ((0x20000a - 0x200009) * PGSIZE) with_rw;; vunmap root (0x200009 * PGSIZE) ((0x20000a - 0x200009) * PGSIZE))
    (fun _ s' => refines root s V s' (translate s root))
    (fun err s' => err = Vfs.Sys.OutOfMemory \/ err = Vfs.Sys.InvalidArgument) s.
Proof.
  destruct first_table_ok as (root & s & V & Hf & Hok & _). exists root, s, V. split; [exact Hf|].
  apply (vmap_vunmap_roundtrip s root V 0x200009 0x20000a with_rw Hok); [lia|discriminate|vm_compute; split; [discriminate|reflexivity]].
Defined.

(** ** Ranges that end together with a table *)

(** A root at the start of memory and the pages after it. *)
Definition tiny (pages : nat) : PtState (list Z) :=
  mkPt {[0xD0000000 := replicate 512%nat 0]} ((fun i => 0xD0000000 + PGSIZE * Z.of_nat i) <$> seq 1 pages).

(** The end index of a range is 0 when the range ends together with a
    table.  [vmap] of 2 MB at an aligned address succeeds and maps no page of
    the range, and [vmap] of the last 64 KB before an address that is a
    multiple of 1 GB panics. *)
Theorem range_end_wraps :
  let run := vmap 0xD0000000 0x200000000 0x200000 with_rw (tiny 8) in
  fst run = Ok tt /\ (forall n, n ∈ seqZ 0x200000 512 -> translate (snd run) 0xD0000000 n = None) /\
  fst (vmap 0xD0000000 0x1ffff0000 0x10000 with_rw (tiny 8)) = Panic.
Proof.
  intros run. split; [vm_compute; reflexivity|]. split; [|vm_compute; reflexivity].
  assert (Hall : forallb (fun n => match translate (snd run) 0xD0000000 n with None => true | _ => false end) (seqZ 0x200000 512) = true) by (vm_compute; reflexivity).
  intros n Hn. rewrite forallb_forall in Hall. specialize (Hall n). rewrite <- list_elem_of_In in Hall. specialize (Hall Hn).
  by destruct (translate (snd run) 0xD0000000 n).
Qed.

(** A [vmap] that fails for want of a table inside the first gigabyte it
    enters takes the start of the range for the place where it stopped, and
    the rollback leaves the first page mapped. *)
Theorem rollback_keeps_page :
  exists s' p, vmap 0xD0000000 0x23FFFF000 0x2000 with_rw (tiny 3) = (Err Vfs.Sys.OutOfMemory, s') /\
    translate (tiny 3) 0xD0000000 0x23FFFF = None /\ translate s' 0xD0000000 0x23FFFF = Some (p, Z.lor with_rw PERM_VALID).
Proof. eexists _, _. split; [vm_compute; reflexivity|]. split; vm_compute; reflexivity. Qed.
