(* ===== verification/Vm.v ===== *)
(** * Virtual memory of tasks (src/kernel/src/mmu/{vm,vm_area}.rs)

    A virtual memory is a page table, a list of areas and the size of the part
    that holds stack and heap.  All of them share one physical memory: the
    tables, the allocator and the contents of the pages that are handed out. *)

From S2P Require Import Prelude Bytes Vfs Buddy PageTable.
Import Vfs.

#[local] Open Scope Z_scope.
#[local] Open Scope rw_scope.

(** ** Physical memory

    Pages that are handed out hold zeros first. *)

Definition zero_page : list Z := replicate (Z.to_nat PGSIZE) 0.

Record Memory (A : Type) : Type := mkMem { frames : gmap Z (list Z); allocator : A }.
Arguments mkMem {A} frames allocator.
Arguments frames {A} m.
Arguments allocator {A} m.

#[export] Instance memory_pages {A} `{PageAlloc A} : PageAlloc (Memory A) := {
  pa_alloc m :=
    let (r, a) := pa_alloc (allocator m) in
    (r, mkMem (match r with Ok (Some p) => <[p := zero_page]> (frames m) | _ => frames m end) a);
  pa_free p m := let (r, a) := pa_free p (allocator m) in (r, mkMem (delete p (frames m)) a)
}.

(** ** Addresses (mmu/mod.rs, arch/riscv64/memlayout.rs) *)

Definition usize (z : Z) : Z := z mod 2 ^ 64.

Definition TASK_TRAPFRAME_BASE : Z := 0x200009000.
Definition USER_BASE_VADDR : Z := 0x300000000.
Definition USER_END_VADDR : Z := USER_BASE_VADDR + 1024 * 1024 * 1024.
Definition PGSIZE_MASK : Z := Z.shiftl 1 12 - 1.

Definition pg_round_up (addr : Z) : Z := Z.land (usize (addr + PGSIZE - 1)) (Z.lnot (PGSIZE - 1)).
Definition pg_round_down (addr : Z) : Z := Z.land addr (Z.lnot (PGSIZE - 1)).

Definition is_valid_phy_addr (addr : Z) : bool := (DIRECT_MAPPING_BASE_VADDR <=? addr) && (addr <? DIRECT_MAPPING_END_VADDR).

(** ** Areas *)

Record VmArea : Type := mkArea { va : Z; area_size : Z; perm : EntryPerm }.

Definition end_va (a : VmArea) : Z := usize (va a + area_size a).
Definition area_contains (a : VmArea) (addr : Z) : bool := (va a <=? addr) && (addr <? end_va a).

(** An end that overflows overlaps nothing. *)
Definition is_overlap (list : list VmArea) (start_va sz : Z) : bool :=
  if 2 ^ 64 <=? start_va + sz then false
  else existsb (fun area => (start_va <? end_va area) && (va area <? start_va + sz)) list.

Definition area_add (list : list VmArea) (vm_area : VmArea) : option (Datatypes.list VmArea) :=
  if is_overlap list (va vm_area) (area_size vm_area) then None else Some (list ++ [vm_area]).

Fixpoint remove_by_va (list : list VmArea) (addr : Z) : option (VmArea * Datatypes.list VmArea) :=
  match list with
  | [] => None
  | area :: list' =>
    if area_contains area addr then Some (area, list')
    else (fun '(found, rest) => (found, area :: rest)) <$> remove_by_va list' addr
  end.

(** ** One virtual memory *)

Record VMInner : Type := mkVM { pg_table : Z; user_space_size : Z; area_list : list VmArea }.

Definition set_space_size (n : Z) (v : VMInner) : VMInner := mkVM (pg_table v) n (area_list v).
Definition set_areas (l : list VmArea) (v : VMInner) : VMInner := mkVM (pg_table v) (user_space_size v) l.

(** A trapframe is 35 registers of 8 bytes. *)
Definition Trapframe : Type := list Z.
Definition Trapframe_new : Trapframe := replicate 35 0.
Definition trapframe_bytes (tf : Trapframe) : list Z := concat (le_encode 8 <$> tf).

Section vm.
Context {A : Type} `{PageAlloc A}.

#[local] Notation PM E := (M (PtState (Memory A)) E).
#[local] Notation KM := (M (PtState (Memory A)) Sys.SysErrorKind).
#[local] Notation VM := (M (VMInner * PtState (Memory A)) Sys.SysErrorKind).

(** The kernel reads and writes pages through their direct mapping. *)
Definition load_page {E} (pa : Z) : PM E (list Z) := do s <- get; unwrap (frames (pool s) !! pa).

Definition store_page {E} (pa : Z) (bytes : list Z) : PM E unit :=
  modify (fun s => mkPt (tables s) (mkMem (<[pa := bytes]> (frames (pool s))) (allocator (pool s)))).

Definition create_empty : KM VMInner :=
  do o <- try_alloc;
  match o with
  | Some pg_table => ret (mkVM pg_table 0 [])
  | None => fail Sys.OutOfMemory
  end.

Definition with_kernel_vm (kernel_vm : Z) : KM VMInner :=
  do vm <- create_empty;
  copy_from_kernel (pg_table vm) kernel_vm;;
  ret vm.

(** [kmap] unwraps what can fail. *)
Definition kmap (kernel_vm v pa size : Z) (p : EntryPerm) : KM unit :=
  assert_ ((v mod PGSIZE =? 0) && (pa mod PGSIZE =? 0) && (size mod PGSIZE =? 0));;
  catch (map_range kernel_vm v pa size p) (fun _ => panic).

Definition va2pa (addr : Z) : VM (option Z) :=
  do v <- get_focus;
  do entry <- lift (get_entry (pg_table v) addr);
  match entry with
  | Some l => do e <- lift (read_entry l); ret (Some (physical_addr e))
  | None => ret None
  end.

Definition uvalloc (new_sz : Z) (p : EntryPerm) (lazy : bool) : VM unit :=
  do v <- get_focus;
  let old_sz_aligned := pg_round_up (user_space_size v) in
  let new_sz_aligned := pg_round_up new_sz in
  if USER_END_VADDR <? new_sz_aligned then fail Sys.OutOfMemory
  else if old_sz_aligned =? new_sz_aligned then ret tt
  else
    (if old_sz_aligned <? new_sz_aligned then
       if lazy then assert_ (p =? with_rw)
       else lift (vmap (pg_table v) (USER_BASE_VADDR + old_sz_aligned) (new_sz_aligned - old_sz_aligned) (Z.lor p PERM_USER))
     else lift (vunmap (pg_table v) (USER_BASE_VADDR + new_sz_aligned) (old_sz_aligned - new_sz_aligned)));;
    put_focus (set_space_size new_sz v).

Definition uvgrow_page (p : EntryPerm) : VM unit :=
  do v <- get_focus; uvalloc (usize (user_space_size v + PGSIZE)) p false.

Definition brk (new_brk_ptr : Z) : VM Z :=
  do v <- get_focus;
  let old_brk_ptr := usize (USER_BASE_VADDR + user_space_size v) in
  if new_brk_ptr =? 0 then ret old_brk_ptr
  else if negb ((USER_BASE_VADDR <=? new_brk_ptr) && (new_brk_ptr <=? USER_END_VADDR)) then fail Sys.InvalidArgument
  else uvalloc (new_brk_ptr - USER_BASE_VADDR) with_rw true;; ret old_brk_ptr.

Definition alloc_segment (v_addr size : Z) (p : EntryPerm) : VM unit :=
  do v <- get_focus;
  lift (vmap (pg_table v) v_addr size p);;
  do list <- unwrap (area_add (area_list v) (mkArea v_addr size p));
  put_focus (set_areas list v).

Definition dealloc_segment (v_addr : Z) : VM bool :=
  do v <- get_focus;
  match remove_by_va (area_list v) v_addr with
  | Some (area, list) =>
    put_focus (set_areas list v);;
    lift (vunmap (pg_table v) (va area) (area_size area));;
    ret true
  | None => ret false
  end.

Fixpoint vunmap_areas {E} (root : Z) (list : list VmArea) : PM E unit :=
  match list with
  | [] => ret tt
  | area :: list' => vunmap root (va area) (area_size area);; vunmap_areas root list'
  end.

(** [mem::take], and then the areas that were taken. *)
Definition dealloc_all_segments : VM unit :=
  do v <- get_focus;
  put_focus (set_areas [] v);;
  lift (vunmap_areas (pg_table v) (area_list v)).

Definition trapframe : VM Z := do paddr <- va2pa TASK_TRAPFRAME_BASE; unwrap paddr.

Definition alloc_trapframe (tf : Trapframe) : VM Z :=
  do _ <- dealloc_segment TASK_TRAPFRAME_BASE;
  alloc_segment TASK_TRAPFRAME_BASE PGSIZE with_rw;;
  do ptr <- trapframe;
  do page <- lift (load_page ptr);
  lift (store_page ptr (splice 0 (trapframe_bytes tf) page));;
  ret ptr.

(** The pages of a range of [src] are copied to pages of their own; the
    iterator is the one of [range_of_entries_mut]. *)
Definition copy_page (root start_va v_addr : Z) (pte : loc) : KM unit :=
  do entry <- read_entry pte;
  do dst_paddr <- catch (vmap_page root v_addr (perm_of entry))
                        (fun err => vunmap root start_va (v_addr - start_va);; fail err);
  do bytes <- load_page (physical_addr entry);
  store_page dst_paddr bytes.

Definition copy_content_from (start_va size src : Z) : VM unit :=
  do v <- get_focus;
  lift (range_of_entries_mut src start_va (start_va + size) (copy_page (pg_table v) start_va)).

Fixpoint copy_areas (src : Z) (list : list VmArea) : VM unit :=
  match list with
  | [] => ret tt
  | area :: list' =>
    copy_content_from (va area) (area_size area) src;;
    do v <- get_focus;
    do l <- unwrap (area_add (area_list v) area);
    put_focus (set_areas l v);;
    copy_areas src list'
  end.

Definition copy_user_content_from (user_vm : VMInner) : VM unit :=
  dealloc_all_segments;;
  uvalloc 0 0 false;;
  copy_areas (pg_table user_vm) (area_list user_vm);;
  copy_content_from USER_BASE_VADDR (pg_round_up (user_space_size user_vm)) (pg_table user_vm);;
  do v <- get_focus;
  put_focus (set_space_size (user_space_size user_vm) v).

(** The loop of [write]; every turn takes at least one byte. *)
Fixpoint write_loop (fuel : nat) (addr : Z) (bytes : list Z) : VM Z :=
  match fuel, bytes with
  | _, [] => ret addr
  | O, _ => panic
  | S fuel', _ =>
    do o <- va2pa (Z.land addr (Z.lnot PGSIZE_MASK));
    do pa <- ok_or o Sys.InvalidArgument;
    if negb (is_valid_phy_addr pa) then fail Sys.InvalidArgument
    else
      let offset := Z.land addr PGSIZE_MASK in
      let bytes_cp := Z.min (zlen bytes) (PGSIZE - offset) in
      do page <- lift (load_page pa);
      lift (store_page pa (splice offset (take (Z.to_nat bytes_cp) bytes) page));;
      write_loop fuel' (usize (addr + bytes_cp)) (drop (Z.to_nat bytes_cp) bytes)
  end.

Definition write (addr : Z) (bytes : list Z) : VM Z := write_loop (length bytes) addr bytes.

Definition on_page_fault (addr : Z) : VM unit :=
  do v <- get_focus;
  if (USER_BASE_VADDR <=? addr) && (addr <? usize (USER_BASE_VADDR + user_space_size v)) then
    let pg_vaddr := pg_round_down addr in
    do entry <- lift (get_entry (pg_table v) pg_vaddr);
    match entry with
    | Some _ => fail Sys.Fault
    | None => lift (vmap_page (pg_table v) pg_vaddr (Z.lor with_rw PERM_USER));; ret tt
    end
  else fail Sys.OutOfMemory.

(** [drop] of the [VMInner] and of the box with its page table. *)
Definition drop_vm : VM unit :=
  dealloc_all_segments;;
  do v <- get_focus;
  lift (vunmap (pg_table v) USER_BASE_VADDR (pg_round_up (user_space_size v)));;
  lift (clear (pg_table v));;
  lift (drop_table (pg_table v)).
End vm.
