(* ===== verification/VmCore.v ===== *)
(** * Address spaces in one physical memory

    [core] is what holds of the page tables, the pages and the allocator when
    several address spaces share them: every space has tables and pages of its
    own, and all have the tables of the kernel in common.  An operation on one
    space is a [change]; [core_step] shows that a change keeps [core] and
    leaves the other spaces alone. *)

From S2P Require Import Prelude Bytes Vfs Buddy PageTable PtTree PtOps PtRange PtIter PtUnmap PtVmap Vm.

#[local] Open Scope Z_scope.
#[local] Open Scope rw_scope.

(** The entries of a root behind those of the kernel. *)
#[export] Instance user_entries : Low := 6%nat.

(** The pages that these entries reach. *)
Definition user (n : Z) : Prop := 0x180000 <= n < 2 ^ 27.

Lemma user_low n : user n <-> 0 <= n < 2 ^ 27 /\ (low <= pidx 2 n)%nat.
Proof. unfold user, pidx, low, user_entries. change (512 ^ Z.of_nat 2) with 262144. lia. Qed.

Lemma zero_page_length : length zero_page = 4096%nat.
Proof. unfold zero_page. by rewrite length_replicate. Qed.

Lemma zero_page_lookup i : (i < 4096)%nat -> zero_page !! i = Some 0.
Proof. intros Hi. unfold zero_page. by apply lookup_replicate. Qed.
#[global] Opaque zero_page.

(** ** Contents of pages

    [K p c]: page [p], when it is handed out, may contain [c]. *)

Section laws.
Context {A : Type} `{PageAllocLaws A} (K : Z -> option (list Z) -> Prop).

#[program] Definition memory_laws : PageAllocLaws (Memory A) := {|
  pa_page p := pa_page p /\ K p (Some zero_page);
  pa_ok m V := pa_ok (allocator m) V /\ (forall p, V p -> K p (Some zero_page)) /\ forall p, ~ V p -> K p (frames m !! p)
|}.
Next Obligation. intros p [Hp _]. by apply pa_page_addr. Qed.
Next Obligation.
  intros a V V' (Ha & Hv & Hn) Heq. split; [by eapply pa_ok_iff|]. split; intros p; rewrite <- Heq; auto.
Qed.
Next Obligation.
  intros m V (Ha & Hv & Hn). pose proof (pa_alloc_spec _ V Ha) as Hs. unfold wp in *. cbn [pa_alloc memory_pages].
  destruct (pa_alloc (allocator m)) as [[[p|]|[]|] a]; [| |done].
  - destruct Hs as (HV & Hpg & Ha'). split; [done|]. split; [auto|]. split; [done|]. cbn. split; [intros q [? ?]; auto|].
    intros q Hq. destruct (decide (q = p)) as [->|]; [rewrite lookup_insert_eq; auto|]. rewrite lookup_insert_ne by done. apply Hn. tauto.
  - destruct Hs as [? ?]. done.
Qed.
Next Obligation.
  intros m V p (Ha & Hv & Hn) [Hpg HK] Hp. pose proof (pa_free_spec _ V p Ha Hpg Hp) as Hs. unfold wp in *. cbn [pa_free memory_pages].
  destruct (pa_free p (allocator m)) as [[[]|[]|] a]; [|done]. split; [done|]. cbn. split; [intros q [?| ->]; auto|].
  intros q Hq. rewrite lookup_delete_ne by (intros ->; apply Hq; by right). apply Hn. tauto.
Qed.
End laws.

Section core.
Context {A : Type} `{PageAllocLaws A}.
#[local] Notation St := (PtState (Memory A)).
Implicit Types (s : St) (V : Z -> Prop).

(** What is in the pages while an operation runs: pages that it gets hold
    zeros, pages that it gives back ([Y]) anything, the others what they held
    at the start. *)
Definition held s V (Y : Z -> Prop) (p : Z) (c : option (list Z)) : Prop :=
  (V p -> c = Some zero_page) /\ (~ V p -> ~ Y p -> c = frames (pool s) !! p).

Definition frame_of s (e : Z) : option (list Z) := frames (pool s) !! physical_addr e.

(** ** The invariant

    [k] is the root of the kernel, [R] the roots of the spaces, and [U] the
    pages that the allocator had at the start. *)
Context (k : Z) (U : Z -> Prop).

Definition root_of (R : gset Z) (r : Z) : Prop := r = k \/ r ∈ R.

Definition in_use (R : gset Z) s (q : Z) : Prop :=
  exists r n e, r ∈ R /\ user n /\ leaf (tables s) r n = Some e /\ physical_addr e = q.

Record core (R : gset Z) s V : Prop := {
  c_kernel : k ∉ R;
  c_pool : pa_ok (allocator (pool s)) V;
  c_table t : is_Some (tables s !! t) -> pa_page t /\ ~ V t /\ frames (pool s) !! t = Some zero_page;
  c_len t l : tables s !! t = Some l -> length l = 512%nat;
  c_tree r : root_of R r -> tree_ok (tables s) r;
  c_sep r r' q t : r ∈ R -> root_of R r' -> r <> r' -> (length q <= 2)%nat -> node (tables s) r' q = Some t -> apart low (tables s) r t;
  c_data r n e : r ∈ R -> user n -> leaf (tables s) r n = Some e ->
    pa_page (physical_addr e) /\ ~ V (physical_addr e) /\ tables s !! physical_addr e = None /\
    exists b, frame_of s e = Some b /\ length b = 4096%nat;
  c_inj r n e r' n' e' : r ∈ R -> r' ∈ R -> user n -> user n' -> leaf (tables s) r n = Some e -> leaf (tables s) r' n' = Some e' ->
    physical_addr e = physical_addr e' -> r = r' /\ n = n';
  c_reach t : is_Some (tables s !! t) -> exists r p, root_of R r /\ (length p <= 2)%nat /\ node (tables s) r p = Some t;
  c_pages q : U q <-> V q \/ is_Some (tables s !! q) \/ in_use R s q;
  c_low r q : r ∈ R -> (length q <= 2)%nat -> ~ above low q -> node (tables s) r q = node (tables s) k q
}.

(** ** Changes *)

Definition mapped_by (r : Z) s (q : Z) : Prop := exists n e, user n /\ leaf (tables s) r n = Some e /\ physical_addr e = q.

(** What can happen to a page of the space: nothing, a page is mapped, the
    page is unmapped and free again. *)
Definition moved (r : Z) s V s' V' (n : Z) : Prop :=
  leaf (tables s') r n = leaf (tables s) r n \/
  (leaf (tables s) r n = None /\ exists e, leaf (tables s') r n = Some e /\ pa_page (physical_addr e) /\ V (physical_addr e) /\
     ~ V' (physical_addr e) /\ tables s' !! physical_addr e = None) \/
  (leaf (tables s') r n = None /\ exists e, leaf (tables s) r n = Some e /\ V' (physical_addr e)).

Record change (r : Z) s V s' V' : Prop := {
  ch_tree : tree_ok (tables s') r;
  ch_pool : pa_ok (allocator (pool s')) V';
  ch_kept : kept r s s';
  ch_table t : is_Some (tables s' !! t) -> pa_page t /\ ~ V' t /\ frames (pool s') !! t = Some zero_page;
  ch_tables t : is_Some (tables s' !! t) -> is_Some (tables s !! t) \/ V t;
  ch_leaf n : user n -> moved r s V s' V' n;
  ch_low n : 0 <= n < 2 ^ 27 -> ~ user n -> leaf (tables s') r n = leaf (tables s) r n;
  ch_inj n m e e' : user n -> user m -> leaf (tables s) r n = None -> leaf (tables s) r m = None ->
    leaf (tables s') r n = Some e -> leaf (tables s') r m = Some e' -> physical_addr e = physical_addr e' -> n = m;
  ch_frames p b : ~ V p -> ~ V' p -> frames (pool s) !! p = Some b -> frames (pool s') !! p = Some b;
  ch_new p : V p -> ~ V' p -> frames (pool s') !! p = Some zero_page;
  ch_freed p : ~ V p -> V' p -> exists n e, user n /\ leaf (tables s) r n = Some e /\ leaf (tables s') r n = None /\ physical_addr e = p;
  ch_pages q : V q \/ is_Some (tables s !! q) \/ mapped_by r s q <-> V' q \/ is_Some (tables s' !! q) \/ mapped_by r s' q
}.

(** ** Keeping the invariant *)

Section step.
Context (R : gset Z) (r : Z) s V s' V'.
Hypothesis Hc : core R s V.
Hypothesis Hr : r ∈ R.
Hypothesis Hch : change r s V s' V'.

Lemma root_self : root_of R r.
Proof using Hr. by right. Qed.

(** The tables of another space are not touched. *)
Lemma other_table r' q t : root_of R r' -> r' <> r -> (length q <= 2)%nat -> node (tables s) r' q = Some t ->
  tables s' !! t = tables s !! t /\ apart low (tables s') r t.
Proof.
  intros Hr' Hne Hq Hn. pose proof (c_sep _ _ _ Hc r r' q t Hr Hr' ltac:(done) Hq Hn) as Ha.
  destruct (to_node _ _ (c_tree _ _ _ Hc r' Hr') q t Hq Hn) as [l Hl].
  destruct (kp_framed _ _ _ (ch_kept _ _ _ _ _ Hch) t l Hl Ha) as [Hl' Ha']. split; [congruence|done].
Qed.

Lemma other_sub r' q t i : root_of R r' -> r' <> r -> (length q <= 2)%nat -> node (tables s) r' q = Some t ->
  ent (tables s') t i = ent (tables s) t i.
Proof. intros Hr' Hne Hq Hn. unfold ent. by destruct (other_table r' q t Hr' Hne Hq Hn) as [-> _]. Qed.

Lemma other_node r' q : root_of R r' -> r' <> r -> (length q <= 2)%nat -> node (tables s') r' q = node (tables s) r' q.
Proof.
  intros Hr' Hne. induction q as [|i q IH] using rev_ind; [done|]. rewrite length_app. simpl. intros Hq. rewrite !node_snoc, IH by lia.
  destruct (node (tables s) r' q) as [t|] eqn:Hn; [|done]. cbn [mbind option_bind]. unfold sub. rewrite (other_sub r' q) by (done || lia). done.
Qed.

Lemma other_leaf r' n : root_of R r' -> r' <> r -> leaf (tables s') r' n = leaf (tables s) r' n.
Proof.
  intros Hr' Hne. unfold leaf. rewrite other_node by (done || simpl; lia). destruct (node (tables s) r' _) as [t|] eqn:Hn; [|done].
  cbn [mbind option_bind]. by rewrite (other_sub r' [pidx 2 n; pidx 1 n]).
Qed.

Lemma other_tree r' : root_of R r' -> tree_ok (tables s') r'.
Proof.
  intros Hr'. destruct (decide (r' = r)) as [->|Hne]; [apply (ch_tree _ _ _ _ _ Hch)|]. pose proof (c_tree _ _ _ Hc r' Hr') as Ht. split.
  - apply (to_len _ _ (ch_tree _ _ _ _ _ Hch)).
  - intros p t Hp. rewrite other_node by done. intros Hn. destruct (other_table r' p t Hr' Hne Hp Hn) as [-> _]. by apply (to_node _ _ Ht p).
  - intros p q t Hp Hq. rewrite !other_node by done. by apply (to_inj _ _ Ht).
  - intros p t i e Hp. rewrite other_node by (done || lia). intros Hn. rewrite (other_sub r' p) by (done || lia). by apply (to_pde _ _ Ht p).
Qed.

Lemma step_sep r1 r2 q t : r1 ∈ R -> root_of R r2 -> r1 <> r2 -> (length q <= 2)%nat -> node (tables s') r2 q = Some t -> apart low (tables s') r1 t.
Proof.
  intros H1 H2 Hne Hq Hn. destruct (decide (r2 = r)) as [->|H2r].
  - intros p Hp Hab Hn1. rewrite other_node in Hn1 by (done || by right).
    destruct (other_table r1 p t ltac:(by right) Hne Hp Hn1) as [_ Ha]. apply (Ha q Hq); [|done].
    destruct q as [|a q]; [done|]. destruct (decide (low <= a)%nat); [done|]. exfalso.
    rewrite (kp_low _ _ _ (ch_kept _ _ _ _ _ Hch)) in Hn by done.
    by apply (c_sep _ _ _ Hc r1 r (a :: q) t H1 root_self Hne Hq Hn p).
  - rewrite other_node in Hn by done. destruct (decide (r1 = r)) as [->|H1r].
    + by apply (other_table r2 q t).
    + intros p Hp Hab. rewrite other_node by (done || by right). by apply (c_sep _ _ _ Hc r1 r2 q t).
Qed.

(** A page that stays mapped is not given away. *)
Lemma kept_page r' n e : r' ∈ R -> user n -> leaf (tables s) r' n = Some e -> leaf (tables s') r' n = Some e -> ~ V' (physical_addr e).
Proof.
  intros Hr' Hn He He' HV'. destruct (c_data _ _ _ Hc r' n e Hr' Hn He) as (_ & HnV & _).
  destruct (ch_freed _ _ _ _ _ Hch _ HnV HV') as (m & e1 & Hm & He1 & Hnone & Heq).
  destruct (c_inj _ _ _ Hc r m e1 r' n e Hr Hr' Hm Hn He1 He Heq) as [<- <-]. congruence.
Qed.

Lemma kept_data r' n e : r' ∈ R -> user n -> leaf (tables s) r' n = Some e -> leaf (tables s') r' n = Some e ->
  pa_page (physical_addr e) /\ ~ V' (physical_addr e) /\ tables s' !! physical_addr e = None /\ frame_of s' e = frame_of s e.
Proof.
  intros Hr' Hn He He'. pose proof (kept_page r' n e Hr' Hn He He') as HnV'.
  destruct (c_data _ _ _ Hc r' n e Hr' Hn He) as (Hp & HnV & Ht & b & Hb & _). split; [done|]. split; [done|]. split.
  - apply eq_None_not_Some. intros Ht'. destruct (ch_tables _ _ _ _ _ Hch _ Ht') as [[l Hl]|?]; [congruence|done].
  - unfold frame_of in *. rewrite Hb. by apply (ch_frames _ _ _ _ _ Hch).
Qed.

Lemma step_data r' n e : r' ∈ R -> user n -> leaf (tables s') r' n = Some e ->
  leaf (tables s) r' n = Some e \/
  r' = r /\ leaf (tables s) r n = None /\ pa_page (physical_addr e) /\ V (physical_addr e) /\ ~ V' (physical_addr e) /\ tables s' !! physical_addr e = None.
Proof.
  intros Hr' Hn He. destruct (decide (r' = r)) as [->|Hne]; [|left; by rewrite <- other_leaf by (done || by right)].
  destruct (ch_leaf _ _ _ _ _ Hch n Hn) as [Heq|[(Hnone & e1 & He1 & Hx)|[Hnone _]]]; [left; congruence|right|congruence].
  assert (e1 = e) as -> by congruence. tauto.
Qed.

Lemma step_inj r1 n1 e1 r2 n2 e2 : r1 ∈ R -> r2 ∈ R -> user n1 -> user n2 -> leaf (tables s') r1 n1 = Some e1 -> leaf (tables s') r2 n2 = Some e2 ->
  physical_addr e1 = physical_addr e2 -> r1 = r2 /\ n1 = n2.
Proof.
  intros H1 H2 Hn1 Hn2 He1 He2 Heq.
  destruct (step_data r1 n1 e1 H1 Hn1 He1) as [Ho1|(-> & Hno1 & _ & HV1 & _)], (step_data r2 n2 e2 H2 Hn2 He2) as [Ho2|(-> & Hno2 & _ & HV2 & _)].
  - by apply (c_inj _ _ _ Hc r1 n1 e1 r2 n2 e2).
  - exfalso. destruct (c_data _ _ _ Hc r1 n1 e1 H1 Hn1 Ho1) as (_ & HnV & _). congruence.
  - exfalso. destruct (c_data _ _ _ Hc r2 n2 e2 H2 Hn2 Ho2) as (_ & HnV & _). congruence.
  - split; [done|]. by apply (ch_inj _ _ _ _ _ Hch n1 n2 e1 e2).
Qed.

Lemma step_reach t : is_Some (tables s' !! t) -> exists r' p, root_of R r' /\ (length p <= 2)%nat /\ node (tables s') r' p = Some t.
Proof.
  intros Ht. destruct (kp_new _ _ _ (ch_kept _ _ _ _ _ Hch) t Ht) as [Hold|(p & Hp & _ & Hn)]; [|exists r, p; split; [apply root_self|done]].
  destruct (c_reach _ _ _ Hc t Hold) as (r' & p & Hr' & Hp & Hn). exists r', p. split; [done|]. split; [done|].
  destruct (decide (r' = r)) as [->|Hne]; [by apply (kp_node _ _ _ (ch_kept _ _ _ _ _ Hch))|by rewrite other_node].
Qed.

Lemma in_use_split (s1 : St) q : in_use R s1 q <-> mapped_by r s1 q \/ exists r' n e, r' ∈ R /\ r' <> r /\ user n /\ leaf (tables s1) r' n = Some e /\ physical_addr e = q.
Proof using Hr.
  split.
  - intros (r' & n & e & Hr' & Hn & He & Hq). destruct (decide (r' = r)) as [->|]; [left; by exists n, e|right; by exists r', n, e].
  - intros [(n & e & Hn & He & Hq)|(r' & n & e & Hr' & _ & Hn & He & Hq)]; [by exists r, n, e|by exists r', n, e].
Qed.

Lemma step_pages q : U q <-> V' q \/ is_Some (tables s' !! q) \/ in_use R s' q.
Proof.
  rewrite (c_pages _ _ _ Hc q), !in_use_split. pose proof (ch_pages _ _ _ _ _ Hch q).
  assert (Hoth : (exists r' n e, r' ∈ R /\ r' <> r /\ user n /\ leaf (tables s') r' n = Some e /\ physical_addr e = q) <->
    (exists r' n e, r' ∈ R /\ r' <> r /\ user n /\ leaf (tables s) r' n = Some e /\ physical_addr e = q)).
  { split; intros (r' & n & e & Hr' & Hne & Hn & He & Hq); exists r', n, e; rewrite other_leaf in * by (done || by right); done. }
  tauto.
Qed.

Lemma step_low r' q : r' ∈ R -> (length q <= 2)%nat -> ~ above low q -> node (tables s') r' q = node (tables s') k q.
Proof.
  intros Hr' Hq Hab. pose proof (c_low _ _ _ Hc r' q Hr' Hq Hab) as Heq. pose proof (c_kernel _ _ _ Hc) as Hk.
  rewrite (other_node k q) by (done || by left || intros ->; done). rewrite <- Heq. destruct (decide (r' = r)) as [->|Hne].
  - by apply (kp_low _ _ _ (ch_kept _ _ _ _ _ Hch)).
  - apply other_node; [by right|done|done].
Qed.

Lemma core_step : core R s' V'.
Proof.
  split; [apply (c_kernel _ _ _ Hc)|apply (ch_pool _ _ _ _ _ Hch)|apply (ch_table _ _ _ _ _ Hch)|apply (to_len _ _ (ch_tree _ _ _ _ _ Hch))
         |apply other_tree|apply step_sep| |apply step_inj|apply step_reach|apply step_pages|apply step_low].
  intros r' n e Hr' Hn He. destruct (step_data r' n e Hr' Hn He) as [Ho|(-> & _ & Hp & HV & HnV & Ht)].
  - destruct (kept_data r' n e Hr' Hn Ho He) as (? & ? & ? & Hf). do 3 (split; [done|]). rewrite Hf. by apply (c_data _ _ _ Hc r' n e).
  - do 3 (split; [done|]). exists zero_page. split; [by apply (ch_new _ _ _ _ _ Hch)|apply zero_page_length].
Qed.
End step.
End core.

(** * Mapping and unmapping as changes of an address space

    The specifications of the page tables, taken over a memory with contents,
    say that mapping and unmapping in one space are changes in the sense of
    [VmCore]: pages that are mapped hold zeros, and pages that stay keep what
    they hold. *)

Section changes.
Context {A : Type} `{PageAllocLaws A} (k : Z) (U : Z -> Prop).
#[local] Notation St := (PtState (Memory A)).
Context (R : gset Z) (r : Z) (s : St) (V : Z -> Prop) (Y : Z -> Prop).
Hypothesis Hc : core k U R s V.
Hypothesis Hr : r ∈ R.
(** Pages that may be given back are mapped by the space. *)
Hypothesis HY : forall p, Y p -> mapped_by r s p.

#[local] Instance contents : PageAllocLaws (Memory A) := memory_laws (held s V Y).

Lemma not_table p : Y p -> tables s !! p = None /\ ~ V p /\ pa_page (PageAllocLaws := H0) p.
Proof. intros Hp. destruct (HY p Hp) as (n & e & Hn & He & <-). by destruct (c_data _ _ _ _ _ Hc r n e Hr Hn He) as (? & ? & ? & _). Qed.

Lemma held_table t : is_Some (tables s !! t) -> held s V Y t (Some zero_page).
Proof. intros Ht. destruct (c_table _ _ _ _ _ Hc t Ht) as (_ & HnV & Hf). split; [done|]. by rewrite Hf. Qed.

(** The page table is in order. *)
Lemma core_pt_ok : pt_ok s r V.
Proof.
  split; [apply (c_tree _ _ _ _ _ Hc); by right| |].
  - split; [apply (c_pool _ _ _ _ _ Hc)|]. split; intros p Hp; by split.
  - intros t Ht. destruct (c_table _ _ _ _ _ Hc t Ht) as (Hp & HnV & _). split; [|done]. split; [done|by apply held_table].
Qed.

(** The contents of pages afterwards. *)
Lemma pt_ok_tables s' V' : pt_ok s' r V' -> (forall t, is_Some (tables s' !! t) -> is_Some (tables s !! t) \/ V t) ->
  forall t, is_Some (tables s' !! t) -> pa_page (PageAllocLaws := H0) t /\ ~ V' t /\ frames (pool s') !! t = Some zero_page.
Proof.
  intros Hok Hnew t Ht. destruct (po_own _ _ _ Hok t Ht) as [[Hp _] HnV']. split; [done|]. split; [done|].
  destruct (po_pool _ _ _ Hok) as (_ & _ & Hf). destruct (Hf t HnV') as [HfV HfN]. destruct (Hnew t Ht) as [Hold|HV]; [|by apply HfV].
  destruct (c_table _ _ _ _ _ Hc t Hold) as (_ & HnV & Hz). rewrite HfN; [done|done|]. intros HYt. destruct (not_table t HYt) as [Hn _].
  destruct Hold as [l Hl]. congruence.
Qed.

Lemma pt_ok_frames s' V' p b : pt_ok s' r V' -> ~ V p -> ~ V' p -> ~ Y p -> frames (pool s) !! p = Some b -> frames (pool s') !! p = Some b.
Proof. intros Hok HV HV' HYp Hb. destruct (po_pool _ _ _ Hok) as (_ & _ & Hf). destruct (Hf p HV') as [_ HfN]. by rewrite HfN. Qed.

Lemma pt_ok_new s' V' p : pt_ok s' r V' -> V p -> ~ V' p -> frames (pool s') !! p = Some zero_page.
Proof. intros Hok HV HV'. destruct (po_pool _ _ _ Hok) as (_ & _ & Hf). destruct (Hf p HV') as [HfV _]. auto. Qed.

(** ** Mapping *)

Section mapped.
Context (perm : EntryPerm) (s' : St) (V' : Z -> Prop) (D : Z -> Prop).
Hypothesis Hm : vmapped r perm s V s' V' D.
Hypothesis HD : forall n, D n -> user n.
Hypothesis Hdec : forall n, D n \/ ~ D n.
Hypothesis HYn : forall p, ~ Y p.

Lemma vmapped_moved n : user n -> moved r s V s' V' n.
Proof.
  intros Hn. destruct (Hdec n) as [Hd|Hd].
  - right. left. destruct (vm_in _ _ _ _ _ _ _ Hm n Hd) as [Hnone (e & He & _ & HV & HnV & [Hp _] & Ht)]. split; [done|]. by exists e.
  - left. apply (vm_out _ _ _ _ _ _ _ Hm); [unfold user in Hn; lia|done].
Qed.

Lemma vmapped_by q : mapped_by r s' q <-> mapped_by r s q \/ exists n e, D n /\ leaf (tables s') r n = Some e /\ physical_addr e = q.
Proof.
  split.
  - intros (n & e & Hn & He & Hq). destruct (Hdec n) as [Hd|Hd]; [right; by exists n, e|]. left. exists n, e.
    rewrite (vm_out _ _ _ _ _ _ _ Hm n) in He by (done || unfold user in Hn; lia). done.
  - intros [(n & e & Hn & He & Hq)|(n & e & Hd & He & Hq)]; [|exists n, e; auto]. exists n, e. split; [done|]. split; [|done].
    destruct (Hdec n) as [Hd|Hd]; [destruct (vm_in _ _ _ _ _ _ _ Hm n Hd) as [Hnone _]; congruence|].
    by rewrite (vm_out _ _ _ _ _ _ _ Hm n) by (done || unfold user in Hn; lia).
Qed.

Lemma vmapped_change : change r s V s' V'.
Proof.
  pose proof (vm_ok _ _ _ _ _ _ _ Hm) as Hok.
  assert (Hnew : forall t, is_Some (tables s' !! t) -> is_Some (tables s !! t) \/ V t).
  { intros t Ht. destruct (proj2 (vm_pages _ _ _ _ _ _ _ Hm t)) as [?|?]; [right; by left|by right|by left]. }
  split; [apply Hok|apply (po_pool _ _ _ Hok)|apply (vm_kept _ _ _ _ _ _ _ Hm)|by apply pt_ok_tables|done|apply vmapped_moved| | | | | |].
  - intros n Hn Hu. apply (vm_out _ _ _ _ _ _ _ Hm); [done|]. auto.
  - intros n m e e' Hn Hu' Hnn Hnm He He'.
    destruct (Hdec n) as [Hd|Hd]; [|rewrite (vm_out _ _ _ _ _ _ _ Hm n) in He by (done || unfold user in Hn; lia); congruence].
    destruct (Hdec m) as [Hd'|Hd']; [|rewrite (vm_out _ _ _ _ _ _ _ Hm m) in He' by (done || unfold user in Hu'; lia); congruence].
    by apply (vm_inj _ _ _ _ _ _ _ Hm).
  - intros p b HV HV' Hb. by eapply pt_ok_frames.
  - intros p HV HV'. by eapply pt_ok_new.
  - intros p HV HV'. by destruct HV; apply (vm_less _ _ _ _ _ _ _ Hm).
  - intros q. rewrite vmapped_by. pose proof (vm_pages _ _ _ _ _ _ _ Hm q). tauto.
Qed.
End mapped.

(** ** Unmapping *)

Section erased.
Context (sN eN : Z) (s' : St) (V' : Z -> Prop).
Hypothesis Hrange : 0x180000 <= sN <= eN /\ eN <= 2 ^ 27 /\ sN < 2 ^ 27.
Hypothesis He : erased r sN eN true s V s' V' (2 ^ 27).
Hypothesis HYe : forall p, Y p <-> exists n e, user n /\ vis sN eN 0 n /\ leaf (tables s) r n = Some e /\ physical_addr e = p.

Lemma vis_user n : 0 <= n < 2 ^ 27 -> vis sN eN 0 n -> user n.
Proof. intros Hn Hv. pose proof (vis0_in sN eN ltac:(lia) n Hn Hv). unfold user. lia. Qed.

Lemma erased_pool q : V' q <-> V q \/ Y q.
Proof.
  rewrite (er_pool _ _ _ _ _ _ _ _ _ He q), HYe. split.
  - intros [?|(_ & n & e & Hn & _ & Hv & Hl & Hq)]; [by left|right]. exists n, e. split; [by apply vis_user|done].
  - intros [?|(n & e & Hn & Hv & Hl & Hq)]; [by left|right]. split; [done|]. exists n, e. unfold user in Hn. split; [lia|]. split; [lia|done].
Qed.

Lemma erased_moved n : user n -> moved r s V s' V' n.
Proof.
  intros Hn. assert (Hb : 0 <= n < 2 ^ 27) by (unfold user in Hn; lia). destruct (vis_dec sN eN n) as [Hv|Hv].
  - pose proof (er_in _ _ _ _ _ _ _ _ _ He n Hb ltac:(lia) Hv) as Hnone. destruct (leaf (tables s) r n) as [e|] eqn:Hl; [|left; congruence].
    right. right. split; [done|]. exists e. split; [done|]. apply erased_pool. right. apply HYe. by exists n, e.
  - left. apply (er_out _ _ _ _ _ _ _ _ _ He); [done|tauto].
Qed.

Lemma erased_leaf n e : 0 <= n < 2 ^ 27 -> leaf (tables s') r n = Some e -> leaf (tables s) r n = Some e /\ ~ vis sN eN 0 n.
Proof.
  intros Hn Hl. destruct (vis_dec sN eN n) as [Hv|Hv]; [rewrite (er_in _ _ _ _ _ _ _ _ _ He) in Hl by (done || lia); done|].
  split; [|done]. by rewrite (er_out _ _ _ _ _ _ _ _ _ He) in Hl by tauto.
Qed.

Lemma erased_change : change r s V s' V'.
Proof.
  pose proof (er_ok _ _ _ _ _ _ _ _ _ He) as Hok. pose proof (er_dom _ _ _ _ _ _ _ _ _ He) as Hdom.
  assert (Hnew : forall t, is_Some (tables s' !! t) -> is_Some (tables s !! t) \/ V t) by (intros t; rewrite Hdom; by left).
  split; [apply Hok|apply (po_pool _ _ _ Hok)|apply (er_kept _ _ _ _ _ _ _ _ _ He)|by apply pt_ok_tables|done|apply erased_moved| | | | | |].
  - intros n Hn Hu. apply (er_out _ _ _ _ _ _ _ _ _ He); [done|]. intros [_ Hv]. by apply Hu, vis_user.
  - intros n m e e' Hn _ Hnn _ Hl. apply erased_leaf in Hl as [Hl _]; [congruence|unfold user in Hn; lia].
  - intros p b HV HV' Hb. eapply pt_ok_frames; [done|done|done| |done]. rewrite erased_pool in HV'. tauto.
  - intros p HV HV'. rewrite erased_pool in HV'. tauto.
  - intros p HV HV'. apply erased_pool in HV' as [?|HYp]; [done|]. apply HYe in HYp as (n & e & Hn & Hv & Hl & Hq). exists n, e.
    split; [done|]. split; [done|]. split; [|done]. unfold user in Hn. apply (er_in _ _ _ _ _ _ _ _ _ He); [lia|lia|done].
  - intros q. rewrite erased_pool, Hdom. unfold mapped_by. rewrite HYe. split.
    + intros [?|[?|(n & e & Hn & Hl & Hq)]]; [tauto|tauto|]. destruct (vis_dec sN eN n) as [Hv|Hv]; [left; right; by exists n, e|].
      do 2 right. exists n, e. split; [done|]. split; [|done]. unfold user in Hn. by rewrite (er_out _ _ _ _ _ _ _ _ _ He) by (lia || tauto).
    + intros [[?|(n & e & Hn & _ & Hl & Hq)]|[?|(n & e & Hn & Hl & Hq)]]; [tauto| |tauto|].
      * do 2 right. by exists n, e.
      * do 2 right. exists n, e. split; [done|]. split; [|done]. apply erased_leaf in Hl as [? _]; [done|]. unfold user in Hn. lia.
Qed.
End erased.
End changes.
