(* ===== verification/VmOps.v ===== *)
(** * Operations on one of several address spaces

    [view] is what a space is to a program: which pages it can use, how, and
    what they hold.  Mapping and unmapping in one space change its view as
    they should and leave the views of the others alone. *)

From S2P Require Import Prelude Bytes Vfs Buddy PageTable PtTree PtOps PtRange PtIter PtUnmap PtVmap Vm VmCore.

#[local] Open Scope Z_scope.
#[local] Open Scope rw_scope.

Section ops.
Context {A : Type} `{PageAllocLaws A} (k : Z) (U : Z -> Prop).
#[local] Notation St := (PtState (Memory A)).
Implicit Types (s : St) (V : Z -> Prop) (R : gset Z).

Definition view s (r n : Z) : option (EntryPerm * list Z) :=
  leaf (tables s) r n ≫= fun e => (fun b => (perm_of e, b)) <$> frame_of s e.

Lemma view_None R s V r n : core k U R s V -> r ∈ R -> user n -> view s r n = None <-> leaf (tables s) r n = None.
Proof.
  intros Hc Hr Hn. unfold view. destruct (leaf (tables s) r n) as [e|] eqn:He; [|done]. cbn [mbind option_bind].
  destruct (c_data _ _ _ _ _ Hc r n e Hr Hn He) as (_ & _ & _ & b & -> & _). done.
Qed.

Lemma view_Some R s V r n p : core k U R s V -> r ∈ R -> user n -> view s r n = Some p ->
  exists e, leaf (tables s) r n = Some e /\ perm_of e = p.1 /\ frame_of s e = Some p.2 /\ length p.2 = 4096%nat.
Proof.
  intros Hc Hr Hn. unfold view. destruct (leaf (tables s) r n) as [e|] eqn:He; [|done]. cbn [mbind option_bind].
  destruct (c_data _ _ _ _ _ Hc r n e Hr Hn He) as (_ & _ & _ & b & Hb & Hl). rewrite Hb. intros [= <-]. by exists e.
Qed.

(** The memory stays in order, and the other spaces see nothing. *)
Record step R (r : Z) s s' V' : Prop := {
  sp_core : core k U R s' V';
  sp_leaf r' n : root_of k R r' -> r' <> r -> leaf (tables s') r' n = leaf (tables s) r' n;
  sp_node r' q : root_of k R r' -> r' <> r -> (length q <= 2)%nat -> node (tables s') r' q = node (tables s) r' q;
  sp_other r' n : r' ∈ R -> r' <> r -> user n -> view s' r' n = view s r' n
}.

Lemma step_refl R r s V : core k U R s V -> step R r s s V.
Proof. by split. Qed.

Lemma step_trans R r s s1 V1 s2 V2 : step R r s s1 V1 -> step R r s1 s2 V2 -> step R r s s2 V2.
Proof.
  intros [_ L1 N1 O1] [C2 L2 N2 O2]. split; [done|..].
  - intros r' n Hr Hne. by rewrite L2, L1.
  - intros r' q Hr Hne Hq. by rewrite N2, N1.
  - intros r' n Hr Hne Hn. by rewrite O2, O1.
Qed.

Section change.
Context R r s V s' V' (Hc : core k U R s V) (Hr : r ∈ R) (Hch : change r s V s' V').

Lemma change_view r' n : r' ∈ R -> user n -> leaf (tables s') r' n = leaf (tables s) r' n -> view s' r' n = view s r' n.
Proof using Hc Hr Hch.
  intros Hr' Hn Hl. unfold view. rewrite Hl. destruct (leaf (tables s) r' n) as [e|] eqn:He; [|done]. cbn [mbind option_bind].
  by destruct (kept_data _ _ _ _ _ _ _ _ Hc Hr Hch r' n e Hr' Hn He Hl) as (_ & _ & _ & ->).
Qed.

Lemma change_step : step R r s s' V'.
Proof using Hc Hr Hch.
  split; [by eapply core_step| | |].
  1: intros r' n Hr' Hne; by apply (other_leaf k U R r s V s' V' Hc Hr Hch).
  1: intros r' q Hr' Hne Hq; by apply (other_node k U R r s V s' V' Hc Hr Hch).
  intros r' n Hr' Hne Hn. apply change_view; [done|done|]. by apply (other_leaf k U R r s V s' V' Hc Hr Hch r' n); [right|].
Qed.

(** A page that was not mapped before holds zeros. *)
Lemma change_fresh n e : user n -> leaf (tables s) r n = None -> leaf (tables s') r n = Some e -> view s' r n = Some (perm_of e, zero_page).
Proof using Hc Hr Hch.
  intros Hn Hnone He. destruct (ch_leaf _ _ _ _ _ Hch n Hn) as [Heq|[(_ & e1 & He1 & _ & HV & HV' & _)|[Hx _]]]; [congruence| |congruence].
  unfold view. assert (e1 = e) as -> by congruence. rewrite He. cbn [mbind option_bind]. unfold frame_of.
  by rewrite (ch_new _ _ _ _ _ Hch _ HV HV').
Qed.
End change.

(** ** Mapping *)

(** Pages of [D] have been mapped, with zeros in them. *)
Definition fresh_view (perm : EntryPerm) (D : Z -> Prop) s s' (r : Z) : Prop :=
  forall n, user n ->
    (D n -> view s r n = None /\ view s' r n = Some (Z.lor perm PERM_VALID, zero_page)) /\ (~ D n -> view s' r n = view s r n).

Lemma vmapped_step R r perm s V s' V' (D : Z -> Prop) : core k U R s V -> r ∈ R ->
  vmapped (H0 := contents s V (fun _ => False)) r perm s V s' V' D ->
  (forall n, D n -> user n) -> (forall n, D n \/ ~ D n) -> step R r s s' V' /\ fresh_view perm D s s' r.
Proof.
  intros Hc Hr Hm HD Hdec.
  pose proof (vmapped_change k U R r s V (fun _ => False) Hc Hr ltac:(done) perm s' V' D Hm HD Hdec ltac:(tauto)) as Hch.
  split; [by eapply change_step|]. intros n Hn. split.
  - intros Hd. destruct (vm_in (H0 := contents s V _) _ _ _ _ _ _ _ Hm n Hd) as [Hnone (e & He & (_ & _ & Hp) & _)].
    split; [by eapply view_None|]. rewrite <- Hp. by eapply change_fresh.
  - intros Hd. eapply change_view; [done|done|done|done|done|]. unfold user in Hn. by apply (vm_out (H0 := contents s V _) _ _ _ _ _ _ _ Hm); [lia|].
Qed.

Definition pages_ok (sN eN : Z) : Prop := 0x200000 <= sN < eN /\ eN <= 2 ^ 27 /\ eN mod 512 <> 0.

Lemma pages_user sN eN n : 0x180000 <= sN -> eN <= 2 ^ 27 -> sN <= n < eN -> user n.
Proof. unfold user. lia. Qed.

Lemma low_page n : user n -> (low <= pidx 2 n)%nat.
Proof. intros Hn. by apply user_low in Hn as [_ ?]. Qed.

Lemma vmap_wp R r s V sN eN perm : core k U R s V -> r ∈ R -> pages_ok sN eN -> 0 <= perm < 32 ->
  wp (vmap r (sN * 4096) ((eN - sN) * 4096) perm)
    (fun _ s' => exists V', step R r s s' V' /\ fresh_view perm (fun n => sN <= n < eN) s s' r)
    (fun err s' => exists V' D, step R r s s' V' /\ fresh_view perm D s s' r /\ (forall n, D n -> sN <= n < eN) /\ (forall n, D n \/ ~ D n)) s.
Proof.
  intros Hc Hr (Hs & He & Hm) Hperm. set (L := contents s V (fun _ => False)).
  pose proof (core_pt_ok k U R r s V (fun _ => False) Hc Hr) as Hok.
  eapply wp_mono; [apply (vmap_spec (H0 := L) r sN eN perm s V); [lia|done|apply low_page; unfold user; lia|done|exact Hok]| |].
  - intros [] s' [V' Hv]. exists V'. eapply vmapped_step; [done|done|exact Hv|intros n Hn; by eapply (pages_user sN eN); [lia|..]|intros n; cbn beta; lia].
  - intros err s' (V' & D & HD & Hdec & Hv & _). exists V', D. destruct (vmapped_step R r perm s V s' V' D Hc Hr Hv) as [? ?]; [|done|done].
    intros n Hn. eapply (pages_user sN eN); [lia|done|auto].
Qed.

Lemma vmap_page_wp R r s V n perm : core k U R s V -> r ∈ R -> 0x200000 <= n < 2 ^ 27 -> 0 <= perm < 32 ->
  wp (vmap_page r (n * 4096) perm)
    (fun pa s' => exists V' e, step R r s s' V' /\ fresh_view perm (fun m => m = n) s s' r /\ leaf (tables s') r n = Some e /\ physical_addr e = pa)
    (fun err s' => exists V', step R r s s' V' /\ (forall m, user m -> view s' r m = view s r m) /\
       (err = Vfs.Sys.OutOfMemory \/ err = Vfs.Sys.InvalidArgument /\ view s r n <> None)) s.
Proof.
  intros Hc Hr Hn Hperm. set (L := contents s V (fun _ => False)). assert (Hu : user n) by (unfold user; lia).
  pose proof (core_pt_ok k U R r s V (fun _ => False) Hc Hr) as Hok.
  eapply wp_mono; [apply (vmap_page_spec (H0 := L) r n perm s V); [exact Hok|lia|by apply low_page|apply Z.leb_le; lia|done]| |].
  - intros pa s' (V' & e & Hv & He & Hpa). exists V', e.
    destruct (vmapped_step R r perm s V s' V' (fun m => m = n) Hc Hr Hv) as [? ?]; [by intros m ->|intros m; lia|]. done.
  - intros err s' (V' & Hv & Hcase). exists V'. destruct (vmapped_step R r perm s V s' V' (fun _ => False) Hc Hr Hv) as [Hst Hf]; [done|tauto|].
    split; [done|]. split; [intros m Hm; apply Hf; tauto|]. destruct Hcase as [?|[? [e He]]]; [by left|right]. split; [done|]. rewrite (view_None R s V) by done. congruence.
Qed.

(** ** Unmapping *)

Lemma vunmap_wp {E} R r s V sN eN : core k U R s V -> r ∈ R -> 0x180000 <= sN <= eN /\ eN <= 2 ^ 27 /\ sN < 2 ^ 27 ->
  wp (vunmap r (sN * 4096) ((eN - sN) * 4096))
    (fun _ s' => exists V', step R r s s' V' /\
       forall n, user n -> (vis sN eN 0 n -> view s' r n = None) /\ (~ vis sN eN 0 n -> view s' r n = view s r n)) (fun (_ : E) _ => False) s.
Proof.
  intros Hc Hr Hrange. set (Y := fun p => exists n e, user n /\ vis sN eN 0 n /\ leaf (tables s) r n = Some e /\ physical_addr e = p). set (L := contents s V Y).
  assert (HY : forall p, Y p -> mapped_by r s p) by (intros p (n & e & Hn & _ & He & Hp); by exists n, e).
  pose proof (core_pt_ok k U R r s V Y Hc Hr) as Hok.
  eapply wp_mono; [apply (vunmap_spec (H0 := L) r sN eN ltac:(lia) (low_page sN ltac:(unfold user; lia)) (fun _ _ => False) s V Hok)| |done].
  - split.
    + intros n e [Hn Hv] He. pose proof (vis_user sN eN Hrange n Hn Hv) as Hu. destruct (c_data _ _ _ _ _ Hc r n e Hr Hu He) as (Hp & HnV & Ht & _).
      split; [|done]. split; [done|]. split; [done|]. intros _ HnY. destruct HnY. by exists n, e.
    + intros n m e e' [Hn Hv] [Hm Hv'] He He' Heq. pose proof (vis_user sN eN Hrange n Hn Hv). pose proof (vis_user sN eN Hrange m Hm Hv').
      by destruct (c_inj _ _ _ _ _ Hc r n e r m e' Hr Hr) as [_ ?].
  - intros [] s' [V' He].
    pose proof (erased_change k U R r s V Y Hc Hr HY sN eN s' V' Hrange He ltac:(done)) as Hch. exists V'. split; [by eapply change_step|].
    assert (Hc' : core k U R s' V') by (by eapply core_step). intros n Hn. assert (0 <= n < 2 ^ 27) by (unfold user in Hn; lia). split.
    + intros Hv. rewrite (view_None R s' V') by done. apply (er_in (H0 := L) _ _ _ _ _ _ _ _ _ He); [done|lia|done].
    + intros Hv. eapply change_view; [done|done|done|done|done|]. apply (er_out (H0 := L) _ _ _ _ _ _ _ _ _ He); [done|tauto].
Qed.

(** A range that does not end together with a table is unmapped as a whole. *)
Definition good_end (sN eN : Z) : Prop := sN = eN \/ eN mod 512 <> 0.

Lemma vunmap_all_wp {E} R r s V sN eN : core k U R s V -> r ∈ R -> 0x180000 <= sN <= eN /\ eN <= 2 ^ 27 /\ sN < 2 ^ 27 -> good_end sN eN ->
  wp (vunmap r (sN * 4096) ((eN - sN) * 4096))
    (fun _ s' => exists V', step R r s s' V' /\
       forall n, user n -> (sN <= n < eN -> view s' r n = None) /\ (~ sN <= n < eN -> view s' r n = view s r n)) (fun (_ : E) _ => False) s.
Proof.
  intros Hc Hr Hrange Hg. eapply wp_mono; [by apply (vunmap_wp R r s V sN eN)| |done]. intros [] s' (V' & Hst & Hv). exists V'. split; [done|].
  intros n Hn. destruct (Hv n Hn) as [H1 H2]. unfold user in Hn. split.
  - intros Hb. apply H1. destruct Hg as [->|Hg]; [lia|]. by apply (vis0_all sN eN ltac:(lia)).
  - intros Hb. apply H2. intros Hx. apply Hb, (vis0_in sN eN ltac:(lia) n); [lia|done].
Qed.
End ops.

(** * Contents of the pages of an address space

    Storing to a page of one space is seen by that space only, and
    [copy_page], the body of the loop that copies a range from another space,
    gives every page that it visits a page of its own with the same
    contents. *)

Lemma perm_of_range e : 0 <= perm_of e < 32.
Proof. unfold perm_of. destruct (is_valid e), (is_writable e), (is_readable e), (is_user e), (is_executable e); by vm_compute. Qed.

Lemma perm_of_valid e : is_valid e = true -> Z.lor (perm_of e) PERM_VALID = perm_of e.
Proof. unfold perm_of. intros ->. by destruct (is_writable e), (is_readable e), (is_user e), (is_executable e). Qed.

Section data.
Context {A : Type} `{PageAllocLaws A} (k : Z) (U : Z -> Prop).
#[local] Notation St := (PtState (Memory A)).
Implicit Types (s : St) (V : Z -> Prop) (R : gset Z).

Lemma leaf_entry_valid T r n e : leaf T r n = Some e -> is_valid e = true.
Proof. intros He. unfold leaf in He. repeat (apply bind_Some in He as (? & ? & He)). by case_match; simplify_eq. Qed.

Lemma leaf_entry_at T r n e t : leaf T r n = Some e -> node T r [pidx 2 n; pidx 1 n] = Some t -> ent T t (pidx 0 n) = Some e.
Proof.
  unfold leaf. intros He Ht. rewrite Ht in He. cbn [mbind option_bind] in He. apply bind_Some in He as (e' & -> & He). by case_match; simplify_eq.
Qed.

(** ** Loading and storing *)

Definition stored (p : Z) (b : list Z) s : St := mkPt (tables s) (mkMem (<[p := b]> (frames (pool s))) (allocator (pool s))).

Lemma stored_core R s V r n e b : core k U R s V -> r ∈ R -> user n -> leaf (tables s) r n = Some e -> length b = 4096%nat ->
  core k U R (stored (physical_addr e) b s) V.
Proof.
  intros Hc Hr Hn He Hb. destruct (c_data _ _ _ _ _ Hc r n e Hr Hn He) as (_ & _ & Ht & _).
  destruct Hc as [Hk Hp Htb Hl Htr Hs Hd Hi Hre Hpg Hlow]. split; try done.
  - intros t Hx. cbn [stored tables] in Hx. destruct (Htb t Hx) as (? & ? & Hf). split; [done|]. split; [done|]. cbn.
    rewrite lookup_insert_ne; [done|]. intros Heq. rewrite <- Heq, Ht in Hx. by destruct Hx.
  - intros r' n' e' Hr' Hn' He'. destruct (Hd r' n' e' Hr' Hn' He') as (? & ? & ? & b' & Hb' & Hl'). do 3 (split; [done|]). unfold frame_of. cbn.
    destruct (decide (physical_addr e' = physical_addr e)) as [->|]; [rewrite lookup_insert_eq; by exists b|]. rewrite lookup_insert_ne by done. by exists b'.
Qed.

Lemma store_step R s V r n e b : core k U R s V -> r ∈ R -> user n -> leaf (tables s) r n = Some e -> length b = 4096%nat ->
  step k U R r s (stored (physical_addr e) b s) V /\ view (stored (physical_addr e) b s) r n = Some (perm_of e, b) /\
  forall m, user m -> m <> n -> view (stored (physical_addr e) b s) r m = view s r m.
Proof.
  intros Hc Hr Hn He Hb.
  assert (Hv : forall r' m, r' ∈ R -> user m -> (r', m) <> (r, n) -> view (stored (physical_addr e) b s) r' m = view s r' m).
  { intros r' m Hr' Hm Hne. unfold view. cbn [stored tables]. destruct (leaf (tables s) r' m) as [e'|] eqn:He'; [|done]. cbn [mbind option_bind].
    unfold frame_of. cbn. rewrite lookup_insert_ne; [done|]. intros Heq. destruct Hne.
    destruct (c_inj _ _ _ _ _ Hc r n e r' m e' Hr Hr' Hn Hm He He' Heq) as [-> ->]. done. }
  split; [|split].
  - split; [by eapply stored_core|done|done|]. intros r' m Hr' Hne Hm. apply Hv; [done|done|congruence].
  - unfold view. cbn [stored tables]. rewrite He. cbn [mbind option_bind]. unfold frame_of. cbn. by rewrite lookup_insert_eq.
  - intros m Hm Hne. apply Hv; [done|done|congruence].
Qed.

Lemma wp_load {E} (Q : list Z -> St -> Prop) (F : E -> St -> Prop) s p b : frames (pool s) !! p = Some b -> Q b s -> wp (load_page p) Q F s.
Proof. intros Hb HQ. unfold load_page. apply wp_bind. unfold wp, get. cbn. by rewrite Hb. Qed.

Lemma wp_store {E} (Q : unit -> St -> Prop) (F : E -> St -> Prop) s p b : Q tt (stored p b s) -> wp (store_page p b) Q F s.
Proof. done. Qed.

(** ** Copying a range *)

Section copy.
Context R (src dst sN eN : Z) s V.
Hypothesis Hc : core k U R s V.
Hypothesis Hsrc : src ∈ R.
Hypothesis Hdst : dst ∈ R.
Hypothesis Hne : src <> dst.
Hypothesis Hrange : 0x200000 <= sN <= eN /\ eN <= 2 ^ 27 /\ sN < 2 ^ 27.

(** The pages to copy, and those copied before page [m]. *)
Definition to_copy (m n : Z) : Prop := n < m /\ vis sN eN 0 n /\ view s src n <> None.

Definition copied (m : Z) s' : Prop :=
  forall n, user n -> (to_copy m n -> view s dst n = None /\ view s' dst n = view s src n) /\ (~ to_copy m n -> view s' dst n = view s dst n).

Definition copying (m : Z) s' : Prop := exists V', step k U R dst s s' V' /\ copied m s'.

Definition copy_failed s' : Prop :=
  exists V', step k U R dst s s' V' /\ forall n, user n -> ~ sN <= n < eN -> view s' dst n = view s dst n.

Lemma to_copy_in m n : user n -> to_copy m n -> sN <= n < eN.
Proof using Hrange. intros Hn (_ & Hv & _). unfold user in Hn. by apply (vis0_in sN eN ltac:(lia) n ltac:(lia)). Qed.

Lemma copied_next m m' s1 s2 : copied m s1 -> m <= m' -> (forall n, user n -> m <= n < m' -> vis sN eN 0 n -> view s src n = None) ->
  user m' -> vis sN eN 0 m' -> view s src m' <> None -> view s1 dst m' = None -> view s2 dst m' = view s src m' ->
  (forall n, user n -> n <> m' -> view s2 dst n = view s1 dst n) -> copied (m' + 1) s2.
Proof using.
  intros Hcp Hm Hgap Hu Hv Hsome Hnone Hnew Hold n Hn. destruct (decide (n = m')) as [->|Hne'].
  - split; [|intros Hx; destruct Hx; split; [lia|done]]. intros _. split; [|done]. rewrite <- Hnone. symmetry. apply (Hcp m' Hn). intros [? _]. lia.
  - rewrite Hold by done. assert (Hiff : to_copy (m' + 1) n <-> to_copy m n).
    { split; intros (Hlt & Hvn & Hx); (split; [|done]); [|lia]. destruct (decide (n < m)); [done|]. destruct Hx. apply Hgap; [done|lia|done]. }
    rewrite Hiff. by apply Hcp.
Qed.

(** A copy that fails gives back what the iterator finds of the part that was
    copied. *)
Lemma copy_undo m s1 s2 V1 V2 err : step k U R dst s s1 V1 -> copied m s1 -> step k U R dst s1 s2 V2 -> (forall n, user n -> view s2 dst n = view s1 dst n) ->
  forall m', sN <= m' < eN ->
  wp (vunmap dst (sN * 4096) (m' * 4096 - sN * 4096);; fail err) (fun (_ : Z) _ => False) (fun (_ : Vfs.Sys.SysErrorKind) s' => copy_failed s') s2.
Proof using Hc Hdst Hrange.
  intros H1 Hcp H2 Hsame m' Hin. apply wp_bind. replace (m' * 4096 - sN * 4096) with ((m' - sN) * 4096) by lia.
  eapply wp_mono; [apply (vunmap_wp k U R dst s2 V2 sN m' (sp_core _ _ _ _ _ _ _ H2) Hdst ltac:(lia))| |done].
  intros [] s3 (V3 & H3 & Hv). apply wp_fail. exists V3. split; [eapply step_trans; [exact H1|]; by eapply step_trans|].
  intros n Hn Hout. destruct (Hv n Hn) as [_ Hv2]. rewrite Hv2, Hsame by (done || intros Hx; unfold user in Hn; pose proof (vis0_in sN m' ltac:(lia) n ltac:(lia) Hx); lia).
  apply Hcp; [done|]. intros Hx. by apply Hout, (to_copy_in m).
Qed.

Lemma copy_page_wp m m' s1 t e : copying m s1 -> m <= m' -> sN <= m' < eN -> vis sN eN 0 m' ->
  node (tables s1) src [pidx 2 m'; pidx 1 m'] = Some t -> leaf (tables s1) src m' = Some e ->
  (forall n, m <= n < m' -> vis sN eN 0 n -> leaf (tables s1) src n = None) ->
  wp (copy_page dst (sN * 4096) (m' * 4096) (t, pidx 0 m')) (fun _ s2 => copying (m' + 1) s2 /\ stays src s1 s2) (fun _ => copy_failed) s1.
Proof using Hc Hsrc Hdst Hne Hrange.
  intros (V1 & H1 & Hcp) Hm Hin Hv Hnode He Hgap. pose proof (sp_core _ _ _ _ _ _ _ H1) as Hc1.
  assert (Hu : user m') by (unfold user; lia). assert (Hroot : root_of k R src) by (by right).
  assert (Hsee : forall n, user n -> view s1 src n = view s src n) by (intros n Hn; by apply (sp_other _ _ _ _ _ _ _ H1)).
  unfold copy_page. apply wp_bind. eapply wp_read_entry; [by eapply leaf_entry_at|]. apply wp_bind, wp_catch.
  eapply wp_mono; [apply (vmap_page_wp k U R dst s1 V1 m' (perm_of e) Hc1 Hdst ltac:(lia) (perm_of_range e))| |].
  2: { intros err s2 (V2 & H2 & Hsame & _). eapply wp_mono; [apply (copy_undo m s1 s2 V1 V2 err H1 Hcp H2 Hsame m' Hin)|done|done]. }
  intros pa s2 (V2 & e2 & H2 & Hf & He2 & <-). pose proof (sp_core _ _ _ _ _ _ _ H2) as Hc2.
  assert (Hes2 : leaf (tables s2) src m' = Some e) by (by rewrite (sp_leaf _ _ _ _ _ _ _ H2)).
  destruct (c_data _ _ _ _ _ Hc2 src m' e Hsrc Hu Hes2) as (_ & _ & _ & b & Hb & Hlen).
  assert (Hvs : view s2 src m' = Some (perm_of e, b)) by (unfold view; rewrite Hes2; cbn [mbind option_bind]; by rewrite Hb).
  assert (Hv0 : view s src m' = Some (perm_of e, b)) by (rewrite <- Hsee, <- Hvs by done; symmetry; by apply (sp_other _ _ _ _ _ _ _ H2)).
  destruct (Hf m' Hu) as [Hfresh _]. destruct (Hfresh eq_refl) as [Hnone Hnew].
  apply wp_bind. eapply wp_load; [exact Hb|]. apply wp_store.
  destruct (store_step R s2 V2 dst m' e2 b Hc2 Hdst Hu He2 Hlen) as (H3 & Hw & Hrest).
  assert (Hp : perm_of e2 = perm_of e).
  { unfold view in Hnew. rewrite He2 in Hnew. cbn [mbind option_bind] in Hnew. destruct (frame_of s2 e2); [|done]. injection Hnew as Hnew _. rewrite Hnew.
    apply perm_of_valid. by eapply leaf_entry_valid. }
  split; [exists V2; split; [eapply step_trans; [exact H1|]; by eapply step_trans|]|].
  - apply (copied_next m m' s1); [done|done| |done|done|by rewrite Hv0|done|by rewrite Hw, Hp, Hv0|].
    + intros n Hun Hn Hvn. rewrite <- Hsee by done. rewrite (view_None k U R s1 V1) by done. by apply Hgap.
    + intros n Hn Hne'. rewrite Hrest by done. apply Hf; [done|]. done.
  - intros p u Hp' Hnu. cbn [stored tables]. by rewrite (sp_node _ _ _ _ _ _ _ H2).
Qed.

(** What is visible of the range is copied. *)
Lemma copy_range_wp : wp (range_of_entries_mut src (sN * 4096) (eN * 4096) (copy_page dst (sN * 4096)))
  (fun _ s' => copying eN s') (fun _ => copy_failed) s.
Proof using Hc Hsrc Hdst Hne Hrange.
  eapply wp_mono; [apply (range_of_entries_spec src sN eN ltac:(lia) copying (fun _ => copy_failed))| |done].
  - intros m s1 (V1 & H1 & _). apply (c_tree _ _ _ _ _ (sp_core _ _ _ _ _ _ _ H1)). by right.
  - intros m m' s1 t e Hm Hb Hin HJ Hv Hnode He Hgap. by apply (copy_page_wp m m' s1 t e).
  - intros m Hm. exists V. split; [by apply step_refl|]. intros n Hn. split; [|done].
    intros Hx. pose proof (to_copy_in m n Hn Hx). destruct Hx as [? _]. lia.
  - intros [] s' (m & (V' & H1 & Hcp) & Hrest). exists V'. split; [done|]. intros n Hn.
    assert (Hiff : to_copy eN n <-> to_copy m n); [|rewrite Hiff; by apply Hcp].
    split; intros Hx; pose proof (to_copy_in _ n Hn Hx) as Hin; destruct Hx as (Hlt & Hv & Hsome); (split; [|done]); [|lia].
    destruct (decide (n < m)); [done|]. destruct Hsome. rewrite <- (sp_other _ _ _ _ _ _ _ H1 src n) by done.
    rewrite (view_None k U R s' V') by (done || apply (sp_core _ _ _ _ _ _ _ H1)). apply Hrest; [unfold user in Hn; lia|done].
Qed.
End copy.
End data.
