(* ===== verification/VmSpace.v ===== *)
(** * The state of one virtual memory

    [space_ok] is the invariant of a [VMInner]: its areas are disjoint ranges
    below the stack and heap, every page of an area is mapped, and the ranges
    do not end together with a page table.  [tight]: nothing else is
    mapped. *)

From S2P Require Import Prelude Bytes Vfs Buddy PageTable PtTree PtOps PtRange PtIter PtUnmap PtVmap Vm VmCore VmOps.
Import Vfs.

#[local] Open Scope Z_scope.
#[local] Open Scope rw_scope.

(** ** Rounding *)

Lemma round_down a : pg_round_down a = a / 4096 * 4096.
Proof. unfold pg_round_down. change (Z.lnot (4096 - 1)) with (-4096). change (-4096) with (Z.lnot (Z.ones 12)). rewrite <- Z.ldiff_land, Z.ldiff_ones_r by lia.
  rewrite Z.shiftl_mul_pow2, Z.shiftr_div_pow2 by lia. done. Qed.

Lemma round_up a : 0 <= a < 2 ^ 63 -> pg_round_up a = (a + 4095) / 4096 * 4096.
Proof.
  intros Ha. unfold pg_round_up, usize. rewrite Z.mod_small by lia. change (Z.land ?x (Z.lnot (PGSIZE - 1))) with (pg_round_down x).
  rewrite round_down. f_equal. f_equal. lia.
Qed.

Lemma offset_mod a : Z.land a PGSIZE_MASK = a mod 4096.
Proof. change PGSIZE_MASK with (Z.ones 12). by rewrite Z.land_ones. Qed.

Lemma page_mask a : Z.land a (Z.lnot PGSIZE_MASK) = a / 4096 * 4096.
Proof. apply round_down. Qed.

(** ** Areas *)

Definition heap_base : Z := 0x300000.

Definition area_start (a : VmArea) : Z := va a / 4096.
Definition area_stop (a : VmArea) : Z := (va a + area_size a) / 4096.
Definition in_area (a : VmArea) (n : Z) : Prop := area_start a <= n < area_stop a.

Record area_ok (a : VmArea) : Prop := {
  ar_va : va a = area_start a * 4096;
  ar_size : area_size a = (area_stop a - area_start a) * 4096;
  ar_range : 0x200000 <= area_start a < area_stop a /\ area_stop a <= heap_base;
  ar_end : area_stop a mod 512 <> 0;
  ar_perm : 0 <= perm a < 32
}.

Definition areas_apart (a b : VmArea) : Prop := forall n, in_area a n -> in_area b n -> False.

Definition areas_ok (l : list VmArea) : Prop := Forall area_ok l /\ ForallOrdPairs areas_apart l.

Definition in_areas (l : list VmArea) (n : Z) : Prop := exists a, a ∈ l /\ in_area a n.

Lemma area_end a : area_ok a -> end_va a = area_stop a * 4096.
Proof. intros [Hv Hs Hr _ _]. unfold end_va, usize. rewrite Z.mod_small; unfold heap_base in *; lia. Qed.

Lemma area_user a n : area_ok a -> in_area a n -> user n.
Proof. intros Ha Hn. pose proof (ar_range _ Ha). unfold in_area, user, heap_base in *. lia. Qed.

Lemma contains_in a addr : area_ok a -> area_contains a addr = true <-> in_area a (addr / 4096).
Proof.
  intros Ha. unfold area_contains, in_area. rewrite andb_true_iff, Z.leb_le, Z.ltb_lt, (area_end a Ha), (ar_va a Ha). lia.
Qed.

Lemma in_areas_dec l n : in_areas l n \/ ~ in_areas l n.
Proof.
  induction l as [|a l [IH|IH]]; [right; intros (a & Ha & _); by apply elem_of_nil in Ha|left|].
  - destruct IH as (b & Hb & Hn). exists b. split; [by right|done].
  - destruct (decide (area_start a <= n < area_stop a)); [left; exists a; split; [by left|done]|right].
    intros (b & Hb & Hn). apply elem_of_cons in Hb as [->|Hb]; [done|]. apply IH. by exists b.
Qed.

Lemma in_areas_user l n : areas_ok l -> in_areas l n -> user n /\ n < heap_base.
Proof.
  intros [Hl _] (a & Ha & Hn). rewrite Forall_forall in Hl. pose proof (Hl a Ha) as Hok. split; [by eapply area_user|].
  pose proof (ar_range _ Hok). unfold in_area in Hn. lia.
Qed.

Lemma areas_app l a : areas_ok l -> area_ok a -> (forall n, in_areas l n -> ~ in_area a n) -> areas_ok (l ++ [a]).
Proof.
  intros [Hf Hp] Ha Hn. split; [apply Forall_app; by split; [|constructor]|].
  induction Hp as [|b l Hb Hp IH]; [by repeat constructor|]. apply Forall_cons in Hf as [Hb' Hf]. cbn [app]. constructor.
  - apply Forall_app. split; [done|]. constructor; [|done]. intros n H1 H2. apply (Hn n); [exists b; split; [by left|done]|done].
  - apply IH; [done|]. intros n (c & Hc & Hx). apply Hn. exists c. split; [by right|done].
Qed.

Lemma in_areas_app l a n : in_areas (l ++ [a]) n <-> in_areas l n \/ in_area a n.
Proof.
  unfold in_areas. split.
  - intros (b & Hb & Hn). apply elem_of_app in Hb as [Hb|Hb]; [left; by exists b|]. apply list_elem_of_singleton in Hb as ->. by right.
  - intros [(b & Hb & Hn)|Hn]; [exists b|exists a]; (split; [apply elem_of_app|done]); [by left|right; by apply list_elem_of_singleton].
Qed.

(** Two areas that do not share a page do not overlap. *)
Lemma add_apart l a : areas_ok l -> area_ok a -> (forall n, in_areas l n -> ~ in_area a n) -> area_add l a = Some (l ++ [a]).
Proof.
  intros [Hf _] Ha Hn. unfold area_add, is_overlap. pose proof (ar_range _ Ha) as Hr. unfold heap_base in Hr.
  rewrite (ar_va a Ha), (ar_size a Ha). destruct (Z.leb_spec (2 ^ 64) (area_start a * 4096 + (area_stop a - area_start a) * 4096)); [lia|].
  enough (existsb (fun area => (area_start a * 4096 <? end_va area) && (va area <? area_start a * 4096 + (area_stop a - area_start a) * 4096)) l = false) as -> by done.
  apply not_true_iff_false. intros Hx. apply existsb_exists in Hx as (b & Hb & Hx). apply list_elem_of_In in Hb. rewrite Forall_forall in Hf.
  pose proof (Hf b Hb) as Hbo. rewrite (area_end b Hbo), (ar_va b Hbo) in Hx. pose proof (ar_range _ Hbo).
  apply (Hn (Z.max (area_start a) (area_start b))); [exists b; split; [done|]|]; unfold in_area; lia.
Qed.

(** The area that is removed, and the rest. *)
Lemma remove_spec l addr : areas_ok l ->
  match remove_by_va l addr with
  | Some (a, l') => a ∈ l /\ in_area a (addr / 4096) /\ areas_ok l' /\ (forall n, in_areas l' n <-> in_areas l n /\ ~ in_area a n) /\
      (forall b, b ∈ l' -> b ∈ l)
  | None => ~ in_areas l (addr / 4096)
  end.
Proof.
  intros Hok. induction l as [|b l IH]; cbn [remove_by_va]; [intros (a & Ha & _); by apply elem_of_nil in Ha|].
  destruct Hok as [Hf Hp]. apply Forall_cons in Hf as [Hb Hf]. inversion Hp as [|? ? Hbl Hp']; subst; clear Hp; rename Hp' into Hp. rewrite Forall_forall in Hbl.
  assert (Hl : areas_ok l) by done. specialize (IH Hl). destruct (area_contains b addr) eqn:Hc.
  - apply contains_in in Hc; [|done]. split; [by left|]. split; [done|]. split; [done|]. split; [|intros c Hin; by right]. intros n. split.
    + intros (c & Hin & Hn). split; [exists c; split; [by right|done]|]. intros Hn'. by apply (Hbl c Hin n).
    + intros [(c & Hin & Hn) Hnot]. apply elem_of_cons in Hin as [->|Hin]; [done|]. by exists c.
  - assert (Hnc : ~ in_area b (addr / 4096)) by (rewrite <- contains_in, Hc by done; done).
    destruct (remove_by_va l addr) as [[a l']|]; cbn [fmap option_fmap option_map].
    + destruct IH as (Ha & Hin & [Hf' Hp'] & Hiff & Hsub). split; [by right|]. split; [done|].
      split; [split; constructor; [done|done| |done]; apply Forall_forall; intros c Hx; by apply Hbl, Hsub|]. split.
      * intros n. unfold in_areas in *. split.
        -- intros (c & Hx & Hn). apply elem_of_cons in Hx as [->|Hx]; [split; [exists b; split; [by left|done]|]; intros Hn'; by apply (Hbl a Ha n)|].
           destruct (proj1 (Hiff n) ltac:(by exists c)) as [(d & Hd & Hdn) Hnot]. split; [exists d; split; [by right|done]|done].
        -- intros [(c & Hx & Hn) Hnot]. apply elem_of_cons in Hx as [->|Hx]; [exists b; split; [by left|done]|].
           destruct (proj2 (Hiff n) ltac:(split; [by exists c|done])) as (d & Hd & Hdn). exists d. split; [by right|done].
      * intros c Hx. apply elem_of_cons in Hx as [->|Hx]; [by left|right; auto].
    + intros (c & Hx & Hn). apply elem_of_cons in Hx as [->|Hx]; [done|]. apply IH. by exists c.
Qed.

(** * The operations of a virtual memory

    Every operation of [VMInner] on a space in order ends without a panic,
    leaves a space in order and the other spaces alone, and changes the view
    of the space as it should. *)

(** Pages of stack and heap. *)
Definition pages_for (sz : Z) : Z := (sz + 4095) / 4096.
Definition in_heap (sz n : Z) : Prop := heap_base <= n < heap_base + pages_for sz.
Definition size_ok (sz : Z) : Prop := 0 <= sz <= 2 ^ 30 /\ (pages_for sz = 0 \/ pages_for sz mod 512 <> 0).

Lemma size_round sz : size_ok sz -> pg_round_up sz = pages_for sz * 4096 /\ 0 <= pages_for sz <= 0x40000.
Proof. intros [Hs _]. rewrite round_up by lia. unfold pages_for. split; [done|]. lia. Qed.

Section calls.
Context {A : Type} `{PageAllocLaws A} (k : Z) (U : Z -> Prop) (R : gset Z).
#[local] Notation St := (PtState (Memory A)).
Implicit Types (s : St) (V : Z -> Prop) (v : VMInner).

Record space_ok s v : Prop := {
  so_areas : areas_ok (area_list v);
  so_mapped n : in_areas (area_list v) n -> view s (pg_table v) n <> None;
  so_size : size_ok (user_space_size v)
}.

Definition used v (n : Z) : Prop := in_areas (area_list v) n \/ in_heap (user_space_size v) n.

(** Nothing is mapped outside of the areas, stack and heap. *)
Definition tight s v : Prop := forall n, user n -> view s (pg_table v) n <> None -> used v n.

(** The state after an operation on [v]. *)
Record after v s v' s' : Prop := {
  af_step : exists V', step k U R (pg_table v) s s' V';
  af_root : pg_table v' = pg_table v;
  af_ok : space_ok s' v'
}.

(** An operation that fails may leave pages mapped, but takes nothing away. *)
Definition failed v s (lo hi : Z) (v' : VMInner) s' : Prop :=
  after v s v' s' /\ forall n, user n -> view s' (pg_table v) n = view s (pg_table v) n \/ lo <= n < hi /\ view s (pg_table v) n = None.

Lemma after_trans v s v1 s1 v2 s2 : after v s v1 s1 -> after v1 s1 v2 s2 -> after v s v2 s2.
Proof. intros [[V1 H1] R1 _] [[V2 H2] R2 O2]. rewrite R1 in *. split; [|done|done]. exists V2. by eapply step_trans. Qed.

Lemma space_kept s s' v : space_ok s v -> (forall n, in_areas (area_list v) n -> view s' (pg_table v) n = view s (pg_table v) n) -> space_ok s' v.
Proof. intros [Ha Hm Hs] Hv. split; [done| |done]. intros n Hn. rewrite Hv by done. auto. Qed.

Lemma space_mapped s s' v : space_ok s v -> (forall n, user n -> view s' (pg_table v) n = None -> view s (pg_table v) n = None) -> space_ok s' v.
Proof.
  intros [Ha Hm Hs] Hv. split; [done| |done]. intros n Hn Hx. apply (Hm n Hn), Hv; [|done]. by apply (in_areas_user (area_list v)).
Qed.

Lemma areas_below v s n : space_ok s v -> in_areas (area_list v) n -> user n /\ n < heap_base.
Proof. intros [Ha _ _]. by apply in_areas_user. Qed.

Section one.
Context v s V.
Hypothesis Hc : core k U R s V.
Hypothesis Hr : pg_table v ∈ R.
Hypothesis Hok : space_ok s v.

Lemma vmap_kept perm (D : Z -> Prop) s' n : fresh_view perm D s s' (pg_table v) -> (forall n, D n \/ ~ D n) -> in_areas (area_list v) n ->
  view s' (pg_table v) n = view s (pg_table v) n.
Proof using Hok.
  intros Hf Hd Hn. destruct (areas_below v s n Hok Hn) as [Hu _]. destruct (Hf n Hu) as [Hin Hout]. destruct (Hd n) as [Hx|Hx]; [|auto].
  destruct (Hin Hx) as [Hnone _]. by destruct (so_mapped _ _ Hok n Hn).
Qed.

(** A [vmap] that fails. *)
Lemma vmap_failed_after perm V' (D : Z -> Prop) lo hi s' : step k U R (pg_table v) s s' V' -> fresh_view perm D s s' (pg_table v) ->
  (forall n, D n -> lo <= n < hi) -> (forall n, D n \/ ~ D n) -> failed v s lo hi v s'.
Proof using Hok.
  intros Hst Hf HD Hdec. split.
  - split; [by exists V'|done|]. apply (space_kept s); [done|]. intros n Hn. by apply (vmap_kept perm D).
  - intros n Hn. destruct (Hf n Hn) as [Hin Hout]. destruct (Hdec n) as [Hx|Hx]; [right|by left; auto]. destruct (Hin Hx). auto.
Qed.

(** ** Stack and heap *)

Record resized (sz : Z) (lazy : bool) (p : EntryPerm) v' s' : Prop := {
  rs_after : after v s v' s';
  rs_areas : area_list v' = area_list v;
  rs_pages : pages_for (user_space_size v') = pages_for sz;
  rs_size : pages_for sz <> pages_for (user_space_size v) -> user_space_size v' = sz;
  rs_view n : user n -> view s' (pg_table v) n =
    if (heap_base + pages_for sz <=? n) && (n <? heap_base + pages_for (user_space_size v)) then None
    else if negb lazy && (heap_base + pages_for (user_space_size v) <=? n) && (n <? heap_base + pages_for sz) then Some (Z.lor (Z.lor p PERM_USER) PERM_VALID, zero_page)
    else view s (pg_table v) n
}.

Lemma same_size sz lazy p : pages_for sz = pages_for (user_space_size v) -> resized sz lazy p v s.
Proof using Hc Hok.
  intros Heq. split; [|done|by rewrite Heq|congruence|].
  - split; [|done|done]. exists V. by apply step_refl.
  - intros n _. rewrite Heq. destruct lazy; cbn [negb andb]; do 2 (try case_match); try done; lia.
Qed.

Lemma resize_ok sz s' : size_ok sz -> (forall n, in_areas (area_list v) n -> view s' (pg_table v) n = view s (pg_table v) n) ->
  space_ok s' (set_space_size sz v).
Proof using Hok. intros Hsz Hv. destruct Hok as [Ha Hm _]. split; [done| |done]. intros n Hn. cbn [pg_table set_space_size]. rewrite Hv by done. by apply Hm. Qed.

Lemma grow_eager sz p : size_ok sz -> pages_for (user_space_size v) < pages_for sz -> 0 <= p < 32 ->
  wp (lift (vmap (pg_table v) (USER_BASE_VADDR + pg_round_up (user_space_size v)) (pg_round_up sz - pg_round_up (user_space_size v)) (Z.lor p PERM_USER));;
      put_focus (set_space_size sz v))
    (fun _ '(v', s') => resized sz false p v' s')
    (fun _ '(v', s') => v' = v /\ failed v s (heap_base + pages_for (user_space_size v)) (heap_base + pages_for sz) v' s') (v, s).
Proof using Hc Hr Hok.
  intros Hsz Hlt Hp. destruct (size_round _ (so_size _ _ Hok)) as [-> Ho]. destruct (size_round _ Hsz) as [-> Hn].
  set (o := pages_for (user_space_size v)) in *. set (n := pages_for sz) in *. apply wp_bind, wp_lifted.
  replace (USER_BASE_VADDR + o * 4096) with ((heap_base + o) * 4096) by (unfold USER_BASE_VADDR, heap_base; lia).
  replace (n * 4096 - o * 4096) with ((heap_base + n - (heap_base + o)) * 4096) by lia.
  assert (Hp' : 0 <= Z.lor p PERM_USER < 32).
  { split; [apply Z.lor_nonneg; unfold PERM_USER; lia|]. apply (Z.log2_lt_cancel _ 32). rewrite Z.log2_lor by (unfold PERM_USER; lia).
    apply Z.max_lub_lt; [|done]. apply (Z.le_lt_trans _ (Z.log2 31)); [apply Z.log2_le_mono; lia|done]. }
  eapply wp_mono; [apply (vmap_wp k U R (pg_table v) s V (heap_base + o) (heap_base + n) (Z.lor p PERM_USER) Hc Hr); [|done]| |].
  - destruct Hsz as [_ [Hz|Hm]]; [lia|]. fold n in Hm. unfold pages_ok, heap_base. lia.
  - intros [] s' (V' & Hst & Hf). apply wp_refocus.
    assert (Hk : forall m, in_areas (area_list v) m -> view s' (pg_table v) m = view s (pg_table v) m) by (intros m Hm; eapply vmap_kept; [exact Hf|intros; cbn; lia|done]).
    split; [split; [by exists V'|done|by apply resize_ok]|done|done|done|]. intros m Hm. cbn [negb]. fold o n. destruct (Hf m Hm) as [Hin Hout].
    destruct ((heap_base + n <=? m) && (m <? heap_base + o)) eqn:H1; [lia|]. cbn [andb].
    destruct ((heap_base + o <=? m) && (m <? heap_base + n)) eqn:H2; [apply Hin; lia|apply Hout; lia].
  - intros err s' (V' & D & Hst & Hf & HD & Hdec). split; [done|]. by eapply vmap_failed_after.
Qed.

Lemma grow_lazy sz p : size_ok sz -> pages_for (user_space_size v) < pages_for sz -> resized sz true p (set_space_size sz v) s.
Proof using Hc Hok.
  intros Hsz Hlt. split; [|done|done|done|].
  - split; [exists V; by apply step_refl|done|by apply resize_ok].
  - intros n Hn. destruct ((heap_base + pages_for sz <=? n) && (n <? heap_base + pages_for (user_space_size v))) eqn:H1; [lia|done].
Qed.

Lemma shrink {E} sz lazy p : size_ok sz -> pages_for sz < pages_for (user_space_size v) ->
  wp (lift (vunmap (pg_table v) (USER_BASE_VADDR + pg_round_up sz) (pg_round_up (user_space_size v) - pg_round_up sz));; put_focus (set_space_size sz v))
    (fun _ '(v', s') => resized sz lazy p v' s') (fun (_ : E) _ => False) (v, s).
Proof using Hc Hr Hok.
  intros Hsz Hlt. pose proof (so_size _ _ Hok) as Hos. destruct (size_round _ Hos) as [-> Ho]. destruct (size_round _ Hsz) as [-> Hn].
  destruct Hos as [_ Hoe]. set (o := pages_for (user_space_size v)) in *. set (n := pages_for sz) in *. apply wp_bind, wp_lifted.
  replace (USER_BASE_VADDR + n * 4096) with ((heap_base + n) * 4096) by (unfold USER_BASE_VADDR, heap_base; lia).
  replace (o * 4096 - n * 4096) with ((heap_base + o - (heap_base + n)) * 4096) by lia.
  eapply wp_mono; [apply (vunmap_all_wp k U R (pg_table v) s V (heap_base + n) (heap_base + o) Hc Hr)| |done].
  - unfold heap_base. lia.
  - right. unfold heap_base. lia.
  - intros [] s' (V' & Hst & Hv). apply wp_refocus.
    assert (Hk : forall m, in_areas (area_list v) m -> view s' (pg_table v) m = view s (pg_table v) m).
    { intros m Hm. destruct (areas_below v s m Hok Hm) as [Hu Hb]. apply Hv; [done|lia]. }
    split; [split; [by exists V'|done|by apply resize_ok]|done|done|done|]. intros m Hm. destruct (Hv m Hm) as [Hin Hout]. fold n o.
    destruct ((heap_base + n <=? m) && (m <? heap_base + o)) eqn:H1; [apply Hin; lia|].
    destruct (negb lazy && (heap_base + o <=? m) && (m <? heap_base + n)) eqn:H2; [lia|]. apply Hout. lia.
Qed.

Lemma uvalloc_wp sz p lazy : size_ok sz -> 0 <= p < 32 -> (lazy = true -> p = with_rw) ->
  wp (uvalloc sz p lazy) (fun _ '(v', s') => resized sz lazy p v' s')
    (fun _ '(v', s') => v' = v /\ failed v s (heap_base + pages_for (user_space_size v)) (heap_base + pages_for sz) v' s') (v, s).
Proof using Hc Hr Hok.
  intros Hsz Hp Hlazy. unfold uvalloc. apply wp_bind, wp_focus. destruct (size_round _ (so_size _ _ Hok)) as [Ho1 Ho]. destruct (size_round _ Hsz) as [Hn1 Hn].
  destruct (Z.ltb_spec USER_END_VADDR (pg_round_up sz)) as [Hx|_]; [unfold USER_END_VADDR, USER_BASE_VADDR in Hx; lia|].
  destruct (Z.eqb_spec (pg_round_up (user_space_size v)) (pg_round_up sz)) as [Heq|Hne]; [apply wp_ret, same_size; lia|].
  destruct (Z.ltb_spec (pg_round_up (user_space_size v)) (pg_round_up sz)) as [Hlt|Hge].
  - destruct lazy; [|apply grow_eager; lia || done]. apply wp_bind, wp_assert; [rewrite Hlazy by done; done|]. apply wp_refocus, grow_lazy; [done|lia].
  - eapply wp_mono; [apply (shrink sz lazy p); [done|lia]|done|done].
Qed.
End one.
End calls.
