(* ===== verification/VmAreas.v ===== *)
(** * Segments of a virtual memory

    Allocation and deallocation of areas, and the trapframe. *)

From S2P Require Import Prelude Bytes Vfs Buddy PageTable PtTree PtOps PtRange PtIter PtUnmap PtVmap Vm VmCore VmOps VmSpace.
Import Vfs.

#[local] Open Scope Z_scope.
#[local] Open Scope rw_scope.

Section areas.
Context {A : Type} `{PageAllocLaws A} (k : Z) (U : Z -> Prop) (R : gset Z).
#[local] Notation St := (PtState (Memory A)).
Implicit Types (s : St) (V : Z -> Prop) (v : VMInner).

Lemma unmap_area_wp {E} r s V a : core k U R s V -> r ∈ R -> area_ok a ->
  wp (vunmap r (va a) (area_size a))
    (fun _ s' => exists V', step k U R r s s' V' /\
       forall n, user n -> (in_area a n -> view s' r n = None) /\ (~ in_area a n -> view s' r n = view s r n)) (fun (_ : E) _ => False) s.
Proof.
  intros Hc Hr [-> -> Hra He _]. unfold heap_base in Hra. eapply vunmap_all_wp; [done|done|lia|by right].
Qed.

Lemma vunmap_areas_wp {E} r l : Forall area_ok l -> r ∈ R -> forall s V, core k U R s V ->
  wp (vunmap_areas r l)
    (fun _ s' => exists V', step k U R r s s' V' /\
       forall n, user n -> (in_areas l n -> view s' r n = None) /\ (~ in_areas l n -> view s' r n = view s r n)) (fun (_ : E) _ => False) s.
Proof.
  intros Hl Hr. induction Hl as [|a l Ha Hl IH]; intros s V Hc; cbn [vunmap_areas].
  - apply wp_ret. exists V. split; [by apply step_refl|]. intros n _. split; [|done]. intros (a & Ha & _). by apply elem_of_nil in Ha.
  - apply wp_bind. eapply wp_mono; [by apply (unmap_area_wp r s V a)| |done]. intros [] s1 (V1 & H1 & Hv1).
    eapply wp_mono; [apply (IH s1 V1), (sp_core _ _ _ _ _ _ _ H1)| |done]. intros [] s2 (V2 & H2 & Hv2). exists V2. split; [by eapply step_trans|].
    intros n Hn. destruct (Hv1 n Hn) as [I1 O1], (Hv2 n Hn) as [I2 O2]. destruct (in_areas_dec l n) as [Hx|Hx].
    + split; [auto|]. intros Hno. destruct Hno. destruct Hx as (b & Hb & Hbn). exists b. split; [by right|done].
    + rewrite O2 by done. split.
      * intros (b & Hb & Hbn). apply elem_of_cons in Hb as [->|Hb]; [auto|]. destruct Hx. by exists b.
      * intros Hno. apply O1. intros Han. apply Hno. exists a. split; [by left|done].
Qed.

Section one.
Context v s V.
Hypothesis Hc : core k U R s V.
Hypothesis Hr : pg_table v ∈ R.
Hypothesis Hok : space_ok s v.

Record segment_added (a : VmArea) v' s' : Prop := {
  sa_after : after k U R v s v' s';
  sa_vm : v' = set_areas (area_list v ++ [a]) v;
  sa_view : fresh_view (perm a) (in_area a) s s' (pg_table v)
}.

Lemma alloc_segment_wp a : area_ok a ->
  wp (alloc_segment (va a) (area_size a) (perm a)) (fun _ '(v', s') => segment_added a v' s')
    (fun _ '(v', s') => v' = v /\ failed k U R v s (area_start a) (area_stop a) v' s') (v, s).
Proof using Hc Hr Hok.
  intros Ha. pose proof (ar_range _ Ha) as Hra. unfold alloc_segment. apply wp_bind, wp_focus, wp_bind, wp_lifted. rewrite (ar_va _ Ha), (ar_size _ Ha).
  eapply wp_mono; [apply (vmap_wp k U R (pg_table v) s V (area_start a) (area_stop a) (perm a) Hc Hr)| |].
  - unfold pages_ok, heap_base in *. pose proof (ar_end _ Ha). lia.
  - apply (ar_perm _ Ha).
  - intros [] s' (V' & Hst & Hf). fold (in_area a) in Hf.
    assert (Hapart : forall n, in_areas (area_list v) n -> ~ in_area a n).
    { intros n Hn Hin. destruct (Hf n (area_user a n Ha Hin)) as [Hx _]. destruct (Hx Hin) as [Hnone _]. by apply (so_mapped _ _ Hok n Hn). }
    apply wp_bind. eapply wp_unwrap; [|apply wp_refocus].
    { rewrite <- (ar_va _ Ha), <- (ar_size _ Ha). replace (mkArea (va a) (area_size a) (perm a)) with a by (by destruct a). apply add_apart; [apply Hok|done|done]. }
    split; [|done|done]. split; [by exists V'|done|]. split; [by apply areas_app; [apply Hok|..]| |apply Hok].
    intros n Hn. cbn [pg_table set_areas area_list] in *. apply in_areas_app in Hn as [Hn|Hn].
    + rewrite (vmap_kept v s Hok (perm a) (in_area a) s') by (done || unfold in_area; intros; lia). by apply Hok.
    + destruct (Hf n (area_user a n Ha Hn)) as [Hx _]. by destruct (Hx Hn) as [_ ->].
  - intros err s' (V' & D & Hst & Hf & HD & Hdec). split; [done|]. by eapply vmap_failed_after.
Qed.

(** The pages of [D] are gone, with the areas that they made up. *)
Record segments_gone (D : Z -> Prop) v' s' : Prop := {
  sg_after : after k U R v s v' s';
  sg_size : user_space_size v' = user_space_size v;
  sg_areas n : in_areas (area_list v') n <-> in_areas (area_list v) n /\ ~ D n;
  sg_view n : user n -> (D n -> view s' (pg_table v) n = None) /\ (~ D n -> view s' (pg_table v) n = view s (pg_table v) n)
}.

Lemma gone_ok (D : Z -> Prop) l s' : areas_ok l -> (forall n, in_areas l n <-> in_areas (area_list v) n /\ ~ D n) ->
  (forall n, user n -> (D n -> view s' (pg_table v) n = None) /\ (~ D n -> view s' (pg_table v) n = view s (pg_table v) n)) -> space_ok s' (set_areas l v).
Proof using Hok.
  intros Hl Hiff Hv. split; [done| |apply Hok]. intros n Hn. cbn [area_list set_areas pg_table] in *. apply Hiff in Hn as [Hn HnD].
  destruct (areas_below v s n Hok Hn) as [Hu _]. destruct (Hv n Hu) as [_ Hx]. rewrite Hx by done. by apply Hok.
Qed.

Lemma dealloc_segment_wp {addr} :
  wp (dealloc_segment addr)
    (fun b '(v', s') => exists D, segments_gone D v' s' /\ (forall n, D n -> in_areas (area_list v) n /\ in_areas (area_list v) (addr / 4096)) /\ ~ in_areas (area_list v') (addr / 4096))
    (fun (_ : Sys.SysErrorKind) _ => False) (v, s).
Proof using Hc Hr Hok.
  unfold dealloc_segment. apply wp_bind, wp_focus. pose proof (remove_spec (area_list v) addr (so_areas _ _ Hok)) as Hrm.
  destruct (remove_by_va (area_list v) addr) as [[a l']|].
  - destruct Hrm as (Ha & Hin & Hl' & Hiff & Hsub). pose proof (so_areas _ _ Hok) as [Hf _]. rewrite Forall_forall in Hf.
    apply wp_bind, wp_refocus, wp_bind, wp_lifted. eapply wp_mono; [apply (unmap_area_wp (pg_table v) s V a Hc Hr), Hf, Ha| |done].
    intros [] s' (V' & Hst & Hv). apply wp_ret. exists (in_area a). split; [|split].
    + split; [|done|done|done]. split; [by exists V'|done|]. by apply (gone_ok (in_area a)).
    + intros n Hn. by split; exists a.
    + cbn [area_list set_areas]. rewrite Hiff. tauto.
  - apply wp_ret. exists (fun _ => False). split; [|split; [done|done]]. split; [|done|tauto|intros n _; split; [done|done]].
    split; [exists V; by apply step_refl|done|done].
Qed.

Lemma dealloc_all_wp :
  wp dealloc_all_segments (fun _ '(v', s') => v' = set_areas [] v /\ segments_gone (in_areas (area_list v)) v' s') (fun (_ : Sys.SysErrorKind) _ => False) (v, s).
Proof using Hc Hr Hok.
  unfold dealloc_all_segments. apply wp_bind, wp_focus, wp_bind, wp_refocus, wp_lifted. pose proof (so_areas _ _ Hok) as [Hf _].
  eapply wp_mono; [by apply (vunmap_areas_wp (pg_table v) (area_list v) Hf Hr s V)| |done]. intros [] s' (V' & Hst & Hv). split; [done|].
  assert (Hno : forall n, in_areas [] n <-> in_areas (area_list v) n /\ ~ in_areas (area_list v) n).
  { intros n. split; [intros (a & Ha & _); by apply elem_of_nil in Ha|tauto]. }
  split; [|done|done|done]. split; [by exists V'|done|]. apply (gone_ok (in_areas (area_list v))); [|done|done]. split; constructor.
Qed.

(** ** The page of an address *)

Lemma va2pa_wp addr : user (addr / 4096) ->
  wp (va2pa addr) (fun o '(v', s') => v' = v /\ s' = s /\ o = physical_addr <$> leaf (tables s) (pg_table v) (addr / 4096))
    (fun (_ : Sys.SysErrorKind) _ => False) (v, s).
Proof using Hc Hr.
  intros Hu. unfold va2pa. apply wp_bind, wp_focus, wp_bind, wp_lifted.
  eapply wp_mono; [apply (get_entry_spec (fun _ _ => False)); [apply (c_tree _ _ _ _ _ Hc); by right|unfold user in Hu; lia]| |done].
  intros o s' [-> Ho]. destruct (leaf (tables s) (pg_table v) (addr / 4096)) as [e|].
  - destruct Ho as (t & -> & _ & He). apply wp_bind, wp_lifted. eapply wp_read_entry; [exact He|]. by apply wp_ret.
  - subst o. by apply wp_ret.
Qed.
End one.
End areas.

(** * Access to the memory of a space

    Writing bytes to addresses of a space, and page faults. *)

Section bytes.
Context {A : Type}.
#[local] Notation St := (PtState (Memory A)).
Implicit Types (s : St).

(** The byte at an address of a space. *)
Definition byte_at s (r addr : Z) : option Z := view s r (addr / 4096) ≫= fun p => p.2 !! Z.to_nat (addr mod 4096).

Record wrote (r addr : Z) (bytes : list Z) s s' : Prop := {
  wr_byte a : user (a / 4096) ->
    byte_at s' r a = if decide (addr <= a < addr + zlen bytes) then bytes !! Z.to_nat (a - addr) else byte_at s r a;
  wr_perm n : user n -> fst <$> view s' r n = fst <$> view s r n
}.

Lemma wrote_nothing r addr s : wrote r addr [] s s.
Proof. split; [|done]. intros a _. cbn [length]. case_decide; [lia|done]. Qed.

Lemma wrote_app r addr d1 d2 s s1 s2 : wrote r addr d1 s s1 -> wrote r (addr + zlen d1) d2 s1 s2 -> wrote r addr (d1 ++ d2) s s2.
Proof.
  intros [B1 P1] [B2 P2]. split; [|intros n Hn; by rewrite P2, P1]. intros a Ha. rewrite B2, B1, length_app by done.
  repeat case_decide; try lia; [|by rewrite lookup_app_l by lia|done].
  rewrite lookup_app_r by lia. f_equal. lia.
Qed.

Lemma wrote_None r addr d s s' n : wrote r addr d s s' -> user n -> view s' r n = None -> view s r n = None.
Proof. intros [_ Hp] Hn Hx. specialize (Hp n Hn). rewrite Hx in Hp. by destruct (view s r n). Qed.

End bytes.

Section access.
Context {A : Type} `{PageAllocLaws A} (k : Z) (U : Z -> Prop) (R : gset Z).
#[local] Notation St := (PtState (Memory A)).
Implicit Types (s : St) (V : Z -> Prop) (v : VMInner).

(** One store in a page. *)
Lemma wrote_page r addr d s V e b : core k U R s V -> r ∈ R -> user (addr / 4096) -> addr mod 4096 + zlen d <= 4096 ->
  leaf (tables s) r (addr / 4096) = Some e -> frame_of s e = Some b -> length b = 4096%nat ->
  let s' := stored (physical_addr e) (splice (addr mod 4096) d b) s in
  step k U R r s s' V /\ wrote r addr d s s'.
Proof.
  intros Hc Hr Hu Hoff He Hb Hl s'. assert (Hl' : length (splice (addr mod 4096) d b) = 4096%nat) by (rewrite splice_length; lia).
  destruct (store_step k U R s V r _ e _ Hc Hr Hu He Hl') as (Hst & Hnew & Hold). fold s' in Hst, Hnew, Hold. split; [done|].
  assert (Hv : view s r (addr / 4096) = Some (perm_of e, b)) by (unfold view; rewrite He; cbn [mbind option_bind]; by rewrite Hb). split.
  - intros a Ha. unfold byte_at. destruct (decide (a / 4096 = addr / 4096)) as [Heq|Hne].
    + rewrite Heq, Hnew, Hv. cbn [mbind option_bind snd]. rewrite lookup_splice by lia. repeat case_decide; try lia; [|done]. f_equal. lia.
    + rewrite Hold by done. case_decide; [lia|done].
  - intros n Hn. destruct (decide (n = addr / 4096)) as [->|Hne]; [by rewrite Hnew, Hv|by rewrite Hold].
Qed.

(** A page without a byte of the range is as it was. *)
Lemma wrote_outside r addr d s V s' V' n : core k U R s V -> core k U R s' V' -> r ∈ R -> user n -> wrote r addr d s s' ->
  (forall a, addr <= a < addr + zlen d -> a / 4096 <> n) -> view s' r n = view s r n.
Proof.
  intros Hc Hc' Hr Hn [Hb Hp] Hout. specialize (Hp n Hn). destruct (view s' r n) as [[p' b']|] eqn:Hv', (view s r n) as [[p b]|] eqn:Hv; [|done|done|done].
  injection Hp as ->. destruct (view_Some k U R s V r n _ Hc Hr Hn Hv) as (_ & _ & _ & _ & Hl), (view_Some k U R s' V' r n _ Hc' Hr Hn Hv') as (_ & _ & _ & _ & Hl').
  cbn [snd] in *. do 2 f_equal. apply list_eq_Z; [congruence|]. intros i Hi. specialize (Hb (n * 4096 + i)). unfold byte_at in Hb.
  replace ((n * 4096 + i) / 4096) with n in Hb by lia. replace ((n * 4096 + i) mod 4096) with i in Hb by lia. rewrite Hv, Hv' in Hb. cbn [mbind option_bind snd] in Hb.
  specialize (Hb Hn). case_decide as Hx; [|done]. exfalso. apply (Hout (n * 4096 + i) Hx). lia.
Qed.

(** ** write *)

(** A page of the range that cannot be written. *)
Definition blocked r addr len s : Prop :=
  exists n, addr / 4096 <= n <= (addr + len - 1) / 4096 /\
    (view s r n = None \/ exists e, leaf (tables s) r n = Some e /\ is_valid_phy_addr (physical_addr e) = false).

Lemma write_loop_wp v fuel : forall addr bytes s V, core k U R s V -> pg_table v ∈ R -> (length bytes <= fuel)%nat ->
  0x180000000 <= addr -> addr + zlen bytes <= 2 ^ 39 ->
  wp (write_loop fuel addr bytes)
    (fun r '(v', s') => v' = v /\ r = addr + zlen bytes /\ exists V', step k U R (pg_table v) s s' V' /\ wrote (pg_table v) addr bytes s s')
    (fun err '(v', s') => v' = v /\ err = Sys.InvalidArgument /\ exists V' j, step k U R (pg_table v) s s' V' /\ wrote (pg_table v) addr (take j bytes) s s' /\
       blocked (pg_table v) addr (zlen bytes) s') (v, s).
Proof.
  induction fuel as [|fuel IH]; intros addr bytes s V Hc Hr Hf Ha Hend.
  { destruct bytes; [|simpl in Hf; lia]. apply wp_ret. split; [done|]. split; [cbn [length]; lia|]. exists V. split; [by apply step_refl|apply wrote_nothing]. }
  destruct bytes as [|b0 bytes0]; [apply wp_ret; split; [done|]; split; [cbn [length]; lia|]; exists V; split; [by apply step_refl|apply wrote_nothing]|].
  cbn [write_loop]. set (bytes := b0 :: bytes0) in *. assert (Hpos : 0 < zlen bytes) by (unfold bytes; cbn [length]; lia).
  assert (Hu : user (addr / 4096)) by (unfold user; lia). rewrite page_mask, offset_mod. apply wp_bind.
  eapply wp_mono; [apply (va2pa_wp k U R v s V Hc Hr (addr / 4096 * 4096)); by rewrite Z.div_mul by lia| |done].
  intros o [v' s'] (-> & -> & ->). rewrite Z.div_mul by lia.
  assert (Hfail : (view s (pg_table v) (addr / 4096) = None \/ exists e, leaf (tables s) (pg_table v) (addr / 4096) = Some e /\ is_valid_phy_addr (physical_addr e) = false) ->
    exists V' j, step k U R (pg_table v) s s V' /\ wrote (pg_table v) addr (take j bytes) s s /\ blocked (pg_table v) addr (zlen bytes) s).
  { intros Hbl. exists V, 0%nat. split; [by apply step_refl|]. split; [apply wrote_nothing|]. exists (addr / 4096). split; [lia|done]. }
  destruct (leaf (tables s) (pg_table v) (addr / 4096)) as [e|] eqn:He; cbn [fmap option_fmap option_map ok_or]; apply wp_bind.
  2:{ apply wp_fail. split; [done|]. split; [done|]. apply Hfail. left. by apply (view_None k U R s V). }
  apply wp_ret. destruct (is_valid_phy_addr (physical_addr e)) eqn:Hphy; cbn [negb].
  2:{ apply wp_fail. split; [done|]. split; [done|]. apply Hfail. right. by exists e. }
  destruct (c_data _ _ _ _ _ Hc _ _ e Hr Hu He) as (_ & _ & _ & b & Hb & Hl).
  set (cp := Z.min (zlen bytes) (4096 - addr mod 4096)). assert (Hcp : 0 < cp <= zlen bytes /\ addr mod 4096 + cp <= 4096) by (unfold cp; lia).
  set (d := take (Z.to_nat cp) bytes). assert (Hd : zlen d = cp) by (unfold d; rewrite length_take; lia).
  destruct (wrote_page (pg_table v) addr d s V e b Hc Hr Hu ltac:(lia) He Hb Hl) as [H1 W1]. set (s1 := stored _ _ _) in *.
  apply wp_bind, wp_lifted. eapply wp_load; [exact Hb|]. apply wp_bind, wp_lifted, wp_store. fold cp d. fold s1.
  assert (Hnext : usize (addr + cp) = addr + zlen d) by (unfold usize; rewrite Z.mod_small; lia). rewrite Hnext.
  set (rest := drop (Z.to_nat cp) bytes). assert (Hrest : bytes = d ++ rest) by (unfold d, rest; by rewrite take_drop).
  assert (Hlr : zlen rest = zlen bytes - cp) by (unfold rest; rewrite length_drop; lia).
  eapply wp_mono; [apply (IH (addr + zlen d) rest s1 V (sp_core _ _ _ _ _ _ _ H1) Hr); lia| |].
  - intros r [v' s'] (-> & -> & V' & H2 & W2). split; [done|]. split; [lia|]. exists V'. split; [by eapply step_trans|].
    rewrite Hrest. by eapply wrote_app.
  - intros err [v' s'] (-> & -> & V' & j & H2 & W2 & n & Hn & Hbl). split; [done|]. split; [done|]. exists V', (length d + j)%nat.
    split; [by eapply step_trans|]. split; [rewrite Hrest, take_app_add; by eapply wrote_app|].
    exists n. split; [|done]. rewrite Hlr in Hn. split; [|replace (addr + zlen bytes - 1) with (addr + zlen d + (zlen bytes - cp) - 1) by lia; apply Hn].
    etransitivity; [|apply Hn]. apply Z.div_le_mono; lia.
Qed.

(** ** Page faults *)

Lemma page_fault_wp v s V addr : core k U R s V -> pg_table v ∈ R -> space_ok s v ->
  wp (on_page_fault addr)
    (fun _ '(v', s') => v' = v /\ after k U R v s v' s' /\ USER_BASE_VADDR <= addr < USER_BASE_VADDR + user_space_size v /\
       fresh_view (Z.lor with_rw PERM_USER) (fun n => n = addr / 4096) s s' (pg_table v))
    (fun err '(v', s') => v' = v /\ after k U R v s v' s' /\ forall n, user n -> view s' (pg_table v) n = view s (pg_table v) n) (v, s).
Proof.
  intros Hc Hr Hok. destruct (so_size _ _ Hok) as [Hsz _]. unfold on_page_fault. apply wp_bind, wp_focus.
  assert (Hno : after k U R v s v s) by (split; [exists V; by apply step_refl|done|done]).
  unfold usize. rewrite Z.mod_small by (unfold USER_BASE_VADDR; lia).
  destruct (Z.leb_spec USER_BASE_VADDR addr) as [Hlo|]; cbn [andb]; [|by apply wp_fail].
  destruct (Z.ltb_spec addr (USER_BASE_VADDR + user_space_size v)) as [Hhi|]; [|by apply wp_fail].
  assert (Hu : 0x200000 <= addr / 4096 < 2 ^ 27) by (unfold USER_BASE_VADDR in *; lia).
  rewrite round_down. apply wp_bind, wp_lifted.
  eapply wp_mono; [apply (get_entry_spec (fun _ _ => False)); [apply (c_tree _ _ _ _ _ Hc); by right|lia]| |done].
  intros o s' [-> Ho]. destruct o as [l|]; [by apply wp_fail|]. apply wp_bind, wp_lifted.
  eapply wp_mono; [apply (vmap_page_wp k U R (pg_table v) s V (addr / 4096) _ Hc Hr Hu); by vm_compute| |].
  - intros pa s1 (V' & e & Hst & Hf & _). apply wp_ret. split; [done|]. split; [|done]. split; [by exists V'|done|].
    apply (space_kept s); [done|]. intros n Hn. eapply (vmap_kept v s Hok); [exact Hf|intros; cbn beta; lia|done].
  - intros err s1 (V' & Hst & Hsame & _). split; [done|]. split; [|done]. split; [by exists V'|done|].
    apply (space_kept s); [done|]. intros n Hn. apply Hsame. by apply (in_areas_user (area_list v)), Hn; apply Hok.
Qed.
End access.
