(* ===== verification/VmFork.v ===== *)
(** * The trapframe, and copies of a space

    [copy_user_content_from] makes a space look like another one, with pages
    of its own. *)

From S2P Require Import Prelude Bytes Vfs Buddy PageTable PtTree PtOps PtRange PtIter PtUnmap PtVmap Vm VmCore VmOps VmSpace VmAreas.
Import Vfs.

#[local] Open Scope Z_scope.
#[local] Open Scope rw_scope.

Definition trap_page : Z := 0x200009.
Definition trap_area : VmArea := mkArea TASK_TRAPFRAME_BASE 4096 with_rw.

Lemma trap_area_ok : area_ok trap_area.
Proof. by split; vm_compute. Qed.

Lemma in_trap_area n : in_area trap_area n <-> n = trap_page.
Proof. unfold in_area. change (area_start trap_area) with trap_page. change (area_stop trap_area) with (trap_page + 1). lia. Qed.

Lemma user_trap : user trap_page.
Proof. unfold user, trap_page. lia. Qed.

Section fork.
Context {A : Type} `{PageAllocLaws A} (k : Z) (U : Z -> Prop) (R : gset Z).
#[local] Notation St := (PtState (Memory A)).
Implicit Types (s : St) (V : Z -> Prop) (v : VMInner).

(** ** The trapframe *)

Lemma trapframe_wp v s V : core k U R s V -> pg_table v ∈ R -> view s (pg_table v) trap_page <> None ->
  wp trapframe (fun ptr '(v', s') => v' = v /\ s' = s /\ exists e, leaf (tables s) (pg_table v) trap_page = Some e /\ ptr = physical_addr e)
    (fun (_ : Sys.SysErrorKind) _ => False) (v, s).
Proof.
  intros Hc Hr Hm. unfold trapframe. apply wp_bind. eapply wp_mono; [apply (va2pa_wp k U R v s V Hc Hr), user_trap| |done].
  intros o [v' s'] (-> & -> & ->). change (TASK_TRAPFRAME_BASE / 4096) with trap_page. rewrite (view_None k U R s V) in Hm by (done || apply user_trap).
  destruct (leaf (tables s) (pg_table v) trap_page) as [e|]; [|done]. eapply wp_unwrap; [done|]. split; [done|]. split; [done|]. by exists e.
Qed.

Record trap_set (tf : Trapframe) v s v' s' (ptr : Z) : Prop := {
  tr_after : after k U R v s v' s';
  tr_size : user_space_size v' = user_space_size v;
  tr_page : view s' (pg_table v) trap_page = Some (Z.lor with_rw PERM_VALID, splice 0 (trapframe_bytes tf) zero_page);
  tr_area : in_areas (area_list v') trap_page;
  tr_rest : exists D, (forall n, D n -> in_areas (area_list v) trap_page) /\ (forall n, n <> trap_page -> in_areas (area_list v') n <-> in_areas (area_list v) n /\ ~ D n) /\
    forall n, user n -> n <> trap_page -> (D n -> view s' (pg_table v) n = None) /\ (~ D n -> view s' (pg_table v) n = view s (pg_table v) n)
}.

Lemma alloc_trapframe_wp tf v s V : core k U R s V -> pg_table v ∈ R -> space_ok s v -> zlen (trapframe_bytes tf) <= 4096 ->
  wp (alloc_trapframe tf) (fun ptr '(v', s') => trap_set tf v s v' s' ptr) (fun _ '(v', s') => after k U R v s v' s') (v, s).
Proof.
  intros Hc Hr Hok Htf. unfold alloc_trapframe. apply wp_bind. eapply wp_mono; [by apply (dealloc_segment_wp k U R v s V)| |done].
  intros b [v1 s1] (D & [Ha1 Hs1 Hl1 Hv1] & HD & Hnot). pose proof (af_root _ _ _ _ _ _ _ Ha1) as Hr1. destruct (af_step _ _ _ _ _ _ _ Ha1) as [V1 H1].
  pose proof (sp_core _ _ _ _ _ _ _ H1) as Hc1. apply wp_bind. change (alloc_segment TASK_TRAPFRAME_BASE 4096 with_rw) with (alloc_segment (A := A) (va trap_area) (area_size trap_area) (perm trap_area)).
  eapply wp_mono; [apply (alloc_segment_wp k U R v1 s1 V1 Hc1 ltac:(by rewrite Hr1) (af_ok _ _ _ _ _ _ _ Ha1) _ trap_area_ok)| |].
  2:{ intros err [v2 s2] [-> [Ha2 _]]. by eapply after_trans. }
  intros [] [v2 s2] [Ha2 -> Hf]. destruct (af_step _ _ _ _ _ _ _ Ha2) as [V2 H2]. pose proof (sp_core _ _ _ _ _ _ _ H2) as Hc2. rewrite Hr1 in *.
  destruct (Hf trap_page user_trap) as [Hnew _]. destruct (Hnew (proj2 (in_trap_area _) eq_refl)) as [_ Hpage]. apply wp_bind.
  eapply wp_mono; [apply (trapframe_wp _ s2 V2 Hc2); [by cbn; rewrite Hr1|cbn [set_areas pg_table]; by rewrite Hr1, Hpage]| |done].
  intros ptr [v3 s3] (-> & -> & e & He & ->). cbn [set_areas pg_table] in He. rewrite Hr1 in He.
  destruct (view_Some k U R s2 V2 _ _ _ Hc2 Hr user_trap Hpage) as (e' & He' & Hpe & Hb & Hlb). assert (e' = e) as -> by congruence. cbn [fst snd] in *.
  apply wp_bind, wp_lifted. eapply wp_load; [exact Hb|]. apply wp_bind, wp_lifted, wp_store, wp_ret.
  destruct (store_step k U R s2 V2 (pg_table v) trap_page e (splice 0 (trapframe_bytes tf) zero_page) Hc2 Hr user_trap He ltac:(rewrite splice_length; lia)) as (H3 & Hw & Hrest).
  set (s3 := stored _ _ _) in *. assert (Hroot : pg_table (set_areas (area_list v1 ++ [trap_area]) v1) = pg_table v) by done.
  assert (Hsee : forall n, user n -> n <> trap_page -> (D n -> view s3 (pg_table v) n = None) /\ (~ D n -> view s3 (pg_table v) n = view s (pg_table v) n)).
  { intros n Hn Hne. rewrite Hrest by done. destruct (Hf n Hn) as [_ Hsame]. rewrite Hsame by (by rewrite in_trap_area). by apply Hv1. }
  split; [|done|by rewrite Hw, Hpe|apply in_areas_app; right; by apply in_trap_area|].
  - split; [|done|].
    + exists V2. eapply step_trans; [exact H1|]. by eapply step_trans.
    + apply (space_mapped s2); [apply Ha2|]. cbn [set_areas pg_table]. rewrite Hr1. intros n Hn. destruct (decide (n = trap_page)) as [->|Hne]; [by rewrite Hw|by rewrite Hrest].
  - exists D. split; [intros n Hn; by destruct (HD n Hn)|]. split; [|done]. intros n Hne. cbn [set_areas area_list]. rewrite in_areas_app, in_trap_area, Hl1. tauto.
Qed.
(** ** Copying *)

Lemma step_space r s s' V' v : step k U R r s s' V' -> pg_table v ∈ R -> pg_table v <> r -> space_ok s v -> space_ok s' v.
Proof.
  intros Hst Hr Hne Hok. apply (space_kept s); [done|]. intros n Hn. apply (sp_other _ _ _ _ _ _ _ Hst); [done|done|].
  by destruct (areas_below v s n Hok Hn).
Qed.

Section copy.
Context (src dst : Z).
Hypothesis Hsrc : src ∈ R.
Hypothesis Hdst : dst ∈ R.
Hypothesis Hne : src <> dst.

(** The pages of [D] of the one space are pages of the other as well. *)
Definition shared (D : Z -> Prop) s s' : Prop :=
  forall n, user n ->
    (D n -> view s src n <> None -> view s dst n = None /\ view s' dst n = view s src n) /\ (~ (D n /\ view s src n <> None) -> view s' dst n = view s dst n).

Lemma copy_content_wp v s V sN eN : core k U R s V -> pg_table v = dst -> 0x200000 <= sN <= eN /\ eN <= 2 ^ 27 /\ sN < 2 ^ 27 -> good_end sN eN ->
  wp (copy_content_from (sN * 4096) ((eN - sN) * 4096) src)
    (fun _ '(v', s') => v' = v /\ exists V', step k U R dst s s' V' /\ shared (fun n => sN <= n < eN) s s')
    (fun _ '(v', s') => v' = v /\ exists V', step k U R dst s s' V' /\ forall n, user n -> ~ sN <= n < eN -> view s' dst n = view s dst n) (v, s).
Proof using Hsrc Hdst Hne.
  intros Hc Hv Hrange Hg. unfold copy_content_from. apply wp_bind, wp_focus, wp_lifted. rewrite Hv.
  replace (sN * 4096 + (eN - sN) * 4096) with (eN * 4096) by lia.
  eapply wp_mono; [by apply (copy_range_wp k U R src dst sN eN s V)| |].
  - intros [] s' (V' & Hst & Hcp). split; [done|]. exists V'. split; [done|]. intros n Hn. assert (Hn' : 0 <= n < 2 ^ 27) by (unfold user in Hn; lia).
    assert (Hiff : to_copy src sN eN s eN n <-> sN <= n < eN /\ view s src n <> None).
    { split; [intros Hx; split; [by apply (to_copy_in src sN eN s ltac:(lia) eN n)|apply Hx]|]. intros [Hin Hsome]. split; [lia|]. split; [|done].
      destruct Hg as [->|Hg]; [lia|]. by apply (vis0_all sN eN ltac:(lia)). }
    destruct (Hcp n Hn) as [H1 H2]. rewrite Hiff in H1, H2. split; [intros; by apply H1|done].
  - intros err s' (V' & Hst & Hx). split; [done|]. by exists V'.
Qed.

Lemma copy_area_wp v s V a : core k U R s V -> pg_table v = dst -> area_ok a ->
  wp (copy_content_from (va a) (area_size a) src)
    (fun _ '(v', s') => v' = v /\ exists V', step k U R dst s s' V' /\ shared (in_area a) s s')
    (fun _ '(v', s') => v' = v /\ exists V', step k U R dst s s' V' /\ forall n, user n -> ~ in_area a n -> view s' dst n = view s dst n) (v, s).
Proof using Hsrc Hdst Hne.
  intros Hc Hv [-> -> Hra He _]. unfold heap_base in Hra. eapply copy_content_wp; [done|done|lia|by right].
Qed.

(** An area that was copied belongs to the copy. *)
Lemma copied_area v s s' V' a : pg_table v = dst -> space_ok s v -> area_ok a -> (forall n, in_area a n -> view s src n <> None) ->
  (forall n, in_areas (area_list v) n -> ~ in_area a n) -> step k U R dst s s' V' -> shared (in_area a) s s' ->
  area_add (area_list v) a = Some (area_list v ++ [a]) /\ space_ok s' (set_areas (area_list v ++ [a]) v).
Proof using.
  intros Hv Hok Ha Hm Hap Hst Hsh. split; [apply add_apart; [apply Hok|done|done]|]. split; [apply areas_app; [apply Hok|done|done]| |apply Hok].
  intros n Hn. cbn [set_areas area_list pg_table] in *. rewrite Hv. apply in_areas_app in Hn as [Hn|Hn].
  - destruct (areas_below v s n Hok Hn) as [Hu _]. destruct (Hsh n Hu) as [_ ->]; [rewrite <- Hv; by apply Hok|]. intros [Hx _]. by apply (Hap n).
  - destruct (Hsh n (area_user a n Ha Hn)) as [Hx _]. destruct (Hx Hn (Hm n Hn)) as [_ ->]. by apply Hm.
Qed.

Lemma copy_areas_wp l : forall v s V, core k U R s V -> pg_table v = dst -> space_ok s v -> areas_ok l ->
  (forall n, in_areas (area_list v) n -> ~ in_areas l n) -> (forall n, in_areas l n -> view s src n <> None) ->
  wp (copy_areas src l)
    (fun _ '(v', s') => v' = set_areas (area_list v ++ l) v /\ after k U R v s v' s' /\ shared (in_areas l) s s')
    (fun _ '(v', s') => after k U R v s v' s') (v, s).
Proof using Hsrc Hdst Hne.
  induction l as [|a l IH]; intros v s V Hc Hv Hok Hl Hap Hm; cbn [copy_areas].
  { apply wp_ret. rewrite app_nil_r. split; [by destruct v|]. split; [split; [exists V; by apply step_refl|done|done]|].
    intros n _. split; [|done]. intros (a & Ha & _). by apply elem_of_nil in Ha. }
  destruct Hl as [Hf Hp]. apply Forall_cons in Hf as [Ha Hf]. inversion Hp as [|? ? Hal Hp']; subst. rewrite Forall_forall in Hal.
  assert (Hina : forall n, in_area a n -> in_areas (a :: l) n) by (intros n Hn; exists a; split; [by left|done]).
  assert (Hinl : forall n, in_areas l n -> in_areas (a :: l) n) by (intros n (b & Hb & Hn); exists b; split; [by right|done]).
  apply wp_bind. eapply wp_mono; [apply (copy_area_wp v s V a Hc Hv Ha)| |].
  2:{ intros err [v' s'] (-> & V' & Hst & Hx). split; [exists V'; by rewrite Hv|done|]. apply (space_kept s); [done|]. intros n Hn.
      rewrite Hv. destruct (areas_below v s n Hok Hn) as [Hu _]. apply Hx; [done|]. intros Hy. apply (Hap n Hn). auto. }
  intros [] [v' s1] (-> & V1 & H1 & Hsh). pose proof (sp_core _ _ _ _ _ _ _ H1) as Hc1.
  destruct (copied_area v s s1 V1 a Hv Hok Ha ltac:(auto) ltac:(intros n Hn Hx; apply (Hap n Hn); auto) H1 Hsh) as [Hadd Hok1].
  apply wp_bind, wp_focus, wp_bind. eapply wp_unwrap; [exact Hadd|]. apply wp_bind, wp_refocus.
  assert (Hsee : forall n, user n -> view s1 src n = view s src n) by (intros n Hn; by apply (sp_other _ _ _ _ _ _ _ H1)).
  assert (Hdis : forall n, in_areas l n -> ~ in_area a n) by (intros n (b & Hb & Hn) Hx; by apply (Hal b Hb n)).
  set (v1 := set_areas (area_list v ++ [a]) v) in *.
  assert (Haf : after k U R v s v1 s1) by (split; [exists V1; by rewrite Hv|done|done]).
  eapply wp_mono; [apply (IH v1 s1 V1 Hc1 Hv Hok1)| |].
  - done.
  - intros n Hn. cbn [v1 set_areas area_list] in Hn. apply in_areas_app in Hn as [Hn|Hn]; [intros Hx; apply (Hap n Hn); auto|intros Hx; by apply (Hdis n)].
  - intros n Hn. rewrite Hsee by (apply (in_areas_user l); done). auto.
  - intros [] [v2 s2] (-> & Ha2 & Hsh2). split; [unfold v1; cbn [set_areas area_list]; by rewrite <- app_assoc|].
    split; [by eapply after_trans|].
    intros n Hn. destruct (Hsh n Hn) as [S1 O1], (Hsh2 n Hn) as [S2 O2]. rewrite Hsee in S2, O2 by done. split.
    + intros (b & Hb & Hbn) Hsome. apply elem_of_cons in Hb as [->|Hb].
      * destruct (S1 Hbn Hsome) as [Hnone Heq]. split; [done|]. rewrite O2; [done|]. intros [Hx _]. by apply (Hdis n).
      * assert (Hx : in_areas l n) by (by exists b). destruct (S2 Hx Hsome) as [Hnone Heq]. split; [|done]. rewrite <- O1; [done|]. intros [Hy _]. by apply (Hdis n).
    + intros Hno. rewrite O2, O1; [done| |]; intros [Hx Hy]; apply Hno; auto.
  - intros err [v2 s2] Ha2. by eapply after_trans.
Qed.
End copy.

(** ** The copy of a whole space *)

Section whole.
Context (u v : VMInner) s V.
Hypothesis Hc : core k U R s V.
Hypothesis Hu : pg_table u ∈ R.
Hypothesis Hv : pg_table v ∈ R.
Hypothesis Hne : pg_table u <> pg_table v.
Hypothesis Hoku : space_ok s u.
Hypothesis Hokv : space_ok s v.

(** The space has no areas, no stack and no heap. *)
Record emptied v' s' : Prop := {
  em_after : after k U R v s v' s';
  em_areas : area_list v' = [];
  em_view n : tight s v -> user n -> view s' (pg_table v) n = None
}.

Lemma size_zero : size_ok 0.
Proof using. unfold size_ok, pages_for. lia. Qed.

Lemma empty_wp : wp (dealloc_all_segments;; uvalloc 0 0 false) (fun _ '(v', s') => emptied v' s') (fun _ '(v', s') => after k U R v s v' s') (v, s).
Proof using Hc Hv Hokv.
  apply wp_bind. eapply wp_mono; [by apply (dealloc_all_wp k U R v s V)| |done]. intros [] [v1 s1] [-> [Ha1 _ _ Hv1]].
  destruct (af_step _ _ _ _ _ _ _ Ha1) as [V1 H1]. pose proof (af_ok _ _ _ _ _ _ _ Ha1) as Hok1. set (v1 := set_areas [] v) in *.
  eapply wp_mono; [apply (uvalloc_wp k U R v1 s1 V1 (sp_core _ _ _ _ _ _ _ H1) Hv Hok1 0 0 false size_zero); done| |].
  - intros [] [v2 s2] [Ha2 Hl2 _ _ Hv2]. split; [by eapply after_trans|by rewrite Hl2|]. intros n Ht Hn.
    change (pg_table v1) with (pg_table v) in Hv2. change (user_space_size v1) with (user_space_size v) in Hv2. rewrite Hv2 by done.
    change (pages_for 0) with 0. destruct ((heap_base + 0 <=? n) && (n <? heap_base + pages_for (user_space_size v))) eqn:H2; [done|].
    destruct (_ && (n <? heap_base + 0)) eqn:H3; [pose proof (size_round _ (so_size _ _ Hokv)); lia|].
    destruct (Hv1 n Hn) as [Hin Hout]. destruct (in_areas_dec (area_list v) n) as [Hx|Hx]; [auto|]. rewrite Hout by done.
    destruct (view s (pg_table v) n) eqn:Hy; [|done]. destruct (Ht n Hn ltac:(congruence)) as [?|Hh]; [done|]. unfold in_heap in Hh. lia.
  - intros err [v2 s2] (_ & Ha2 & _). by eapply after_trans.
Qed.

Record cloned v' s' : Prop := {
  cl_after : after k U R v s v' s';
  cl_areas : area_list v' = area_list u;
  cl_size : user_space_size v' = user_space_size u;
  cl_view n : tight s u -> tight s v -> user n -> view s' (pg_table v) n = view s (pg_table u) n
}.

(** Stack and heap, once the areas are copied. *)
Lemma copy_heap_wp v3 s3 V3 : step k U R (pg_table v) s s3 V3 -> space_ok s3 v3 -> pg_table v3 = pg_table v -> area_list v3 = area_list u ->
  (forall n, tight s u -> tight s v -> user n -> (in_areas (area_list u) n -> view s3 (pg_table v) n = view s (pg_table u) n) /\
     (~ in_areas (area_list u) n -> view s3 (pg_table v) n = None)) ->
  wp (copy_content_from USER_BASE_VADDR (pg_round_up (user_space_size u)) (pg_table u);; do x <- get_focus; put_focus (set_space_size (user_space_size u) x))
    (fun _ '(v', s') => cloned v' s') (fun _ '(v', s') => after k U R v s v' s') (v3, s3).
Proof using Hu Hv Hne Hoku.
  intros H3 Hok3 Hr3 Hl3 Hview. destruct (size_round _ (so_size _ _ Hoku)) as [-> Hb]. pose proof (so_size _ _ Hoku) as [_ He]. set (n := pages_for (user_space_size u)) in *.
  change USER_BASE_VADDR with (heap_base * 4096). replace (n * 4096) with ((heap_base + n - heap_base) * 4096) by lia. apply wp_bind.
  assert (Hkeep : forall s4, (forall m, user m -> ~ heap_base <= m < heap_base + n -> view s4 (pg_table v) m = view s3 (pg_table v) m) -> space_ok s4 v3).
  { intros s4 Hx. apply (space_kept s3); [done|]. intros m Hm. destruct (areas_below v3 s3 m Hok3 Hm). rewrite Hr3. apply Hx; [done|lia]. }
  eapply wp_mono; [apply (copy_content_wp (pg_table u) (pg_table v) Hu Hv Hne v3 s3 V3 heap_base (heap_base + n) (sp_core _ _ _ _ _ _ _ H3) Hr3)| |].
  - unfold heap_base. lia.
  - unfold good_end, heap_base. lia.
  - intros [] [v4 s4] (-> & V4 & H4 & Hsh). apply wp_bind, wp_focus, wp_refocus.
    assert (Hok4 : space_ok s4 v3). { apply Hkeep. intros m Hm Hout. destruct (Hsh m Hm) as [_ Hx]. apply Hx. tauto. }
    split; [|done|done|].
    + split; [exists V4; by eapply step_trans|done|]. destruct Hok4 as [Ha Hm _]. by split; [| |apply Hoku].
    + intros m Htu Htv Hm. assert (Hsee : view s3 (pg_table u) m = view s (pg_table u) m) by (by apply (sp_other _ _ _ _ _ _ _ H3)).
      destruct (Hsh m Hm) as [Hin Hout]. rewrite Hsee in Hin, Hout. destruct (Hview m Htu Htv Hm) as [Hva Hvn].
      destruct (view s (pg_table u) m) as [p|] eqn:Hp.
      * destruct (Htu m Hm ltac:(congruence)) as [Hx|Hx]; [|by apply Hin]. rewrite Hout; [by apply Hva|]. destruct (areas_below u s m Hoku Hx). lia.
      * rewrite Hout by tauto. destruct (in_areas_dec (area_list u) m); auto.
  - intros err [v4 s4] (-> & V4 & H4 & Hx). split; [exists V4; by eapply step_trans|done|]. by apply Hkeep.
Qed.

Lemma copy_user_wp : wp (copy_user_content_from u) (fun _ '(v', s') => cloned v' s') (fun _ '(v', s') => after k U R v s v' s') (v, s).
Proof using Hc Hu Hv Hne Hoku Hokv.
  pose proof empty_wp as He. unfold copy_user_content_from. eapply wp_seq; [exact He|].
  intros [] [v2 s2] [Ha2 Hl2 Hv2]. destruct (af_step _ _ _ _ _ _ _ Ha2) as [V2 H2]. pose proof (af_root _ _ _ _ _ _ _ Ha2) as Hr2.
  pose proof (step_space _ _ _ _ u H2 Hu Hne Hoku) as Hoku2. apply wp_bind.
  assert (Hno : forall n, ~ in_areas (area_list v2) n) by (intros n (a & Ha & _); rewrite Hl2 in Ha; by apply elem_of_nil in Ha).
  eapply wp_mono; [apply (copy_areas_wp (pg_table u) (pg_table v) Hu Hv Hne (area_list u) v2 s2 V2 (sp_core _ _ _ _ _ _ _ H2) Hr2 (af_ok _ _ _ _ _ _ _ Ha2))| |].
  - apply Hoku.
  - intros n Hn. by destruct (Hno n).
  - intros n Hn. by apply Hoku2.
  - intros [] [v3 s3] (-> & Ha3 & Hsh). pose proof (after_trans _ _ _ _ _ _ _ _ _ Ha2 Ha3) as Ha. destruct (af_step _ _ _ _ _ _ _ Ha) as [V3 H3].
    apply (copy_heap_wp _ s3 V3 H3 (af_ok _ _ _ _ _ _ _ Ha3)); [done|cbn; by rewrite Hl2|]. intros n Htu Htv Hn.
    assert (Hsee : view s2 (pg_table u) n = view s (pg_table u) n) by (by apply (sp_other _ _ _ _ _ _ _ H2)).
    destruct (Hsh n Hn) as [Hin Hout]. rewrite Hsee in Hin, Hout. split; [|intros Hx; rewrite Hout by tauto; auto].
    intros Hx. destruct (Hin Hx) as [_ ?]; [|done]. rewrite <- Hsee. by apply Hoku2.
  - intros err [v3 s3] Ha3. by eapply after_trans.
Qed.
End whole.
End fork.
