(* ===== verification/VmDrop.v ===== *)
(** * New address spaces

    [with_kernel_vm] adds a space that has the tables of the kernel and
    nothing of its own. *)

From S2P Require Import Prelude Bytes Vfs Buddy PageTable PtTree PtOps PtRange PtIter PtUnmap PtVmap Vm VmCore VmOps VmSpace VmAreas.
Import Vfs.

#[local] Open Scope Z_scope.
#[local] Open Scope rw_scope.

(** The table [l] of a new root: entries of the kernel first, and nothing. *)
Definition kernel_entries (T : gmap Z (list Z)) (k : Z) (i : nat) (l : list Z) : Prop :=
  length l = 512%nat /\ (forall j, (j < i)%nat -> l !! j = ent T k j) /\ forall j, (i <= j < 512)%nat -> l !! j = Some 0.

#[global] Instance above_dec n q : Decision (above n q).
Proof. destruct q as [|x q]; simpl; apply _. Defined.

Section root.
Context {A : Type} `{PageAllocLaws A} (k : Z) (U : Z -> Prop).
#[local] Notation St := (PtState (Memory A)).

Section new.
Context (R : gset Z) (s : St) (V : Z -> Prop) (p : Z) (l : list Z) (a : A).
Hypothesis Hc : core k U R s V.
Hypothesis Hp : V p.
Hypothesis Hpg : pa_page p.
Hypothesis Hl : kernel_entries (tables s) k low l.
Hypothesis Ha : pa_ok a (fun q => V q /\ q <> p).

Definition added : St := mkPt (<[p := l]> (tables s)) (mkMem (<[p := zero_page]> (frames (pool s))) a).

Lemma new_table : tables s !! p = None.
Proof using Hc Hp. destruct (tables s !! p) eqn:Hx; [|done]. destruct (c_table _ _ _ _ _ Hc p ltac:(by eexists)) as (_ & ? & _). done. Qed.

Lemma new_root : ~ root_of k R p.
Proof using Hc Hp. intros Hr. pose proof (to_node _ _ (c_tree _ _ _ _ _ Hc p Hr) [] p ltac:(simpl; lia) eq_refl) as [? Hx]. by rewrite new_table in Hx. Qed.

Lemma added_old_sub r q t i : root_of k R r -> (length q <= 2)%nat -> node (tables s) r q = Some t -> ent (tables added) t i = ent (tables s) t i.
Proof using Hc Hp.
  intros Hr Hq Hn. unfold ent, added. cbn [tables]. rewrite lookup_insert_ne; [done|]. intros <-.
  destruct (to_node _ _ (c_tree _ _ _ _ _ Hc r Hr) q p Hq Hn) as [? Hx]. by rewrite new_table in Hx.
Qed.

Lemma added_old_node r q : root_of k R r -> (length q <= 2)%nat -> node (tables added) r q = node (tables s) r q.
Proof using Hc Hp.
  intros Hr. induction q as [|i q IH] using rev_ind; [done|]. rewrite length_app. cbn [length]. intros Hq. rewrite !node_snoc, IH by lia.
  destruct (node (tables s) r q) as [t|] eqn:Hn; [|done]. cbn [mbind option_bind]. unfold sub. by rewrite (added_old_sub r q t i Hr ltac:(lia) Hn).
Qed.

Lemma added_old_leaf r n : root_of k R r -> leaf (tables added) r n = leaf (tables s) r n.
Proof using Hc Hp.
  intros Hr. unfold leaf. rewrite added_old_node by (done || simpl; lia). destruct (node (tables s) r _) as [t|] eqn:Hn; [|done].
  cbn [mbind option_bind]. by rewrite (added_old_sub r [pidx 2 n; pidx 1 n]).
Qed.

Lemma added_sub i : sub (tables added) p i = if decide (i < low)%nat then sub (tables s) k i else None.
Proof using Hl.
  unfold sub, ent, added. cbn [tables]. rewrite lookup_insert_eq. cbn [mbind option_bind]. destruct Hl as (Hlen & Hlo & Hhi). case_decide as Hi.
  - rewrite Hlo by done. unfold ent. done.
  - destruct (decide (i < 512)%nat); [rewrite Hhi by lia; done|]. by rewrite lookup_ge_None_2 by lia.
Qed.

Lemma root_k : root_of k R k.
Proof using. by left. Qed.

(** Behind the root there are the tables of the kernel only. *)
Lemma added_node q : (length q <= 2)%nat -> q <> [] -> node (tables added) p q = if decide (above low q) then None else node (tables s) k q.
Proof using Hc Hp Hl.
  assert (H1 : forall x, node (tables added) p [x] = if decide (above low [x]) then None else node (tables s) k [x]).
  { intros x. change (node (tables added) p [x]) with (sub (tables added) p x). rewrite added_sub. change (node (tables s) k [x]) with (sub (tables s) k x). unfold above. repeat case_decide; done || lia. }
  revert q. apply (path_cases (fun q => q <> [] -> node (tables added) p q = if decide (above low q) then None else node (tables s) k q)); [done|intros x _; apply H1|]. intros x y _. change [x; y] with ([x] ++ [y]). rewrite !node_snoc, H1.
  assert (Hiff : above low ([x] ++ [y]) <-> above low [x]) by done. destruct (decide (above low ([x] ++ [y]))), (decide (above low [x])); try tauto.
  destruct (node (tables s) k [x]) as [t|] eqn:Hn; [|done]. cbn [mbind option_bind]. unfold sub.
  by rewrite (added_old_sub k [x] t y root_k ltac:(simpl; lia) Hn).
Qed.

Lemma added_cases q t : (length q <= 2)%nat -> node (tables added) p q = Some t -> q = [] /\ t = p \/ q <> [] /\ ~ above low q /\ node (tables s) k q = Some t /\ t <> p.
Proof using Hc Hp Hl.
  intros Hq Hn. destruct (decide (q = [])) as [->|Hne]; [left; by injection Hn as <-|right]. rewrite added_node in Hn by done. case_decide; [done|].
  split; [done|]. split; [done|]. split; [done|]. intros ->. destruct (to_node _ _ (c_tree _ _ _ _ _ Hc k root_k) q p Hq Hn) as [? Hx]. by rewrite new_table in Hx.
Qed.

Lemma added_tree r : root_of k (R ∪ {[p]}) r -> tree_ok (tables added) r.
Proof using Hc Hp Hpg Hl Ha.
  assert (Hlen : forall t l', tables added !! t = Some l' -> length l' = 512%nat).
  { intros t l'. unfold added. cbn [tables]. rewrite lookup_insert_Some. intros [[_ <-]|[_ Hx]]; [apply Hl|by apply (c_len _ _ _ _ _ Hc t)]. }
  assert (Hdom : forall t, is_Some (tables s !! t) -> is_Some (tables added !! t)).
  { intros t Ht. unfold added. cbn [tables]. rewrite lookup_insert_is_Some'. by right. }
  intros Hr. destruct (decide (r = p)) as [->|Hne].
  - pose proof (c_tree _ _ _ _ _ Hc k root_k) as Hk. split; [done|..].
    + intros q t Hq Hn. destruct (added_cases q t Hq Hn) as [[_ ->]|(_ & _ & Hx & _)]; [unfold added; cbn [tables]; rewrite lookup_insert_eq; by eexists|].
      apply Hdom. by apply (to_node _ _ Hk q).
    + intros q q' t Hq Hq' Hn Hn'. destruct (added_cases q t Hq Hn) as [[-> ->]|(_ & _ & Hx & Hxp)], (added_cases q' _ Hq' Hn') as [[-> Ht]|(_ & _ & Hx' & Hxp')]; try done.
      by apply (to_inj _ _ Hk q q' t).
    + intros q t i e Hq Hn He Hv. destruct (added_cases q t ltac:(lia) Hn) as [[-> ->]|(_ & _ & Hx & _)].
      * unfold ent, added in He. cbn [tables] in He. rewrite lookup_insert_eq in He. cbn [mbind option_bind] in He. destruct Hl as (_ & Hlo & Hhi).
        destruct (decide (i < low)%nat) as [Hi|Hi]; [rewrite Hlo in He by done; by apply (to_pde _ _ Hk [] k i e); [simpl; lia|..]|].
        destruct (decide (i < 512)%nat); [rewrite Hhi in He by lia; injection He as <-; done|]. apply lookup_lt_Some in He. destruct Hl. lia.
      * rewrite (added_old_sub k q t i root_k ltac:(lia) Hx) in He. by apply (to_pde _ _ Hk q t i e).
  - assert (Hr' : root_of k R r) by (destruct Hr as [?|Hr]; [by left|right; set_solver]). pose proof (c_tree _ _ _ _ _ Hc r Hr') as Ht. split; [done|..].
    + intros q t Hq. rewrite added_old_node by done. intros Hn. apply Hdom. by apply (to_node _ _ Ht q).
    + intros q q' t Hq Hq'. rewrite !added_old_node by done. by apply Ht.
    + intros q t i e Hq. rewrite added_old_node by (done || lia). intros Hn. rewrite (added_old_sub r q t i Hr' ltac:(lia) Hn). by apply (to_pde _ _ Ht q t i e).
Qed.
Lemma added_sep r r' q t : r ∈ R ∪ {[p]} -> root_of k (R ∪ {[p]}) r' -> r <> r' -> (length q <= 2)%nat -> node (tables added) r' q = Some t ->
  apart low (tables added) r t.
Proof using Hc Hp Hpg Hl Ha.
  intros Hr Hr' Hne Hq Hn.
  assert (Hother : forall x, root_of k (R ∪ {[p]}) x -> x <> p -> root_of k R x) by (intros x [?|Hx] Hxp; [by left|right; set_solver]).
  assert (Hold : forall x y m, root_of k R x -> (length y <= 2)%nat -> node (tables s) x y = Some m -> m <> p).
  { intros x y m Hx Hy Hm ->. destruct (to_node _ _ (c_tree _ _ _ _ _ Hc x Hx) y p Hy Hm) as [? Hz]. by rewrite new_table in Hz. }
  intros y Hy Hab Hny. destruct (decide (r = p)) as [->|Hrp].
  - assert (Hro : root_of k R r') by (apply Hother; done). rewrite added_old_node in Hn by done.
    destruct (added_cases y t Hy Hny) as [[_ ->]|(_ & Hnab & _)]; [by apply (Hold r' q p)|done].
  - assert (HrR : r ∈ R) by set_solver. rewrite added_old_node in Hny by (done || by right). destruct (decide (r' = p)) as [->|Hrp'].
    + destruct (added_cases q t Hq Hn) as [[_ ->]|(_ & _ & Hk & _)]; [apply (Hold r y p); [by right|done|done|done]|].
      apply (c_sep _ _ _ _ _ Hc r k q t HrR root_k ltac:(intros ->; by apply (c_kernel _ _ _ _ _ Hc)) Hq Hk y); done.
    + assert (Hro : root_of k R r') by (by apply Hother). rewrite added_old_node in Hn by done. by apply (c_sep _ _ _ _ _ Hc r r' q t HrR Hro Hne Hq Hn y).
Qed.

Lemma added_leaf n : user n -> leaf (tables added) p n = None.
Proof using Hc Hp Hl.
  intros Hn. apply user_low in Hn as [_ Hn]. unfold leaf. rewrite added_node by (done || simpl; lia). by rewrite decide_True by done.
Qed.

Lemma added_old_frame r n e : r ∈ R -> user n -> leaf (tables s) r n = Some e -> physical_addr e <> p /\ frame_of added e = frame_of s e.
Proof using Hc Hp.
  intros Hr Hn He. destruct (c_data _ _ _ _ _ Hc r n e Hr Hn He) as (_ & HnV & _). assert (Hne : physical_addr e <> p) by congruence. split; [done|].
  unfold frame_of, added. cbn [pool frames]. by rewrite lookup_insert_ne.
Qed.

Lemma added_use q : in_use (R ∪ {[p]}) added q <-> in_use R s q.
Proof using Hc Hp Hpg Hl Ha.
  split; intros (r & n & e & Hr & Hn & He & Hq).
  - destruct (decide (r = p)) as [->|Hne]; [by rewrite added_leaf in He|]. exists r, n, e. assert (r ∈ R) by set_solver.
    rewrite added_old_leaf in He by (by right). done.
  - exists r, n, e. rewrite added_old_leaf by (by right). split; [set_solver|done].
Qed.

Lemma added_core : core k U (R ∪ {[p]}) added (fun q => V q /\ q <> p).
Proof using Hc Hp Hpg Hl Ha.
  assert (Hback : forall r n e, r ∈ R ∪ {[p]} -> user n -> leaf (tables added) r n = Some e -> r ∈ R /\ leaf (tables s) r n = Some e).
  { intros r n e Hr Hn He. destruct (decide (r = p)) as [->|Hne]; [by rewrite added_leaf in He|]. assert (HrR : r ∈ R) by set_solver. split; [done|].
    by rewrite added_old_leaf in He by (by right). }
  assert (Htab : forall q, is_Some (tables added !! q) <-> q = p \/ is_Some (tables s !! q)).
  { intros q. unfold added. cbn [tables]. rewrite lookup_insert_is_Some'. split; intros [?|?]; auto. }
  split.
  - intros Hk. apply elem_of_union in Hk as [Hk|Hk]; [by apply (c_kernel _ _ _ _ _ Hc)|]. apply elem_of_singleton in Hk. apply new_root. by left.
  - exact Ha.
  - intros t Ht. unfold added. cbn [pool frames]. destruct (decide (t = p)) as [->|Hne]; [rewrite lookup_insert_eq; split; [done|]; split; [tauto|done]|].
    rewrite lookup_insert_ne by done. apply Htab in Ht as [?|Ht]; [done|]. destruct (c_table _ _ _ _ _ Hc t Ht) as (? & ? & ?). split; [done|]. split; [tauto|done].
  - intros t l' Ht. apply (to_len _ _ (added_tree p ltac:(right; set_solver)) t l' Ht).
  - apply added_tree.
  - apply added_sep.
  - intros r n e Hr Hn He. destruct (Hback r n e Hr Hn He) as [HrR He']. destruct (c_data _ _ _ _ _ Hc r n e HrR Hn He') as (Hx & HnV & Ht & Hb).
    destruct (added_old_frame r n e HrR Hn He') as [Hne ->]. split; [done|]. split; [tauto|]. split; [|done]. unfold added. cbn [tables]. by rewrite lookup_insert_ne.
  - intros r n e r' n' e' Hr Hr' Hn Hn' He He'. destruct (Hback r n e Hr Hn He), (Hback r' n' e' Hr' Hn' He'). by apply (c_inj _ _ _ _ _ Hc).
  - intros t Ht. apply Htab in Ht as [->|Ht]; [exists p, []; split; [right; set_solver|]; by split; [simpl; lia|]|].
    destruct (c_reach _ _ _ _ _ Hc t Ht) as (r & q & Hr & Hq & Hn). exists r, q. split; [destruct Hr; [by left|right; set_solver]|]. by rewrite added_old_node.
  - intros q. rewrite (c_pages _ _ _ _ _ Hc q), added_use, Htab. destruct (decide (q = p)) as [->|]; tauto.
  - intros r q Hr Hq Hab. rewrite (added_old_node k) by (done || apply root_k). destruct (decide (r = p)) as [->|Hne].
    + rewrite added_node, decide_False; [done|done|done|by intros ->].
    + rewrite added_old_node by (done || right; set_solver). apply (c_low _ _ _ _ _ Hc); [set_solver|done|done].
Qed.

Lemma added_view r n : user n -> (r ∈ R -> view added r n = view s r n) /\ (r = p -> view added r n = None).
Proof using Hc Hp Hl.
  intros Hn. unfold view. split; [|intros ->; by rewrite added_leaf]. intros Hr. rewrite added_old_leaf by (by right).
  destruct (leaf (tables s) r n) as [e|] eqn:He; [|done]. cbn [mbind option_bind]. by destruct (added_old_frame r n e Hr Hn He) as [_ ->].
Qed.
End new.

(** ** with_kernel_vm *)

Lemma with_kernel_vm_wp R s V : core k U R s V ->
  wp (with_kernel_vm k)
    (fun v s' => exists V', pg_table v ∉ R /\ core k U (R ∪ {[pg_table v]}) s' V' /\ space_ok s' v /\ tight s' v /\ area_list v = [] /\ user_space_size v = 0 /\
       (forall n, user n -> view s' (pg_table v) n = None) /\ forall r n, r ∈ R -> user n -> view s' r n = view s r n)
    (fun err s' => err = Sys.OutOfMemory /\ exists V', core k U R s' V' /\ forall r n, r ∈ R -> user n -> view s' r n = view s r n) s.
Proof.
  intros Hc. unfold with_kernel_vm, create_empty, try_alloc, alloc_zeroed_page. apply wp_bind, wp_bind, wp_bind, wp_on_pool.
  pose proof (pa_alloc_spec _ V (c_pool _ _ _ _ _ Hc)) as Hs. unfold wp at 1. unfold wp in Hs. cbn [pa_alloc memory_pages].
  destruct (pa_alloc (allocator (pool s))) as [[[p|]|[]|] a] eqn:Hal; [| |done].
  2:{ destruct Hs as [_ Ha]. apply wp_ret, wp_fail. split; [done|]. exists V. split; [|done]. destruct Hc. by split. }
  destruct Hs as (HV & Hpg & Ha). apply wp_bind. unfold wp at 1, modify. apply wp_ret. cbn [tables pool]. apply wp_ret. cbn [pg_table].
  assert (Hnone : tables s !! p = None) by (by eapply new_table). assert (Hpk : p <> k) by (intros ->; apply (new_root R s V k Hc HV); by left).
  apply wp_bind. unfold copy_from_kernel.
  set (J := fun (i : nat) (s1 : St) => exists l, s1 = mkPt (<[p := l]> (tables s)) (mkMem (<[p := zero_page]> (frames (pool s))) a) /\ kernel_entries (tables s) k i l).
  eapply wp_mono; [apply (for_idx_spec J (fun _ _ => False))| |done].
  - exists (replicate 512 0). split; [done|]. split; [by rewrite length_replicate|]. split; [change KERNEL_V2_START with 0%nat; intros; lia|].
    intros j Hj. apply lookup_replicate. split; [done|lia].
  - change (KERNEL_V2_START + (KERNEL_V2_END + 1 - KERNEL_V2_START))%nat with 6%nat. intros j s1 Hj (l & -> & Hlen & Hlo & Hhi).
    destruct (tree_ent _ _ [] k j (c_tree _ _ _ _ _ Hc k ltac:(by left)) ltac:(simpl; lia) eq_refl ltac:(lia)) as [e He].
    apply wp_bind. eapply wp_read_entry; [cbn [fst snd tables]; unfold ent; rewrite lookup_insert_ne by done; exact He|].
    apply wp_write_entry. exists (<[j := e]> l). cbn [fst snd tables pool]. split.
    + unfold set_ent. f_equal. apply map_eq. intros t. destruct (decide (t = p)) as [->|Hne]; [by rewrite lookup_alter_eq, !lookup_insert_eq|].
      by rewrite lookup_alter_ne, !lookup_insert_ne.
    + split; [by rewrite length_insert|]. split; intros j' Hj'; (destruct (decide (j' = j)) as [->|]; [|rewrite list_lookup_insert_ne by done]).
      * rewrite list_lookup_insert_eq by lia. by rewrite He.
      * apply Hlo. lia.
      * lia.
      * apply Hhi. lia.
  - change (KERNEL_V2_START + (KERNEL_V2_END + 1 - KERNEL_V2_START))%nat with low. intros [] s1 (l & -> & Hl). apply wp_ret. cbn [pg_table area_list user_space_size].
    pose proof (added_view R s V p l a Hc HV Hl) as Hview. pose proof (added_core R s V p l a Hc HV Hpg Hl Ha) as Hcore. unfold added in *. eexists.
    split; [intros Hr; apply (new_root R s V p Hc HV); by right|]. split; [exact Hcore|]. split; [|split].
    + split; [split; constructor| |unfold size_ok, pages_for; cbn; lia]. intros n (x & Hx & _). by apply elem_of_nil in Hx.
    + intros n Hn Hx. cbn [pg_table] in Hx. destruct (Hview p n Hn) as [_ Hy]. by rewrite Hy in Hx.
    + split; [done|]. split; [done|]. split; intros; by apply Hview.
Qed.
End root.

(** * The end of an address space

    [clear] frees the tables of a space that are not the kernel's; with the
    root gone, the space has left the memory as it was without it, except for
    pages that were still mapped. *)

Section drop.
Context {A : Type} `{PageAllocLaws A} (k : Z) (U : Z -> Prop).
#[local] Notation St := (PtState (Memory A)).

Section clear.
Context (R : gset Z) (r : Z) (s : St) (V : Z -> Prop).
Hypothesis Hc : core k U R s V.
Hypothesis Hr : r ∈ R.

#[local] Notation T := (tables s).

Lemma r_tree : tree_ok T r.
Proof using Hc Hr. apply (c_tree _ _ _ _ _ Hc). by right. Qed.

(** The tables that are gone before entry [j] of the table of entry [i]. *)
Definition gone (i j : nat) (t : Z) : Prop :=
  (exists a b, node T r [a; b] = Some t /\ (low <= a)%nat /\ ((a < i)%nat \/ a = i /\ (b < j)%nat)) \/
  exists a, node T r [a] = Some t /\ (low <= a < i)%nat.

Record clearing (i j : nat) (s1 : St) : Prop := {
  cg_gone t : gone i j t -> tables s1 !! t = None;
  cg_keep t : ~ gone i j t -> t <> r -> node T r [i] <> Some t -> tables s1 !! t = T !! t;
  cg_root a : (i <= a)%nat -> ent (tables s1) r a = ent T r a;
  cg_cur t b : node T r [i] = Some t -> (j <= b)%nat -> ent (tables s1) t b = ent T t b;
  cg_pool : pa_ok (allocator (pool s1)) (fun q => V q \/ gone i j q);
  cg_frames p : ~ V p -> ~ gone i j p -> frames (pool s1) !! p = frames (pool s) !! p
}.

Lemma gone_table i j t : gone i j t -> is_Some (T !! t).
Proof using Hc Hr. intros [(a & b & Hn & _)|(a & Hn & _)]; [apply (to_node _ _ r_tree [a; b])|apply (to_node _ _ r_tree [a])]; done || simpl; lia. Qed.

Lemma gone_root i j : ~ gone i j r.
Proof using Hc Hr.
  intros [(a & b & Hn & _)|(a & Hn & _)].
  - by pose proof (to_inj _ _ r_tree [a; b] [] r ltac:(simpl; lia) ltac:(simpl; lia) Hn eq_refl).
  - by pose proof (to_inj _ _ r_tree [a] [] r ltac:(simpl; lia) ltac:(simpl; lia) Hn eq_refl).
Qed.

Lemma gone_cur i j t : node T r [i] = Some t -> ~ gone i j t.
Proof using Hc Hr.
  intros Ht [(a & b & Hn & _)|(a & Hn & Ha)].
  - by pose proof (to_inj _ _ r_tree [a; b] [i] t ltac:(simpl; lia) ltac:(simpl; lia) Hn Ht).
  - pose proof (to_inj _ _ r_tree [a] [i] t ltac:(simpl; lia) ltac:(simpl; lia) Hn Ht) as [= ->]. lia.
Qed.

Lemma gone_next i j t0 : (low <= i)%nat -> node T r [i; j] = Some t0 -> forall t, gone i (S j) t <-> gone i j t \/ t = t0.
Proof using Hc Hr.
  intros Hi Hn t. unfold gone. split.
  - intros [(a & b & Hx & Ha & Hb)|Hx]; [|by left; right].
    destruct (decide (a = i /\ b = j)) as [[-> ->]|Hne]; [right; congruence|left; left]. exists a, b. split; [done|]. split; [done|]. lia.
  - intros [[(a & b & Hx & Ha & Hb)|Hx]| ->]; [left; exists a, b; split; [done|]; split; [done|lia]|by right|].
    left. exists i, j. split; [done|]. split; [done|]. lia.
Qed.

Lemma gone_none i j : node T r [i; j] = None -> forall t, gone i (S j) t <-> gone i j t.
Proof using.
  intros Hn t. unfold gone. split; (intros [(a & b & Hx & Ha & Hb)|Hx]; [|by right]); left; exists a, b; (split; [done|]); (split; [done|]); [|lia].
  destruct (decide (a = i /\ b = j)) as [[-> ->]|Hne]; [congruence|lia].
Qed.

(** The end of one table of the second level, and of an empty entry. *)
Lemma node_index p i t : (length p <= 1)%nat -> node T r (p ++ [i]) = Some t -> (i < 512)%nat.
Proof using Hc Hr.
  intros Hp Hn. rewrite node_snoc in Hn. apply bind_Some in Hn as (u & Hu & Hs). unfold sub, ent in Hs. apply bind_Some in Hs as (e & He & _).
  apply bind_Some in He as (l & Hl & He). apply lookup_lt_Some in He. by rewrite (c_len _ _ _ _ _ Hc u l Hl) in He.
Qed.

Lemma gone_table_end i t1 : (low <= i)%nat -> node T r [i] = Some t1 -> forall t, gone (S i) 0 t <-> gone i 512 t \/ t = t1.
Proof using Hc Hr.
  intros Hi Hn t. unfold gone. split.
  - intros [(a & b & Hx & Ha & Hb)|(a & Hx & Ha)].
    + left. left. exists a, b. split; [done|]. split; [done|]. pose proof (node_index [a] b t ltac:(simpl; lia) Hx). lia.
    + destruct (decide (a = i)) as [->|]; [right; congruence|left; right]. exists a. split; [done|lia].
  - intros [[(a & b & Hx & Ha & Hb)|(a & Hx & Ha)]| ->].
    + left. exists a, b. split; [done|]. split; [done|lia].
    + right. exists a. split; [done|lia].
    + right. exists i. split; [done|lia].
Qed.

Lemma gone_empty i : node T r [i] = None -> forall t, gone (S i) 0 t <-> gone i 0 t.
Proof using.
  intros Hn t. assert (Hn2 : forall b, node T r [i; b] = None) by (intros b; change [i; b] with ([i] ++ [b]); rewrite node_snoc, Hn; done). unfold gone. split.
  - intros [(a & b & Hx & Ha & Hb)|(a & Hx & Ha)].
    + left. exists a, b. split; [done|]. split; [done|]. destruct (decide (a = i)) as [->|]; [by rewrite Hn2 in Hx|lia].
    + right. exists a. split; [done|]. destruct (decide (a = i)) as [->|]; [congruence|lia].
  - intros [(a & b & Hx & Ha & Hb)|(a & Hx & Ha)]; [left; exists a, b|right; exists a]; (split; [done|]); [split; [done|]|]; lia.
Qed.

Lemma clearing_skip i j s1 : node T r [i; j] = None -> clearing i j s1 -> clearing i (S j) s1.
Proof using.
  intros Hn [G K Rt C P F]. pose proof (gone_none i j Hn) as Hg. split; [by intros t; rewrite Hg; apply G|intros t; rewrite Hg; apply K|done| | |].
  - intros t b Ht Hb. apply (C t b Ht). lia.
  - eapply pa_ok_iff; [exact P|]. intros q. by rewrite Hg.
  - intros p HV. rewrite Hg. by apply F.
Qed.

Lemma child_not_root i t : node T r [i] = Some t -> t <> r.
Proof using Hc Hr. intros Hn ->. by pose proof (to_inj _ _ r_tree [i] [] r ltac:(simpl; lia) ltac:(simpl; lia) Hn eq_refl). Qed.

Lemma clearing_move i s1 : node T r [i] = None -> clearing i 0 s1 -> clearing (S i) 0 s1.
Proof using Hc Hr.
  intros Hn [G K Rt C P F]. pose proof (gone_empty i Hn) as Hg. split; [by intros t; rewrite Hg; apply G| | | | |].
  - intros t. rewrite Hg. intros Hx Hne _. apply K; [done|done|congruence].
  - intros a Ha. apply Rt. lia.
  - intros t b Ht _. unfold ent. rewrite K; [done|by rewrite <- Hg; apply gone_cur|by apply (child_not_root (S i))|congruence].
  - eapply pa_ok_iff; [exact P|]. intros q. by rewrite Hg.
  - intros p HV. rewrite Hg. by apply F.
Qed.

(** A table is unlinked and freed. *)
Definition unlinked (u : Z) (x : nat) (t : Z) (a : A) (s1 : St) : St :=
  mkPt (delete t (set_ent (tables s1) u x 0)) (mkMem (delete t (frames (pool s1))) a).

Lemma wp_unlink {E} (Q : unit -> St -> Prop) (F : E -> St -> Prop) u x t s1 (W : Z -> Prop) : pa_ok (allocator (pool s1)) W -> pa_page t -> ~ W t ->
  (forall a, pa_ok a (fun q => W q \/ q = t) -> Q tt (unlinked u x t a s1)) -> wp (write_entry (u, x) 0;; drop_table t) Q F s1.
Proof using.
  intros Hp Hpg Hn HQ. apply wp_bind, wp_write_entry. cbn [fst snd]. unfold drop_table. apply wp_bind. unfold wp at 1, modify. cbn [tables pool].
  unfold free_page. apply wp_on_pool. pose proof (pa_free_spec _ _ t Hp Hpg Hn) as Hs. unfold wp in *. cbn [pa_free memory_pages pool tables].
  destruct (pa_free t (allocator (pool s1))) as [[[]|[]|] a]; [|done]. by apply HQ.
Qed.

Lemma unlinked_ent u x t a s1 v y : v <> t -> (v, y) <> (u, x) -> ent (tables (unlinked u x t a s1)) v y = ent (tables s1) v y.
Proof using.
  intros Hv Hne. unfold ent, unlinked, set_ent. cbn [tables]. rewrite lookup_delete_ne by done. destruct (decide (v = u)) as [->|]; [|by rewrite lookup_alter_ne].
  rewrite lookup_alter_eq. destruct (tables s1 !! u); [|done]. cbn [fmap option_fmap option_map mbind option_bind]. apply list_lookup_insert_ne. congruence.
Qed.

Lemma unlinked_table u x t a s1 v : v <> t -> v <> u -> tables (unlinked u x t a s1) !! v = tables s1 !! v.
Proof using. intros Hv Hu. unfold unlinked, set_ent. cbn [tables]. by rewrite lookup_delete_ne, lookup_alter_ne. Qed.

Lemma unlinked_gone u x t a s1 : tables (unlinked u x t a s1) !! t = None.
Proof using. unfold unlinked. cbn [tables]. apply lookup_delete_eq. Qed.

Lemma unlinked_frame u x t a s1 p : p <> t -> frames (pool (unlinked u x t a s1)) !! p = frames (pool s1) !! p.
Proof using. intros Hp. unfold unlinked. cbn. by rewrite lookup_delete_ne. Qed.

(** Tables of the space that are not gone can be freed. *)
Lemma free_ok i j s1 t : clearing i j s1 -> is_Some (T !! t) -> ~ gone i j t -> pa_page t /\ ~ (V t \/ gone i j t).
Proof using Hc. intros _ Ht Hn. destruct (c_table _ _ _ _ _ Hc t Ht) as (? & ? & _). tauto. Qed.

Lemma clear_third i j t1 t0 s1 a : (low <= i)%nat -> node T r [i] = Some t1 -> node T r [i; j] = Some t0 -> clearing i j s1 ->
  pa_ok a (fun q => (V q \/ gone i j q) \/ q = t0) -> clearing i (S j) (unlinked t1 j t0 a s1).
Proof using Hc Hr.
  intros Hi H1 H0' [G K Rt C P F] Ha. pose proof (gone_next i j t0 Hi H0') as Hg. assert (H01 : t0 <> t1).
  { intros ->. by pose proof (to_inj _ _ r_tree [i; j] [i] t1 ltac:(simpl; lia) ltac:(simpl; lia) H0' H1). }
  assert (H0r : t0 <> r) by (intros ->; by pose proof (to_inj _ _ r_tree [i; j] [] r ltac:(simpl; lia) ltac:(simpl; lia) H0' eq_refl)). split.
  - intros t. rewrite Hg. intros [Hx| ->]; [|apply unlinked_gone]. destruct (decide (t = t0)) as [->|Hne]; [apply unlinked_gone|].
    rewrite unlinked_table; [by apply G|done|]. intros ->. by apply (gone_cur i j t1 H1).
  - intros t. rewrite Hg. intros Hx Hne Hcur. rewrite unlinked_table; [apply K; tauto|tauto|congruence].
  - intros x Hx. rewrite unlinked_ent; [by apply Rt|done|]. pose proof (child_not_root i t1 H1). congruence.
  - intros t b Ht Hb. assert (t = t1) as -> by congruence. rewrite unlinked_ent; [apply (C t1 b Ht); lia|done|]. intros [= ->]. lia.
  - eapply pa_ok_iff; [exact Ha|]. intros q. rewrite Hg. tauto.
  - intros p HV. rewrite Hg. intros Hx. rewrite unlinked_frame by tauto. apply F; tauto.
Qed.

Lemma clear_second i t1 s1 a : (low <= i)%nat -> node T r [i] = Some t1 -> clearing i 512 s1 ->
  pa_ok a (fun q => (V q \/ gone i 512 q) \/ q = t1) -> clearing (S i) 0 (unlinked r i t1 a s1).
Proof using Hc Hr.
  intros Hi H1 [G K Rt C P F] Ha. pose proof (gone_table_end i t1 Hi H1) as Hg. pose proof (child_not_root i t1 H1) as H1r. split.
  - intros t. rewrite Hg. intros [Hx| ->]; [|apply unlinked_gone]. destruct (decide (t = t1)) as [->|Hne]; [apply unlinked_gone|].
    rewrite unlinked_table; [by apply G|done|]. intros ->. by apply (gone_root i 512).
  - intros t. rewrite Hg. intros Hx Hne _. rewrite unlinked_table; [apply K; [tauto|done|]|tauto|done]. intros Hy. apply Hx. right. congruence.
  - intros x Hx. rewrite unlinked_ent; [apply Rt; lia|done|]. intros [= ->]. lia.
  - intros t b Ht _. pose proof (child_not_root _ t Ht) as Htr. pose proof (gone_cur (S i) 0 t Ht) as Hng. rewrite Hg in Hng.
    rewrite unlinked_ent; [|tauto|congruence]. unfold ent. rewrite K; [done|tauto|done|]. intros Hy. apply Hng. right. congruence.
  - eapply pa_ok_iff; [exact Ha|]. intros q. rewrite Hg. tauto.
  - intros p HV. rewrite Hg. intros Hx. rewrite unlinked_frame by tauto. apply F; tauto.
Qed.

(** ** The loops *)

Lemma entry_cases p i t e : (length p <= 1)%nat -> node T r p = Some t -> ent T t i = Some e ->
  node T r (p ++ [i]) = if is_valid e then Some (physical_addr e) else None.
Proof using. intros _ Hn He. rewrite node_snoc, Hn. cbn [mbind option_bind]. unfold sub. by rewrite He. Qed.

Lemma clear_table_wp {E} i t1 s1 : (low <= i)%nat -> node T r [i] = Some t1 -> clearing i 0 s1 ->
  wp (clear_recursive 1 t1) (fun _ s2 => clearing i 512 s2) (fun (_ : E) _ => False) s1.
Proof using Hc Hr.
  intros Hi H1 Hcl. cbn [clear_recursive Nat.eqb]. change (clearing i 512) with (clearing i (0 + 512)). apply (for_idx_spec (clearing i)); [done|].
  intros j s2 Hj Hcj. destruct (tree_ent _ _ [i] t1 j r_tree ltac:(simpl; lia) H1 ltac:(lia)) as [e He].
  apply wp_bind. eapply wp_read_entry; [cbn [fst snd]; rewrite (cg_cur _ _ _ Hcj t1 j H1) by lia; exact He|].
  pose proof (entry_cases [i] j t1 e ltac:(simpl; lia) H1 He) as Hn. cbn [app] in Hn.
  destruct (is_valid e); cbn [negb]; [|apply wp_ret; by apply clearing_skip]. apply wp_bind, wp_ret.
  assert (Hng : ~ gone i j (physical_addr e)).
  { intros [(a & b & Hx & Ha & Hb)|(a & Hx & Ha)].
    - pose proof (to_inj _ _ r_tree [a; b] [i; j] _ ltac:(simpl; lia) ltac:(simpl; lia) Hx Hn) as [= -> ->]. lia.
    - by pose proof (to_inj _ _ r_tree [a] [i; j] _ ltac:(simpl; lia) ltac:(simpl; lia) Hx Hn). }
  destruct (free_ok i j s2 _ Hcj (to_node _ _ r_tree [i; j] _ ltac:(simpl; lia) Hn) Hng) as [Hpg Hnf].
  eapply wp_unlink; [exact (cg_pool _ _ _ Hcj)|done|done|]. intros a Ha. by apply clear_third.
Qed.

Definition clear_entry {E} (idx : nat) : M St E unit :=
  do pte <- read_entry (r, idx);
  if negb (is_valid pte) then ret tt
  else clear_recursive 1 (physical_addr pte);; write_entry (r, idx) 0;; drop_table (physical_addr pte).

Lemma clear_root_eq {E} : clear_recursive (E := E) 2 r = (for_idx 0 0 clear_entry;; for_idx (ENTRIES - (KERNEL_V2_END + 1)) (KERNEL_V2_END + 1) clear_entry).
Proof using. reflexivity. Qed.

Lemma clear_wp {E} : wp (clear r) (fun _ s2 => clearing 512 0 s2) (fun (_ : E) _ => False) s.
Proof using Hc Hr.
  unfold clear. rewrite clear_root_eq.
  apply wp_bind. apply wp_ret. change (KERNEL_V2_END + 1)%nat with low. change (clearing 512) with (clearing (low + (ENTRIES - low))).
  apply (for_idx_spec (fun i => clearing i 0)).
  - split; [|done|done|done| |done].
    + intros t [(a & b & _ & ? & ?)|(a & _ & ?)]; lia.
    + eapply pa_ok_iff; [apply (c_pool _ _ _ _ _ Hc)|]. intros q. split; [by left|]. intros [?|[(a & b & _ & ? & ?)|(a & _ & ?)]]; [done|lia|lia].
  - intros i s1 Hi Hcl. change (low + (ENTRIES - low))%nat with 512%nat in Hi.
    destruct (tree_ent _ _ [] r i r_tree ltac:(simpl; lia) eq_refl ltac:(lia)) as [e He].
    apply wp_bind. eapply wp_read_entry; [cbn [fst snd]; rewrite (cg_root _ _ _ Hcl i) by lia; exact He|].
    pose proof (entry_cases [] i r e ltac:(simpl; lia) eq_refl He) as Hn. cbn [app] in Hn.
    destruct (is_valid e); cbn [negb]; [|apply wp_ret; by apply clearing_move]. apply wp_bind.
    eapply wp_mono; [apply (clear_table_wp i _ s1); [lia|done|done]| |done]. intros [] s2 Hcl2.
    destruct (free_ok i 512 s2 _ Hcl2 (to_node _ _ r_tree [i] _ ltac:(simpl; lia) Hn) (gone_cur i 512 _ Hn)) as [Hpg Hnf].
    eapply wp_unlink; [exact (cg_pool _ _ _ Hcl2)|done|done|]. intros a Ha. apply clear_second; [lia|done|done|done].
Qed.
(** ** The memory without the space *)

Section dropped.
Context (s1 : St) (a : A).
Hypothesis Hcl : clearing 512 0 s1.
Hypothesis Ha : pa_ok a (fun q => (V q \/ gone 512 0 q) \/ q = r).

Definition dropped : St := mkPt (delete r (tables s1)) (mkMem (delete r (frames (pool s1))) a).
Definition free_now (q : Z) : Prop := (V q \/ gone 512 0 q) \/ q = r.

Lemma gone_above t : gone 512 0 t <-> exists p, (length p <= 2)%nat /\ p <> [] /\ above low p /\ node T r p = Some t.
Proof using Hc Hr.
  split.
  - intros [(x & y & Hn & Hx & _)|(x & Hn & Hx)]; [exists [x; y]|exists [x]]; simpl; (split; [lia|]); (split; [done|]); split; (lia || done).
  - intros (p & Hp & Hne & Hab & Hn). destruct p as [|x [|y [|z p]]]; [done| | |simpl in Hp; lia]; unfold above in Hab.
    + right. exists x. pose proof (node_index [] x t ltac:(simpl; lia) Hn). split; [done|lia].
    + left. exists x, y. split; [done|]. split; [done|]. left. change [x; y] with ([x] ++ [y]) in Hn. rewrite node_snoc in Hn.
      apply bind_Some in Hn as (u & Hu & _). apply (node_index [] x u); [simpl; lia|done].
Qed.

Lemma no_entry : node T r [512%nat] = None.
Proof using Hc Hr. destruct (node T r [512%nat]) as [t|] eqn:Hn; [|done]. pose proof (node_index [] 512 t ltac:(simpl; lia) Hn). lia. Qed.

Lemma dropped_table t : tables dropped !! t = if decide (t = r) then None else tables s1 !! t.
Proof using. unfold dropped. cbn [tables]. case_decide as Hx; [subst; apply lookup_delete_eq|by rewrite lookup_delete_ne]. Qed.

Lemma dropped_keep t : ~ gone 512 0 t -> t <> r -> tables dropped !! t = T !! t.
Proof using Hc Hr Hcl. intros Hn Hne. rewrite dropped_table, decide_False by done. apply (cg_keep _ _ _ Hcl); [done|done|]. by rewrite no_entry. Qed.

Lemma dropped_is_Some t : is_Some (tables dropped !! t) <-> is_Some (T !! t) /\ ~ gone 512 0 t /\ t <> r.
Proof using Hc Hr Hcl.
  split.
  - intros Ht. rewrite dropped_table in Ht. destruct (decide (t = r)) as [->|Hne]; [by destruct Ht|]. assert (Hng : ~ gone 512 0 t).
    { intros Hg. rewrite (cg_gone _ _ _ Hcl t Hg) in Ht. by destruct Ht. }
    split; [|done]. rewrite <- dropped_keep by done. by rewrite dropped_table, decide_False.
  - intros (Ht & Hn & Hne). by rewrite dropped_keep.
Qed.

Section other.
Context (r' : Z) (Hr' : root_of k R r') (Hne : r' <> r).

Lemma other_kept q t : (length q <= 2)%nat -> node T r' q = Some t -> tables dropped !! t = T !! t.
Proof using Hc Hr Hcl Hr' Hne.
  intros Hq Hn. pose proof (c_sep _ _ _ _ _ Hc r r' q t Hr Hr' ltac:(done) Hq Hn) as Hap. apply dropped_keep.
  - rewrite gone_above. intros (p & Hp & _ & Hab & Hx). by apply (Hap p).
  - intros ->. by apply (Hap []); [simpl; lia|..].
Qed.

Lemma dropped_node q : (length q <= 2)%nat -> node (tables dropped) r' q = node T r' q.
Proof using Hc Hr Hcl Hr' Hne.
  induction q as [|i q IH] using rev_ind; [done|]. rewrite length_app. cbn [length]. intros Hq. rewrite !node_snoc, IH by lia.
  destruct (node T r' q) as [t|] eqn:Hn; [|done]. cbn [mbind option_bind]. unfold sub, ent. by rewrite (other_kept q) by (done || lia).
Qed.

Lemma dropped_ent q t i : (length q <= 2)%nat -> node T r' q = Some t -> ent (tables dropped) t i = ent T t i.
Proof using Hc Hr Hcl Hr' Hne. intros Hq Hn. unfold ent. by rewrite (other_kept q). Qed.

Lemma dropped_leaf n : leaf (tables dropped) r' n = leaf T r' n.
Proof using Hc Hr Hcl Hr' Hne.
  unfold leaf. rewrite dropped_node by (simpl; lia). destruct (node T r' _) as [t|] eqn:Hn; [|done]. cbn [mbind option_bind]. by rewrite (dropped_ent [pidx 2 n; pidx 1 n]).
Qed.

Lemma dropped_tree : tree_ok (tables dropped) r'.
Proof using Hc Hr Hcl Hr' Hne.
  pose proof (c_tree _ _ _ _ _ Hc r' Hr') as Ht. split.
  - intros t l Hl. apply (c_len _ _ _ _ _ Hc t). rewrite <- dropped_keep; [done|..]; apply dropped_is_Some; by eexists.
  - intros q t Hq. rewrite dropped_node by done. intros Hn. rewrite (other_kept q) by done. by apply (to_node _ _ Ht q).
  - intros q q' t Hq Hq'. rewrite !dropped_node by done. by apply Ht.
  - intros q t i e Hq. rewrite dropped_node by lia. intros Hn. rewrite (dropped_ent q) by (done || lia). by apply (to_pde _ _ Ht q).
Qed.

Lemma dropped_data n e : r' ∈ R -> user n -> leaf T r' n = Some e -> ~ free_now (physical_addr e) /\ frame_of dropped e = frame_of s e.
Proof using Hc Hr Hcl Hr' Hne.
  intros HrR Hn He. destruct (c_data _ _ _ _ _ Hc r' n e HrR Hn He) as (_ & HnV & Ht & _).
  assert (Hng : ~ gone 512 0 (physical_addr e)) by (intros Hg; apply gone_table in Hg; rewrite Ht in Hg; by destruct Hg).
  assert (Hnr : physical_addr e <> r) by (intros Heq; rewrite Heq in Ht; destruct (to_node _ _ r_tree [] r ltac:(simpl; lia) eq_refl); congruence).
  split; [unfold free_now; tauto|]. unfold frame_of, dropped. cbn [pool frames]. rewrite lookup_delete_ne by done. by apply (cg_frames _ _ _ Hcl).
Qed.
End other.

(** Pages that are still mapped are lost. *)
Definition left_over (q : Z) : Prop := U q /\ ~ mapped_by r s q.

Lemma dropped_use q : in_use (R ∖ {[r]}) dropped q <-> in_use R s q /\ ~ mapped_by r s q.
Proof using Hc Hr Hcl Ha.
  split.
  - intros (r' & n & e & Hx & Hn & He & Hq). assert (HrR : r' ∈ R) by set_solver. assert (Hne : r' <> r) by set_solver.
    rewrite dropped_leaf in He by (done || by right). split; [by exists r', n, e|]. intros (m & e' & Hm & He' & Hq').
    destruct (c_inj _ _ _ _ _ Hc r' n e r m e' HrR Hr Hn Hm He He' ltac:(congruence)). done.
  - intros [(r' & n & e & HrR & Hn & He & Hq) Hno]. assert (Hne : r' <> r) by (intros ->; apply Hno; by exists n, e).
    exists r', n, e. rewrite dropped_leaf by (done || by right). split; [set_solver|done].
Qed.

Lemma dropped_reach t : is_Some (tables dropped !! t) -> exists r' p, root_of k (R ∖ {[r]}) r' /\ (length p <= 2)%nat /\ node (tables dropped) r' p = Some t.
Proof using Hc Hr Hcl Ha.
  intros Ht. apply dropped_is_Some in Ht as (Ht & Hng & Hne). destruct (c_reach _ _ _ _ _ Hc t Ht) as (r' & p & Hr' & Hp & Hn).
  pose proof (c_kernel _ _ _ _ _ Hc) as Hk. assert (Hkr : k <> r) by (intros ->; done). destruct (decide (r' = r)) as [->|Hrr].
  - exists k, p. split; [by left|]. split; [done|]. rewrite dropped_node by (done || by left). rewrite <- (c_low _ _ _ _ _ Hc r p Hr Hp); [done|].
    intros Hab. destruct (decide (p = [])) as [->|Hpn]; [injection Hn as ->; done|]. apply Hng, gone_above. by exists p.
  - exists r', p. split; [destruct Hr' as [?|?]; [by left|right; set_solver]|]. by rewrite dropped_node.
Qed.

Lemma gone_cases q : is_Some (T !! q) -> gone 512 0 q \/ ~ gone 512 0 q.
Proof using Hc Hr.
  intros Ht. destruct (c_reach _ _ _ _ _ Hc q Ht) as (r' & p & Hr' & Hp & Hn). destruct (decide (r' = r)) as [->|Hne].
  - destruct (decide (p = [])) as [->|Hpn]; [right; injection Hn as <-; apply gone_root|]. destruct (decide (above low p)) as [Hab|Hab]; [left; apply gone_above; by exists p|].
    right. intros Hg. apply gone_above in Hg as (p' & Hp' & _ & Hab' & Hn'). by pose proof (to_inj _ _ r_tree p p' q Hp Hp' Hn Hn') as ->.
  - right. intros Hg. apply gone_above in Hg as (p' & Hp' & _ & Hab' & Hn'). by apply (c_sep _ _ _ _ _ Hc r r' p q Hr Hr' ltac:(done) Hp Hn p').
Qed.

Lemma dropped_pages q : left_over q <-> free_now q \/ is_Some (tables dropped !! q) \/ in_use (R ∖ {[r]}) dropped q.
Proof using Hc Hr Hcl Ha.
  unfold left_over. rewrite dropped_use, dropped_is_Some, (c_pages _ _ _ _ _ Hc q). unfold free_now.
  assert (Hm : mapped_by r s q -> ~ V q /\ ~ is_Some (T !! q)).
  { intros (n & e & Hn & He & <-). destruct (c_data _ _ _ _ _ Hc r n e Hr Hn He) as (_ & ? & Hx & _). split; [done|]. rewrite Hx. by intros []. }
  pose proof (gone_table 512 0 q) as Hg. assert (Hroot : q = r -> is_Some (T !! q)) by (intros ->; by apply (to_node _ _ r_tree []); [simpl; lia|]).
  destruct (decide (is_Some (T !! q))); [destruct (gone_cases q), (decide (q = r)); tauto|tauto].
Qed.

Lemma dropped_core : core k left_over (R ∖ {[r]}) dropped free_now.
Proof using Hc Hr Hcl Ha.
  assert (Hback : forall r', r' ∈ R ∖ {[r]} -> r' ∈ R /\ r' <> r /\ root_of k R r') by (intros r' Hx; split; [set_solver|]; split; [set_solver|right; set_solver]).
  assert (Hkr : k <> r) by (intros Heq; apply (c_kernel _ _ _ _ _ Hc); by rewrite Heq).
  assert (Hroot : forall r', root_of k (R ∖ {[r]}) r' -> root_of k R r' /\ r' <> r) by (intros r' [->|Hx]; [split; [by left|done]|split; apply Hback in Hx; tauto]).
  split.
  - intros Hk. apply (c_kernel _ _ _ _ _ Hc). set_solver.
  - exact Ha.
  - intros t Ht. apply dropped_is_Some in Ht as (Ht & Hng & Hne). destruct (c_table _ _ _ _ _ Hc t Ht) as (Hp & HnV & Hf). split; [done|]. split; [unfold free_now; tauto|].
    unfold dropped. cbn [pool frames]. rewrite lookup_delete_ne by done. by rewrite (cg_frames _ _ _ Hcl).
  - intros t l Hl. apply (to_len _ _ (dropped_tree k ltac:(by left) Hkr) t l Hl).
  - intros r' Hx. apply Hroot in Hx as [? ?]. by apply dropped_tree.
  - intros r1 r2 q t H1 H2 Hne Hq Hn p Hp Hab. apply Hback in H1 as (H1 & H1r & H1'). apply Hroot in H2 as [H2 H2r].
    rewrite dropped_node in Hn by done. rewrite dropped_node by done. by apply (c_sep _ _ _ _ _ Hc r1 r2 q t H1 H2 Hne Hq Hn p).
  - intros r' n e Hx Hn He. apply Hback in Hx as (HrR & Hne & Hr'). rewrite dropped_leaf in He by done.
    destruct (c_data _ _ _ _ _ Hc r' n e HrR Hn He) as (Hp & HnV & Ht & Hb). destruct (dropped_data r' Hr' Hne n e HrR Hn He) as [Hnf ->].
    split; [done|]. split; [done|]. split; [|done]. apply eq_None_not_Some. rewrite dropped_is_Some, Ht. by intros [[] _].
  - intros r1 n1 e1 r2 n2 e2 H1 H2 Hn1 Hn2 He1 He2. apply Hback in H1 as (H1 & H1r & H1'). apply Hback in H2 as (H2 & H2r & H2').
    rewrite dropped_leaf in He1, He2 by done. by apply (c_inj _ _ _ _ _ Hc).
  - apply dropped_reach.
  - apply dropped_pages.
  - intros r' q Hx Hq Hab. apply Hback in Hx as (HrR & Hne & Hr'). rewrite !dropped_node by (done || by left). by apply (c_low _ _ _ _ _ Hc).
Qed.

Lemma dropped_view r' n : r' ∈ R -> r' <> r -> user n -> view dropped r' n = view s r' n.
Proof using Hc Hr Hcl Ha.
  intros HrR Hne Hn. unfold view. rewrite dropped_leaf by (done || by right). destruct (leaf T r' n) as [e|] eqn:He; [|done]. cbn [mbind option_bind].
  by destruct (dropped_data r' ltac:(by right) Hne n e HrR Hn He) as [_ ->].
Qed.
End dropped.
End clear.

Lemma clear_drop_wp {E} R r s V : core k U R s V -> r ∈ R ->
  wp (clear r;; drop_table r)
    (fun _ s' => exists V', core k (left_over r s) (R ∖ {[r]}) s' V' /\ forall r' n, r' ∈ R -> r' <> r -> user n -> view s' r' n = view s r' n) (fun (_ : E) _ => False) s.
Proof.
  intros Hc Hr. apply wp_bind. eapply wp_mono; [by apply (clear_wp R r s V Hc Hr)| |done]. intros [] s1 Hcl.
  destruct (c_table _ _ _ _ _ Hc r (to_node _ _ (r_tree R r s V Hc Hr) [] r ltac:(simpl; lia) eq_refl)) as (Hpg & HnV & _).
  assert (Hnf : ~ (V r \/ gone r s 512 0 r)) by (intros [?|Hg]; [done|by apply (gone_root R r s V Hc Hr 512 0)]).
  unfold drop_table. apply wp_bind. unfold wp at 1, modify, free_page. apply wp_on_pool.
  pose proof (pa_free_spec _ _ r (cg_pool _ _ _ _ _ _ Hcl) Hpg Hnf) as Hs. unfold wp in *. cbn [pa_free memory_pages pool tables].
  destruct (pa_free r (allocator (pool s1))) as [[[]|[]|] a]; [|done]. exists (free_now r s V). split.
  - by apply (dropped_core R r s V Hc Hr s1 a Hcl).
  - intros r' n Hr' Hne Hn. by apply (dropped_view R r s V Hc Hr s1 a Hcl Hs).
Qed.

(** The whole space goes; nothing is lost if the space is tight. *)
Lemma drop_vm_wp R v s V : core k U R s V -> pg_table v ∈ R -> space_ok s v ->
  wp drop_vm
    (fun _ '(_, s') => exists V' U', core k U' (R ∖ {[pg_table v]}) s' V' /\ (forall q, U' q -> U q) /\ (tight s v -> forall q, U q -> U' q) /\
       forall r' n, r' ∈ R -> r' <> pg_table v -> user n -> view s' r' n = view s r' n)
    (fun (_ : Sys.SysErrorKind) _ => False) (v, s).
Proof.
  intros Hc Hr Hok. unfold drop_vm. apply wp_bind. eapply wp_mono; [by apply (dealloc_all_wp k U R v s V)| |done].
  intros [] [v1 s1] [-> [Ha1 _ _ Hv1]]. destruct (af_step _ _ _ _ _ _ _ Ha1) as [V1 H1]. pose proof (sp_core _ _ _ _ _ _ _ H1) as Hc1.
  apply wp_bind, wp_focus. cbn [set_areas pg_table user_space_size]. apply wp_bind, wp_lifted.
  destruct (size_round _ (so_size _ _ Hok)) as [-> Hb]. pose proof (so_size _ _ Hok) as [_ He]. set (m := pages_for (user_space_size v)) in *.
  change USER_BASE_VADDR with (heap_base * 4096). replace (m * 4096) with ((heap_base + m - heap_base) * 4096) by lia.
  eapply wp_mono; [apply (vunmap_all_wp k U R (pg_table v) s1 V1 heap_base (heap_base + m) Hc1 Hr); unfold heap_base, good_end; lia| |done].
  intros [] s2 (V2 & H2 & Hv2). pose proof (sp_core _ _ _ _ _ _ _ H2) as Hc2. apply wp_lift_seq.
  eapply wp_mono; [by apply (clear_drop_wp R (pg_table v) s2 V2)| |done]. intros [] s3 (V3 & Hc3 & Hv3). exists V3, (left_over (pg_table v) s2).
  split; [done|]. split; [by intros q [? _]|]. split.
  - intros Ht q HU. split; [done|]. intros (n & e & Hn & Hl & _). assert (Hx : view s2 (pg_table v) n <> None) by (rewrite (view_None k U R s2 V2) by done; congruence).
    apply Hx. destruct (Hv2 n Hn) as [I2 O2], (Hv1 n Hn) as [I1 O1]. destruct (decide (heap_base <= n < heap_base + m)) as [|Hnh]; [auto|].
    rewrite O2 by done. destruct (in_areas_dec (area_list v) n) as [|Hna]; [auto|]. rewrite O1 by done.
    destruct (view s (pg_table v) n) eqn:Hy; [|done]. destruct (Ht n Hn ltac:(congruence)) as [?|Hh]; [done|]. by destruct (Hnh Hh).
  - intros r' n Hr' Hne Hn. rewrite Hv3 by done. rewrite (sp_other _ _ _ _ _ _ _ H2) by done. by apply (sp_other _ _ _ _ _ _ _ H1).
Qed.
End drop.
