(* ===== verification/Exec.v ===== *)
(** * Programs and their address spaces (src/kernel/src/proc/exec.rs, src/kernel/src/elf.rs)

    [fork] and [execve] as far as they build virtual memories: the copy for a
    child, the segments of an ELF file, the stack with arguments and
    environment, and the first trapframe; and the code of a program that finds
    its arguments there (src/ulib/rw_ulib/src/env.rs).  The file is a
    parameter: what reading it gives at an offset. *)

From S2P Require Import Prelude Dir Bytes Vfs Buddy PageTable Vm.
Import Vfs.

#[local] Open Scope Z_scope.
#[local] Open Scope rw_scope.

(** ** The trapframe (arch/riscv64/ctx.rs): registers by their place *)

Definition set_sp (v : Z) (tf : Trapframe) : Trapframe := <[1%nat := v]> tf.
Definition set_arg0 (v : Z) (tf : Trapframe) : Trapframe := <[11%nat := v]> tf.
Definition set_arg1 (v : Z) (tf : Trapframe) : Trapframe := <[12%nat := v]> tf.
Definition set_ret_pc (v : Z) (tf : Trapframe) : Trapframe := <[34%nat := v]> tf.

(** ** ELF headers *)

Record ElfHeader : Type := mkElf {
  e_ident : list Z; e_typ : Z; e_machine : Z; e_version : Z; e_entry : Z; e_phoff : Z; e_shoff : Z; e_flags : Z;
  e_ehsize : Z; e_phentsize : Z; e_phnum : Z; e_shentsize : Z; e_shnum : Z; e_shstrndx : Z
}.

Record ProgramHeader : Type := mkPhdr {
  p_typ : Z; p_flags : Z; p_offset : Z; p_vaddr : Z; p_paddr : Z; p_filesz : Z; p_memsz : Z; p_align : Z
}.

(** The fields of a [repr(C)] structure in its bytes. *)
Definition field (off len : Z) (b : list Z) : Z := le_decode (Bytes.sub off len b).

Definition ElfHeader_of (b : list Z) : ElfHeader :=
  mkElf (Bytes.sub 0 16 b) (field 16 2 b) (field 18 2 b) (field 20 4 b) (field 24 8 b) (field 32 8 b) (field 40 8 b) (field 48 4 b)
        (field 52 2 b) (field 54 2 b) (field 56 2 b) (field 58 2 b) (field 60 2 b) (field 62 2 b).

Definition ProgramHeader_of (b : list Z) : ProgramHeader :=
  mkPhdr (field 0 4 b) (field 4 4 b) (field 8 8 b) (field 16 8 b) (field 24 8 b) (field 32 8 b) (field 40 8 b) (field 48 8 b).

Definition MAGIC : list Z := [127; 69; 76; 70].
Definition PT_LOAD : Z := 1.
Definition USER_ELF_BASE_VADDR : Z := 0x200080000.
Definition USER_ELF_SIZE : Z := 512 * 1024 * 1024.
Definition USER_ELF_END_VADDR : Z := USER_ELF_BASE_VADDR + USER_ELF_SIZE.

Definition TASK_USER_STACK_SIZE : Z := PGSIZE * 32.
Definition USER_ARGUMENTS_MAX_SIZE : Z := PGSIZE.
Definition ENV_VARS_MAX_SIZE : Z := PGSIZE * 3.

Definition align_up (val align : Z) : Z := Z.land (val + (align - 1)) (Z.lnot (align - 1)).
Definition align_to_word (val : Z) : Z := align_up val 8.

Definition flags_to_entry_perm (flags : Z) : EntryPerm :=
  let perm := 0 in
  let perm := if negb (Z.land flags 1 =? 0) then Z.lor perm PERM_EXECUTABLE else perm in
  let perm := if negb (Z.land flags 2 =? 0) then Z.lor perm PERM_WRITABLE else perm in
  if negb (Z.land flags 4 =? 0) then Z.lor perm PERM_READABLE else perm.

Section exec.
Context {A : Type} `{PageAlloc A} (kernel_vm : Z).

#[local] Notation KM := (M (PtState (Memory A)) Sys.SysErrorKind).
#[local] Notation VM := (M (VMInner * PtState (Memory A)) Sys.SysErrorKind).

(** A virtual memory that is dropped when its owner returns an error. *)
Definition owning {B} (v : VMInner) (m : VM B) : KM (B * VMInner) := fun s =>
  match m (v, s) with
  | (Ok b, (v', s')) => (Ok (b, v'), s')
  | (Err e, (v', s')) => match drop_vm (v', s') with (Panic, (_, s'')) => (Panic, s'') | (_, (_, s'')) => (Err e, s'') end
  | (Panic, (_, s')) => (Panic, s')
  end.

(** ** fork *)

(** The virtual memory of [Task::with_name]. *)
Definition new_task_vm : KM VMInner :=
  do vm <- with_kernel_vm kernel_vm;
  do (_, vm) <- owning vm (alloc_trapframe Trapframe_new);
  ret vm.

(** [trapframe().set_return_val(val)]: register [a0], at offset 88. *)
Definition set_return_val (val : Z) : VM unit :=
  do ptr <- trapframe;
  do page <- lift (load_page ptr);
  lift (store_page ptr (splice 88 (le_encode 8 val) page)).

Definition fork (vm : VMInner) : KM VMInner :=
  do new_vm <- new_task_vm;
  do (_, new_vm) <- owning new_vm (copy_user_content_from vm;; set_return_val 0);
  ret new_vm.

(** ** The stack and its contents *)

Definition init_user_stack : VM Z :=
  uvgrow_page 0;;
  do v <- get_focus;
  let sz := user_space_size v + TASK_USER_STACK_SIZE - PGSIZE * 4 in
  uvalloc sz with_rw true;;
  let sz := sz + PGSIZE * 4 in
  uvalloc sz with_rw false;;
  uvgrow_page 0;;
  ret (USER_BASE_VADDR + sz).

Fixpoint push_cstrs (sp : Z) (cstrs : list (list Z)) : VM Z :=
  match cstrs with
  | [] => ret sp
  | arg :: cstrs' =>
    do sp <- write sp arg;
    do sp <- write sp [0];
    push_cstrs sp cstrs'
  end.

Definition cstrs_layout_sz (cstrs : list (list Z)) : Z := align_to_word (8 + Z.of_nat (sum_list_with (fun arg => length arg + 1)%nat cstrs)).

Definition push_cstr_array (sp : Z) (cstrs : list (list Z)) (max_len : Z) : VM Z :=
  if max_len <? cstrs_layout_sz cstrs then fail Sys.InvalidArgument
  else
    let new_sp := sp - cstrs_layout_sz cstrs in
    do sp <- write new_sp (le_encode 8 (zlen cstrs));
    do _ <- push_cstrs sp cstrs;
    ret new_sp.

(** ** The file *)

Section file.
Context (typ : Dir.UFileType) (read_at : Z -> Z -> Sys.SysErrorKind + list Z).

Definition read {S} (offset len : Z) : M S Sys.SysErrorKind (list Z) :=
  match read_at offset len with inl e => fail e | inr b => ret b end.

Definition read_struct {S} (offset len : Z) : M S Sys.SysErrorKind (list Z) :=
  do b <- read offset len;
  if negb (zlen b =? len) then fail Sys.InvalidArgument else ret b.

(** Sums of 64-bit offsets stop the kernel when they overflow. *)
Definition u64 {S E} (z : Z) : M S E Z := if 2 ^ 64 <=? z then panic else ret z.

Definition ElfHeader_load : VM ElfHeader :=
  do b <- catch (read_struct 0 64) (fun _ => fail Sys.ExecFormat); ret (ElfHeader_of b).

Definition ElfHeader_check (h : ElfHeader) : VM unit :=
  if negb (bool_decide (take 4 (e_ident h) = MAGIC)) then fail Sys.ExecFormat else ret tt.

Definition ProgramHeader_load (hdr : ElfHeader) (index : Z) : VM ProgramHeader :=
  do offset <- u64 (e_phoff hdr + e_phentsize hdr * index);
  do b <- catch (read_struct offset 56) (fun _ => fail Sys.ExecFormat); ret (ProgramHeader_of b).

Definition ProgramHeader_check (p : ProgramHeader) : VM unit :=
  if negb (p_vaddr p mod PGSIZE =? 0) then fail Sys.ExecFormat
  else if 2 ^ 64 <=? p_vaddr p + p_memsz p then fail Sys.ExecFormat
  else if p_memsz p <? p_filesz p then fail Sys.ExecFormat
  else if USER_ELF_SIZE <? p_memsz p then fail Sys.ExecFormat
  else if (p_vaddr p <? USER_ELF_BASE_VADDR) || (USER_ELF_END_VADDR <? p_vaddr p + p_memsz p) then fail Sys.ExecFormat
  else ret tt.

Definition check_executable : KM unit :=
  match typ with
  | Dir.RegularFile => ret tt
  | Dir.UDirectory => fail Sys.IsADirectory
  | Dir.UDevice => fail Sys.NoExec
  | Dir.USymlink => panic
  end.

(** The loop of [load_segment]: every turn takes a page from the iterator,
    even when nothing was read. *)
Fixpoint load_pages (fuel : nat) (iter : InternalRangeIter) (phdr : ProgramHeader) (file_offset : Z) : VM unit :=
  match fuel with
  | O => panic
  | S fuel' =>
    if p_filesz phdr <=? file_offset then ret tt
    else
      let to_read := Z.min (p_filesz phdr - file_offset) PGSIZE in
      do (next, iter) <- lift (range_next iter);
      do (_, pte) <- unwrap next;
      do entry <- lift (read_entry pte);
      do offset <- u64 (p_offset phdr + file_offset);
      do bytes <- read offset to_read;
      do page <- lift (load_page (physical_addr entry));
      let page := splice 0 bytes page in
      let page := if negb (zlen bytes =? to_read) then splice (zlen bytes) (replicate (Z.to_nat (to_read - zlen bytes)) 0) page else page in
      lift (store_page (physical_addr entry) page);;
      load_pages fuel' iter phdr (file_offset + zlen bytes)
  end.

Definition load_segment (phdr : ProgramHeader) : VM unit :=
  if negb (p_vaddr phdr mod PGSIZE =? 0) then fail Sys.InvalidArgument
  else
    let memsz := pg_round_up (p_memsz phdr) in
    alloc_segment (p_vaddr phdr) memsz (Z.lor (flags_to_entry_perm (p_flags phdr)) PERM_USER);;
    do v <- get_focus;
    load_pages (Z.to_nat (memsz / PGSIZE) + 2) (InternalRangeIter_new (pg_table v) (p_vaddr phdr) (p_vaddr phdr + memsz)) phdr 0.

Fixpoint load_segments (n : nat) (i : Z) (elfhdr : ElfHeader) : VM unit :=
  match n with
  | O => ret tt
  | S n' =>
    do proghdr <- ProgramHeader_load elfhdr i;
    (if negb (p_typ proghdr =? PT_LOAD) then ret tt
     else ProgramHeader_check proghdr;; load_segment proghdr);;
    load_segments n' (i + 1) elfhdr
  end.

Definition load_elf : VM ElfHeader :=
  do elfhdr <- ElfHeader_load;
  ElfHeader_check elfhdr;;
  load_segments (Z.to_nat (e_phnum elfhdr)) 0 elfhdr;;
  ret elfhdr.

(** ** execve *)

Definition exec_image (user_args env_vars : list (list Z)) : VM unit :=
  do elfhdr <- load_elf;
  do sp <- init_user_stack;
  do args_ptr <- push_cstr_array sp user_args USER_ARGUMENTS_MAX_SIZE;
  do env_ptrs <- push_cstr_array args_ptr env_vars ENV_VARS_MAX_SIZE;
  do _ <- alloc_trapframe (set_ret_pc (e_entry elfhdr) (set_sp env_ptrs (set_arg1 env_ptrs (set_arg0 args_ptr Trapframe_new))));
  ret tt.

(** The new virtual memory replaces that of the task, which is dropped. *)
Definition execve (old_vm : VMInner) (user_args env_vars : list (list Z)) : KM VMInner :=
  check_executable;;
  do new_vm <- with_kernel_vm kernel_vm;
  do (_, new_vm) <- owning new_vm (exec_image user_args env_vars);
  (fun s => match drop_vm (old_vm, s) with (Ok tt, (_, s')) => (Ok tt, s') | (Err e, (_, s')) => (Err e, s') | (Panic, (_, s')) => (Panic, s') end);;
  ret new_vm.
End file.
End exec.

(** ** A program reads its arguments

    [mem] is what loads from the memory of the program give. *)
Section user.
Context (mem : Z -> option Z).

Fixpoint load_bytes (n : nat) (ptr : Z) : option (list Z) :=
  match n with
  | O => Some []
  | S n' => mem ptr ≫= fun b => load_bytes n' (ptr + 1) ≫= fun l => Some (b :: l)
  end.

(** [strlen], with a bound on the length. *)
Fixpoint strlen (fuel : nat) (ptr : Z) : option Z :=
  match fuel with
  | O => None
  | S fuel' => mem ptr ≫= fun b => if b =? 0 then Some 0 else Z.succ <$> strlen fuel' (ptr + 1)
  end.

Fixpoint read_cstrs (fuel n : nat) (ptr : Z) : option (list (list Z)) :=
  match n with
  | O => Some []
  | S n' =>
    strlen fuel ptr ≫= fun len =>
    load_bytes (Z.to_nat len) ptr ≫= fun slice =>
    read_cstrs fuel n' (ptr + len + 1) ≫= fun rest => Some (slice :: rest)
  end.

Definition read_cstr_array (fuel : nat) (ptr : Z) : option (list (list Z)) :=
  load_bytes 8 ptr ≫= fun b => read_cstrs fuel (Z.to_nat (le_decode b)) (ptr + 8).
End user.
