(* ===== verification/ExecFork.v ===== *)
(** * fork

    A child has the memory of its parent, in pages of its own; a fork that
    fails leaves the spaces that were there. *)

From S2P Require Import Prelude Dir Bytes Vfs Buddy PageTable PtTree PtOps PtRange PtIter PtUnmap PtVmap Vm VmCore VmOps VmSpace VmAreas VmFork VmDrop Exec.
Import Vfs.

#[local] Open Scope Z_scope.
#[local] Open Scope rw_scope.

Section fork.
Context {A : Type} `{PageAllocLaws A} (k : Z) (U : Z -> Prop).
#[local] Notation St := (PtState (Memory A)).
Implicit Types (s : St) (V : Z -> Prop) (v : VMInner) (R : gset Z).

(** Nothing has happened to the spaces of [R], but pages may be lost. *)
Definition unchanged R s s' : Prop :=
  exists V' U', core k U' R s' V' /\ (forall q, U' q -> U q) /\ forall r n, r ∈ R -> user n -> view s' r n = view s r n.

(** The spaces of [R] look as before. *)
Definition beside R s s' : Prop := forall r n, r ∈ R -> user n -> view s' r n = view s r n.

Lemma after_beside R v s v' s' : pg_table v ∉ R -> after k U (R ∪ {[pg_table v]}) v s v' s' -> beside R s s'.
Proof.
  intros Hr [[V' Hst] _ _] r n Hx Hn. apply (sp_other _ _ _ _ _ _ _ Hst); [set_solver|set_solver|done].
Qed.

Lemma root_removed R r : r ∉ R -> (R ∪ {[r]}) ∖ {[r]} = R.
Proof. intros Hr. set_solver. Qed.

Lemma owning_wp {B} R v s (m : M (VMInner * St) Sys.SysErrorKind B) Q : pg_table v ∉ R ->
  wp m Q (fun _ '(v', s') => after k U (R ∪ {[pg_table v]}) v s v' s') (v, s) ->
  wp (owning v m) (fun '(b, v') s' => Q b (v', s')) (fun _ s' => unchanged R s s') s.
Proof.
  intros Hr Hm. unfold wp, owning in *. destruct (m (v, s)) as [[b|e|] [v' s']]; [done| |done].
  pose proof (after_beside R v s v' s' Hr Hm) as Hb. destruct Hm as [[V' Hst] Hroot Hok].
  pose proof (drop_vm_wp k U (R ∪ {[pg_table v]}) v' s' V' (sp_core _ _ _ _ _ _ _ Hst) ltac:(rewrite Hroot; set_solver) Hok) as Hd.
  unfold wp in Hd. destruct (drop_vm (v', s')) as [[b|e'|] [v2 s2]]; [|done|done].
  destruct Hd as (V2 & U2 & Hc & HU & _ & Hv). rewrite Hroot, root_removed in Hc by done. exists V2, U2. split; [done|]. split; [done|].
  intros r n Hx Hn. rewrite Hv; [by apply Hb|set_solver|rewrite Hroot; set_solver|done].
Qed.

(** ** A task with a trapframe *)

Definition has_trapframe v : Prop := in_areas (area_list v) trap_page.

(** A space with a page for the trapframe and nothing else. *)
Record fresh_task v s : Prop := {
  ft_ok : space_ok s v;
  ft_trap : has_trapframe v;
  ft_tight : tight s v
}.

Lemma trapframe_new_bytes : zlen (trapframe_bytes Trapframe_new) <= 4096.
Proof. by vm_compute. Qed.

Lemma new_task_wp R s V : core k U R s V ->
  wp (new_task_vm k)
    (fun v s' => pg_table v ∉ R /\ beside R s s' /\ fresh_task v s' /\ exists V', core k U (R ∪ {[pg_table v]}) s' V')
    (fun _ s' => unchanged R s s') s.
Proof.
  intros Hc. unfold new_task_vm. apply wp_bind. eapply wp_mono; [by apply (with_kernel_vm_wp k U R s V)| |].
  2:{ intros err s1 (-> & V1 & Hc1 & Hv). by exists V1, U. }
  intros v s1 (V1 & Hr & Hc1 & Hok & Ht & Hl & Hsz & Hnone & Hv). apply wp_bind.
  eapply wp_mono; [apply (owning_wp R v s1); [done|]; apply (alloc_trapframe_wp k U (R ∪ {[pg_table v]}) Trapframe_new v s1 V1 Hc1 ltac:(set_solver) Hok trapframe_new_bytes)| |].
  - intros [ptr v'] s2 [Ha Hs2 Hp Har (D & HD & _ & Hrest)]. pose proof (after_beside R v s1 v' s2 Hr Ha) as Hb. apply wp_ret. destruct Ha as [[V2 Hst] Hroot Hok2].
    rewrite Hroot. split; [done|]. split; [intros r n Hx Hn; rewrite Hb by done; by apply Hv|]. split; [|exists V2; apply Hst].
    split; [done|done|]. intros n Hn Hx. rewrite Hroot in Hx. destruct (decide (n = trap_page)) as [->|Hne]; [by left|].
    destruct (Hrest n Hn Hne) as [_ Hsame]. rewrite Hsame, Hnone in Hx by (done || intros Hd; destruct (HD n Hd) as (a & Hin & _); rewrite Hl in Hin; by apply elem_of_nil in Hin).
    done.
  - intros err s2 (V2 & U2 & Hc2 & HU & Hb). exists V2, U2. split; [done|]. split; [done|]. intros r n Hx Hn. rewrite Hb by done. by apply Hv.
Qed.

Lemma set_return_wp R v s V val p b : core k U R s V -> pg_table v ∈ R -> space_ok s v -> view s (pg_table v) trap_page = Some (p, b) ->
  wp (set_return_val val)
    (fun _ '(v', s') => v' = v /\ after k U R v s v' s' /\ view s' (pg_table v) trap_page = Some (p, splice 88 (le_encode 8 val) b) /\
       forall n, user n -> n <> trap_page -> view s' (pg_table v) n = view s (pg_table v) n)
    (fun (_ : Sys.SysErrorKind) _ => False) (v, s).
Proof.
  intros Hc Hr Hok Hp. unfold set_return_val. apply wp_bind. eapply wp_mono; [apply (trapframe_wp k U R v s V Hc Hr); by rewrite Hp| |done].
  intros ptr [v' s'] (-> & -> & e & He & ->). destruct (view_Some k U R s V _ _ _ Hc Hr user_trap Hp) as (e' & He' & Hpe & Hb & Hl). assert (e' = e) as -> by congruence. cbn [fst snd] in *.
  apply wp_bind, wp_lifted. eapply wp_load; [exact Hb|]. apply wp_lifted, wp_store.
  destruct (store_step k U R s V (pg_table v) trap_page e (splice 88 (le_encode 8 val) b) Hc Hr user_trap He) as (Hst & Hw & Hrest).
  { rewrite splice_length; rewrite ?le_encode_length; lia. }
  split; [done|]. split; [|split; [by rewrite Hw, Hpe|done]]. split; [by exists V|done|]. apply (space_mapped s); [done|].
  intros n Hn. destruct (decide (n = trap_page)) as [->|Hne]; [by rewrite Hw|by rewrite Hrest].
Qed.

(** ** fork *)

Record forked R (u : VMInner) s v s' : Prop := {
  fk_new : pg_table v ∉ R;
  fk_core : exists V', core k U (R ∪ {[pg_table v]}) s' V';
  fk_others : beside R s s';
  fk_ok : space_ok s' v;
  fk_trap : has_trapframe v;
  fk_areas : area_list v = area_list u;
  fk_size : user_space_size v = user_space_size u;
  fk_view : tight s u -> forall n, user n -> n <> trap_page -> view s' (pg_table v) n = view s (pg_table u) n;
  fk_page p b : tight s u -> view s (pg_table u) trap_page = Some (p, b) -> view s' (pg_table v) trap_page = Some (p, splice 88 (le_encode 8 0) b)
}.

Lemma forked_tight R u s v s' : forked R u s v s' -> tight s u -> has_trapframe u -> tight s' v.
Proof.
  intros Hf Ht Htr n Hn Hx. unfold used. rewrite (fk_areas _ _ _ _ _ Hf), (fk_size _ _ _ _ _ Hf). destruct (decide (n = trap_page)) as [->|Hne]; [by left|].
  apply Ht; [done|]. by rewrite <- (fk_view _ _ _ _ _ Hf Ht n Hn Hne).
Qed.

Lemma fork_wp R u s V : core k U R s V -> pg_table u ∈ R -> space_ok s u -> has_trapframe u ->
  wp (fork k u) (fun v s' => forked R u s v s') (fun _ s' => unchanged R s s') s.
Proof.
  intros Hc Hu Hoku Htr. unfold fork. apply wp_bind. eapply wp_mono; [by apply (new_task_wp R s V)| |done].
  intros v s1 (Hr & Hb1 & [Hok1 _ Ht1] & V1 & Hc1). apply wp_bind. set (R' := R ∪ {[pg_table v]}) in *.
  assert (HuR : pg_table u ∈ R') by set_solver. assert (HvR : pg_table v ∈ R') by set_solver. assert (Hne : pg_table u <> pg_table v) by (intros Heq; rewrite Heq in Hu; done).
  assert (Hoku1 : space_ok s1 u). { apply (space_kept s); [done|]. intros n Hn. apply Hb1; [done|]. by apply (areas_below u s n). }
  assert (Htu : tight s u -> tight s1 u) by (intros Ht n Hn Hx; apply Ht; [done|]; by rewrite <- (Hb1 _ n Hu Hn)).
  eapply wp_mono; [apply (owning_wp R v s1 _ (fun _ '(v', s') => forked R u s v' s') Hr)| |].
  - apply wp_bind. eapply wp_mono; [by apply (copy_user_wp k U R' u v s1 V1)| |done]. intros [] [v2 s2] [Ha2 Hl2 Hs2 Hv2].
    pose proof (af_root _ _ _ _ _ _ _ Ha2) as Hr2. pose proof (af_ok _ _ _ _ _ _ _ Ha2) as Hok2. destruct (af_step _ _ _ _ _ _ _ Ha2) as [V2 H2].
    assert (Htr2 : in_areas (area_list v2) trap_page) by (by rewrite Hl2). pose proof (so_mapped _ _ Hok2 _ Htr2) as Hm.
    destruct (view s2 (pg_table v2) trap_page) as [[p b]|] eqn:Hp; [|done].
    eapply wp_mono; [apply (set_return_wp R' v2 s2 V2 0 p b (sp_core _ _ _ _ _ _ _ H2) ltac:(by rewrite Hr2) Hok2 Hp)| |done].
    intros [] [v3 s3] (-> & Ha3 & Hp3 & Hrest3). pose proof (after_trans _ _ _ _ _ _ _ _ _ Ha2 Ha3) as Ha. rewrite Hr2 in *.
    pose proof (after_beside R v s1 v2 s3 Hr Ha) as Hb3. destruct Ha as [[V3 H3] _ Hok3].
    split; [by rewrite Hr2|rewrite Hr2; exists V3; apply H3|intros r n Hx Hn; rewrite Hb3 by done; by apply Hb1|done|done|done|done| |].
    + intros Ht n Hn Hnt. rewrite Hr2, Hrest3 by done. rewrite Hv2 by auto. by apply Hb1.
    + intros p' b' Ht Hpu. assert (Heq : view s2 (pg_table v) trap_page = Some (p', b')) by (rewrite Hv2 by (auto || apply user_trap); rewrite Hb1 by (done || apply user_trap); done).
      rewrite Hr2, Hp3. congruence.
  - intros [[] v'] s' Hf. by apply wp_ret.
  - intros err s2 (V2 & U2 & Hc2 & HU & Hv). exists V2, U2. split; [done|]. split; [done|]. intros r n Hx Hn. rewrite Hv by done. by apply Hb1.
Qed.
End fork.
