(* ===== verification/ExecStack.v ===== *)
(** * The stack of a new program

    The stack has four pages to start with, the arguments and the environment
    are laid out on them, and a program that reads them gets them back. *)

From S2P Require Import Prelude Dir Bytes Vfs Buddy PageTable PtTree PtOps PtRange PtIter PtUnmap PtVmap Vm VmCore VmOps VmSpace VmAreas VmFork VmDrop Exec.
Import Vfs.

#[local] Open Scope Z_scope.
#[local] Open Scope rw_scope.

(** ** Layout of strings *)

Definition cstr (arg : list Z) : list Z := arg ++ [0].
Definition layout (cstrs : list (list Z)) : list Z := le_encode 8 (zlen cstrs) ++ concat (cstr <$> cstrs).

Lemma layout_length cstrs : zlen (layout cstrs) = 8 + Z.of_nat (sum_list_with (fun arg => length arg + 1)%nat cstrs).
Proof.
  unfold layout. rewrite length_app, le_encode_length. enough (length (concat (cstr <$> cstrs)) = sum_list_with (fun arg => length arg + 1)%nat cstrs) as -> by lia.
  induction cstrs as [|a l IH]; [done|]. cbn [fmap list_fmap concat sum_list_with]. rewrite length_app, IH. unfold cstr. rewrite length_app. done.
Qed.

Lemma word_up z : 0 <= z -> z <= align_to_word z < z + 8.
Proof.
  intros Hz. unfold align_to_word, align_up. change (Z.lnot (8 - 1)) with (Z.lnot (Z.ones 3)). rewrite <- Z.ldiff_land, Z.ldiff_ones_r by lia.
  rewrite Z.shiftl_mul_pow2, Z.shiftr_div_pow2 by lia. change (2 ^ 3) with 8. lia.
Qed.

Lemma layout_fits cstrs : zlen (layout cstrs) <= cstrs_layout_sz cstrs < zlen (layout cstrs) + 8.
Proof. unfold cstrs_layout_sz. rewrite <- layout_length. apply word_up. lia. Qed.

(** ** Reading *)

Section reading.
Context (mem : Z -> option Z).

(** [bytes] are in the memory from [ptr] on. *)
Definition lies (ptr : Z) (bytes : list Z) : Prop := forall i, (i < length bytes)%nat -> mem (ptr + Z.of_nat i) = bytes !! i.

Lemma lies_app ptr b1 b2 : lies ptr (b1 ++ b2) -> lies ptr b1 /\ lies (ptr + zlen b1) b2.
Proof.
  intros Hl. split; intros i Hi.
  - rewrite Hl by (rewrite length_app; lia). by apply lookup_app_l.
  - specialize (Hl (length b1 + i)%nat ltac:(rewrite length_app; lia)). rewrite lookup_app_r in Hl by lia. replace (length b1 + i - length b1)%nat with i in Hl by lia.
    rewrite <- Hl. f_equal. lia.
Qed.

Lemma lies_cons ptr b bytes : lies ptr (b :: bytes) -> mem ptr = Some b /\ lies (ptr + 1) bytes.
Proof.
  intros Hl. destruct (lies_app ptr [b] bytes Hl) as [H1 H2]. split; [|done]. specialize (H1 0%nat ltac:(simpl; lia)). change ([b] !! 0%nat) with (Some b) in H1. rewrite <- H1. f_equal. lia.
Qed.

Lemma load_bytes_lies bytes : forall ptr, lies ptr bytes -> load_bytes mem (length bytes) ptr = Some bytes.
Proof.
  induction bytes as [|b bytes IH]; intros ptr Hl; [done|]. apply lies_cons in Hl as [Hb Hl]. cbn [length load_bytes]. rewrite Hb. cbn [mbind option_bind].
  by rewrite (IH _ Hl).
Qed.

Lemma strlen_lies bytes : forall ptr fuel, Forall (fun b => b <> 0) bytes -> lies ptr (cstr bytes) -> (length bytes < fuel)%nat -> strlen mem fuel ptr = Some (zlen bytes).
Proof.
  induction bytes as [|b bytes IH]; intros ptr fuel Hf Hl Hfu; (destruct fuel as [|fuel]; [simpl in Hfu; lia|]); cbn [cstr app] in Hl; apply lies_cons in Hl as [Hb Hl]; cbn [strlen]; rewrite Hb; cbn [mbind option_bind].
  - done.
  - apply Forall_cons in Hf as [Hb0 Hf]. destruct (Z.eqb_spec b 0); [done|]. cbn [length] in *. rewrite (IH (ptr + 1) fuel Hf Hl ltac:(lia)). cbn [fmap option_fmap option_map]. f_equal. lia.
Qed.

Lemma read_cstrs_lies cstrs : forall ptr fuel, Forall (Forall (fun b => b <> 0)) cstrs -> Forall (fun a => (length a < fuel)%nat) cstrs ->
  lies ptr (concat (cstr <$> cstrs)) -> read_cstrs mem fuel (length cstrs) ptr = Some cstrs.
Proof.
  induction cstrs as [|a l IH]; intros ptr fuel Hf Hfu Hl; [done|]. apply Forall_cons in Hf as [Ha Hf]. apply Forall_cons in Hfu as [Hfa Hfu].
  cbn [fmap list_fmap concat] in Hl. apply lies_app in Hl as [H1 H2]. cbn [length read_cstrs]. rewrite (strlen_lies a ptr fuel Ha H1 Hfa). cbn [mbind option_bind].
  rewrite Nat2Z.id, (load_bytes_lies a) by (by apply lies_app in H1 as [? _]). cbn [mbind option_bind].
  replace (ptr + zlen a + 1) with (ptr + zlen (cstr a)) by (unfold cstr; rewrite length_app; simpl; lia). by rewrite (IH _ fuel Hf Hfu H2).
Qed.

Lemma read_layout cstrs ptr fuel : zlen cstrs < 2 ^ 64 -> Forall (Forall (fun b => b <> 0)) cstrs -> Forall (fun a => (length a < fuel)%nat) cstrs ->
  lies ptr (layout cstrs) -> read_cstr_array mem fuel ptr = Some cstrs.
Proof.
  intros Hn Hf Hfu Hl. unfold layout in Hl. apply lies_app in Hl as [H1 H2]. unfold read_cstr_array. pose proof (load_bytes_lies _ _ H1) as Hb. rewrite le_encode_length in *. rewrite Hb.
  cbn [mbind option_bind]. rewrite le_decode_encode by (change (256 ^ Z.of_nat 8) with (2 ^ 64); lia). rewrite Nat2Z.id. by apply read_cstrs_lies.
Qed.
End reading.

Section stack.
Context {A : Type} `{PageAllocLaws A} (k : Z) (U : Z -> Prop) (R : gset Z).
#[local] Notation St := (PtState (Memory A)).
Implicit Types (s : St) (V : Z -> Prop) (v : VMInner).

(** ** Writing the strings *)

Lemma wrote_after v s addr d s' V' : space_ok s v -> step k U R (pg_table v) s s' V' -> wrote (pg_table v) addr d s s' -> after k U R v s v s'.
Proof. intros Hok Hst Hw. split; [by exists V'|done|]. apply (space_mapped s); [done|]. intros n Hn. by eapply wrote_None. Qed.

Lemma write_wp v s V addr bytes : core k U R s V -> pg_table v ∈ R -> space_ok s v -> 0x180000000 <= addr -> addr + zlen bytes <= 2 ^ 39 ->
  wp (write addr bytes)
    (fun r '(v', s') => v' = v /\ r = addr + zlen bytes /\ after k U R v s v s' /\ wrote (pg_table v) addr bytes s s')
    (fun _ '(v', s') => after k U R v s v' s') (v, s).
Proof.
  intros Hc Hr Hok Ha He. eapply wp_mono; [by apply (write_loop_wp k U R v (length bytes) addr bytes s V)| |].
  - intros r [v' s'] (-> & -> & V' & Hst & Hw). split; [done|]. split; [done|]. split; [by eapply wrote_after|done].
  - intros err [v' s'] (-> & -> & V' & j & Hst & Hw & _). by eapply wrote_after.
Qed.

(** The state after some bytes are written, for the next ones. *)
Lemma write_then {B} v s addr d s1 (m : M (VMInner * St) Sys.SysErrorKind B) (d' : list Z) (Q : B -> Prop) :
  after k U R v s v s1 -> wrote (pg_table v) addr d s s1 ->
  (forall V1, core k U R s1 V1 -> space_ok s1 v ->
     wp m (fun b '(v', s') => v' = v /\ Q b /\ after k U R v s1 v s' /\ wrote (pg_table v) (addr + zlen d) d' s1 s') (fun _ '(v', s') => after k U R v s1 v' s') (v, s1)) ->
  wp m (fun b '(v', s') => v' = v /\ Q b /\ after k U R v s v s' /\ wrote (pg_table v) addr (d ++ d') s s') (fun _ '(v', s') => after k U R v s v' s') (v, s1).
Proof.
  intros Ha Hw Hm. destruct (af_step _ _ _ _ _ _ _ Ha) as [V1 H1]. eapply wp_mono; [apply (Hm V1); [apply H1|apply Ha]| |].
  - intros b [v' s'] (-> & HQ & Ha' & Hw'). split; [done|]. split; [done|]. split; [by eapply after_trans|by eapply wrote_app].
  - intros err [v' s'] Ha'. by eapply after_trans.
Qed.

Lemma push_cstrs_wp v cstrs : pg_table v ∈ R -> forall s V sp, core k U R s V -> space_ok s v -> 0x180000000 <= sp -> sp + zlen (concat (cstr <$> cstrs)) <= 2 ^ 39 ->
  wp (push_cstrs sp cstrs) (fun _ '(v', s') => v' = v /\ True /\ after k U R v s v s' /\ wrote (pg_table v) sp (concat (cstr <$> cstrs)) s s')
    (fun _ '(v', s') => after k U R v s v' s') (v, s).
Proof.
  intros Hr. induction cstrs as [|a l IH]; intros s V sp Hc Hok Hlo Hhi; cbn [push_cstrs].
  { apply wp_ret. split; [done|]. split; [done|]. split; [split; [exists V; by apply step_refl|done|done]|apply wrote_nothing]. }
  cbn [fmap list_fmap concat] in *. rewrite length_app in Hhi. unfold cstr at 1 in Hhi. rewrite length_app in Hhi. cbn [length] in Hhi.
  apply wp_bind. eapply wp_mono; [apply (write_wp v s V sp a Hc Hr Hok Hlo); lia| |done]. intros r [v1 s1] (-> & -> & Ha1 & Hw1).
  destruct (af_step _ _ _ _ _ _ _ Ha1) as [V1 H1]. apply wp_bind.
  eapply wp_mono; [apply (write_wp v s1 V1 (sp + zlen a) [0] (sp_core _ _ _ _ _ _ _ H1) Hr (af_ok _ _ _ _ _ _ _ Ha1)); cbn [length]; lia| |].
  - intros r [v2 s2] (-> & -> & Ha2 & Hw2). apply (write_then v s sp (cstr a) s2 _ (concat (cstr <$> l)) (fun _ => True)); [by eapply after_trans|by eapply wrote_app|].
    intros V2 Hc2 Hok2. replace (sp + zlen a + zlen [0]) with (sp + zlen (cstr a)) by (unfold cstr; rewrite length_app; cbn [length]; lia).
    apply (IH s2 V2); [done|done|lia|]. unfold cstr at 1. rewrite length_app. cbn [length]. lia.
  - intros err [v2 s2] Ha2. by eapply after_trans.
Qed.

Lemma push_array_wp v s V sp cstrs max_len : core k U R s V -> pg_table v ∈ R -> space_ok s v -> 0x180000000 + max_len <= sp <= 2 ^ 39 ->
  wp (push_cstr_array sp cstrs max_len)
    (fun r '(v', s') => v' = v /\ (r = sp - cstrs_layout_sz cstrs /\ cstrs_layout_sz cstrs <= max_len) /\ after k U R v s v s' /\
       wrote (pg_table v) (sp - cstrs_layout_sz cstrs) (layout cstrs) s s')
    (fun _ '(v', s') => after k U R v s v' s') (v, s).
Proof.
  intros Hc Hr Hok Hsp. pose proof (layout_fits cstrs) as Hfit. unfold push_cstr_array.
  destruct (Z.ltb_spec max_len (cstrs_layout_sz cstrs)); [apply wp_fail; split; [exists V; by apply step_refl|done|done]|]. set (p := sp - cstrs_layout_sz cstrs).
  assert (Hlen : zlen (layout cstrs) = 8 + zlen (concat (cstr <$> cstrs))) by (unfold layout; rewrite length_app, le_encode_length; lia).
  apply wp_bind. eapply wp_mono; [apply (write_wp v s V p _ Hc Hr Hok); rewrite ?le_encode_length; lia| |done]. intros r [v1 s1] (-> & -> & Ha1 & Hw1).
  apply (write_then v s p _ s1 _ (concat (cstr <$> cstrs)) (fun r => r = p /\ cstrs_layout_sz cstrs <= max_len) Ha1 Hw1). intros V1 Hc1 Hok1. rewrite le_encode_length.
  apply wp_bind. eapply wp_mono; [apply (push_cstrs_wp v cstrs Hr s1 V1 (p + Z.of_nat 8) Hc1 Hok1); lia| |done].
  intros x [v2 s2] (-> & _ & Ha2 & Hw2). apply wp_ret. done.
Qed.
(** ** The pages of the stack *)

Lemma resized_grow v s sz lazy p v' s' : resized k U R v s sz lazy p v' s' -> pages_for (user_space_size v) <= pages_for sz -> forall n, user n ->
  (~ heap_base + pages_for (user_space_size v) <= n < heap_base + pages_for sz -> view s' (pg_table v) n = view s (pg_table v) n) /\
  (lazy = false -> heap_base + pages_for (user_space_size v) <= n < heap_base + pages_for sz -> view s' (pg_table v) n = Some (Z.lor (Z.lor p PERM_USER) PERM_VALID, zero_page)).
Proof.
  intros Hrs Hle n Hn. rewrite (rs_view _ _ _ _ _ _ _ _ _ _ Hrs n Hn).
  destruct ((heap_base + pages_for sz <=? n) && (n <? heap_base + pages_for (user_space_size v))) eqn:H1; [lia|]. split.
  - intros Hout. destruct (negb lazy && (heap_base + pages_for (user_space_size v) <=? n) && (n <? heap_base + pages_for sz)) eqn:H2; [lia|done].
  - intros -> Hin. cbn [negb andb]. destruct ((heap_base + pages_for (user_space_size v) <=? n) && (n <? heap_base + pages_for sz)) eqn:H2; [done|lia].
Qed.

(** One growth of the space, from [a] to [b] pages. *)
Record grown_to (a b : Z) (lazy : bool) (p : EntryPerm) v s v' s' : Prop := {
  gt_after : after k U R v s v' s';
  gt_areas : area_list v' = area_list v;
  gt_size : user_space_size v' = b * 4096;
  gt_out n : user n -> ~ heap_base + a <= n < heap_base + b -> view s' (pg_table v) n = view s (pg_table v) n;
  gt_in n : user n -> lazy = false -> heap_base + a <= n < heap_base + b -> view s' (pg_table v) n = Some (Z.lor (Z.lor p PERM_USER) PERM_VALID, zero_page)
}.

Lemma grow_wp v s V a b lazy p : core k U R s V -> pg_table v ∈ R -> space_ok s v -> user_space_size v = a * 4096 -> 0 <= a < b -> b < 512 -> 0 <= p < 32 -> (lazy = true -> p = with_rw) ->
  wp (uvalloc (b * 4096) p lazy) (fun _ '(v', s') => grown_to a b lazy p v s v' s') (fun _ '(v', s') => after k U R v s v' s') (v, s).
Proof.
  intros Hc Hr Hok Hsz Hab Hb Hp Hlazy. assert (Hpa : pages_for (user_space_size v) = a) by (unfold pages_for; lia). assert (Hpb : pages_for (b * 4096) = b) by (unfold pages_for; lia).
  eapply wp_mono; [apply (uvalloc_wp k U R v s V Hc Hr Hok (b * 4096) p lazy); [|done|done]| |].
  - unfold size_ok. rewrite Hpb. lia.
  - intros [] [v' s'] Hrs. pose proof (resized_grow v s _ _ _ v' s' Hrs ltac:(lia)) as Hv. rewrite Hpa, Hpb in Hv. destruct Hrs as [Ha Hl _ Hs _].
    split; [done|done|apply Hs; lia|intros n Hn; by apply Hv|intros n Hn; by apply Hv].
  - intros err [v' s'] (_ & Ha & _). done.
Qed.

Record stacked v s v' s' : Prop := {
  sk_after : after k U R v s v' s';
  sk_areas : area_list v' = area_list v;
  sk_size : user_space_size v' = 34 * 4096;
  sk_out n : user n -> ~ heap_base <= n < heap_base + 34 -> view s' (pg_table v) n = view s (pg_table v) n;
  sk_top n : heap_base + 29 <= n < heap_base + 33 -> view s' (pg_table v) n = Some (15, zero_page)
}.

Lemma init_stack_wp v s V : core k U R s V -> pg_table v ∈ R -> space_ok s v -> user_space_size v = 0 ->
  wp init_user_stack (fun sp '(v', s') => sp = USER_BASE_VADDR + 33 * 4096 /\ stacked v s v' s') (fun _ '(v', s') => after k U R v s v' s') (v, s).
Proof.
  intros Hc Hr Hok Hsz. unfold init_user_stack, uvgrow_page. apply wp_bind, wp_bind, wp_focus. rewrite Hsz. change (usize (0 + PGSIZE)) with (1 * 4096).
  eapply wp_mono; [apply (grow_wp v s V 0 1 false 0 Hc Hr Hok); lia || done| |done]. intros [] [v1 s1] [Ha1 Hl1 Hs1 Ho1 Hi1].
  pose proof (af_root _ _ _ _ _ _ _ Ha1) as Hr1. destruct (af_step _ _ _ _ _ _ _ Ha1) as [V1 H1]. apply wp_bind, wp_focus. rewrite Hs1.
  change (1 * 4096 + TASK_USER_STACK_SIZE - PGSIZE * 4) with (29 * 4096). apply wp_bind.
  eapply wp_mono; [apply (grow_wp v1 s1 V1 1 29 true with_rw (sp_core _ _ _ _ _ _ _ H1) ltac:(by rewrite Hr1) (af_ok _ _ _ _ _ _ _ Ha1) Hs1); lia || done| |].
  2:{ intros err [v2 s2] Ha2. by eapply after_trans. }
  intros [] [v2 s2] [Ha2 Hl2 Hs2 Ho2 Hi2]. pose proof (after_trans _ _ _ _ _ _ _ _ _ Ha1 Ha2) as Hb2.
  pose proof (af_root _ _ _ _ _ _ _ Hb2) as Hr2. destruct (af_step _ _ _ _ _ _ _ Hb2) as [V2 H2]. change (29 * 4096 + PGSIZE * 4) with (33 * 4096). apply wp_bind.
  eapply wp_mono; [apply (grow_wp v2 s2 V2 29 33 false with_rw (sp_core _ _ _ _ _ _ _ H2) ltac:(by rewrite Hr2) (af_ok _ _ _ _ _ _ _ Hb2) Hs2); lia || done| |].
  2:{ intros err [v3 s3] Ha3. by eapply after_trans. }
  intros [] [v3 s3] [Ha3 Hl3 Hs3 Ho3 Hi3]. pose proof (after_trans _ _ _ _ _ _ _ _ _ Hb2 Ha3) as Hb3.
  pose proof (af_root _ _ _ _ _ _ _ Hb3) as Hr3. destruct (af_step _ _ _ _ _ _ _ Hb3) as [V3 H3]. apply wp_bind, wp_bind, wp_focus. rewrite Hs3. change (usize (33 * 4096 + PGSIZE)) with (34 * 4096).
  eapply wp_mono; [apply (grow_wp v3 s3 V3 33 34 false 0 (sp_core _ _ _ _ _ _ _ H3) ltac:(by rewrite Hr3) (af_ok _ _ _ _ _ _ _ Hb3) Hs3); lia || done| |].
  2:{ intros err [v4 s4] Ha4. by eapply after_trans. }
  intros [] [v4 s4] [Ha4 Hl4 Hs4 Ho4 Hi4]. apply wp_ret. split; [done|]. rewrite Hr1 in *. rewrite Hr2 in *. rewrite Hr3 in *.
  split; [by eapply after_trans|congruence|done| |].
  - intros n Hn Hout. rewrite Ho4, Ho3, Ho2, Ho1 by (done || lia). done.
  - intros n Hin. assert (Hn : user n) by (unfold user, heap_base in *; lia). rewrite Ho4, Hi3 by (done || lia). done.
Qed.
End stack.
