(* ===== verification/ExecImage.v ===== *)
(** * Loading an ELF file

    [load_segment] maps the pages of a segment, and fills them with the part
    of the file that belongs there. *)

From S2P Require Import Prelude Bytes Vfs Dir Buddy PageTable PtTree PtOps PtRange PtIter PtUnmap PtVmap Vm VmCore VmOps VmSpace VmAreas VmFork VmDrop Exec ExecFork ExecStack.
Import Vfs.

#[local] Open Scope Z_scope.
#[local] Open Scope rw_scope.

Section segment.
Context (file : list Z).

(** ** Segments *)

Definition seg_perm (phdr : ProgramHeader) : EntryPerm := Z.lor (flags_to_entry_perm (p_flags phdr)) PERM_USER.
Definition seg_area (phdr : ProgramHeader) : VmArea := mkArea (p_vaddr phdr) (pages_for (p_memsz phdr) * 4096) (seg_perm phdr).

(** The segment is in the memory: bytes of the file first, and zeros. *)
Record segment_loaded {A} (r : Z) (s : PtState (Memory A)) (phdr : ProgramHeader) : Prop := {
  sl_byte j : 0 <= j < pages_for (p_memsz phdr) * 4096 ->
    byte_at s r (p_vaddr phdr + j) = if decide (j < p_filesz phdr) then file !! Z.to_nat (p_offset phdr + j) else Some 0;
  sl_align : p_vaddr phdr mod 4096 = 0;
  sl_perm n : in_area (seg_area phdr) n -> fst <$> view s r n = Some (Z.lor (seg_perm phdr) PERM_VALID)
}.

(** Headers that can be loaded: the file has the bytes, and the segment does
    not end together with a page table. *)
Record loadable (phdr : ProgramHeader) : Prop := {
  lo_align : p_vaddr phdr mod 4096 = 0;
  lo_range : USER_ELF_BASE_VADDR <= p_vaddr phdr /\ p_vaddr phdr + p_memsz phdr <= USER_ELF_END_VADDR;
  lo_size : 0 <= p_filesz phdr <= p_memsz phdr /\ 0 < p_memsz phdr;
  lo_file : 0 <= p_offset phdr /\ p_offset phdr + p_filesz phdr <= zlen file;
  lo_end : (p_vaddr phdr / 4096 + pages_for (p_memsz phdr)) mod 512 <> 0
}.

Lemma seg_perm_range phdr : 0 <= seg_perm phdr < 32.
Proof. unfold seg_perm, flags_to_entry_perm. by repeat case_match; vm_compute. Qed.

Lemma seg_start phdr : area_start (seg_area phdr) = p_vaddr phdr / 4096.
Proof. done. Qed.

Lemma seg_stop phdr : area_stop (seg_area phdr) = p_vaddr phdr / 4096 + pages_for (p_memsz phdr).
Proof. unfold area_stop, seg_area. cbn [va area_size]. by rewrite Z.div_add by lia. Qed.

Lemma seg_area_ok phdr : loadable phdr -> area_ok (seg_area phdr) /\ 0x200080 <= area_start (seg_area phdr).
Proof.
  intros [Hal Hra Hsz _ He]. unfold USER_ELF_END_VADDR, USER_ELF_SIZE, USER_ELF_BASE_VADDR in Hra.
  assert (Hp : 0 < pages_for (p_memsz phdr)) by (unfold pages_for; lia).
  assert (Hpm : pages_for (p_memsz phdr) * 4096 < p_memsz phdr + 4096) by (unfold pages_for; lia).
  split; [split; rewrite ?seg_stop, ?seg_start; cbn [seg_area va area_size perm]|rewrite seg_start].
  - lia.
  - lia.
  - unfold heap_base. lia.
  - done.
  - apply seg_perm_range.
  - lia.
Qed.
End segment.

Lemma wp_u64 {S E} z (Q : Z -> S -> Prop) (F : E -> S -> Prop) (x : S) : z < 2 ^ 64 -> Q z x -> wp (u64 z) Q F x.
Proof. intros Hz HQ. unfold u64. destruct (Z.leb_spec (2 ^ 64) z); [lia|]. by apply wp_ret. Qed.

Section load.
Context {A : Type} `{PageAllocLaws A} (k : Z) (U : Z -> Prop) (R : gset Z).
#[local] Notation St := (PtState (Memory A)).
Implicit Types (s : St) (V : Z -> Prop) (v : VMInner).

(** What a file is: reads give its bytes, as far as it has them, or fail. *)
Context (read_at : Z -> Z -> Sys.SysErrorKind + list Z) (file : list Z).
Hypothesis Hread : forall off len, 0 <= off -> 0 <= len -> (exists e, read_at off len = inl e) \/ read_at off len = inr (Bytes.sub off len file).
Hypothesis Hbytes : Forall is_byte file.

Lemma read_wp {S} off len (Q : list Z -> S -> Prop) (F : Sys.SysErrorKind -> S -> Prop) (x : S) : 0 <= off -> 0 <= len ->
  Q (Bytes.sub off len file) x -> (forall e, F e x) -> wp (read read_at off len) Q F x.
Proof. intros Hoff Hlen HQ HF. unfold read. destruct (Hread off len Hoff Hlen) as [[e ->]| ->]; [apply wp_fail; auto|by apply wp_ret]. Qed.

(** ** The pages of a segment *)

Section pages.
Context (v : VMInner) (sN eN : Z) (phdr : ProgramHeader).
Hypothesis Hr : pg_table v ∈ R.
Hypothesis Hrange : pages_ok sN eN.
Hypothesis Hoff : 0 <= p_offset phdr.
Hypothesis Hsz : 0 <= p_filesz phdr <= (eN - sN) * 4096.
Hypothesis Hfile : p_offset phdr + p_filesz phdr <= zlen file < 2 ^ 64.

#[local] Notation r := (pg_table v).

(** The iterator stands before page [n]. *)
Definition before (s : St) (it : InternalRangeIter) (n : Z) : Prop :=
  exists pos w, stk r sN eN 0 s it pos w /\ (w <= fuel sN eN)%nat /\ pos <= n /\ forall m, pos <= m -> 0 <= m < 2 ^ 27 -> vis sN eN 0 m -> n <= m.

Lemma before_init s : before s (InternalRangeIter_new r (sN * 4096) (eN * 4096)) sN.
Proof.
  destruct Hrange as (H1 & H2 & H3). destruct (stk_init r sN eN ltac:(lia) s) as (pos & w & Hpos & Hs & Hw). exists pos, w. split; [done|]. split; [done|]. split; [done|].
  intros m _ Hm Hv. by apply (vis0_in sN eN ltac:(lia) m ltac:(lia)) in Hv as [? _].
Qed.

Lemma before_stored s it n p b : before s it n -> before (stored p b s) it n.
Proof. intros (pos & w & Hs & Hx). exists pos, w. split; [|done]. eapply stk_kept; [|exact Hs]. by intros q t _ Hq. Qed.

Lemma next_page s V it n : core k U R s V -> before s it n -> sN <= n < eN -> view s r n <> None ->
  wp (range_next it) (fun '(o, it') s' => s' = s /\ exists t e, o = Some (n * 4096, (t, pidx 0 n)) /\ leaf (tables s) r n = Some e /\ ent (tables s) t (pidx 0 n) = Some e /\ before s it' (n + 1))
    (fun (_ : Sys.SysErrorKind) _ => False) s.
Proof.
  intros Hc (pos & w & Hs & Hw & Hpos & Hfirst) Hn Hm. destruct Hrange as (H1 & H2 & H3). assert (Hu : user n) by (unfold user; lia).
  assert (Hvn : vis sN eN 0 n) by (by apply (vis0_all sN eN ltac:(lia) n H3)). rewrite (view_None k U R s V) in Hm by done.
  eapply wp_mono; [apply (range_next_spec r sN eN ltac:(lia) (fun _ _ => False) s it pos w); [apply (c_tree _ _ _ _ _ Hc); by right|done|done]| |done].
  intros [o it'] s' [-> Ho]. split; [done|]. destruct o as [[va [t i]]|]; [|by rewrite Ho in Hm by (done || lia)].
  destruct Ho as (m & w' & Hmr & H0m & Hv & -> & Hl & Hnode & [e He] & Hbefore & Hst & Hw'). cbn [fst] in *. injection Hl as ->.
  assert (m = n) as ->. { pose proof (Hfirst m ltac:(lia) ltac:(lia) Hv). destruct (decide (m = n)); [done|]. rewrite Hbefore in Hm by (done || lia). done. }
  exists t, e. split; [done|]. split; [done|]. split; [by apply (leaf_entry_at _ r n)|]. exists (n + 1), w'. split; [done|]. split; [lia|]. split; [lia|]. intros; lia.
Qed.
(** One page: the bytes of the file are stored at its start. *)
Lemma load_page_wp s V n e bytes : core k U R s V -> space_ok s v -> user n -> leaf (tables s) r n = Some e -> zlen bytes <= 4096 ->
  exists b, frames (pool s) !! physical_addr e = Some b /\ let s' := stored (physical_addr e) (splice 0 bytes b) s in
    core k U R s' V /\ after k U R v s v s' /\ wrote r (n * 4096) bytes s s' /\ forall m, user m -> view s' r m = None -> view s r m = None.
Proof.
  intros Hc Hok Hn He Hlen. destruct (c_data _ _ _ _ _ Hc r n e Hr Hn He) as (_ & _ & _ & b & Hb & Hl). exists b. split; [done|]. cbn zeta.
  destruct (wrote_page k U R r (n * 4096) bytes s V e b Hc Hr) as [Hst Hw].
  - by rewrite Z.div_mul by lia.
  - rewrite Z.mod_mul by lia. lia.
  - by rewrite Z.div_mul by lia.
  - done.
  - done.
  - rewrite Z.mod_mul in Hst, Hw by lia. split; [apply Hst|]. split; [by eapply wrote_after|]. split; [done|]. intros m Hm. by eapply wrote_None.
Qed.

Lemma load_pages_wp fuel : forall i s V it, core k U R s V -> space_ok s v -> (forall n, sN <= n < eN -> view s r n <> None) -> 0 <= i -> before s it (sN + i) ->
  (Z.to_nat (eN - sN - i) < fuel)%nat -> let o := Z.min (i * 4096) (p_filesz phdr) in
  wp (load_pages read_at fuel it phdr o)
    (fun _ '(v', s') => v' = v /\ after k U R v s v s' /\ wrote r (sN * 4096 + o) (Bytes.sub (p_offset phdr + o) (p_filesz phdr - o) file) s s')
    (fun _ '(v', s') => v' = v /\ after k U R v s v s') (v, s).
Proof.
  induction fuel as [|fuel IH]; intros i s V it Hc Hok Hmap Hi Hit Hfuel o; [lia|]. destruct Hrange as (Hr1 & Hr2 & Hr3). cbn [load_pages].
  assert (Hrefl : after k U R v s v s) by (split; [exists V; by apply step_refl|done|done]).
  destruct (Z.leb_spec (p_filesz phdr) o) as [Hle|Hlt].
  { apply wp_ret. split; [done|]. split; [done|]. replace (p_filesz phdr - o) with 0 by lia. apply wrote_nothing. }
  assert (Ho : o = i * 4096) by lia. assert (Hin : sN <= sN + i < eN) by lia. set (n := sN + i) in *. assert (Hn : user n) by (unfold user; lia).
  apply wp_bind, wp_lifted. eapply wp_mono; [apply (next_page s V it n Hc Hit Hin (Hmap n Hin))| |done].
  intros [next it'] s' (-> & t & e & -> & He & Hent & Hit'). apply wp_bind. eapply wp_unwrap; [done|]. apply wp_bind, wp_lifted. eapply wp_read_entry; [exact Hent|].
  apply wp_bind. apply wp_u64; [lia|]. apply wp_bind. set (c := Z.min (p_filesz phdr - o) 4096). apply read_wp; [lia|lia| |by intros e'].
  set (bytes := Bytes.sub (p_offset phdr + o) c file). assert (Hlen : zlen bytes = c) by (apply sub_length; lia).
  destruct (load_page_wp s V n e bytes Hc Hok Hn He ltac:(lia)) as (b & Hb & Hc' & Ha' & Hw & Hnone). rewrite Hlen, Z.eqb_refl. cbn [negb].
  apply wp_bind, wp_lifted. eapply wp_load; [exact Hb|]. apply wp_bind, wp_lifted, wp_store. set (s' := stored _ _ _) in *.
  assert (Ho' : o + c = Z.min ((i + 1) * 4096) (p_filesz phdr)) by lia. rewrite Ho'.
  eapply wp_mono; [apply (IH (i + 1) s' V it' Hc' (af_ok _ _ _ _ _ _ _ Ha')); [|lia| |lia]| |].
  - intros m Hm Hx. apply (Hmap m Hm), Hnone; [unfold user; lia|done].
  - replace (sN + (i + 1)) with (n + 1) by lia. by apply before_stored.
  - intros [] [v' s2] (-> & Ha2 & Hw2). split; [done|]. split; [by eapply after_trans|]. rewrite <- Ho' in Hw2.
    replace (Bytes.sub (p_offset phdr + o) (p_filesz phdr - o) file) with (bytes ++ Bytes.sub (p_offset phdr + (o + c)) (p_filesz phdr - (o + c)) file).
    + eapply wrote_app; [replace (sN * 4096 + o) with (n * 4096) by lia; exact Hw|]. rewrite Hlen. by replace (sN * 4096 + o + c) with (sN * 4096 + (o + c)) by lia.
    + unfold bytes. replace (p_filesz phdr - o) with (c + (p_filesz phdr - (o + c))) by lia. rewrite sub_app by lia. f_equal. f_equal. lia.
  - intros err [v' s2] (-> & Ha2). split; [done|]. by eapply after_trans.
Qed.
End pages.
(** ** A segment *)

Record segment_added_at v s phdr v' s' : Prop := {
  sd_after : after k U R v s v' s';
  sd_vm : v' = set_areas (area_list v ++ [seg_area phdr]) v;
  sd_loaded : segment_loaded file (pg_table v) s' phdr;
  sd_out n : user n -> ~ in_area (seg_area phdr) n -> view s' (pg_table v) n = view s (pg_table v) n;
  sd_apart n : in_area (seg_area phdr) n -> view s (pg_table v) n = None
}.

Hypothesis Hfsize : zlen file < 2 ^ 64.

Lemma load_segment_wp v s V phdr : core k U R s V -> pg_table v ∈ R -> space_ok s v -> loadable file phdr ->
  wp (load_segment read_at phdr) (fun _ '(v', s') => segment_added_at v s phdr v' s') (fun _ '(v', s') => after k U R v s v' s') (v, s).
Proof.
  intros Hc Hr Hok Hl. destruct (seg_area_ok file phdr Hl) as [Ha Hlo]. pose proof Hl as [Hal Hra Hsz Hfi He]. unfold load_segment. rewrite Hal. cbn [Z.eqb negb].
  unfold USER_ELF_END_VADDR, USER_ELF_SIZE, USER_ELF_BASE_VADDR in Hra. assert (Hup : pg_round_up (p_memsz phdr) = pages_for (p_memsz phdr) * 4096) by (apply round_up; lia). rewrite Hup.
  apply wp_bind. change (alloc_segment (p_vaddr phdr) _ _) with (alloc_segment (A := A) (va (seg_area phdr)) (area_size (seg_area phdr)) (perm (seg_area phdr))).
  eapply wp_mono; [apply (alloc_segment_wp k U R v s V Hc Hr Hok _ Ha)| |]. 2:{ intros err [v1 s1] [-> [Ha1 _]]. done. }
  intros [] [v1 s1] [Ha1 -> Hf]. cbn [perm seg_area] in Hf. set (a := seg_area phdr) in *. set (v1 := set_areas _ v) in *. destruct (af_step _ _ _ _ _ _ _ Ha1) as [V1 H1].
  pose proof (sp_core _ _ _ _ _ _ _ H1) as Hc1. apply wp_bind, wp_focus. set (sN := area_start a). set (eN := area_stop a).
  assert (Hrange : pages_ok sN eN) by (pose proof (ar_range _ Ha); pose proof (ar_end _ Ha); unfold pages_ok, heap_base, sN, eN in *; lia).
  assert (HeN : eN = sN + pages_for (p_memsz phdr)) by (apply seg_stop). assert (HsN : p_vaddr phdr = sN * 4096) by apply (ar_va _ Ha).
  assert (Hnew : forall n, in_area a n -> view s1 (pg_table v) n = Some (Z.lor (seg_perm phdr) PERM_VALID, zero_page)) by (intros n Hn; by apply (Hf n (area_user a n Ha Hn))).
  assert (Hfp : p_filesz phdr <= pages_for (p_memsz phdr) * 4096) by (unfold pages_for; lia).
  rewrite HsN. replace (sN * 4096 + pages_for (p_memsz phdr) * 4096) with (eN * 4096) by lia. rewrite Z.div_mul by lia.
  pose proof (load_pages_wp v1 sN eN phdr Hr Hrange ltac:(lia) ltac:(unfold pages_for in *; lia) ltac:(lia)
    (Z.to_nat (pages_for (p_memsz phdr)) + 2) 0 s1 V1 (InternalRangeIter_new (pg_table v1) (sN * 4096) (eN * 4096)) Hc1 (af_ok _ _ _ _ _ _ _ Ha1)) as Hlp.
  cbn zeta in Hlp. replace (Z.min (0 * 4096) (p_filesz phdr)) with 0 in Hlp by lia. rewrite !Z.add_0_r, !Z.sub_0_r in Hlp. eapply wp_mono; [apply Hlp| |].
  - intros n Hn. change (pg_table v1) with (pg_table v). by rewrite Hnew.
  - lia.
  - by apply before_init.
  - rewrite HeN. lia.
  - intros [] [v2 s2] (-> & Ha2 & Hw). change (pg_table v1) with (pg_table v) in Hw. destruct (af_step _ _ _ _ _ _ _ Ha2) as [V2 H2].
    assert (Hfl : zlen (Bytes.sub (p_offset phdr) (p_filesz phdr) file) = p_filesz phdr) by (apply sub_length; lia).
    split; [by eapply after_trans|done| | |intros n Hn; by apply (Hf n (area_user a n Ha Hn))].
    + split; [|done|].
      * intros j Hj. rewrite HsN. assert (Hin : in_area a ((sN * 4096 + j) / 4096)) by (unfold in_area; fold sN eN; lia).
        rewrite (wr_byte _ _ _ _ _ Hw) by (by apply (area_user a)).
        repeat case_decide; try lia; [|].
        -- replace (sN * 4096 + j - sN * 4096) with j by lia. apply Bytes.lookup_sub; lia.
        -- unfold byte_at. rewrite Hnew by done. cbn [mbind option_bind snd]. apply zero_page_lookup. lia.
      * intros n Hn. rewrite (wr_perm _ _ _ _ _ Hw) by (by apply (area_user a)). by rewrite Hnew.
    + intros n Hn Hout. rewrite <- (proj2 (Hf n Hn) Hout). eapply (wrote_outside k U R _ _ _ s1 V1 s2 V2 n Hc1 (sp_core _ _ _ _ _ _ _ H2) Hr Hn Hw).
      intros x Hx Heq. apply Hout. unfold in_area. fold sN eN. rewrite Hfl in Hx. change (sN <= n < eN). clear -Hx Heq Hfp HeN. lia.
  - intros err [v2 s2] (-> & Ha2). by eapply after_trans.
Qed.
End load.

(** * The image of a new program

    After [execve], the segments of the file are in the memory of the task,
    its stack holds arguments and environment where the registers of the
    trapframe point, and the program can read them. *)

Lemma trapframe_size tf : length tf = 35%nat -> zlen (trapframe_bytes tf) = 280.
Proof.
  intros Hl. unfold trapframe_bytes. enough (forall l : list Z, length (concat (le_encode 8 <$> l)) = (8 * length l)%nat) as -> by lia.
  induction l as [|x l IH]; [done|]. rewrite fmap_cons. cbn [concat]. rewrite length_app, le_encode_length, IH. cbn [length]. lia.
Qed.

(** ** What a program can read *)

Section reads.
Context {A : Type}.
#[local] Notation St := (PtState (Memory A)).
Implicit Types (s : St).

Definition readable (p : EntryPerm) : bool := contains p (Z.lor PERM_VALID (Z.lor PERM_USER PERM_READABLE)).

Definition user_byte s (r addr : Z) : option Z :=
  view s r (addr / 4096) ≫= fun p => if readable p.1 then p.2 !! Z.to_nat (addr mod 4096) else None.

(** The page is there for the program to read. *)
Definition open_page s (r n : Z) : Prop := exists p, fst <$> view s r n = Some p /\ readable p = true.

Lemma user_byte_open s r a : open_page s r (a / 4096) -> user_byte s r a = byte_at s r a.
Proof. intros (p & Hp & Hr). unfold user_byte, byte_at. destruct (view s r (a / 4096)) as [[q b]|]; [|done]. injection Hp as ->. cbn [mbind option_bind fst snd]. by rewrite Hr. Qed.

Lemma open_wrote r addr d s s' n : wrote r addr d s s' -> user n -> open_page s r n -> open_page s' r n.
Proof. intros Hw Hn (p & Hp & Hr). exists p. split; [|done]. by rewrite (wr_perm _ _ _ _ _ Hw). Qed.

Lemma written_lies r addr d s s' : wrote r addr d s s' -> (forall a, addr <= a < addr + zlen d -> user (a / 4096) /\ open_page s r (a / 4096)) ->
  lies (user_byte s' r) addr d.
Proof.
  intros Hw Ho i Hi. destruct (Ho (addr + Z.of_nat i) ltac:(lia)) as [Hu Hop]. rewrite user_byte_open by (by eapply open_wrote).
  rewrite (wr_byte _ _ _ _ _ Hw) by done. rewrite decide_True by lia. f_equal. lia.
Qed.

Lemma lies_wrote r addr d s s' ptr b : wrote r addr d s s' -> lies (user_byte s r) ptr b ->
  (forall a, ptr <= a < ptr + zlen b -> user (a / 4096) /\ open_page s r (a / 4096) /\ ~ addr <= a < addr + zlen d) -> lies (user_byte s' r) ptr b.
Proof.
  intros Hw Hl Ho i Hi. destruct (Ho (ptr + Z.of_nat i) ltac:(lia)) as (Hu & Hop & Hout). rewrite <- Hl by done.
  rewrite !user_byte_open by (done || by eapply open_wrote). rewrite (wr_byte _ _ _ _ _ Hw) by done. by rewrite decide_False.
Qed.

Lemma lies_view r s s' ptr b : lies (user_byte s r) ptr b -> (forall a, ptr <= a < ptr + zlen b -> view s' r (a / 4096) = view s r (a / 4096)) -> lies (user_byte s' r) ptr b.
Proof. intros Hl Hv i Hi. rewrite <- Hl by done. unfold user_byte. by rewrite Hv by lia. Qed.
Lemma loaded_kept file r s s' p : (forall n, in_area (seg_area p) n -> view s' r n = view s r n) -> segment_loaded file r s p -> segment_loaded file r s' p.
Proof.
  intros Hv [Hb Hal Hp]. split; [|done|].
  - intros j Hj. rewrite <- Hb by done. unfold byte_at. rewrite Hv; [done|]. unfold in_area. rewrite seg_stop, seg_start. lia.
  - intros n Hn. rewrite Hv by done. auto.
Qed.
End reads.

Section image.
Context {A : Type} `{PageAllocLaws A} (k : Z) (U : Z -> Prop) (R : gset Z).
#[local] Notation St := (PtState (Memory A)).
Implicit Types (s : St) (V : Z -> Prop) (v : VMInner).

Context (read_at : Z -> Z -> Sys.SysErrorKind + list Z) (file : list Z).
Hypothesis Hread : forall off len, 0 <= off -> 0 <= len -> (exists e, read_at off len = inl e) \/ read_at off len = inr (Bytes.sub off len file).
Hypothesis Hbytes : Forall is_byte file.
Hypothesis Hfsize : zlen file < 2 ^ 64.

(** ** The headers of the file *)

Definition elf_header : ElfHeader := ElfHeader_of (Bytes.sub 0 64 file).
Definition phdr_at (i : Z) : ProgramHeader := ProgramHeader_of (Bytes.sub (e_phoff elf_header + e_phentsize elf_header * i) 56 file).

(** What the kernel relies on and does not look at. *)
Record phdr_ok (p : ProgramHeader) : Prop := {
  ph_size : 0 < p_memsz p;
  ph_file : p_offset p + p_filesz p <= zlen file;
  ph_end : (p_vaddr p / 4096 + pages_for (p_memsz p)) mod 512 <> 0
}.

Record elf_ok : Prop := {
  eo_off i : 0 <= i < e_phnum elf_header -> e_phoff elf_header + e_phentsize elf_header * i < 2 ^ 64;
  eo_phdr i : 0 <= i < e_phnum elf_header -> p_typ (phdr_at i) = PT_LOAD -> phdr_ok (phdr_at i)
}.

Hypothesis Helf : elf_ok.

Lemma field_nonneg off len b : Forall is_byte b -> 0 <= field off len b.
Proof. intros Hb. unfold field. by apply le_decode_range, sub_Forall. Qed.

Lemma header_nonneg : 0 <= e_phoff elf_header /\ 0 <= e_phentsize elf_header /\ 0 <= e_phnum elf_header.
Proof. split; [|split]; apply field_nonneg, sub_Forall, Hbytes. Qed.

Lemma phdr_nonneg i : 0 <= p_offset (phdr_at i) /\ 0 <= p_filesz (phdr_at i) /\ 0 <= p_vaddr (phdr_at i) /\ 0 <= p_memsz (phdr_at i).
Proof. repeat split; apply field_nonneg, sub_Forall, Hbytes. Qed.

Lemma struct_wp {S} off len (Q : list Z -> S -> Prop) (F : Sys.SysErrorKind -> S -> Prop) (x : S) : 0 <= off -> 0 <= len ->
  Q (Bytes.sub off len file) x -> (forall e, F e x) -> wp (catch (read_struct read_at off len) (fun _ => fail Sys.ExecFormat)) Q F x.
Proof.
  intros Hoff Hlen HQ HF. apply wp_catch. unfold read_struct. apply wp_bind. apply (read_wp read_at file Hread); [done|done| |intros e; by apply wp_fail].
  destruct (negb _); [apply wp_fail; by apply wp_fail|by apply wp_ret].
Qed.

Lemma check_wp {v} (p : ProgramHeader) (Q : unit -> VMInner * St -> Prop) (F : Sys.SysErrorKind -> VMInner * St -> Prop) s :
  (p_vaddr p mod 4096 = 0 -> p_filesz p <= p_memsz p -> USER_ELF_BASE_VADDR <= p_vaddr p -> p_vaddr p + p_memsz p <= USER_ELF_END_VADDR -> Q tt (v, s)) ->
  (forall e, F e (v, s)) -> wp (ProgramHeader_check p) Q F (v, s).
Proof.
  intros HQ HF. unfold ProgramHeader_check. destruct (Z.eqb_spec (p_vaddr p mod 4096) 0); cbn [negb]; [|by apply wp_fail].
  destruct (Z.leb_spec (2 ^ 64) (p_vaddr p + p_memsz p)); [by apply wp_fail|]. destruct (Z.ltb_spec (p_memsz p) (p_filesz p)); [by apply wp_fail|].
  destruct (Z.ltb_spec USER_ELF_SIZE (p_memsz p)); [by apply wp_fail|]. destruct (Z.ltb_spec (p_vaddr p) USER_ELF_BASE_VADDR); cbn [orb]; [by apply wp_fail|].
  destruct (Z.ltb_spec USER_ELF_END_VADDR (p_vaddr p + p_memsz p)); [by apply wp_fail|]. apply wp_ret. auto.
Qed.

(** ** The segments before header [i] *)

Record loading (i : Z) v0 s0 v s : Prop := {
  lg_after : after k U R v0 s0 v s;
  lg_size : user_space_size v = user_space_size v0;
  lg_areas n : in_areas (area_list v) n -> in_areas (area_list v0) n \/ 0x200080 <= n;
  lg_tight : tight s0 v0 -> tight s v;
  lg_segs j : 0 <= j < i -> p_typ (phdr_at j) = PT_LOAD ->
    segment_loaded file (pg_table v0) s (phdr_at j) /\ forall n, in_area (seg_area (phdr_at j)) n -> in_areas (area_list v) n
}.

Lemma segment_next i v0 s0 v s v' s' : loading i v0 s0 v s -> 0 <= i -> loadable file (phdr_at i) -> segment_added_at k U R file v s (phdr_at i) v' s' -> loading (i + 1) v0 s0 v' s'.
Proof.
  intros [Ha Hsz Har Ht Hsegs] Hi Hl [Hb -> Hld Hout Hap]. destruct (seg_area_ok file _ Hl) as [Haok Hlo]. pose proof (af_root _ _ _ _ _ _ _ Ha) as Hroot. pose proof (af_ok _ _ _ _ _ _ _ Ha) as Hok.
  set (a := seg_area (phdr_at i)) in *. rewrite Hroot in *. split; [by eapply after_trans|done| | |].
  - intros n Hn. cbn [set_areas area_list] in Hn. apply in_areas_app in Hn as [Hn|Hn]; [auto|right]. unfold in_area in Hn. lia.
  - intros Htt n Hn Hx. cbn [set_areas pg_table] in Hx. rewrite Hroot in Hx. unfold used. cbn [set_areas area_list user_space_size]. rewrite in_areas_app.
    destruct (decide (area_start a <= n < area_stop a)) as [Hin|Hnin]; [by left; right|]. rewrite Hout in Hx by done.
    destruct (Ht Htt n Hn) as [?|?]; [by rewrite Hroot|left; by left|by right].
  - intros j Hj Htyp. destruct (decide (j = i)) as [->|Hne].
    + split; [done|]. intros n Hn. apply in_areas_app. by right.
    + destruct (Hsegs j ltac:(lia) Htyp) as [Hold Hin]. split; [|intros n Hn; apply in_areas_app; left; auto].
      assert (Hmap : forall n, in_area (seg_area (phdr_at j)) n -> view s (pg_table v0) n <> None /\ user n).
      { intros n Hn. rewrite <- Hroot. split; [by apply Hok, Hin|]. by apply (areas_below v s n Hok), Hin. }
      apply (loaded_kept file _ s); [|done].
      intros n Hn. destruct (Hmap n Hn) as [Hm Hu]. apply Hout; [done|]. intros Hx. by rewrite Hap in Hm.
Qed.
Lemma segment_skip i v0 s0 v s : loading i v0 s0 v s -> p_typ (phdr_at i) <> PT_LOAD -> loading (i + 1) v0 s0 v s.
Proof.
  intros [Ha Hsz Har Ht Hsegs] Hno. split; [done|done|done|done|]. intros j Hj Htyp. destruct (decide (j = i)) as [->|]; [done|]. apply Hsegs; [lia|done].
Qed.

Lemma load_segments_wp v0 s0 n : pg_table v0 ∈ R -> forall i v s, loading i v0 s0 v s -> 0 <= i -> i + Z.of_nat n = e_phnum elf_header ->
  wp (load_segments read_at n i elf_header) (fun _ '(v', s') => loading (e_phnum elf_header) v0 s0 v' s') (fun _ '(v', s') => after k U R v0 s0 v' s') (v, s).
Proof.
  intros Hr. induction n as [|n IH]; intros i v s Hl Hi Hn; cbn [load_segments].
  { apply wp_ret. by replace (e_phnum elf_header) with i by lia. }
  pose proof (lg_after _ _ _ _ _ Hl) as Ha. pose proof (af_root _ _ _ _ _ _ _ Ha) as Hroot. pose proof (af_ok _ _ _ _ _ _ _ Ha) as Hok. destruct (af_step _ _ _ _ _ _ _ Ha) as [V Hst].
  pose proof header_nonneg as (Hp1 & Hp2 & Hp3). pose proof (phdr_nonneg i) as (Hq1 & Hq2 & Hq3 & Hq4).
  apply wp_bind. unfold ProgramHeader_load. apply wp_bind. apply wp_u64; [apply (eo_off Helf); lia|]. apply wp_bind. apply struct_wp; [nia|lia| |done]. apply wp_ret. fold (phdr_at i).
  apply wp_bind. destruct (Z.eqb_spec (p_typ (phdr_at i)) PT_LOAD) as [Htyp|Htyp]; cbn [negb]; [|apply wp_ret; apply IH; [by apply segment_skip|lia|lia]].
  apply wp_bind. apply check_wp; [|done]. intros C1 C2 C3 C4. pose proof (eo_phdr Helf i ltac:(lia) Htyp) as [Hm Hf He]. assert (Hld : loadable file (phdr_at i)) by (split; done || lia).
  eapply wp_mono; [apply (load_segment_wp k U R read_at file Hread Hfsize v s V (phdr_at i) (sp_core _ _ _ _ _ _ _ Hst) ltac:(by rewrite Hroot) Hok Hld)| |].
  - intros [] [v' s'] Hadd. apply IH; [by eapply segment_next|lia|lia].
  - intros err [v' s'] Ha'. by eapply after_trans.
Qed.

Lemma load_elf_wp v0 s0 V0 : core k U R s0 V0 -> pg_table v0 ∈ R -> space_ok s0 v0 ->
  wp (load_elf read_at) (fun h '(v, s) => h = elf_header /\ loading (e_phnum elf_header) v0 s0 v s) (fun _ '(v', s') => after k U R v0 s0 v' s') (v0, s0).
Proof.
  intros Hc Hr Hok. assert (Hrefl : after k U R v0 s0 v0 s0) by (split; [exists V0; by apply step_refl|done|done]).
  unfold load_elf, ElfHeader_load. apply wp_bind, wp_bind. apply struct_wp; [lia|lia| |done]. apply wp_ret. fold elf_header. apply wp_bind. unfold ElfHeader_check.
  destruct (negb _); [by apply wp_fail|]. apply wp_ret, wp_bind.
  eapply wp_mono; [apply (load_segments_wp v0 s0 _ Hr 0 v0 s0)| |done].
  - split; [done|done|auto|done|]. intros j Hj. lia.
  - lia.
  - pose proof header_nonneg. lia.
  - intros [] [v s] Hl. by apply wp_ret.
Qed.

(** ** The whole image *)

Definition stack_top : Z := USER_BASE_VADDR + 33 * 4096.

Record image (args env : list (list Z)) v s : Prop := {
  im_space : space_ok s v;
  im_tight : tight s v;
  im_trap : has_trapframe v;
  im_size : user_space_size v = 34 * 4096;
  im_segs i : 0 <= i < e_phnum elf_header -> p_typ (phdr_at i) = PT_LOAD ->
    segment_loaded file (pg_table v) s (phdr_at i) /\ forall n, in_area (seg_area (phdr_at i)) n -> in_areas (area_list v) n;
  im_fits : cstrs_layout_sz args <= USER_ARGUMENTS_MAX_SIZE /\ cstrs_layout_sz env <= ENV_VARS_MAX_SIZE;
  im_strings : exists args_ptr env_ptr tf,
    args_ptr = stack_top - cstrs_layout_sz args /\ env_ptr = args_ptr - cstrs_layout_sz env /\
    lies (user_byte s (pg_table v)) args_ptr (layout args) /\ lies (user_byte s (pg_table v)) env_ptr (layout env) /\
    tf = set_ret_pc (e_entry elf_header) (set_sp env_ptr (set_arg1 env_ptr (set_arg0 args_ptr Trapframe_new))) /\
    view s (pg_table v) trap_page = Some (Z.lor with_rw PERM_VALID, splice 0 (trapframe_bytes tf) zero_page)
}.

(** The two arrays on the stack, before the trapframe is there. *)
Lemma strings_lie args env r s2 s3 s4 : (forall n, heap_base + 29 <= n < heap_base + 33 -> view s2 r n = Some (15, zero_page)) ->
  cstrs_layout_sz args <= 4096 -> cstrs_layout_sz env <= 3 * 4096 ->
  let ap := stack_top - cstrs_layout_sz args in let ep := ap - cstrs_layout_sz env in
  wrote r ap (layout args) s2 s3 -> wrote r ep (layout env) s3 s4 ->
  lies (user_byte s4 r) ap (layout args) /\ lies (user_byte s4 r) ep (layout env).
Proof.
  intros Htop Hla Hle ap ep W1 W2. pose proof (layout_fits args) as Fa. pose proof (layout_fits env) as Fe.
  assert (Hop : forall a, ep <= a < stack_top -> user (a / 4096) /\ open_page s2 r (a / 4096)).
  { intros a Ha. unfold ep, ap, stack_top, USER_BASE_VADDR, heap_base in *. split; [unfold user; lia|]. exists 15. rewrite Htop by lia. done. }
  assert (Hop3 : forall a, ep <= a < stack_top -> user (a / 4096) /\ open_page s3 r (a / 4096)).
  { intros a Ha. destruct (Hop a Ha). split; [done|]. by eapply open_wrote. }
  split; [|apply (written_lies r ep (layout env) s3 s4 W2); intros a Ha; apply Hop3; unfold ap, ep in *; lia].
  apply (lies_wrote r ep (layout env) s3 s4 ap (layout args) W2).
  - apply (written_lies r ap (layout args) s2 s3 W1). intros a Ha. apply Hop. unfold ap, ep in *. lia.
  - intros a Ha. destruct (Hop3 a) as [? ?]; [unfold ap, ep in *; lia|]. split; [done|]. split; [done|]. unfold ap, ep in *. lia.
Qed.
Lemma wrote_tight v s s' addr d : tight s v -> wrote (pg_table v) addr d s s' -> tight s' v.
Proof. intros Ht Hw n Hn Hx. apply Ht; [done|]. intros Hy. apply Hx. pose proof (wr_perm _ _ _ _ _ Hw n Hn) as Hp. rewrite Hy in Hp. by destruct (view s' (pg_table v) n). Qed.

Lemma stacked_tight v s v' s' : stacked k U R v s v' s' -> user_space_size v = 0 -> tight s v -> tight s' v'.
Proof.
  intros [Ha Hl Hs Hout _] Hz Ht n Hn Hx. rewrite (af_root _ _ _ _ _ _ _ Ha) in Hx. unfold used, in_heap. rewrite Hl, Hs. change (pages_for (34 * 4096)) with 34.
  destruct (decide (heap_base <= n < heap_base + 34)); [by right|left]. rewrite Hout in Hx by done. destruct (Ht n Hn Hx) as [?|Hh]; [done|].
  unfold in_heap in Hh. rewrite Hz in Hh. change (pages_for 0) with 0 in Hh. lia.
Qed.

(** The trapframe completes the image. *)
Lemma image_done args env v0 s0 v1 s1 v2 s2 s3 s4 v5 s5 ptr : loading (e_phnum elf_header) v0 s0 v1 s1 -> area_list v0 = [] -> user_space_size v0 = 0 -> tight s0 v0 -> pg_table v0 ∈ R ->
  stacked k U R v1 s1 v2 s2 -> cstrs_layout_sz args <= 4096 -> cstrs_layout_sz env <= 3 * 4096 ->
  let ap := stack_top - cstrs_layout_sz args in let ep := ap - cstrs_layout_sz env in
  after k U R v2 s2 v2 s3 -> wrote (pg_table v2) ap (layout args) s2 s3 -> after k U R v2 s3 v2 s4 -> wrote (pg_table v2) ep (layout env) s3 s4 ->
  trap_set k U R (set_ret_pc (e_entry elf_header) (set_sp ep (set_arg1 ep (set_arg0 ap Trapframe_new)))) v2 s4 v5 s5 ptr -> image args env v5 s5.
Proof.
  intros Hl Hn0 Hz Ht0 Hr Hst Hla Hle ap ep Ha3 W3 Ha4 W4 [Ha5 Hs5 Hp5 Htr5 (D & HD & Har5 & Hv5)].
  pose proof (af_root _ _ _ _ _ _ _ (lg_after _ _ _ _ _ Hl)) as R1. pose proof (af_root _ _ _ _ _ _ _ (sk_after _ _ _ _ _ _ _ Hst)) as R2. pose proof (af_root _ _ _ _ _ _ _ Ha5) as R5.
  assert (Har : forall n, in_areas (area_list v2) n -> 0x200080 <= n).
  { intros n Hn. rewrite (sk_areas _ _ _ _ _ _ _ Hst) in Hn. destruct (lg_areas _ _ _ _ _ Hl n Hn) as [(a & Ha & _)|?]; [|done]. rewrite Hn0 in Ha. by apply elem_of_nil in Ha. }
  assert (HDn : forall n, ~ D n) by (intros n Hd; apply HD, Har in Hd; unfold trap_page in Hd; lia).
  assert (Hsame : forall n, user n -> n <> trap_page -> view s5 (pg_table v2) n = view s4 (pg_table v2) n) by (intros n Hn Hne; by apply Hv5).
  assert (Ht4 : tight s4 v2) by (eapply wrote_tight; [|exact W4]; eapply wrote_tight; [|exact W3]; eapply stacked_tight; [exact Hst| |by apply (lg_tight _ _ _ _ _ Hl)]; by rewrite (lg_size _ _ _ _ _ Hl)).
  pose proof (layout_fits args) as Fa. pose proof (layout_fits env) as Fe. destruct (strings_lie args env (pg_table v2) s2 s3 s4) as [La Le]; [|done|done|done|done|].
  { intros n Hn. rewrite R2. by apply (sk_top _ _ _ _ _ _ _ Hst). }
  assert (Hstack : forall a, ep <= a < stack_top -> view s5 (pg_table v2) (a / 4096) = view s4 (pg_table v2) (a / 4096)).
  { intros a Ha. unfold ep, ap, stack_top, USER_BASE_VADDR in Ha. apply Hsame; [unfold user; lia|unfold trap_page; lia]. }
  split.
  - apply Ha5.
  - intros n Hn Hx. rewrite R5 in Hx. destruct (decide (n = trap_page)) as [->|Hne]; [by left|]. rewrite Hsame in Hx by done. unfold used. rewrite Hs5, (Har5 n Hne).
    destruct (Ht4 n Hn Hx) as [?|?]; [left; split; [done|apply HDn]|by right].
  - done.
  - rewrite Hs5. apply (sk_size _ _ _ _ _ _ _ Hst).
  - intros i Hi Htyp. rewrite R5, R2, R1. destruct (lg_segs _ _ _ _ _ Hl i Hi Htyp) as [Hld Hin].
    assert (Hback : forall n, in_area (seg_area (phdr_at i)) n -> in_areas (area_list v2) n) by (intros n Hn; rewrite (sk_areas _ _ _ _ _ _ _ Hst); auto).
    split; [|intros n Hn; apply Har5; [intros ->; apply Hback, Har in Hn; unfold trap_page in Hn; lia|split; [auto|apply HDn]]]. apply (loaded_kept file _ s1); [|done]. intros n Hn.
    pose proof (Hin n Hn) as Hx. destruct (areas_below v1 s1 n (af_ok _ _ _ _ _ _ _ (lg_after _ _ _ _ _ Hl)) Hx) as [Hu Hb]. rewrite <- (sk_areas _ _ _ _ _ _ _ Hst) in Hx. apply Har in Hx.
    rewrite <- R1, <- R2. rewrite Hsame by (done || unfold trap_page; lia). destruct (af_step _ _ _ _ _ _ _ (sk_after _ _ _ _ _ _ _ Hst)) as [V2 H2], (af_step _ _ _ _ _ _ _ Ha3) as [V3 H3], (af_step _ _ _ _ _ _ _ Ha4) as [V4 H4].
    assert (Hlow : forall a x y, ep <= x -> x <= a < y -> a / 4096 <> n) by (intros a x y Hx1 Hx2 <-; unfold ep, ap, stack_top, USER_BASE_VADDR, heap_base in *; lia).
    assert (Hr2 : pg_table v2 ∈ R) by (by rewrite R2, R1).
    rewrite (wrote_outside k U R _ _ _ s3 V3 s4 V4 n (sp_core _ _ _ _ _ _ _ H3) (sp_core _ _ _ _ _ _ _ H4) Hr2 Hu W4) by (intros a Ha; apply (Hlow a ep (ep + zlen (layout env))); lia).
    rewrite (wrote_outside k U R _ _ _ s2 V2 s3 V3 n (sp_core _ _ _ _ _ _ _ H2) (sp_core _ _ _ _ _ _ _ H3) Hr2 Hu W3) by (intros a Ha; apply (Hlow a ap (ap + zlen (layout args))); [unfold ep; lia|lia]).
    rewrite R2. apply (sk_out _ _ _ _ _ _ _ Hst); [done|lia].
  - done.
  - rewrite R5. exists ap, ep. eexists. split; [done|]. split; [done|].
    split; [apply (lies_view _ s4); [done|]; intros a Ha; apply Hstack; unfold ep, ap in *; lia|].
    split; [apply (lies_view _ s4); [done|]; intros a Ha; apply Hstack; unfold ep, ap in *; lia|]. split; [reflexivity|done].
Qed.
Lemma exec_image_wp args env v0 s0 V0 : core k U R s0 V0 -> pg_table v0 ∈ R -> space_ok s0 v0 -> tight s0 v0 -> area_list v0 = [] -> user_space_size v0 = 0 ->
  wp (exec_image read_at args env) (fun _ '(v', s') => after k U R v0 s0 v' s' /\ image args env v' s') (fun _ '(v', s') => after k U R v0 s0 v' s') (v0, s0).
Proof.
  intros Hc Hr Hok Ht Hn0 Hz. unfold exec_image. apply wp_bind. eapply wp_mono; [by apply (load_elf_wp v0 s0 V0)| |done].
  intros h [v1 s1] [-> Hl]. pose proof (lg_after _ _ _ _ _ Hl) as Ha1. pose proof (af_root _ _ _ _ _ _ _ Ha1) as R1. destruct (af_step _ _ _ _ _ _ _ Ha1) as [V1 H1]. apply wp_bind.
  eapply wp_mono; [apply (init_stack_wp k U R v1 s1 V1 (sp_core _ _ _ _ _ _ _ H1) ltac:(by rewrite R1) (af_ok _ _ _ _ _ _ _ Ha1)); by rewrite (lg_size _ _ _ _ _ Hl)| |].
  2:{ intros err [v' s'] Ha'. by eapply after_trans. }
  intros sp [v2 s2] [-> Hst]. fold stack_top. pose proof (after_trans _ _ _ _ _ _ _ _ _ Ha1 (sk_after _ _ _ _ _ _ _ Hst)) as Ha2. pose proof (af_root _ _ _ _ _ _ _ Ha2) as R2.
  destruct (af_step _ _ _ _ _ _ _ Ha2) as [V2 H2]. assert (Hr2 : pg_table v2 ∈ R) by (by rewrite R2). apply wp_bind.
  eapply wp_mono; [apply (push_array_wp k U R v2 s2 V2 stack_top args USER_ARGUMENTS_MAX_SIZE (sp_core _ _ _ _ _ _ _ H2) Hr2 (af_ok _ _ _ _ _ _ _ Ha2)); by vm_compute| |].
  2:{ intros err [v' s'] Ha'. by eapply after_trans. }
  intros ap [v3 s3] (-> & [-> Hla] & Ha3 & W3). pose proof (after_trans _ _ _ _ _ _ _ _ _ Ha2 Ha3) as Hb3. destruct (af_step _ _ _ _ _ _ _ Hb3) as [V3 H3]. apply wp_bind.
  pose proof (layout_fits args) as Fa. change USER_ARGUMENTS_MAX_SIZE with 4096 in Hla.
  eapply wp_mono; [apply (push_array_wp k U R v2 s3 V3 _ env ENV_VARS_MAX_SIZE (sp_core _ _ _ _ _ _ _ H3) Hr2 (af_ok _ _ _ _ _ _ _ Hb3)); unfold stack_top, USER_BASE_VADDR, ENV_VARS_MAX_SIZE; lia| |].
  2:{ intros err [v' s'] Ha'. by eapply after_trans. }
  intros ep [v4 s4] (-> & [-> Hle] & Ha4 & W4). pose proof (after_trans _ _ _ _ _ _ _ _ _ Hb3 Ha4) as Hb4. destruct (af_step _ _ _ _ _ _ _ Hb4) as [V4 H4]. apply wp_bind.
  eapply wp_mono; [apply (alloc_trapframe_wp k U R _ v2 s4 V4 (sp_core _ _ _ _ _ _ _ H4) Hr2 (af_ok _ _ _ _ _ _ _ Hb4)); rewrite trapframe_size; [lia|done]| |].
  2:{ intros err [v' s'] Ha'. by eapply after_trans. }
  intros ptr [v5 s5] Htr. apply wp_ret. split; [eapply after_trans; [exact Hb4|apply Htr]|].
  by apply (image_done args env v0 s0 v1 s1 v2 s2 s3 s4 v5 s5 ptr).
Qed.
End image.

(** ** execve *)

Section execve.
Context {A : Type} `{PageAllocLaws A} (k : Z) (U : Z -> Prop) (R : gset Z).
#[local] Notation St := (PtState (Memory A)).
Implicit Types (s : St) (V : Z -> Prop) (v : VMInner).

Context (read_at : Z -> Z -> Sys.SysErrorKind + list Z) (file : list Z).
Hypothesis Hread : forall off len, 0 <= off -> 0 <= len -> (exists e, read_at off len = inl e) \/ read_at off len = inr (Bytes.sub off len file).
Hypothesis Hbytes : Forall is_byte file.
Hypothesis Hfsize : zlen file < 2 ^ 64.
Hypothesis Helf : elf_ok file.

(** The old space is replaced by one with the image of the file. *)
Record replaced (old : VMInner) args env s v s' : Prop := {
  rp_new : pg_table v ∉ R;
  rp_core : exists V' U', core k U' ((R ∖ {[pg_table old]}) ∪ {[pg_table v]}) s' V' /\ (forall q, U' q -> U q) /\ (tight s old -> forall q, U q -> U' q);
  rp_others r n : r ∈ R -> r <> pg_table old -> user n -> view s' r n = view s r n;
  rp_image : image file args env v s'
}.

Lemma image_view args env v s s' : image file args env v s -> (forall n, user n -> view s' (pg_table v) n = view s (pg_table v) n) -> image file args env v s'.
Proof.
  intros [Hok Ht Htr Hsz Hsegs Hfit (ap & ep & tf & Eap & Eep & La & Le & Etf & Hp)] Hv. pose proof (layout_fits args) as Fa. pose proof (layout_fits env) as Fe.
  change USER_ARGUMENTS_MAX_SIZE with 4096 in Hfit. change ENV_VARS_MAX_SIZE with 12288 in Hfit.
  assert (Hst : forall a, ep <= a < stack_top -> view s' (pg_table v) (a / 4096) = view s (pg_table v) (a / 4096)).
  { intros a Ha. apply Hv. unfold user, stack_top, USER_BASE_VADDR in *. lia. }
  split; [|intros n Hn; rewrite Hv by done; by apply Ht|done|done| |done|].
  - apply (space_kept s); [done|]. intros n Hn. apply Hv. by apply (areas_below v s n).
  - intros i Hi Htyp. destruct (Hsegs i Hi Htyp) as [Hld Hin]. split; [|done]. apply (loaded_kept file _ s); [|done]. intros n Hn. apply Hv.
    by apply (areas_below v s n), Hin.
  - exists ap, ep, tf. split; [done|]. split; [done|]. split; [apply (lies_view _ s); [done|]; intros a Ha; apply Hst; lia|].
    split; [apply (lies_view _ s); [done|]; intros a Ha; apply Hst; lia|]. split; [done|]. by rewrite Hv by apply user_trap.
Qed.

Lemma execve_wp typ old args env s V : core k U R s V -> pg_table old ∈ R -> space_ok s old -> typ <> Dir.USymlink ->
  wp (execve k typ read_at old args env) (fun v s' => replaced old args env s v s') (fun _ s' => unchanged k U R s s') s.
Proof.
  intros Hc Hr Hok Htyp. assert (Hrefl : unchanged k U R s s) by (by exists V, U). unfold execve. apply wp_bind.
  enough (Hmain : wp (do new_vm <- with_kernel_vm k; do (_, new_vm) <- owning new_vm (exec_image read_at args env);
     (fun s => match drop_vm (old, s) with (Ok tt, (_, s')) => (Ok tt, s') | (Err e, (_, s')) => (Err e, s') | (Panic, (_, s')) => (Panic, s') end);; ret new_vm)
     (fun v s' => replaced old args env s v s') (fun _ s' => unchanged k U R s s') s) by (destruct typ; cbn [check_executable]; [by apply wp_ret|by apply wp_fail|done|by apply wp_fail]).
  apply wp_bind. eapply wp_mono; [by apply (with_kernel_vm_wp k U R s V)| |]. 2:{ intros err s1 (-> & V1 & Hc1 & Hv). by exists V1, U. }
  intros v s1 (V1 & Hn & Hc1 & Hok1 & Ht1 & Hl1 & Hs1 & Hnone & Hv1). apply wp_bind. set (R' := R ∪ {[pg_table v]}) in *. assert (HvR : pg_table v ∈ R') by set_solver.
  eapply wp_mono; [apply (owning_wp k U R v s1 _ (fun _ '(v', s') => after k U R' v s1 v' s' /\ image file args env v' s') Hn); by apply (exec_image_wp k U R' read_at file Hread Hbytes Hfsize Helf args env v s1 V1)| |].
  2:{ intros err s2 (V2 & U2 & Hc2 & HU & Hv2). exists V2, U2. split; [done|]. split; [done|]. intros r n Hx Hu. rewrite Hv2 by done. by apply Hv1. }
  intros [[] v2] s2 [Ha2 Him]. pose proof (after_beside k U R v s1 v2 s2 Hn Ha2) as Hb2. destruct Ha2 as [[V2 H2] R2 _]. pose proof (sp_core _ _ _ _ _ _ _ H2) as Hc2. apply wp_bind.
  assert (Hsee : forall r n, r ∈ R -> user n -> view s2 r n = view s r n) by (intros r n Hx Hu; rewrite Hb2 by done; by apply Hv1).
  assert (Hok2 : space_ok s2 old) by (apply (space_kept s); [done|]; intros n Hx; apply Hsee; [done|by apply (areas_below old s n)]).
  assert (Hne : pg_table v <> pg_table old) by (intros Heq; rewrite Heq in Hn; done).
  pose proof (drop_vm_wp k U R' old s2 V2 Hc2 ltac:(set_solver) Hok2) as Hd. unfold wp in Hd |- *. destruct (drop_vm (old, s2)) as [[[]|e|] [v3 s3]]; [|done|done].
  destruct Hd as (V3 & U3 & Hc3 & HU3 & Hall & Hv3). cbn [ret]. replace (R' ∖ {[pg_table old]}) with ((R ∖ {[pg_table old]}) ∪ {[pg_table v]}) in Hc3 by set_solver. split.
  - by rewrite R2.
  - rewrite R2. exists V3, U3. split; [done|]. split; [done|]. intros Ht q HU. apply Hall; [|done]. intros n Hu Hx. apply Ht; [done|]. by rewrite <- Hsee.
  - intros r n Hx Hro Hu. rewrite Hv3; [by apply Hsee|set_solver|done|done].
  - apply (image_view args env v2 s2); [done|]. intros n Hu. rewrite R2. by apply Hv3.
Qed.
End execve.
