(* ===== verification/VmHistory.v ===== *)
(** * Histories of several tasks

    Tasks are created, fork, execute programs, move their break, touch pages
    and exit, in any order.  [system_ok] holds throughout, a call changes the
    memory of its own task only, and as long as no call fails every page is
    accounted for. *)

From S2P Require Import Prelude Bytes Vfs Dir Buddy PageTable PtTree PtOps PtRange PtIter PtUnmap PtVmap Vm VmCore VmOps VmSpace VmAreas VmFork VmDrop Exec ExecFork ExecStack ExecImage.
Import Vfs.

#[local] Open Scope Z_scope.
#[local] Open Scope rw_scope.

(** ** Calls *)

Record System (A : Type) : Type := mkSys { vms : gmap nat VMInner; mem : PtState (Memory A) }.
Arguments mkSys {A} vms mem.
Arguments vms {A} s.
Arguments mem {A} s.

(** A file to execute. *)
Record Program : Type := mkProg { typ : Dir.UFileType; read_at : Z -> Z -> Sys.SysErrorKind + list Z; content : list Z }.

Inductive Call : Type :=
| CNew (id : nat)
| CFork (parent id : nat)
| CExec (id : nat) (prog : Program) (args env : list (list Z))
| CBrk (id : nat) (ptr : Z)
| CFault (id : nat) (addr : Z)
| CExit (id : nat).

Section calls.
Context {A : Type} `{PageAlloc A} (k : Z).
#[local] Notation St := (PtState (Memory A)).

(** The result of a call and the state after it; nothing after a panic. *)
Definition new_space (id : nat) (m : M St Sys.SysErrorKind VMInner) (sys : System A) : option (bool * System A) :=
  match m (mem sys) with
  | (Ok v, s) => Some (true, mkSys (<[id := v]> (vms sys)) s)
  | (Err _, s) => Some (false, mkSys (vms sys) s)
  | (Panic, _) => None
  end.

Definition in_space {B} (id : nat) (m : M (VMInner * St) Sys.SysErrorKind B) (sys : System A) : option (bool * System A) :=
  match vms sys !! id with
  | None => Some (true, sys)
  | Some v =>
    match m (v, mem sys) with
    | (Ok _, (v', s)) => Some (true, mkSys (<[id := v']> (vms sys)) s)
    | (Err _, (v', s)) => Some (false, mkSys (<[id := v']> (vms sys)) s)
    | (Panic, _) => None
    end
  end.

(** Numbers of new tasks are not in use. *)
Definition run_call (c : Call) (sys : System A) : option (bool * System A) :=
  match c with
  | CNew id => if decide (is_Some (vms sys !! id)) then Some (true, sys) else new_space id (new_task_vm k) sys
  | CFork parent id =>
    match vms sys !! parent, vms sys !! id with
    | Some v, None => new_space id (fork k v) sys
    | _, _ => Some (true, sys)
    end
  | CExec id prog args env =>
    match vms sys !! id with
    | Some v => new_space id (execve k (typ prog) (read_at prog) v args env) sys
    | None => Some (true, sys)
    end
  | CBrk id ptr => in_space id (brk ptr) sys
  | CFault id addr => in_space id (on_page_fault addr) sys
  | CExit id =>
    match vms sys !! id with
    | Some v => match drop_vm (v, mem sys) with (Panic, _) => None | (_, (_, s)) => Some (true, mkSys (delete id (vms sys)) s) end
    | None => Some (true, sys)
    end
  end.

(** The results of all calls. *)
Fixpoint run_calls (cs : list Call) (sys : System A) : option (list bool * System A) :=
  match cs with
  | [] => Some ([], sys)
  | c :: cs' =>
    run_call c sys ≫= fun '(b, sys) =>
    run_calls cs' sys ≫= fun '(bs, sys) => Some (b :: bs, sys)
  end.
End calls.

(** The task whose memory a call changes. *)
Definition target (c : Call) : nat :=
  match c with CNew id | CFork _ id | CExec id _ _ _ | CBrk id _ | CFault id _ | CExit id => id end.

(** The file is what reads give, and its segments can be loaded; the break is
    not put at the end of a page table. *)
Definition call_ok (c : Call) : Prop :=
  match c with
  | CExec _ p _ _ =>
    typ p <> Dir.USymlink /\ Forall is_byte (content p) /\ zlen (content p) < 2 ^ 64 /\ elf_ok (content p) /\
    forall off len, 0 <= off -> 0 <= len -> (exists e, read_at p off len = inl e) \/ read_at p off len = inr (Bytes.sub off len (content p))
  | CBrk _ ptr => USER_BASE_VADDR <= ptr <= USER_END_VADDR -> size_ok (ptr - USER_BASE_VADDR)
  | _ => True
  end.

Section history.
Context {A : Type} `{PageAllocLaws A} (k : Z).
#[local] Notation St := (PtState (Memory A)).
Implicit Types (sys : System A) (U : Z -> Prop).

(** [R] are the page tables of the tasks. *)
Definition roots sys (R : gset Z) : Prop := forall r, r ∈ R <-> exists id v, vms sys !! id = Some v /\ pg_table v = r.

Record system_ok U sys : Prop := {
  sy_core : exists R V, roots sys R /\ core k U R (mem sys) V;
  sy_inj id id' v v' : vms sys !! id = Some v -> vms sys !! id' = Some v' -> pg_table v = pg_table v' -> id = id';
  sy_space id v : vms sys !! id = Some v -> space_ok (mem sys) v /\ has_trapframe v
}.

Definition all_tight sys : Prop := forall id v, vms sys !! id = Some v -> tight (mem sys) v.

(** The task [id] is as it was. *)
Definition same_task (id : nat) sys sys' : Prop :=
  vms sys' !! id = vms sys !! id /\ forall v n, vms sys !! id = Some v -> user n -> view (mem sys') (pg_table v) n = view (mem sys) (pg_table v) n.

(** What a call does, whatever its result. *)
Definition call_done U (t : nat) sys (b : bool) sys' : Prop :=
  exists U', system_ok U' sys' /\ (forall q, U' q -> U q) /\ (forall id, id <> t -> same_task id sys sys') /\
    (b = true -> all_tight sys -> all_tight sys' /\ forall q, U q -> U' q).

Lemma done_refl U t sys : system_ok U sys -> call_done U t sys true sys.
Proof. intros Hs. exists U. split; [done|]. split; [done|]. split; [done|]. done. Qed.

(** The spaces that stay look as before. *)
Lemma space_same sys (s' : St) v : space_ok (mem sys) v -> (forall n, user n -> view s' (pg_table v) n = view (mem sys) (pg_table v) n) -> space_ok s' v.
Proof. intros Hok Hv. apply (space_kept (mem sys)); [done|]. intros n Hn. apply Hv. by apply (areas_below v (mem sys) n). Qed.

Lemma tight_same (s s' : St) v : tight s v -> (forall n, user n -> view s' (pg_table v) n = view s (pg_table v) n) -> tight s' v.
Proof. intros Ht Hv n Hn Hx. apply Ht; [done|]. by rewrite <- Hv. Qed.
(** ** How the system changes *)

Section change.
Context U sys (R : gset Z).
Hypothesis Hok : system_ok U sys.
Hypothesis HR : roots sys R.

Lemma task_root id v : vms sys !! id = Some v -> pg_table v ∈ R.
Proof using HR. intros Hv. apply HR. by exists id, v. Qed.

(** A space is put in place. *)
Section put.
Context (id : nat) (v' : VMInner) (s' : St) (U' : Z -> Prop) (R' : gset Z) (V' : Z -> Prop).
Hypothesis HR' : forall r, r ∈ R' <-> r = pg_table v' \/ exists id' v, id' <> id /\ vms sys !! id' = Some v /\ pg_table v = r.
Hypothesis Hc' : core k U' R' s' V'.
Hypothesis Hnew : forall id' v, id' <> id -> vms sys !! id' = Some v -> pg_table v <> pg_table v'.
Hypothesis Hother : forall id' v n, id' <> id -> vms sys !! id' = Some v -> user n -> view s' (pg_table v) n = view (mem sys) (pg_table v) n.
Hypothesis Hspace : space_ok s' v'.
Hypothesis Htrap : has_trapframe v'.

Lemma put_ok : system_ok U' (mkSys (<[id := v']> (vms sys)) s').
Proof using All.
  split; cbn [vms mem].
  - exists R', V'. split; [|done]. intros r. rewrite HR'. cbn [vms]. split.
    + intros [->|(id' & v & Hne & Hv & Hr)]; [exists id, v'; by rewrite lookup_insert_eq|exists id', v; by rewrite lookup_insert_ne].
    + intros (id' & v & Hv & Hr). destruct (decide (id' = id)) as [->|Hne]; [rewrite lookup_insert_eq in Hv; left; congruence|right]. rewrite lookup_insert_ne in Hv by done. by exists id', v.
  - intros i j v w. destruct (decide (i = id)) as [->|Hi], (decide (j = id)) as [->|Hj]; rewrite ?lookup_insert_eq, ?lookup_insert_ne by done; [done| | |apply (sy_inj _ _ Hok)].
    + intros [= <-] Hw Heq. by destruct (Hnew j w Hj Hw).
    + intros Hv [= <-] Heq. by destruct (Hnew i v Hi Hv).
  - intros i v. destruct (decide (i = id)) as [->|Hi]; [rewrite lookup_insert_eq; by intros [= <-]|]. rewrite lookup_insert_ne by done. intros Hv.
    destruct (sy_space _ _ Hok i v Hv) as [Hs Ht]. split; [|done]. apply (space_same sys); [done|]. intros n Hn. by eapply Hother.
Qed.

Lemma put_same i : i <> id -> same_task i sys (mkSys (<[id := v']> (vms sys)) s').
Proof using Hother. intros Hi. split; cbn [vms mem]; [by rewrite lookup_insert_ne|]. intros v n Hv Hn. by eapply Hother. Qed.

Lemma put_tight : all_tight sys -> tight s' v' -> all_tight (mkSys (<[id := v']> (vms sys)) s').
Proof using Hother.
  intros Ht Ht' i v. cbn [vms mem]. destruct (decide (i = id)) as [->|Hi]; [rewrite lookup_insert_eq; by intros [= <-]|]. rewrite lookup_insert_ne by done. intros Hv.
  apply (tight_same (mem sys)); [by apply (Ht i)|]. intros n Hn. by eapply Hother.
Qed.
End put.

(** A new task beside the others. *)
Lemma add_done id v' s' V' : vms sys !! id = None -> pg_table v' ∉ R -> core k U (R ∪ {[pg_table v']}) s' V' -> beside R (mem sys) s' ->
  space_ok s' v' -> has_trapframe v' -> (all_tight sys -> tight s' v') -> call_done U id sys true (mkSys (<[id := v']> (vms sys)) s').
Proof using Hok HR.
  intros Hid Hn Hc Hb Hs Htr Htt. assert (Hother : forall id' v n, id' <> id -> vms sys !! id' = Some v -> user n -> view s' (pg_table v) n = view (mem sys) (pg_table v) n).
  { intros i v n _ Hv Hu. apply Hb; [by eapply task_root|done]. }
  exists U. split; [|split; [done|split; [intros i Hi; by apply put_same|]]].
  - apply (put_ok id v' s' U (R ∪ {[pg_table v']}) V'); [|done| |done|done|done].
    + intros r. rewrite elem_of_union, elem_of_singleton, (HR r). split; [|intros [?|(i & v & _ & Hv & Hr)]; [by right|left; by exists i, v]].
      intros [(i & v & Hv & Hr)|?]; [right; exists i, v; split; [congruence|done]|by left].
    + intros i v _ Hv Heq. apply Hn. rewrite <- Heq. by eapply task_root.
  - intros _ Ht. split; [|done]. apply put_tight; auto.
Qed.

(** A call that failed before anything of a task was changed. *)
Lemma fail_done t s' : unchanged k U R (mem sys) s' -> call_done U t sys false (mkSys (vms sys) s').
Proof using Hok HR.
  intros (V' & U' & Hc & HU & Hv). exists U'. split; [|split; [done|split; [|done]]].
  - split; cbn [vms mem]; [by exists R, V'|apply (sy_inj _ _ Hok)|]. intros i v Hx. destruct (sy_space _ _ Hok i v Hx) as [Hs Ht]. split; [|done].
    apply (space_same sys); [done|]. intros n Hn. apply Hv; [by eapply task_root|done].
  - intros i _. split; [done|]. intros v n Hx Hn. apply Hv; [by eapply task_root|done].
Qed.

(** An operation in the space of a task. *)
Lemma after_done id v v' s' b : vms sys !! id = Some v -> after k U R v (mem sys) v' s' -> has_trapframe v' -> (b = true -> tight (mem sys) v -> tight s' v') ->
  call_done U id sys b (mkSys (<[id := v']> (vms sys)) s').
Proof using Hok HR.
  intros Hv [[V' Hst] Hroot Hs] Htr Htt. assert (Hne : forall i w, i <> id -> vms sys !! i = Some w -> pg_table w <> pg_table v).
  { intros i w Hi Hw Heq. apply Hi. by apply (sy_inj _ _ Hok i id w v). }
  assert (Hother : forall i w n, i <> id -> vms sys !! i = Some w -> user n -> view s' (pg_table w) n = view (mem sys) (pg_table w) n).
  { intros i w n Hi Hw Hn. apply (sp_other _ _ _ _ _ _ _ Hst); [by eapply task_root|by eapply Hne|done]. }
  exists U. split; [|split; [done|split; [intros i Hi; by apply put_same|]]].
  - apply (put_ok id v' s' U R V'); [|apply Hst| |done|done|done].
    + intros r. rewrite (HR r). split.
      * intros (i & w & Hw & Hr). destruct (decide (i = id)) as [->|Hi]; [left; congruence|right; by exists i, w].
      * intros [->|(i & w & _ & Hw & Hr)]; [exists id, v; by rewrite Hroot|by exists i, w].
    + intros i w Hi Hw. rewrite Hroot. by eapply Hne.
  - intros Hb Ht. split; [|done]. apply put_tight; [done|done|]. apply Htt; [done|]. by apply (Ht id).
Qed.
(** A task with another space. *)
Lemma replace_done id old args env file v' s' : vms sys !! id = Some old -> replaced k U R file old args env (mem sys) v' s' ->
  call_done U id sys true (mkSys (<[id := v']> (vms sys)) s').
Proof using Hok HR.
  intros Hid [Hn (V' & U' & Hc & HU & Hall) Hv [Hs Ht' Htr _ _ _ _]]. assert (Hne : forall i w, i <> id -> vms sys !! i = Some w -> pg_table w <> pg_table old).
  { intros i w Hi Hw Heq. apply Hi. by apply (sy_inj _ _ Hok i id w old). }
  assert (Hother : forall i w n, i <> id -> vms sys !! i = Some w -> user n -> view s' (pg_table w) n = view (mem sys) (pg_table w) n).
  { intros i w n Hi Hw Hu. apply Hv; [by eapply task_root|by eapply Hne|done]. }
  exists U'. split; [|split; [done|split; [intros i Hi; by apply put_same|]]].
  - apply (put_ok id v' s' U' ((R ∖ {[pg_table old]}) ∪ {[pg_table v']}) V'); [|done| |done|done|done].
    + intros r. rewrite elem_of_union, elem_of_singleton, elem_of_difference, elem_of_singleton, (HR r). split.
      * intros [[(i & w & Hw & Hr) Hx]|?]; [right; exists i, w; split; [congruence|done]|by left].
      * intros [?|(i & w & Hi & Hw & Hr)]; [by right|left]. split; [by exists i, w|]. rewrite <- Hr. by eapply Hne.
    + intros i w Hi Hw Heq. apply Hn. rewrite <- Heq. by eapply task_root.
  - intros _ Ht. split; [by apply put_tight|]. intros q. apply Hall. by apply (Ht id).
Qed.

(** A task that is gone. *)
Lemma exit_done id v V' U' s' : vms sys !! id = Some v -> core k U' (R ∖ {[pg_table v]}) s' V' -> (forall q, U' q -> U q) -> (tight (mem sys) v -> forall q, U q -> U' q) ->
  (forall r n, r ∈ R -> r <> pg_table v -> user n -> view s' r n = view (mem sys) r n) -> call_done U id sys true (mkSys (delete id (vms sys)) s').
Proof using Hok HR.
  intros Hid Hc HU Hall Hv. assert (Hne : forall i w, i <> id -> vms sys !! i = Some w -> pg_table w <> pg_table v).
  { intros i w Hi Hw Heq. apply Hi. by apply (sy_inj _ _ Hok i id w v). }
  assert (Hother : forall i w n, i <> id -> vms sys !! i = Some w -> user n -> view s' (pg_table w) n = view (mem sys) (pg_table w) n).
  { intros i w n Hi Hw Hu. apply Hv; [by eapply task_root|by eapply Hne|done]. }
  assert (Hback : forall i w, delete id (vms sys) !! i = Some w -> i <> id /\ vms sys !! i = Some w) by (intros i w Hw; by apply lookup_delete_Some in Hw as [? ?]).
  exists U'. split; [|split; [done|split]].
  - split; cbn [vms mem].
    + exists (R ∖ {[pg_table v]}), V'. split; [|done]. intros r. rewrite elem_of_difference, elem_of_singleton, (HR r). cbn [vms]. split.
      * intros [(i & w & Hw & Hr) Hx]. exists i, w. rewrite lookup_delete_ne; [done|congruence].
      * intros (i & w & Hw & Hr). apply Hback in Hw as [Hi Hw]. split; [by exists i, w|]. rewrite <- Hr. by eapply Hne.
    + intros i j w w' Hw Hw'. apply Hback in Hw as [_ Hw]. apply Hback in Hw' as [_ Hw']. by apply (sy_inj _ _ Hok).
    + intros i w Hw. apply Hback in Hw as [Hi Hw]. destruct (sy_space _ _ Hok i w Hw) as [Hs Ht]. split; [|done]. apply (space_same sys); [done|]. intros n Hn. by eapply Hother.
  - intros i Hi. split; cbn [vms mem]; [by rewrite lookup_delete_ne|]. intros w n Hw Hn. by eapply Hother.
  - intros _ Ht. split; [|apply Hall; by apply (Ht id)]. intros i w Hw. apply Hback in Hw as [Hi Hw]. apply (tight_same (mem sys)); [by apply (Ht i)|]. intros n Hn. by eapply Hother.
Qed.
End change.

(** ** The break *)

Lemma resized_tight U R v s sz p v' s' : resized k U R v s sz true p v' s' -> tight s v -> tight s' v'.
Proof.
  intros [Ha Hl Hpg _ Hv] Ht n Hn Hx. rewrite (af_root _ _ _ _ _ _ _ Ha), Hv in Hx by done. unfold used, in_heap. rewrite Hl, Hpg.
  destruct ((heap_base + pages_for sz <=? n) && (n <? heap_base + pages_for (user_space_size v))) eqn:H1; [done|]. cbn [negb andb] in Hx.
  destruct (Ht n Hn Hx) as [?|Hh]; [by left|right]. unfold in_heap in Hh. lia.
Qed.

Lemma brk_wp U R v s V ptr : core k U R s V -> pg_table v ∈ R -> space_ok s v -> (USER_BASE_VADDR <= ptr <= USER_END_VADDR -> size_ok (ptr - USER_BASE_VADDR)) ->
  wp (brk ptr) (fun _ '(v', s') => after k U R v s v' s' /\ area_list v' = area_list v /\ (tight s v -> tight s' v'))
    (fun _ '(v', s') => after k U R v s v' s' /\ area_list v' = area_list v) (v, s).
Proof.
  intros Hc Hr Hok Hsz. assert (Hrefl : after k U R v s v s) by (split; [exists V; by apply step_refl|done|done]). unfold brk. apply wp_bind, wp_focus.
  destruct (Z.eqb_spec ptr 0); [by apply wp_ret|]. destruct (Z.leb_spec USER_BASE_VADDR ptr), (Z.leb_spec ptr USER_END_VADDR); cbn [andb negb]; try by apply wp_fail.
  apply wp_bind. eapply wp_mono; [apply (uvalloc_wp k U R v s V Hc Hr Hok); [auto|done|done]| |].
  - intros [] [v' s'] Hrs. apply wp_ret. split; [apply Hrs|]. split; [apply Hrs|]. by eapply resized_tight.
  - intros err [v' s'] (-> & Ha & _). done.
Qed.
(** ** One call *)

Definition call_fine U (c : Call) sys : Prop := system_ok U sys -> call_ok c -> exists b sys', run_call k c sys = Some (b, sys') /\ call_done U (target c) sys b sys'.

Lemma call_new U id sys : call_fine U (CNew id) sys.
Proof.
  intros Hs Hcok. destruct (sy_core _ _ Hs) as (R & V & HR & Hc). pose proof (done_refl U (target (CNew id)) sys Hs) as Hskip. cbn [run_call target] in *.
  destruct (decide (is_Some (vms sys !! id))) as [|Hno]; [by exists true, sys|]. apply eq_None_not_Some in Hno. unfold new_space.
  pose proof (new_task_wp k U R (mem sys) V Hc) as Hw. unfold wp in Hw. destruct (new_task_vm k (mem sys)) as [[v|e|] s']; [| |done]; (eexists _, _; split; [done|]).
  - destruct Hw as (Hn & Hb & [Hok Htr Ht] & V' & Hc'). by apply (add_done U sys R Hs HR id v s' V').
  - by apply (fail_done U sys R).
Qed.

Lemma call_fork U parent id sys : call_fine U (CFork parent id) sys.
Proof.
  intros Hs Hcok. destruct (sy_core _ _ Hs) as (R & V & HR & Hc). pose proof (done_refl U (target (CFork parent id)) sys Hs) as Hskip. cbn [run_call target] in *.
  destruct (vms sys !! parent) as [u|] eqn:Hu; [|by exists true, sys]. destruct (vms sys !! id) as [?|] eqn:Hid; [by exists true, sys|]. unfold new_space.
  destruct (sy_space _ _ Hs parent u Hu) as [Hoku Htru]. pose proof (fork_wp k U R u (mem sys) V Hc (task_root sys R HR parent u Hu) Hoku Htru) as Hw. unfold wp in Hw.
  destruct (fork k u (mem sys)) as [[v|e|] s']; [| |done]; (eexists _, _; split; [done|]).
  - pose proof (forked_tight k U R u (mem sys) v s' Hw) as Ht. destruct Hw as [Hn (V' & Hc') Hb Hok Htr _ _ _ _]. apply (add_done U sys R Hs HR id v s' V'); [done|done|done|done|done|done|].
    intros Hall. apply Ht; [by apply (Hall parent)|done].
  - by apply (fail_done U sys R).
Qed.

Lemma call_exec U id p args env sys : call_fine U (CExec id p args env) sys.
Proof.
  intros Hs Hcok. destruct (sy_core _ _ Hs) as (R & V & HR & Hc). pose proof (done_refl U (target (CExec id p args env)) sys Hs) as Hskip. cbn [run_call target] in *.
  destruct (vms sys !! id) as [old|] eqn:Hid; [|by exists true, sys]. destruct Hcok as (Htyp & Hby & Hsz & Helf & Hrd). unfold new_space.
  destruct (sy_space _ _ Hs id old Hid) as [Hoko _].
  pose proof (execve_wp k U R (read_at p) (content p) Hrd Hby Hsz Helf (typ p) old args env (mem sys) V Hc (task_root sys R HR id old Hid) Hoko Htyp) as Hw. unfold wp in Hw.
  destruct (execve k (typ p) (read_at p) old args env (mem sys)) as [[v|e|] s']; [| |done]; (eexists _, _; split; [done|]).
  - by apply (replace_done U sys R Hs HR id old args env (content p) v s').
  - by apply (fail_done U sys R).
Qed.

Lemma call_brk U id ptr sys : call_fine U (CBrk id ptr) sys.
Proof.
  intros Hs Hcok. destruct (sy_core _ _ Hs) as (R & V & HR & Hc). pose proof (done_refl U (target (CBrk id ptr)) sys Hs) as Hskip. cbn [run_call target] in *.
  unfold in_space. destruct (vms sys !! id) as [v|] eqn:Hid; [|by exists true, sys]. destruct (sy_space _ _ Hs id v Hid) as [Hok Htr].
  pose proof (brk_wp U R v (mem sys) V ptr Hc (task_root sys R HR id v Hid) Hok Hcok) as Hw. unfold wp in Hw. destruct (brk ptr (v, mem sys)) as [[a|e|] [v' s']]; [| |done]; (eexists _, _; split; [done|]).
  - destruct Hw as (Ha & Hl & Ht). apply (after_done U sys R Hs HR id v v' s'); [done|done|unfold has_trapframe; by rewrite Hl|done].
  - destruct Hw as (Ha & Hl). apply (after_done U sys R Hs HR id v v' s'); [done|done|unfold has_trapframe; by rewrite Hl|done].
Qed.

Lemma call_fault U id addr sys : call_fine U (CFault id addr) sys.
Proof.
  intros Hs Hcok. destruct (sy_core _ _ Hs) as (R & V & HR & Hc). pose proof (done_refl U (target (CFault id addr)) sys Hs) as Hskip. cbn [run_call target] in *.
  unfold in_space. destruct (vms sys !! id) as [v|] eqn:Hid; [|by exists true, sys]. destruct (sy_space _ _ Hs id v Hid) as [Hok Htr].
  pose proof (page_fault_wp k U R v (mem sys) V addr Hc (task_root sys R HR id v Hid) Hok) as Hw. unfold wp in Hw. destruct (on_page_fault addr (v, mem sys)) as [[a|e|] [v' s']]; [| |done]; (eexists _, _; split; [done|]).
  - destruct Hw as (-> & Ha & Hin & Hf). apply (after_done U sys R Hs HR id v v s'); [done|done|done|]. intros _ Ht n Hn Hx.
    destruct (decide (n = addr / 4096)) as [->|Hne]; [right|apply Ht; [done|]; by rewrite <- (proj2 (Hf n Hn))].
    unfold in_heap, pages_for, USER_BASE_VADDR, heap_base in *. destruct (so_size _ _ Hok) as [? _]. lia.
  - destruct Hw as (-> & Ha & Hv). by apply (after_done U sys R Hs HR id v v s').
Qed.

Lemma call_exit U id sys : call_fine U (CExit id) sys.
Proof.
  intros Hs Hcok. destruct (sy_core _ _ Hs) as (R & V & HR & Hc). pose proof (done_refl U (target (CExit id)) sys Hs) as Hskip. cbn [run_call target] in *.
  destruct (vms sys !! id) as [v|] eqn:Hid; [|by exists true, sys]. destruct (sy_space _ _ Hs id v Hid) as [Hok _].
  pose proof (drop_vm_wp k U R v (mem sys) V Hc (task_root sys R HR id v Hid) Hok) as Hw. unfold wp in Hw. destruct (drop_vm (v, mem sys)) as [[a|e|] [v' s']]; [|done|done].
  destruct Hw as (V' & U' & Hc' & HU & Hall & Hv). eexists _, _. split; [done|]. by apply (exit_done U sys R Hs HR id v V' U' s').
Qed.

Lemma call_step U c sys : call_fine U c sys.
Proof. destruct c; [apply call_new|apply call_fork|apply call_exec|apply call_brk|apply call_fault|apply call_exit]. Qed.
End history.

(** * A small machine

    A list of pages as allocator, a kernel with an empty page table and no
    task, and a program: a state from which histories can be run. *)

Definition phys_page (p : Z) : Prop := addr_ok p = true /\ 0 <= p < 2 ^ 64.

#[global, program] Instance list_laws : PageAllocLaws (list Z) := {|
  pa_page := phys_page;
  pa_ok l V := NoDup l /\ (forall p, V p <-> p ∈ l) /\ forall p, p ∈ l -> phys_page p
|}.
Next Obligation. done. Qed.
Next Obligation. intros l V V' (Hn & Hv & Hp) Heq. split; [done|]. split; [|done]. intros p. by rewrite <- Heq. Qed.
Next Obligation.
  intros l V (Hn & Hv & Hp). unfold wp. cbn [pa_alloc list_pages]. destruct l as [|p l]; [split; [|done]; intros q; rewrite Hv; by apply not_elem_of_nil|].
  apply NoDup_cons in Hn as [Hnp Hn]. split; [apply Hv; by left|]. split; [apply Hp; by left|]. split; [done|]. split; [|intros q Hq; apply Hp; by right].
  intros q. rewrite Hv, elem_of_cons. split; [intros [[?|?] ?]; done|]. intros Hq. split; [by right|]. by intros ->.
Qed.
Next Obligation.
  intros l V p (Hn & Hv & Hp) Hpg Hnv. unfold wp. cbn [pa_free list_pages]. split; [constructor; [by rewrite <- Hv|done]|].
  split; [|intros q Hq; apply elem_of_cons in Hq as [->|Hq]; auto]. intros q. rewrite elem_of_cons, Hv. tauto.
Qed.

(** ** The start *)

Definition kernel_root : Z := 0xD0000000.
Definition free_pages : list Z := (fun i => 0xD0001000 + 4096 * i) <$> seqZ 0 64.

Definition start : System (list Z) :=
  mkSys ∅ (mkPt {[kernel_root := replicate 512 0]} (mkMem {[kernel_root := zero_page]} free_pages)).

Definition start_pages (q : Z) : Prop := q = kernel_root \/ q ∈ free_pages.

Lemma free_pages_ok p : p ∈ free_pages -> phys_page p /\ p <> kernel_root.
Proof.
  intros Hp. assert (Hall : Forall (fun p => addr_ok p = true /\ (0 <=? p) && (p <? 2 ^ 64) && negb (p =? kernel_root) = true) free_pages).
  { apply (bool_decide_eq_true_1 (Forall _ free_pages)). by vm_compute. }
  rewrite Forall_forall in Hall. destruct (Hall p Hp) as [? ?]. split; [split; [done|lia]|]. unfold kernel_root in *. lia.
Qed.

Lemma start_core : core kernel_root start_pages ∅ (mem start) (fun q => q ∈ free_pages).
Proof.
  assert (Htab : forall t, is_Some (tables (mem start) !! t) <-> t = kernel_root).
  { intros t. cbn [start mem tables]. split; [intros [l Hl]; by apply lookup_singleton_Some in Hl as [<- _]|intros ->; rewrite lookup_singleton_eq; by eexists]. }
  assert (Hno : forall r : Z, r ∈ (∅ : gset Z) -> False) by (intros r; apply not_elem_of_empty). split.
  - apply not_elem_of_empty.
  - split; [by apply (bool_decide_eq_true_1 (NoDup _)); vm_compute|]. split; [done|]. intros p Hp. by apply free_pages_ok.
  - intros t Ht. apply Htab in Ht as ->. split; [by vm_compute|]. split; [intros Hx; by apply free_pages_ok in Hx as [_ ?]|]. cbn [start mem pool frames]. by rewrite lookup_singleton_eq.
  - intros t l. cbn [start mem tables]. intros Hl. by apply lookup_singleton_Some in Hl as [_ <-].
  - intros r [->|Hr]; [apply zero_tree|by destruct (Hno r)].
  - intros r r' q t Hr. by destruct (Hno r).
  - intros r n e Hr. by destruct (Hno r).
  - intros r n e r' n' e' Hr. by destruct (Hno r).
  - intros t Ht. apply Htab in Ht as ->. exists kernel_root, []. split; [by left|]. by split; [simpl; lia|].
  - intros q. rewrite Htab. unfold start_pages, in_use. split; [tauto|]. intros [?|[?|(r & n & e & Hr & _)]]; [by right|by left|by destruct (Hno r)].
  - intros r q Hr. by destruct (Hno r).
Qed.

Lemma start_ok : system_ok kernel_root start_pages start.
Proof.
  split; [|done|done]. exists ∅, (fun q => q ∈ free_pages). split; [|apply start_core]. intros r. split; [set_solver|]. intros (id & v & Hv & _). done.
Qed.

(** ** A program: headers, and four bytes to load *)

Definition demo_file : list Z :=
  MAGIC ++ replicate 12 0 ++ replicate 8 0 ++ le_encode 8 0x200080000 ++ le_encode 8 64 ++ replicate 8 0 ++ replicate 4 0 ++
  le_encode 2 64 ++ le_encode 2 56 ++ le_encode 2 1 ++ replicate 6 0 ++
  le_encode 4 1 ++ le_encode 4 5 ++ le_encode 8 120 ++ le_encode 8 0x200080000 ++ le_encode 8 0 ++ le_encode 8 4 ++ le_encode 8 5000 ++ le_encode 8 4096 ++
  [19; 0; 0; 0].

Definition demo : Program := mkProg Dir.RegularFile (fun off len => inr (Bytes.sub off len demo_file)) demo_file.

Lemma demo_ok id args env : call_ok (CExec id demo args env).
Proof.
  split; [done|]. split; [by apply (bool_decide_eq_true_1 (Forall _ _)); vm_compute|]. split; [by vm_compute|]. split; [|intros off len _ _; by right].
  split; cbn [demo content]; intros i Hi; assert (i = 0) as -> by (change (e_phnum (elf_header demo_file)) with 1 in Hi; lia).
  - by vm_compute.
  - intros _. split; by vm_compute.
Qed.

(** ** Histories *)

Definition hello : list (list Z) := [[104; 105]; [120]].
Definition vars : list (list Z) := [[65; 61; 49]].

Definition demo_calls : list Call :=
  [CNew 0; CBrk 0 (USER_BASE_VADDR + 10000); CFault 0 (USER_BASE_VADDR + 5000); CFork 0 1; CExec 1 demo hello vars; CExit 0].

Lemma demo_calls_ok : Forall call_ok demo_calls.
Proof.
  unfold demo_calls. repeat (constructor; [first [apply demo_ok | exact I | intros _; split; by vm_compute; lia | intros _; unfold size_ok, pages_for; lia]|]). constructor.
Qed.

(** The state after some calls. *)
Definition reached (cs : list Call) : System (list Z) :=
  match run_calls kernel_root cs start with Some (_, sys) => sys | None => start end.

Lemma reached_run cs bs : fst <$> run_calls kernel_root cs start = Some bs -> run_calls kernel_root cs start = Some (bs, reached cs).
Proof. unfold reached. destruct (run_calls kernel_root cs start) as [[b sys]|]; [|done]. by intros [= ->]. Qed.

Lemma demo_results : fst <$> run_calls kernel_root demo_calls start = Some [true; true; true; true; true; true].
Proof. vm_compute. reflexivity. Qed.
