(* ===== verification/VmTheorems.v ===== *)
(** * Properties of virtual memory, fork and execve *)

From S2P Require Import Prelude Dir Bytes Vfs Buddy PageTable PtTree PtOps PtRange PtIter PtUnmap PtVmap Vm VmCore VmOps VmSpace VmAreas VmFork VmDrop Exec ExecFork ExecStack ExecImage VmHistory.
Import Vfs.

#[local] Open Scope Z_scope.
#[local] Open Scope rw_scope.

(** ** Registers in the page of the trapframe *)

Lemma concat_sub (l : list Z) i x : l !! i = Some x -> Bytes.sub (8 * Z.of_nat i) 8 (trapframe_bytes l) = le_encode 8 x.
Proof.
  unfold trapframe_bytes. revert i. induction l as [|y l IH]; intros i Hi; [done|]. rewrite fmap_cons. cbn [concat]. destruct i as [|i].
  - injection Hi as ->. change (8 * Z.of_nat 0) with 0. unfold Bytes.sub. cbn [Z.to_nat]. rewrite drop_0. by rewrite take_app_le, take_ge by (by rewrite le_encode_length).
  - cbn in Hi. rewrite <- (IH i Hi). unfold Bytes.sub. replace (Z.to_nat (8 * Z.of_nat (S i))) with (length (le_encode 8 y) + Z.to_nat (8 * Z.of_nat i))%nat by (rewrite le_encode_length; lia).
    by rewrite <- drop_drop, drop_app_length.
Qed.

Lemma sub_splice_start len (d b : list Z) off : 0 <= off -> 0 <= len -> off + len <= zlen d -> zlen d <= zlen b -> Bytes.sub off len (splice 0 d b) = Bytes.sub off len d.
Proof.
  intros Ho Hl Hd Hb. assert (Hs : length (splice 0 d b) = length b) by (apply splice_length; lia). apply list_eq_Z.
  - apply Nat2Z.inj. rewrite !sub_length by lia. done.
  - intros i Hi. rewrite sub_length in Hi by lia. rewrite !Bytes.lookup_sub by lia. rewrite lookup_splice by lia. rewrite decide_True by lia. f_equal. lia.
Qed.

Lemma trap_register tf i x : length tf = 35%nat -> tf !! i = Some x -> 0 <= x < 2 ^ 64 -> field (8 * Z.of_nat i) 8 (splice 0 (trapframe_bytes tf) zero_page) = x.
Proof.
  intros Hl Hi Hx. pose proof (lookup_lt_Some _ _ _ Hi). pose proof (trapframe_size tf Hl). pose proof zero_page_length. unfold field.
  rewrite sub_splice_start by lia.
  rewrite (concat_sub tf i x Hi). apply le_decode_encode. done.
Qed.

Lemma field_range off len b : Forall is_byte b -> 0 <= len -> 0 <= field off len b < 256 ^ len.
Proof.
  intros Hb Hl. unfold field. pose proof (le_decode_range _ (sub_Forall is_byte off len b Hb)) as Hr. split; [lia|].
  apply (Z.lt_le_trans _ (256 ^ zlen (Bytes.sub off len b))); [lia|]. apply Z.pow_le_mono_r; [lia|]. unfold Bytes.sub. rewrite length_take. lia.
Qed.

(** Strings that fit are short. *)
Lemma layout_short cstrs : zlen cstrs < zlen (layout cstrs) /\ forall a, a ∈ cstrs -> zlen a < zlen (layout cstrs).
Proof.
  rewrite layout_length. induction cstrs as [|b l [IH1 IH2]]; cbn [sum_list_with length]; [split; [lia|]; intros a Ha; by apply elem_of_nil in Ha|].
  split; [lia|]. intros a Ha. apply elem_of_cons in Ha as [->|Ha]; [lia|]. specialize (IH2 a Ha). lia.
Qed.

Section theorems.
Context {A : Type} `{PageAllocLaws A}.
Implicit Types (sys : System A) (U : Z -> Prop).

Lemma same_task_trans id sys sys1 sys2 : same_task id sys sys1 -> same_task id sys1 sys2 -> same_task id sys sys2.
Proof.
  intros [V1 W1] [V2 W2]. split; [congruence|]. intros v n Hv Hn. rewrite W2 by (done || congruence). by apply W1.
Qed.

(** Histories, from what one call does. *)
Lemma calls_done k U cs : forall sys, system_ok k U sys -> Forall call_ok cs ->
  exists bs sys' U', run_calls k cs sys = Some (bs, sys') /\ system_ok k U' sys' /\ (forall q, U' q -> U q) /\
    (forall id, (forall c, c ∈ cs -> target c <> id) -> same_task id sys sys') /\
    (Forall (eq true) bs -> all_tight sys -> all_tight sys' /\ forall q, U q -> U' q).
Proof.
  revert U. induction cs as [|c cs IH]; intros U sys Hs Hc; cbn [run_calls].
  - exists [], sys, U. split; [done|]. split; [done|]. split; [done|]. split; [done|]. done.
  - apply Forall_cons in Hc as [Hc Hcs]. destruct (call_step k U c sys Hs Hc) as (b & sys1 & -> & U1 & Hs1 & HU1 & Hsame1 & Ht1). cbn [mbind option_bind].
    destruct (IH U1 sys1 Hs1 Hcs) as (bs & sys2 & U2 & -> & Hs2 & HU2 & Hsame2 & Ht2). cbn [mbind option_bind]. exists (b :: bs), sys2, U2.
    split; [done|]. split; [done|]. split; [auto|]. split.
    + intros id Hid. apply (same_task_trans id sys sys1); [apply Hsame1; intros ->; apply (Hid c); [by left|done]|]. apply Hsame2. intros c' Hc'. apply Hid. by right.
    + intros Hb Ht. apply Forall_cons in Hb as [<- Hb]. destruct (Ht1 eq_refl Ht) as [Ha1 Hq1]. destruct (Ht2 Hb Ha1) as [Ha2 Hq2]. auto.
Qed.

(** C19. Tasks that are created, fork, execute programs, move their break, fault on pages and exit, in any
    order, with files whose segments can be loaded and breaks that are not at the end of a page table: no call stops the kernel, the page tables, pages and the allocator stay in order after every
    history, and a task that no call is about has its areas, its size and the contents of its memory at the
    end as at the start. *)
Theorem vm_calls_safe k U cs sys : system_ok k U sys -> Forall call_ok cs ->
  exists bs sys' U', run_calls k cs sys = Some (bs, sys') /\ system_ok k U' sys' /\ (forall q, U' q -> U q) /\
    forall id, (forall c, c ∈ cs -> target c <> id) -> same_task id sys sys'.
Proof.
  intros Hs Hc. destruct (calls_done k U cs sys Hs Hc) as (bs & sys' & U' & Hrun & Hs' & HU & Hsame & _). by exists bs, sys', U'.
Qed.

(** The owner of a page. *)
Definition owns sys (id : nat) (n q : Z) : Prop :=
  exists v e, vms sys !! id = Some v /\ user n /\ leaf (tables (mem sys)) (pg_table v) n = Some e /\ physical_addr e = q.

(** C20. While no call fails, no page is lost and none is used twice: each page that the system had is free, or
    a page table that the kernel or a task reaches, or memory of a task, and only one of these; a page that is
    memory is one page of one task.  At the start no task has pages outside of its areas and of its heap
    ([all_tight]); the calls are as in the theorem before ([call_ok]): the segments of a program that is executed
    can be loaded, and a break, rounded up to pages, is not a multiple of 2 MB above the base. *)
Theorem vm_pages_accounted k U cs sys bs sys' : system_ok k U sys -> all_tight sys -> Forall call_ok cs ->
  run_calls k cs sys = Some (bs, sys') -> Forall (eq true) bs ->
  exists V, pa_ok (allocator (pool (mem sys'))) V /\
    (forall q, U q <-> V q \/ is_Some (tables (mem sys') !! q) \/ exists id n, owns sys' id n q) /\
    (forall q, is_Some (tables (mem sys') !! q) -> ~ V q /\ exists r p, (r = k \/ exists id v, vms sys' !! id = Some v /\ pg_table v = r) /\ node (tables (mem sys')) r p = Some q) /\
    (forall id n q, owns sys' id n q -> ~ V q /\ tables (mem sys') !! q = None) /\
    forall id n id' n' q, owns sys' id n q -> owns sys' id' n' q -> id = id' /\ n = n'.
Proof.
  intros Hs Ht Hc Hrun Hb. destruct (calls_done k U cs sys Hs Hc) as (bs1 & sys1 & U' & Hrun1 & Hs' & HU & _ & Hall). rewrite Hrun in Hrun1. injection Hrun1 as <- <-.
  destruct (Hall Hb Ht) as [_ HU']. destruct (sy_core _ _ _ Hs') as (R & V & HR & Hcore). exists V. split; [apply (c_pool _ _ _ _ _ Hcore)|].
  assert (Hown : forall q, in_use R (mem sys') q <-> exists id n, owns sys' id n q).
  { intros q. split.
    - intros (r & n & e & Hr & Hn & He & Hq). apply HR in Hr as (id & v & Hv & <-). exists id, n, v, e. done.
    - intros (id & n & v & e & Hv & Hn & He & Hq). exists (pg_table v), n, e. split; [apply HR; by exists id, v|done]. }
  assert (Hroot : forall id v, vms sys' !! id = Some v -> pg_table v ∈ R) by (intros id v Hv; apply HR; by exists id, v).
  split; [|split; [|split]].
  - intros q. rewrite <- Hown, <- (c_pages _ _ _ _ _ Hcore q). split; auto.
  - intros q Hq. destruct (c_table _ _ _ _ _ Hcore q Hq) as (_ & HnV & _). split; [done|]. destruct (c_reach _ _ _ _ _ Hcore q Hq) as (r & p & Hr & _ & Hn). exists r, p.
    split; [|done]. destruct Hr as [->|Hr]; [by left|right]. by apply HR.
  - intros id n q (v & e & Hv & Hn & He & <-). destruct (c_data _ _ _ _ _ Hcore _ n e (Hroot id v Hv) Hn He) as (_ & ? & ? & _). done.
  - intros id n id' n' q (v & e & Hv & Hn & He & Hq) (v' & e' & Hv' & Hn' & He' & Hq').
    destruct (c_inj _ _ _ _ _ Hcore (pg_table v) n e (pg_table v') n' e') as [Heq ->]; [by eapply Hroot|by eapply Hroot|done|done|done|done|congruence|].
    split; [|done]. by apply (sy_inj _ _ _ Hs' id id' v v').
Qed.

(** C21. A child gets the memory of its parent: after a fork that succeeds every page of the child, with its
    permissions and bytes, is that of the parent, except that register a0 in its trapframe is 0; the parent keeps
    its memory, and no page is shared by the two.  The parent has no pages outside of its areas and of its heap
    ([tight]), and its break, rounded up to pages, is not a multiple of 2 MB above the base (the [size_ok] of
    [system_ok]; at such a break pages get lost, see [fork_loses_pages]). *)
Theorem fork_copies_memory k U parent id sys u sys' : system_ok k U sys -> vms sys !! parent = Some u -> vms sys !! id = None -> tight (mem sys) u ->
  run_call k (CFork parent id) sys = Some (true, sys') ->
  exists v, vms sys' !! id = Some v /\ vms sys' !! parent = Some u /\ area_list v = area_list u /\ user_space_size v = user_space_size u /\
    (forall n, user n -> n <> trap_page -> view (mem sys') (pg_table v) n = view (mem sys) (pg_table u) n) /\
    (exists p b, view (mem sys) (pg_table u) trap_page = Some (p, b) /\ view (mem sys') (pg_table v) trap_page = Some (p, splice 88 (le_encode 8 0) b)) /\
    (forall n, user n -> view (mem sys') (pg_table u) n = view (mem sys) (pg_table u) n) /\
    forall n m e e', user n -> user m -> leaf (tables (mem sys')) (pg_table v) n = Some e -> leaf (tables (mem sys')) (pg_table u) m = Some e' -> physical_addr e <> physical_addr e'.
Proof.
  intros Hs Hu Hid Ht Hrun. cbn [run_call] in Hrun. rewrite Hu, Hid in Hrun. unfold new_space in Hrun. destruct (sy_core _ _ _ Hs) as (R & V & HR & Hc).
  assert (HuR : pg_table u ∈ R) by (apply HR; by exists parent, u). destruct (sy_space _ _ _ Hs parent u Hu) as [Hok Htr].
  pose proof (fork_wp k U R u (mem sys) V Hc HuR Hok Htr) as Hw. unfold wp in Hw. destruct (fork k u (mem sys)) as [[v|e|] s']; [|done|done]. injection Hrun as <-.
  destruct Hw as [Hn (V' & Hc') Hb _ _ Hl Hsz Hview Hpage]. assert (Hne : parent <> id) by congruence. exists v. cbn [vms mem]. rewrite lookup_insert_eq, lookup_insert_ne by done.
  split; [done|]. split; [done|]. split; [done|]. split; [done|]. split; [by apply Hview|]. split; [|split; [intros n Hx; by apply Hb|]].
  - pose proof (so_mapped _ _ Hok _ Htr) as Hm. destruct (view (mem sys) (pg_table u) trap_page) as [[p b]|] eqn:Hp; [|done]. exists p, b. split; [done|]. by apply Hpage.
  - intros n m e e' Hx Hy He He' Heq. destruct (c_inj _ _ _ _ _ Hc' (pg_table v) n e (pg_table u) m e') as [Hz _]; [set_solver|set_solver|done|done|done|done|done|].
    rewrite Hz in Hn. done.
Qed.

(** The image that a successful [execve] leaves. *)
Lemma exec_run k U id p args env sys old sys' : system_ok k U sys -> vms sys !! id = Some old -> call_ok (CExec id p args env) ->
  run_call k (CExec id p args env) sys = Some (true, sys') -> exists v, vms sys' !! id = Some v /\ image (content p) args env v (mem sys').
Proof.
  intros Hs Hid (Htyp & Hby & Hsz & Helf & Hrd) Hrun. cbn [run_call] in Hrun. rewrite Hid in Hrun. unfold new_space in Hrun. destruct (sy_core _ _ _ Hs) as (R & V & HR & Hc).
  destruct (sy_space _ _ _ Hs id old Hid) as [Hok _]. assert (HR' : pg_table old ∈ R) by (apply HR; by exists id, old).
  pose proof (execve_wp k U R (read_at p) (content p) Hrd Hby Hsz Helf (typ p) old args env (mem sys) V Hc HR' Hok Htyp) as Hw. unfold wp in Hw.
  destruct (execve k (typ p) (read_at p) old args env (mem sys)) as [[v|e|] s']; [|done|done]. injection Hrun as <-. exists v. cbn [vms mem]. rewrite lookup_insert_eq. split; [done|]. apply Hw.
Qed.

(** A string array on the stack is read back. *)
Lemma image_strings cstrs max mem0 ptr : Forall (Forall (fun b => b <> 0)) cstrs -> cstrs_layout_sz cstrs <= max -> max <= ENV_VARS_MAX_SIZE -> lies mem0 ptr (layout cstrs) ->
  read_cstr_array mem0 (Z.to_nat ENV_VARS_MAX_SIZE) ptr = Some cstrs.
Proof.
  intros Hz Hfit Hmax Hl. pose proof (layout_fits cstrs) as Hf. pose proof (layout_short cstrs) as [H1 H2]. change ENV_VARS_MAX_SIZE with 12288 in *.
  apply read_layout; [lia|done| |done]. apply Forall_forall. intros a Ha. specialize (H2 a Ha). lia.
Qed.

(** C22. Arguments and environment reach the program: after [execve] the registers a0 and a1 in the trapframe
    point to memory from which a program that counts and reads strings, as the library of the programs does,
    gets exactly the arguments and exactly the environment; the stack pointer is below both, and the program
    counter is the entry point of the file. *)
Theorem execve_strings_roundtrip k U id p args env sys old sys' : system_ok k U sys -> vms sys !! id = Some old -> call_ok (CExec id p args env) ->
  Forall (Forall (fun b => b <> 0)) args -> Forall (Forall (fun b => b <> 0)) env -> run_call k (CExec id p args env) sys = Some (true, sys') ->
  exists v tf a0 a1, vms sys' !! id = Some v /\ view (mem sys') (pg_table v) trap_page = Some (Z.lor with_rw PERM_VALID, tf) /\
    field (8 * 11) 8 tf = a0 /\ field (8 * 12) 8 tf = a1 /\ field (8 * 1) 8 tf = a1 /\ a1 < a0 < USER_BASE_VADDR + user_space_size v /\ field (8 * 34) 8 tf = e_entry (elf_header (content p)) /\
    read_cstr_array (user_byte (mem sys') (pg_table v)) (Z.to_nat ENV_VARS_MAX_SIZE) a0 = Some args /\
    read_cstr_array (user_byte (mem sys') (pg_table v)) (Z.to_nat ENV_VARS_MAX_SIZE) a1 = Some env.
Proof.
  intros Hs Hid Hc Hza Hze Hrun. destruct (exec_run k U id p args env sys old sys' Hs Hid Hc Hrun) as (v & Hv & [_ _ _ Hsz _ Hfit (ap & ep & tf & Eap & Eep & La & Le & Etf & Hp)]).
  pose proof (layout_fits args) as Fa. pose proof (layout_fits env) as Fe. pose proof (layout_short args) as [Sa _]. pose proof (layout_short env) as [Se _].
  change USER_ARGUMENTS_MAX_SIZE with 4096 in Hfit. change ENV_VARS_MAX_SIZE with 12288 in Hfit. unfold stack_top, USER_BASE_VADDR in Eap.
  assert (Hentry : 0 <= e_entry (elf_header (content p)) < 256 ^ 8) by (apply field_range; [apply sub_Forall; apply Hc|lia]).
  assert (Htl : length tf = 35%nat) by (by rewrite Etf). assert (Hb : 0 <= ep < ap /\ ap < 2 ^ 63) by lia.
  exists v, (splice 0 (trapframe_bytes tf) zero_page), ap, ep. split; [done|]. split; [done|].
  split; [apply (trap_register tf 11 ap Htl); [by rewrite Etf|lia]|]. split; [apply (trap_register tf 12 ep Htl); [by rewrite Etf|lia]|].
  split; [apply (trap_register tf 1 ep Htl); [by rewrite Etf|lia]|]. split; [rewrite Hsz; unfold USER_BASE_VADDR; lia|].
  split; [apply (trap_register tf 34 _ Htl); [by rewrite Etf|lia]|].
  split; [apply (image_strings args 4096 _ ap Hza)|apply (image_strings env 12288 _ ep Hze)]; done || lia.
Qed.

(** C23. The program is loaded: after [execve], for every loadable segment of the file, the bytes of the file
    stand at the virtual address of the segment, zeros follow up to the end of its last page, and the pages
    have the permissions of the segment, for user mode. *)
Theorem execve_loads_segments k U id p args env sys old sys' : system_ok k U sys -> vms sys !! id = Some old -> call_ok (CExec id p args env) ->
  run_call k (CExec id p args env) sys = Some (true, sys') ->
  exists v, vms sys' !! id = Some v /\ forall i, 0 <= i < e_phnum (elf_header (content p)) -> p_typ (phdr_at (content p) i) = PT_LOAD ->
    segment_loaded (content p) (pg_table v) (mem sys') (phdr_at (content p) i).
Proof.
  intros Hs Hid Hc Hrun. destruct (exec_run k U id p args env sys old sys' Hs Hid Hc Hrun) as (v & Hv & Him). exists v. split; [done|].
  intros i Hi Htyp. by apply (im_segs _ _ _ _ _ Him i Hi Htyp).
Qed.
End theorems.

(** ** Runs *)

Lemma reached_ok cs bs : Forall call_ok cs -> fst <$> run_calls kernel_root cs start = Some bs -> Forall (eq true) bs ->
  exists U, system_ok kernel_root U (reached cs) /\ all_tight (reached cs).
Proof.
  intros Hc Hbs Hall. destruct (calls_done kernel_root start_pages cs start start_ok Hc) as (bs' & sys' & U' & Hrun & Hs & _ & _ & Ht).
  rewrite (reached_run cs bs Hbs) in Hrun. injection Hrun as <- <-. exists U'. split; [done|]. apply Ht; [done|]. by intros id v Hv.
Qed.

(** The result of one more call. *)
Lemma next_run c cs : fst <$> run_call kernel_root c (reached cs) = Some true -> exists sys', run_call kernel_root c (reached cs) = Some (true, sys').
Proof. destruct (run_call kernel_root c (reached cs)) as [[b sys]|]; [|done]. intros [= ->]. by exists sys. Qed.

Lemma vm_calls_safe_witness : Forall call_ok demo_calls /\
  exists bs sys', run_calls kernel_root demo_calls start = Some (bs, sys') /\ same_task 7 start sys'.
Proof.
  split; [apply demo_calls_ok|]. destruct (vm_calls_safe kernel_root start_pages demo_calls start start_ok demo_calls_ok) as (bs & sys' & U' & Hrun & _ & _ & Hsame).
  exists bs, sys'. split; [exact Hrun|]. apply Hsame. clear. intros c Hc. unfold demo_calls in Hc. repeat (apply elem_of_cons in Hc as [->|Hc]; [done|]). by apply elem_of_nil in Hc.
Defined.

Lemma vm_pages_accounted_witness : fst <$> run_calls kernel_root demo_calls start = Some [true; true; true; true; true; true] /\
  forall id n id' n' q, owns (reached demo_calls) id n q -> owns (reached demo_calls) id' n' q -> id = id' /\ n = n'.
Proof.
  split; [apply demo_results|]. destruct (vm_pages_accounted kernel_root start_pages demo_calls start _ (reached demo_calls) start_ok ltac:(by intros id v Hv) demo_calls_ok (reached_run _ _ demo_results)) as (V & _ & _ & _ & _ & Hinj).
  - by repeat constructor.
  - exact Hinj.
Defined.

Definition fork_calls : list Call := [CNew 0; CBrk 0 (USER_BASE_VADDR + 10000); CFault 0 (USER_BASE_VADDR + 5000)].

Lemma fork_calls_ok : Forall call_ok fork_calls.
Proof. pose proof demo_calls_ok as Hd. unfold demo_calls in Hd. by apply (Forall_take _ 3%nat) in Hd. Qed.

Lemma fork_calls_results : fst <$> run_calls kernel_root fork_calls start = Some [true; true; true].
Proof. vm_compute. reflexivity. Qed.

Lemma fork_copies_memory_witness : exists u sys' v, vms (reached fork_calls) !! 0%nat = Some u /\ run_call kernel_root (CFork 0 1) (reached fork_calls) = Some (true, sys') /\ vms sys' !! 1%nat = Some v /\
  forall n, user n -> n <> trap_page -> view (mem sys') (pg_table v) n = view (mem (reached fork_calls)) (pg_table u) n.
Proof.
  destruct (reached_ok fork_calls _ fork_calls_ok fork_calls_results ltac:(by repeat constructor)) as (U & Hs & Ht).
  destruct (vms (reached fork_calls) !! 0%nat) as [u|] eqn:Hu; [|by vm_compute in Hu].
  destruct (next_run (CFork 0 1) fork_calls) as [sys' Hrun]; [by vm_compute|].
  destruct (fork_copies_memory kernel_root U 0 1 (reached fork_calls) u sys' Hs Hu ltac:(by vm_compute) (Ht 0%nat u Hu) Hrun) as (v & Hv & _ & _ & _ & Hview & _).
  exists u, sys', v. split; [reflexivity|]. split; [exact Hrun|]. split; [exact Hv|exact Hview].
Defined.

Lemma hello_strings : Forall (Forall (fun b => b <> 0)) hello /\ Forall (Forall (fun b => b <> 0)) vars.
Proof. split; repeat (constructor; [repeat constructor; lia|]); constructor. Qed.

Lemma execve_strings_roundtrip_witness : exists sys' v a0, run_call kernel_root (CExec 0 demo hello vars) (reached fork_calls) = Some (true, sys') /\ vms sys' !! 0%nat = Some v /\
  read_cstr_array (user_byte (mem sys') (pg_table v)) (Z.to_nat ENV_VARS_MAX_SIZE) a0 = Some hello.
Proof.
  destruct (reached_ok fork_calls _ fork_calls_ok fork_calls_results ltac:(by repeat constructor)) as (U & Hs & Ht).
  destruct (vms (reached fork_calls) !! 0%nat) as [u|] eqn:Hu; [|by vm_compute in Hu]. destruct hello_strings as [Hh Hv].
  destruct (next_run (CExec 0 demo hello vars) fork_calls) as [sys' Hrun]; [by vm_compute|].
  destruct (execve_strings_roundtrip kernel_root U 0 demo hello vars (reached fork_calls) u sys' Hs Hu (demo_ok 0 hello vars) Hh Hv Hrun) as (v & tf & a0 & a1 & Hv' & _ & _ & _ & _ & _ & _ & Ha & _).
  exists sys', v, a0. split; [exact Hrun|]. split; [exact Hv'|exact Ha].
Defined.

Lemma execve_loads_segments_witness : exists sys' v, run_call kernel_root (CExec 0 demo hello vars) (reached fork_calls) = Some (true, sys') /\ vms sys' !! 0%nat = Some v /\
  segment_loaded demo_file (pg_table v) (mem sys') (phdr_at demo_file 0).
Proof.
  destruct (reached_ok fork_calls _ fork_calls_ok fork_calls_results ltac:(by repeat constructor)) as (U & Hs & Ht).
  destruct (vms (reached fork_calls) !! 0%nat) as [u|] eqn:Hu; [|by vm_compute in Hu].
  destruct (next_run (CExec 0 demo hello vars) fork_calls) as [sys' Hrun]; [by vm_compute|].
  destruct (execve_loads_segments kernel_root U 0 demo hello vars (reached fork_calls) u sys' Hs Hu (demo_ok 0 hello vars) Hrun) as (v & Hv & Hseg).
  exists sys', v. split; [exact Hrun|]. split; [exact Hv|]. apply (Hseg 0); clear; by vm_compute.
Defined.

(** ** Where the code falls short *)

(** What a task has at an address. *)
Definition has_page (sys : System (list Z)) (id : nat) (addr : Z) : bool :=
  match vms sys !! id with Some v => bool_decide (view (mem sys) (pg_table v) (addr / 4096) <> None) | None => false end.

(** A break at a multiple of 2 MB: a task moves its break to 2 MB, uses the last page below it and forks;
    all calls succeed, and the child does not have the page, because the iterator over the entries of a range
    leaves out the last table of a range that ends with it. *)
Theorem fork_loses_pages : let calls := [CNew 0; CBrk 0 (USER_BASE_VADDR + 0x200000); CFault 0 (USER_BASE_VADDR + 0x1FF000); CFork 0 1] in
  fst <$> run_calls kernel_root calls start = Some [true; true; true; true] /\
  has_page (reached calls) 0 (USER_BASE_VADDR + 0x1FF000) = true /\ has_page (reached calls) 1 (USER_BASE_VADDR + 0x1FF000) = false.
Proof. vm_compute. done. Qed.

(** A break moved within a page: [brk] accepts the new break without noting it, so the task has not got
    the memory: a first access between the old and the new break is not served. *)
Theorem brk_within_page : let calls := [CNew 0; CBrk 0 (USER_BASE_VADDR + 100); CBrk 0 (USER_BASE_VADDR + 3000)] in
  fst <$> run_calls kernel_root calls start = Some [true; true; true] /\
  (user_space_size <$> vms (reached calls) !! 0%nat) = Some 100 /\
  fst <$> run_call kernel_root (CFault 0 (USER_BASE_VADDR + 2000)) (reached calls) = Some false.
Proof. vm_compute. done. Qed.
