(* ===== verification/Pipe.v ===== *)
(** * Pipes (src/kernel/src/pipe.rs, src/kernel/src/sync/wait.rs)

    Tasks run [read], [write] and [close] on one pipe at the same time.  A
    task is a program counter with the locals of the call; [step] runs a task
    to its next synchronisation point: a lock, the check of a flag, falling
    asleep.  A step is [None] while the task waits for a lock, sleeps or is
    done, so a schedule is a list of task numbers.  Signals from outside
    ([Kill]) are steps as well. *)

From S2P Require Import Prelude Vfs.

#[local] Open Scope nat_scope.

(** ** State *)

(** The data of [WaitQueueLock]: the spinlock's owner and the queue. *)
Record WaitQueueLock : Type := mkQueue { q_holder : option nat; q_tasks : list nat }.
Definition WaitQueueLock_new : WaitQueueLock := mkQueue None [].

(** What a call still has to transfer: the length of the buffer of a [read],
    the bytes of a [write]. *)
Inductive io : Type :=
| Reading (want : nat)
| Writing (rest : list Z).

Definition is_reading (o : io) : bool := match o with Reading _ => true | Writing _ => false end.
Definition io_len (o : io) : nat := match o with Reading want => want | Writing rest => length rest end.
(** [buf = &buf[n..]] *)
Definition io_drop (n : nat) (o : io) : io := match o with Reading want => Reading (want - n) | Writing rest => Writing (drop n rest) end.

Definition result : Type := nat + Vfs.Sys.SysErrorKind.

(** [acc] are the bytes that the call transferred so far, [len] their number;
    [n] the bytes of the current turn; [cur] the task that [signal_all] took
    from the queue. *)
Inductive pc : Type :=
| Call (is_read_end : bool) (o : io)
| LockBuffer (o : io) (acc : list Z)
| Transfer (o : io) (acc : list Z)
| LockOther (o : io) (acc : list Z) (n : nat)
| WakeOther (o : io) (acc : list Z) (n : nat) (cur : option nat)
| CheckDone (o : io) (acc : list Z) (n : nat)
| LockOwn (o : io) (acc : list Z)
| CheckClosed (o : io) (acc : list Z)
| GoToSleep (o : io) (acc : list Z)
| Asleep (o : io) (acc : list Z)
| Runnable (o : io) (acc : list Z)
| LockRetain (o : io) (acc : list Z)
| Close
| LockClose (rd : bool)
| WakeClose (rd : bool) (cur : option nat)
| Done (r : result) (acc : list Z).

(** [PipeRwEnd] and [PipeState], and the tasks with their pending signals. *)
Record Pipe : Type := mkPipe {
  buffer : list Z;
  capacity : nat;
  b_holder : option nat;
  is_closed : bool;
  r_wq : WaitQueueLock;
  w_wq : WaitQueueLock;
  tasks : list pc;
  signals : list bool
}.

Definition with_buffer_size (size : nat) (calls : list pc) : Pipe :=
  mkPipe [] size None false WaitQueueLock_new WaitQueueLock_new calls (replicate (length calls) false).
Notation PIPE_BUFFER_LEN := 4096.

(** ** Updates *)

Definition goto (i : nat) (p : pc) (s : Pipe) : Pipe :=
  mkPipe (buffer s) (capacity s) (b_holder s) (is_closed s) (r_wq s) (w_wq s) (<[i := p]> (tasks s)) (signals s).
Definition set_buffer (b : list Z) (s : Pipe) : Pipe :=
  mkPipe b (capacity s) (b_holder s) (is_closed s) (r_wq s) (w_wq s) (tasks s) (signals s).
Definition set_b_holder (h : option nat) (s : Pipe) : Pipe :=
  mkPipe (buffer s) (capacity s) h (is_closed s) (r_wq s) (w_wq s) (tasks s) (signals s).
Definition set_closed (s : Pipe) : Pipe :=
  mkPipe (buffer s) (capacity s) (b_holder s) true (r_wq s) (w_wq s) (tasks s) (signals s).

(** The queue of the readers ([true]) or of the writers. *)
Definition wq (rd : bool) (s : Pipe) : WaitQueueLock := if rd then r_wq s else w_wq s.
Definition set_wq (rd : bool) (q : WaitQueueLock) (s : Pipe) : Pipe :=
  if rd then mkPipe (buffer s) (capacity s) (b_holder s) (is_closed s) q (w_wq s) (tasks s) (signals s)
  else mkPipe (buffer s) (capacity s) (b_holder s) (is_closed s) (r_wq s) q (tasks s) (signals s).

(** ** Locks and wait queues *)

Definition lock_wq (i : nat) (rd : bool) (s : Pipe) : option Pipe :=
  match q_holder (wq rd s) with
  | None => Some (set_wq rd (mkQueue (Some i) (q_tasks (wq rd s))) s)
  | Some _ => None
  end.
Definition unlock_wq (rd : bool) (s : Pipe) : Pipe := set_wq rd (mkQueue None (q_tasks (wq rd s))) s.

(** [interruptible_wait] keeps the lock of its task while it waits for the
    lock of the queue. *)
Definition task_locked (p : pc) : bool := match p with LockRetain _ _ => true | _ => false end.

(** [WaitQueueGuard::wakeup] *)
Definition wake (p : pc) : pc := match p with Asleep o acc => Runnable o acc | _ => p end.

(** A turn of [signal_all] of task [i], which holds the queue: pop a task, or
    wake the task [t] that was popped, or return. *)
Definition signal_all_pop (rd : bool) (s : Pipe) : option nat * Pipe :=
  match q_tasks (wq rd s) with
  | t :: q => (Some t, set_wq rd (mkQueue (q_holder (wq rd s)) q) s)
  | [] => (None, unlock_wq rd s)
  end.
Definition signal_all_wake (t : nat) (s : Pipe) : option Pipe :=
  match tasks s !! t with
  | Some p => if task_locked p then None else Some (goto t (wake p) s)
  | None => Some s
  end.

(** ** [read] and [write] *)

(** [drain_vecdeque_to_slice] for a destination of [want] bytes. *)
Definition drain_vecdeque_to_slice (src : list Z) (want : nat) : list Z * list Z :=
  let to_copy := Nat.min (length src) want in
  (take to_copy src, drop to_copy src).

(** The bytes a turn of the loop transfers, and the buffer after it. *)
Definition transfer (o : io) (b : list Z) (cap : nat) : list Z * list Z :=
  match o with
  | Reading want => drain_vecdeque_to_slice b want
  | Writing rest => let bytes_write := Nat.min (length rest) (cap - length b) in (take bytes_write rest, b ++ take bytes_write rest)
  end.

(** The body of [SharedPipe::read] and [SharedPipe::write], which differ in
    the transfer and in the roles of the queues. *)
Definition io_step (i : nat) (p : pc) (s : Pipe) : option Pipe :=
  match p with
  | Call is_read_end o =>
    Some (goto i (if Bool.eqb (is_reading o) is_read_end then LockBuffer o [] else Done (inr Vfs.Sys.Pipe) []) s)
  | LockBuffer o acc =>
    match b_holder s with None => Some (goto i (Transfer o acc) (set_b_holder (Some i) s)) | Some _ => None end
  | Transfer o acc =>
    let (moved, b) := transfer o (buffer s) (capacity s) in
    let n := length moved in
    let acc := acc ++ moved in
    Some (goto i (if n =? 0 then CheckDone o acc n else LockOther o acc n) (set_buffer b s))
  | LockOther o acc n => goto i (WakeOther o acc n None) <$> lock_wq i (negb (is_reading o)) s
  | WakeOther o acc n (Some t) => goto i (WakeOther o acc n None) <$> signal_all_wake t s
  | WakeOther o acc n None =>
    let (cur, s) := signal_all_pop (negb (is_reading o)) s in
    Some (goto i (match cur with Some t => WakeOther o acc n (Some t) | None => CheckDone o acc n end) s)
  | CheckDone o acc n =>
    if (n =? io_len o) || is_closed s then Some (goto i (Done (inl (length acc)) acc) (set_b_holder None s))
    else Some (goto i (LockOwn (io_drop n o) acc) s)
  | LockOwn o acc => goto i (CheckClosed o acc) <$> lock_wq i (is_reading o) s
  | CheckClosed o acc =>
    if is_closed s then Some (goto i (Done (inl (length acc)) acc) (unlock_wq (is_reading o) (set_b_holder None s)))
    else Some (goto i (GoToSleep o acc) (set_b_holder None s))
  | GoToSleep o acc =>
    let q := wq (is_reading o) s in
    Some (goto i (Asleep o acc) (set_wq (is_reading o) (mkQueue None (q_tasks q ++ [i])) s))
  | Runnable o acc =>
    Some (goto i (if default false (signals s !! i) then LockRetain o acc else LockBuffer o acc) s)
  | LockRetain o acc =>
    match q_holder (wq (is_reading o) s) with
    | None => Some (goto i (Done (inr Vfs.Sys.Interrupted) acc)
        (set_wq (is_reading o) (mkQueue None (filter (fun t => t <> i) (q_tasks (wq (is_reading o) s)))) s))
    | Some _ => None
    end
  | _ => None
  end.

(** [PipeState::close] *)
Definition close_step (i : nat) (p : pc) (s : Pipe) : option Pipe :=
  match p with
  | Close => Some (if is_closed s then goto i (Done (inl 0) []) s else goto i (LockClose true) (set_closed s))
  | LockClose rd => goto i (WakeClose rd None) <$> lock_wq i rd s
  | WakeClose rd (Some t) => goto i (WakeClose rd None) <$> signal_all_wake t s
  | WakeClose rd None =>
    let (cur, s) := signal_all_pop rd s in
    Some (goto i (match cur with Some t => WakeClose rd (Some t) | None => if rd then LockClose false else Done (inl 0) [] end) s)
  | _ => None
  end.

Definition is_close (p : pc) : bool := match p with Close | LockClose _ | WakeClose _ _ => true | _ => false end.

Definition step (i : nat) (s : Pipe) : option Pipe :=
  match tasks s !! i with
  | Some p => if is_close p then close_step i p s else io_step i p s
  | None => None
  end.

(** A signal for task [i]: it is pending, and the task wakes up if it sleeps
    ([wakeup_if_interruptible]). *)
Definition kill (i : nat) (s : Pipe) : Pipe :=
  mkPipe (buffer s) (capacity s) (b_holder s) (is_closed s) (r_wq s) (w_wq s) (alter wake i (tasks s)) (<[i := true]> (signals s)).

(** ** Runs *)

Inductive label : Type := Run (i : nat) | Kill (i : nat).

Definition fire (l : label) (s : Pipe) : option Pipe :=
  match l with Run i => step i s | Kill i => Some (kill i s) end.

Fixpoint exec (ls : list label) (s : Pipe) : option Pipe :=
  match ls with
  | [] => Some s
  | l :: ls => match fire l s with Some s' => exec ls s' | None => None end
  end.

(** The bytes that a step transfers: into the pipe for a writer, out of it
    for a reader. *)
Definition moves (rd : bool) (l : label) (s : Pipe) : list Z :=
  match l with
  | Run i => match tasks s !! i with
             | Some (Transfer o _) => if Bool.eqb (is_reading o) rd then (transfer o (buffer s) (capacity s)).1 else []
             | _ => []
             end
  | Kill _ => []
  end.

Fixpoint moved (rd : bool) (ls : list label) (s : Pipe) : list Z :=
  match ls with
  | [] => []
  | l :: ls => match fire l s with Some s' => moves rd l s ++ moved rd ls s' | None => [] end
  end.
