(* ===== verification/PipeSpec.v ===== *)
(** * Invariants of pipes

    The locks have one owner, the buffer is a queue of bytes within its
    capacity, a call accounts for its bytes, and a task that sleeps has
    nothing to do or somebody is about to wake it. *)

From S2P Require Import Prelude Vfs Pipe.

#[local] Open Scope nat_scope.

(** ** Reading the state after an update *)

Create HintDb pipe discriminated.

Lemma tasks_goto i p s : tasks (goto i p s) = <[i := p]> (tasks s).
Proof. done. Qed.
Lemma tasks_set_wq rd q s : tasks (set_wq rd q s) = tasks s.
Proof. by destruct rd. Qed.
Lemma buffer_set_wq rd q s : buffer (set_wq rd q s) = buffer s.
Proof. by destruct rd. Qed.
Lemma capacity_set_wq rd q s : capacity (set_wq rd q s) = capacity s.
Proof. by destruct rd. Qed.
Lemma b_holder_set_wq rd q s : b_holder (set_wq rd q s) = b_holder s.
Proof. by destruct rd. Qed.
Lemma is_closed_set_wq rd q s : is_closed (set_wq rd q s) = is_closed s.
Proof. by destruct rd. Qed.
Lemma signals_set_wq rd q s : signals (set_wq rd q s) = signals s.
Proof. by destruct rd. Qed.
Lemma wq_set_wq rd rd' q s : wq rd' (set_wq rd q s) = if Bool.eqb rd rd' then q else wq rd' s.
Proof. by destruct rd, rd'. Qed.
Lemma wq_goto rd i p s : wq rd (goto i p s) = wq rd s.
Proof. done. Qed.
Lemma wq_set_b_holder rd h s : wq rd (set_b_holder h s) = wq rd s.
Proof. done. Qed.
Lemma wq_set_buffer rd b s : wq rd (set_buffer b s) = wq rd s.
Proof. done. Qed.
Lemma wq_set_closed rd s : wq rd (set_closed s) = wq rd s.
Proof. done. Qed.

#[global] Hint Rewrite tasks_goto tasks_set_wq buffer_set_wq capacity_set_wq b_holder_set_wq is_closed_set_wq signals_set_wq wq_set_wq
  wq_goto wq_set_b_holder wq_set_buffer wq_set_closed : pipe.

(** The tasks after a step: the stepping task, perhaps a task that it woke,
    and the rest. *)
Lemma signal_all_wake_Some t s s' : signal_all_wake t s = Some s' ->
  s' = s /\ tasks s !! t = None \/ exists p, tasks s !! t = Some p /\ task_locked p = false /\ s' = goto t (wake p) s.
Proof.
  unfold signal_all_wake. destruct (tasks s !! t) as [p|]; [|intros [= <-]; by left]. destruct (task_locked p) eqn:Hl; [done|]. intros [= <-]. right. by exists p.
Qed.

Lemma lock_wq_Some i rd s s' : lock_wq i rd s = Some s' -> q_holder (wq rd s) = None /\ s' = set_wq rd (mkQueue (Some i) (q_tasks (wq rd s))) s.
Proof. unfold lock_wq. destruct (q_holder _); [done|]. by intros [= <-]. Qed.

(** The shapes of a step, with the program counters before and after. *)
Inductive shape (i : nat) (s : Pipe) : pc -> Pipe -> Prop :=
| sh_call e o : shape i s (Call e o) (goto i (if Bool.eqb (is_reading o) e then LockBuffer o [] else Done (inr Vfs.Sys.Pipe) []) s)
| sh_lock o acc : b_holder s = None -> shape i s (LockBuffer o acc) (goto i (Transfer o acc) (set_b_holder (Some i) s))
| sh_move o acc m b : transfer o (buffer s) (capacity s) = (m, b) ->
    shape i s (Transfer o acc) (goto i (if length m =? 0 then CheckDone o (acc ++ m) (length m) else LockOther o (acc ++ m) (length m)) (set_buffer b s))
| sh_lock_other o acc n : q_holder (wq (negb (is_reading o)) s) = None ->
    shape i s (LockOther o acc n) (goto i (WakeOther o acc n None) (set_wq (negb (is_reading o)) (mkQueue (Some i) (q_tasks (wq (negb (is_reading o)) s))) s))
| sh_wake_gone o acc n t : tasks s !! t = None -> shape i s (WakeOther o acc n (Some t)) (goto i (WakeOther o acc n None) s)
| sh_wake o acc n t p : tasks s !! t = Some p -> task_locked p = false ->
    shape i s (WakeOther o acc n (Some t)) (goto i (WakeOther o acc n None) (goto t (wake p) s))
| sh_pop o acc n t q : q_tasks (wq (negb (is_reading o)) s) = t :: q ->
    shape i s (WakeOther o acc n None) (goto i (WakeOther o acc n (Some t)) (set_wq (negb (is_reading o)) (mkQueue (q_holder (wq (negb (is_reading o)) s)) q) s))
| sh_empty o acc n : q_tasks (wq (negb (is_reading o)) s) = [] ->
    shape i s (WakeOther o acc n None) (goto i (CheckDone o acc n) (set_wq (negb (is_reading o)) (mkQueue None []) s))
| sh_done o acc n : n = io_len o \/ is_closed s = true -> shape i s (CheckDone o acc n) (goto i (Done (inl (length acc)) acc) (set_b_holder None s))
| sh_more o acc n : n <> io_len o -> is_closed s = false -> shape i s (CheckDone o acc n) (goto i (LockOwn (io_drop n o) acc) s)
| sh_lock_own o acc : q_holder (wq (is_reading o) s) = None ->
    shape i s (LockOwn o acc) (goto i (CheckClosed o acc) (set_wq (is_reading o) (mkQueue (Some i) (q_tasks (wq (is_reading o) s))) s))
| sh_closed o acc : is_closed s = true ->
    shape i s (CheckClosed o acc) (goto i (Done (inl (length acc)) acc) (set_wq (is_reading o) (mkQueue None (q_tasks (wq (is_reading o) s))) (set_b_holder None s)))
| sh_open o acc : is_closed s = false -> shape i s (CheckClosed o acc) (goto i (GoToSleep o acc) (set_b_holder None s))
| sh_sleep o acc : shape i s (GoToSleep o acc) (goto i (Asleep o acc) (set_wq (is_reading o) (mkQueue None (q_tasks (wq (is_reading o) s) ++ [i])) s))
| sh_resume o acc : shape i s (Runnable o acc) (goto i (if default false (signals s !! i) then LockRetain o acc else LockBuffer o acc) s)
| sh_retain o acc : q_holder (wq (is_reading o) s) = None ->
    shape i s (LockRetain o acc) (goto i (Done (inr Vfs.Sys.Interrupted) acc)
      (set_wq (is_reading o) (mkQueue None (filter (fun t => t <> i) (q_tasks (wq (is_reading o) s)))) s))
| sh_close_again : is_closed s = true -> shape i s Close (goto i (Done (inl 0) []) s)
| sh_close : is_closed s = false -> shape i s Close (goto i (LockClose true) (set_closed s))
| sh_lock_close rd : q_holder (wq rd s) = None -> shape i s (LockClose rd) (goto i (WakeClose rd None) (set_wq rd (mkQueue (Some i) (q_tasks (wq rd s))) s))
| sh_cwake_gone rd t : tasks s !! t = None -> shape i s (WakeClose rd (Some t)) (goto i (WakeClose rd None) s)
| sh_cwake rd t p : tasks s !! t = Some p -> task_locked p = false -> shape i s (WakeClose rd (Some t)) (goto i (WakeClose rd None) (goto t (wake p) s))
| sh_cpop rd t q : q_tasks (wq rd s) = t :: q ->
    shape i s (WakeClose rd None) (goto i (WakeClose rd (Some t)) (set_wq rd (mkQueue (q_holder (wq rd s)) q) s))
| sh_cempty rd : q_tasks (wq rd s) = [] ->
    shape i s (WakeClose rd None) (goto i (if rd then LockClose false else Done (inl 0) []) (set_wq rd (mkQueue None []) s)).

Lemma step_shape i s s' : step i s = Some s' -> exists p, tasks s !! i = Some p /\ shape i s p s'.
Proof.
  unfold step. destruct (tasks s !! i) as [p|] eqn:Hp; [|done]. intros Hs. exists p. split; [done|].
  destruct p as [e o|o acc|o acc|o acc n|o acc n [t|]|o acc n|o acc|o acc|o acc|o acc|o acc|o acc| |rd|rd [t|]|r acc]; cbn [is_close io_step close_step] in Hs.
  - injection Hs as <-. constructor.
  - destruct (b_holder s) eqn:Hb; [done|]. injection Hs as <-. by constructor.
  - destruct (transfer o (buffer s) (capacity s)) as [m b] eqn:Ht. injection Hs as <-. by constructor.
  - apply fmap_Some in Hs as (s1 & Hl & ->). apply lock_wq_Some in Hl as [Hh ->]. by constructor.
  - apply fmap_Some in Hs as (s1 & Hl & ->). apply signal_all_wake_Some in Hl as [[-> Ht]|(p & Ht & Hl & ->)]; [by constructor|by constructor].
  - unfold signal_all_pop, unlock_wq in Hs. destruct (q_tasks (wq (negb (is_reading o)) s)) as [|t q] eqn:Hq; injection Hs as <-; by constructor.
  - destruct ((n =? io_len o) || is_closed s) eqn:Hc; injection Hs as <-; constructor.
    + apply orb_true_iff in Hc. rewrite Nat.eqb_eq in Hc. done.
    + apply orb_false_iff in Hc as [Hc _]. by apply Nat.eqb_neq.
    + by apply orb_false_iff in Hc as [_ Hc].
  - apply fmap_Some in Hs as (s1 & Hl & ->). apply lock_wq_Some in Hl as [Hh ->]. by constructor.
  - destruct (is_closed s) eqn:Hc; injection Hs as <-; [|by constructor]. unfold unlock_wq. rewrite wq_set_b_holder. by constructor.
  - injection Hs as <-. constructor.
  - done.
  - injection Hs as <-. constructor.
  - destruct (q_holder _) eqn:Hh; [done|]. injection Hs as <-. by constructor.
  - destruct (is_closed s) eqn:Hc; injection Hs as <-; by constructor.
  - apply fmap_Some in Hs as (s1 & Hl & ->). apply lock_wq_Some in Hl as [Hh ->]. by constructor.
  - apply fmap_Some in Hs as (s1 & Hl & ->). apply signal_all_wake_Some in Hl as [[-> Ht]|(p & Ht & Hl & ->)]; [by constructor|by constructor].
  - unfold signal_all_pop, unlock_wq in Hs. destruct (q_tasks (wq rd s)) as [|t q] eqn:Hq; injection Hs as <-; by constructor.
  - done.
Qed.

(** ** Owners of the locks *)

Definition holds_b (p : pc) : bool :=
  match p with Transfer _ _ | LockOther _ _ _ | WakeOther _ _ _ _ | CheckDone _ _ _ | LockOwn _ _ | CheckClosed _ _ => true | _ => false end.

Definition holds_q (rd : bool) (p : pc) : bool :=
  match p with
  | WakeOther o _ _ _ => Bool.eqb (negb (is_reading o)) rd
  | CheckClosed o _ | GoToSleep o _ => Bool.eqb (is_reading o) rd
  | WakeClose rd' _ => Bool.eqb rd' rd
  | _ => false
  end.

(** What holds of the program counter of a task. *)
Definition at_task (s : Pipe) (i : nat) (f : pc -> bool) : bool := match tasks s !! i with Some p => f p | None => false end.

Record locks_ok (s : Pipe) : Prop := {
  lk_b i : b_holder s = Some i <-> at_task s i holds_b = true;
  lk_q rd i : q_holder (wq rd s) = Some i <-> at_task s i (holds_q rd) = true
}.

Lemma at_task_goto s i p q j f : tasks s !! i = Some q -> at_task (goto i p s) j f = if decide (j = i) then f p else at_task s j f.
Proof.
  intros Hi. unfold at_task. rewrite tasks_goto. destruct (decide (j = i)) as [->|Hne].
  - rewrite list_lookup_insert_eq; [done|]. by eapply lookup_lt_Some.
  - by rewrite list_lookup_insert_ne.
Qed.

Lemma at_task_eq s s' i f : tasks s = tasks s' -> at_task s i f = at_task s' i f.
Proof. unfold at_task. by intros ->. Qed.

Lemma holds_b_wake p : holds_b (wake p) = holds_b p.
Proof. by destruct p. Qed.
Lemma holds_q_wake rd p : holds_q rd (wake p) = holds_q rd p.
Proof. by destruct p. Qed.

(** A task that wakes up holds no lock. *)
Lemma locks_ok_wake s t p : tasks s !! t = Some p -> locks_ok s -> locks_ok (goto t (wake p) s).
Proof.
  intros Ht [Hb Hq]. split.
  - intros i. rewrite (at_task_goto s t _ p) by done. destruct (decide (i = t)) as [->|]; [|apply Hb].
    rewrite holds_b_wake, (Hb t). unfold at_task. by rewrite Ht.
  - intros rd i. rewrite wq_goto, (at_task_goto s t _ p) by done. destruct (decide (i = t)) as [->|]; [|apply Hq].
    rewrite holds_q_wake, (Hq rd t). unfold at_task. by rewrite Ht.
Qed.

(** A step of task [i] that goes from [p] to [p'] and passes the locks on
    accordingly. *)
Lemma locks_ok_goto s s1 i p p' : locks_ok s -> tasks s !! i = Some p -> tasks s1 = tasks s ->
  (if holds_b p then b_holder s1 = if holds_b p' then Some i else None
   else if holds_b p' then b_holder s = None /\ b_holder s1 = Some i else b_holder s1 = b_holder s) ->
  (forall rd, if holds_q rd p then q_holder (wq rd s1) = if holds_q rd p' then Some i else None
   else if holds_q rd p' then q_holder (wq rd s) = None /\ q_holder (wq rd s1) = Some i else q_holder (wq rd s1) = q_holder (wq rd s)) ->
  locks_ok (goto i p' s1).
Proof.
  intros [Hb Hq] Hi Ht Hb1 Hq1. assert (Hi1 : tasks s1 !! i = Some p) by (by rewrite Ht).
  assert (Hself : forall f, at_task s i f = f p) by (intros f; unfold at_task; by rewrite Hi).
  split.
  - intros j. rewrite (at_task_goto s1 i p' p j) by done. change (b_holder (goto i p' s1)) with (b_holder s1). rewrite (at_task_eq s1 s) by done.
    pose proof (Hb i) as Hbi. rewrite Hself in Hbi. pose proof (Hb j) as Hbj. destruct (decide (j = i)) as [->|Hne].
    + destruct (holds_b p), (holds_b p'); naive_solver congruence.
    + destruct (holds_b p), (holds_b p'); naive_solver congruence.
  - intros rd j. rewrite (at_task_goto s1 i p' p j), wq_goto by done. rewrite (at_task_eq s1 s) by done.
    pose proof (Hq rd i) as Hqi. rewrite Hself in Hqi. pose proof (Hq rd j) as Hqj. specialize (Hq1 rd). destruct (decide (j = i)) as [->|Hne].
    + destruct (holds_q rd p), (holds_q rd p'); naive_solver congruence.
    + destruct (holds_q rd p), (holds_q rd p'); naive_solver congruence.
Qed.

Lemma wake_other_task s t q i p : tasks s !! t = Some q -> tasks s !! i = Some p -> wake p = p -> tasks (goto t (wake q) s) !! i = Some p.
Proof.
  intros Ht Hi Hw. rewrite tasks_goto. destruct (decide (t = i)) as [->|]; [|by rewrite list_lookup_insert_ne].
  rewrite list_lookup_insert_eq by (by eapply lookup_lt_Some). congruence.
Qed.

Lemma locks_ok_step i s s' : locks_ok s -> step i s = Some s' -> locks_ok s'.
Proof.
  intros Hok Hs. apply step_shape in Hs as (p & Hp & Hsh).
  assert (Hhb : holds_b p = true -> b_holder s = Some i) by (intros Hh; apply (lk_b s Hok); unfold at_task; by rewrite Hp).
  assert (Hhq : forall rd, holds_q rd p = true -> q_holder (wq rd s) = Some i) by (intros rd Hh; apply (lk_q s Hok); unfold at_task; by rewrite Hp).
  destruct Hsh; try match goal with |- locks_ok (goto _ _ (goto ?t (wake ?q) s)) =>
      eapply (locks_ok_goto (goto t (wake q) s)); [by apply locks_ok_wake|by eapply wake_other_task|done|..]
    | |- _ => eapply (locks_ok_goto s); [exact Hok|exact Hp|by autorewrite with pipe|..] end;
    try (destruct o as [want|rest]); try (destruct rd); try (destruct e); try destruct (length m =? 0); try destruct (default false _);
    cbn; autorewrite with pipe; cbn; try (intros []); cbn; first [done | by apply Hhb | by apply (Hhq true) | by apply (Hhq false)].
Qed.

(** ** The buffer *)

Lemma transfer_spec o b cap : let (m, b') := transfer o b cap in
  (if is_reading o then b = m ++ b' else b' = b ++ m) /\ length m <= io_len o /\ (length b <= cap -> length b' <= cap) /\
  (length m <> io_len o -> if is_reading o then b' = [] else cap <= length b') /\ (length m = 0 -> b' = b).
Proof.
  destruct o as [want|rest]; cbn.
  - split; [by rewrite take_drop|]. rewrite length_take, length_drop. split; [lia|]. split; [lia|]. split.
    + intros Hne. apply nil_length_inv. rewrite length_drop. lia.
    + intros Hz. replace (Nat.min (length b) want) with 0 by lia. by rewrite drop_0.
  - split; [done|]. rewrite length_take, length_app, length_take. split; [lia|]. split; [lia|]. split; [lia|].
    intros Hz. replace (Nat.min (length rest) (cap - length b)) with 0 by lia. by rewrite take_0, app_nil_r.
Qed.

Lemma fire_buffer l s s' : fire l s = Some s' ->
  buffer s ++ moves false l s = moves true l s ++ buffer s' /\ capacity s' = capacity s /\
  (length (buffer s) <= capacity s -> length (buffer s') <= capacity s').
Proof.
  destruct l as [i|i]; cbn [fire moves]; [|intros [= <-]; cbn; by rewrite app_nil_r].
  intros Hs. apply step_shape in Hs as (p & Hp & Hsh). rewrite Hp. destruct Hsh; cbn; autorewrite with pipe; cbn; rewrite ?app_nil_r; try done.
  match goal with Ht : transfer _ _ _ = _ |- _ => rewrite Ht; pose proof (transfer_spec o (buffer s) (capacity s)) as Hsp; rewrite Ht in Hsp end.
  destruct Hsp as (Hm & _ & Hc & _). destruct (is_reading o); cbn [Bool.eqb fst]; subst; rewrite ?app_nil_r; done.
Qed.

(** ** Calls *)

(** The bytes that task [i] transfers. *)
Definition moves_by (i : nat) (l : label) (s : Pipe) : list Z :=
  match l with
  | Run j => if decide (j = i) then moves true l s ++ moves false l s else []
  | Kill _ => []
  end.

Fixpoint moved_by (i : nat) (ls : list label) (s : Pipe) : list Z :=
  match ls with
  | [] => []
  | l :: ls => match fire l s with Some s' => moves_by i l s ++ moved_by i ls s' | None => [] end
  end.

Definition acc_of (p : pc) : list Z :=
  match p with
  | LockBuffer _ acc | Transfer _ acc | LockOther _ acc _ | WakeOther _ acc _ _ | CheckDone _ acc _ | LockOwn _ acc | CheckClosed _ acc
  | GoToSleep _ acc | Asleep _ acc | Runnable _ acc | LockRetain _ acc | Done _ acc => acc
  | _ => []
  end.

Lemma acc_of_wake p : acc_of (wake p) = acc_of p.
Proof. by destruct p. Qed.

(** The part [acc] of a call [o0] is done and [o] remains. *)
Definition splits (o0 : io) (acc : list Z) (o : io) : Prop :=
  match o0, o with
  | Reading want0, Reading want => want0 = length acc + want
  | Writing data, Writing rest => data = acc ++ rest
  | _, _ => False
  end.

(** What the program counter of a call [o0] says about its bytes. *)
Definition accounts (closed : bool) (o0 : io) (p : pc) : Prop :=
  match p with
  | Call _ o => o = o0
  | LockBuffer o acc | Transfer o acc | LockOwn o acc | CheckClosed o acc | GoToSleep o acc | Asleep o acc | Runnable o acc | LockRetain o acc =>
    splits o0 acc o
  | LockOther o acc n | WakeOther o acc n _ | CheckDone o acc n => n <= io_len o /\ splits o0 acc (io_drop n o)
  | Done (inl n) acc => n = length acc /\ (exists o, splits o0 acc o) /\ (n <> io_len o0 -> closed = true)
  | Done (inr e) acc => exists o, splits o0 acc o
  | _ => False
  end.

Lemma accounts_wake c o p : accounts c o (wake p) <-> accounts c o p.
Proof. by destruct p. Qed.

Lemma accounts_closed c c' o p : (c = true -> c' = true) -> accounts c o p -> accounts c' o p.
Proof. intros Hc. destruct p as [| | | | | | | | | | | | | | |[] ]; try done. cbn. naive_solver. Qed.

Lemma splits_len o0 acc o : splits o0 acc o -> io_len o0 = length acc + io_len o.
Proof. destruct o0, o; cbn; try done. intros ->. apply length_app. Qed.

Lemma splits_transfer o0 acc o b cap m b' : transfer o b cap = (m, b') -> splits o0 acc o -> length m <= io_len o /\ splits o0 (acc ++ m) (io_drop (length m) o).
Proof.
  intros Ht Hs. pose proof (transfer_spec o b cap) as Hsp. rewrite Ht in Hsp. destruct Hsp as (_ & Hl & _). split; [done|].
  destruct o as [want|rest], o0 as [want0|data]; cbn in *; try done.
  - rewrite length_app. lia.
  - injection Ht as <- _. rewrite Hs, length_take. rewrite <- app_assoc. f_equal.
    rewrite <- (take_drop (Nat.min (length rest) (cap - length b)) rest) at 1. f_equal. f_equal. lia.
Qed.

Lemma splits_nil o : splits o [] o.
Proof. by destruct o. Qed.

(** A step of another task changes a task at most by waking it. *)
Lemma step_other i s s' j p : step i s = Some s' -> j <> i -> tasks s !! j = Some p ->
  (tasks s' !! j = Some p \/ tasks s' !! j = Some (wake p)) /\ (is_closed s = true -> is_closed s' = true).
Proof.
  intros Hs Hne Hj. apply step_shape in Hs as (q & Hq & Hsh).
  assert (Hgo : forall a s1, tasks s1 = tasks s -> tasks (goto i a s1) !! j = Some p) by (intros a s1 Ht; rewrite tasks_goto, list_lookup_insert_ne, Ht; done).
  destruct Hsh; split; try (left; apply Hgo; by autorewrite with pipe); cbn; autorewrite with pipe; cbn; try done; try congruence;
    rewrite list_lookup_insert_ne by done;
    (destruct (decide (t = j)) as [->|]; [right; rewrite list_lookup_insert_eq by (by eapply lookup_lt_Some); congruence|left; by rewrite list_lookup_insert_ne]).
Qed.

(** The stepping task accounts for the bytes it transfers. *)
Lemma step_self i s s' o0 p : step i s = Some s' -> tasks s !! i = Some p -> accounts (is_closed s) o0 p ->
  exists p', tasks s' !! i = Some p' /\ accounts (is_closed s') o0 p' /\ acc_of p' = acc_of p ++ moves_by i (Run i) s.
Proof.
  intros Hs Hi Hacc. apply step_shape in Hs as (q & Hq & Hsh). rewrite Hi in Hq. injection Hq as <-.
  assert (Hlt : i < length (tasks s)) by (by eapply lookup_lt_Some).
  assert (Hgo : forall a s1, length (tasks s1) = length (tasks s) -> tasks (goto i a s1) !! i = Some a)
    by (intros a s1 Hl; rewrite tasks_goto; apply list_lookup_insert_eq; lia).
  unfold moves_by, moves. rewrite decide_True, Hi by done.
  destruct Hsh; (eexists; split; [apply Hgo; autorewrite with pipe; cbn; rewrite ?length_insert; done|]); cbn; autorewrite with pipe; cbn [is_closed goto set_b_holder set_closed];
    rewrite ?app_nil_r.
  - cbn in Hacc. subst o0. destruct (Bool.eqb _ _); cbn; (split; [|done]); [apply splits_nil|exists o; apply splits_nil].
  - done.
  - match goal with Ht : transfer _ _ _ = _ |- _ => rewrite Ht; destruct (splits_transfer o0 acc o _ _ m b Ht Hacc) as [Hl Hsp] end.
    cbn [fst]. split; [by destruct (length m =? 0)|]. destruct (is_reading o), (length m =? 0); cbn; by rewrite ?app_nil_r.
  - done.
  - done.
  - done.
  - done.
  - done.
  - destruct Hacc as [Hn Hsp]. split; [|done]. split; [done|]. split; [by eexists|]. apply splits_len in Hsp. intros Hne.
    destruct H as [Heq|]; [|done]. destruct Hne. rewrite Hsp. destruct o; cbn in *; [lia|rewrite length_drop; lia].
  - by destruct Hacc.
  - done.
  - split; [|done]. split; [done|]. split; [by eexists|done].
  - done.
  - done.
  - by destruct (default false _).
  - split; [|done]. by eexists.
  - done.
  - done.
  - done.
  - done.
  - done.
  - done.
  - done.
Qed.

(** ** Nobody sleeps without reason *)

(** Nothing to read, or no room to write. *)
Definition stuck_for (rd : bool) (s : Pipe) : Prop := if rd then buffer s = [] else capacity s <= length (buffer s).

(** A task about to sleep, or asleep, in a queue. *)
Definition sleepy (rd : bool) (p : pc) : bool := match p with GoToSleep o _ | Asleep o _ => Bool.eqb (is_reading o) rd | _ => false end.

(** A task that has yet to wake the queue up. *)
Definition signaller (rd : bool) (p : pc) : bool :=
  match p with
  | LockOther o _ _ | WakeOther o _ _ _ => Bool.eqb (negb (is_reading o)) rd
  | LockClose rd' | WakeClose rd' _ => rd' || negb rd
  | _ => false
  end.

(** A task that took [t] from the queue and has yet to wake it. *)
Definition waking (rd : bool) (t : nat) (p : pc) : bool :=
  match p with
  | WakeOther o _ _ (Some t') => Bool.eqb (negb (is_reading o)) rd && (t =? t')
  | WakeClose rd' (Some t') => Bool.eqb rd' rd && (t =? t')
  | _ => false
  end.

(** What a call knows about the buffer while it holds the lock. *)
Definition buf_fact (s : Pipe) (p : pc) : Prop :=
  match p with
  | LockOther o _ n | WakeOther o _ n _ | CheckDone o _ n => n = io_len o \/ stuck_for (is_reading o) s
  | LockOwn o _ | CheckClosed o _ => stuck_for (is_reading o) s
  | _ => True
  end.

Record live (s : Pipe) : Prop := {
  lv_locks : locks_ok s;
  lv_calm i : default false (signals s !! i) = false;
  lv_retain i : at_task s i task_locked = false;
  lv_buf i p : tasks s !! i = Some p -> buf_fact s p;
  lv_queue t o acc : tasks s !! t = Some (Asleep o acc) -> t ∈ q_tasks (wq (is_reading o) s) \/ exists j, at_task s j (waking (is_reading o) t) = true;
  lv_wake t rd : at_task s t (sleepy rd) = true -> stuck_for rd s /\ is_closed s = false \/ exists j, at_task s j (signaller rd) = true
}.

Lemma at_task_Some s i p f : tasks s !! i = Some p -> at_task s i f = f p.
Proof. unfold at_task. by intros ->. Qed.

Lemma at_task_inv s i f : at_task s i f = true -> exists p, tasks s !! i = Some p /\ f p = true.
Proof. unfold at_task. destruct (tasks s !! i) as [p|]; [|done]. by exists p. Qed.

Lemma waking_holds rd t p : waking rd t p = true -> holds_q rd p = true.
Proof. destruct p as [| | | |? ? ? [] | | | | | | | | | |? []|]; cbn; try done; rewrite andb_true_iff; tauto. Qed.

(** The tasks other than the stepping one, before a step. *)
Lemma step_other_inv i s s' j p : step i s = Some s' -> j <> i -> tasks s' !! j = Some p -> exists q, tasks s !! j = Some q /\ (p = q \/ p = wake q).
Proof.
  intros Hs Hne Hj. destruct (tasks s !! j) as [q|] eqn:Hq.
  - exists q. split; [done|]. destruct (step_other i s s' j q Hs Hne Hq) as [[H1|H1] _]; rewrite H1 in Hj; injection Hj as <-; tauto.
  - apply step_shape in Hs as (q & Hqi & Hsh). destruct Hsh; cbn in Hj; autorewrite with pipe in Hj; cbn in Hj; rewrite list_lookup_insert_ne in Hj by done; try congruence.
    + rewrite list_lookup_insert_ne in Hj by congruence. congruence.
    + rewrite list_lookup_insert_ne in Hj by congruence. congruence.
Qed.

Lemma step_other_keeps i s s' j f : step i s = Some s' -> j <> i -> (forall p, f (wake p) = f p) -> at_task s' j f = at_task s j f.
Proof.
  intros Hs Hne Hf. unfold at_task. destruct (tasks s !! j) as [q|] eqn:Hq.
  - destruct (step_other i s s' j q Hs Hne Hq) as [[-> | ->] _]; by rewrite ?Hf.
  - destruct (tasks s' !! j) as [p|] eqn:Hp; [|done]. destruct (step_other_inv i s s' j p Hs Hne Hp) as (q & ? & _). congruence.
Qed.

Lemma signaller_wake rd p : signaller rd (wake p) = signaller rd p.
Proof. by destruct p. Qed.
Lemma waking_wake rd t p : waking rd t (wake p) = waking rd t p.
Proof. by destruct p. Qed.

(** A step that moves no bytes leaves the buffer alone. *)
Lemma step_buffer i s s' : step i s = Some s' ->
  (exists o acc, tasks s !! i = Some (Transfer o acc)) \/ buffer s' = buffer s /\ capacity s' = capacity s.
Proof. intros Hs. apply step_shape in Hs as (p & Hp & Hsh). destruct Hsh; try (right; cbn; autorewrite with pipe; done). left. by eexists _, _. Qed.

Lemma step_capacity i s s' : step i s = Some s' -> capacity s' = capacity s.
Proof. intros Hs. destruct (fire_buffer (Run i) s s' Hs) as (_ & ? & _). done. Qed.

Lemma step_signals i s s' : step i s = Some s' -> signals s' = signals s.
Proof. intros Hs. apply step_shape in Hs as (p & Hp & Hsh). destruct Hsh; cbn; by autorewrite with pipe. Qed.

Lemma buf_fact_same s s' p : buffer s' = buffer s -> capacity s' = capacity s -> buf_fact s p -> buf_fact s' p.
Proof. intros Hb Hc. destruct p; cbn; unfold stuck_for; rewrite ?Hb, ?Hc; done. Qed.

Lemma buf_fact_free s p : holds_b p = false -> buf_fact s p.
Proof. by destruct p. Qed.

Lemma live_buf i s s' : live s -> step i s = Some s' -> forall j p, tasks s' !! j = Some p -> buf_fact s' p.
Proof.
  intros Hl Hs j p Hj. destruct (decide (j = i)) as [->|Hne].
  - pose proof (lv_buf s Hl i) as Hb. apply step_shape in Hs as (q & Hq & Hsh). specialize (Hb q Hq).
    assert (Hlt : i < length (tasks s)) by (by eapply lookup_lt_Some).
    destruct Hsh; cbn in Hj; autorewrite with pipe in Hj; cbn in Hj; rewrite list_lookup_insert_eq in Hj by (rewrite ?length_insert; lia); injection Hj as <-;
      try exact I; try (eapply (buf_fact_same s); [cbn; by autorewrite with pipe|cbn; by autorewrite with pipe|exact Hb]).
    + destruct (Bool.eqb _ _); done.
    + match goal with Ht : transfer _ _ _ = _ |- _ => pose proof (transfer_spec o (buffer s) (capacity s)) as Hsp; rewrite Ht in Hsp end.
      destruct Hsp as (_ & _ & _ & Hst & _). assert (Hgoal : length m = io_len o \/ stuck_for (is_reading o) (set_buffer b s)).
      { destruct (decide (length m = io_len o)); [by left|right]. unfold stuck_for. cbn. apply Hst. done. }
      destruct (length m =? 0); exact Hgoal.
    + cbn in *. destruct Hb as [?|Hb]; [done|]. by destruct o.
    + destruct (default false _); done.
    + destruct rd; done.
  - destruct (step_other_inv i s s' j p Hs Hne Hj) as (q & Hq & Hpq).
    assert (Hq' : buf_fact s q -> buf_fact s' q -> buf_fact s' p) by (intros _ H2; destruct Hpq as [-> | ->]; [done|by destruct q]).
    apply Hq'; [by apply (lv_buf s Hl j)|]. destruct (step_buffer i s s' Hs) as [(o & acc & Hi)|[Hb Hc]].
    + apply buf_fact_free. destruct (holds_b q) eqn:Hh; [|done]. pose proof (lv_locks s Hl) as Hlk.
      assert (b_holder s = Some i) by (apply (lk_b s Hlk); by rewrite (at_task_Some s i _ _ Hi)).
      assert (b_holder s = Some j) by (apply (lk_b s Hlk); by rewrite (at_task_Some s j _ _ Hq)). congruence.
    + eapply buf_fact_same; [exact Hb|exact Hc|by apply (lv_buf s Hl j)].
Qed.

Lemma not_asleep_wake q o acc : Asleep o acc <> wake q.
Proof. by destruct q. Qed.

Lemma live_queue i s s' : live s -> step i s = Some s' ->
  forall t o acc, tasks s' !! t = Some (Asleep o acc) -> t ∈ q_tasks (wq (is_reading o) s') \/ exists j, at_task s' j (waking (is_reading o) t) = true.
Proof.
  intros Hl Hs t o acc Ht. pose proof Hs as Hstep. apply step_shape in Hs as (p & Hp & Hsh).
  assert (Hlt : i < length (tasks s)) by (by eapply lookup_lt_Some).
  destruct (decide (t = i)) as [->|Hne].
  - destruct Hsh; cbn in Ht; autorewrite with pipe in Ht; cbn in Ht; rewrite list_lookup_insert_eq in Ht by (rewrite ?length_insert; lia); try discriminate;
      try (by destruct (Bool.eqb _ _)); try (by destruct (length m =? 0)); try (by destruct (default false _)); try (by destruct rd).
    injection Ht as <- <-. left. autorewrite with pipe. rewrite eqb_reflx. cbn. set_solver.
  - destruct (step_other_inv i s s' t _ Hstep Hne Ht) as (q & Hq & [<-|Hw]); [|by destruct (not_asleep_wake q o acc)].
    destruct (lv_queue s Hl t o acc Hq) as [Hin|[j Hj]].
    + destruct Hsh; autorewrite with pipe; try (by left); try (destruct (Bool.eqb _ _) eqn:He; [|by left]; apply eqb_prop in He; rewrite ?He in *; cbn).
      all: try (by left). all: try (rewrite H in Hin; by apply not_elem_of_nil in Hin).
      * rewrite H in Hin. apply elem_of_cons in Hin as [->|Hin]; [right|by left]. exists i. erewrite at_task_goto by (autorewrite with pipe; exact Hp).
        rewrite decide_True by done. cbn. rewrite ?He, eqb_reflx, Nat.eqb_refl. done.
      * left. apply elem_of_app. by left.
      * pose proof (lv_retain s Hl i) as Hr. rewrite (at_task_Some s i _ _ Hp) in Hr. done.
      * rewrite H in Hin. apply elem_of_cons in Hin as [->|Hin]; [right|by left]. exists i. erewrite at_task_goto by (autorewrite with pipe; exact Hp).
        rewrite decide_True by done. cbn. rewrite ?He, eqb_reflx, Nat.eqb_refl. done.
    + destruct (decide (j = i)) as [->|Hji].
      * rewrite (at_task_Some s i _ _ Hp) in Hj. destruct Hsh; try discriminate; cbn in Hj; apply andb_true_iff in Hj as [_ Hj]; apply Nat.eqb_eq in Hj; subst t0;
          try congruence; cbn in Ht; rewrite list_lookup_insert_ne in Ht by done; rewrite list_lookup_insert_eq in Ht by (by eapply lookup_lt_Some);
          injection Ht as Ht; symmetry in Ht; by apply not_asleep_wake in Ht.
      * right. exists j. rewrite (step_other_keeps i s s' j) by (done || apply waking_wake). done.
Qed.

Lemma holder_unique rd s i j p q : locks_ok s -> tasks s !! i = Some p -> tasks s !! j = Some q -> holds_q rd p = true -> holds_q rd q = true -> i = j.
Proof.
  intros Hlk Hp Hq Hhp Hhq.
  assert (q_holder (wq rd s) = Some i) by (apply (lk_q s Hlk); by rewrite (at_task_Some s i _ _ Hp)).
  assert (q_holder (wq rd s) = Some j) by (apply (lk_q s Hlk); by rewrite (at_task_Some s j _ _ Hq)). congruence.
Qed.

(** When [signal_all] finds the queue empty, nobody sleeps in it. *)
Lemma nobody_sleeps s i p rd t : live s -> tasks s !! i = Some p -> holds_q rd p = true -> waking rd t p = false -> q_tasks (wq rd s) = [] ->
  t <> i -> at_task s t (sleepy rd) = false.
Proof.
  intros Hl Hp Hh Hw Hq Hne. unfold at_task. destruct (tasks s !! t) as [q|] eqn:Ht; [|done]. destruct q; try done; cbn.
  - destruct (Bool.eqb (is_reading o) rd) eqn:He; [|done]. destruct Hne. eapply (holder_unique rd s); [apply Hl|exact Ht|exact Hp|exact He|exact Hh].
  - destruct (Bool.eqb (is_reading o) rd) eqn:He; [|done]. apply eqb_prop in He. subst rd.
    destruct (lv_queue s Hl t o acc Ht) as [Hin|[j Hj]]; [rewrite Hq in Hin; by apply not_elem_of_nil in Hin|].
    apply at_task_inv in Hj as (pj & Hpj & Hwj).
    assert (j = i) as -> by (eapply (holder_unique _ s); [apply Hl|exact Hpj|exact Hp|by eapply waking_holds|exact Hh]). congruence.
Qed.

Lemma sleepy_wake rd p : sleepy rd (wake p) = true -> wake p = p.
Proof. by destruct p. Qed.

(** A step leaves a queue without work and open, or its task goes on to wake
    the queue. *)
Lemma stuck_step i s s' rd : step i s = Some s' -> stuck_for rd s /\ is_closed s = false ->
  stuck_for rd s' /\ is_closed s' = false \/ at_task s' i (signaller rd) = true.
Proof.
  intros Hs [Hst Hc]. apply step_shape in Hs as (p & Hp & Hsh). assert (Hlt : i < length (tasks s)) by (by eapply lookup_lt_Some).
  destruct Hsh; try (left; unfold stuck_for in *; cbn; autorewrite with pipe; done).
  - match goal with Ht : transfer _ _ _ = _ |- _ => pose proof (transfer_spec o (buffer s) (capacity s)) as Hsp; rewrite Ht in Hsp end.
    destruct Hsp as (Hm & _ & _ & _ & Hz). destruct (Nat.eqb_spec (length m) 0) as [Hz0|Hnz].
    + left. unfold stuck_for in *. cbn. rewrite Hz by done. done.
    + erewrite at_task_goto by exact Hp. rewrite decide_True by done. cbn. destruct o as [want|rest], rd; cbn; try (by right).
      * unfold stuck_for in Hst. cbn in Hm. rewrite Hst in Hm. destruct m; [done|discriminate].
      * left. unfold stuck_for in *. cbn in *. subst b. rewrite length_app. split; [lia|done].
  - right. erewrite at_task_goto by exact Hp. rewrite decide_True by done. done.
Qed.

Lemma live_wake i s s' : live s -> step i s = Some s' ->
  forall t rd, at_task s' t (sleepy rd) = true -> stuck_for rd s' /\ is_closed s' = false \/ exists j, at_task s' j (signaller rd) = true.
Proof.
  intros Hl Hs t rd Ht.
  assert (Hold : at_task s t (sleepy rd) = true \/ t = i /\ stuck_for rd s /\ is_closed s = false).
  { destruct (decide (t = i)) as [->|Hne].
    - pose proof Hs as Hs'. apply step_shape in Hs' as (p & Hp & Hsh). pose proof (lv_buf s Hl i p Hp) as Hb.
      destruct Hsh; erewrite at_task_goto in Ht by (first [exact Hp|autorewrite with pipe; exact Hp|by eapply wake_other_task]); rewrite decide_True in Ht by done; try discriminate;
        try (by destruct (Bool.eqb _ _)); try (by destruct (length m =? 0)); try (by destruct (default false _)); try (by destruct rd0).
      + right. cbn in Ht, Hb. apply eqb_prop in Ht. subst rd. done.
      + left. rewrite (at_task_Some s i _ _ Hp). done.
    - left. apply at_task_inv in Ht as (p & Hp & Hsl). destruct (step_other_inv i s s' t p Hs Hne Hp) as (q & Hq & Hpq).
      rewrite (at_task_Some s t _ _ Hq). destruct Hpq as [-> | ->]; [done|]. pose proof (sleepy_wake _ _ Hsl) as Hw. by rewrite Hw in Hsl. }
  assert (Hcase : stuck_for rd s /\ is_closed s = false \/ exists j, at_task s j (signaller rd) = true).
  { destruct Hold as [Ho|(_ & Ho)]; [by apply (lv_wake s Hl t)|by left]. }
  destruct Hcase as [Hst|[j Hj]].
  { destruct (stuck_step i s s' rd Hs Hst) as [?|?]; [by left|right; by exists i]. }
  destruct (decide (j = i)) as [->|Hji]; [|right; exists j; rewrite (step_other_keeps i s s' j) by (done || apply signaller_wake); done].
  pose proof Hs as Hs'. apply step_shape in Hs' as (p & Hp & Hsh). rewrite (at_task_Some s i _ _ Hp) in Hj.
  assert (Hti : t <> i).
  { intros ->. destruct Hold as [Ho|(_ & Ho)]; [rewrite (at_task_Some s i _ _ Hp) in Ho; by destruct p|].
    apply at_task_inv in Ht as (p' & Hp' & Hsl). destruct Hsh; try discriminate; cbn in Hp'; autorewrite with pipe in Hp'; cbn in Hp';
      rewrite list_lookup_insert_eq in Hp' by (rewrite ?length_insert; by eapply lookup_lt_Some); injection Hp' as <-; try discriminate; by destruct rd0. }
  assert (Hsl : at_task s t (sleepy rd) = true) by (destruct Hold as [?|[? _]]; done).
  destruct Hsh; try discriminate; try (right; exists i; erewrite at_task_goto by (first [exact Hp|autorewrite with pipe; exact Hp|by eapply wake_other_task]);
    rewrite decide_True by done; exact Hj).
  - cbn in Hj. apply eqb_prop in Hj. subst rd. exfalso.
    pose proof (nobody_sleeps s i _ (negb (is_reading o)) t Hl Hp ltac:(cbn; apply eqb_reflx) ltac:(done) ltac:(done) Hti). congruence.
  - cbn in Hj. destruct rd0; cbn in Hj.
    + destruct rd; [|right; exists i; erewrite at_task_goto by (autorewrite with pipe; exact Hp); rewrite decide_True by done; done]. exfalso.
      pose proof (nobody_sleeps s i _ true t Hl Hp ltac:(done) ltac:(done) ltac:(done) Hti). congruence.
    + destruct rd; [done|]. exfalso. pose proof (nobody_sleeps s i _ false t Hl Hp ltac:(done) ltac:(done) ltac:(done) Hti). congruence.
Qed.

Lemma live_step i s s' : live s -> step i s = Some s' -> live s'.
Proof.
  intros Hl Hs. split.
  - by eapply locks_ok_step; [apply Hl|].
  - intros j. rewrite (step_signals i s s' Hs). apply Hl.
  - intros j. destruct (decide (j = i)) as [->|Hne].
    + pose proof (lv_calm s Hl i) as Hc. pose proof Hs as Hs'. apply step_shape in Hs' as (p & Hp & Hsh).
      destruct Hsh; (erewrite at_task_goto by (first [exact Hp|autorewrite with pipe; exact Hp|by eapply wake_other_task])); rewrite decide_True by done; try done;
        try (by destruct (Bool.eqb _ _)); try (by destruct (length m =? 0)); try (by destruct rd). by rewrite Hc.
    + rewrite (step_other_keeps i s s' j) by (done || by intros []). apply Hl.
  - by eapply live_buf.
  - by eapply live_queue.
  - by eapply live_wake.
Qed.
