(* ===== verification/PipeLive.v ===== *)
(** * Progress of pipes

    Without signals from outside every schedule is finite: [measure] drops at
    every step.  And a state in which no task can step is one in which every
    call has returned, or sleeps because the buffer is empty or full. *)

From S2P Require Import Prelude Vfs Pipe PipeSpec.

#[local] Open Scope nat_scope.

(** ** The start *)

Definition is_start (p : pc) : bool := match p with Call _ _ | Close => true | _ => false end.

Lemma start_at calls i f : Forall (fun p => is_start p = true) calls -> (forall p, is_start p = true -> f p = false) ->
  forall cap, at_task (with_buffer_size cap calls) i f = false.
Proof.
  intros Hst Hf cap. unfold at_task. cbn. destruct (calls !! i) as [p|] eqn:Hp; [|done]. apply Hf. by eapply Forall_lookup_1 in Hst.
Qed.

Lemma live_start cap calls : Forall (fun p => is_start p = true) calls -> live (with_buffer_size cap calls).
Proof.
  intros Hst. pose proof (fun f i H => start_at calls i f Hst H cap) as Hat. split; [split| | | | |].
  - intros i. rewrite Hat by (by intros []). done.
  - intros rd i. rewrite Hat by (by intros []). by destruct rd.
  - intros i. cbn. destruct (replicate (length calls) false !! i) as [b|] eqn:Hb; [|done]. by apply lookup_replicate in Hb as [-> _].
  - intros i. apply Hat. by intros [].
  - intros i p Hp. apply Forall_lookup_1 with (i := i) (x := p) in Hst; [|done]. by destruct p.
  - intros t o acc Ht. apply Forall_lookup_1 with (i := t) (x := Asleep o acc) in Hst; [done|done].
  - intros t rd. rewrite Hat by (by intros []). done.
Qed.

(** ** States without a step *)

Definition quiescent (s : Pipe) : Prop := forall i, step i s = None.

Lemma can_wake s t : live s -> is_Some (signal_all_wake t s).
Proof.
  intros Hl. unfold signal_all_wake. pose proof (lv_retain s Hl t) as Hr. unfold at_task in Hr. destruct (tasks s !! t) as [p|]; [rewrite Hr|]; done.
Qed.

Lemma step_at s i p : tasks s !! i = Some p -> step i s = if is_close p then close_step i p s else io_step i p s.
Proof. unfold step. by intros ->. Qed.

(** The owner of a queue can step. *)
Lemma queue_owner_steps s i p rd : live s -> tasks s !! i = Some p -> holds_q rd p = true -> is_Some (step i s).
Proof.
  intros Hl Hp Hh. rewrite (step_at s i p Hp). destruct p as [| | | |o acc n [t|]| | |o acc|o acc| | | | | |rd' [t|]|]; try done; cbn [is_close io_step close_step].
  - destruct (can_wake s t Hl) as [s' ->]. done.
  - destruct (signal_all_pop _ s). done.
  - by destruct (is_closed s).
  - destruct (can_wake s t Hl) as [s' ->]. done.
  - destruct (signal_all_pop _ s). done.
Qed.

Lemma quiescent_queue s rd : live s -> quiescent s -> q_holder (wq rd s) = None.
Proof.
  intros Hl Hq. destruct (q_holder (wq rd s)) as [j|] eqn:Hj; [|done]. apply (lk_q s (lv_locks s Hl)) in Hj. apply at_task_inv in Hj as (p & Hp & Hh).
  destruct (queue_owner_steps s j p rd Hl Hp Hh) as [s' Hs]. by rewrite Hq in Hs.
Qed.

Lemma lock_wq_free i rd s : q_holder (wq rd s) = None -> is_Some (lock_wq i rd s).
Proof. unfold lock_wq. by intros ->. Qed.

Lemma quiescent_buffer s : live s -> quiescent s -> b_holder s = None.
Proof.
  intros Hl Hq. destruct (b_holder s) as [j|] eqn:Hj; [|done]. apply (lk_b s (lv_locks s Hl)) in Hj. apply at_task_inv in Hj as (p & Hp & Hh).
  pose proof (Hq j) as Hs. rewrite (step_at s j p Hp) in Hs. destruct p as [| |o acc|o acc n|o acc n [t|]|o acc n|o acc|o acc| | | | | | | |]; try done; cbn [is_close io_step] in Hs.
  - by destruct (transfer _ _ _).
  - destruct (lock_wq_free j (negb (is_reading o)) s) as [s' Hs']; [by apply quiescent_queue|]. by rewrite Hs' in Hs.
  - destruct (can_wake s t Hl) as [s' Hs']. by rewrite Hs' in Hs.
  - by destruct (signal_all_pop _ s).
  - by destruct (_ || _).
  - destruct (lock_wq_free j (is_reading o) s) as [s' Hs']; [by apply quiescent_queue|]. by rewrite Hs' in Hs.
  - by destruct (is_closed s).
Qed.

Lemma quiescent_rest s i p : live s -> quiescent s -> tasks s !! i = Some p -> (exists r acc, p = Done r acc) \/ exists o acc, p = Asleep o acc.
Proof.
  intros Hl Hq Hp. pose proof (Hq i) as Hs. rewrite (step_at s i p Hp) in Hs.
  assert (Hb : holds_b p = false).
  { destruct (holds_b p) eqn:Hh; [|done]. assert (b_holder s = Some i) by (apply (lk_b s (lv_locks s Hl)); by rewrite (at_task_Some s i _ _ Hp)).
    by rewrite quiescent_buffer in *. }
  assert (Hqh : forall rd, holds_q rd p = false).
  { intros rd. destruct (holds_q rd p) eqn:Hh; [|done]. assert (q_holder (wq rd s) = Some i) by (apply (lk_q s (lv_locks s Hl)); by rewrite (at_task_Some s i _ _ Hp)).
    by rewrite quiescent_queue in *. }
  destruct p as [e o|o acc|o acc|o acc n|o acc n cur|o acc n|o acc|o acc|o acc|o acc|o acc|o acc| |rd|rd cur|r acc]; try done; cbn [is_close io_step close_step] in Hs.
  - by rewrite quiescent_buffer in Hs.
  - right. by exists o, acc.
  - pose proof (lv_retain s Hl i) as Hr. by rewrite (at_task_Some s i _ _ Hp) in Hr.
  - destruct (lock_wq_free i rd s) as [s' Hs']; [by apply quiescent_queue|]. by rewrite Hs' in Hs.
  - specialize (Hqh rd). by destruct rd.
  - left. by exists r, acc.
Qed.

(** A task that sleeps for good has no work, and the pipe is open. *)
Lemma quiescent_asleep s i o acc : live s -> quiescent s -> tasks s !! i = Some (Asleep o acc) -> stuck_for (is_reading o) s /\ is_closed s = false.
Proof.
  intros Hl Hq Hp. destruct (lv_wake s Hl i (is_reading o)) as [?|[j Hj]]; [|done|].
  - rewrite (at_task_Some s i _ _ Hp). cbn. apply eqb_reflx.
  - apply at_task_inv in Hj as (p & Hpj & Hsig). by destruct (quiescent_rest s j p Hl Hq Hpj) as [(r & a & ->)|(o' & a & ->)].
Qed.

(** ** The measure *)

Definition total (f : pc -> nat) (l : list pc) : nat := sum_list_with f l.

Lemma cost_insert f l i p p' : l !! i = Some p -> total f (<[i := p']> l) + f p = total f l + f p'.
Proof.
  revert i. induction l as [|q l IH]; intros [|i] Hi; try done; unfold total in *; cbn [insert list_insert sum_list_with] in *.
  - injection Hi as ->. lia.
  - rewrite <- !Nat.add_assoc. f_equal. exact (IH i Hi).
Qed.

Lemma total_le f g l k : (forall p, f p <= g p + k) -> total f l <= total g l + k * length l.
Proof. intros Hfg. induction l as [|p l IH]; unfold total in *; cbn; [lia|]. pose proof (Hfg p). lia. Qed.

(** A task that is in the loop of [signal_all] on a queue. *)
Definition wakes (rd : bool) (p : pc) : bool :=
  match p with WakeOther o _ _ _ => Bool.eqb (negb (is_reading o)) rd | WakeClose rd' _ => Bool.eqb rd' rd | _ => false end.
Definition active (rd : bool) (s : Pipe) : bool := existsb (wakes rd) (tasks s).

(** The bytes that a writer has yet to write. *)
Definition rest_len (p : pc) : nat :=
  match p with
  | Call _ (Writing r) | LockBuffer (Writing r) _ | Transfer (Writing r) _ | LockOwn (Writing r) _ | CheckClosed (Writing r) _
  | GoToSleep (Writing r) _ | Asleep (Writing r) _ | Runnable (Writing r) _ | LockRetain (Writing r) _ => length r
  | LockOther (Writing r) _ n | WakeOther (Writing r) _ n _ | CheckDone (Writing r) _ n => length r - n
  | _ => 0
  end.

(** The steps that a program counter has ahead before it sleeps or returns;
    [act] tells whether a queue is being woken up, [n] is the number of
    tasks. *)
Definition weight (n : nat) (act : bool -> bool) (p : pc) : nat :=
  match p with
  | Call _ _ | Runnable _ _ => 9
  | LockBuffer _ _ => 8
  | Transfer _ _ => 7
  | LockOther _ _ _ => 9 * n + 8
  | WakeOther _ _ _ cur => match cur with Some _ => 8 | None => 7 end
  | CheckDone _ _ _ => 6
  | LockOwn _ _ => 5
  | CheckClosed _ _ => 4
  | GoToSleep _ _ => 3
  | Asleep o _ => if act (is_reading o) then 9 else 0
  | LockRetain _ _ => 1
  | Close => 18 * n + 18
  | LockClose rd => (if rd then 9 * n + 9 else 0) + 9 * n + 8
  | WakeClose rd cur => (if rd then 9 * n + 9 else 0) + match cur with Some _ => 8 | None => 7 end
  | Done _ _ => 0
  end.

Definition byte_cost (n : nat) : nat := 9 * n + 2.

Definition cost (s : Pipe) (p : pc) : nat :=
  weight (length (tasks s)) (fun rd => active rd s) p + 2 * byte_cost (length (tasks s)) * rest_len p.

Definition measure (s : Pipe) : nat :=
  total (cost s) (tasks s) + byte_cost (length (tasks s)) * length (buffer s) + 2 * (length (q_tasks (r_wq s)) + length (q_tasks (w_wq s))).

Lemma active_goto rd s s1 i p p' : tasks s !! i = Some p -> tasks s1 = tasks s -> (wakes rd p' = true -> wakes rd p = true) ->
  active rd (goto i p' s1) = true -> active rd s = true.
Proof.
  intros Hi Ht Hw. unfold active. rewrite tasks_goto, Ht, !existsb_exists. intros (q & Hq & Hwq). apply list_elem_of_In, list_elem_of_lookup in Hq as [j Hj].
  destruct (decide (j = i)) as [->|].
  - rewrite list_lookup_insert_eq in Hj by (by eapply lookup_lt_Some). injection Hj as ->. exists p. split; [|by apply Hw]. apply list_elem_of_In, list_elem_of_lookup. by exists i.
  - rewrite list_lookup_insert_ne in Hj by done. exists q. split; [|done]. apply list_elem_of_In, list_elem_of_lookup. by exists j.
Qed.

Lemma weight_mono n a a' p : (forall rd, a' rd = true -> a rd = true) -> weight n a' p <= weight n a p.
Proof. intros Ha. destruct p; cbn; try lia. specialize (Ha (is_reading o)). destruct (a' _), (a _); lia. Qed.

Lemma weight_any n a a' p : weight n a' p <= weight n a p + 9.
Proof. destruct p; cbn; try lia. destruct (a' _), (a _); lia. Qed.

(** A step of task [i] that starts no loop. *)
Lemma total_goto s s1 i p p' : tasks s !! i = Some p -> tasks s1 = tasks s -> (forall rd, wakes rd p' = true -> wakes rd p = true) ->
  total (cost (goto i p' s1)) (tasks (goto i p' s1)) + cost s p <= total (cost s) (tasks s) + cost s p'.
Proof.
  intros Hi Ht Hw. assert (Hlen : length (tasks (goto i p' s1)) = length (tasks s)) by (rewrite tasks_goto, length_insert; by rewrite Ht).
  pose proof (cost_insert (cost s) (tasks s) i p p' Hi) as Hins.
  pose proof (total_le (cost (goto i p' s1)) (cost s) (<[i := p']> (tasks s)) 0) as Hle. rewrite tasks_goto, Ht.
  assert (forall q, cost (goto i p' s1) q <= cost s q + 0); [|specialize (Hle H); lia].
  intros q. unfold cost. rewrite Hlen. pose proof (weight_mono (length (tasks s)) (fun rd => active rd s) (fun rd => active rd (goto i p' s1)) q) as Hm.
  assert (forall rd, active rd (goto i p' s1) = true -> active rd s = true) as Hact by (intros rd; apply (active_goto rd s s1 i p p'); [done|done|apply Hw]). specialize (Hm Hact). lia.
Qed.

(** A step of task [i] that starts a loop. *)
Lemma total_loop s s1 i p p' : tasks s !! i = Some p -> tasks s1 = tasks s ->
  total (cost (goto i p' s1)) (tasks (goto i p' s1)) + cost s p <= total (cost s) (tasks s) + cost s p' + 9 * length (tasks s).
Proof.
  intros Hi Ht. assert (Hlen : length (tasks (goto i p' s1)) = length (tasks s)) by (rewrite tasks_goto, length_insert; by rewrite Ht).
  pose proof (cost_insert (cost s) (tasks s) i p p' Hi) as Hins.
  pose proof (total_le (cost (goto i p' s1)) (cost s) (<[i := p']> (tasks s)) 9) as Hle. rewrite length_insert in Hle. rewrite tasks_goto, Ht.
  assert (forall q, cost (goto i p' s1) q <= cost s q + 9); [|specialize (Hle H); lia].
  intros q. unfold cost. rewrite Hlen. pose proof (weight_any (length (tasks s)) (fun rd => active rd s) (fun rd => active rd (goto i p' s1)) q). lia.
Qed.

(** The side of a call. *)
Definition pc_side (p : pc) : option bool :=
  match p with
  | Call _ o | LockBuffer o _ | Transfer o _ | LockOther o _ _ | WakeOther o _ _ _ | CheckDone o _ _ | LockOwn o _ | CheckClosed o _
  | GoToSleep o _ | Asleep o _ | Runnable o _ | LockRetain o _ => Some (is_reading o)
  | _ => None
  end.

(** Readers sleep in the queue of the readers, writers in the other. *)
Record sides (sd : nat -> bool) (s : Pipe) : Prop := {
  sd_pc t p b : tasks s !! t = Some p -> pc_side p = Some b -> b = sd t;
  sd_queue rd t : t ∈ q_tasks (wq rd s) -> sd t = rd;
  sd_cur rd t j : at_task s j (waking rd t) = true -> sd t = rd
}.

Lemma pc_side_wake p : pc_side (wake p) = pc_side p.
Proof. by destruct p. Qed.

Lemma sides_step sd i s s' : sides sd s -> step i s = Some s' -> sides sd s'.
Proof.
  intros [Hpc Hq Hcur] Hs. pose proof Hs as Hsh. apply step_shape in Hsh as (p & Hp & Hsh).
  assert (Hself : forall f, at_task s i f = f p) by (intros f; by apply at_task_Some). pose proof (Hpc i p) as Hi. specialize (fun b => Hi b Hp).
  assert (Hlt : i < length (tasks s)) by (by eapply lookup_lt_Some). split.
  - intros t q b Ht Hb. destruct (decide (t = i)) as [->|Hne].
    + apply Hi. destruct Hsh; cbn in Ht; autorewrite with pipe in Ht; cbn in Ht; rewrite list_lookup_insert_eq in Ht by (rewrite ?length_insert; lia); injection Ht as <-; try done;
        try (by destruct (Bool.eqb _ _)); try (by destruct (length m =? 0)); try (by destruct (default false _)); try (by destruct rd). by destruct o.
    + destruct (step_other_inv i s s' t q Hs Hne Ht) as (q' & Hq' & [-> | ->]); [by apply (Hpc t q')|apply (Hpc t q'); [done|by rewrite <- pc_side_wake]].
  - intros rd t. destruct Hsh; autorewrite with pipe; try apply Hq; try (destruct (Bool.eqb _ _) eqn:He; [apply eqb_prop in He; subst rd; cbn|apply Hq]); try apply Hq.
    + intros Ht. apply Hq. rewrite H. by right.
    + by intros Ht%not_elem_of_nil.
    + rewrite elem_of_app, list_elem_of_singleton. intros [Ht| ->]; [by apply Hq|]. symmetry. by apply Hi.
    + rewrite list_elem_of_filter. intros [_ Ht]. by apply Hq.
    + intros Ht. apply Hq. rewrite H. by right.
    + by intros Ht%not_elem_of_nil.
  - intros rd t j Hj. destruct (decide (j = i)) as [->|Hne]; [|rewrite (step_other_keeps i s s' j) in Hj by (done || apply waking_wake); by eapply Hcur].
    destruct Hsh; erewrite at_task_goto in Hj by (first [exact Hp|autorewrite with pipe; exact Hp|by eapply wake_other_task]); rewrite decide_True in Hj by done; try discriminate;
        try (by destruct (Bool.eqb _ _)); try (by destruct (length m =? 0)); try (by destruct (default false _)); try (by destruct rd0).
    + cbn in Hj. apply andb_true_iff in Hj as [He Ht]. apply eqb_prop in He. apply Nat.eqb_eq in Ht. subst. apply Hq. rewrite H. by left.
    + cbn in Hj. apply andb_true_iff in Hj as [He Ht]. apply eqb_prop in He. apply Nat.eqb_eq in Ht. subst. apply Hq. rewrite H. by left.
Qed.

Lemma cost_eq s p : cost s p = weight (length (tasks s)) (fun rd => active rd s) p + 2 * byte_cost (length (tasks s)) * rest_len p.
Proof. done. Qed.

Definition qlen (s : Pipe) : nat := length (q_tasks (r_wq s)) + length (q_tasks (w_wq s)).

Lemma qlen_set_wq rd q s : qlen (set_wq rd q s) + length (q_tasks (wq rd s)) = qlen s + length (q_tasks q).
Proof. unfold qlen. destruct rd; cbn; lia. Qed.

(** The measure after a step that starts no loop and moves no bytes. *)
Lemma measure_goto s s1 i p p' : tasks s !! i = Some p -> tasks s1 = tasks s -> buffer s1 = buffer s ->
  (forall rd, wakes rd p' = true -> wakes rd p = true) -> rest_len p' <= rest_len p ->
  weight (length (tasks s)) (fun rd => active rd s) p' + 2 * qlen s1 < weight (length (tasks s)) (fun rd => active rd s) p + 2 * qlen s ->
  measure (goto i p' s1) < measure s.
Proof.
  intros Hi Ht Hb Hw Hr Hlt. pose proof (total_goto s s1 i p p' Hi Ht Hw) as Htot. rewrite !cost_eq in Htot. unfold measure.
  change (length (q_tasks (r_wq (goto i p' s1))) + length (q_tasks (w_wq (goto i p' s1)))) with (qlen s1).
  change (length (q_tasks (r_wq s)) + length (q_tasks (w_wq s))) with (qlen s). change (buffer (goto i p' s1)) with (buffer s1). rewrite Hb.
  replace (length (tasks (goto i p' s1))) with (length (tasks s)) by (rewrite tasks_goto, length_insert, Ht; done).
  assert (2 * byte_cost (length (tasks s)) * rest_len p' <= 2 * byte_cost (length (tasks s)) * rest_len p) by (apply Nat.mul_le_mono_l; done). lia.
Qed.

(** The measure after a step that starts a loop. *)
Lemma measure_loop s s1 i p p' : tasks s !! i = Some p -> tasks s1 = tasks s -> buffer s1 = buffer s -> qlen s1 = qlen s -> rest_len p' <= rest_len p ->
  weight (length (tasks s)) (fun rd => active rd s) p' + 9 * length (tasks s) < weight (length (tasks s)) (fun rd => active rd s) p ->
  measure (goto i p' s1) < measure s.
Proof.
  intros Hi Ht Hb Hq Hr Hlt. pose proof (total_loop s s1 i p p' Hi Ht) as Htot. rewrite !cost_eq in Htot. unfold measure.
  change (length (q_tasks (r_wq (goto i p' s1))) + length (q_tasks (w_wq (goto i p' s1)))) with (qlen s1).
  change (length (q_tasks (r_wq s)) + length (q_tasks (w_wq s))) with (qlen s). change (buffer (goto i p' s1)) with (buffer s1). rewrite Hb, Hq.
  replace (length (tasks (goto i p' s1))) with (length (tasks s)) by (rewrite tasks_goto, length_insert, Ht; done).
  assert (2 * byte_cost (length (tasks s)) * rest_len p' <= 2 * byte_cost (length (tasks s)) * rest_len p) by (apply Nat.mul_le_mono_l; done). lia.
Qed.

(** Bytes that move pay for the wake-up. *)
Lemma measure_move s i o acc m b : tasks s !! i = Some (Transfer o acc) -> transfer o (buffer s) (capacity s) = (m, b) -> length m <> 0 ->
  measure (goto i (LockOther o (acc ++ m) (length m)) (set_buffer b s)) < measure s.
Proof.
  intros Hi Ht Hm. pose proof (transfer_spec o (buffer s) (capacity s)) as Hsp. rewrite Ht in Hsp. destruct Hsp as (Hb & Hl & _).
  set (p' := LockOther o (acc ++ m) (length m)). pose proof (total_goto s (set_buffer b s) i _ p' Hi eq_refl ltac:(by intros [])) as Htot. rewrite !cost_eq in Htot. unfold measure.
  replace (length (tasks (goto i p' (set_buffer b s)))) with (length (tasks s)) by (rewrite tasks_goto, length_insert; done).
  cbn [weight p'] in *. change (r_wq (goto i p' (set_buffer b s))) with (r_wq s). change (w_wq (goto i p' (set_buffer b s))) with (w_wq s).
  change (buffer (goto i p' (set_buffer b s))) with b. set (F := byte_cost (length (tasks s))) in *.
  assert (HF : F * 1 <= F * length m) by (apply Nat.mul_le_mono_l; lia). assert (HF2 : F = 9 * length (tasks s) + 2) by done. clearbody F.
  destruct o as [want|rest]; cbn [is_reading io_len rest_len] in *; rewrite Hb, !length_app, ?Nat.mul_add_distr_l, ?Nat.mul_sub_distr_l in *.
  - change (rest_len p') with 0 in Htot. lia.
  - change (rest_len p') with (length rest - length m) in Htot. rewrite Nat.mul_sub_distr_l in Htot. assert (2 * F * length m <= 2 * F * length rest) by (apply Nat.mul_le_mono_l; done). rewrite <- !Nat.mul_assoc in *. lia.
Qed.

Lemma wakes_active s i p rd : tasks s !! i = Some p -> wakes rd p = true -> active rd s = true.
Proof. intros Hi Hw. unfold active. apply existsb_exists. exists p. split; [|done]. apply list_elem_of_In, list_elem_of_lookup. by exists i. Qed.

Lemma active_wakes s rd : active rd s = true -> exists i p, tasks s !! i = Some p /\ wakes rd p = true.
Proof. unfold active. rewrite existsb_exists. intros (p & Hp & Hw). apply list_elem_of_In, list_elem_of_lookup in Hp as [i Hi]. by exists i, p. Qed.

Lemma wakes_holds rd p : wakes rd p = true -> holds_q rd p = true.
Proof. by destruct p. Qed.

(** Waking a task is paid for by the loop. *)
Lemma measure_wake sd s t q i p rd : sides sd s -> tasks s !! i = Some p -> waking rd t p = true -> tasks s !! t = Some q ->
  measure (goto t (wake q) s) <= measure s.
Proof.
  intros Hsd Hi Hw Ht. pose proof (total_goto s s t q (wake q) Ht eq_refl ltac:(by destruct q)) as Htot. unfold measure.
  replace (length (tasks (goto t (wake q) s))) with (length (tasks s)) by (rewrite tasks_goto, length_insert; done).
  change (buffer (goto t (wake q) s)) with (buffer s). change (r_wq (goto t (wake q) s)) with (r_wq s). change (w_wq (goto t (wake q) s)) with (w_wq s).
  assert (cost s (wake q) <= cost s q); [|lia]. destruct q; try (cbn; lia). unfold cost. cbn [wake weight rest_len].
  assert (active (is_reading o) s = true) as ->; [|lia]. eapply wakes_active; [exact Hi|].
  assert (is_reading o = rd) as ->.
  { rewrite (sd_pc sd s Hsd t _ (is_reading o) Ht eq_refl). eapply (sd_cur sd s Hsd rd t i). by rewrite (at_task_Some s i _ _ Hi). }
  destruct p as [| | | |? ? ? [] | | | | | | | | | |? []|]; cbn in *; try done; by apply andb_true_iff in Hw as [? _].
Qed.

Lemma rest_drop n o acc acc' : rest_len (LockOwn (io_drop n o) acc) <= rest_len (CheckDone o acc' n).
Proof. destruct o; cbn; [lia|]. by rewrite length_drop. Qed.

Lemma measure_step sd i s s' : locks_ok s -> sides sd s -> step i s = Some s' -> measure s' < measure s.
Proof.
  intros Hlk Hsd Hs. apply step_shape in Hs as (p & Hp & Hsh).
  assert (Hq : forall rd q s1, qlen s1 = qlen s -> wq rd s1 = wq rd s -> length (q_tasks q) = length (q_tasks (wq rd s)) -> qlen (set_wq rd q s1) = qlen s).
  { intros rd q s1 Hs1 Hw1 Hl. pose proof (qlen_set_wq rd q s1) as Hx. rewrite Hw1 in Hx. lia. }
  destruct Hsh.
  all: try (eapply (measure_goto s); [exact Hp|by autorewrite with pipe|cbn; by autorewrite with pipe|by intros []|cbn; by destruct o|]; try rewrite (Hq _ _ s) by done; unfold qlen; cbn; lia).
  - eapply (measure_goto s); [exact Hp|done|done|by intros []; destruct (Bool.eqb _ _)|by destruct (Bool.eqb _ _), o; cbn; lia|]. destruct (Bool.eqb _ _); unfold qlen; cbn; lia.
  - destruct (Nat.eqb_spec (length m) 0) as [Hz|Hnz]; [|by eapply measure_move].
    pose proof (transfer_spec o (buffer s) (capacity s)) as Hsp. rewrite H in Hsp. destruct Hsp as (_ & _ & _ & _ & Hb). rewrite (Hb Hz).
    eapply (measure_goto s); [exact Hp|done|done|by intros []|destruct o; cbn; lia|unfold qlen; cbn; lia].
  - eapply (measure_loop s); [exact Hp|by autorewrite with pipe|cbn; by autorewrite with pipe|by apply Hq|by destruct o|cbn; lia].
  - eapply Nat.lt_le_trans; [|eapply (measure_wake sd s t p i _ (negb (is_reading o))); [done|exact Hp|cbn; by rewrite eqb_reflx, Nat.eqb_refl|done]].
    eapply (measure_goto (goto t (wake p) s)); [by eapply wake_other_task|done|done|done|by destruct o|unfold qlen; cbn; lia].
  - eapply (measure_goto s); [exact Hp|by autorewrite with pipe|cbn; by autorewrite with pipe|done|by destruct o|].
    pose proof (qlen_set_wq (negb (is_reading o)) (mkQueue (q_holder (wq (negb (is_reading o)) s)) q) s) as Hx. rewrite H in Hx. cbn in *. lia.
  - eapply (measure_goto s); [exact Hp|by autorewrite with pipe|cbn; by autorewrite with pipe|done|by destruct o|]. rewrite (Hq _ _ s); [cbn; lia|done|done|by rewrite H].
  - eapply (measure_goto s); [exact Hp|done|done|done|cbn; lia|unfold qlen; cbn; lia].
  - eapply (measure_goto s); [exact Hp|done|done|done|apply rest_drop|unfold qlen; cbn; lia].
  - eapply (measure_goto s); [exact Hp|by autorewrite with pipe|cbn; by autorewrite with pipe|done|cbn; lia|]. rewrite (Hq _ _ (set_b_holder None s)) by done. cbn. lia.
  - eapply (measure_goto s); [exact Hp|by autorewrite with pipe|cbn; by autorewrite with pipe|done|by destruct o|].
    pose proof (qlen_set_wq (is_reading o) (mkQueue None (q_tasks (wq (is_reading o) s) ++ [i])) s) as Hx. cbn [q_tasks] in Hx. rewrite length_app in Hx. cbn [length] in Hx.
    cbn [weight]. destruct (active (is_reading o) s) eqn:Ha; [|lia]. apply active_wakes in Ha as (j & q & Hj & Hw).
    assert (i = j) as -> by (eapply (holder_unique (is_reading o) s); [done|exact Hp|exact Hj|cbn; apply eqb_reflx|by apply wakes_holds]).
    rewrite Hp in Hj. by injection Hj as <-.
  - eapply (measure_goto s); [exact Hp|done|done|by intros []; destruct (default false _)|by destruct (default false _), o|]. destruct (default false _); unfold qlen; cbn; lia.
  - eapply (measure_goto s); [exact Hp|by autorewrite with pipe|cbn; by autorewrite with pipe|done|cbn; lia|].
    pose proof (qlen_set_wq (is_reading o) (mkQueue None (filter (fun t => t <> i) (q_tasks (wq (is_reading o) s)))) s) as Hx. cbn [q_tasks] in Hx.
    pose proof (length_filter (fun t => t <> i) (q_tasks (wq (is_reading o) s))). cbn [weight]. lia.
  - eapply (measure_goto s); [exact Hp|done|done|done|done|unfold qlen; cbn; lia].
  - eapply (measure_goto s); [exact Hp|done|done|done|done|unfold qlen; cbn; lia].
  - eapply (measure_loop s); [exact Hp|by autorewrite with pipe|cbn; by autorewrite with pipe|by apply Hq|done|cbn; lia].
  - eapply (measure_goto s); [exact Hp|done|done|done|done|unfold qlen; cbn; lia].
  - eapply Nat.lt_le_trans; [|eapply (measure_wake sd s t p i _ rd); [done|exact Hp|cbn; by rewrite eqb_reflx, Nat.eqb_refl|done]].
    eapply (measure_goto (goto t (wake p) s)); [by eapply wake_other_task|done|done|done|done|unfold qlen; cbn; lia].
  - eapply (measure_goto s); [exact Hp|by autorewrite with pipe|cbn; by autorewrite with pipe|done|done|].
    pose proof (qlen_set_wq rd (mkQueue (q_holder (wq rd s)) q) s) as Hx. rewrite H in Hx. cbn in *. lia.
  - eapply (measure_goto s); [exact Hp|by autorewrite with pipe|cbn; by autorewrite with pipe|by destruct rd|by destruct rd|].
    rewrite (Hq _ _ s); [destruct rd; cbn; lia|done|done|by rewrite H].
Qed.
