(* ===== verification/PipeTheorems.v ===== *)
(** * What pipes guarantee

    The statements are about every interleaving of any number of readers,
    writers and closers on one pipe. *)

From S2P Require Import Prelude Vfs Pipe PipeSpec PipeLive.

#[local] Open Scope nat_scope.

(** ** Runs *)

Lemma exec_buffer ls : forall s s', exec ls s = Some s' ->
  buffer s ++ moved false ls s = moved true ls s ++ buffer s' /\ capacity s' = capacity s /\
  (length (buffer s) <= capacity s -> length (buffer s') <= capacity s').
Proof.
  induction ls as [|l ls IH]; intros s s' He; cbn in *; [injection He as <-; by rewrite app_nil_r|].
  destruct (fire l s) as [s1|] eqn:Hf; [|done]. destruct (fire_buffer l s s1 Hf) as (Hb & Hc & Hl), (IH s1 s' He) as (Hb' & Hc' & Hl').
  split; [|split; [congruence|auto]]. by rewrite app_assoc, Hb, <- app_assoc, Hb', app_assoc.
Qed.

Lemma fire_accounts l s s' i p o0 : fire l s = Some s' -> tasks s !! i = Some p -> accounts (is_closed s) o0 p ->
  exists p', tasks s' !! i = Some p' /\ accounts (is_closed s') o0 p' /\ acc_of p' = acc_of p ++ moves_by i l s.
Proof.
  intros Hf Hi Ha. destruct l as [j|j]; cbn [fire moves_by] in *.
  - destruct (decide (j = i)) as [->|Hne]; [pose proof (step_self i s s' o0 p Hf Hi Ha) as Hs; cbn [moves_by] in Hs; by rewrite decide_True in Hs|].
    destruct (step_other j s s' i p Hf ltac:(done) Hi) as [Ht Hc]. rewrite app_nil_r.
    destruct Ht as [Ht|Ht]; (eexists; split; [exact Ht|]; split; [|done || apply acc_of_wake]); [|apply accounts_wake]; by eapply accounts_closed.
  - injection Hf as <-. cbn. rewrite app_nil_r, list_lookup_alter, Hi. case_decide as Hj; cbn; [|by exists p].
    exists (wake p). rewrite Hj, Hi. split; [done|]. split; [by apply accounts_wake|apply acc_of_wake].
Qed.

Lemma exec_accounts ls : forall s s' i p o0, exec ls s = Some s' -> tasks s !! i = Some p -> accounts (is_closed s) o0 p ->
  exists p', tasks s' !! i = Some p' /\ accounts (is_closed s') o0 p' /\ acc_of p' = acc_of p ++ moved_by i ls s.
Proof.
  induction ls as [|l ls IH]; intros s s' i p o0 He Hi Ha; cbn in *; [injection He as <-; exists p; by rewrite app_nil_r|].
  destruct (fire l s) as [s1|] eqn:Hf; [|done]. destruct (fire_accounts l s s1 i p o0 Hf Hi Ha) as (p1 & Hp1 & Ha1 & Hacc1).
  destruct (IH s1 s' i p1 o0 He Hp1 Ha1) as (p' & Hp' & Ha' & Hacc'). exists p'. by rewrite Hacc', Hacc1, app_assoc.
Qed.

Lemma exec_live sd sched : forall s s', exec (Run <$> sched) s = Some s' -> live s -> sides sd s ->
  live s' /\ sides sd s' /\ measure s' + length sched <= measure s.
Proof.
  induction sched as [|i sched IH]; intros s s' He Hl Hsd; cbn in *; [injection He as <-; split; [done|]; split; [done|lia]|].
  destruct (step i s) as [s1|] eqn:Hs; [|done]. pose proof (measure_step sd i s s1 (lv_locks s Hl) Hsd Hs).
  destruct (IH s1 s' He (live_step i s s1 Hl Hs) (sides_step sd i s s1 Hsd Hs)) as (Hl' & Hsd' & Hm). split; [done|]. split; [done|lia].
Qed.

Definition side_of (calls : list pc) (i : nat) : bool := default false (calls !! i ≫= pc_side).

Lemma sides_start cap calls : Forall (fun p => is_start p = true) calls -> sides (side_of calls) (with_buffer_size cap calls).
Proof.
  intros Hst. split.
  - intros t p b Ht Hb. unfold side_of. cbn in Ht. rewrite Ht. cbn. by rewrite Hb.
  - intros rd t Ht. destruct rd; by apply not_elem_of_nil in Ht.
  - intros rd t j Hj. rewrite start_at in Hj; [done|done|by intros []].
Qed.

(** ** Theorems *)

(** C24. A pipe is a queue of bytes: in every run, with any number of tasks and
    with signals, the bytes that were written are the bytes that were read
    followed by those in the buffer, which never exceeds its capacity. *)
Theorem pipe_fifo cap calls ls s (Hrun : exec ls (with_buffer_size cap calls) = Some s) :
  moved false ls (with_buffer_size cap calls) = moved true ls (with_buffer_size cap calls) ++ buffer s /\ length (buffer s) <= cap.
Proof.
  destruct (exec_buffer ls _ s Hrun) as (Hb & Hc & Hl). split; [exact Hb|]. cbn in *. rewrite Hc in Hl. apply Hl. lia.
Qed.

(** The result of a call: a call that returns a count transferred that many
    bytes, a writer the first bytes of its data, and the count is short only
    if the pipe is closed. *)
Theorem pipe_result cap calls ls s i e o n acc (Hrun : exec ls (with_buffer_size cap calls) = Some s)
  (Hcall : calls !! i = Some (Call e o)) (Hdone : tasks s !! i = Some (Done (inl n) acc)) :
  acc = moved_by i ls (with_buffer_size cap calls) /\ n = length acc /\ n <= io_len o /\
  (n < io_len o -> is_closed s = true) /\ match o with Writing data => acc = take n data | Reading _ => True end.
Proof.
  destruct (exec_accounts ls _ s i (Call e o) o Hrun Hcall eq_refl) as (p' & Hp' & Ha & Hacc). rewrite Hdone in Hp'. injection Hp' as <-.
  cbn in Ha, Hacc. destruct Ha as (-> & (o' & Hs) & Hc). split; [done|]. split; [done|]. pose proof (splits_len _ _ _ Hs) as Hl.
  split; [lia|]. split; [intros Hlt; apply Hc; lia|]. destruct o, o'; cbn in Hs; try done. subst. by rewrite take_app_length.
Qed.

(** C25. No lost wake-up: when no task can step any more and no signal was sent,
    every call has returned or sleeps in an open pipe, a reader because the
    buffer is empty, a writer because it is full; never a reader and a
    writer. *)
Theorem pipe_no_lost_wakeup cap calls sched s (Hstart : Forall (fun p => is_start p = true) calls)
  (Hrun : exec (Run <$> sched) (with_buffer_size cap calls) = Some s) (Hq : quiescent s) :
  (forall i p, tasks s !! i = Some p -> (exists r acc, p = Done r acc) \/
     exists o acc, p = Asleep o acc /\ is_closed s = false /\ if is_reading o then buffer s = [] else length (buffer s) = cap) /\
  (0 < cap -> forall i j o1 acc1 o2 acc2, tasks s !! i = Some (Asleep o1 acc1) -> tasks s !! j = Some (Asleep o2 acc2) -> is_reading o1 = is_reading o2).
Proof.
  destruct (exec_live (side_of calls) sched _ s Hrun (live_start cap calls Hstart) (sides_start cap calls Hstart)) as (Hl & _ & _).
  destruct (exec_buffer _ _ s Hrun) as (_ & Hc & Hb). cbn in Hc, Hb. specialize (Hb ltac:(lia)).
  assert (Hrest : forall i o acc, tasks s !! i = Some (Asleep o acc) -> is_closed s = false /\ if is_reading o then buffer s = [] else length (buffer s) = cap).
  { intros i o acc Hi. destruct (quiescent_asleep s i o acc Hl Hq Hi) as [Hst Hcl]. split; [done|]. unfold stuck_for in Hst. destruct (is_reading o); [done|lia]. }
  split.
  - intros i p Hi. destruct (quiescent_rest s i p Hl Hq Hi) as [?|(o & acc & ->)]; [by left|right]. exists o, acc. split; [done|by eapply Hrest].
  - intros Hcap i j o1 acc1 o2 acc2 Hi Hj. destruct (Hrest _ _ _ Hi) as [_ H1], (Hrest _ _ _ Hj) as [_ H2].
    destruct (is_reading o1), (is_reading o2); try done; rewrite ?H1, ?H2 in *; cbn in *; lia.
Qed.

(** C26. Every schedule without signals is finite: its length is bounded by the
    number of tasks and of the bytes to write. *)
Theorem pipe_terminates cap calls sched s (Hstart : Forall (fun p => is_start p = true) calls)
  (Hrun : exec (Run <$> sched) (with_buffer_size cap calls) = Some s) :
  length sched <= measure (with_buffer_size cap calls).
Proof.
  destruct (exec_live (side_of calls) sched _ s Hrun (live_start cap calls Hstart) (sides_start cap calls Hstart)) as (_ & _ & Hm). lia.
Qed.

(** ** Examples *)

(** A reader of two or five bytes and a writer of three on a buffer of two. *)
Definition demo_calls (want : nat) : list pc := [Call true (Reading want); Call false (Writing [104%Z; 105%Z; 33%Z])].
Definition demo_short : list nat := replicate 7 0 ++ replicate 11 1 ++ replicate 8 0 ++ replicate 6 1.
Definition demo_long : list nat := replicate 7 0 ++ replicate 11 1 ++ replicate 11 0 ++ replicate 8 1 ++ replicate 9 0.

Definition demo_end (want : nat) (sched : list nat) : Pipe := default (with_buffer_size 2 []) (exec (Run <$> sched) (with_buffer_size 2 (demo_calls want))).

Lemma demo_start want : Forall (fun p => is_start p = true) (demo_calls want).
Proof. repeat constructor. Qed.

Lemma pipe_fifo_witness : moved true (Run <$> demo_short) (with_buffer_size 2 (demo_calls 2)) = [104%Z; 105%Z] /\
  moved false (Run <$> demo_short) (with_buffer_size 2 (demo_calls 2)) = moved true (Run <$> demo_short) (with_buffer_size 2 (demo_calls 2)) ++ buffer (demo_end 2 demo_short) /\
  length (buffer (demo_end 2 demo_short)) <= 2.
Proof.
  split; [vm_compute; reflexivity|]. apply (pipe_fifo 2 (demo_calls 2) (Run <$> demo_short) (demo_end 2 demo_short)). vm_compute. reflexivity.
Defined.

Lemma pipe_result_witness : tasks (demo_end 2 demo_short) !! 1 = Some (Done (inl 3) [104%Z; 105%Z; 33%Z]) /\
  [104%Z; 105%Z; 33%Z] = moved_by 1 (Run <$> demo_short) (with_buffer_size 2 (demo_calls 2)) /\ 3 = length [104%Z; 105%Z; 33%Z] /\
  3 <= io_len (Writing [104%Z; 105%Z; 33%Z]) /\ (3 < io_len (Writing [104%Z; 105%Z; 33%Z]) -> is_closed (demo_end 2 demo_short) = true) /\
  [104%Z; 105%Z; 33%Z] = take 3 [104%Z; 105%Z; 33%Z].
Proof.
  split; [vm_compute; reflexivity|].
  apply (pipe_result 2 (demo_calls 2) (Run <$> demo_short) (demo_end 2 demo_short) 1 false (Writing [104%Z; 105%Z; 33%Z]) 3 [104%Z; 105%Z; 33%Z]); vm_compute; reflexivity.
Defined.

Lemma pipe_no_lost_wakeup_witness : tasks (demo_end 5 demo_long) !! 0 = Some (Asleep (Reading 2) [104%Z; 105%Z; 33%Z]) /\
  (forall i p, tasks (demo_end 5 demo_long) !! i = Some p -> (exists r acc, p = Done r acc) \/
     exists o acc, p = Asleep o acc /\ is_closed (demo_end 5 demo_long) = false /\ if is_reading o then buffer (demo_end 5 demo_long) = [] else length (buffer (demo_end 5 demo_long)) = 2) /\
  (0 < 2 -> forall i j o1 acc1 o2 acc2, tasks (demo_end 5 demo_long) !! i = Some (Asleep o1 acc1) -> tasks (demo_end 5 demo_long) !! j = Some (Asleep o2 acc2) -> is_reading o1 = is_reading o2).
Proof.
  split; [vm_compute; reflexivity|]. apply (pipe_no_lost_wakeup 2 (demo_calls 5) demo_long (demo_end 5 demo_long) (demo_start 5)); [vm_compute; reflexivity|].
  intros [|[|i]]; vm_compute; reflexivity.
Defined.

Lemma pipe_terminates_witness : length demo_long = 46 /\ length demo_long <= measure (with_buffer_size 2 (demo_calls 5)).
Proof.
  split; [vm_compute; reflexivity|]. apply (pipe_terminates 2 (demo_calls 5) demo_long (demo_end 5 demo_long) (demo_start 5)). vm_compute. reflexivity.
Defined.

(** ** Signals *)

Definition small_calls : list pc := [Call true (Reading 2); Call false (Writing [42%Z])].

(** A signal can deadlock a reader and a writer: the writer takes the reader
    from the queue and waits for the lock of its task, which the reader holds
    while it waits for the lock of the queue to remove itself. *)
Theorem interrupt_deadlock :
  exists s, exec ((Run <$> replicate 7 0 ++ replicate 5 1) ++ [Kill 0; Run 0]) (with_buffer_size 2 small_calls) = Some s /\
    quiescent s /\ tasks s = [LockRetain (Reading 2) []; WakeOther (Writing [42%Z]) [42%Z] 1 (Some 0)].
Proof. eexists. split; [vm_compute; reflexivity|]. split; [intros [|[|i]]; vm_compute; reflexivity|vm_compute; reflexivity]. Qed.

(** A [read] that is interrupted after it took a byte from the pipe returns
    an error, and the byte is neither returned nor in the pipe. *)
Theorem interrupted_read_loses_bytes :
  exists s, exec ((Run <$> replicate 6 1 ++ replicate 9 0) ++ [Kill 0; Run 0; Run 0]) (with_buffer_size 2 small_calls) = Some s /\
    tasks s = [Done (inr Vfs.Sys.Interrupted) [42%Z]; Done (inl 1) [42%Z]] /\ buffer s = [].
Proof. eexists. split; [vm_compute; reflexivity|]. split; vm_compute; reflexivity. Qed.
