(* ===== verification/InodeOps.v ===== *)
(** * The inode interface of the VFS (src/fs/redwing_vfs/src/lib.rs)

    The traits [VfsOps] and [VfsINodeOps] as a class over the state [W] of
    the file systems, the type [F] of references to a file system and the
    type [R] of references to an inode; the provided methods of the traits,
    and the directory iterator [ReadDir].  A reference is an [Arc]: cloning
    and dropping one are operations of the class, because dropping the last
    reference to an inode has effects.  The file systems that implement the
    class are those of [EfsVfs], [RamFs] and [Mount]. *)

From S2P Require Import Prelude Bytes Vfs Dir EfsVfs.
Import Vfs.

#[local] Open Scope Z_scope.
#[local] Open Scope rw_scope.

(** A destination buffer is given by its length, and the bytes stored in it
    are returned; so are the entries of [get_dirents], after the distance by
    which the offset moved.  The target directory of [rename] may be an inode
    of any implementation; none looks at it, and it is left out. *)
Class VfsINodeOps (W F R : Type) : Type := {
  v_root : F -> M W FsErrorKind R;
  v_sync : F -> M W FsErrorKind unit;
  v_read : R -> Z -> Z -> M W FsErrorKind (list Z);
  v_write : R -> Z -> list Z -> M W FsErrorKind Z;
  v_metadata : R -> M W FsErrorKind Stat;
  v_create : R -> list Z -> UFileType -> M W FsErrorKind R;
  v_unlink : R -> list Z -> M W FsErrorKind unit;
  v_rename : R -> list Z -> list Z -> M W FsErrorKind unit;
  v_get_dirents : R -> Z -> Z -> M W FsErrorKind (Z * list Dirent);
  v_try_lookup : R -> list Z -> M W FsErrorKind (option R);
  v_truncate : R -> Z -> M W FsErrorKind Z;
  v_clone : R -> W -> W;
  v_drop : R -> W -> W;
  v_clone_fs : F -> W -> W;
  v_drop_fs : F -> W -> W
}.

(** [Dirent::with_stat]: the slice of the name array panics for a long name. *)
Definition with_stat {S E} (stat : Stat) (name : list Z) : M S E Dirent :=
  if 256 <? zlen name then panic
  else ret (mkUDirent (st_ino stat) (st_typ stat) (splice 0 name (replicate 256 0)) (zlen name)).

(** [Dirent::name] *)
Definition entry_name (d : Dirent) : list Z := take (Z.to_nat (u_name_len d)) (u_name d).

Lemma with_stat_name {S E} (stat : Stat) (name : list Z) (s : S) : zlen name <= 256 ->
  exists d, with_stat (E := E) stat name s = (Ok d, s) /\ entry_name d = name /\
            u_inode_no d = st_ino stat /\ u_typ d = st_typ stat.
Proof.
  intros H. unfold with_stat. rewrite (proj2 (Z.ltb_ge _ _)) by done. eexists. split; [done|].
  split; [|done]. unfold entry_name, splice. cbn [u_name_len u_name]. rewrite Nat2Z.id. simpl.
  by rewrite take_app_le, take_ge by lia.
Qed.

Section provided.
Context {W F R : Type} `{VfsINodeOps W F R}.
#[local] Notation IM := (M W FsErrorKind).

(** A reference that goes out of scope after [m]. *)
Definition scoped {A} (r : R) (m : IM A) : IM A :=
  fun w => let (o, w') := m w in (o, v_drop r w').

Definition lookup (r : R) (name : list Z) : IM R :=
  do o <- v_try_lookup r name; ok_or o NoSuchFileOrDirectory.

Definition file_type (r : R) : IM UFileType := do st <- v_metadata r; ret (st_typ st).

Definition check_type_is_file (r : R) : IM unit :=
  do t <- file_type r;
  match t with
  | UDirectory => fail IsADirectory
  | USymlink => fail Unsupported
  | RegularFile | UDevice => ret tt
  end.

Definition is_file (r : R) : IM bool :=
  do t <- file_type r;
  match t with
  | UDirectory => ret false
  | USymlink => fail Unsupported
  | RegularFile | UDevice => ret true
  end.

Definition is_directory (r : R) : IM bool := do t <- file_type r; ret (bool_decide (t = UDirectory)).

(** The bytes of the structure of [size] bytes. *)
Definition read_struct (r : R) (offset size : Z) : IM (list Z) :=
  do b <- v_read r offset size;
  if negb (zlen b =? size) then fail InvalidArgument else ret b.

(** ** [ReadDir] *)

Record ReadDir : Type := mkReadDir { buffer : list Dirent; cur_offset : Z; idx_in_buf : Z; buf_len : Z }.

Definition Dirent_default : Dirent := mkUDirent 0 RegularFile (replicate 256 0) 0.

Definition ReadDir_new : ReadDir := mkReadDir (replicate 32 Dirent_default) 0 0 1.

(** An error of [get_dirents] is returned as an item, and leaves the iterator
    as it was. *)
Definition next (r : R) (it : ReadDir) : IM (option Dirent * ReadDir) :=
  if buf_len it =? 0 then ret (None, it) else
  do it <- (if idx_in_buf it =? 0
            then do res <- v_get_dirents r (cur_offset it) (zlen (buffer it));
                 ret (mkReadDir (splice 0 res.2 (buffer it)) (cur_offset it + res.1) (idx_in_buf it) (zlen res.2))
            else ret it);
  if buf_len it =? 0 then ret (None, it) else
  do dirent <- unwrap (buffer it !! Z.to_nat (idx_in_buf it));
  ret (Some dirent, mkReadDir (buffer it) (cur_offset it) ((idx_in_buf it + 1) mod buf_len it) (buf_len it)).

(** The items up to the end of the iterator, [None] when [n] calls of [next]
    have not reached it. *)
Fixpoint collect (n : nat) (r : R) (it : ReadDir) : IM (option (list Dirent)) :=
  match n with
  | O => ret None
  | S n' =>
    do res <- next r it;
    match res.1 with
    | None => ret (Some [])
    | Some d => do o <- collect n' r res.2; ret (cons d <$> o)
    end
  end.

(** ** The entries of a directory

    [lists r I rest]: the directory [r], in the states of [I], holds a fixed
    sequence of entries, of which those from the offset [off] on are
    [rest off]; [get_dirents] stores a prefix of them and stores at least one
    when there is one left. *)
Definition lists (r : R) (I : W -> Prop) (rest : Z -> list Dirent) : Prop :=
  forall off room w, I w -> 0 <= off -> 0 < room ->
  exists d ds w', v_get_dirents r off room w = (Ok (d, ds), w') /\ I w' /\
    0 <= d /\ zlen ds <= room /\ rest off = ds ++ rest (off + d) /\ (ds = [] -> rest off = []).

(** The items left in the buffer of an iterator that stands in the middle of
    it, and what the directory has after them. *)
Definition pending (it : ReadDir) (rest : Z -> list Dirent) (l : list Dirent) : Prop :=
  length (buffer it) = 32%nat /\ 0 <= cur_offset it /\ 0 <= idx_in_buf it /\ 0 < buf_len it <= 32 /\
  ((idx_in_buf it = 0 /\ l = rest (cur_offset it)) \/
   (0 < idx_in_buf it < buf_len it /\
    l = sub (idx_in_buf it) (buf_len it - idx_in_buf it) (buffer it) ++ rest (cur_offset it))).

Lemma sub_cons {A} (i n : Z) (b : list A) (x : A) (l : list A) : 0 <= i -> 0 < n ->
  sub i n b = x :: l <-> b !! Z.to_nat i = Some x /\ sub (i + 1) (n - 1) b = l.
Proof.
  intros. unfold sub. replace (Z.to_nat n) with (S (Z.to_nat (n - 1))) by lia.
  replace (Z.to_nat (i + 1)) with (S (Z.to_nat i)) by lia.
  destruct (b !! Z.to_nat i) as [y|] eqn:Hy.
  - rewrite (drop_S _ _ _ Hy). simpl. naive_solver.
  - rewrite drop_ge by (by apply lookup_ge_None). naive_solver.
Qed.

(** The iterator just after item [i] of a buffer of [n] items. *)
Lemma pending_next it rest i x l tl : length (buffer it) = 32%nat -> 0 <= cur_offset it -> 0 <= i ->
  0 < buf_len it <= 32 -> i < buf_len it ->
  sub i (buf_len it - i) (buffer it) = x :: l -> tl = l ++ rest (cur_offset it) ->
  pending (mkReadDir (buffer it) (cur_offset it) ((i + 1) mod buf_len it) (buf_len it)) rest tl.
Proof.
  intros Hb Hc Hi Hn Hlt Hs ->. unfold pending. cbn [buffer cur_offset idx_in_buf buf_len].
  apply sub_cons in Hs as [_ Hs]; [|lia..].
  split_and!; [done|done|lia|lia|lia|]. destruct (decide (i + 1 = buf_len it)) as [He|He].
  - left. rewrite He, Z_mod_same_full. split; [done|].
    rewrite <- Hs. unfold sub. by replace (Z.to_nat (buf_len it - i - 1)) with 0%nat by lia.
  - right. rewrite Z.mod_small by lia. split; [lia|]. f_equal. rewrite <- Hs. f_equal. lia.
Qed.

Lemma readdir_next_spec r I rest it l w : lists r I rest -> I w -> pending it rest l ->
  exists it' w', I w' /\
    match l with
    | [] => next r it w = (Ok (None, it'), w')
    | x :: tl => next r it w = (Ok (Some x, it'), w') /\ pending it' rest tl
    end.
Proof.
  intros HL HI (Hb & Hc & Hi & Hn & Hcase). unfold next.
  rewrite (proj2 (Z.eqb_neq (buf_len it) 0)) by lia.
  destruct Hcase as [[H0 ->]|[Hr ->]].
  - rewrite H0. cbn [Z.eqb]. rewrite Hb.
    destruct (HL (cur_offset it) (Z.of_nat 32) w HI Hc ltac:(lia)) as (d & ds & w' & Hg & HI' & Hd & Hds & Hrest & Hnil).
    unfold bind. rewrite Hg. cbn [ret fst snd buf_len]. destruct ds as [|x ds].
    + rewrite (Hnil eq_refl). eexists _, w'. by split.
    + rewrite Hrest. cbn [Z.eqb length buffer idx_in_buf]. cbn [length] in Hds.
      assert (Hs : sub 0 (zlen (x :: ds)) (splice 0 (x :: ds) (buffer it)) = x :: ds)
        by (apply sub_splice_eq; cbn [length]; lia).
      rewrite (proj2 (Z.eqb_neq _ _)) by lia.
      pose proof (proj1 (sub_cons 0 (zlen (x :: ds)) _ x ds ltac:(lia) ltac:(cbn [length]; lia)) Hs) as [Hx _].
      rewrite Hx. cbn [unwrap ret]. eexists _, w'. split; [done|]. split; [done|].
      assert (Hl : 0 < zlen (x :: ds) <= 32) by (cbn [length]; lia).
      apply (pending_next (mkReadDir (splice 0 (x :: ds) (buffer it)) (cur_offset it + d) 0 (zlen (x :: ds))) rest 0 x ds);
        cbn [buffer cur_offset buf_len]; try (lia || done).
      by rewrite splice_length by lia.
  - rewrite (proj2 (Z.eqb_neq (idx_in_buf it) 0)) by lia.
    unfold bind, ret. rewrite (proj2 (Z.eqb_neq (buf_len it) 0)) by lia.
    destruct (sub (idx_in_buf it) (buf_len it - idx_in_buf it) (buffer it)) as [|x tl] eqn:Hs.
    { pose proof (sub_length (idx_in_buf it) (buf_len it - idx_in_buf it) (buffer it)) as Hl.
      rewrite Hs in Hl. simpl in Hl. lia. }
    pose proof (proj1 (sub_cons (idx_in_buf it) (buf_len it - idx_in_buf it) _ x tl ltac:(lia) ltac:(lia)) Hs) as [Hx _].
    rewrite Hx. cbn [unwrap ret app]. eexists _, w. split; [done|]. split; [done|].
    eapply pending_next; done || lia.
Qed.

Lemma collect_spec r I rest l n it w : lists r I rest -> I w -> pending it rest l -> (length l < n)%nat ->
  exists w', collect n r it w = (Ok (Some l), w') /\ I w'.
Proof.
  intros HL. revert n it w. induction l as [|x l IH]; intros [|n] it w HI Hp Hn; try (simpl in Hn; lia).
  - destruct (readdir_next_spec r I rest it [] w HL HI Hp) as (it' & w' & HI' & Hx).
    exists w'. simpl. unfold bind. by rewrite Hx.
  - destruct (readdir_next_spec r I rest it (x :: l) w HL HI Hp) as (it' & w' & HI' & Hx & Hp').
    destruct (IH n it' w' HI' Hp') as (w'' & Hc & HI''); [simpl in Hn; lia|].
    exists w''. split; [|done]. simpl. unfold bind. rewrite Hx. cbn [fst snd]. by rewrite Hc.
Qed.

(** The number of calls that [collect] may make does not change what it
    returns. *)
Lemma collect_det n m r it w l l' w1 w2 :
  collect n r it w = (Ok (Some l), w1) -> collect m r it w = (Ok (Some l'), w2) -> w1 = w2.
Proof.
  revert m it w l l'. induction n as [|n IH]; intros [|m] it w l l' Hn Hm; simpl in *; try done.
  unfold bind in *. destruct (next r it w) as [[[[d|] it']|e|] w']; simpl in *; [|by unfold ret in *; simplify_eq|done..].
  destruct (collect n r it' w') as [[[x|]|e|] wn] eqn:Hx; simpl in *; try done.
  destruct (collect m r it' w') as [[[y|]|e|] wm] eqn:Hy; simpl in *; try done.
  unfold ret in *. simplify_eq. by eapply IH.
Qed.

Lemma pending_new rest : pending ReadDir_new rest (rest 0).
Proof. unfold pending, ReadDir_new. cbn [buffer cur_offset idx_in_buf buf_len]. rewrite length_replicate. naive_solver lia. Qed.

End provided.
