(* ===== verification/HashMap.v ===== *)
(** * The hash map of the hashbrown crate

    The kernel and the file systems keep directories, mount points and
    devices in [hashbrown::HashMap].  The crate is not part of the sources:
    the operations used are a class, and what is relied on is the class of
    laws, which states the map by its contents ([hm_map]).  The order of
    iteration is not specified; it is a function of the map, so it stays the
    same while the map is not modified. *)

From S2P Require Import Prelude.

Class HashMap (K V T : Type) : Type := {
  hm_empty : T;
  hm_get : K -> T -> option V;
  hm_insert : K -> V -> T -> T;
  hm_remove : K -> T -> T;
  hm_iter : T -> list (K * V)
}.

Definition hm_len {K V T} `{HashMap K V T} (t : T) : Z := Z.of_nat (length (hm_iter t)).

Class HashMapLaws (K V T : Type) `{Countable K} `{HashMap K V T} : Type := {
  hm_map : T -> gmap K V;
  hm_empty_map : hm_map hm_empty = ∅;
  hm_get_map k t : hm_get k t = hm_map t !! k;
  hm_insert_map k v t : hm_map (hm_insert k v t) = <[k := v]> (hm_map t);
  hm_remove_map k t : hm_map (hm_remove k t) = delete k (hm_map t);
  hm_iter_map t : hm_iter t ≡ₚ map_to_list (hm_map t)
}.

(** A map that iterates in the order of its keys' encodings. *)
#[export] Instance gmap_hash {K V} `{Countable K} : HashMap K V (gmap K V) := {|
  hm_empty := ∅;
  hm_get := fun k t => t !! k;
  hm_insert := fun k v t => <[k := v]> t;
  hm_remove := fun k t => delete k t;
  hm_iter := map_to_list
|}.

#[export] Instance gmap_hash_laws {K V} `{Countable K} : HashMapLaws K V (gmap K V).
Proof. refine {| hm_map := fun t : gmap K V => t |}; done. Defined.

Section laws.
Context {K V T : Type} `{HashMapLaws K V T}.

Lemma hm_iter_insert k v t : hm_get k t = None ->
  hm_iter (hm_insert k v t) ≡ₚ (k, v) :: hm_iter t.
Proof.
  rewrite hm_get_map. intros Hk. rewrite !hm_iter_map, hm_insert_map. by apply map_to_list_insert.
Qed.

Lemma hm_iter_remove k v t : hm_get k t = Some v ->
  hm_iter t ≡ₚ (k, v) :: hm_iter (hm_remove k t).
Proof.
  rewrite hm_get_map. intros Hk. rewrite !hm_iter_map, hm_remove_map.
  rewrite <- map_to_list_insert by apply lookup_delete_eq. by rewrite insert_delete_id.
Qed.

Lemma hm_iter_replace k v v' t : hm_get k t = Some v ->
  hm_iter (hm_insert k v' t) ≡ₚ (k, v') :: hm_iter (hm_remove k t).
Proof.
  rewrite hm_get_map. intros Hk. rewrite !hm_iter_map, hm_insert_map, hm_remove_map.
  rewrite <- map_to_list_insert by apply lookup_delete_eq. by rewrite insert_delete_eq.
Qed.

Lemma hm_iter_empty : hm_iter hm_empty = [].
Proof. apply Permutation_nil. by rewrite hm_iter_map, hm_empty_map, map_to_list_empty. Qed.

Lemma hm_remove_none k t : hm_get k t = None -> hm_map (hm_remove k t) = hm_map t.
Proof. rewrite hm_get_map. intros. rewrite hm_remove_map. by apply delete_id. Qed.

Lemma elem_of_hm_iter k v t : (k, v) ∈ hm_iter t <-> hm_get k t = Some v.
Proof. rewrite hm_iter_map, hm_get_map. apply elem_of_map_to_list. Qed.

Lemma hm_iter_nodup t : NoDup (hm_iter t).*1.
Proof. rewrite hm_iter_map. apply NoDup_fst_map_to_list. Qed.
End laws.
