(* ===== verification/RamFs.v ===== *)
(** * File systems in memory and device files
      (src/fs/redwing_ram, src/kernel/src/fs/vfs/dev.rs,
       src/kernel/src/devices/mod.rs)

    The inodes of the memory file systems are objects behind [Arc] and
    [Weak]: the state is a heap of objects with their strong counts, a weak
    reference is an address, and upgrading one looks whether the object is
    still there.  An address is not used again, because a weak reference
    keeps the memory of a dead object.  Several file systems share the heap;
    a file system is an object too.  The content of a read-only file comes
    from a provider, a device from the table of devices; both are classes. *)

From S2P Require Import Prelude Bytes Vfs Dir EfsVfs HashMap InodeOps.
Import Vfs.

#[local] Open Scope Z_scope.
#[local] Open Scope rw_scope.

(** [FileContentProvider]: the content may differ from call to call. *)
Class FileContentProvider (P : Type) : Type := {
  provide_content : P -> list Z * P;
  size_hint : P -> option Z
}.

(** [impl FileContentProvider for &'static str] *)
#[export] Instance str_provider : FileContentProvider (list Z) := {|
  provide_content := fun s => (s, s);
  size_hint := fun s => Some (zlen s)
|}.

Record DeviceInfo : Type := mkInfo { device_no : Z; dev_name : list Z; file_name : list Z }.

(** The trait [Device], with the state of the device. *)
Class Device (D : Type) : Type := {
  info : D -> DeviceInfo;
  dev_read : Z -> Z -> M D Sys.SysErrorKind (list Z);
  dev_write : Z -> list Z -> M D Sys.SysErrorKind Z
}.

(** [NullDev] and [ZeroDev] *)
Inductive BuiltinDev : Type := NullDev | ZeroDev.

Definition NULL_DEV_NO : Z := 2.
Definition ZERO_DEV_NO : Z := 3.

#[export] Instance builtin_device : Device BuiltinDev := {|
  info := fun d => match d with
    | NullDev => mkInfo NULL_DEV_NO (bytes_of "null") (bytes_of "null")
    | ZeroDev => mkInfo ZERO_DEV_NO (bytes_of "zero") (bytes_of "zero")
    end;
  dev_read := fun _ len d => match d with
    | NullDev => (Ok [], d)
    | ZeroDev => (Ok (replicate (Z.to_nat len) 0), d)
    end;
  dev_write := fun _ buf d => match d with
    | NullDev => (Ok 0, d)
    | ZeroDev => (Ok (zlen buf), d)
    end
|}.

Definition ROOT_INO : Z := 1.

(** A reference to an object is its address; so is a weak one, which is
    [None] when it was created by [Weak::new()]. *)
Section ram.
Context {P D T : Type} `{FileContentProvider P} `{Device D} `{HashMap (list Z) Z T}.

(** [RamDirectory]; [dir_fs] and [parent] are weak references. *)
Record ram_dir : Type := mkDir {
  dir_no : Z;
  dir_fs : Z;
  parent : option Z;
  children : T;
  read_only : bool
}.

(** The implementations of [VfsINodeOps]; [fs] is the weak reference to the
    file system. *)
Inductive node : Type :=
| RamFile (inode_no fs : Z) (content : list Z)
| ReadOnlyRamFile (inode_no fs : Z) (content_provider : P) (buffer : option (list Z))
| RamDirectory (d : ram_dir)
| RamInodeWrapper (inode_no fs : Z) (inner : Z)
| DevINode (dev_no : Z).

Record RamFileSystem : Type := mkRamFs { fs_root : Z; fs_inode_no : Z }.

Record world : Type := mkWorld {
  heap : gmap Z (nat * node);
  fss : gmap Z (nat * RamFileSystem);
  next_addr : Z;
  devices : gmap Z D
}.

#[local] Notation RM := (M world FsErrorKind).

Definition set_heap (h : gmap Z (nat * node)) (w : world) : world := mkWorld h (fss w) (next_addr w) (devices w).
Definition set_fss (f : gmap Z (nat * RamFileSystem)) (w : world) : world := mkWorld (heap w) f (next_addr w) (devices w).

(** ** [Arc] and [Weak] *)

(** The references an object owns. *)
Definition refs (n : node) : list Z :=
  match n with
  | RamDirectory d => (hm_iter (children d)).*2
  | RamInodeWrapper _ _ inner => [inner]
  | _ => []
  end.

Definition clone_ref (r : Z) (h : gmap Z (nat * node)) : gmap Z (nat * node) :=
  match h !! r with
  | Some (c, n) => <[r := (S c, n)]> h
  | None => h
  end.

(** Dropping the last reference drops the object, and with it the references
    it owns.  An object is dropped once, so the size of the heap bounds the
    depth. *)
Fixpoint drop_ref (fuel : nat) (r : Z) (h : gmap Z (nat * node)) : gmap Z (nat * node) :=
  match fuel with
  | O => h
  | S fuel' =>
    match h !! r with
    | Some (1%nat, n) => foldl (fun h c => drop_ref fuel' c h) (delete r h) (refs n)
    | Some (c, n) => <[r := (pred c, n)]> h
    | None => h
    end
  end.

Definition drop_heap (r : Z) (h : gmap Z (nat * node)) : gmap Z (nat * node) := drop_ref (S (size h)) r h.

Definition ram_clone (r : Z) (w : world) : world := set_heap (clone_ref r (heap w)) w.
Definition ram_drop (r : Z) (w : world) : world := set_heap (drop_heap r (heap w)) w.

Definition ram_clone_fs (f : Z) (w : world) : world :=
  match fss w !! f with
  | Some (c, x) => set_fss (<[f := (S c, x)]> (fss w)) w
  | None => w
  end.

Definition ram_drop_fs (f : Z) (w : world) : world :=
  match fss w !! f with
  | Some (1%nat, x) => ram_drop (fs_root x) (set_fss (delete f (fss w)) w)
  | Some (c, x) => set_fss (<[f := (pred c, x)]> (fss w)) w
  | None => w
  end.

(** [Arc::new] *)
Definition new_node (n : node) : RM Z :=
  do w <- get;
  put (mkWorld (<[next_addr w := (1%nat, n)]> (heap w)) (fss w) (next_addr w + 1) (devices w));;
  ret (next_addr w).

(** Reading through a reference: the object of a strong reference is there. *)
Definition node_at (r : Z) : RM node :=
  fun w => match heap w !! r with Some (_, n) => (Ok n, w) | None => (Panic, w) end.

(** Replacing the fields of an object. *)
Definition set_node (r : Z) (n : node) : RM unit :=
  fun w => match heap w !! r with
           | Some (c, _) => (Ok tt, set_heap (<[r := (c, n)]> (heap w)) w)
           | None => (Panic, w)
           end.

(** [Weak::upgrade] of an inode *)
Definition upgrade (o : option Z) : RM (option Z) :=
  fun w => match o with
           | Some r => match heap w !! r with
                       | Some _ => (Ok (Some r), ram_clone r w)
                       | None => (Ok None, w)
                       end
           | None => (Ok None, w)
           end.

(** [self.fs.upgrade().map(|fs| fs.allocate_inode_no())] *)
Definition allocate_inode_no (f : Z) : RM (option Z) :=
  fun w => match fss w !! f with
           | Some (c, x) =>
             (Ok (Some (fs_inode_no x)),
              set_fss (<[f := (c, mkRamFs (fs_root x) ((fs_inode_no x + 1) mod 2 ^ 64))]> (fss w)) w)
           | None => (Ok None, w)
           end.

(** ** [RamDirectory] *)

Definition RamDirectory_new (fs : Z) (up : option Z) : RM Z :=
  do no <- allocate_inode_no fs;
  new_node (RamDirectory (mkDir (default ROOT_INO no) fs up hm_empty false)).

(** The directory at [r]; the methods below are only reached through one. *)
Definition dir_at (r : Z) : RM ram_dir :=
  do n <- node_at r;
  match n with
  | RamDirectory d => ret d
  | _ => panic
  end.

Definition set_children (t : T) (d : ram_dir) : ram_dir := mkDir (dir_no d) (dir_fs d) (parent d) t (read_only d).

Definition make_read_only (r : Z) : RM unit :=
  do d <- dir_at r;
  set_node r (RamDirectory (mkDir (dir_no d) (dir_fs d) (parent d) (children d) true)).

(** [self.children.write().insert(name, inode)]: a replaced inode is dropped. *)
Definition insert_child (r : Z) (name : list Z) (inode : Z) : RM unit :=
  do d <- dir_at r;
  set_node r (RamDirectory (set_children (hm_insert name inode (children d)) d));;
  match hm_get name (children d) with
  | Some old => modify (ram_drop old)
  | None => ret tt
  end.

Definition add_readonly_file (r : Z) (name : list Z) (provider : P) : RM unit :=
  do d <- dir_at r;
  do o <- allocate_inode_no (dir_fs d);
  do no <- unwrap o;
  do file <- new_node (ReadOnlyRamFile no (dir_fs d) provider None);
  insert_child r name file.

(** The reference [inode] is moved into the directory. *)
Definition add_inode (r : Z) (name : list Z) (inode : Z) : RM unit :=
  do d <- dir_at r;
  do o <- allocate_inode_no (dir_fs d);
  do no <- unwrap o;
  do wrapper <- new_node (RamInodeWrapper no (dir_fs d) inode);
  insert_child r name wrapper.

Definition is_read_only (r : Z) : RM bool := do d <- dir_at r; ret (read_only d).

Definition dir_create (r : Z) (name : list Z) (typ : UFileType) : RM Z :=
  do d <- dir_at r;
  if read_only d then fail PermissionDenied else
  match hm_get name (children d) with
  | Some _ => fail AlreadyExists
  | None =>
    do inode <- match typ with
                | UDirectory => RamDirectory_new (dir_fs d) (Some r)
                | RegularFile =>
                  do no <- allocate_inode_no (dir_fs d);
                  new_node (RamFile (default 0 no) (dir_fs d) [])
                | UDevice | USymlink => fail Unsupported
                end;
    modify (ram_clone inode);;
    insert_child r name inode;;
    ret inode
  end.

Definition dir_unlink (r : Z) (name : list Z) : RM unit :=
  do d <- dir_at r;
  if read_only d then fail PermissionDenied else
  match hm_get name (children d) with
  | Some child =>
    set_node r (RamDirectory (set_children (hm_remove name (children d)) d));;
    modify (ram_drop child)
  | None => fail NoSuchFileOrDirectory
  end.

Definition dir_try_lookup (r : Z) (name : list Z) : RM (option Z) :=
  do d <- dir_at r;
  if decide (name = dot) then upgrade (Some r)
  else if decide (name = dotdot) then upgrade (parent d)
  else match hm_get name (children d) with
       | Some c => modify (ram_clone c);; ret (Some c)
       | None => ret None
       end.

(** ** [RamFile] and [ReadOnlyRamFile] *)

(** [content.resize(new_len, 0)] *)
Definition resize (new_len : Z) (content : list Z) : list Z :=
  take (Z.to_nat new_len) content ++ replicate (Z.to_nat new_len - length content) 0.

Definition file_read (content : list Z) (offset len : Z) : list Z :=
  if zlen content <=? offset then []
  else sub offset (Z.min (zlen content - offset) len) content.

Definition file_write (content : list Z) (offset : Z) (buf : list Z) : outcome FsErrorKind (list Z) :=
  if zlen content <? offset then Err InvalidArgument
  else let new_len := offset + zlen buf in
       let content := if zlen content <? new_len then resize new_len content else content in
       Ok (splice offset buf content).

Definition file_truncate (content : list Z) (new_size : Z) : outcome FsErrorKind (list Z) :=
  if zlen content <? new_size then Err InvalidArgument else Ok (resize new_size content).

(** The bytes read, the buffer and the provider afterwards. *)
Definition read_only_read (provider : P) (buffer : option (list Z)) (offset len : Z) :
    list Z * (P * option (list Z)) :=
  if len =? 0 then ([], (provider, buffer)) else
  let '(content, provider) :=
    match buffer with
    | Some c => (c, provider)
    | None => provide_content provider
    end in
  if zlen content <=? offset then ([], (provider, None)) else
  let bytes_read := Z.min (zlen content - offset) len in
  (sub offset bytes_read content,
   (provider, if zlen content <=? offset + bytes_read then None else Some content)).

(** ** The device table and [DevINode] *)

Definition dev_register (d : D) : RM unit :=
  do w <- get;
  put (mkWorld (heap w) (fss w) (next_addr w) (<[device_no (info d) := d]> (devices w)));;
  match devices w !! device_no (info d) with
  | Some _ => panic
  | None => ret tt
  end.

(** [get_device(no).map_err(NoSuchDev)?.op(..).map_err(IOError)?] *)
Definition on_device {A} (no : Z) (m : M D Sys.SysErrorKind A) : RM A :=
  fun w => match devices w !! no with
           | None => (Err NoSuchDev, w)
           | Some d =>
             let (o, d') := m d in
             (match o with Ok a => Ok a | Err _ => Err IOError | Panic => Panic end,
              mkWorld (heap w) (fss w) (next_addr w) (<[no := d']> (devices w)))
           end.

Definition dev_metadata (no : Z) : Stat := mkStat 0 no UDevice 1 1.

(** ** The methods of [VfsINodeOps]

    [RamInodeWrapper] forwards to the inode it holds, which is older than it:
    [forward] finds the inode that a chain of wrappers ends in. *)

Fixpoint forward (fuel : nat) (r : Z) : RM Z :=
  match fuel with
  | O => panic
  | S fuel' =>
    do n <- node_at r;
    match n with RamInodeWrapper _ _ inner => forward fuel' inner | _ => ret r end
  end.

Definition forwarded {A} (r : Z) (k : Z -> node -> RM A) : RM A :=
  do r' <- forward (S (Z.to_nat r)) r;
  do n <- node_at r';
  k r' n.

Definition ram_read (r offset len : Z) : RM (list Z) :=
  forwarded r (fun r n =>
    match n with
    | RamFile _ _ content => ret (file_read content offset len)
    | ReadOnlyRamFile no fs p b =>
      let '(bytes, (p', b')) := read_only_read p b offset len in
      set_node r (ReadOnlyRamFile no fs p' b');; ret bytes
    | RamDirectory _ => fail IsADirectory
    | RamInodeWrapper _ _ _ => panic
    | DevINode no => on_device no (dev_read offset len)
    end).

Definition ram_write (r offset : Z) (buf : list Z) : RM Z :=
  forwarded r (fun r n =>
    match n with
    | RamFile no fs content =>
      match file_write content offset buf with
      | Ok content' => set_node r (RamFile no fs content');; ret (zlen buf)
      | Err e => fail e
      | Panic => panic
      end
    | ReadOnlyRamFile _ _ _ _ => fail PermissionDenied
    | RamDirectory _ => fail IsADirectory
    | RamInodeWrapper _ _ _ => panic
    | DevINode no => on_device no (dev_write offset buf)
    end).

Definition ram_truncate (r new_size : Z) : RM Z :=
  forwarded r (fun r n =>
    match n with
    | RamFile no fs content =>
      match file_truncate content new_size with
      | Ok content' => set_node r (RamFile no fs content');; ret (zlen content)
      | Err e => fail e
      | Panic => panic
      end
    | ReadOnlyRamFile _ _ _ _ => fail PermissionDenied
    | RamDirectory _ => fail IsADirectory
    | RamInodeWrapper _ _ _ => panic
    | DevINode _ => fail Unsupported
    end).

(** A wrapper replaces the inode number by its own. *)
Fixpoint metadata_fuel (fuel : nat) (r : Z) : RM Stat :=
  match fuel with
  | O => panic
  | S fuel' =>
    do n <- node_at r;
    match n with
    | RamFile no _ content => ret (mkStat no 0 RegularFile (zlen content) 1)
    | ReadOnlyRamFile no fs p b =>
      match b, size_hint p with
      | Some c, _ => ret (mkStat no 0 RegularFile (zlen c) 1)
      | None, Some sz => ret (mkStat no 0 RegularFile sz 1)
      | None, None =>
        let '(c, p') := provide_content p in
        set_node r (ReadOnlyRamFile no fs p' b);;
        ret (mkStat no 0 RegularFile (zlen c) 1)
      end
    | RamDirectory d => ret (mkStat (dir_no d) 0 UDirectory (hm_len (children d) + 2) 2)
    | RamInodeWrapper no _ inner =>
      do stat <- metadata_fuel fuel' inner;
      ret (mkStat no (st_dev_no stat) (st_typ stat) (st_size stat) (st_nlink stat))
    | DevINode no => ret (dev_metadata no)
    end
  end.

Definition ram_metadata (r : Z) : RM Stat := metadata_fuel (S (Z.to_nat r)) r.

Definition ram_create (r : Z) (name : list Z) (typ : UFileType) : RM Z :=
  forwarded r (fun r n =>
    match n with RamDirectory _ => dir_create r name typ | _ => fail NotADirectory end).

Definition ram_unlink (r : Z) (name : list Z) : RM unit :=
  forwarded r (fun r n =>
    match n with RamDirectory _ => dir_unlink r name | _ => fail NotADirectory end).

Definition ram_rename (r : Z) (old_name new_name : list Z) : RM unit :=
  forwarded r (fun _ n =>
    match n with RamDirectory _ => fail Unsupported | _ => fail NotADirectory end).

Definition ram_try_lookup (r : Z) (name : list Z) : RM (option Z) :=
  forwarded r (fun r n =>
    match n with RamDirectory _ => dir_try_lookup r name | _ => fail NotADirectory end).

(** The entry at [current_offset]: the directory itself, its parent when that
    is still there, and the children in the order of the map.  The reference
    to the parent is dropped after its metadata was read. *)
Definition dirent_at (r : Z) (up : option Z) (iter : list (list Z * Z)) (current_offset : Z) :
    RM (option Dirent * list (list Z * Z)) :=
  if current_offset =? 0 then
    do stat <- ram_metadata r; do d <- with_stat stat dot; ret (Some d, iter)
  else if current_offset =? 1 then
    do p <- upgrade up;
    match p with
    | Some p =>
      do stat <- (fun w => let (o, w') := ram_metadata p w in (o, ram_drop p w'));
      do d <- with_stat stat dotdot; ret (Some d, iter)
    | None => do stat <- ram_metadata r; do d <- with_stat stat dotdot; ret (Some d, iter)
    end
  else match iter with
       | (name, inode) :: iter' =>
         do stat <- ram_metadata inode; do d <- with_stat stat name; ret (Some d, iter')
       | [] => ret (None, iter)
       end.

(** [room] entries of the destination are left. *)
Fixpoint dirents_loop (room : nat) (r : Z) (up : option Z) (iter : list (list Z * Z)) (current_offset : Z) :
    RM (list Dirent) :=
  match room with
  | O => ret []
  | S room' =>
    do res <- dirent_at r up iter current_offset;
    match res.1 with
    | None => ret []
    | Some d => do ds <- dirents_loop room' r up res.2 (current_offset + 1); ret (d :: ds)
    end
  end.

Definition dir_get_dirents (r offset room : Z) : RM (Z * list Dirent) :=
  do d <- dir_at r;
  do ds <- dirents_loop (Z.to_nat room) r (parent d) (drop (Z.to_nat (offset - 2)) (hm_iter (children d))) offset;
  ret (zlen ds, ds).

Definition ram_get_dirents (r offset room : Z) : RM (Z * list Dirent) :=
  forwarded r (fun r n =>
    match n with RamDirectory _ => dir_get_dirents r offset room | _ => fail NotADirectory end).

(** ** [RamFileSystem] *)

(** While [Arc::new_cyclic] builds the file system, the weak reference to it
    cannot be upgraded. *)
Definition with_parent (up : option Z) : RM Z :=
  do w <- get;
  put (mkWorld (heap w) (fss w) (next_addr w + 1) (devices w));;
  do root <- RamDirectory_new (next_addr w) up;
  modify (fun w' => set_fss (<[next_addr w := (1%nat, mkRamFs root (ROOT_INO + 1))]> (fss w')) w');;
  ret (next_addr w).

Definition RamFileSystem_new : RM Z := with_parent None.

(** [root] and [root_dir] *)
Definition ram_root (f : Z) : RM Z :=
  fun w => match fss w !! f with
           | Some (_, x) => (Ok (fs_root x), ram_clone (fs_root x) w)
           | None => (Panic, w)
           end.

Definition ram_sync (f : Z) : RM unit := ret tt.

(** [dev_vfs] *)
Fixpoint add_devices (root : Z) (devs : list D) : RM unit :=
  match devs with
  | [] => ret tt
  | d :: devs' =>
    do inode <- new_node (DevINode (device_no (info d)));
    add_inode root (file_name (info d)) inode;;
    add_devices root devs'
  end.

Definition dev_vfs : RM Z :=
  do vfs <- RamFileSystem_new;
  do root <- ram_root vfs;
  do w <- get;
  add_devices root (map_to_list (devices w)).*2;;
  make_read_only root;;
  modify (ram_drop root);;
  ret vfs.

#[export] Instance ram_inodes : VfsINodeOps world Z Z := {|
  v_root := ram_root;
  v_sync := ram_sync;
  v_read := ram_read;
  v_write := ram_write;
  v_metadata := ram_metadata;
  v_create := ram_create;
  v_unlink := ram_unlink;
  v_rename := ram_rename;
  v_get_dirents := ram_get_dirents;
  v_try_lookup := ram_try_lookup;
  v_truncate := ram_truncate;
  v_clone := ram_clone;
  v_drop := ram_drop;
  v_clone_fs := ram_clone_fs;
  v_drop_fs := ram_drop_fs
|}.

End ram.

Arguments ram_dir : clear implicits.
Arguments node : clear implicits.
Arguments world : clear implicits.
