(* ===== verification/RamFsInv.v ===== *)
(** * Ownership in the memory file systems

    The strong count of an object is the number of references to it: those
    that directories and wrappers own, the roots of the file systems, and
    those held from outside.  The invariant is kept by cloning and by the
    cascade of [drop_ref], which is shown to reach the end with the fuel it
    is given.  The shape of the directory tree is stated by clauses on the
    objects that are present, so that it holds in every smaller heap. *)

From stdpp Require Import gmultiset.
From S2P Require Import Prelude Bytes Vfs Dir EfsVfs InodeOps HashMap RamFs.
Import Vfs.

#[local] Open Scope Z_scope.

Section ownership.
Context {P D T : Type} `{FileContentProvider P} `{Device D}.
Context `{HashMap (list Z) Z T} `{!HashMapLaws (list Z) Z T}.

#[local] Notation node := (node P T).
#[local] Notation heap_t := (gmap Z (nat * node)).
#[local] Notation world := (world P D T).
Implicit Types (h : heap_t) (r : Z) (n : node) (own : gmultiset Z) (w : world).

Definition lsd (l : list Z) : gmultiset Z := list_to_set_disj l.

Definition owned h : gmultiset Z := lsd (map_to_list h ≫= (fun p => refs p.2.2)).

Definition strong h r : nat := match h !! r with Some (c, _) => c | None => 0%nat end.

(** [own] are the references that no object of the heap owns. *)
Definition counted h own : Prop :=
  (forall r, strong h r = multiplicity r (owned h ⊎ own)) /\
  (forall r c n, h !! r = Some (c, n) -> c <> 0%nat).

(** [h'] has some of the objects of [h], with no more references. *)
Definition shrinks h h' : Prop :=
  (forall r c' n, h' !! r = Some (c', n) -> exists c, h !! r = Some (c, n) /\ (c' <= c)%nat) /\
  (size h' <= size h)%nat.

Lemma lsd_app l1 l2 : lsd (l1 ++ l2) = lsd l1 ⊎ lsd l2.
Proof. apply list_to_set_disj_app. Qed.

Lemma lsd_perm l1 l2 : l1 ≡ₚ l2 -> lsd l1 = lsd l2.
Proof. intros Hp. unfold lsd. by rewrite Hp. Qed.

Lemma owned_new h r c n : h !! r = None -> owned (<[r := (c, n)]> h) = lsd (refs n) ⊎ owned h.
Proof.
  intros Hr. unfold owned. rewrite <- lsd_app. apply lsd_perm. by rewrite map_to_list_insert by done.
Qed.

Lemma owned_delete h r c n : h !! r = Some (c, n) -> owned h = lsd (refs n) ⊎ owned (delete r h).
Proof.
  intros Hr. rewrite <- (insert_delete_id h r (c, n)) at 1 by done. by rewrite owned_new by apply lookup_delete_eq.
Qed.

Lemma owned_update h r c n c' n' : h !! r = Some (c, n) ->
  owned (<[r := (c', n')]> h) = lsd (refs n') ⊎ owned (delete r h).
Proof. intros Hr. rewrite <- insert_delete_eq. by rewrite owned_new by apply lookup_delete_eq. Qed.

Lemma owned_same h r c n c' n' : h !! r = Some (c, n) -> refs n' = refs n -> owned (<[r := (c', n')]> h) = owned h.
Proof. intros Hr He. rewrite (owned_update h r c n) by done. by rewrite He, <- (owned_delete h r c n). Qed.

Lemma strong_insert h r c n r' : strong (<[r := (c, n)]> h) r' = if decide (r' = r) then c else strong h r'.
Proof.
  unfold strong. case_decide; [subst; by rewrite lookup_insert_eq|]. by rewrite lookup_insert_ne by congruence.
Qed.

Lemma strong_delete h r r' : strong (delete r h) r' = if decide (r' = r) then 0%nat else strong h r'.
Proof.
  unfold strong. case_decide; [subst; by rewrite lookup_delete_eq|]. by rewrite lookup_delete_ne by congruence.
Qed.

Lemma strong_some h r c n : h !! r = Some (c, n) -> strong h r = c.
Proof. unfold strong. by intros ->. Qed.

Lemma counted_present h own r : counted h own -> r ∈ owned h ⊎ own -> exists c n, h !! r = Some (c, n).
Proof.
  intros [Hc _] Hr. specialize (Hc r). revert Hc. unfold strong. rewrite elem_of_multiplicity in Hr.
  destruct (h !! r) as [[c n]|]; [eauto|lia].
Qed.

Lemma counted_proper h own own' : own = own' -> counted h own -> counted h own'.
Proof. by intros ->. Qed.

Ltac mult := rewrite ?multiplicity_disj_union, ?multiplicity_singleton, ?multiplicity_empty in *.

(** ** Cloning *)

Lemma counted_clone h own r : counted h own -> is_Some (h !! r) -> counted (clone_ref r h) ({[+ r +]} ⊎ own).
Proof.
  intros [Hc Hp] [[c n] Hr]. unfold clone_ref. rewrite Hr. split.
  - intros r'. rewrite strong_insert, (owned_same h r c n) by done. specialize (Hc r').
    mult. case_decide; [|lia]. subst. rewrite (strong_some _ _ _ _ Hr) in Hc. lia.
  - intros r' c' n'. rewrite lookup_insert_Some. naive_solver.
Qed.

Lemma clone_lookup h r r' : clone_ref r h !! r' = (fun p => (if decide (r' = r) then S p.1 else p.1, p.2)) <$> h !! r'.
Proof.
  unfold clone_ref. destruct (h !! r) as [[c n]|] eqn:Hr.
  - rewrite lookup_insert. repeat case_decide; simplify_eq; [by rewrite Hr|]. by destruct (h !! r') as [[]|].
  - case_decide; [subst; by rewrite Hr|]. by destruct (h !! r') as [[]|].
Qed.

(** ** Dropping *)

Lemma shrinks_refl h : shrinks h h.
Proof. split; [|lia]. intros r c n Hr. exists c. split; [done|lia]. Qed.

Lemma shrinks_trans h1 h2 h3 : shrinks h1 h2 -> shrinks h2 h3 -> shrinks h1 h3.
Proof.
  intros [Ha Sa] [Hb Sb]. split; [|lia]. intros r c n Hr. destruct (Hb r c n Hr) as (c2 & Hr2 & ?).
  destruct (Ha r c2 n Hr2) as (c1 & Hr1 & ?). exists c1. split; [done|lia].
Qed.

Lemma shrinks_delete h r : shrinks h (delete r h).
Proof.
  split; [|by apply map_subseteq_size, delete_subseteq]. intros r' c n. rewrite lookup_delete_Some. intros [_ Hr].
  exists c. split; [done|lia].
Qed.

Lemma shrinks_dec h r c n : h !! r = Some (c, n) -> shrinks h (<[r := (pred c, n)]> h).
Proof.
  intros Hr. split; [|by rewrite map_size_insert_Some by done].
  intros r' c' n'. rewrite lookup_insert_Some. intros [[? ?]|[? ?]]; simplify_eq; eexists; split; [done|lia|done|lia].
Qed.

(** Giving up one reference of several. *)
Lemma counted_dec h own r c n : h !! r = Some (S (S c), n) -> counted h ({[+ r +]} ⊎ own) ->
  counted (<[r := (S c, n)]> h) own.
Proof.
  intros Hr [Hc Hp]. split.
  - intros r'. specialize (Hc r'). rewrite strong_insert, (owned_same h r (S (S c)) n) by done.
    mult. case_decide; [subst; rewrite (strong_some _ _ _ _ Hr) in Hc|]; lia.
  - intros r' c' n'. rewrite lookup_insert_Some. naive_solver.
Qed.

(** The references of an object that goes are given up next. *)
Lemma counted_last h own r n : h !! r = Some (1%nat, n) -> counted h ({[+ r +]} ⊎ own) ->
  counted (delete r h) (lsd (refs n) ⊎ own).
Proof.
  intros Hr [Hc Hp]. split.
  - intros r'. specialize (Hc r'). rewrite (owned_delete h r 1 n Hr) in Hc. rewrite strong_delete.
    mult. case_decide; [subst; rewrite (strong_some _ _ _ _ Hr) in Hc|]; lia.
  - intros r' c' n'. rewrite lookup_delete_Some. naive_solver.
Qed.

Lemma drop_list_counted fuel l : (forall r h own, (size h < fuel)%nat -> counted h ({[+ r +]} ⊎ own) ->
    counted (drop_ref fuel r h) own /\ shrinks h (drop_ref fuel r h)) ->
  forall h own, (size h < fuel)%nat -> counted h (lsd l ⊎ own) ->
  counted (foldl (fun h c => drop_ref fuel c h) h l) own /\
  shrinks h (foldl (fun h c => drop_ref fuel c h) h l).
Proof.
  intros Hdrop. induction l as [|r l IH]; intros h own Hs Hc; simpl.
  - split; [|apply shrinks_refl]. eapply counted_proper, Hc. unfold lsd. simpl. multiset_solver.
  - destruct (Hdrop r h (lsd l ⊎ own) Hs) as [Hc1 Hs1].
    { eapply counted_proper, Hc. unfold lsd. simpl. multiset_solver. }
    destruct (IH (drop_ref fuel r h) own) as [Hc2 Hs2]; [destruct Hs1; lia|done|].
    split; [done|]. by eapply shrinks_trans.
Qed.

Lemma drop_ref_counted fuel r h own : (size h < fuel)%nat -> counted h ({[+ r +]} ⊎ own) ->
  counted (drop_ref fuel r h) own /\ shrinks h (drop_ref fuel r h).
Proof.
  revert r h own. induction fuel as [|fuel IH]; intros r h own Hs Hc; [lia|]. simpl.
  destruct (counted_present h _ r Hc) as (c & n & Hr); [multiset_solver|]. rewrite Hr.
  assert (Hc0 := proj2 Hc _ _ _ Hr). destruct c as [|[|c]]; [done| |].
  - assert (Hsz : size (delete r h) = pred (size h)) by (by rewrite map_size_delete, Hr).
    assert (size h <> 0%nat) by (intros Hz; apply map_size_empty_inv in Hz; by rewrite Hz in Hr).
    destruct (drop_list_counted fuel (refs n) IH (delete r h) own) as [Hl1 Hl2]; [lia|by apply counted_last|].
    split; [done|]. eapply shrinks_trans; [apply shrinks_delete|done].
  - split; [by apply counted_dec|]. change (S c) with (pred (S (S c))). by apply shrinks_dec.
Qed.

Lemma drop_heap_counted r h own : counted h ({[+ r +]} ⊎ own) ->
  counted (drop_heap r h) own /\ shrinks h (drop_heap r h).
Proof. intros. unfold drop_heap. apply drop_ref_counted; [lia|done]. Qed.

(** An object with another owner survives. *)
Lemma drop_heap_keeps r h own r' c n : counted h ({[+ r +]} ⊎ own) -> h !! r' = Some (c, n) ->
  r' ∈ own -> exists c', drop_heap r h !! r' = Some (c', n).
Proof.
  intros Hc Hr' Hin. destruct (drop_heap_counted r h own Hc) as [Hc' [Hs _]].
  destruct (counted_present _ own r' Hc') as (c' & n' & Hl); [multiset_solver|].
  exists c'. destruct (Hs _ _ _ Hl) as (? & ? & _). simplify_eq. done.
Qed.

End ownership.

(** * The invariant of the memory file systems

    [inv w own ownf] pairs the exact reference counts above with the
    shape of the directory trees: a child is younger than its directory,
    belongs to the same file system and, when it is a directory, names it as
    its parent; the inode numbers of a file system that is alive are distinct
    and below its counter.  Every operation keeps it and, called through a
    reference that the caller holds, does not panic. *)

Section invariant.
Context {P D T : Type} `{FileContentProvider P} `{Device D}.
Context `{HashMap (list Z) Z T} `{!HashMapLaws (list Z) Z T}.

#[local] Notation node := (node P T).
#[local] Notation heap_t := (gmap Z (nat * node)).
#[local] Notation fss_t := (gmap Z (nat * RamFileSystem)).
#[local] Notation world := (world P D T).
Implicit Types (h : heap_t) (f : fss_t) (r i : Z) (n : node) (own ownf : gmultiset Z) (w : world).

Definition node_fs n : option Z :=
  match n with
  | RamFile _ i _ | ReadOnlyRamFile _ i _ _ | RamInodeWrapper _ i _ => Some i
  | RamDirectory d => Some (dir_fs d)
  | DevINode _ => None
  end.

Definition node_no n : Z :=
  match n with
  | RamFile no _ _ | ReadOnlyRamFile no _ _ _ | RamInodeWrapper no _ _ | DevINode no => no
  | RamDirectory d => dir_no d
  end.

Definition node_up n : option Z := match n with RamDirectory d => parent d | _ => None end.

Definition is_dir n : bool := match n with RamDirectory _ => true | _ => false end.
Definition is_dev n : bool := match n with DevINode _ => true | _ => false end.

(** What holds of an object that a directory at [r] of the file system [i]
    has as a child. *)
Definition child_ok r i n : Prop := node_fs n = Some i /\ (is_dir n = true -> node_up n = Some r).

Record tree_ok h f (top : Z) : Prop := {
  t_addr r c n : h !! r = Some (c, n) -> 0 <= r < top /\ forall i, node_fs n = Some i -> 0 <= i < top;
  t_fs i c x : f !! i = Some (c, x) -> 0 <= i < top /\ 2 <= fs_inode_no x < 2 ^ 64;
  t_child r c d name k : h !! r = Some (c, RamDirectory d) -> hm_get name (children d) = Some k ->
    r < k < top /\ zlen name <= 256 /\ forall c' n, h !! k = Some (c', n) -> child_ok r (dir_fs d) n;
  t_wrap r c no i k : h !! r = Some (c, RamInodeWrapper no i k) ->
    0 <= k < r /\ forall c' n, h !! k = Some (c', n) -> is_dev n = true;
  t_root i c x : f !! i = Some (c, x) -> fs_root x < top /\
    forall c' n, h !! fs_root x = Some (c', n) -> is_dir n = true /\ node_fs n = Some i /\ node_no n = ROOT_INO;
  t_up r c n p : h !! r = Some (c, n) -> node_up n = Some p ->
    p < top /\ forall c' n', h !! p = Some (c', n') -> is_dir n' = true /\ node_fs n' = node_fs n;
  t_no r c n i c' x : h !! r = Some (c, n) -> node_fs n = Some i -> f !! i = Some (c', x) ->
    1 <= node_no n < fs_inode_no x;
  t_uniq r1 c1 n1 r2 c2 n2 i : h !! r1 = Some (c1, n1) -> h !! r2 = Some (c2, n2) ->
    node_fs n1 = Some i -> node_fs n2 = Some i -> is_Some (f !! i) -> node_no n1 = node_no n2 -> r1 = r2
}.

Definition roots f : gmultiset Z := lsd ((fun p => fs_root p.2.2) <$> map_to_list f).

Definition fs_counted f ownf : Prop :=
  forall i, multiplicity i ownf = match f !! i with Some (c, _) => c | None => 0%nat end /\
            (forall c x, f !! i = Some (c, x) -> c <> 0%nat).

Record inv w own ownf : Prop := {
  i_counted : counted (heap w) (roots (fss w) ⊎ own);
  i_fs : fs_counted (fss w) ownf;
  i_tree : tree_ok (heap w) (fss w) (next_addr w);
  i_next : 0 <= next_addr w
}.

(** The objects of [h'] are objects of [h] up to their contents and counts. *)
Definition similar n n' : Prop :=
  node_fs n' = node_fs n /\ node_no n' = node_no n /\ node_up n' = node_up n /\
  is_dir n' = is_dir n /\ is_dev n' = is_dev n.

Lemma similar_refl n : similar n n.
Proof. done. Qed.

(** ** The tree in related heaps *)

(** A change of the objects' contents and counts, of which the entries of
    directories and the inodes of wrappers stay or are fine. *)
Lemma tree_change h h' f top : tree_ok h f top ->
  (forall r c n, h' !! r = Some (c, n) -> exists c0 n0, h !! r = Some (c0, n0) /\ similar n0 n) ->
  (forall r c d name k, h' !! r = Some (c, RamDirectory d) -> hm_get name (children d) = Some k ->
    r < k < top /\ zlen name <= 256 /\ forall c' n, h !! k = Some (c', n) -> child_ok r (dir_fs d) n) ->
  (forall r c no i k, h' !! r = Some (c, RamInodeWrapper no i k) ->
    exists c0, h !! r = Some (c0, RamInodeWrapper no i k)) ->
  tree_ok h' f top.
Proof.
  intros Ht Hsim Hch Hwr. split.
  - intros r c n Hr. destruct (Hsim _ _ _ Hr) as (c0 & n0 & Hr0 & Hf & _). rewrite Hf. by eapply t_addr.
  - intros. by eapply t_fs.
  - intros r c d name k Hr Hk. destruct (Hch _ _ _ _ _ Hr Hk) as (Hk1 & ? & Hok). split; [done|]. split; [done|].
    intros c' n Hk'. destruct (Hsim _ _ _ Hk') as (c0 & n0 & Hr0 & Hf & _ & Hu & Hd & _).
    unfold child_ok. rewrite Hf, Hu, Hd. by eapply Hok.
  - intros r c no i k Hr. destruct (Hwr _ _ _ _ _ Hr) as [c0 Hr0].
    destruct (t_wrap _ _ _ Ht _ _ _ _ _ Hr0) as [? Hok]. split; [done|]. intros c' n Hk.
    destruct (Hsim _ _ _ Hk) as (c1 & n0 & Hk0 & _ & _ & _ & _ & Hd). rewrite Hd. by eapply Hok.
  - intros i c x Hi. destruct (t_root _ _ _ Ht _ _ _ Hi) as [Hlt Hroot]. split; [done|].
    intros c' n Hr. destruct (Hsim _ _ _ Hr) as (c0 & n0 & Hr0 & Hf & Hn & _ & Hd & _).
    rewrite Hd, Hf, Hn. by eapply Hroot.
  - intros r c n p Hr. destruct (Hsim _ _ _ Hr) as (c0 & n0 & Hr0 & Hf & _ & Hu & _). rewrite Hu, Hf. intros Hp.
    destruct (t_up _ _ _ Ht _ _ _ _ Hr0 Hp) as [? Hok]. split; [done|]. intros c' n' Hp'.
    destruct (Hsim _ _ _ Hp') as (c1 & n1 & Hp1 & Hf1 & _ & _ & Hd1 & _). rewrite Hf1, Hd1. by eapply Hok.
  - intros r c n i c' x Hr. destruct (Hsim _ _ _ Hr) as (c0 & n0 & Hr0 & Hf & Hn & _). rewrite Hf, Hn. by eapply t_no.
  - intros r1 c1 n1 r2 c2 n2 i Hr1 Hr2.
    destruct (Hsim _ _ _ Hr1) as (c3 & n3 & Hr3 & Hf3 & Hn3 & _).
    destruct (Hsim _ _ _ Hr2) as (c4 & n4 & Hr4 & Hf4 & Hn4 & _). rewrite Hf3, Hf4, Hn3, Hn4. by eapply t_uniq.
Qed.

Lemma tree_shrinks h h' f top : tree_ok h f top -> shrinks h h' -> tree_ok h' f top.
Proof.
  intros Ht [Hs _]. apply (tree_change h); [done| | |].
  - intros r c n Hr. destruct (Hs _ _ _ Hr) as (c0 & Hr0 & _). exists c0, n. split; [done|apply similar_refl].
  - intros r c d name k Hr Hk. destruct (Hs _ _ _ Hr) as (c0 & Hr0 & _). by eapply t_child.
  - intros r c no i k Hr. destruct (Hs _ _ _ Hr) as (c0 & Hr0 & _). by exists c0.
Qed.

Lemma tree_clone h f top r : tree_ok h f top -> tree_ok (clone_ref r h) f top.
Proof.
  intros Ht. assert (Hl : forall r' c n, clone_ref r h !! r' = Some (c, n) -> exists c0, h !! r' = Some (c0, n)).
  { intros r' c n. rewrite clone_lookup. destruct (h !! r') as [[c0 n0]|]; naive_solver. }
  apply (tree_change h); [done| | |].
  - intros r' c n Hr. destruct (Hl _ _ _ Hr) as [c0 ?]. exists c0, n. split; [done|apply similar_refl].
  - intros r' c d name k Hr Hk. destruct (Hl _ _ _ Hr) as [c0 ?]. by eapply t_child.
  - intros. by eapply Hl.
Qed.

Lemma tree_update h f top r c n n' : tree_ok h f top -> h !! r = Some (c, n) -> similar n n' ->
  (forall d name k, n' = RamDirectory d -> hm_get name (children d) = Some k ->
    r < k < top /\ zlen name <= 256 /\ forall c' n, h !! k = Some (c', n) -> child_ok r (dir_fs d) n) ->
  (forall no i k, n' = RamInodeWrapper no i k -> n = n') ->
  tree_ok (<[r := (c, n')]> h) f top.
Proof.
  intros Ht Hr Hsim Hd Hw. apply (tree_change h); [done| | |].
  - intros r' c' n1. rewrite lookup_insert_Some. intros [[<- ?]|[_ ?]]; simplify_eq; eauto using similar_refl.
  - intros r' c' d name k. rewrite lookup_insert_Some. intros [[<- ?]|[_ ?]] Hk; simplify_eq; [by eapply Hd|].
    by eapply t_child.
  - intros r' c' no i k. rewrite lookup_insert_Some. intros [[<- ?]|[_ ?]]; simplify_eq; [|eauto].
    exists c'. rewrite Hr. f_equal. f_equal. by eapply Hw.
Qed.

(** Fewer file systems. *)
Lemma tree_fs_sub h f f' top : tree_ok h f top -> f' ⊆ f -> tree_ok h f' top.
Proof.
  intros Ht Hs.
  assert (Hl : forall i x, f' !! i = Some x -> f !! i = Some x) by (intros; by eapply lookup_weaken).
  split; try (intros; by eapply t_addr || by eapply t_child || by eapply t_wrap || by eapply t_up).
  - intros i c x Hi. by eapply t_fs, Hl.
  - intros i c x Hi. by eapply t_root; [|apply Hl].
  - intros r c n i c' x Hr Hn Hi. by eapply t_no; [| | |apply Hl].
  - intros r1 c1 n1 r2 c2 n2 i Hr1 Hr2 Hn1 Hn2 [y Hy]. eapply t_uniq; try done. exists y. by apply Hl.
Qed.

(** The same file systems with other counts. *)
Lemma tree_fs_count h f top i c c' x : tree_ok h f top -> f !! i = Some (c, x) -> tree_ok h (<[i := (c', x)]> f) top.
Proof.
  intros Ht Hi. assert (Hl : forall j c1 y, <[i := (c', x)]> f !! j = Some (c1, y) -> exists c2, f !! j = Some (c2, y)).
  { intros j c1 y. rewrite lookup_insert_Some. naive_solver. }
  split; try (intros; by eapply t_addr || by eapply t_child || by eapply t_wrap || by eapply t_up).
  - intros j c1 y Hj. destruct (Hl _ _ _ Hj). by eapply t_fs.
  - intros j c1 y Hj. destruct (Hl _ _ _ Hj). by eapply t_root.
  - intros r c1 n j c2 y Hr Hn Hj. destruct (Hl _ _ _ Hj). by eapply t_no.
  - intros r1 c1 n1 r2 c2 n2 j Hr1 Hr2 Hn1 Hn2 [[c3 y] Hj]. destruct (Hl _ _ _ Hj). eapply t_uniq; eauto.
Qed.

(** ** New objects and file systems *)

Lemma tree_top h f top top' : tree_ok h f top -> top <= top' -> tree_ok h f top'.
Proof.
  intros Ht Hle. split; try (intros; by eapply t_wrap || by eapply t_no || by eapply t_uniq).
  - intros r c n Hr. destruct (t_addr _ _ _ Ht _ _ _ Hr) as [? Hi]. split; [lia|]. intros i Hn. specialize (Hi i Hn). lia.
  - intros i c x Hi. destruct (t_fs _ _ _ Ht _ _ _ Hi). lia.
  - intros r c d name k Hr Hk. destruct (t_child _ _ _ Ht _ _ _ _ _ Hr Hk) as (? & ? & ?). split_and!; [lia..|done].
  - intros i c x Hi. destruct (t_root _ _ _ Ht _ _ _ Hi). split; [lia|done].
  - intros r c n p Hr Hp. destruct (t_up _ _ _ Ht _ _ _ _ Hr Hp). split; [lia|done].
Qed.

Lemma tree_absent h f top : tree_ok h f top -> h !! top = None.
Proof.
  intros Ht. destruct (h !! top) as [[c n]|] eqn:Hr; [|done]. destruct (t_addr _ _ _ Ht _ _ _ Hr). lia.
Qed.

(** The inode number of a new object is not in use. *)
Definition new_no h f i (no : Z) : Prop :=
  forall c x, f !! i = Some (c, x) ->
    1 <= no < fs_inode_no x /\
    forall r c' n, h !! r = Some (c', n) -> node_fs n = Some i -> node_no n <> no.

Lemma tree_new h f top c n : tree_ok h f top -> 0 <= top ->
  (forall d, n = RamDirectory d -> children d = hm_empty) ->
  (forall no i k, n = RamInodeWrapper no i k -> 0 <= k < top /\ forall c' n', h !! k = Some (c', n') -> is_dev n' = true) ->
  (forall i, node_fs n = Some i -> 0 <= i <= top /\ new_no h f i (node_no n)) ->
  (forall p, node_up n = Some p -> p < top /\ forall c' n', h !! p = Some (c', n') -> is_dir n' = true /\ node_fs n' = node_fs n) ->
  tree_ok (<[top := (c, n)]> h) f (top + 1).
Proof.
  intros Ht Htop Hd Hw Hno Hup. apply (tree_top _ _ _ (top + 1)) in Ht as Ht'; [|lia].
  assert (Hl : forall r c' n', <[top := (c, n)]> h !! r = Some (c', n') -> (r = top /\ n' = n) \/ h !! r = Some (c', n')).
  { intros r c' n'. rewrite lookup_insert_Some. naive_solver. }
  split.
  - intros r c' n' Hr. destruct (Hl _ _ _ Hr) as [[-> ->]|Hr']; [|by eapply t_addr]. split; [lia|].
    intros i Hi. destruct (Hno i Hi). lia.
  - intros. by eapply t_fs.
  - intros r c' d name k Hr Hk. destruct (Hl _ _ _ Hr) as [[-> <-]|Hr'].
    { rewrite (Hd d eq_refl), hm_get_map, hm_empty_map in Hk. done. }
    destruct (t_child _ _ _ Ht _ _ _ _ _ Hr' Hk) as (? & ? & Hok). split_and!; [lia..|].
    intros c1 n1 Hk1. destruct (Hl _ _ _ Hk1) as [[-> ->]|Hk2]; [lia|]. by eapply Hok.
  - intros r c' no i k Hr. destruct (Hl _ _ _ Hr) as [[-> <-]|Hr'].
    + destruct (Hw _ _ _ eq_refl) as [? Hok]. split; [done|]. intros c1 n1 Hk1.
      destruct (Hl _ _ _ Hk1) as [[-> ->]|Hk2]; [lia|]. by eapply Hok.
    + destruct (t_wrap _ _ _ Ht _ _ _ _ _ Hr') as [? Hok]. pose proof (proj1 (t_addr _ _ _ Ht _ _ _ Hr')).
      split; [done|]. intros c1 n1 Hk1. destruct (Hl _ _ _ Hk1) as [[-> ->]|Hk2]; [lia|]. by eapply Hok.
  - intros i c' x Hi. destruct (t_root _ _ _ Ht _ _ _ Hi) as [? Hok]. split; [lia|]. intros c1 n1 Hr.
    destruct (Hl _ _ _ Hr) as [[? ?]|Hr']; [lia|]. by eapply Hok.
  - intros r c' n' p Hr Hp. destruct (Hl _ _ _ Hr) as [[-> ->]|Hr'].
    + destruct (Hup p Hp) as [? Hok]. split; [lia|]. intros c1 n1 Hp1.
      destruct (Hl _ _ _ Hp1) as [[-> ->]|Hp2]; [lia|]. by eapply Hok.
    + destruct (t_up _ _ _ Ht _ _ _ _ Hr' Hp) as [? Hok]. split; [lia|]. intros c1 n1 Hp1.
      destruct (Hl _ _ _ Hp1) as [[-> ->]|Hp2]; [lia|]. by eapply Hok.
  - intros r c' n' i c1 x Hr Hn Hi. destruct (Hl _ _ _ Hr) as [[-> ->]|Hr']; [|by eapply t_no].
    destruct (Hno i Hn) as [_ Hnew]. by destruct (Hnew _ _ Hi).
  - intros r1 c1 n1 r2 c2 n2 i Hr1 Hr2 Hn1 Hn2 [[c3 x] Hi] He.
    destruct (Hl _ _ _ Hr1) as [[-> ->]|Hr1'], (Hl _ _ _ Hr2) as [[-> ->]|Hr2']; [done|..].
    + destruct (Hno i Hn1) as [_ Hnew]. destruct (Hnew _ _ Hi) as [_ Hne]. by destruct (Hne _ _ _ Hr2' Hn2).
    + destruct (Hno i Hn2) as [_ Hnew]. destruct (Hnew _ _ Hi) as [_ Hne]. by destruct (Hne _ _ _ Hr1' Hn1).
    + eapply (t_uniq _ _ _ Ht); eauto.
Qed.

(** The counter of a file system moves; the number it gives is new. *)
Lemma tree_bump h f top i c x : tree_ok h f top -> f !! i = Some (c, x) -> fs_inode_no x + 1 < 2 ^ 64 ->
  let f' := <[i := (c, mkRamFs (fs_root x) ((fs_inode_no x + 1) mod 2 ^ 64))]> f in
  tree_ok h f' top /\ new_no h f' i (fs_inode_no x).
Proof.
  intros Ht Hi Hlt. destruct (t_fs _ _ _ Ht _ _ _ Hi) as [? Hno]. rewrite Z.mod_small by lia. intros f'.
  assert (Hl : forall j c1 y, f' !! j = Some (c1, y) ->
    (j = i /\ y = mkRamFs (fs_root x) (fs_inode_no x + 1)) \/ f !! j = Some (c1, y)).
  { intros j c1 y. unfold f'. rewrite lookup_insert_Some. naive_solver. }
  split; [split; try (intros; by eapply t_addr || by eapply t_child || by eapply t_wrap || by eapply t_up)|].
  - intros j c1 y Hj. destruct (Hl _ _ _ Hj) as [[-> ->]|Hj']; [cbn [fs_inode_no]; lia|by eapply t_fs].
  - intros j c1 y Hj. destruct (Hl _ _ _ Hj) as [[-> ->]|Hj']; [cbn [fs_root]|]; by eapply t_root.
  - intros r c1 n j c2 y Hr Hn Hj. destruct (Hl _ _ _ Hj) as [[-> ->]|Hj']; [|by eapply t_no].
    pose proof (t_no _ _ _ Ht _ _ _ _ _ _ Hr Hn Hi). cbn [fs_inode_no]. lia.
  - intros r1 c1 n1 r2 c2 n2 j Hr1 Hr2 Hn1 Hn2 [[c3 y] Hj] He. eapply (t_uniq _ _ _ Ht); eauto.
    destruct (Hl _ _ _ Hj) as [[-> ->]|Hj']; eauto.
  - intros c1 y Hy. unfold f' in Hy. rewrite lookup_insert_eq in Hy. simplify_eq. cbn [fs_inode_no]. split; [lia|].
    intros r c' n Hr Hn He. pose proof (t_no _ _ _ Ht _ _ _ _ _ _ Hr Hn Hi). lia.
Qed.

Lemma tree_new_fs h f top i root c : tree_ok h f top -> 0 <= i < top -> f !! i = None -> root < top ->
  (forall r c' n, h !! r = Some (c', n) -> node_fs n = Some i -> r = root /\ node_no n = ROOT_INO) ->
  (forall c' n, h !! root = Some (c', n) -> is_dir n = true /\ node_fs n = Some i /\ node_no n = ROOT_INO) ->
  tree_ok h (<[i := (c, mkRamFs root (ROOT_INO + 1))]> f) top.
Proof.
  intros Ht Hi Hf Hr Honly Hroot.
  assert (Hl : forall j c1 y, <[i := (c, mkRamFs root (ROOT_INO + 1))]> f !! j = Some (c1, y) ->
    (j = i /\ y = mkRamFs root (ROOT_INO + 1)) \/ f !! j = Some (c1, y)).
  { intros j c1 y. rewrite lookup_insert_Some. naive_solver. }
  split; try (intros; by eapply t_addr || by eapply t_child || by eapply t_wrap || by eapply t_up).
  - intros j c1 y Hj. destruct (Hl _ _ _ Hj) as [[-> ->]|Hj']; [unfold ROOT_INO; cbn; lia|by eapply t_fs].
  - intros j c1 y Hj. destruct (Hl _ _ _ Hj) as [[-> ->]|Hj']; [split; [done|apply Hroot]|by eapply t_root].
  - intros r c1 n j c2 y Hr' Hn Hj. destruct (Hl _ _ _ Hj) as [[-> ->]|Hj']; [|by eapply t_no].
    destruct (Honly _ _ _ Hr' Hn) as [_ ->]. unfold ROOT_INO. cbn. lia.
  - intros r1 c1 n1 r2 c2 n2 j Hr1 Hr2 Hn1 Hn2 [[c3 y] Hj] He. destruct (Hl _ _ _ Hj) as [[-> ->]|Hj'].
    + destruct (Honly _ _ _ Hr1 Hn1) as [-> _]. by destruct (Honly _ _ _ Hr2 Hn2) as [-> _].
    + eapply (t_uniq _ _ _ Ht); eauto.
Qed.

End invariant.
