(* ===== verification/RamFsOps.v ===== *)
(** * The operations of the memory file systems keep the invariant

    Rules for the primitives of [RamFs] (cloning, dropping, new objects, the
    counter of inode numbers, the entries of a directory) and, from them, for
    the methods of [VfsINodeOps]. *)

From S2P Require Import Prelude Bytes Vfs Dir EfsVfs HashMap InodeOps RamFs RamFsInv.
From stdpp Require Import gmultiset.
Import Vfs.

#[local] Open Scope Z_scope.
#[local] Open Scope rw_scope.

Section operations.
Context {P D T : Type} `{FileContentProvider P} `{Device D}.
Context `{HashMap (list Z) Z T} `{!HashMapLaws (list Z) Z T}.

#[local] Notation node := (node P T).
#[local] Notation heap_t := (gmap Z (nat * node)).
#[local] Notation fss_t := (gmap Z (nat * RamFileSystem)).
#[local] Notation world := (world P D T).
#[local] Notation RM := (M world FsErrorKind).
Implicit Types (h : heap_t) (f : fss_t) (r i k : Z) (n : node) (own ownf : gmultiset Z) (w : world).

(** ** Counts *)

Lemma counted_new h own k n : counted h (lsd (refs n) ⊎ own) -> h !! k = None ->
  counted (<[k := (1%nat, n)]> h) ({[+ k +]} ⊎ own).
Proof.
  intros [Hc Hp] Hk. split.
  - intros r. rewrite strong_insert, owned_new by done. specialize (Hc r).
    rewrite !multiplicity_disj_union in *. rewrite multiplicity_singleton. case_decide; subst; [|lia].
    revert Hc. unfold strong. rewrite Hk. lia.
  - intros r c n'. rewrite lookup_insert_Some. naive_solver.
Qed.

(** The references of an object change from [l ++ refs n] held to
    [l' ++ refs n'] held. *)
Lemma counted_move h own r c n n' l l' : counted h (lsd l ⊎ own) -> h !! r = Some (c, n) ->
  l ++ refs n ≡ₚ l' ++ refs n' -> counted (<[r := (c, n')]> h) (lsd l' ⊎ own).
Proof.
  intros [Hc Hp] Hr Hl. split.
  - intros r'. rewrite strong_insert, (owned_update h r c n) by done. specialize (Hc r').
    rewrite (owned_delete h r c n) in Hc by done.
    assert (He : multiplicity r' (lsd l ⊎ lsd (refs n)) = multiplicity r' (lsd l' ⊎ lsd (refs n'))).
    { rewrite <- !lsd_app. f_equal. by apply lsd_perm. }
    rewrite !multiplicity_disj_union in *. case_decide; [subst; rewrite (strong_some _ _ _ _ Hr) in Hc|]; lia.
  - intros r' c' n1. rewrite lookup_insert_Some. naive_solver.
Qed.

(** ** The roots *)

Lemma roots_insert f i c x : f !! i = None -> roots (<[i := (c, x)]> f) = {[+ fs_root x +]} ⊎ roots f.
Proof.
  intros Hi. unfold roots. rewrite (lsd_perm _ (fs_root x :: ((fun p => fs_root p.2.2) <$> map_to_list f))).
  - done.
  - by rewrite map_to_list_insert.
Qed.

Lemma roots_delete f i c x : f !! i = Some (c, x) -> roots f = {[+ fs_root x +]} ⊎ roots (delete i f).
Proof.
  intros Hi. rewrite <- (insert_delete_id f i (c, x)) at 1 by done. by rewrite roots_insert by apply lookup_delete_eq.
Qed.

Lemma roots_update f i c x c' x' : f !! i = Some (c, x) -> fs_root x' = fs_root x ->
  roots (<[i := (c', x')]> f) = roots f.
Proof.
  intros Hi He. rewrite <- insert_delete_eq, roots_insert by apply lookup_delete_eq.
  by rewrite He, <- roots_delete with (c := c).
Qed.

(** ** The invariant *)

Lemma inv_present w own ownf r : inv w own ownf -> r ∈ owned (heap w) ⊎ roots (fss w) ⊎ own ->
  exists c n, heap w !! r = Some (c, n).
Proof. intros Hi Hr. eapply counted_present; [apply Hi|]. multiset_solver. Qed.

Lemma inv_held w own ownf r : inv w own ownf -> r ∈ own -> exists c n, heap w !! r = Some (c, n).
Proof. intros Hi Hr. eapply inv_present; [done|]. multiset_solver. Qed.

Lemma elem_of_lsd x l : x ∈ lsd l <-> x ∈ l.
Proof. unfold lsd. apply elem_of_list_to_set_disj. Qed.

Lemma inv_ref w own ownf r c n k : inv w own ownf -> heap w !! r = Some (c, n) -> k ∈ refs n ->
  exists c' n', heap w !! k = Some (c', n').
Proof.
  intros Hi Hr Hk. eapply inv_present; [done|]. rewrite (owned_delete _ _ _ _ Hr).
  apply elem_of_lsd in Hk. multiset_solver.
Qed.

Lemma child_in_refs d name k : hm_get name (children d) = Some k -> k ∈ refs (P := P) (RamDirectory d).
Proof. intros Hk. simpl. apply list_elem_of_fmap. exists (name, k). split; [done|]. by apply elem_of_hm_iter. Qed.

Lemma inv_child w own ownf r c d name k : inv w own ownf -> heap w !! r = Some (c, RamDirectory d) ->
  hm_get name (children d) = Some k ->
  exists c' n, heap w !! k = Some (c', n) /\ child_ok r (dir_fs d) n /\ r < k /\ zlen name <= 256.
Proof.
  intros Hi Hr Hk. destruct (inv_ref _ _ _ _ _ _ k Hi Hr) as (c' & n & Hn); [by eapply child_in_refs|].
  destruct (t_child _ _ _ (i_tree _ _ _ Hi) _ _ _ _ _ Hr Hk) as (? & ? & Hok). exists c', n.
  split; [done|]. split; [by eapply Hok|]. lia.
Qed.

Lemma inv_root w own ownf i c x : inv w own ownf -> fss w !! i = Some (c, x) ->
  exists c' d, heap w !! fs_root x = Some (c', RamDirectory d) /\ dir_fs d = i.
Proof.
  intros Hi Hf. destruct (inv_present w own ownf (fs_root x) Hi) as (c' & n & Hn).
  { rewrite (roots_delete _ _ _ _ Hf). multiset_solver. }
  destruct (proj2 (t_root _ _ _ (i_tree _ _ _ Hi) _ _ _ Hf) _ _ Hn) as (Hd & Hi' & _).
  destruct n as [| |d| |]; try done. exists c', d. split; [done|]. simpl in Hi'. congruence.
Qed.

Lemma inv_ext w w' own ownf : heap w' = heap w -> fss w' = fss w -> next_addr w' = next_addr w ->
  inv w own ownf -> inv w' own ownf.
Proof. intros Hh Hf Hn [H1' H2' H3' H4']. split; rewrite ?Hh, ?Hf, ?Hn; done. Qed.

Lemma inv_own w own own' ownf : own = own' -> inv w own ownf -> inv w own' ownf.
Proof. by intros ->. Qed.

Lemma inv_clone w own ownf r : inv w own ownf -> is_Some (heap w !! r) ->
  inv (ram_clone r w) ({[+ r +]} ⊎ own) ownf.
Proof.
  intros [Hc Hf Ht Hn] Hr. split; simpl; [|done|by apply tree_clone|done].
  eapply counted_proper, counted_clone, Hr; [|done]. multiset_solver.
Qed.

Lemma inv_drop w own ownf r : inv w ({[+ r +]} ⊎ own) ownf ->
  inv (ram_drop r w) own ownf /\ shrinks (heap w) (heap (ram_drop r w)).
Proof.
  intros [Hc Hf Ht Hn]. destruct (drop_heap_counted r (heap w) (roots (fss w) ⊎ own)) as [Hc' Hs].
  { eapply counted_proper, Hc. multiset_solver. }
  split; [|done]. split; simpl; [done|done|by eapply tree_shrinks|done].
Qed.

(** New contents of an object that owns no more and no less. *)
Lemma inv_update w own ownf r c n n' l l' : inv w (lsd l ⊎ own) ownf -> heap w !! r = Some (c, n) ->
  similar n n' -> l ++ refs n ≡ₚ l' ++ refs n' ->
  (forall d name k, n' = RamDirectory d -> hm_get name (children d) = Some k ->
    r < k < next_addr w /\ zlen name <= 256 /\
    forall c' n, heap w !! k = Some (c', n) -> child_ok r (dir_fs d) n) ->
  (forall no i k, n' = RamInodeWrapper no i k -> n = n') ->
  inv (set_heap (<[r := (c, n')]> (heap w)) w) (lsd l' ⊎ own) ownf.
Proof.
  intros [Hc Hf Ht Hn] Hr Hsim Hl Hd Hw. split; simpl; [|done|by eapply tree_update|done].
  eapply counted_proper; [|eapply (counted_move _ (roots (fss w) ⊎ own) r c n n' l l'); [|done|done]].
  - multiset_solver.
  - eapply counted_proper, Hc. multiset_solver.
Qed.

(** The same for an object without references. *)
Lemma inv_content w own ownf r c n n' : inv w own ownf -> heap w !! r = Some (c, n) ->
  similar n n' -> refs n = [] -> refs n' = [] -> is_dir n' = false ->
  (forall no i k, n' <> RamInodeWrapper no i k) ->
  inv (set_heap (<[r := (c, n')]> (heap w)) w) own ownf.
Proof.
  intros Hi Hr Hsim He He' Hd Hw. eapply inv_own; [|eapply (inv_update w own ownf r c n n' [] [])]; try done.
  - unfold lsd. simpl. multiset_solver.
  - eapply inv_own, Hi. unfold lsd. simpl. multiset_solver.
  - by rewrite He, He'.
  - by intros d name k ->.
  - intros no i k ->. by destruct (Hw no i k).
Qed.

Lemma inv_clone_fs w own ownf i : inv w own ownf -> is_Some (fss w !! i) ->
  inv (ram_clone_fs i w) own ({[+ i +]} ⊎ ownf).
Proof.
  intros [Hc Hf Ht Hn] [[c x] Hi]. unfold ram_clone_fs. rewrite Hi. split; simpl; [| |by eapply tree_fs_count|done].
  - by rewrite (roots_update _ _ _ _ _ _ Hi).
  - intros j. destruct (Hf j) as [Hm Hp]. rewrite multiplicity_disj_union, multiplicity_singleton, lookup_insert.
    repeat case_decide; simplify_eq; [|by split].
    rewrite Hi in Hm. split; [lia|]. naive_solver.
Qed.

Lemma inv_drop_fs w own ownf i : inv w own ({[+ i +]} ⊎ ownf) -> inv (ram_drop_fs i w) own ownf.
Proof.
  intros Hinv. pose proof (i_fs _ _ _ Hinv) as Hf. destruct (Hf i) as [Hm Hp].
  rewrite multiplicity_disj_union, multiplicity_singleton_eq in Hm. unfold ram_drop_fs.
  destruct (fss w !! i) as [[[|[|c]] x]|] eqn:Hi; [by destruct (Hp _ _ eq_refl)| | |lia].
  - apply inv_drop. destruct Hinv as [Hc _ Ht Hn]. split; simpl; [| |by eapply tree_fs_sub, delete_subseteq|done].
    + eapply counted_proper, Hc. rewrite (roots_delete _ _ _ _ Hi). multiset_solver.
    + intros j. destruct (Hf j) as [Hmj Hpj]. rewrite multiplicity_disj_union, multiplicity_singleton in Hmj.
      rewrite lookup_delete. repeat case_decide; simplify_eq; [split; [lia|done]|by split].
  - destruct Hinv as [Hc _ Ht Hn]. split; simpl; [| |by eapply tree_fs_count|done].
    + by rewrite (roots_update _ _ _ _ _ _ Hi).
    + intros j. destruct (Hf j) as [Hmj Hpj]. rewrite multiplicity_disj_union, multiplicity_singleton in Hmj.
      rewrite lookup_insert. repeat case_decide; simplify_eq; [|by split]. split; [lia|]. naive_solver.
Qed.

(** ** Counters and new objects *)

(** The counters of the file systems after [k] allocations. *)
Definition used w (k : Z) : Prop := forall i c x, fss w !! i = Some (c, x) -> fs_inode_no x <= 2 + k.

Lemma used_mono w k k' : used w k -> k <= k' -> used w k'.
Proof. intros Hu Hk i c x Hi. specialize (Hu _ _ _ Hi). lia. Qed.

Lemma alloc_ok w own ownf i k : inv w own ownf -> used w k -> 2 + k + 1 < 2 ^ 64 ->
  exists o w', allocate_inode_no i w = (Ok o, w') /\ inv w' own ownf /\ used w' (k + 1) /\
    heap w' = heap w /\ next_addr w' = next_addr w /\ devices w' = devices w /\
    (is_Some o <-> is_Some (fss w !! i)) /\
    (forall z, new_no (heap w') (fss w') i (default z o)).
Proof.
  intros Hinv Hu Hk. unfold allocate_inode_no. destruct (fss w !! i) as [[c x]|] eqn:Hi.
  - eexists _, _. split; [done|]. pose proof (Hu _ _ _ Hi).
    destruct (tree_bump _ _ _ _ _ _ (i_tree _ _ _ Hinv) Hi) as [Ht Hnew]; [lia|].
    split; [|split; [|split_and!; try done]].
    + destruct Hinv as [Hc Hf _ Hn]. split; simpl; [| |done|done].
      * by rewrite (roots_update _ _ _ _ _ _ Hi).
      * intros j. destruct (Hf j) as [Hm Hp]. rewrite lookup_insert. repeat case_decide; simplify_eq; [|by split].
        rewrite Hi in Hm. split; [done|]. naive_solver.
    + intros j c' y. simpl. rewrite lookup_insert_Some. intros [[<- ?]|[_ Hj]]; simplify_eq; cbn [fs_inode_no].
      * destruct (t_fs _ _ _ (i_tree _ _ _ Hinv) _ _ _ Hi). rewrite Z.mod_small by lia. lia.
      * specialize (Hu _ _ _ Hj). lia.
  - eexists _, _. split; [done|]. split; [done|]. split; [eapply used_mono; [done|lia]|]. split_and!; try done.
    intros z c x Hx. by rewrite Hi in Hx.
Qed.

(** A new object with a number from the counter of its file system. *)
Lemma new_node_inv w own ownf i n : inv w (lsd (refs n) ⊎ own) ownf ->
  node_fs n = Some i -> 0 <= i < next_addr w -> new_no (heap w) (fss w) i (node_no n) ->
  (forall d, n = RamDirectory d -> children d = hm_empty) ->
  (forall no j k, n = RamInodeWrapper no j k -> exists c n', heap w !! k = Some (c, n') /\ is_dev n' = true) ->
  (forall p, node_up n = Some p -> exists c d, heap w !! p = Some (c, RamDirectory d) /\ dir_fs d = i) ->
  inv (mkWorld (<[next_addr w := (1%nat, n)]> (heap w)) (fss w) (next_addr w + 1) (devices w))
      ({[+ next_addr w +]} ⊎ own) ownf.
Proof.
  intros [Hc Hf Ht Hn] Hfs Hi Hno Hd Hw Hup. split; simpl; [|done| |lia].
  - eapply counted_proper; [|apply (counted_new _ (roots (fss w) ⊎ own))].
    + multiset_solver. + eapply counted_proper, Hc. multiset_solver. + by eapply tree_absent.
  - apply tree_new; [done|done|done| | |].
    + intros no j k He. destruct (Hw no j k He) as (c & n' & Hk & Hdev).
      destruct (t_addr _ _ _ Ht _ _ _ Hk) as [? _]. split; [done|]. intros c' n1 Hk1. by simplify_eq.
    + intros j Hj. rewrite Hfs in Hj. simplify_eq. split; [lia|done].
    + intros p Hp. destruct (Hup p Hp) as (c & d & Hpd & He). destruct (t_addr _ _ _ Ht _ _ _ Hpd) as [? _]. split; [lia|].
      intros c' n' Hp'. rewrite Hfs. simplify_eq. done.
Qed.

(** A device inode belongs to no file system. *)
Lemma new_dev_inv w own ownf no : inv w own ownf ->
  inv (mkWorld (<[next_addr w := (1%nat, DevINode no)]> (heap w)) (fss w) (next_addr w + 1) (devices w))
      ({[+ next_addr w +]} ⊎ own) ownf.
Proof.
  intros [Hc Hf Ht Hn]. split; simpl; [|done| |lia].
  - eapply counted_proper; [|apply (counted_new _ (roots (fss w) ⊎ own))].
    + multiset_solver. + eapply counted_proper, Hc. unfold lsd. simpl. multiset_solver. + by eapply tree_absent.
  - by apply tree_new.
Qed.

(** ** The entries of a directory *)

Lemma refs_insert d name k : hm_get name (children d) = None ->
  refs (P := P) (RamDirectory (set_children (hm_insert name k (children d)) d)) ≡ₚ k :: refs (P := P) (RamDirectory d).
Proof. intros Hk. simpl. by rewrite hm_iter_insert by done. Qed.

Lemma refs_remove d name k : hm_get name (children d) = Some k ->
  refs (P := P) (RamDirectory d) ≡ₚ k :: refs (P := P) (RamDirectory (set_children (hm_remove name (children d)) d)).
Proof. intros Hk. simpl. by rewrite (hm_iter_remove name k) by done. Qed.

Lemma refs_replace d name k k' : hm_get name (children d) = Some k ->
  k' :: refs (P := P) (RamDirectory d) ≡ₚ
  k :: refs (P := P) (RamDirectory (set_children (hm_insert name k' (children d)) d)).
Proof. intros Hk. rewrite (refs_remove d name k) by done. simpl. rewrite (hm_iter_replace name k) by done. apply perm_swap. Qed.

(** The entries of a changed directory are those it had and [name]. *)
Lemma children_ok w own ownf r c d t name k : inv w own ownf -> heap w !! r = Some (c, RamDirectory d) ->
  zlen name <= 256 -> r < k < next_addr w ->
  (forall c' n, heap w !! k = Some (c', n) -> child_ok r (dir_fs d) n) ->
  (forall name' k', hm_get name' t = Some k' -> (name' = name /\ k' = k) \/ hm_get name' (children d) = Some k') ->
  forall d' name' k', RamDirectory (P := P) (set_children t d) = RamDirectory d' -> hm_get name' (children d') = Some k' ->
    r < k' < next_addr w /\ zlen name' <= 256 /\
    forall c' n, heap w !! k' = Some (c', n) -> child_ok r (dir_fs d') n.
Proof.
  intros Hi Hr Hn Hk Hok Ht d' name' k' He Hk'. simplify_eq. simpl in *.
  destruct (Ht _ _ Hk') as [[-> ->]|Hold]; [done|]. by eapply t_child; [apply Hi| |].
Qed.

Lemma similar_children (t : T) (d : ram_dir T) : similar (P := P) (RamDirectory d) (RamDirectory (set_children t d)).
Proof. done. Qed.

Lemma lsd_one k : lsd [k] = {[+ k +]}.
Proof. unfold lsd. simpl. multiset_solver. Qed.

Lemma insert_child_inv w own ownf r c d name k ck nk : inv w ({[+ k +]} ⊎ own) ownf ->
  heap w !! r = Some (c, RamDirectory d) -> heap w !! k = Some (ck, nk) -> child_ok r (dir_fs d) nk ->
  r < k -> zlen name <= 256 -> r ∈ own ->
  exists w', insert_child r name k w = (Ok tt, w') /\ inv w' own ownf /\ fss w' = fss w /\
    (exists c', heap w' !! r = Some (c', RamDirectory (set_children (hm_insert name k (children d)) d))) /\
    (hm_get name (children d) = None ->
     w' = set_heap (<[r := (c, RamDirectory (set_children (hm_insert name k (children d)) d))]> (heap w)) w).
Proof.
  intros Hinv Hr Hk Hok Hlt Hn Hown. unfold insert_child, dir_at, node_at, set_node, bind. rewrite Hr. simpl. rewrite Hr.
  destruct (t_addr _ _ _ (i_tree _ _ _ Hinv) _ _ _ Hk) as [Hkr _].
  set (n' := RamDirectory (set_children (hm_insert name k (children d)) d)).
  set (w1 := set_heap (<[r := (c, n')]> (heap w)) w).
  assert (Hup : forall l', [k] ++ refs (P := P) (RamDirectory d) ≡ₚ l' ++ refs n' -> inv w1 (lsd l' ⊎ own) ownf).
  { intros l' Hl'. apply (inv_update w own ownf r c (RamDirectory d) n' [k] l'); [by rewrite lsd_one|done|done|done| |done].
    eapply (children_ok w _ ownf r c d _ name k); [done|done|done|lia| |].
    - intros c' n1 Hn1. by simplify_eq.
    - intros name' k'. rewrite !hm_get_map, hm_insert_map, lookup_insert_Some. naive_solver. }
  assert (Hr1 : heap w1 !! r = Some (c, n')) by (simpl; by rewrite lookup_insert_eq).
  destruct (hm_get name (children d)) as [old|] eqn:Hold.
  - assert (Hinv1 : inv w1 ({[+ old +]} ⊎ own) ownf).
    { rewrite <- lsd_one. apply Hup. by apply refs_replace. }
    destruct (inv_drop _ _ _ _ Hinv1) as [Hinv2 Hs]. eexists. split; [done|]. split; [done|]. split; [done|].
    split; [|done]. destruct (inv_held _ _ _ r Hinv2 Hown) as (c2 & n2 & Hr2).
    destruct (proj1 Hs _ _ _ Hr2) as (c3 & Hr3 & _). rewrite Hr1 in Hr3. simplify_eq. by exists c2.
  - eexists. split; [done|]. split; [|split; [done|split; [by exists c|done]]].
    eapply inv_own; [|apply (Hup [])]; [unfold lsd; simpl; multiset_solver|]. symmetry. by apply refs_insert.
Qed.

End operations.
