(* ===== verification/RamFsMethods.v ===== *)
(** * The methods of the memory file systems

    Every method of [VfsINodeOps], called through a reference to a live
    inode, returns without a panic and keeps the invariant; the references it
    returns are added to those held.  What create, unlink and lookup do to a
    directory is stated exactly. *)

From S2P Require Import Prelude Bytes Vfs Dir EfsVfs HashMap InodeOps RamFs RamFsInv RamFsOps.
From stdpp Require Import gmultiset.
Import Vfs.

#[local] Open Scope Z_scope.
#[local] Open Scope rw_scope.

(** A device may fail, but does not stop the kernel. *)
Class DeviceLaws (D : Type) `{Device D} : Prop := {
  dev_read_ok offset len (d : D) : (dev_read offset len d).1 <> Panic;
  dev_write_ok offset buf (d : D) : (dev_write offset buf d).1 <> Panic;
  dev_write_count offset buf (d : D) n : (dev_write offset buf d).1 = Ok n -> 0 <= n
}.

#[export] Instance builtin_device_laws : DeviceLaws BuiltinDev.
Proof. split; intros ? ? [] *; try done; simpl; intros ?; simplify_eq; lia. Qed.

Section methods.
Context {P D T : Type} `{FileContentProvider P} `{Device D} `{!DeviceLaws D}.
Context `{HashMap (list Z) Z T} `{!HashMapLaws (list Z) Z T}.

#[local] Notation node := (node P T).
#[local] Notation heap_t := (gmap Z (nat * node)).
#[local] Notation world := (world P D T).
#[local] Notation RM := (M world FsErrorKind).
Implicit Types (h : heap_t) (r i k : Z) (n : node) (own ownf : gmultiset Z) (w : world).

(** ** Forwarding *)

Definition is_wrapper n : bool := match n with RamInodeWrapper _ _ _ => true | _ => false end.

(** A wrapper holds a device inode, every other object is its own target. *)
Lemma forward_ok w own ownf r c n : inv w own ownf -> heap w !! r = Some (c, n) ->
  exists r' c' n', forward (S (Z.to_nat r)) r w = (Ok r', w) /\ heap w !! r' = Some (c', n') /\
    is_wrapper n' = false /\ (is_wrapper n = false -> r' = r /\ c' = c /\ n' = n).
Proof.
  intros Hi Hr. cbn [forward]. unfold bind, node_at. rewrite Hr.
  destruct (is_wrapper n) eqn:Hw.
  - destruct n as [| | |no i k|]; try done.
    destruct (t_wrap _ _ _ (i_tree _ _ _ Hi) _ _ _ _ _ Hr) as [Hk Hdev].
    destruct (inv_ref _ _ _ _ _ _ k Hi Hr) as (c' & n' & Hn'); [simpl; set_solver|].
    specialize (Hdev _ _ Hn'). destruct n' as [| | | |no']; try done.
    replace (Z.to_nat r) with (S (pred (Z.to_nat r))) by lia. cbn [forward]. unfold bind, node_at. rewrite Hn'.
    exists k, c', (DevINode no'). done.
  - exists r, c, n. destruct n; done.
Qed.

Lemma forwarded_ok {A} w own ownf r c n (body : Z -> node -> RM A) : inv w own ownf -> heap w !! r = Some (c, n) ->
  exists r' c' n', forwarded r body w = body r' n' w /\ heap w !! r' = Some (c', n') /\
    is_wrapper n' = false /\ (is_wrapper n = false -> r' = r /\ c' = c /\ n' = n).
Proof.
  intros Hi Hr. destruct (forward_ok w own ownf r c n Hi Hr) as (r' & c' & n' & Hf & Hr' & Hw & Heq).
  exists r', c', n'. split; [|done]. unfold forwarded, bind, node_at. rewrite Hf. by rewrite Hr'.
Qed.

(** ** States that differ in the providers of read-only files *)

Definition frame n n' : Prop :=
  n' = n \/ exists no i p b p' b', n = ReadOnlyRamFile no i p b /\ n' = ReadOnlyRamFile no i p' b'.

Definition same_tree h h' : Prop :=
  forall r, match h !! r with
            | Some (c, n) => exists n', h' !! r = Some (c, n') /\ frame n n'
            | None => h' !! r = None
            end.

Lemma same_tree_refl h : same_tree h h.
Proof. intros r. destruct (h !! r) as [[c n]|]; [|done]. exists n. split; [done|by left]. Qed.

Lemma frame_trans n1 n2 n3 : frame n1 n2 -> frame n2 n3 -> frame n1 n3.
Proof. unfold frame. intros [->|(? & ? & ? & ? & ? & ? & -> & ->)] [->|(? & ? & ? & ? & ? & ? & He & ->)]; simplify_eq; eauto 12. Qed.

Lemma same_tree_trans h1 h2 h3 : same_tree h1 h2 -> same_tree h2 h3 -> same_tree h1 h3.
Proof.
  intros Ha Hb r. specialize (Ha r). specialize (Hb r). destruct (h1 !! r) as [[c n]|].
  - destruct Ha as (n2 & Hr2 & Hf2). rewrite Hr2 in Hb. destruct Hb as (n3 & Hr3 & Hf3).
    exists n3. split; [done|by eapply frame_trans].
  - by rewrite Ha in Hb.
Qed.

Lemma same_tree_insert h r c n n' : h !! r = Some (c, n) -> frame n n' -> same_tree h (<[r := (c, n')]> h).
Proof.
  intros Hr Hf k. destruct (decide (k = r)) as [->|Hne].
  - rewrite Hr, lookup_insert_eq. eauto.
  - rewrite lookup_insert_ne by done. apply same_tree_refl.
Qed.

(** The state after an operation that only reads: the same tree. *)
Definition reads w w' : Prop := same_tree (heap w) (heap w') /\ fss w' = fss w /\ next_addr w' = next_addr w.

Lemma reads_refl w : reads w w.
Proof. split; [apply same_tree_refl|done]. Qed.

Lemma reads_trans w1 w2 w3 : reads w1 w2 -> reads w2 w3 -> reads w1 w3.
Proof.
  intros (Ha & Hfa & Hna) (Hb & Hfb & Hnb). split; [by eapply same_tree_trans|]. split; congruence.
Qed.

Lemma used_same w w' k : fss w' = fss w -> used w k -> used w' k.
Proof. intros He Hu i c x. rewrite He. apply Hu. Qed.

(** ** Metadata and directory entries *)

(** The inode number and type that the metadata of an object has. *)
Definition label_of n : Z * UFileType :=
  match n with
  | RamFile no _ _ | ReadOnlyRamFile no _ _ _ => (no, RegularFile)
  | RamDirectory d => (dir_no d, UDirectory)
  | RamInodeWrapper no _ _ => (no, UDevice)
  | DevINode _ => (0, UDevice)
  end.

Lemma frame_label n n' : frame n n' -> label_of n' = label_of n.
Proof. intros [->|(? & ? & ? & ? & ? & ? & -> & ->)]; done. Qed.

Lemma metadata_ok w own ownf r c n : inv w own ownf -> heap w !! r = Some (c, n) ->
  exists st w', ram_metadata r w = (Ok st, w') /\ inv w' own ownf /\ reads w w' /\
    (st_ino st, st_typ st) = label_of n.
Proof.
  intros Hi Hr. unfold ram_metadata. cbn [metadata_fuel]. unfold bind at 1, node_at at 1. rewrite Hr.
  destruct n as [no i content|no i p b|d|no i k|no].
  - eexists _, w. split; [done|]. split; [done|]. split; [apply reads_refl|done].
  - destruct b as [content|]; [|destruct (size_hint p) as [sz|] eqn:Hsz].
    1,2: eexists _, w; split; [done|]; split; [done|]; split; [apply reads_refl|done].
    destruct (provide_content p) as [content p'] eqn:Hp. unfold bind, set_node. rewrite Hr.
    eexists _, _. split; [done|]. split; [|split; [|done]].
    + by eapply inv_content.
    + split; [|done]. eapply same_tree_insert; [done|]. right. eauto 10.
  - eexists _, w. split; [done|]. split; [done|]. split; [apply reads_refl|done].
  - destruct (t_wrap _ _ _ (i_tree _ _ _ Hi) _ _ _ _ _ Hr) as [Hk Hdev].
    destruct (inv_ref _ _ _ _ _ _ k Hi Hr) as (c' & n' & Hn'); [simpl; set_solver|].
    specialize (Hdev _ _ Hn'). destruct n' as [| | | |no']; try done.
    replace (Z.to_nat r) with (S (pred (Z.to_nat r))) by lia. cbn [metadata_fuel]. unfold bind, node_at. rewrite Hn'.
    eexists _, w. split; [done|]. split; [done|]. split; [apply reads_refl|done].
  - eexists _, w. split; [done|]. split; [done|]. split; [apply reads_refl|done].
Qed.

(** A reference that is dropped again after a read. *)
Lemma borrow_reads w own ownf r c n w1 : inv w own ownf -> heap w !! r = Some (c, n) ->
  reads (ram_clone r w) w1 -> reads w (ram_drop r w1).
Proof.
  intros Hi Hr (Ht & Hf & Hn). split; [|done].
  assert (Hc := proj2 (i_counted _ _ _ Hi) _ _ _ Hr).
  assert (Hr1 := Ht r). simpl in Hr1. rewrite clone_lookup, Hr in Hr1. simpl in Hr1.
  rewrite decide_True in Hr1 by done. destruct Hr1 as (n1 & Hr1 & Hf1).
  simpl. unfold drop_heap. cbn [drop_ref]. rewrite Hr1. destruct c as [|c]; [done|].
  intros k. destruct (decide (k = r)) as [->|Hne].
  - rewrite Hr, lookup_insert_eq. eauto.
  - specialize (Ht k). simpl in Ht. rewrite clone_lookup in Ht. rewrite lookup_insert_ne by done.
    destruct (heap w !! k) as [[c' n']|]; simpl in Ht; [|done]. by rewrite decide_False in Ht by done.
Qed.

Definition label h r : Z * UFileType := match h !! r with Some (_, n) => label_of n | None => (0, RegularFile) end.

Lemma label_some h r c n : h !! r = Some (c, n) -> label h r = label_of n.
Proof. unfold label. by intros ->. Qed.

Lemma label_same h h' r : same_tree h h' -> label h' r = label h r.
Proof.
  intros Ht. specialize (Ht r). unfold label. destruct (h !! r) as [[c n]|]; [|by rewrite Ht].
  destruct Ht as (n' & -> & Hf). by apply frame_label.
Qed.

Definition dirent_of (name : list Z) (l : Z * UFileType) : Dirent :=
  mkUDirent l.1 l.2 (splice 0 name (replicate 256 0)) (zlen name).

(** The parent that a directory lists: itself when it has none. *)
Definition listed_parent h r (d : ram_dir T) : Z :=
  match parent d with
  | Some p => match h !! p with Some _ => p | None => r end
  | None => r
  end.

(** All entries of a directory, in the order in which they are listed. *)
Definition entries h r (d : ram_dir T) : list Dirent :=
  dirent_of dot (label h r) :: dirent_of dotdot (label h (listed_parent h r d)) ::
  ((fun p => dirent_of p.1 (label h p.2)) <$> hm_iter (children d)).

Lemma entries_child h r d (j : nat) :
  entries h r d !! S (S j) = (fun p => dirent_of p.1 (label h p.2)) <$> hm_iter (children d) !! j.
Proof. apply list_lookup_fmap. Qed.

(** Reading the metadata of an inode into an entry. *)
Lemma stat_entry {X} w own ownf r c n name (x : X) : inv w own ownf -> heap w !! r = Some (c, n) -> zlen name <= 256 ->
  exists w', (do stat <- ram_metadata r; do d <- with_stat stat name; ret (Some d, x)) w =
      (Ok (Some (dirent_of name (label (heap w) r)), x), w') /\
    inv w' own ownf /\ reads w w'.
Proof.
  intros Hi Hr Hn. destruct (metadata_ok w own ownf r c n Hi Hr) as (st & w' & Hm & Hi' & Hrd & Hl).
  exists w'. split; [|done]. unfold bind. rewrite Hm. unfold with_stat. rewrite (proj2 (Z.ltb_ge _ _)) by done.
  rewrite (label_some _ _ _ _ Hr), <- Hl. done.
Qed.

(** The entry at an offset of a directory whose children are [iter]. *)
Lemma dirent_at_ok w own ownf r c d off (iter : list (list Z * Z)) : inv w own ownf ->
  heap w !! r = Some (c, RamDirectory d) -> 0 <= off ->
  iter = drop (Z.to_nat (off - 2)) (hm_iter (children d)) ->
  exists o w', dirent_at r (parent d) iter off w =
      (Ok (o, if off <? 2 then iter else tail iter), w') /\
    inv w' own ownf /\ reads w w' /\ o = entries (heap w) r d !! Z.to_nat off.
Proof.
  intros Hi Hr Ho Hit. unfold dirent_at. destruct (Z.eqb_spec off 0) as [->|H0']; [|destruct (Z.eqb_spec off 1) as [->|H1']].
  - destruct (stat_entry w own ownf r c _ dot iter Hi Hr) as (w' & Hs & Hi' & Hrd); [by vm_compute|].
    eexists _, w'. by split.
  - assert (Hself : listed_parent (heap w) r d = r -> exists w',
      (do stat <- ram_metadata r; do d <- with_stat stat dotdot; ret (Some d, iter)) w =
        (Ok (entries (heap w) r d !! 1%nat, iter), w') /\ inv w' own ownf /\ reads w w').
    { intros He. destruct (stat_entry w own ownf r c _ dotdot iter Hi Hr) as (w' & Hs & Hi' & Hrd); [by vm_compute|].
      exists w'. split; [|done]. simpl. by rewrite He. }
    unfold listed_parent in Hself. unfold upgrade. unfold bind at 1.
    destruct (parent d) as [p|] eqn:Hp; [destruct (heap w !! p) as [[cp np]|] eqn:Hpp|].
    + assert (Hi1 := inv_clone w own ownf p Hi (ex_intro _ _ Hpp)).
      assert (Hpp1 : heap (ram_clone p w) !! p = Some (S cp, np)).
      { simpl. by rewrite clone_lookup, Hpp; simpl; rewrite decide_True. }
      destruct (metadata_ok _ _ _ _ _ _ Hi1 Hpp1) as (st & w1 & Hm & Hi2 & Hrd & Hl).
      eexists _, (ram_drop p w1). split; [|split; [by apply inv_drop|split; [by eapply borrow_reads|]]].
      * unfold bind. rewrite Hm. done.
      * unfold entries, listed_parent. simpl. rewrite Hp, Hpp, (label_some _ _ _ _ Hpp), <- Hl. done.
    + destruct (Hself eq_refl) as (w' & Hs & Hi' & Hrd). eexists _, w'. by split.
    + destruct (Hself eq_refl) as (w' & Hs & Hi' & Hrd). eexists _, w'. by split.
  - rewrite (proj2 (Z.ltb_ge off 2)) by lia. replace (Z.to_nat off) with (S (S (Z.to_nat (off - 2)))) by lia.
    rewrite entries_child, <- (Nat.add_0_r (Z.to_nat (off - 2))), <- lookup_drop, <- Hit.
    destruct iter as [|[name k] iter']; [by exists None, w; split_and!; [..|apply reads_refl|]|].
    assert (Hk : hm_get name (children d) = Some k).
    { apply elem_of_hm_iter. apply (subseteq_drop (Z.to_nat (off - 2))). rewrite <- Hit. left. }
    destruct (inv_child _ _ _ _ _ _ _ _ Hi Hr Hk) as (ck & nk & Hkk & _ & _ & Hlen).
    destruct (stat_entry w own ownf k ck nk name iter' Hi Hkk Hlen) as (w' & Hs & Hi' & Hrd).
    eexists _, w'. by split.
Qed.

Lemma entries_same h h' r d : same_tree h h' -> entries h' r d = entries h r d.
Proof.
  intros Ht. assert (Hp : listed_parent h' r d = listed_parent h r d).
  { unfold listed_parent. destruct (parent d) as [p|]; [|done]. specialize (Ht p).
    destruct (h !! p) as [[c n]|]; [by destruct Ht as (? & -> & _)|by rewrite Ht]. }
  unfold entries. rewrite Hp. f_equal; [by erewrite label_same by done|].
  f_equal; [by erewrite label_same by done|]. apply list_fmap_ext. intros j p _. by rewrite (label_same h) by done.
Qed.

Lemma reads_dir w w' r c d : reads w w' -> heap w !! r = Some (c, RamDirectory d) ->
  heap w' !! r = Some (c, RamDirectory d).
Proof.
  intros [Ht _] Hr. specialize (Ht r). rewrite Hr in Ht. destruct Ht as (n' & Hr' & [->|(? & ? & ? & ? & ? & ? & ? & _)]); done.
Qed.

Lemma dirents_loop_ok room w own ownf r c d off : inv w own ownf ->
  heap w !! r = Some (c, RamDirectory d) -> 0 <= off ->
  exists w', dirents_loop room r (parent d) (drop (Z.to_nat (off - 2)) (hm_iter (children d))) off w =
      (Ok (take room (drop (Z.to_nat off) (entries (heap w) r d))), w') /\
    inv w' own ownf /\ reads w w'.
Proof.
  revert w off. induction room as [|room IH]; intros w off Hi Hr Ho.
  { exists w. split; [done|]. split; [done|apply reads_refl]. }
  destruct (dirent_at_ok w own ownf r c d off _ Hi Hr Ho eq_refl) as (o & w1 & Hd & Hi1 & Hrd & He).
  cbn [dirents_loop]. unfold bind at 1. rewrite Hd. cbn [fst snd]. subst o.
  destruct (entries (heap w) r d !! Z.to_nat off) as [e|] eqn:He.
  - destruct (IH w1 (off + 1) Hi1 (reads_dir _ _ _ _ _ Hrd Hr) ltac:(lia)) as (w2 & Hl & Hi2 & Hrd2).
    exists w2. split; [|split; [done|by eapply reads_trans]]. rewrite (drop_S _ _ _ He). cbn [take].
    rewrite (entries_same (heap w)) in Hl by apply Hrd. replace (Z.to_nat (off + 1)) with (S (Z.to_nat off)) in Hl by lia.
    assert (Hit : (if off <? 2 then drop (Z.to_nat (off - 2)) (hm_iter (children d))
                   else tail (drop (Z.to_nat (off - 2)) (hm_iter (children d)))) =
                  drop (Z.to_nat (off + 1 - 2)) (hm_iter (children d))).
    { destruct (Z.ltb_spec off 2).
      - by replace (Z.to_nat (off + 1 - 2)) with (Z.to_nat (off - 2)) by lia.
      - replace (Z.to_nat (off + 1 - 2)) with (1 + Z.to_nat (off - 2))%nat by lia.
        rewrite Nat.add_comm, <- drop_drop. by destruct (drop (Z.to_nat (off - 2)) (hm_iter (children d))). }
    rewrite Hit. unfold bind. by rewrite Hl.
  - exists w1. split; [|done]. rewrite drop_ge by (by apply lookup_ge_None). by rewrite take_nil.
Qed.

(** A directory lists its entries, whatever it is read with. *)
Lemma get_dirents_ok w own ownf r c d off room : inv w own ownf ->
  heap w !! r = Some (c, RamDirectory d) -> 0 <= off ->
  let ds := take (Z.to_nat room) (drop (Z.to_nat off) (entries (heap w) r d)) in
  exists w', ram_get_dirents r off room w = (Ok (zlen ds, ds), w') /\ inv w' own ownf /\ reads w w'.
Proof.
  intros Hi Hr Ho ds. unfold ram_get_dirents.
  destruct (forwarded_ok w own ownf r c _ (fun r n => match n with
     | RamDirectory _ => dir_get_dirents r off room | _ => fail NotADirectory end) Hi Hr) as (r' & c' & n' & Hf & Hr' & _ & Hsame).
  destruct (Hsame eq_refl) as (-> & -> & ->). rewrite Hf. unfold dir_get_dirents, dir_at, bind, node_at. rewrite Hr.
  destruct (dirents_loop_ok (Z.to_nat room) w own ownf r c d off Hi Hr Ho) as (w' & Hl & Hi' & Hrd).
  exists w'. split; [|done]. cbn [ret]. by rewrite Hl.
Qed.

(** ** Files *)

Lemma on_device_ok {A} w own ownf no (m : M D Sys.SysErrorKind A) : (forall d, (m d).1 <> Panic) -> inv w own ownf ->
  exists o w', on_device no m w = (o, w') /\ o <> Panic /\ inv w' own ownf /\ fss w' = fss w.
Proof.
  intros Hm Hi. unfold on_device. destruct (devices w !! no) as [d|]; [|by exists (Err NoSuchDev), w].
  specialize (Hm d). destruct (m d) as [o d']. eexists _, _. split; [done|].
  split; [by destruct o|]. split; [by eapply inv_ext, Hi|done].
Qed.

Lemma set_content_ok w own ownf r c n n' : inv w own ownf -> heap w !! r = Some (c, n) ->
  similar n n' -> refs n = [] -> refs n' = [] -> is_dir n' = false -> is_wrapper n' = false ->
  exists w', set_node r n' w = (Ok tt, w') /\ inv w' own ownf /\ fss w' = fss w /\
    heap w' = <[r := (c, n')]> (heap w).
Proof.
  intros Hi Hr Hs He He' Hd Hw. unfold set_node. rewrite Hr. eexists. split; [done|]. split; [|done].
  eapply inv_content; try done. intros no i k ->. done.
Qed.

(** What a method that holds on to no reference leaves behind. *)
Definition quiet own ownf w {A} (res : outcome FsErrorKind A * world) : Prop :=
  res.1 <> Panic /\ inv res.2 own ownf /\ fss res.2 = fss w.

Lemma read_ok w own ownf r c n off len : inv w own ownf -> heap w !! r = Some (c, n) ->
  quiet own ownf w (ram_read r off len w).
Proof.
  intros Hi Hr. unfold ram_read.
  match goal with |- context [forwarded r ?b w] => destruct (forwarded_ok w own ownf r c n b Hi Hr) as (r' & c' & n' & -> & Hr' & Hw & _) end.
  destruct n' as [no i content|no i p b|d|no i k|no]; try done.
  - destruct (read_only_read p b off len) as [bytes [p' b']].
    destruct (set_content_ok w own ownf r' c' _ (ReadOnlyRamFile no i p' b') Hi Hr') as (w' & Hs & Hi' & Hf & _); try done.
    unfold bind. by rewrite Hs.
  - destruct (on_device_ok w own ownf no (dev_read off len) (dev_read_ok off len) Hi) as (o & w' & -> & Ho & Hi' & Hf). done.
Qed.

Lemma write_ok w own ownf r c n off buf : inv w own ownf -> heap w !! r = Some (c, n) ->
  quiet own ownf w (ram_write r off buf w).
Proof.
  intros Hi Hr. unfold ram_write.
  match goal with |- context [forwarded r ?b w] => destruct (forwarded_ok w own ownf r c n b Hi Hr) as (r' & c' & n' & -> & Hr' & Hw & _) end.
  destruct n' as [no i content|no i p b|d|no i k|no]; try done.
  - unfold file_write. destruct (zlen content <? off); [done|].
    match goal with |- context [set_node r' ?x] => destruct (set_content_ok w own ownf r' c' _ x Hi Hr') as (w' & Hs & Hi' & Hf & _); try done end.
    unfold bind. by rewrite Hs.
  - destruct (on_device_ok w own ownf no (dev_write off buf) (dev_write_ok off buf) Hi) as (o & w' & -> & Ho & Hi' & Hf). done.
Qed.

Lemma truncate_ok w own ownf r c n size : inv w own ownf -> heap w !! r = Some (c, n) ->
  quiet own ownf w (ram_truncate r size w).
Proof.
  intros Hi Hr. unfold ram_truncate.
  match goal with |- context [forwarded r ?b w] => destruct (forwarded_ok w own ownf r c n b Hi Hr) as (r' & c' & n' & -> & Hr' & Hw & _) end.
  destruct n' as [no i content|no i p b|d|no i k|no]; try done.
  unfold file_truncate. destruct (zlen content <? size); [done|].
  match goal with |- context [set_node r' ?x] => destruct (set_content_ok w own ownf r' c' _ x Hi Hr') as (w' & Hs & Hi' & Hf & _); try done end.
  unfold bind. by rewrite Hs.
Qed.

(** ** Directories *)

(** The error that [create] returns, and the inode it makes otherwise. *)
Definition create_error (d : ram_dir T) (name : list Z) (typ : UFileType) : option FsErrorKind :=
  if read_only d then Some PermissionDenied
  else match hm_get name (children d) with
       | Some _ => Some AlreadyExists
       | None => match typ with UDevice | USymlink => Some Unsupported | _ => None end
       end.

Definition created (typ : UFileType) (no i r : Z) : node :=
  match typ with
  | UDirectory => RamDirectory (mkDir no i (Some r) hm_empty false)
  | _ => RamFile no i []
  end.

Lemma with_dir {A} (body : ram_dir T -> RM A) w r c d : heap w !! r = Some (c, RamDirectory d) ->
  (do d <- dir_at r; body d) w = body d w.
Proof. intros Hr. unfold dir_at, node_at, bind. by rewrite Hr. Qed.

Lemma clone_new (h : heap_t) k n : clone_ref k (<[k := (1%nat, n)]> h) = <[k := (2%nat, n)]> h.
Proof. unfold clone_ref. by rewrite lookup_insert_eq, insert_insert_eq. Qed.

Lemma created_fs typ no i r : node_fs (created typ no i r) = Some i /\ node_no (created typ no i r) = no /\
  refs (created typ no i r) = [] /\ child_ok r i (created typ no i r) /\ is_wrapper (created typ no i r) = false /\
  (forall d, created typ no i r = RamDirectory d -> children d = hm_empty).
Proof.
  destruct typ; simpl; split_and!; try done; try (by intros; simplify_eq).
  by rewrite hm_iter_empty.
Qed.

(** The state once a new inode was allocated and a second reference to it
    made, one for the directory and one for the caller. *)
Lemma new_inode_inv w own ownf k typ i r o w1 z : inv w1 own ownf -> used w1 (k + 1) ->
  heap w1 = heap w -> next_addr w1 = next_addr w -> 0 <= i < next_addr w ->
  (exists c d, heap w !! r = Some (c, RamDirectory d) /\ dir_fs d = i) ->
  (forall z, new_no (heap w1) (fss w1) i (default z o)) ->
  let n := created typ (default z o) i r in
  let w2 := ram_clone (next_addr w) (mkWorld (<[next_addr w := (1%nat, n)]> (heap w1)) (fss w1) (next_addr w + 1) (devices w1)) in
  inv w2 ({[+ next_addr w +]} ⊎ ({[+ next_addr w +]} ⊎ own)) ownf /\ used w2 (k + 1) /\
  heap w2 = <[next_addr w := (2%nat, n)]> (heap w).
Proof.
  intros Hi Hu Hh Hn Hif Hdir Hno n w2. destruct (created_fs typ (default z o) i r) as (Hfs & Hnn & Hrefs & Hok & Hw & Hd).
  split; [|split; [exact Hu|unfold w2; simpl; by rewrite Hh, clone_new]].
  apply inv_clone; [|simpl; rewrite lookup_insert_eq; eauto].
  rewrite <- Hn. apply (new_node_inv _ _ _ i); [|done| |unfold n; by rewrite Hnn|done| |].
  - eapply inv_own, Hi. unfold n. rewrite Hrefs. unfold lsd. simpl. multiset_solver.
  - by rewrite Hn.
  - unfold n. intros no j k' He. by rewrite He in Hw.
  - intros p Hp. simpl. rewrite Hh. unfold n in Hp. by destruct typ; simpl in Hp; simplify_eq.
Qed.

Lemma dir_create_ok w own ownf r c d name typ k : inv w own ownf -> used w k -> 2 + k + 1 < 2 ^ 64 ->
  heap w !! r = Some (c, RamDirectory d) -> r ∈ own -> zlen name <= 256 ->
  match create_error d name typ with
  | Some e => dir_create r name typ w = (Err e, w)
  | None => exists no w', dir_create r name typ w = (Ok (next_addr w), w') /\
      inv w' ({[+ next_addr w +]} ⊎ own) ownf /\ used w' (k + 1) /\
      heap w' = <[r := (c, RamDirectory (set_children (hm_insert name (next_addr w) (children d)) d))]>
                (<[next_addr w := (2%nat, created typ no (dir_fs d) r)]> (heap w))
  end.
Proof.
  intros Hi Hu Hk Hr Hown Hname. unfold create_error, dir_create. rewrite (with_dir _ w r c d) by done. destruct (read_only d); [done|]. destruct (hm_get name (children d)) as [old|] eqn:Hg; [done|].
  destruct (alloc_ok w own ownf (dir_fs d) k Hi Hu Hk) as (o & w1 & Ha & Hi1 & Hu1 & Hh1 & Hn1 & Hd1 & _ & Hno).
  assert (Htree := i_tree _ _ _ Hi). destruct (t_addr _ _ _ Htree _ _ _ Hr) as [Hrr Hfsr].
  specialize (Hfsr _ eq_refl).
  assert (Hgo : forall z, typ = UDirectory \/ typ = RegularFile -> exists no w',
    (modify (ram_clone (next_addr w));; insert_child r name (next_addr w);; ret (next_addr w))
      (mkWorld (<[next_addr w := (1%nat, created typ (default z o) (dir_fs d) r)]> (heap w1)) (fss w1) (next_addr w + 1) (devices w1)) =
      (Ok (next_addr w), w') /\
    inv w' ({[+ next_addr w +]} ⊎ own) ownf /\ used w' (k + 1) /\
    heap w' = <[r := (c, RamDirectory (set_children (hm_insert name (next_addr w) (children d)) d))]>
                (<[next_addr w := (2%nat, created typ no (dir_fs d) r)]> (heap w))).
  { intros z _. destruct (new_inode_inv w own ownf k typ (dir_fs d) r o w1 z) as (Hi2 & Hu2 & Hh2); try done; [by eauto|].
    destruct (created_fs typ (default z o) (dir_fs d) r) as (_ & _ & _ & Hok & _).
    exists (default z o). unfold bind, modify.
    match type of Hi2 with inv ?x _ _ => set (w2 := x) in *; clearbody w2 end.
    destruct (insert_child_inv w2 ({[+ next_addr w +]} ⊎ own) ownf r c d name (next_addr w) 2 (created typ (default z o) (dir_fs d) r))
      as (w3 & -> & Hi3 & Hf3 & _ & Heq); try done; try lia.
    - rewrite Hh2, lookup_insert_ne by lia. done.
    - by rewrite Hh2, lookup_insert_eq.
    - multiset_solver.
    - exists w3. split; [done|]. split; [done|]. rewrite (Heq Hg). split; [exact Hu2|]. simpl. rewrite Hh2. done. }
  destruct typ; [| |done|done].
  - destruct (Hgo 0) as (no & w' & He & Hrest); [auto|]. exists no, w'. split; [|done].
    rewrite <- He. unfold bind. rewrite Ha. unfold new_node, bind, get, put, ret. by rewrite Hn1.
  - destruct (Hgo ROOT_INO) as (no & w' & He & Hrest); [auto|]. exists no, w'. split; [|done].
    rewrite <- He. unfold RamDirectory_new, bind. rewrite Ha. unfold new_node, bind, get, put, ret. by rewrite Hn1.
Qed.

End methods.
