(* ===== verification/RamFsClient.v ===== *)
(** * Clients of the memory file systems

    A client holds references to inodes and to file systems and calls the
    methods through them.  [call] is one such call, [runs] a sequence of them
    with the references the client gains and gives up.  The invariant holds in
    every state that a client reaches. *)

From S2P Require Import Prelude Bytes Vfs Dir EfsVfs HashMap InodeOps RamFs RamFsInv RamFsOps RamFsMethods.
From stdpp Require Import gmultiset.
Import Vfs.

#[local] Open Scope Z_scope.
#[local] Open Scope rw_scope.

Section client.
Context {P D T : Type} `{FileContentProvider P} `{Device D} `{!DeviceLaws D}.
Context `{HashMap (list Z) Z T} `{!HashMapLaws (list Z) Z T}.

#[local] Notation node := (node P T).
#[local] Notation heap_t := (gmap Z (nat * node)).
#[local] Notation world := (world P D T).
#[local] Notation RM := (M world FsErrorKind).
Implicit Types (h : heap_t) (r i k : Z) (n : node) (own ownf : gmultiset Z) (w : world).

(** ** Unlink and lookup *)

Lemma dir_unlink_ok w own ownf r c d name : inv w own ownf -> heap w !! r = Some (c, RamDirectory d) -> r ∈ own ->
  match (if read_only d then inl PermissionDenied
         else match hm_get name (children d) with Some k => inr k | None => inl NoSuchFileOrDirectory end) with
  | inl e => dir_unlink r name w = (Err e, w)
  | inr k => exists w', dir_unlink r name w = (Ok tt, w') /\ inv w' own ownf /\ fss w' = fss w /\
      (exists c', heap w' !! r = Some (c', RamDirectory (set_children (hm_remove name (children d)) d))) /\
      shrinks (<[r := (c, RamDirectory (set_children (hm_remove name (children d)) d))]> (heap w)) (heap w')
  end.
Proof.
  intros Hi Hr Hown. unfold dir_unlink. rewrite (with_dir _ w r c d) by done.
  destruct (read_only d); [done|]. destruct (hm_get name (children d)) as [k|] eqn:Hk; [|done].
  set (n' := RamDirectory (set_children (hm_remove name (children d)) d)).
  destruct (inv_child _ _ _ _ _ _ _ _ Hi Hr Hk) as (ck & nk & Hkk & Hok & Hlt & Hlen).
  destruct (t_addr _ _ _ (i_tree _ _ _ Hi) _ _ _ Hkk) as [Hkr _].
  assert (Hi1 : inv (set_heap (<[r := (c, n')]> (heap w)) w) ({[+ k +]} ⊎ own) ownf).
  { rewrite <- lsd_one. apply (inv_update w own ownf r c (RamDirectory d) n' [] [k]); try done.
    - eapply inv_own, Hi. unfold lsd. simpl. multiset_solver.
    - by apply refs_remove.
    - eapply (children_ok w own ownf r c d _ name k); try done; [lia| |].
      + intros c' n1 Hn1. by simplify_eq.
      + intros name' k'. rewrite !hm_get_map, hm_remove_map, lookup_delete_Some. naive_solver. }
  destruct (inv_drop _ _ _ _ Hi1) as [Hi2 Hs]. eexists. unfold bind, set_node. rewrite Hr. split; [done|].
  split; [done|]. split; [done|]. split; [|done].
  destruct (inv_held _ _ _ r Hi2 Hown) as (c2 & n2 & Hr2). exists c2. rewrite Hr2.
  destruct (proj1 Hs _ _ _ Hr2) as (c3 & Hr3 & _). simpl in Hr3. rewrite lookup_insert_eq in Hr3. by simplify_eq.
Qed.

(** The inode that a name leads to. *)
Definition lookup_in h r (d : ram_dir T) (name : list Z) : option Z :=
  if decide (name = dot) then Some r
  else if decide (name = dotdot) then
    match parent d with Some p => if h !! p then Some p else None | None => None end
  else hm_get name (children d).

Lemma upgrade_ok w own ownf (o : option Z) : inv w own ownf ->
  let res := match o with Some p => if heap w !! p then Some p else None | None => None end in
  let w' := match res with Some p => ram_clone p w | None => w end in
  upgrade o w = (Ok res, w') /\ inv w' (lsd (option_list res) ⊎ own) ownf /\ fss w' = fss w.
Proof.
  intros Hi. unfold upgrade. destruct o as [p|]; [destruct (heap w !! p) as [x|] eqn:Hp|]; simpl; split_and!; try done.
  - rewrite lsd_one. apply inv_clone; [done|]. by rewrite Hp.
  - eapply inv_own, Hi. unfold lsd. simpl. multiset_solver.
  - eapply inv_own, Hi. unfold lsd. simpl. multiset_solver.
Qed.

Lemma dir_lookup_ok w own ownf r c d name : inv w own ownf -> heap w !! r = Some (c, RamDirectory d) ->
  let res := lookup_in (heap w) r d name in
  let w' := match res with Some p => ram_clone p w | None => w end in
  dir_try_lookup r name w = (Ok res, w') /\ inv w' (lsd (option_list res) ⊎ own) ownf /\ fss w' = fss w.
Proof.
  intros Hi Hr. unfold dir_try_lookup, lookup_in. rewrite (with_dir _ w r c d) by done.
  case_decide; [|case_decide].
  - pose proof (upgrade_ok w own ownf (Some r) Hi) as Hu. simpl in Hu |- *. rewrite Hr in Hu |- *. exact Hu.
  - apply (upgrade_ok w own ownf (parent d) Hi).
  - destruct (hm_get name (children d)) as [k|] eqn:Hk; simpl; split_and!; try done.
    + destruct (inv_child _ _ _ _ _ _ _ _ Hi Hr Hk) as (ck & nk & Hkk & _).
      rewrite lsd_one. apply inv_clone; [done|]. by rewrite Hkk.
    + eapply inv_own, Hi. unfold lsd. simpl. multiset_solver.
Qed.

(** ** File systems *)

Lemma new_fs_ok w own ownf k : inv w own ownf -> used w k -> 0 <= k ->
  exists w', RamFileSystem_new w = (Ok (next_addr w), w') /\ inv w' own ({[+ next_addr w +]} ⊎ ownf) /\ used w' k /\
    heap w' = <[next_addr w + 1 := (1%nat, RamDirectory (mkDir ROOT_INO (next_addr w) None hm_empty false))]> (heap w) /\
    fss w' = <[next_addr w := (1%nat, mkRamFs (next_addr w + 1) (ROOT_INO + 1))]> (fss w).
Proof.
  intros Hi Hu Hk. assert (Hn := i_next _ _ _ Hi). assert (Ht := i_tree _ _ _ Hi).
  assert (Hnone : fss w !! next_addr w = None).
  { destruct (fss w !! next_addr w) as [[c x]|] eqn:Hx; [|done]. destruct (t_fs _ _ _ Ht _ _ _ Hx). lia. }
  assert (Hold : forall r c n, heap w !! r = Some (c, n) -> node_fs n <> Some (next_addr w)).
  { intros r c n Hr He. destruct (t_addr _ _ _ Ht _ _ _ Hr) as [_ Hf]. specialize (Hf _ He). lia. }
  set (n := RamDirectory (mkDir ROOT_INO (next_addr w) None hm_empty false)).
  set (w1 := mkWorld (heap w) (fss w) (next_addr w + 1) (devices w)).
  assert (Hi1 : inv w1 own ownf).
  { destruct Hi as [Hc Hf _ _]. split; simpl; [done|done|eapply tree_top; [done|lia]|lia]. }
  assert (Hi2 := new_node_inv w1 own ownf (next_addr w) n).
  destruct Hi2 as [Hc2 Hf2 Ht2 Hn2]; [|done|simpl; lia| |by intros d He; unfold n in He; simplify_eq|done|done|].
  { eapply inv_own, Hi1. simpl. rewrite hm_iter_empty. unfold lsd. simpl. multiset_solver. }
  { intros c x Hx. simpl in Hx. by rewrite Hnone in Hx. }
  simpl in Hc2, Hf2, Ht2, Hn2. eexists. split.
  { unfold RamFileSystem_new, with_parent, RamDirectory_new, allocate_inode_no, new_node, bind, get, put, modify, ret. simpl. by rewrite Hnone. }
  split; [split; simpl|split; [|done]].
  - eapply counted_proper, Hc2. rewrite roots_insert by done. simpl. multiset_solver.
  - intros j. destruct (Hf2 j) as [Hm Hp]. rewrite multiplicity_disj_union, multiplicity_singleton, lookup_insert.
    repeat case_decide; simplify_eq; [|by split]. rewrite Hnone in Hm. split; [lia|]. naive_solver.
  - apply tree_new_fs; [done|lia|done|lia| |].
    + intros r c n0. rewrite lookup_insert_Some. intros [[<- ?]|[_ Hr]] He; simplify_eq; [done|]. by destruct (Hold _ _ _ Hr).
    + intros c n0. rewrite lookup_insert_eq. intros ?. by simplify_eq.
  - lia.
  - intros j c x. simpl. rewrite lookup_insert_Some. intros [[_ ?]|[_ Hj]]; simplify_eq; [|by eapply Hu].
    cbn [fs_inode_no]. unfold ROOT_INO. lia.
Qed.

Lemma root_ok w own ownf i : inv w own ownf -> i ∈ ownf ->
  exists c x, fss w !! i = Some (c, x) /\ ram_root i w = (Ok (fs_root x), ram_clone (fs_root x) w) /\
    inv (ram_clone (fs_root x) w) ({[+ fs_root x +]} ⊎ own) ownf.
Proof.
  intros Hi Hf. destruct (i_fs _ _ _ Hi i) as [Hm _]. rewrite elem_of_multiplicity in Hf.
  unfold ram_root. destruct (fss w !! i) as [[c x]|] eqn:Hx; [|lia]. exists c, x. split; [done|]. split; [done|].
  destruct (inv_root _ _ _ _ _ _ Hi Hx) as (c' & d & Hr & _). apply inv_clone; [done|]. by rewrite Hr.
Qed.

(** ** Files that the kernel adds *)

Lemma add_node_ok w own ownf r c d name k no (n : Z -> node) : inv w (lsd (refs (n no)) ⊎ own) ownf ->
  used w k -> new_no (heap w) (fss w) (dir_fs d) no ->
  heap w !! r = Some (c, RamDirectory d) -> r ∈ own -> zlen name <= 256 ->
  node_fs (n no) = Some (dir_fs d) -> node_no (n no) = no -> is_dir (n no) = false ->
  (forall no' j k', n no = RamInodeWrapper no' j k' -> exists c n', heap w !! k' = Some (c, n') /\ is_dev n' = true) ->
  exists w', (do file <- new_node (n no); insert_child r name file) w = (Ok tt, w') /\ inv w' own ownf /\ used w' k.
Proof.
  intros Hi Hu Hno Hr Hown Hname Hfs Hnn Hd Hw.
  destruct (t_addr _ _ _ (i_tree _ _ _ Hi) _ _ _ Hr) as [Hrr Hfsr]. specialize (Hfsr _ eq_refl).
  assert (Hi1 := new_node_inv w own ownf (dir_fs d) (n no) Hi Hfs Hfsr).
  rewrite Hnn in Hi1. specialize (Hi1 Hno ltac:(by intros d' Hd'; rewrite Hd' in Hd) Hw ltac:(by intros p Hp; destruct (n no))).
  destruct (insert_child_inv _ own ownf r c d name (next_addr w) 1 (n no) Hi1) as (w' & Hins & Hi2 & Hf2 & _); try done.
  - simpl. rewrite lookup_insert_ne by lia. done.
  - simpl. by rewrite lookup_insert_eq.
  - split; [done|]. by rewrite Hd.
  - lia.
  - exists w'. unfold new_node, bind, get, put, ret. simpl. rewrite Hins. split; [done|]. split; [done|].
    intros j c' x. rewrite Hf2. apply Hu.
Qed.

Lemma add_readonly_file_ok w own ownf r c d name p k : inv w own ownf -> used w k -> 2 + k + 1 < 2 ^ 64 ->
  heap w !! r = Some (c, RamDirectory d) -> r ∈ own -> zlen name <= 256 -> is_Some (fss w !! dir_fs d) ->
  exists w', add_readonly_file r name p w = (Ok tt, w') /\ inv w' own ownf /\ used w' (k + 1).
Proof.
  intros Hi Hu Hk Hr Hown Hname Hal. unfold add_readonly_file. rewrite (with_dir _ w r c d) by done.
  destruct (alloc_ok w own ownf (dir_fs d) k Hi Hu Hk) as (o & w1 & Ha & Hi1 & Hu1 & Hh1 & Hn1 & Hd1 & Hiff & Hno).
  destruct o as [no|]; [|by destruct (proj2 Hiff Hal)]. specialize (Hno 0). simpl in Hno.
  destruct (add_node_ok w1 own ownf r c d name (k + 1) no (fun no => ReadOnlyRamFile no (dir_fs d) p None)) as (w' & Hs & Hrest); try done.
  - eapply inv_own, Hi1. unfold lsd. simpl. multiset_solver.
  - by rewrite Hh1.
  - exists w'. split; [|done]. unfold bind at 1. rewrite Ha. exact Hs.
Qed.

(** A device inode is wrapped; the reference [k'] goes to the wrapper. *)
Lemma add_inode_ok w own ownf r c d name k k' ck nk : inv w ({[+ k' +]} ⊎ own) ownf -> used w k -> 2 + k + 1 < 2 ^ 64 ->
  heap w !! r = Some (c, RamDirectory d) -> r ∈ own -> zlen name <= 256 -> is_Some (fss w !! dir_fs d) ->
  heap w !! k' = Some (ck, nk) -> is_dev nk = true ->
  exists w', add_inode r name k' w = (Ok tt, w') /\ inv w' own ownf /\ used w' (k + 1).
Proof.
  intros Hi Hu Hk Hr Hown Hname Hal Hkk Hdev. unfold add_inode. rewrite (with_dir _ w r c d) by done.
  destruct (alloc_ok w _ ownf (dir_fs d) k Hi Hu Hk) as (o & w1 & Ha & Hi1 & Hu1 & Hh1 & Hn1 & Hd1 & Hiff & Hno).
  destruct o as [no|]; [|by destruct (proj2 Hiff Hal)]. specialize (Hno 0). simpl in Hno.
  destruct (add_node_ok w1 own ownf r c d name (k + 1) no (fun no => RamInodeWrapper no (dir_fs d) k')) as (w' & Hs & Hrest); try done.
  - by rewrite <- lsd_one in Hi1.
  - by rewrite Hh1.
  - intros no' j k1 He. simplify_eq. rewrite Hh1. eauto.
  - exists w'. split; [|done]. unfold bind at 1. rewrite Ha. exact Hs.
Qed.

(** ** Sequences of calls *)

Inductive call : Type :=
| CRead (r offset len : Z)
| CWrite (r offset : Z) (buf : list Z)
| CTruncate (r new_size : Z)
| CMetadata (r : Z)
| CGetDirents (r offset room : Z)
| CCreate (r : Z) (name : list Z) (typ : UFileType)
| CUnlink (r : Z) (name : list Z)
| CRename (r : Z) (old_name new_name : list Z)
| CLookup (r : Z) (name : list Z)
| CClone (r : Z)
| CDrop (r : Z)
| CNewFs
| CRoot (i : Z)
| CCloneFs (i : Z)
| CDropFs (i : Z)
| CAddFile (r : Z) (name : list Z) (p : P)
| CAddDevice (r : Z) (name : list Z) (no : Z)
| CMakeReadOnly (r : Z).

(** The references to inodes and to file systems that a call returns. *)
Definition run_call (c : call) : RM (list Z * list Z) :=
  match c with
  | CRead r off len => ram_read r off len;; ret ([], [])
  | CWrite r off buf => ram_write r off buf;; ret ([], [])
  | CTruncate r sz => ram_truncate r sz;; ret ([], [])
  | CMetadata r => ram_metadata r;; ret ([], [])
  | CGetDirents r off room => ram_get_dirents r off room;; ret ([], [])
  | CCreate r name typ => do k <- ram_create r name typ; ret ([k], [])
  | CUnlink r name => ram_unlink r name;; ret ([], [])
  | CRename r a b => ram_rename r a b;; ret ([], [])
  | CLookup r name => do o <- ram_try_lookup r name; ret (option_list o, [])
  | CClone r => modify (ram_clone r);; ret ([r], [])
  | CDrop r => modify (ram_drop r);; ret ([], [])
  | CNewFs => do i <- RamFileSystem_new; ret ([], [i])
  | CRoot i => do r <- ram_root i; ret ([r], [])
  | CCloneFs i => modify (ram_clone_fs i);; ret ([], [i])
  | CDropFs i => modify (ram_drop_fs i);; ret ([], [])
  | CAddFile r name p => add_readonly_file r name p;; ret ([], [])
  | CAddDevice r name no => do k <- new_node (DevINode no); add_inode r name k;; ret ([], [])
  | CMakeReadOnly r => make_read_only r;; ret ([], [])
  end.

(** The references that a call gives up. *)
Definition gives (c : call) : list Z * list Z :=
  match c with CDrop r => ([r], []) | CDropFs i => ([], [i]) | _ => ([], []) end.

(** A directory of a live file system, to which the kernel adds files. *)
Definition live_dir w r : Prop :=
  exists c d, heap w !! r = Some (c, RamDirectory d) /\ is_Some (fss w !! dir_fs d).

(** Calls are made through references that the client holds, with names of
    the length that [ValidFileName] admits. *)
Definition allowed w own ownf (c : call) : Prop :=
  match c with
  | CRead r _ _ | CWrite r _ _ | CTruncate r _ | CMetadata r | CRename r _ _ | CLookup r _
  | CClone r | CDrop r | CUnlink r _ => r ∈ own
  | CGetDirents r off _ => r ∈ own /\ 0 <= off
  | CCreate r name _ => r ∈ own /\ zlen name <= 256
  | CNewFs => True
  | CRoot i | CCloneFs i | CDropFs i => i ∈ ownf
  | CAddFile r name _ | CAddDevice r name _ => r ∈ own /\ zlen name <= 256 /\ live_dir w r
  | CMakeReadOnly r => r ∈ own /\ live_dir w r
  end.

Definition after own (given taken : list Z) : gmultiset Z := lsd taken ⊎ (own ∖ lsd given).

Definition taken (o : outcome FsErrorKind (list Z * list Z)) : list Z * list Z :=
  match o with Ok g => g | _ => ([], []) end.

Inductive runs : nat -> world -> gmultiset Z -> gmultiset Z -> Prop :=
| runs_start devs : runs 0 (mkWorld ∅ ∅ 0 devs) ∅ ∅
| runs_call (j : nat) w own ownf c : runs j w own ownf -> allowed w own ownf c ->
    let res := run_call c w in
    runs (S j) res.2 (after own (gives c).1 (taken res.1).1) (after ownf (gives c).2 (taken res.1).2).

(** A fixed sequence of calls. *)
Fixpoint exec (cs : list call) (s : world * gmultiset Z * gmultiset Z) : world * gmultiset Z * gmultiset Z :=
  match cs with
  | [] => s
  | c :: cs' =>
    let res := run_call c s.1.1 in
    exec cs' (res.2, after s.1.2 (gives c).1 (taken res.1).1, after s.2 (gives c).2 (taken res.1).2)
  end.

Definition live_dirb w r : bool :=
  match heap w !! r with
  | Some (_, RamDirectory d) => bool_decide (is_Some (fss w !! dir_fs d))
  | _ => false
  end.

Definition allowedb w own ownf (c : call) : bool :=
  match c with
  | CRead r _ _ | CWrite r _ _ | CTruncate r _ | CMetadata r | CRename r _ _ | CLookup r _
  | CClone r | CDrop r | CUnlink r _ => bool_decide (r ∈ own)
  | CGetDirents r off _ => bool_decide (r ∈ own) && (0 <=? off)
  | CCreate r name _ => bool_decide (r ∈ own) && (zlen name <=? 256)
  | CNewFs => true
  | CRoot i | CCloneFs i | CDropFs i => bool_decide (i ∈ ownf)
  | CAddFile r name _ | CAddDevice r name _ => bool_decide (r ∈ own) && (zlen name <=? 256) && live_dirb w r
  | CMakeReadOnly r => bool_decide (r ∈ own) && live_dirb w r
  end.

Lemma allowedb_ok w own ownf c : allowedb w own ownf c = true -> allowed w own ownf c.
Proof.
  assert (Hl : forall r, live_dirb w r = true -> live_dir w r).
  { intros r. unfold live_dirb, live_dir. destruct (heap w !! r) as [[c' [| |d| |]]|]; try done.
    rewrite bool_decide_eq_true. eauto. }
  destruct c; simpl; rewrite ?andb_true_iff, ?bool_decide_eq_true, ?Z.leb_le; naive_solver.
Qed.

Fixpoint all_allowed (cs : list call) (s : world * gmultiset Z * gmultiset Z) : bool :=
  match cs with
  | [] => true
  | c :: cs' =>
    let res := run_call c s.1.1 in
    allowedb s.1.1 s.1.2 s.2 c &&
    all_allowed cs' (res.2, after s.1.2 (gives c).1 (taken res.1).1, after s.2 (gives c).2 (taken res.1).2)
  end.

Definition start (devs : gmap Z D) : world * gmultiset Z * gmultiset Z := (mkWorld ∅ ∅ 0 devs, ∅, ∅).

Lemma exec_runs j cs s : runs j s.1.1 s.1.2 s.2 -> all_allowed cs s = true ->
  runs (length cs + j) (exec cs s).1.1 (exec cs s).1.2 (exec cs s).2.
Proof.
  revert j s. induction cs as [|c cs IH]; intros j s Hr Ha; [done|]. apply andb_true_iff in Ha as [Hc Ha]. cbn [exec].
  replace (length (c :: cs) + j)%nat with (length cs + S j)%nat by (simpl; lia).
  apply IH; [|done]. apply runs_call; [done|]. by apply allowedb_ok.
Qed.

(** What is shown of one call. *)
Definition call_ok own ownf k (c : call) (res : outcome FsErrorKind (list Z * list Z) * world) : Prop :=
  res.1 <> Panic /\
  inv res.2 (after own (gives c).1 (taken res.1).1) (after ownf (gives c).2 (taken res.1).2) /\
  used res.2 (k + 1).

Lemma after_nil own : after own [] [] = own.
Proof. unfold after, lsd. simpl. multiset_solver. Qed.

Lemma after_taken own l : after own [] l = lsd l ⊎ own.
Proof. unfold after, lsd. simpl. multiset_solver. Qed.

(** A call that returns no reference and gives none up. *)
Lemma quiet_call {A} own ownf k c w (m : RM A) : gives c = ([], []) -> used w k ->
  run_call c = (m;; ret ([], []))%rw -> quiet own ownf w (m w) -> call_ok own ownf k c (run_call c w).
Proof.
  intros Hg Hu -> (Hp & Hi & Hf). unfold call_ok, bind. rewrite Hg. destruct (m w) as [[a|e|] w']; simpl in *; [| |done].
  - rewrite !after_nil. split_and!; [done|done|]. eapply used_mono; [eapply used_same; done|lia].
  - rewrite !after_nil. split_and!; [done|done|]. eapply used_mono; [eapply used_same; done|lia].
Qed.

(** The target of a call through a held reference. *)
Lemma held_forwarded {A} w own ownf r (body : Z -> node -> RM A) : inv w own ownf -> r ∈ own ->
  exists c n r' c' n', heap w !! r = Some (c, n) /\ forwarded r body w = body r' n' w /\
    heap w !! r' = Some (c', n') /\ (is_dir n' = true -> r' = r).
Proof.
  intros Hi Hr. destruct (inv_held _ _ _ _ Hi Hr) as (c & n & Hn).
  destruct (forward_ok w own ownf r c n Hi Hn) as (r1 & c1 & n1 & Hf1 & Hn1 & Hw1 & Hs1).
  exists c, n, r1, c1, n1. split; [done|]. split; [unfold forwarded, bind, node_at; by rewrite Hf1, Hn1|].
  split; [done|]. intros Hd. destruct (is_wrapper n) eqn:Hw; [|by apply Hs1].
  destruct n as [| | |no i k|]; try done.
  destruct (t_wrap _ _ _ (i_tree _ _ _ Hi) _ _ _ _ _ Hn) as [Hk Hdev].
  destruct (inv_ref _ _ _ _ _ _ k Hi Hn) as (c' & n' & Hn'); [simpl; set_solver|]. specialize (Hdev _ _ Hn').
  assert (r1 = k) as ->.
  { revert Hf1. cbn [forward]. unfold bind, node_at. rewrite Hn.
    replace (Z.to_nat r) with (S (pred (Z.to_nat r))) by lia. cbn [forward]. unfold bind, node_at. rewrite Hn'.
    destruct n'; try done. unfold ret. intros ?. by simplify_eq. }
  rewrite Hn' in Hn1. simplify_eq. by destruct n1.
Qed.

Lemma get_dirents_quiet w own ownf r off room : inv w own ownf -> r ∈ own -> 0 <= off ->
  quiet own ownf w (ram_get_dirents r off room w).
Proof.
  intros Hi Hr Ho. unfold ram_get_dirents.
  match goal with |- context [forwarded r ?b w] => destruct (held_forwarded w own ownf r b Hi Hr) as (c & n & r' & c' & n' & Hn & -> & Hr' & _) end.
  destruct n' as [| |d| |]; try done.
  destruct (dirents_loop_ok (Z.to_nat room) w own ownf r' c' d off Hi Hr' Ho) as (w' & Hl & Hi' & _ & Hf & _).
  unfold dir_get_dirents. rewrite (with_dir _ w r' c' d) by done. unfold bind. by rewrite Hl.
Qed.

Lemma unlink_quiet w own ownf r name : inv w own ownf -> r ∈ own -> quiet own ownf w (ram_unlink r name w).
Proof.
  intros Hi Hr. unfold ram_unlink.
  match goal with |- context [forwarded r ?b w] => destruct (held_forwarded w own ownf r b Hi Hr) as (c & n & r' & c' & n' & Hn & -> & Hr' & Hd) end.
  destruct n' as [| |d| |]; try done. rewrite (Hd eq_refl) in *.
  pose proof (dir_unlink_ok w own ownf r c' d name Hi Hr' Hr) as Hu.
  destruct (read_only d); [by rewrite Hu|]. destruct (hm_get name (children d)); [|by rewrite Hu].
  destruct Hu as (w' & -> & Hi' & Hf & _). done.
Qed.

Lemma make_read_only_quiet w own ownf r : inv w own ownf -> live_dir w r -> quiet own ownf w (make_read_only r w).
Proof.
  intros Hi (c & d & Hr & _). unfold make_read_only. rewrite (with_dir _ w r c d) by done.
  unfold set_node. rewrite Hr. split; [done|]. split; [|done].
  eapply inv_own; [|eapply (inv_update w own ownf r c (RamDirectory d) _ [] [])]; try done.
  - unfold lsd. simpl. multiset_solver.
  - eapply inv_own, Hi. unfold lsd. simpl. multiset_solver.
  - intros d' name k He Hk. simplify_eq. exact (t_child _ _ _ (i_tree _ _ _ Hi) _ _ _ _ _ Hr Hk).
Qed.

Lemma create_call w own ownf k r name typ : inv w own ownf -> used w k -> 2 + k + 1 < 2 ^ 64 -> r ∈ own ->
  zlen name <= 256 -> call_ok own ownf k (CCreate r name typ) (run_call (CCreate r name typ) w).
Proof.
  intros Hi Hu Hk Hr Hn. unfold call_ok, run_call, ram_create. unfold bind.
  match goal with |- context [forwarded r ?b w] => destruct (held_forwarded w own ownf r b Hi Hr) as (c & n & r' & c' & n' & _ & -> & Hr' & Hd) end.
  assert (Hu' : used w (k + 1)) by (eapply used_mono; [done|lia]).
  destruct n' as [| |d| |]; try (simpl; rewrite !after_nil; done). rewrite (Hd eq_refl) in *.
  pose proof (dir_create_ok w own ownf r c' d name typ k Hi Hu Hk Hr' Hr Hn) as Hc.
  destruct (create_error d name typ); [rewrite Hc; simpl; by rewrite !after_nil|].
  destruct Hc as (no & w' & -> & Hi' & Hu1 & _). simpl. rewrite after_nil, after_taken, lsd_one. done.
Qed.

Lemma lookup_call w own ownf k r name : inv w own ownf -> used w k -> r ∈ own ->
  call_ok own ownf k (CLookup r name) (run_call (CLookup r name) w).
Proof.
  intros Hi Hu Hr. unfold call_ok, run_call, ram_try_lookup. unfold bind.
  match goal with |- context [forwarded r ?b w] => destruct (held_forwarded w own ownf r b Hi Hr) as (c & n & r' & c' & n' & _ & -> & Hr' & Hd) end.
  assert (Hu' : used w (k + 1)) by (eapply used_mono; [done|lia]).
  destruct n' as [| |d| |]; try (simpl; rewrite !after_nil; done).
  destruct (dir_lookup_ok w own ownf r' c' d name Hi Hr') as (-> & Hi' & Hf). simpl.
  rewrite after_nil, after_taken. split_and!; [done|done|]. by eapply used_same.
Qed.

Lemma after_given own r : r ∈ own -> {[+ r +]} ⊎ after own [r] [] = own.
Proof. intros Hr. unfold after, lsd. simpl. multiset_solver. Qed.

Lemma drop_call w own ownf k r : inv w own ownf -> used w k -> r ∈ own ->
  call_ok own ownf k (CDrop r) (run_call (CDrop r) w).
Proof.
  intros Hi Hu Hr. unfold call_ok. simpl. rewrite after_nil. split; [done|].
  rewrite <- (after_given own r) in Hi at 1 by done. apply inv_drop in Hi as [Hi' _]. split; [done|].
  eapply used_mono; [done|lia].
Qed.

Lemma drop_fs_used w i k : used w k -> used (ram_drop_fs i w) k.
Proof.
  intros Hu. unfold ram_drop_fs. destruct (fss w !! i) as [[[|[|c]] x]|] eqn:Hi; intros j c' y; simpl.
  - rewrite lookup_insert_Some. intros [[_ ?]|[_ Hj]]; [simplify_eq; by eapply Hu|by eapply Hu].
  - rewrite lookup_delete_Some. intros [_ Hj]. by eapply Hu.
  - rewrite lookup_insert_Some. intros [[_ ?]|[_ Hj]]; [simplify_eq; by eapply Hu|by eapply Hu].
  - apply Hu.
Qed.

Lemma drop_fs_call w own ownf k i : inv w own ownf -> used w k -> i ∈ ownf ->
  call_ok own ownf k (CDropFs i) (run_call (CDropFs i) w).
Proof.
  intros Hi Hu Hf. unfold call_ok. simpl. rewrite after_nil. split; [done|].
  rewrite <- (after_given ownf i) in Hi at 1 by done. apply inv_drop_fs in Hi. split; [done|].
  eapply used_mono; [by apply drop_fs_used|lia].
Qed.

Lemma fs_present w own ownf i : inv w own ownf -> i ∈ ownf -> exists c x, fss w !! i = Some (c, x).
Proof.
  intros Hi Hf. destruct (i_fs _ _ _ Hi i) as [Hm _]. rewrite elem_of_multiplicity in Hf.
  destruct (fss w !! i) as [[c x]|]; [eauto|lia].
Qed.

Lemma clone_fs_call w own ownf k i : inv w own ownf -> used w k -> i ∈ ownf ->
  call_ok own ownf k (CCloneFs i) (run_call (CCloneFs i) w).
Proof.
  intros Hi Hu Hf. destruct (fs_present _ _ _ _ Hi Hf) as (c & x & Hx). unfold call_ok. simpl.
  rewrite after_nil, after_taken, lsd_one. split; [done|]. split; [by apply inv_clone_fs; [|rewrite Hx]|].
  eapply (used_mono _ k); [|lia]. intros j c' y. unfold ram_clone_fs. rewrite Hx. simpl.
  rewrite lookup_insert_Some. intros [[_ ?]|[_ Hj]]; [simplify_eq; by eapply Hu|by eapply Hu].
Qed.

Lemma add_device_call w own ownf k r name no : inv w own ownf -> used w k -> 2 + k + 1 < 2 ^ 64 -> r ∈ own ->
  zlen name <= 256 -> live_dir w r -> call_ok own ownf k (CAddDevice r name no) (run_call (CAddDevice r name no) w).
Proof.
  intros Hi Hu Hk Hr Hn (c & d & Hd & Hl). pose proof (new_dev_inv w own ownf no Hi) as Hi1.
  destruct (t_addr _ _ _ (i_tree _ _ _ Hi) _ _ _ Hd) as [Hrr _].
  destruct (add_inode_ok _ own ownf r c d name k (next_addr w) 1 (DevINode no) Hi1) as (w' & Ha & Hi2 & Hu2); try done.
  - simpl. by rewrite lookup_insert_ne by lia.
  - simpl. by rewrite lookup_insert_eq.
  - unfold call_ok. cbn [run_call]. unfold new_node, bind, get, put, ret. rewrite Ha. simpl. by rewrite !after_nil.
Qed.

Lemma run_call_ok w own ownf k c : inv w own ownf -> used w k -> 0 <= k -> 2 + k + 1 < 2 ^ 64 -> allowed w own ownf c ->
  call_ok own ownf k c (run_call c w).
Proof.
  intros Hi Hu Hk0 Hk Ha. assert (Hu' : used w (k + 1)) by (eapply used_mono; [done|lia]).
  assert (Hheld : forall r, r ∈ own -> exists c n, heap w !! r = Some (c, n)) by (intros; by eapply inv_held).
  destruct c as [r off len|r off buf|r sz|r|r off room|r name typ|r name|r a b|r name|r|r| |i|i|i|r name p|r name no|r];
    simpl in Ha.
  - destruct (Hheld r Ha) as (c & n & Hr). by eapply quiet_call, read_ok.
  - destruct (Hheld r Ha) as (c & n & Hr). by eapply quiet_call, write_ok.
  - destruct (Hheld r Ha) as (c & n & Hr). by eapply quiet_call, truncate_ok.
  - destruct (Hheld r Ha) as (c & n & Hr). destruct (metadata_ok _ _ _ _ _ _ Hi Hr) as (st & w' & Hm & Hi' & (_ & Hf & _) & _).
    eapply quiet_call; [done..|]. rewrite Hm. done.
  - destruct Ha. by eapply quiet_call, get_dirents_quiet.
  - destruct Ha. by apply create_call.
  - by eapply quiet_call, unlink_quiet.
  - eapply quiet_call; [done..|]. unfold ram_rename.
    match goal with |- context [forwarded r ?f w] => destruct (held_forwarded w own ownf r f Hi Ha) as (c & n & r' & c' & n' & _ & -> & _) end.
    by destruct n'.
  - by apply lookup_call.
  - destruct (Hheld r Ha) as (c & n & Hr). unfold call_ok. simpl. rewrite after_nil, after_taken, lsd_one.
    split; [done|]. split; [|done]. apply inv_clone; [done|]. by rewrite Hr.
  - by apply drop_call.
  - destruct (new_fs_ok w own ownf k Hi Hu Hk0) as (w' & Hw & Hi' & Hu1 & _). unfold call_ok. simpl. unfold bind. rewrite Hw. simpl.
    rewrite after_nil, after_taken, lsd_one. split_and!; [done|done|]. eapply used_mono; [done|lia].
  - destruct (root_ok w own ownf i Hi Ha) as (c & x & Hx & Hr & Hi'). unfold call_ok. simpl. unfold bind. rewrite Hr. simpl.
    rewrite after_nil, after_taken, lsd_one. done.
  - by apply clone_fs_call.
  - by apply drop_fs_call.
  - destruct Ha as (Hr & Hn & c & d & Hd & Hl).
    destruct (add_readonly_file_ok w own ownf r c d name p k Hi Hu Hk Hd Hr Hn Hl) as (w' & Hw & Hi' & Hu1).
    unfold call_ok. simpl. unfold bind. rewrite Hw. simpl. by rewrite !after_nil.
  - destruct Ha as (Hr & Hn & Hl). by apply add_device_call.
  - destruct Ha as (Hr & Hl). by eapply quiet_call, make_read_only_quiet.
Qed.

Lemma inv_start devs : let w := mkWorld ∅ ∅ 0 devs : world in inv w ∅ ∅ /\ used w 0.
Proof.
  intros w. split; [split; simpl|by intros i c x; simpl; rewrite lookup_empty].
  - split; [|by intros r c n; rewrite lookup_empty]. intros r. unfold strong, owned, roots, lsd.
    rewrite lookup_empty, !map_to_list_empty. simpl. multiset_solver.
  - intros i. rewrite lookup_empty. split; [multiset_solver|done].
  - split; intros *; rewrite ?lookup_empty; done.
  - lia.
Qed.

Lemma runs_inv j w own ownf : runs j w own ownf -> 2 + Z.of_nat j < 2 ^ 64 ->
  inv w own ownf /\ used w (Z.of_nat j).
Proof.
  induction 1 as [devs|j w own ownf c Hr IH Ha res]; intros Hj; [apply inv_start|].
  destruct IH as [Hi Hu]; [lia|].
  destruct (run_call_ok w own ownf (Z.of_nat j) c Hi Hu) as (_ & Hi' & Hu'); [lia|lia|done|].
  split; [done|]. by rewrite Nat2Z.inj_succ, <- Z.add_1_r.
Qed.

(** ** Garbage

    The objects that the references outside lead to. *)
Inductive reachable w own : Z -> Prop :=
| reach_own r : r ∈ own -> reachable w own r
| reach_root i c x : fss w !! i = Some (c, x) -> reachable w own (fs_root x)
| reach_ref r c n k : reachable w own r -> heap w !! r = Some (c, n) -> k ∈ refs n -> reachable w own k.

Lemma elem_of_owned h k : k ∈ owned h <-> exists r c n, h !! r = Some (c, n) /\ k ∈ refs n.
Proof.
  unfold owned. rewrite elem_of_lsd, list_elem_of_bind. split.
  - intros ([r [c n]] & Hk & Hr). apply elem_of_map_to_list in Hr. eauto.
  - intros (r & c & n & Hr & Hk). exists (r, (c, n)). split; [done|]. by apply elem_of_map_to_list.
Qed.

Lemma elem_of_roots (f : gmap Z (nat * RamFileSystem)) k : k ∈ roots f <-> exists i c x, f !! i = Some (c, x) /\ k = fs_root x.
Proof.
  unfold roots. rewrite elem_of_lsd, list_elem_of_fmap. split.
  - intros ([i [c x]] & -> & Hi). apply elem_of_map_to_list in Hi. eauto.
  - intros (i & c & x & Hi & ->). exists (i, (c, x)). split; [done|]. by apply elem_of_map_to_list.
Qed.

(** Every object has an owner, and an owner that is an object is older or
    wraps a device, so that the owners lead to a reference from outside. *)
Lemma inv_reachable w own ownf r c n : inv w own ownf -> heap w !! r = Some (c, n) -> reachable w own r.
Proof.
  intros Hi. assert (Hown : forall r c n, heap w !! r = Some (c, n) ->
    r ∈ own \/ (exists i c x, fss w !! i = Some (c, x) /\ r = fs_root x) \/
    exists r' c' n', heap w !! r' = Some (c', n') /\ r ∈ refs n').
  { intros r' c' n' Hr. destruct (i_counted _ _ _ Hi) as [Hc Hp]. specialize (Hc r'). rewrite (strong_some _ _ _ _ Hr) in Hc.
    specialize (Hp _ _ _ Hr). assert (Hin : r' ∈ owned (heap w) ⊎ (roots (fss w) ⊎ own)) by (apply elem_of_multiplicity; lia).
    rewrite !gmultiset_elem_of_disj_union, elem_of_owned, elem_of_roots in Hin. naive_solver. }
  assert (Hnd : forall j r c n, (Z.to_nat r < j)%nat -> is_dev n = false -> heap w !! r = Some (c, n) -> reachable w own r).
  { induction j as [|j IH]; [lia|]. intros r' c' n' Hj Hd Hr.
    destruct (Hown _ _ _ Hr) as [?|[(i & ci & x & Hx & ->)|(d & cd & nd & Hdd & Hin)]]; [by apply reach_own|by eapply reach_root|].
    destruct (t_addr _ _ _ (i_tree _ _ _ Hi) _ _ _ Hdd) as [? _].
    destruct nd as [| |dir|no i k|]; try by apply not_elem_of_nil in Hin.
    - simpl in Hin. apply list_elem_of_fmap in Hin as ([name k] & He & Hk). simpl in He. subst k. apply elem_of_hm_iter in Hk.
      destruct (inv_child _ _ _ _ _ _ _ _ Hi Hdd Hk) as (_ & _ & _ & _ & Hlt & _).
      eapply reach_ref; [eapply (IH d); [lia| |done]|done|by eapply child_in_refs]. done.
    - simpl in Hin. apply list_elem_of_singleton in Hin as ->.
      destruct (t_wrap _ _ _ (i_tree _ _ _ Hi) _ _ _ _ _ Hdd) as [_ Hdev]. by rewrite (Hdev _ _ Hr) in Hd. }
  intros Hr. destruct (is_dev n) eqn:Hd; [|by eapply (Hnd (S (Z.to_nat r))); [lia| |]].
  destruct (Hown _ _ _ Hr) as [?|[(i & ci & x & Hx & ->)|(d & cd & nd & Hdd & Hin)]]; [by apply reach_own|by eapply reach_root|].
  eapply reach_ref; [|done|done]. eapply (Hnd (S (Z.to_nat d))); [lia| |done].
  by destruct nd; try done; apply not_elem_of_nil in Hin.
Qed.

End client.
