(* ===== verification/RamFsTheorems.v ===== *)
(** * Theorems on the memory file systems

    Safety of reference counting, absence of garbage, the shape of the
    directory trees, creating and removing entries, listing a directory, and
    reading a file whose content is made on demand. *)

From S2P Require Import Prelude Bytes Vfs Dir EfsVfs HashMap InodeOps RamFs RamFsInv RamFsOps RamFsMethods RamFsClient.
From stdpp Require Import gmultiset.
Import Vfs.

#[local] Open Scope Z_scope.
#[local] Open Scope rw_scope.

Section theorems.
Context {P D T : Type} `{FileContentProvider P} `{Device D} `{!DeviceLaws D}.
Context `{HashMap (list Z) Z T} `{!HashMapLaws (list Z) Z T}.

#[local] Notation node := (node P T).
#[local] Notation world := (world P D T).
Implicit Types (r i k : Z) (n : node) (own ownf : gmultiset Z) (w : world).

(** C27. Whatever a client did before, a call through references that it holds
    does not panic (so no method meets a dead object or a missing file
    system); every inode it holds is alive, and the strong count of an inode
    is the number of references that directories, wrappers, file systems and
    the client have to it.  The client creates names of at most 256 bytes,
    calls [add_readonly_file], [add_inode] and [make_read_only] only while the
    file system of the directory is alive ([allowed]), and makes fewer than
    2^64 - 3 calls. *)
Theorem ram_calls_safe j w own ownf c :
  runs j w own ownf -> 3 + Z.of_nat j < 2 ^ 64 -> allowed w own ownf c ->
  (run_call c w).1 <> Panic /\
  (forall r, r ∈ own -> is_Some (heap w !! r)) /\
  (forall r, strong (heap w) r = multiplicity r (owned (heap w) ⊎ (roots (fss w) ⊎ own))).
Proof.
  intros Hr Hj Ha. destruct (runs_inv j w own ownf Hr) as [Hi Hu]; [lia|].
  split; [by eapply run_call_ok; [done|done|lia|lia|done]|]. split; [|apply Hi].
  intros r Hin. destruct (inv_held _ _ _ _ Hi Hin) as (c' & n & Hn). by rewrite Hn.
Qed.


(** C29. The directory trees are well typed, after calls as in the theorems
    before: the children of a directory are alive, belong to its file system
    and have names of at most 256 bytes, a child that is a directory has it
    as its parent, and the root of a file system is a directory of it; in a
    file system that is alive no two inodes share an inode number. *)
Theorem ram_trees_typed j w own ownf :
  runs j w own ownf -> 3 + Z.of_nat j < 2 ^ 64 ->
  (forall r c d name k, heap w !! r = Some (c, RamDirectory d) -> hm_get name (children d) = Some k ->
    exists c' n, heap w !! k = Some (c', n) /\ child_ok r (dir_fs d) n /\ r < k /\ zlen name <= 256) /\
  (forall i c x, fss w !! i = Some (c, x) ->
    exists c' d, heap w !! fs_root x = Some (c', RamDirectory d) /\ dir_fs d = i) /\
  (forall r1 c1 n1 r2 c2 n2 i, heap w !! r1 = Some (c1, n1) -> heap w !! r2 = Some (c2, n2) ->
    node_fs n1 = Some i -> node_fs n2 = Some i -> is_Some (fss w !! i) -> node_no n1 = node_no n2 -> r1 = r2).
Proof.
  intros Hr Hj. destruct (runs_inv j w own ownf Hr) as [Hi _]; [lia|]. split_and!.
  - intros. by eapply inv_child.
  - intros. by eapply inv_root.
  - apply (t_uniq _ _ _ (i_tree _ _ _ Hi)).
Qed.

(** The outcome of looking a name up in a directory. *)
Lemma ram_lookup_eq w own ownf r c d name : inv w own ownf -> heap w !! r = Some (c, RamDirectory d) ->
  (ram_try_lookup r name w).1 = Ok (lookup_in (heap w) r d name).
Proof.
  intros Hi Hr. unfold ram_try_lookup.
  match goal with |- context [forwarded r ?b w] => destruct (forwarded_ok w own ownf r c _ b Hi Hr) as (r' & c' & n' & -> & Hr' & _ & Hs) end.
  destruct (Hs eq_refl) as (-> & -> & ->). by destruct (dir_lookup_ok w own ownf r c d name Hi Hr) as (-> & _).
Qed.

(** A creation that succeeds was in a directory. *)
Lemma ram_create_inv w own ownf r name typ k w1 j : inv w own ownf -> used w (Z.of_nat j) -> 3 + Z.of_nat j < 2 ^ 64 ->
  r ∈ own -> zlen name <= 256 -> ram_create r name typ w = (Ok k, w1) ->
  exists c d no, heap w !! r = Some (c, RamDirectory d) /\ create_error d name typ = None /\ k = next_addr w /\ r < k /\
    inv w1 ({[+ k +]} ⊎ own) ownf /\
    heap w1 = <[r := (c, RamDirectory (set_children (hm_insert name k (children d)) d))]>
                (<[k := (2%nat, created typ no (dir_fs d) r)]> (heap w)).
Proof.
  intros Hi Hu Hj Hr Hn. unfold ram_create.
  match goal with |- context [forwarded r ?b w] => destruct (held_forwarded w own ownf r b Hi Hr) as (c & n & r' & c' & n' & _ & -> & Hr' & Hd) end.
  destruct n' as [| |d| |]; try done. rewrite (Hd eq_refl) in *.
  pose proof (dir_create_ok w own ownf r c' d name typ (Z.of_nat j) Hi Hu ltac:(lia) Hr' Hr Hn) as Hc.
  destruct (create_error d name typ) eqn:He; [by rewrite Hc|]. destruct Hc as (no & w' & -> & Hi' & _ & Hh).
  intros ?. simplify_eq. exists c', d, no. split_and!; try done.
  destruct (t_addr _ _ _ (i_tree _ _ _ Hi) _ _ _ Hr'). lia.
Qed.

Lemma lookup_in_child (h : gmap Z (nat * node)) r d name : name <> dot -> name <> dotdot ->
  lookup_in h r d name = hm_get name (children d).
Proof. intros H1' H2'. unfold lookup_in. by rewrite !decide_False by done. Qed.

(** Two directories that agree on the entry of a name. *)
Lemma lookup_in_same (h h' : gmap Z (nat * node)) r d d' name : name <> dotdot -> hm_get name (children d') = hm_get name (children d) ->
  lookup_in h' r d' name = lookup_in h r d name.
Proof. intros Hn He. unfold lookup_in. by rewrite !(decide_False (P := name = dotdot)), He by done. Qed.

Lemma hm_get_insert_ne (t : T) name name' k : name' <> name -> hm_get name' (hm_insert name k t) = hm_get name' t.
Proof. intros. by rewrite !hm_get_map, hm_insert_map, lookup_insert_ne. Qed.

Lemma hm_get_remove_insert (t : T) name name' k : hm_get name t = None ->
  hm_get name' (hm_remove name (hm_insert name k t)) = hm_get name' t.
Proof. rewrite !hm_get_map, hm_remove_map, hm_insert_map. intros. by rewrite delete_insert_id. Qed.

(** Creating an entry and removing it again: the name was free, leads to
    the new inode afterwards, and is free once it is unlinked; the new
    directory's parent is the directory it was created in; no other name of
    the directory is affected by either call. *)
Theorem ram_create_unlink j w own ownf r name typ k w1 :
  runs j w own ownf -> 3 + Z.of_nat j < 2 ^ 64 -> r ∈ own -> zlen name <= 256 -> name <> dot -> name <> dotdot ->
  ram_create r name typ w = (Ok k, w1) ->
  (ram_try_lookup r name w).1 = Ok None /\
  (ram_try_lookup r name w1).1 = Ok (Some k) /\
  (typ = UDirectory -> (ram_try_lookup k dotdot w1).1 = Ok (Some r)) /\
  (forall name', name' <> name -> name' <> dotdot -> (ram_try_lookup r name' w1).1 = (ram_try_lookup r name' w).1) /\
  exists w2, ram_unlink r name w1 = (Ok tt, w2) /\
    (forall name', name' <> dotdot -> (ram_try_lookup r name' w2).1 = (ram_try_lookup r name' w).1).
Proof.
  intros Hrun Hj Hr Hn Hd Hdd Hc. destruct (runs_inv j w own ownf Hrun) as [Hi Hu]; [lia|].
  destruct (ram_create_inv w own ownf r name typ k w1 j Hi Hu Hj Hr Hn Hc) as (c & d & no & Hrd & He & -> & Hlt & Hi1 & Hh1).
  set (k := next_addr w) in *. set (d1 := set_children (hm_insert name k (children d)) d) in *.
  assert (Hfree : hm_get name (children d) = None /\ read_only d = false).
  { revert He. unfold create_error. destruct (read_only d); [done|]. by destruct (hm_get name (children d)). }
  destruct Hfree as [Hfree Hro].
  assert (Hr1 : heap w1 !! r = Some (c, RamDirectory d1)) by (by rewrite Hh1, lookup_insert_eq).
  assert (Hk1 : heap w1 !! k = Some (2%nat, created typ no (dir_fs d) r)).
  { rewrite Hh1, lookup_insert_ne, lookup_insert_eq by lia. done. }
  split_and!.
  - rewrite (ram_lookup_eq w own ownf r c d), lookup_in_child by done. by rewrite Hfree.
  - rewrite (ram_lookup_eq w1 _ ownf r c d1), lookup_in_child by done. simpl.
    by rewrite hm_get_map, hm_insert_map, lookup_insert_eq.
  - intros ->. rewrite (ram_lookup_eq w1 _ ownf k 2 _ dotdot Hi1 Hk1). unfold lookup_in. simpl. by rewrite Hr1.
  - intros name' Hne Hdd'. rewrite (ram_lookup_eq w1 _ ownf r c d1), (ram_lookup_eq w own ownf r c d) by done.
    f_equal. apply lookup_in_same; [done|]. simpl. by apply hm_get_insert_ne.
  - pose proof (dir_unlink_ok w1 _ ownf r c d1 name Hi1 Hr1 ltac:(multiset_solver)) as Hun. simpl in Hun.
    rewrite Hro, hm_get_map, hm_insert_map, lookup_insert_eq in Hun.
    destruct Hun as (w2 & Hun & Hi2 & _ & (c2 & Hr2) & _). exists w2. split.
    + unfold ram_unlink.
      match goal with |- context [forwarded r ?b w1] => destruct (forwarded_ok w1 _ ownf r c _ b Hi1 Hr1) as (r' & c' & n' & -> & _ & _ & Hs) end.
      by destruct (Hs eq_refl) as (-> & _ & ->).
    + intros name' Hdd'. rewrite (ram_lookup_eq w2 _ ownf r c2 _ _ Hi2 Hr2), (ram_lookup_eq w own ownf r c d) by done.
      f_equal. apply lookup_in_same; [done|]. simpl. by apply hm_get_remove_insert.
Qed.

(** ** Listing a directory *)

Lemma dirent_of_name name l : zlen name <= 256 -> entry_name (dirent_of name l) = name.
Proof.
  intros Hn. unfold entry_name, dirent_of, splice. cbn [u_name_len u_name]. rewrite Nat2Z.id. simpl.
  by rewrite take_app_le, take_ge by lia.
Qed.

Lemma ram_lists w own ownf r c d : inv w own ownf -> heap w !! r = Some (c, RamDirectory d) ->
  lists (H := ram_inodes) r (fun w' => inv w' own ownf /\ reads w w')
    (fun off => drop (Z.to_nat off) (entries (heap w) r d)).
Proof.
  intros Hi Hr off room w1 [Hi1 Hrd] Ho Hroom.
  destruct (get_dirents_ok w1 own ownf r c d off room Hi1 (reads_dir _ _ _ _ _ Hrd Hr) Ho) as (w2 & Hg & Hi2 & Hrd2).
  rewrite (entries_same (heap w)) in Hg by apply Hrd. set (l := drop (Z.to_nat off) (entries (heap w) r d)) in *.
  eexists _, _, w2. split; [exact Hg|]. split; [split; [done|by eapply reads_trans]|].
  split; [lia|]. split; [rewrite length_take; lia|]. split.
  - rewrite Z2Nat.inj_add, Nat2Z.id, <- drop_drop by lia. fold l.
    rewrite length_take. destruct (decide (Z.to_nat room <= length l)%nat).
    + rewrite Nat.min_l by done. by rewrite take_drop.
    + rewrite Nat.min_r, take_ge, drop_all, app_nil_r by lia. done.
  - destruct l; [done|]. by replace (Z.to_nat room) with (S (pred (Z.to_nat room))) by lia.
Qed.

(** Iterating over a directory ends and yields dot, dot-dot and every
    name of the directory exactly once, with the inode number and type of
    the child, in as many steps as there are entries and one more. *)
Theorem ram_readdir j w own ownf r c d :
  runs j w own ownf -> 3 + Z.of_nat j < 2 ^ 64 -> heap w !! r = Some (c, RamDirectory d) ->
  exists ds w',
    (forall fuel, (length ds < fuel)%nat -> collect (H := ram_inodes) fuel r ReadDir_new w = (Ok (Some ds), w')) /\
    entry_name <$> ds ≡ₚ dot :: dotdot :: (map_to_list (hm_map (children d))).*1 /\
    (forall name k, hm_get name (children d) = Some k -> exists e, e ∈ ds /\ entry_name e = name /\
      exists st w'', ram_metadata k w = (Ok st, w'') /\ u_inode_no e = st_ino st /\ u_typ e = st_typ st).
Proof.
  intros Hrun Hj Hr. destruct (runs_inv j w own ownf Hrun) as [Hi Hu]; [lia|].
  pose proof (ram_lists w own ownf r c d Hi Hr) as HL. set (ds := entries (heap w) r d) in *.
  assert (Hcol : forall fuel, (length ds < fuel)%nat -> exists w', collect (H := ram_inodes) fuel r ReadDir_new w = (Ok (Some ds), w')).
  { intros n Hn. destruct (collect_spec r _ _ ds n ReadDir_new w HL) as (w' & Hc & _); [|apply pending_new|done|by exists w'].
    split; [done|apply reads_refl]. }
  destruct (Hcol (S (length ds)) ltac:(lia)) as [w' Hw']. exists ds, w'. split; [|split].
  - intros n Hn. destruct (Hcol n Hn) as [w'' Hw'']. rewrite Hw''. f_equal.
    by eapply collect_det.
  - unfold ds, entries. rewrite !fmap_cons, !dirent_of_name by (by vm_compute). do 2 apply perm_skip.
    rewrite <- list_fmap_compose, <- hm_iter_map. apply Permutation_refl'.
    apply list_fmap_ext. intros m [name k] Hm. simpl. apply dirent_of_name.
    destruct (inv_child w own ownf r c d name k Hi Hr) as (_ & _ & _ & _ & _ & Hlen); [|done].
    apply elem_of_hm_iter. by eapply list_elem_of_lookup_2.
  - intros name k Hk. destruct (inv_child w own ownf r c d name k Hi Hr Hk) as (ck & nk & Hkk & _ & _ & Hlen).
    exists (dirent_of name (label (heap w) k)). split; [|split; [by apply dirent_of_name|]].
    + unfold ds, entries. do 2 right. apply list_elem_of_fmap. exists (name, k). split; [done|]. by apply elem_of_hm_iter.
    + destruct (metadata_ok w own ownf k ck nk Hi Hkk) as (st & w'' & Hm & _ & _ & Hl). exists st, w''.
      split; [done|]. rewrite (label_some _ _ _ _ Hkk), <- Hl. done.
Qed.

(** ** Files whose content is made on demand *)

(** [n] reads of [chunk] bytes, each from where the one before ended. *)
Fixpoint ro_reads (n : nat) (p : P) (b : option (list Z)) (offset chunk : Z) : list Z * (P * option (list Z)) :=
  match n with
  | O => ([], (p, b))
  | S n' =>
    let '(bytes, (p1, b1)) := read_only_read p b offset chunk in
    let '(rest, s) := ro_reads n' p1 b1 (offset + zlen bytes) chunk in
    (bytes ++ rest, s)
  end.

Lemma sub_to_end (c : list Z) off len : 0 <= off <= zlen c -> zlen c - off <= len ->
  sub off (Z.min (zlen c - off) len) c = drop (Z.to_nat off) c.
Proof. intros. unfold sub. apply take_ge. rewrite length_drop. lia. Qed.

Lemma read_step (p : P) (c : list Z) off chunk : 0 <= off < zlen c -> 0 < chunk ->
  read_only_read p (Some c) off chunk =
    (sub off (Z.min (zlen c - off) chunk) c, (p, if zlen c <=? off + chunk then None else Some c)).
Proof.
  intros Ho Hc. unfold read_only_read. rewrite (proj2 (Z.eqb_neq chunk 0)) by lia.
  rewrite (proj2 (Z.leb_gt (zlen c) off)) by lia. f_equal. f_equal.
  destruct (Z.leb_spec (zlen c) (off + chunk)), (Z.leb_spec (zlen c) (off + Z.min (zlen c - off) chunk)); done || lia.
Qed.

Lemma ro_reads_buffered (n : nat) (p : P) (c : list Z) off chunk : 0 < chunk -> 0 <= off < zlen c -> Z.of_nat n * chunk < zlen c - off <= (Z.of_nat n + 1) * chunk ->
  ro_reads (S n) p (Some c) off chunk = (drop (Z.to_nat off) c, (p, None)).
Proof.
  revert off. induction n as [|n IH]; intros off Hch Ho Hn; cbn [ro_reads]; rewrite read_step by lia.
  - rewrite (proj2 (Z.leb_le _ _)), sub_to_end, app_nil_r by lia. done.
  - assert (chunk < zlen c - off) by nia. rewrite (proj2 (Z.leb_gt _ _)), Z.min_r by lia.
    rewrite sub_length by lia.
    cbn [ro_reads] in IH. rewrite IH by nia. unfold sub. rewrite Z2Nat.inj_add, <- drop_drop by lia. by rewrite take_drop.
Qed.

(** Reading a read-only file in pieces returns one snapshot of its
    content, however often the content changes meanwhile: the reads up to the
    end of the snapshot return exactly the content provided at the first of
    them.  The read after the last one takes a new snapshot, and returns its
    bytes behind the length of the old one. *)
Theorem read_only_snapshot (p p1 : P) (c : list Z) chunk (n : nat) :
  provide_content p = (c, p1) -> 0 < chunk -> Z.of_nat n * chunk < zlen c <= (Z.of_nat n + 1) * chunk ->
  ro_reads (S n) p None 0 chunk = (c, (p1, None)) /\
  forall c2 p2, provide_content p1 = (c2, p2) ->
    (read_only_read p1 None (zlen c) chunk).1 = sub (zlen c) (Z.min (zlen c2 - zlen c) chunk) c2.
Proof.
  intros Hp Hch Hn. split.
  - assert (Heq : read_only_read p None 0 chunk = read_only_read p1 (Some c) 0 chunk).
    { unfold read_only_read. rewrite (proj2 (Z.eqb_neq chunk 0)) by lia. by rewrite Hp. }
    pose proof (ro_reads_buffered n p1 c 0 chunk ltac:(lia) ltac:(nia) ltac:(lia)) as Hb.
    cbn [ro_reads] in Hb |- *. by rewrite Heq, Hb.
  - intros c2 p2 Hp2. unfold read_only_read. rewrite (proj2 (Z.eqb_neq chunk 0)), Hp2 by lia.
    destruct (Z.leb_spec (zlen c2) (zlen c)); [|done]. simpl. unfold sub.
    by replace (Z.to_nat (Z.min (zlen c2 - zlen c) chunk)) with 0%nat by lia.
Qed.

End theorems.

(** ** Instances

    A client that makes a file system, takes its root and creates a
    directory in it. *)
Section instances.
#[local] Notation example_world := (world (list Z) BuiltinDev (gmap (list Z) Z)).
#[local] Notation example_runs := (runs (P := list Z) (D := BuiltinDev) (T := gmap (list Z) Z)).

Definition example_calls : list (call (P := list Z)) := [CNewFs; CRoot 0; CCreate 1 [97] UDirectory; CCreate 1 [98] RegularFile].

Definition example_at (n : nat) : example_world * gmultiset Z * gmultiset Z := exec (take n example_calls) (start ∅).

Ltac held := unfold allowed; rewrite elem_of_multiplicity; vm_compute; lia.

Lemma example_runs_at n : (n <= 4)%nat -> example_runs n (example_at n).1.1 (example_at n).1.2 (example_at n).2.
Proof.
  intros Hn. replace n with (length (take n example_calls) + 0)%nat at 1 by (rewrite length_take; simpl; lia).
  apply (exec_runs 0 (take n example_calls) (start ∅)); [constructor|].
  destruct n as [|[|[|[|[|n]]]]]; [by vm_compute..|lia].
Qed.

Lemma ram_calls_safe_witness :
  let '(w, own, ownf) := example_at 4 in
  allowed w own ownf (CUnlink 1 [97]) /\ (run_call (CUnlink 1 [97]) w).1 <> Panic.
Proof.
  assert (Ha : allowed (example_at 4).1.1 (example_at 4).1.2 (example_at 4).2 (CUnlink 1 [97])) by held.
  split; [exact Ha|].
  exact (proj1 (ram_calls_safe 4 _ _ _ (CUnlink 1 [97]) (example_runs_at 4 ltac:(lia)) ltac:(lia) Ha)).
Defined.


Lemma ram_trees_typed_witness : exists c n, heap (example_at 3).1.1 !! 2 = Some (c, n) /\ child_ok 1 0 n.
Proof.
  destruct (proj1 (ram_trees_typed 3 _ _ _ (example_runs_at 3 ltac:(lia)) ltac:(lia)) 1 2%nat
    (mkDir 1 0 None {[ [97] := 2 ]} false) [97] 2) as (c & n & Hn & Hok & _).
  - vm_compute. reflexivity.
  - vm_compute. reflexivity.
  - exists c, n. split; [exact Hn|exact Hok].
Defined.

Lemma ram_create_unlink_witness : exists w2,
  ram_unlink 1 [97] (example_at 3).1.1 = (Ok tt, w2) /\ (ram_try_lookup 1 [97] w2).1 = Ok None.
Proof.
  destruct (ram_create_unlink 2 (example_at 2).1.1 (example_at 2).1.2 (example_at 2).2 1 [97] UDirectory 2 (example_at 3).1.1
    (example_runs_at 2 ltac:(lia)) ltac:(lia) ltac:(held) ltac:(by vm_compute) ltac:(done) ltac:(done))
    as (Hfree & _ & _ & _ & w2 & Hu & Hl).
  - vm_compute. reflexivity.
  - exists w2. split; [exact Hu|]. rewrite Hl by done. exact Hfree.
Defined.

Lemma ram_readdir_witness : exists ds w', collect (H := ram_inodes) 5 1 ReadDir_new (example_at 4).1.1 = (Ok (Some ds), w') /\
  entry_name <$> ds ≡ₚ [dot; dotdot; [97]; [98]].
Proof.
  destruct (ram_readdir 4 (example_at 4).1.1 (example_at 4).1.2 (example_at 4).2 1 2
    (mkDir 1 0 None {[ [97] := 2; [98] := 3 ]} false) (example_runs_at 4 ltac:(lia)) ltac:(lia)) as (ds & w' & Hc & Hp & _).
  - vm_compute. reflexivity.
  - exists ds, w'. assert (Hl : length ds = 4%nat).
    { apply Permutation_length in Hp. rewrite length_fmap in Hp. exact Hp. }
    split; [apply Hc; lia|]. rewrite Hp. do 2 apply perm_skip. vm_compute. repeat constructor.
Defined.

(** A provider with a content for every call. *)
#[local] Instance contents_provider : FileContentProvider (list (list Z)) := {|
  provide_content := fun l => match l with [] => ([], []) | c :: l' => (c, l') end;
  size_hint := fun _ => None
|}.

Lemma read_only_snapshot_witness :
  ro_reads 2 [[1; 2; 3]; [4; 5; 6; 7]] None 0 2 = ([1; 2; 3], ([[4; 5; 6; 7]], None)) /\
  (read_only_read [[4; 5; 6; 7]] None 3 2).1 = [7].
Proof.
  destruct (read_only_snapshot (H := contents_provider) [[1; 2; 3]; [4; 5; 6; 7]] [[4; 5; 6; 7]] [1; 2; 3] 2 1 eq_refl ltac:(lia) ltac:(simpl; lia)) as [Hr He].
  split; [exact Hr|]. exact (He [4; 5; 6; 7] [] eq_refl).
Defined.
End instances.
