(* ===== verification/InodeRefs.v ===== *)
(** * References to inodes

    What a client of the inode interface relies on for memory safety: while
    it calls the methods through references it holds, and drops each of them
    once, no method panics.  [RefLaws] states this for any implementation;
    the memory file systems satisfy it. *)

From S2P Require Import Prelude Bytes Vfs Dir EfsVfs HashMap InodeOps RamFs RamFsInv RamFsOps RamFsMethods RamFsClient.
From stdpp Require Import gmultiset.
Import Vfs.

#[local] Open Scope Z_scope.
#[local] Open Scope rw_scope.

(** [I n own ownf w]: the client holds the references [own] to inodes and
    [ownf] to file systems, with repetitions, and may create [n] inodes more
    before the inode numbers are used up. *)
Class RefLaws {W F R : Type} `{VfsINodeOps W F R} (I : nat -> list R -> list F -> W -> Prop) : Prop := {
  rl_perm n own own' ownf ownf' w : own ≡ₚ own' -> ownf ≡ₚ ownf' -> I n own ownf w -> I n own' ownf' w;
  rl_less n own ownf w : I (S n) own ownf w -> I n own ownf w;
  rl_root n own ownf w f : I n own ownf w -> f ∈ ownf ->
    wp (v_root f) (fun r => I n (r :: own) ownf) (fun _ => I n own ownf) w;
  rl_sync n own ownf w f : I n own ownf w -> f ∈ ownf ->
    wp (v_sync f) (fun _ => I n own ownf) (fun _ => I n own ownf) w;
  rl_read n own ownf w r off len : I n own ownf w -> r ∈ own ->
    wp (v_read r off len) (fun _ => I n own ownf) (fun _ => I n own ownf) w;
  rl_write n own ownf w r off buf : I n own ownf w -> r ∈ own ->
    wp (v_write r off buf) (fun k w' => 0 <= k /\ I n own ownf w') (fun _ => I n own ownf) w;
  rl_metadata n own ownf w r : I n own ownf w -> r ∈ own ->
    wp (v_metadata r) (fun st w' => st_typ st <> USymlink /\ I n own ownf w') (fun _ => I n own ownf) w;
  rl_create n own ownf w r name typ : I (S n) own ownf w -> r ∈ own -> zlen name <= 256 ->
    wp (v_create r name typ) (fun k => I n (k :: own) ownf) (fun _ => I n own ownf) w;
  rl_unlink n own ownf w r name : I n own ownf w -> r ∈ own ->
    wp (v_unlink r name) (fun _ => I n own ownf) (fun _ => I n own ownf) w;
  rl_rename n own ownf w r a b : I n own ownf w -> r ∈ own ->
    wp (v_rename r a b) (fun _ => I n own ownf) (fun _ => I n own ownf) w;
  rl_dirents n own ownf w r off room : I n own ownf w -> r ∈ own -> 0 <= off ->
    wp (v_get_dirents r off room) (fun res w' => 0 <= res.1 /\ I n own ownf w') (fun _ => I n own ownf) w;
  rl_lookup n own ownf w r name : I n own ownf w -> r ∈ own ->
    wp (v_try_lookup r name) (fun o => I n (option_list o ++ own) ownf) (fun _ => I n own ownf) w;
  rl_truncate n own ownf w r size : I n own ownf w -> r ∈ own ->
    wp (v_truncate r size) (fun _ => I n own ownf) (fun _ => I n own ownf) w;
  rl_clone n own ownf w r : I n own ownf w -> r ∈ own -> I n (r :: own) ownf (v_clone r w);
  rl_drop n own ownf w r : I n (r :: own) ownf w -> I n own ownf (v_drop r w);
  rl_clone_fs n own ownf w f : I n own ownf w -> f ∈ ownf -> I n own (f :: ownf) (v_clone_fs f w);
  rl_drop_fs n own ownf w f : I n own (f :: ownf) w -> I n own ownf (v_drop_fs f w)
}.

(** ** The memory file systems *)

Section ram.
Context {P D T : Type} `{FileContentProvider P} `{Device D} `{!DeviceLaws D}.
Context `{HashMap (list Z) Z T} `{!HashMapLaws (list Z) Z T}.

#[local] Notation node := (node P T).
#[local] Notation world := (world P D T).
#[local] Notation RM := (M world FsErrorKind).
Implicit Types (r i : Z) (n : nat) (w : world).

Definition ram_refs n (own ownf : list Z) w : Prop :=
  exists k, 0 <= k /\ inv w (lsd own) (lsd ownf) /\ used w k /\ 2 + k + Z.of_nat n < 2 ^ 64.

Lemma lsd_cons r l : lsd (r :: l) = {[+ r +]} ⊎ lsd l.
Proof. done. Qed.

Lemma ram_refs_held n own ownf w r : ram_refs n own ownf w -> r ∈ own -> exists c x, heap w !! r = Some (c, x).
Proof. intros (k & _ & Hi & _) Hr. eapply inv_held; [done|]. by apply elem_of_lsd. Qed.

(** A method that changes no references. *)
Lemma ram_quiet n own ownf w {A} (m : RM A) : ram_refs n own ownf w ->
  (inv w (lsd own) (lsd ownf) -> quiet (lsd own) (lsd ownf) w (m w)) ->
  wp m (fun _ => ram_refs n own ownf) (fun _ => ram_refs n own ownf) w.
Proof.
  intros (k & Hk & Hi & Hu & Hn) Hq. destruct (Hq Hi) as (Hp & Hi' & Hf). unfold wp.
  assert (ram_refs n own ownf (m w).2) by (exists k; split_and!; [done|done|by eapply used_same|done]).
  by destruct (m w) as [[] w'].
Qed.

Lemma write_count n own ownf w r off buf : ram_refs n own ownf w -> r ∈ own ->
  match (ram_write r off buf w).1 with Ok k => 0 <= k | _ => True end.
Proof.
  intros HI Hr. destruct HI as (_ & _ & Hi & _). apply elem_of_lsd in Hr. unfold ram_write.
  match goal with |- context [forwarded r ?b w] => destruct (held_forwarded w _ _ r b Hi Hr) as (c & x & r' & c' & n' & _ & -> & Hr' & _) end.
  destruct n' as [no i content| | | |no]; try done.
  - destruct (file_write content off buf); [|done..]. unfold bind, set_node. rewrite Hr'. simpl. lia.
  - unfold on_device. destruct (devices w !! no) as [d|]; [|done].
    pose proof (dev_write_count off buf d) as Hc. destruct (dev_write off buf d) as [[k| |] d']; [by apply Hc|done..].
Qed.

Lemma ram_root_refs n own ownf w f : ram_refs n own ownf w -> f ∈ ownf ->
  wp (ram_root f) (fun r => ram_refs n (r :: own) ownf) (fun _ => ram_refs n own ownf) w.
Proof.
  intros (k & Hk & Hi & Hu & Hn) Hf. apply elem_of_lsd in Hf. destruct (root_ok w _ _ f Hi Hf) as (c & x & Hx & Hr & Hi').
  unfold wp. rewrite Hr. exists k. rewrite lsd_cons. done.
Qed.

Lemma ram_create_refs n own ownf w r name typ : ram_refs (S n) own ownf w -> r ∈ own -> zlen name <= 256 ->
  wp (ram_create r name typ) (fun k => ram_refs n (k :: own) ownf) (fun _ => ram_refs n own ownf) w.
Proof.
  intros (k & Hk & Hi & Hu & Hn) Hr Hl. apply elem_of_lsd in Hr.
  pose proof (create_call w _ _ k r name typ Hi Hu ltac:(lia) Hr Hl) as Hc. unfold call_ok in Hc. simpl in Hc.
  unfold bind in Hc. unfold wp. destruct (ram_create r name typ w) as [[a|e|] w']; simpl in Hc; [..|by destruct Hc].
  - destruct Hc as (_ & Hi' & Hu'). rewrite after_nil, after_taken, lsd_one in Hi'. exists (k + 1). rewrite lsd_cons. split_and!; [lia|done|done|lia].
  - destruct Hc as (_ & Hi' & Hu'). rewrite !after_nil in Hi'. exists (k + 1). split_and!; [lia|done|done|lia].
Qed.

Lemma ram_lookup_refs n own ownf w r name : ram_refs n own ownf w -> r ∈ own ->
  wp (ram_try_lookup r name) (fun o => ram_refs n (option_list o ++ own) ownf) (fun _ => ram_refs n own ownf) w.
Proof.
  intros (k & Hk & Hi & Hu & Hn) Hr. apply elem_of_lsd in Hr. unfold wp, ram_try_lookup.
  match goal with |- context [forwarded r ?b w] => destruct (held_forwarded w _ _ r b Hi Hr) as (c & x & r' & c' & n' & _ & -> & Hr' & _) end.
  destruct n' as [| |d| |]; try (by exists k).
  destruct (dir_lookup_ok w _ _ r' c' d name Hi Hr') as (-> & Hi' & Hf). exists k. rewrite lsd_app.
  split_and!; [done|done|by eapply used_same|done].
Qed.

Lemma ram_dirents_refs n own ownf w r off room : ram_refs n own ownf w -> r ∈ own -> 0 <= off ->
  wp (ram_get_dirents r off room) (fun res w' => 0 <= res.1 /\ ram_refs n own ownf w') (fun _ => ram_refs n own ownf) w.
Proof.
  intros HI Hr Ho. assert (Hd : match (ram_get_dirents r off room w).1 with Ok res => 0 <= res.1 | _ => True end).
  { destruct HI as (_ & _ & Hi & _). apply elem_of_lsd in Hr. unfold ram_get_dirents.
    match goal with |- context [forwarded r ?b w] => destruct (held_forwarded w _ _ r b Hi Hr) as (c & x & r' & c' & n' & _ & -> & Hr' & _) end.
    destruct n' as [| |d| |]; try done. unfold dir_get_dirents, bind. destruct (dir_at r' w) as [[] ?]; [|done..].
    destruct (dirents_loop _ _ _ _ _ _) as [[] ?]; [|done..]. simpl. lia. }
  pose proof (ram_quiet n own ownf w (ram_get_dirents r off room) HI) as Hq. unfold wp in *.
  destruct (ram_get_dirents r off room w) as [[res|e|] w'] eqn:He; simpl in Hd; [split; [done|]|..];
    (apply Hq; intros Hi; rewrite <- He; apply get_dirents_quiet; [done|by apply elem_of_lsd|done]).
Qed.

Lemma ram_metadata_refs n own ownf w r : ram_refs n own ownf w -> r ∈ own ->
  wp (ram_metadata r) (fun st w' => st_typ st <> USymlink /\ ram_refs n own ownf w') (fun _ => ram_refs n own ownf) w.
Proof.
  intros HI Hr. destruct (ram_refs_held _ _ _ _ _ HI Hr) as (c & x & Hx). destruct HI as (k & Hk & Hi & Hu & Hn).
  destruct (metadata_ok w _ _ r c x Hi Hx) as (st & w' & Hm & Hi' & (_ & Hf & _) & Hl). unfold wp. rewrite Hm. split.
  - apply (f_equal snd) in Hl. simpl in Hl. rewrite Hl. by destruct x.
  - exists k. split_and!; [done|done|by eapply used_same|done].
Qed.

Lemma ram_rename_refs n own ownf w r a b : ram_refs n own ownf w -> r ∈ own ->
  wp (ram_rename r a b) (fun _ => ram_refs n own ownf) (fun _ => ram_refs n own ownf) w.
Proof.
  intros HI Hr. apply ram_quiet; [done|]. intros Hi. apply elem_of_lsd in Hr. unfold ram_rename.
  match goal with |- context [forwarded r ?f w] => destruct (held_forwarded w _ _ r f Hi Hr) as (c & x & r' & c' & n' & _ & -> & _) end.
  by destruct n'.
Qed.

#[export] Instance ram_ref_laws : RefLaws (H := ram_inodes) ram_refs.
Proof.
  split; simpl.
  - intros n own own' ownf ownf' w Ho Hf (k & Hk & Hi & Hu & Hn). exists k. by rewrite <- (lsd_perm _ _ Ho), <- (lsd_perm _ _ Hf).
  - intros n own ownf w (k & Hk & Hi & Hu & Hn). exists k. split_and!; [done..|lia].
  - apply ram_root_refs.
  - done.
  - intros n own ownf w r off len HI Hr. destruct (ram_refs_held _ _ _ _ _ HI Hr) as (c & x & Hx). apply ram_quiet; [done|].
    intros Hi. by eapply read_ok.
  - intros n own ownf w r off buf HI Hr. destruct (ram_refs_held _ _ _ _ _ HI Hr) as (c & x & Hx).
    pose proof (write_count n own ownf w r off buf HI Hr) as Hc.
    pose proof (ram_quiet n own ownf w (ram_write r off buf) HI ltac:(intros; by eapply write_ok)) as Hq. unfold wp in *.
    by destruct (ram_write r off buf w) as [[] w'].
  - apply ram_metadata_refs.
  - apply ram_create_refs.
  - intros n own ownf w r name HI Hr. apply ram_quiet; [done|]. intros Hi. apply unlink_quiet; [done|by apply elem_of_lsd].
  - apply ram_rename_refs.
  - apply ram_dirents_refs.
  - apply ram_lookup_refs.
  - intros n own ownf w r size HI Hr. destruct (ram_refs_held _ _ _ _ _ HI Hr) as (c & x & Hx). apply ram_quiet; [done|].
    intros Hi. by eapply truncate_ok.
  - intros n own ownf w r HI Hr. destruct (ram_refs_held _ _ _ _ _ HI Hr) as (c & x & Hx). destruct HI as (k & Hk & Hi & Hu & Hn).
    exists k. rewrite lsd_cons. split_and!; [done| |done|done]. apply inv_clone; [done|]. by rewrite Hx.
  - intros n own ownf w r (k & Hk & Hi & Hu & Hn). rewrite lsd_cons in Hi. apply inv_drop in Hi as [Hi _]. by exists k.
  - intros n own ownf w f (k & Hk & Hi & Hu & Hn) Hf. destruct (fs_present _ _ _ f Hi ltac:(by apply elem_of_lsd)) as (c & x & Hx).
    exists k. rewrite lsd_cons. split_and!; [done|by apply inv_clone_fs; [|rewrite Hx]| |done].
    intros j c' y. unfold ram_clone_fs. rewrite Hx. simpl.
    rewrite lookup_insert_Some. intros [[_ ?]|[_ Hj]]; [simplify_eq; by eapply Hu|by eapply Hu].
  - intros n own ownf w f (k & Hk & Hi & Hu & Hn). rewrite lsd_cons in Hi. exists k.
    split_and!; [done|by apply inv_drop_fs|by apply drop_fs_used|done].
Qed.
End ram.
