(* ===== verification/Pathname.v ===== *)
(** * Path resolution (src/kernel/src/fs/pathname.rs)

    Looking a path up from an inode, for every implementation of the inode
    interface.  The functions that start at the root or at the working
    directory of the current task are in [Fcntl]. *)

From S2P Require Import Prelude Path Bytes Vfs Dir EfsVfs InodeOps InodeRefs.
Import Vfs.

#[local] Open Scope Z_scope.
#[local] Open Scope rw_scope.

Definition of_outcome {S E A} (o : outcome E A) : M S E A := fun s => (o, s).

Section pathname.
Context {W F R : Type} `{VfsINodeOps W F R}.
#[local] Notation IM := (M W FsErrorKind).

(** [ValidLookupName::try_from(comp.as_bytes())?] and the lookup of it; the
    inode looked in is dropped, by the assignment or on return. *)
Definition step_into (comp : Path.Component) (inode : R) : IM (option R) :=
  scoped inode
    (do name <- of_outcome (ValidLookupName_try_from (Path.as_bytes comp));
     v_try_lookup inode name).

(** The loop of [try_ilookup]. *)
Fixpoint walk (comps : list Path.Component) (inode : R) : IM (option R) :=
  match comps with
  | [] => ret (Some inode)
  | comp :: comps' =>
    match comp with
    | Path.RootDir | Path.CurDir => walk comps' inode
    | _ =>
      do o <- step_into comp inode;
      match o with
      | Some i => walk comps' i
      | None => ret None
      end
    end
  end.

Definition try_ilookup (inode : R) (pathname : list Z) : IM (option R) := walk (Path.components pathname) inode.

Definition ilookup (inode : R) (pathname : list Z) : IM R :=
  do o <- try_ilookup inode pathname; ok_or o NoSuchFileOrDirectory.

End pathname.

Lemma lookup_name_total name : ValidLookupName_try_from name <> Panic.
Proof.
  unfold ValidLookupName_try_from, ValidLookupName_try_from_str, check_contains_invalid_char. by repeat case_match.
Qed.

(** * References and path resolution

    The provided methods of the inode interface and the resolution of paths
    give back every reference they take, for any implementation that keeps
    the laws on references; names that pass the checks fit a directory
    entry. *)

Section refs.
Context {W F R : Type} `{VfsINodeOps W F R}.
Context (I : nat -> list R -> list F -> W -> Prop) `{!RefLaws I}.
Implicit Types (n : nat) (r : R) (own : list R) (ownf : list F) (w : W).

Lemma file_type_refs n own ownf w r : I n own ownf w -> r ∈ own ->
  wp (file_type r) (fun t w' => t <> USymlink /\ I n own ownf w') (fun _ => I n own ownf) w.
Proof. intros HI Hr. apply wp_bind. eapply wp_mono; [by apply rl_metadata| |done]. done. Qed.

Lemma is_directory_refs n own ownf w r : I n own ownf w -> r ∈ own ->
  wp (is_directory r) (fun _ => I n own ownf) (fun _ => I n own ownf) w.
Proof. intros HI Hr. apply wp_bind. eapply wp_mono; [by apply file_type_refs| |done]. by intros t w' [_ ?]. Qed.

Lemma check_type_is_file_refs n own ownf w r : I n own ownf w -> r ∈ own ->
  wp (check_type_is_file r) (fun _ => I n own ownf) (fun _ => I n own ownf) w.
Proof. intros HI Hr. apply wp_bind. eapply wp_mono; [by apply file_type_refs| |done]. by intros [] w' [_ ?]. Qed.

Lemma wp_scoped {A} r (m : M W FsErrorKind A) Q K w :
  wp m (fun a w' => Q a (v_drop r w')) (fun e w' => K e (v_drop r w')) w -> wp (scoped r m) Q K w.
Proof. unfold wp, scoped. by destruct (m w) as [[] w']. Qed.

Lemma step_into_refs n own ownf w r comp : I n (r :: own) ownf w ->
  wp (step_into comp r) (fun o => I n (option_list o ++ own) ownf) (fun _ => I n own ownf) w.
Proof.
  intros HI. apply wp_scoped, wp_bind. unfold wp at 1, of_outcome.
  pose proof (lookup_name_total (Path.as_bytes comp)) as Hp.
  destruct (ValidLookupName_try_from (Path.as_bytes comp)) as [name|e|]; [|by apply rl_drop|done].
  eapply wp_mono; [apply rl_lookup; [exact HI|by left]|..].
  - intros o w' HI'. apply rl_drop. eapply rl_perm, HI'; [|done]. by rewrite Permutation_middle.
  - intros e w' HI'. by apply rl_drop.
Qed.

(** The path is walked from a reference that is given up. *)
Lemma walk_refs comps n own ownf w r : I n (r :: own) ownf w ->
  wp (walk comps r) (fun o => I n (option_list o ++ own) ownf) (fun _ => I n own ownf) w.
Proof.
  revert w r. induction comps as [|comp comps IH]; intros w r HI; [done|].
  assert (Hs : wp (do o <- step_into comp r; match o with Some i => walk comps i | None => ret None end)
    (fun o => I n (option_list o ++ own) ownf) (fun _ => I n own ownf) w).
  { apply wp_bind. eapply wp_mono; [by apply step_into_refs| |done]. intros [i|] w' HI'; [by apply IH|done]. }
  simpl. destruct comp; try exact Hs; by apply IH.
Qed.

Lemma try_ilookup_refs n own ownf w r path : I n (r :: own) ownf w ->
  wp (try_ilookup r path) (fun o => I n (option_list o ++ own) ownf) (fun _ => I n own ownf) w.
Proof. apply walk_refs. Qed.

Lemma ilookup_refs n own ownf w r path : I n (r :: own) ownf w ->
  wp (ilookup r path) (fun k => I n (k :: own) ownf) (fun _ => I n own ownf) w.
Proof.
  intros HI. apply wp_bind. eapply wp_mono; [by apply try_ilookup_refs| |done]. by intros [k|] w' HI'.
Qed.
End refs.

(** ** Names *)

Lemma file_name_length name name' : ValidFileName_try_from name = Ok name' -> zlen name' <= 256.
Proof.
  unfold ValidFileName_try_from, ValidFileName_try_from_str, FILE_NAME_LEN. intros Hn.
  destruct (is_str name); [|done]. destruct (Z.ltb_spec 256 (zlen name)); [done|]. by repeat case_match; simplify_eq.
Qed.

Lemma file_name_total name : ValidFileName_try_from name <> Panic.
Proof. unfold ValidFileName_try_from, ValidFileName_try_from_str, check_contains_invalid_char. by repeat case_match. Qed.
