(* ===== verification/Mount.v ===== *)
(** * The mount layer (src/kernel/src/fs/vfs/mount.rs)

    [MountFileSystem] puts file systems over directories of a main file
    system: the mount points are the inode numbers of those directories.  It
    is modelled over any implementation of the inode interface, whose state
    it pairs with the table of mount points, and implements the interface
    itself.  An inode of the layer is a record; cloning or dropping it clones
    or drops the references it holds. *)

From S2P Require Import Prelude Bytes Path Vfs Dir EfsVfs HashMap InodeOps Pathname.
Import Vfs.

#[local] Open Scope Z_scope.
#[local] Open Scope rw_scope.

Section mount.
Context {W F R MT : Type} `{VfsINodeOps W F R} `{HashMap Z F MT}.

(** The states of the file systems below and the table of mount points. *)
Record mounts : Type := mkMounts { below : W; mount_points : MT }.

#[local] Notation MM := (M mounts FsErrorKind).

Variable main_fs : F.

Record MountFsINode : Type := mkINode { m_inode_no : Z; m_inner : R; raw_inode : option R }.

(** An operation of the file systems below. *)
Definition on_below {A} (m : M W FsErrorKind A) : MM A :=
  fun s => let (o, w') := m (below s) in (o, mkMounts w' (mount_points s)).

Definition update_below (f : W -> W) (s : mounts) : mounts := mkMounts (f (below s)) (mount_points s).

(** References that go out of scope after [m]. *)
Definition scoped_inode {A} (r : R) (m : MM A) : MM A :=
  fun s => let (o, s') := m s in (o, update_below (v_drop r) s').
Definition scoped_fs {A} (f : F) (m : MM A) : MM A :=
  fun s => let (o, s') := m s in (o, update_below (v_drop_fs f) s').

(** A reference that goes out of scope when [m] fails. *)
Definition unless_error {A} (r : R) (m : MM A) : MM A :=
  fun s => match m s with
           | (Err e, s') => (Err e, update_below (v_drop r) s')
           | res => res
           end.

(** The argument [fs] of [mount] goes out of scope when [m] fails. *)
Definition unless_error_fs {A} (f : F) (m : MM A) : MM A :=
  fun s => match m s with
           | (Err e, s') => (Err e, update_below (v_drop_fs f) s')
           | res => res
           end.

Definition clone_opt (o : option R) : MM (option R) :=
  match o with
  | Some r => modify (update_below (v_clone r));; ret o
  | None => ret None
  end.

(** ** [MountFileSystem] *)

(** A file system that the insertion replaces is dropped. *)
Definition mount (path : list Z) (fs : F) : MM unit :=
  unless_error_fs fs (
    do root <- on_below (v_root main_fs);
    do inode <- on_below (ilookup root path);
    scoped_inode inode (
      do d <- on_below (is_directory inode);
      if negb d then fail NotADirectory else
      do stat <- on_below (v_metadata inode);
      do s <- get;
      put (mkMounts (below s) (hm_insert (st_ino stat) fs (mount_points s)));;
      match hm_get (st_ino stat) (mount_points s) with
      | Some old => modify (update_below (v_drop_fs old))
      | None => ret tt
      end)).

Definition unmount (path : list Z) : MM unit :=
  do root <- on_below (v_root main_fs);
  do inode <- on_below (ilookup root path);
  scoped_inode inode (
    do stat <- on_below (v_metadata inode);
    do s <- get;
    put (mkMounts (below s) (hm_remove (st_ino stat) (mount_points s)));;
    match hm_get (st_ino stat) (mount_points s) with
    | Some old => modify (update_below (v_drop_fs old))
    | None => ret tt
    end).

Definition mount_root : MM MountFsINode :=
  do origin <- on_below (v_root main_fs);
  unless_error origin (
    do stat <- on_below (v_metadata origin);
    do s <- get;
    match hm_get (st_ino stat) (mount_points s) with
    | Some fs => do inner <- on_below (v_root fs); ret (mkINode (st_ino stat) inner (Some origin))
    | None => ret (mkINode (st_ino stat) origin None)
    end).

Fixpoint sync_each (fss : list F) : MM unit :=
  match fss with
  | [] => ret tt
  | fs :: fss' => on_below (v_sync fs);; sync_each fss'
  end.

Definition mount_sync : MM unit :=
  on_below (v_sync main_fs);;
  do s <- get;
  sync_each (hm_iter (mount_points s)).*2.

(** ** [MountFsINode] *)

(** The reference to the file system is cloned from the table. *)
Definition get_mount_fs (h : MountFsINode) : MM (option F) :=
  match raw_inode h with
  | Some _ => ret None
  | None =>
    do s <- get;
    match hm_get (m_inode_no h) (mount_points s) with
    | Some fs => modify (update_below (v_clone_fs fs));; ret (Some fs)
    | None => ret None
    end
  end.

Definition inode (h : MountFsINode) : MM R :=
  do o <- get_mount_fs h;
  match o with
  | Some fs => scoped_fs fs (on_below (v_root fs))
  | None => modify (update_below (v_clone (m_inner h)));; ret (m_inner h)
  end.

Definition is_mount_point_root (h : MountFsINode) : bool :=
  (m_inode_no h =? 1) && bool_decide (is_Some (raw_inode h)).

(** [self.inode()?.op(..)] *)
Definition via_inode {A} (h : MountFsINode) (op : R -> M W FsErrorKind A) : MM A :=
  do r <- inode h; scoped_inode r (on_below (op r)).

Definition m_read (h : MountFsINode) (offset len : Z) : MM (list Z) := via_inode h (fun r => v_read r offset len).
Definition m_write (h : MountFsINode) (offset : Z) (buf : list Z) : MM Z := via_inode h (fun r => v_write r offset buf).
Definition m_metadata (h : MountFsINode) : MM Stat := via_inode h v_metadata.
Definition m_file_type (h : MountFsINode) : MM UFileType := via_inode h file_type.
Definition m_truncate (h : MountFsINode) (new_size : Z) : MM Z := via_inode h (fun r => v_truncate r new_size).
Definition m_rename (h : MountFsINode) (old_name new_name : list Z) : MM unit :=
  via_inode h (fun r => v_rename r old_name new_name).
Definition m_get_dirents (h : MountFsINode) (offset room : Z) : MM (Z * list Dirent) :=
  via_inode h (fun r => v_get_dirents r offset room).

Definition m_create (h : MountFsINode) (name : list Z) (typ : UFileType) : MM MountFsINode :=
  do o <- get_mount_fs h;
  do new_inode <- match o with
                  | Some fs => scoped_fs fs (do r <- on_below (v_root fs); scoped_inode r (on_below (v_create r name typ)))
                  | None =>
                    modify (update_below (v_clone (m_inner h)));;
                    scoped_inode (m_inner h) (on_below (v_create (m_inner h) name typ))
                  end;
  unless_error new_inode (
    do stat <- on_below (v_metadata new_inode);
    do raw <- clone_opt (raw_inode h);
    ret (mkINode (st_ino stat) new_inode raw)).

Definition m_unlink (h : MountFsINode) (name : list Z) : MM unit :=
  do o <- get_mount_fs h;
  match o with
  | Some fs => scoped_fs fs (do r <- on_below (v_root fs); scoped_inode r (on_below (v_unlink r name)))
  | None =>
    (if decide (raw_inode h = None :> option R) then
       do c <- on_below (v_try_lookup (m_inner h) name);
       match c with
       | Some child =>
         scoped_inode child (
           do stat <- on_below (v_metadata child);
           do s <- get;
           match hm_get (st_ino stat) (mount_points s) with
           | Some _ => fail PermissionDenied
           | None => ret tt
           end)
       | None => ret tt
       end
     else ret tt);;
    on_below (v_unlink (m_inner h) name)
  end.

(** The inode of the layer for an inode found below. *)
Definition wrap (raw : option R) (r : R) : MM MountFsINode :=
  unless_error r (
    do stat <- on_below (v_metadata r);
    do raw' <- clone_opt raw;
    ret (mkINode (st_ino stat) r raw')).

Definition wrap_found (raw : option R) (o : option R) : MM (option MountFsINode) :=
  match o with
  | Some r => do h <- wrap raw r; ret (Some h)
  | None => ret None
  end.

Definition m_try_lookup (h : MountFsINode) (name : list Z) : MM (option MountFsINode) :=
  do o <- get_mount_fs h;
  let rest :=
    let '(inner, raw) :=
      match raw_inode h with
      | Some m => if is_mount_point_root h && bool_decide (name = dotdot) then (m, None) else (m_inner h, raw_inode h)
      | None => (m_inner h, raw_inode h)
      end in
    do found <- on_below (v_try_lookup inner name); wrap_found raw found in
  match o with
  | Some fs =>
    if negb (bool_decide (name = dotdot)) && negb (bool_decide (name = dot)) then
      scoped_fs fs (
        do r <- on_below (v_root fs);
        do found <- scoped_inode r (on_below (v_try_lookup r name));
        wrap_found (Some (m_inner h)) found)
    else modify (update_below (v_drop_fs fs));; rest
  | None => rest
  end.

Definition m_clone (h : MountFsINode) (s : mounts) : mounts :=
  update_below (fun w => match raw_inode h with Some r => v_clone r (v_clone (m_inner h) w) | None => v_clone (m_inner h) w end) s.
Definition m_drop (h : MountFsINode) (s : mounts) : mounts :=
  update_below (fun w => match raw_inode h with Some r => v_drop r (v_drop (m_inner h) w) | None => v_drop (m_inner h) w end) s.

(** There is one mount layer, and it is never dropped. *)
#[export] Instance mount_inodes : VfsINodeOps mounts unit MountFsINode := {|
  v_root := fun _ => mount_root;
  v_sync := fun _ => mount_sync;
  v_read := m_read;
  v_write := m_write;
  v_metadata := m_metadata;
  v_create := m_create;
  v_unlink := m_unlink;
  v_rename := m_rename;
  v_get_dirents := m_get_dirents;
  v_try_lookup := m_try_lookup;
  v_truncate := m_truncate;
  v_clone := m_clone;
  v_drop := m_drop;
  v_clone_fs := fun _ s => s;
  v_drop_fs := fun _ s => s
|}.

End mount.

Arguments mounts : clear implicits.
Arguments MountFsINode : clear implicits.
