(* ===== verification/MountSpec.v ===== *)
(** * Resolution of names through the mount layer

    The file systems below are described by a [tree]: what a name leads to,
    inode numbers and types, and the roots; [TreeLaws] states that the
    operations compute these and that references taken and given back leave
    them as they are.  The mount layer is shown to resolve names in the one
    tree that results from grafting the mounted trees onto the main one. *)

From S2P Require Import Prelude Bytes Path Vfs Dir EfsVfs HashMap InodeOps Pathname Mount.
From stdpp Require Import gmultiset.
Import Vfs.

#[local] Open Scope Z_scope.
#[local] Open Scope rw_scope.

Record tree (F R : Type) : Type := mkTree {
  child : R -> list Z -> outcome FsErrorKind (option R);
  number : R -> Z;
  kind : R -> UFileType;
  root_of : F -> R
}.
Arguments mkTree {F R}.
Arguments child {F R}.
Arguments number {F R}.
Arguments kind {F R}.
Arguments root_of {F R}.

(** The reference that a lookup returns. *)
Definition gained {R} `{Countable R} (o : outcome FsErrorKind (option R)) : gmultiset R :=
  match o with Ok (Some r) => {[+ r +]} | _ => ∅ end.

(** [I own ownf w]: the trees are [t] in the state [w], and the references
    [own] and [ownf] were taken beyond those that keep the trees alive. *)
Class TreeLaws {W F R : Type} `{VfsINodeOps W F R} `{Countable F} `{Countable R}
    (t : tree F R) (live : F -> Prop) (I : gmultiset R -> gmultiset F -> W -> Prop) : Prop := {
  l_total r name : child t r name <> Panic;
  l_lookup own ownf w r name : I own ownf w -> r ∈ own ->
    exists w', v_try_lookup r name w = (child t r name, w') /\ I (gained (child t r name) ⊎ own) ownf w';
  l_metadata own ownf w r : I own ownf w -> r ∈ own ->
    exists st w', v_metadata r w = (Ok st, w') /\ I own ownf w' /\ st_ino st = number t r /\ st_typ st = kind t r;
  l_root own ownf w f : I own ownf w -> live f ->
    exists w', v_root f w = (Ok (root_of t f), w') /\ I ({[+ root_of t f +]} ⊎ own) ownf w';
  l_clone own ownf w r : I own ownf w -> r ∈ own -> I ({[+ r +]} ⊎ own) ownf (v_clone r w);
  l_drop own ownf w r : I ({[+ r +]} ⊎ own) ownf w -> I own ownf (v_drop r w);
  l_clone_fs own ownf w f : I own ownf w -> live f -> I own ({[+ f +]} ⊎ ownf) (v_clone_fs f w);
  l_drop_fs own ownf w f : I own ({[+ f +]} ⊎ ownf) w -> I own ownf (v_drop_fs f w)
}.

(** What the mount layer relies on: the inodes fall into file systems that
    names do not leave, the number 1 is that of a root and of no other inode,
    and directories lead to themselves by dot. *)
Record regions {F R : Type} (t : tree F R) (live : F -> Prop) (region : F -> R -> Prop) : Prop := {
  g_top f : live f -> region f (root_of t f);
  g_child f r name k : region f r -> child t r name = Ok (Some k) -> region f k;
  g_root f r : live f -> region f r -> number t r = 1 <-> r = root_of t f;
  g_dir f : live f -> kind t (root_of t f) = UDirectory;
  g_dot r : kind t r = UDirectory -> child t r dot = Ok (Some r)
}.

Section resolution.
Context {W F R MT : Type} `{VfsINodeOps W F R} `{Countable F} `{Countable R} `{HashMap Z F MT}.
Context (t : tree F R) (live : F -> Prop) (I : gmultiset R -> gmultiset F -> W -> Prop) `{!TreeLaws t live I}.
Context (region : F -> R -> Prop) (Hreg : regions t live region).
Context (main_fs : F) (points : MT).
Hypothesis main_live : live main_fs.
Hypothesis points_live : forall no f, hm_get no points = Some f -> live f.
Hypothesis points_dir : forall r f, region main_fs r -> hm_get (number t r) points = Some f -> kind t r = UDirectory.

#[local] Notation mounts := (mounts W MT).
#[local] Notation MountFsINode := (MountFsINode R).
#[local] Notation MM := (M mounts FsErrorKind).

(** ** The grafted tree *)

(** An inode of the main file system, or one of the file system that is
    mounted on the directory [on] of the main one. *)
Record place : Type := mkPlace { p_node : R; p_on : option R }.

Definition mounted (r : R) : option F := hm_get (number t r) points.

(** A directory with a file system on it is that file system's root. *)
Definition cross (r : R) : place :=
  match mounted r with
  | Some f => mkPlace (root_of t f) (Some r)
  | None => mkPlace r None
  end.

Definition map_found {A B} (f : A -> B) (o : outcome FsErrorKind (option A)) : outcome FsErrorKind (option B) :=
  match o with
  | Ok r => Ok (f <$> r)
  | Err e => Err e
  | Panic => Panic
  end.

Definition ns_child (p : place) (name : list Z) : outcome FsErrorKind (option place) :=
  match p_on p with
  | None => map_found cross (child t (p_node p) name)
  | Some m =>
    if decide (name = dotdot /\ Some (p_node p) = root_of t <$> mounted m)
    then map_found cross (child t m dotdot)
    else map_found (fun k => mkPlace k (Some m)) (child t (p_node p) name)
  end.

Fixpoint ns_walk (comps : list Path.Component) (p : place) : outcome FsErrorKind (option place) :=
  match comps with
  | [] => Ok (Some p)
  | (Path.RootDir | Path.CurDir) :: comps' => ns_walk comps' p
  | comp :: comps' =>
    match ValidLookupName_try_from (Path.as_bytes comp) with
    | Ok name =>
      match ns_child p name with
      | Ok (Some p') => ns_walk comps' p'
      | Ok None => Ok None
      | Err e => Err e
      | Panic => Panic
      end
    | Err e => Err e
    | Panic => Panic
    end
  end.

(** ** Inodes of the layer *)

Definition hrefs (h : MountFsINode) : gmultiset R :=
  {[+ m_inner h +]} ⊎ match raw_inode h with Some m => {[+ m +]} | None => ∅ end.

(** The number is that of the inode, and an inode of a mounted file system
    comes with the directory it is mounted on. *)
Definition wf_inode (h : MountFsINode) : Prop :=
  m_inode_no h = number t (m_inner h) /\
  match raw_inode h with
  | None => region main_fs (m_inner h)
  | Some m => region main_fs m /\ exists f, mounted m = Some f /\ region f (m_inner h)
  end.

Definition denotes (h : MountFsINode) : place :=
  match raw_inode h with
  | None => cross (m_inner h)
  | Some m => mkPlace (m_inner h) (Some m)
  end.

Definition MI (own : gmultiset R) (ownf : gmultiset F) (s : mounts) : Prop :=
  I own ownf (below s) /\ mount_points s = points.

(** The result [res] of a lookup stands for [o]. *)
Definition finds (own : gmultiset R) (ownf : gmultiset F) (o : outcome FsErrorKind (option place))
    (res : outcome FsErrorKind (option MountFsINode)) (s' : mounts) : Prop :=
  match o, res with
  | Ok (Some p), Ok (Some h') => denotes h' = p /\ wf_inode h' /\ MI (hrefs h' ⊎ own) ownf s'
  | Ok None, Ok None => MI own ownf s'
  | Err e, Err e' => e' = e /\ MI own ownf s'
  | _, _ => False
  end.

Lemma I_own own own' ownf w : own = own' -> I own ownf w -> I own' ownf w.
Proof. by intros ->. Qed.

(** A directory of the main file system for which a place was recorded. *)
Definition wf_raw (raw : option R) (r : R) : Prop :=
  match raw with
  | None => region main_fs r
  | Some m => region main_fs m /\ exists f, mounted m = Some f /\ region f r
  end.

Lemma wrap_ok own ownf s (raw : option R) r : MI ({[+ r +]} ⊎ own) ownf s ->
  (forall m, raw = Some m -> m ∈ own) -> wf_raw raw r ->
  exists h s', wrap raw r s = (Ok h, s') /\ denotes h = (match raw with None => cross r | Some m => mkPlace r (Some m) end) /\
    wf_inode h /\ MI (hrefs h ⊎ own) ownf s'.
Proof.
  intros [HI Hp] Hraw Hwf. destruct (l_metadata _ _ _ r HI) as (st & w' & Hm & HI' & Hno & _); [multiset_solver|].
  unfold wrap, unless_error, on_below, bind, clone_opt. rewrite Hm.
  destruct raw as [m|].
  - eexists _, _. split; [done|]. split; [done|]. split; [by split|]. split; [|done]. simpl.
    eapply I_own; [|apply (l_clone _ _ _ m HI')]; [unfold hrefs; simpl; multiset_solver|].
    specialize (Hraw m eq_refl). multiset_solver.
  - eexists _, _. split; [done|]. split; [done|]. split; [by split|]. split; [|done]. simpl.
    eapply I_own, HI'. unfold hrefs. simpl. multiset_solver.
Qed.

(** Looking a name up below and wrapping what is found. *)
Lemma lookup_wrap_ok own ownf s (raw : option R) r name : MI own ownf s -> r ∈ own ->
  (forall m, raw = Some m -> m ∈ own) -> (forall k, child t r name = Ok (Some k) -> wf_raw raw k) ->
  exists res s', (do found <- on_below (v_try_lookup r name); wrap_found raw found) s = (res, s') /\
    finds own ownf (map_found (fun k => match raw with None => cross k | Some m => mkPlace k (Some m) end) (child t r name)) res s'.
Proof.
  intros [HI Hp] Hr Hraw Hwf. destruct (l_lookup own ownf _ r name HI Hr) as (w' & Hl & HI').
  pose proof (l_total (t := t) (live := live) (I := I) r name) as Htot.
  unfold on_below. unfold bind at 1. rewrite Hl.
  destruct (child t r name) as [[k|]|e|] eqn:Hc; [| | |done]; simpl in HI'.
  - destruct (wrap_ok own ownf (mkMounts w' (mount_points s)) raw k) as (h & s' & Hw & Hd & Hwf' & HMI); [by split|done|by apply Hwf|].
    exists (Ok (Some h)), s'. split; [|done]. unfold wrap_found, bind. by rewrite Hw.
  - eexists _, _. split; [done|]. split; [|done]. eapply I_own, HI'. multiset_solver.
  - eexists _, _. split; [done|]. simpl. split; [done|]. split; [|done]. eapply I_own, HI'. multiset_solver.
Qed.

Lemma MI_drop own ownf s r : MI ({[+ r +]} ⊎ own) ownf s -> MI own ownf (update_below (v_drop r) s).
Proof. intros [HI Hp]. split; [|done]. by apply l_drop. Qed.

Lemma MI_drop_fs own ownf s f : MI own ({[+ f +]} ⊎ ownf) s -> MI own ownf (update_below (v_drop_fs f) s).
Proof. intros [HI Hp]. split; [|done]. by apply l_drop_fs. Qed.

Lemma finds_scoped_fs own ownf o f (m : MM (option MountFsINode)) s :
  (exists res s', m s = (res, s') /\ finds own ({[+ f +]} ⊎ ownf) o res s') ->
  exists res s', scoped_fs f m s = (res, s') /\ finds own ownf o res s'.
Proof.
  intros (res & s' & Hm & Hf). unfold scoped_fs. rewrite Hm. eexists _, _. split; [done|].
  unfold finds in *. destruct o as [[p|]|e|], res as [[h|]|e'|]; try done.
  - destruct Hf as (? & ? & ?). split_and!; [done..|]. by apply MI_drop_fs.
  - by apply MI_drop_fs.
  - destruct Hf. split; [done|]. by apply MI_drop_fs.
Qed.

(** The file system mounted on the directory of an inode of the layer. *)
Lemma get_mount_fs_ok own ownf s h : MI own ownf s -> wf_inode h ->
  exists s', get_mount_fs h s = (Ok (match raw_inode h with Some _ => None | None => mounted (m_inner h) end), s') /\
    match raw_inode h, mounted (m_inner h) with
    | None, Some f => MI own ({[+ f +]} ⊎ ownf) s'
    | _, _ => s' = s
    end.
Proof.
  intros [HI Hp] [Hno _]. unfold get_mount_fs, mounted. destruct (raw_inode h); [by eexists|].
  unfold bind, get. rewrite Hp, Hno. destruct (hm_get (number t (m_inner h)) points) as [f|] eqn:Hf; [|by eexists].
  eexists. split; [done|]. split; [|done]. apply l_clone_fs; [done|]. by eapply points_live.
Qed.

(** A name in the root of the file system mounted on [m]. *)
Lemma lookup_mounted_ok own ownf s f m name : MI own ownf s -> m ∈ own -> region main_fs m -> mounted m = Some f ->
  exists res s',
    (do r <- on_below (v_root f); do found <- scoped_inode r (on_below (v_try_lookup r name)); wrap_found (Some m) found) s = (res, s') /\
    finds own ownf (map_found (fun k => mkPlace k (Some m)) (child t (root_of t f) name)) res s'.
Proof.
  intros [HI Hp] Hm Hrm Hf. assert (Hlive : live f) by (by eapply points_live).
  destruct (l_root own ownf _ f HI Hlive) as (w1 & Hr & HI1).
  destruct (l_lookup _ ownf w1 (root_of t f) name HI1 ltac:(multiset_solver)) as (w2 & Hl & HI2).
  pose proof (l_total (t := t) (live := live) (I := I) (root_of t f) name) as Htot.
  unfold on_below, scoped_inode. unfold bind at 1. rewrite Hr. cbn [below mount_points]. unfold bind at 1. cbn [below mount_points]. rewrite Hl.
  set (s2 := update_below (v_drop (root_of t f)) (mkMounts w2 (mount_points s))).
  assert (HMI : MI (gained (child t (root_of t f) name) ⊎ own) ownf s2).
  { apply MI_drop. split; [|done]. eapply I_own, HI2. multiset_solver. }
  destruct (child t (root_of t f) name) as [[k|]|e|] eqn:Hc; [| | |done]; simpl in HMI.
  - destruct (wrap_ok own ownf s2 (Some m) k) as (h & s' & Hw & Hd & Hwf' & HMI'); [done| | |].
    + intros m' ?. by simplify_eq.
    + split; [done|]. exists f. split; [done|]. eapply (g_child _ _ _ Hreg); [|done]. by apply (g_top _ _ _ Hreg).
    + exists (Ok (Some h)), s'. split; [|done]. unfold wrap_found, bind. by rewrite Hw.
  - eexists _, _. split; [done|]. destruct HMI as [HI3 ?]. split; [|done]. eapply I_own, HI3. multiset_solver.
  - eexists _, _. split; [done|]. destruct HMI as [HI3 ?]. split; [done|]. split; [|done]. eapply I_own, HI3. multiset_solver.
Qed.

Lemma map_found_ext {A B} (f g : A -> B) o : (forall x, o = Ok (Some x) -> f x = g x) -> map_found f o = map_found g o.
Proof. destruct o as [[x|]|e|]; simpl; intros Hx; [|done..]. by rewrite Hx. Qed.

(** Names in an inode of a mounted file system. *)
Lemma lookup_raw_ok own ownf s h m name : MI own ownf s -> wf_inode h -> raw_inode h = Some m ->
  m_inner h ∈ own -> m ∈ own ->
  exists res s',
    (let '(inner, raw) := if is_mount_point_root h && bool_decide (name = dotdot) then (m, None) else (m_inner h, Some m) in
     do found <- on_below (v_try_lookup inner name); wrap_found raw found) s = (res, s') /\
    finds own ownf (ns_child (mkPlace (m_inner h) (Some m)) name) res s'.
Proof.
  intros HMI [Hno Hwf] Hraw Hin Hm. rewrite Hraw in Hwf. destruct Hwf as (Hrm & f & Hf & Hrf).
  assert (Hlive : live f) by (by eapply points_live).
  assert (Hroot : is_mount_point_root h = true <-> m_inner h = root_of t f).
  { unfold is_mount_point_root. rewrite Hraw, Hno, andb_true_iff, Z.eqb_eq, bool_decide_eq_true.
    rewrite <- (g_root _ _ _ Hreg f) by done. naive_solver. }
  unfold ns_child. cbn [p_on p_node]. rewrite Hf. simpl.
  destruct (is_mount_point_root h && bool_decide (name = dotdot)) eqn:Hb.
  - apply andb_true_iff in Hb as [Hr ->%bool_decide_eq_true]. rewrite decide_True by (split; [done|f_equal; by apply Hroot]).
    apply (lookup_wrap_ok own ownf s None m dotdot HMI Hm); [done|]. intros k Hk. by eapply (g_child _ _ _ Hreg).
  - rewrite decide_False.
    2: { intros [-> He]. simplify_eq. apply andb_false_iff in Hb as [Hb|Hb]; [|by rewrite bool_decide_eq_false in Hb].
         rewrite (proj2 Hroot) in Hb; done. }
    apply (lookup_wrap_ok own ownf s (Some m) (m_inner h) name HMI Hin); [by intros ? [= ->]|].
    intros k Hk. split; [done|]. exists f. split; [done|]. by eapply (g_child _ _ _ Hreg).
Qed.

(** A lookup through the layer is a lookup in the grafted tree. *)
Lemma m_try_lookup_ok own ownf s h name : MI own ownf s -> wf_inode h -> hrefs h ⊆ own ->
  exists res s', m_try_lookup h name s = (res, s') /\ finds own ownf (ns_child (denotes h) name) res s'.
Proof.
  intros HMI Hwf Hsub. assert (Hin : m_inner h ∈ own) by (unfold hrefs in Hsub; multiset_solver).
  destruct (get_mount_fs_ok own ownf s h HMI Hwf) as (s1 & Hg & Hs1).
  unfold m_try_lookup. unfold bind at 1. rewrite Hg. unfold denotes.
  destruct (raw_inode h) as [m|] eqn:Hraw.
  - subst s1. apply lookup_raw_ok; [done..|]. unfold hrefs in Hsub. rewrite Hraw in Hsub. multiset_solver.
  - destruct Hwf as [Hno Hrm]. rewrite Hraw in Hrm. unfold cross.
    destruct (mounted (m_inner h)) as [f|] eqn:Hf.
    2: { subst s1. unfold ns_child. cbn [p_on p_node]. apply (lookup_wrap_ok own ownf s None); [done..|].
         intros k Hk. by eapply (g_child _ _ _ Hreg). }
    assert (Hkind : kind t (m_inner h) = UDirectory) by (by eapply points_dir).
    assert (Hlive : live f) by (by eapply points_live).
    unfold ns_child. cbn [p_on p_node]. destruct (decide (name = dotdot)) as [->|Hdd]; [|destruct (decide (name = dot)) as [->|Hd]].
    + rewrite (bool_decide_eq_true_2 (dotdot = dotdot)) by done. cbn [negb andb]. rewrite decide_True by (by rewrite Hf).
      apply MI_drop_fs in Hs1. apply (lookup_wrap_ok own ownf _ None); [done..|]. intros k Hk. by eapply (g_child _ _ _ Hreg).
    + rewrite (bool_decide_eq_true_2 (dot = dot)), andb_false_r by done. rewrite decide_False by naive_solver.
      apply MI_drop_fs in Hs1.
      destruct (lookup_wrap_ok own ownf _ None (m_inner h) dot Hs1 Hin ltac:(done)) as (res & s' & He & Hfd).
      { intros k Hk. by eapply (g_child _ _ _ Hreg). }
      exists res, s'. split; [exact He|]. rewrite (g_dot _ _ _ Hreg) in Hfd by done.
      rewrite (g_dot _ _ _ Hreg) by (by apply (g_dir _ _ _ Hreg)). simpl in Hfd |- *. unfold cross in Hfd. by rewrite Hf in Hfd.
    + rewrite !bool_decide_eq_false_2 by done. cbn [negb andb]. rewrite decide_False by naive_solver.
      apply finds_scoped_fs. by apply lookup_mounted_ok.
Qed.

(** ** Paths *)

Lemma m_drop_ok own ownf s h : MI (hrefs h ⊎ own) ownf s -> MI own ownf (m_drop h s).
Proof.
  intros [HI Hp]. split; [|done]. unfold m_drop, update_below, hrefs in *. simpl. destruct (raw_inode h) as [m|].
  - apply l_drop, l_drop. eapply I_own, HI. multiset_solver.
  - apply l_drop. eapply I_own, HI. multiset_solver.
Qed.

Lemma finds_drop own ownf o h res s' : finds (hrefs h ⊎ own) ownf o res s' -> finds own ownf o res (m_drop h s').
Proof.
  unfold finds. destruct o as [[p|]|e|], res as [[h'|]|e'|]; try done.
  - intros (Hd & Hwf & HI & Hp). split_and!; [done..|]. apply m_drop_ok. split; [|done]. eapply I_own, HI. multiset_solver.
  - apply m_drop_ok.
  - intros [-> HMI]. split; [done|]. by apply m_drop_ok.
Qed.

Lemma step_into_ok own ownf s h comp : MI (hrefs h ⊎ own) ownf s -> wf_inode h ->
  exists res s', step_into (H := mount_inodes main_fs) comp h s = (res, s') /\
    finds own ownf (match ValidLookupName_try_from (Path.as_bytes comp) with
                    | Ok name => ns_child (denotes h) name
                    | Err e => Err e
                    | Panic => Panic
                    end) res s'.
Proof.
  intros HMI Hwf. unfold step_into, scoped, of_outcome, bind.
  pose proof (lookup_name_total (Path.as_bytes comp)) as Htot.
  destruct (ValidLookupName_try_from (Path.as_bytes comp)) as [name|e|]; [| |done].
  - destruct (m_try_lookup_ok _ ownf s h name HMI Hwf ltac:(multiset_solver)) as (res & s' & Hl & Hf).
    cbn [v_try_lookup v_drop mount_inodes]. rewrite Hl. eexists _, _. split; [done|]. by apply finds_drop.
  - eexists _, _. split; [done|]. split; [done|]. by apply m_drop_ok.
Qed.

Lemma walk_ok comps own ownf s h : MI (hrefs h ⊎ own) ownf s -> wf_inode h ->
  exists res s', walk (H := mount_inodes main_fs) comps h s = (res, s') /\
    finds own ownf (ns_walk comps (denotes h)) res s'.
Proof.
  revert s h. induction comps as [|comp comps IH]; intros s h HMI Hwf.
  { eexists _, _. split; [done|]. done. }
  assert (Hgo : forall comp, exists res s',
    (do o <- step_into (H := mount_inodes main_fs) comp h;
     match o with Some i => walk (H := mount_inodes main_fs) comps i | None => ret None end) s = (res, s') /\
    finds own ownf (match ValidLookupName_try_from (Path.as_bytes comp) with
      | Ok name => match ns_child (denotes h) name with
                   | Ok (Some p') => ns_walk comps p' | Ok None => Ok None | Err e => Err e | Panic => Panic end
      | Err e => Err e | Panic => Panic end) res s').
  { intros c. destruct (step_into_ok own ownf s h c HMI Hwf) as (res & s1 & Hs & Hf). unfold bind. rewrite Hs.
    set (o := match ValidLookupName_try_from (Path.as_bytes c) with Ok name => ns_child (denotes h) name | Err e => Err e | Panic => Panic end) in Hf.
    assert (Hno : match ValidLookupName_try_from (Path.as_bytes c) with
      | Ok name => match ns_child (denotes h) name with
                   | Ok (Some p') => ns_walk comps p' | Ok None => Ok None | Err e => Err e | Panic => Panic end
      | Err e => Err e | Panic => Panic end = match o with Ok (Some p') => ns_walk comps p' | Ok None => Ok None | Err e => Err e | Panic => Panic end).
    { unfold o. by destruct (ValidLookupName_try_from (Path.as_bytes c)). }
    rewrite Hno. clearbody o. clear Hno. destruct o as [[p|]|e|], res as [[h'|]|e'|]; try done.
    - destruct Hf as (<- & Hwf' & HMI'). by apply IH.
    - eexists _, _. by split.
    - eexists _, _. by split. }
  destruct comp; [apply IH; done|apply IH; done|apply Hgo|apply Hgo].
Qed.

(** The root of the layer is the root of the grafted tree. *)
Lemma mount_root_ok own ownf s : MI own ownf s ->
  exists h s', mount_root main_fs s = (Ok h, s') /\ denotes h = cross (root_of t main_fs) /\ wf_inode h /\ MI (hrefs h ⊎ own) ownf s'.
Proof.
  intros [HI Hp]. destruct (l_root own ownf _ main_fs HI main_live) as (w1 & Hr & HI1).
  destruct (l_metadata _ ownf w1 (root_of t main_fs) HI1 ltac:(multiset_solver)) as (st & w2 & Hm & HI2 & Hno & _).
  assert (Hone : number t (root_of t main_fs) = 1) by (by apply (g_root _ _ _ Hreg main_fs); [|apply (g_top _ _ _ Hreg)|]).
  unfold mount_root, on_below, unless_error. unfold bind at 1. rewrite Hr. cbn [below mount_points].
  unfold bind at 1. cbn [below mount_points]. rewrite Hm. unfold bind, get. cbn [below mount_points]. rewrite Hno, Hp.
  unfold cross, mounted. destruct (hm_get (number t (root_of t main_fs)) points) as [f|] eqn:Hf.
  - assert (Hlive : live f) by (by eapply points_live).
    destruct (l_root _ ownf w2 f HI2 Hlive) as (w3 & Hr3 & HI3). cbn [below mount_points]. rewrite Hr3.
    eexists _, _. split; [done|]. split; [done|]. split; [|split; [|done]].
    + split; simpl.
      * rewrite Hone. symmetry. by apply (g_root _ _ _ Hreg f); [|apply (g_top _ _ _ Hreg)|].
      * split; [by apply (g_top _ _ _ Hreg)|]. exists f. split; [done|by apply (g_top _ _ _ Hreg)].
    + eapply I_own, HI3. unfold hrefs. simpl. multiset_solver.
  - eexists _, _. split; [done|]. split; [unfold denotes; simpl; unfold cross, mounted; by rewrite Hf|]. split; [|split; [|done]].
    + split; [done|]. simpl. by apply (g_top _ _ _ Hreg).
    + eapply I_own, HI2. unfold hrefs. simpl. multiset_solver.
Qed.

End resolution.
