(* ===== verification/MountTheorems.v ===== *)
(** * The memory file systems under the mount layer

    The memory file systems satisfy the laws that the resolution of names
    relies on ([TreeLaws], [regions] of [MountSpec]): while the references
    that keep a state's trees alive are kept, taking further references and
    giving them back does not change what names lead to. *)

From stdpp Require Import gmultiset.
From S2P Require Import Prelude Path Bytes Vfs Dir EfsVfs InodeOps HashMap RamFs RamFsInv RamFsOps RamFsMethods RamFsClient Pathname Mount MountSpec.
Import Vfs.

#[local] Open Scope Z_scope.
#[local] Open Scope rw_scope.

Section ram_tree.
Context {P D T : Type} `{FileContentProvider P} `{Device D} `{!DeviceLaws D}.
Context `{HashMap (list Z) Z T} `{!HashMapLaws (list Z) Z T}.

#[local] Notation node := (node P T).
#[local] Notation heap_t := (gmap Z (nat * node)).
#[local] Notation fss_t := (gmap Z (nat * RamFileSystem)).
#[local] Notation world := (world P D T).
Implicit Types (h : heap_t) (f : fss_t) (r i k : Z) (n : node) (own ownf : gmultiset Z) (w : world).

(** ** Heaps that differ in counts and providers *)

Definition skel h0 h : Prop :=
  forall r, match h0 !! r with
            | Some (_, n) => exists c n', h !! r = Some (c, n') /\ frame n n'
            | None => h !! r = None
            end.

Definition fskel f0 f : Prop := forall i, snd <$> f !! i = snd <$> f0 !! i.

Lemma frame_refs n n' : frame n n' -> refs n' = refs n.
Proof. intros [->|(? & ? & ? & ? & ? & ? & -> & ->)]; done. Qed.

Lemma owned_refs h : owned h = lsd (concat (map_to_list ((fun p : nat * node => refs p.2) <$> h)).*2).
Proof.
  unfold owned. apply lsd_perm. rewrite map_to_list_fmap, <- list_fmap_compose.
  induction (map_to_list h) as [|[r [c n]] l IH]; [done|]. simpl. by rewrite IH.
Qed.

Lemma owned_skel h0 h : skel h0 h -> owned h = owned h0.
Proof.
  intros Hs. rewrite !owned_refs. do 4 f_equal. apply map_eq. intros r. specialize (Hs r). rewrite !lookup_fmap.
  destruct (h0 !! r) as [[c n]|]; [|by rewrite Hs]. destruct Hs as (c' & n' & -> & Hf). simpl. by rewrite (frame_refs n).
Qed.

Lemma roots_snd f : roots f = lsd (fs_root <$> (map_to_list (snd <$> f)).*2).
Proof. unfold roots. apply lsd_perm. by rewrite map_to_list_fmap, <- !list_fmap_compose. Qed.

Lemma roots_skel f0 f : fskel f0 f -> roots f = roots f0.
Proof.
  intros Hs. rewrite !roots_snd. do 4 f_equal. apply map_eq. intros i. rewrite !lookup_fmap. apply Hs.
Qed.

Lemma skel_refl h : skel h h.
Proof. intros r. destruct (h !! r) as [[c n]|]; [|done]. exists c, n. split; [done|by left]. Qed.

Lemma skel_same h0 h h' : skel h0 h -> same_tree h h' -> skel h0 h'.
Proof.
  intros Hs Ht r. specialize (Hs r). specialize (Ht r). destruct (h0 !! r) as [[c0 n0]|].
  - destruct Hs as (c & n & Hr & Hf). rewrite Hr in Ht. destruct Ht as (n' & Hr' & Hf').
    exists c, n'. split; [done|by eapply frame_trans].
  - by rewrite Hs in Ht.
Qed.

Lemma skel_count h0 h r c n c' : skel h0 h -> h !! r = Some (c, n) -> skel h0 (<[r := (c', n)]> h).
Proof.
  intros Hs Hr k. specialize (Hs k). destruct (decide (k = r)) as [->|Hne].
  - rewrite lookup_insert_eq. rewrite Hr in Hs. destruct (h0 !! r) as [[c0 n0]|]; [|done].
    destruct Hs as (c1 & n1 & ? & Hf). simplify_eq. eauto.
  - by rewrite lookup_insert_ne by done.
Qed.

Lemma skel_clone h0 h r : skel h0 h -> skel h0 (clone_ref r h).
Proof.
  intros Hs. unfold clone_ref. destruct (h !! r) as [[c n]|] eqn:Hr; [|done]. by eapply skel_count.
Qed.

Lemma skel_some h0 h r c n : skel h0 h -> h !! r = Some (c, n) -> exists c0 n0, h0 !! r = Some (c0, n0) /\ frame n0 n.
Proof.
  intros Hs Hr. specialize (Hs r). rewrite Hr in Hs. destruct (h0 !! r) as [[c0 n0]|]; [|done].
  destruct Hs as (? & ? & ? & Hf). simplify_eq. eauto.
Qed.

Lemma fskel_count f0 f i c x c' : fskel f0 f -> f !! i = Some (c, x) -> fskel f0 (<[i := (c', x)]> f).
Proof.
  intros Hs Hi j. rewrite <- (Hs j). destruct (decide (j = i)) as [->|Hne].
  - by rewrite lookup_insert_eq, Hi.
  - by rewrite lookup_insert_ne by done.
Qed.

(** ** The trees of a state *)

Definition ram_child w0 r (name : list Z) : outcome FsErrorKind (option Z) :=
  match heap w0 !! r with
  | Some (_, RamDirectory d) => Ok (lookup_in (heap w0) r d name)
  | _ => Err NotADirectory
  end.

Definition ram_tree w0 : tree Z Z := mkTree (ram_child w0)
  (fun r => (label (heap w0) r).1)
  (fun r => (label (heap w0) r).2)
  (fun i => match fss w0 !! i with Some (_, x) => fs_root x | None => 0 end).

Definition ram_live w0 i : Prop := is_Some (fss w0 !! i).

(** [own0] and [ownf0] keep the trees of [w0] alive. *)
Definition ram_state w0 own0 ownf0 own ownf w : Prop :=
  inv w (own0 ⊎ own) (ownf0 ⊎ ownf) /\ skel (heap w0) (heap w) /\ fskel (fss w0) (fss w).

Section laws.
Context (w0 : world) (own0 ownf0 : gmultiset Z) (Hinv0 : inv w0 own0 ownf0).
#[local] Notation I := (ram_state w0 own0 ownf0).

Lemma state_drop own ownf w r : I ({[+ r +]} ⊎ own) ownf w -> I own ownf (ram_drop r w).
Proof.
  intros (Hi & Hs & Hf). split.
  { destruct (inv_drop w (own0 ⊎ own) (ownf0 ⊎ ownf) r) as [Hi' _]; [|done]. eapply inv_own, Hi. multiset_solver. }
  split; [|done]. destruct (inv_held w _ _ r Hi ltac:(multiset_solver)) as (c & n & Hr).
  destruct (skel_some _ _ _ _ _ Hs Hr) as (c0 & n0 & Hr0 & _).
  assert (Hc : (2 <= c)%nat).
  { pose proof (proj1 (i_counted _ _ _ Hi) r) as Hm. rewrite (strong_some _ _ _ _ Hr) in Hm.
    rewrite (owned_skel (heap w0)), (roots_skel (fss w0)) in Hm by done.
    pose proof (proj1 (i_counted _ _ _ Hinv0) r) as Hm0. rewrite (strong_some _ _ _ _ Hr0) in Hm0.
    pose proof (proj2 (i_counted _ _ _ Hinv0) _ _ _ Hr0).
    rewrite !multiplicity_disj_union in *. rewrite multiplicity_singleton_eq in Hm. lia. }
  simpl. unfold drop_heap. cbn [drop_ref]. rewrite Hr. destruct c as [|[|c]]; [lia|lia|]. by eapply skel_count.
Qed.

Lemma state_clone own ownf w r : I own ownf w -> is_Some (heap w !! r) -> I ({[+ r +]} ⊎ own) ownf (ram_clone r w).
Proof.
  intros (Hi & Hs & Hf) Hr. split; [|split; [by apply skel_clone|done]].
  eapply inv_own, inv_clone; [|done|done]. multiset_solver.
Qed.

Lemma state_reads own ownf w w' : I own ownf w -> inv w' (own0 ⊎ own) (ownf0 ⊎ ownf) -> reads w w' -> I own ownf w'.
Proof. intros (Hi & Hs & Hf) Hi' (Ht & Hf' & _). split; [done|]. split; [by eapply skel_same|by rewrite Hf']. Qed.

Lemma state_fs own ownf w i : I own ownf w -> is_Some (fss w0 !! i) -> exists c x, fss w !! i = Some (c, x) /\ root_of (ram_tree w0) i = fs_root x.
Proof.
  intros (_ & _ & Hf) [[c0 x0] Hi]. specialize (Hf i). rewrite Hi in Hf. destruct (fss w !! i) as [[c x]|] eqn:Hx; [|done].
  simpl in Hf. simplify_eq. exists c, x0. split; [done|]. unfold ram_tree. simpl. by rewrite Hi.
Qed.

Lemma lookup_in_skel h0 h r d name : skel h0 h -> lookup_in h r d name = lookup_in h0 r d name.
Proof.
  intros Hs. unfold lookup_in. case_decide; [done|]. case_decide; [|done]. destruct (parent d) as [p|]; [|done].
  specialize (Hs p). destruct (h0 !! p) as [[c0 n0]|]; [|by rewrite Hs]. by destruct Hs as (? & ? & -> & _).
Qed.

Lemma state_lookup own ownf w r name : I own ownf w -> r ∈ own ->
  exists w', ram_try_lookup r name w = (ram_child w0 r name, w') /\ I (gained (ram_child w0 r name) ⊎ own) ownf w'.
Proof.
  intros HI Hr. assert (HI' := HI). destruct HI' as (Hi & Hs & Hf). unfold ram_try_lookup.
  destruct (inv_held w _ _ r Hi ltac:(multiset_solver)) as (c & n & Hn).
  destruct (skel_some _ _ _ _ _ Hs Hn) as (c0 & n0 & Hn0 & Hfr).
  assert (Hnil : I (∅ ⊎ own) ownf w) by (by rewrite (left_id_L ∅ disj_union)).
  destruct (decide (is_dir n = true)) as [Hd|Hd].
  - destruct n as [| |d| |]; try done. destruct Hfr as [<-|(? & ? & ? & ? & ? & ? & _ & ?)]; [|done].
    match goal with |- context [forwarded r ?b w] => destruct (forwarded_ok w _ _ r c _ b Hi Hn) as (r' & c' & n' & -> & _ & _ & Hsame) end.
    destruct (Hsame eq_refl) as (-> & _ & ->).
    destruct (dir_lookup_ok w _ _ r c d name Hi Hn) as (-> & Hi1 & _). unfold ram_child. rewrite Hn0.
    rewrite (lookup_in_skel (heap w0)) in * by done. destruct (lookup_in (heap w0) r d name) as [k|]; [|by eexists].
    eexists. split; [done|]. split; [|split; [by apply skel_clone|done]].
    eapply inv_own, Hi1. simpl. rewrite lsd_one. multiset_solver.
  - assert (He : ram_child w0 r name = Err NotADirectory).
    { unfold ram_child. rewrite Hn0. destruct n0 as [| |d| |]; try done. destruct Hfr as [->|(? & ? & ? & ? & ? & ? & ? & _)]; done. }
    rewrite He. exists w. split; [|done].
    match goal with |- context [forwarded r ?b w] => destruct (held_forwarded w _ _ r b Hi ltac:(multiset_solver)) as (c1 & n1 & r' & c' & n' & Hn1 & -> & Hr' & Hdir) end.
    destruct n' as [| |d| |]; try done. rewrite (Hdir eq_refl) in Hr'. by simplify_eq.
Qed.

#[export] Instance ram_tree_laws : TreeLaws (H := ram_inodes) (ram_tree w0) (ram_live w0) I.
Proof.
  split.
  - intros r name. simpl. unfold ram_child. by destruct (heap w0 !! r) as [[? []]|].
  - intros own ownf w r name. apply state_lookup.
  - intros own ownf w r HI Hr. assert (HI' := HI). destruct HI' as (Hi & Hs & Hf).
    destruct (inv_held w _ _ r Hi ltac:(multiset_solver)) as (c & n & Hn).
    destruct (metadata_ok w _ _ r c n Hi Hn) as (st & w' & Hm & Hi' & Hrd & Hl).
    exists st, w'. split; [done|]. split; [by eapply state_reads|].
    destruct (skel_some _ _ _ _ _ Hs Hn) as (c0 & n0 & Hn0 & Hfr). simpl. rewrite (label_some _ _ _ _ Hn0).
    rewrite <- (frame_label _ _ Hfr), <- Hl. done.
  - intros own ownf w i HI Hl. destruct (state_fs own ownf w i HI Hl) as (c & x & Hx & ->).
    exists (ram_clone (fs_root x) w). split; [simpl; unfold ram_root; by rewrite Hx|].
    apply state_clone; [done|]. destruct HI as (Hi & _ & _). destruct (inv_root _ _ _ _ _ _ Hi Hx) as (c' & d & Hr & _). by rewrite Hr.
  - intros own ownf w r HI Hr. apply state_clone; [done|]. destruct HI as (Hi & _).
    destruct (inv_held w _ _ r Hi ltac:(multiset_solver)) as (c & n & Hn). by rewrite Hn.
  - intros own ownf w r. apply state_drop.
  - intros own ownf w i HI Hl. destruct (state_fs own ownf w i HI Hl) as (c & x & Hx & _). destruct HI as (Hi & Hs & Hf).
    split; [|split].
    + rewrite (assoc_L disj_union), (comm_L disj_union ownf0), <- (assoc_L disj_union). apply inv_clone_fs; [done|]. by rewrite Hx.
    + simpl. unfold ram_clone_fs. by rewrite Hx.
    + simpl. unfold ram_clone_fs. rewrite Hx. by eapply fskel_count.
  - intros own ownf w i (Hi & Hs & Hf). split.
    { apply inv_drop_fs. by rewrite (assoc_L disj_union), (comm_L disj_union _ ownf0), <- (assoc_L disj_union). }
    simpl. unfold ram_drop_fs. destruct (i_fs _ _ _ Hi i) as [Hm Hp].
    rewrite !multiplicity_disj_union, multiplicity_singleton_eq in Hm.
    destruct (fss w !! i) as [[[|[|c]] x]|] eqn:Hx; [lia| |split; [done|by eapply fskel_count]|done].
    exfalso. specialize (Hf i). rewrite Hx in Hf. destruct (fss w0 !! i) as [[c0 x0]|] eqn:Hx0; [|done].
    destruct (i_fs _ _ _ Hinv0 i) as [Hm0 Hp0]. rewrite Hx0 in Hm0. specialize (Hp0 _ _ Hx0). lia.
Qed.

(** ** File systems *)

Definition ram_region i r : Prop := exists c n, heap w0 !! r = Some (c, n) /\ node_fs n = Some i.

Lemma ram_regions : regions (ram_tree w0) (ram_live w0) ram_region.
Proof.
  split; simpl.
  - intros i [[c x] Hi]. rewrite Hi. destruct (inv_root _ _ _ _ _ _ Hinv0 Hi) as (c' & d & Hr & He).
    exists c', (RamDirectory d). split; [done|]. simpl. by rewrite He.
  - intros i r name k (c & n & Hr & Hn). unfold ram_child. rewrite Hr. destruct n as [| |d| |]; try done.
    simpl in Hn. simplify_eq. unfold lookup_in. case_decide; [|case_decide].
    + intros ?. simplify_eq. exists c, (RamDirectory d). done.
    + destruct (parent d) as [p|] eqn:Hp; [|done]. destruct (heap w0 !! p) as [[cp np]|] eqn:Hpp; [|done]. intros ?. simplify_eq.
      destruct (t_up _ _ _ (i_tree _ _ _ Hinv0) _ _ _ _ Hr Hp) as [_ Hok]. destruct (Hok _ _ Hpp) as [_ Hfs]. exists cp, np. by split.
    + intros ?. simplify_eq. destruct (inv_child _ _ _ _ _ _ _ _ Hinv0 Hr ltac:(done)) as (ck & nk & Hk & [Hok _] & _). by exists ck, nk.
  - intros i r [[c x] Hi] (cr & n & Hr & Hn). rewrite Hi, (label_some _ _ _ _ Hr).
    assert (Hno : (label_of n).1 = node_no n) by (by destruct n). rewrite Hno.
    destruct (inv_root _ _ _ _ _ _ Hinv0 Hi) as (c' & d & Hroot & He).
    destruct (proj2 (t_root _ _ _ (i_tree _ _ _ Hinv0) _ _ _ Hi) _ _ Hroot) as (_ & Hfs & H1').
    split; [|intros ->; by simplify_eq]. intros Hone. 
    refine (t_uniq _ _ _ (i_tree _ _ _ Hinv0) r cr n (fs_root x) c' (RamDirectory d) i Hr Hroot Hn Hfs _ _).
    + by rewrite Hi.
    + by rewrite Hone, H1'.
  - intros i [[c x] Hi]. rewrite Hi. destruct (inv_root _ _ _ _ _ _ Hinv0 Hi) as (c' & d & Hroot & _). by rewrite (label_some _ _ _ _ Hroot).
  - intros r. unfold label, ram_child. destruct (heap w0 !! r) as [[c n]|]; [|done]. destruct n; try done.
Qed.

(** A mount point given by a directory is no other inode. *)
Lemma ram_point_dir i d r : ram_live w0 i -> ram_region i d -> kind (ram_tree w0) d = UDirectory ->
  ram_region i r -> number (ram_tree w0) r = number (ram_tree w0) d -> kind (ram_tree w0) r = UDirectory.
Proof.
  intros Hl (cd & nd & Hd & Hnd) Hk (cr & nr & Hr & Hnr). simpl in *. rewrite (label_some _ _ _ _ Hd) in Hk.
  rewrite (label_some _ _ _ _ Hd), (label_some _ _ _ _ Hr). intros Hno.
  assert (Hlab : forall n, node_fs n = Some i -> (label_of n).1 = node_no n) by (by intros []).
  rewrite !Hlab in Hno by done.
  assert (r = d) as -> by (by eapply (t_uniq _ _ _ (i_tree _ _ _ Hinv0))). by simplify_eq.
Qed.

Lemma ram_state_start : I ∅ ∅ w0.
Proof.
  split; [|split; [apply skel_refl|done]]. by rewrite !(right_id_L ∅ disj_union).
Qed.

End laws.
End ram_tree.

(** * Theorems on the mount layer

    Paths are resolved in the tree that results from grafting the mounted
    file systems onto the main one; a directory with a file system on it
    cannot be removed; and a file created in the root of a mounted file
    system may be taken for a mount point. *)

Section theorems.
Context {W F R MT : Type} `{VfsINodeOps W F R} `{Countable F} `{Countable R} `{HashMap Z F MT}.
Context (t : tree F R) (live : F -> Prop) (I : gmultiset R -> gmultiset F -> W -> Prop).
Context (region : F -> R -> Prop) (main_fs : F) (points : MT).

(** The file systems below the layer and its table of mount points. *)
Record mounted_trees : Prop := {
  m_laws : TreeLaws t live I;
  m_regions : regions t live region;
  m_main : live main_fs;
  m_live no f : hm_get no points = Some f -> live f;
  m_dir r f : region main_fs r -> hm_get (number t r) points = Some f -> kind t r = UDirectory
}.

(** C30. Resolving a path from the root through the mount layer finds what the
    path leads to in the grafted tree, where a directory with a file system
    on it is the root of that file system and dot-dot in that root leads to
    the parent of the directory: the same error, the same absence, or an
    inode of the layer that stands for the place reached.  Every reference
    taken on the way is given back. *)
Theorem mount_resolves own ownf s path : mounted_trees -> MI I points own ownf s ->
  exists res s',
    (do root <- mount_root main_fs; try_ilookup (H := mount_inodes main_fs) root path) s = (res, s') /\
    finds t I region main_fs points own ownf
      (ns_walk t points (Path.components path) (cross t points (root_of t main_fs))) res s'.
Proof.
  intros [Hlaws Hreg Hmain Hlive Hdir] HMI.
  destruct (mount_root_ok t live I region Hreg main_fs points Hmain Hlive Hdir own ownf s HMI) as (h & s1 & Hr & <- & Hwf & HMI1).
  unfold bind. rewrite Hr. unfold try_ilookup.
  exact (walk_ok t live I region Hreg main_fs points Hmain Hlive Hdir (Path.components path) own ownf s1 h HMI1 Hwf).
Qed.

(** C31. A mount point is protected: unlinking the name of a directory that
    has a file system on it fails with a permission error, before the file
    system below is asked to remove anything. *)
Theorem mount_point_protected own ownf s h name k f : mounted_trees -> MI I points own ownf s ->
  wf_inode t region main_fs points h -> hrefs h ⊆ own ->
  raw_inode h = None -> mounted t points (m_inner h) = None ->
  child t (m_inner h) name = Ok (Some k) -> mounted t points k = Some f ->
  exists s', m_unlink h name s = (Err PermissionDenied, s') /\ MI I points own ownf s'.
Proof.
  intros [Hlaws Hreg Hmain Hlive Hdir] HMI Hwf Hsub Hraw Hun Hc Hm.
  destruct (get_mount_fs_ok t live I region main_fs points Hlive own ownf s h HMI Hwf) as (s1 & Hg & Hs1).
  rewrite Hraw, Hun in Hg, Hs1. subst s1. destruct HMI as [HI Hp].
  destruct (l_lookup own ownf _ (m_inner h) name HI) as (w1 & Hl & HI1).
  { unfold hrefs in Hsub. multiset_solver. }
  rewrite Hc in Hl, HI1. simpl in HI1.
  destruct (l_metadata _ ownf w1 k HI1 ltac:(multiset_solver)) as (st & w2 & Hmd & HI2 & Hno & _).
  eexists. split.
  - unfold m_unlink. unfold bind at 1. rewrite Hg, decide_True by done. unfold bind at 1. unfold bind at 1.
    unfold on_below at 1. rewrite Hl. unfold scoped_inode, bind, on_below. cbn [below mount_points]. rewrite Hmd.
    unfold get. cbn [mount_points]. rewrite Hno, Hp. unfold mounted in Hm. by rewrite Hm.
  - apply (MI_drop t live I). by split.
Qed.
End theorems.

(** ** Instances

    A main file system with a directory tmp, and a second file system, with a
    file, mounted on it. *)
Section instances.
#[local] Notation example_world := (world (list Z) BuiltinDev (gmap (list Z) Z)).

Definition tmp : list Z := bytes_of "tmp".

Definition two_fs_calls : list (call (P := list Z)) :=
  [CNewFs; CRoot 0; CCreate 1 tmp UDirectory; CNewFs; CRoot 3; CCreate 4 [120] RegularFile].

Definition two_fs : example_world * gmultiset Z * gmultiset Z := exec two_fs_calls (start ∅).

Arguments two_fs : simpl never.

Lemma two_fs_inv : inv two_fs.1.1 two_fs.1.2 two_fs.2.
Proof.
  assert (Hr : runs 6 two_fs.1.1 two_fs.1.2 two_fs.2).
  { apply (exec_runs 0 two_fs_calls (start ∅)); [constructor|by vm_compute]. }
  exact (proj1 (runs_inv 6 _ _ _ Hr ltac:(lia))).
Qed.

Definition tmp_points : gmap Z Z := {[ 2 := 3 ]}.

Lemma tmp_points_eq no f : hm_get no tmp_points = Some f -> no = 2 /\ f = 3.
Proof. unfold hm_get, gmap_hash, tmp_points. rewrite lookup_singleton_Some. naive_solver. Qed.

Lemma two_fs_mounted : mounted_trees (H := ram_inodes) (ram_tree two_fs.1.1) (ram_live two_fs.1.1)
  (ram_state two_fs.1.1 two_fs.1.2 two_fs.2) (ram_region two_fs.1.1) 0 tmp_points.
Proof.
  split.
  - exact (ram_tree_laws _ _ _ two_fs_inv).
  - exact (ram_regions _ _ _ two_fs_inv).
  - vm_compute. eauto.
  - intros no f Hf. assert (f = 3) as -> by (by apply tmp_points_eq in Hf as [_ ->]). vm_compute. eauto.
  - intros r f Hreg Hf. apply tmp_points_eq in Hf as [Hno _].
    eapply (ram_point_dir _ _ _ two_fs_inv 0 2); [by vm_compute; eauto| |by vm_compute|done|by rewrite Hno; vm_compute].
    eexists _, _. split; [by vm_compute|done].
Qed.

Definition two_fs_state : mounts example_world (gmap Z Z) := mkMounts two_fs.1.1 tmp_points.

Lemma two_fs_MI : MI (ram_state two_fs.1.1 two_fs.1.2 two_fs.2) tmp_points ∅ ∅ two_fs_state.
Proof. split; [|done]. apply ram_state_start, two_fs_inv. Qed.

(** The path /tmp/../tmp/x leads to the file of the mounted file system. *)
Lemma mount_resolves_witness : exists h s',
  (do root <- mount_root 0; try_ilookup (H := mount_inodes 0) root (bytes_of "/tmp/../tmp/x")) two_fs_state = (Ok (Some h), s') /\
  denotes (ram_tree two_fs.1.1) tmp_points h = mkPlace 5 (Some 2).
Proof.
  destruct (mount_resolves _ _ _ _ _ _ ∅ ∅ two_fs_state (bytes_of "/tmp/../tmp/x") two_fs_mounted two_fs_MI) as (res & s' & He & Hf).
  assert (Hns : ns_walk (ram_tree two_fs.1.1) tmp_points (Path.components (bytes_of "/tmp/../tmp/x"))
     (cross (ram_tree two_fs.1.1) tmp_points (root_of (ram_tree two_fs.1.1) 0)) = Ok (Some (mkPlace 5 (Some 2)))).
  { vm_compute. reflexivity. }
  rewrite Hns in Hf. destruct res as [[h|]|e|]; [|destruct Hf..]. exists h, s'. split; [exact He|exact (proj1 Hf)].
Defined.

Lemma mount_point_protected_witness : exists h s s', m_unlink h tmp s = (Err PermissionDenied, s') /\
  m_inode_no h = 1 /\ mount_points s = tmp_points.
Proof.
  pose proof (m_laws _ _ _ _ _ _ two_fs_mounted) as Hlaws.
  destruct (mount_root_ok (H := ram_inodes) (ram_tree two_fs.1.1) _ _ _ (m_regions _ _ _ _ _ _ two_fs_mounted) 0 tmp_points
    (m_main _ _ _ _ _ _ two_fs_mounted) (m_live _ _ _ _ _ _ two_fs_mounted) (m_dir _ _ _ _ _ _ two_fs_mounted)
    ∅ ∅ two_fs_state two_fs_MI) as (h & s & Hr & Hd & Hwf & HMI).
  assert (Hh : (mount_root (H := ram_inodes) 0 two_fs_state).1 = Ok (mkINode 1 1 None)) by (vm_compute; reflexivity).
  rewrite Hr in Hh. injection Hh as Hh.
  destruct (mount_point_protected _ _ _ _ _ _ (hrefs h ⊎ ∅) ∅ s h tmp 2 3 two_fs_mounted HMI Hwf) as (s' & Hu & _).
  - apply gmultiset_disj_union_subseteq_l.
  - by rewrite Hh.
  - rewrite Hh. vm_compute. reflexivity.
  - rewrite Hh. vm_compute. reflexivity.
  - vm_compute. reflexivity.
  - exists h, s, s'. split; [exact Hu|]. split; [by rewrite Hh|apply HMI].
Defined.

(** ** A file taken for a mount point *)

(** The inode that [create] returns for a file in the root of a mounted
    file system carries the number of that file system without the directory
    it is mounted on: here the second file of the mounted file system gets
    the number 2, which is the mount point's number in the main file system,
    so the returned inode behaves as the root directory of the mounted file
    system, while a lookup of the same name gives the file. *)
Theorem created_file_taken_for_mount_point :
  let s0 := mkMounts (exec [CNewFs; CRoot 0; CCreate 1 tmp UDirectory; CNewFs] (start ∅)).1.1 tmp_points : mounts example_world (gmap Z Z) in
  let create := (do root <- mount_root 0; do dir <- InodeOps.lookup (H := mount_inodes 0) root tmp; m_create dir [120] RegularFile)%rw in
  let lookup_again := (do root <- mount_root 0; do dir <- InodeOps.lookup (H := mount_inodes 0) root tmp; InodeOps.lookup (H := mount_inodes 0) dir [120])%rw in
  match create s0 with
  | (Ok file, s1) =>
    (m_file_type file s1).1 = Ok UDirectory /\
    (m_write file 0 [1; 2; 3] s1).1 = Err IsADirectory /\
    match lookup_again s1 with
    | (Ok found, s2) => (m_file_type found s2).1 = Ok RegularFile /\ (m_write found 0 [1; 2; 3] s2).1 = Ok 3
    | _ => False
    end
  | _ => False
  end.
Proof. vm_compute. repeat split. Qed.
End instances.
