(* ===== verification/MountRefs.v ===== *)
(** * References under the mount layer

    The mount layer satisfies the laws on references when the file systems
    below it do: an inode of the layer stands for the references it holds,
    and the table for the file systems mounted. *)

From S2P Require Import Prelude Bytes Path Vfs Dir EfsVfs HashMap InodeOps Pathname Mount InodeRefs.
Import Vfs.

#[local] Open Scope Z_scope.
#[local] Open Scope rw_scope.

Section refs.
Context {W F R MT : Type} `{VfsINodeOps W F R} `{HashMap Z F MT} `{!HashMapLaws Z F MT}.
Context (I : nat -> list R -> list F -> W -> Prop) `{!RefLaws I}.
Context (main_fs : F).

#[local] Notation mounts := (mounts W MT).
#[local] Notation MountFsINode := (MountFsINode R).
#[local] Notation MM := (M mounts FsErrorKind).
Implicit Types (n : nat) (r : R) (f : F) (refs : list R) (fs : list F) (s : mounts) (h : MountFsINode) (own : list MountFsINode).

Definition mrefs h : list R := m_inner h :: option_list (raw_inode h).

Definition mounted_fs (tbl : MT) : list F := main_fs :: (hm_iter tbl).*2.

(** The references of the layer with [refs] and [fs] in hand. *)
Definition MJ (tbl : MT) n refs fs s : Prop := mount_points s = tbl /\ I n refs (fs ++ mounted_fs tbl) (below s).

Definition mount_refs n own (ownf : list unit) s : Prop := MJ (mount_points s) n (own ≫= mrefs) [] s.

Section table.
Context (tbl : MT).
#[local] Notation J := (MJ tbl).

Lemma MJ_perm n refs refs' fs s : refs ≡ₚ refs' -> J n refs fs s -> J n refs' fs s.
Proof. intros Hp [Ht HI]. split; [done|]. by eapply rl_perm, HI. Qed.

Lemma MJ_less n refs fs s : J (S n) refs fs s -> J n refs fs s.
Proof. intros [Ht HI]. split; [done|by apply rl_less]. Qed.

Lemma wp_below {A} (m : M W FsErrorKind A) n refs fs s Q K : J n refs fs s ->
  wp m (fun a w' => Q a (mkMounts w' tbl)) (fun e w' => K e (mkMounts w' tbl)) (below s) -> wp (on_below m) Q K s.
Proof. intros [Ht _]. unfold wp, on_below. rewrite Ht. by destruct (m (below s)) as [[] w']. Qed.

Lemma wp_scoped_inode {A} r (m : MM A) Q K s :
  wp m (fun a s' => Q a (update_below (v_drop r) s')) (fun e s' => K e (update_below (v_drop r) s')) s ->
  wp (scoped_inode r m) Q K s.
Proof. unfold wp, scoped_inode. by destruct (m s) as [[] s']. Qed.

Lemma wp_scoped_fs {A} f (m : MM A) Q K s :
  wp m (fun a s' => Q a (update_below (v_drop_fs f) s')) (fun e s' => K e (update_below (v_drop_fs f) s')) s ->
  wp (scoped_fs f m) Q K s.
Proof. unfold wp, scoped_fs. by destruct (m s) as [[] s']. Qed.

Lemma wp_unless_error {A} r (m : MM A) Q K s :
  wp m Q (fun e s' => K e (update_below (v_drop r) s')) s -> wp (unless_error r m) Q K s.
Proof. unfold wp, unless_error. by destruct (m s) as [[] s']. Qed.

Lemma MJ_drop n refs fs s r : J n (r :: refs) fs s -> J n refs fs (update_below (v_drop r) s).
Proof. intros [Ht HI]. split; [done|by apply rl_drop]. Qed.

Lemma MJ_clone n refs fs s r : r ∈ refs -> J n refs fs s -> J n (r :: refs) fs (update_below (v_clone r) s).
Proof. intros Hr [Ht HI]. split; [done|by apply rl_clone]. Qed.

Lemma MJ_drop_fs n refs fs s f : J n refs (f :: fs) s -> J n refs fs (update_below (v_drop_fs f) s).
Proof. intros [Ht HI]. split; [done|by apply rl_drop_fs]. Qed.

Lemma MJ_clone_fs n refs fs s f : f ∈ fs ++ mounted_fs tbl -> J n refs fs s -> J n refs (f :: fs) (update_below (v_clone_fs f) s).
Proof. intros Hf [Ht HI]. split; [done|by apply rl_clone_fs]. Qed.

Lemma get_mounted no f : hm_get no tbl = Some f -> f ∈ mounted_fs tbl.
Proof. intros Hf%elem_of_hm_iter. right. apply list_elem_of_fmap. by exists (no, f). Qed.

(** ** The operations below *)

(** An operation below by its law. *)
Ltac below law := intros HJ; intros; eapply wp_below; [done|];
  eapply wp_mono; [eapply law; [apply HJ|done..]|..]; unfold MJ; naive_solver.

Lemma root_MJ n refs fs s f : J n refs fs s -> f ∈ fs ++ mounted_fs tbl ->
  wp (on_below (v_root f)) (fun r => J n (r :: refs) fs) (fun _ => J n refs fs) s.
Proof. below rl_root. Qed.

Lemma sync_MJ n refs fs s f : J n refs fs s -> f ∈ fs ++ mounted_fs tbl ->
  wp (on_below (v_sync f)) (fun _ => J n refs fs) (fun _ => J n refs fs) s.
Proof. below rl_sync. Qed.

Lemma metadata_MJ n refs fs s r : J n refs fs s -> r ∈ refs ->
  wp (on_below (v_metadata r)) (fun st s' => st_typ st <> USymlink /\ J n refs fs s') (fun _ => J n refs fs) s.
Proof. below rl_metadata. Qed.

Lemma create_MJ n refs fs s r name typ : J (S n) refs fs s -> r ∈ refs -> zlen name <= 256 ->
  wp (on_below (v_create r name typ)) (fun k => J n (k :: refs) fs) (fun _ => J n refs fs) s.
Proof. below rl_create. Qed.

Lemma lookup_MJ n refs fs s r name : J n refs fs s -> r ∈ refs ->
  wp (on_below (v_try_lookup r name)) (fun o => J n (option_list o ++ refs) fs) (fun _ => J n refs fs) s.
Proof. below rl_lookup. Qed.

Lemma unlink_MJ n refs fs s r name : J n refs fs s -> r ∈ refs ->
  wp (on_below (v_unlink r name)) (fun _ => J n refs fs) (fun _ => J n refs fs) s.
Proof. below rl_unlink. Qed.

Lemma clone_opt_MJ n refs fs s o : J n refs fs s -> (forall r, o = Some r -> r ∈ refs) ->
  wp (clone_opt o) (fun o' s' => o' = o /\ J n (option_list o ++ refs) fs s') (fun _ => J n refs fs) s.
Proof.
  intros HJ Ho. destruct o as [r|]; [|done]. apply wp_bind. split; [done|]. apply MJ_clone; [|done]. by apply Ho.
Qed.

(** ** Inodes of the layer *)

Lemma get_mount_fs_MJ n refs fs s h : J n refs fs s ->
  wp (get_mount_fs h) (fun o s' => J n refs (option_list o ++ fs) s' /\ (forall f, o = Some f -> raw_inode h = None))
    (fun _ => J n refs fs) s.
Proof.
  intros HJ. unfold get_mount_fs. destruct (raw_inode h); [by split|]. apply wp_bind. unfold wp at 1, get.
  destruct HJ as [Ht HI]. rewrite Ht. destruct (hm_get (m_inode_no h) tbl) as [f|] eqn:Hf; [|by repeat split].
  apply wp_bind. split; [|done]. apply MJ_clone_fs; [|by split]. apply elem_of_app. right. by eapply get_mounted.
Qed.

Lemma inode_MJ n refs fs s h : J n refs fs s -> m_inner h ∈ refs ->
  wp (inode h) (fun r => J n (r :: refs) fs) (fun _ => J n refs fs) s.
Proof.
  intros HJ Hh. unfold inode. apply wp_bind. eapply wp_mono; [by apply get_mount_fs_MJ| |done].
  intros [f|] s' [HJ' _]; simpl in HJ'.
  - apply wp_scoped_fs. eapply wp_mono; [apply root_MJ; [done|by left]|..]; intros; by apply MJ_drop_fs.
  - apply wp_bind. by apply MJ_clone.
Qed.

(** [wrap] takes over the reference [r]. *)
Lemma wrap_MJ n refs fs s raw r : J n (r :: refs) fs s -> (forall m, raw = Some m -> m ∈ refs) ->
  wp (wrap raw r) (fun h => J n (mrefs h ++ refs) fs) (fun _ => J n refs fs) s.
Proof.
  intros HJ Hraw. unfold wrap. apply wp_unless_error, wp_bind.
  eapply wp_mono; [apply metadata_MJ; [done|by left]| |by intros; apply MJ_drop].
  intros st s1 [_ HJ1]. apply wp_bind. eapply wp_mono; [apply clone_opt_MJ; [done|intros m Hm; right; by apply Hraw]| |by intros; apply MJ_drop].
  intros raw' s2 [-> HJ2]. apply wp_ret. eapply MJ_perm, HJ2. unfold mrefs. simpl.
  by rewrite Permutation_middle.
Qed.

Lemma wrap_found_MJ n refs fs s raw o : J n (option_list o ++ refs) fs s -> (forall m, raw = Some m -> m ∈ refs) ->
  wp (wrap_found raw o) (fun o' => J n ((option_list o' ≫= mrefs) ++ refs) fs) (fun _ => J n refs fs) s.
Proof.
  intros HJ Hraw. destruct o as [r|]; [|done]. simpl in HJ. apply wp_bind. eapply wp_mono; [by eapply wrap_MJ|..]; [|done].
  intros h s' HJ'. apply wp_ret. simpl. by rewrite app_nil_r.
Qed.

Lemma via_inode_MJ {A} n refs fs s h (op : R -> M W FsErrorKind A) (Q : A -> Prop) : J n refs fs s -> m_inner h ∈ refs ->
  (forall (own : list R) ownf w r, I n own ownf w -> r ∈ own -> wp (op r) (fun a w' => Q a /\ I n own ownf w') (fun _ => I n own ownf) w) ->
  wp (via_inode h op) (fun a s' => Q a /\ J n refs fs s') (fun _ => J n refs fs) s.
Proof.
  intros HJ Hh Hop. unfold via_inode. apply wp_bind. eapply wp_mono; [by apply inode_MJ| |done].
  intros r s1 HJ1. apply wp_scoped_inode.
  eapply wp_below; [exact HJ1|]. eapply wp_mono; [apply Hop; [apply HJ1|by left]|..].
  - intros a w' [Hq HI]. split; [done|]. apply MJ_drop. by split.
  - intros e w' HI. apply MJ_drop. by split.
Qed.

Lemma via_inode_quiet {A} n refs fs s h (op : R -> M W FsErrorKind A) : J n refs fs s -> m_inner h ∈ refs ->
  (forall (own : list R) ownf w r, I n own ownf w -> r ∈ own -> wp (op r) (fun _ => I n own ownf) (fun _ => I n own ownf) w) ->
  wp (via_inode h op) (fun _ => J n refs fs) (fun _ => J n refs fs) s.
Proof.
  intros HJ Hh Hop. eapply wp_mono; [eapply (via_inode_MJ n refs fs s h op (fun _ => True)); [done|done|]| |done].
  - intros own ownf w r HI Hr. eapply wp_mono; [by apply Hop| |done]. done.
  - by intros a s' [_ ?].
Qed.

Lemma create_in_MJ n refs fs s r name typ : J (S n) (r :: refs) fs s -> zlen name <= 256 ->
  wp (scoped_inode r (on_below (v_create r name typ))) (fun k => J n (k :: refs) fs) (fun _ => J n refs fs) s.
Proof.
  intros HJ Hn. apply wp_scoped_inode. eapply wp_mono; [apply create_MJ; [done|by left|done]|..].
  - intros k s' HJ'. apply MJ_drop. eapply MJ_perm, HJ'. constructor.
  - intros e s' HJ'. by apply MJ_drop.
Qed.

Lemma m_create_MJ n refs fs s h name typ : J (S n) refs fs s -> m_inner h ∈ refs -> (forall m, raw_inode h = Some m -> m ∈ refs) ->
  zlen name <= 256 ->
  wp (m_create h name typ) (fun h' => J n (mrefs h' ++ refs) fs) (fun _ => J n refs fs) s.
Proof.
  intros HJ Hh Hraw Hn. unfold m_create. apply wp_bind. eapply wp_mono; [by apply get_mount_fs_MJ| |by intros; apply MJ_less].
  intros o s1 [HJ1 _]. apply wp_bind. eapply wp_mono with (Q := fun k => J n (k :: refs) fs) (R := fun _ => J n refs fs); [| |done].
  - destruct o as [f|].
    + apply wp_scoped_fs, wp_bind. eapply wp_mono; [apply root_MJ; [done|by left]|..].
      * intros r s2 HJ2. eapply wp_mono; [eapply create_in_MJ; [exact HJ2|done]|..]; intros; by apply MJ_drop_fs.
      * intros e s2 HJ2. by apply MJ_drop_fs, MJ_less.
    + apply wp_bind. apply create_in_MJ; [|done]. by apply MJ_clone.
  - intros k s2 HJ2. by apply (wrap_MJ n refs fs s2 (raw_inode h) k).
Qed.

(** The check for a mount point before an entry is removed. *)
Lemma unlink_check_MJ n refs fs s r name : J n refs fs s -> r ∈ refs ->
  wp (do c <- on_below (v_try_lookup r name);
      match c with
      | Some child =>
        scoped_inode child (
          do stat <- on_below (v_metadata child);
          do s <- get;
          match hm_get (st_ino stat) (mount_points s) with
          | Some _ => fail PermissionDenied
          | None => ret tt
          end)
      | None => ret tt
      end) (fun _ => J n refs fs) (fun _ => J n refs fs) s.
Proof.
  intros HJ Hr. apply wp_bind. eapply wp_mono; [by apply lookup_MJ| |done]. intros [k|] s1 HJ1; [simpl in HJ1|done].
  apply wp_scoped_inode, wp_bind. eapply wp_mono; [apply metadata_MJ; [done|by left]|..]; [|by intros; apply MJ_drop].
  intros st s2 [_ HJ2]. apply wp_bind. unfold wp at 1, get.
  destruct (hm_get (st_ino st) (mount_points s2)); by apply MJ_drop.
Qed.

Lemma m_unlink_MJ n refs fs s h name : J n refs fs s -> m_inner h ∈ refs ->
  wp (m_unlink h name) (fun _ => J n refs fs) (fun _ => J n refs fs) s.
Proof.
  intros HJ Hh. unfold m_unlink. apply wp_bind. eapply wp_mono; [by apply get_mount_fs_MJ| |done].
  intros [f|] s1 [HJ1 _]; simpl in HJ1.
  - apply wp_scoped_fs, wp_bind. eapply wp_mono; [apply root_MJ; [done|by left]|..]; [|by intros; apply MJ_drop_fs].
    intros r s2 HJ2. apply wp_scoped_inode. eapply wp_mono; [apply unlink_MJ; [exact HJ2|by left]|..]; intros; by apply MJ_drop_fs, MJ_drop.
  - apply wp_bind. eapply wp_mono with (Q := fun _ => J n refs fs) (R := fun _ => J n refs fs); [| |done].
    + case_decide; [by apply unlink_check_MJ|done].
    + intros ? s2 HJ2. by apply unlink_MJ.
Qed.

Lemma found_in_MJ n refs fs s r raw name : J n refs fs s -> r ∈ refs -> (forall m, raw = Some m -> m ∈ refs) ->
  wp (do found <- on_below (v_try_lookup r name); wrap_found raw found)
    (fun o => J n ((option_list o ≫= mrefs) ++ refs) fs) (fun _ => J n refs fs) s.
Proof.
  intros HJ Hr Hraw. apply wp_bind. eapply wp_mono; [by apply lookup_MJ| |done]. intros o s1 HJ1. by apply wrap_found_MJ.
Qed.

(** The lookup in the root of the file system mounted on an inode. *)
Lemma found_under_MJ n refs fs s h f name : J n refs (f :: fs) s -> m_inner h ∈ refs ->
  wp (scoped_fs f (
        do r <- on_below (v_root f);
        do found <- scoped_inode r (on_below (v_try_lookup r name));
        wrap_found (Some (m_inner h)) found))
    (fun o => J n ((option_list o ≫= mrefs) ++ refs) fs) (fun _ => J n refs fs) s.
Proof.
  intros HJ Hh. apply wp_scoped_fs, wp_bind. eapply wp_mono; [apply root_MJ; [done|by left]|..]; [|by intros; apply MJ_drop_fs].
  intros r s1 HJ1. apply wp_bind, wp_scoped_inode. eapply wp_mono; [apply lookup_MJ; [exact HJ1|by left]|..].
  - intros o s2 HJ2. eapply wp_mono; [apply (wrap_found_MJ n refs (f :: fs))|..]; [|by intros ? [= <-]|intros; by apply MJ_drop_fs..].
    apply MJ_drop. eapply MJ_perm, HJ2. by rewrite Permutation_middle.
  - intros e s2 HJ2. by apply MJ_drop_fs, MJ_drop.
Qed.

Lemma m_try_lookup_MJ n refs fs s h name : J n refs fs s -> m_inner h ∈ refs -> (forall m, raw_inode h = Some m -> m ∈ refs) ->
  wp (m_try_lookup h name) (fun o => J n ((option_list o ≫= mrefs) ++ refs) fs) (fun _ => J n refs fs) s.
Proof.
  intros HJ Hh Hraw. unfold m_try_lookup. apply wp_bind. eapply wp_mono; [by apply get_mount_fs_MJ| |done].
  intros o s1 [HJ1 Ho].
  assert (Hrest : forall s', J n refs fs s' ->
    wp (let '(inner, raw) := match raw_inode h with
          | Some m => if is_mount_point_root h && bool_decide (name = dotdot) then (m, None) else (m_inner h, raw_inode h)
          | None => (m_inner h, raw_inode h) end in
        do found <- on_below (v_try_lookup inner name); wrap_found raw found)
      (fun o => J n ((option_list o ≫= mrefs) ++ refs) fs) (fun _ => J n refs fs) s').
  { intros s' HJ'. destruct (raw_inode h) as [m|]; [|by apply found_in_MJ].
    destruct (_ && _); apply found_in_MJ; try done; by apply Hraw. }
  destruct o as [f|]; simpl in HJ1; [|by apply Hrest].
  destruct (negb _ && negb _); [by apply found_under_MJ|]. apply wp_bind. by apply Hrest, MJ_drop_fs.
Qed.

Lemma mount_root_MJ n refs fs s : J n refs fs s ->
  wp (mount_root main_fs) (fun h => J n (mrefs h ++ refs) fs) (fun _ => J n refs fs) s.
Proof.
  intros HJ. unfold mount_root. apply wp_bind. eapply wp_mono; [apply root_MJ; [done|apply elem_of_app; right; by left]| |done].
  intros r s1 HJ1. apply wp_unless_error, wp_bind. eapply wp_mono; [apply metadata_MJ; [exact HJ1|by left]|..]; [|by intros; apply MJ_drop].
  intros st s2 [_ HJ2]. apply wp_bind. unfold wp at 1, get. rewrite (proj1 HJ2).
  destruct (hm_get (st_ino st) tbl) as [f|] eqn:Hf; [|done].
  apply wp_bind. eapply wp_mono; [apply root_MJ; [exact HJ2|]|..]; [|done|by intros; apply MJ_drop].
  apply elem_of_app. right. by eapply get_mounted.
Qed.

Lemma sync_each_MJ n refs fs fss s : J n refs fs s -> fss ⊆ mounted_fs tbl ->
  wp (sync_each fss) (fun _ => J n refs fs) (fun _ => J n refs fs) s.
Proof.
  revert s. induction fss as [|f fss IH]; intros s HJ Hf; [done|]. apply wp_bind.
  eapply wp_mono; [apply sync_MJ; [done|apply elem_of_app; right; apply Hf; by left]| |done].
  intros ? s1 HJ1. apply IH; [done|]. intros x Hx. apply Hf. by right.
Qed.

Lemma mount_sync_MJ n refs fs s : J n refs fs s ->
  wp (mount_sync main_fs) (fun _ => J n refs fs) (fun _ => J n refs fs) s.
Proof.
  intros HJ. apply wp_bind. eapply wp_mono; [apply sync_MJ; [done|apply elem_of_app; right; by left]| |done].
  intros ? s1 HJ1. apply wp_bind. unfold wp at 1, get. rewrite (proj1 HJ1). apply sync_each_MJ; [done|]. intros x Hx. by right.
Qed.
End table.

(** ** The layer as an implementation of the interface *)

Lemma held_refs h own : h ∈ own -> m_inner h ∈ own ≫= mrefs /\ (forall m, raw_inode h = Some m -> m ∈ own ≫= mrefs).
Proof.
  intros Hh. split; [|intros m Hm]; apply list_elem_of_bind; exists h; (split; [|done]); unfold mrefs.
  - by left.
  - rewrite Hm. right. by left.
Qed.

Lemma MJ_refs tbl n own ownf s : MJ tbl n (own ≫= mrefs) [] s -> mount_refs n own ownf s.
Proof. intros [Ht HI]. unfold mount_refs. by rewrite Ht. Qed.

Lemma refs_bind (o : option MountFsINode) own : (option_list o ≫= mrefs) ++ (own ≫= mrefs) = (option_list o ++ own) ≫= mrefs.
Proof. destruct o; [|done]. simpl. by rewrite app_nil_r. Qed.

Ltac back := intros; eapply MJ_refs; lazymatch goal with HJ : _ |- _ => exact HJ end.

Ltac via := intros n own ownf s h; intros; eapply wp_mono; [eapply via_inode_quiet; [done|by apply held_refs|]|..];
  [by intros; apply rl_read||apply rl_write||apply rl_unlink||apply rl_rename||apply rl_truncate|back..].

#[export] Instance mount_ref_laws : RefLaws (H := mount_inodes main_fs) mount_refs.
Proof.
  split; cbn [v_root v_sync v_read v_write v_metadata v_create v_unlink v_rename v_get_dirents v_try_lookup v_truncate v_clone v_drop v_clone_fs v_drop_fs mount_inodes].
  - intros n own own' ownf ownf' s Ho _ HJ. eapply MJ_perm, HJ. by rewrite Ho.
  - intros n own ownf s HJ. by apply MJ_less.
  - intros n own ownf s [] HJ _. eapply wp_mono; [by apply mount_root_MJ|..]; back.
  - intros n own ownf s [] HJ _. eapply wp_mono; [by apply mount_sync_MJ|..]; back.
  - via.
  - intros n own ownf s h off buf HJ Hh. eapply wp_mono; [eapply (via_inode_MJ _ _ _ _ _ _ _ (fun k => 0 <= k)); [done|by apply held_refs|]|..].
    + intros. by apply rl_write.
    + intros k s' [? ?]. split; [done|back].
    + back.
  - intros n own ownf s h HJ Hh. eapply wp_mono; [eapply (via_inode_MJ _ _ _ _ _ _ _ (fun st => st_typ st <> USymlink)); [done|by apply held_refs|]|..].
    + intros. by apply rl_metadata.
    + intros k s' [? ?]. split; [done|back].
    + back.
  - intros n own ownf s h name typ HJ Hh Hn. destruct (held_refs h own Hh).
    eapply wp_mono; [by eapply m_create_MJ|..]; back.
  - intros n own ownf s h name HJ Hh. destruct (held_refs h own Hh).
    eapply wp_mono; [by eapply m_unlink_MJ|..]; back.
  - via.
  - intros n own ownf s h off room HJ Hh Ho. eapply wp_mono; [eapply (via_inode_MJ _ _ _ _ _ _ _ (fun res => 0 <= res.1)); [done|by apply held_refs|]|..].
    + intros. by apply rl_dirents.
    + intros k s' [? ?]. split; [done|back].
    + back.
  - intros n own ownf s h name HJ Hh. destruct (held_refs h own Hh).
    eapply wp_mono; [by eapply m_try_lookup_MJ|..].
    + intros o s' HJ'. eapply MJ_refs. rewrite <- refs_bind. exact HJ'.
    + back.
  - via.
  - intros n own ownf s h HJ Hh. destruct (held_refs h own Hh) as [Hi Hr]. unfold m_clone. eapply MJ_refs.
    destruct (raw_inode h) as [m|] eqn:Hm.
    + change (update_below _ s) with (update_below (v_clone m) (update_below (v_clone (m_inner h)) s)).
      eapply MJ_perm; [|apply MJ_clone; [|apply MJ_clone; [exact Hi|exact HJ]]].
      * simpl. unfold mrefs at 2. rewrite Hm. constructor.
      * right. by apply Hr.
    + eapply MJ_perm; [|apply MJ_clone; [exact Hi|exact HJ]]. simpl. unfold mrefs at 2. by rewrite Hm.
  - intros n own ownf s h HJ. unfold m_drop. eapply MJ_refs. unfold mount_refs in HJ. simpl in HJ. unfold mrefs at 1 in HJ.
    destruct (raw_inode h) as [m|].
    + change (update_below _ s) with (update_below (v_drop m) (update_below (v_drop (m_inner h)) s)). by do 2 apply MJ_drop.
    + by apply MJ_drop.
  - done.
  - done.
Qed.
End refs.
