(* ===== verification/Fcntl.v ===== *)
(** * Files, descriptors and the file system calls
      (src/kernel/src/fs/{fcntl,file,pathname,mod}.rs, src/kernel/src/syscall/fs.rs,
       the descriptor table of src/kernel/src/proc/task.rs,
       src/ulib/rw_ulib_types/src/fcntl.rs)

    The state is that of the file systems and of the pipes, with the working
    directory and the open files of the current task.  The file systems are
    any implementation of the inode interface; pipes are a class, since the
    calls block ([Pipe] models them).  An open file is behind an [Arc] that is
    shared only for the time of a call, so it is kept in the table itself. *)

From S2P Require Import Prelude Bytes Path Vfs Dir EfsVfs InodeOps Pathname.
Import Vfs.

#[local] Open Scope Z_scope.
#[local] Open Scope rw_scope.

(** ** [OpenFlags] *)

Definition RDONLY : Z := 0.
Definition WRONLY : Z := 1.
Definition RDWR : Z := 2.
Definition CREAT : Z := 64.
Definition EXCL : Z := 128.
Definition TRUNC : Z := 512.
Definition APPEND : Z := 1024.

(** The methods of the [bitflags] crate. *)
Definition contains (self other : Z) : bool := Z.land self other =? other.
Definition intersects (self other : Z) : bool := negb (Z.land self other =? 0).
Definition all_flags : Z := Z.lor (Z.lor (Z.lor WRONLY RDWR) (Z.lor CREAT EXCL)) (Z.lor TRUNC APPEND).
Definition from_bits (bits : Z) : option Z := if Z.land bits all_flags =? bits then Some bits else None.

Definition access_mode (flags : Z) : Z := Z.land flags 3.
Definition flags_writable (flags : Z) : bool := intersects flags (Z.lor WRONLY RDWR).
Definition flags_readable (flags : Z) : bool := contains flags RDWR || (access_mode flags =? RDONLY).

Definition is_valid (flags : Z) : bool :=
  if intersects flags (Z.lor (Z.lor TRUNC CREAT) APPEND) && negb (flags_writable flags) then false
  else if contains flags EXCL && negb (contains flags CREAT) then false
  else true.

Inductive SeekFrom : Type := SeekSet | SeekCurrent | SeekEnd.

(** [SeekFrom::try_from] *)
Definition seek_from (whence : Z) : option SeekFrom :=
  if whence =? 0 then Some SeekSet else if whence =? 1 then Some SeekCurrent
  else if whence =? 2 then Some SeekEnd else None.

Definition MAX_OPEN_FILES : nat := 20.

(** The operations of [SharedPipe] on the state [X] of the pipes; the two
    ends of a new pipe. *)
Class Pipes (X Pi : Type) : Type := {
  pipe_read : Pi -> Z -> M X Sys.SysErrorKind (list Z);
  pipe_write : Pi -> list Z -> M X Sys.SysErrorKind Z;
  pipe_create : M X Sys.SysErrorKind (Pi * Pi);
  pipe_clone : Pi -> X -> X;
  pipe_drop : Pi -> X -> X
}.

Section fcntl.
Context {W F R X Pi : Type} `{VfsINodeOps W F R} `{Pipes X Pi}.

Inductive FileKind : Type :=
| FPipe (p : Pi)
| FInode (inode : R) (offset : Z).

Record File : Type := mkFile { writable : bool; readable : bool; f_kind : FileKind }.

(** The fields of [TaskInner] that belong to files. *)
Record Task : Type := mkTask { cwd : option R; o_files : list (option File) }.

(** [current] is [None] when no task runs. *)
Record kernel : Type := mkKernel { world : W; pipes : X; current : option Task }.

#[local] Notation KM := (M kernel Sys.SysErrorKind).
#[local] Notation FM := (M kernel FsErrorKind).

(** [current_fs()] *)
Variable fs : F.

(** ** Plumbing *)

Definition map_err {S E E' A} (f : E -> E') (m : M S E A) : M S E' A :=
  fun s => let (o, s') := m s in
           (match o with Ok a => Ok a | Err e => Err (f e) | Panic => Panic end, s').

Definition on_world {E A} (m : M W E A) : M kernel E A :=
  fun k => let (o, w') := m (world k) in (o, mkKernel w' (pipes k) (current k)).
Definition on_pipes {E A} (m : M X E A) : M kernel E A :=
  fun k => let (o, x') := m (pipes k) in (o, mkKernel (world k) x' (current k)).

(** [?] on a result of the file systems in a function of the kernel. *)
Definition sys {A} (m : FM A) : KM A := map_err to_sys_error m.

Definition update_world (f : W -> W) (k : kernel) : kernel := mkKernel (f (world k)) (pipes k) (current k).
Definition update_pipes (f : X -> X) (k : kernel) : kernel := mkKernel (world k) (f (pipes k)) (current k).

(** The inode [r] goes out of scope after [m], or when [m] fails. *)
Definition scoped_k {E A} (r : R) (m : M kernel E A) : M kernel E A :=
  fun k => let (o, k') := m k in (o, update_world (v_drop r) k').
Definition guarded {E A} (r : R) (m : M kernel E A) : M kernel E A :=
  fun k => match m k with
           | (Err e, k') => (Err e, update_world (v_drop r) k')
           | res => res
           end.

Definition clone_kind (fk : FileKind) : kernel -> kernel :=
  match fk with FPipe p => update_pipes (pipe_clone p) | FInode r _ => update_world (v_clone r) end.
Definition drop_kind (fk : FileKind) : kernel -> kernel :=
  match fk with FPipe p => update_pipes (pipe_drop p) | FInode r _ => update_world (v_drop r) end.
Definition drop_file (f : File) : KM unit := modify (drop_kind (f_kind f)).
Definition drop_file_opt (o : option File) : KM unit :=
  match o with Some f => drop_file f | None => ret tt end.

Definition current_task_or_err : KM Task :=
  fun k => match current k with Some t => (Ok t, k) | None => (Err Sys.IOError, k) end.
Definition set_task (t : Task) : KM unit := modify (fun k => mkKernel (world k) (pipes k) (Some t)).

(** ** Path names *)

Definition current_task_inode : KM R :=
  do t <- current_task_or_err;
  match cwd t with
  | Some r => modify (update_world (v_clone r));; ret r
  | None => sys (on_world (v_root fs))
  end.

Definition try_lookup (pathname : list Z) : FM (option R) :=
  do parent <- (if Path.is_absolute pathname then on_world (v_root fs)
                else map_err (fun _ => IOError) current_task_inode);
  on_world (try_ilookup parent pathname).

Definition lookup (pathname : list Z) : FM R :=
  do o <- try_lookup pathname; ok_or o NoSuchFileOrDirectory.

Definition lookup_parent (pathname : list Z) : FM R :=
  match Path.next_back (Path.Components_new pathname) with
  | (Some Path.CurDir, _) => lookup dotdot
  | (Some Path.ParentDir, _) => do dir_inode <- lookup pathname; on_world (ilookup dir_inode dotdot)
  | (Some (Path.Normal _), parent) => lookup (Path.as_path parent)
  | (Some Path.RootDir, _) | (None, _) => fail NoSuchFileOrDirectory
  end.

(** [path.components().next_back()] *)
Definition last_comp (pathname : list Z) : option Path.Component :=
  (Path.next_back (Path.Components_new pathname)).1.

(** ** [File] *)

Definition with_inode (inode : R) (flags : Z) : File :=
  mkFile (flags_writable flags) (flags_readable flags) (FInode inode 0).
Definition with_pipe (p : Pi) (flags : Z) : File :=
  mkFile (flags_writable flags) (flags_readable flags) (FPipe p).

(** The clone of an inode file starts at the offset of the original and has
    an offset of its own. *)
Definition dup (f : File) : KM File :=
  modify (clone_kind (f_kind f));; ret f.

(** [*offset.lock() += len]: the position is a [u64], which wraps around. *)
Definition advance (offset len : Z) : Z := (offset + len) mod 2 ^ 64.

Definition kind_read (fk : FileKind) (len : Z) : KM (list Z * FileKind) :=
  match fk with
  | FPipe p => do b <- on_pipes (pipe_read p len); ret (b, fk)
  | FInode r offset => do b <- sys (on_world (v_read r offset len)); ret (b, FInode r (advance offset (zlen b)))
  end.

Definition kind_write (fk : FileKind) (buf : list Z) : KM (Z * FileKind) :=
  match fk with
  | FPipe p => do n <- on_pipes (pipe_write p buf); ret (n, fk)
  | FInode r offset => do n <- sys (on_world (v_write r offset buf)); ret (n, FInode r (advance offset n))
  end.

Definition i64_try_from (x : Z) : KM Z := if x <? 2 ^ 63 then ret x else fail Sys.InvalidArgument.
Definition checked_add (x y : Z) : KM Z :=
  if (- 2 ^ 63 <=? x + y) && (x + y <? 2 ^ 63) then ret (x + y) else fail Sys.InvalidArgument.

Definition calculate_offset (cur_pos offset : Z) (inode : R) (pos : SeekFrom) : KM Z :=
  do x <- match pos with
          | SeekSet => ret offset
          | SeekCurrent => do p <- i64_try_from cur_pos; checked_add p offset
          | SeekEnd =>
            do st <- sys (on_world (v_metadata inode));
            do p <- i64_try_from (st_size st);
            checked_add p offset
          end;
  if x <? 0 then fail Sys.InvalidArgument else ret x.

Definition kind_seek (fk : FileKind) (offset : Z) (whence : SeekFrom) : KM (Z * FileKind) :=
  match fk with
  | FPipe _ => fail Sys.Unsupported
  | FInode r cur => do off <- map_err (fun _ => Sys.InvalidArgument) (calculate_offset cur offset r whence); ret (off, FInode r off)
  end.

Definition kind_get_dirents (fk : FileKind) (room : Z) : KM (list Dirent * FileKind) :=
  match fk with
  | FPipe _ => fail Sys.Unsupported
  | FInode r offset => do res <- sys (on_world (v_get_dirents r offset room)); ret (res.2, FInode r (advance offset res.1))
  end.

Definition set_kind (f : File) (fk : FileKind) : File := mkFile (writable f) (readable f) fk.

(** An operation on the kind of a file, when the file allows it. *)
Definition on_kind {A} (allowed : bool) (op : FileKind -> KM (A * FileKind)) (f : File) : KM (A * File) :=
  if negb allowed then fail Sys.BadFileDescriptor
  else do res <- op (f_kind f); ret (res.1, set_kind f res.2).

Definition File_read (f : File) (len : Z) : KM (list Z * File) := on_kind (readable f) (fun fk => kind_read fk len) f.
Definition File_write (f : File) (buf : list Z) : KM (Z * File) := on_kind (writable f) (fun fk => kind_write fk buf) f.
Definition File_seek (f : File) (offset : Z) (whence : SeekFrom) : KM (Z * File) :=
  on_kind true (fun fk => kind_seek fk offset whence) f.
Definition File_get_dirents (f : File) (room : Z) : KM (list Dirent * File) :=
  on_kind (readable f) (fun fk => kind_get_dirents fk room) f.

(** ** The descriptor table *)

Definition get_file (fd : Z) : KM File :=
  do t <- current_task_or_err;
  match o_files t !! Z.to_nat fd with
  | Some (Some f) => ret f
  | _ => fail Sys.BadFileDescriptor
  end.

Fixpoint first_free (l : list (option File)) : option nat :=
  match l with
  | [] => None
  | None :: _ => Some 0%nat
  | Some _ :: l' => S <$> first_free l'
  end.

(** The file is dropped when there is no free entry. *)
Definition allocate_fd_for (f : File) : KM Z :=
  do t <- current_task_or_err;
  match first_free (o_files t) with
  | Some i => set_task (mkTask (cwd t) (<[i := Some f]> (o_files t)));; ret (Z.of_nat i)
  | None => drop_file f;; fail Sys.TooManyOpenFiles
  end.

(** The file that was in the entry is returned; a file for which there is no
    entry is dropped. *)
Definition set_file (fd : Z) (f : File) : KM (option File) :=
  do t <- current_task_or_err;
  match o_files t !! Z.to_nat fd with
  | Some old => set_task (mkTask (cwd t) (<[Z.to_nat fd := Some f]> (o_files t)));; ret old
  | None => drop_file f;; fail Sys.BadFileDescriptor
  end.

(** A call through a descriptor: the state of the file after it is that of
    the entry. *)
Definition on_file {A} (fd : Z) (op : File -> KM (A * File)) : KM A :=
  do f <- get_file fd;
  do res <- op f;
  do t <- current_task_or_err;
  set_task (mkTask (cwd t) (<[Z.to_nat fd := Some res.2]> (o_files t)));;
  ret res.1.

Fixpoint dup_each (l : list (option File)) : KM (list (option File)) :=
  match l with
  | [] => ret []
  | None :: l' => do r <- dup_each l'; ret (None :: r)
  | Some f :: l' => do f' <- dup f; do r <- dup_each l'; ret (Some f' :: r)
  end.

(** [copy_o_files] and [copy_cwd] for a new task, whose table is empty. *)
Definition inherit (parent : Task) : KM Task :=
  do files <- dup_each (o_files parent);
  match cwd parent with
  | Some r => modify (update_world (v_clone r));; ret (mkTask (Some r) files)
  | None => ret (mkTask None files)
  end.

(** The part of [exit] that releases the open files and the working directory. *)
Fixpoint drop_each (l : list (option File)) : KM unit :=
  match l with
  | [] => ret tt
  | o :: l' => drop_file_opt o;; drop_each l'
  end.

Definition release_files : KM unit :=
  do t <- current_task_or_err;
  set_task (mkTask None (replicate MAX_OPEN_FILES None));;
  drop_each (o_files t);;
  match cwd t with
  | Some r => modify (update_world (v_drop r))
  | None => ret tt
  end.

(** ** [fcntl] *)

Definition open_inode (pathname : list Z) (flags : Z) : KM (R * bool) :=
  if negb (is_valid flags) then fail Sys.InvalidArgument else
  match last_comp pathname with
  | Some Path.RootDir => do r <- sys (on_world (v_root fs)); ret (r, true)
  | Some Path.CurDir => do r <- current_task_inode; ret (r, true)
  | Some Path.ParentDir => do r <- sys (lookup pathname); ret (r, true)
  | Some (Path.Normal name) =>
    do name <- sys (of_outcome (ValidFileName_try_from name));
    do parent <- sys (lookup_parent pathname);
    scoped_k parent (
      do o <- sys (on_world (v_try_lookup parent name));
      match o with
      | Some inode => ret (inode, true)
      | None =>
        if negb (contains flags CREAT) then fail Sys.NoSuchFileOrDirectory
        else if Path.is_dir pathname then fail Sys.IsADirectory
        else do new_inode <- sys (on_world (v_create parent name RegularFile)); ret (new_inode, false)
      end)
  | None => fail Sys.NoSuchFileOrDirectory
  end.

Definition check_file_type_for_open (t : UFileType) (flags : Z) (path : list Z) : KM unit :=
  match t with
  | RegularFile => if Path.is_dir path then fail Sys.NotADirectory else ret tt
  | UDevice =>
    if Path.is_dir path then fail Sys.NotADirectory
    else if intersects flags (Z.lor CREAT TRUNC) then fail Sys.InvalidArgument else ret tt
  | UDirectory =>
    if negb (access_mode flags =? RDONLY) || intersects flags (Z.lor (Z.lor CREAT TRUNC) APPEND)
    then fail Sys.IsADirectory else ret tt
  | USymlink => panic
  end.

Definition open (pathname : list Z) (flags : Z) : KM Z :=
  do res <- open_inode pathname flags;
  let inode := res.1 in
  let already_exists := res.2 in
  do file <- guarded inode (
    (if already_exists && contains flags (Z.lor EXCL CREAT) then fail Sys.AlreadyExists else ret tt);;
    do t <- sys (on_world (file_type inode));
    check_file_type_for_open t flags pathname;;
    (if already_exists && contains flags TRUNC then sys (on_world (v_truncate inode 0));; ret tt else ret tt);;
    if contains flags APPEND
    then do sk <- File_seek (with_inode inode flags) 0 SeekEnd; ret sk.2
    else ret (with_inode inode flags));
  do t <- catch current_task_or_err (fun e => drop_file file;; fail e);
  allocate_fd_for file.

Definition close (fd : Z) : KM unit :=
  do t <- current_task_or_err;
  match o_files t !! Z.to_nat fd with
  | Some (Some f) => set_task (mkTask (cwd t) (<[Z.to_nat fd := None]> (o_files t)));; drop_file f
  | _ => fail Sys.BadFileDescriptor
  end.

Definition read (fd len : Z) : KM (list Z) := on_file fd (fun f => File_read f len).
Definition write (fd : Z) (buf : list Z) : KM Z := on_file fd (fun f => File_write f buf).
Definition seek (fd offset : Z) (whence : SeekFrom) : KM Z := on_file fd (fun f => File_seek f offset whence).
Definition get_dirents (fd room : Z) : KM (list Dirent) := on_file fd (fun f => File_get_dirents f room).

(** Looking the last component up in the parent: [ilookup] takes a reference
    of its own. *)
Definition lookup_child (parent : R) (name : list Z) : KM R :=
  modify (update_world (v_clone parent));; sys (on_world (ilookup parent name)).

Definition rmdir (pathname : list Z) : KM unit :=
  match last_comp pathname with
  | Some Path.RootDir => fail Sys.NotEmpty
  | Some Path.CurDir => fail Sys.InvalidArgument
  | Some Path.ParentDir => do r <- sys (lookup pathname); scoped_k r (ret tt);; fail Sys.NotEmpty
  | Some (Path.Normal name) =>
    do parent <- sys (lookup_parent pathname);
    scoped_k parent (
      do child <- lookup_child parent name;
      scoped_k child (
        do d <- sys (on_world (is_directory child));
        if negb d then fail Sys.NotADirectory else
        do name <- sys (of_outcome (ValidFileName_try_from name));
        sys (on_world (v_unlink parent name))))
  | None => fail Sys.NoSuchFileOrDirectory
  end.

Definition mkdir (pathname : list Z) : KM unit :=
  match last_comp pathname with
  | Some Path.RootDir => fail Sys.AlreadyExists
  | Some Path.CurDir | Some Path.ParentDir =>
    do o <- sys (try_lookup pathname);
    match o with
    | Some r => scoped_k r (fail Sys.AlreadyExists)
    | None => fail Sys.NoSuchFileOrDirectory
    end
  | Some (Path.Normal name) =>
    do parent_inode <- sys (lookup_parent pathname);
    scoped_k parent_inode (
      do name <- sys (of_outcome (ValidFileName_try_from name));
      do r <- sys (on_world (v_create parent_inode name UDirectory));
      scoped_k r (ret tt))
  | None => fail Sys.NoSuchFileOrDirectory
  end.

Definition unlink (pathname : list Z) : KM unit :=
  match last_comp pathname with
  | Some Path.RootDir => fail Sys.IsADirectory
  | Some Path.CurDir | Some Path.ParentDir =>
    do r <- sys (lookup pathname); scoped_k r (ret tt);; fail Sys.IsADirectory
  | Some (Path.Normal name) =>
    do parent <- sys (lookup_parent pathname);
    scoped_k parent (
      do child <- lookup_child parent name;
      scoped_k child (
        sys (on_world (check_type_is_file child));;
        do name <- sys (of_outcome (ValidFileName_try_from name));
        sys (on_world (v_unlink parent name))))
  | None => fail Sys.NoSuchFileOrDirectory
  end.

Definition stat (pathname : list Z) : KM Stat :=
  do inode <- sys (lookup pathname);
  scoped_k inode (sys (on_world (v_metadata inode))).

Definition cd (pathname : list Z) : KM unit :=
  do _ <- current_task_or_err;
  do inode <- sys (lookup pathname);
  guarded inode (
    do d <- sys (on_world (is_directory inode));
    if negb d then fail Sys.NotADirectory else
    do t <- current_task_or_err;
    set_task (mkTask (Some inode) (o_files t));;
    match cwd t with
    | Some old => modify (update_world (v_drop old))
    | None => ret tt
    end).

Definition dup2 (src_fd dst_fd : Z) : KM unit :=
  do f <- get_file src_fd;
  do f' <- dup f;
  do old <- set_file dst_fd f';
  drop_file_opt old.

Definition sync : KM unit := sys (on_world (v_sync fs)).

(** The two descriptors.  A table with room for one more file only has the
    entry of the read end cleared again. *)
Definition pipe : KM (Z * Z) :=
  do _ <- current_task_or_err;
  do ends <- on_pipes pipe_create;
  let read_end_file := with_pipe ends.1 RDONLY in
  let write_end_file := with_pipe ends.2 WRONLY in
  do fd0 <- catch (allocate_fd_for read_end_file) (fun e => drop_file write_end_file;; fail e);
  do fd1 <- catch (allocate_fd_for write_end_file)
    (fun e =>
       do t <- current_task_or_err;
       set_task (mkTask (cwd t) (<[Z.to_nat fd0 := None]> (o_files t)));;
       drop_file read_end_file;;
       fail e);
  ret (fd0, fd1).

(** ** The system calls *)

Definition sys_open (pathname : list Z) (flags : Z) : KM Z :=
  do flags <- ok_or (from_bits flags) Sys.InvalidArgument;
  do fd <- open pathname flags;
  sync;; ret fd.
Definition sys_close (fd : Z) : KM Z := close fd;; ret 0.
Definition sys_read (fd len : Z) : KM (list Z) := read fd len.
Definition sys_write (fd : Z) (buf : list Z) : KM Z := do n <- write fd buf; sync;; ret n.
Definition sys_seek (fd offset whence : Z) : KM Z :=
  do w <- ok_or (seek_from whence) Sys.InvalidArgument; seek fd offset w.
Definition sys_rmdir (pathname : list Z) : KM Z := rmdir pathname;; sync;; ret 0.
Definition sys_mkdir (pathname : list Z) : KM Z := mkdir pathname;; sync;; ret 0.
Definition sys_unlink (pathname : list Z) : KM Z := unlink pathname;; sync;; ret 0.
Definition sys_getdirents (fd room : Z) : KM (list Dirent) := get_dirents fd room.
Definition sys_stat (pathname : list Z) : KM Stat := stat pathname.
Definition sys_sync : KM Z := sync;; ret 0.
Definition sys_pipe : KM (Z * Z) := pipe.
Definition sys_cd (pathname : list Z) : KM Z := cd pathname;; ret 0.
Definition sys_dup2 (src_fd dst_fd : Z) : KM Z := dup2 src_fd dst_fd;; ret 0.

End fcntl.

Arguments FileKind : clear implicits.
Arguments File : clear implicits.
Arguments Task : clear implicits.
Arguments kernel : clear implicits.
