(* ===== verification/FcntlRefs.v ===== *)
(** * References held by the descriptors of a task

    The calls of [Fcntl] keep account of references: the inodes and pipe ends
    held are those of the working directory and of the open files, besides
    the ones in hand during a call.  The statements hold over every
    implementation of the inode interface and of pipes that keeps the laws on
    references: a call, whether it succeeds or fails, leaves held what the
    current task holds, and does not panic. *)

From S2P Require Import Prelude Bytes Path Vfs Dir EfsVfs InodeOps Pathname InodeRefs Fcntl.
Import Vfs.

#[local] Open Scope Z_scope.
#[local] Open Scope rw_scope.

(** Pipes: [J ps x] when the ends [ps] are held. *)
Class PipeLaws {X Pi : Type} `{Pipes X Pi} (J : list Pi -> X -> Prop) : Prop := {
  pl_perm ps ps' x : ps ≡ₚ ps' -> J ps x -> J ps' x;
  pl_read ps x p len : J ps x -> p ∈ ps -> wp (pipe_read p len) (fun _ => J ps) (fun _ => J ps) x;
  pl_write ps x p buf : J ps x -> p ∈ ps -> wp (pipe_write p buf) (fun _ => J ps) (fun _ => J ps) x;
  pl_create ps x : J ps x -> wp pipe_create (fun e => J (e.1 :: e.2 :: ps)) (fun _ => J ps) x;
  pl_clone ps x p : J ps x -> p ∈ ps -> J (p :: ps) (pipe_clone p x);
  pl_drop ps x p : J (p :: ps) x -> J ps (pipe_drop p x)
}.

Lemma bind_insert_perm {A B} (g : A -> list B) (l : list A) i a b : l !! i = Some a ->
  g a ++ (<[i := b]> l ≫= g) ≡ₚ g b ++ (l ≫= g).
Proof.
  revert i. induction l as [|x l IH]; intros [|i] Hi; try done; simpl in *.
  - simplify_eq. rewrite !app_assoc. by rewrite (Permutation_app_comm (g a)).
  - rewrite !(Permutation_app_comm (g x)), !app_assoc. by rewrite (IH i Hi).
Qed.

Lemma bind_insert_same {A B} (g : A -> list B) (l : list A) i a b : l !! i = Some a -> g b = g a ->
  <[i := b]> l ≫= g = l ≫= g.
Proof.
  intros Hi Hg. revert i Hi. induction l as [|x l IH]; intros [|i] Hi; try done; simpl in *; [simplify_eq; by rewrite Hg|by rewrite IH].
Qed.

Section refs.
Context {W F R X Pi : Type} `{VfsINodeOps W F R} `{Pipes X Pi}.
Context (I : nat -> list R -> list F -> W -> Prop) `{!RefLaws I} (J : list Pi -> X -> Prop) `{!PipeLaws J}.
Context (fs : F) (ownf : list F) (Hfs : fs ∈ ownf).

#[local] Notation FileKind := (FileKind R Pi).
#[local] Notation File := (File R Pi).
#[local] Notation Task := (Task R Pi).
#[local] Notation kernel := (kernel W R X Pi).
#[local] Notation KM := (M kernel Sys.SysErrorKind).
#[local] Notation FM := (M kernel FsErrorKind).
Implicit Types (n : nat) (r : R) (er : list R) (p : Pi) (ep : list Pi) (f : File) (fk : FileKind) (t : Task) (c : option Task) (k : kernel).

(** ** What is held *)

Definition kind_inodes fk : list R := match fk with FInode r _ => [r] | FPipe _ => [] end.
Definition kind_pipes fk : list Pi := match fk with FPipe p => [p] | FInode _ _ => [] end.
Definition entry_inodes (o : option File) : list R := match o with Some f => kind_inodes (f_kind f) | None => [] end.
Definition entry_pipes (o : option File) : list Pi := match o with Some f => kind_pipes (f_kind f) | None => [] end.

Definition task_inodes t : list R := option_list (cwd t) ++ (o_files t ≫= entry_inodes).
Definition task_pipes t : list Pi := o_files t ≫= entry_pipes.
Definition inodes_of c : list R := match c with Some t => task_inodes t | None => [] end.
Definition pipes_of c : list Pi := match c with Some t => task_pipes t | None => [] end.

Definition kind_ok fk : Prop := match fk with FInode _ off => 0 <= off | FPipe _ => True end.
Definition entry_ok (o : option File) : Prop := match o with Some f => kind_ok (f_kind f) | None => True end.

(** The table has its fixed length, and offsets are not negative. *)
Definition task_ok t : Prop := length (o_files t) = MAX_OPEN_FILES /\ Forall entry_ok (o_files t).
Definition cur_ok c : Prop := match c with Some t => task_ok t | None => True end.

(** [er] and [ep] are in hand; [c] is the current task. *)
Definition KK c n er ep k : Prop :=
  current k = c /\ I n (er ++ inodes_of c) ownf (world k) /\ J (ep ++ pipes_of c) (pipes k).

Definition KI n er ep k : Prop := cur_ok (current k) /\ KK (current k) n er ep k.

Lemma KK_perm c n er er' ep ep' k : er ≡ₚ er' -> ep ≡ₚ ep' -> KK c n er ep k -> KK c n er' ep' k.
Proof.
  intros Hr Hp (Hc & HI & HJ). split; [done|]. split; [eapply rl_perm, HI; [by rewrite Hr|done]|]. eapply pl_perm, HJ. by rewrite Hp.
Qed.

Lemma KK_less c n er ep k : KK c (S n) er ep k -> KK c n er ep k.
Proof. intros (Hc & HI & HJ). split; [done|]. split; [by apply rl_less|done]. Qed.

Lemma KK_drop c n er ep k r : KK c n (r :: er) ep k -> KK c n er ep (update_world (v_drop r) k).
Proof. intros (Hc & HI & HJ). split; [done|]. split; [by apply rl_drop|done]. Qed.

Lemma KK_clone c n er ep k r : r ∈ er ++ inodes_of c -> KK c n er ep k -> KK c n (r :: er) ep (update_world (v_clone r) k).
Proof. intros Hr (Hc & HI & HJ). split; [done|]. split; [by apply rl_clone|done]. Qed.

Lemma KK_drop_pipe c n er ep k p : KK c n er (p :: ep) k -> KK c n er ep (update_pipes (pipe_drop p) k).
Proof. intros (Hc & HI & HJ). split; [done|]. split; [done|by apply pl_drop]. Qed.

Lemma KK_clone_pipe c n er ep k p : p ∈ ep ++ pipes_of c -> KK c n er ep k -> KK c n er (p :: ep) (update_pipes (pipe_clone p) k).
Proof. intros Hp (Hc & HI & HJ). split; [done|]. split; [done|by apply pl_clone]. Qed.

Lemma KK_drop_kind c n er ep k fk : KK c n (kind_inodes fk ++ er) (kind_pipes fk ++ ep) k -> KK c n er ep (drop_kind fk k).
Proof. destruct fk; [apply KK_drop_pipe|apply KK_drop]. Qed.

Lemma KK_clone_kind c n er ep k fk : kind_inodes fk ⊆ er ++ inodes_of c -> kind_pipes fk ⊆ ep ++ pipes_of c ->
  KK c n er ep k -> KK c n (kind_inodes fk ++ er) (kind_pipes fk ++ ep) (clone_kind fk k).
Proof.
  destruct fk; intros Hi Hp HK; [apply KK_clone_pipe|apply KK_clone]; try done; [apply Hp|apply Hi]; by left.
Qed.

(** ** Rules *)

Lemma wp_world {E A} (m : M W E A) c n er ep k Q K : KK c n er ep k ->
  wp m (fun a w' => Q a (mkKernel w' (pipes k) c)) (fun e w' => K e (mkKernel w' (pipes k) c)) (world k) -> wp (on_world m) Q K k.
Proof. intros [Hc _]. unfold wp, on_world. rewrite Hc. by destruct (m (world k)) as [[] w']. Qed.

Lemma wp_pipes {E A} (m : M X E A) c n er ep k Q K : KK c n er ep k ->
  wp m (fun a x' => Q a (mkKernel (world k) x' c)) (fun e x' => K e (mkKernel (world k) x' c)) (pipes k) -> wp (on_pipes m) Q K k.
Proof. intros [Hc _]. unfold wp, on_pipes. rewrite Hc. by destruct (m (pipes k)) as [[] x']. Qed.

Lemma wp_sys {A} (m : FM A) Q (K : kernel -> Prop) k : wp m Q (fun _ => K) k -> wp (sys m) Q (fun _ => K) k.
Proof. unfold wp, sys, map_err. by destruct (m k) as [[] k']. Qed.

Lemma wp_map_err {E E' A} (g : E -> E') (m : M kernel E A) Q (K : kernel -> Prop) k : wp m Q (fun _ => K) k -> wp (map_err g m) Q (fun _ => K) k.
Proof. unfold wp, map_err. by destruct (m k) as [[] k']. Qed.

Lemma wp_scoped_k {E A} r (m : M kernel E A) Q K k :
  wp m (fun a k' => Q a (update_world (v_drop r) k')) (fun e k' => K e (update_world (v_drop r) k')) k -> wp (scoped_k r m) Q K k.
Proof. unfold wp, scoped_k. by destruct (m k) as [[] k']. Qed.

Lemma wp_guarded {E A} r (m : M kernel E A) Q K k :
  wp m Q (fun e k' => K e (update_world (v_drop r) k')) k -> wp (guarded r m) Q K k.
Proof. unfold wp, guarded. by destruct (m k) as [[] k']. Qed.

Lemma wp_current c n er ep k Q (K : Sys.SysErrorKind -> kernel -> Prop) : KK c n er ep k ->
  match c with Some t => Q t k | None => K Sys.IOError k end -> wp current_task_or_err Q K k.
Proof. intros [Hc _]. unfold wp, current_task_or_err. rewrite Hc. by destruct c. Qed.

(** ** Operations of the file systems *)

Ltac below law := intros HK; intros; eapply wp_world; [exact HK|]; destruct HK as (Hc & HI & HJ);
  eapply wp_mono; [eapply law; [exact HI|done..]|..]; unfold KK; naive_solver.

Lemma root_KK c n er ep k : KK c n er ep k ->
  wp (on_world (v_root fs)) (fun r => KK c n (r :: er) ep) (fun _ => KK c n er ep) k.
Proof. below rl_root. Qed.

Lemma sync_KK c n er ep k : KK c n er ep k ->
  wp (on_world (v_sync fs)) (fun _ => KK c n er ep) (fun _ => KK c n er ep) k.
Proof. below rl_sync. Qed.

Lemma read_KK c n er ep k r off len : KK c n er ep k -> r ∈ er ++ inodes_of c ->
  wp (on_world (v_read r off len)) (fun _ => KK c n er ep) (fun _ => KK c n er ep) k.
Proof. below rl_read. Qed.

Lemma write_KK c n er ep k r off buf : KK c n er ep k -> r ∈ er ++ inodes_of c ->
  wp (on_world (v_write r off buf)) (fun i k' => 0 <= i /\ KK c n er ep k') (fun _ => KK c n er ep) k.
Proof. below rl_write. Qed.

Lemma truncate_KK c n er ep k r size : KK c n er ep k -> r ∈ er ++ inodes_of c ->
  wp (on_world (v_truncate r size)) (fun _ => KK c n er ep) (fun _ => KK c n er ep) k.
Proof. below rl_truncate. Qed.

Lemma metadata_KK c n er ep k r : KK c n er ep k -> r ∈ er ++ inodes_of c ->
  wp (on_world (v_metadata r)) (fun _ => KK c n er ep) (fun _ => KK c n er ep) k.
Proof. below rl_metadata. Qed.

Lemma dirents_KK c n er ep k r off room : KK c n er ep k -> r ∈ er ++ inodes_of c -> 0 <= off ->
  wp (on_world (v_get_dirents r off room)) (fun res k' => 0 <= res.1 /\ KK c n er ep k') (fun _ => KK c n er ep) k.
Proof. below rl_dirents. Qed.

Lemma v_lookup_KK c n er ep k r name : KK c n er ep k -> r ∈ er ++ inodes_of c ->
  wp (on_world (v_try_lookup r name)) (fun o => KK c n (option_list o ++ er) ep) (fun _ => KK c n er ep) k.
Proof.
  intros HK Hr. eapply wp_world; [exact HK|]. destruct HK as (Hc & HI & HJ). eapply wp_mono; [by eapply rl_lookup|..].
  - intros o w' HI'. split; [done|]. split; [by rewrite <- app_assoc|done].
  - done.
Qed.

Lemma create_KK c n er ep k r name typ : KK c (S n) er ep k -> r ∈ er ++ inodes_of c -> zlen name <= 256 ->
  wp (on_world (v_create r name typ)) (fun i => KK c n (i :: er) ep) (fun _ => KK c n er ep) k.
Proof. below rl_create. Qed.

Lemma unlink_KK c n er ep k r name : KK c n er ep k -> r ∈ er ++ inodes_of c ->
  wp (on_world (v_unlink r name)) (fun _ => KK c n er ep) (fun _ => KK c n er ep) k.
Proof. below rl_unlink. Qed.

Lemma file_type_KK c n er ep k r : KK c n er ep k -> r ∈ er ++ inodes_of c ->
  wp (on_world (file_type r)) (fun ty k' => ty <> USymlink /\ KK c n er ep k') (fun _ => KK c n er ep) k.
Proof. below (file_type_refs I). Qed.

Lemma is_directory_KK c n er ep k r : KK c n er ep k -> r ∈ er ++ inodes_of c ->
  wp (on_world (is_directory r)) (fun _ => KK c n er ep) (fun _ => KK c n er ep) k.
Proof. below (is_directory_refs I). Qed.

Lemma check_type_KK c n er ep k r : KK c n er ep k -> r ∈ er ++ inodes_of c ->
  wp (on_world (check_type_is_file r)) (fun _ => KK c n er ep) (fun _ => KK c n er ep) k.
Proof. below (check_type_is_file_refs I). Qed.

Lemma ilookup_KK c n er ep k r path : KK c n (r :: er) ep k ->
  wp (on_world (ilookup r path)) (fun i => KK c n (i :: er) ep) (fun _ => KK c n er ep) k.
Proof. below (ilookup_refs I). Qed.

Lemma try_ilookup_KK c n er ep k r path : KK c n (r :: er) ep k ->
  wp (on_world (try_ilookup r path)) (fun o => KK c n (option_list o ++ er) ep) (fun _ => KK c n er ep) k.
Proof.
  intros HK. eapply wp_world; [exact HK|]. destruct HK as (Hc & HI & HJ). eapply wp_mono; [by eapply (try_ilookup_refs I)|..].
  - intros o w' HI'. split; [done|]. split; [by rewrite <- app_assoc|done].
  - done.
Qed.

(** ** Path names *)

Lemma current_task_inode_KK c n er ep k : KK c n er ep k ->
  wp (current_task_inode fs) (fun r => KK c n (r :: er) ep) (fun _ => KK c n er ep) k.
Proof.
  intros HK. apply wp_bind. eapply wp_current; [exact HK|]. destruct c as [t|]; [|done].
  destruct (cwd t) as [r|] eqn:Hr; [|by apply wp_sys, root_KK].
  apply wp_bind. apply KK_clone; [|done]. apply elem_of_app. right. simpl. unfold task_inodes. rewrite Hr. by left.
Qed.

Lemma try_lookup_KK c n er ep k path : KK c n er ep k ->
  wp (try_lookup fs path) (fun o => KK c n (option_list o ++ er) ep) (fun _ => KK c n er ep) k.
Proof.
  intros HK. apply wp_bind.
  eapply wp_mono with (Q := fun r => KK c n (r :: er) ep) (R := fun _ => KK c n er ep); [|by intros; apply try_ilookup_KK|done].
  destruct (Path.is_absolute path); [by apply root_KK|by apply wp_map_err, current_task_inode_KK].
Qed.

Lemma lookup_KK c n er ep k path : KK c n er ep k ->
  wp (lookup fs path) (fun r => KK c n (r :: er) ep) (fun _ => KK c n er ep) k.
Proof.
  intros HK. apply wp_bind. eapply wp_mono; [by apply try_lookup_KK| |done]. by intros [r|] k'.
Qed.

Lemma lookup_parent_KK c n er ep k path : KK c n er ep k ->
  wp (lookup_parent fs path) (fun r => KK c n (r :: er) ep) (fun _ => KK c n er ep) k.
Proof.
  intros HK. unfold lookup_parent. destruct (Path.next_back _) as [[[| | |name]|] rest]; try done.
  - by apply lookup_KK.
  - apply wp_bind. eapply wp_mono; [by apply lookup_KK| |done]. intros; by apply ilookup_KK.
  - by apply lookup_KK.
Qed.

Lemma wp_file_name {A} name (m : list Z -> KM A) Q (K : kernel -> Prop) k : K k ->
  (forall name', zlen name' <= 256 -> wp (m name') Q (fun _ => K) k) ->
  wp (do name' <- sys (of_outcome (ValidFileName_try_from name)); m name') Q (fun _ => K) k.
Proof.
  intros HK Hm. apply wp_bind, wp_sys. unfold wp at 1, of_outcome. pose proof (file_name_total name) as Hp.
  destruct (ValidFileName_try_from name) as [name'|e|] eqn:Hn; [|done|done]. apply Hm. by eapply file_name_length.
Qed.

(** ** Open files *)

Definition same_kind fk fk' : Prop := kind_inodes fk' = kind_inodes fk /\ kind_pipes fk' = kind_pipes fk /\ kind_ok fk'.

(** The file [fk] is held and the operation keeps what it holds. *)
Definition kind_held c er ep fk : Prop :=
  kind_inodes fk ⊆ er ++ inodes_of c /\ kind_pipes fk ⊆ ep ++ pipes_of c /\ kind_ok fk.

Definition keeps_kind {A} (op : FileKind -> KM (A * FileKind)) : Prop := forall c n er ep k fk,
  KK c n er ep k -> kind_held c er ep fk ->
  wp (op fk) (fun res k' => same_kind fk res.2 /\ KK c n er ep k') (fun _ => KK c n er ep) k.

Lemma held_inode c er ep r off : kind_held c er ep (FInode r off) -> r ∈ er ++ inodes_of c.
Proof. intros (Hi & _). apply Hi. by left. Qed.

Lemma held_pipe c er ep p : kind_held c er ep (FPipe p) -> p ∈ ep ++ pipes_of c.
Proof. intros (_ & Hp & _). apply Hp. by left. Qed.

Lemma advance_pos off len : 0 <= advance off len.
Proof. apply Z.mod_pos_bound. lia. Qed.

Lemma kind_read_keeps len : keeps_kind (fun fk => kind_read fk len).
Proof.
  intros c n er ep k [p|r off] HK Hh; apply wp_bind.
  - eapply wp_pipes; [exact HK|]. destruct HK as (Hc & HI & HJ).
    eapply wp_mono; [eapply pl_read; [exact HJ|by eapply held_pipe]|by repeat split|done].
  - apply wp_sys. eapply wp_mono; [eapply read_KK; [exact HK|by eapply held_inode]| |done].
    intros b k' HK'. split; [|done]. split; [done|]. split; [done|]. apply advance_pos.
Qed.

Lemma kind_write_keeps buf : keeps_kind (fun fk => kind_write fk buf).
Proof.
  intros c n er ep k [p|r off] HK Hh; apply wp_bind.
  - eapply wp_pipes; [exact HK|]. destruct HK as (Hc & HI & HJ).
    eapply wp_mono; [eapply pl_write; [exact HJ|by eapply held_pipe]|by repeat split|done].
  - apply wp_sys. eapply wp_mono; [eapply write_KK; [exact HK|by eapply held_inode]| |done].
    intros b k' [Hb HK']. split; [|done]. split; [done|]. split; [done|]. apply advance_pos.
Qed.

Lemma kind_dirents_keeps room : keeps_kind (fun fk => kind_get_dirents fk room).
Proof.
  intros c n er ep k [p|r off] HK Hh; [done|]. apply wp_bind, wp_sys.
  eapply wp_mono; [eapply dirents_KK; [exact HK|by eapply held_inode|apply Hh]| |done].
  intros b k' [Hb HK']. split; [|done]. split; [done|]. split; [done|]. apply advance_pos.
Qed.

Lemma i64_try_from_KK c n er ep k x : KK c n er ep k ->
  wp (i64_try_from x) (fun _ => KK c n er ep) (fun _ => KK c n er ep) k.
Proof. unfold i64_try_from. by destruct (_ <? _). Qed.

Lemma checked_add_KK c n er ep k x y : KK c n er ep k ->
  wp (checked_add x y) (fun _ => KK c n er ep) (fun _ => KK c n er ep) k.
Proof. unfold checked_add. by destruct (_ && _). Qed.

Lemma calculate_offset_KK c n er ep k cur off r whence : KK c n er ep k -> r ∈ er ++ inodes_of c ->
  wp (calculate_offset cur off r whence) (fun x k' => 0 <= x /\ KK c n er ep k') (fun _ => KK c n er ep) k.
Proof.
  intros HK Hr. apply wp_bind. eapply wp_mono with (Q := fun _ => KK c n er ep) (R := fun _ => KK c n er ep); [| |done].
  - assert (Hadd : forall a k', KK c n er ep k' ->
      wp (do v <- i64_try_from a; checked_add v off) (fun _ => KK c n er ep) (fun _ => KK c n er ep) k').
    { intros a k' HK'. apply wp_bind. eapply wp_mono; [by apply i64_try_from_KK| |done]. intros; by apply checked_add_KK. }
    destruct whence; [done|by apply Hadd|]. apply wp_bind, wp_sys.
    eapply wp_mono; [by apply metadata_KK| |done]. intros; by apply Hadd.
  - intros x k' HK'. destruct (Z.ltb_spec x 0); [done|]. split; [lia|done].
Qed.

Lemma kind_seek_keeps off whence : keeps_kind (fun fk => kind_seek fk off whence).
Proof.
  intros c n er ep k [p|r cur] HK Hh; [done|]. apply wp_bind, wp_map_err.
  eapply wp_mono; [eapply calculate_offset_KK; [exact HK|by eapply held_inode]| |done].
  intros x k' [Hx HK']. split; [done|exact HK'].
Qed.

Definition keeps_file {A} (op : File -> KM (A * File)) : Prop := forall c n er ep k f,
  KK c n er ep k -> kind_held c er ep (f_kind f) ->
  wp (op f) (fun res k' => same_kind (f_kind f) (f_kind res.2) /\ KK c n er ep k') (fun _ => KK c n er ep) k.

Lemma on_kind_keeps {A} (allowed : File -> bool) (op : FileKind -> KM (A * FileKind)) : keeps_kind op ->
  keeps_file (fun f => on_kind (allowed f) op f).
Proof.
  intros Hop c n er ep k f HK Hh. unfold on_kind. destruct (allowed f); [|done]. apply wp_bind.
  eapply wp_mono; [by apply Hop| |done]. by intros [a fk] k'.
Qed.

(** ** The descriptor table *)

Lemma KK_KI c n er ep k : cur_ok c -> KK c n er ep k -> KI n er ep k.
Proof. intros Hok HK. assert (Hc := proj1 HK). unfold KI. by rewrite Hc. Qed.

Lemma swap_perm {A} (a b er cw l l' : list A) : b ++ l' ≡ₚ a ++ l -> (a ++ er) ++ cw ++ l ≡ₚ (b ++ er) ++ cw ++ l'.
Proof.
  intros Hp. rewrite (Permutation_app_comm a), (Permutation_app_comm b), <- !app_assoc.
  by rewrite (Permutation_app_swap_app a), (Permutation_app_swap_app b), Hp.
Qed.

(** A new entry takes the file in hand and leaves the one it replaces. *)
Lemma KK_entry t i old new n er ep k : o_files t !! i = Some old ->
  KK (Some t) n (entry_inodes new ++ er) (entry_pipes new ++ ep) k ->
  let t' := mkTask (cwd t) (<[i := new]> (o_files t)) in
  KK (Some t') n (entry_inodes old ++ er) (entry_pipes old ++ ep) (mkKernel (world k) (pipes k) (Some t')).
Proof.
  intros Hi (Hc & HI & HJ) t'. split; [done|]. split.
  - eapply rl_perm, HI; [|done]. simpl. unfold task_inodes. simpl. by apply swap_perm, bind_insert_perm.
  - eapply pl_perm, HJ. simpl. unfold task_pipes. simpl. rewrite (swap_perm _ _ ep [] _ _ (bind_insert_perm entry_pipes _ _ _ new Hi)). done.
Qed.

Lemma task_ok_entry t i new : task_ok t -> entry_ok new -> task_ok (mkTask (cwd t) (<[i := new]> (o_files t))).
Proof. intros [Hl Hf] Hn. split; simpl; [by rewrite length_insert|]. by apply Forall_insert. Qed.

Lemma KI_entry t i old new n er ep k : task_ok t -> entry_ok new -> o_files t !! i = Some old ->
  KK (Some t) n (entry_inodes new ++ er) (entry_pipes new ++ ep) k ->
  KI n (entry_inodes old ++ er) (entry_pipes old ++ ep)
    (mkKernel (world k) (pipes k) (Some (mkTask (cwd t) (<[i := new]> (o_files t))))).
Proof. intros Ht Hn Hi HK. split; [by apply task_ok_entry|]. exact (KK_entry t i old new n er ep k Hi HK). Qed.

Lemma entry_held t i f er ep : task_ok t -> o_files t !! i = Some (Some f) -> kind_held (Some t) er ep (f_kind f).
Proof.
  intros [_ Hok] Hi. assert (Hin := list_elem_of_lookup_2 _ _ _ Hi). split_and!.
  - intros x Hx. apply elem_of_app. right. simpl. unfold task_inodes. apply elem_of_app. right.
    apply list_elem_of_bind. by exists (Some f).
  - intros x Hx. apply elem_of_app. right. simpl. unfold task_pipes. apply list_elem_of_bind. by exists (Some f).
  - exact (proj1 (Forall_lookup _ _) Hok _ _ Hi).
Qed.

Lemma get_file_KK c n er ep k fd : cur_ok c -> KK c n er ep k ->
  wp (get_file fd) (fun f k' => k' = k /\ exists t, c = Some t /\ o_files t !! Z.to_nat fd = Some (Some f)) (fun _ => KK c n er ep) k.
Proof.
  intros Hok HK. apply wp_bind. eapply wp_current; [exact HK|]. destruct c as [t|]; [|done].
  destruct (o_files t !! Z.to_nat fd) as [[f|]|] eqn:Hf; [|done|done]. split; [done|]. by exists t.
Qed.

Lemma on_file_KI {A} n er ep k fd (op : File -> KM (A * File)) : KI n er ep k -> keeps_file op ->
  wp (on_file fd op) (fun _ => KI n er ep) (fun _ => KI n er ep) k.
Proof.
  intros [Hok HK] Hop. apply wp_bind. eapply wp_mono; [by apply get_file_KK| |by intros; eapply KK_KI].
  intros f k1 (-> & t & Ht & Hf). rewrite Ht in *. apply wp_bind.
  eapply wp_mono; [apply Hop; [exact HK|by eapply entry_held]| |by intros; eapply KK_KI].
  intros [a f'] k2 [(Hi & Hp & Ho) HK2]. simpl in *. apply wp_bind. eapply wp_current; [exact HK2|]. apply wp_bind, wp_ret.
  apply (KK_KI (Some (mkTask (cwd t) (<[Z.to_nat fd := Some f']> (o_files t))))); [by apply task_ok_entry|].
  destruct HK2 as (Hc & HI & HJ). split; [done|]. simpl in *. unfold task_inodes, task_pipes. simpl.
  by rewrite !(bind_insert_same _ _ _ (Some f) (Some f')).
Qed.

Lemma first_free_lookup (l : list (option File)) i : first_free l = Some i -> l !! i = Some None.
Proof.
  revert i. induction l as [|[f|] l IH]; intros i Hi; simpl in *; [done| |by simplify_eq].
  destruct (first_free l) as [j|]; [|done]. simpl in Hi. simplify_eq. by apply IH.
Qed.

Lemma wp_allocate t n er ep k f Q (K : Sys.SysErrorKind -> kernel -> Prop) : KK (Some t) n er ep k ->
  (forall i, o_files t !! i = Some None ->
    Q (Z.of_nat i) (mkKernel (world k) (pipes k) (Some (mkTask (cwd t) (<[i := Some f]> (o_files t)))))) ->
  K Sys.TooManyOpenFiles (drop_kind (f_kind f) k) -> wp (allocate_fd_for f) Q K k.
Proof.
  intros HK Hq Hk. apply wp_bind. eapply wp_current; [exact HK|]. cbn beta iota.
  destruct (first_free (o_files t)) as [i|] eqn:Hi; [|done]. by apply Hq, first_free_lookup.
Qed.

(** A file in hand is stored in the table, or dropped. *)
Lemma allocate_fd_for_KI c n er ep k f : cur_ok c -> kind_ok (f_kind f) ->
  KK c n (kind_inodes (f_kind f) ++ er) (kind_pipes (f_kind f) ++ ep) k -> is_Some c ->
  wp (allocate_fd_for f) (fun _ => KI n er ep) (fun _ => KI n er ep) k.
Proof.
  intros Hok Hk HK [t ->]. eapply wp_allocate; [exact HK|..].
  - intros i Hi. exact (KI_entry t i None (Some f) n er ep k Hok Hk Hi HK).
  - eapply KK_KI; [exact Hok|by apply KK_drop_kind].
Qed.

(** [set_file] with a file in hand; the file returned is in hand. *)
Lemma set_file_KI c n er ep k f fd : cur_ok c -> kind_ok (f_kind f) ->
  KK c n (kind_inodes (f_kind f) ++ er) (kind_pipes (f_kind f) ++ ep) k -> is_Some c ->
  wp (set_file fd f) (fun old => KI n (entry_inodes old ++ er) (entry_pipes old ++ ep)) (fun _ => KI n er ep) k.
Proof.
  intros Hok Hk HK [t ->]. apply wp_bind. eapply wp_current; [exact HK|]. cbn beta iota.
  destruct (o_files t !! Z.to_nat fd) as [old|] eqn:Hi.
  - apply wp_bind, wp_ret.
    exact (KI_entry t _ old (Some f) n er ep k Hok Hk Hi HK).
  - apply wp_bind, wp_fail. eapply KK_KI; [exact Hok|by apply KK_drop_kind].
Qed.

Lemma KI_drop_entry n er ep k (o : option File) : KI n (entry_inodes o ++ er) (entry_pipes o ++ ep) k ->
  wp (drop_file_opt o) (fun _ => KI n er ep) (fun _ => KI n er ep) k.
Proof.
  intros [Hok HK]. destruct o as [f|]; [|done]. apply (KK_KI (current k)); [done|]. by apply KK_drop_kind.
Qed.

(** ** Opening *)

Lemma open_inode_KK c n er ep k path flags : KK c (S n) er ep k ->
  wp (open_inode fs path flags) (fun res => KK c n (res.1 :: er) ep) (fun _ => KK c n er ep) k.
Proof.
  intros HK. assert (HK' := KK_less _ _ _ _ _ HK). unfold open_inode. destruct (is_valid flags); [|done].
  destruct (last_comp path) as [[| | |name]|]; [| | | |done]; simpl.
  - apply wp_bind, wp_sys. by eapply wp_mono; [by eapply root_KK|..].
  - apply wp_bind. by eapply wp_mono; [by eapply current_task_inode_KK|..].
  - apply wp_bind, wp_sys. by eapply wp_mono; [by eapply lookup_KK|..].
  - apply wp_file_name; [done|]. intros name' Hn. apply wp_bind, wp_sys.
    eapply wp_mono; [eapply lookup_parent_KK; [done..|exact HK]| |by intros; apply KK_less]. intros parent k1 HK1. cbn beta in HK1.
    apply wp_scoped_k, wp_bind, wp_sys. eapply wp_mono; [eapply v_lookup_KK; [exact HK1|by left]| |by intros; apply KK_drop, KK_less].
    intros [i|] k2 HK2; simpl in HK2.
    + apply wp_ret. apply KK_drop, KK_less. eapply KK_perm, HK2; [constructor|done].
    + destruct (contains flags CREAT); [|by apply KK_drop, KK_less]. destruct (Path.is_dir path); [by apply KK_drop, KK_less|].
      simpl. apply wp_bind, wp_sys. eapply wp_mono; [eapply create_KK; [exact HK2|by left|done]| |by intros; apply KK_drop].
      intros i k3 HK3. cbn beta in HK3. apply wp_ret. apply KK_drop. eapply KK_perm, HK3; [constructor|done].
Qed.

Lemma check_file_type_KK c n er ep k ty flags path : ty <> USymlink -> KK c n er ep k ->
  wp (check_file_type_for_open ty flags path) (fun _ => KK c n er ep) (fun _ => KK c n er ep) k.
Proof. intros Ht HK. destruct ty; simpl; try done; by repeat case_match. Qed.

(** What [open] does with the inode it found. *)
Lemma open_file_KK c n er ep k r flags path existed : KK c n (r :: er) ep k ->
  wp ((if existed && contains flags (Z.lor EXCL CREAT) then fail Sys.AlreadyExists else ret tt);;
      do ty <- sys (on_world (file_type r));
      check_file_type_for_open ty flags path;;
      (if existed && contains flags TRUNC then sys (on_world (v_truncate r 0));; ret tt else ret tt);;
      if contains flags APPEND
      then do sk <- File_seek (with_inode r flags) 0 SeekEnd; ret sk.2
      else ret (with_inode r flags))
    (fun f k' => kind_ok (f_kind f) /\ kind_inodes (f_kind f) = [r] /\ kind_pipes (f_kind f) = [] /\ KK c n (r :: er) ep k')
    (fun _ => KK c n (r :: er) ep) k.
Proof.
  intros HK. assert (Hr : r ∈ (r :: er) ++ inodes_of c) by (by left). apply wp_bind.
  eapply wp_mono with (Q := fun _ => KK c n (r :: er) ep) (R := fun _ => KK c n (r :: er) ep); [by destruct (_ && _)| |done].
  clear k HK. intros _ k HK. cbn beta in HK. apply wp_bind, wp_sys. eapply wp_mono; [by eapply file_type_KK| |done].
  clear k HK. intros ty k [Hty HK]. apply wp_bind. eapply wp_mono; [by eapply check_file_type_KK| |done].
  clear k HK. intros ? k HK. cbn beta in HK. apply wp_bind.
  eapply wp_mono with (Q := fun _ => KK c n (r :: er) ep) (R := fun _ => KK c n (r :: er) ep); [| |done].
  - destruct (_ && _); [|done]. apply wp_bind, wp_sys. eapply wp_mono; [by eapply truncate_KK| |done]; intros; by apply wp_ret.
  - clear k HK. intros _ k HK. cbn beta in HK. destruct (contains flags APPEND); [|done]. apply wp_bind.
    eapply wp_mono; [eapply (on_kind_keeps (fun _ => true) _ (kind_seek_keeps 0 SeekEnd)); [exact HK|]| |done].
    + split_and!; [|apply list_subseteq_nil|done]. intros x Hx. simpl in Hx. by apply list_elem_of_singleton in Hx as ->.
    + intros [off f] k1 [(Hi & Hp & Ho) HK1]. by split_and!.
Qed.

Lemma open_KI n er ep k path flags : KI (S n) er ep k ->
  wp (open fs path flags) (fun _ => KI n er ep) (fun _ => KI n er ep) k.
Proof.
  intros [Hok HK]. set (c := current k) in *. apply wp_bind.
  eapply wp_mono; [by eapply open_inode_KK| |by intros; eapply KK_KI]. intros [r existed] k1 HK1. simpl in HK1 |- *.
  apply wp_bind, wp_guarded. eapply wp_mono; [by apply open_file_KK| |by intros; eapply KK_KI, KK_drop].
  intros f k2 (Hf & Hi & Hp & HK2). apply wp_bind, wp_catch.
  assert (HK3 : KK c n (kind_inodes (f_kind f) ++ er) (kind_pipes (f_kind f) ++ ep) k2) by (by rewrite Hi, Hp).
  eapply wp_current; [exact HK3|]. cbn beta iota. destruct c as [t|].
  - by eapply allocate_fd_for_KI.
  - apply wp_bind, wp_fail. eapply KK_KI; [exact Hok|by apply KK_drop_kind].
Qed.

Lemma close_KI n er ep k fd : KI n er ep k -> wp (close fd) (fun _ => KI n er ep) (fun _ => KI n er ep) k.
Proof.
  intros [Hok HK]. apply wp_bind. eapply wp_current; [exact HK|]. cbn beta iota.
  destruct (current k) as [t|] eqn:Ht; [|by apply (KK_KI None)].
  destruct (o_files t !! Z.to_nat fd) as [[f|]|] eqn:Hf; try (by eapply KK_KI).
  apply wp_bind. exact (KI_drop_entry n er ep _ (Some f) (KI_entry t _ (Some f) None n er ep k Hok Logic.I Hf HK)).
Qed.

Lemma dup_KK c n er ep k f : KK c n er ep k -> kind_held c er ep (f_kind f) ->
  wp (dup f) (fun f' k' => f' = f /\ KK c n (kind_inodes (f_kind f) ++ er) (kind_pipes (f_kind f) ++ ep) k') (fun _ => KK c n er ep) k.
Proof. intros HK (Hi & Hp & _). apply wp_bind. split; [done|]. by apply KK_clone_kind. Qed.

Lemma dup2_KI n er ep k src dst : KI n er ep k -> wp (dup2 src dst) (fun _ => KI n er ep) (fun _ => KI n er ep) k.
Proof.
  intros [Hok HK]. apply wp_bind. eapply wp_mono; [by eapply get_file_KK| |by intros; eapply KK_KI].
  intros f k1 (-> & t & Ht & Hf). rewrite Ht in *. assert (Hh := entry_held t _ f er ep Hok Hf). apply wp_bind.
  eapply wp_mono; [by apply dup_KK| |by intros; eapply KK_KI]. intros ? k1 [-> HK1]. apply wp_bind.
  eapply wp_mono; [eapply (set_file_KI (Some t)); [done|apply Hh|exact HK1|done]| |done]. intros old k2 HK2. cbn beta in HK2. by apply KI_drop_entry.
Qed.

(** ** Directories *)

Lemma lookup_child_KK c n er ep k parent name : KK c n er ep k -> parent ∈ er ++ inodes_of c ->
  wp (lookup_child parent name) (fun r => KK c n (r :: er) ep) (fun _ => KK c n er ep) k.
Proof. intros HK Hr. apply wp_bind. apply wp_sys, ilookup_KK. by apply KK_clone. Qed.

(** Removing the entry [name] of the directory that holds it, after the
    check [m] of the inode it leads to. *)
Lemma remove_entry_KK {A} c n er ep k path name (m : R -> KM A) (body : A -> R -> list Z -> KM unit) :
  (forall parent child k', KK c n (child :: parent :: er) ep k' ->
    wp (m child) (fun _ => KK c n (child :: parent :: er) ep) (fun _ => KK c n (child :: parent :: er) ep) k') ->
  (forall a parent child k', KK c n (child :: parent :: er) ep k' ->
    wp (body a parent name) (fun _ => KK c n (child :: parent :: er) ep) (fun _ => KK c n (child :: parent :: er) ep) k') ->
  KK c n er ep k ->
  wp (do parent <- sys (lookup_parent fs path);
      scoped_k parent (
        do child <- lookup_child parent name;
        scoped_k child (do a <- m child; body a parent name))) (fun _ => KK c n er ep) (fun _ => KK c n er ep) k.
Proof.
  intros Hm Hb HK. apply wp_bind, wp_sys. eapply wp_mono; [by apply lookup_parent_KK| |done]. intros parent k1 HK1. cbn beta in HK1.
  apply wp_scoped_k, wp_bind. eapply wp_mono; [apply lookup_child_KK; [exact HK1|by left]| |by intros; apply KK_drop].
  intros child k2 HK2. cbn beta in HK2. apply wp_scoped_k, wp_bind. eapply wp_mono; [by apply Hm| |by intros; do 2 apply KK_drop].
  intros a k3 HK3. cbn beta in HK3. eapply wp_mono; [by apply (Hb a parent child)|..]; intros; by do 2 apply KK_drop.
Qed.

Lemma unlink_name_KK c n er ep k parent child name : KK c n (child :: parent :: er) ep k ->
  wp (do name' <- sys (of_outcome (ValidFileName_try_from name)); sys (on_world (v_unlink parent name')))
    (fun _ => KK c n (child :: parent :: er) ep) (fun _ => KK c n (child :: parent :: er) ep) k.
Proof.
  intros HK. apply wp_file_name; [done|]. intros name' Hn. apply wp_sys. apply unlink_KK; [done|]. right. by left.
Qed.

Lemma looked_up_KK {A} c n er ep k path (m : KM A) : KK c n er ep k ->
  (forall k', KK c n er ep k' -> wp m (fun _ => KK c n er ep) (fun _ => KK c n er ep) k') ->
  wp (do r <- sys (lookup fs path); scoped_k r (ret tt);; m) (fun _ => KK c n er ep) (fun _ => KK c n er ep) k.
Proof.
  intros HK Hm. apply wp_bind, wp_sys. eapply wp_mono; [by apply lookup_KK| |done]. intros r k1 HK1. cbn beta in HK1.
  apply wp_bind, wp_scoped_k, wp_ret, Hm. by apply KK_drop.
Qed.

Lemma rmdir_KK c n er ep k path : KK c n er ep k -> wp (rmdir fs path) (fun _ => KK c n er ep) (fun _ => KK c n er ep) k.
Proof.
  intros HK. unfold rmdir. destruct (last_comp path) as [[| | |name]|]; try done; [by apply looked_up_KK|].
  eapply (remove_entry_KK c n er ep k path name _ (fun d parent name => if negb d then fail Sys.NotADirectory else _)); [..|done].
  - intros parent child k' HK'. apply wp_sys, is_directory_KK; [done|by left].
  - intros d parent child k' HK'. destruct d; [|done]. by apply unlink_name_KK.
Qed.

Lemma unlink_call_KK c n er ep k path : KK c n er ep k -> wp (unlink fs path) (fun _ => KK c n er ep) (fun _ => KK c n er ep) k.
Proof.
  intros HK. unfold unlink. destruct (last_comp path) as [[| | |name]|]; try done; [by apply looked_up_KK..|].
  eapply (remove_entry_KK c n er ep k path name _ (fun _ parent name => _)); [..|done].
  - intros parent child k' HK'. apply wp_sys, check_type_KK; [done|by left].
  - intros d parent child k' HK'. by apply unlink_name_KK.
Qed.

Lemma mkdir_KK c n er ep k path : KK c (S n) er ep k -> wp (mkdir fs path) (fun _ => KK c n er ep) (fun _ => KK c n er ep) k.
Proof.
  intros HK. assert (HK' := KK_less _ _ _ _ _ HK). unfold mkdir.
  assert (Hdots : wp (do o <- sys (try_lookup fs path);
    match o with Some r => scoped_k r (fail Sys.AlreadyExists) | None => fail Sys.NoSuchFileOrDirectory end)
    (fun _ : unit => KK c n er ep) (fun _ => KK c n er ep) k).
  { apply wp_bind, wp_sys. eapply wp_mono; [by apply try_lookup_KK| |done]. intros [r|] k1 HK1; [|done].
    apply wp_scoped_k, wp_fail. by apply KK_drop. }
  destruct (last_comp path) as [[| | |name]|]; try done.
  apply wp_bind, wp_sys. eapply wp_mono; [apply lookup_parent_KK; exact HK| |by intros; apply KK_less]. intros parent k1 HK1. cbn beta in HK1.
  cbn beta in HK1. apply wp_scoped_k.
  apply (wp_file_name _ _ _ (fun k' => KK c n er ep (update_world (v_drop parent) k'))); [by apply KK_drop, KK_less|]. intros name' Hn.
  apply wp_bind, wp_sys. eapply wp_mono; [apply create_KK; [exact HK1|by left|done]| |by intros; apply KK_drop].
  intros i k2 HK2. cbn beta in HK2. apply wp_scoped_k, wp_ret. by do 2 apply KK_drop.
Qed.

Lemma stat_KK c n er ep k path : KK c n er ep k -> wp (stat fs path) (fun _ => KK c n er ep) (fun _ => KK c n er ep) k.
Proof.
  intros HK. apply wp_bind, wp_sys. eapply wp_mono; [by apply lookup_KK| |done]. intros r k1 HK1. cbn beta in HK1.
  apply wp_scoped_k, wp_sys. eapply wp_mono; [apply metadata_KK; [exact HK1|by left]|..]; intros; by apply KK_drop.
Qed.

(** A new working directory takes the inode in hand and leaves the old one. *)
Lemma KI_cwd t r n er ep k : task_ok t -> KK (Some t) n (r :: er) ep k ->
  KI n (option_list (cwd t) ++ er) ep (mkKernel (world k) (pipes k) (Some (mkTask (Some r) (o_files t)))).
Proof.
  intros Ht (Hc & HI & HJ). split; [done|]. split; [done|]. split; [|done]. eapply rl_perm, HI; [|done]. simpl. unfold task_inodes. simpl.
  rewrite (Permutation_middle _ _ r). rewrite <- !app_assoc, (Permutation_app_swap_app (option_list (cwd t))). simpl.
  by rewrite <- !Permutation_middle.
Qed.

Lemma cd_KI n er ep k path : KI n er ep k -> wp (cd fs path) (fun _ => KI n er ep) (fun _ => KI n er ep) k.
Proof.
  intros [Hok HK]. set (c := current k) in *. apply wp_bind. eapply wp_current; [exact HK|]. cbn beta iota.
  destruct c as [t|] eqn:Ht; [|by apply (KK_KI None)].
  apply wp_bind, wp_sys. eapply wp_mono; [by apply lookup_KK| |by intros; eapply KK_KI]. intros r k1 HK1. cbn beta in HK1.
  apply wp_guarded, wp_bind, wp_sys. eapply wp_mono; [apply is_directory_KK; [exact HK1|by left]| |by intros; eapply KK_KI, KK_drop].
  intros d k2 HK2. cbn beta in HK2. destruct d; [|by eapply KK_KI, KK_drop]. simpl.
  apply wp_bind. eapply wp_current; [exact HK2|]. cbn beta iota. apply wp_bind.
  pose proof (KI_cwd t r n er ep k2 Hok HK2) as HK3. unfold wp at 1, set_task, modify.
  destruct (cwd t) as [old|]; [|done]. destruct HK3 as [Hok3 HK3]. by eapply KK_KI, KK_drop.
Qed.

(** ** Pipes, fork and exit *)

Lemma pipe_KI n er ep k : KI n er ep k -> wp pipe (fun _ => KI n er ep) (fun _ => KI n er ep) k.
Proof.
  intros [Hok HK]. set (c := current k) in *. apply wp_bind. eapply wp_current; [exact HK|]. cbn beta iota.
  destruct c as [t|] eqn:Ht; [|by apply (KK_KI None)].
  apply wp_bind. eapply wp_pipes; [exact HK|]. destruct HK as (Hc & HI & HJ).
  eapply wp_mono; [by apply pl_create| |by intros; apply (KK_KI (Some t))]. intros [pr pw] x HJ'. cbn beta in HJ'. simpl in HJ'.
  cbn zeta. cbn [fst snd]. apply wp_bind, wp_catch. set (rf := with_pipe pr RDONLY : File). set (wf := with_pipe pw WRONLY : File).
  assert (HK1 : KK (Some t) n er (pr :: pw :: ep) (mkKernel (world k) x (Some t))) by done.
  eapply wp_allocate; [exact HK1|intros i Hi|].
  2:{ apply wp_bind, wp_fail. eapply KK_KI; [exact Hok|]. by do 2 apply KK_drop_pipe. }
  destruct (KI_entry t i None (Some rf) n er (pw :: ep) _ Hok Logic.I Hi HK1) as [Hok2 HK2].
  set (t1 := mkTask (cwd t) (<[i := Some rf]> (o_files t))) in *. set (k1 := mkKernel _ _ (Some t1)) in *.
  apply wp_bind, wp_catch. eapply wp_allocate; [exact HK2|intros j Hj|].
  - apply wp_ret. exact (KI_entry t1 j None (Some wf) n er ep k1 Hok2 Logic.I Hj HK2).
  - assert (HK3 : KK (Some t1) n er ep (drop_kind (f_kind wf) k1)) by (by apply KK_drop_pipe).
    apply wp_bind. eapply wp_current; [exact HK3|]. cbn beta iota.
    assert (Hi1 : o_files t1 !! Z.to_nat (Z.of_nat i) = Some (Some rf)).
    { rewrite Nat2Z.id. apply list_lookup_insert_eq. by eapply lookup_lt_Some. }
    destruct (KI_entry t1 _ (Some rf) None n er ep _ Hok2 Logic.I Hi1 HK3) as [Hok4 HK4].
    apply wp_bind, wp_bind, wp_fail. by eapply KK_KI, KK_drop_pipe.
Qed.

Lemma dup_each_KK c n (l : list (option File)) er ep k : KK c n er ep k -> Forall entry_ok l ->
  (forall f, Some f ∈ l -> kind_inodes (f_kind f) ⊆ inodes_of c /\ kind_pipes (f_kind f) ⊆ pipes_of c) ->
  wp (dup_each l) (fun l' k' => l' = l /\ KK c n ((l ≫= entry_inodes) ++ er) ((l ≫= entry_pipes) ++ ep) k') (fun _ _ => False) k.
Proof.
  revert er ep k. induction l as [|[f|] l IH]; intros er ep k HK Hl Hh; [done|..]; inversion Hl; subst; simpl.
  - apply wp_bind. destruct (Hh f) as [Hi Hp]; [by left|].
    assert (Hd : KK c n (kind_inodes (f_kind f) ++ er) (kind_pipes (f_kind f) ++ ep) (clone_kind (f_kind f) k)).
    { apply KK_clone_kind; [..|done]; [intros x Hx%Hi|intros x Hx%Hp]; apply elem_of_app; by right. }
    apply wp_bind. unfold wp at 1, modify. unfold wp at 1, ret. apply wp_bind.
    eapply wp_mono; [apply IH; [exact Hd|done|]|..]; [by intros f' Hf; apply Hh; right| |done].
    intros l' k' [-> HK']. split; [done|]. rewrite <- !app_assoc.
    eapply KK_perm, HK'; by rewrite Permutation_app_swap_app.
  - apply wp_bind. eapply wp_mono; [apply IH; [exact HK|done|]|..]; [by intros f' Hf; apply Hh; right| |done].
    intros l' k' [-> HK']. by split.
Qed.

(** [fork]: the child holds as much again as its parent, which is current. *)
Lemma inherit_KK t n er ep k : task_ok t -> KK (Some t) n er ep k ->
  wp (inherit t) (fun t' k' => t' = t /\ KK (Some t) n (task_inodes t ++ er) (task_pipes t ++ ep) k') (fun _ _ => False) k.
Proof.
  intros [Hlen Hok] HK. apply wp_bind. eapply wp_mono; [apply (dup_each_KK (Some t)); [exact HK|done|]|..]; [|intros l' k' [-> HK']|done].
  - intros f Hf. split; intros x Hx; simpl; [unfold task_inodes; apply elem_of_app; right|unfold task_pipes];
      apply list_elem_of_bind; by exists (Some f).
  - unfold task_inodes, task_pipes. destruct t as [[r|] files]; simpl in *; [|by split].
    apply wp_bind, wp_ret. split; [done|]. apply KK_clone; [|done]. apply elem_of_app. right. by left.
Qed.

Lemma drop_each_KK c n (l : list (option File)) er ep k : KK c n ((l ≫= entry_inodes) ++ er) ((l ≫= entry_pipes) ++ ep) k ->
  wp (drop_each l) (fun _ => KK c n er ep) (fun _ _ => False) k.
Proof.
  revert k. induction l as [|o l IH]; intros k HK; [done|]. simpl in HK. rewrite <- !app_assoc in HK. apply wp_bind.
  destruct o as [f|]; [|by apply IH]. simpl. unfold wp at 1, drop_file, modify. apply IH. by apply KK_drop_kind.
Qed.

(** [exit] gives up everything the task holds. *)
Lemma release_files_KI n er ep k : KI n er ep k -> is_Some (current k) ->
  wp release_files (fun _ => KK (Some (mkTask None (replicate MAX_OPEN_FILES None))) n er ep) (fun _ _ => False) k.
Proof.
  intros [Hok HK] [t Ht]. rewrite Ht in *. apply wp_bind. eapply wp_current; [exact HK|]. cbn beta iota. apply wp_bind.
  set (t0 := mkTask None (replicate MAX_OPEN_FILES None)). unfold wp at 1, set_task, modify.
  assert (HK1 : KK (Some t0) n ((o_files t ≫= entry_inodes) ++ option_list (cwd t) ++ er) ((o_files t ≫= entry_pipes) ++ ep)
    (mkKernel (world k) (pipes k) (Some t0))).
  { destruct HK as (Hc & HI & HJ). split; [done|]. split.
    - eapply rl_perm, HI; [|done]. simpl. unfold task_inodes. rewrite app_nil_r, Permutation_app_comm, <- app_assoc.
      by rewrite Permutation_app_swap_app.
    - eapply pl_perm, HJ. simpl. unfold task_pipes. by rewrite app_nil_r, Permutation_app_comm. }
  apply wp_bind. eapply wp_mono; [by apply drop_each_KK| |done]. intros ? k1 HK2. cbn beta in HK2.
  destruct (cwd t) as [r|]; [|done]. by apply KK_drop.
Qed.
End refs.
