(* ===== verification/FcntlFiles.v ===== *)
(** * Sequences of system calls by several tasks

    [run_fcall] is one system call of the current task; fork makes a task
    with the files of its parent, exit releases what the task holds and lets
    the next task run, and a switch lets the next task run.  Along every
    sequence the references held are those of the tasks. *)

From S2P Require Import Prelude Path Bytes Vfs Dir EfsVfs InodeOps HashMap RamFs RamFsInv RamFsMethods InodeRefs Pathname Fcntl FcntlRefs.
Import Vfs.

#[local] Open Scope Z_scope.
#[local] Open Scope rw_scope.

Inductive fcall : Type :=
| FOpen (path : list Z) (flags : Z) | FClose (fd : Z) | FRead (fd len : Z) | FWrite (fd : Z) (buf : list Z)
| FSeek (fd off whence : Z) | FRmdir (path : list Z) | FMkdir (path : list Z) | FUnlink (path : list Z)
| FDirents (fd room : Z) | FStat (path : list Z) | FCd (path : list Z) | FDup2 (src dst : Z) | FSync | FPipeCall
| FFork | FExit | FSwitch.

Section system.
Context {W F R X Pi : Type} `{VfsINodeOps W F R} `{Pipes X Pi}.
Context (fs : F).

#[local] Notation Task := (Task R Pi).
#[local] Notation kernel := (kernel W R X Pi).
#[local] Notation KM := (M kernel Sys.SysErrorKind).

(** The tasks that are not running, in the order in which they run next. *)
Record system : Type := mkSystem { kern : kernel; others : list Task }.

#[local] Notation SM := (M system Sys.SysErrorKind).

Definition on_kern {A} (m : KM A) : SM A :=
  fun s => let (o, k') := m (kern s) in (o, mkSystem k' (others s)).

Definition set_current (c : option Task) (k : kernel) : kernel := mkKernel (world k) (pipes k) c.

Definition fork : SM unit :=
  fun s => match current (kern s) with
           | None => (Err Sys.IOError, s)
           | Some t => match inherit t (kern s) with
                       | (Ok t', k') => (Ok tt, mkSystem k' (others s ++ [t']))
                       | (Err e, k') => (Err e, mkSystem k' (others s))
                       | (Panic, k') => (Panic, mkSystem k' (others s))
                       end
           end.

Definition next_task (s : system) : system :=
  match others s with
  | t :: ts => mkSystem (set_current (Some t) (kern s)) ts
  | [] => mkSystem (set_current None (kern s)) []
  end.

Definition exit : SM unit := on_kern release_files;; modify next_task.

Definition switch : SM unit :=
  modify (fun s => next_task (mkSystem (kern s) (others s ++ option_list (current (kern s))))).

Definition run_fcall (c : fcall) : SM unit :=
  match c with
  | FOpen path flags => on_kern (sys_open fs path flags);; ret tt
  | FClose fd => on_kern (sys_close fd);; ret tt
  | FRead fd len => on_kern (sys_read fd len);; ret tt
  | FWrite fd buf => on_kern (sys_write fs fd buf);; ret tt
  | FSeek fd off whence => on_kern (sys_seek fd off whence);; ret tt
  | FRmdir path => on_kern (sys_rmdir fs path);; ret tt
  | FMkdir path => on_kern (sys_mkdir fs path);; ret tt
  | FUnlink path => on_kern (sys_unlink fs path);; ret tt
  | FDirents fd room => on_kern (sys_getdirents fd room);; ret tt
  | FStat path => on_kern (sys_stat fs path);; ret tt
  | FCd path => on_kern (sys_cd fs path);; ret tt
  | FDup2 src dst => on_kern (sys_dup2 src dst);; ret tt
  | FSync => on_kern (sys_sync fs);; ret tt
  | FPipeCall => on_kern sys_pipe;; ret tt
  | FFork => fork
  | FExit => exit
  | FSwitch => switch
  end.

Fixpoint run_fcalls (cs : list fcall) (s : system) : list (outcome Sys.SysErrorKind unit) * system :=
  match cs with
  | [] => ([], s)
  | c :: cs' =>
    let (o, s1) := run_fcall c s in
    let (os, s2) := run_fcalls cs' s1 in
    (o :: os, s2)
  end.

(** ** References *)

Context (I : nat -> list R -> list F -> W -> Prop) `{!RefLaws I} (J : list Pi -> X -> Prop) `{!PipeLaws J}.
Context (ownf : list F) (Hfs : fs ∈ ownf).

#[local] Notation KK := (KK I J ownf).
#[local] Notation KI := (KI I J ownf).
Implicit Types (n : nat) (t : Task) (ts : list Task) (k : kernel) (s : system).

Definition SI n s : Prop :=
  Forall task_ok (others s) /\ KI n (others s ≫= task_inodes) (others s ≫= task_pipes) (kern s).

Lemma KI_less n er ep k : KI (S n) er ep k -> KI n er ep k.
Proof. intros [Hok HK]. split; [done|]. by eapply KK_less. Qed.

Lemma SI_less n s : SI (S n) s -> SI n s.
Proof. intros [Ho HK]. split; [done|by apply KI_less]. Qed.

Lemma wp_on_kern {A} (m : KM A) n n' s : SI n s ->
  (forall er ep k, KI n er ep k -> wp m (fun _ => KI n' er ep) (fun _ => KI n' er ep) k) ->
  wp (on_kern m;; ret tt) (fun _ => SI n') (fun _ => SI n') s.
Proof.
  intros [Ho HK] Hm. apply wp_bind. unfold wp at 1, on_kern. specialize (Hm _ _ _ HK). unfold wp in Hm.
  destruct (m (kern s)) as [[] k']; [..|done]; by split.
Qed.

Lemma fork_SI n s : SI n s -> wp fork (fun _ => SI n) (fun _ => SI n) s.
Proof.
  intros [Ho [Hok HK]]. unfold wp, fork. destruct (current (kern s)) as [t|] eqn:Ht; [|by split; [|split; rewrite ?Ht]].
  pose proof (inherit_KK I J ownf t n _ _ (kern s) Hok HK) as Hi. unfold wp in Hi.
  destruct (inherit t (kern s)) as [[t'| |] k']; [|done..]. destruct Hi as [-> HK']. split; simpl.
  - apply Forall_app. split; [done|by apply Forall_singleton].
  - eapply (KK_KI I J ownf (Some t)); [done|]. rewrite !bind_app. simpl. rewrite !app_nil_r.
    eapply (KK_perm I J ownf), HK'; apply Permutation_app_comm.
Qed.

(** The next task, when the current one holds nothing. *)
Lemma next_task_SI n s t0 : Forall task_ok (others s) -> task_inodes t0 = [] -> task_pipes t0 = [] ->
  KK (Some t0) n (others s ≫= task_inodes) (others s ≫= task_pipes) (kern s) -> SI n (next_task s).
Proof.
  intros Ho Hi Hp (Hc & HI & HJ). simpl in HI, HJ. rewrite Hi, app_nil_r in HI. rewrite Hp, app_nil_r in HJ.
  unfold next_task. destruct (others s) as [|t ts].
  - split; [done|]. by repeat split.
  - inversion Ho; subst. split; [done|]. simpl in HI, HJ. split; [done|]. split; [done|]. simpl. split.
    + eapply rl_perm, HI; [apply Permutation_app_comm|done].
    + eapply pl_perm, HJ. apply Permutation_app_comm.
Qed.

Lemma exit_SI n s : SI n s -> is_Some (current (kern s)) -> wp exit (fun _ => SI n) (fun _ => SI n) s.
Proof.
  intros [Ho HK] Hc. apply wp_bind. unfold wp at 1, on_kern.
  pose proof (release_files_KI I J ownf n _ _ (kern s) HK Hc) as Hr. unfold wp in Hr.
  destruct (release_files (kern s)) as [[] k']; [|done..]. cbn beta. unfold wp, modify.
  eapply next_task_SI; [| | |exact Hr]; done.
Qed.

Lemma exit_idle_SI n s : SI n s -> current (kern s) = None -> wp exit (fun _ => SI n) (fun _ => SI n) s.
Proof.
  intros HS Hc. apply wp_bind. unfold wp at 1, on_kern, release_files, bind at 1, current_task_or_err. rewrite Hc. by destruct s.
Qed.

Lemma switch_SI n s : SI n s -> wp switch (fun _ => SI n) (fun _ => SI n) s.
Proof.
  intros [Ho [Hok (Hc & HI & HJ)]]. unfold wp, switch, modify.
  apply (next_task_SI n (mkSystem (set_current (Some (mkTask None [])) (kern s)) (others s ++ option_list (current (kern s)))) (mkTask None []));
    try done; simpl.
  - apply Forall_app. split; [done|]. destruct (current (kern s)); [|done]. by constructor.
  - split; [done|]. simpl. rewrite !bind_app. destruct (current (kern s)) as [t|]; simpl in *; by rewrite !app_nil_r in *.
Qed.

Lemma sync_KI n er ep k : KI n er ep k -> wp (sync fs) (fun _ => KI n er ep) (fun _ => KI n er ep) k.
Proof.
  intros [Hok HK]. apply wp_sys. eapply wp_mono; [by eapply sync_KK|..]; intros; by eapply KK_KI.
Qed.

(** A call followed by [sync]. *)
Lemma synced_KI {A B} n' er ep k (m : KM A) (g : A -> B) :
  wp m (fun _ => KI n' er ep) (fun _ => KI n' er ep) k ->
  wp (do a <- m; sync fs;; ret (g a)) (fun _ => KI n' er ep) (fun _ => KI n' er ep) k.
Proof.
  intros Hm. apply wp_bind. eapply wp_mono; [exact Hm| |done]. intros a k' HK. cbn beta in HK. apply wp_bind.
  eapply wp_mono; [by apply sync_KI| |done]. done.
Qed.

Lemma quiet_KI {A} n er ep k (m : KM A) : KI n er ep k ->
  (forall c, KK c n er ep k -> wp m (fun _ => KK c n er ep) (fun _ => KK c n er ep) k) ->
  wp m (fun _ => KI n er ep) (fun _ => KI n er ep) k.
Proof. intros [Hok HK] Hm. eapply wp_mono; [by apply Hm|..]; intros; by eapply KK_KI. Qed.

Lemma run_fcall_SI n c s : SI (S n) s -> wp (run_fcall c) (fun _ => SI n) (fun _ => SI n) s.
Proof.
  intros HS. assert (HS' := SI_less _ _ HS). destruct c; simpl.
  - eapply wp_on_kern; [exact HS|]. intros er ep k HK. apply wp_bind. destruct (from_bits flags); [|by apply KI_less].
    apply synced_KI. by eapply open_KI.
  - eapply wp_on_kern; [exact HS'|]. intros er ep k HK. apply wp_bind. eapply wp_mono; [by eapply close_KI|done..].
  - eapply wp_on_kern; [exact HS'|]. intros er ep k HK. apply on_file_KI; [done..|]. apply on_kind_keeps, kind_read_keeps; done.
  - eapply wp_on_kern; [exact HS'|]. intros er ep k HK. apply (synced_KI n er ep k _ id).
    apply on_file_KI; [done..|]. apply on_kind_keeps, kind_write_keeps; done.
  - eapply wp_on_kern; [exact HS'|]. intros er ep k HK. apply wp_bind. destruct (seek_from whence); [|done].
    apply on_file_KI; [done..|]. apply (on_kind_keeps I J ownf (fun _ => true)), kind_seek_keeps; done.
  - eapply wp_on_kern; [exact HS'|]. intros er ep k HK. apply (synced_KI n er ep k _ (fun _ => 0)).
    apply quiet_KI; [done|]. intros. by eapply rmdir_KK.
  - eapply wp_on_kern; [exact HS|]. intros er ep k [Hok HK]. apply (synced_KI n er ep k _ (fun _ => 0)).
    eapply wp_mono; [by eapply mkdir_KK|..]; intros; by eapply KK_KI.
  - eapply wp_on_kern; [exact HS'|]. intros er ep k HK. apply (synced_KI n er ep k _ (fun _ => 0)).
    apply quiet_KI; [done|]. intros. by eapply unlink_call_KK.
  - eapply wp_on_kern; [exact HS'|]. intros er ep k HK. apply on_file_KI; [done..|]. apply on_kind_keeps, kind_dirents_keeps; done.
  - eapply wp_on_kern; [exact HS'|]. intros er ep k HK. apply quiet_KI; [done|]. intros. by eapply stat_KK.
  - eapply wp_on_kern; [exact HS'|]. intros er ep k HK. apply wp_bind. eapply wp_mono; [by eapply cd_KI|done..].
  - eapply wp_on_kern; [exact HS'|]. intros er ep k HK. apply wp_bind. eapply wp_mono; [by eapply dup2_KI|done..].
  - eapply wp_on_kern; [exact HS'|]. intros er ep k HK. apply wp_bind. eapply wp_mono; [by eapply sync_KI|done..].
  - eapply wp_on_kern; [exact HS'|]. intros er ep k HK. by eapply pipe_KI.
  - by apply fork_SI.
  - destruct (current (kern s)) eqn:Hc; [|by apply exit_idle_SI]. apply exit_SI; [done|]. by rewrite Hc.
  - by apply switch_SI.
Qed.

Lemma run_fcalls_SI cs s : SI (length cs) s ->
  Forall (fun o => o <> Panic) (run_fcalls cs s).1 /\ SI 0 (run_fcalls cs s).2.
Proof.
  revert s. induction cs as [|c cs IH]; intros s HS; [done|]. simpl in HS |- *.
  pose proof (run_fcall_SI _ c s HS) as Hc. unfold wp in Hc. destruct (run_fcall c s) as [o s1].
  assert (Ho : o <> Panic /\ SI (length cs) s1) by (by destruct o). destruct Ho as [Ho HS1].
  destruct (IH s1 HS1) as [Hf HS2]. destruct (run_fcalls cs s1) as [os s2]. split; [by constructor|done].
Qed.
End system.

Arguments system : clear implicits.

(** * Descriptors of plain files

    A descriptor of a plain file is a position in a sequence of bytes: reads,
    writes and seeks through it are those of [abs_fop].  [PlainFile] states
    when an inode is a plain file; the files of the memory file systems are. *)

(** ** The abstract file *)

Record openfile : Type := mkOpen { o_content : list Z; o_pos : Z }.

Inductive fop : Type := OpRead (len : Z) | OpWrite (buf : list Z) | OpSeek (off : Z) (whence : SeekFrom).

(** The arguments fit their types: a length is not negative, an offset is an
    [i64]. *)
Definition valid_fop (op : fop) : Prop :=
  match op with OpRead len => 0 <= len | OpWrite _ => True | OpSeek off _ => - 2 ^ 63 <= off < 2 ^ 63 end.

Definition overwrite (pos : Z) (buf c : list Z) : list Z :=
  take (Z.to_nat pos) c ++ buf ++ drop (Z.to_nat (pos + zlen buf)) c.

Definition seek_target (st : openfile) (off : Z) (whence : SeekFrom) : Z :=
  match whence with SeekSet => 0 | SeekCurrent => o_pos st | SeekEnd => zlen (o_content st) end + off.

(** The bytes or the number a call returns, for a file opened for reading
    ([rd]) and for writing ([wr]). *)
Definition abs_fop (rd wr : bool) (op : fop) (st : openfile) : outcome Sys.SysErrorKind (list Z + Z) * openfile :=
  match op with
  | OpRead len =>
    if rd then
      let bytes := take (Z.to_nat len) (drop (Z.to_nat (o_pos st)) (o_content st)) in
      (Ok (inl bytes), mkOpen (o_content st) (o_pos st + zlen bytes))
    else (Err Sys.BadFileDescriptor, st)
  | OpWrite buf =>
    if wr then
      if zlen (o_content st) <? o_pos st then (Err Sys.InvalidArgument, st)
      else (Ok (inr (zlen buf)), mkOpen (overwrite (o_pos st) buf (o_content st)) (o_pos st + zlen buf))
    else (Err Sys.BadFileDescriptor, st)
  | OpSeek off whence =>
    let pos := seek_target st off whence in
    if (0 <=? pos) && (pos <? 2 ^ 63) then (Ok (inr pos), mkOpen (o_content st) pos) else (Err Sys.InvalidArgument, st)
  end.

Fixpoint abs_fops (rd wr : bool) (ops : list fop) (st : openfile) : list (outcome Sys.SysErrorKind (list Z + Z)) * openfile :=
  match ops with
  | [] => ([], st)
  | op :: ops' =>
    let (o, st1) := abs_fop rd wr op st in
    let (os, st2) := abs_fops rd wr ops' st1 in
    (o :: os, st2)
  end.

(** ** Plain files *)

Class PlainFile {W F R : Type} `{VfsINodeOps W F R} (r : R) (FJ : list Z -> W -> Prop) : Prop := {
  pf_read c w off len : FJ c w -> 0 <= off -> 0 <= len ->
    exists w', v_read r off len w = (Ok (take (Z.to_nat len) (drop (Z.to_nat off) c)), w') /\ FJ c w';
  pf_write c w off buf : FJ c w -> 0 <= off <= zlen c ->
    exists w', v_write r off buf w = (Ok (zlen buf), w') /\ FJ (overwrite off buf c) w';
  pf_write_gap c w off buf : FJ c w -> zlen c < off ->
    exists w', v_write r off buf w = (Err InvalidArgument, w') /\ FJ c w';
  pf_size c w : FJ c w -> exists st w', v_metadata r w = (Ok st, w') /\ FJ c w' /\ st_size st = zlen c
}.

Section ram.
Context {P D T : Type} `{FileContentProvider P} `{Device D} `{HashMap (list Z) Z T}.
#[local] Notation world := (RamFs.world P D T).

Definition ram_file (r : Z) (c : list Z) (w : world) : Prop := exists n no i, heap w !! r = Some (n, RamFile no i c).

Lemma ram_file_forwarded {A} r (body : Z -> node P T -> M world FsErrorKind A) (w : world) (n : nat) no i c :
  heap w !! r = Some (n, RamFile no i c) -> forwarded r body w = body r (RamFile no i c) w.
Proof. intros Hr. unfold forwarded, bind, node_at. cbn [forward]. unfold bind, node_at, ret. by rewrite Hr, Hr. Qed.

Lemma overwrite_splice off buf (c : list Z) : 0 <= off <= zlen c ->
  splice off buf (if zlen c <? off + zlen buf then resize (off + zlen buf) c else c) = overwrite off buf c.
Proof.
  intros Ho. unfold splice, overwrite, resize. destruct (Z.ltb_spec (zlen c) (off + zlen buf)).
  - rewrite (take_ge c) by lia. rewrite take_app_le by lia. f_equal. f_equal.
    rewrite (drop_ge c) by lia. apply drop_ge. rewrite length_app, length_replicate. lia.
  - f_equal. f_equal. f_equal. lia.
Qed.

#[export] Instance ram_plain_file r : PlainFile (H := ram_inodes) r (ram_file r).
Proof.
  split; simpl.
  - intros c w off len (n & no & i & Hr) Ho Hl. exists w. split; [|by exists n, no, i].
    unfold ram_read. rewrite (ram_file_forwarded _ _ _ _ _ _ _ Hr). unfold ret, file_read. do 2 f_equal.
    destruct (Z.leb_spec (zlen c) off); [by rewrite drop_ge, take_nil by lia|]. unfold sub.
    destruct (Z.leb_spec len (zlen c - off)); [by rewrite Z.min_r by lia|].
    rewrite Z.min_l by lia. rewrite !take_ge; [done|rewrite length_drop; lia..].
  - intros c w off buf (n & no & i & Hr) Ho. eexists. unfold ram_write. rewrite (ram_file_forwarded _ _ _ _ _ _ _ Hr).
    unfold file_write. rewrite (proj2 (Z.ltb_ge _ _)) by lia. unfold bind, set_node. rewrite Hr. split; [done|].
    exists n, no, i. simpl. by rewrite lookup_insert_eq, overwrite_splice.
  - intros c w off buf (n & no & i & Hr) Ho. exists w. unfold ram_write. rewrite (ram_file_forwarded _ _ _ _ _ _ _ Hr).
    unfold file_write. rewrite (proj2 (Z.ltb_lt _ _)) by lia. split; [done|]. by exists n, no, i.
  - intros c w (n & no & i & Hr). eexists _, w. unfold ram_metadata. cbn [metadata_fuel]. unfold bind, node_at. rewrite Hr.
    split; [done|]. split; [by exists n, no, i|done].
Qed.
End ram.

(** ** Sessions *)

Section session.
Context {W F R X Pi : Type} `{VfsINodeOps W F R} `{Pipes X Pi}.
Context (r : R) (FJ : list Z -> W -> Prop) `{!PlainFile r FJ}.

#[local] Notation Task := (Task R Pi).
#[local] Notation kernel := (kernel W R X Pi).
#[local] Notation KM := (M kernel Sys.SysErrorKind).
Implicit Types (t : Task) (k : kernel) (st : openfile).

Definition run_fop (fd : Z) (op : fop) : KM (list Z + Z) :=
  match op with
  | OpRead len => do b <- read fd len; ret (inl b)
  | OpWrite buf => do n <- write fd buf; ret (inr n)
  | OpSeek off whence => do n <- seek fd off whence; ret (inr n)
  end.

Fixpoint run_fops (fd : Z) (ops : list fop) (k : kernel) : list (outcome Sys.SysErrorKind (list Z + Z)) * kernel :=
  match ops with
  | [] => ([], k)
  | op :: ops' =>
    let (o, k1) := run_fop fd op k in
    let (os, k2) := run_fops fd ops' k1 in
    (o :: os, k2)
  end.

(** The descriptor [fd] of the current task is the file in the state [st];
    the rest of the task is that of [t]. *)
Definition opened (fd : Z) (rd wr : bool) t st k : Prop :=
  current k = Some (mkTask (cwd t) (<[Z.to_nat fd := Some (mkFile wr rd (FInode r (o_pos st)))]> (o_files t))) /\
  FJ (o_content st) (world k) /\ 0 <= o_pos st.

(** What is written in [ops]. *)
Fixpoint written (ops : list fop) : Z :=
  match ops with
  | [] => 0
  | OpWrite buf :: ops' => zlen buf + written ops'
  | _ :: ops' => written ops'
  end.

Lemma opened_entry fd rd wr t st k : opened fd rd wr t st k -> (Z.to_nat fd < length (o_files t))%nat ->
  get_file fd k = (Ok (mkFile wr rd (FInode r (o_pos st))), k).
Proof.
  intros (Hc & _) Hfd. unfold get_file, bind, current_task_or_err. rewrite Hc. simpl.
  by rewrite list_lookup_insert_eq.
Qed.

(** One call through the descriptor, by what its operation does to the file. *)
Lemma on_file_opened {A} fd rd wr t st k (op : File R Pi -> KM (A * File R Pi)) : opened fd rd wr t st k ->
  (Z.to_nat fd < length (o_files t))%nat ->
  match op (mkFile wr rd (FInode r (o_pos st))) k with
  | (Ok (a, f'), k1) => forall st', f' = mkFile wr rd (FInode r (o_pos st')) -> current k1 = current k ->
      FJ (o_content st') (world k1) -> 0 <= o_pos st' ->
      exists k', on_file fd op k = (Ok a, k') /\ opened fd rd wr t st' k'
  | (Err e, k1) => on_file fd op k = (Err e, k1)
  | (Panic, _) => True
  end.
Proof.
  intros Ho Hfd. set (f := mkFile wr rd (FInode r (o_pos st))).
  assert (He : on_file fd op k = (do res <- op f; do t' <- current_task_or_err;
    set_task (mkTask (cwd t') (<[Z.to_nat fd := Some res.2]> (o_files t')));; ret res.1) k).
  { unfold on_file, bind at 1. by rewrite (opened_entry _ _ _ _ _ _ Ho Hfd). }
  destruct (op f k) as [[[a f']|e|] k1] eqn:Hop; [|by rewrite He; unfold bind; rewrite Hop|done]. intros st' -> Hc HF Hp.
  eexists. split; [|split_and!].
  - rewrite He. unfold bind, current_task_or_err. rewrite Hop, Hc, (proj1 Ho). reflexivity.
  - simpl. by rewrite list_insert_insert_eq.
  - done.
  - done.
Qed.

(** The position sought, when it is one. *)
Definition in_range (pos : Z) : outcome Sys.SysErrorKind Z :=
  if (0 <=? pos) && (pos <? 2 ^ 63) then Ok pos else Err Sys.InvalidArgument.

Lemma from_base b off k : 0 <= b < 2 ^ 63 ->
  (do x <- (do p <- i64_try_from b; checked_add p off); if x <? 0 then fail Sys.InvalidArgument else ret x) k = (in_range (b + off), k).
Proof.
  intros Hb. unfold bind, i64_try_from, checked_add, in_range. rewrite (proj2 (Z.ltb_lt b (2 ^ 63))) by lia. unfold ret, fail.
  destruct (Z.leb_spec (- 2 ^ 63) (b + off)), (Z.ltb_spec (b + off) (2 ^ 63)), (Z.leb_spec 0 (b + off)); simpl; try lia; try done;
    destruct (Z.ltb_spec (b + off) 0); (lia || done).
Qed.

Lemma calculate_offset_eq st k off whence : FJ (o_content st) (world k) -> 0 <= o_pos st < 2 ^ 63 -> zlen (o_content st) < 2 ^ 63 ->
  - 2 ^ 63 <= off < 2 ^ 63 ->
  exists w', FJ (o_content st) w' /\
    calculate_offset (o_pos st) off r whence k = (in_range (seek_target st off whence), mkKernel w' (pipes k) (current k)).
Proof.
  intros HF Hp Hl Ho. unfold calculate_offset, seek_target. destruct whence.
  - exists (world k). split; [done|]. unfold bind, ret, fail, in_range. rewrite (proj2 (Z.ltb_lt (0 + off) (2 ^ 63))) by lia.
    destruct k. destruct (Z.ltb_spec off 0), (Z.leb_spec 0 (0 + off)); (lia || done).
  - exists (world k). split; [done|]. rewrite from_base by done. by destruct k.
  - destruct (pf_size (o_content st) (world k) HF) as (md & w' & Hm & HF' & Hs). exists w'. split; [done|].
    rewrite <- (from_base (zlen (o_content st)) off (mkKernel w' (pipes k) (current k))) by lia. rewrite <- Hs.
    unfold bind at 1 2. unfold sys, map_err, on_world at 1. rewrite Hm. done.
Qed.

Lemma advance_small pos n : 0 <= pos < 2 ^ 63 -> 0 <= n < 2 ^ 63 -> advance pos n = pos + n.
Proof. intros Hp Hn. unfold advance. apply Z.mod_small. lia. Qed.

(** Each call does what the abstract operation does. *)
Lemma fop_refines fd rd wr t st k op : opened fd rd wr t st k -> (Z.to_nat fd < length (o_files t))%nat ->
  o_pos st < 2 ^ 63 -> zlen (o_content st) + written [op] < 2 ^ 63 -> valid_fop op ->
  exists k', run_fop fd op k = ((abs_fop rd wr op st).1, k') /\ opened fd rd wr t (abs_fop rd wr op st).2 k'.
Proof.
  intros Ho Hfd Hp Hlw Hv. assert (Hl : zlen (o_content st) < 2 ^ 63) by (destruct op; simpl in Hlw; lia).
  assert (Hop := Ho). destruct Hop as (Hc & HF & Hp0). destruct op as [len|buf|off whence]; simpl in Hv |- *.
  - pose proof (on_file_opened fd rd wr t st k (fun f => File_read f len) Ho Hfd) as Hon. unfold read, bind. revert Hon.
    unfold File_read at 1, on_kind. cbn [readable f_kind]. destruct rd; cbn [negb].
    + unfold bind at 1, kind_read. unfold bind at 1, sys, map_err, on_world.
      destruct (pf_read (o_content st) (world k) (o_pos st) len HF Hp0 Hv) as (w' & Hr & HF'). rewrite Hr. cbn. rewrite advance_small by (rewrite ?length_take, ?length_drop; lia).
      intros Hon. destruct (Hon (abs_fop true wr (OpRead len) st).2) as (k' & -> & Ho'); [done|done|done|simpl; lia|].
      by exists k'.
    + cbn. intros ->. by exists k.
  - pose proof (on_file_opened fd rd wr t st k (fun f => File_write f buf) Ho Hfd) as Hon. unfold write, bind. revert Hon.
    unfold File_write at 1, on_kind. cbn [writable f_kind]. destruct wr; cbn [negb].
    + unfold bind at 1, kind_write. unfold bind at 1, sys, map_err, on_world.
      destruct (Z.ltb_spec (zlen (o_content st)) (o_pos st)).
      * destruct (pf_write_gap (o_content st) (world k) (o_pos st) buf HF ltac:(lia)) as (w' & Hr & HF'). rewrite Hr. cbn.
        intros ->. eexists. split; [done|]. by split.
      * destruct (pf_write (o_content st) (world k) (o_pos st) buf HF ltac:(lia)) as (w' & Hr & HF'). rewrite Hr. cbn. simpl in Hlw. rewrite advance_small by lia.
        intros Hon. destruct (Hon (mkOpen (overwrite (o_pos st) buf (o_content st)) (o_pos st + zlen buf))) as (k' & -> & Ho');
          [done|done|done|simpl; lia|]. by exists k'.
    + cbn. intros ->. by exists k.
  - pose proof (on_file_opened fd rd wr t st k (fun f => File_seek f off whence) Ho Hfd) as Hon. unfold seek, bind. revert Hon.
    unfold File_seek at 1, on_kind. cbn [f_kind negb]. unfold bind at 1, kind_seek. unfold bind at 1, map_err.
    destruct (calculate_offset_eq st k off whence HF ltac:(lia) Hl Hv) as (w' & HF' & Hq). rewrite Hq. unfold in_range.
    destruct (Z.leb_spec 0 (seek_target st off whence)), (Z.ltb_spec (seek_target st off whence) (2 ^ 63)); cbn.
    + intros Hon. destruct (Hon (mkOpen (o_content st) (seek_target st off whence))) as (k' & -> & Ho'); [done|done|done|done|].
      by exists k'.
    + intros ->. eexists. split; [done|]. by split.
    + intros ->. eexists. split; [done|]. by split.
    + intros ->. eexists. split; [done|]. by split.
Qed.

Lemma overwrite_length pos buf (c : list Z) : 0 <= pos <= zlen c -> zlen (overwrite pos buf c) = Z.max (zlen c) (pos + zlen buf).
Proof. intros Hp. unfold overwrite. rewrite !length_app, length_take, length_drop. lia. Qed.

(** Positions and sizes stay in range while what is written does. *)
Lemma abs_fop_bounds rd wr op st : 0 <= o_pos st < 2 ^ 63 -> valid_fop op -> zlen (o_content st) + written [op] < 2 ^ 63 ->
  let st' := (abs_fop rd wr op st).2 in
  0 <= o_pos st' < 2 ^ 63 /\ zlen (o_content st') <= zlen (o_content st) + written [op].
Proof.
  intros Hp Hv Hw. destruct op as [len|buf|off whence]; simpl in *.
  - destruct rd; simpl; [|lia]. rewrite length_take, length_drop. split; lia.
  - destruct wr; simpl; [|lia]. destruct (Z.ltb_spec (zlen (o_content st)) (o_pos st)); simpl; [lia|].
    rewrite overwrite_length by lia. lia.
  - destruct (Z.leb_spec 0 (seek_target st off whence)), (Z.ltb_spec (seek_target st off whence) (2 ^ 63)); simpl; lia.
Qed.

Lemma written_cons op ops : written (op :: ops) = written [op] + written ops.
Proof. destruct op; simpl; lia. Qed.

Lemma written_pos ops : 0 <= written ops.
Proof. induction ops as [|[] ops IH]; simpl; lia. Qed.

Lemma fops_refine fd rd wr t ops st k : opened fd rd wr t st k -> (Z.to_nat fd < length (o_files t))%nat ->
  o_pos st < 2 ^ 63 -> zlen (o_content st) + written ops < 2 ^ 63 -> Forall valid_fop ops ->
  (run_fops fd ops k).1 = (abs_fops rd wr ops st).1 /\ opened fd rd wr t (abs_fops rd wr ops st).2 (run_fops fd ops k).2.
Proof.
  revert st k. induction ops as [|op ops IH]; intros st k Ho Hfd Hp Hw Hv; [done|]. inversion Hv; subst.
  rewrite written_cons in Hw. pose proof (written_pos ops). assert (Hp0 : 0 <= o_pos st) by apply Ho.
  assert (0 <= written [op]) by apply written_pos.
  destruct (fop_refines fd rd wr t st k op Ho Hfd Hp ltac:(lia) ltac:(done)) as (k1 & Hr & Ho1).
  pose proof (abs_fop_bounds rd wr op st ltac:(lia) ltac:(done) ltac:(lia)) as [Hp1 Hl1]. cbn zeta in Hp1, Hl1.
  simpl. rewrite Hr. destruct (abs_fop rd wr op st) as [o st1]. simpl in *.
  destruct (IH st1 k1 Ho1 Hfd) as [He Ho2]; [lia|lia|done|].
  destruct (run_fops fd ops k1), (abs_fops rd wr ops st1). simpl in *. by subst.
Qed.
End session.
