(* ===== verification/FcntlTheorems.v ===== *)
(** * Theorems on files and descriptors

    Safety of every sequence of file system calls over the mount layer and
    the memory file systems; a descriptor as a file with a position; and the
    choice of descriptors by [open]. *)

From S2P Require Import Prelude Bytes Path Vfs Dir EfsVfs HashMap InodeOps RamFs RamFsInv RamFsOps RamFsMethods RamFsClient.
From S2P Require Import Pathname InodeRefs Mount MountRefs Fcntl FcntlRefs FcntlFiles.
From stdpp Require Import gmultiset.
Import Vfs.

#[local] Open Scope Z_scope.
#[local] Open Scope rw_scope.

(** ** System calls over mounted file systems *)

Section stack.
Context {P D T MT X Pi : Type} `{FileContentProvider P} `{Device D} `{!DeviceLaws D}.
Context `{HashMap (list Z) Z T} `{!HashMapLaws (list Z) Z T} `{HashMap Z Z MT} `{!HashMapLaws Z Z MT}.
Context `{Pipes X Pi} (J : list Pi -> X -> Prop) `{!PipeLaws J}.

#[local] Notation world := (RamFs.world P D T).
#[local] Notation system := (system (mounts world MT) (MountFsINode Z) X Pi).

(** A first task with no file open, in the root directory. *)
Definition boot (w : world) (tbl : MT) (x : X) : system :=
  mkSystem (mkKernel (mkMounts w tbl) x (Some (mkTask None (replicate MAX_OPEN_FILES None)))) [].

Definition tasks (s : system) : list (Task (MountFsINode Z) Pi) := others s ++ option_list (current (kern s)).

(** The references to inodes of the memory file systems that tasks hold. *)
Definition held (s : system) : list Z := (tasks s ≫= task_inodes) ≫= mrefs.

Lemma boot_SI j w main_fs tbl x n : runs j w ∅ (lsd (mounted_fs main_fs tbl)) -> 3 + Z.of_nat (j + n) < 2 ^ 64 -> J [] x ->
  SI (mount_refs ram_refs main_fs) J [tt] n (boot w tbl x).
Proof.
  intros Hr Hj HJ. destruct (runs_inv j w _ _ Hr ltac:(lia)) as [Hi Hu]. split; [done|]. split; [by repeat constructor|].
  split; [done|]. split; [|done]. split; [done|]. simpl. exists (Z.of_nat j). split_and!; [lia|done|done|lia].
Qed.

Lemma SI_held main_fs n s : SI (mount_refs ram_refs main_fs) J [tt] n s ->
  exists ownf, inv (below (Fcntl.world (kern s))) (lsd (held s)) ownf /\ J (tasks s ≫= task_pipes) (pipes (kern s)).
Proof.
  intros [_ [_ (_ & [_ (k & _ & Hi & _)] & HJ)]]. unfold held, tasks. rewrite !bind_app. eexists. split.
  - rewrite bind_app in Hi. destruct (current (kern s)); simpl in *; rewrite ?app_nil_r in *; exact Hi.
  - destruct (current (kern s)); simpl in *; rewrite ?app_nil_r in *; exact HJ.
Qed.

(** C32. Whatever system calls on files the tasks of the kernel make, with
    forks, exits and task switches between them, over memory file systems
    mounted on each other: no call panics; every inode that an open file or a working
    directory refers to is alive; and an object is on the heap only while it
    can be reached from a file system or from an inode that a task holds, so
    that the tasks leave nothing behind when they exit. *)
Theorem fcntl_stack_safe j w main_fs tbl x cs :
  runs j w ∅ (lsd (mounted_fs main_fs tbl)) -> 3 + Z.of_nat (j + length cs) < 2 ^ 64 -> J [] x ->
  let res := run_fcalls (H := mount_inodes main_fs) tt cs (boot w tbl x) in
  let w' := below (Fcntl.world (kern res.2)) in
  Forall (fun o => o <> Panic) res.1 /\
  (forall r, r ∈ held res.2 -> is_Some (heap w' !! r)) /\
  (forall r c n, heap w' !! r = Some (c, n) -> reachable w' (lsd (held res.2)) r) /\
  J (tasks res.2 ≫= task_pipes) (pipes (kern res.2)).
Proof.
  intros Hr Hj HJ res w'. pose proof (boot_SI j w main_fs tbl x (length cs) Hr Hj HJ) as HS.
  destruct (run_fcalls_SI (H := mount_inodes main_fs) tt (mount_refs ram_refs main_fs) J [tt] ltac:(by left) cs (boot w tbl x) HS) as [Hp HS'].
  destruct (SI_held main_fs 0 _ HS') as (ownf & Hi & HJ'). split_and!; [done| | |done].
  - intros r Hin. destruct (inv_held _ _ _ r Hi) as (c & n & Hn); [by apply elem_of_lsd|].
    unfold w', res. by rewrite Hn.
  - intros r c n Hn. by eapply inv_reachable.
Qed.
End stack.

(** ** Descriptors *)

Section descriptors.
Context {W F R X Pi : Type} `{VfsINodeOps W F R} `{Pipes X Pi}.
Context (fs : F).

#[local] Notation File := (File R Pi).
#[local] Notation Task := (Task R Pi).
#[local] Notation kernel := (kernel W R X Pi).
#[local] Notation KM := (M kernel Sys.SysErrorKind).
Implicit Types (t : Task) (f : File) (k : kernel).

(** A step that leaves the task as it is, with a result in [Q]. *)
Definition yields {E A} (m : M kernel E A) (Q : A -> Prop) : Prop :=
  forall k, current (m k).2 = current k /\ match (m k).1 with Ok a => Q a | _ => True end.

Definition anything {A} : A -> Prop := fun _ => True.

Lemma yields_ret {E A} (a : A) (Q : A -> Prop) : Q a -> yields (E := E) (ret a) Q.
Proof. by intros Ha k. Qed.

Lemma yields_fail {E A} (e : E) (Q : A -> Prop) : yields (fail e) Q.
Proof. by intros k. Qed.

Lemma yields_panic {E A} (Q : A -> Prop) : yields (E := E) panic Q.
Proof. by intros k. Qed.

Lemma yields_bind {E A B} (m : M kernel E A) (g : A -> M kernel E B) P Q :
  yields m P -> (forall a, P a -> yields (g a) Q) -> yields (bind m g) Q.
Proof.
  intros Hm Hg k. specialize (Hm k). unfold bind. destruct (m k) as [[a|e|] k']; [|done..]. destruct Hm as [Hc Ha]. simpl in *.
  rewrite <- Hc. exact (Hg a Ha k').
Qed.

Lemma yields_then {E A B} (m : M kernel E A) (g : A -> M kernel E B) Q :
  yields m anything -> (forall a, yields (g a) Q) -> yields (bind m g) Q.
Proof. intros Hm Hg. eapply yields_bind; [done|]. intros a _. apply Hg. Qed.

Lemma yields_world {E A} (m : M W E A) : yields (on_world m) anything.
Proof. intros k. unfold on_world. by destruct (m (world k)) as [[] w']. Qed.

Lemma yields_map_err {E E' A} (g : E -> E') (m : M kernel E A) Q : yields m Q -> yields (map_err g m) Q.
Proof. intros Hm k. specialize (Hm k). unfold map_err. by destruct (m k) as [[] k']. Qed.

Lemma yields_scoped {E A} r (m : M kernel E A) Q : yields m Q -> yields (scoped_k r m) Q.
Proof. intros Hm k. specialize (Hm k). unfold scoped_k. by destruct (m k) as [[] k']. Qed.

Lemma yields_guarded {E A} r (m : M kernel E A) Q : yields m Q -> yields (guarded r m) Q.
Proof. intros Hm k. specialize (Hm k). unfold guarded. by destruct (m k) as [[] k']. Qed.

Lemma yields_modify {E} (g : W -> W) : yields (E := E) (modify (update_world g)) anything.
Proof. by intros k. Qed.

Lemma yields_ok_or {E A} (o : option A) (e : E) : yields (ok_or o e) anything.
Proof. by destruct o. Qed.

Lemma yields_outcome {E A} (o : outcome E A) : yields (of_outcome o) anything.
Proof. intros k. by destruct o. Qed.

Lemma yields_current : yields current_task_or_err anything.
Proof. intros k. unfold current_task_or_err. by destruct (current k) eqn:Hc; simpl; rewrite ?Hc. Qed.

Ltac steady := repeat (first
  [ done
  | apply yields_fail | apply yields_panic | apply yields_world | apply yields_modify | apply yields_ok_or | apply yields_outcome | apply yields_current
  | apply yields_map_err | apply yields_scoped | apply yields_guarded
  | apply yields_ret; done
  | apply yields_then; [|intros ?]
  | match goal with |- yields (match ?x with _ => _ end) _ => destruct x end
  | match goal with |- yields (if ?x then _ else _) _ => destruct x end ]).

Lemma current_task_inode_yields : yields (current_task_inode fs) anything.
Proof. unfold current_task_inode, sys. steady. Qed.

Lemma try_lookup_yields path : yields (try_lookup fs path) anything.
Proof. unfold try_lookup. steady. Qed.

Lemma lookup_yields path : yields (Fcntl.lookup fs path) anything.
Proof. unfold Fcntl.lookup. steady. Qed.

Lemma lookup_parent_yields path : yields (lookup_parent fs path) anything.
Proof.
  unfold lookup_parent. destruct (Path.next_back _) as [[[| | |name]|] rest]; steady.
Qed.

Lemma open_inode_yields path flags : yields (open_inode fs path flags) anything.
Proof.
  unfold open_inode, sys. steady. apply lookup_parent_yields.
Qed.

Lemma seek_yields f off whence :
  yields (File_seek f off whence) (fun res => readable res.2 = readable f /\ writable res.2 = writable f).
Proof.
  unfold File_seek, on_kind. simpl. apply yields_then; [|intros [a fk]; by apply yields_ret].
  unfold kind_seek, calculate_offset, i64_try_from, checked_add, sys. destruct (f_kind f); steady.
Qed.

(** The file [open] puts into the table. *)
Definition open_file (path : list Z) (flags : Z) : KM File :=
  do res <- open_inode fs path flags;
  guarded res.1 (
    (if res.2 && contains flags (Z.lor EXCL CREAT) then fail Sys.AlreadyExists else ret tt);;
    do ty <- sys (on_world (file_type res.1));
    check_file_type_for_open ty flags path;;
    (if res.2 && contains flags TRUNC then sys (on_world (v_truncate res.1 0));; ret tt else ret tt);;
    if contains flags APPEND
    then do sk <- File_seek (with_inode res.1 flags) 0 SeekEnd; ret sk.2
    else ret (with_inode res.1 flags)).

Lemma open_eq path flags k : open fs path flags k =
  (do file <- open_file path flags;
   do t <- catch current_task_or_err (fun e => drop_file file;; fail e);
   allocate_fd_for file) k.
Proof. unfold open, open_file, bind. by destruct (open_inode fs path flags k) as [[[r existed]|e|] k0]. Qed.

Lemma open_file_yields path flags :
  yields (open_file path flags) (fun f => readable f = flags_readable flags /\ writable f = flags_writable flags).
Proof.
  apply yields_then; [apply open_inode_yields|]. intros [r existed]. apply yields_guarded.
  apply yields_then; [steady|intros _]. apply yields_then; [unfold sys; steady|intros ty].
  apply yields_then; [unfold check_file_type_for_open; steady|intros _]. apply yields_then; [unfold sys; steady|intros _].
  destruct (contains flags APPEND); [|by apply yields_ret]. eapply yields_bind; [apply seek_yields|].
  intros [a f] Hf. by apply yields_ret.
Qed.

Lemma first_free_least (l : list (option File)) i : first_free l = Some i ->
  l !! i = Some None /\ forall j, (j < i)%nat -> exists g, l !! j = Some (Some g).
Proof.
  revert i. induction l as [|[g|] l IH]; intros i Hi; simpl in *; [done| |simplify_eq; split; [done|lia]].
  destruct (first_free l) as [m|]; [|done]. simpl in Hi. simplify_eq. destruct (IH m eq_refl) as [Hm Hl]. split; [done|].
  intros [|j] Hj; [by exists g|]. apply Hl. lia.
Qed.

(** C33. A descriptor that [open] returns is the lowest one that was free; the
    other entries of the table and the working directory stay as they were,
    the file is readable and writable as the flags say, and closing the
    descriptor gives back the table there was. *)
Theorem open_lowest_free t path flags fd k k1 : current k = Some t -> open fs path flags k = (Ok fd, k1) ->
  exists i f k2, fd = Z.of_nat i /\ o_files t !! i = Some None /\
    (forall j, (j < i)%nat -> exists g, o_files t !! j = Some (Some g)) /\
    current k1 = Some (mkTask (cwd t) (<[i := Some f]> (o_files t))) /\
    readable f = flags_readable flags /\ writable f = flags_writable flags /\
    close fd k1 = (Ok tt, k2) /\ current k2 = Some t.
Proof.
  intros Ht. rewrite open_eq. pose proof (open_file_yields path flags k) as Hy. unfold bind at 1.
  destruct (open_file path flags k) as [[f|e|] k3]; [|done..]. destruct Hy as (Hc & Hr & Hw). simpl in *. rewrite Ht in Hc.
  unfold bind at 1, catch, current_task_or_err at 1. rewrite Hc.
  unfold allocate_fd_for, bind at 1, current_task_or_err. rewrite Hc.
  destruct (first_free (o_files t)) as [i|] eqn:Hi; [|done]. intros Ho. apply first_free_least in Hi as [Hi Hl].
  unfold bind, set_task, modify, ret in Ho. simplify_eq. exists i, f. eexists. split_and!; [done..| |].
  - unfold close, bind, current_task_or_err. simpl. rewrite Nat2Z.id, list_lookup_insert_eq by (by eapply lookup_lt_Some).
    unfold set_task, modify, drop_file. reflexivity.
  - destruct t as [d l]. simpl in *. unfold drop_kind. rewrite list_insert_insert_eq, (list_insert_id l i None) by done.
    by destruct (f_kind f).
Qed.
End descriptors.

(** ** Sessions *)

(** C34. Reads, writes and seeks through a descriptor of a plain file are those
    of a position in a sequence of bytes: every call returns what the
    abstract file returns, errors included, the position moves by what was
    read or written, a seek outside the range of [i64] or before the start
    fails and leaves it, and no other descriptor is touched. *)
Theorem descriptor_session {W F R X Pi : Type} `{VfsINodeOps W F R} `{Pipes X Pi} (r : R) (FJ : list Z -> W -> Prop)
    `{!PlainFile r FJ} fd rd wr (t : Task R Pi) c pos ops (k : kernel W R X Pi) :
  current k = Some t -> o_files t !! Z.to_nat fd = Some (Some (mkFile wr rd (FInode r pos))) -> FJ c (Fcntl.world k) ->
  0 <= pos < 2 ^ 63 -> zlen c + written ops < 2 ^ 63 -> Forall valid_fop ops ->
  let res := abs_fops rd wr ops (mkOpen c pos) in
  (run_fops fd ops k).1 = res.1 /\
  FJ (o_content res.2) (Fcntl.world (run_fops fd ops k).2) /\
  current (run_fops fd ops k).2 =
    Some (mkTask (cwd t) (<[Z.to_nat fd := Some (mkFile wr rd (FInode r (o_pos res.2)))]> (o_files t))).
Proof.
  intros Hc Hf HF Hp Hw Hv res. assert (Hfd : (Z.to_nat fd < length (o_files t))%nat) by (by eapply lookup_lt_Some).
  destruct (fops_refine r FJ fd rd wr t ops (mkOpen c pos) k) as (He & Ho1 & Ho2 & _); simpl; try done; try lia.
  split_and!; [|done|simpl; lia]. rewrite Hc. f_equal. destruct t as [d l]. simpl in *. by rewrite list_insert_id.
Qed.

(** ** Instances

    A main file system with a directory, a second one mounted on it with a
    file, and pipes that are always empty. *)
Section instances.
#[local] Notation example_world := (RamFs.world (list Z) BuiltinDev (gmap (list Z) Z)).

#[local] Instance empty_pipes : Pipes unit unit := {|
  pipe_read := fun _ _ => ret [];
  pipe_write := fun _ _ => ret 0;
  pipe_create := ret (tt, tt);
  pipe_clone := fun _ x => x;
  pipe_drop := fun _ x => x
|}.

#[local] Instance empty_pipe_laws : PipeLaws (fun (_ : list unit) (_ : unit) => True).
Proof. by split. Qed.

Definition mounted_calls : list (call (P := list Z)) :=
  [CNewFs; CRoot 0; CCreate 1 (bytes_of "tmp") UDirectory; CNewFs; CRoot 3; CCreate 4 [120] RegularFile; CDrop 1; CDrop 2; CDrop 4; CDrop 5].

Definition mounted_world : example_world * gmultiset Z * gmultiset Z := exec mounted_calls (start ∅).

Arguments mounted_world : simpl never.

Definition tmp_table : gmap Z Z := {[ 2 := 3 ]}.

Lemma mounted_world_runs : runs 10 mounted_world.1.1 ∅ (lsd (mounted_fs 0 tmp_table)).
Proof.
  assert (Hr : runs 10 mounted_world.1.1 mounted_world.1.2 mounted_world.2).
  { apply (exec_runs 0 mounted_calls (start ∅)); [constructor|by vm_compute]. }
  assert (He : mounted_world.1.2 = ∅) by (by vm_compute). assert (Hf : mounted_world.2 = lsd (mounted_fs 0 tmp_table)) by (by vm_compute).
  rewrite He, Hf in Hr. exact Hr.
Qed.

(** A task opens a file, forks, and both tasks write and exit. *)
Definition example_fcalls : list fcall :=
  [FOpen (bytes_of "/tmp/y") (Z.lor RDWR CREAT); FFork; FWrite 0 [1; 2; 3]; FSwitch; FUnlink (bytes_of "/tmp/y"); FCd (bytes_of "/tmp"); FExit; FExit].

Lemma fcntl_stack_safe_witness : exists s,
  run_fcalls (H := mount_inodes 0) tt example_fcalls (boot mounted_world.1.1 tmp_table tt) = (replicate 8 (Ok tt), s) /\
  held s = [] /\ (forall r c n, heap (below (Fcntl.world (kern s))) !! r = Some (c, n) -> reachable (below (Fcntl.world (kern s))) ∅ r).
Proof.
  destruct (fcntl_stack_safe (fun _ _ => True) 10 mounted_world.1.1 0 tmp_table tt example_fcalls mounted_world_runs ltac:(vm_compute; reflexivity) Logic.I)
    as (_ & _ & Hr & _).
  assert (Ho : (run_fcalls (H := mount_inodes 0) tt example_fcalls (boot mounted_world.1.1 tmp_table tt)).1 = replicate 8 (Ok tt)) by (by vm_compute).
  assert (Hh : held (run_fcalls (H := mount_inodes 0) tt example_fcalls (boot mounted_world.1.1 tmp_table tt)).2 = []) by (by vm_compute).
  rewrite Hh in Hr. destruct (run_fcalls tt example_fcalls _) as [os s]. simpl in *. subst os. by exists s.
Defined.

(** A kernel whose task opens a file of a memory file system. *)
Definition fresh_kernel : kernel example_world Z unit unit :=
  mkKernel (exec [CNewFs (P := list Z)] (start ∅)).1.1 tt (Some (mkTask None (replicate MAX_OPEN_FILES None))).

Definition opened_kernel : kernel example_world Z unit unit := (open (H := ram_inodes) 0 (bytes_of "/a") (Z.lor RDWR CREAT) fresh_kernel).2.

Arguments fresh_kernel : simpl never.
Arguments opened_kernel : simpl never.

Lemma open_lowest_free_witness : exists k2, close (H := ram_inodes) 0 opened_kernel = (Ok tt, k2) /\
  current k2 = Some (mkTask None (replicate MAX_OPEN_FILES None)).
Proof.
  destruct (open_lowest_free (H := ram_inodes) 0 (mkTask None (replicate MAX_OPEN_FILES None)) (bytes_of "/a") (Z.lor RDWR CREAT) 0
    fresh_kernel opened_kernel) as (i & f & k2 & _ & _ & _ & _ & _ & _ & Hc & Ht).
  - reflexivity.
  - vm_compute. reflexivity.
  - exists k2. split; [exact Hc|exact Ht].
Defined.

Definition example_ops : list fop := [OpWrite [1; 2; 3]; OpSeek (-2) SeekCurrent; OpRead 5; OpSeek (-4) SeekEnd; OpWrite [9]].

Lemma descriptor_session_witness :
  (run_fops (H := ram_inodes) 0 example_ops opened_kernel).1 =
    [Ok (inr 3); Ok (inr 1); Ok (inl [2; 3]); Err Sys.InvalidArgument; Ok (inr 1)] /\
  ram_file 2 [1; 2; 3; 9] (Fcntl.world (run_fops (H := ram_inodes) 0 example_ops opened_kernel).2).
Proof.
  destruct (descriptor_session (H := ram_inodes) 2 (ram_file 2) 0 true true
    (mkTask None (Some (mkFile true true (FInode 2 0)) :: replicate 19 None)) [] 0 example_ops opened_kernel) as (Hr & Hf & _).
  - vm_compute. reflexivity.
  - reflexivity.
  - vm_compute. eauto.
  - lia.
  - vm_compute. reflexivity.
  - unfold example_ops. repeat (apply Forall_cons_2; [simpl; (exact Logic.I || lia)|]). apply Forall_nil_2.
  - split; [exact Hr|exact Hf].
Defined.
End instances.
