(* ===== verification/Tty.v ===== *)
(** * The terminal (src/kernel/src/devices/tty/{discipline,mod}.rs,
      src/kernel/src/devices/terminal.rs, src/kernel/src/drivers/uart.rs)

    The line discipline turns the bytes of the keyboard into lines that can
    be edited before they are read, and echoes them on a screen; the device
    hands lines to readers.  A screen is any implementation of [TextScreen];
    that of the UART sends control sequences.  Tasks are known by their
    numbers, and the signals sent to them are recorded. *)

From S2P Require Import Prelude Bytes Vfs.
Import Vfs.

#[local] Open Scope Z_scope.
#[local] Open Scope rw_scope.

(** ** Screens *)

Class TextScreen (S : Type) : Type := {
  ts_write : list Z -> S -> outcome Sys.SysErrorKind Z * S;
  ts_clear_screen : S -> outcome Sys.SysErrorKind unit * S;
  insert_whitespace_at_cursor : S -> S;
  delete_char_before_cursor : S -> S;
  move_cursor_left : nat -> S -> S;
  move_cursor_right : nat -> S -> S;
  clear_to_end_of_line : S -> S
}.

(** The bytes of a number in decimal, [format!("{n}")]. *)
Fixpoint digits (fuel : nat) (n : Z) : list Z :=
  match fuel with
  | O => []
  | S fuel' => if n <? 10 then [48 + n] else digits fuel' (n / 10) ++ [48 + n mod 10]
  end.

(** A [usize] has at most 20 digits. *)
Definition decimal (n : nat) : list Z := digits 20 (Z.of_nat n).

Definition ESC : Z := 27.

(** The bytes written to the transmit register so far. *)
Definition uart_write_sync (bytes : list Z) (sent : list Z) : list Z := sent ++ bytes.

#[export] Instance UartTextScreen : TextScreen (list Z) := {|
  ts_write := fun buf s => (Ok (zlen buf), uart_write_sync buf s);
  ts_clear_screen := fun s => (Ok tt, uart_write_sync (ESC :: bytes_of "[2J" ++ ESC :: bytes_of "[H") s);
  insert_whitespace_at_cursor := uart_write_sync (ESC :: bytes_of "[1@");
  delete_char_before_cursor := uart_write_sync (ESC :: bytes_of "[D" ++ ESC :: bytes_of "[1P");
  move_cursor_left := fun n s => if (n =? 0)%nat then s else uart_write_sync (ESC :: bytes_of "[" ++ decimal n ++ bytes_of "D") s;
  move_cursor_right := fun n s => if (n =? 0)%nat then s else uart_write_sync (ESC :: bytes_of "[" ++ decimal n ++ bytes_of "C") s;
  clear_to_end_of_line := uart_write_sync (ESC :: bytes_of "[0K")
|}.

(** ** The line discipline *)

Inductive Key : Type :=
| KEof | KDown | KUp | KLeft | KRight | KBackspace | KCtrlU | KCtrlD | KHome | KEnd | KIgnored
| KNormal (ch : Z).

Definition from_escape (escape_chars : Z * Z) : Key :=
  if negb (escape_chars.1 =? 91) then KIgnored
  else if escape_chars.2 =? 68 then KLeft
  else if escape_chars.2 =? 67 then KRight
  else if escape_chars.2 =? 65 then KUp
  else if escape_chars.2 =? 66 then KDown
  else if escape_chars.2 =? 72 then KHome
  else if escape_chars.2 =? 70 then KEnd
  else KIgnored.

Record LineDiscipline : Type := mkLine {
  completed_lines : list (list Z);
  line_buffer : list Z;
  edit : nat;
  read_escape_idx : option nat;
  escape_chars : Z * Z;
  echo : bool;
  canonical : bool
}.

Definition LineDiscipline_new : LineDiscipline := mkLine [] [] 0 None (0, 0) true true.

Definition set_line (buf : list Z) (i : nat) (d : LineDiscipline) : LineDiscipline :=
  mkLine (completed_lines d) buf i (read_escape_idx d) (escape_chars d) (echo d) (canonical d).
Definition set_escape (i : option nat) (chars : Z * Z) (d : LineDiscipline) : LineDiscipline :=
  mkLine (completed_lines d) (line_buffer d) (edit d) i chars (echo d) (canonical d).
Definition set_completed (l : list (list Z)) (d : LineDiscipline) : LineDiscipline :=
  mkLine l (line_buffer d) (edit d) (read_escape_idx d) (escape_chars d) (echo d) (canonical d).

Definition is_ascii_whitespace (ch : Z) : bool := (ch =? 32) || (ch =? 9) || (ch =? 10) || (ch =? 12) || (ch =? 13).

Section discipline.
Context {S : Type} `{TextScreen S}.

(** A method of the discipline, with the screen it writes to; it never
    returns an error. *)
#[local] Notation LM := (M (LineDiscipline * S) Empty_set).

Definition on_screen (f : S -> S) : LM unit :=
  do d <- get_focus; if echo d then lift (modify f) else ret tt.

Definition completed_line : LM (option (list Z)) :=
  do d <- get_focus;
  match completed_lines d with
  | [] => ret None
  | line :: rest => put_focus (set_completed rest d);; ret (Some line)
  end.

(** [escape_chars[i] = ch]; out of range indexing panics. *)
Definition read_key (ch : Z) : LM Key :=
  do d <- get_focus;
  match read_escape_idx d with
  | Some i =>
    do chars <- match i with
                | 0 => ret (ch, (escape_chars d).2)
                | 1 => ret ((escape_chars d).1, ch)
                | _ => panic
                end%nat;
    if (i + 1 =? 2)%nat
    then put_focus (set_escape None chars d);; ret (from_escape chars)
    else put_focus (set_escape (Some (i + 1)%nat) chars d);; ret KIgnored
  | None =>
    if ch =? 0 then ret KEof
    else if ch =? 27 then put_focus (set_escape (Some 0%nat) (escape_chars d) d);; ret KIgnored
    else if (ch =? 8) || (ch =? 127) then ret KBackspace
    else if ch =? 21 then ret KCtrlU
    else if ch =? 4 then ret KCtrlD
    else ret (KNormal ch)
  end.

(** The result of the write is ignored. *)
Definition echo_byte (byte : Z) : LM unit := on_screen (fun s => (ts_write [byte] s).2).

Definition insert_char_to_buffer (ch : Z) : LM unit :=
  if (ch =? 10) || (ch =? 0) then
    do d <- get_focus;
    put_focus (set_completed (completed_lines d ++ [line_buffer d ++ [ch]]) (set_line [] 0 d));;
    echo_byte ch
  else
    do d <- get_focus;
    (if (length (line_buffer d) <? edit d)%nat then panic else
     put_focus (set_line (take (edit d) (line_buffer d) ++ ch :: drop (edit d) (line_buffer d)) (edit d + 1) d));;
    do d' <- get_focus;
    (if negb (edit d' =? length (line_buffer d'))%nat then on_screen insert_whitespace_at_cursor else ret tt);;
    echo_byte ch.

(** [line_buffer.remove(i)] does nothing out of range. *)
Definition delete_char : LM unit :=
  do d <- get_focus;
  if (edit d =? 0)%nat then ret tt else
  on_screen delete_char_before_cursor;;
  put_focus (set_line (delete (edit d - 1)%nat (line_buffer d)) (edit d - 1) d).

Definition clear_line : LM unit :=
  do d <- get_focus;
  on_screen (fun s => clear_to_end_of_line (move_cursor_left (edit d) s));;
  put_focus (set_line [] 0 d).

(** The [match] of [input_byte]. *)
Definition handle_key (key : Key) : LM unit :=
  do d0 <- get_focus;
  match key with
  | KIgnored | KDown | KUp => ret tt
  | KBackspace => delete_char
  | KCtrlU => clear_line
  | KCtrlD => if bool_decide (line_buffer d0 = []) then insert_char_to_buffer 0 else ret tt
  | KEof => insert_char_to_buffer 0
  | KHome => on_screen (move_cursor_left (edit d0));; put_focus (set_line (line_buffer d0) 0 d0)
  | KEnd =>
    (if echo d0 then
       if (length (line_buffer d0) <? edit d0)%nat then panic
       else on_screen (move_cursor_right (length (line_buffer d0) - edit d0))
     else ret tt);;
    put_focus (set_line (line_buffer d0) (length (line_buffer d0)) d0)
  | KLeft =>
    if (edit d0 =? 0)%nat then ret tt
    else put_focus (set_line (line_buffer d0) (edit d0 - 1) d0);; on_screen (move_cursor_left 1)
  | KRight =>
    if (edit d0 <? length (line_buffer d0))%nat
    then put_focus (set_line (line_buffer d0) (edit d0 + 1) d0);; on_screen (move_cursor_right 1)
    else ret tt
  | KNormal ch =>
    if ch =? 9 then
      if forallb is_ascii_whitespace (line_buffer d0) then insert_char_to_buffer 32 else ret tt
    else insert_char_to_buffer (if ch =? 13 then 10 else ch)
  end.

(** Whether a line was completed. *)
Definition input_byte (byte : Z) : LM bool :=
  do key <- read_key byte;
  do d0 <- get_focus;
  handle_key key;;
  do d1 <- get_focus;
  ret (negb (length (completed_lines d0) =? length (completed_lines d1))%nat).

(** ** The device *)

Record TtyDevice : Type := mkTty {
  current_tgid : Z;
  current_sid : option Z;
  current_read_buf : list Z;
  line_discipline : LineDiscipline;
  wq : list Z
}.

(** The device, its screen, and the signals sent, with their receivers. *)
Record tty : Type := mkState { dev : TtyDevice; text_screen : S; sent : list (Z * Z) }.

#[local] Notation TM := (M tty Empty_set).

Definition TtyDevice_new : TtyDevice := mkTty 0 None [] LineDiscipline_new [].

Definition SIGINT : Z := 2.
Definition SIGQUIT : Z := 3.
Definition SIGCONT : Z := 18.
Definition SIGTTIN : Z := 21.

Definition set_discipline (d : LineDiscipline) (x : TtyDevice) : TtyDevice :=
  mkTty (current_tgid x) (current_sid x) (current_read_buf x) d (wq x).
Definition set_read_buf (b : list Z) (x : TtyDevice) : TtyDevice :=
  mkTty (current_tgid x) (current_sid x) b (line_discipline x) (wq x).
Definition set_wq (q : list Z) (x : TtyDevice) : TtyDevice :=
  mkTty (current_tgid x) (current_sid x) (current_read_buf x) (line_discipline x) q.

Definition on_line {A} (m : LM A) : TM A :=
  fun t => let '(o, (d, s)) := m (line_discipline (dev t), text_screen t) in
           (o, mkState (set_discipline d (dev t)) s (sent t)).

(** The tasks that exist. *)
Variable task_exists : Z -> bool.

Definition send (tid signal : Z) (t : tty) : tty := mkState (dev t) (text_screen t) (sent t ++ [(tid, signal)]).

(** The task that calls, if any, with its session, and the sessions of the
    tasks of the table. *)
Definition set_fg_tgid (current : option (Z * Z)) (sid_of : Z -> option Z) (tgid : Z) : M tty Sys.SysErrorKind unit :=
  do taskref <- (if tgid =? 0 then match current with Some c => ret c | None => fail Sys.IOError end
                 else match sid_of tgid with Some sid => ret (tgid, sid) | None => fail Sys.NoSuchProcess end);
  do t <- get;
  let (task_tid, task_sid) := taskref : Z * Z in
  match current_sid (dev t) with
  | Some csid =>
    match current with
    | Some (ctid, sid) => if negb (sid =? csid) || negb (sid =? ctid) then fail Sys.NotPermitted else ret tt
    | None => fail Sys.IOError
    end
  | None => ret tt
  end;;
  do bound <- (if negb (current_tgid (dev t) =? 0) then
                 match current_sid (dev t) with
                 | Some sid => if negb (sid =? task_sid) then fail Sys.NotPermitted else ret (Some sid)
                 | None => ret None
                 end
               else ret (Some task_sid));
  modify (fun t => mkState (mkTty task_tid bound (current_read_buf (dev t)) (line_discipline (dev t)) (wq (dev t))) (text_screen t) (sent t));;
  modify (send task_tid SIGCONT).

(** [kill_group] of the foreground task: the signal is sent to its group. *)
Definition try_send_signal (byte : Z) : TM bool :=
  do t <- get;
  let fg := current_tgid (dev t) in
  if negb (task_exists fg) then ret false
  else if byte =? 3 then modify (send fg SIGINT);; ret true
  else if byte =? 28 then modify (send fg SIGQUIT);; ret true
  else ret false.

Fixpoint input_loop (buf : list Z) (new_line : bool) : TM bool :=
  match buf with
  | [] => ret new_line
  | byte :: buf' =>
    do sent <- try_send_signal byte;
    if (sent : bool) then input_loop buf' new_line
    else do completed <- on_line (input_byte byte); input_loop buf' (completed || new_line)
  end.

(** The tasks that [signal_all] wakes. *)
Definition receive_input (buf : list Z) : TM (list Z) :=
  do new_line <- input_loop buf false;
  if (new_line : bool) then
    do t <- get;
    modify (fun t => mkState (set_wq [] (dev t)) (text_screen t) (sent t));;
    ret (wq (dev t))
  else ret [].

(** One pass of the loop of [dev_read] by the task [tid], up to the wait. *)
Inductive read_result : Type :=
| ReadBytes (bytes : list Z)
| ReadInterrupted
| ReadWait.

Definition suspended_message (tid : Z) (name : list Z) : list Z :=
  bytes_of "+ tid <" ++ decimal (Z.to_nat tid) ++ bytes_of "> suspended (tty input) " ++ name.

(** The second half of a pass, on the contents of the read buffer. *)
Definition take_bytes (len : Z) (buffer : list Z) : TM read_result :=
  match buffer with
  | [] => ret ReadWait
  | _ =>
    let bytes_read := Z.min (zlen buffer) len in
    modify (fun t => mkState (set_read_buf (drop (Z.to_nat bytes_read) buffer) (dev t)) (text_screen t) (sent t));;
    ret (ReadBytes (take (Z.to_nat bytes_read) buffer))
  end.

Definition read_pass (tid : Z) (name : list Z) (len : Z) : TM read_result :=
  do t <- get;
  if negb (tid =? current_tgid (dev t)) then
    modify (fun t => mkState (dev t) (ts_write (suspended_message tid name) (text_screen t)).2 (sent t));;
    modify (send tid SIGTTIN);;
    ret ReadInterrupted
  else
    match current_read_buf (dev t) with
    | [] =>
      do o <- on_line completed_line;
      match o with
      | Some line => if bool_decide (line = [0]) then ret (ReadBytes []) else take_bytes len line
      | None => ret ReadWait
      end
    | buffer => take_bytes len buffer
    end.

(** The state of a task in [dev_read]: at the start of a pass, between the
    pass and [wq.interruptible_wait()], asleep in the wait queue, or done. *)
Inductive read_pc : Type := RPass | RWait | RAsleep | RDone (res : read_result).

(** A step of the reader [tid]; an asleep reader has none. *)
Definition reader_step (tid : Z) (name : list Z) (len : Z) (pc : read_pc) : TM read_pc :=
  match pc with
  | RPass => do res <- read_pass tid name len; match res with ReadWait => ret RWait | _ => ret (RDone res) end
  | RWait =>
    modify (fun t => mkState (set_wq (wq (dev t) ++ [tid]) (dev t)) (text_screen t) (sent t));;
    ret RAsleep
  | _ => ret pc
  end.

(** Input from the interrupt handler: a reader that is woken starts a new pass. *)
Definition input_step (tid : Z) (buf : list Z) (pc : read_pc) : TM read_pc :=
  do woken <- receive_input buf;
  ret (match pc with RAsleep => if bool_decide (tid ∈ woken) then RPass else RAsleep | _ => pc end).

Definition dev_write (buf : list Z) (t : tty) : outcome Sys.SysErrorKind Z * tty :=
  let (o, s) := ts_write buf (text_screen t) in (o, mkState (dev t) s (sent t)).

End discipline.

Arguments tty : clear implicits.

(** ** The interrupt of the UART

    The bytes waiting in the receiver are read one by one; when the buffer is
    full the loop stops after having read one more. *)
Fixpoint uart_read_loop (fuel : nat) (fifo buf : list Z) : list Z * list Z :=
  match fuel, fifo with
  | Datatypes.S fuel', ch :: fifo' =>
    if 128 <=? zlen buf then (buf, fifo') else uart_read_loop fuel' fifo' (buf ++ [ch])
  | _, _ => (buf, fifo)
  end.

(** The bytes passed to the receivers, and what stays in the receiver. *)
Definition uart_intr (fifo : list Z) : list Z * list Z := uart_read_loop (length fifo) fifo [].
