(* ===== verification/TtyTheorems.v ===== *)
(** * Theorems on the terminal

    Editing a line refines a zipper; what the screen shows is the line being
    edited; readers get the lines in order; and a reader may miss the line
    that was completed while it was about to wait. *)

From S2P Require Import Prelude Bytes Vfs Tty.
Import Vfs.

#[local] Open Scope Z_scope.
#[local] Open Scope rw_scope.

(** ** The abstract editor

    The characters left of the cursor, the last one first, those right of it,
    and the lines completed. *)

Record editor : Type := mkEd { e_left : list Z; e_right : list Z; e_lines : list (list Z) }.

Definition e_line (e : editor) : list Z := rev (e_left e) ++ e_right e.

Definition e_complete (ch : Z) (e : editor) : editor := mkEd [] [] (e_lines e ++ [e_line e ++ [ch]]).
Definition e_insert (ch : Z) (e : editor) : editor := mkEd (ch :: e_left e) (e_right e) (e_lines e).

Definition e_key (key : Key) (e : editor) : editor :=
  match key with
  | KIgnored | KDown | KUp => e
  | KBackspace => mkEd (tail (e_left e)) (e_right e) (e_lines e)
  | KCtrlU => mkEd [] [] (e_lines e)
  | KCtrlD => match e_line e with [] => e_complete 0 e | _ => e end
  | KEof => e_complete 0 e
  | KHome => mkEd [] (e_line e) (e_lines e)
  | KEnd => mkEd (rev (e_line e)) [] (e_lines e)
  | KLeft => match e_left e with x :: l => mkEd l (x :: e_right e) (e_lines e) | [] => e end
  | KRight => match e_right e with x :: r => mkEd (x :: e_left e) r (e_lines e) | [] => e end
  | KNormal ch =>
    if ch =? 9 then if forallb is_ascii_whitespace (e_line e) then e_insert 32 e else e
    else if (ch =? 10) || (ch =? 13) then e_complete 10 e
    else e_insert ch e
  end.

(** Bytes to keys: outside of, after the first and after the second byte of
    an escape sequence. *)
Inductive escape : Type := ENone | EFirst | ESecond (ch : Z).

Definition decode (st : escape) (ch : Z) : Key * escape :=
  match st with
  | EFirst => (KIgnored, ESecond ch)
  | ESecond ch1 => (from_escape (ch1, ch), ENone)
  | ENone =>
    if ch =? 0 then (KEof, ENone)
    else if ch =? 27 then (KIgnored, EFirst)
    else if (ch =? 8) || (ch =? 127) then (KBackspace, ENone)
    else if ch =? 21 then (KCtrlU, ENone)
    else if ch =? 4 then (KCtrlD, ENone)
    else (KNormal ch, ENone)
  end.

Fixpoint e_input (bytes : list Z) (st : escape) (e : editor) : escape * editor :=
  match bytes with
  | [] => (st, e)
  | b :: bytes' => let (key, st') := decode st b in e_input bytes' st' (e_key key e)
  end.

(** ** Screens

    The cells of the line of the cursor, left of it and from it on; none in
    the middle of a control sequence. *)
Class ScreenLaws (S : Type) `{TextScreen S} (cells : S -> option (list Z * list Z)) : Prop := {
  sl_char s ch l r : 32 <= ch <= 126 -> cells s = Some (l, r) -> cells (ts_write [ch] s).2 = Some (l ++ [ch], tail r);
  sl_nul s c : cells s = Some c -> cells (ts_write [0] s).2 = Some c;
  sl_newline s c : cells s = Some c -> cells (ts_write [10] s).2 = Some ([], []);
  sl_insert s l r : cells s = Some (l, r) -> cells (insert_whitespace_at_cursor s) = Some (l, 32 :: r);
  sl_delete s l x r : cells s = Some (l ++ [x], r) -> cells (delete_char_before_cursor s) = Some (l, r);
  sl_left s l1 l2 r : cells s = Some (l1 ++ l2, r) -> zlen l2 < 2 ^ 64 -> cells (move_cursor_left (length l2) s) = Some (l1, l2 ++ r);
  sl_right s l r1 r2 : cells s = Some (l, r1 ++ r2) -> zlen r1 < 2 ^ 64 -> cells (move_cursor_right (length r1) s) = Some (l ++ r1, r2);
  sl_clear s l r : cells s = Some (l, r) -> cells (clear_to_end_of_line s) = Some (l, [])
}.

#[local] Arguments Nat.ltb : simpl never.
#[local] Arguments Nat.eqb : simpl never.
#[local] Arguments Nat.sub : simpl never.
#[local] Arguments Nat.add : simpl never.
#[local] Arguments handle_key : simpl never.

(** Runs a method on a discipline whose fields are known. *)
Ltac run_line := unfold on_screen, echo_byte, put_focus, get_focus, lift, modify, get, bind, ret; cbn.

(** Decides the comparisons of lengths in the goal. *)
Ltac nat_test :=
  repeat first [rewrite (proj2 (Nat.eqb_eq _ _)) by lia | rewrite (proj2 (Nat.eqb_neq _ _)) by lia
               |rewrite (proj2 (Nat.ltb_lt _ _)) by lia | rewrite (proj2 (Nat.ltb_ge _ _)) by lia].

Section tty.
Context {S : Type} `{TextScreen S}.
#[local] Notation LM := (M (LineDiscipline * S) Empty_set).
Implicit Types (d : LineDiscipline) (s : S) (e : editor).

Fixpoint feed (bytes : list Z) : LM unit :=
  match bytes with
  | [] => ret tt
  | b :: bytes' => input_byte b;; feed bytes'
  end.

Definition escape_is (st : escape) d : Prop :=
  match st with
  | ENone => read_escape_idx d = None
  | EFirst => read_escape_idx d = Some 0%nat
  | ESecond ch => read_escape_idx d = Some 1%nat /\ (escape_chars d).1 = ch
  end.

(** The discipline in the state of the editor. *)
Definition edits e d : Prop :=
  completed_lines d = e_lines e /\ line_buffer d = e_line e /\ edit d = length (e_left e) /\ echo d = true.

Lemma read_key_ok st ch d s : escape_is st d ->
  exists d', read_key ch (d, s) = (Ok (decode st ch).1, (d', s)) /\ escape_is (decode st ch).2 d' /\
    completed_lines d' = completed_lines d /\ line_buffer d' = line_buffer d /\ edit d' = edit d /\ echo d' = echo d.
Proof.
  intros Hst. unfold read_key, decode. run_line. destruct st as [| |ch1]; simpl in Hst.
  - rewrite Hst. cbn. repeat case_match; eexists; (split; [reflexivity|]); cbn; auto.
  - rewrite Hst. cbn. eexists. split; [reflexivity|]. cbn. auto.
  - destruct Hst as [Hi <-]. rewrite Hi. cbn. eexists. split; [reflexivity|]. cbn. auto.
Qed.

(** What a key does to the screen. *)
Definition key_screen (key : Key) e s : S :=
  let write ch s := (ts_write [ch] s).2 in
  let insert ch s := write ch (match e_right e with [] => s | _ => insert_whitespace_at_cursor s end) in
  match key with
  | KIgnored | KDown | KUp => s
  | KBackspace => match e_left e with [] => s | _ => delete_char_before_cursor s end
  | KCtrlU => clear_to_end_of_line (move_cursor_left (length (e_left e)) s)
  | KCtrlD => match e_line e with [] => write 0 s | _ => s end
  | KEof => write 0 s
  | KHome => move_cursor_left (length (e_left e)) s
  | KEnd => move_cursor_right (length (e_right e)) s
  | KLeft => match e_left e with [] => s | _ => move_cursor_left 1 s end
  | KRight => match e_right e with [] => s | _ => move_cursor_right 1 s end
  | KNormal ch =>
    if ch =? 9 then if forallb is_ascii_whitespace (e_line e) then insert 32 s else s
    else if (ch =? 10) || (ch =? 13) then write 10 s
    else insert ch s
  end.

Lemma e_line_length e : length (e_line e) = (length (e_left e) + length (e_right e))%nat.
Proof. unfold e_line. rewrite length_app, length_rev. done. Qed.

Lemma e_line_take e : take (length (e_left e)) (e_line e) = rev (e_left e).
Proof. unfold e_line. rewrite take_app_length'; [done|]. by rewrite length_rev. Qed.
Lemma e_line_drop e : drop (length (e_left e)) (e_line e) = e_right e.
Proof. unfold e_line. rewrite drop_app_length'; [done|]. by rewrite length_rev. Qed.

Lemma complete_ok ch e d s : ch = 10 \/ ch = 0 -> edits e d ->
  exists d', insert_char_to_buffer ch (d, s) = (Ok tt, (d', (ts_write [ch] s).2)) /\ edits (e_complete ch e) d' /\
    read_escape_idx d' = read_escape_idx d /\ escape_chars d' = escape_chars d.
Proof.
  intros Hch (Hc & Hl & He & Hecho).
  unfold insert_char_to_buffer. replace ((ch =? 10) || (ch =? 0)) with true by (destruct Hch; subst; done).
  run_line. rewrite Hecho. cbn.
  eexists. split; [reflexivity|]. cbn. split; [|done]. unfold edits. cbn. rewrite Hc, Hl. done.
Qed.

Lemma insert_ok ch e d s : ch <> 10 -> ch <> 0 -> edits e d ->
  exists d', insert_char_to_buffer ch (d, s)
      = (Ok tt, (d', (ts_write [ch] (match e_right e with [] => s | _ => insert_whitespace_at_cursor s end)).2)) /\
    edits (e_insert ch e) d' /\ read_escape_idx d' = read_escape_idx d /\ escape_chars d' = escape_chars d.
Proof.
  intros H1 H2 (Hc & Hl & He & Hecho).
  unfold insert_char_to_buffer. replace ((ch =? 10) || (ch =? 0)) with false by lia.
  run_line. rewrite Hl, He. rewrite e_line_take, e_line_drop, e_line_length.
  rewrite (proj2 (Nat.ltb_ge _ _)) by lia. cbn. rewrite length_app, length_rev. cbn.
  exists (set_line (rev (e_left e) ++ ch :: e_right e) (length (e_left e) + 1) d). split.
  - destruct (e_right e) as [|x r]; cbn.
    + rewrite (proj2 (Nat.eqb_eq _ _)) by lia. cbn. rewrite Hecho. reflexivity.
    + rewrite (proj2 (Nat.eqb_neq _ _)) by lia. cbn. rewrite Hecho. cbn. rewrite Hecho. reflexivity.
  - cbn. split; [|done]. unfold edits, e_line. cbn. rewrite <-app_assoc. cbn. split; [done|]. split; [done|]. split; [lia|done].
Qed.

Lemma key_ok key e d s : (forall ch, key = KNormal ch -> ch <> 0) -> edits e d ->
  exists d', handle_key key (d, s) = (Ok tt, (d', key_screen key e s)) /\ edits (e_key key e) d' /\
    read_escape_idx d' = read_escape_idx d /\ escape_chars d' = escape_chars d.
Proof.
  intros Hz He. pose proof He as (Hc & Hl & Hi & Hecho). pose proof (e_line_length e) as Hlen.
  unfold handle_key. destruct key as [| | | | | | | | | | |ch]; cbn [bind get_focus key_screen e_key].
  - apply complete_ok; auto.
  - eauto.
  - eauto.
  - rewrite Hi. destruct (e_left e) as [|x l] eqn:El; cbn [length]; nat_test; [eauto|].
    run_line. rewrite Hecho. eexists. split; [reflexivity|]. split; [|done].
    unfold edits, e_line in *. cbn. rewrite El in *. cbn in *. rewrite <-app_assoc in Hl. split_and!; auto; lia.
  - rewrite Hi, Hl. destruct (e_right e) as [|x r] eqn:Er; cbn [length] in *; nat_test; [eauto|].
    run_line. rewrite Hecho. eexists. split; [reflexivity|]. split; [|done].
    unfold edits, e_line in *. cbn. rewrite Er in *. cbn in *. rewrite <-app_assoc. split_and!; auto; lia.
  - unfold delete_char. run_line. rewrite Hi. destruct (e_left e) as [|x l] eqn:El; cbn [length]; nat_test.
    + eexists. split; [reflexivity|]. split; [|done]. unfold edits, e_line in *. cbn. rewrite El in *. auto.
    + rewrite Hecho. cbn. eexists. split; [reflexivity|]. split; [|done].
      unfold edits, e_line in *. cbn. rewrite El in *. cbn in *. rewrite Hl, <-app_assoc. split_and!; auto; [|lia].
      replace (Datatypes.S (length l) - 1)%nat with (length (rev l)) by (rewrite length_rev; lia).
      apply delete_middle.
  - unfold clear_line. run_line. rewrite Hecho, Hi. cbn. eexists. split; [reflexivity|]. split; [|done].
    unfold edits. cbn. auto.
  - case_bool_decide as Hb; rewrite Hl in Hb.
    + rewrite Hb. apply complete_ok; auto.
    + destruct (e_line e); [done|]. eauto.
  - run_line. rewrite Hecho, Hi. cbn. eexists. split; [reflexivity|]. split; [|done].
    unfold edits. cbn. auto.
  - rewrite Hecho, Hl, Hi. nat_test. run_line. rewrite Hecho. cbn.
    replace (length (e_line e) - length (e_left e))%nat with (length (e_right e)) by lia.
    eexists. split; [reflexivity|]. split; [|done].
    unfold edits, e_line. cbn. rewrite rev_involutive, app_nil_r, length_rev. auto.
  - eauto.
  - rewrite Hl. destruct (ch =? 9) eqn:E9.
    + destruct (forallb _ _); [apply insert_ok; auto; lia|eauto].
    + destruct (ch =? 13) eqn:E13; [rewrite orb_true_r; apply complete_ok; auto|].
      rewrite orb_false_r. destruct (ch =? 10) eqn:E10; [apply Z.eqb_eq in E10 as ->; apply complete_ok; auto|].
      apply insert_ok; auto; lia.
Qed.

Lemma escape_is_eq st d d' : read_escape_idx d' = read_escape_idx d -> escape_chars d' = escape_chars d ->
  escape_is st d -> escape_is st d'.
Proof. intros H1 H2. unfold escape_is. by rewrite H1, H2. Qed.

Lemma decode_normal st ch c : (decode st ch).1 = KNormal c -> c <> 0.
Proof. destruct st; cbn; unfold from_escape; repeat case_match; cbn; intros; simplify_eq; lia. Qed.

(** A byte: the editor's step, what it does to the screen, and whether it
    completed a line. *)
Lemma input_byte_ok st byte e d s : escape_is st d -> edits e d ->
  let key := (decode st byte).1 in
  exists d', input_byte byte (d, s) = (Ok (negb (length (e_lines e) =? length (e_lines (e_key key e))))%nat, (d', key_screen key e s)) /\
    escape_is (decode st byte).2 d' /\ edits (e_key key e) d'.
Proof.
  intros Hst He key. destruct (read_key_ok st byte d s Hst) as (d1 & Hr & Hst1 & H1 & H2 & H3 & H4).
  assert (edits e d1) as He1 by (destruct He as (?&?&?&?); unfold edits; rewrite H1, H2, H3, H4; auto).
  destruct (key_ok key e d1 s) as (d2 & Hk & He2 & Hi & Hc); [intros c; apply decode_normal|done|].
  exists d2. split; [|split; [by eapply escape_is_eq|done]].
  unfold input_byte, bind. rewrite Hr. cbn. fold key. rewrite Hk. cbn.
  by rewrite (proj1 He1), (proj1 He2).
Qed.

Fixpoint run_keys (bytes : list Z) (st : escape) e s : S :=
  match bytes with
  | [] => s
  | b :: bytes' => let (key, st') := decode st b in run_keys bytes' st' (e_key key e) (key_screen key e s)
  end.

Lemma feed_ok bytes st e d s : escape_is st d -> edits e d ->
  exists d', feed bytes (d, s) = (Ok tt, (d', run_keys bytes st e s)) /\ edits (e_input bytes st e).2 d'.
Proof.
  revert st e d s. induction bytes as [|b bytes IH]; intros st e d s Hst He; cbn; [eauto|].
  destruct (input_byte_ok st b e d s Hst He) as (d1 & Hb & Hst1 & He1). unfold bind. rewrite Hb.
  destruct (decode st b) as [key st']. cbn in *. by apply IH.
Qed.

(** *** The screen *)

Lemma e_key_grows key e : zlen (e_line (e_key key e)) <= zlen (e_line e) + 1.
Proof.
  destruct e as [l r ls], key; unfold e_key, e_complete, e_insert; repeat case_match;
    unfold e_line; cbn [e_left e_right] in *; subst; rewrite ?length_app, ?length_rev; cbn;
    rewrite ?length_app, ?length_rev; cbn; try lia.
  - destruct l; cbn; lia.
  - apply (f_equal length) in H0. rewrite e_line_length in H0. cbn in H0. lia.
Qed.

Definition typed_byte (b : Z) : bool := (32 <=? b) && (b <=? 126) || bool_decide (b ∈ [4; 8; 9; 10; 13; 21; 27; 127]).

(** A key of the keyboard, whose character, if it has one, is printable. *)
Definition typed_key (key : Key) : Prop :=
  match key with KEof => False | KNormal ch => 32 <= ch <= 126 \/ ch = 9 \/ ch = 10 \/ ch = 13 | _ => True end.

Lemma typed_decode st b : typed_byte b = true -> typed_key (decode st b).1.
Proof.
  unfold typed_byte. rewrite orb_true_iff, bool_decide_eq_true, !elem_of_cons, elem_of_nil. intros Hb.
  destruct st; cbn; unfold from_escape; repeat case_match; cbn; auto; lia.
Qed.

Context (cells : S -> option (list Z * list Z)) `{!ScreenLaws S cells}.

(** The line of the cursor holds the prompt [p] and the line being edited,
    and the cursor is where the next character goes. *)
Definition shows (p : list Z) e s : Prop := cells s = Some (p ++ rev (e_left e), e_right e).

Lemma shows_insert p ch e s : 32 <= ch <= 126 -> shows p e s ->
  shows p (e_insert ch e) (ts_write [ch] (match e_right e with [] => s | _ => insert_whitespace_at_cursor s end)).2.
Proof.
  unfold shows. intros Hch Hs. cbn. rewrite app_assoc. destruct (e_right e) eqn:Er.
  - by apply (sl_char _ _ _ [] Hch).
  - apply (sl_char _ _ _ (32 :: z :: l) Hch). by apply sl_insert.
Qed.

Lemma key_shows p key e s : typed_key key -> zlen (e_line e) < 2 ^ 64 -> shows p e s ->
  exists p', (p' = p \/ p' = []) /\ shows p' (e_key key e) (key_screen key e s).
Proof.
  intros Hk Hb Hs. pose proof (e_line_length e) as Hlen. pose proof Hs as Hs0. unfold shows in Hs0.
  destruct key as [| | | | | | | | | | |ch]; cbn in Hk |- *;
    [exists p; split; [by left|]; unfold shows, e_line; cbn ..|].
  - done.
  - done.
  - done.
  - destruct (e_left e) as [|x l] eqn:El; [by rewrite El|]. cbn. apply (sl_left _ _ [x]); [|cbn; lia].
    rewrite Hs0. cbn. by rewrite app_assoc.
  - destruct (e_right e) as [|x r] eqn:Er; [by rewrite Er|]. cbn. rewrite app_assoc. apply (sl_right _ _ [x]); [done|cbn; lia].
  - destruct (e_left e) as [|x l] eqn:El; cbn in *; [done|]. eapply sl_delete. rewrite Hs0. by rewrite app_assoc.
  - rewrite app_nil_r. eapply sl_clear. rewrite <-length_rev. apply sl_left; [done|]. rewrite length_rev. lia.
  - destruct (rev (e_left e) ++ e_right e) eqn:El; [|done]. apply app_eq_nil in El as [E1 E2]. rewrite E1, E2 in Hs0.
    cbn. by apply sl_nul.
  - rewrite app_nil_r. rewrite <-length_rev. apply sl_left; [done|]. rewrite length_rev. lia.
  - rewrite rev_involutive, app_assoc. apply sl_right; [|lia]. by rewrite app_nil_r.
  - done.
  - destruct (ch =? 9) eqn:E9.
    { exists p. split; [by left|]. destruct (forallb _ _); [|done]. by apply shows_insert. }
    destruct ((ch =? 10) || (ch =? 13)) eqn:En.
    { exists []. split; [by right|]. unfold shows. cbn. by eapply sl_newline. }
    exists p. split; [by left|]. apply shows_insert; [lia|done].
Qed.

Lemma run_keys_shows bytes st p e s : Forall (fun b => typed_byte b = true) bytes ->
  zlen (e_line e) + zlen bytes < 2 ^ 64 -> shows p e s ->
  exists p', (p' = p \/ p' = []) /\ shows p' (e_input bytes st e).2 (run_keys bytes st e s).
Proof.
  intros Hb. revert st p e s. induction Hb as [|b bytes Hb _ IH]; intros st p e s Hlen Hs; cbn; [eauto|].
  pose proof (typed_decode st b Hb) as Hk. destruct (decode st b) as [key st']. cbn in Hk.
  cbn [length] in Hlen. destruct (key_shows p key e s Hk ltac:(lia) Hs) as (p1 & Hp1 & Hs1).
  destruct (IH st' p1 (e_key key e) (key_screen key e s)) as (p2 & Hp2 & Hs2); [|done|].
  - enough (zlen (e_line (e_key key e)) <= zlen (e_line e) + 1) by lia. apply e_key_grows.
  - exists p2. split; [|done]. destruct Hp1 as [-> | ->], Hp2 as [-> | ->]; auto.
Qed.
End tty.

(** ** A terminal at the other end of the line

    It understands the control sequences that [UartTextScreen] sends. *)

Inductive vt_mode : Type := VGround | VEscape | VCsi (n : option Z).

Record vt : Type := mkVt { v_left : list Z; v_right : list Z; v_mode : vt_mode }.

Definition vt_csi (n : option Z) (b : Z) (l r : list Z) : list Z * list Z :=
  let k := Z.to_nat (default 1 n) in
  if b =? 68 then (take (length l - k) l, drop (length l - k) l ++ r)
  else if b =? 67 then (l ++ take k r, drop k r)
  else if b =? 64 then (l, replicate k 32 ++ r)
  else if b =? 80 then (l, drop k r)
  else if b =? 75 then (l, if default 0 n =? 0 then [] else r)
  else ([], []).

Definition vt_byte (v : vt) (b : Z) : vt :=
  match v_mode v with
  | VGround =>
    if b =? 27 then mkVt (v_left v) (v_right v) VEscape
    else if b =? 10 then mkVt [] [] VGround
    else if (32 <=? b) && (b <=? 126) then mkVt (v_left v ++ [b]) (tail (v_right v)) VGround
    else v
  | VEscape => mkVt (v_left v) (v_right v) (if b =? 91 then VCsi None else VGround)
  | VCsi n =>
    if (48 <=? b) && (b <=? 57) then mkVt (v_left v) (v_right v) (VCsi (Some (10 * default 0 n + (b - 48))))
    else let (l, r) := vt_csi n b (v_left v) (v_right v) in mkVt l r VGround
  end.

Definition vt_run (bytes : list Z) (v : vt) : vt := foldl vt_byte v bytes.

Definition vt_cells (bytes : list Z) : option (list Z * list Z) :=
  let v := vt_run bytes (mkVt [] [] VGround) in
  match v_mode v with VGround => Some (v_left v, v_right v) | _ => None end.

Lemma vt_digits fuel n l r a : 0 <= n < 10 ^ Z.of_nat fuel -> (0 < fuel)%nat ->
  exists m, 0 <= m /\ vt_run (digits fuel n) (mkVt l r (VCsi a)) = mkVt l r (VCsi (Some (10 ^ m * default 0 a + n))).
Proof.
  revert n. induction fuel as [|fuel IH]; intros n Hn Hf; [lia|]. cbn [digits].
  destruct (n <? 10) eqn:E.
  - exists 1. split; [lia|]. unfold vt_run, vt_byte. cbn [foldl v_mode v_left v_right].
    replace ((48 <=? 48 + n) && (48 + n <=? 57)) with true by lia. do 3 f_equal. lia.
  - assert (0 <= n / 10 < 10 ^ Z.of_nat fuel) as Hq.
    { rewrite Nat2Z.inj_succ, Z.pow_succ_r in Hn by lia. split; [apply Z.div_pos; lia|apply Z.div_lt_upper_bound; lia]. }
    destruct fuel as [|fuel]; [cbn in Hq; lia|].
    destruct (IH _ Hq ltac:(lia)) as (m & Hm & Hr). exists (m + 1). split; [lia|].
    unfold vt_run in *. rewrite foldl_app, Hr. unfold vt_byte. cbn [foldl v_mode v_left v_right].
    replace ((48 <=? 48 + n mod 10) && (48 + n mod 10 <=? 57)) with true by lia. do 3 f_equal.
    cbn [default from_option id]. rewrite Z.pow_add_r by lia. change (10 ^ 1) with 10.
    replace (10 ^ m * 10 * default 0 a) with (10 * (10 ^ m * default 0 a)) by ring. unfold id.
    generalize (10 ^ m * default 0 a). clear. lia.
Qed.

(** The cells after more bytes. *)
Lemma vt_cells_app s bytes l r : vt_cells s = Some (l, r) ->
  vt_cells (s ++ bytes) = let v := vt_run bytes (mkVt l r VGround) in
    match v_mode v with VGround => Some (v_left v, v_right v) | _ => None end.
Proof.
  unfold vt_cells, vt_run. rewrite foldl_app. destruct (foldl vt_byte (mkVt [] [] VGround) s) as [l' r' m].
  destruct m; cbn; intros; simplify_eq. done.
Qed.

(** A control sequence with a number. *)
Lemma vt_numbered n b s l r : 0 <= n < 2 ^ 64 -> ~ 48 <= b <= 57 -> vt_cells s = Some (l, r) ->
  vt_cells (s ++ ESC :: bytes_of "[" ++ digits 20 n ++ [b]) = Some (vt_csi (Some n) b l r).
Proof.
  intros Hn Hb Hs. rewrite (vt_cells_app _ _ _ _ Hs). change (bytes_of "[") with [91].
  destruct (vt_digits 20 n l r None) as (m & _ & Hd); [lia|lia|].
  unfold vt_run. cbn [app foldl]. rewrite foldl_app.
  change (foldl vt_byte _ (digits 20 n)) with (vt_run (digits 20 n) (mkVt l r (VCsi None))). rewrite Hd.
  cbn [foldl from_option]. unfold vt_byte. cbn [v_mode v_left v_right]. rewrite Z.mul_0_r, Z.add_0_l.
  replace ((48 <=? b) && (b <=? 57)) with false by lia. destruct (vt_csi _ _ _ _). done.
Qed.

Lemma vt_left n l2 l1 r : default 1 n = zlen l2 -> vt_csi n 68 (l1 ++ l2) r = (l1, l2 ++ r).
Proof.
  intros Hn. unfold vt_csi. cbn [Z.eqb Pos.eqb]. rewrite Hn, Nat2Z.id, length_app.
  rewrite take_app_length', drop_app_length' by lia. done.
Qed.

Lemma vt_right n l r1 r2 : default 1 n = zlen r1 -> vt_csi n 67 l (r1 ++ r2) = (l ++ r1, r2).
Proof.
  intros Hn. unfold vt_csi. cbn [Z.eqb Pos.eqb]. rewrite Hn, Nat2Z.id.
  rewrite take_app_length, drop_app_length. done.
Qed.

#[export] Instance uart_screen_laws : ScreenLaws (list Z) vt_cells.
Proof.
  split; cbn [ts_write snd insert_whitespace_at_cursor delete_char_before_cursor move_cursor_left move_cursor_right
    clear_to_end_of_line UartTextScreen]; unfold uart_write_sync.
  - intros s ch l r Hch Hs. rewrite (vt_cells_app _ _ _ _ Hs). unfold vt_run, vt_byte. cbn [foldl v_mode v_left v_right].
    replace (ch =? 27) with false by lia. replace (ch =? 10) with false by lia.
    by replace ((32 <=? ch) && (ch <=? 126)) with true by lia.
  - intros s [l r] Hs. by rewrite (vt_cells_app _ _ _ _ Hs).
  - intros s [l r] Hs. by rewrite (vt_cells_app _ _ _ _ Hs).
  - intros s l r Hs. by rewrite (vt_cells_app _ _ _ _ Hs).
  - intros s l x r Hs. rewrite (vt_cells_app _ _ _ _ Hs).
    transitivity (let (l', r') := vt_csi None 68 (l ++ [x]) r in Some (vt_csi (Some 1) 80 l' r')); [by vm_compute|].
    rewrite (vt_left None [x] l r eq_refl). done.
  - intros s l1 l2 r Hs Hl. destruct l2 as [|x l2]; cbn [length]; nat_test.
    + by rewrite app_nil_r in Hs.
    + unfold decimal. change (bytes_of "D") with [68]. rewrite (vt_numbered (Z.of_nat (S (length l2))) 68 _ _ _ ltac:(cbn [length] in Hl; lia) ltac:(lia) Hs).
      f_equal. exact (vt_left (Some (zlen (x :: l2))) (x :: l2) l1 r eq_refl).
  - intros s l r1 r2 Hs Hl. destruct r1 as [|x r1]; cbn [length]; nat_test.
    + by rewrite app_nil_r.
    + unfold decimal. change (bytes_of "C") with [67]. rewrite (vt_numbered (Z.of_nat (S (length r1))) 67 _ _ _ ltac:(cbn [length] in Hl; lia) ltac:(lia) Hs).
      f_equal. exact (vt_right (Some (zlen (x :: r1))) l (x :: r1) r2 eq_refl).
  - intros s l r Hs. by rewrite (vt_cells_app _ _ _ _ Hs).
Qed.

(** ** Reading *)

Section reading.
Context {S : Type} `{TextScreen S}.
Implicit Types (t : tty S).

(** The bytes that readers have still to get: what is left of the line being
    read, and the completed lines but for marks of the end of the file. *)
Definition unread t : list Z :=
  current_read_buf (dev t) ++ concat (filter (fun line => line <> [0]) (completed_lines (line_discipline (dev t)))).

(** Reads in sequence, until one has to wait. *)
Fixpoint reads (tid : Z) (name : list Z) (lens : list Z) : M (tty S) Empty_set (list (list Z)) :=
  match lens with
  | [] => ret []
  | len :: lens' =>
    do res <- read_pass tid name len;
    match res with ReadBytes b => do bs <- reads tid name lens'; ret (b :: bs) | _ => ret [] end
  end.

Definition lines_ok t : Prop := Forall (fun line => line <> []) (completed_lines (line_discipline (dev t))).

Lemma take_bytes_spec t len buffer : 0 < len -> buffer <> [] ->
  exists b rest t', take_bytes len buffer t = (Ok (ReadBytes b), t') /\ b <> [] /\ zlen b <= len /\ buffer = b ++ rest /\
    current_read_buf (dev t') = rest /\ line_discipline (dev t') = line_discipline (dev t) /\
    current_tgid (dev t') = current_tgid (dev t).
Proof.
  intros Hlen Hne. set (n := Z.to_nat (Z.min (zlen buffer) len)).
  exists (take n buffer), (drop n buffer). eexists. split.
  - destruct buffer as [|x buffer]; [done|]. reflexivity.
  - split_and!; try done.
    + destruct buffer as [|x buffer]; [done|]. subst n. destruct (Z.to_nat _) eqn:E; [cbn [length] in E; lia|done].
    + rewrite length_take. lia.
    + by rewrite take_drop.
Qed.

(** A pass of the foreground reader. *)
Lemma read_pass_spec t tid name len : tid = current_tgid (dev t) -> 0 < len -> lines_ok t ->
  exists res t', read_pass tid name len t = (Ok res, t') /\ lines_ok t' /\ current_tgid (dev t') = current_tgid (dev t) /\
    ((res = ReadWait /\ t' = t /\ current_read_buf (dev t) = [] /\ completed_lines (line_discipline (dev t)) = []) \/
     (exists b, res = ReadBytes b /\ b <> [] /\ zlen b <= len /\ unread t = b ++ unread t') \/
     (res = ReadBytes [] /\ unread t' = unread t /\
      completed_lines (line_discipline (dev t)) = [0] :: completed_lines (line_discipline (dev t')))).
Proof.
  intros Htid Hlen Hok. unfold read_pass, bind, get. cbn beta iota. rewrite Htid, Z.eqb_refl. cbn [negb].
  destruct (current_read_buf (dev t)) as [|x buf] eqn:Eb.
  - unfold on_line, completed_line, bind, get_focus. cbn. unfold lines_ok, unread in *. rewrite Eb.
    destruct (completed_lines (line_discipline (dev t))) as [|line lines] eqn:El; cbn.
    + exists ReadWait, t. rewrite El. destruct t as [[] ? ?]. cbn. split_and!; auto.
    + apply Forall_cons in Hok as [Hne Hok]. case_bool_decide as H0.
      * subst. eexists _, _. split; [reflexivity|]. cbn. split_and!; auto. right. right. rewrite Eb, decide_False by naive_solver. done.
      * destruct (take_bytes_spec (mkState (set_discipline (set_completed lines (line_discipline (dev t))) (dev t)) (text_screen t) (sent t))
          len line Hlen Hne) as (b & rest & t' & Hb & Hbne & Hbl & Hline & Hbuf & Hdis & Htg).
        exists (ReadBytes b), t'. split; [done|]. rewrite Hdis, Hbuf, Htg. cbn. split_and!; auto.
        right. left. exists b. split_and!; auto. rewrite decide_True by done. cbn. rewrite Hline. by rewrite <-app_assoc.
  - destruct (take_bytes_spec t len (x :: buf) Hlen ltac:(done)) as (b & rest & t' & Hb & Hbne & Hbl & Hline & Hbuf & Hdis & Htg).
    exists (ReadBytes b), t'. split; [done|]. unfold lines_ok, unread in *. rewrite Hdis, Hbuf, Htg, Eb. split_and!; auto.
    right. left. exists b. split_and!; auto. rewrite Hline. by rewrite <-app_assoc.
Qed.

Lemma reads_spec lens t tid name : tid = current_tgid (dev t) -> lines_ok t -> Forall (Z.lt 0) lens ->
  exists bs t', reads tid name lens t = (Ok bs, t') /\ unread t = concat bs ++ unread t' /\
    (length bs = length lens \/
     current_read_buf (dev t') = [] /\ completed_lines (line_discipline (dev t')) = []).
Proof.
  intros Htid Hok Hlens. revert t Htid Hok. induction Hlens as [|len lens Hlen _ IH]; intros t Htid Hok; cbn.
  { exists [], t. auto. }
  destruct (read_pass_spec t tid name len Htid Hlen Hok) as (res & t1 & Hr & Hok1 & Htg & Hcase).
  unfold bind. rewrite Hr. destruct Hcase as [(-> & -> & Hb & Hl) | Hcase].
  { exists [], t. auto. }
  destruct (IH t1) as (bs & t2 & Hrs & Hun & Hend); [congruence|done|].
  assert (exists b, res = ReadBytes b /\ unread t = b ++ unread t1) as (b & -> & Hb).
  { destruct Hcase as [(b & -> & _ & _ & ?)|(-> & ? & _)]; eauto. }
  rewrite Hrs. cbn. exists (b :: bs), t2. rewrite Hb, Hun. cbn. rewrite app_assoc. split_and!; auto.
  destruct Hend; auto.
Qed.

Definition no_signal (b : Z) : Prop := b <> 3 /\ b <> 28.

Lemma try_send_signal_none exists_ b t : no_signal b -> try_send_signal exists_ b t = (Ok false, t).
Proof.
  intros [H3 H28]. unfold try_send_signal, bind, get. cbn beta iota. destruct (exists_ _); [|done]. cbn [negb].
  by rewrite (proj2 (Z.eqb_neq _ _) H3), (proj2 (Z.eqb_neq _ _) H28).
Qed.

Lemma input_loop_ok exists_ bytes nl st e t : Forall no_signal bytes ->
  escape_is st (line_discipline (dev t)) -> edits e (line_discipline (dev t)) ->
  exists nl' d' s', input_loop exists_ bytes nl t = (Ok nl', mkState (set_discipline d' (dev t)) s' (sent t)) /\
    edits (e_input bytes st e).2 d'.
Proof.
  intros Hb. revert nl st e t. induction Hb as [|b bytes Hb _ IH]; intros nl st e t Hst He; cbn.
  { exists nl, (line_discipline (dev t)), (text_screen t). destruct t as [[] ? ?]. auto. }
  unfold bind. rewrite try_send_signal_none by done. unfold on_line.
  destruct (input_byte_ok st b e _ (text_screen t) Hst He) as (d1 & -> & Hst1 & He1).
  destruct (decode st b) as [key st']. cbn in Hst1, He1.
  by apply (IH _ st' (e_key key e) (mkState (set_discipline d1 (dev t)) (key_screen key e (text_screen t)) (sent t))).
Qed.

Lemma e_key_lines key e : Forall (fun line => line <> []) (e_lines e) -> Forall (fun line => line <> []) (e_lines (e_key key e)).
Proof.
  intros Hl. assert (forall ch, Forall (fun line => line <> []) (e_lines (e_complete ch e))) as Hc.
  { intros ch. cbn. apply Forall_app. split; [done|]. apply Forall_singleton. by destruct (e_line e). }
  destruct key; cbn; repeat case_match; auto; apply Hc.
Qed.

Lemma e_input_lines bytes st e : Forall (fun line => line <> []) (e_lines e) ->
  Forall (fun line => line <> []) (e_lines (e_input bytes st e).2).
Proof.
  revert st e. induction bytes as [|b bytes IH]; intros st e Hl; cbn; [done|]. destruct (decode st b).
  by apply IH, e_key_lines.
Qed.

Lemma receive_input_ok exists_ bytes st e t : Forall no_signal bytes ->
  escape_is st (line_discipline (dev t)) -> edits e (line_discipline (dev t)) ->
  exists woken t', receive_input exists_ bytes t = (Ok woken, t') /\ sent t' = sent t /\
    edits (e_input bytes st e).2 (line_discipline (dev t')) /\
    current_read_buf (dev t') = current_read_buf (dev t) /\ current_tgid (dev t') = current_tgid (dev t).
Proof.
  intros Hb Hst He. destruct (input_loop_ok exists_ bytes false st e t Hb Hst He) as (nl & d & s & Hl & Hd).
  unfold receive_input, bind. rewrite Hl. destruct nl; eexists _, _; (split; [reflexivity|]); cbn; auto.
Qed.

(** A byte that does not complete a line wakes nobody. *)
Lemma asleep_step exists_ tid b e t : no_signal b -> b <> 0 -> b <> 4 -> b <> 10 -> b <> 13 ->
  escape_is ENone (line_discipline (dev t)) -> edits e (line_discipline (dev t)) ->
  exists t', input_step exists_ tid [b] RAsleep t = (Ok RAsleep, t').
Proof.
  intros Hb H0 H4 H10 H13 Hst He. unfold input_step, receive_input. cbn [input_loop]. unfold bind.
  rewrite try_send_signal_none by done. unfold on_line.
  destruct (input_byte_ok ENone b e _ (text_screen t) Hst He) as (d1 & -> & _ & _).
  replace (length (e_lines e) =? length (e_lines (e_key (decode ENone b).1 e)))%nat with true.
  - cbn. eauto.
  - symmetry. apply Nat.eqb_eq. cbn. repeat (case_match; cbn; try lia).
Qed.

(** The foreground task of a terminal bound to a session can only be changed
    by the leader of that session, to a task of it; a refused change leaves
    the terminal as it was. *)
Lemma set_fg_tgid_guarded current sid_of tgid t sid : current_sid (dev t) = Some sid -> current_tgid (dev t) <> 0 ->
  match set_fg_tgid current sid_of tgid t with
  | (Ok _, t') =>
    current = Some (sid, sid) /\ current_sid (dev t') = Some sid /\
    (tgid = 0 /\ current_tgid (dev t') = sid \/ tgid <> 0 /\ current_tgid (dev t') = tgid /\ sid_of tgid = Some sid)
  | (Err _, t') => t' = t
  | (Panic, _) => False
  end.
Proof.
  intros Hs Hg. unfold set_fg_tgid, bind, get. destruct (tgid =? 0) eqn:Et.
  - destruct current as [[ctid csid]|]; cbn; [|done]. rewrite Hs. destruct (_ || _) eqn:Eg; cbn; [done|].
    rewrite (proj2 (Z.eqb_neq _ _) Hg). cbn. destruct (sid =? csid) eqn:Es; cbn; [|done].
    apply Z.eqb_eq in Es as <-. split; [f_equal; f_equal; lia|]. split; [done|]. left. lia.
  - destruct (sid_of tgid) as [tsid|] eqn:Ei; cbn; [|done]. rewrite Hs.
    destruct current as [[ctid csid]|]; cbn; [|done]. destruct (_ || _) eqn:Eg; cbn; [done|].
    rewrite (proj2 (Z.eqb_neq _ _) Hg). cbn. destruct (sid =? tsid) eqn:Es; cbn; [|done].
    apply Z.eqb_eq in Es as <-. split; [f_equal; f_equal; lia|]. split; [done|]. right. split_and!; [lia|done|done].
Qed.
End reading.

(** ** The theorems *)

(** C35. For any bytes from the keyboard, control and escape sequences
    included, the line discipline never panics, and what it holds is what an
    editor with a cursor has: the lines completed so far, the line being
    edited, and the position of the cursor in it. *)
Theorem tty_edits_lines {S : Type} `{TextScreen S} (bytes : list Z) (s : S) :
  let e := (e_input bytes ENone (mkEd [] [] [])).2 in
  exists d s', feed bytes (LineDiscipline_new, s) = (Ok tt, (d, s')) /\
    completed_lines d = e_lines e /\ line_buffer d = e_line e /\ edit d = length (e_left e).
Proof.
  intros e. destruct (feed_ok bytes ENone (mkEd [] [] []) LineDiscipline_new s) as (d & Hf & Hc & Hl & He & _); [done|done|].
  exists d. eexists. eauto.
Qed.

(** C36. On a screen that obeys the laws of text screens, with a prompt left
    of the cursor, the screen shows the line being edited with the cursor at
    its place, for any sequence of printable ASCII characters and of the bytes
    4, 8, 9, 10, 13, 21, 27 and 127 ([typed_byte]: Ctrl-D, backspace, tab,
    the line ends, Ctrl-U, escape and delete): characters inserted or
    deleted in the middle of the line, and the escape sequences of the keys
    that move the cursor, included. *)
Theorem tty_screen_shows_line {S : Type} `{TextScreen S} (cells : S -> option (list Z * list Z)) `{!ScreenLaws S cells}
    (bytes prompt : list Z) (s : S) :
  cells s = Some (prompt, []) -> Forall (fun b => typed_byte b = true) bytes -> zlen bytes < 2 ^ 64 ->
  exists d s' p, feed bytes (LineDiscipline_new, s) = (Ok tt, (d, s')) /\ (p = prompt \/ p = []) /\
    cells s' = Some (p ++ take (edit d) (line_buffer d), drop (edit d) (line_buffer d)).
Proof.
  intros Hs Hb Hlen. set (e0 := mkEd [] [] []).
  destruct (feed_ok bytes ENone e0 LineDiscipline_new s) as (d & Hf & Hc & Hl & He & _); [done|done|].
  destruct (run_keys_shows cells bytes ENone prompt e0 s Hb) as (p & Hp & Hsh); [cbn; lia|by unfold shows; cbn; rewrite app_nil_r|].
  exists d, (run_keys bytes ENone e0 s), p. split_and!; auto. rewrite He, Hl, e_line_take, e_line_drop. done.
Qed.

(** The prompt, then "ac", the left arrow, "b": the terminal at the other end
    of the UART shows "abc" with the cursor before the "c". *)
Lemma tty_screen_shows_line_witness :
  exists d s' p, feed ([97; 99; 27; 91; 68; 98] : list Z) (LineDiscipline_new, [36; 32]) = (Ok tt, (d, s')) /\
    (p = [36; 32] \/ p = []) /\ vt_cells s' = Some (p ++ take (edit d) (line_buffer d), drop (edit d) (line_buffer d)).
Proof.
  apply (tty_screen_shows_line vt_cells [97; 99; 27; 91; 68; 98] [36; 32] [36; 32]).
  - reflexivity.
  - repeat (apply Forall_cons_2; [reflexivity|]). apply Forall_nil_2.
  - vm_compute. reflexivity.
Defined.

(** C37. The lines typed are what the foreground task reads, in order and
    complete, whatever the sizes of its buffers: the bytes read are a prefix
    of the completed lines without the marks of the end of the file, and
    reads go on until everything has been read. *)
Theorem tty_reads_lines {S : Type} `{TextScreen S} (task_exists : Z -> bool) (bytes lens : list Z) (tid : Z) (name : list Z) (s : S) :
  Forall no_signal bytes -> Forall (Z.lt 0) lens ->
  let lines := e_lines (e_input bytes ENone (mkEd [] [] [])).2 in
  exists woken t1 bs t2,
    receive_input task_exists bytes (mkState (mkTty tid None [] LineDiscipline_new []) s []) = (Ok woken, t1) /\
    reads tid name lens t1 = (Ok bs, t2) /\
    concat (filter (fun line => line <> [0]) lines) = concat bs ++ unread t2 /\
    (length bs = length lens \/ unread t2 = []).
Proof.
  intros Hb Hl lines.
  destruct (receive_input_ok task_exists bytes ENone (mkEd [] [] []) (mkState (mkTty tid None [] LineDiscipline_new []) s []) Hb)
    as (w & t1 & Hr & _ & (Hc & _) & Hbuf & Htg); [done|done|].
  destruct (reads_spec lens t1 tid name) as (bs & t2 & Hrs & Hun & Hend); [done|unfold lines_ok; rewrite Hc; by apply e_input_lines|done|].
  exists w, t1, bs, t2. split_and!; auto.
  - rewrite <-Hun. unfold unread. by rewrite Hbuf, Hc.
  - destruct Hend as [?|[H1 H2]]; [by left|right]. unfold unread. by rewrite H1, H2.
Qed.

(** Two lines, the end of the file, read three bytes at a time. *)
Lemma tty_reads_lines_witness :
  exists woken t1 bs t2,
    receive_input (fun _ => true) [97; 98; 99; 100; 10; 4; 101; 13] (mkState (mkTty 7 None [] LineDiscipline_new []) ([] : list Z) []) = (Ok woken, t1) /\
    reads 7 [] [3; 3; 3; 3; 3] t1 = (Ok bs, t2) /\
    concat (filter (fun line => line <> [0]) [[97; 98; 99; 100; 10]; [0]; [101; 10]]) = concat bs ++ unread t2 /\
    (length bs = 5%nat \/ unread t2 = []).
Proof.
  apply (tty_reads_lines (fun _ => true) [97; 98; 99; 100; 10; 4; 101; 13] [3; 3; 3; 3; 3] 7 [] ([] : list Z)).
  - repeat (apply Forall_cons_2; [split; discriminate|]). apply Forall_nil_2.
  - repeat (apply Forall_cons_2; [reflexivity|]). apply Forall_nil_2.
Defined.

(** A reader can miss the line it waits for: when the line is completed
    after the reader has looked for one and before it is in the wait queue,
    the reader goes to sleep with the line there to be read, and sleeps until
    a further line is completed. *)
Theorem tty_lost_wakeup :
  let t0 := mkState (mkTty 7 None [] LineDiscipline_new []) ([] : list Z) [] in
  exists t1 t2 t3,
    reader_step 7 [] 10 RPass t0 = (Ok RWait, t1) /\
    input_step (fun _ => true) 7 [104; 105; 10] RWait t1 = (Ok RWait, t2) /\
    reader_step 7 [] 10 RWait t2 = (Ok RAsleep, t3) /\
    completed_lines (line_discipline (dev t3)) = [[104; 105; 10]] /\
    forall b, b <> 3 -> b <> 28 -> b <> 0 -> b <> 4 -> b <> 10 -> b <> 13 ->
      exists t4, input_step (fun _ => true) 7 [b] RAsleep t3 = (Ok RAsleep, t4).
Proof.
  intros t0. do 3 eexists. split; [vm_compute; reflexivity|]. split; [vm_compute; reflexivity|].
  split; [vm_compute; reflexivity|]. split; [reflexivity|].
  intros b H3 H28 H0 H4 H10 H13. by apply (asleep_step _ _ _ (mkEd [] [] [[104; 105; 10]])).
Qed.
