(* ===== verification/Sched.v ===== *)
(** * Scheduling (src/kernel/src/proc/sched/{mod,cfs,rr}.rs)

    The two schedulers, behind the interface that the rest of the kernel
    uses.  A task is its number.  Arithmetic on [u64] wraps around, as it does
    in the release profile of the kernel. *)

From S2P Require Import Prelude.
From Stdlib Require Import Sorting.Sorted.

#[local] Open Scope Z_scope.
#[local] Open Scope rw_scope.

Definition u64 (z : Z) : Z := z mod 2 ^ 64.

Definition MAX_TASKS : Z := 128.

(** ** The interface

    [tick] says whether the task [current] has to yield. *)
Class Scheduler (Q : Type) : Type := {
  sched_new : Q;
  enqueue_ready : Z -> M Q Empty_set unit;
  pick_next_task : Z -> M Q Empty_set (option Z);
  tick : option Z -> Z -> M Q Empty_set bool
}.

(** What the kernel relies on: a queue of ready tasks that loses and invents
    none, and that never stops the kernel. *)
Class SchedulerLaws (Q : Type) `{Scheduler Q} (queued : Q -> list Z) (sched_ok : Q -> Prop) : Prop := {
  new_law : sched_ok sched_new /\ queued sched_new = [];
  enqueue_law q tid : sched_ok q -> tid ∉ queued q -> Z.of_nat (length (queued q)) < MAX_TASKS ->
    exists q', enqueue_ready tid q = (Ok tt, q') /\ sched_ok q' /\ queued q' ≡ₚ tid :: queued q;
  pick_law q now : sched_ok q ->
    exists o q', pick_next_task now q = (Ok o, q') /\ sched_ok q' /\ queued q ≡ₚ option_list o ++ queued q' /\
      (o = None -> queued q = []);
  tick_law q current now : sched_ok q -> (forall tid, current = Some tid -> tid ∉ queued q) ->
    exists b q', tick current now q = (Ok b, q') /\ sched_ok q' /\ queued q' = queued q
}.

(** ** Round robin *)

Module RR.
#[export] Instance RRScheduler : Scheduler (list Z) := {|
  sched_new := [];
  enqueue_ready := fun task => modify (fun rq => rq ++ [task]);
  pick_next_task := fun _ rq => match rq with [] => (Ok None, []) | task :: rq' => (Ok (Some task), rq') end;
  tick := fun _ _ => ret true
|}.

#[export] Instance rr_laws : SchedulerLaws (list Z) (fun q => q) (fun _ => True).
Proof.
  split; cbn.
  - done.
  - intros q tid _ _ _. eexists. split; [reflexivity|]. split; [done|]. by rewrite Permutation_app_comm.
  - intros [|task q] _ _; eexists _, _; (split; [reflexivity|]); done.
  - intros q _ _ _ _. eexists _, _. split; [reflexivity|]. done.
Qed.
End RR.

(** ** Completely fair scheduling *)

(** The red-black tree of the library [intrusive_collections]: elements in
    the order of their keys. *)
Class RBTree (T : Type) : Type := {
  rb_new : T;
  rb_insert : Z -> Z -> T -> T;
  rb_front : T -> option Z;
  rb_remove_front : T -> option Z * T
}.

Class RBTreeLaws (T : Type) `{RBTree T} (elements : T -> list (Z * Z)) : Prop := {
  rb_new_law : elements rb_new = [];
  rb_insert_law k x t : elements (rb_insert k x t) ≡ₚ (k, x) :: elements t;
  rb_front_law t : rb_front t = (rb_remove_front t).1;
  rb_remove_law t :
    match rb_remove_front t with
    | (Some x, t') => exists k, elements t ≡ₚ (k, x) :: elements t' /\ Forall (fun e => k <= e.1) (elements t')
    | (None, t') => elements t = [] /\ elements t' = []
    end
}.

(** A sorted list is such a tree. *)
Fixpoint sorted_insert (k x : Z) (l : list (Z * Z)) : list (Z * Z) :=
  match l with
  | [] => [(k, x)]
  | e :: l' => if k <? e.1 then (k, x) :: l else e :: sorted_insert k x l'
  end.

Definition sorted_list : Type := { l : list (Z * Z) | StronglySorted (fun a b => a.1 <= b.1) l }.

Lemma sorted_insert_perm k x l : sorted_insert k x l ≡ₚ (k, x) :: l.
Proof.
  induction l as [|e l IH]; cbn; [done|]. destruct (k <? e.1); [done|]. rewrite IH. apply Permutation_swap.
Qed.

Lemma sorted_insert_sorted k x l : StronglySorted (fun a b : Z * Z => a.1 <= b.1) l ->
  StronglySorted (fun a b : Z * Z => a.1 <= b.1) (sorted_insert k x l).
Proof.
  induction 1 as [|e l Hs IH Hall]; cbn; [repeat constructor|]. destruct (k <? e.1) eqn:E.
  - constructor; [by constructor|]. constructor; [cbn; lia|].
    eapply Forall_impl; [exact Hall|]. intros a Ha. cbn in *. lia.
  - constructor; [done|]. rewrite sorted_insert_perm. constructor; [cbn; lia|done].
Qed.

#[export] Instance sorted_tree : RBTree sorted_list := {|
  rb_new := [] ↾ SSorted_nil _;
  rb_insert := fun k x t => sorted_insert k x (`t) ↾ sorted_insert_sorted k x (`t) (proj2_sig t);
  rb_front := fun t => head (map snd (`t));
  rb_remove_front := fun t =>
    match t with
    | exist _ [] p => (None, t)
    | exist _ (e :: l) p => (Some e.2, l ↾ proj1 (StronglySorted_inv p))
    end
|}.

#[export] Instance sorted_tree_laws : RBTreeLaws sorted_list (fun t => `t).
Proof.
  split; cbn.
  - done.
  - intros k x [l p]. apply sorted_insert_perm.
  - by intros [[|e l] p].
  - intros [[|[k x] l] p]; cbn; [done|]. exists k. split; [done|]. by apply StronglySorted_inv in p as [_ ?].
Qed.

Definition NICE_TO_WEIGHT : list Z :=
  [88761; 71755; 56483; 46273; 36291; 29154; 23254; 18705; 14949; 11916;
   9548; 7620; 6100; 4904; 3906; 3121; 2501; 1991; 1586; 1277;
   1024; 820; 655; 526; 423; 335; 272; 215; 172; 137;
   110; 87; 70; 56; 45; 36; 29; 23; 18; 15].

(** The index is in range. *)
Definition nice_to_weight (nice : Z) : Z :=
  let clamped := Z.min 19 (Z.max (-20) nice) in
  default 0 (NICE_TO_WEIGHT !! Z.to_nat (clamped + 20)).

Record CFSAttrs : Type := mkAttrs { nice : Z; vruntime : Z; start_execution_time : Z; slice : Z }.
Definition CFSAttrs_default : CFSAttrs := mkAttrs 0 0 0 0.

Section cfs.
Context {T : Type} `{RBTree T}.

Record CFSchedulerInner : Type := mkInner {
  rbtree : T;
  min_vruntime : Z;
  total_weight : Z;
  sched_latency : Z;
  sched_min_granularity : Z
}.

(** The scheduler, and the attributes of the tasks. *)
Record CFScheduler : Type := mkCFS { inner : CFSchedulerInner; cfs_attrs : gmap Z CFSAttrs }.

Definition CFScheduler_new : CFScheduler := mkCFS (mkInner rb_new 0 0 20000000 4000000) ∅.

Definition attrs_of (tid : Z) (s : CFScheduler) : CFSAttrs := default CFSAttrs_default (cfs_attrs s !! tid).
Definition set_attrs (tid : Z) (a : CFSAttrs) (s : CFScheduler) : CFScheduler := mkCFS (inner s) (<[tid := a]> (cfs_attrs s)).
Definition set_inner (i : CFSchedulerInner) (s : CFScheduler) : CFScheduler := mkCFS i (cfs_attrs s).

Definition cfs_enqueue_ready (tid : Z) : M CFScheduler Empty_set unit :=
  do s <- get;
  let i := inner s in
  let min_vruntime := match rb_front (rbtree i) with Some front => vruntime (attrs_of front s) | None => 0 end in
  let a := attrs_of tid s in
  let v := Z.max (vruntime a) min_vruntime in
  modify (set_attrs tid (mkAttrs (nice a) v (start_execution_time a) (slice a)));;
  let weight := nice_to_weight (nice a) in
  modify (set_inner (mkInner (rb_insert v tid (rbtree i)) min_vruntime (u64 (total_weight i + weight))
                             (sched_latency i) (sched_min_granularity i))).

(** [now] are the nanoseconds of [jiffies]. *)
Definition cfs_tick (current_task : option Z) (now : Z) : M CFScheduler Empty_set bool :=
  match current_task with
  | None => ret false
  | Some tid =>
    do s <- get;
    let a := attrs_of tid s in
    let delta := u64 (now - start_execution_time a) in
    let weight := nice_to_weight (nice a) in
    if weight =? 0 then panic else
    modify (set_attrs tid (mkAttrs (nice a) (u64 (vruntime a + u64 (delta * 1024) / weight)) (start_execution_time a) (slice a)));;
    ret (slice a <=? delta)
  end.

(** [now] are the nanoseconds of [timer_now()]. *)
Definition cfs_pick_next_task (now : Z) : M CFScheduler Empty_set (option Z) :=
  do s <- get;
  let i := inner s in
  let (task, tree) := rb_remove_front (rbtree i) in
  match task with
  | None =>
    modify (set_inner (mkInner tree (min_vruntime i) (total_weight i) (sched_latency i) (sched_min_granularity i)));;
    ret None
  | Some tid =>
    let a := attrs_of tid s in
    let weight := nice_to_weight (nice a) in
    if total_weight i =? 0 then panic else
    let slice := Z.max (u64 (sched_latency i * weight) / total_weight i) (sched_min_granularity i) in
    modify (set_attrs tid (mkAttrs (nice a) (vruntime a) now slice));;
    modify (set_inner (mkInner tree (min_vruntime i) (u64 (total_weight i - weight)) (sched_latency i) (sched_min_granularity i)));;
    ret (Some tid)
  end.

#[export] Instance CFS : Scheduler CFScheduler := {|
  sched_new := CFScheduler_new;
  enqueue_ready := cfs_enqueue_ready;
  pick_next_task := cfs_pick_next_task;
  tick := cfs_tick
|}.
End cfs.
Arguments CFScheduler : clear implicits.
Arguments CFSchedulerInner : clear implicits.
