(* ===== verification/SchedSpec.v ===== *)
(** * The fair scheduler

    It keeps the laws of schedulers; it picks a task with the least virtual
    run time, and gives it a slice between the granularity and the latency. *)

From S2P Require Import Prelude Sched.

#[local] Open Scope Z_scope.
#[local] Open Scope rw_scope.

Lemma weight_range n : 15 <= nice_to_weight n <= 88761.
Proof.
  unfold nice_to_weight. set (i := Z.to_nat _). assert (i < 40)%nat as Hi by lia. clearbody i. clear n.
  do 40 (destruct i as [|i]; [vm_compute; split; discriminate|]). lia.
Qed.

Definition sum_list (l : list Z) : Z := foldr Z.add 0 l.

Lemma sum_list_perm l l' : l ≡ₚ l' -> sum_list l = sum_list l'.
Proof. unfold sum_list. induction 1; cbn; lia. Qed.

Section cfs_spec.
Context {T : Type} `{RBTree T} (elements : T -> list (Z * Z)) `{!RBTreeLaws T elements}.
Implicit Types (s : CFScheduler T).

Definition cfs_queued s : list Z := (elements (rbtree (inner s))).*2.

Definition weight_of s (tid : Z) : Z := nice_to_weight (nice (attrs_of tid s)).

(** The total weight is that of the tasks in the queue, and the keys of the
    tree are their virtual run times. *)
Definition cfs_ok s : Prop :=
  total_weight (inner s) = sum_list (map (weight_of s) (cfs_queued s)) /\
  sched_latency (inner s) = 20000000 /\ sched_min_granularity (inner s) = 4000000 /\
  NoDup (cfs_queued s) /\ Z.of_nat (length (cfs_queued s)) <= MAX_TASKS /\
  Forall (fun e => vruntime (attrs_of e.2 s) = e.1) (elements (rbtree (inner s))).

Lemma attrs_of_set tid tid' a s :
  attrs_of tid' (set_attrs tid a s) = if decide (tid = tid') then a else attrs_of tid' s.
Proof.
  unfold attrs_of, set_attrs. cbn. case_decide as E; [subst; by rewrite lookup_insert_eq|by rewrite lookup_insert_ne].
Qed.

Lemma sum_weights_bound s l : 15 * Z.of_nat (length l) <= sum_list (map (weight_of s) l) <= 88761 * Z.of_nat (length l).
Proof.
  unfold sum_list in *. induction l as [|x l IH]; cbn [map foldr length]; [lia|].
  pose proof (weight_range (nice (attrs_of x s))) as Hx. fold (weight_of s x) in Hx. lia.
Qed.

Lemma sum_weights_cons s tid l l' : l ≡ₚ tid :: l' ->
  sum_list (map (weight_of s) l) = weight_of s tid + sum_list (map (weight_of s) l').
Proof. intros Hl. by rewrite (sum_list_perm _ _ (Permutation_map (weight_of s) Hl)). Qed.

Lemma sum_weights_ext s s' l : (forall x, x ∈ l -> weight_of s x = weight_of s' x) ->
  sum_list (map (weight_of s) l) = sum_list (map (weight_of s') l).
Proof.
  intros Hx. f_equal. apply map_ext_in. intros x Hin. by apply Hx, list_elem_of_In.
Qed.

Lemma u64_id z : 0 <= z < 2 ^ 64 -> u64 z = z.
Proof. intros. unfold u64. by rewrite Z.mod_small. Qed.

Lemma cfs_enqueue_spec s tid : cfs_ok s -> tid ∉ cfs_queued s -> Z.of_nat (length (cfs_queued s)) < MAX_TASKS ->
  exists s', cfs_enqueue_ready tid s = (Ok tt, s') /\ cfs_ok s' /\ cfs_queued s' ≡ₚ tid :: cfs_queued s.
Proof.
  intros (Hw & Hl & Hg & Hnd & Hlen & Hkeys) Hnew Hroom.
  unfold cfs_enqueue_ready, bind, get, modify. cbn beta iota zeta. eexists. split; [reflexivity|].
  match goal with |- cfs_ok ?s' /\ _ => set (s1 := s') end.
  set (v := Z.max _ _) in *.
  assert (elements (rbtree (inner s1)) ≡ₚ (v, tid) :: elements (rbtree (inner s))) as Hel by apply rb_insert_law.
  assert (cfs_queued s1 ≡ₚ tid :: cfs_queued s) as Hq by (unfold cfs_queued; by rewrite Hel).
  assert (forall x, weight_of s1 x = weight_of s x) as Hwo.
  { intros x. unfold weight_of. subst s1. unfold set_inner, attrs_of at 1. cbn.
    destruct (decide (tid = x)) as [<-|]; [by rewrite lookup_insert_eq|by rewrite lookup_insert_ne]. }
  assert (Hsum : total_weight (inner s1) = sum_list (map (weight_of s1) (cfs_queued s1))).
  { rewrite (sum_list_perm _ _ (Permutation_map _ Hq)). cbn. rewrite Hw.
    pose proof (sum_weights_bound s (cfs_queued s)) as Hb. pose proof (weight_range (nice (attrs_of tid s))) as Hr.
    unfold MAX_TASKS in *. rewrite u64_id by lia.
    rewrite (sum_weights_ext s1 s) by (intros; apply Hwo). rewrite Hwo. unfold weight_of at 2. lia. }
  split; [|done]. repeat split; try done.
  - rewrite Hq. by constructor.
  - rewrite Hq. cbn. lia.
  - rewrite Hel. constructor.
    + subst s1. unfold set_inner, attrs_of. cbn. by rewrite lookup_insert_eq.
    + apply Forall_forall. intros e He. rewrite Forall_forall in Hkeys. rewrite <-(Hkeys e He).
      subst s1. unfold set_inner, attrs_of. cbn. rewrite lookup_insert_ne; [done|].
      intros ->. apply Hnew. unfold cfs_queued. by apply list_elem_of_fmap_2.
Qed.

Lemma cfs_pick_spec s now : cfs_ok s ->
  exists o s', cfs_pick_next_task now s = (Ok o, s') /\ cfs_ok s' /\ cfs_queued s ≡ₚ option_list o ++ cfs_queued s' /\
    match o with
    | None => cfs_queued s = []
    | Some tid =>
      (forall x, x ∈ cfs_queued s' -> attrs_of x s' = attrs_of x s /\ vruntime (attrs_of tid s) <= vruntime (attrs_of x s)) /\
      exists slice, attrs_of tid s' = mkAttrs (nice (attrs_of tid s)) (vruntime (attrs_of tid s)) now slice /\
        slice = Z.max (20000000 * weight_of s tid / sum_list (map (weight_of s) (cfs_queued s))) 4000000
    end.
Proof.
  intros (Hw & Hl & Hg & Hnd & Hlen & Hkeys). unfold cfs_pick_next_task, bind, get, modify. cbn beta iota zeta.
  pose proof (rb_remove_law (rbtree (inner s))) as Hrm. unfold cfs_queued in *.
  destruct (rb_remove_front (rbtree (inner s))) as [[tid|] tree].
  - destruct Hrm as (k & Hel & Hmin). pose proof Hel as Hq. apply (fmap_Permutation snd) in Hq. cbn in Hq.
    rewrite Hel in Hkeys. apply Forall_cons in Hkeys as [Hk Hkeys]. cbn in Hk. rewrite Hq in Hnd. apply NoDup_cons in Hnd as [Hnew Hnd].
    pose proof (sum_weights_bound s (elements (rbtree (inner s))).*2) as Hb.
    pose proof (sum_weights_cons s _ _ _ Hq) as Hsum.
    pose proof (sum_weights_bound s (elements tree).*2) as Hb'.
    pose proof (weight_range (nice (attrs_of tid s))) as Hr. fold (weight_of s tid) in Hr.
    rewrite Hq in Hlen. cbn [length] in Hlen.
    rewrite (proj2 (Z.eqb_neq _ _)) by lia. eexists _, _. split; [reflexivity|].
    match goal with |- cfs_ok ?s' /\ _ => set (s1 := s') end.
    assert (forall x, x <> tid -> attrs_of x s1 = attrs_of x s) as Ho.
    { intros x Hx. subst s1. unfold set_inner, attrs_of. cbn. by rewrite lookup_insert_ne. }
    split; [|split; [done|split]].
    + repeat split; try done; cbn.
      * fold (weight_of s tid). unfold MAX_TASKS in *. rewrite Hw, Hsum, u64_id by lia.
        change (cfs_queued s1) with ((elements tree).*2). rewrite (sum_weights_ext s1 s); [lia|]. intros x Hx. unfold weight_of. rewrite Ho; [done|set_solver].
      * change (cfs_queued s1) with ((elements tree).*2). unfold MAX_TASKS in *. lia.
      * apply Forall_forall. intros e He. rewrite Forall_forall in Hkeys. rewrite <-(Hkeys e He). rewrite Ho; [done|].
        intros <-. apply Hnew. by apply list_elem_of_fmap_2.
    + intros x Hx. cbn in Hx. split; [apply Ho; set_solver|]. apply list_elem_of_fmap in Hx as (e & -> & He).
      rewrite !Forall_forall in Hmin, Hkeys. rewrite Hk, (Hkeys e He). by apply Hmin.
    + eexists. split; [|reflexivity]. subst s1. unfold set_inner, attrs_of at 1. cbn. rewrite lookup_insert_eq. cbn.
      fold (weight_of s tid). rewrite Hl, Hg, Hw, u64_id by lia. done.
  - destruct Hrm as [He He']. eexists None, _. split; [reflexivity|]. cbn. rewrite He, He'. split; [|done].
    unfold cfs_ok, cfs_queued in *. cbn. rewrite He', He in *. done.
Qed.

Lemma cfs_tick_spec s current now : cfs_ok s -> (forall tid, current = Some tid -> tid ∉ cfs_queued s) ->
  exists b s', cfs_tick current now s = (Ok b, s') /\ cfs_ok s' /\ cfs_queued s' = cfs_queued s.
Proof.
  intros (Hw & Hl & Hg & Hnd & Hlen & Hkeys) Hcur. destruct current as [tid|]; cbn; [|by eexists _, _].
  specialize (Hcur tid eq_refl). unfold bind, get, modify. cbn beta iota zeta.
  pose proof (weight_range (nice (attrs_of tid s))). rewrite (proj2 (Z.eqb_neq _ _)) by lia.
  eexists _, _. split; [reflexivity|]. match goal with |- cfs_ok ?s' /\ _ => set (s1 := s') end. split; [|done].
  assert (forall x, x ∈ cfs_queued s -> attrs_of x s1 = attrs_of x s) as Ho.
  { intros x Hx. subst s1. rewrite attrs_of_set, decide_False; [done|]. intros ->. done. }
  repeat split; try done.
  - cbn. rewrite Hw. apply sum_weights_ext. intros x Hx. unfold weight_of. by rewrite Ho.
  - apply Forall_forall. intros e He. rewrite Forall_forall in Hkeys. rewrite <-(Hkeys e He). rewrite Ho; [done|].
    by apply list_elem_of_fmap_2.
Qed.

#[export] Instance cfs_laws : SchedulerLaws (CFScheduler T) cfs_queued cfs_ok.
Proof.
  split; cbn.
  - unfold cfs_ok, cfs_queued. cbn. rewrite rb_new_law. cbn. repeat split; try done. constructor.
  - apply cfs_enqueue_spec.
  - intros q now Hok. destruct (cfs_pick_spec q now Hok) as (o & s' & H1 & H2 & H3 & H4). exists o, s'.
    split_and!; auto. intros ->. done.
  - apply cfs_tick_spec.
Qed.
End cfs_spec.

(** ** The theorems *)

(** C40. From a queue of ready tasks the fair scheduler picks one with the
    least virtual run time, starts its slice now, and makes the slice its
    share of the latency by weight, at least the granularity and at most the
    latency; the other tasks keep their attributes, and the accounting of
    weights stays exact. *)
Theorem cfs_picks_least {T : Type} `{RBTree T} (elements : T -> list (Z * Z)) `{!RBTreeLaws T elements} s now :
  cfs_ok elements s -> cfs_queued elements s <> [] ->
  exists tid s' slice, cfs_pick_next_task now s = (Ok (Some tid), s') /\ cfs_ok elements s' /\
    cfs_queued elements s ≡ₚ tid :: cfs_queued elements s' /\
    (forall x, x ∈ cfs_queued elements s -> vruntime (attrs_of tid s) <= vruntime (attrs_of x s)) /\
    (forall x, x ∈ cfs_queued elements s' -> attrs_of x s' = attrs_of x s) /\
    attrs_of tid s' = mkAttrs (nice (attrs_of tid s)) (vruntime (attrs_of tid s)) now slice /\
    slice = Z.max (20000000 * weight_of s tid / sum_list (map (weight_of s) (cfs_queued elements s))) 4000000 /\
    4000000 <= slice <= 20000000.
Proof.
  intros Hok Hne. destruct (cfs_pick_spec elements s now Hok) as ([tid|] & s' & Hp & Hok' & Hq & Hcase); [|done].
  destruct Hcase as (Hmin & slice & Ha & Hs). exists tid, s', slice. split_and!; auto.
  - intros x. rewrite Hq. cbn. rewrite elem_of_cons. intros [-> |Hx]; [lia|]. by apply Hmin.
  - intros x Hx. by apply Hmin.
  - lia.
  - rewrite Hs. apply Z.max_lub; [|lia].
    pose proof (sum_weights_cons s _ _ _ Hq) as Hsum.
    pose proof (sum_weights_bound s (cfs_queued elements s')). pose proof (weight_range (nice (attrs_of tid s))) as Hr.
    fold (weight_of s tid) in Hr. rewrite Hsum. apply Z.div_le_upper_bound; lia.
Qed.

(** Two tasks in the queue, one of them nicer and behind. *)
Definition example_cfs : CFScheduler sorted_list :=
  mkCFS (mkInner (rb_insert 300 7 (rb_insert 500 8 rb_new)) 0 1359 20000000 4000000)
        {[ 7 := mkAttrs 5 300 0 0; 8 := mkAttrs 0 500 0 0 ]}.

Lemma cfs_picks_least_witness :
  exists tid s' slice, cfs_pick_next_task 1000 example_cfs = (Ok (Some tid), s') /\ 4000000 <= slice <= 20000000.
Proof.
  destruct (cfs_picks_least (fun t : sorted_list => `t) example_cfs 1000) as (tid & s' & slice & H1 & _ & _ & _ & _ & _ & _ & H2).
  - repeat split; try reflexivity.
    + apply (bool_decide_unpack _). vm_compute. exact I.
    + vm_compute. discriminate.
    + repeat (apply Forall_cons_2; [reflexivity|]). apply Forall_nil_2.
  - discriminate.
  - exists tid, s', slice. auto.
Defined.
