(* ===== verification/Task.v ===== *)
(** * Tasks (src/kernel/src/proc/{task,id,group,session,signal}.rs,
      src/kernel/src/sync/wait.rs, src/kernel/src/timer_events.rs)

    Any number of processors run tasks: they create, wait for, signal and put
    to sleep one another.  A section of code that holds the lock of a task is
    one operation here; a task that leaves the processor in the middle of a
    call, or between two sections of it, keeps in [pc] where it goes on.  The
    scheduler is any that implements [Scheduler].

    A [TaskRef] is the number of its task.  [arcs] holds the tasks that have
    not been dropped; a weak reference is alive while it finds its task there.
    Open files and memory of tasks are modelled elsewhere. *)

From S2P Require Import Prelude Vfs Sched.
Import Vfs.

#[local] Open Scope Z_scope.
#[local] Open Scope rw_scope.

(** ** Data *)

Inductive TaskState : Type := Initialized | Running | Runable | Blocked | Interruptible | Waitting | Zombie.

#[export] Instance TaskState_eq_dec : EqDecision TaskState.
Proof. solve_decision. Defined.

(** The registers that the kernel touches, and the others. *)
Record Trapframe : Type := mkFrame { a0 : Z; sepc : Z; registers : list Z }.
Definition set_ret_pc (ret_pc : Z) (f : Trapframe) : Trapframe := mkFrame (a0 f) ret_pc (registers f).
Definition set_arg0 (val : Z) (f : Trapframe) : Trapframe := mkFrame val (sepc f) (registers f).

Record SignalAction : Type := mkAction { sig_handler : Z; mask : Z }.

Inductive SignalActionKind : Type := Terminate | Stop | Continue | Ignored | UserHandler (action : SignalAction).

Record TimerEventId : Type := mkEventId { cpuid : nat; event_no : Z }.

#[export] Instance TimerEventId_eq_dec : EqDecision TimerEventId.
Proof. solve_decision. Defined.

(** Where a task goes on when it runs: in user code or at the start of a call;
    after the [sched] of [sleep_rem], of [wait], of a wait queue or of
    [suspend]; in the loop of [wait], and with the child that it found; in the
    loop over pending signals; in [exit], which takes the children, gives them
    to the init task one by one, finds the parent and ends the task. *)
Inductive pc : Type :=
| InUser
| AfterSleep
| AfterWait (qtid : option Z)
| InWait (qtid : option Z)
| Reaping (child : Z)
| AfterWq (w : Z) (interruptible : bool)
| AfterSuspend
| Pending (signal : Z)
| ExitTake (status : Z)
| ExitReparent (status : Z) (children : list Z) (contains_zombie : bool)
| ExitCheck (status : Z) (child : Z) (children : list Z) (contains_zombie : bool)
| ExitParent (status : Z)
| ExitNow (status : Z) (parent : Z)
| Dead.

Record Task : Type := mkTask {
  tgid : Z;
  sid : Z;
  state : TaskState;
  exit_status : Z;
  is_killed : bool;
  is_frozen : bool;
  signal_mask : Z;
  signals : Z;
  signal_actions : list SignalActionKind;
  trapframe : Trapframe;
  trapframe_backup : option Trapframe;
  sleep_timer_event : option TimerEventId;
  parent : option Z;
  children : list Z;
  at_pc : pc
}.

Definition set_state (v : TaskState) (t : Task) : Task :=
  mkTask (tgid t) (sid t) v (exit_status t) (is_killed t) (is_frozen t) (signal_mask t) (signals t) (signal_actions t)
         (trapframe t) (trapframe_backup t) (sleep_timer_event t) (parent t) (children t) (at_pc t).
Definition set_pc (v : pc) (t : Task) : Task :=
  mkTask (tgid t) (sid t) (state t) (exit_status t) (is_killed t) (is_frozen t) (signal_mask t) (signals t) (signal_actions t)
         (trapframe t) (trapframe_backup t) (sleep_timer_event t) (parent t) (children t) v.
Definition set_ids (g s : Z) (t : Task) : Task :=
  mkTask g s (state t) (exit_status t) (is_killed t) (is_frozen t) (signal_mask t) (signals t) (signal_actions t)
         (trapframe t) (trapframe_backup t) (sleep_timer_event t) (parent t) (children t) (at_pc t).
Definition set_exit (v : Z) (t : Task) : Task :=
  mkTask (tgid t) (sid t) (state t) v (is_killed t) (is_frozen t) (signal_mask t) (signals t) (signal_actions t)
         (trapframe t) (trapframe_backup t) (sleep_timer_event t) (parent t) (children t) (at_pc t).
Definition set_killed (v : bool) (t : Task) : Task :=
  mkTask (tgid t) (sid t) (state t) (exit_status t) v (is_frozen t) (signal_mask t) (signals t) (signal_actions t)
         (trapframe t) (trapframe_backup t) (sleep_timer_event t) (parent t) (children t) (at_pc t).
Definition set_frozen (v : bool) (t : Task) : Task :=
  mkTask (tgid t) (sid t) (state t) (exit_status t) (is_killed t) v (signal_mask t) (signals t) (signal_actions t)
         (trapframe t) (trapframe_backup t) (sleep_timer_event t) (parent t) (children t) (at_pc t).
Definition set_mask (v : Z) (t : Task) : Task :=
  mkTask (tgid t) (sid t) (state t) (exit_status t) (is_killed t) (is_frozen t) v (signals t) (signal_actions t)
         (trapframe t) (trapframe_backup t) (sleep_timer_event t) (parent t) (children t) (at_pc t).
Definition set_signals (v : Z) (t : Task) : Task :=
  mkTask (tgid t) (sid t) (state t) (exit_status t) (is_killed t) (is_frozen t) (signal_mask t) v (signal_actions t)
         (trapframe t) (trapframe_backup t) (sleep_timer_event t) (parent t) (children t) (at_pc t).
Definition set_actions (v : list SignalActionKind) (t : Task) : Task :=
  mkTask (tgid t) (sid t) (state t) (exit_status t) (is_killed t) (is_frozen t) (signal_mask t) (signals t) v
         (trapframe t) (trapframe_backup t) (sleep_timer_event t) (parent t) (children t) (at_pc t).
Definition set_frames (f : Trapframe) (b : option Trapframe) (t : Task) : Task :=
  mkTask (tgid t) (sid t) (state t) (exit_status t) (is_killed t) (is_frozen t) (signal_mask t) (signals t) (signal_actions t)
         f b (sleep_timer_event t) (parent t) (children t) (at_pc t).
Definition set_sleep (v : option TimerEventId) (t : Task) : Task :=
  mkTask (tgid t) (sid t) (state t) (exit_status t) (is_killed t) (is_frozen t) (signal_mask t) (signals t) (signal_actions t)
         (trapframe t) (trapframe_backup t) v (parent t) (children t) (at_pc t).
Definition set_parent (v : option Z) (t : Task) : Task :=
  mkTask (tgid t) (sid t) (state t) (exit_status t) (is_killed t) (is_frozen t) (signal_mask t) (signals t) (signal_actions t)
         (trapframe t) (trapframe_backup t) (sleep_timer_event t) v (children t) (at_pc t).
Definition set_children (v : list Z) (t : Task) : Task :=
  mkTask (tgid t) (sid t) (state t) (exit_status t) (is_killed t) (is_frozen t) (signal_mask t) (signals t) (signal_actions t)
         (trapframe t) (trapframe_backup t) (sleep_timer_event t) (parent t) v (at_pc t).

Record TaskGroup : Type := mkGroup { g_leader_tid : Z; g_tasks : gset Z }.
Record Session : Type := mkSession { s_leader_tid : Z; groups : gmap Z TaskGroup }.

(** A timer event; the task that its callback wakes. *)
Record TimerEvent : Type := mkEvent { ev_id : TimerEventId; ev_task : Z; expired_time : Z }.

#[export] Instance TimerEvent_eq_dec : EqDecision TimerEvent.
Proof. solve_decision. Defined.

Section tasks.
Context {Q : Type} `{Scheduler Q}.

(** The run queue, the tasks, the global table, the sessions, the timer
    events with the next number, the next task number, the wait queues, what
    each processor runs, and the init task. *)
Record kernel : Type := mkKernel {
  sched : Q;
  arcs : gmap Z Task;
  table : gset Z;
  sessions : gmap Z Session;
  timers : list TimerEvent;
  next_event : Z;
  next_tid : Z;
  wqs : gmap Z (list Z);
  cpus : list (option Z);
  init_task : option Z
}.

#[local] Notation KM := (M kernel Sys.SysErrorKind).

Definition set_sched (v : Q) (k : kernel) : kernel :=
  mkKernel v (arcs k) (table k) (sessions k) (timers k) (next_event k) (next_tid k) (wqs k) (cpus k) (init_task k).
Definition set_arcs (v : gmap Z Task) (k : kernel) : kernel :=
  mkKernel (sched k) v (table k) (sessions k) (timers k) (next_event k) (next_tid k) (wqs k) (cpus k) (init_task k).
Definition set_table (v : gset Z) (k : kernel) : kernel :=
  mkKernel (sched k) (arcs k) v (sessions k) (timers k) (next_event k) (next_tid k) (wqs k) (cpus k) (init_task k).
Definition set_sessions (v : gmap Z Session) (k : kernel) : kernel :=
  mkKernel (sched k) (arcs k) (table k) v (timers k) (next_event k) (next_tid k) (wqs k) (cpus k) (init_task k).
Definition set_timers (v : list TimerEvent) (n : Z) (k : kernel) : kernel :=
  mkKernel (sched k) (arcs k) (table k) (sessions k) v n (next_tid k) (wqs k) (cpus k) (init_task k).
Definition set_next_tid (v : Z) (k : kernel) : kernel :=
  mkKernel (sched k) (arcs k) (table k) (sessions k) (timers k) (next_event k) v (wqs k) (cpus k) (init_task k).
Definition set_wqs (v : gmap Z (list Z)) (k : kernel) : kernel :=
  mkKernel (sched k) (arcs k) (table k) (sessions k) (timers k) (next_event k) (next_tid k) v (cpus k) (init_task k).
Definition set_cpu (c : nat) (v : option Z) (k : kernel) : kernel :=
  mkKernel (sched k) (arcs k) (table k) (sessions k) (timers k) (next_event k) (next_tid k) (wqs k) (<[c := v]> (cpus k)) (init_task k).
Definition set_init (v : option Z) (k : kernel) : kernel :=
  mkKernel (sched k) (arcs k) (table k) (sessions k) (timers k) (next_event k) (next_tid k) (wqs k) (cpus k) v.

(** A task that is referred to; following a reference to a dropped task
    would panic. *)
Definition task_of (tid : Z) : KM Task := do k <- get; unwrap (arcs k !! tid).
Definition upd (tid : Z) (f : Task -> Task) : KM unit := modify (fun k => set_arcs (alter f tid (arcs k)) k).

Definition on_sched {A} (m : M Q Empty_set A) : KM A :=
  fun k => match m (sched k) with
           | (Ok a, q) => (Ok a, set_sched q k)
           | (Err e, q) => match e with end
           | (Panic, q) => (Panic, set_sched q k)
           end.

Definition queue (w : Z) (k : kernel) : list Z := default [] (wqs k !! w).

(** ** Waking tasks *)

Definition wakeup_unchecked (tid : Z) : KM unit := upd tid (set_state Runable);; on_sched (enqueue_ready tid).

(** A task in an unexpected state is only reported. *)
Definition wakeup (tid : Z) : KM unit :=
  do t <- task_of tid;
  match state t with
  | Blocked | Waitting | Initialized | Interruptible => wakeup_unchecked tid
  | _ => ret tt
  end.

Definition remove_event (id : TimerEventId) : KM unit :=
  modify (fun k => set_timers (filter (fun e => ev_id e <> id) (timers k)) (next_event k) k).

Definition wakeup_if_interruptible (tid : Z) : KM unit :=
  do t <- task_of tid;
  if bool_decide (state t = Waitting) || bool_decide (state t = Interruptible) then
    match sleep_timer_event t with
    | Some timer_event_id => upd tid (set_sleep None);; remove_event timer_event_id
    | None => ret tt
    end;;
    wakeup_unchecked tid
  else ret tt.

Definition wakeup_if_waiting (tid : Z) : KM unit :=
  do t <- task_of tid;
  if bool_decide (state t = Waitting) then wakeup_unchecked tid else ret tt.

Definition is_interrupted_by_signal (t : Task) : bool := negb (Z.lor (signals t) (signal_mask t) =? signal_mask t).

(** ** The scheduler *)

(** Half a turn of the loop of processor [c], which has no task: up to the
    switch to the task. *)
Definition scheduler_pick (c : nat) (now : Z) : KM unit :=
  do o <- on_sched (pick_next_task now);
  match o with
  | Some tid =>
    do t <- task_of tid;
    assert_ (bool_decide (state t = Runable));;
    upd tid (set_state Running);;
    modify (set_cpu c (Some tid))
  | None => ret tt
  end.

(** The other half, after a task switched back. *)
Definition switch_back (c : nat) (tid : Z) : KM unit :=
  do t <- task_of tid;
  (if bool_decide (state t = Runable) then on_sched (enqueue_ready tid) else ret tt);;
  modify (set_cpu c None).

Definition yield_now (c : nat) (tid : Z) : KM unit := upd tid (set_state Runable);; switch_back c tid.

(** ** Timer events *)

Definition add_event (c : nat) (now time tid : Z) : KM TimerEventId :=
  do k <- get;
  let id := mkEventId c (next_event k) in
  modify (set_timers (timers k ++ [mkEvent id tid (now + time)]) (next_event k + 1));;
  ret id.

(** The callback that [sleep_rem] registers. *)
Definition sleep_callback (tid : Z) : KM unit :=
  do t <- task_of tid;
  match sleep_timer_event t with
  | None => ret tt
  | Some _ =>
    upd tid (set_sleep None);;
    if bool_decide (state t = Interruptible) then wakeup tid else ret tt
  end.

(** The top of the heap of processor [c]: one of its earliest events. *)
Definition is_top (c : nat) (e : TimerEvent) (l : list TimerEvent) : bool :=
  (cpuid (ev_id e) =? c)%nat &&
  forallb (fun e' => negb (cpuid (ev_id e') =? c)%nat || (expired_time e <=? expired_time e')) l.

(** A turn of [TimerEventList::tick], which pops the event [e]. *)
Definition timer_tick (c : nat) (now : Z) (e : TimerEvent) : KM unit :=
  do k <- get;
  if is_top c e (timers k) && (expired_time e <=? now) then
    modify (fun k => set_timers (filter (fun e' => ev_id e' <> ev_id e) (timers k)) (next_event k) k);;
    sleep_callback (ev_task e)
  else ret tt.

(** [get_current_scheduler().tick(jiffies)] on processor [c]. *)
Definition sched_tick (c : nat) (now : Z) : KM unit :=
  do k <- get;
  let current := default None (cpus k !! c) in
  do b <- on_sched (tick current now);
  match current with
  | Some tid => if (b : bool) then yield_now c tid else ret tt
  | None => ret tt
  end.

(** ** Groups and sessions *)

Definition TaskGroup_new (leader : Z) : TaskGroup := mkGroup leader {[ leader ]}.
Definition Session_new (leader : Z) : Session := mkSession leader {[ leader := TaskGroup_new leader ]}.

Definition group_add (tid : Z) (g : TaskGroup) : TaskGroup := mkGroup (g_leader_tid g) ({[ tid ]} ∪ g_tasks g).
Definition group_remove (tid : Z) (g : TaskGroup) : TaskGroup := mkGroup (g_leader_tid g) (g_tasks g ∖ {[ tid ]}).

Definition set_groups (f : gmap Z TaskGroup -> gmap Z TaskGroup) (s : Session) : Session := mkSession (s_leader_tid s) (f (groups s)).

Definition get_group (t : Task) (k : kernel) : option TaskGroup := sessions k !! sid t ≫= fun s => groups s !! tgid t.

Definition on_group (t : Task) (f : TaskGroup -> TaskGroup) : KM unit :=
  modify (fun k => set_sessions (alter (set_groups (alter f (tgid t))) (sid t) (sessions k)) k).

(** Nothing happens when there is no such session or group. *)
Definition try_add_task (tid : Z) : KM unit := do t <- task_of tid; on_group t (group_add tid).

(** [Session::remove_task], and whether no groups are left. *)
Definition session_remove_task (t : Task) (tid : Z) (s : Session) : Session :=
  match groups s !! tgid t with
  | Some g =>
    let g' := group_remove tid g in
    set_groups (if bool_decide (g_tasks g' = ∅) then delete (tgid t) else insert (tgid t) g') s
  | None => s
  end.

Definition remove_task (tid : Z) : KM unit :=
  do t <- task_of tid;
  do k <- get;
  match sessions k !! sid t with
  | Some s =>
    let s' := session_remove_task t tid s in
    modify (set_sessions (if bool_decide (groups s' = ∅) then delete (sid t) (sessions k) else <[sid t := s']> (sessions k)))
  | None => ret tt
  end.

(** [Drop for Task]. *)
Definition drop_task (tid : Z) : KM unit := remove_task tid;; modify (fun k => set_arcs (delete tid (arcs k)) k).

Definition create_session (tid : Z) : KM unit :=
  do t <- task_of tid;
  do k <- get;
  match get_group t k with
  | Some g => if g_leader_tid g =? tid then fail Sys.NotPermitted else on_group t (group_remove tid)
  | None => ret tt
  end;;
  do k <- get;
  match sessions k !! tid with
  | Some _ => fail Sys.NotPermitted
  | None =>
    modify (set_sessions (<[tid := Session_new tid]> (sessions k)));;
    upd tid (set_ids tid tid)
  end.

Definition move_task_or_create_grp (tid new_pgid : Z) : KM unit :=
  do t <- task_of tid;
  do k <- get;
  match get_group t k with
  | None => fail Sys.NoSuchProcess
  | Some old_group =>
    let new_group := sessions k !! sid t ≫= fun s => groups s !! new_pgid in
    if bool_decide (new_group = None) && negb (new_pgid =? tid) then fail Sys.NoSuchProcess
    else if bool_decide (tid ∉ g_tasks old_group) then fail Sys.NoSuchProcess
    else
      on_group t (group_remove tid);;
      upd tid (set_ids new_pgid (sid t));;
      match new_group with
      | Some _ => on_group (set_ids new_pgid (sid t) t) (group_add tid)
      | None => modify (fun k => set_sessions (alter (set_groups (insert tid (TaskGroup_new tid))) (sid t) (sessions k)) k)
      end
  end.

Definition get_task_by_tid (tid : Z) : KM Z :=
  do k <- get; if bool_decide (tid ∈ table k) then ret tid else fail Sys.NoSuchProcess.

(** [task::set_tgid] and [session::set_tgid]; [caller] is the current task. *)
Definition set_tgid (caller target_tid new_tgid : Z) : KM unit :=
  do target <- (if target_tid =? 0 then ret caller else get_task_by_tid target_tid);
  do calling_task <- task_of caller;
  do task <- task_of target;
  if sid task =? target then fail Sys.NotPermitted
  else if negb (sid calling_task =? sid task) then fail Sys.NotPermitted
  else
    do tgid <- (if new_tgid =? 0 then ret target
                else do leader <- get_task_by_tid new_tgid;
                     if negb (leader =? target) then
                       do l <- task_of leader;
                       if negb (sid l =? sid task) then fail Sys.NotPermitted else ret new_tgid
                     else ret new_tgid);
    do k <- get;
    match sessions k !! sid task with
    | None => fail Sys.NotPermitted
    | Some _ => move_task_or_create_grp target tgid
    end.

Definition get_tgid (caller tid : Z) : KM Z :=
  do target <- (if tid =? 0 then ret caller else get_task_by_tid tid);
  do t <- task_of target; ret (tgid t).

(** ** Signals *)

Definition MAX_SIG : Z := 31.
Definition SIGKILL : Z := 9.
Definition SIGCONT : Z := 18.
Definition SIGSTOP : Z := 19.
Definition SIGTTIN : Z := 21.

(** The signals that [SignalFlags] names; [from_bits] knows no others. *)
Definition signal_nos : list Z := [0; 1; 2; 3; 4; 6; 9; 11; 18; 19; 21].

Definition to_signal_flags (signal : Z) : Z := Z.shiftl 1 signal.
Definition contains (flags other : Z) : bool := Z.land flags other =? other.

Definition DEFAULT_SIGNAL_ACTIONS : list SignalActionKind :=
  <[0%nat := Ignored]> (<[Z.to_nat SIGCONT := Continue]> (<[Z.to_nat SIGSTOP := Stop]> (<[Z.to_nat SIGTTIN := Stop]>
    (replicate 32 Terminate)))).

Definition send_signal (tid signal : Z) : KM unit :=
  if signal =? 0 then ret tt else
  upd tid (fun t => set_signals (Z.lor (signals t) signal) t);;
  do t <- task_of tid;
  if contains (signal_mask t) signal then ret tt else wakeup_if_interruptible tid.

(** [TaskGroup::signal]: members that have been dropped are skipped. *)
Fixpoint signal_each (tids : list Z) (signal : Z) : KM unit :=
  match tids with
  | [] => ret tt
  | tid :: tids' =>
    do k <- get;
    match arcs k !! tid with Some _ => send_signal tid signal | None => ret tt end;;
    signal_each tids' signal
  end.

(** Without a signal only the target is checked. *)
Definition kill_group (tid : Z) (signal : option Z) : KM unit :=
  do t <- task_of tid;
  do k <- get;
  do group <- ok_or (get_group t k) Sys.NoSuchProcess;
  match signal with
  | Some sig => signal_each (elements (g_tasks group)) (to_signal_flags sig)
  | None => ret tt
  end.

Definition kill (caller tid : Z) (signal : option Z) : KM unit :=
  if tid =? 0 then kill_group caller signal
  else if tid =? -1 then fail Sys.Unsupported
  else
    do target <- get_task_by_tid (if tid <? -1 then - tid else tid);
    do calling_task <- task_of caller;
    do target_task <- task_of target;
    if negb (sid calling_task =? sid target_task) then fail Sys.NotPermitted
    else if tid <? -1 then kill_group target signal
    else match signal with
         | Some sig => send_signal target (to_signal_flags sig)
         | None => ret tt
         end.

Inductive ProcMaskHow : Type := BLOCKED | UNBLOCKED | SETMASK.

(** The old mask is returned. *)
Definition sigprocmask (tid : Z) (how : ProcMaskHow) (new_mask : Z) : KM Z :=
  match how with
  | BLOCKED | UNBLOCKED => fail Sys.Unsupported
  | SETMASK => do t <- task_of tid; upd tid (set_mask new_mask);; ret (signal_mask t)
  end.

Definition sigaction (tid signum : Z) (act : SignalAction) : KM unit :=
  if (signum =? SIGKILL) || (signum =? SIGSTOP) then fail Sys.NotPermitted
  else upd tid (fun t => set_actions (<[Z.to_nat signum := UserHandler act]> (signal_actions t)) t).

Definition handle_action (tid signal : Z) (action : SignalActionKind) : KM unit :=
  let signal_bit := to_signal_flags signal in
  let done : KM unit := upd tid (fun t => set_signals (Z.ldiff (signals t) signal_bit) t) in
  match action with
  | Terminate => upd tid (fun t => set_exit (128 + signal) (set_killed true t));; done
  | Stop => upd tid (set_frozen true);; done
  | Continue => upd tid (set_frozen false);; done
  | Ignored => done
  | UserHandler act =>
    if contains (mask act) signal_bit then ret tt
    else upd tid (fun t => set_frames (set_arg0 signal (set_ret_pc (sig_handler act) (trapframe t))) (Some (trapframe t)) t);; done
  end.

(** A turn of the loop of [handle_pending_signals]. *)
Definition handle_pending_signal (tid signal : Z) : KM unit :=
  do t <- task_of tid;
  let flag := to_signal_flags signal in
  if negb (bool_decide (signal ∈ signal_nos)) then ret tt
  else if negb (contains (signals t) flag) || contains (signal_mask t) flag then ret tt
  else
    do action <- unwrap (signal_actions t !! Z.to_nat signal);
    match action, trapframe_backup t with
    | UserHandler _, Some _ => ret tt
    | _, _ => handle_action tid signal action
    end.

Definition sigreturn (tid : Z) : KM unit :=
  do t <- task_of tid;
  match trapframe_backup t with
  | Some tf => upd tid (set_frames tf None)
  | None => fail Sys.NotPermitted
  end.

(** The end of a system call: its value goes into the register [a0]. *)
Definition syscall_return (tid value : Z) : KM unit :=
  upd tid (fun t => set_frames (set_arg0 value (trapframe t)) (trapframe_backup t) t).

(** ** Calls that leave the processor

    [tid] runs on processor [c]. *)

Definition goto (tid : Z) (p : pc) : KM unit := upd tid (set_pc p).

Inductive value : Type := VUnit | VWaited (child : option (Z * Z)).

Definition suspend (c : nat) (tid : Z) : KM unit :=
  upd tid (fun t => set_pc AfterSuspend (set_state Interruptible t));; switch_back c tid.

(** The loop of [handle_signals] and, when it is done, the rest of
    [user_trap_ret]. *)
Definition handle_signals (c : nat) (tid signal : Z) : KM unit :=
  if signal <=? MAX_SIG then handle_pending_signal tid signal;; goto tid (Pending (signal + 1))
  else
    do t <- task_of tid;
    if is_killed t then goto tid (ExitTake (exit_status t))
    else if is_frozen t then suspend c tid
    else goto tid InUser.

Definition TICK_TIME_DUR : Z := 10000000.

(** Durations in nanoseconds. *)
Definition sleep (c : nat) (tid dur now : Z) : KM value :=
  do t <- task_of tid;
  if is_interrupted_by_signal t then fail Sys.Interrupted else
  do timer_id <- add_event c now (Z.max 0 (dur - TICK_TIME_DUR)) tid;
  upd tid (fun t => set_pc AfterSleep (set_state Interruptible (set_sleep (Some timer_id) t)));;
  switch_back c tid;;
  ret VUnit.

Definition after_sleep (tid : Z) : KM value :=
  do t <- task_of tid;
  assert_ (bool_decide (sleep_timer_event t = None));;
  goto tid InUser;;
  if is_interrupted_by_signal t then fail Sys.Interrupted else ret VUnit.

(** The loop of [remove_zombie_child]: the children that stay, the child
    found, and whether a child matched. *)
Fixpoint scan_children (tasks : gmap Z Task) (qtid : option Z) (cs : list Z) : list Z * option Z * bool :=
  match cs with
  | [] => ([], None, false)
  | c :: cs' =>
    match tasks !! c with
    | None => scan_children tasks qtid cs'
    | Some child =>
      if match qtid with Some tid => negb (tid =? c) | None => false end then
        let '(kept, found, have_kids) := scan_children tasks qtid cs' in (c :: kept, found, have_kids)
      else if bool_decide (state child = Zombie) then (cs', Some c, true)
      else match qtid with
           | Some _ => (cs, None, true)
           | None => let '(kept, found, _) := scan_children tasks qtid cs' in (c :: kept, found, true)
           end
    end
  end.

Definition remove_zombie_child (tid : Z) (qtid : option Z) : KM (option Z * bool) :=
  do t <- task_of tid;
  do k <- get;
  let '(kept, found, have_kids) := scan_children (arcs k) qtid (children t) in
  upd tid (set_children kept);;
  match found with Some child => upd child (set_parent None) | None => ret tt end;;
  ret (found, have_kids).

(** A turn of the loop of [wait_with_xstatus]. *)
Definition wait (c : nat) (tid : Z) (qtid : option Z) : KM value :=
  do t <- task_of tid;
  if is_interrupted_by_signal t then goto tid InUser;; fail Sys.Interrupted else
  do r <- remove_zombie_child tid qtid;
  match r with
  | (Some child, _) => goto tid (Reaping child);; ret VUnit
  | (None, have_kids) =>
    if (have_kids : bool) then
      upd tid (fun t => set_pc (AfterWait qtid) (set_state Waitting t));;
      switch_back c tid;;
      ret VUnit
    else goto tid InUser;; ret (VWaited None)
  end.

Definition reap (tid child : Z) : KM value :=
  modify (fun k => set_table (table k ∖ {[ child ]}) k);;
  do t <- task_of child;
  goto tid InUser;;
  ret (VWaited (Some (child, exit_status t))).

Definition after_wait (tid : Z) (qtid : option Z) : KM value :=
  do t <- task_of tid;
  if is_interrupted_by_signal t then goto tid InUser;; fail Sys.Interrupted
  else goto tid (InWait qtid);; ret VUnit.

(** ** Creating and ending tasks *)

Definition get_init_task : KM Z := do k <- get; unwrap (init_task k).

Definition set_init_task (tid : Z) : KM unit :=
  do k <- get;
  match init_task k with
  | Some _ => ret tt
  | None => if bool_decide (tid ∈ table k) then modify (set_init (Some tid)) else panic
  end.

Definition Task_new (tid : Z) : Task :=
  mkTask tid tid Initialized 0 false false 0 0 DEFAULT_SIGNAL_ACTIONS (mkFrame 0 0 []) None None None [] InUser.

(** What the memory of tasks, modelled elsewhere, answers: nothing or an error. *)
Definition memory (answer : option Sys.SysErrorKind) : KM unit :=
  match answer with Some e => fail e | None => ret tt end.

(** [with_name] and [create]: the virtual memory and the kernel stack are
    allocated before the task gets a number. *)
Definition create (mem : option Sys.SysErrorKind) : KM Z :=
  memory mem;;
  do k <- get;
  let tid := next_tid k in
  modify (set_next_tid (tid + 1));;
  modify (fun k => set_arcs (<[tid := Task_new tid]> (arcs k)) k);;
  ret tid.

(** The table is an index map with room for [MAX_TASKS] tasks. *)
Definition start_with_parent (tid : Z) (parent_task : option Z) : KM unit :=
  do t <- task_of tid;
  assert_ (bool_decide (state t = Initialized));;
  do k <- get;
  (if bool_decide (tid ∉ table k) && (MAX_TASKS <=? Z.of_nat (size (table k)))
   then fail Sys.TooManyTasks else modify (set_table ({[ tid ]} ∪ table k)));;
  match parent_task with
  | Some p =>
    do tp <- task_of p;
    upd tid (fun t => set_ids (tgid tp) (sid tp) (set_parent (Some p) t));;
    upd p (fun tp => set_children (children tp ++ [tid]) tp);;
    try_add_task tid
  | None => ret tt
  end;;
  wakeup tid.

(** [Result::unwrap]. *)
Definition unwrap_ok {A} (m : KM A) : KM A := catch m (fun _ => panic).

(** [spawn], which the kernel calls for its own tasks: without memory or with
    a full table it panics. *)
Definition spawn (mem : option Sys.SysErrorKind) (parent_task : option Z) : KM Z :=
  do tid <- unwrap_ok (create mem);
  unwrap_ok (start_with_parent tid parent_task);;
  ret tid.

(** [exec::fork] of the task [cur_task]: [copied] is what copying its memory
    answers, which holds its trapframe.  A task that does not start is
    dropped. *)
Definition fork (mem copied : option Sys.SysErrorKind) (cur_task : Z) : KM Z :=
  do new_task <- create mem;
  catch (memory copied;;
         do t <- task_of cur_task;
         upd new_task (set_frames (set_arg0 0 (trapframe t)) None);;
         start_with_parent new_task (Some cur_task))
        (fun e => drop_task new_task;; fail e);;
  ret new_task.

Definition reparent (tid new_parent : Z) : KM unit :=
  upd new_parent (fun p => set_children (children p ++ [tid]) p);;
  upd tid (set_parent (Some new_parent)).

(** The sections of [exit], after the open files have been released.
    [clear_and_reparent_children]: *)
Definition exit_take (tid status : Z) : KM unit :=
  do t <- task_of tid;
  upd tid (set_children []);;
  do _ <- get_init_task;
  goto tid (ExitReparent status (children t) false).

Definition exit_reparent (tid status : Z) (cs : list Z) (contains_zombie : bool) : KM unit :=
  do init_task_ref <- get_init_task;
  match cs with
  | [] => (if contains_zombie then wakeup_if_waiting init_task_ref else ret tt);; goto tid (ExitParent status)
  | child :: cs' =>
    do k <- get;
    match arcs k !! child with
    | None => goto tid (ExitReparent status cs' contains_zombie)
    | Some _ => reparent child init_task_ref;; goto tid (ExitCheck status child cs' contains_zombie)
    end
  end.

Definition exit_check (tid status child : Z) (cs : list Z) (contains_zombie : bool) : KM unit :=
  do t <- task_of child;
  goto tid (ExitReparent status cs (contains_zombie || bool_decide (state t = Zombie))).

(** [parent_or_insert_init].  The init task has no parent and becomes its
    own: [lock_irq] only reports that its lock is held by this processor, and
    returns another guard. *)
Definition exit_parent (tid status : Z) : KM unit :=
  do t <- task_of tid;
  do k <- get;
  match parent t ≫= fun p => option_map (fun _ => p) (arcs k !! p) with
  | Some p => goto tid (ExitNow status p)
  | None =>
    do init_task_ref <- get_init_task;
    reparent tid init_task_ref;;
    goto tid (ExitNow status init_task_ref)
  end.

Definition exit_now (c : nat) (tid status p : Z) : KM unit :=
  do _ <- task_of p;
  upd tid (fun t => set_pc Dead (set_state Zombie (set_exit status t)));;
  wakeup_if_waiting p;;
  switch_back c tid.

(** ** Wait queues *)

Definition push_back (w tid : Z) : KM unit := modify (fun k => set_wqs (<[w := queue w k ++ [tid]]> (wqs k)) k).

Definition wq_wait (c : nat) (tid w : Z) (interruptible : bool) : KM unit :=
  push_back w tid;;
  do t <- task_of tid;
  assert_ (bool_decide (state t = Running));;
  upd tid (fun t => set_pc (AfterWq w interruptible) (set_state (if interruptible then Interruptible else Blocked) t));;
  switch_back c tid.

Definition after_wq (tid w : Z) (interruptible : bool) : KM value :=
  do t <- task_of tid;
  if interruptible && is_interrupted_by_signal t then
    modify (fun k => set_wqs (<[w := filter (fun elem => elem <> tid) (queue w k)]> (wqs k)) k);;
    goto tid InUser;;
    fail Sys.Interrupted
  else goto tid InUser;; ret VUnit.

Definition wq_wakeup (tid : Z) : KM unit :=
  do t <- task_of tid;
  if bool_decide (state t = Zombie) then ret tt else wakeup tid.

Definition pop_front (w : Z) : KM (option Z) :=
  do k <- get;
  match queue w k with
  | [] => ret None
  | tid :: q => modify (set_wqs (<[w := q]> (wqs k)));; ret (Some tid)
  end.

(** The loop ends when the queue is empty; the queue is locked meanwhile. *)
Fixpoint signal_all_loop (fuel : nat) (w : Z) : KM unit :=
  match fuel with
  | O => ret tt
  | S fuel' =>
    do o <- pop_front w;
    match o with
    | Some tid => wq_wakeup tid;; signal_all_loop fuel' w
    | None => ret tt
    end
  end.

Definition signal_all (w : Z) : KM unit := do k <- get; signal_all_loop (length (queue w k)) w.

(** ** The system *)

(** What processors, interrupts and the last owner of a task can do.  [c] is
    the processor; the calls are those of its current task. *)
Inductive action : Type :=
| Pick (c : nat) (now : Z)
| TimerTick (c : nat) (now : Z) (e : TimerEvent)
| SchedTick (c : nat) (now : Z)
| GoOn (c : nat)
| Spawn (c : nat) (mem : option Sys.SysErrorKind)
| Fork (c : nat) (mem copied : option Sys.SysErrorKind)
| Exit (c : nat) (status : Z)
| Yield (c : nat)
| Sleep (c : nat) (dur now : Z)
| Wait (c : nat) (qtid : option Z)
| WqWait (c : nat) (w : Z) (interruptible : bool)
| SignalAll (w : Z)
| Kill (c : nat) (tid : Z) (signal : option Z)
| SendSignal (tid signal : Z)
| Sigprocmask (c : nat) (how : ProcMaskHow) (new_mask : Z)
| Sigaction (c : nat) (signum : Z) (act : SignalAction)
| Sigreturn (c : nat)
| TrapReturn (c : nat)
| SetSid (c : nat)
| SetTgid (c : nat) (target_tid new_tgid : Z)
| DropTask (tid : Z).

(** A task goes on where it left. *)
Definition go_on (c : nat) (tid : Z) (p : pc) : KM value :=
  match p with
  | InUser | Dead => ret VUnit
  | AfterSleep => after_sleep tid
  | AfterWait qtid => after_wait tid qtid
  | InWait qtid => wait c tid qtid
  | Reaping child => reap tid child
  | AfterWq w i => after_wq tid w i
  | AfterSuspend => goto tid (Pending 0);; ret VUnit
  | Pending signal => handle_signals c tid signal;; ret VUnit
  | ExitTake status => exit_take tid status;; ret VUnit
  | ExitReparent status cs z => exit_reparent tid status cs z;; ret VUnit
  | ExitCheck status child cs z => exit_check tid status child cs z;; ret VUnit
  | ExitParent status => exit_parent tid status;; ret VUnit
  | ExitNow status p => exit_now c tid status p;; ret VUnit
  end.

Definition running (c : nat) (k : kernel) : option Z := default None (cpus k !! c).

(** A call, made by the current task when it is not in another call. *)
Definition call (c : nat) (m : Z -> KM value) : KM value :=
  do k <- get;
  match running c k with
  | Some tid =>
    do t <- task_of tid;
    match at_pc t with InUser => m tid | _ => ret VUnit end
  | None => ret VUnit
  end.

(** Whether a local variable of a task holds a reference to [tid]. *)
Definition holds (tid : Z) (p : pc) : bool :=
  match p with
  | Reaping child => child =? tid
  | ExitCheck _ child _ _ => child =? tid
  | ExitNow _ p => p =? tid
  | _ => false
  end.

(** Nothing refers to the task any more; the tasks in the run queue and on
    the processors are in the table. *)
Definition unreferenced (tid : Z) (k : kernel) : bool :=
  bool_decide (tid ∉ table k) && bool_decide (init_task k <> Some tid) &&
  bool_decide (map_Forall (fun _ q => tid ∉ q) (wqs k)) &&
  bool_decide (Forall (fun e => ev_task e <> tid) (timers k)) &&
  bool_decide (map_Forall (fun _ t => holds tid (at_pc t) = false) (arcs k)).

Definition unit_value {A} (m : KM A) : KM value := m;; ret VUnit.

Definition exec (a : action) : KM value :=
  match a with
  | Pick c now =>
    do k <- get;
    if bool_decide (cpus k !! c = Some None) then unit_value (scheduler_pick c now) else ret VUnit
  | TimerTick c now e =>
    do k <- get; if bool_decide (e ∈ timers k) then unit_value (timer_tick c now e) else ret VUnit
  | SchedTick c now => unit_value (sched_tick c now)
  | GoOn c =>
    do k <- get;
    match running c k with
    | Some tid => do t <- task_of tid; go_on c tid (at_pc t)
    | None => ret VUnit
    end
  | Spawn c mem => call c (fun tid => unit_value (spawn mem (Some tid)))
  | Fork c mem copied => call c (fun tid => unit_value (fork mem copied tid))
  | Exit c status => call c (fun tid => unit_value (goto tid (ExitTake status)))
  | Yield c => call c (fun tid => unit_value (yield_now c tid))
  | Sleep c dur now => call c (fun tid => sleep c tid dur now)
  | Wait c qtid => call c (fun tid => wait c tid qtid)
  | WqWait c w i => call c (fun tid => unit_value (wq_wait c tid w i))
  | SignalAll w => unit_value (signal_all w)
  | Kill c tid signal => call c (fun caller => unit_value (kill caller tid signal))
  | SendSignal tid signal =>
    do k <- get; if bool_decide (tid ∈ dom (arcs k)) then unit_value (send_signal tid signal) else ret VUnit
  | Sigprocmask c how new_mask => call c (fun tid => unit_value (sigprocmask tid how new_mask))
  | Sigaction c signum act => call c (fun tid => unit_value (sigaction tid signum act))
  | Sigreturn c => call c (fun tid => sigreturn tid;; syscall_return tid 0;; ret VUnit)
  | TrapReturn c => call c (fun tid => unit_value (goto tid (Pending 0)))
  | SetSid c => call c (fun tid => unit_value (create_session tid))
  | SetTgid c target_tid new_tgid => call c (fun tid => unit_value (set_tgid tid target_tid new_tgid))
  | DropTask tid =>
    do k <- get;
    match arcs k !! tid with
    | Some _ => if unreferenced tid k then unit_value (drop_task tid) else ret VUnit
    | None => ret VUnit
    end
  end.

(** Whether the task that [Spawn] starts gets its memory and a place in the
    table; other actions, and a [Spawn] when no task can call it, do not ask. *)
Definition table_has_room (k : kernel) : bool := Z.of_nat (size (table k)) <? MAX_TASKS.
Definition may_call (c : nat) (k : kernel) : bool :=
  match running c k with
  | Some tid => match arcs k !! tid with Some t => match at_pc t with InUser => true | _ => false end | None => false end
  | None => false
  end.
Definition spawn_fits (a : action) (k : kernel) : bool :=
  match a with
  | Spawn c mem => negb (may_call c k) || bool_decide (mem = None) && table_has_room k
  | _ => true
  end.
Fixpoint spawns_fit (l : list action) (k : kernel) : bool :=
  match l with
  | [] => true
  | a :: l' => spawn_fits a k && spawns_fit l' (exec a k).2
  end.

(** The state after a list of actions, whether they succeed or fail; none
    when one of them panics. *)
Fixpoint execs (l : list action) (k : kernel) : option kernel :=
  match l with
  | [] => Some k
  | a :: l' => match exec a k with (Panic, _) => None | (_, k') => execs l' k' end
  end.

(** The kernel before any task runs: [n] idle processors and the init task. *)
Definition kernel_new (n : nat) : kernel := mkKernel sched_new ∅ ∅ ∅ [] 0 6300 ∅ (replicate n None) None.

Definition boot (n : nat) : kernel := ((spawn None None;; set_init_task 6300) (kernel_new n)).2.
End tasks.
Arguments kernel : clear implicits.
