(* ===== verification/TaskOps.v ===== *)
(** * The invariant of tasks

    A task is in the run queue exactly when it is runable and on a processor
    exactly when it is running; a task that sleeps is where the one who wakes
    it finds it; and references held by local variables are alive. *)

From S2P Require Import Prelude Vfs Sched Task.
Import Vfs.

#[local] Open Scope Z_scope.
#[local] Open Scope rw_scope.

(** What the state of a task says about the rest of it. *)
Definition task_ok (tbl : gset Z) (tid : Z) (t : Task) : Prop :=
  match state t with
  | Initialized => False
  | Running | Runable => sleep_timer_event t = None /\ at_pc t <> Dead /\ tid ∈ tbl
  | Blocked => sleep_timer_event t = None /\ tid ∈ tbl /\ exists w, at_pc t = AfterWq w false
  | Interruptible =>
    tid ∈ tbl /\ (sleep_timer_event t <> None /\ at_pc t = AfterSleep \/
                  sleep_timer_event t = None /\ (at_pc t = AfterSuspend \/ exists w, at_pc t = AfterWq w true))
  | Waitting => sleep_timer_event t = None /\ tid ∈ tbl /\ exists q, at_pc t = AfterWait q
  | Zombie => sleep_timer_event t = None /\ at_pc t = Dead
  end.

Definition asleep (t : Task) : Prop := state t = Blocked \/ state t = Interruptible.

(** The references of local variables; a child that is reaped is a zombie. *)
Definition refs_alive (tasks : gmap Z Task) (p : pc) : Prop :=
  match p with
  | Reaping child => exists t, tasks !! child = Some t /\ state t = Zombie
  | ExitCheck _ child _ _ => is_Some (tasks !! child)
  | ExitNow _ p => is_Some (tasks !! p)
  | Pending signal => 0 <= signal
  | _ => True
  end.

Lemma sleeping_facts tbl tid t : task_ok tbl tid t -> asleep t \/ state t = Waitting ->
  tid ∈ tbl /\ at_pc t <> Dead /\ state t <> Zombie /\ state t <> Running /\ state t <> Runable.
Proof.
  unfold task_ok, asleep. intros Hok [[E|E]|E]; rewrite E in *.
  - destruct Hok as (_ & Ht & w & Hp). split_and!; congruence.
  - destruct Hok as (Ht & [(_ & Hp)|(_ & [Hp|[w Hp]])]); split_and!; congruence.
  - destruct Hok as (_ & Ht & q & Hp). split_and!; congruence.
Qed.

Lemma sleep_timer_facts tbl tid t : task_ok tbl tid t -> sleep_timer_event t <> None ->
  state t = Interruptible /\ at_pc t = AfterSleep.
Proof. unfold task_ok. destruct (state t); naive_solver. Qed.

Lemma interruptible_wq tbl tid t w i : task_ok tbl tid t -> state t <> Blocked -> asleep t \/ state t = Waitting ->
  at_pc t = AfterWq w i -> at_pc t = AfterWq w true.
Proof.
  unfold task_ok. intros Hok Hnb [[E|E]|E] Hp; rewrite E in *; [done| |].
  - destruct Hok as (_ & [(_ & Hp')|(_ & [Hp'|[w' Hp']])]); congruence.
  - destruct Hok as (_ & _ & q & Hp'). congruence.
Qed.

Lemma waiting_facts tbl tid t : task_ok tbl tid t -> state t = Waitting ->
  sleep_timer_event t = None /\ exists q, at_pc t = AfterWait q.
Proof. unfold task_ok. intros Hok E. rewrite E in Hok. naive_solver. Qed.

Lemma running_facts tbl tid t : task_ok tbl tid t -> state t = Running \/ state t = Runable ->
  sleep_timer_event t = None /\ at_pc t <> Dead /\ tid ∈ tbl.
Proof. unfold task_ok. intros Hok [E|E]; rewrite E in Hok; done. Qed.

Section inv.
Context {Q : Type} `{Scheduler Q} (queued : Q -> list Z) (sched_ok : Q -> Prop) `{!SchedulerLaws Q queued sched_ok}.
Implicit Types (k : kernel Q) (t : Task).

Definition on_cpu (tid : Z) k : Prop := exists c, cpus k !! c = Some (Some tid).

(** What holds of a task number. *)
Definition consistent k (tid : Z) : Prop :=
  match arcs k !! tid with
  | None =>
    tid ∉ queued (sched k) /\ ~ on_cpu tid k /\ tid ∉ table k /\ (forall e, e ∈ timers k -> ev_task e <> tid) /\
    forall w, tid ∉ queue w k
  | Some t =>
    task_ok (table k) tid t /\ (tid ∈ queued (sched k) <-> state t = Runable) /\ (on_cpu tid k <-> state t = Running) /\
    (forall e, e ∈ timers k -> ev_task e = tid -> sleep_timer_event t = Some (ev_id e)) /\
    (forall id, sleep_timer_event t = Some id -> exists e, e ∈ timers k /\ ev_task e = tid /\ ev_id e = id) /\
    (forall w, tid ∈ queue w k -> (exists i, at_pc t = AfterWq w i) /\ (asleep t \/ at_pc t = AfterWq w true /\ is_interrupted_by_signal t = true)) /\
    (forall w i, at_pc t = AfterWq w i -> asleep t -> tid ∈ queue w k)
  end.

Record globals k : Prop := {
  g_sched : sched_ok (sched k);
  g_queued : NoDup (queued (sched k));
  g_cpus : forall c c' tid, cpus k !! c = Some (Some tid) -> cpus k !! c' = Some (Some tid) -> c = c';
  g_wqs : forall w, NoDup (queue w k);
  g_timers : NoDup (ev_id <$> timers k);
  g_events : forall e, e ∈ timers k -> event_no (ev_id e) < next_event k;
  g_table : Z.of_nat (size (table k)) <= MAX_TASKS;
  g_init : exists i, init_task k = Some i /\ is_Some (arcs k !! i);
  g_fresh : forall tid, is_Some (arcs k !! tid) -> tid < next_tid k;
  g_refs : forall tid t, arcs k !! tid = Some t -> refs_alive (arcs k) (at_pc t);
  g_actions : forall tid t, arcs k !! tid = Some t -> length (signal_actions t) = 32%nat
}.

Definition INV k : Prop := globals k /\ forall tid, consistent k tid.

(** What of a state concerns the task [tid]. *)
Definition same_view k k' (tid : Z) : Prop :=
  arcs k' !! tid = arcs k !! tid /\ (tid ∈ queued (sched k') <-> tid ∈ queued (sched k)) /\
  (on_cpu tid k' <-> on_cpu tid k) /\ (tid ∈ table k' <-> tid ∈ table k) /\
  (forall e, ev_task e = tid -> e ∈ timers k' <-> e ∈ timers k) /\ (forall w, tid ∈ queue w k' <-> tid ∈ queue w k).

Lemma task_ok_table tbl tbl' tid t : (tid ∈ tbl' <-> tid ∈ tbl) -> task_ok tbl tid t -> task_ok tbl' tid t.
Proof. intros Ht. unfold task_ok. destruct (state t); naive_solver. Qed.

Lemma same_view_consistent k k' tid : same_view k k' tid -> consistent k tid -> consistent k' tid.
Proof.
  intros (Ha & Hq & Hc & Ht & He & Hw). unfold consistent. rewrite Ha. destruct (arcs k !! tid) as [t|].
  - intros (H1 & H2 & H3 & H4 & H5 & H6 & H7). split_and!.
    + by eapply task_ok_table.
    + by rewrite Hq.
    + by rewrite Hc.
    + intros e Hin Hev. apply H4; [by apply He|done].
    + intros id Hid. destruct (H5 id Hid) as (e & Hin & Hev & Hi). exists e. rewrite He by done. done.
    + intros w Hin. apply H6. by apply Hw.
    + intros w i Hp Has. apply Hw. by eapply H7.
  - intros (H1 & H2 & H3 & H4 & H5). rewrite Hq, Hc, Ht. split_and!; auto.
    + intros e Hin Hev. apply (H4 e); [by apply He|done].
    + intros w. rewrite Hw. apply H5.
Qed.

(** A change that concerns one task. *)
Lemma INV_local tid k k' : INV k -> (forall x, x <> tid -> same_view k k' x) -> consistent k' tid -> globals k' -> INV k'.
Proof.
  intros [Hg Hc] Hs Ht Hg'. split; [done|]. intros x. destruct (decide (x = tid)) as [-> |Hne]; [done|].
  eapply same_view_consistent; [by apply Hs|apply Hc].
Qed.

(** The parts of the invariant for a task that exists. *)
Lemma INV_task k tid t : INV k -> arcs k !! tid = Some t ->
  task_ok (table k) tid t /\ (tid ∈ queued (sched k) <-> state t = Runable) /\ (on_cpu tid k <-> state t = Running) /\
  (forall e, e ∈ timers k -> ev_task e = tid -> sleep_timer_event t = Some (ev_id e)) /\
  (forall id, sleep_timer_event t = Some id -> exists e, e ∈ timers k /\ ev_task e = tid /\ ev_id e = id) /\
  (forall w, tid ∈ queue w k -> (exists i, at_pc t = AfterWq w i) /\ (asleep t \/ at_pc t = AfterWq w true /\ is_interrupted_by_signal t = true)) /\
  (forall w i, at_pc t = AfterWq w i -> asleep t -> tid ∈ queue w k).
Proof. intros [_ Hc] Ht. specialize (Hc tid). unfold consistent in Hc. by rewrite Ht in Hc. Qed.

(** A task with an entry somewhere exists. *)
Lemma INV_on_cpu k c tid : INV k -> cpus k !! c = Some (Some tid) -> exists t, arcs k !! tid = Some t /\ state t = Running.
Proof.
  intros [_ Hc] Hcpu. specialize (Hc tid). unfold consistent in Hc. destruct (arcs k !! tid) as [t|].
  - exists t. split; [done|]. destruct Hc as (_ & _ & Hcpu' & _). apply Hcpu'. by exists c.
  - exfalso. destruct Hc as (_ & Hcpu' & _). apply Hcpu'. by exists c.
Qed.

Lemma INV_in_table k tid : INV k -> tid ∈ table k -> is_Some (arcs k !! tid).
Proof. intros [_ Hc] Ht. specialize (Hc tid). unfold consistent in Hc. destruct (arcs k !! tid); [done|naive_solver]. Qed.

Lemma INV_in_wq k w tid : INV k -> tid ∈ queue w k -> is_Some (arcs k !! tid).
Proof. intros [_ Hc] Ht. specialize (Hc tid). unfold consistent in Hc. destruct (arcs k !! tid); [done|]. exfalso. by apply (proj2 (proj2 (proj2 (proj2 Hc))) w). Qed.

Lemma INV_timer k e : INV k -> e ∈ timers k -> exists t, arcs k !! ev_task e = Some t /\ sleep_timer_event t = Some (ev_id e) /\ state t = Interruptible.
Proof.
  intros [_ Hc] He. specialize (Hc (ev_task e)). unfold consistent in Hc. destruct (arcs k !! ev_task e) as [t|].
  - destruct Hc as (Hok & _ & _ & H4 & _). pose proof (H4 e He eq_refl) as Hs. exists t. split_and!; auto.
    unfold task_ok in Hok. destruct (state t); naive_solver.
  - exfalso. naive_solver.
Qed.

(** A runable task, or any that may run, is in the table; there is room in
    the run queue for one more that is not in it. *)
Lemma INV_room k tid : INV k -> tid ∉ queued (sched k) -> tid ∈ table k -> Z.of_nat (length (queued (sched k))) < MAX_TASKS.
Proof.
  intros HI Hn Ht. destruct HI as [Hg Hc].
  assert (tid :: queued (sched k) ⊆+ elements (table k)) as Hsub.
  { apply NoDup_submseteq; [constructor; [done|apply g_queued; done]|]. intros x. rewrite elem_of_cons, elem_of_elements.
    intros [-> |Hx]; [done|]. specialize (Hc x). unfold consistent in Hc. destruct (arcs k !! x) as [t|]; [|naive_solver].
    destruct Hc as (Hok & Hq & _). unfold task_ok in Hok. rewrite (proj1 Hq Hx) in Hok. naive_solver. }
  apply submseteq_length in Hsub. cbn in Hsub. pose proof (g_table k Hg). unfold size, set_size in *. cbn in *. lia.
Qed.

(** ** Changes of one task

    The run queue, the processors, the timers and the wait queues may change
    for the task [tid] only. *)

Definition sched_part (tid : Z) k k' : Prop :=
  sched_ok (sched k') /\ NoDup (queued (sched k')) /\
  forall x, x <> tid -> x ∈ queued (sched k') <-> x ∈ queued (sched k).
Definition cpu_part (tid : Z) k k' : Prop :=
  (forall c c' x, cpus k' !! c = Some (Some x) -> cpus k' !! c' = Some (Some x) -> c = c') /\
  forall x, x <> tid -> on_cpu x k' <-> on_cpu x k.
Definition timer_part (tid : Z) k k' : Prop :=
  NoDup (ev_id <$> timers k') /\ (forall e, e ∈ timers k' -> event_no (ev_id e) < next_event k') /\
  forall e, ev_task e <> tid -> e ∈ timers k' <-> e ∈ timers k.
Definition wq_part (tid : Z) k k' : Prop :=
  (forall w, NoDup (queue w k')) /\ forall x w, x <> tid -> x ∈ queue w k' <-> x ∈ queue w k.

Lemma sched_part_same tid k k' : INV k -> sched k' = sched k -> sched_part tid k k'.
Proof. intros [Hg _] E. unfold sched_part. rewrite E. split_and!; [by apply g_sched|by apply g_queued|done]. Qed.
Lemma cpu_part_same tid k k' : INV k -> cpus k' = cpus k -> cpu_part tid k k'.
Proof. intros [Hg _] E. unfold cpu_part, on_cpu. rewrite E. split; [by apply g_cpus|done]. Qed.
Lemma timer_part_same tid k k' : INV k -> timers k' = timers k -> next_event k' = next_event k -> timer_part tid k k'.
Proof. intros [Hg _] E1 E2. unfold timer_part. rewrite E1, E2. split_and!; [by apply g_timers|by apply g_events|done]. Qed.
Lemma wq_part_same tid k k' : INV k -> wqs k' = wqs k -> wq_part tid k k'.
Proof. intros [Hg _] E. unfold wq_part, queue in *. rewrite E. split; [by apply g_wqs|done]. Qed.

Lemma refs_alive_insert tasks tid t t' p : tasks !! tid = Some t -> (state t = Zombie -> state t' = Zombie) ->
  refs_alive tasks p -> refs_alive (<[tid := t']> tasks) p.
Proof.
  intros Ht Hz. destruct p; cbn; auto.
  - intros (tc & Hc & Hs). destruct (decide (child = tid)) as [-> |Hne].
    + exists t'. rewrite lookup_insert_eq. split; [done|]. apply Hz. congruence.
    + exists tc. by rewrite lookup_insert_ne.
  - intros Hc. destruct (decide (child = tid)) as [-> |Hne]; [by rewrite lookup_insert_eq|by rewrite lookup_insert_ne].
  - intros Hc. destruct (decide (parent = tid)) as [-> |Hne]; [by rewrite lookup_insert_eq|by rewrite lookup_insert_ne].
Qed.

Lemma INV_step tid t t' k k' : INV k -> arcs k !! tid = Some t -> arcs k' = <[tid := t']> (arcs k) ->
  table k' = table k -> init_task k' = init_task k -> next_tid k' = next_tid k ->
  (state t = Zombie -> state t' = Zombie) -> refs_alive (arcs k) (at_pc t') -> length (signal_actions t') = 32%nat ->
  sched_part tid k k' -> cpu_part tid k k' -> timer_part tid k k' -> wq_part tid k k' ->
  consistent k' tid -> INV k'.
Proof.
  intros HI Ht Ha Htb Hin Hnt Hz Hr Hl (Hs1 & Hs2 & Hs3) (Hc1 & Hc2) (Ht1 & Ht2 & Ht3) (Hw1 & Hw2) Hcons.
  pose proof HI as [Hg _]. apply (INV_local tid k); try done.
  - intros x Hx. unfold same_view. rewrite Ha, Htb. rewrite lookup_insert_ne by done. split_and!; auto.
    intros e He. apply Ht3. congruence.
  - split; try done.
    + rewrite Htb. by apply g_table.
    + destruct (g_init k Hg) as (i & Hi & Hsome). exists i. rewrite Hin, Ha. split; [done|].
      destruct (decide (i = tid)) as [-> |]; [by rewrite lookup_insert_eq|by rewrite lookup_insert_ne].
    + intros x. rewrite Ha, Hnt. destruct (decide (x = tid)) as [-> |].
      * intros _. apply (g_fresh k Hg). by exists t.
      * rewrite lookup_insert_ne by done. apply (g_fresh k Hg).
    + intros x tx. rewrite Ha. destruct (decide (x = tid)) as [-> |].
      * rewrite lookup_insert_eq. intros [= <-]. by eapply refs_alive_insert.
      * rewrite lookup_insert_ne by done. intros Hx. eapply refs_alive_insert; try done. by eapply g_refs.
    + intros x tx. rewrite Ha. destruct (decide (x = tid)) as [-> |].
      * rewrite lookup_insert_eq. by intros [= <-].
      * rewrite lookup_insert_ne by done. by apply g_actions.
Qed.
End inv.

(** * The operations on tasks keep the invariant *)

Lemma alter_insert_eq {A} (f : A -> A) (m : gmap Z A) i x : m !! i = Some x -> alter f i m = <[i := f x]> m.
Proof.
  intros Hx. apply map_eq. intros j. destruct (decide (i = j)) as [<-|Hne].
  - by rewrite lookup_alter_eq, lookup_insert_eq, Hx.
  - by rewrite lookup_alter_ne, lookup_insert_ne.
Qed.

Lemma alter_none {A} (f : A -> A) (m : gmap Z A) i : m !! i = None -> alter f i m = m.
Proof.
  intros Hx. apply map_eq. intros j. destruct (decide (i = j)) as [<-|Hne].
  - by rewrite lookup_alter_eq, Hx.
  - by rewrite lookup_alter_ne.
Qed.

Section ops.
Context {Q : Type} `{Scheduler Q} (queued : Q -> list Z) (sched_ok : Q -> Prop) `{!SchedulerLaws Q queued sched_ok}.
Implicit Types (k : kernel Q) (t : Task) (tid : Z).

#[local] Notation INV := (INV queued sched_ok).
#[local] Notation KM := (M (kernel Q) Sys.SysErrorKind).

Lemma set_arcs_id k : set_arcs (arcs k) k = k.
Proof. by destruct k. Qed.

Lemma wp_upd tid f (Q' : unit -> kernel Q -> Prop) R k : Q' tt (set_arcs (alter f tid (arcs k)) k) -> wp (upd tid f) Q' R k.
Proof. done. Qed.

Lemma wp_task_of tid t (Q' : Task -> kernel Q -> Prop) (R : Sys.SysErrorKind -> kernel Q -> Prop) k :
  arcs k !! tid = Some t -> Q' t k -> wp (task_of tid) Q' R k.
Proof. intros Ht HQ. unfold wp, task_of, bind, get, unwrap. by rewrite Ht. Qed.

(** ** Changes that the invariant does not see *)

(** [f] keeps what the invariant looks at. *)
Definition keeps (f : Task -> Task) t : Prop :=
  state (f t) = state t /\ sleep_timer_event (f t) = sleep_timer_event t /\ at_pc (f t) = at_pc t /\
  length (signal_actions (f t)) = length (signal_actions t) /\
  ((exists w i, at_pc t = AfterWq w i) -> is_interrupted_by_signal t = true -> is_interrupted_by_signal (f t) = true).

Lemma keeps_consistent k tid t f : keeps f t -> arcs k !! tid = Some t -> consistent queued k tid ->
  consistent queued (set_arcs (<[tid := f t]> (arcs k)) k) tid.
Proof.
  intros (Hs & Hsl & Hp & _ & Hint) Ht. unfold consistent. rewrite Ht. cbn. rewrite lookup_insert_eq.
  intros (H1 & H2 & H3 & H4 & H5 & H6 & H7). split_and!.
  - unfold task_ok in *. rewrite Hs, Hsl, Hp. done.
  - by rewrite Hs.
  - by rewrite Hs.
  - by rewrite Hsl.
  - by rewrite Hsl.
  - intros w Hw. destruct (H6 w Hw) as [[i Hi] Hor]. rewrite Hp. split; [eauto|]. unfold asleep in *. rewrite Hs.
    destruct Hor as [|[Hw' Hi']]; [by left|right]. split; [done|]. apply Hint; [eauto|done].
  - unfold asleep. rewrite Hs, Hp. done.
Qed.

Lemma upd_keeps tid f k : INV k -> (forall t, arcs k !! tid = Some t -> keeps f t) -> INV (set_arcs (alter f tid (arcs k)) k).
Proof.
  intros HI Hf. destruct (arcs k !! tid) as [t|] eqn:Ht; [|by rewrite alter_none, set_arcs_id].
  specialize (Hf t eq_refl). rewrite (alter_insert_eq _ _ _ _ Ht).
  pose proof Hf as (Hs & Hsl & Hp & Hl & _). pose proof HI as [Hg Hc].
  apply (INV_step queued sched_ok tid t (f t) k); try done.
  - by rewrite Hs.
  - rewrite Hp. by eapply g_refs.
  - rewrite Hl. by eapply g_actions.
  - by eapply sched_part_same.
  - by eapply cpu_part_same.
  - by eapply timer_part_same.
  - by eapply wq_part_same.
  - apply keeps_consistent; [done|done|apply Hc].
Qed.

(** ** Waking *)

(** [k1] is [k] with the sleeping task [tid] made runable and not yet in the
    run queue. *)
Lemma wake_core tid t t' k k1 : INV k -> arcs k !! tid = Some t ->
  (asleep t \/ state t = Waitting) ->
  arcs k1 = <[tid := t']> (arcs k) -> table k1 = table k -> init_task k1 = init_task k -> next_tid k1 = next_tid k ->
  sched k1 = sched k -> cpus k1 = cpus k ->
  state t' = Runable -> sleep_timer_event t' = None -> at_pc t' = at_pc t -> length (signal_actions t') = 32%nat ->
  timer_part tid k k1 -> (forall e, e ∈ timers k1 -> ev_task e <> tid) ->
  wq_part tid k k1 -> (forall w, tid ∈ queue w k1 -> tid ∈ queue w k /\ at_pc t = AfterWq w true /\ is_interrupted_by_signal t' = true) ->
  exists q', enqueue_ready tid (sched k1) = (Ok tt, q') /\ INV (set_sched q' k1).
Proof.
  intros HI Ht Hst Ha Htb Hi Hn Hs Hcp Hst' Hsl' Hp' Hl' Htp Hte Hwp Hw. pose proof HI as [Hg Hc].
  pose proof (INV_task _ _ _ _ _ HI Ht) as (Hok & Hq & Hcpu & _ & _ & H6 & _).
  destruct (sleeping_facts _ _ _ Hok Hst) as (Htab & Hdead & Hnz & Hnr & Hnrun).
  assert (tid ∉ queued (sched k)) as Hnq by by rewrite Hq.
  rewrite Hs. destruct (enqueue_law (sched k) tid) as (q' & He & Hok' & Hqd).
  - by eapply g_sched.
  - done.
  - eapply (INV_room queued sched_ok); done.
  - exists q'. split; [done|].
    apply (INV_step queued sched_ok tid t t' k); try done.
    + rewrite Hp'. by eapply g_refs.
    + split_and!; cbn; [done| |].
      * rewrite Hqd. constructor; [done|]. by eapply g_queued.
      * intros x Hx. rewrite Hqd, elem_of_cons. clear -Hx. naive_solver.
    + by eapply cpu_part_same.
    + unfold consistent. cbn. rewrite Ha, lookup_insert_eq. split_and!.
      * unfold task_ok. rewrite Hst', Hp', Htb. done.
      * rewrite Hst', Hqd, elem_of_cons. split; [done|by left].
      * rewrite Hst'. unfold on_cpu in *. cbn. rewrite Hcp. split; [|done]. intros Hon. by apply Hcpu in Hon.
      * intros e He' Hev. exfalso. by eapply Hte.
      * rewrite Hsl'. done.
      * intros w Hin. change (queue w (set_sched q' k1)) with (queue w k1) in Hin. destruct (Hw w Hin) as (Hin0 & Hpc & Hint).
        rewrite Hp'. split; [apply (H6 w Hin0)|by right].
      * intros w i _ [E|E]; rewrite Hst' in E; done.
Qed.

Lemma wp_enqueue tid q' k : enqueue_ready tid (sched k) = (Ok tt, q') -> INV (set_sched q' k) ->
  wp (on_sched (enqueue_ready tid)) (fun _ => INV) (fun _ => INV) k.
Proof. intros He HI. unfold wp, on_sched. by rewrite He. Qed.

(** [wakeup_unchecked] of a task that sleeps without a timer. *)
Lemma wakeup_unchecked_INV tid t k : INV k -> arcs k !! tid = Some t -> (asleep t \/ state t = Waitting) ->
  sleep_timer_event t = None -> (forall w, tid ∈ queue w k -> at_pc t = AfterWq w true /\ is_interrupted_by_signal t = true) ->
  wp (wakeup_unchecked tid) (fun _ => INV) (fun _ => INV) k.
Proof.
  intros HI Ht Hst Hsl Hw. unfold wakeup_unchecked. apply wp_bind, wp_upd. rewrite (alter_insert_eq _ _ _ _ Ht).
  destruct (wake_core tid t (set_state Runable t) k (set_arcs (<[tid := set_state Runable t]> (arcs k)) k)) as (q' & He & HI'); try done.
  - exact (g_actions _ _ _ (proj1 HI) _ _ Ht).
  - by eapply timer_part_same.
  - intros e He Hev. pose proof (INV_task _ _ _ _ _ HI Ht) as (_ & _ & _ & H4 & _). specialize (H4 e He Hev). congruence.
  - by eapply wq_part_same.
  - intros w Hin. split; [done|by apply Hw].
  - by eapply wp_enqueue.
Qed.

Lemma wakeup_if_waiting_INV tid k : INV k -> is_Some (arcs k !! tid) -> wp (wakeup_if_waiting tid) (fun _ => INV) (fun _ => INV) k.
Proof.
  intros HI [t Ht]. unfold wakeup_if_waiting. apply wp_bind. apply (wp_task_of _ t); [done|].
  case_bool_decide as E; [|by apply wp_ret].
  pose proof (INV_task _ _ _ _ _ HI Ht) as (Hok & _ & _ & _ & _ & H6 & _).
  destruct (waiting_facts _ _ _ Hok E) as (Hsl & q & Hq).
  eapply wakeup_unchecked_INV; [done|done|by right|done|].
  intros w Hw. destruct (H6 w Hw) as [[i Hi] _]. congruence.
Qed.

(** Taking the timer event of a sleeping task away. *)
Lemma timer_part_filter tid t id k k' : INV k -> arcs k !! tid = Some t -> sleep_timer_event t = Some id ->
  timers k' = filter (fun e => ev_id e <> id) (timers k) -> next_event k' = next_event k ->
  timer_part tid k k' /\ forall e, e ∈ timers k' -> ev_task e <> tid.
Proof.
  intros HI Ht Hid Et En. pose proof (INV_task _ _ _ _ _ HI Ht) as (_ & _ & _ & H4 & H5 & _). destruct HI as [Hg _].
  unfold timer_part. rewrite Et, En. split_and!.
  - eapply sublist_NoDup; [eapply g_timers; done|]. apply fmap_sublist, sublist_filter.
  - intros e He. apply list_elem_of_filter in He as [_ He]. by eapply g_events.
  - intros e He. rewrite list_elem_of_filter. split; [naive_solver|]. intros Hin. split; [|done]. intros Heq.
    destruct (H5 id Hid) as (e' & Hin' & Hev' & Hid'). pose proof (g_timers _ _ _ Hg) as Hnd.
    apply list_elem_of_lookup in Hin as [i Hi]. apply list_elem_of_lookup in Hin' as [j Hj].
    assert (i = j) as ->; [|congruence].
    eapply (NoDup_lookup _ _ _ id Hnd); rewrite list_lookup_fmap; [rewrite Hi|rewrite Hj]; cbn; by f_equal.
  - intros e He Hev. apply list_elem_of_filter in He as [Hne He]. specialize (H4 e He Hev). congruence.
Qed.

(** Waking a task that sleeps in [sleep]: the timer event is gone. *)
Lemma wake_sleeper tid t id k k1 : INV k -> arcs k !! tid = Some t -> sleep_timer_event t = Some id ->
  arcs k1 = <[tid := set_state Runable (set_sleep None t)]> (arcs k) ->
  k1 = set_arcs (arcs k1) (set_timers (filter (fun e => ev_id e <> id) (timers k)) (next_event k) k) ->
  wp (on_sched (enqueue_ready tid)) (fun _ => INV) (fun _ => INV) k1.
Proof.
  intros HI Ht Hid Ha Hk1. pose proof (INV_task _ _ _ _ _ HI Ht) as (Hok & _ & _ & _ & _ & H6 & _).
  destruct (sleep_timer_facts _ _ _ Hok) as [Hst Hp]; [by rewrite Hid|].
  destruct (timer_part_filter tid t id k k1 HI Ht Hid) as [Htp Hno]; [by rewrite Hk1|by rewrite Hk1|].
  destruct (wake_core tid t (set_state Runable (set_sleep None t)) k k1) as (q' & He & HI'); try done; try by rewrite Hk1.
  - left. by right.
  - exact (g_actions _ _ _ (proj1 HI) _ _ Ht).
  - eapply wq_part_same; [done|by rewrite Hk1].
  - intros w Hw. rewrite Hk1 in Hw. change (tid ∈ queue w k) in Hw. destruct (H6 w Hw) as [[i Hi] _]. congruence.
  - by eapply wp_enqueue.
Qed.

Lemma wakeup_if_interruptible_INV tid t k : INV k -> arcs k !! tid = Some t ->
  is_interrupted_by_signal t = true -> wp (wakeup_if_interruptible tid) (fun _ => INV) (fun _ => INV) k.
Proof.
  intros HI Ht Hint. unfold wakeup_if_interruptible. apply wp_bind, (wp_task_of _ t); [done|].
  destruct (_ || _) eqn:E; [|by apply wp_ret].
  assert (asleep t \/ state t = Waitting) as Hst.
  { apply orb_true_iff in E as [E|E]; apply bool_decide_eq_true in E; [by right|left; by right]. }
  apply wp_bind. destruct (sleep_timer_event t) as [id|] eqn:Hid.
  - apply wp_bind, wp_upd. unfold remove_event, modify. cbn beta. unfold wp at 1. unfold wakeup_unchecked. apply wp_bind, wp_upd.
    rewrite (alter_insert_eq _ _ _ _ Ht). cbn [arcs set_arcs set_timers timers next_event].
    rewrite (alter_insert_eq _ _ _ (set_sleep None t)) by apply lookup_insert_eq. rewrite insert_insert_eq.
    eapply (wake_sleeper tid t id k); done.
  - apply wp_ret. eapply wakeup_unchecked_INV; try done. intros w Hw. split; [|done].
    pose proof (INV_task _ _ _ _ _ HI Ht) as (Hok & _ & _ & _ & _ & H6 & _). destruct (H6 w Hw) as [[i Hi] _].
    apply (interruptible_wq (table k) tid t w i); [done| |done|done]. intros Eb. rewrite Eb in E. done.
Qed.

Lemma send_interrupts s sig m : contains m sig = false -> Z.lor (Z.lor s sig) m =? m = false.
Proof.
  unfold contains. rewrite !Z.eqb_neq. intros Hc Heq. apply Hc. rewrite <-Heq.
  apply Z.bits_inj'. intros i Hi. rewrite Z.land_spec, !Z.lor_spec. by destruct (Z.testbit s i), (Z.testbit sig i), (Z.testbit m i).
Qed.

Lemma lor_interrupted s sig m : Z.lor s m =? m = false -> Z.lor (Z.lor s sig) m =? m = false.
Proof.
  rewrite !Z.eqb_neq. intros Hc Heq. apply Hc.
  apply Z.bits_inj'. intros i Hi. apply (f_equal (fun z => Z.testbit z i)) in Heq. cbn beta in Heq. rewrite !Z.lor_spec in Heq. rewrite Z.lor_spec.
  revert Heq. destruct (Z.testbit s i), (Z.testbit sig i), (Z.testbit m i); done.
Qed.

Lemma send_signal_INV tid sig k : INV k -> is_Some (arcs k !! tid) -> wp (send_signal tid sig) (fun _ => INV) (fun _ => INV) k.
Proof.
  intros HI [t Ht]. unfold send_signal. destruct (sig =? 0); [by apply wp_ret|].
  apply wp_bind, wp_upd. set (f := fun t => set_signals _ t).
  assert (INV (set_arcs (alter f tid (arcs k)) k)) as HI1.
  { apply upd_keeps; [done|]. intros t' _. split_and!; try done. intros _ Hint.
    unfold is_interrupted_by_signal in *. cbn. apply negb_true_iff in Hint. by rewrite lor_interrupted. }
  rewrite (alter_insert_eq _ _ _ _ Ht) in *. apply wp_bind, (wp_task_of _ (f t)); [apply lookup_insert_eq|].
  destruct (contains _ _) eqn:Ec; [by apply wp_ret|].
  eapply wakeup_if_interruptible_INV; [done|apply lookup_insert_eq|].
  unfold is_interrupted_by_signal. cbn. by rewrite send_interrupts.
Qed.

Lemma signal_each_INV tids sig k : INV k -> wp (signal_each tids sig) (fun _ => INV) (fun _ => INV) k.
Proof.
  revert k. induction tids as [|tid tids IH]; intros k HI; cbn [signal_each]; [exact HI|].
  apply wp_bind. unfold wp at 1, get. cbn beta iota. apply wp_bind. destruct (arcs k !! tid) eqn:Ht.
  - eapply wp_mono; [apply send_signal_INV; [done|by eexists]|intros ? k' HI'; by apply IH|done].
  - apply wp_ret. by apply IH.
Qed.

(** ** The running task *)

(** A running task that is in no wait queue changes what it likes but its
    state and its timer. *)
Lemma running_upd tid t f k : INV k -> arcs k !! tid = Some t -> state t = Running -> (forall w, tid ∉ queue w k) ->
  state (f t) = Running -> sleep_timer_event (f t) = None -> at_pc (f t) <> Dead -> refs_alive (arcs k) (at_pc (f t)) ->
  length (signal_actions (f t)) = length (signal_actions t) -> INV (set_arcs (alter f tid (arcs k)) k).
Proof.
  intros HI Ht Hst Hw Hst' Hsl' Hd Hr Hl. rewrite (alter_insert_eq _ _ _ _ Ht).
  pose proof (INV_task _ _ _ _ _ HI Ht) as (Hok & Hq & Hcpu & H4 & _).
  destruct (running_facts _ _ _ Hok (or_introl Hst)) as (Hsl & _ & Htab). pose proof HI as [Hg Hc].
  apply (INV_step queued sched_ok tid t (f t) k); try done.
  - by rewrite Hst.
  - rewrite Hl. by eapply g_actions.
  - by eapply sched_part_same.
  - by eapply cpu_part_same.
  - by eapply timer_part_same.
  - by eapply wq_part_same.
  - unfold consistent. cbn. rewrite lookup_insert_eq. split_and!.
    + unfold task_ok. rewrite Hst'. done.
    + rewrite Hst', Hq, Hst. done.
    + rewrite Hst'. split; [done|]. intros _. by apply Hcpu.
    + intros e He Hev. specialize (H4 e He Hev). congruence.
    + rewrite Hsl'. done.
    + intros w Hin. exfalso. by apply (Hw w).
    + intros w i _ [E|E]; congruence.
Qed.

(** The task that runs leaves its processor and sleeps, or is a zombie. *)
Lemma block_core c tid t t' k k1 : INV k -> arcs k !! tid = Some t -> cpus k !! c = Some (Some tid) ->
  arcs k1 = <[tid := t']> (arcs k) -> table k1 = table k -> init_task k1 = init_task k -> next_tid k1 = next_tid k ->
  sched k1 = sched k -> cpus k1 = <[c := None]> (cpus k) ->
  state t' <> Running -> state t' <> Runable -> refs_alive (arcs k) (at_pc t') -> length (signal_actions t') = 32%nat ->
  task_ok (table k) tid t' -> timer_part tid k k1 ->
  (forall e, e ∈ timers k1 -> ev_task e = tid -> sleep_timer_event t' = Some (ev_id e)) ->
  (forall id, sleep_timer_event t' = Some id -> exists e, e ∈ timers k1 /\ ev_task e = tid /\ ev_id e = id) ->
  wq_part tid k k1 ->
  (forall w, tid ∈ queue w k1 <-> asleep t' /\ exists i, at_pc t' = AfterWq w i) -> INV k1.
Proof.
  intros HI Ht Hcpu Ha Htb Hi Hn Hs Hcp Hnr Hnq Hr Hl Hok' Htp H4 H5 Hwp Hw. pose proof HI as [Hg Hc].
  pose proof (INV_task _ _ _ _ _ HI Ht) as (Hok & Hq & Hon & _).
  assert (state t = Running) as Hst by (apply Hon; by exists c).
  assert (forall c', cpus k1 !! c' <> Some (Some tid)) as Hoff.
  { intros c' Hc'. rewrite Hcp in Hc'. destruct (decide (c = c')) as [<-|Hne].
    - rewrite list_lookup_insert_eq in Hc' by (by eapply lookup_lt_Some). congruence.
    - rewrite list_lookup_insert_ne in Hc' by done. apply Hne. by eapply (g_cpus _ _ _ Hg). }
  apply (INV_step queued sched_ok tid t t' k); try done.
  - by rewrite Hst.
  - by eapply sched_part_same.
  - split.
    + intros c1 c2 x H1 H2. rewrite Hcp in H1, H2. apply list_lookup_insert_Some in H1 as [(_ & ? & _)|[_ H1]]; [done|].
      apply list_lookup_insert_Some in H2 as [(_ & ? & _)|[_ H2]]; [done|]. by eapply (g_cpus _ _ _ Hg).
    + intros x Hx. unfold on_cpu. rewrite Hcp. split.
      * intros [c' Hc']. apply list_lookup_insert_Some in Hc' as [(_ & ? & _)|[_ H1]]; [done|by exists c'].
      * intros [c' Hc']. exists c'. rewrite list_lookup_insert_ne; [done|]. intros ->. congruence.
  - unfold consistent. rewrite Ha, lookup_insert_eq, Htb, Hs. split_and!; auto.
    + rewrite Hq, Hst. done.
    + split; [|done]. intros [c' Hc']. by apply Hoff in Hc'.
    + intros w Hin. apply Hw in Hin as [Has Hi']. auto.
    + intros w i Hi' Has. apply Hw. eauto.
Qed.

Lemma switch_back_blocked c tid t (Q' : unit -> kernel Q -> Prop) (R : Sys.SysErrorKind -> kernel Q -> Prop) k :
  arcs k !! tid = Some t -> state t <> Runable -> Q' tt (set_cpu c None k) -> wp (switch_back c tid) Q' R k.
Proof.
  intros Ht Hst HQ. unfold switch_back. apply wp_bind, (wp_task_of _ t); [done|]. apply wp_bind.
  rewrite bool_decide_false by done. exact HQ.
Qed.

(** The pc of a task that is not in the middle of waiting in a queue. *)
Lemma not_in_wq tid t k : INV k -> arcs k !! tid = Some t -> (forall w i, at_pc t <> AfterWq w i) -> forall w, tid ∉ queue w k.
Proof.
  intros HI Ht Hp w Hw. pose proof (INV_task _ _ _ _ _ HI Ht) as (_ & _ & _ & _ & _ & H6 & _).
  destruct (H6 w Hw) as [[i Hi] _]. by eapply Hp.
Qed.
End ops.
