(* ===== verification/TaskCalls.v ===== *)
(** * Calls and interrupts keep the invariant *)

From S2P Require Import Prelude Vfs Sched Task TaskOps.
Import Vfs.

#[local] Open Scope Z_scope.
#[local] Open Scope rw_scope.

Section calls.
Context {Q : Type} `{Scheduler Q} (queued : Q -> list Z) (sched_ok : Q -> Prop) `{!SchedulerLaws Q queued sched_ok}.
Implicit Types (k : kernel Q) (t : Task) (tid : Z).

#[local] Notation INV := (INV queued sched_ok).
#[local] Notation KM := (M (kernel Q) Sys.SysErrorKind).

(** [m] does not panic and keeps the invariant, run from [k]. *)
Definition keeps_INV {A} (m : KM A) k : Prop := wp m (fun _ => INV) (fun _ => INV) k.

Lemma keeps_ret {A} (a : A) k : INV k -> keeps_INV (ret a) k.
Proof. done. Qed.

Lemma keeps_fail {A} e k : INV k -> keeps_INV (fail e : KM A) k.
Proof. done. Qed.

Lemma keeps_bind {A B} (m : KM A) (f : A -> KM B) k : keeps_INV m k -> (forall a k', INV k' -> keeps_INV (f a) k') -> keeps_INV (bind m f) k.
Proof. intros Hm Hf. apply wp_bind. eapply wp_mono; [exact Hm|intros a k' HI; by apply Hf|done]. Qed.

(** *** The scheduler *)

Lemma yield_now_INV c tid k : INV k -> cpus k !! c = Some (Some tid) -> keeps_INV (yield_now c tid) k.
Proof.
  intros HI Hcpu. destruct (INV_on_cpu _ _ _ _ _ HI Hcpu) as (t & Ht & Hst). pose proof HI as [Hg Hc].
  pose proof (INV_task _ _ _ _ _ HI Ht) as (Hok & Hq & Hon & H4 & H5 & H6 & _).
  destruct (running_facts _ _ _ Hok (or_introl Hst)) as (Hsl & Hd & Htab).
  assert (tid ∉ queued (sched k)) as Hnq by (rewrite Hq; congruence).
  destruct (enqueue_law (sched k) tid) as (q' & He & Hok' & Hqd); [by eapply g_sched|done|by eapply INV_room|].
  unfold keeps_INV, yield_now, switch_back. apply wp_bind, wp_upd. rewrite (alter_insert_eq _ _ _ _ Ht).
  apply wp_bind, (wp_task_of _ (set_state Runable t)); [apply lookup_insert_eq|]. rewrite bool_decide_true by done.
  apply wp_bind. unfold wp at 1, on_sched. cbn [sched set_arcs]. rewrite He. unfold wp, modify.
  apply (INV_step queued sched_ok tid t (set_state Runable t) k); try done.
  - intros. congruence.
  - exact (g_refs _ _ _ Hg _ _ Ht).
  - exact (g_actions _ _ _ Hg _ _ Ht).
  - split_and!; cbn; [done|rewrite Hqd; constructor; [done|by eapply g_queued]|].
    intros x Hx. rewrite Hqd, elem_of_cons. clear -Hx. naive_solver.
  - split; cbn.
    + intros c1 c2 x H1 H2. apply list_lookup_insert_Some in H1 as [(_ & ? & _)|[_ H1]]; [done|].
      apply list_lookup_insert_Some in H2 as [(_ & ? & _)|[_ H2]]; [done|]. by eapply (g_cpus _ _ _ Hg).
    + intros x Hx. unfold on_cpu. cbn. split.
      * intros [c' Hc']. apply list_lookup_insert_Some in Hc' as [(_ & ? & _)|[_ H1]]; [done|by exists c'].
      * intros [c' Hc']. exists c'. rewrite list_lookup_insert_ne; [done|]. intros ->. congruence.
  - by eapply timer_part_same.
  - by eapply wq_part_same.
  - unfold consistent. cbn. rewrite lookup_insert_eq. split_and!; try done.
    + rewrite Hqd, elem_of_cons. split; [done|by left].
    + split; [|done]. intros [c' Hc']. cbn in Hc'. apply list_lookup_insert_Some in Hc' as [(_ & ? & _)|[Hne Hc']]; [done|].
      exfalso. apply Hne. by eapply (g_cpus _ _ _ Hg).
    + intros w Hin. destruct (H6 w Hin) as [Hi [[E|E]|Hint]]; [congruence|congruence|]. split; [done|by right].
    + intros w i _ [E|E]; done.
Qed.

Lemma scheduler_pick_INV c now k : INV k -> cpus k !! c = Some None -> keeps_INV (scheduler_pick c now) k.
Proof.
  intros HI Hcpu. pose proof HI as [Hg Hc]. unfold keeps_INV, scheduler_pick. apply wp_bind.
  destruct (pick_law (sched k) now) as (o & q' & Hp & Hok' & Hqd & Hnone); [by eapply g_sched|].
  unfold wp at 1, on_sched. rewrite Hp. destruct o as [tid|]; cbn in Hqd.
  2: { apply wp_ret. split.
       - destruct Hg. split; try done. cbn. by rewrite <-Hqd.
       - intros x. eapply same_view_consistent; [|apply Hc]. unfold same_view. cbn. split_and!; try done. by rewrite Hqd. }
  assert (tid ∈ queued (sched k)) as Hin by (rewrite Hqd; apply elem_of_cons; by left).
  pose proof (g_queued _ _ _ Hg) as Hnd. rewrite Hqd in Hnd. apply NoDup_cons in Hnd as [Hnew Hnd].
  pose proof (Hc tid) as Hct. unfold consistent in Hct. destruct (arcs k !! tid) as [t|] eqn:Ht; [|naive_solver].
  destruct Hct as (Hok & Hq & Hon & H4 & H5 & H6 & _). pose proof (proj1 Hq Hin) as Hst.
  destruct (running_facts _ _ _ Hok (or_intror Hst)) as (Hsl & Hd & Htab).
  apply wp_bind, (wp_task_of _ t); [done|]. apply wp_bind, wp_assert; [by apply bool_decide_eq_true|].
  apply wp_bind, wp_upd. cbn [arcs set_sched]. rewrite (alter_insert_eq _ _ _ _ Ht). unfold wp, modify.
  apply (INV_step queued sched_ok tid t (set_state Running t) k); try done.
  - intros. congruence.
  - exact (g_refs _ _ _ Hg _ _ Ht).
  - exact (g_actions _ _ _ Hg _ _ Ht).
  - split_and!; cbn; [done|done|]. intros x Hx. rewrite Hqd, elem_of_cons. clear -Hx. naive_solver.
  - assert (~ on_cpu tid k) as Hnon by (rewrite Hon; congruence). split; cbn.
    + intros c1 c2 x H1 H2. apply list_lookup_insert_Some in H1 as [(<- & [= <-] & _)|[Hn1 H1]].
      * apply list_lookup_insert_Some in H2 as [(<- & _ & _)|[Hn2 H2]]; [done|]. exfalso. apply Hnon. by exists c2.
      * apply list_lookup_insert_Some in H2 as [(<- & [= <-] & _)|[Hn2 H2]]; [exfalso; apply Hnon; by exists c1|].
        by eapply (g_cpus _ _ _ Hg).
    + intros x Hx. unfold on_cpu. cbn. split.
      * intros [c' Hc']. apply list_lookup_insert_Some in Hc' as [(_ & ? & _)|[_ H1]]; [congruence|by exists c'].
      * intros [c' Hc']. exists c'. rewrite list_lookup_insert_ne; [done|]. intros ->. congruence.
  - by eapply timer_part_same.
  - by eapply wq_part_same.
  - unfold consistent. cbn. rewrite lookup_insert_eq. split_and!; try done.
    + split; [done|]. intros _. exists c. cbn. apply list_lookup_insert_eq. by eapply lookup_lt_Some.
    + intros w Hin'. destruct (H6 w Hin') as [Hi [[E|E]|Hint]]; [congruence|congruence|]. split; [done|by right].
    + intros w i _ [E|E]; done.
Qed.

(** *** Timers *)

Lemma timer_tick_INV c now e k : INV k -> e ∈ timers k -> keeps_INV (timer_tick c now e) k.
Proof.
  intros HI He. destruct (INV_timer _ _ _ _ HI He) as (t & Ht & Hid & Hst).
  unfold keeps_INV, timer_tick. apply wp_bind. unfold wp at 1, get. destruct (_ && _); [|by apply wp_ret].
  apply wp_bind. unfold wp at 1, modify. unfold sleep_callback. apply wp_bind, (wp_task_of _ t); [done|]. rewrite Hid.
  apply wp_bind, wp_upd. rewrite bool_decide_true by done. cbn [arcs set_timers]. rewrite (alter_insert_eq _ _ _ _ Ht).
  unfold wakeup. apply wp_bind, (wp_task_of _ (set_sleep None t)); [apply lookup_insert_eq|]. cbn [state set_sleep]. rewrite Hst.
  unfold wakeup_unchecked. apply wp_bind, wp_upd. cbn [arcs set_arcs].
  rewrite (alter_insert_eq _ _ _ (set_sleep None t)) by apply lookup_insert_eq. rewrite insert_insert_eq.
  eapply (wake_sleeper queued sched_ok (ev_task e) t (ev_id e) k); done.
Qed.

Lemma sched_tick_INV c now k : INV k -> keeps_INV (sched_tick c now) k.
Proof.
  intros HI. pose proof HI as [Hg Hc]. unfold keeps_INV, sched_tick. apply wp_bind. unfold wp at 1, get. cbn zeta.
  set (cur := default None (cpus k !! c)).
  assert (forall tid, cur = Some tid -> cpus k !! c = Some (Some tid)) as Hcur.
  { intros tid. subst cur. destruct (cpus k !! c) as [o|]; cbn; [by intros ->|done]. }
  destruct (tick_law (sched k) cur now) as (b & q' & Ht & Hok & Hqd).
  - by eapply g_sched.
  - intros tid E Hin. destruct (INV_on_cpu _ _ _ _ _ HI (Hcur _ E)) as (t & Ht & Hst).
    pose proof (INV_task _ _ _ _ _ HI Ht) as (_ & Hq & _). apply Hq in Hin. congruence.
  - apply wp_bind. unfold wp at 1, on_sched. rewrite Ht.
    assert (INV (set_sched q' k)) as HI'.
    { split.
      - destruct Hg. split; try done. cbn. by rewrite Hqd.
      - intros x. eapply same_view_consistent; [|apply Hc]. unfold same_view. cbn. rewrite Hqd. done. }
    destruct cur as [tid|]; [|by apply wp_ret]. destruct b; [|by apply wp_ret].
    apply yield_now_INV; [done|]. by apply Hcur.
Qed.

(** *** Wait queues *)

(** The change of a wait queue that concerns [tid]. *)
Lemma queue_insert w w' q k : queue w' (set_wqs (<[w := q]> (wqs k)) k) = if decide (w = w') then q else queue w' k.
Proof.
  unfold queue. cbn. case_decide as E; [subst; by rewrite lookup_insert_eq|by rewrite lookup_insert_ne].
Qed.

Lemma pop_queue w tid q k : INV k -> queue w k = tid :: q ->
  exists t i, arcs k !! tid = Some t /\ at_pc t = AfterWq w i /\ (asleep t \/ at_pc t = AfterWq w true /\ is_interrupted_by_signal t = true) /\
    wq_part tid k (set_wqs (<[w := q]> (wqs k)) k) /\ forall w', tid ∉ queue w' (set_wqs (<[w := q]> (wqs k)) k).
Proof.
  intros HI Hq. assert (tid ∈ queue w k) as Hin by (rewrite Hq; apply elem_of_cons; by left).
  destruct (INV_in_wq _ _ _ _ _ HI Hin) as [t Ht].
  pose proof (INV_task _ _ _ _ _ HI Ht) as (_ & _ & _ & _ & _ & H6 & _). destruct (H6 w Hin) as [[i Hi] Hor].
  pose proof (g_wqs _ _ _ (proj1 HI) w) as Hnd. rewrite Hq in Hnd. apply NoDup_cons in Hnd as [Hnew Hnd].
  exists t, i. split_and!; try done.
  - split.
    + intros w'. rewrite queue_insert. case_decide; [done|]. by eapply (g_wqs _ _ _ (proj1 HI)).
    + intros x w' Hx. rewrite queue_insert. case_decide as E; [subst|done]. rewrite Hq, elem_of_cons. clear -Hx. naive_solver.
  - intros w'. rewrite queue_insert. case_decide as E; [done|]. intros Hin'. destruct (H6 w' Hin') as [[i' Hi'] _]. congruence.
Qed.

Lemma pop_wakeup_INV w tid q k : INV k -> queue w k = tid :: q -> keeps_INV (wq_wakeup tid) (set_wqs (<[w := q]> (wqs k)) k).
Proof.
  intros HI Hq. destruct (pop_queue w tid q k HI Hq) as (t & i & Ht & Hp & Hor & Hwp & Hno).
  pose proof (INV_task _ _ _ _ _ HI Ht) as (Hok & Hqd & Hon & H4 & H5 & H6 & H7).
  assert (state t <> Zombie /\ state t <> Waitting /\ state t <> Initialized) as (Hz & Hwt & Hin).
  { unfold task_ok in Hok. destruct (state t); split_and!; try done; destruct Hok as [_ Hok]; try done; [destruct Hok as (_ & q0 & Hq0)|]; congruence. }
  assert (sleep_timer_event t = None) as Hsl.
  { destruct (sleep_timer_event t) eqn:E; [|done]. destruct (sleep_timer_facts _ _ _ Hok); [by rewrite E|congruence]. }
  unfold keeps_INV, wq_wakeup. apply wp_bind, (wp_task_of _ t); [done|]. rewrite bool_decide_false by done.
  unfold wakeup. apply wp_bind, (wp_task_of _ t); [done|].
  set (k1 := set_wqs _ k).
  assert (asleep t -> wp (wakeup_unchecked tid) (fun _ => INV) (fun _ => INV) k1) as Hwake.
  { intros Has. unfold wakeup_unchecked. apply wp_bind, wp_upd. cbn [arcs k1 set_wqs]. rewrite (alter_insert_eq _ _ _ _ Ht).
    destruct (wake_core queued sched_ok tid t (set_state Runable t) k (set_arcs (<[tid := set_state Runable t]> (arcs k1)) k1)) as (q' & He & HI'); try done.
    - by left.
    - exact (g_actions _ _ _ (proj1 HI) _ _ Ht).
    - by eapply timer_part_same.
    - intros e He Hev. specialize (H4 e He Hev). congruence.
    - intros w' Hw'. exfalso. by apply (Hno w').
    - exact (wp_enqueue queued sched_ok _ _ _ He HI'). }
  assert (~ asleep t -> INV k1) as Hsame.
  { intros Hnas. apply (INV_step queued sched_ok tid t t k); try done.
    - by rewrite insert_id.
    - exact (g_refs _ _ _ (proj1 HI) _ _ Ht).
    - exact (g_actions _ _ _ (proj1 HI) _ _ Ht).
    - by eapply sched_part_same.
    - by eapply cpu_part_same.
    - by eapply timer_part_same.
    - unfold consistent. cbn [arcs k1 set_wqs]. rewrite Ht. split_and!; try done.
      intros w' Hw'. exfalso. by apply (Hno w'). }
  unfold asleep in *. destruct (state t) eqn:Est; try done; try (apply wp_ret; apply Hsame; intros [?|?]; done); apply Hwake; auto.
Qed.

Lemma signal_all_loop_INV fuel w k : INV k -> keeps_INV (signal_all_loop fuel w) k.
Proof.
  revert k. induction fuel as [|fuel IH]; intros k HI; cbn [signal_all_loop]; [by apply keeps_ret|].
  unfold keeps_INV. apply wp_bind. unfold pop_front. apply wp_bind. unfold wp at 1, get. destruct (queue w k) as [|tid q] eqn:Hq.
  - by apply wp_ret.
  - apply wp_bind. unfold wp at 1, modify. apply wp_ret. apply keeps_bind; [by apply pop_wakeup_INV|]. intros _ k'. apply IH.
Qed.

(** *** Calls that sleep *)

(** The running task goes to sleep: [t'] is what becomes of it. *)
Lemma block_INV c tid t f k : INV k -> cpus k !! c = Some (Some tid) -> arcs k !! tid = Some t -> (forall w, tid ∉ queue w k) ->
  state (f t) <> Running -> state (f t) <> Runable -> refs_alive (arcs k) (at_pc (f t)) ->
  length (signal_actions (f t)) = length (signal_actions t) ->
  task_ok (table k) tid (f t) -> sleep_timer_event (f t) = None -> (forall w i, at_pc (f t) <> AfterWq w i) ->
  keeps_INV (upd tid f;; switch_back c tid) k.
Proof.
  intros HI Hcpu Ht Hnw Hnr Hnq Hr Hl Hok Hsl Hp. pose proof (INV_task _ _ _ _ _ HI Ht) as (_ & _ & Hon & H4 & _).
  unfold keeps_INV. apply wp_bind, wp_upd. rewrite (alter_insert_eq _ _ _ _ Ht).
  apply (switch_back_blocked _ _ (f t)); [apply lookup_insert_eq|done|].
  apply (block_core queued sched_ok c tid t (f t) k); try done.
  - rewrite Hl. exact (g_actions _ _ _ (proj1 HI) _ _ Ht).
  - by eapply timer_part_same.
  - intros e He Hev. specialize (H4 e He Hev). assert (state t = Running) as E by (apply Hon; by exists c).
    pose proof (INV_task _ _ _ _ _ HI Ht) as (Hok0 & _). destruct (running_facts _ _ _ Hok0 (or_introl E)). congruence.
  - rewrite Hsl. done.
  - by eapply wq_part_same.
  - intros w. split; [intros Hin; exfalso; by apply (Hnw w)|]. intros [_ [i Hi]]. exfalso. by eapply Hp.
Qed.

Lemma suspend_INV c tid t k : INV k -> cpus k !! c = Some (Some tid) -> arcs k !! tid = Some t -> (forall w, tid ∉ queue w k) ->
  keeps_INV (suspend c tid) k.
Proof.
  intros HI Hcpu Ht Hnw. destruct (INV_on_cpu _ _ _ _ _ HI Hcpu) as (t0 & Ht0 & Hst). simplify_eq.
  pose proof (INV_task _ _ _ _ _ HI Ht) as (Hok & _). destruct (running_facts _ _ _ Hok (or_introl Hst)) as (Hsl & _ & Htab).
  eapply block_INV; try done. split; [done|]. right. auto.
Qed.

Lemma wq_wait_INV c tid t w i k : INV k -> cpus k !! c = Some (Some tid) -> arcs k !! tid = Some t -> at_pc t = InUser ->
  keeps_INV (wq_wait c tid w i) k.
Proof.
  intros HI Hcpu Ht Hp. destruct (INV_on_cpu _ _ _ _ _ HI Hcpu) as (t0 & Ht0 & Hst). simplify_eq.
  pose proof (INV_task _ _ _ _ _ HI Ht) as (Hok & _ & _ & H4 & _). destruct (running_facts _ _ _ Hok (or_introl Hst)) as (Hsl & _ & Htab).
  assert (forall w', tid ∉ queue w' k) as Hnw by (eapply not_in_wq; [done|done|congruence]).
  unfold keeps_INV, wq_wait, push_back. apply wp_bind. unfold wp at 1, modify. apply wp_bind, (wp_task_of _ t); [done|].
  apply wp_bind, wp_assert; [by apply bool_decide_eq_true|]. apply wp_bind, wp_upd. cbn [arcs set_wqs].
  rewrite (alter_insert_eq _ _ _ _ Ht). set (t' := set_pc _ _). set (k1 := set_arcs _ _).
  apply (switch_back_blocked _ _ t'); [apply lookup_insert_eq|by destruct i|].
  apply (block_core queued sched_ok c tid t t' k); try done.
  - by destruct i.
  - by destruct i.
  - exact (g_actions _ _ _ (proj1 HI) _ _ Ht).
  - unfold task_ok. cbn. destruct i; [split; [done|]; right; eauto|eauto].
  - by eapply timer_part_same.
  - cbn. rewrite Hsl. done.
  - split.
    + intros w'. change (NoDup (queue w' (set_wqs (<[w := queue w k ++ [tid]]> (wqs k)) k))). rewrite queue_insert.
      case_decide; [|by eapply (g_wqs _ _ _ (proj1 HI))]. apply NoDup_app. split_and!.
      * by eapply (g_wqs _ _ _ (proj1 HI)).
      * intros x Hx. rewrite list_elem_of_singleton. intros ->. by apply (Hnw w).
      * apply NoDup_singleton.
    + intros x w' Hx. change (x ∈ queue w' (set_wqs (<[w := queue w k ++ [tid]]> (wqs k)) k) <-> x ∈ queue w' k). rewrite queue_insert.
      case_decide; [subst|done]. rewrite elem_of_app, list_elem_of_singleton. clear -Hx. naive_solver.
  - intros w'. change (tid ∈ queue w' (set_wqs (<[w := queue w k ++ [tid]]> (wqs k)) k) <-> asleep t' /\ exists i', at_pc t' = AfterWq w' i').
    rewrite queue_insert. case_decide as E.
    + subst. rewrite elem_of_app, list_elem_of_singleton. split; [|by right]. intros _. split; [|by eexists].
      destruct i; [by right|by left].
    + split; [intros Hin; by apply Hnw in Hin|]. intros [_ [i' Hi']]. cbn in Hi'. congruence.
Qed.

Lemma sleep_INV c tid t dur now k : INV k -> cpus k !! c = Some (Some tid) -> arcs k !! tid = Some t -> at_pc t = InUser ->
  keeps_INV (sleep c tid dur now) k.
Proof.
  intros HI Hcpu Ht Hp. destruct (INV_on_cpu _ _ _ _ _ HI Hcpu) as (t0 & Ht0 & Hst). simplify_eq.
  pose proof (INV_task _ _ _ _ _ HI Ht) as (Hok & _ & _ & H4 & _). destruct (running_facts _ _ _ Hok (or_introl Hst)) as (Hsl & _ & Htab).
  assert (forall w', tid ∉ queue w' k) as Hnw by (eapply not_in_wq; [done|done|congruence]).
  unfold keeps_INV, sleep. apply wp_bind, (wp_task_of _ t); [done|]. destruct (is_interrupted_by_signal t); [done|].
  apply wp_bind. unfold add_event. apply wp_bind. unfold wp at 1, get. cbn zeta. apply wp_bind. unfold wp at 1, modify.
  set (id := mkEventId c (next_event k)). set (e := mkEvent id tid _). apply wp_ret.
  apply wp_bind, wp_upd. cbn [arcs set_timers]. rewrite (alter_insert_eq _ _ _ _ Ht). set (t' := set_pc _ _). apply wp_bind.
  apply (switch_back_blocked _ _ t'); [apply lookup_insert_eq|done|]. apply wp_ret.
  apply (block_core queued sched_ok c tid t t' k); try done.
  - exact (g_actions _ _ _ (proj1 HI) _ _ Ht).
  - split; [done|]. left. done.
  - split_and!; cbn [timers next_event set_cpu set_arcs set_timers].
    + rewrite fmap_app. apply NoDup_app. split_and!; [by eapply g_timers, HI| |apply NoDup_singleton].
      intros x Hx. cbn. rewrite list_elem_of_singleton. intros ->. apply list_elem_of_fmap in Hx as (e' & Hid & He').
      pose proof (g_events _ _ _ (proj1 HI) e' He') as Hlt. rewrite <-Hid in Hlt. cbn in Hlt. lia.
    + intros e'. rewrite elem_of_app, list_elem_of_singleton. intros [He'| ->].
      * pose proof (g_events _ _ _ (proj1 HI) e' He'). lia.
      * cbn. lia.
    + intros e' He'. rewrite elem_of_app, list_elem_of_singleton. split; [|by left]. intros [?| ->]; done.
  - intros e'. cbn [timers set_cpu set_arcs set_timers]. rewrite elem_of_app, list_elem_of_singleton. intros [He'| ->] Hev; [|done].
    specialize (H4 e' He' Hev). congruence.
  - intros id' [= <-]. exists e. cbn [timers set_cpu set_arcs set_timers]. rewrite elem_of_app, list_elem_of_singleton. auto.
  - by eapply wq_part_same.
  - intros w. split; [intros Hin; by apply Hnw in Hin|]. intros [_ [i' Hi']]. done.
Qed.

(** *** Going on *)

(** The running task [tid], in no wait queue, with what is known of it. *)
Definition runs k tid t : Prop := arcs k !! tid = Some t /\ state t = Running /\ sleep_timer_event t = None /\ forall w, tid ∉ queue w k.

Lemma runs_intro c tid t k : INV k -> cpus k !! c = Some (Some tid) -> arcs k !! tid = Some t -> (forall w i, at_pc t <> AfterWq w i) -> runs k tid t.
Proof.
  intros HI Hcpu Ht Hp. destruct (INV_on_cpu _ _ _ _ _ HI Hcpu) as (t0 & Ht0 & Hst). simplify_eq.
  pose proof (INV_task _ _ _ _ _ HI Ht) as (Hok & _). destruct (running_facts _ _ _ Hok (or_introl Hst)) as (Hsl & _ & Htab).
  split_and!; try done. by eapply not_in_wq.
Qed.

Lemma goto_INV tid t p k : INV k -> runs k tid t -> p <> Dead -> refs_alive (arcs k) p -> keeps_INV (goto tid p) k.
Proof. intros HI (Ht & Hst & Hsl & Hw) Hd Hr. apply wp_upd. by eapply running_upd. Qed.

Lemma goto_then {A} tid t p (m : KM A) k : INV k -> runs k tid t -> p <> Dead -> refs_alive (arcs k) p ->
  (forall k', INV k' -> keeps_INV m k') -> keeps_INV (goto tid p;; m) k.
Proof. intros HI Hr Hd Hp Hm. apply keeps_bind; [by eapply goto_INV|]. intros _. apply Hm. Qed.

(** A change of the running task that keeps its state, its timer and its pc. *)
Lemma run_upd tid t f k : INV k -> runs k tid t -> at_pc t <> Dead ->
  state (f t) = state t -> sleep_timer_event (f t) = sleep_timer_event t -> at_pc (f t) = at_pc t ->
  length (signal_actions (f t)) = length (signal_actions t) ->
  INV (set_arcs (alter f tid (arcs k)) k) /\ runs (set_arcs (alter f tid (arcs k)) k) tid (f t).
Proof.
  intros HI (Ht & Hst & Hsl & Hw) Hd E1 E2 E3 E4. split.
  - eapply running_upd; try done; [congruence|congruence|congruence|]. rewrite E3. exact (g_refs _ _ _ (proj1 HI) _ _ Ht).
  - split_and!; [by cbn; rewrite (alter_insert_eq _ _ _ _ Ht), lookup_insert_eq|congruence|congruence|done].
Qed.

Lemma after_sleep_INV tid t k : INV k -> runs k tid t -> keeps_INV (after_sleep tid) k.
Proof.
  intros HI Hr. pose proof Hr as (Ht & _ & Hsl & _). unfold keeps_INV, after_sleep. apply wp_bind, (wp_task_of _ t); [done|].
  apply wp_bind, wp_assert; [by apply bool_decide_eq_true|]. eapply goto_then; try done. intros k' HI'. by destruct (is_interrupted_by_signal t).
Qed.

Lemma after_wait_INV tid t q k : INV k -> runs k tid t -> keeps_INV (after_wait tid q) k.
Proof.
  intros HI Hr. pose proof Hr as (Ht & _). unfold keeps_INV, after_wait. apply wp_bind, (wp_task_of _ t); [done|].
  destruct (is_interrupted_by_signal t); by eapply goto_then.
Qed.

Lemma after_wq_INV c tid t w i k : INV k -> cpus k !! c = Some (Some tid) -> arcs k !! tid = Some t -> at_pc t = AfterWq w i ->
  keeps_INV (after_wq tid w i) k.
Proof.
  intros HI Hcpu Ht Hp. destruct (INV_on_cpu _ _ _ _ _ HI Hcpu) as (t0 & Ht0 & Hst). simplify_eq.
  pose proof (INV_task _ _ _ _ _ HI Ht) as (Hok & Hqd & Hon & H4 & H5 & H6 & H7). destruct (running_facts _ _ _ Hok (or_introl Hst)) as (Hsl & Hd & Htab).
  unfold keeps_INV, after_wq. apply wp_bind, (wp_task_of _ t); [done|]. destruct (i && _) eqn:Ei.
  - apply wp_bind. unfold wp at 1, modify. set (q := filter _ _). set (k1 := set_wqs _ k).
    assert (forall w', tid ∉ queue w' k1) as Hno.
    { intros w'. subst k1. rewrite queue_insert. case_decide as E.
      - subst q. rewrite list_elem_of_filter. naive_solver.
      - intros Hin. destruct (H6 w' Hin) as [[i' Hi'] _]. congruence. }
    assert (INV k1) as HI1.
    { apply (INV_step queued sched_ok tid t t k); try done.
      - by rewrite insert_id.
      - exact (g_refs _ _ _ (proj1 HI) _ _ Ht).
      - exact (g_actions _ _ _ (proj1 HI) _ _ Ht).
      - by eapply sched_part_same.
      - by eapply cpu_part_same.
      - by eapply timer_part_same.
      - split.
        + intros w'. subst k1. rewrite queue_insert. case_decide; [apply NoDup_filter|]; by eapply (g_wqs _ _ _ (proj1 HI)).
        + intros x w' Hx. subst k1. rewrite queue_insert. case_decide as E; [|done]. subst. subst q. rewrite list_elem_of_filter. naive_solver.
      - unfold consistent. cbn [arcs k1 set_wqs]. rewrite Ht. split_and!; try done.
        + intros w' Hin. by apply Hno in Hin.
        + intros w' i' _ [E|E]; congruence. }
    eapply goto_then; try done.
  - assert (runs k tid t) as Hr.
    { split_and!; try done. intros w' Hin. destruct (H6 w' Hin) as [[i' Hi'] [[E|E]|[Hpt Hint]]]; try congruence.
      rewrite Hp in Hi', Hpt. simplify_eq. rewrite Hint in Ei. done. }
    by eapply goto_then.
Qed.

(** *** Signals *)

Lemma handle_pending_signal_INV tid t signal k : INV k -> runs k tid t -> at_pc t <> Dead -> 0 <= signal <= MAX_SIG ->
  wp (handle_pending_signal tid signal) (fun _ k' => INV k' /\ cpus k' = cpus k /\ exists t', runs k' tid t' /\ at_pc t' = at_pc t) (fun _ => INV) k.
Proof.
  intros HI Hr Hd Hsig. pose proof Hr as (Ht & _). unfold handle_pending_signal. apply wp_bind, (wp_task_of _ t); [done|].
  destruct (negb _); [by apply wp_ret; eauto|]. destruct (_ || _); [by apply wp_ret; eauto|].
  assert (is_Some (signal_actions t !! Z.to_nat signal)) as [a Ha].
  { apply lookup_lt_is_Some. rewrite (g_actions _ _ _ (proj1 HI) _ _ Ht). unfold MAX_SIG in *. lia. }
  rewrite Ha. apply wp_bind, wp_ret.
  assert (forall f k1 t1, INV k1 -> cpus k1 = cpus k -> runs k1 tid t1 -> at_pc t1 = at_pc t ->
    state (f t1) = state t1 -> sleep_timer_event (f t1) = sleep_timer_event t1 -> at_pc (f t1) = at_pc t1 -> signal_actions (f t1) = signal_actions t1 ->
    wp (upd tid f) (fun _ k' => INV k' /\ cpus k' = cpus k /\ exists t', runs k' tid t' /\ at_pc t' = at_pc t) (fun _ => INV) k1) as Hupd.
  { intros f k1 t1 HI1 Hc1 Hr1 Hp1 E1 E2 E3 E4. apply wp_upd. destruct (run_upd tid t1 f k1 HI1 Hr1) as [HI2 Hr2]; try congruence.
    split; [done|]. split; [done|]. exists (f t1). split; [done|congruence]. }
  assert (forall f g, (forall t1, state (f t1) = state t1 /\ sleep_timer_event (f t1) = sleep_timer_event t1 /\ at_pc (f t1) = at_pc t1 /\ signal_actions (f t1) = signal_actions t1) ->
    (forall t1, state (g t1) = state t1 /\ sleep_timer_event (g t1) = sleep_timer_event t1 /\ at_pc (g t1) = at_pc t1 /\ signal_actions (g t1) = signal_actions t1) ->
    wp (upd tid f;; upd tid g) (fun _ k' => INV k' /\ cpus k' = cpus k /\ exists t', runs k' tid t' /\ at_pc t' = at_pc t) (fun _ => INV) k) as Htwo.
  { intros f g Hf Hg. destruct (Hf t) as (F1 & F2 & F3 & F4). apply wp_bind. eapply wp_mono; [by apply (Hupd f k t)| |done].
    intros _ k1 (HI1 & Hc1 & t1 & Hr1 & Hp1). destruct (Hg t1) as (G1 & G2 & G3 & G4). by apply (Hupd g k1 t1). }
  destruct a, (trapframe_backup t); cbn [handle_action]; try (apply Htwo; intros t1; done); try (by apply (Hupd _ k t)); try (by apply wp_ret; eauto).
  destruct (contains _ _); [by apply wp_ret; eauto|]. apply Htwo; intros t1; done.
Qed.

Lemma handle_signals_INV c tid t signal k : INV k -> cpus k !! c = Some (Some tid) -> runs k tid t -> at_pc t <> Dead -> 0 <= signal ->
  keeps_INV (handle_signals c tid signal) k.
Proof.
  intros HI Hcpu Hr Hd Hsig. unfold keeps_INV, handle_signals. destruct (signal <=? MAX_SIG) eqn:E.
  - apply wp_bind. eapply wp_mono; [apply (handle_pending_signal_INV tid t); try done; lia| |done].
    intros _ k1 (HI1 & Hc1 & t1 & Hr1 & Hp1). eapply goto_INV; try done. cbn. lia.
  - pose proof Hr as (Ht & _ & _ & Hw). apply wp_bind, (wp_task_of _ t); [done|].
    destruct (is_killed t); [by eapply goto_INV|]. destruct (is_frozen t); [by eapply suspend_INV|by eapply goto_INV].
Qed.
End calls.
