(* ===== verification/TaskExit.v ===== *)
(** * Waiting for children, and the beginning and end of tasks *)

From S2P Require Import Prelude Vfs Sched Task TaskOps TaskCalls.
Import Vfs.

#[local] Open Scope Z_scope.
#[local] Open Scope rw_scope.

Lemma scan_children_zombie tasks q cs kept found have : scan_children tasks q cs = (kept, Some found, have) ->
  exists t, tasks !! found = Some t /\ state t = Zombie.
Proof.
  revert kept have. induction cs as [|c cs IH]; intros kept have; cbn; [done|].
  destruct (tasks !! c) as [t|] eqn:Ht; [|apply IH].
  destruct (match q with Some _ => _ | None => _ end).
  - destruct (scan_children tasks q cs) as [[kept' found'] have']. intros [= <- -> <-]. by eapply IH.
  - case_bool_decide as Hz; [intros [= <- <- <-]; eauto|]. destruct q; [done|].
    destruct (scan_children tasks None cs) as [[kept' found'] have']. intros [= <- -> <-]. by eapply IH.
Qed.

Section exits.
Context {Q : Type} `{Scheduler Q} (queued : Q -> list Z) (sched_ok : Q -> Prop) `{!SchedulerLaws Q queued sched_ok}.
Implicit Types (k : kernel Q) (t : Task) (tid : Z).

#[local] Notation INV := (INV queued sched_ok).
#[local] Notation KM := (M (kernel Q) Sys.SysErrorKind).
#[local] Notation keeps_INV := (keeps_INV queued sched_ok).

(** ** Waiting *)

(** An update that keeps what the invariant looks at, of any task. *)
Lemma upd_keeps_runs x f tid t k : runs k tid t -> (forall t, keeps f t) -> 
  exists t', runs (set_arcs (alter f x (arcs k)) k) tid t' /\ at_pc t' = at_pc t.
Proof.
  intros (Ht & Hst & Hsl & Hw) Hf. destruct (decide (x = tid)) as [-> |Hne].
  - destruct (Hf t) as (F1 & F2 & F3 & _). exists (f t). split; [|done].
    split_and!; [by cbn; rewrite (alter_insert_eq _ _ _ _ Ht), lookup_insert_eq|congruence|congruence|done].
  - exists t. split; [|done]. split_and!; try done. cbn. by rewrite lookup_alter_ne.
Qed.

Lemma keeps_children l t : keeps (set_children l) t.
Proof. done. Qed.
Lemma keeps_add_child c t : keeps (fun p => set_children (children p ++ [c]) p) t.
Proof. done. Qed.
Lemma keeps_parent p t : keeps (set_parent p) t.
Proof. done. Qed.

Lemma remove_zombie_child_INV tid t q k : INV k -> runs k tid t ->
  wp (remove_zombie_child tid q) (fun r k' => INV k' /\ cpus k' = cpus k /\ (exists t', runs k' tid t' /\ at_pc t' = at_pc t) /\
    (forall child, r.1 = Some child -> exists tc, arcs k' !! child = Some tc /\ state tc = Zombie)) (fun _ => INV) k.
Proof.
  intros HI Hr. pose proof Hr as (Ht & _). unfold remove_zombie_child. apply wp_bind, (wp_task_of _ t); [done|].
  apply wp_bind. unfold wp at 1, get. destruct (scan_children (arcs k) q (children t)) as [[kept found] have] eqn:Es.
  apply wp_bind, wp_upd.
  assert (INV (set_arcs (alter (set_children kept) tid (arcs k)) k)) as HI1 by (apply upd_keeps; [done|]; intros; apply keeps_children).
  destruct (upd_keeps_runs tid (set_children kept) tid t k Hr (keeps_children kept)) as (t1 & Hr1 & Hp1).
  destruct found as [child|].
  - destruct (scan_children_zombie _ _ _ _ _ _ Es) as (tc & Hc & Hz). apply wp_bind, wp_upd, wp_ret.
    set (k1 := set_arcs _ k) in *.
    destruct (upd_keeps_runs child (set_parent None) tid t1 k1 Hr1 (keeps_parent None)) as (t2 & Hr2 & Hp2).
    split_and!; [apply upd_keeps; [done|]; intros; apply keeps_parent|done|exists t2; split; [done|congruence]|].
    intros ch [= <-]. cbn. rewrite lookup_alter_eq. destruct (decide (tid = child)) as [<-|Hne].
    + rewrite lookup_alter_eq, Ht. cbn. eexists. split; [reflexivity|]. cbn. destruct Hr as (_ & Hst & _). congruence.
    + rewrite lookup_alter_ne by done. rewrite Hc. cbn. eauto.
  - apply wp_bind, wp_ret, wp_ret. split_and!; [done|done|eauto|done].
Qed.

Lemma wait_INV c tid t q k : INV k -> cpus k !! c = Some (Some tid) -> runs k tid t -> keeps_INV (wait c tid q) k.
Proof.
  intros HI Hcpu Hr. pose proof Hr as (Ht & _). unfold keeps_INV, wait. apply wp_bind, (wp_task_of _ t); [done|].
  destruct (is_interrupted_by_signal t); [by eapply goto_then|].
  apply wp_bind. eapply wp_mono; [by apply (remove_zombie_child_INV tid t)| |done].
  intros [found have] k1 (HI1 & Hc1 & (t1 & Hr1 & Hp1) & Hz). rewrite <-Hc1 in Hcpu. destruct found as [child|].
  - eapply goto_then; try done. cbn. by apply Hz.
  - destruct have; [|by eapply goto_then].
    pose proof Hr1 as (Ht1 & Hst1 & Hsl1 & Hw1).
    pose proof (INV_task _ _ _ _ _ HI1 Ht1) as (Hok & _). destruct (running_facts _ _ _ Hok (or_introl Hst1)) as (_ & _ & Htab).
    change (keeps_INV (bind (upd tid (fun t => set_pc (AfterWait q) (set_state Waitting t))) (fun _ => bind (switch_back c tid) (fun _ => ret VUnit))) k1).
    assert (keeps_INV (upd tid (fun t => set_pc (AfterWait q) (set_state Waitting t));; switch_back c tid) k1) as Hb.
    { eapply block_INV; try done. split_and!; eauto. }
    unfold TaskCalls.keeps_INV, wp, bind in *. cbn in *. by destruct (switch_back c tid _) as [[] ?].
Qed.

Lemma reap_INV tid t child k : INV k -> runs k tid t -> at_pc t = Reaping child -> keeps_INV (reap tid child) k.
Proof.
  intros HI Hr Hp. pose proof Hr as (Ht & Hst & Hsl & Hw). pose proof HI as [Hg Hc].
  pose proof (g_refs _ _ _ Hg _ _ Ht) as Href. rewrite Hp in Href. destruct Href as (tc & Htc & Hz).
  unfold TaskCalls.keeps_INV, reap. apply wp_bind. unfold wp at 1, modify. set (k1 := set_table _ k).
  assert (INV k1) as HI1.
  { apply (INV_local queued sched_ok child k); [done| | |].
    - intros x Hx. unfold same_view. cbn. set_solver.
    - specialize (Hc child). unfold consistent in *. cbn. rewrite Htc in *. destruct Hc as (Hok & Hrest). split; [|done].
      unfold task_ok in *. rewrite Hz in *. done.
    - destruct Hg. split; try done. cbn. etrans; [|exact g_table]. apply inj_le, subseteq_size. set_solver. }
  apply wp_bind, (wp_task_of _ tc); [done|]. eapply (goto_then queued sched_ok tid t); try done.
Qed.

(** ** Sessions do not concern the invariant *)

Lemma set_sessions_INV v k : INV k -> INV (set_sessions v k).
Proof.
  intros [Hg Hc]. split; [destruct Hg; by split|]. intros x. eapply same_view_consistent; [|apply Hc]. done.
Qed.

Lemma modify_sessions_INV (f : gmap Z Session -> kernel Q -> gmap Z Session) k : INV k -> keeps_INV (modify (fun k => set_sessions (f (sessions k) k) k)) k.
Proof. intros HI. apply set_sessions_INV. done. Qed.

Lemma keeps_ids g s' t : keeps (set_ids g s') t.
Proof. done. Qed.

Lemma upd_ids_INV tid g s' k : INV k -> keeps_INV (upd tid (set_ids g s')) k.
Proof. intros HI. apply wp_upd, upd_keeps; [done|]. intros. apply keeps_ids. Qed.

Lemma create_session_INV tid k : INV k -> is_Some (arcs k !! tid) -> keeps_INV (create_session tid) k.
Proof.
  intros HI [t Ht]. unfold TaskCalls.keeps_INV, create_session. apply wp_bind, (wp_task_of _ t); [done|].
  apply wp_bind. unfold wp at 1, get. apply keeps_bind.
  - destruct (get_group t k) as [g|]; [|by apply keeps_ret]. destruct (_ =? _); [done|]. by apply set_sessions_INV.
  - intros _ k1 HI1. apply wp_bind. unfold wp at 1, get. destruct (sessions k1 !! tid); [done|].
    apply wp_bind. unfold wp at 1, modify. apply upd_ids_INV. by apply set_sessions_INV.
Qed.

Lemma move_task_INV tid g k : INV k -> is_Some (arcs k !! tid) -> keeps_INV (move_task_or_create_grp tid g) k.
Proof.
  intros HI [t Ht]. unfold TaskCalls.keeps_INV, move_task_or_create_grp. apply wp_bind, (wp_task_of _ t); [done|].
  apply wp_bind. unfold wp at 1, get. destruct (get_group t k) as [og|]; [|done].
  destruct (_ && _); [done|]. case_bool_decide; [done|]. apply wp_bind. unfold wp at 1, on_group, modify.
  apply keeps_bind; [apply upd_ids_INV; by apply set_sessions_INV|]. intros _ k1 HI1.
  destruct (sessions k !! sid t ≫= _); by apply set_sessions_INV.
Qed.

Lemma get_task_by_tid_wp tid (Q' : Z -> kernel Q -> Prop) k : INV k -> (forall t, arcs k !! tid = Some t -> Q' tid k) ->
  wp (get_task_by_tid tid) Q' (fun _ => INV) k.
Proof.
  intros HI HQ. unfold get_task_by_tid. apply wp_bind. unfold wp at 1, get. case_bool_decide as Hin; [|done]. apply wp_ret.
  destruct (INV_in_table _ _ _ _ HI Hin) as [t Ht]. by eapply HQ.
Qed.

(** The task that a call names: the caller, or one in the table. *)
Lemma target_wp (b : bool) caller tid (Q' : Z -> kernel Q -> Prop) k : INV k -> is_Some (arcs k !! caller) ->
  (forall x t, arcs k !! x = Some t -> Q' x k) -> wp (if b then ret caller else get_task_by_tid tid) Q' (fun _ => INV) k.
Proof.
  intros HI [tc Hc] HQ. destruct b; [apply wp_ret; by eapply HQ|]. apply get_task_by_tid_wp; [done|]. intros t Ht. by eapply HQ.
Qed.

Lemma set_tgid_INV caller target g k : INV k -> is_Some (arcs k !! caller) -> keeps_INV (set_tgid caller target g) k.
Proof.
  intros HI Hcal. pose proof Hcal as [tc Hc]. unfold TaskCalls.keeps_INV, set_tgid. apply wp_bind, target_wp; [done|done|].
  intros x t Hx. apply wp_bind, (wp_task_of _ tc); [done|]. apply wp_bind, (wp_task_of _ t); [done|].
  destruct (_ =? _); [done|]. destruct (negb _); [done|]. apply wp_bind.
  assert (forall g', wp (do k' <- get; match sessions k' !! sid t with None => fail Sys.NotPermitted | Some _ => move_task_or_create_grp x g' end)
    (fun _ => INV) (fun _ => INV) k) as Hmove.
  { intros g'. apply wp_bind. unfold wp at 1, get. destruct (sessions k !! sid t); [|done]. apply move_task_INV; [done|by eexists]. }
  destruct (g =? 0); [apply wp_ret; apply Hmove|]. apply wp_bind, get_task_by_tid_wp; [done|]. intros tl Hl.
  destruct (negb _); [|apply wp_ret; apply Hmove]. apply wp_bind, (wp_task_of _ tl); [done|].
  destruct (negb _); [done|apply wp_ret; apply Hmove].
Qed.

Lemma kill_group_INV tid sig k : INV k -> is_Some (arcs k !! tid) -> keeps_INV (kill_group tid sig) k.
Proof.
  intros HI [t Ht]. unfold TaskCalls.keeps_INV, kill_group. apply wp_bind, (wp_task_of _ t); [done|].
  apply wp_bind. unfold wp at 1, get. apply wp_bind. unfold ok_or. destruct (get_group t k); [|done]. apply wp_ret.
  destruct sig; [|done]. by apply signal_each_INV.
Qed.

Lemma kill_INV caller tid sig k : INV k -> is_Some (arcs k !! caller) -> keeps_INV (kill caller tid sig) k.
Proof.
  intros HI Hcal. unfold TaskCalls.keeps_INV, kill. destruct (tid =? 0); [by apply kill_group_INV|]. destruct (tid =? -1); [done|].
  destruct Hcal as [tc Hc]. apply wp_bind, get_task_by_tid_wp; [done|].
  generalize (if tid <? -1 then - tid else tid). intros x t Ht.
  apply wp_bind, (wp_task_of _ tc); [done|]. apply wp_bind, (wp_task_of _ t); [done|]. destruct (negb _); [done|].
  destruct (tid <? -1); [apply kill_group_INV; [done|by eexists]|]. destruct sig; [|done]. apply (send_signal_INV queued sched_ok); [done|by eexists].
Qed.

(** ** Creating tasks *)

Lemma set_next_tid_INV n k : INV k -> next_tid k <= n -> INV (set_next_tid n k).
Proof.
  intros [Hg Hc] Hn. split; [|intros x; eapply same_view_consistent; [|apply Hc]; done].
  destruct Hg. split; try done. intros tid Ht. cbn. specialize (g_fresh tid Ht). lia.
Qed.

Lemma queued_length k : INV k -> (length (queued (sched k)) <= size (table k))%nat.
Proof.
  intros [Hg Hc]. assert (queued (sched k) ⊆+ elements (table k)) as Hsub.
  { apply NoDup_submseteq; [by eapply g_queued|]. intros x Hx. apply elem_of_elements. specialize (Hc x). unfold consistent in Hc.
    destruct (arcs k !! x) as [t|]; [|naive_solver]. destruct Hc as (Hok & Hq & _).
    by destruct (running_facts _ _ _ Hok (or_intror (proj1 Hq Hx))) as (_ & _ & ?). }
  by apply submseteq_length in Hsub.
Qed.

(** A new task joins the run queue. *)
Lemma add_task_INV tid t' q' k : INV k -> arcs k !! tid = None -> tid < next_tid k -> Z.of_nat (size (table k)) < MAX_TASKS ->
  state t' = Runable -> sleep_timer_event t' = None -> at_pc t' = InUser -> length (signal_actions t') = 32%nat ->
  sched_ok q' -> queued q' ≡ₚ tid :: queued (sched k) ->
  INV (set_sched q' (set_arcs (<[tid := t']> (arcs k)) (set_table ({[ tid ]} ∪ table k) k))).
Proof.
  intros [Hg Hc] Hn Hlt Hroom Hst Hsl Hp Hl Hok Hqd. pose proof (Hc tid) as Hct. unfold consistent in Hct. rewrite Hn in Hct.
  destruct Hct as (Hnq & Hncpu & Hntab & Hnt & Hnw).
  apply (INV_local queued sched_ok tid k); [by split| | |].
  - intros x Hx. unfold same_view. cbn. rewrite lookup_insert_ne, Hqd, elem_of_cons by done. split_and!; try done; [|set_solver].
    clear -Hx. naive_solver.
  - unfold consistent. cbn. rewrite lookup_insert_eq. split_and!.
    + unfold task_ok. rewrite Hst, Hp. split_and!; [done|done|set_solver].
    + rewrite Hst, Hqd, elem_of_cons. split; [done|by left].
    + rewrite Hst. split; [|done]. intros Hon. exfalso. by apply Hncpu.
    + intros e He Hev. exfalso. by eapply Hnt.
    + rewrite Hsl. done.
    + intros w Hin. exfalso. by apply (Hnw w).
    + intros w i Hi. congruence.
  - destruct Hg. split; try done; cbn.
    + rewrite Hqd. by constructor.
    + rewrite size_union, size_singleton by set_solver. lia.
    + destruct g_init as (i & Hi & Hs). exists i. split; [done|]. destruct (decide (i = tid)) as [-> |]; [by rewrite lookup_insert_eq|by rewrite lookup_insert_ne].
    + intros x. destruct (decide (x = tid)) as [-> |]; [done|]. rewrite lookup_insert_ne by done. apply g_fresh.
    + intros x tx. destruct (decide (x = tid)) as [-> |].
      * rewrite lookup_insert_eq. intros [= <-]. by rewrite Hp.
      * rewrite lookup_insert_ne by done. intros Hx. specialize (g_refs x tx Hx). destruct (at_pc tx); cbn in *; auto;
          [destruct g_refs as (tc & H1 & H2); exists tc; split; [|done]|destruct g_refs as [tc H1]; exists tc|destruct g_refs as [tc H1]; exists tc];
          rewrite lookup_insert_ne; try done; intros ->; congruence.
    + intros x tx. destruct (decide (x = tid)) as [-> |]; [rewrite lookup_insert_eq; by intros [= <-]|].
      rewrite lookup_insert_ne by done. apply g_actions.
Qed.

(** Dropping the task that could not be started. *)
Lemma drop_new_INV tid t k : INV k -> arcs k !! tid = None ->
  wp (drop_task tid) (fun _ => INV) (fun _ => INV) (set_arcs (<[tid := t]> (arcs k)) k).
Proof.
  intros HI Hn. assert (forall v, INV (set_arcs (delete tid (arcs (set_sessions v (set_arcs (<[tid := t]> (arcs k)) k)))) (set_sessions v (set_arcs (<[tid := t]> (arcs k)) k)))) as Hv.
  { intros v. cbn. rewrite delete_insert_id by done. change (INV (set_arcs (arcs k) (set_sessions v k))).
    replace (set_arcs (arcs k) (set_sessions v k)) with (set_sessions v k) by done. by apply set_sessions_INV. }
  unfold drop_task, remove_task. apply wp_bind, wp_bind, (wp_task_of _ t); [apply lookup_insert_eq|]. apply wp_bind. unfold wp at 1, get.
  destruct (sessions _ !! sid t) as [s0|].
  - unfold wp at 1, modify. apply Hv.
  - apply wp_ret. apply (Hv (sessions k)).
Qed.

(** Waking the new task, the last step of starting it. *)
Lemma wake_new_INV tid tp k : INV k -> arcs k !! tid = None -> tid < next_tid k -> Z.of_nat (size (table k)) < MAX_TASKS ->
  state tp = Initialized -> sleep_timer_event tp = None -> at_pc tp = InUser -> length (signal_actions tp) = 32%nat ->
  wp (wakeup tid) (fun _ => INV) (fun _ _ => False) (set_arcs (<[tid := tp]> (arcs k)) (set_table ({[ tid ]} ∪ table k) k)).
Proof.
  intros HI Hn Hlt Hroom Hst Hsl Hp Hl. unfold wakeup. apply wp_bind, (wp_task_of _ tp); [apply lookup_insert_eq|]. rewrite Hst.
  unfold wakeup_unchecked. apply wp_bind, wp_upd. cbn [arcs set_arcs].
  rewrite (alter_insert_eq _ _ _ tp) by apply lookup_insert_eq. rewrite insert_insert_eq.
  pose proof (queued_length k HI) as Hql. pose proof (proj2 HI tid) as Hct. unfold consistent in Hct. rewrite Hn in Hct.
  destruct Hct as (Hnq & _).
  destruct (enqueue_law (sched k) tid) as (q' & He & Hok & Hqd); [by eapply g_sched, HI|done|lia|].
  unfold wp at 1, on_sched. cbn [sched set_arcs set_table]. rewrite He.
  by apply (add_task_INV tid (set_state Runable tp) q' k).
Qed.

(** A task that has just been made, beside the state [k] without it. *)
Record new_task tid t k : Prop := {
  nt_none : arcs k !! tid = None;
  nt_lt : tid < next_tid k;
  nt_state : state t = Initialized;
  nt_sleep : sleep_timer_event t = None;
  nt_pc : at_pc t = InUser;
  nt_actions : length (signal_actions t) = 32%nat
}.

Lemma create_wp (Q' : Z -> kernel Q -> Prop) (R : Sys.SysErrorKind -> kernel Q -> Prop) mem k : INV k ->
  (forall e, mem = Some e -> R e k) ->
  (mem = None -> forall k', INV k' -> arcs k' = arcs k -> table k' = table k -> new_task (next_tid k) (Task_new (next_tid k)) k' ->
    Q' (next_tid k) (set_arcs (<[next_tid k := Task_new (next_tid k)]> (arcs k')) k')) ->
  wp (create mem) Q' R k.
Proof.
  intros HI HR HQ. unfold create, memory. destruct mem as [e|]; [apply wp_bind, wp_fail; by apply HR|].
  apply wp_bind, wp_ret, wp_bind. unfold wp at 1, get. cbn zeta. apply wp_bind. unfold wp at 1, modify. apply wp_bind. unfold wp at 1, modify.
  apply wp_ret. apply (HQ eq_refl (set_next_tid (next_tid k + 1) k)); try done; [apply set_next_tid_INV; [done|lia]|].
  split; try done; [|cbn; lia]. cbn. destruct (arcs k !! next_tid k) eqn:E; [|done].
  pose proof (g_fresh _ _ _ (proj1 HI) (next_tid k)) as Hf. rewrite E in Hf. specialize (Hf ltac:(done)). lia.
Qed.

(** Starting it fails only when the table is full, and changes nothing then. *)
Lemma start_wp tid t0 parent_task k : INV k -> new_task tid t0 k -> (forall p, parent_task = Some p -> is_Some (arcs k !! p)) ->
  wp (start_with_parent tid parent_task) (fun _ => INV)
    (fun _ k' => k' = set_arcs (<[tid := t0]> (arcs k)) k /\ table_has_room k = false) (set_arcs (<[tid := t0]> (arcs k)) k) /\
  (table_has_room k = false ->
   wp (start_with_parent tid parent_task) (fun _ _ => False) (fun _ _ => True) (set_arcs (<[tid := t0]> (arcs k)) k)).
Proof.
  intros HI [Hnone Hlt Hst Hsl Hpc Hact] Hpar. assert (tid ∉ table k) as Hntab.
  { pose proof (proj2 HI tid) as Hct. unfold consistent in Hct. rewrite Hnone in Hct. by destruct Hct as (_ & _ & ? & _). }
  unfold start_with_parent, table_has_room. split; [|intros Hfull]; (apply wp_bind, (wp_task_of _ t0); [apply lookup_insert_eq|]);
    (apply wp_bind, wp_assert; [by rewrite Hst|]); apply wp_bind; unfold wp at 1, get; apply wp_bind; cbn [table set_arcs];
    rewrite bool_decide_true by done; cbn [andb].
  2: { apply Z.ltb_ge in Hfull. rewrite (proj2 (Z.leb_le _ _)) by done. done. }
  destruct (Z.leb_spec MAX_TASKS (Z.of_nat (size (table k)))) as [Hfull|Hroom].
  { apply wp_fail. split; [done|]. by apply Z.ltb_ge. }
  unfold wp at 1, modify. apply wp_bind. destruct parent_task as [p|].
  - destruct (Hpar p eq_refl) as [tpar Hp]. assert (p <> tid) as Hne by congruence.
    apply wp_bind, (wp_task_of _ tpar); [cbn; by rewrite lookup_insert_ne|].
    apply wp_bind, wp_upd. cbn [arcs set_arcs set_table]. rewrite (alter_insert_eq _ _ _ t0) by apply lookup_insert_eq. rewrite insert_insert_eq.
    apply wp_bind, wp_upd. cbn [arcs set_arcs]. rewrite (alter_insert_eq _ _ _ tpar) by (by rewrite lookup_insert_ne).
    rewrite insert_insert_ne by done. unfold try_add_task. apply wp_bind.
    set (tn := set_ids _ _ _). apply (wp_task_of _ tn); [apply lookup_insert_eq|]. unfold on_group. unfold wp at 1, modify.
    set (fp := fun tp => set_children (children tp ++ [tid]) tp).
    set (kp := set_sessions (alter (set_groups (alter (group_add tid) (tgid tn))) (sid tn) (sessions k)) (set_arcs (<[p := fp tpar]> (arcs k)) k)).
    eapply wp_mono; [apply (wake_new_INV tid tn kp); try done|done|done].
    + apply set_sessions_INV. rewrite <-(alter_insert_eq fp) by done. apply (upd_keeps queued sched_ok p fp k); [done|]. intros. apply keeps_add_child.
    + cbn. by rewrite lookup_insert_ne.
  - apply wp_ret. eapply wp_mono; [by apply (wake_new_INV tid t0 k)|done|done].
Qed.

(** [spawn] panics exactly when there is no memory or no room in the table. *)
Lemma spawn_INV mem parent_task k : INV k -> (forall p, parent_task = Some p -> is_Some (arcs k !! p)) -> mem = None -> table_has_room k = true ->
  keeps_INV (spawn mem parent_task) k.
Proof.
  intros HI Hpar -> Hroom. unfold TaskCalls.keeps_INV, spawn, unwrap_ok. apply wp_bind, wp_catch, create_wp; [done|done|].
  intros _ k' HI' Ea Et Hnew. apply wp_bind, wp_catch. rewrite <-Ea in Hpar. unfold table_has_room in *. rewrite <-Et in Hroom.
  eapply wp_mono; [apply (proj1 (start_wp _ _ _ _ HI' Hnew Hpar))|by intros u k2|]. intros e k2 [_ Hf]. unfold table_has_room in Hf. congruence.
Qed.

Lemma spawn_panics mem parent_task k : INV k -> (forall p, parent_task = Some p -> is_Some (arcs k !! p)) -> mem <> None \/ table_has_room k = false ->
  exists k', spawn mem parent_task k = (Panic, k').
Proof.
  intros HI Hpar Hno. unfold spawn, unwrap_ok. destruct mem as [e|]; [by eexists|]. destruct Hno as [?|Hfull]; [done|].
  assert (wp (create None) (fun tid k' => wp (start_with_parent tid parent_task) (fun _ _ => False) (fun _ _ => True) k') (fun _ _ => False) k) as Hc.
  { apply create_wp; [done|done|]. intros _ k' HI' Ea Et Hnew. rewrite <-Ea in Hpar. apply (proj2 (start_wp _ _ _ _ HI' Hnew Hpar)).
    unfold table_has_room in *. by rewrite Et. }
  unfold bind, catch, wp in *. destruct (create None k) as [[tid|e|] k1]; [|done|done].
  destruct (start_with_parent tid parent_task k1) as [[u|e|] k2]; [done|by eexists|by eexists].
Qed.

Lemma fork_INV mem copied tid k : INV k -> is_Some (arcs k !! tid) -> keeps_INV (fork mem copied tid) k.
Proof.
  intros HI [t Ht]. unfold TaskCalls.keeps_INV, fork. apply wp_bind, create_wp; [done|done|]. intros _ k' HI' Ea _ Hnew.
  assert (Hdrop : forall t' e, wp (drop_task (next_tid k);; fail e : KM unit) (fun _ => INV) (fun _ => INV) (set_arcs (<[next_tid k := t']> (arcs k')) k')).
  { intros t' e. apply wp_bind. eapply wp_mono; [apply (drop_new_INV _ t' k'); [done|apply Hnew]| |done]. by intros u k2. }
  apply wp_bind. eapply wp_mono with (Q := fun _ => INV) (R := fun _ => INV); [|by intros u k2|done]. apply wp_catch, wp_bind. unfold memory.
  destruct copied as [e|]; [apply wp_fail; by apply Hdrop|]. apply wp_ret.
  assert (tid <> next_tid k) as Hne by (intros ->; pose proof (nt_none _ _ _ Hnew); congruence).
  apply wp_bind, (wp_task_of _ t); [cbn; rewrite lookup_insert_ne by done; by rewrite Ea|]. apply wp_bind, wp_upd. cbn [arcs set_arcs].
  rewrite (alter_insert_eq _ _ _ (Task_new (next_tid k))) by apply lookup_insert_eq. rewrite insert_insert_eq.
  set (tn := set_frames (set_arg0 0 (trapframe t)) None (Task_new (next_tid k))). assert (new_task (next_tid k) tn k') as Hn by (destruct Hnew; by split).
  eapply wp_mono; [apply (proj1 (start_wp _ tn (Some tid) k' HI' Hn ltac:(intros p [= <-]; rewrite Ea; by eexists)))|done|].
  intros e k2 [-> _]. by apply Hdrop.
Qed.

(** ** Ending tasks *)

Lemma get_init_task_wp (Q' : Z -> kernel Q -> Prop) (R : Sys.SysErrorKind -> kernel Q -> Prop) k : INV k ->
  (forall i t, init_task k = Some i -> arcs k !! i = Some t -> Q' i k) -> wp get_init_task Q' R k.
Proof.
  intros HI HQ. destruct (g_init _ _ _ (proj1 HI)) as (i & Hi & [t Ht]). unfold get_init_task. apply wp_bind.
  unfold wp at 1, get. rewrite Hi. apply wp_ret. by eapply HQ.
Qed.

Lemma reparent_wp tid p (Q' : unit -> kernel Q -> Prop) (R : Sys.SysErrorKind -> kernel Q -> Prop) x t k : INV k -> runs k x t ->
  (forall k' t', INV k' -> cpus k' = cpus k -> runs k' x t' -> at_pc t' = at_pc t -> dom (arcs k') = dom (arcs k) -> Q' tt k') ->
  wp (reparent tid p) Q' R k.
Proof.
  intros HI Hr HQ. unfold reparent. apply wp_bind, wp_upd. set (f := fun t0 => set_children _ t0). set (k1 := set_arcs _ k).
  destruct (upd_keeps_runs p f x t k Hr (keeps_add_child tid)) as (t1 & Hr1 & Hp1).
  assert (INV k1) as HI1 by (apply upd_keeps; [done|]; intros; apply keeps_add_child).
  apply wp_upd. destruct (upd_keeps_runs tid (set_parent (Some p)) x t1 k1 Hr1 (keeps_parent _)) as (t2 & Hr2 & Hp2).
  eapply (HQ _ t2); try done.
  - apply upd_keeps; [done|]. intros. apply keeps_parent.
  - congruence.
  - cbn. by rewrite !dom_alter_L.
Qed.

Lemma exit_take_INV tid t status k : INV k -> runs k tid t -> keeps_INV (exit_take tid status) k.
Proof.
  intros HI Hr. pose proof Hr as (Ht & _). unfold TaskCalls.keeps_INV, exit_take. apply wp_bind, (wp_task_of _ t); [done|].
  apply wp_bind, wp_upd. destruct (upd_keeps_runs tid (set_children []) tid t k Hr (keeps_children [])) as (t1 & Hr1 & Hp1).
  assert (INV (set_arcs (alter (set_children []) tid (arcs k)) k)) as HI1 by (apply upd_keeps; [done|]; intros; apply keeps_children).
  apply wp_bind, get_init_task_wp; [done|]. intros i ti Hi Hti. by eapply goto_INV.
Qed.

(** What [wakeup_if_waiting] does to the state. *)
Lemma wakeup_if_waiting_shape p tp k : arcs k !! p = Some tp ->
  (state tp <> Waitting /\ wakeup_if_waiting p k = (Ok tt, k)) \/
  (state tp = Waitting /\ wakeup_if_waiting p k =
    match enqueue_ready p (sched k) with
    | (Ok _, q') => (Ok tt, set_sched q' (set_arcs (<[p := set_state Runable tp]> (arcs k)) k))
    | (Err e, _) => match e with end
    | (Panic, q') => (Panic, set_sched q' (set_arcs (<[p := set_state Runable tp]> (arcs k)) k))
    end).
Proof.
  intros Hp. unfold wakeup_if_waiting, task_of, bind, get, unwrap. rewrite Hp. unfold ret. cbn beta iota. case_bool_decide as E.
  - right. split; [done|]. unfold wakeup_unchecked, upd, modify, bind, on_sched. rewrite (alter_insert_eq _ _ _ _ Hp). cbn [sched set_arcs].
    destruct (enqueue_ready p (sched k)) as [[[]|[]|] q']; done.
  - left. done.
Qed.

Lemma wakeup_if_waiting_wp p x t (Q' : unit -> kernel Q -> Prop) (R : Sys.SysErrorKind -> kernel Q -> Prop) k : INV k -> is_Some (arcs k !! p) -> runs k x t ->
  (forall k', INV k' -> runs k' x t -> Q' tt k') -> wp (wakeup_if_waiting p) Q' R k.
Proof.
  intros HI [tp Hp] Hr HQ. pose proof (wakeup_if_waiting_INV queued sched_ok p k HI ltac:(by eexists)) as Hw.
  unfold wp in *. destruct (wakeup_if_waiting_shape p tp k Hp) as [[Hs E]|[Hs E]]; rewrite E in *; [by apply HQ|].
  destruct (enqueue_ready p (sched k)) as [[u|[]|] q']; [|done]. apply HQ; [done|].
  destruct Hr as (Ht & Hst & Hsl & Hq). split_and!; try done. cbn. rewrite lookup_insert_ne; [done|]. intros ->. congruence.
Qed.

Lemma exit_reparent_INV tid t status cs z k : INV k -> runs k tid t -> keeps_INV (exit_reparent tid status cs z) k.
Proof.
  intros HI Hr. unfold TaskCalls.keeps_INV, exit_reparent. apply wp_bind, get_init_task_wp; [done|]. intros i ti Hi Hti.
  destruct cs as [|child cs].
  - apply wp_bind. destruct z; [|apply wp_ret; by eapply goto_INV].
    eapply (wakeup_if_waiting_wp i tid t); [done|by eexists|done|]. intros k' HI' Hr'. by eapply goto_INV.
  - apply wp_bind. unfold wp at 1, get. destruct (arcs k !! child) as [tc|] eqn:Hc; [|by eapply goto_INV].
    apply wp_bind. eapply (reparent_wp child i); [done|done|]. intros k' t' HI' _ Hr' Hp' Hdom.
    eapply goto_INV; try done. cbn. apply elem_of_dom. rewrite Hdom. apply elem_of_dom. by eexists.
Qed.

Lemma exit_check_INV tid t status child cs z k : INV k -> runs k tid t -> at_pc t = ExitCheck status child cs z ->
  keeps_INV (exit_check tid status child cs z) k.
Proof.
  intros HI Hr Hp. pose proof Hr as (Ht & _). pose proof (g_refs _ _ _ (proj1 HI) _ _ Ht) as Href. rewrite Hp in Href.
  destruct Href as [tc Hc]. apply wp_bind, (wp_task_of _ tc); [done|]. by eapply goto_INV.
Qed.

Lemma exit_parent_INV tid t status k : INV k -> runs k tid t -> keeps_INV (exit_parent tid status) k.
Proof.
  intros HI Hr. pose proof Hr as (Ht & _). apply wp_bind, (wp_task_of _ t); [done|]. apply wp_bind. unfold wp at 1, get.
  destruct (parent t ≫= _) as [p|] eqn:Ep.
  - eapply goto_INV; try done. cbn. destruct (parent t) as [p'|]; [|done]. cbn in Ep. destruct (arcs k !! p') eqn:E; [|done].
    cbn in Ep. simplify_eq. by eexists.
  - apply wp_bind, get_init_task_wp; [done|]. intros i ti Hi Hti.
    apply wp_bind. eapply (reparent_wp tid i); [done|done|]. intros k' t' HI' _ Hr' Hp' Hdom.
    eapply goto_INV; try done. cbn. apply elem_of_dom. rewrite Hdom. apply elem_of_dom. by eexists.
Qed.

Lemma exit_now_INV c tid t status p k : INV k -> cpus k !! c = Some (Some tid) -> runs k tid t -> at_pc t = ExitNow status p ->
  keeps_INV (exit_now c tid status p) k.
Proof.
  intros HI Hcpu Hr Hp. pose proof Hr as (Ht & Hst & Hsl & Hw). pose proof (g_refs _ _ _ (proj1 HI) _ _ Ht) as Href. rewrite Hp in Href.
  destruct Href as [tp Htp]. apply wp_bind, (wp_task_of _ tp); [done|]. apply wp_bind, wp_upd. rewrite (alter_insert_eq _ _ _ _ Ht).
  set (t' := set_pc Dead _). set (k0 := set_arcs _ k).
  assert (INV (set_cpu c None k0)) as HI1.
  { pose proof (INV_task _ _ _ _ _ HI Ht) as (_ & _ & _ & H4 & _). apply (block_core queued sched_ok c tid t t' k); try done.
    - exact (g_actions _ _ _ (proj1 HI) _ _ Ht).
    - by eapply timer_part_same.
    - cbn. rewrite Hsl. done.
    - by eapply wq_part_same.
    - intros w. split; [intros Hin; by apply Hw in Hin|]. intros [[E|E] _]; done. }
  assert (exists tp', arcs k0 !! p = Some tp') as [tp' Hp'].
  { cbn. destruct (decide (p = tid)) as [-> |]; [rewrite lookup_insert_eq; eauto|rewrite lookup_insert_ne by done; eauto]. }
  pose proof (wakeup_if_waiting_INV queued sched_ok p _ HI1 (ex_intro _ tp' Hp')) as HW.
  assert (arcs k0 !! tid = Some t') as Ht0 by apply lookup_insert_eq.
  apply wp_bind. unfold wp in HW |- *. destruct (wakeup_if_waiting_shape p tp' k0 Hp') as [[Hs E]|[Hs E]].
  - rewrite E. by apply (switch_back_blocked _ _ t').
  - destruct (wakeup_if_waiting_shape p tp' (set_cpu c None k0) Hp') as [[Hs' _]|[_ E']]; [done|]. rewrite E' in HW. rewrite E.
    cbn [sched set_cpu] in HW. destruct (enqueue_ready p (sched k0)) as [[u|[]|] q']; [|done].
    apply (switch_back_blocked _ _ t'); [|done|exact HW]. cbn [arcs set_sched set_arcs]. rewrite lookup_insert_ne; [done|].
    intros ->. rewrite Ht0 in Hp'. injection Hp' as <-. done.
Qed.

Lemma drop_task_INV tid t k : INV k -> arcs k !! tid = Some t -> unreferenced tid k = true -> keeps_INV (drop_task tid) k.
Proof.
  intros HI Ht Hun. unfold unreferenced in Hun. rewrite !andb_true_iff, !bool_decide_eq_true in Hun.
  destruct Hun as ((((Hntab & Hinit) & Hwq) & Htm) & Hh).
  pose proof (INV_task _ _ _ _ _ HI Ht) as (Hok & Hq & Hon & _).
  assert (state t = Zombie) as Hz.
  { unfold task_ok in Hok. destruct (state t); try done; exfalso; apply Hntab; tauto. }
  assert (INV (set_arcs (delete tid (arcs k)) k)) as HI1.
  { pose proof HI as [Hg Hc]. apply (INV_local queued sched_ok tid k); [done| | |].
    - intros x Hx. unfold same_view. cbn. by rewrite lookup_delete_ne.
    - unfold consistent. cbn. rewrite lookup_delete_eq. split_and!.
      + rewrite Hq. congruence.
      + intros Hcpu. apply Hon in Hcpu. congruence.
      + done.
      + intros e He. rewrite Forall_forall in Htm. by apply Htm.
      + intros w. unfold queue. cbn. destruct (wqs k !! w) as [q|] eqn:E; cbn; [|apply not_elem_of_nil]. by apply (Hwq w q E).
    - destruct Hg. split; try done; cbn.
      + destruct g_init as (i & Hi & Hs). exists i. split; [done|]. rewrite lookup_delete_ne; [done|]. congruence.
      + intros x Hx. apply g_fresh. destruct (decide (x = tid)) as [-> |]; [by eexists|by rewrite lookup_delete_ne in Hx].
      + intros x tx Hx. apply lookup_delete_Some in Hx as [Hne Hx]. specialize (g_refs x tx Hx). pose proof (Hh x tx Hx) as Hhx.
        cbn beta in Hhx. revert g_refs Hhx. destruct (at_pc tx); cbn; auto; intros Hr Hhx; apply Z.eqb_neq in Hhx; rewrite lookup_delete_ne by done; done.
      + intros x tx Hx. apply lookup_delete_Some in Hx as [Hne Hx]. by eapply g_actions. }
  unfold TaskCalls.keeps_INV, drop_task, remove_task. apply wp_bind, wp_bind, (wp_task_of _ t); [done|]. apply wp_bind. unfold wp at 1, get.
  destruct (sessions k !! sid t) as [s0|]; [|apply HI1]. unfold wp at 1, modify. cbn [arcs set_sessions]. 
  apply (set_sessions_INV _ _ HI1).
Qed.
End exits.
