(* ===== verification/TaskTheorems.v ===== *)
(** * Theorems on tasks *)

From S2P Require Import Prelude Vfs Sched SchedSpec Task TaskOps TaskCalls TaskExit.
Import Vfs.

#[local] Open Scope Z_scope.
#[local] Open Scope rw_scope.

Section theorems.
Context {Q : Type} `{Scheduler Q} (queued : Q -> list Z) (sched_ok : Q -> Prop) `{!SchedulerLaws Q queued sched_ok}.
Implicit Types (k : kernel Q) (t : Task) (tid : Z).

#[local] Notation INV := (INV queued sched_ok).
#[local] Notation KM := (M (kernel Q) Sys.SysErrorKind).
#[local] Notation keeps_INV := (keeps_INV queued sched_ok).

Lemma unit_value_INV {A} (m : KM A) k : keeps_INV m k -> keeps_INV (unit_value m) k.
Proof. intros Hm. apply keeps_bind; [done|]. intros _ k' HI. by apply keeps_ret. Qed.

Lemma running_cpu c k tid : running c k = Some tid -> cpus k !! c = Some (Some tid).
Proof. unfold running. destruct (cpus k !! c) as [o|]; cbn; [by intros ->|done]. Qed.

(** A call by the task that runs on [c] and is in no other call. *)
Lemma call_INV c (m : Z -> KM value) k : INV k ->
  (forall tid t, cpus k !! c = Some (Some tid) -> runs k tid t -> at_pc t = InUser -> keeps_INV (m tid) k) -> keeps_INV (call c m) k.
Proof.
  intros HI Hm. unfold TaskCalls.keeps_INV, call. apply wp_bind. unfold wp at 1, get.
  destruct (running c k) as [tid|] eqn:Hr; [|done]. apply running_cpu in Hr.
  destruct (INV_on_cpu _ _ _ _ _ HI Hr) as (t & Ht & Hst). apply wp_bind, (wp_task_of _ t); [done|].
  destruct (at_pc t) eqn:Hp; try done. eapply Hm; [done| |done]. eapply (runs_intro queued sched_ok); try done. congruence.
Qed.

Lemma go_on_INV c tid t k : INV k -> cpus k !! c = Some (Some tid) -> arcs k !! tid = Some t -> keeps_INV (go_on c tid (at_pc t)) k.
Proof.
  intros HI Hcpu Ht. destruct (at_pc t) eqn:Hp; cbn [go_on].
  6: { by eapply after_wq_INV. }
  all: assert (runs k tid t) as Hr by (eapply (runs_intro queued sched_ok); try done; congruence).
  - done.
  - by eapply after_sleep_INV.
  - by eapply after_wait_INV.
  - by eapply wait_INV.
  - by eapply reap_INV.
  - by eapply goto_then.
  - apply unit_value_INV. pose proof (g_refs _ _ _ (proj1 HI) _ _ Ht) as Href. rewrite Hp in Href.
    eapply handle_signals_INV; try done. congruence.
  - apply unit_value_INV. by eapply exit_take_INV.
  - apply unit_value_INV. by eapply exit_reparent_INV.
  - apply unit_value_INV. by eapply exit_check_INV.
  - apply unit_value_INV. by eapply exit_parent_INV.
  - apply unit_value_INV. by eapply exit_now_INV.
  - done.
Qed.

(** A change of the fields of the caller that the invariant does not see. *)
Lemma caller_upd tid t f k : INV k -> runs k tid t -> at_pc t = InUser -> (forall t, state (f t) = state t /\
  sleep_timer_event (f t) = sleep_timer_event t /\ at_pc (f t) = at_pc t /\ length (signal_actions (f t)) = length (signal_actions t)) ->
  wp (upd tid f) (fun _ k' => INV k' /\ exists t', runs k' tid t' /\ at_pc t' = InUser) (fun _ => INV) k.
Proof.
  intros HI Hr Hp Hf. destruct (Hf t) as (E1 & E2 & E3 & E4). apply wp_upd.
  destruct (run_upd queued sched_ok tid t f k) as [HI' Hr']; try done; [congruence|]. split; [done|]. exists (f t). split; [done|congruence].
Qed.

Lemma caller_upd_INV tid t f k : INV k -> runs k tid t -> at_pc t = InUser -> (forall t, state (f t) = state t /\
  sleep_timer_event (f t) = sleep_timer_event t /\ at_pc (f t) = at_pc t /\ length (signal_actions (f t)) = length (signal_actions t)) ->
  keeps_INV (upd tid f) k.
Proof. intros HI Hr Hp Hf. pose proof (caller_upd tid t f k HI Hr Hp Hf) as Hw. eapply wp_mono; [exact Hw|by intros ? k' []|done]. Qed.

Lemma may_call_intro c k tid t : running c k = Some tid -> arcs k !! tid = Some t -> at_pc t = InUser -> may_call c k = true.
Proof. intros Hr Ht Hp. unfold may_call. by rewrite Hr, Ht, Hp. Qed.

Lemma exec_INV a k : INV k -> spawn_fits a k = true -> keeps_INV (exec a) k.
Proof.
  intros HI Hfit. destruct a; cbn [exec].
  - apply wp_bind. unfold wp at 1, get. case_bool_decide; [|done]. apply unit_value_INV. by apply scheduler_pick_INV.
  - apply wp_bind. unfold wp at 1, get. case_bool_decide; [|done]. apply unit_value_INV. by apply timer_tick_INV.
  - apply unit_value_INV. by apply sched_tick_INV.
  - apply wp_bind. unfold wp at 1, get. destruct (running c k) as [tid|] eqn:Hr; [|done]. apply running_cpu in Hr.
    destruct (INV_on_cpu _ _ _ _ _ HI Hr) as (t & Ht & Hst). apply wp_bind, (wp_task_of _ t); [done|]. by apply go_on_INV.
  - apply call_INV; [done|]. intros tid t Hc Hr Hp. apply unit_value_INV. cbn [spawn_fits] in Hfit. rewrite (may_call_intro c k tid t) in Hfit by (try apply Hr; unfold running; by rewrite ?Hc).
    apply andb_prop in Hfit as [Hm%bool_decide_eq_true Hroom]. apply (spawn_INV queued sched_ok); try done. intros p [= <-]. exists t. apply Hr.
  - apply call_INV; [done|]. intros tid t Hc Hr Hp. apply unit_value_INV. apply (fork_INV queued sched_ok); [done|]. exists t. apply Hr.
  - apply call_INV; [done|]. intros tid t Hc Hr Hp. apply unit_value_INV. by eapply goto_INV.
  - apply call_INV; [done|]. intros tid t Hc Hr Hp. apply unit_value_INV. by apply yield_now_INV.
  - apply call_INV; [done|]. intros tid t Hc Hr Hp. eapply sleep_INV; try done. apply Hr.
  - apply call_INV; [done|]. intros tid t Hc Hr Hp. by eapply wait_INV.
  - apply call_INV; [done|]. intros tid t Hc Hr Hp. apply unit_value_INV. eapply wq_wait_INV; try done. apply Hr.
  - apply unit_value_INV. unfold TaskCalls.keeps_INV, signal_all. apply wp_bind. unfold wp at 1, get. by apply signal_all_loop_INV.
  - apply call_INV; [done|]. intros tid' t Hc Hr Hp. apply unit_value_INV. apply (kill_INV queued sched_ok); [done|]. exists t. apply Hr.
  - apply wp_bind. unfold wp at 1, get. case_bool_decide as Hd; [|done]. apply unit_value_INV. apply (send_signal_INV queued sched_ok); try done. by apply elem_of_dom.
  - apply call_INV; [done|]. intros tid t Hc Hr Hp. apply unit_value_INV. destruct how; try done.
    apply wp_bind, (wp_task_of _ t); [apply Hr|]. apply keeps_bind; [by eapply caller_upd_INV|]. intros _ k' HI'. by apply keeps_ret.
  - apply call_INV; [done|]. intros tid t Hc Hr Hp. apply unit_value_INV. unfold sigaction. destruct (_ || _); [done|].
    eapply caller_upd_INV; try done. intros t'. cbn. by rewrite length_insert.
  - apply call_INV; [done|]. intros tid t Hc Hr Hp. apply wp_bind. unfold sigreturn. apply wp_bind, (wp_task_of _ t); [apply Hr|].
    destruct (trapframe_backup t) as [tf|]; [|done]. pose proof (caller_upd tid t (set_frames tf None) k HI Hr Hp ltac:(done)) as Hw.
    eapply wp_mono; [exact Hw| |done]. intros _ k' (HI' & t' & Hr' & Hp').
    apply keeps_bind; [by eapply caller_upd_INV|]. intros _ k2 HI2. by apply keeps_ret.
  - apply call_INV; [done|]. intros tid t Hc Hr Hp. apply unit_value_INV. by eapply goto_INV.
  - apply call_INV; [done|]. intros tid t Hc Hr Hp. apply unit_value_INV. apply (create_session_INV queued sched_ok); [done|]. exists t. apply Hr.
  - apply call_INV; [done|]. intros tid t Hc Hr Hp. apply unit_value_INV. apply (set_tgid_INV queued sched_ok); [done|]. exists t. apply Hr.
  - apply wp_bind. unfold wp at 1, get. destruct (arcs k !! tid) as [t|] eqn:Ht; [|done]. destruct (unreferenced tid k) eqn:Hu; [|done].
    apply unit_value_INV. by eapply drop_task_INV.
Qed.

Lemma exec_panics a k : INV k -> spawn_fits a k = false -> exists k', exec a k = (Panic, k').
Proof.
  intros HI Hfit. destruct a; try done. cbn [spawn_fits] in Hfit. apply orb_false_elim in Hfit as [Hc%negb_false_iff Hno].
  unfold may_call in Hc. cbn [exec]. unfold call, bind at 1, get at 1. destruct (running c k) as [tid|]; [|done].
  destruct (arcs k !! tid) as [t|] eqn:Ht; [|done]. destruct (at_pc t) eqn:Hp; try done.
  destruct (spawn_panics queued sched_ok mem (Some tid) k HI) as [k' Hk'].
  - intros p [= <-]. by exists t.
  - apply andb_false_iff in Hno as [Hm%bool_decide_eq_false|Hr]; [by left|by right].
  - exists k'. unfold bind at 1, task_of at 1, bind at 1, get at 1, unwrap. rewrite Ht. unfold ret at 1. rewrite Hp.
    unfold unit_value, bind. by rewrite Hk'.
Qed.

Lemma execs_INV l k : INV k ->
  match execs l k with Some k' => spawns_fit l k = true /\ INV k' | None => spawns_fit l k = false end.
Proof.
  revert k. induction l as [|a l IH]; intros k HI; cbn; [done|]. destruct (spawn_fits a k) eqn:Hf.
  - pose proof (exec_INV a k HI Hf) as Ha. unfold TaskCalls.keeps_INV, wp in Ha.
    destruct (exec a k) as [[] k']; [by apply IH|by apply IH|done].
  - destruct (exec_panics a k HI Hf) as [k' ->]. done.
Qed.

(** An action that does not panic, whatever it is. *)
Lemma exec_keeps a k : INV k -> match exec a k with (Panic, _) => True | (_, k') => INV k' end.
Proof.
  intros HI. destruct (spawn_fits a k) eqn:Hf.
  - pose proof (exec_INV a k HI Hf) as Ha. unfold TaskCalls.keeps_INV, wp in Ha. by destruct (exec a k) as [[] k'].
  - by destruct (exec_panics a k HI Hf) as [k' ->].
Qed.

(** The state after booting. *)
Lemma boot_shape n : exists q', sched_ok q' /\ queued q' ≡ₚ [6300] /\
  boot n = mkKernel q' {[ 6300 := set_state Runable (Task_new 6300) ]} {[ 6300 ]} ∅ [] 0 6301 ∅ (replicate n None) (Some 6300).
Proof.
  destruct new_law as [Hok Hq]. destruct (enqueue_law sched_new 6300) as (q' & He & Hok' & Hqd); [done|rewrite Hq; apply not_elem_of_nil|by rewrite Hq|].
  rewrite Hq in Hqd. exists q'. split_and!; [done|done|].
  set (k2 := mkKernel q' _ _ _ _ _ _ _ _ _).
  enough (wp (spawn None None;; set_init_task 6300) (fun _ k => k = k2) (fun _ _ => False) (kernel_new n)) as Hw.
  { unfold wp, boot in *. by destruct ((spawn None None;; set_init_task 6300) (kernel_new n)) as [[] k']. }
  apply wp_bind. unfold spawn, unwrap_ok. apply wp_bind, wp_catch. unfold create. apply wp_bind, wp_ret, wp_bind. unfold wp at 1, get. cbn zeta.
  apply wp_bind. unfold wp at 1, modify. apply wp_bind. unfold wp at 1, modify. apply wp_ret.
  cbn [next_tid kernel_new arcs set_next_tid]. apply wp_bind, wp_catch. unfold start_with_parent.
  apply wp_bind, (wp_task_of _ (Task_new 6300)); [apply lookup_insert_eq|]. apply wp_bind, wp_assert; [done|].
  apply wp_bind. unfold wp at 1, get. apply wp_bind. cbn [table set_arcs set_next_tid kernel_new]. rewrite size_empty, andb_false_r.
  unfold wp at 1, modify. apply wp_bind, wp_ret. unfold wakeup.
  apply wp_bind, (wp_task_of _ (Task_new 6300)); [apply lookup_insert_eq|]. cbn [state Task_new]. unfold wakeup_unchecked.
  apply wp_bind, wp_upd. unfold wp at 1, on_sched. cbn [sched set_arcs set_table set_next_tid kernel_new]. rewrite He. apply wp_ret.
  unfold set_init_task. apply wp_bind. unfold wp at 1, get. cbn [init_task set_sched set_arcs set_table set_next_tid kernel_new table].
  rewrite bool_decide_true by set_solver. unfold wp, modify. subst k2. unfold set_init, set_sched. cbn.
  reflexivity.
Qed.

Lemma boot_INV n : INV (boot n).
Proof.
  destruct (boot_shape n) as (q' & Hok & Hqd & ->). assert (forall c o, replicate n (@None Z) !! c = Some o -> o = None) as Hcpu.
  { intros c o Hc. by apply lookup_replicate in Hc as [-> _]. }
  split.
  - split; cbn; try done.
    + rewrite Hqd. apply NoDup_singleton.
    + intros c c' tid Hc. by apply Hcpu in Hc.
    + intros w. unfold queue. cbn. rewrite lookup_empty. constructor.
    + constructor.
    + intros e He. by apply not_elem_of_nil in He.
    + exists 6300. by rewrite lookup_singleton_eq.
    + intros tid. rewrite lookup_singleton. case_decide; [lia|]. by intros [? ?].
    + intros tid t. rewrite lookup_singleton_Some. by intros [_ <-].
    + intros tid t. rewrite lookup_singleton_Some. by intros [_ <-].
  - intros tid. unfold consistent, on_cpu, queue. cbn [arcs sched cpus table timers wqs]. destruct (decide (tid = 6300)) as [-> |E].
    + rewrite lookup_singleton_eq, Hqd. split_and!; try done.
      * split_and!; try done. set_solver.
      * split; [|done]. intros [c Hc]. by apply Hcpu in Hc.
      * intros e He. by apply not_elem_of_nil in He.
      * intros w. rewrite lookup_empty. cbn. by intros ?%not_elem_of_nil.
    + rewrite lookup_singleton_ne, Hqd, list_elem_of_singleton by done. split_and!; try done.
      * intros [c Hc]. by apply Hcpu in Hc.
      * set_solver.
      * intros e He. by apply not_elem_of_nil in He.
      * intros w. rewrite lookup_empty. cbn. apply not_elem_of_nil.
Qed.

(** C38. For any scheduler that keeps the laws of schedulers, any number of
    processors and any interleaving of what tasks, interrupts and the last
    owners of tasks do: the kernel panics exactly when kernel code calls
    [spawn] and there is no memory for the task or no room in the table of
    tasks, which [fork] only reports; otherwise its assertions on states and
    timers hold and no dropped task is referred to.  A task is in the run
    queue, once, exactly when it is runable, and on a processor, one, exactly
    when it is running; a task that sleeps has its timer event, or is in the
    wait queue it waits in, or waits for a child or for a signal. *)
Theorem tasks_well_scheduled n l :
  (execs l (boot n) = None <-> spawns_fit l (boot n) = false) /\
  forall k, execs l (boot n) = Some k ->
    NoDup (queued (sched k)) /\
    (forall tid, tid ∈ queued (sched k) <-> exists t, arcs k !! tid = Some t /\ state t = Runable) /\
    (forall tid, on_cpu tid k <-> exists t, arcs k !! tid = Some t /\ state t = Running) /\
    (forall c c' tid, cpus k !! c = Some (Some tid) -> cpus k !! c' = Some (Some tid) -> c = c') /\
    (forall tid t, arcs k !! tid = Some t ->
      match state t with
      | Initialized => False
      | Blocked => exists w, at_pc t = AfterWq w false /\ tid ∈ queue w k
      | Interruptible =>
        (at_pc t = AfterSleep /\ exists e, e ∈ timers k /\ ev_task e = tid /\ sleep_timer_event t = Some (ev_id e)) \/
        (exists w, at_pc t = AfterWq w true /\ tid ∈ queue w k) \/ at_pc t = AfterSuspend
      | Waitting => exists q, at_pc t = AfterWait q
      | Running | Runable => tid ∈ table k
      | Zombie => at_pc t = Dead
      end).
Proof.
  pose proof (execs_INV l (boot n) (boot_INV n)) as Hx. split.
  { destruct (execs l (boot n)); [|done]. destruct Hx as [-> _]. done. }
  intros k Hk. rewrite Hk in Hx. destruct Hx as [_ HI]. pose proof HI as [Hg Hc]. split_and!; try done.
  - by eapply g_queued.
  - intros tid. specialize (Hc tid). unfold consistent in Hc. destruct (arcs k !! tid) as [t|].
    + destruct Hc as (_ & Hq & _). rewrite Hq. split; [eauto|]. by intros (t' & [= <-] & ?).
    + destruct Hc as (Hq & _). split; [done|]. by intros (t' & ? & _).
  - intros tid. specialize (Hc tid). unfold consistent in Hc. destruct (arcs k !! tid) as [t|].
    + destruct Hc as (_ & _ & Hq & _). rewrite Hq. split; [eauto|]. by intros (t' & [= <-] & ?).
    + destruct Hc as (_ & Hq & _). split; [done|]. by intros (t' & ? & _).
  - by eapply g_cpus.
  - intros tid t Ht. pose proof (INV_task _ _ _ _ _ HI Ht) as (Hok & _ & _ & _ & H5 & _ & H7). unfold task_ok in Hok.
    destruct (state t) eqn:E; try tauto.
    + destruct Hok as (_ & _ & w & Hw). exists w. split; [done|]. eapply H7; [done|by left].
    + destruct Hok as (_ & [(Hs & Hp)|(_ & [Hp|(w & Hw)])]).
      * left. split; [done|]. destruct (sleep_timer_event t) as [id|]; [|done]. destruct (H5 id eq_refl) as (e & He & Hev & Hid).
        exists e. split_and!; try done. by rewrite Hid.
      * by right; right.
      * right. left. exists w. split; [done|]. eapply H7; [done|by right].
Qed.
End theorems.

(** Two processors: the init task starts a child and waits for it, the child
    sleeps, is woken by its timer, and ends. *)
Definition example_actions : list action :=
  [Pick 0 0; Spawn 0 None; Pick 1 5; Wait 0 None; Sleep 1 50000000 10;
   TimerTick 1 60000000 (mkEvent (mkEventId 1 0) 6301 40000010); SchedTick 0 60000000; Pick 0 60000000; GoOn 0; Exit 0 3;
   GoOn 0; GoOn 0; GoOn 0; GoOn 0; Pick 1 70000000; GoOn 1; GoOn 1; GoOn 1; DropTask 6301].

Lemma tasks_well_scheduled_witness :
  exists k, execs example_actions (boot (Q := CFScheduler sorted_list) 2) = Some k /\
    NoDup (cfs_queued (fun t : sorted_list => `t) (sched k)).
Proof.
  destruct (tasks_well_scheduled (cfs_queued (fun t : sorted_list => `t)) (cfs_ok (fun t : sorted_list => `t)) 2 example_actions)
    as [[Hpanic _] Hrun].
  destruct (execs example_actions (boot 2)) as [k|].
  - exists k. split; [reflexivity|]. apply (Hrun k eq_refl).
  - specialize (Hpanic eq_refl). vm_compute in Hpanic. discriminate Hpanic.
Defined.

(** ** A wake-up that gets lost

    Task 6302 has found its parent, 6301, and has not ended yet.  The parent
    ends: it gives 6302, which is no zombie, to the init task.  The init task
    reaps 6301 and waits again.  Then 6302 ends and looks whether 6301 waits. *)
Definition orphan_actions : list action :=
  [Pick 0 0; Fork 0 None None; Wait 0 None; Pick 1 0; Fork 1 None None; Pick 0 0; Exit 0 0; GoOn 0; GoOn 0; GoOn 0;
   Exit 1 0; GoOn 1; GoOn 1; GoOn 1; GoOn 1; GoOn 1; GoOn 1; Pick 1 0; GoOn 1; GoOn 1; GoOn 1; Wait 1 None; GoOn 0].

(** The end of a task may not wake the init task that waits for it: when
    its parent ends between the moment it looks its parent up and the moment
    it becomes a zombie, it looks at the wrong task, and the init task sleeps
    on with a zombie child while nothing runs any more. *)
Theorem orphan_wakeup_lost :
  exists k t c, execs (H := RR.RRScheduler) orphan_actions (boot (H := RR.RRScheduler) 2) = Some k /\
    init_task k = Some 6300 /\ arcs k !! 6300 = Some t /\ state t = Waitting /\ at_pc t = AfterWait None /\ children t = [6302] /\
    arcs k !! 6302 = Some c /\ state c = Zombie /\ parent c = Some 6300 /\
    cpus k = [None; None] /\ sched k = [] /\ timers k = [].
Proof. do 3 eexists. split; [vm_compute; reflexivity|]. repeat split; vm_compute; reflexivity. Qed.
