(* ===== verification/TaskHistory.v ===== *)
(** * The exit status of a task

    Nothing changes a zombie's exit status, and its number is not used again,
    so that what [wait] returns is what the task passed to [exit]. *)

From S2P Require Import Prelude Vfs Sched SchedSpec Task TaskOps TaskCalls TaskExit TaskTheorems.
Import Vfs.

#[local] Open Scope Z_scope.
#[local] Open Scope rw_scope.

Section history.
Context {Q : Type} `{Scheduler Q}.
#[local] Notation KM := (M (kernel Q) Sys.SysErrorKind).
Implicit Types (k : kernel Q) (t : Task) (tid : Z).

(** The task [z] ended with [status], and may be gone since. *)
Variables (z status : Z).
Definition ended k : Prop :=
  z < next_tid k /\ (arcs k !! z = None \/ exists t, arcs k !! z = Some t /\ state t = Zombie /\ exit_status t = status).

(** [m] keeps that. *)
Definition st {A} (m : KM A) k : Prop := ended k -> ended (m k).2.

(** *** Rules *)

Lemma st_ret {A} (a : A) k : st (ret a) k.
Proof. by intros Hk. Qed.
Lemma st_fail {A} e k : st (fail e : KM A) k.
Proof. by intros Hk. Qed.
Lemma st_unwrap {A} (o : option A) k : st (unwrap o) k.
Proof. destruct o; by intros Hk. Qed.
Lemma st_ok_or {A} (o : option A) e k : st (ok_or o e) k.
Proof. destruct o; by intros Hk. Qed.
Lemma st_assert b k : st (assert_ b) k.
Proof. destruct b; by intros Hk. Qed.
Lemma st_bind {A B} (m : KM A) (f : A -> KM B) k : st m k -> (forall a k', st (f a) k') -> st (bind m f) k.
Proof.
  intros Hm Hf Hk. specialize (Hm Hk). unfold bind. destruct (m k) as [[] k']; cbn in *; [by apply Hf|done|done].
Qed.
Lemma st_get {B} (f : kernel Q -> KM B) k : st (f k) k -> st (bind get f) k.
Proof. done. Qed.
Lemma st_task {B} tid (f : Task -> KM B) k : (forall t, arcs k !! tid = Some t -> st (f t) k) -> st (bind (task_of tid) f) k.
Proof. intros Hf Hk. unfold task_of, bind, get, unwrap. destruct (arcs k !! tid) eqn:E; [by apply (Hf _ eq_refl)|done]. Qed.
Lemma st_catch {A} (m : KM A) h k : st m k -> (forall e k', st (h e) k') -> st (catch m h) k.
Proof. intros Hm Hh Hk. specialize (Hm Hk). unfold catch. destruct (m k) as [[] k']; cbn in *; [done|by apply Hh|done]. Qed.
Lemma st_same (f : kernel Q -> kernel Q) k : arcs (f k) = arcs k -> next_tid (f k) = next_tid k -> st (modify f) k.
Proof. intros E1 E2. unfold st, ended. cbn. by rewrite E1, E2. Qed.
Lemma st_on_sched {A} (m : M Q Empty_set A) k : st (on_sched m) k.
Proof. intros Hk. unfold on_sched. by destruct (m (sched k)) as [[|[]|] q]. Qed.
Lemma st_upd_ne tid f k : tid <> z -> st (upd tid f) k.
Proof. intros Hne [Hn Hz]. split; [done|]. cbn. by rewrite lookup_alter_ne. Qed.
Lemma st_upd_keeps tid f k : (forall t, state (f t) = state t /\ exit_status (f t) = exit_status t) -> st (upd tid f) k.
Proof.
  intros Hf [Hn Hz]. split; [done|]. cbn. destruct (decide (tid = z)) as [-> |Hne]; [|by rewrite lookup_alter_ne].
  rewrite lookup_alter_eq. destruct Hz as [-> |(t & -> & Ht & Hs)]; [by left|right]. exists (f t). destruct (Hf t) as [-> ->]. done.
Qed.
Lemma st_use {A} (m : KM A) k : (ended k -> st m k) -> st m k.
Proof. intros Hm Hk. by apply Hm. Qed.

(** A task that is no zombie is not [z]. *)
Lemma ended_ne tid t k : ended k -> arcs k !! tid = Some t -> state t <> Zombie -> tid <> z.
Proof. intros [_ [Hz|(t' & Hz & Hs & _)]] Ht Hn ->; congruence. Qed.

Ltac st_step :=
  lazymatch goal with
  | |- st (bind get _) _ => apply st_get
  | |- st (bind (task_of _) _) _ => apply st_task; intros ? ?
  | |- st (bind _ _) _ => apply st_bind; [|intros ? ?]
  | |- st (catch _ _) _ => apply st_catch; [|intros ? ?]
  | |- st (ret _) _ => apply st_ret
  | |- st (fail _) _ => apply st_fail
  | |- st (unwrap _) _ => apply st_unwrap
  | |- st (ok_or _ _) _ => apply st_ok_or
  | |- st (assert_ _) _ => apply st_assert
  | |- st (on_sched _) _ => apply st_on_sched
  | |- st (goto _ _) _ => unfold goto
  | |- st (modify _) _ => apply st_same; reflexivity
  | |- st (upd _ _) _ => first [apply st_upd_ne; assumption | apply st_upd_keeps; intros ?; split; reflexivity]
  | |- st (if ?x then _ else _) _ => destruct x
  | |- st (match ?x with _ => _ end) _ => destruct x
  | |- st (let _ := _ in _) _ => cbn zeta
  end.
Ltac st_auto := repeat st_step.

(** *** Operations *)

Lemma st_wakeup_unchecked tid k : tid <> z -> st (wakeup_unchecked tid) k.
Proof. intros Hne. unfold wakeup_unchecked. st_auto. Qed.

Lemma st_wakeup tid k : st (wakeup tid) k.
Proof.
  unfold wakeup. apply st_task. intros t Ht. apply st_use. intros Hk.
  destruct (state t) eqn:E; try apply st_ret; apply st_wakeup_unchecked; eapply ended_ne; try done; congruence.
Qed.

Lemma st_wakeup_if_waiting tid k : st (wakeup_if_waiting tid) k.
Proof.
  unfold wakeup_if_waiting. apply st_task. intros t Ht. apply st_use. intros Hk. case_bool_decide; [|apply st_ret].
  apply st_wakeup_unchecked. eapply ended_ne; try done. congruence.
Qed.

Lemma st_wakeup_if_interruptible tid k : st (wakeup_if_interruptible tid) k.
Proof.
  unfold wakeup_if_interruptible. apply st_task. intros t Ht. apply st_use. intros Hk. destruct (_ || _) eqn:E; [|apply st_ret].
  assert (tid <> z) as Hne.
  { eapply ended_ne; try done. intros Hz. rewrite Hz in E. done. }
  apply st_bind; [unfold remove_event; st_auto|]. intros _ k'. by apply st_wakeup_unchecked.
Qed.

Lemma st_send_signal tid sig k : st (send_signal tid sig) k.
Proof.
  unfold send_signal. destruct (sig =? 0); [apply st_ret|]. apply st_bind; [st_auto|]. intros _ k'.
  apply st_task. intros t Ht. destruct (contains _ _); [apply st_ret|apply st_wakeup_if_interruptible].
Qed.

Lemma st_signal_each tids sig k : st (signal_each tids sig) k.
Proof.
  revert k. induction tids as [|tid tids IH]; intros k; cbn [signal_each]; [apply st_ret|]. apply st_get, st_bind; [|intros _ k'; apply IH].
  destruct (arcs k !! tid); [apply st_send_signal|apply st_ret].
Qed.

Lemma st_kill_group tid sig k : st (kill_group tid sig) k.
Proof. unfold kill_group. st_auto. apply st_signal_each. Qed.

Lemma st_kill caller tid sig k : st (kill caller tid sig) k.
Proof.
  unfold kill, get_task_by_tid. destruct (tid =? 0); [apply st_kill_group|]. destruct (tid =? -1); [apply st_fail|]. st_auto.
  - apply st_kill_group.
  - apply st_send_signal.
Qed.

Lemma st_switch_back c tid k : st (switch_back c tid) k.
Proof. unfold switch_back. st_auto. Qed.

Lemma st_yield_now c tid k : tid <> z -> st (yield_now c tid) k.
Proof. intros Hne. unfold yield_now. apply st_bind; [st_auto|]. intros _ k'. apply st_switch_back. Qed.

Lemma st_scheduler_pick c now k : st (scheduler_pick c now) k.
Proof.
  unfold scheduler_pick. apply st_bind; [st_auto|]. intros [tid|] k'; [|apply st_ret]. apply st_task. intros t Ht. apply st_use. intros Hk.
  intros _. unfold bind, assert_. case_bool_decide as E; [|done]. cbn.
  apply (st_bind (upd tid (set_state Running)) (fun _ => modify (set_cpu c (Some tid)))); [|intros; st_auto|done].
  apply st_upd_ne. eapply ended_ne; try done. congruence.
Qed.

Lemma st_timer_tick c now e k : st (timer_tick c now e) k.
Proof.
  unfold timer_tick, sleep_callback. st_auto. apply st_wakeup.
Qed.

Lemma st_sched_tick c now k : (forall tid, default None (cpus k !! c) = Some tid -> tid <> z) -> st (sched_tick c now) k.
Proof.
  intros Hc. unfold sched_tick. apply st_get. cbn zeta. apply st_bind; [st_auto|]. intros b k'.
  destruct (default None (cpus k !! c)) as [tid|]; [|apply st_ret]. destruct b; [|apply st_ret]. apply st_yield_now. by apply Hc.
Qed.

Lemma st_handle_pending_signal tid signal k : tid <> z -> st (handle_pending_signal tid signal) k.
Proof. intros Hne. unfold handle_pending_signal, handle_action. st_auto. Qed.

Lemma st_handle_signals c tid signal k : tid <> z -> st (handle_signals c tid signal) k.
Proof.
  intros Hne. unfold handle_signals, suspend. destruct (_ <=? _).
  - apply st_bind; [by apply st_handle_pending_signal|]. intros _ k'. st_auto.
  - st_auto. apply st_switch_back.
Qed.

Lemma st_sleep c tid dur now k : tid <> z -> st (sleep c tid dur now) k.
Proof. intros Hne. unfold sleep, add_event. st_auto. apply st_switch_back. Qed.

Lemma st_wait c tid q k : tid <> z -> st (wait c tid q) k.
Proof.
  intros Hne. unfold wait. apply st_task. intros t Ht. destruct (is_interrupted_by_signal t); [st_auto|]. apply st_bind.
  - unfold remove_zombie_child. apply st_task. intros t' Ht'. apply st_get.
    destruct (scan_children (arcs k) q (children t')) as [[kept found] have]. st_auto.
  - intros [[child|] have] k'; [st_auto|]. destruct have; [|st_auto]. apply st_bind; [st_auto|]. intros _ k2.
    apply st_bind; [apply st_switch_back|]. intros _ k3. st_auto.
Qed.

Lemma st_wq_wait c tid w i k : tid <> z -> st (wq_wait c tid w i) k.
Proof. intros Hne. unfold wq_wait, push_back. st_auto. apply st_switch_back. Qed.

Lemma st_signal_all_loop fuel w k : st (signal_all_loop fuel w) k.
Proof.
  revert k. induction fuel as [|fuel IH]; intros k; cbn [signal_all_loop]; [apply st_ret|]. apply st_bind; [unfold pop_front; st_auto|].
  intros [tid|] k'; [|apply st_ret]. apply st_bind; [|intros _ k2; apply IH]. unfold wq_wakeup. apply st_task. intros t Ht.
  case_bool_decide; [apply st_ret|apply st_wakeup].
Qed.

Lemma st_on_group t f k : st (on_group t f) k.
Proof. unfold on_group. st_auto. Qed.

Lemma st_create_session tid k : st (create_session tid) k.
Proof. unfold create_session. st_auto. apply st_on_group. Qed.

Lemma st_set_tgid caller target g k : st (set_tgid caller target g) k.
Proof.
  unfold set_tgid, get_task_by_tid, move_task_or_create_grp. st_auto; apply st_on_group.
Qed.

Lemma st_drop_task tid k : st (drop_task tid) k.
Proof.
  unfold drop_task, remove_task. apply st_bind; [st_auto|]. intros _ k' [Hn Hz]. split; [done|]. cbn.
  destruct (decide (tid = z)) as [-> |Hne]; [left; apply lookup_delete_eq|by rewrite lookup_delete_ne].
Qed.

Lemma st_start tid p k : st (start_with_parent tid p) k.
Proof. unfold start_with_parent, try_add_task. st_auto; try apply st_wakeup; apply st_on_group. Qed.

Lemma st_create mem k : st (create mem) k.
Proof. destruct mem as [e|]; [by intros Hk|]. intros [Hn Hz]. cbn. split; cbn; [lia|]. by rewrite lookup_insert_ne by lia. Qed.

Lemma st_spawn mem p k : st (spawn mem p) k.
Proof. unfold spawn, unwrap_ok. st_auto; try (by intros ?); [apply st_create|apply st_start]. Qed.

Lemma st_fork mem copied p k : st (fork mem copied p) k.
Proof. unfold fork, memory. st_auto; [apply st_create|apply st_start|apply st_drop_task]. Qed.

Lemma st_exit_reparent tid s cs b k : st (exit_reparent tid s cs b) k.
Proof. unfold exit_reparent, get_init_task, reparent. st_auto. apply st_wakeup_if_waiting. Qed.

Lemma st_exit_now c tid s p k : tid <> z -> st (exit_now c tid s p) k.
Proof.
  intros Hne. unfold exit_now. st_auto; [apply st_wakeup_if_waiting|apply st_switch_back].
Qed.

Lemma st_go_on c tid p k : tid <> z -> st (go_on c tid p) k.
Proof.
  intros Hne. destruct p; cbn [go_on]; unfold after_sleep, after_wait, reap, after_wq, exit_take, exit_check, exit_parent, reparent, get_init_task.
  all: try (by st_auto).
  - by apply st_wait.
  - apply st_bind; [by apply st_handle_signals|]. intros. st_auto.
  - apply st_bind; [apply st_exit_reparent|]. intros. st_auto.
  - apply st_bind; [by apply st_exit_now|]. intros. st_auto.
Qed.

Lemma st_unit_value {A} (m : KM A) k : st m k -> st (unit_value m) k.
Proof. intros Hm. unfold unit_value. apply st_bind; [done|]. intros. st_auto. Qed.

Lemma st_call c (m : Z -> KM value) k : (forall tid, running c k = Some tid -> st (m tid) k) -> st (call c m) k.
Proof.
  intros Hm. unfold call. apply st_get. destruct (running c k) as [tid|]; [|apply st_ret]. apply st_task. intros t _.
  destruct (at_pc t); try apply st_ret. by apply Hm.
Qed.

Lemma st_exec a k : (forall c tid, running c k = Some tid -> tid <> z) -> st (exec a) k.
Proof.
  intros Hrun. destruct a; cbn [exec].
  - apply st_get. case_bool_decide; [|apply st_ret]. apply st_unit_value, st_scheduler_pick.
  - apply st_get. case_bool_decide; [|apply st_ret]. apply st_unit_value, st_timer_tick.
  - apply st_unit_value, st_sched_tick. apply Hrun.
  - apply st_get. destruct (running c k) as [tid|] eqn:E; [|apply st_ret]. apply st_task. intros t _. apply st_go_on. by eapply Hrun.
  - apply st_call. intros tid E. apply st_unit_value, st_spawn.
  - apply st_call. intros tid E. apply st_unit_value, st_fork.
  - apply st_call. intros tid E. apply st_unit_value. st_auto.
  - apply st_call. intros tid E. apply st_unit_value, st_yield_now. by eapply Hrun.
  - apply st_call. intros tid E. apply st_sleep. by eapply Hrun.
  - apply st_call. intros tid E. apply st_wait. by eapply Hrun.
  - apply st_call. intros tid E. apply st_unit_value, st_wq_wait. by eapply Hrun.
  - apply st_unit_value. unfold signal_all. apply st_get, st_signal_all_loop.
  - apply st_call. intros tid' E. apply st_unit_value, st_kill.
  - apply st_get. case_bool_decide; [|apply st_ret]. apply st_unit_value, st_send_signal.
  - apply st_call. intros tid E. apply st_unit_value. unfold sigprocmask. st_auto.
  - apply st_call. intros tid E. apply st_unit_value. unfold sigaction. st_auto.
  - apply st_call. intros tid E. unfold sigreturn, syscall_return. st_auto.
  - apply st_call. intros tid E. apply st_unit_value. st_auto.
  - apply st_call. intros tid E. apply st_unit_value, st_create_session.
  - apply st_call. intros tid E. apply st_unit_value, st_set_tgid.
  - apply st_get. destruct (arcs k !! tid); [|apply st_ret]. destruct (unreferenced tid k); [|apply st_ret]. apply st_unit_value, st_drop_task.
Qed.
End history.

Lemma exit_now_ended {Q : Type} `{Scheduler Q} c tid t status p tp (k : kernel Q) : arcs k !! tid = Some t -> tid < next_tid k ->
  arcs k !! p = Some tp -> ended tid status (exit_now c tid status p k).2.
Proof.
  intros Ht Hn Hp. unfold exit_now, bind at 1, task_of, bind at 1, get, unwrap. rewrite Hp. unfold ret. unfold bind at 1, upd, modify.
  set (k1 := set_arcs _ k). apply (st_bind tid status (wakeup_if_waiting p) (fun _ => switch_back c tid)).
  - apply st_wakeup_if_waiting.
  - intros _ k'. apply st_switch_back.
  - split; [done|]. right. cbn. rewrite lookup_alter_eq, Ht. cbn. eexists. split; [reflexivity|]. done.
Qed.

Section quiet.
Context {Q : Type} `{Scheduler Q}.
#[local] Notation KM := (M (kernel Q) Sys.SysErrorKind).

(** [m] does not return the status of a child. *)
Definition quiet (m : KM value) : Prop := forall k c s k', m k <> (Ok (VWaited (Some (c, s))), k').

Lemma quiet_ret v : (forall c s, v <> VWaited (Some (c, s))) -> quiet (ret v).
Proof. intros Hv k c s k' E. apply (Hv c s). injection E as -> _. done. Qed.
Lemma quiet_fail e : quiet (fail e).
Proof. done. Qed.
Lemma quiet_bind {A} (m : KM A) f : (forall a, quiet (f a)) -> quiet (bind m f).
Proof. intros Hf k c s k'. unfold bind. destruct (m k) as [[] k1]; [apply Hf|done|done]. Qed.

Ltac quiet_auto :=
  repeat lazymatch goal with
  | |- quiet (ret _) => apply quiet_ret; done
  | |- quiet (fail _) => apply quiet_fail
  | |- quiet (bind _ _) => apply quiet_bind; intros ?
  | |- quiet (unit_value _) => unfold unit_value
  | |- quiet (if ?x then _ else _) => destruct x
  | |- quiet (match ?x with _ => _ end) => destruct x
  end.

Lemma quiet_wait c tid q : quiet (wait c tid q).
Proof. unfold wait. quiet_auto. Qed.

Lemma quiet_go_on c tid p : (forall child, p <> Reaping child) -> quiet (go_on c tid p).
Proof.
  intros Hp. destruct p; cbn [go_on]; unfold after_sleep, after_wait, after_wq; quiet_auto; [apply quiet_wait|by edestruct Hp].
Qed.

Lemma quiet_task_call c (m : Z -> KM value) : (forall tid, quiet (m tid)) -> quiet (call c m).
Proof. intros Hm. unfold call. quiet_auto. apply Hm. Qed.

Lemma quiet_exec a : (forall c, a <> GoOn c) -> quiet (exec a).
Proof.
  intros Ha. destruct a; cbn [exec]; try (by edestruct Ha); try (apply quiet_task_call; intros ?); quiet_auto.
  - unfold sleep. quiet_auto.
  - apply quiet_wait.
Qed.

(** The only source of a child's status is [reap]. *)
Lemma waited_status a k child s k' : exec a k = (Ok (VWaited (Some (child, s))), k') ->
  exists t, arcs k !! child = Some t /\ exit_status t = s /\ child ∉ table k'.
Proof.
  intros E. destruct a; try (by apply quiet_exec in E). cbn [exec] in E. unfold bind at 1, get at 1 in E.
  destruct (running c k) as [tid|]; [|done]. unfold bind at 1, task_of at 1, bind at 1, get at 1, unwrap in E.
  destruct (arcs k !! tid) as [t|]; [|done]. unfold ret at 1 in E.
  destruct (at_pc t) eqn:Hp; try (by apply quiet_go_on in E).
  cbn [go_on] in E. unfold reap, bind at 1, modify at 1 in E. unfold bind at 1, task_of at 1, bind at 1, get at 1, unwrap in E. cbn [arcs set_table] in E.
  destruct (arcs k !! child0) as [tc|] eqn:Hc; [|done]. cbn in E. injection E as <- <- <-. exists tc. split_and!; try done. cbn. set_solver.
Qed.
End quiet.

Section status.
Context {Q : Type} `{Scheduler Q} (queued : Q -> list Z) (sched_ok : Q -> Prop) `{!SchedulerLaws Q queued sched_ok}.
Implicit Types (k : kernel Q).
#[local] Notation INV := (INV queued sched_ok).

(** A zombie does not run. *)
Lemma running_not_ended z status c tid k : INV k -> ended z status k -> running c k = Some tid -> tid <> z.
Proof.
  intros HI He Hr. apply running_cpu in Hr. destruct (INV_on_cpu _ _ _ _ _ HI Hr) as (t & Ht & Hs).
  eapply ended_ne; try done. congruence.
Qed.

Lemma execs_ended z status l k k' : INV k -> ended z status k -> execs l k = Some k' -> INV k' /\ ended z status k'.
Proof.
  revert k. induction l as [|a l IH]; intros k HI He Hx; cbn in Hx; [by simplify_eq|].
  pose proof (exec_keeps queued sched_ok a k HI) as Ha.
  assert (ended z status (exec a k).2) as He'.
  { apply st_exec; [|done]. intros c tid. by eapply running_not_ended. }
  destruct (exec a k) as [[] k1]; try done; by apply (IH k1).
Qed.

End status.

(** ** The theorem *)

Section delivered.
Context {Q : Type} `{Scheduler Q} (queued : Q -> list Z) (sched_ok : Q -> Prop) `{!SchedulerLaws Q queued sched_ok}.

(** C39. When a task ends with a status, then however other tasks go on after
    that, the [wait] that returns the task returns the status that was passed
    to [exit], and takes the task out of the global table. *)
Theorem exit_status_delivered n c tid t status p l1 l2 a (k0 k1 k2 k3 : kernel Q) s :
  execs l1 (boot n) = Some k0 -> running c k0 = Some tid -> arcs k0 !! tid = Some t -> at_pc t = ExitNow status p ->
  exec (GoOn c) k0 = (Ok VUnit, k1) -> execs l2 k1 = Some k2 -> exec a k2 = (Ok (VWaited (Some (tid, s))), k3) ->
  s = status /\ tid ∉ table k3.
Proof.
  intros Hl1 Hr Ht Hp Hx Hl2 Ha. pose proof (execs_INV queued sched_ok l1 (boot n) (boot_INV queued sched_ok n)) as HI0. rewrite Hl1 in HI0. destruct HI0 as [_ HI0].
  pose proof (exec_keeps queued sched_ok (GoOn c) k0 HI0) as HI1. rewrite Hx in HI1.
  assert (ended tid status k1) as He.
  { pose proof (g_refs _ _ _ (proj1 HI0) _ _ Ht) as Href. rewrite Hp in Href. destruct Href as [tp Htp].
    pose proof (exit_now_ended c tid t status p tp k0 Ht (g_fresh _ _ _ (proj1 HI0) _ (ex_intro _ t Ht)) Htp) as He.
    cbn [exec] in Hx. unfold bind at 1, get at 1 in Hx. rewrite Hr in Hx.
    unfold bind at 1, task_of at 1, bind at 1, get at 1, unwrap in Hx. rewrite Ht in Hx. unfold ret at 1 in Hx. rewrite Hp in Hx.
    cbn [go_on] in Hx. unfold bind at 1 in Hx. destruct (exit_now c tid status p k0) as [[u|e|] k']; unfold ret in Hx; cbn in He;
      [injection Hx as <-; exact He|discriminate|discriminate]. }
  destruct (execs_ended queued sched_ok tid status l2 k1 k2 HI1 He Hl2) as [HI2 He2].
  destruct (waited_status a k2 tid s k3 Ha) as (tz & Htz & Hs & Htab). split; [|done].
  destruct He2 as [_ [Hno|(t' & Ht' & _ & Hst)]]; congruence.
Qed.
End delivered.

(** The child of the example ends with 3, which the init task gets. *)
Lemma exit_status_delivered_witness :
  exists k0 k1 k2 k3,
    execs (H := RR.RRScheduler) (take 13 example_actions) (boot (H := RR.RRScheduler) 2) = Some k0 /\
    exec (H := RR.RRScheduler) (GoOn 0) k0 = (Ok VUnit, k1) /\
    execs (H := RR.RRScheduler) (Prelude.slice 14 17 example_actions) k1 = Some k2 /\
    exec (H := RR.RRScheduler) (GoOn 1) k2 = (Ok (VWaited (Some (6301, 3))), k3) /\
    3 = 3 /\ 6301 ∉ table k3.
Proof.
  do 4 eexists. split; [vm_compute; reflexivity|]. split; [vm_compute; reflexivity|]. split; [vm_compute; reflexivity|].
  split; [vm_compute; reflexivity|].
  eapply (exit_status_delivered (H := RR.RRScheduler) (SchedulerLaws0 := RR.rr_laws) (fun q => q) (fun _ => True) 2 0 6301 _ 3 6300 (take 13 example_actions)
    (Prelude.slice 14 17 example_actions) (GoOn 1)); vm_compute; reflexivity.
Defined.
